(* ===== verification/_CoqProject ===== *)
-Q . S2P
Prelude.v
ShmState.v
ShmGuard.v
WfusyncServer.v
WfusyncServerOps.v
WfusyncRegistry.v
WfusyncWake.v
WfusyncServerInv.v
WfusyncHistory.v
WfusyncPending.v
WfusyncServerSpec.v
WfusyncClient.v
WfusyncClientOps.v
WfusyncLock.v
WfusyncRace.v
WfusyncClientSpec.v
WfusyncClientAgree.v
WfusyncCache.v
WfusyncClientWait.v
WfusyncLocalAll.v
Security.v
ServerObjects.v
ServerObjectsSpec.v
ServerMutexSpec.v
ServerInv.v
ServerRefs.v
ServerTake.v
ServerSatisfied.v
ServerEndWait.v
ServerWake.v
ServerSteps.v
ServerRelease.v
ServerCreate.v
ServerHandles.v
ServerQueue.v
ServerSelect.v
ServerLoop.v
ServerSafe.v
ServerFindings.v
Timers.v
TimersSpec.v
Atoms.v
AtomsInv.v
AtomsSpec.v
AtomsHistory.v
RegStrings.v
RegStringsSpec.v
RegKeys.v
RegArrays.v
RegTouch.v
RegValueSpec.v
RegValueHistory.v
RegFile.v
RegNumbers.v
RegFileSpec.v
RegWitness.v
RegTree.v
RegTreeInv.v
RegTreeLookup.v
RegTreeLinks.v
RegTreeCreate.v
RegTreeChange.v
RegTreeHistory.v
RegTreeWitness.v
RegView.v
RegSave.v
RegSaveText.v
RegLoad.v
RegRoundTrip.v
RegRoundTripWitness.v
RegRequests.v
SecuritySpec.v
HandleTable.v
HandleTableInv.v
HandleTableOps.v
HandleTableSpec.v
HandleTableExit.v
HandleTableCopy.v
HandleTableWitness.v
HandleFindings.v
