(* ===== verification/Prelude.v ===== *)
(** * Verification of the WineForge synchronisation core

    WineForge is a Wine whose events, semaphores and mutexes can live in memory that the
    server and all client processes map (WFUSync). This library models that
    mechanism on both sides, the objects, waits and handles of the server around it, and
    the access check that decides what a handle may do, and proves what they promise.

    ** The program and its parts

    - The server owns a file of 16-byte cells, one per object. [src/server/wfusync.c]
      allocates the cells, performs operations on them for clients that cannot, and keeps
      a registry of clients that wait for several objects.
    - Each process caches which cell a handle stands for and performs signals and waits on
      the cell itself, under a lock bit in its type word
      ([src/dlls/ntdll/unix/wfusync.c]). It calls the server when the object has waiters
      there, or when the wait is for several objects.
    - [src/server/event.c], [semaphore.c] and [mutex.c] implement the objects, with a cell
      or without one; [src/server/thread.c] has the queues of waiting threads, which both
      kinds use ([check_wait], [end_wait], [wake_up], [select_on]).
    - [src/server/handle.c] maps the handles of each process to objects, and keeps the
      handle counts of [src/server/object.c].
    - [src/server/fd.c] keeps the timers and runs the main loop; [src/server/request.c]
      dispatches requests.
    - [src/server/atom.c] keeps tables of atoms: numbers for names.
    - [src/server/registry.c] keeps the registry: a tree of keys with values, in memory, and
      writes them to text files with the escapes of [src/server/unicode.c]. Keys are objects,
      which [src/server/object.c] names, looks up, creates and frees.
    - [src/server/token.c] computes the access that a security descriptor grants a token.

    ** Files

    Each C function is the definition of the same name; manifest entries give the lines.

    - Prelude: C integers with their wrap-around, the monad of C functions ([Done],
      a failed assertion, waiting for a lock forever, no fuel), its total-correctness
      predicate [wp] with loop rules, bit lemmas, tactics and hint databases.
    - ShmState: the cells, their words and the accesses both sides make. [HasShm] is the
      interface between the two sides: the server state and the client state are
      instances, and what is proved for it holds in both. ShmGuard: marking a set of cells
      with a flag bit.
    - WfusyncServer: all of [src/server/wfusync.c]. WfusyncServerOps, WfusyncRegistry,
      WfusyncWake: one part of its theory each. WfusyncServerInv and
      WfusyncHistory: its invariant, over arbitrary histories of operations.
      WfusyncServerSpec: the theorems.
    - WfusyncClient: all of [src/dlls/ntdll/unix/wfusync.c]. WfusyncClientOps,
      WfusyncCache, WfusyncClientSpec, WfusyncClientWait, WfusyncLocalAll: its theory and
      theorems. WfusyncClientAgree: a process and the server perform the same operation.
    - WfusyncLock and WfusyncRace: the protocols between processes as step relations, one
      atomic access of shared memory per step, for any number of processes.
    - ServerObjects: the objects, queues and requests of the server. ServerObjectsSpec and
      ServerMutexSpec: an object with a cell and one without refine the same abstract
      object. WfusyncPending: the invariant of WFUSync while one object has yet to wake its
      waiters.
    - ServerInv: the invariant of the server, over an explicit map of all references.
      ServerRefs, ServerTake, ServerSatisfied, ServerEndWait, ServerWake: how
      [grab_object], [check_wait], the [satisfied] methods, [end_wait] and [wake_up] act on
      it. ServerSteps, ServerRelease, ServerCreate, ServerHandles, ServerQueue,
      ServerSelect: that requests keep it, and that a wait with a timeout has a cookie.
    - ServerLoop: requests, timeouts and client writes, one after the other. ServerSafe: the
      theorems about every such run. ServerFindings: failures.
    - Timers and TimersSpec: the timers of the main loop.
    - Atoms: the tables of atoms, linked lists on a heap. AtomsInv, AtomsSpec,
      AtomsHistory: invariant, insertion and removal, each operation, all histories.
    - RegStrings and RegStringsSpec: strings with escapes. RegKeys: keys of the registry and
      their values. RegArrays, RegTouch, RegValueSpec, RegValueHistory: sorted arrays with the
      search and the map of a key, marks and notifications with the steps that change values,
      each operation on values, all histories. RegFile: values as text. RegNumbers,
      RegFileSpec: numbers, lines, the text of a value, and that it is read back. RegWitness: a
      concrete registry.
    - RegTree: the tree of keys and the requests on it. RegTreeInv, RegTreeLookup,
      RegTreeLinks, RegTreeCreate, RegTreeChange, RegTreeHistory: its invariant and
      references, paths, a key that comes or goes, creation, deletion and new names, all
      histories. RegTreeWitness: a concrete tree.
    - RegSave: how a tree is written to a text file and a file is loaded. RegView: what a
      tree holds, as a list of paths with their contents. RegSaveText: the text that is
      written. RegLoad, RegRoundTrip: what each line does, and that a tree is loaded as it was
      saved. RegRoundTripWitness: concrete trees. RegRequests: the requests that
      describe or watch keys with their theorems, and the requests on values.
    - Security and SecuritySpec: tokens and the access check.
    - HandleTable: the handle tables. HandleTableInv, HandleTableOps, HandleTableSpec,
      HandleTableExit, HandleTableCopy, HandleTableWitness, HandleFindings: invariant,
      specifications, theorems, a concrete table, failures.

    ** What the theorems show

    - Server side of WFUSync: every history of operations keeps an invariant under which
      no assertion fails and no registered waiter sleeps on a signaled object, except on a
      mutex that SignalObjectAndWait released, which does not wake them: the class
      [Stranded] carries the set of these objects through the invariant
      ([history_safe], [operation_completes]); creation, destruction, signals,
      registration and the wait-all do exactly what they should.
    - Between processes: the lock bit excludes and never blocks for good
      ([lock_exclusion], [every_state_can_finish]); a signal that races with a
      registration is not lost, apart from the same release ([no_lost_wakeup_interleaved]).
    - Client side: the cache and its lock, which every path takes and gives back by itself
      as in the code ([cache_lock_discipline]), the agreement of each fast path with the
      system call it replaces, single waits and the wait-all as atomic operations.
    - Server objects: abstract semaphores, events and mutexes, with and without a cell.
    - The server as a whole: every admissible sequence of requests and timeouts is served
      without a failed assertion or a dangling pointer ([requests_safe]); afterwards
      objects live exactly as long as something refers to them, queues hold exactly the
      waits, handles name objects that are what their types say
      ([objects_and_queues_exact], [handles_well_typed]); setting a manual-reset event
      leaves no satisfiable wait in its queue ([set_event_wakes_all]). Admissible excludes
      what the findings show to fail, and SignalObjectAndWait.
    - Timers: sorted lists, every due timer called once, a sleep that never ends early
      and at most a millisecond late.
    - Atoms: a table is a finite map from numbers to names that differ in more than case,
      with reference counts, over every history and every failure of the allocator.
    - Registry: the values of each key are a finite map from names, up to case, over every
      history of operations and every failure of the allocator ([registry_values_refine]); a
      string, and a value of any type, is read back from a file as it was written
      ([dump_parse_roundtrip], [dumped_value_loads]). Its keys are a tree, in which a path
      leads from child to child: every sequence of requests that open, create, delete or
      rename keys, or close their handles, does what is said of the tree alone, with sorted
      arrays and exact reference counts ([registry_tree_refines]). A tree that is saved to a
      file and loaded into an empty key has the same keys there, with the same values and
      classes ([saved_tree_loads]), except for volatile keys and for those with nothing but
      volatile keys below ([key_above_volatile_lost]). Its subkeys are listed in order, each
      once ([enumeration_lists_subkeys]); the full name of a key leads to it
      ([full_name_leads_back]). An event that is registered for changes of a key is set exactly
      once, by a change or when the handle is closed ([registered_event_set_once]).
    - Handle tables: for each process a finite map from handles to objects; allocation,
      closing, inheritance and exit are the operations on that map, keep the counts of the
      objects, and never access an array out of bounds. Closing is proved for close hooks
      that leave the tables and the handle counts alone: a condition on the hook of the
      closed object ([close_handle_correct]), or on all hooks ([hooks_ok], for the end of a
      process). The hook of a job that kills its processes does not, and crashes the server
      ([close_job_handle_null_dereference]).
    - Access checks: which entries of an access list decide each right, for specific rights
      and for the greatest access, with the privilege for the system security right and the
      reply of the privileges used.

    ** State, bounds and fuel

    Pointers are byte offsets in shared memory or keys of heaps. What the code dereferences
    without a test is a failed assertion of the model when it is NULL or freed. Integers
    are [Z] with the wrap-around of their width where the code computes with them. Answers
    of the allocator, of system calls, of the clock and of sleeps come from lists in the
    state, over which theorems quantify.

    Loops of the code with a bound that is not structural take fuel: [release_levels] 2,
    because a sync object owns no object; [wake_thread] the number of waits of the thread and
    [wake_up] the number of all waits, because each turn ends one (proved sufficient in
    ServerWake); the loops over owned mutexes the length of their list, which each turn shortens;
    a search in a hash list of atoms the number of entries; the binary search the length of
    the array, loops up to the root of the registry the number of keys, the lookup of a path
    its length times the number of keys, at most 33 symbolic links below each other as in the
    code, keys that go away or are saved or deleted with their subkeys the number of keys,
    loops that read text its length;
    lock loops one attempt, since no other process runs in the sequential model: a lock
    that is held is [Spinning] there, and WfusyncLock has the interleavings. The wait loops
    of the client take the number of answers of the environment.

    ** Interfaces

    [HasShm] (above); [PageSize], the page size of the machine; [ObjectTypes], the
    operations table of an object as HandleTable calls it: theorems about handle tables
    assume of its methods that they do not change the tables and the handle counts
    ([hook_keeps] of one close hook where it runs, [destroys_ok] of the destroy methods,
    [hooks_ok] of all); they may do anything to other objects. [Stranded], the objects whose
    registered waiters may sleep although they are signaled: none by default. The callbacks of
    timers are a parameter of Timers, assumed to return ([returns]). Of paths that lead out of
    the registry RegTree knows the error, a parameter, and nothing is assumed of it. [CaseMap] is the table
    of lower-case letters that the server reads from a file; nothing is assumed of it.

    ** Failures that modelling showed

    Eight, proved in ServerFindings and HandleFindings, in general or on concrete histories: a
    mutex released by SignalObjectAndWait does not wake registered waiters; closing the last handle
    of a kill-on-close job from a process in it dereferences NULL; a 16-bit reference count wraps;
    an abandoned mutex is used after it is freed; waiting for all of two handles to one
    semaphore fails an assertion; a wait that has expired takes the only wake-up of an
    event; closing a global handle writes out of bounds; duplicating into a global handle
    dereferences NULL. In [token_access_check], the early exit that a comment describes
    never happens. In the registry, a key made by an absolute path is not saved when it
    changes later, the class of a key grows when it is saved and loaded, a value that
    cannot be loaded for want of memory has no type, a key without a name ends the server,
    a symbolic link to an object of another type is read as a key, the class of a key that
    is refused is lost, a key with nothing but volatile subkeys is not saved, and a key whose
    name begins with a zero is loaded into the key above. A full name for which there is no
    memory is reported as empty, without an error.

    ** Not modelled

    Of the registry: the requests on files, the files themselves and when they are saved,
    failures to write them. The theorems on the tree leave
    out symbolic links and the 32-bit view, which the definitions have. Of the other files above: keyed events, names and security of objects, [open_object], the
    enumeration of all handles of the system, dump functions, wakeups whose write fails and the
    killing of threads, packed security descriptors with their validation, the creation and
    adjustment of tokens, and the branches that Apple platforms do not compile (there
    [get_inproc_device_fd] is -1, so [inproc_sync] objects are never created). Of the rest
    of the repository: everything else the server does, which is mostly POSIX I/O; ntdll's
    virtual memory, loader and signal handling, bound to the operating system; the other
    DLLs, drivers, programs and vendored libraries, which are independent of this core. *)

From Stdlib Require Export ZArith Lia.
From stdpp Require Export base tactics numbers list gmap option.

#[global] Open Scope Z_scope.

(** ** Machine integers

    C integers are [Z] with the wrap-around of their width written out. *)

Definition u16 (x : Z) : Z := x mod 2 ^ 16.
Definition u32 (x : Z) : Z := x mod 2 ^ 32.
Definition s32 (x : Z) : Z := (x + 2 ^ 31) mod 2 ^ 32 - 2 ^ 31.
Definition s64 (x : Z) : Z := (x + 2 ^ 63) mod 2 ^ 64 - 2 ^ 63.
Definition u64 (x : Z) : Z := x mod 2 ^ 64.

Definition INT_MAX : Z := 2 ^ 31 - 1.

(** C truth values: [b2z] is what a comparison yields, [truth] what [if] tests. *)
Definition b2z (b : bool) : Z := if b then 1 else 0.
Definition truth (x : Z) : bool := negb (x =? 0).

(** ** Outcomes of a C function

    A run either returns with a new state, fails an [assert], waits forever for
    another process to release a lock bit, or exhausts the recursion bound given
    to it. *)

Inductive outcome (S A : Type) : Type :=
| Done (a : A) (s : S)
| AssertFailed
| Spinning
| NoFuel.
Arguments Done {S A} a s.
Arguments AssertFailed {S A}.
Arguments Spinning {S A}.
Arguments NoFuel {S A}.

Definition M (S A : Type) : Type := S → outcome S A.

#[global] Instance M_ret {S} : MRet (M S) := λ A a s, Done a s.
#[global] Instance M_bind {S} : MBind (M S) := λ A B f m s,
  match m s with
  | Done a s' => f a s'
  | AssertFailed => AssertFailed
  | Spinning => Spinning
  | NoFuel => NoFuel
  end.

Definition gets {S A} (f : S → A) : M S A := λ s, Done (f s) s.
Definition modify {S} (f : S → S) : M S unit := λ s, Done tt (f s).
Definition c_assert {S} (b : bool) : M S unit :=
  λ s, if b then Done tt s else AssertFailed.
Definition spin {S A} : M S A := λ _, Spinning.
Definition no_fuel {S A} : M S A := λ _, NoFuel.
Definition when {S} (b : bool) (m : M S unit) : M S unit := if b then m else mret tt.

(** [for_each l f] runs [f] on every element; [for_until l f] stops at the first
    element for which [f] returns a value (a [return], [goto] or [break] out of the
    loop). *)
Fixpoint for_each {S A} (l : list A) (f : A → M S unit) : M S unit :=
  match l with
  | [] => mret tt
  | x :: l => _ ← f x; for_each l f
  end.
Fixpoint for_until {S A R} (l : list A) (f : A → M S (option R)) : M S (option R) :=
  match l with
  | [] => mret None
  | x :: l => r ← f x; match r with Some _ => mret r | None => for_until l f end
  end.

(** ** Total-correctness reasoning *)

Definition wp {S A} (m : M S A) (Q : A → S → Prop) (s : S) : Prop :=
  match m s with Done a s' => Q a s' | _ => False end.

Section wp.
Context {S : Type}.
Implicit Types (s : S).

Lemma wp_done {A} (m : M S A) Q s : wp m Q s ↔ ∃ a s', m s = Done a s' ∧ Q a s'.
Proof. unfold wp. destruct (m s); naive_solver. Qed.

Lemma wp_ret {A} (a : A) Q s : wp (mret a) Q s ↔ Q a s.
Proof. done. Qed.

Lemma wp_bind {A B} (m : M S A) (f : A → M S B) Q s :
  wp (m ≫= f) Q s ↔ wp m (λ a s', wp (f a) Q s') s.
Proof. unfold wp, mbind, M_bind. by destruct (m s). Qed.

Lemma wp_gets {A} (f : S → A) Q s : wp (gets f) Q s ↔ Q (f s) s.
Proof. done. Qed.

Lemma wp_modify f Q s : wp (modify f) Q s ↔ Q tt (f s).
Proof. done. Qed.

Lemma wp_assert b Q s : wp (c_assert b) Q s ↔ b = true ∧ Q tt s.
Proof. unfold wp, c_assert. destruct b; naive_solver. Qed.

Lemma wp_when b m Q s : wp (when b m) Q s ↔ if b then wp m Q s else Q tt s.
Proof. by destruct b. Qed.

Lemma wp_mono {A} (m : M S A) (Q Q' : A → S → Prop) s :
  wp m Q s → (∀ a s', Q a s' → Q' a s') → wp m Q' s.
Proof. unfold wp. destruct (m s); naive_solver. Qed.

Lemma wp_conj {A} (m : M S A) (Q Q' : A → S → Prop) s :
  wp m Q s → wp m Q' s → wp m (λ a s', Q a s' ∧ Q' a s') s.
Proof. unfold wp. destruct (m s); naive_solver. Qed.

(** Loop rule: an invariant over the processed prefix. *)
Lemma wp_for_each {A} (l : list A) f (I : list A → S → Prop) s :
  I [] s →
  (∀ done x rest s', l = done ++ x :: rest → I done s' →
     wp (f x) (λ _ s'', I (done ++ [x]) s'') s') →
  wp (for_each l f) (λ _ s', I l s') s.
Proof.
  intros H0 Hstep.
  enough (∀ rest pre s', l = pre ++ rest → I pre s' →
            wp (for_each rest f) (λ _ s'', I l s'') s') as H by by apply (H l []).
  intros rest. induction rest as [|x rest IH]; intros pre s' -> Hpre; simpl.
  - rewrite wp_ret. by rewrite app_nil_r.
  - rewrite wp_bind. eapply wp_mono; [by eapply (Hstep pre x rest)|].
    intros [] s'' Hs. apply IH with (pre := pre ++ [x]); [by rewrite <- app_assoc|done].
Qed.

Lemma wp_for_until {A R} (l : list A) f (I : list A → S → Prop)
    (Q : option R → S → Prop) s :
  I [] s →
  (∀ done x rest s', l = done ++ x :: rest → I done s' →
     wp (f x) (λ r s'', match r with
                        | Some _ => Q r s''
                        | None => I (done ++ [x]) s''
                        end) s') →
  (∀ s', I l s' → Q None s') →
  wp (for_until l f) Q s.
Proof.
  intros H0 Hstep Hend.
  enough (∀ rest pre s', l = pre ++ rest → I pre s' →
            wp (for_until rest f) Q s') as H by by apply (H l []).
  intros rest. induction rest as [|x rest IH]; intros pre s' -> Hpre; simpl.
  - rewrite wp_ret. apply Hend. by rewrite app_nil_r.
  - rewrite wp_bind. eapply wp_mono; [by eapply (Hstep pre x rest)|].
    intros [r|] s'' Hs; [by rewrite wp_ret|].
    apply IH with (pre := pre ++ [x]); [by rewrite <- app_assoc|done].
Qed.
End wp.

Create HintDb wp_db.
#[export] Hint Rewrite @wp_ret @wp_bind @wp_gets @wp_modify @wp_assert @wp_when : wp_db.

(** One simplification pass over the monadic structure of a [wp] goal. *)
Ltac wp_simpl := repeat (autorewrite with wp_db; simpl).

(** ** Bit masks *)

Lemma land_pow2_testbit x n :
  0 ≤ n → (Z.land x (2 ^ n) =? 0) = negb (Z.testbit x n).
Proof.
  intros Hn. apply eq_true_iff_eq. rewrite Z.eqb_eq, negb_true_iff. split.
  - intros H. assert (Z.testbit (Z.land x (2 ^ n)) n = false) as Hb
      by (rewrite H; apply Z.bits_0).
    rewrite Z.land_spec, Z.pow2_bits_true, andb_true_r in Hb; done.
  - intros H. apply Z.bits_inj'. intros i Hi.
    rewrite Z.land_spec, Z.bits_0, Z.pow2_bits_eqb by done.
    destruct (Z.eqb_spec n i) as [->|]; [by rewrite H|by rewrite andb_false_r].
Qed.

Create HintDb bits_db.
#[export] Hint Rewrite Z.land_spec Z.lor_spec Z.bits_0 : bits_db.
#[export] Hint Rewrite Z.lnot_spec Z.pow2_bits_eqb Z.testbit_ones using lia : bits_db.

Lemma u16_range x : 0 ≤ u16 x < 2 ^ 16.
Proof. apply Z.mod_pos_bound. lia. Qed.
Lemma u32_range x : 0 ≤ u32 x < 2 ^ 32.
Proof. apply Z.mod_pos_bound. lia. Qed.
Lemma u32_small x : 0 ≤ x < 2 ^ 32 → u32 x = x.
Proof. apply Z.mod_small. Qed.
Lemma u16_small x : 0 ≤ x < 2 ^ 16 → u16 x = x.
Proof. apply Z.mod_small. Qed.
Lemma s32_small x : - 2 ^ 31 ≤ x < 2 ^ 31 → s32 x = x.
Proof. intros H. unfold s32. rewrite Z.mod_small; lia. Qed.
Lemma s32_range x : - 2 ^ 31 ≤ s32 x < 2 ^ 31.
Proof. unfold s32. pose proof (Z.mod_pos_bound (x + 2 ^ 31) (2 ^ 32)). lia. Qed.

Lemma wp_exec {S A} (m : M S A) s r t : wp m (λ a s', a = r ∧ s' = t) s → m s = Done r t.
Proof. unfold wp. destruct (m s); naive_solver. Qed.

Lemma wp_of_exec {S A} (m : M S A) s r t Q : m s = Done r t → Q r t → wp m Q s.
Proof. unfold wp. by intros ->. Qed.

(** Runs a monadic program symbolically, one primitive at a time; [tac] discharges or
    rewrites calls that have a lemma of their own. *)
Ltac wp_step tac :=
  cbv beta iota zeta;
  lazymatch goal with
  | |- wp (_ ≫= _) _ _ => rewrite wp_bind
  | |- wp (mret _) _ _ => rewrite wp_ret
  | |- wp (when _ _) _ _ => rewrite wp_when
  | |- wp (gets _) _ _ => rewrite wp_gets
  | |- wp (modify _) _ _ => rewrite wp_modify
  | |- wp (c_assert _) _ _ => rewrite wp_assert
  | |- _ => tac
  end.
Ltac wp_run tac := repeat (progress (wp_step tac)); cbv beta iota zeta.

(** Running a sequence up to a tail call. *)
Lemma run_bind {S A B} (m : M S A) (f : A → M S B) s a s' r :
  m s = Done a s' → f a s' = r → (m ≫= f) s = r.
Proof. unfold mbind, M_bind. by intros -> <-. Qed.

Lemma existsb_ext {A} (f g : A → bool) l : (∀ x, f x = g x) → existsb f l = existsb g l.
Proof. intros E. induction l as [|x l IH]; simpl; [done|by rewrite E, IH]. Qed.
Lemma existsb_false {A} (f : A → bool) l x : existsb f l = false → x ∈ l → f x = false.
Proof.
  intros Hf Hx. apply not_true_is_false. intros Ht.
  assert (existsb f l = true); [|congruence].
  apply existsb_exists. exists x. by rewrite <- list_elem_of_In.
Qed.

Lemma forallb_ext {A} (f g : A → bool) l : (∀ x, f x = g x) → forallb f l = forallb g l.
Proof. intros E. induction l as [|x l IH]; simpl; [done|by rewrite E, IH]. Qed.

Lemma bool_decide_ext_if {A} (P Q : Prop) `{Decision P, Decision Q} (x y : A) :
  (P ↔ Q) → (if bool_decide P then x else y) = (if bool_decide Q then x else y).
Proof. intros E. by rewrite (bool_decide_ext P Q E). Qed.

(** Grouping the first four steps of a sequence. *)
Lemma wp_assoc4 {S A B C D E} (m1 : M S A) (m2 : M S B) (m3 : M S C) (m4 : C → M S D)
    (k : M S E) Q s :
  wp ((_ ← m1; _ ← m2; x ← m3; m4 x) ≫= λ _, k) Q s →
  wp (_ ← m1; _ ← m2; x ← m3; _ ← m4 x; k) Q s.
Proof.
  unfold wp, mbind, M_bind. destruct (m1 s) as [? s1| | |]; [|done..].
  destruct (m2 s1) as [? s2| | |]; [|done..]. destruct (m3 s2) as [x s3| | |]; [|done..].
  by destruct (m4 x s3).
Qed.

Lemma wp_assoc3 {S A B C E} (m1 : M S A) (m2 : A → M S B) (m3 : M S C) (k : M S E) Q s :
  wp ((x ← m1; _ ← m2 x; m3) ≫= λ _, k) Q s → wp (x ← m1; _ ← m2 x; _ ← m3; k) Q s.
Proof.
  unfold wp, mbind, M_bind. destruct (m1 s) as [x s1| | |]; [|done..].
  destruct (m2 x s1) as [? s2| | |]; [|done..]. by destruct (m3 s2).
Qed.

(** ** Frames: what every completed run of a program relates

    [keeps R m]: whenever [m] completes, the two states are related by the preorder
    [R]; it is proved by the structure of [m] alone. *)
Definition keeps {S A} (R : S → S → Prop) (m : M S A) : Prop :=
  ∀ s a s', m s = Done a s' → R s s'.

Section keeps.
Context {S : Type} (R : S → S → Prop) `{!PreOrder R}.

Lemma keeps_ret {A} (a : A) : keeps R (mret a).
Proof. by intros s b s' [= <- <-]. Qed.
Lemma keeps_bind {A B} (m : M S A) (f : A → M S B) :
  keeps R m → (∀ a, keeps R (f a)) → keeps R (m ≫= f).
Proof.
  intros Hm Hf s b s'. unfold mbind, M_bind. destruct (m s) as [a s1| | |] eqn:E; [|done..].
  intros Hb. etrans; [by eapply Hm|by eapply Hf].
Qed.
Lemma keeps_gets {A} (f : S → A) : keeps R (gets f).
Proof. by intros s a s' [= <- <-]. Qed.
Lemma keeps_modify f : (∀ s, R s (f s)) → keeps R (modify f).
Proof. intros Hf s a s' [= <- <-]. apply Hf. Qed.
Lemma keeps_assert b : keeps R (c_assert b).
Proof. intros s a s'. unfold c_assert. destruct b; [|done]. by intros [= _ <-]. Qed.
Lemma keeps_spin {A} : keeps R (@spin S A).
Proof. by intros s a s' ?. Qed.
Lemma keeps_no_fuel {A} : keeps R (@no_fuel S A).
Proof. by intros s a s' ?. Qed.
Lemma keeps_when b m : keeps R m → keeps R (when b m).
Proof. destruct b; [done|intros _; apply keeps_ret]. Qed.
Lemma keeps_for_each {A} (l : list A) f : (∀ x, keeps R (f x)) → keeps R (for_each l f).
Proof.
  intros Hf. induction l as [|x l IH]; simpl; [apply keeps_ret|]. by apply keeps_bind.
Qed.
Lemma keeps_for_until {A B} (l : list A) (f : A → M S (option B)) :
  (∀ x, keeps R (f x)) → keeps R (for_until l f).
Proof.
  intros Hf. induction l as [|x l IH]; simpl; [apply keeps_ret|].
  apply keeps_bind; [done|]. intros [b|]; [apply keeps_ret|done].
Qed.
Lemma wp_keeps {A} (m : M S A) Q s :
  wp m Q s → keeps R m → wp m (λ a s', Q a s' ∧ R s s') s.
Proof. unfold wp, keeps. destruct (m s) eqn:E; naive_solver. Qed.
End keeps.

(** Proves [keeps R m]; [tac] handles the program's own primitives and calls. *)
Ltac keeps_step tac :=
  cbv beta iota zeta;
  lazymatch goal with
  | |- keeps _ (_ ≫= _) => apply keeps_bind; [try apply _| |intros ?]
  | |- keeps _ (mret _) => apply keeps_ret; try apply _
  | |- keeps _ (gets _) => apply keeps_gets; try apply _
  | |- keeps _ (c_assert _) => apply keeps_assert; try apply _
  | |- keeps _ spin => apply keeps_spin
  | |- keeps _ no_fuel => apply keeps_no_fuel
  | |- keeps _ (when _ _) => apply keeps_when; [try apply _|]
  | |- keeps _ (for_each _ _) => apply keeps_for_each; [try apply _|intros ?]
  | |- keeps _ (for_until _ _) => apply keeps_for_until; [try apply _|intros ?]
  | |- keeps _ (if ?b then _ else _) => destruct b
  | |- keeps _ (match ?x with _ => _ end) => destruct x
  | |- _ => tac
  end.
Ltac keeps_tac tac := repeat (keeps_step tac).

(** ** Masks as sets of bits *)

Lemma nonzero_has_bit x : x ≠ 0 → ∃ n, 0 ≤ n ∧ Z.testbit x n = true.
Proof.
  intros Hx. destruct (decide (0 < x)) as [H|H].
  - exists (Z.log2 x). split; [apply Z.log2_nonneg|by apply Z.bit_log2].
  - exists (Z.succ (Z.log2 (Z.abs x))). pose proof (Z.log2_nonneg (Z.abs x)).
    split; [lia|]. apply Z.bits_iff_neg'. lia.
Qed.

Lemma land_truth_spec x y :
  truth (Z.land x y) = true ↔ ∃ n, 0 ≤ n ∧ Z.testbit x n = true ∧ Z.testbit y n = true.
Proof.
  unfold truth. rewrite negb_true_iff, Z.eqb_neq. split.
  - intros (n & Hn & Hb)%nonzero_has_bit. rewrite Z.land_spec in Hb.
    apply andb_true_iff in Hb. naive_solver.
  - intros (n & Hn & Hx & Hy) H0.
    assert (Z.testbit (Z.land x y) n = false) as Hf by (rewrite H0; apply Z.bits_0).
    by rewrite Z.land_spec, Hx, Hy in Hf.
Qed.
Lemma land_truth_false x y n :
  truth (Z.land x y) = false → 0 ≤ n → Z.testbit x n = true → Z.testbit y n = false.
Proof.
  intros Hf Hn Hx. apply not_true_is_false. intros Hy.
  assert (truth (Z.land x y) = true); [|congruence]. apply land_truth_spec. eauto.
Qed.

Lemma land_subset x y :
  (Z.land x y =? y) = true ↔ ∀ n, 0 ≤ n → Z.testbit y n = true → Z.testbit x n = true.
Proof.
  rewrite Z.eqb_eq. split.
  - intros E n Hn Hy. assert (Z.testbit (Z.land x y) n = true) as H by (by rewrite E).
    rewrite Z.land_spec, andb_true_iff in H. naive_solver.
  - intros H. apply Z.bits_inj'. intros n Hn. rewrite Z.land_spec.
    destruct (Z.testbit y n) eqn:Hy; [by rewrite (H n Hn Hy)|by rewrite andb_false_r].
Qed.

(** ** The first answer of a scan *)

Fixpoint find_some {A R} (g : A → option R) (l : list A) : option R :=
  match l with
  | [] => None
  | x :: l => match g x with Some r => Some r | None => find_some g l end
  end.

(** A loop whose body only reads. *)
Lemma for_until_reads {S A R} (l : list A) (f : A → M S (option R)) (g : A → option R) (s : S) :
  (∀ x, x ∈ l → f x s = Done (g x) s) → for_until l f s = Done (find_some g l) s.
Proof.
  induction l as [|x l IH]; intros Hf; [done|]. cbn [for_until find_some].
  eapply run_bind; [by apply Hf; left|]. destruct (g x) as [r|]; [done|].
  apply IH. intros y Hy. apply Hf. by right.
Qed.

Lemma find_some_seqZ {R} (g : Z → option R) a n :
  match find_some g (seqZ a n) with
  | Some r => ∃ i, a ≤ i < a + n ∧ g i = Some r ∧ ∀ j, a ≤ j < i → g j = None
  | None => ∀ j, a ≤ j < a + n → g j = None
  end.
Proof.
  remember (Z.to_nat n) as m eqn:Hm. revert a n Hm.
  induction m as [|m IH]; intros a n Hm; [rewrite seqZ_nil by lia; simpl; lia|].
  rewrite seqZ_cons by lia. simpl. destruct (g a) as [r|] eqn:Hg.
  { exists a. split_and!; [lia..|done|lia]. }
  specialize (IH (Z.succ a) (Z.pred n) ltac:(lia)).
  destruct (find_some g (seqZ (Z.succ a) (Z.pred n))).
  - destruct IH as (i & Hi & Hr & Hj). exists i. split_and!; [lia..|done|]. intros j ?.
    destruct (decide (j = a)) as [->|]; [done|apply Hj; lia].
  - intros j ?. destruct (decide (j = a)) as [->|]; [done|apply IH; lia].
Qed.

Lemma seqZ_snoc a n : 0 ≤ n → seqZ a (n + 1) = seqZ a n ++ [a + n].
Proof. intros Hn. rewrite seqZ_app by lia. by rewrite (seqZ_cons (a + n) 1) by lia. Qed.

Lemma find_some_reverse_seqZ {R} (g : Z → option R) n :
  0 ≤ n →
  match find_some g (reverse (seqZ 0 n)) with
  | Some r => ∃ i, 0 ≤ i < n ∧ g i = Some r ∧ ∀ j, i < j < n → g j = None
  | None => ∀ j, 0 ≤ j < n → g j = None
  end.
Proof.
  intros Hn. pattern n. revert n Hn. apply natlike_ind; [simpl; lia|]. intros n Hn IH.
  rewrite <- Z.add_1_r, seqZ_snoc, reverse_snoc by done. simpl. rewrite Z.add_0_l.
  destruct (g n) as [r|] eqn:Hg.
  { exists n. split_and!; [lia..|done|lia]. }
  destruct (find_some g (reverse (seqZ 0 n))).
  - destruct IH as (i & Hi & Hr & Hj). exists i. split_and!; [lia..|done|]. intros j ?.
    destruct (decide (j = n)) as [->|]; [done|apply Hj; lia].
  - intros j ?. destruct (decide (j = n)) as [->|]; [done|apply IH; lia].
Qed.

(** A loop over [0 .. n-1] with an invariant on the number of finished rounds. *)
Lemma wp_for_each_seqZ {S} (n : Z) (f : Z → M S unit) (I : Z → S → Prop) s :
  0 ≤ n → I 0 s → (∀ i s', 0 ≤ i < n → I i s' → wp (f i) (λ _ s'', I (i + 1) s'') s') →
  wp (for_each (seqZ 0 n) f) (λ _ s', I n s') s.
Proof.
  intros Hn H0 Hstep.
  eapply wp_mono; [apply (wp_for_each _ _ (λ l s', I (Z.of_nat (length l)) s')); [done|]|].
  - intros pre x rest s' E HI. assert (seqZ 0 n !! length pre = Some x) as Hx.
    { rewrite E, lookup_app_r, Nat.sub_diag by done. done. }
    apply lookup_seqZ in Hx as [-> Hlt]. rewrite length_app. simpl.
    replace (Z.of_nat (length pre + 1)) with (0 + Z.of_nat (length pre) + 1) by lia.
    apply Hstep; [lia|]. by rewrite Z.add_0_l.
  - intros [] s' Hs. rewrite length_seqZ, Z2Nat.id in Hs; done.
Qed.
