(* ===== verification/ShmState.v ===== *)
(** * Shared synchronisation cells

    The memory object that the server creates with [shm_open] and every client maps:
    an array of [struct wfusync_state] (called [struct wfusync_shared_state] in the
    client), addressed by byte offset in the file, and the atomic accesses both sides
    make to it (src/server/wfusync.c and src/dlls/ntdll/unix/wfusync.c).

    The server state and the client state both contain this memory; [HasShm] is the
    interface through which the shared accessors are written once for both. *)

From S2P Require Import Prelude.

(** enum inproc_sync_type *)
Definition INPROC_SYNC_UNKNOWN : Z := 0.
Definition INPROC_SYNC_INTERNAL : Z := 1.
Definition INPROC_SYNC_EVENT : Z := 2.
Definition INPROC_SYNC_MUTEX : Z := 3.
Definition INPROC_SYNC_SEMAPHORE : Z := 4.

Definition WFUSYNC_TYPE_MASK : Z := 0x1fff.
Definition WFUSYNC_STATE_LOCKED : Z := 0x2000.
Definition WFUSYNC_MULTI_WAITERS : Z := 0x4000.
Definition WFUSYNC_SERVER_WAITERS : Z := 0x8000.

(** NTSTATUS values used by the synchronisation code. *)
Definition STATUS_SUCCESS : Z := 0.
Definition STATUS_WAIT_0 : Z := 0.
Definition STATUS_ABANDONED_WAIT_0 : Z := 0x80.
Definition STATUS_ABANDONED : Z := 0x80.
Definition STATUS_USER_APC : Z := 0xc0.
Definition STATUS_KERNEL_APC : Z := 0x100.
Definition STATUS_TIMEOUT : Z := 0x102.
Definition STATUS_PENDING : Z := 0x103.
Definition STATUS_NOT_IMPLEMENTED : Z := 0xc0000002.
Definition STATUS_INVALID_HANDLE : Z := 0xc0000008.
Definition STATUS_INVALID_PARAMETER : Z := 0xc000000d.
Definition STATUS_NO_MEMORY : Z := 0xc0000017.
Definition STATUS_ACCESS_DENIED : Z := 0xc0000022.
Definition STATUS_OBJECT_TYPE_MISMATCH : Z := 0xc0000024.
Definition STATUS_MUTANT_NOT_OWNED : Z := 0xc0000046.
Definition STATUS_SEMAPHORE_LIMIT_EXCEEDED : Z := 0xc0000047.
Definition STATUS_INSUFFICIENT_RESOURCES : Z := 0xc000009a.
Definition STATUS_HANDLE_NOT_CLOSABLE : Z := 0xc0000235.

(** The rights of a handle that the handle table keeps for itself. *)
Definition RESERVED_INHERIT : Z := Z.shiftl 1 26.
Definition RESERVED_CLOSE_PROTECT : Z := Z.shiftl 2 26.
Definition RESERVED_ALL : Z := Z.lor RESERVED_INHERIT RESERVED_CLOSE_PROTECT.

(** [struct wfusync_state]: two 32-bit signed words, a 32-bit generation, and two
    16-bit words; 16 bytes in all. *)
Record cell := Cell {
  c_low : Z; c_high : Z; c_generation : Z; c_type : Z; c_refcount : Z }.

Definition sizeof_cell : Z := 16.
Definition zero_cell : cell := Cell 0 0 0 0 0.

Definition set_low (v : Z) (c : cell) : cell :=
  Cell v (c_high c) (c_generation c) (c_type c) (c_refcount c).
Definition set_high (v : Z) (c : cell) : cell :=
  Cell (c_low c) v (c_generation c) (c_type c) (c_refcount c).
Definition set_generation (v : Z) (c : cell) : cell :=
  Cell (c_low c) (c_high c) v (c_type c) (c_refcount c).
Definition set_type (v : Z) (c : cell) : cell :=
  Cell (c_low c) (c_high c) (c_generation c) v (c_refcount c).
Definition set_refcount (v : Z) (c : cell) : cell :=
  Cell (c_low c) (c_high c) (c_generation c) (c_type c) v.

(** The shared file and the address-wake calls made on it. Memory that was never
    written reads as zero, as [ftruncate] guarantees. *)
Record shm := Shm { shm_cells : gmap Z cell; shm_wakes : list (Z * bool) }.

Definition cell_of (m : shm) (p : Z) : cell := default zero_cell (shm_cells m !! p).
Definition shm_put (p : Z) (c : cell) (m : shm) : shm :=
  Shm (<[p := c]> (shm_cells m)) (shm_wakes m).
Definition shm_wake (p : Z) (all : bool) (m : shm) : shm :=
  Shm (shm_cells m) ((p, all) :: shm_wakes m).

(** Anything that contains the shared memory. *)
Class HasShm (S : Type) := {
  get_shm : S → shm;
  set_shm : shm → S → S;
  get_set_shm : ∀ m s, get_shm (set_shm m s) = m;
  set_get_shm : ∀ s, set_shm (get_shm s) s = s;
  set_set_shm : ∀ m m' s, set_shm m (set_shm m' s) = set_shm m s }.

#[export] Instance HasShm_shm : HasShm shm.
Proof. by refine {| get_shm := λ m, m; set_shm := λ m _, m |}. Defined.

Section access.
Context {S : Type} `{HasShm S}.

Definition cell_at (s : S) (p : Z) : cell := cell_of (get_shm s) p.
Definition put_cell (p : Z) (c : cell) (s : S) : S := set_shm (shm_put p c (get_shm s)) s.
Definition add_wake (p : Z) (all : bool) (s : S) : S :=
  set_shm (shm_wake p all (get_shm s)) s.

(** [__atomic_load_n] of a whole cell: the accessors pick the field they load. *)
Definition ld (p : Z) : M S cell := gets (λ s, cell_at s p).
(** An atomic (or plain) store: a change of one field. *)
Definition st (p : Z) (f : cell → cell) : M S unit :=
  modify (λ s, put_cell p (f (cell_at s p)) s).

Definition fetch_or_type (p mask : Z) : M S unit :=
  st p (λ c, set_type (Z.lor (c_type c) mask) c).
Definition fetch_and_type (p mask : Z) : M S unit :=
  st p (λ c, set_type (Z.land (c_type c) mask) c).

(** src/server/wfusync.c, [wake_address]: which address is woken, one or all. *)
Definition wake_address (p : Z) (wake_all : bool) : M S unit := modify (add_wake p wake_all).

Definition type_of (c : cell) : Z := Z.land (c_type c) WFUSYNC_TYPE_MASK.
Definition has_flag (c : cell) (flag : Z) : bool := truth (Z.land (c_type c) flag).

(** [get_state_type] *)
Definition get_state_type (p : Z) : M S Z := c ← ld p; mret (type_of c).

(** [lock_state]: the loop returns as soon as the type differs or the lock bit is
    clear; while another process holds the bit it goes round without effect, which
    is the outcome [Spinning] of a run nobody interferes with. The interleaved
    behaviour of the loop is the subject of WfusyncLock.v. *)
Definition lock_state (p expected_type : Z) : M S bool :=
  c ← ld p;
  if negb (type_of c =? expected_type) then mret false
  else if negb (has_flag c WFUSYNC_STATE_LOCKED) then
    _ ← fetch_or_type p WFUSYNC_STATE_LOCKED; mret true
  else spin.

(** [unlock_state] *)
Definition unlock_state (p : Z) : M S unit :=
  fetch_and_type p (Z.lnot WFUSYNC_STATE_LOCKED).
End access.

Arguments cell_at : simpl never.
Arguments put_cell : simpl never.
Arguments add_wake : simpl never.
Arguments type_of : simpl never.
Arguments has_flag : simpl never.

(** ** Facts about cells and memory *)

Section memory_facts.
Context {S : Type} `{HasShm S}.
Implicit Types (s : S) (c : cell).

Lemma cell_at_put s p q c :
  cell_at (put_cell p c s) q = if decide (p = q) then c else cell_at s q.
Proof.
  unfold cell_at, put_cell, cell_of, shm_put. rewrite get_set_shm. simpl.
  rewrite lookup_insert. by case_decide.
Qed.

Lemma cell_at_put_eq s p c : cell_at (put_cell p c s) p = c.
Proof. rewrite cell_at_put. by case_decide. Qed.

Lemma cell_at_put_ne s p q c : p ≠ q → cell_at (put_cell p c s) q = cell_at s q.
Proof. intros. rewrite cell_at_put. by case_decide. Qed.

Lemma put_put_cell s p c c' : put_cell p c (put_cell p c' s) = put_cell p c s.
Proof.
  unfold put_cell. rewrite get_set_shm, set_set_shm. f_equal.
  unfold shm_put. simpl. by rewrite insert_insert_eq.
Qed.

Lemma cell_at_wake s p all q : cell_at (add_wake p all s) q = cell_at s q.
Proof. unfold cell_at, add_wake, cell_of. by rewrite get_set_shm. Qed.

Lemma wp_ld p Q s : wp (ld p) Q s ↔ Q (cell_at s p) s.
Proof. done. Qed.

Lemma wp_st p f Q s : wp (st p f) Q s ↔ Q tt (put_cell p (f (cell_at s p)) s).
Proof. done. Qed.

Lemma wp_wake p all Q s : wp (wake_address p all) Q s ↔ Q tt (add_wake p all s).
Proof. done. Qed.

Lemma wp_get_state_type p Q s :
  wp (get_state_type p) Q s ↔ Q (type_of (cell_at s p)) s.
Proof. done. Qed.
End memory_facts.

#[export] Hint Rewrite @cell_at_put_eq @put_put_cell @cell_at_wake : shm_db.
#[export] Hint Rewrite @wp_ld @wp_st @wp_wake @wp_get_state_type : wp_db.

(** ** The bits of the type word *)

Lemma locked_pow : WFUSYNC_STATE_LOCKED = 2 ^ 13. Proof. done. Qed.
Lemma multi_pow : WFUSYNC_MULTI_WAITERS = 2 ^ 14. Proof. done. Qed.
Lemma server_pow : WFUSYNC_SERVER_WAITERS = 2 ^ 15. Proof. done. Qed.
Lemma mask_ones : WFUSYNC_TYPE_MASK = Z.ones 13. Proof. done. Qed.

(** Solves equations between words built with land, lor and lnot. *)
Ltac bitwise :=
  rewrite ?locked_pow, ?multi_pow, ?server_pow, ?mask_ones;
  apply Z.bits_inj'; let i := fresh "i" in intros i ?;
  autorewrite with bits_db;
  repeat match goal with
  | |- context [?a =? i] => destruct (Z.eqb_spec a i); subst
  | |- context [if ?b then _ else _] => destruct b eqn:?
  end;
  rewrite ?andb_true_r, ?andb_false_r, ?orb_false_r, ?orb_true_r; simpl;
  try first [done | lia].

Lemma has_flag_testbit c n : 0 ≤ n → has_flag c (2 ^ n) = Z.testbit (c_type c) n.
Proof.
  intros. unfold has_flag, truth. rewrite land_pow2_testbit by done. by rewrite negb_involutive.
Qed.

(** Setting or clearing a flag leaves the type field alone. *)
Definition is_flag (n : Z) : Prop := 13 ≤ n.

Lemma type_of_set_flag c n :
  is_flag n → type_of (set_type (Z.lor (c_type c) (2 ^ n)) c) = type_of c.
Proof.
  unfold is_flag, type_of; simpl; intros Hn. rewrite mask_ones.
  apply Z.bits_inj'; intros i Hi. rewrite !Z.land_spec, Z.lor_spec.
  destruct (Z.testbit (Z.ones 13) i) eqn:E; [|by rewrite !andb_false_r].
  rewrite Z.testbit_ones_nonneg in E by lia. apply Z.ltb_lt in E.
  rewrite Z.pow2_bits_false by lia. by rewrite orb_false_r.
Qed.

Lemma type_of_clear_flag c n :
  is_flag n → type_of (set_type (Z.land (c_type c) (Z.lnot (2 ^ n))) c) = type_of c.
Proof.
  unfold is_flag, type_of; simpl; intros Hn. rewrite mask_ones.
  apply Z.bits_inj'; intros i Hi. rewrite !Z.land_spec, Z.lnot_spec by lia.
  destruct (Z.testbit (Z.ones 13) i) eqn:E; [|by rewrite !andb_false_r].
  rewrite Z.testbit_ones_nonneg in E by lia. apply Z.ltb_lt in E.
  rewrite Z.pow2_bits_false by lia. by rewrite andb_true_r.
Qed.

Lemma clear_set_flag t n :
  0 ≤ n → Z.testbit t n = false → Z.land (Z.lor t (2 ^ n)) (Z.lnot (2 ^ n)) = t.
Proof.
  intros Hn Ht. apply Z.bits_inj'; intros i Hi.
  rewrite Z.land_spec, Z.lor_spec, Z.lnot_spec, Z.pow2_bits_eqb by lia.
  destruct (Z.eqb_spec n i) as [->|]; simpl.
  - by rewrite Ht.
  - by rewrite orb_false_r, andb_true_r.
Qed.

Lemma flag_set_other c m n :
  0 ≤ m → 0 ≤ n → m ≠ n →
  has_flag (set_type (Z.lor (c_type c) (2 ^ m)) c) (2 ^ n) = has_flag c (2 ^ n).
Proof.
  intros. rewrite !has_flag_testbit by done. simpl.
  rewrite Z.lor_spec, Z.pow2_bits_false by lia. by rewrite orb_false_r.
Qed.

Lemma flag_set_same c n :
  0 ≤ n → has_flag (set_type (Z.lor (c_type c) (2 ^ n)) c) (2 ^ n) = true.
Proof.
  intros. rewrite !has_flag_testbit by done. simpl.
  rewrite Z.lor_spec, Z.pow2_bits_true by lia. by rewrite orb_true_r.
Qed.

Lemma flag_clear_other c m n :
  0 ≤ m → 0 ≤ n → m ≠ n →
  has_flag (set_type (Z.land (c_type c) (Z.lnot (2 ^ m))) c) (2 ^ n) = has_flag c (2 ^ n).
Proof.
  intros. rewrite !has_flag_testbit by done. simpl.
  rewrite Z.land_spec, Z.lnot_spec, Z.pow2_bits_false by lia. by rewrite andb_true_r.
Qed.

Lemma flag_clear_same c n :
  0 ≤ n → has_flag (set_type (Z.land (c_type c) (Z.lnot (2 ^ n))) c) (2 ^ n) = false.
Proof.
  intros. rewrite !has_flag_testbit by done. simpl.
  rewrite Z.land_spec, Z.lnot_spec, Z.pow2_bits_true by lia. by rewrite andb_false_r.
Qed.

(** ** A critical section on a cell *)

(** The cell is of type [ty] and nobody holds its lock bit. *)
Definition free_cell (c : cell) (ty : Z) : Prop :=
  type_of c = ty ∧ has_flag c WFUSYNC_STATE_LOCKED = false.

Definition locked_cell (c : cell) : cell :=
  set_type (Z.lor (c_type c) WFUSYNC_STATE_LOCKED) c.
Definition unlocked_cell (c : cell) : cell :=
  set_type (Z.land (c_type c) (Z.lnot WFUSYNC_STATE_LOCKED)) c.

Lemma unlocked_locked_cell c ty : free_cell c ty → unlocked_cell (locked_cell c) = c.
Proof.
  intros [_ Hf]. rewrite locked_pow, has_flag_testbit in Hf by lia.
  unfold unlocked_cell, locked_cell, set_type; simpl. rewrite locked_pow.
  rewrite clear_set_flag by (done || lia). by destruct c.
Qed.

Lemma wp_lock_state {S} `{HasShm S} p ty Q (s : S) :
  free_cell (cell_at s p) ty →
  wp (lock_state p ty) Q s ↔ Q true (put_cell p (locked_cell (cell_at s p)) s).
Proof.
  intros [Ht Hf]. unfold lock_state. rewrite wp_bind, wp_ld, Ht, Z.eqb_refl. simpl.
  rewrite Hf. simpl. unfold fetch_or_type. by rewrite wp_bind, wp_st, wp_ret.
Qed.

Lemma wp_unlock_state {S} `{HasShm S} p Q (s : S) :
  wp (unlock_state p) Q s ↔ Q tt (put_cell p (unlocked_cell (cell_at s p)) s).
Proof. done. Qed.

(** [lock_state] returns 0 exactly on a cell of another type, and goes round for ever
    exactly on a cell of the right type whose lock bit is held. *)
Lemma lock_state_cases {S} `{HasShm S} p ty (s : S) :
  lock_state p ty s =
    if decide (type_of (cell_at s p) = ty) then
      if has_flag (cell_at s p) WFUSYNC_STATE_LOCKED then Spinning
      else Done true (put_cell p (locked_cell (cell_at s p)) s)
    else Done false s.
Proof.
  unfold lock_state, ld, gets, mbind, M_bind.
  case_decide as E.
  - rewrite E, Z.eqb_refl. simpl. by destruct (has_flag _ _).
  - by rewrite (proj2 (Z.eqb_neq _ _) E).
Qed.
