(* ===== verification/ShmGuard.v ===== *)
(** * Guarding a set of cells with a flag bit

    Both wait-all implementations first mark every cell of the wait with a flag of its
    type word (the server with WFUSYNC_SERVER_WAITERS, a process with
    WFUSYNC_STATE_LOCKED), look at and change the marked cells, and finally clear the
    flag again. This file has what the two proofs share. *)

From S2P Require Import Prelude.
From S2P Require Import ShmState.

(** Only shared memory differs. *)
Definition same_rest {S} `{HasShm S} (s s' : S) : Prop := s' = set_shm (get_shm s') s.

Definition with_flag (n : Z) (c : cell) : cell := set_type (Z.lor (c_type c) (2 ^ n)) c.
Definition without_flag (n : Z) (c : cell) : cell :=
  set_type (Z.land (c_type c) (Z.lnot (2 ^ n))) c.

Section guard.
Context {S : Type} `{HasShm S}.
Implicit Types (s : S) (c : cell).

Lemma same_rest_refl s : same_rest s s.
Proof. unfold same_rest. by rewrite set_get_shm. Qed.
Lemma same_rest_trans s1 s2 s3 : same_rest s1 s2 → same_rest s2 s3 → same_rest s1 s3.
Proof. unfold same_rest. intros H1 H2. rewrite H1, set_set_shm in H2. exact H2. Qed.
Lemma same_rest_set s m : same_rest s (set_shm m s).
Proof. unfold same_rest. by rewrite get_set_shm. Qed.
Lemma same_rest_put s p c : same_rest s (put_cell p c s).
Proof. apply same_rest_set. Qed.
Lemma same_rest_wake s p all : same_rest s (add_wake p all s).
Proof. apply same_rest_set. Qed.

Context (n : Z).
Context (Hn : is_flag n).

Lemma with_flag_set c : has_flag (with_flag n c) (2 ^ n) = true.
Proof using Hn. unfold is_flag in Hn. apply flag_set_same. lia. Qed.
Lemma with_flag_type c : type_of (with_flag n c) = type_of c.
Proof using Hn. by apply type_of_set_flag. Qed.
Lemma without_with_flag c c' :
  has_flag c (2 ^ n) = false → c_type c' = c_type (with_flag n c) →
  without_flag n c' = set_type (c_type c) c'.
Proof using Hn.
  unfold is_flag in Hn. unfold without_flag, with_flag. rewrite has_flag_testbit by lia. simpl.
  intros Hf ->. by rewrite clear_set_flag by (done || lia).
Qed.

(** The cells at [g] carry the flag, the others are as in [s0]. *)
Record flagged (s0 : S) (g : list Z) (s : S) : Prop := {
  fl_rest : same_rest s0 s;
  fl_cell : ∀ p, cell_at s p = if bool_decide (p ∈ g) then with_flag n (cell_at s0 p) else cell_at s0 p;
  fl_nodup : NoDup g;
  fl_clear : ∀ p, p ∈ g → has_flag (cell_at s0 p) (2 ^ n) = false }.

Lemma flagged_nil s : flagged s [] s.
Proof using Type. split; [apply same_rest_refl|done|constructor|]. by intros p ?%elem_of_nil. Qed.

(** A cell without the flag is not among the flagged ones, and can be added. *)
Lemma flagged_add s0 g s p :
  flagged s0 g s → has_flag (cell_at s p) (2 ^ n) = false →
  p ∉ g ∧ cell_at s p = cell_at s0 p ∧
  ∀ g', g' ≡ₚ p :: g → flagged s0 g' (put_cell p (with_flag n (cell_at s p)) s).
Proof using Hn.
  intros [Hr Hc Hnd Hcl] Hg.
  assert (p ∉ g) as Hin.
  { intros Hin. by rewrite Hc, bool_decide_true, with_flag_set in Hg. }
  rewrite Hc, bool_decide_false in Hg |- * by done. split_and!; [done|done|].
  intros g' Hg'. split.
  - eapply same_rest_trans; [done|apply same_rest_put].
  - intros q. rewrite cell_at_put. destruct (decide (p = q)) as [<-|Hne].
    + rewrite bool_decide_true; [done|]. rewrite Hg'. by left.
    + rewrite Hc. apply bool_decide_ext_if. rewrite Hg', elem_of_cons. naive_solver.
  - rewrite Hg'. by apply list.NoDup_cons.
  - intros q. rewrite Hg', elem_of_cons. intros [->|Hq]; [done|by apply Hcl].
Qed.

Definition cleared (s : S) (g : list Z) (s' : S) : Prop :=
  same_rest s s' ∧ ∀ p, cell_at s' p =
    if bool_decide (p ∈ g) then without_flag n (cell_at s p) else cell_at s p.

Lemma clear_flags_spec g s :
  NoDup g → wp (for_each g (λ p, fetch_and_type p (Z.lnot (2 ^ n)))) (λ _ s', cleared s g s') s.
Proof using Type.
  intros Hnd. apply wp_for_each with (I := cleared s).
  { split; [apply same_rest_refl|done]. }
  intros pre x rest s' -> [Hr' Hc']. unfold fetch_and_type. rewrite wp_st.
  split; [by eapply same_rest_trans; [|apply same_rest_put]|].
  intros p. rewrite cell_at_put. case_decide as E.
  - subst p. rewrite bool_decide_true by (apply elem_of_app; right; by left).
    rewrite Hc', bool_decide_false; [done|]. apply list.NoDup_app in Hnd as (_ & Hd & _).
    intros Hx. apply (Hd x Hx). by left.
  - rewrite Hc'. apply bool_decide_ext_if. rewrite elem_of_app, list_elem_of_singleton. naive_solver.
Qed.

(** Clearing the flags of an otherwise changed state whose type words are the old ones. *)
Lemma release_flags_spec s0 g s1 s2 (f : Z → cell) :
  flagged s0 g s1 → same_rest s1 s2 →
  (∀ p, c_type (f p) = c_type (cell_at s0 p)) →
  (∀ p, cell_at s2 p = if bool_decide (p ∈ g) then with_flag n (f p) else f p) →
  wp (for_each g (λ p, fetch_and_type p (Z.lnot (2 ^ n))))
    (λ _ s', same_rest s0 s' ∧ ∀ p, cell_at s' p = f p) s2.
Proof using Hn.
  intros [Hr0 Hc0 Hnd Hcl] Hr Hf Hc.
  eapply wp_mono; [by apply clear_flags_spec|].
  intros [] s' [Hr' Hc']. split.
  { eapply same_rest_trans; [exact Hr0|]. by eapply same_rest_trans. }
  intros p. rewrite Hc', Hc. case_bool_decide as Hin; [|done].
  rewrite (without_with_flag (cell_at s0 p)); [|by apply Hcl|].
  - rewrite <- Hf. by destruct (f p).
  - simpl. by rewrite Hf.
Qed.
End guard.
