(* ===== verification/WfusyncServer.v ===== *)
(** * The server side of WFUSync

    src/server/wfusync.c, function by function: allocation of cells in the shared
    file, the registry of multi-object waiters, the operations the event, semaphore
    and mutex objects delegate to, the server-side wait-all, and the five request
    handlers. A C pointer to a cell is its byte offset in the shared file; a pointer
    to a malloc'ed [struct wfusync] is a key of [w_syncs]. *)

From S2P Require Import Prelude.
From S2P Require Import ShmState.

(** [struct wfusync] *)
Record wfusync := Wfusync { ws_shm_idx : Z; ws_server_waiters : Z }.

(** [struct wfusync_waiter]; [count] is the length of the index array. *)
Record wfusync_waiter := Waiter { wt_slot_idx : Z; wt_shm_idxs : list Z }.

(** Result of a system or allocator call, as the environment decides it. *)
Inductive sysres := Sys_ok | Sys_eexist | Sys_fail.

(** The file-scope variables of wfusync.c, the shared memory, the heap of
    [struct wfusync], the current error code and the environment's answers to the
    next allocator and system calls (an exhausted list means success). *)
Record wfs := Wfs {
  w_shm : shm;
  w_mapped : gset Z;              (* indices of non-NULL wfusync_pages *)
  w_pages_count : Z;              (* wfusync_pages_count *)
  w_next_shm_idx : Z;
  w_next_generation : Z;
  w_shared_fd : Z;
  w_syncs : gmap Z wfusync;
  w_next_sync : Z;
  w_waiters : list wfusync_waiter;  (* wfusync_waiters *)
  w_mw_counts : gmap Z Z;         (* wfusync_multi_waiter_counts; absent = 0 *)
  w_mw_len : Z;                   (* wfusync_multi_waiter_counts_count *)
  w_do_wfusync : bool;            (* do_wfusync() *)
  w_env : list sysres;
  w_error : Z }.

#[export] Instance HasShm_wfs : HasShm wfs.
Proof.
  by refine {| get_shm := w_shm;
    set_shm := λ m s, Wfs m (w_mapped s) (w_pages_count s) (w_next_shm_idx s)
      (w_next_generation s) (w_shared_fd s) (w_syncs s) (w_next_sync s) (w_waiters s)
      (w_mw_counts s) (w_mw_len s) (w_do_wfusync s) (w_env s) (w_error s) |};
  intros; try destruct s.
Defined.

Definition set_pages (mapped : gset Z) (count : Z) (s : wfs) : wfs :=
  Wfs (w_shm s) mapped count (w_next_shm_idx s) (w_next_generation s) (w_shared_fd s)
    (w_syncs s) (w_next_sync s) (w_waiters s) (w_mw_counts s) (w_mw_len s)
    (w_do_wfusync s) (w_env s) (w_error s).
Definition set_next_shm_idx (v : Z) (s : wfs) : wfs :=
  Wfs (w_shm s) (w_mapped s) (w_pages_count s) v (w_next_generation s) (w_shared_fd s)
    (w_syncs s) (w_next_sync s) (w_waiters s) (w_mw_counts s) (w_mw_len s)
    (w_do_wfusync s) (w_env s) (w_error s).
Definition set_next_generation (v : Z) (s : wfs) : wfs :=
  Wfs (w_shm s) (w_mapped s) (w_pages_count s) (w_next_shm_idx s) v (w_shared_fd s)
    (w_syncs s) (w_next_sync s) (w_waiters s) (w_mw_counts s) (w_mw_len s)
    (w_do_wfusync s) (w_env s) (w_error s).
Definition set_shared_fd (v : Z) (s : wfs) : wfs :=
  Wfs (w_shm s) (w_mapped s) (w_pages_count s) (w_next_shm_idx s) (w_next_generation s) v
    (w_syncs s) (w_next_sync s) (w_waiters s) (w_mw_counts s) (w_mw_len s)
    (w_do_wfusync s) (w_env s) (w_error s).
Definition set_syncs (v : gmap Z wfusync) (n : Z) (s : wfs) : wfs :=
  Wfs (w_shm s) (w_mapped s) (w_pages_count s) (w_next_shm_idx s) (w_next_generation s)
    (w_shared_fd s) v n (w_waiters s) (w_mw_counts s) (w_mw_len s)
    (w_do_wfusync s) (w_env s) (w_error s).
Definition set_waiters (v : list wfusync_waiter) (s : wfs) : wfs :=
  Wfs (w_shm s) (w_mapped s) (w_pages_count s) (w_next_shm_idx s) (w_next_generation s)
    (w_shared_fd s) (w_syncs s) (w_next_sync s) v (w_mw_counts s) (w_mw_len s)
    (w_do_wfusync s) (w_env s) (w_error s).
Definition set_mw (v : gmap Z Z) (n : Z) (s : wfs) : wfs :=
  Wfs (w_shm s) (w_mapped s) (w_pages_count s) (w_next_shm_idx s) (w_next_generation s)
    (w_shared_fd s) (w_syncs s) (w_next_sync s) (w_waiters s) v n
    (w_do_wfusync s) (w_env s) (w_error s).
Definition set_env (v : list sysres) (s : wfs) : wfs :=
  Wfs (w_shm s) (w_mapped s) (w_pages_count s) (w_next_shm_idx s) (w_next_generation s)
    (w_shared_fd s) (w_syncs s) (w_next_sync s) (w_waiters s) (w_mw_counts s) (w_mw_len s)
    (w_do_wfusync s) v (w_error s).
Definition set_err (v : Z) (s : wfs) : wfs :=
  Wfs (w_shm s) (w_mapped s) (w_pages_count s) (w_next_shm_idx s) (w_next_generation s)
    (w_shared_fd s) (w_syncs s) (w_next_sync s) (w_waiters s) (w_mw_counts s) (w_mw_len s)
    (w_do_wfusync s) (w_env s) v.

(** [sysconf( _SC_PAGESIZE )]: a positive multiple of the cell size. *)
Class PageSize := {
  page_size : Z;
  page_size_pos : 0 < page_size < 2 ^ 32;
  page_size_div : (sizeof_cell | page_size) }.

Definition W := M wfs.

Definition set_error (e : Z) : W unit := modify (set_err e).

(** The environment's next answer. *)
Definition syscall : W sysres := λ s,
  match w_env s with
  | [] => Done Sys_ok s
  | r :: env => Done r (set_env env s)
  end.
Definition sys_ok (r : sysres) : bool := match r with Sys_ok => true | _ => false end.

(** [mem_alloc]: sets the error when the allocation fails. *)
Definition mem_alloc_ok : W bool :=
  r ← syscall;
  if sys_ok r then mret true else _ ← set_error STATUS_NO_MEMORY; mret false.

Section server.
Context `{PageSize}.

(** [get_state]: the byte offset of cell [idx], if its page is mapped. *)
Definition cell_page (idx : Z) : Z := u32 (idx * sizeof_cell / page_size).
Definition cell_offset (idx : Z) : Z := u32 ((idx * sizeof_cell) mod page_size).
Definition cell_addr (idx : Z) : Z := cell_page idx * page_size + cell_offset idx.

Definition state_mapped (s : wfs) (idx : Z) : bool :=
  (cell_page idx <? w_pages_count s) && bool_decide (cell_page idx ∈ w_mapped s).

Definition get_state (idx : Z) : W (option Z) :=
  gets (λ s, if state_mapped s idx then Some (cell_addr idx) else None).

(** [wfusync_get_shared_fd]: up to 16 attempts at a fresh name; only EEXIST is
    retried. A successful [shm_open] yields a descriptor (3 here), which is given
    up again if the name cannot be unlinked. *)
Fixpoint shared_fd_attempts (attempts : nat) : W Z :=
  match attempts with
  | O => mret (-1)
  | S attempts =>
      r ← syscall;
      match r with
      | Sys_ok => mret 3
      | Sys_eexist => shared_fd_attempts attempts
      | Sys_fail => mret (-1)
      end
  end.

Definition wfusync_get_shared_fd : W Z :=
  fd ← gets w_shared_fd;
  if negb (fd =? -1) then mret fd else
  fd ← shared_fd_attempts 16;
  _ ← modify (set_shared_fd fd);
  if fd =? -1 then mret (-1) else
  unlinked ← syscall;
  if sys_ok unlinked then mret fd
  else _ ← modify (set_shared_fd (-1)); mret (-1).

(** [ensure_shared_file_size] *)
Definition ensure_shared_file_size (pages : Z) : W bool :=
  fd ← wfusync_get_shared_fd;
  if fd =? -1 then mret false else
  r ← syscall; mret (sys_ok r).

(** [while (entry >= new_count) new_count *= 2], on unsigned int. *)
Fixpoint grow_count (fuel : nat) (idx count : Z) : option Z :=
  match fuel with
  | O => None
  | S fuel => if count <=? idx then grow_count fuel idx (u32 (count * 2)) else Some count
  end.
Definition grow_fuel : nat := 33.

(** The two halves of [alloc_state_slot] before the index is used: room for the page in
    [wfusync_pages], and the page itself. *)
Definition grow_pages (entry : Z) : W bool :=
  count ← gets w_pages_count;
  if negb (count <=? entry) then mret true else
  match grow_count grow_fuel entry (if truth count then u32 (count * 2) else 16) with
  | None => no_fuel
  | Some new_count =>
      r ← syscall;
      if negb (sys_ok r) then mret false else
      mapped ← gets w_mapped;
      _ ← modify (set_pages mapped new_count); mret true
  end.

Definition map_page (entry : Z) : W bool :=
  mapped ← gets w_mapped;
  if bool_decide (entry ∈ mapped) then mret true else
  sized ← ensure_shared_file_size (entry + 1);
  if negb sized then mret false else
  _ ← wfusync_get_shared_fd;
  r ← syscall;
  if negb (sys_ok r) then mret false else
  count ← gets w_pages_count;
  _ ← modify (set_pages ({[entry]} ∪ mapped) count); mret true.

(** [alloc_state_slot]: the index is consumed even when the allocation fails. *)
Definition alloc_state_slot : W (option (Z * Z)) :=
  idx ← gets w_next_shm_idx;
  _ ← modify (set_next_shm_idx (u32 (idx + 1)));
  grown ← grow_pages (cell_page idx);
  if negb grown then mret None else
  present ← map_page (cell_page idx);
  if negb present then mret None else
  let state := cell_addr idx in
  _ ← st state (λ _, zero_cell);
  mret (Some (idx, state)).

(** [next_generation++] *)
Definition take_generation : W Z :=
  g ← gets w_next_generation;
  _ ← modify (set_next_generation (u32 (g + 1))); mret g.

(** [create_wfusync]: a new [struct wfusync] and its initialised cell. *)
Definition create_wfusync (low high type : Z) : W (option Z) :=
  ok ← mem_alloc_ok;
  if negb ok then mret None else
  slot ← alloc_state_slot;
  match slot with
  | None => mret None
  | Some (idx, state) =>
      _ ← st state (set_low (s32 low));
      _ ← st state (set_high (s32 high));
      g ← take_generation;
      _ ← st state (set_generation g);
      _ ← st state (set_type (u16 type));
      _ ← st state (set_refcount 1);
      p ← gets w_next_sync;
      syncs ← gets w_syncs;
      _ ← modify (set_syncs (<[p := Wfusync idx 0]> syncs) (p + 1));
      mret (Some p)
  end.

(** Dereferences of a [struct wfusync *]: None for NULL. The use of one that has been
    freed is an error that stops the run, like a failed assertion. *)
Definition get_sync (sync : option Z) : W (option wfusync) :=
  match sync with
  | None => mret None
  | Some p =>
      syncs ← gets w_syncs;
      _ ← c_assert (bool_decide (is_Some (syncs !! p)));
      mret (syncs !! p)
  end.
Definition put_sync (p : Z) (v : wfusync) : W unit :=
  modify (λ s, set_syncs (<[p := v]> (w_syncs s)) (w_next_sync s) s).

(** [!sync || !(state = get_state( sync->shm_idx ))] *)
Definition sync_state (sync : option Z) : W (option (wfusync * Z)) :=
  v ← get_sync sync;
  match v with
  | None => mret None
  | Some v => p ← get_state (ws_shm_idx v); mret ((v,.) <$> p)
  end.

Definition wfusync_get_index (sync : option Z) : W Z :=
  v ← get_sync sync;
  mret (match v with Some v => ws_shm_idx v | None => 0 end).

Definition wake_wait_slot (slot : Z) : W unit :=
  _ ← st slot (set_low 0); wake_address slot true.

(** ** The registry of multi-object waiters *)

Definition mw_count (s : wfs) (idx : Z) : Z := default 0 (w_mw_counts s !! idx).

Definition ensure_multi_waiter_count (shm_idx : Z) : W bool :=
  len ← gets w_mw_len;
  if shm_idx <? len then mret true else
  match grow_count grow_fuel shm_idx (if truth len then u32 (len * 2) else 256) with
  | None => no_fuel
  | Some new_count =>
      r ← syscall;
      if negb (sys_ok r) then mret false else
      counts ← gets w_mw_counts;
      _ ← modify (set_mw counts new_count); mret true
  end.

Definition is_waitable_type (type : Z) : bool :=
  (type =? INPROC_SYNC_EVENT) || (type =? INPROC_SYNC_SEMAPHORE) || (type =? INPROC_SYNC_MUTEX).

Definition add_multi_waiter (shm_idx : Z) : W bool :=
  state ← get_state shm_idx;
  match state with
  | None => mret false
  | Some state =>
      type ← get_state_type state;
      if negb (is_waitable_type type) then mret false else
      ok ← ensure_multi_waiter_count shm_idx;
      if negb ok then mret false else
      _ ← modify (λ s, set_mw (<[shm_idx := u32 (mw_count s shm_idx + 1)]> (w_mw_counts s))
                         (w_mw_len s) s);
      _ ← fetch_or_type state WFUSYNC_MULTI_WAITERS;
      mret true
  end.

Definition remove_multi_waiter (shm_idx : Z) : W unit :=
  state ← get_state shm_idx;
  len ← gets w_mw_len;
  count ← gets (λ s, mw_count s shm_idx);
  match state with
  | None => mret tt
  | Some state =>
      if (len <=? shm_idx) || (count =? 0) then mret tt else
      _ ← modify (λ s, set_mw (<[shm_idx := count - 1]> (w_mw_counts s)) (w_mw_len s) s);
      if truth (count - 1) then mret tt
      else fetch_and_type state (Z.lnot WFUSYNC_MULTI_WAITERS)
  end.

(** [remove_waiter]: unlinks every record of the slot, releasing its indices. The
    walk rebuilds the list with the records of other slots in order. *)
Fixpoint remove_waiter_walk (slot_idx : Z) (l : list wfusync_waiter) :
    W (list wfusync_waiter) :=
  match l with
  | [] => mret []
  | waiter :: next =>
      if wt_slot_idx waiter =? slot_idx then
        _ ← for_each (wt_shm_idxs waiter) remove_multi_waiter;
        remove_waiter_walk slot_idx next
      else
        rest ← remove_waiter_walk slot_idx next; mret (waiter :: rest)
  end.

Definition remove_waiter (slot_idx : Z) : W unit :=
  l ← gets w_waiters;
  l' ← remove_waiter_walk slot_idx l;
  modify (set_waiters l').

(** Whether a wait on a cell of this content would succeed right now. *)
Definition cell_signaled (c : cell) : bool :=
  if type_of c =? INPROC_SYNC_EVENT then negb (c_low c =? 0)
  else if type_of c =? INPROC_SYNC_SEMAPHORE then 0 <? c_low c
  else if type_of c =? INPROC_SYNC_MUTEX then (c_low c =? 0) || (c_low c <? 0)
  else false.

Definition wfusync_state_signaled (shm_idx : Z) : W bool :=
  state ← get_state shm_idx;
  match state with
  | None => mret false
  | Some state => c ← ld state; mret (cell_signaled c)
  end.

Definition wake_waiters_for_object (shm_idx : Z) : W unit :=
  l ← gets w_waiters;
  for_each l (λ waiter,
    if bool_decide (shm_idx ∈ wt_shm_idxs waiter) then
      slot ← get_state (wt_slot_idx waiter);
      match slot with Some slot => wake_wait_slot slot | None => mret tt end
    else mret tt).

Definition wfusync_alloc_wait_slot : W Z :=
  slot ← alloc_state_slot;
  match slot with
  | None => mret 0
  | Some (shm_idx, state) =>
      _ ← st state (set_low 0);
      _ ← st state (set_high 0);
      g ← take_generation;
      _ ← st state (set_generation g);
      _ ← st state (set_type INPROC_SYNC_INTERNAL);
      _ ← st state (set_refcount 1);
      mret shm_idx
  end.

(** The two validation and registration loops of [wfusync_register_wait]. *)
Definition register_validate (shm_idxs : list Z) : W bool :=
  bad ← for_until shm_idxs (λ idx,
    state ← get_state idx;
    match state with
    | None => mret (Some tt)
    | Some state =>
        type ← get_state_type state;
        mret (if is_waitable_type type then None else Some tt)
    end);
  mret (match bad with None => true | Some _ => false end).

(** Adds the indices in order; on a failure the ones already added are removed in
    reverse order. *)
Fixpoint register_add (added todo : list Z) : W bool :=
  match todo with
  | [] => mret true
  | idx :: todo =>
      ok ← add_multi_waiter idx;
      if negb ok then _ ← for_each added remove_multi_waiter; mret false
      else register_add (idx :: added) todo
  end.

Definition wfusync_register_wait (slot_idx : Z) (shm_idxs : list Z) : W bool :=
  slot ← get_state slot_idx;
  match slot with
  | None => mret false
  | Some slot =>
      type ← get_state_type slot;
      let count := Z.of_nat (length shm_idxs) in
      if negb (type =? INPROC_SYNC_INTERNAL) || (count =? 0) || (64 <? count)
      then mret false else
      _ ← remove_waiter slot_idx;
      _ ← st slot (set_low 1);
      g ← take_generation;
      _ ← st slot (set_generation g);
      valid ← register_validate shm_idxs;
      if negb valid then _ ← wake_wait_slot slot; mret false else
      ok ← mem_alloc_ok;
      if negb ok then _ ← wake_wait_slot slot; mret false else
      ok ← mem_alloc_ok;
      if negb ok then _ ← wake_wait_slot slot; mret false else
      ok ← register_add [] shm_idxs;
      if negb ok then _ ← wake_wait_slot slot; mret false else
      l ← gets w_waiters;
      _ ← modify (set_waiters (Waiter slot_idx shm_idxs :: l));
      _ ← for_until shm_idxs (λ idx,
        signaled ← wfusync_state_signaled idx;
        if negb signaled then mret None
        else _ ← wake_wait_slot slot; mret (Some tt));
      mret true
  end.

Definition wfusync_unregister_wait (slot_idx : Z) : W unit :=
  _ ← remove_waiter slot_idx;
  slot ← get_state slot_idx;
  match slot with Some slot => wake_wait_slot slot | None => mret tt end.

Definition wfusync_wake_waiters (shm_idx : Z) : W bool :=
  state ← get_state shm_idx;
  match state with
  | None => mret false
  | Some _ => _ ← wake_waiters_for_object shm_idx; mret true
  end.

(** ** References and server-side waiters *)

Definition wfusync_grab_object (sync : option Z) : W unit :=
  r ← sync_state sync;
  match r with
  | None => mret tt
  | Some (_, state) =>
      c ← ld state;
      _ ← c_assert (truth (c_refcount c));
      st state (λ c, set_refcount (u16 (c_refcount c + 1)) c)
  end.

Definition wfusync_destroy (sync : option Z) : W unit :=
  match sync with
  | None => mret tt
  | Some p =>
      r ← sync_state sync;
      _ ← (match r return W unit with
           | None => mret tt
           | Some (_, state) =>
               c ← ld state;
               _ ← c_assert (truth (c_refcount c));
               _ ← st state (set_type INPROC_SYNC_UNKNOWN);
               g ← take_generation;
               _ ← st state (set_generation g);
               st state (λ c, set_refcount (u16 (c_refcount c - 1)) c)
           end);
      modify (λ s, set_syncs (delete p (w_syncs s)) (w_next_sync s) s)
  end.

Definition wfusync_add_server_waiter (sync : option Z) : W unit :=
  r ← sync_state sync;
  match sync, r with
  | Some p, Some (v, state) =>
      _ ← put_sync p (Wfusync (ws_shm_idx v) (u32 (ws_server_waiters v + 1)));
      fetch_or_type state WFUSYNC_SERVER_WAITERS
  | _, _ => mret tt
  end.

Definition wfusync_remove_server_waiter (sync : option Z) : W unit :=
  r ← sync_state sync;
  match sync, r with
  | Some p, Some (v, state) =>
      if ws_server_waiters v =? 0 then mret tt else
      _ ← put_sync p (Wfusync (ws_shm_idx v) (ws_server_waiters v - 1));
      if truth (ws_server_waiters v - 1) then mret tt
      else fetch_and_type state (Z.lnot WFUSYNC_SERVER_WAITERS)
  | _, _ => mret tt
  end.

(** ** Events *)

(** [type != EVENT && type != INTERNAL || !lock_state( state, type )] *)
Definition lock_event_state (state : Z) : W bool :=
  type ← get_state_type state;
  if negb (type =? INPROC_SYNC_EVENT) && negb (type =? INPROC_SYNC_INTERNAL)
  then mret false else lock_state state type.

(** Returns the values stored to [*manual] and [*signaled]. *)
Definition wfusync_get_event_state (sync : option Z) : W (option (Z * Z)) :=
  r ← sync_state sync;
  match r with
  | None => mret None
  | Some (_, state) =>
      locked ← lock_event_state state;
      if negb locked then mret None else
      c ← ld state;
      _ ← unlock_state state;
      mret (Some (c_high c, c_low c))
  end.

Definition wfusync_event_signaled (sync : option Z) : W bool :=
  r ← sync_state sync;
  match r with
  | None => mret false
  | Some (_, state) =>
      locked ← lock_event_state state;
      if negb locked then mret false else
      c ← ld state;
      _ ← unlock_state state;
      mret (truth (c_low c))
  end.

Definition wfusync_event_satisfied (sync : option Z) : W unit :=
  r ← sync_state sync;
  match r with
  | None => mret tt
  | Some (_, state) =>
      locked ← lock_event_state state;
      if negb locked then mret tt else
      c ← ld state;
      _ ← when (negb (truth (c_high c))) (st state (set_low 0));
      unlock_state state
  end.

Definition wfusync_set_event (sync : option Z) : W unit :=
  r ← sync_state sync;
  match r with
  | None => mret tt
  | Some (v, state) =>
      locked ← lock_event_state state;
      if negb locked then mret tt else
      c ← ld state;
      let previous := c_low c in
      _ ← st state (set_low 1);
      _ ← unlock_state state;
      _ ← when (negb (truth previous)) (wake_address state (truth (c_high c)));
      wake_waiters_for_object (ws_shm_idx v)
  end.

Definition wfusync_reset_event (sync : option Z) : W unit :=
  r ← sync_state sync;
  match r with
  | None => mret tt
  | Some (_, state) =>
      locked ← lock_event_state state;
      if negb locked then mret tt else
      _ ← st state (set_low 0);
      unlock_state state
  end.

(** ** Semaphores *)

Definition wfusync_semaphore_signaled (sync : option Z) : W bool :=
  r ← sync_state sync;
  match r with
  | None => mret false
  | Some (_, state) =>
      locked ← lock_state state INPROC_SYNC_SEMAPHORE;
      if negb locked then mret false else
      c ← ld state;
      _ ← unlock_state state;
      mret (0 <? c_low c)
  end.

Definition wfusync_semaphore_satisfied (sync : option Z) : W unit :=
  r ← sync_state sync;
  match r with
  | None => mret tt
  | Some (_, state) =>
      locked ← lock_state state INPROC_SYNC_SEMAPHORE;
      if negb locked then mret tt else
      c ← ld state;
      _ ← when (negb (c_low c <=? 0)) (st state (set_low (c_low c - 1)));
      unlock_state state
  end.

(** The limit test on unsigned int, with its wrap-around. *)
Definition semaphore_limit_exceeded (old count max : Z) : bool :=
  (u32 (u32 old + count) <? u32 old) || (u32 max <? u32 (u32 old + count)).

(** Returns the value stored to [*prev], None when the call returns 0. *)
Definition wfusync_release_semaphore (sync : option Z) (count : Z) : W (option Z) :=
  r ← sync_state sync;
  match r with
  | None => mret None
  | Some (_, state) =>
      locked ← lock_state state INPROC_SYNC_SEMAPHORE;
      if negb locked then mret None else
      c ← ld state;
      let old_count := c_low c in
      if semaphore_limit_exceeded old_count count (c_high c) then
        _ ← set_error STATUS_SEMAPHORE_LIMIT_EXCEEDED;
        _ ← unlock_state state; mret None
      else
        _ ← st state (set_low (s32 (old_count + count)));
        _ ← unlock_state state;
        _ ← when (old_count =? 0) (wake_address state (1 <? count));
        mret (Some old_count)
  end.

Definition wfusync_get_semaphore_state (sync : option Z) : W (option (Z * Z)) :=
  r ← sync_state sync;
  match r with
  | None => mret None
  | Some (_, state) =>
      locked ← lock_state state INPROC_SYNC_SEMAPHORE;
      if negb locked then mret None else
      c ← ld state;
      _ ← unlock_state state;
      mret (Some (u32 (c_low c), u32 (c_high c)))
  end.

(** ** Mutexes: [low] is the owner (negative once abandoned), [high] the count *)

Definition wfusync_mutex_signaled (sync : option Z) (tid : Z) : W bool :=
  r ← sync_state sync;
  match r with
  | None => mret false
  | Some (_, state) =>
      locked ← lock_state state INPROC_SYNC_MUTEX;
      if negb locked then mret false else
      c ← ld state;
      let owner := c_low c in
      _ ← unlock_state state;
      mret ((owner =? 0) || (owner =? s32 tid) || (owner <? 0))
  end.

(** Some abandoned when the mutex was acquired. *)
Definition wfusync_mutex_satisfied (sync : option Z) (tid : Z) : W (option bool) :=
  r ← sync_state sync;
  match r with
  | None => mret None
  | Some (_, state) =>
      locked ← lock_state state INPROC_SYNC_MUTEX;
      if negb locked then mret None else
      c ← ld state;
      let owner := c_low c in
      let count := c_high c in
      if owner =? s32 tid then
        _ ← st state (set_high (s32 (count + 1)));
        _ ← unlock_state state; mret (Some false)
      else if (owner =? 0) || (owner <? 0) then
        _ ← st state (set_low (s32 tid));
        _ ← st state (set_high 1);
        _ ← when (owner <? 0) (st state (λ c, set_generation (u32 (c_generation c + 1)) c));
        _ ← unlock_state state; mret (Some (owner <? 0))
      else _ ← unlock_state state; mret None
  end.

Definition wfusync_release_mutex (sync : option Z) (tid : Z) : W (option Z) :=
  r ← sync_state sync;
  match r with
  | None => mret None
  | Some (_, state) =>
      locked ← lock_state state INPROC_SYNC_MUTEX;
      if negb locked then mret None else
      c ← ld state;
      let count := c_high c in
      if negb (c_low c =? s32 tid) || (count =? 0) then
        _ ← set_error STATUS_MUTANT_NOT_OWNED;
        _ ← unlock_state state; mret None
      else if 1 <? count then
        _ ← st state (set_high (count - 1));
        _ ← unlock_state state; mret (Some count)
      else
        _ ← st state (set_high 0);
        _ ← st state (set_low 0);
        _ ← unlock_state state;
        _ ← wake_address state false;
        mret (Some count)
  end.

(** count, owned, abandoned *)
Definition wfusync_get_mutex_state (sync : option Z) (tid : Z) : W (option (Z * bool * bool)) :=
  r ← sync_state sync;
  match r with
  | None => mret None
  | Some (_, state) =>
      locked ← lock_state state INPROC_SYNC_MUTEX;
      if negb locked then mret None else
      c ← ld state;
      let owner := c_low c in
      _ ← unlock_state state;
      mret (Some (if owner <? 0 then 0 else u32 (c_high c), owner =? s32 tid, owner <? 0))
  end.

Definition wfusync_abandon_mutex (sync : option Z) (tid : Z) : W bool :=
  r ← sync_state sync;
  match r with
  | None => mret false
  | Some (_, state) =>
      locked ← lock_state state INPROC_SYNC_MUTEX;
      if negb locked then mret false else
      c ← ld state;
      if negb (c_low c =? s32 tid) || (c_high c =? 0) then
        _ ← unlock_state state; mret false
      else
        _ ← st state (set_low (s32 (- s32 tid)));
        _ ← st state (set_high 0);
        _ ← st state (λ c, set_generation (u32 (c_generation c + 1)) c);
        _ ← unlock_state state;
        _ ← wake_address state true;
        mret true
  end.

(** ** Wait-all *)

(** One [entries[i * 3 ..]] triple. *)
Record wait_entry := WaitEntry { en_shm_idx : Z; en_generation : Z; en_type : Z }.

(** The first loop of [wfusync_try_wait_all]: guards the cells one by one with the
    server-waiters bit and stops at the first one that cannot be guarded. Returns
    the guarded cells in order and whether the loop ran to its end. *)
Definition guardable (c : cell) (e : wait_entry) : bool :=
  negb (truth (Z.land (c_type c) (Z.lor WFUSYNC_STATE_LOCKED WFUSYNC_SERVER_WAITERS))) &&
  (type_of c =? en_type e) && (c_generation c =? en_generation e).

Fixpoint guard_all (entries : list wait_entry) (guarded : list Z) : W (list Z * bool) :=
  match entries with
  | [] => mret (guarded, true)
  | e :: entries =>
      state ← get_state (en_shm_idx e);
      match state with
      | None => mret (guarded, false)
      | Some state =>
          c ← ld state;
          if negb (guardable c e) then mret (guarded, false) else
          _ ← fetch_or_type state WFUSYNC_SERVER_WAITERS;
          guard_all entries (guarded ++ [state])
      end
  end.

(** The second loop: inl status to leave with that status, inr abandoned to go on. *)
Definition entry_blocks (c : cell) (e : wait_entry) (tid : Z) : Z + bool :=
  if negb (type_of c =? en_type e) || negb (c_generation c =? en_generation e)
  then inl STATUS_NOT_IMPLEMENTED
  else if en_type e =? INPROC_SYNC_EVENT then
    if c_low c =? 0 then inl STATUS_TIMEOUT else inr false
  else if en_type e =? INPROC_SYNC_SEMAPHORE then
    if c_low c <=? 0 then inl STATUS_TIMEOUT else inr false
  else if en_type e =? INPROC_SYNC_MUTEX then
    if truth (c_low c) && negb (c_low c =? s32 tid) && (0 <? c_low c) then inl STATUS_TIMEOUT
    else if (c_low c =? s32 tid) && (c_high c =? INT_MAX) then inl STATUS_NOT_IMPLEMENTED
    else inr (c_low c <? 0)
  else inl STATUS_NOT_IMPLEMENTED.

Fixpoint check_all (pairs : list (Z * wait_entry)) (tid : Z) (abandoned : bool) :
    W (Z + bool) :=
  match pairs with
  | [] => mret (inr abandoned)
  | (state, e) :: pairs =>
      c ← ld state;
      match entry_blocks c e tid with
      | inl status => mret (inl status)
      | inr ab => check_all pairs tid (ab || abandoned)
      end
  end.

(** The third loop: consumes one cell; None is the [goto done] of a cell that is
    no longer available. *)
Definition consume_cell (c : cell) (type tid : Z) : option cell :=
  if type =? INPROC_SYNC_EVENT then
    if c_low c =? 0 then None
    else Some (if c_high c =? 0 then set_low 0 c else c)
  else if type =? INPROC_SYNC_SEMAPHORE then
    if c_low c <=? 0 then None else Some (set_low (c_low c - 1) c)
  else if type =? INPROC_SYNC_MUTEX then
    if c_low c =? s32 tid then
      if c_high c =? INT_MAX then None else Some (set_high (c_high c + 1) c)
    else if (c_low c =? 0) || (c_low c <? 0) then
      Some (set_high 1 (set_low (s32 tid)
        (if c_low c <? 0 then set_generation (u32 (c_generation c + 1)) c else c)))
    else None
  else Some c.

Fixpoint consume_all (pairs : list (Z * wait_entry)) (tid : Z) : W bool :=
  match pairs with
  | [] => mret true
  | (state, e) :: pairs =>
      c ← ld state;
      match consume_cell c (en_type e) tid with
      | None => mret false
      | Some c' => _ ← st state (λ _, c'); consume_all pairs tid
      end
  end.

Definition unguard_all (guarded : list Z) : W unit :=
  for_each guarded (λ state, fetch_and_type state (Z.lnot WFUSYNC_SERVER_WAITERS)).

Definition wfusync_try_wait_all (entries : list wait_entry) (tid : Z) : W Z :=
  if (Z.of_nat (length entries) =? 0) || (64 <? Z.of_nat (length entries))
  then mret STATUS_NOT_IMPLEMENTED else
  g ← guard_all entries [];
  let '(guarded, ok) := g in
  status ← (if negb ok then mret STATUS_NOT_IMPLEMENTED else
    let pairs := zip guarded entries in
    r ← check_all pairs tid false;
    match r with
    | inl status => mret status
    | inr abandoned =>
        done ← consume_all pairs tid;
        mret (if negb done then STATUS_NOT_IMPLEMENTED
              else if (abandoned : bool) then STATUS_ABANDONED_WAIT_0 else STATUS_WAIT_0)
    end);
  _ ← unguard_all guarded;
  mret status.

(** The cells of the wait that are not signaled; None when the call returns 0. *)
Definition entry_unsignaled (c : cell) (e : wait_entry) (tid : Z) : option bool :=
  if en_type e =? INPROC_SYNC_EVENT then Some (c_low c =? 0)
  else if en_type e =? INPROC_SYNC_SEMAPHORE then Some (c_low c <=? 0)
  else if en_type e =? INPROC_SYNC_MUTEX then
    Some (truth (c_low c) && negb (c_low c =? s32 tid) && (0 <? c_low c))
  else None.

Fixpoint get_wait_all_unsignaled (entries : list wait_entry) (tid : Z) (acc : list Z) :
    W (option (list Z)) :=
  match entries with
  | [] => mret (Some acc)
  | e :: entries =>
      state ← get_state (en_shm_idx e);
      match state with
      | None => mret None
      | Some state =>
          c ← ld state;
          if negb (guardable c e) then mret None else
          match entry_unsignaled c e tid with
          | None => mret None
          | Some true => get_wait_all_unsignaled entries tid (acc ++ [en_shm_idx e])
          | Some false => get_wait_all_unsignaled entries tid acc
          end
      end
  end.

(** ** Request handlers *)

Definition req_get_wfusync_wait_slot : W Z :=
  enabled ← gets w_do_wfusync;
  if negb enabled then _ ← set_error STATUS_NOT_IMPLEMENTED; mret 0 else
  idx ← wfusync_alloc_wait_slot;
  _ ← when (idx =? 0) (set_error STATUS_NO_MEMORY);
  mret idx.

(** [size] is the byte size of the request data, [data] its 32-bit words. *)
Definition req_register_wfusync_wait (slot_idx size : Z) (data : list Z) : W unit :=
  enabled ← gets w_do_wfusync;
  if negb enabled || (size =? 0) || truth (size mod 4)
  then set_error STATUS_INVALID_PARAMETER else
  ok ← wfusync_register_wait slot_idx data;
  when (negb ok) (set_error STATUS_NOT_IMPLEMENTED).

Definition req_unregister_wfusync_wait (slot_idx : Z) : W unit :=
  enabled ← gets w_do_wfusync;
  if negb enabled then set_error STATUS_NOT_IMPLEMENTED
  else wfusync_unregister_wait slot_idx.

Definition req_wake_wfusync_waiters (shm_idx : Z) : W unit :=
  enabled ← gets w_do_wfusync;
  if negb enabled then set_error STATUS_NOT_IMPLEMENTED else
  ok ← wfusync_wake_waiters shm_idx;
  when (negb ok) (set_error STATUS_NOT_IMPLEMENTED).

(** The retry loop; [attempts] counts the rounds left before the loop gives up. *)
Fixpoint wait_all_attempts (attempts : nat) (slot_idx tid : Z) (entries : list wait_entry) :
    W Z :=
  status ← wfusync_try_wait_all entries tid;
  if negb (status =? STATUS_TIMEOUT) || (slot_idx =? 0) then mret status else
  unsignaled ← get_wait_all_unsignaled entries tid [];
  match unsignaled with
  | None => mret STATUS_NOT_IMPLEMENTED
  | Some [] =>
      match attempts with
      | O => mret STATUS_NOT_IMPLEMENTED
      | S attempts => wait_all_attempts attempts slot_idx tid entries
      end
  | Some idxs =>
      ok ← wfusync_register_wait slot_idx idxs;
      mret (if (ok : bool) then STATUS_PENDING else STATUS_NOT_IMPLEMENTED)
  end.

Fixpoint entries_of (words : list Z) : list wait_entry :=
  match words with
  | idx :: gen :: type :: words => WaitEntry idx gen type :: entries_of words
  | _ => []
  end.

Definition req_try_wait_all_wfusync (slot_idx tid size : Z) (data : list Z) : W unit :=
  enabled ← gets w_do_wfusync;
  if negb enabled || (size =? 0) || truth (size mod 12)
  then set_error STATUS_NOT_IMPLEMENTED else
  let entries := entries_of data in
  if 64 <? Z.of_nat (length entries) then set_error STATUS_NOT_IMPLEMENTED else
  _ ← (if truth slot_idx then wfusync_unregister_wait slot_idx else mret tt);
  status ← wait_all_attempts 3 slot_idx tid entries;
  when (truth status) (set_error status).
End server.
