(* ===== verification/WfusyncServerOps.v ===== *)
(** * The server's operations on a single cell

    What each delegate of src/server/wfusync.c does to its cell when the cell has the
    expected type and no client holds the lock bit: the exact result and the exact new
    state, from which the theorems on events, semaphores and mutexes follow. *)

From S2P Require Import Prelude.
From S2P Require Import ShmState.
From S2P Require Import WfusyncServer.

Section ops.
Context `{PageSize}.
Implicit Types (s : wfs) (c : cell).

(** [sync] is a live [struct wfusync] whose cell is mapped at [p]. *)
Definition sync_cell (s : wfs) (sync : Z) (v : wfusync) (p : Z) : Prop :=
  w_syncs s !! sync = Some v ∧ state_mapped s (ws_shm_idx v) = true ∧
  p = cell_addr (ws_shm_idx v).

Lemma wp_get_state idx Q s :
  wp (get_state idx) Q s ↔ Q (if state_mapped s idx then Some (cell_addr idx) else None) s.
Proof. done. Qed.

Lemma wp_syscall (Q : sysres → wfs → Prop) s : (∀ r e, Q r (set_env e s)) → wp syscall Q s.
Proof.
  intros HQ. unfold wp, syscall. destruct (w_env s) as [|r e] eqn:E; [|apply HQ].
  specialize (HQ Sys_ok []). rewrite <- E in HQ. by destruct s.
Qed.

Lemma wp_mem_alloc_ok (Q : bool → wfs → Prop) s :
  (∀ e, Q true (set_env e s)) → (∀ e, Q false (set_err STATUS_NO_MEMORY (set_env e s))) →
  wp mem_alloc_ok Q s.
Proof.
  intros HT HF. unfold mem_alloc_ok. rewrite wp_bind. apply wp_syscall. intros r e.
  destruct (sys_ok r); [by rewrite wp_ret|]. unfold set_error.
  by rewrite wp_bind, wp_modify, wp_ret.
Qed.

Lemma get_sync_live q v s : w_syncs s !! q = Some v → get_sync (Some q) s = Done (Some v) s.
Proof. intros Hv. unfold get_sync, gets, c_assert, mbind, M_bind. by rewrite Hv, bool_decide_true. Qed.
Lemma wp_get_sync q v Q s :
  w_syncs s !! q = Some v → wp (get_sync (Some q)) Q s ↔ Q (Some v) s.
Proof. intros Hv. unfold wp. by rewrite (get_sync_live _ _ _ Hv). Qed.

Lemma wp_sync_state sync v p Q s :
  sync_cell s sync v p → wp (sync_state (Some sync)) Q s ↔ Q (Some (v, p)) s.
Proof.
  intros (Hv & Hm & ->). unfold sync_state.
  by rewrite wp_bind, (wp_get_sync _ _ _ _ Hv), wp_bind, wp_get_state, Hm, wp_ret.
Qed.

Lemma sync_cell_put s sync v p q c :
  sync_cell (put_cell q c s) sync v p ↔ sync_cell s sync v p.
Proof. done. Qed.

Lemma wp_lock_event_state p ty Q s :
  ty = INPROC_SYNC_EVENT ∨ ty = INPROC_SYNC_INTERNAL →
  free_cell (cell_at s p) ty →
  wp (lock_event_state p) Q s ↔ Q true (put_cell p (locked_cell (cell_at s p)) s).
Proof.
  intros Hty Hf. unfold lock_event_state. rewrite wp_bind, wp_get_state_type.
  destruct Hf as [Ht Hf]. rewrite Ht.
  destruct Hty as [-> | ->]; simpl; by apply wp_lock_state.
Qed.
End ops.

(** The operation of a critical section commutes with releasing the lock. *)
Lemma unlocked_set_low v c : unlocked_cell (set_low v c) = set_low v (unlocked_cell c).
Proof. done. Qed.
Lemma unlocked_set_high v c : unlocked_cell (set_high v c) = set_high v (unlocked_cell c).
Proof. done. Qed.
Lemma unlocked_set_generation v c :
  unlocked_cell (set_generation v c) = set_generation v (unlocked_cell c).
Proof. done. Qed.
Lemma put_same_cell {S} `{HasShm S} (s : S) p c c' :
  c = c' → put_cell p c s = put_cell p c' s.
Proof. by intros ->. Qed.

Lemma low_locked c : c_low (locked_cell c) = c_low c. Proof. done. Qed.
Lemma high_locked c : c_high (locked_cell c) = c_high c. Proof. done. Qed.
Lemma generation_locked c : c_generation (locked_cell c) = c_generation c. Proof. done. Qed.
Lemma low_set_high v c : c_low (set_high v c) = c_low c. Proof. done. Qed.
Lemma high_set_low v c : c_high (set_low v c) = c_high c. Proof. done. Qed.

#[export] Hint Rewrite unlocked_set_low unlocked_set_high unlocked_set_generation
  low_locked high_locked generation_locked low_set_high high_set_low negb_involutive : shm_db.

(** The other fields of the server state do not interact with the memory. *)
Lemma cell_at_set_err e (s : wfs) p : cell_at (set_err e s) p = cell_at s p.
Proof. done. Qed.
Lemma put_cell_set_err e (s : wfs) p c :
  put_cell p c (set_err e s) = set_err e (put_cell p c s).
Proof. done. Qed.
Lemma cell_at_set_next_generation e (s : wfs) p : cell_at (set_next_generation e s) p = cell_at s p.
Proof. done. Qed.
Lemma put_cell_set_next_generation e (s : wfs) p c :
  put_cell p c (set_next_generation e s) = set_next_generation e (put_cell p c s).
Proof. done. Qed.
Lemma cell_at_set_next_shm_idx e (s : wfs) p : cell_at (set_next_shm_idx e s) p = cell_at s p.
Proof. done. Qed.
Lemma put_cell_set_next_shm_idx e (s : wfs) p c :
  put_cell p c (set_next_shm_idx e s) = set_next_shm_idx e (put_cell p c s).
Proof. done. Qed.
Lemma cell_at_set_shared_fd e (s : wfs) p : cell_at (set_shared_fd e s) p = cell_at s p.
Proof. done. Qed.
Lemma put_cell_set_shared_fd e (s : wfs) p c :
  put_cell p c (set_shared_fd e s) = set_shared_fd e (put_cell p c s).
Proof. done. Qed.
Lemma cell_at_set_waiters e (s : wfs) p : cell_at (set_waiters e s) p = cell_at s p.
Proof. done. Qed.
Lemma put_cell_set_waiters e (s : wfs) p c :
  put_cell p c (set_waiters e s) = set_waiters e (put_cell p c s).
Proof. done. Qed.
Lemma cell_at_set_env e (s : wfs) p : cell_at (set_env e s) p = cell_at s p.
Proof. done. Qed.
Lemma put_cell_set_env e (s : wfs) p c :
  put_cell p c (set_env e s) = set_env e (put_cell p c s).
Proof. done. Qed.
Lemma cell_at_set_syncs e n (s : wfs) p : cell_at (set_syncs e n s) p = cell_at s p.
Proof. done. Qed.
Lemma put_cell_set_syncs e n (s : wfs) p c :
  put_cell p c (set_syncs e n s) = set_syncs e n (put_cell p c s).
Proof. done. Qed.
Lemma cell_at_set_mw e n (s : wfs) p : cell_at (set_mw e n s) p = cell_at s p.
Proof. done. Qed.
Lemma put_cell_set_mw e n (s : wfs) p c :
  put_cell p c (set_mw e n s) = set_mw e n (put_cell p c s).
Proof. done. Qed.
Lemma cell_at_set_pages e n (s : wfs) p : cell_at (set_pages e n s) p = cell_at s p.
Proof. done. Qed.
Lemma put_cell_set_pages e n (s : wfs) p c :
  put_cell p c (set_pages e n s) = set_pages e n (put_cell p c s).
Proof. done. Qed.
#[export] Hint Rewrite cell_at_set_err put_cell_set_err cell_at_set_next_generation put_cell_set_next_generation
  cell_at_set_next_shm_idx put_cell_set_next_shm_idx cell_at_set_shared_fd put_cell_set_shared_fd
  cell_at_set_waiters put_cell_set_waiters cell_at_set_env put_cell_set_env
  cell_at_set_syncs put_cell_set_syncs cell_at_set_mw put_cell_set_mw
  cell_at_set_pages put_cell_set_pages : shm_db.

(** Symbolic execution of a delegate: [Hs] gives its cell, [Hf] that it is free. Each
    test of the code becomes a case distinction. *)
Ltac run_cell Hs Hf :=
  wp_run ltac:(first
    [ rewrite (wp_sync_state _ _ _ _ _ Hs)
    | rewrite (wp_lock_state _ _ _ _ Hf)
    | rewrite wp_lock_event_state by eauto
    | rewrite wp_unlock_state | rewrite wp_ld | rewrite wp_st | rewrite wp_wake
    | progress (cbn [negb fst snd])
    | progress (autorewrite with shm_db)
    | rewrite (unlocked_locked_cell _ _ Hf)
    | match goal with |- context [if ?b then _ else _] => destruct b eqn:? end ]).


Lemma put_cell_id {S} `{HasShm S} (s : S) p ty :
  free_cell (cell_at s p) ty → ty ≠ 0 → put_cell p (cell_at s p) s = s.
Proof.
  intros [Ht _] Hne. unfold put_cell, cell_at, cell_of, shm_put in *.
  destruct (shm_cells (get_shm s) !! p) as [c|] eqn:E; simpl in *; [|by subst ty].
  rewrite insert_id by done. destruct (get_shm s) eqn:G. simpl. rewrite <- G.
  apply set_get_shm.
Qed.

Ltac close_cell Hf :=
  simplify_eq/=;
  (split; [done|]; rewrite ?(put_cell_id _ _ _ Hf) by done; first [done | congruence]).

(** Every lemma below runs one delegate on a cell [p] that is free and of the type the
    delegate expects. *)
Section semaphore_ops.
Context `{PageSize}.
Context (s : wfs) (sync : Z) (v : wfusync) (p : Z).
Context (Hs : sync_cell s sync v p).
Context (Hf : free_cell (cell_at s p) INPROC_SYNC_SEMAPHORE).
Notation c := (cell_at s p).

Lemma semaphore_signaled_exec :
  wfusync_semaphore_signaled (Some sync) s = Done (0 <? c_low c) s.
Proof using All.
  apply wp_exec. unfold wfusync_semaphore_signaled. run_cell Hs Hf. close_cell Hf.
Qed.

Lemma semaphore_satisfied_exec :
  wfusync_semaphore_satisfied (Some sync) s =
    Done tt (if c_low c <=? 0 then s else put_cell p (set_low (c_low c - 1) c) s).
Proof using All.
  apply wp_exec. unfold wfusync_semaphore_satisfied. run_cell Hs Hf; close_cell Hf.
Qed.

Lemma get_semaphore_state_exec :
  wfusync_get_semaphore_state (Some sync) s = Done (Some (u32 (c_low c), u32 (c_high c))) s.
Proof using All.
  apply wp_exec. unfold wfusync_get_semaphore_state. run_cell Hs Hf. close_cell Hf.
Qed.

Lemma release_semaphore_exec count :
  wfusync_release_semaphore (Some sync) count s =
    if semaphore_limit_exceeded (c_low c) count (c_high c)
    then Done None (set_err STATUS_SEMAPHORE_LIMIT_EXCEEDED s)
    else
      let s' := put_cell p (set_low (s32 (c_low c + count)) c) s in
      Done (Some (c_low c)) (if c_low c =? 0 then add_wake p (1 <? count) s' else s').
Proof using All.
  destruct (semaphore_limit_exceeded _ _ _) eqn:E; apply wp_exec;
    unfold wfusync_release_semaphore, set_error; run_cell Hs Hf; close_cell Hf.
Qed.
End semaphore_ops.

Section event_ops.
Context `{PageSize}.
Context (s : wfs) (sync : Z) (v : wfusync) (p ty : Z).
Context (Hs : sync_cell s sync v p).
Context (Hty : ty = INPROC_SYNC_EVENT ∨ ty = INPROC_SYNC_INTERNAL).
Context (Hf : free_cell (cell_at s p) ty).
Notation c := (cell_at s p).

Lemma event_type_ne : ty ≠ 0.
Proof using Hty. clear Hf. by destruct Hty as [-> | ->]. Qed.

Lemma get_event_state_exec :
  wfusync_get_event_state (Some sync) s = Done (Some (c_high c, c_low c)) s.
Proof using All.
  pose proof event_type_ne. apply wp_exec. unfold wfusync_get_event_state.
  run_cell Hs Hf. close_cell Hf.
Qed.

Lemma event_signaled_exec : wfusync_event_signaled (Some sync) s = Done (truth (c_low c)) s.
Proof using All.
  pose proof event_type_ne. apply wp_exec. unfold wfusync_event_signaled.
  run_cell Hs Hf. close_cell Hf.
Qed.

Lemma event_satisfied_exec :
  wfusync_event_satisfied (Some sync) s =
    Done tt (if truth (c_high c) then s else put_cell p (set_low 0 c) s).
Proof using All.
  pose proof event_type_ne. apply wp_exec. unfold wfusync_event_satisfied.
  run_cell Hs Hf; close_cell Hf.
Qed.

Lemma reset_event_exec :
  wfusync_reset_event (Some sync) s = Done tt (put_cell p (set_low 0 c) s).
Proof using All.
  apply wp_exec. unfold wfusync_reset_event. run_cell Hs Hf. close_cell Hf.
Qed.

(** Setting an event stores 1, wakes the address waiters if it was not set, and then
    wakes every registered multi-object waiter. *)
Lemma set_event_exec :
  wfusync_set_event (Some sync) s =
    let s' := put_cell p (set_low 1 c) s in
    wake_waiters_for_object (ws_shm_idx v)
      (if truth (c_low c) then s' else add_wake p (truth (c_high c)) s').
Proof using All.
  cbv zeta. unfold wfusync_set_event.
  eapply run_bind; [by apply wp_exec; rewrite (wp_sync_state _ _ _ _ _ Hs)|]. cbv beta iota.
  eapply run_bind; [by apply wp_exec; rewrite wp_lock_event_state by eauto|].
  cbn [negb]. cbv zeta. do 3 (eapply run_bind; [done|]). autorewrite with shm_db.
  fold (unlocked_cell (set_low 1 (locked_cell c))).
  destruct (truth (c_low c)); (eapply run_bind; [done|]); f_equal;
    autorewrite with shm_db; by rewrite (unlocked_locked_cell _ _ Hf).
Qed.
End event_ops.

Section mutex_ops.
Context `{PageSize}.
Context (s : wfs) (sync : Z) (v : wfusync) (p tid : Z).
Context (Hs : sync_cell s sync v p).
Context (Hf : free_cell (cell_at s p) INPROC_SYNC_MUTEX).
Notation c := (cell_at s p).

Lemma mutex_signaled_exec :
  wfusync_mutex_signaled (Some sync) tid s =
    Done ((c_low c =? 0) || (c_low c =? s32 tid) || (c_low c <? 0)) s.
Proof using Hs Hf.
  apply wp_exec. unfold wfusync_mutex_signaled. run_cell Hs Hf. close_cell Hf.
Qed.

Lemma mutex_satisfied_exec :
  wfusync_mutex_satisfied (Some sync) tid s =
    if c_low c =? s32 tid then
      Done (Some false) (put_cell p (set_high (s32 (c_high c + 1)) c) s)
    else if (c_low c =? 0) || (c_low c <? 0) then
      Done (Some (c_low c <? 0))
        (put_cell p (set_high 1 (set_low (s32 tid)
           (if c_low c <? 0 then set_generation (u32 (c_generation c + 1)) c else c))) s)
    else Done None s.
Proof using Hs Hf.
  destruct (c_low c =? s32 tid) eqn:E1; [|destruct ((c_low c =? 0) || (c_low c <? 0)) eqn:E2];
    apply wp_exec; unfold wfusync_mutex_satisfied; run_cell Hs Hf; close_cell Hf.
Qed.

Lemma release_mutex_exec :
  wfusync_release_mutex (Some sync) tid s =
    if negb (c_low c =? s32 tid) || (c_high c =? 0) then
      Done None (set_err STATUS_MUTANT_NOT_OWNED s)
    else if 1 <? c_high c then
      Done (Some (c_high c)) (put_cell p (set_high (c_high c - 1) c) s)
    else Done (Some (c_high c)) (add_wake p false (put_cell p (set_low 0 (set_high 0 c)) s)).
Proof using Hs Hf.
  destruct (negb (c_low c =? s32 tid) || (c_high c =? 0)) eqn:E1;
    [|destruct (1 <? c_high c) eqn:E2];
    apply wp_exec; unfold wfusync_release_mutex, set_error; run_cell Hs Hf; close_cell Hf.
Qed.

Lemma get_mutex_state_exec :
  wfusync_get_mutex_state (Some sync) tid s =
    Done (Some (if c_low c <? 0 then 0 else u32 (c_high c), c_low c =? s32 tid, c_low c <? 0)) s.
Proof using Hs Hf.
  apply wp_exec. unfold wfusync_get_mutex_state. run_cell Hs Hf; close_cell Hf.
Qed.

Lemma abandon_mutex_exec :
  wfusync_abandon_mutex (Some sync) tid s =
    if negb (c_low c =? s32 tid) || (c_high c =? 0) then Done false s
    else Done true (add_wake p true (put_cell p
           (set_generation (u32 (c_generation c + 1))
             (set_high 0 (set_low (s32 (- s32 tid)) c))) s)).
Proof using Hs Hf.
  destruct (negb (c_low c =? s32 tid) || (c_high c =? 0)) eqn:E1;
    apply wp_exec; unfold wfusync_abandon_mutex; run_cell Hs Hf; close_cell Hf.
Qed.
End mutex_ops.
