(* ===== verification/WfusyncRegistry.v ===== *)
(** * The registry of multi-object waiters

    [wfusync_multi_waiter_counts] and the [WFUSYNC_MULTI_WAITERS] bits agree with the
    list of registered waiters, whatever sequence of registrations, failed
    registrations and removals led to it; a registered waiter whose object is signaled
    has been woken. *)

From S2P Require Import Prelude.
From S2P Require Import ShmState.
From S2P Require Import WfusyncServer.
From S2P Require Import WfusyncServerOps.

(** ** Cell addresses *)

Section addresses.
Context `{PageSize}.

Lemma page_size_ge : sizeof_cell ≤ page_size.
Proof. pose proof page_size_pos. apply Z.divide_pos_le; [lia|apply page_size_div]. Qed.

Lemma cell_page_eq idx :
  0 ≤ idx < 2 ^ 32 → cell_page idx = idx * sizeof_cell / page_size.
Proof.
  intros Hi. unfold cell_page. apply u32_small. unfold sizeof_cell in *.
  pose proof page_size_ge. pose proof page_size_pos. unfold sizeof_cell in *. split.
  - apply Z.div_pos; lia.
  - apply Z.div_lt_upper_bound; nia.
Qed.

Lemma cell_offset_eq idx : cell_offset idx = (idx * sizeof_cell) mod page_size.
Proof.
  unfold cell_offset. apply u32_small. pose proof page_size_pos.
  pose proof (Z.mod_pos_bound (idx * sizeof_cell) page_size). lia.
Qed.

Lemma cell_addr_eq idx : 0 ≤ idx < 2 ^ 32 → cell_addr idx = idx * sizeof_cell.
Proof.
  intros Hi. unfold cell_addr. rewrite cell_page_eq, cell_offset_eq by done.
  pose proof page_size_pos. pose proof (Z.div_mod (idx * sizeof_cell) page_size). lia.
Qed.

Lemma cell_addr_inj i j :
  0 ≤ i < 2 ^ 32 → 0 ≤ j < 2 ^ 32 → cell_addr i = cell_addr j → i = j.
Proof. intros ??. rewrite !cell_addr_eq by done. unfold sizeof_cell. lia. Qed.

(** A cell never straddles two pages. *)
Lemma cell_in_page idx : 0 ≤ cell_offset idx ∧ cell_offset idx + sizeof_cell ≤ page_size.
Proof.
  rewrite cell_offset_eq. pose proof page_size_pos as Hp.
  destruct page_size_div as [k Hk]. unfold sizeof_cell in *. rewrite Hk in *.
  rewrite Z.mul_mod_distr_r by lia.
  pose proof (Z.mod_pos_bound idx k). lia.
Qed.
End addresses.

(** ** Multiplicities *)

Definition occ (x : Z) (l : list Z) : Z := Z.of_nat (count_occ Z.eq_dec l x).

#[export] Instance occ_proper x : Proper ((≡ₚ) ==> (=)) (occ x).
Proof.
  intros l l' Hp. unfold occ. f_equal.
  by rewrite (proj1 (Permutation_count_occ Z.eq_dec l l') Hp x).
Qed.

Lemma occ_cons x y l : occ x (y :: l) = (if decide (x = y) then 1 else 0) + occ x l.
Proof. unfold occ. simpl. destruct (Z.eq_dec y x); case_decide; subst; lia || done. Qed.
Lemma occ_nonneg x l : 0 ≤ occ x l.
Proof. unfold occ. lia. Qed.
Lemma occ_le_length x l : occ x l ≤ Z.of_nat (length l).
Proof. unfold occ. pose proof (count_occ_bound Z.eq_dec x l). lia. Qed.
Lemma occ_pos x l : 0 < occ x l ↔ x ∈ l.
Proof.
  unfold occ. rewrite list_elem_of_In, (count_occ_In Z.eq_dec). lia.
Qed.

(** ** The invariant *)

Section registry.
Context `{PageSize}.
Implicit Types (s : wfs) (l : list Z).

Definition idx_ok (s : wfs) (idx : Z) : Prop :=
  0 ≤ idx < 2 ^ 32 ∧ state_mapped s idx = true ∧ idx < w_mw_len s.

Notation cell_idx s idx := (cell_at s (cell_addr idx)).

(** [l] lists the indices of all registered waiters, with multiplicity. *)
Record reg_inv (l : list Z) (s : wfs) : Prop := {
  reg_count : ∀ idx, mw_count s idx = occ idx l;
  reg_idx : ∀ idx, idx ∈ l → idx_ok s idx;
  reg_flag : ∀ idx, 0 ≤ idx < 2 ^ 32 → is_waitable_type (type_of (cell_idx s idx)) = true →
    has_flag (cell_idx s idx) WFUSYNC_MULTI_WAITERS = bool_decide (0 < occ idx l);
  reg_small : Z.of_nat (length l) < 2 ^ 32 - 1;
  reg_len : w_mw_len s = 0 ∨ ∃ k, w_mw_len s = 2 ^ k ∧ 8 ≤ k ≤ 31 }.

Definition registered (s : wfs) : list Z := mjoin (wt_shm_idxs <$> w_waiters s).
End registry.

Notation cell_idx s idx := (cell_at s (cell_addr idx)).

#[export] Instance reg_inv_proper {PS : PageSize} :
  Proper ((≡ₚ) ==> (=) ==> iff) (@reg_inv PS).
Proof.
  intros l l' Hp s s' <-.
  assert (∀ l l' s, l ≡ₚ l' → reg_inv l s → reg_inv l' s) as Himp.
  { clear. intros l l' s Hp [H1 H2 H3 H4 H5]. split; [..|done].
    - intros idx. by rewrite <- Hp.
    - intros idx Hin. apply H2. by rewrite Hp.
    - intros idx Hi Hw. rewrite (H3 _ Hi Hw). apply bool_decide_ext. by rewrite Hp.
    - by rewrite <- (Permutation_length Hp). }
  split; by apply Himp.
Qed.

Section registry_ops.
Context `{PageSize}.
Implicit Types (s : wfs) (l : list Z).

Lemma mw_count_set s m n idx : mw_count (set_mw m n s) idx = default 0 (m !! idx).
Proof. done. Qed.

Lemma type_word_multi c :
  has_flag (set_type (Z.lor (c_type c) WFUSYNC_MULTI_WAITERS) c) WFUSYNC_MULTI_WAITERS = true ∧
  type_of (set_type (Z.lor (c_type c) WFUSYNC_MULTI_WAITERS) c) = type_of c.
Proof.
  rewrite multi_pow. split; [by apply flag_set_same|apply type_of_set_flag]. unfold is_flag. lia.
Qed.

Lemma type_word_no_multi c :
  has_flag (set_type (Z.land (c_type c) (Z.lnot WFUSYNC_MULTI_WAITERS)) c)
    WFUSYNC_MULTI_WAITERS = false ∧
  type_of (set_type (Z.land (c_type c) (Z.lnot WFUSYNC_MULTI_WAITERS)) c) = type_of c.
Proof.
  rewrite multi_pow. split; [by apply flag_clear_same|apply type_of_clear_flag].
  unfold is_flag. lia.
Qed.

(** What an operation of the registry may change: type flags of cells and the counters. *)
Record frame (s s' : wfs) : Prop := {
  fr_mapped : ∀ idx, state_mapped s' idx = state_mapped s idx;
  fr_low : ∀ p, c_low (cell_at s' p) = c_low (cell_at s p);
  fr_high : ∀ p, c_high (cell_at s' p) = c_high (cell_at s p);
  fr_gen : ∀ p, c_generation (cell_at s' p) = c_generation (cell_at s p);
  fr_type : ∀ p, type_of (cell_at s' p) = type_of (cell_at s p);
  fr_waiters : w_waiters s' = w_waiters s }.

Lemma frame_refl s : frame s s.
Proof. by split. Qed.
Lemma frame_trans s1 s2 s3 : frame s1 s2 → frame s2 s3 → frame s1 s3.
Proof. intros [] []. split; intros; congruence. Qed.

Lemma frame_type_word s p t :
  type_of (set_type t (cell_at s p)) = type_of (cell_at s p) →
  frame s (put_cell p (set_type t (cell_at s p)) s).
Proof. intros Ht. split; intros; rewrite ?cell_at_put; try case_decide; subst; done. Qed.

Lemma frame_set_mw m n s : frame s (set_mw m n s).
Proof. by split. Qed.
Lemma frame_set_env e s : frame s (set_env e s).
Proof. by split. Qed.

Lemma frame_signaled s s' p :
  frame s s' → cell_signaled (cell_at s' p) = cell_signaled (cell_at s p).
Proof. intros F. unfold cell_signaled. by rewrite (fr_type _ _ F), (fr_low _ _ F). Qed.

Lemma reg_inv_frame_env l s e : reg_inv l s → reg_inv l (set_env e s).
Proof. by intros []. Qed.

Lemma remove_multi_waiter_spec idx l s :
  reg_inv (idx :: l) s →
  wp (remove_multi_waiter idx) (λ _ s', reg_inv l s' ∧ frame s s') s.
Proof.
  intros [Hc Hi Hfl Hsm Hl]. unfold remove_multi_waiter.
  destruct (Hi idx) as (Hr & Hm & Hlen); [set_solver|].
  wp_run ltac:(rewrite wp_get_state). rewrite Hm.
  pose proof (Hc idx) as Hidx. rewrite occ_cons, decide_True in Hidx by done.
  pose proof (occ_nonneg idx l).
  rewrite (proj2 (Z.leb_gt _ _)) by lia. rewrite (proj2 (Z.eqb_neq (mw_count s idx) 0)) by lia.
  simpl. rewrite wp_bind, wp_modify.
  assert (∀ j, default 0 (<[idx := mw_count s idx - 1]> (w_mw_counts s) !! j) = occ j l) as Hcnt.
  { intros j. rewrite lookup_insert. case_decide; [subst; simpl; lia|].
    specialize (Hc j). rewrite occ_cons, decide_False in Hc by done. done. }
  simpl in Hsm. unfold truth. destruct (Z.eqb_spec (mw_count s idx - 1) 0) as [Hz|Hz]; simpl.
  - unfold fetch_and_type. rewrite wp_st. autorewrite with shm_db. split.
    + split; [done|by intros; apply Hi; set_solver| |lia|done].
      intros j Hj Hw. autorewrite with shm_db in *.
      rewrite cell_at_put in *. case_decide as Heq.
      * apply cell_addr_inj in Heq; [|done..]. subst j.
        rewrite (proj1 (type_word_no_multi _)). symmetry. apply bool_decide_eq_false. lia.
      * rewrite Hfl by done. rewrite occ_cons, decide_False by congruence.
        by rewrite Z.add_0_l.
    + eapply frame_trans; [by apply frame_type_word, type_word_no_multi|apply frame_set_mw].
  - rewrite wp_ret. split; [|apply frame_set_mw]. split; [done|by intros; apply Hi; set_solver| |lia|done].
    intros j Hj Hw. autorewrite with shm_db in *. rewrite Hfl by done. rewrite occ_cons.
    case_decide; subst; [|by rewrite Z.add_0_l].
    apply bool_decide_ext. lia.
Qed.

Lemma remove_all_spec idxs l s :
  reg_inv (idxs ++ l) s →
  wp (for_each idxs remove_multi_waiter) (λ _ s', reg_inv l s' ∧ frame s s') s.
Proof.
  revert s. induction idxs as [|idx idxs IH]; intros s Hr; simpl.
  - rewrite wp_ret. split; [done|apply frame_refl].
  - rewrite wp_bind. eapply wp_mono; [by apply remove_multi_waiter_spec|].
    intros [] s' [Hr' F]. eapply wp_mono; [by apply IH|].
    intros [] s'' [Hr'' F']. split; [done|by eapply frame_trans].
Qed.

(** The array length is 0 or a power of two from 256 to 2^31. *)
Lemma grow_count_spec fuel idx k :
  0 ≤ idx < 2 ^ 31 → 0 ≤ k ≤ 31 → 31 < k + Z.of_nat fuel →
  ∃ k', grow_count fuel idx (2 ^ k) = Some (2 ^ k') ∧ k ≤ k' ≤ 31 ∧ idx < 2 ^ k'.
Proof.
  revert k. induction fuel as [|fuel IH]; intros k Hi Hk Hf; [lia|]. simpl.
  destruct (Z.leb_spec (2 ^ k) idx) as [Hle|]; [|exists k; split_and!; [done|lia..]].
  assert (k < 31) by (apply (Z.pow_lt_mono_r_iff 2); lia).
  replace (2 ^ k * 2) with (2 ^ (k + 1)) by (rewrite Z.pow_add_r; lia).
  rewrite u32_small.
  - destruct (IH (k + 1)) as (k' & Hk' & ?); [lia..|]. exists k'. split; [done|lia].
  - split; [lia|]. apply Z.pow_lt_mono_r; lia.
Qed.

Lemma ensure_multi_waiter_count_spec idx l s :
  reg_inv l s → 0 ≤ idx < 2 ^ 31 →
  wp (ensure_multi_waiter_count idx)
    (λ ok s', reg_inv l s' ∧ frame s s' ∧ (ok = true → idx < w_mw_len s')) s.
Proof.
  intros Hr Hi. unfold ensure_multi_waiter_count.
  wp_run idtac. destruct (Z.ltb_spec idx (w_mw_len s)).
  { rewrite wp_ret. split_and!; [done|apply frame_refl|done]. }
  assert (∃ k, (if truth (w_mw_len s) then u32 (w_mw_len s * 2) else 256) = 2 ^ k ∧
            w_mw_len s ≤ 2 ^ k ∧ 8 ≤ k ≤ 31) as (k & -> & Hle & Hk).
  { destruct (reg_len _ _ Hr) as [E|(k & E & Hk)]; rewrite E in *; [by exists 8|].
    assert (k < 31) by (apply (Z.pow_lt_mono_r_iff 2); lia).
    exists (k + 1). unfold truth. rewrite (proj2 (Z.eqb_neq _ _)) by lia. simpl.
    rewrite Z.pow_add_r by lia. change (2 ^ 1) with 2.
    assert (2 ^ k < 2 ^ 31) by (apply Z.pow_lt_mono_r; lia).
    assert (0 < 2 ^ k) by (apply Z.pow_pos_nonneg; lia).
    rewrite u32_small; lia. }
  destruct (grow_count_spec grow_fuel idx k) as (k' & -> & Hk' & Hn); [unfold grow_fuel; lia..|].
  rewrite wp_bind. apply wp_syscall. intros r e. destruct (sys_ok r); simpl.
  - wp_run idtac. split_and!; [|by split|done]. destruct Hr as [Hc Hx Hfl Hsm Hl].
    split; [exact Hc| |exact Hfl|done|right; exists k'; split_and!; [done|lia..]].
    intros j Hj. destruct (Hx j Hj) as (?&?&?). split_and!; [lia|lia|done|]. simpl.
    assert (2 ^ k ≤ 2 ^ k') by (apply Z.pow_le_mono_r; lia). lia.
  - rewrite wp_ret. split_and!; [by apply reg_inv_frame_env|by split|done].
Qed.

Lemma add_multi_waiter_spec idx l s :
  reg_inv l s → 0 ≤ idx < 2 ^ 31 → Z.of_nat (length l) + 1 < 2 ^ 32 - 1 →
  wp (add_multi_waiter idx)
    (λ ok s', (if ok then reg_inv (idx :: l) s' else reg_inv l s') ∧ frame s s') s.
Proof.
  intros Hr Hi Hsm. unfold add_multi_waiter.
  wp_run ltac:(rewrite wp_get_state).
  destruct (state_mapped s idx) eqn:Hm; [|by rewrite wp_ret; split; [|apply frame_refl]].
  wp_run ltac:(rewrite wp_get_state_type).
  destruct (is_waitable_type _) eqn:Hw; simpl; [|by rewrite wp_ret; split; [|apply frame_refl]].
  rewrite wp_bind. eapply wp_mono; [by apply ensure_multi_waiter_count_spec|].
  intros [] s' (Hr' & F & Hlen); simpl; [|by rewrite wp_ret].
  specialize (Hlen eq_refl). wp_run ltac:(unfold fetch_or_type; rewrite wp_st).
  autorewrite with shm_db. destruct Hr' as [Hc Hx Hfl Hsm' Hl]. split.
  - assert (idx_ok s' idx) as Hok by (split_and!; [lia|lia|by rewrite (fr_mapped _ _ F)|done]).
    split; simpl.
    + intros j. unfold mw_count at 1. simpl. rewrite lookup_insert, occ_cons. case_decide.
      * subst j. rewrite decide_True by done. simpl. rewrite Hc, u32_small; [lia|].
        pose proof (occ_nonneg idx l). pose proof (occ_le_length idx l). lia.
      * rewrite decide_False by congruence. rewrite Z.add_0_l. apply Hc.
    + intros j Hj. apply elem_of_cons in Hj as [->|Hj]; [done|by apply Hx].
    + intros j Hj Hwj. autorewrite with shm_db in *. rewrite cell_at_put in *.
      pose proof (occ_nonneg j l). rewrite occ_cons.
      case_decide as Heq.
      * apply cell_addr_inj in Heq; [|lia..]. subst j. rewrite decide_True by done.
        rewrite (proj1 (type_word_multi _)). symmetry. apply bool_decide_eq_true. lia.
      * rewrite decide_False by congruence. rewrite Z.add_0_l. by apply Hfl.
    + lia.
    + done.
  - eapply frame_trans; [done|]. eapply frame_trans; [|apply frame_set_mw].
    apply frame_type_word, type_word_multi.
Qed.

Lemma register_add_spec todo : ∀ added l s,
  reg_inv (added ++ l) s → (∀ idx, idx ∈ todo → 0 ≤ idx < 2 ^ 31) →
  Z.of_nat (length added + length todo + length l) < 2 ^ 32 - 1 →
  wp (register_add added todo)
    (λ ok s', (if ok then reg_inv (todo ++ added ++ l) s' else reg_inv l s') ∧ frame s s') s.
Proof.
  induction todo as [|idx todo IH]; intros added l s Hr Htodo Hsm; simpl.
  - rewrite wp_ret. split; [done|apply frame_refl].
  - simpl in Hsm. rewrite wp_bind. eapply wp_mono.
    { apply add_multi_waiter_spec; [done|apply Htodo; set_solver|].
      rewrite length_app. lia. }
    intros [] s' [Hr' F]; simpl.
    + eapply wp_mono; [apply (IH (idx :: added)); [done|set_solver|simpl; lia]|].
      intros ok s'' [Hr'' F']. split; [|by eapply frame_trans]. destruct ok; [|done].
      cbn [app] in Hr''. by rewrite <- Permutation_middle in Hr''.
    + rewrite wp_bind. eapply wp_mono; [by apply remove_all_spec|].
      intros [] s'' [Hr'' F']. rewrite wp_ret. split; [done|by eapply frame_trans].
Qed.
End registry_ops.

(** ** Registered waiters *)

(** The objects that were made available without waking their registered waiters: none,
    unless a section is about a server in which SignalObjectAndWait has released mutexes. *)
Class Stranded := stranded : list Z.
#[export] Instance none_stranded : Stranded | 100 := [].

Section waiters.
Context `{PageSize} `{ST : Stranded}.
Implicit Types (s : wfs) (l : list Z) (w : wfusync_waiter).

(** Every other signaled object has woken every waiter registered for it. *)
Definition no_missed_wakeup s : Prop :=
  ∀ w idx, w ∈ w_waiters s → idx ∈ wt_shm_idxs w → idx ∉ stranded →
    cell_signaled (cell_idx s idx) = true → c_low (cell_idx s (wt_slot_idx w)) = 0.

Definition slot_ok s (slot_idx : Z) : Prop :=
  0 ≤ slot_idx < 2 ^ 32 ∧ state_mapped s slot_idx = true ∧
  type_of (cell_idx s slot_idx) = INPROC_SYNC_INTERNAL.

Record slots_ok s : Prop := {
  wo_nodup : NoDup (wt_slot_idx <$> w_waiters s);
  wo_slot : ∀ w, w ∈ w_waiters s → slot_ok s (wt_slot_idx w);
  wo_woken : no_missed_wakeup s }.

Record waiters_ok s : Prop := {
  wo_reg : reg_inv (registered s) s;
  wo_slots : slots_ok s }.

Definition other_slot (slot_idx : Z) w : Prop := wt_slot_idx w ≠ slot_idx.
#[local] Instance other_slot_dec slot_idx w : Decision (other_slot slot_idx w).
Proof. unfold other_slot. apply _. Defined.

Lemma remove_waiter_walk_spec slot_idx ws : ∀ rest s,
  reg_inv (mjoin (wt_shm_idxs <$> ws) ++ rest) s →
  wp (remove_waiter_walk slot_idx ws)
    (λ ws' s', ws' = filter (other_slot slot_idx) ws ∧
       reg_inv (mjoin (wt_shm_idxs <$> ws') ++ rest) s' ∧ frame s s') s.
Proof.
  induction ws as [|w ws IH]; intros rest s Hr; simpl.
  - rewrite wp_ret. split_and!; [done|done|apply frame_refl].
  - rewrite filter_cons. unfold other_slot at 1. simpl in Hr. rewrite <- app_assoc in Hr.
    destruct (Z.eqb_spec (wt_slot_idx w) slot_idx) as [Heq|Hne].
    + rewrite wp_bind. eapply wp_mono; [by apply remove_all_spec|].
      intros [] s' [Hr' F]. eapply wp_mono; [by apply IH|].
      intros ws' s'' (-> & Hr'' & F'). rewrite decide_False by naive_solver.
      split_and!; [done|done|by eapply frame_trans].
    + rewrite wp_bind. eapply wp_mono.
      { apply (IH (wt_shm_idxs w ++ rest)). by rewrite Permutation_app_swap_app. }
      intros ws' s' (-> & Hr' & F'). rewrite wp_ret. rewrite decide_True by done.
      split_and!; [done| |done]. simpl. rewrite <- app_assoc.
      by rewrite Permutation_app_swap_app.
Qed.

Lemma reg_inv_set_waiters l ws s : reg_inv l (set_waiters ws s) ↔ reg_inv l s.
Proof. split; intros []; by split. Qed.

(** A store that keeps the type word keeps the registry. *)
Lemma reg_inv_put l p c s :
  c_type c = c_type (cell_at s p) → reg_inv l s → reg_inv l (put_cell p c s).
Proof.
  intros Hc [H1 H2 H3 H4 H5]. split; [done|done| |done|done].
  intros idx Hi. rewrite cell_at_put. case_decide as E; [|by apply H3].
  subst p. unfold type_of, has_flag. rewrite Hc. by apply H3.
Qed.

Lemma reg_inv_wake l p all s : reg_inv l s → reg_inv l (add_wake p all s).
Proof.
  intros [H1 H2 H3 H4 H5]. split; [done|done| |done|done].
  intros idx. rewrite cell_at_wake. apply H3.
Qed.

Lemma remove_waiter_spec slot_idx s :
  reg_inv (registered s) s →
  wp (remove_waiter slot_idx)
    (λ _ s', w_waiters s' = filter (other_slot slot_idx) (w_waiters s) ∧
       reg_inv (registered s') s' ∧
       (∃ t, frame s t ∧ s' = set_waiters (w_waiters s') t)) s.
Proof.
  intros Hr. unfold remove_waiter. wp_run idtac. eapply wp_mono.
  { apply (remove_waiter_walk_spec _ _ []). by rewrite app_nil_r. }
  intros ws' s' (-> & Hr' & F). rewrite wp_modify. rewrite app_nil_r in Hr'.
  split_and!; [done| |by exists s'].
  unfold registered. simpl. by apply reg_inv_set_waiters.
Qed.

Lemma waiters_ok_remove slot_idx s :
  waiters_ok s →
  wp (remove_waiter slot_idx)
    (λ _ s', waiters_ok s' ∧ w_waiters s' = filter (other_slot slot_idx) (w_waiters s) ∧
       (∀ idx, state_mapped s' idx = state_mapped s idx) ∧
       (∀ p, type_of (cell_at s' p) = type_of (cell_at s p) ∧
             cell_signaled (cell_at s' p) = cell_signaled (cell_at s p) ∧
             c_low (cell_at s' p) = c_low (cell_at s p))) s.
Proof.
  intros [Hr [Hnd Hsl Hw]]. eapply wp_mono; [by apply remove_waiter_spec|].
  intros [] s' (Hws & Hr' & t & F & Hs').
  assert (∀ p, cell_at s' p = cell_at t p) as Hcell by (intros; by rewrite Hs').
  assert (∀ idx, state_mapped s' idx = state_mapped s idx) as Hmap.
  { intros idx. rewrite Hs'. apply (fr_mapped _ _ F). }
  assert (∀ w, w ∈ w_waiters s' → w ∈ w_waiters s) as Hsub.
  { intros w. rewrite Hws, list_elem_of_filter. naive_solver. }
  split_and!; [split; [done|split]|done|done|].
  - rewrite Hws. clear -Hnd. induction (w_waiters s) as [|w ws IH]; [constructor|].
    simpl in Hnd. apply list.NoDup_cons in Hnd as [Hin Hnd]. rewrite filter_cons.
    case_decide; [|by apply IH]. simpl. apply list.NoDup_cons. split; [|by apply IH].
    rewrite list_elem_of_fmap in *. intros (w' & E & Hw'). apply Hin. exists w'.
    apply list_elem_of_filter in Hw'. naive_solver.
  - intros w Hin. destruct (Hsl w (Hsub w Hin)) as (?&?&?).
    split_and!; [lia|lia|by rewrite Hmap|by rewrite Hcell, (fr_type _ _ F)].
  - intros w idx Hin Hidx Hne Hsig. rewrite Hcell, (frame_signaled _ _ _ F) in Hsig.
    rewrite Hcell, (fr_low _ _ F). by eapply Hw; [by apply Hsub| | |].
  - intros p. rewrite Hcell.
    split_and!; [apply (fr_type _ _ F)|by apply frame_signaled|apply (fr_low _ _ F)].
Qed.
End waiters.

(** ** Registration *)

Section register.
Context `{PageSize} `{ST : Stranded}.
Implicit Types (s : wfs) (l : list Z) (w : wfusync_waiter).

Lemma slots_ok_set_env e s : slots_ok s → slots_ok (set_env e s).
Proof. intros []. by split. Qed.
Lemma waiters_ok_set_env e s : waiters_ok s → waiters_ok (set_env e s).
Proof. intros [[] []]. by split; split. Qed.
Lemma waiters_ok_set_err e s : waiters_ok s → waiters_ok (set_err e s).
Proof. intros [[] []]. by split; split. Qed.
Lemma waiters_ok_set_gen g s : waiters_ok s → waiters_ok (set_next_generation g s).
Proof. intros [[] []]. by split; split. Qed.

Lemma internal_not_signaled c : type_of c = INPROC_SYNC_INTERNAL → cell_signaled c = false.
Proof. unfold cell_signaled. by intros ->. Qed.

Definition slot_free s (slot_idx : Z) : Prop :=
  ∀ w, w ∈ w_waiters s → wt_slot_idx w ≠ slot_idx.

Lemma slots_ok_put_slot slot_idx c s :
  slots_ok s → slot_ok s slot_idx →
  c_type c = c_type (cell_idx s slot_idx) →
  (slot_free s slot_idx ∨ c_low c = 0) →
  slots_ok (put_cell (cell_addr slot_idx) c s).
Proof.
  intros [Hnd Hsl Hw] (Hi & Hm & Hty) Hc Hfree.
  assert (type_of c = INPROC_SYNC_INTERNAL) as Htc by (unfold type_of in *; by rewrite Hc).
  split; [done| |].
  - intros w Hin. destruct (Hsl w Hin) as (?&?&?). split_and!; [lia|lia|done|].
    rewrite cell_at_put. by case_decide.
  - intros w idx Hin Hidx Hne. simpl in Hin. rewrite (cell_at_put _ _ (cell_addr idx)).
    case_decide; [by rewrite internal_not_signaled|]. intros Hsig.
    rewrite cell_at_put. case_decide as E; [|by eapply Hw].
    destruct Hfree as [Hfree|]; [|done]. exfalso. apply (Hfree w Hin).
    symmetry. apply cell_addr_inj; [done|apply Hsl; done|done].
Qed.

Lemma waiters_ok_put_slot slot_idx c s :
  waiters_ok s → slot_ok s slot_idx →
  c_type c = c_type (cell_idx s slot_idx) →
  (slot_free s slot_idx ∨ c_low c = 0) →
  waiters_ok (put_cell (cell_addr slot_idx) c s).
Proof. intros [Hr Hsl] ???. split; [by apply reg_inv_put|by apply slots_ok_put_slot]. Qed.

Lemma slots_ok_wake p all s : slots_ok s → slots_ok (add_wake p all s).
Proof.
  intros [Hnd Hsl Hw]. split; [done| |].
  - intros w Hin. destruct (Hsl w Hin) as (?&?&?). split_and!; [lia|lia|done|].
    by rewrite cell_at_wake.
  - intros w idx. simpl. rewrite !cell_at_wake. by apply Hw.
Qed.

Lemma waiters_ok_wake p all s : waiters_ok s → waiters_ok (add_wake p all s).
Proof. intros [Hr Hsl]. split; [by apply reg_inv_wake|by apply slots_ok_wake]. Qed.

(** A change of type flags and counters. *)
Lemma slots_ok_frame s s' : frame s s' → slots_ok s → slots_ok s'.
Proof.
  intros F [Hnd Hsl Hw]. split.
  - by rewrite (fr_waiters _ _ F).
  - intros w. rewrite (fr_waiters _ _ F). intros Hin. destruct (Hsl w Hin) as (?&?&?).
    split_and!; [lia|lia|by rewrite (fr_mapped _ _ F)|by rewrite (fr_type _ _ F)].
  - intros w idx. rewrite (fr_waiters _ _ F), (frame_signaled _ _ _ F), (fr_low _ _ F).
    apply Hw.
Qed.

Lemma slot_ok_put s p c slot_idx :
  c_type c = c_type (cell_at s p) → slot_ok s slot_idx → slot_ok (put_cell p c s) slot_idx.
Proof.
  intros Hc (?&?&Ht). split_and!; [lia|lia|done|]. rewrite cell_at_put. case_decide; [|done].
  subst p. unfold type_of in *. by rewrite Hc.
Qed.

(** Waking a slot keeps the invariant and leaves the slot awake. *)
Lemma wake_wait_slot_spec slot_idx s :
  waiters_ok s → slot_ok s slot_idx →
  wp (wake_wait_slot (cell_addr slot_idx))
    (λ _ s', waiters_ok s' ∧ w_waiters s' = w_waiters s ∧ slot_ok s' slot_idx ∧
       c_low (cell_idx s' slot_idx) = 0 ∧
       (∀ p, p ≠ cell_addr slot_idx → cell_at s' p = cell_at s p)) s.
Proof.
  intros Hok Hs. unfold wake_wait_slot. rewrite wp_bind, wp_st, wp_wake. split_and!.
  - apply waiters_ok_wake, waiters_ok_put_slot; auto.
  - done.
  - by apply slot_ok_put.
  - rewrite cell_at_wake. by autorewrite with shm_db.
  - intros p Hp. rewrite cell_at_wake. by rewrite cell_at_put_ne.
Qed.

Definition idx_valid s (idx : Z) : bool :=
  state_mapped s idx && is_waitable_type (type_of (cell_idx s idx)).

Lemma register_validate_spec idxs s :
  register_validate idxs s = Done (forallb (idx_valid s) idxs) s.
Proof.
  apply wp_exec. unfold register_validate. rewrite wp_bind.
  induction idxs as [|idx idxs IH]; simpl; [by rewrite !wp_ret|].
  unfold idx_valid at 1. wp_run ltac:(first [rewrite wp_get_state]).
  destruct (state_mapped s idx) eqn:Hm; wp_run ltac:(rewrite wp_get_state_type); [|done].
  destruct (is_waitable_type _); wp_run idtac; [|done]. exact IH.
Qed.

(** The last loop of the registration wakes the slot at the first signaled object. *)
Lemma register_wake_spec slot idxs s :
  (∀ idx, idx ∈ idxs → state_mapped s idx = true) →
  wp (for_until idxs (λ idx, signaled ← wfusync_state_signaled idx;
        if negb signaled then mret None else _ ← wake_wait_slot slot; mret (Some tt)))
    (λ _ s', s' = if existsb (λ idx, cell_signaled (cell_idx s idx)) idxs
                  then add_wake slot true (put_cell slot (set_low 0 (cell_at s slot)) s)
                  else s) s.
Proof.
  induction idxs as [|idx idxs IH]; intros Hm; simpl; [by rewrite wp_ret|].
  unfold wfusync_state_signaled, wake_wait_slot.
  wp_run ltac:(first [rewrite wp_get_state | rewrite (Hm idx) by set_solver | rewrite wp_ld]).
  destruct (cell_signaled _) eqn:Hsig; simpl.
  - by wp_run ltac:(first [rewrite wp_st | rewrite wp_wake]).
  - rewrite wp_ret. apply IH. set_solver.
Qed.
End register.

(** ** The theorems *)

Section theorems.
Context `{PageSize} `{ST : Stranded}.
Implicit Types (s : wfs) (l : list Z) (w : wfusync_waiter).

(** What a refused registration leaves behind. *)
Definition refused (slot_idx : Z) s s' : Prop :=
  slot_ok s slot_idx ∧ waiters_ok s' ∧ w_waiters s' = filter (other_slot slot_idx) (w_waiters s) ∧
  c_low (cell_idx s' slot_idx) = 0.

Lemma refuse_wake slot_idx s0 s :
  slot_ok s0 slot_idx → waiters_ok s → slot_ok s slot_idx →
  w_waiters s = filter (other_slot slot_idx) (w_waiters s0) →
  wp (wake_wait_slot (cell_addr slot_idx)) (λ _ s', refused slot_idx s0 s') s.
Proof.
  intros Hs0 Hok Hs Hws. eapply wp_mono; [by apply wake_wait_slot_spec|].
  intros [] s' (?&?&?&?&?). split; [done|]. split_and!; [done|congruence|done].
Qed.

(** The tail of [wfusync_register_wait] once the indices are validated. *)
Definition accepted (slot_idx : Z) (idxs : list Z) s s' : Prop :=
  slot_ok s slot_idx ∧ waiters_ok s' ∧
  w_waiters s' = Waiter slot_idx idxs :: filter (other_slot slot_idx) (w_waiters s) ∧
  (c_low (cell_idx s' slot_idx) =
     if existsb (λ idx, cell_signaled (cell_idx s' idx)) idxs then 0 else 1).

Lemma waiters_ok_push slot_idx idxs s :
  slots_ok s → slot_ok s slot_idx → slot_free s slot_idx →
  reg_inv (idxs ++ registered s) s →
  (c_low (cell_idx s slot_idx) = 0 ∨
   existsb (λ idx, cell_signaled (cell_idx s idx)) idxs = false) →
  waiters_ok (set_waiters (Waiter slot_idx idxs :: w_waiters s) s).
Proof.
  intros [Hnd Hsl Hw] Hs Hfree Hr' Hlow. split; [|split].
  - unfold registered. simpl. by apply reg_inv_set_waiters.
  - simpl. apply list.NoDup_cons. split; [|done].
    rewrite list_elem_of_fmap. intros (w & E & Hin). by apply (Hfree w).
  - intros w Hin. simpl in Hin. apply elem_of_cons in Hin as [->|Hin]; [done|by apply Hsl].
  - intros w idx Hin Hix Hne Hsg. simpl in Hin. autorewrite with shm_db in *.
    apply elem_of_cons in Hin as [->|Hin]; [|by eapply Hw].
    destruct Hlow as [Hlow|Hlow]; [done|]. simpl in Hix.
    rewrite (existsb_false _ _ _ Hlow Hix) in Hsg. done.
Qed.

Lemma slot_free_filter slot_idx ws s :
  w_waiters s = filter (other_slot slot_idx) ws → slot_free s slot_idx.
Proof. intros Hws w. rewrite Hws, list_elem_of_filter. unfold other_slot. naive_solver. Qed.

Lemma accept_spec slot_idx idxs s0 s :
  slot_ok s0 slot_idx → slots_ok s → slot_ok s slot_idx → c_low (cell_idx s slot_idx) = 1 →
  w_waiters s = filter (other_slot slot_idx) (w_waiters s0) →
  reg_inv (idxs ++ registered s) s →
  wp (l ← gets w_waiters;
      _ ← modify (set_waiters (Waiter slot_idx idxs :: l));
      for_until idxs (λ idx, signaled ← wfusync_state_signaled idx;
        if negb signaled then mret None
        else _ ← wake_wait_slot (cell_addr slot_idx); mret (Some tt)))
    (λ _ s', accepted slot_idx idxs s0 s') s.
Proof.
  intros Hs0 Hok Hs Hlow Hws Hr'. wp_run idtac.
  pose proof (slot_free_filter _ _ _ Hws) as Hfree.
  assert (∀ idx, idx ∈ idxs → state_mapped s idx = true) as Hidx.
  { intros idx Hin. apply (reg_idx _ _ Hr' idx). set_solver. }
  eapply wp_mono; [by apply register_wake_spec|]. intros r s' ->. cbv beta.
  autorewrite with shm_db. rewrite Hws.
  destruct (existsb _ idxs) eqn:Hb.
  - set (t := put_cell (cell_addr slot_idx) (set_low 0 (cell_idx s slot_idx)) s).
    assert (slots_ok t) as Hokt by (apply slots_ok_put_slot; auto).
    assert (slot_ok t slot_idx) as Hst by by apply slot_ok_put.
    assert (c_low (cell_idx t slot_idx) = 0) as Hlt by (unfold t; by rewrite cell_at_put_eq).
    assert (existsb (λ idx, cell_signaled (cell_idx t idx)) idxs = true) as Hbt.
    { rewrite <- Hb. apply existsb_ext. intros idx. unfold t. rewrite cell_at_put.
      case_decide as E; [|done]. destruct Hs as (?&?&?). rewrite <- E.
      by rewrite !internal_not_signaled. }
    unfold accepted. rewrite <- Hws. split; [done|]. split_and!; [|done|].
    + apply waiters_ok_wake. apply (waiters_ok_push _ _ t); auto.
      by apply reg_inv_put.
    + rewrite cell_at_wake, cell_at_set_waiters, Hlt.
      rewrite (existsb_ext _ (λ idx, cell_signaled (cell_idx t idx))), Hbt; [done|].
      intros idx. by rewrite cell_at_wake.
  - unfold accepted. rewrite <- Hws. split; [done|]. split_and!; [by apply waiters_ok_push; auto|done|].
    autorewrite with shm_db. rewrite Hlow.
    change (1 = if existsb (λ idx, cell_signaled (cell_idx s idx)) idxs then 0 else 1).
    change (existsb (λ idx, cell_signaled (cell_idx s idx)) idxs = false) in Hb. by rewrite Hb.
Qed.

(** The state [wfusync_register_wait] reaches before it looks at the objects: the old
    registration gone, the slot armed. *)
Lemma register_armed slot_idx s :
  waiters_ok s → slot_ok s slot_idx →
  wp (_ ← remove_waiter slot_idx; _ ← st (cell_addr slot_idx) (set_low 1);
      g ← take_generation; st (cell_addr slot_idx) (set_generation g))
    (λ _ t, waiters_ok t ∧ slot_ok t slot_idx ∧ c_low (cell_idx t slot_idx) = 1 ∧
       w_waiters t = filter (other_slot slot_idx) (w_waiters s) ∧
       (∀ idx, idx_valid t idx = idx_valid s idx)) s.
Proof.
  intros Hok Hs. rewrite wp_bind. eapply wp_mono; [by apply waiters_ok_remove|].
  intros [] s1 (Hok1 & Hws & Hmap & Hcell). unfold take_generation.
  wp_run ltac:(rewrite wp_st). autorewrite with shm_db.
  set (c := set_generation _ _).
  assert (slot_ok s1 slot_idx) as Hs1.
  { destruct Hs as (?&?&?). split_and!; [lia|lia|by rewrite Hmap|by rewrite (proj1 (Hcell _))]. }
  split_and!.
  - apply waiters_ok_set_gen, waiters_ok_put_slot; [done..|].
    left. by eapply slot_free_filter.
  - change (slot_ok (put_cell (cell_addr slot_idx) c s1) slot_idx). by apply slot_ok_put.
  - unfold c. by autorewrite with shm_db.
  - done.
  - intros idx. unfold idx_valid. autorewrite with shm_db. f_equal; [apply Hmap|].
    rewrite cell_at_put, <- (proj1 (Hcell _)). by case_decide as E; [rewrite <- E|].
Qed.

#[local] Hint Resolve waiters_ok_set_env waiters_ok_set_err : core.

Lemma registered_filter_length slot_idx s :
  (length (mjoin (wt_shm_idxs <$> filter (other_slot slot_idx) (w_waiters s))) ≤
   length (registered s))%nat.
Proof.
  unfold registered. induction (w_waiters s) as [|w ws IH]; [done|].
  rewrite filter_cons. case_decide; csimpl; rewrite !length_app; lia.
Qed.

(** Registration keeps the invariant whatever the allocator answers; an accepted slot
    is asleep (1) exactly when none of its objects is signaled; a refused one is awake
    and has no record left. *)
Lemma register_wait_spec slot_idx idxs s :
  waiters_ok s → 0 ≤ slot_idx < 2 ^ 32 →
  (∀ idx, idx ∈ idxs → 0 ≤ idx < 2 ^ 31) →
  Z.of_nat (length (registered s) + length idxs) < 2 ^ 32 - 1 →
  wp (wfusync_register_wait slot_idx idxs)
    (λ ok s', if ok then accepted slot_idx idxs s s' ∧ forallb (idx_valid s) idxs = true
              else s' = s ∨ refused slot_idx s s') s.
Proof.
  intros Hok Hi Hidx Hlen. unfold wfusync_register_wait.
  wp_run ltac:(first [rewrite wp_get_state | rewrite wp_get_state_type]).
  destruct (state_mapped s slot_idx) eqn:Hm; [|rewrite wp_ret; by left].
  wp_run ltac:(rewrite wp_get_state_type).
  destruct (_ || _ || _) eqn:Hcnt; [rewrite wp_ret; by left|].
  apply orb_false_iff in Hcnt as [Hcnt _]. apply orb_false_iff in Hcnt as [Hty _].
  apply negb_false_iff, Z.eqb_eq in Hty.
  assert (slot_ok s slot_idx) as Hs by (split_and!; [lia|lia|done|done]).
  apply wp_assoc4. rewrite wp_bind.
  eapply wp_mono; [by apply register_armed|].
  intros [] t (Hokt & Hst & Hlow & Hws & Hval). cbv beta.
  rewrite wp_bind. eapply wp_of_exec; [apply register_validate_spec|].
  rewrite (forallb_ext _ (idx_valid s)) by done.
  assert (∀ t', waiters_ok t' → slot_ok t' slot_idx →
    w_waiters t' = filter (other_slot slot_idx) (w_waiters s) →
    wp (_ ← wake_wait_slot (cell_addr slot_idx); mret false)
      (λ ok s', if ok then accepted slot_idx idxs s s' ∧ forallb (idx_valid s) idxs = true
                else s' = s ∨ refused slot_idx s s') t') as Hrefuse.
  { intros t' ???. rewrite wp_bind. eapply wp_mono; [by apply (refuse_wake _ s)|].
    intros [] s' ?. rewrite wp_ret. by right. }
  destruct (forallb (idx_valid s) idxs) eqn:Hv; cbn [negb]; [|apply Hrefuse; auto].
  rewrite wp_bind. apply wp_mem_alloc_ok; intros e; cbn [negb]; [|apply Hrefuse; auto].
  rewrite wp_bind. apply wp_mem_alloc_ok; intros e'; cbn [negb]; [|apply Hrefuse; auto].
  rewrite wp_bind. eapply wp_mono.
  { apply (register_add_spec _ [] (registered t)).
    - by repeat apply reg_inv_frame_env; apply wo_reg.
    - done.
    - simpl. unfold registered. rewrite Hws. pose proof (registered_filter_length slot_idx s). lia. }
  intros ok u [Hu F]. simpl in Hu.
  assert (slots_ok u) as Hoku.
  { eapply slots_ok_frame; [done|]. by repeat apply slots_ok_set_env; apply wo_slots. }
  assert (w_waiters u = filter (other_slot slot_idx) (w_waiters s)) as Hwu
    by by rewrite (fr_waiters _ _ F).
  assert (slot_ok u slot_idx) as Hsu.
  { destruct Hst as (?&?&?).
    split_and!; [lia|lia|by rewrite (fr_mapped _ _ F)|by rewrite (fr_type _ _ F)]. }
  assert (registered u = registered t) as Hregu by (unfold registered; by rewrite Hwu, Hws).
  destruct ok; cbn [negb]; [|apply Hrefuse; [split; [by rewrite Hregu|done]|done|done]].
  apply wp_assoc3. rewrite wp_bind. eapply wp_mono.
  { apply (accept_spec _ _ s); [done|done|done|by rewrite (fr_low _ _ F)|done|by rewrite Hregu]. }
  intros r s' Hacc. by rewrite wp_ret.
Qed.
End theorems.
