(* ===== verification/WfusyncWake.v ===== *)
(** * Signaling objects that registered waiters wait for

    What [wake_waiters_for_object] does to the slots, and that the server-side
    operations which may signal an object leave no registered waiter asleep. *)

From S2P Require Import Prelude.
From S2P Require Import ShmState.
From S2P Require Import ShmGuard.
From S2P Require Import WfusyncServer.
From S2P Require Import WfusyncServerOps.
From S2P Require Import WfusyncRegistry.

Section wake.
Context `{PageSize} `{ST : Stranded}.
Implicit Types (s : wfs) (w : wfusync_waiter).

(** Some waiter of [ws] registered for [idx] has its slot at [p]. *)
Definition wakes_slot (ws : list wfusync_waiter) (idx p : Z) : bool :=
  existsb (λ w, bool_decide (idx ∈ wt_shm_idxs w) && (cell_addr (wt_slot_idx w) =? p)) ws.

Lemma same_rest_waiters s s' : same_rest s s' → w_waiters s' = w_waiters s.
Proof. by intros ->. Qed.
Lemma same_rest_mapped s s' idx : same_rest s s' → state_mapped s' idx = state_mapped s idx.
Proof. by intros ->. Qed.
Lemma same_rest_syncs s s' : same_rest s s' → w_syncs s' = w_syncs s.
Proof. by intros ->. Qed.

(** Waking sets [low] of the slots of the waiters registered for the object to 0, and
    changes nothing else. *)
Lemma wake_waiters_for_object_spec idx s :
  (∀ w, w ∈ w_waiters s → state_mapped s (wt_slot_idx w) = true) →
  wp (wake_waiters_for_object idx)
    (λ _ s', same_rest s s' ∧ ∀ p, cell_at s' p =
       if wakes_slot (w_waiters s) idx p then set_low 0 (cell_at s p) else cell_at s p) s.
Proof.
  intros Hm. unfold wake_waiters_for_object. wp_run idtac.
  apply wp_for_each with (I := λ pre s', same_rest s s' ∧ ∀ p, cell_at s' p =
       if wakes_slot pre idx p then set_low 0 (cell_at s p) else cell_at s p).
  { by split; [apply same_rest_refl|]. }
  intros pre w rest s' Hl [Hs Hc].
  assert (w ∈ w_waiters s) as Hwin by (rewrite Hl, elem_of_app; right; by left).
  assert (∀ p, wakes_slot (pre ++ [w]) idx p = wakes_slot pre idx p ||
            (bool_decide (idx ∈ wt_shm_idxs w) && (cell_addr (wt_slot_idx w) =? p))) as Hw.
  { intros p. unfold wakes_slot. rewrite existsb_app. simpl. by rewrite orb_false_r. }
  case_bool_decide as Hin.
  - wp_run ltac:(rewrite wp_get_state). rewrite (same_rest_mapped _ _ _ Hs), Hm by done.
    unfold wake_wait_slot. wp_run ltac:(first [rewrite wp_st | rewrite wp_wake]).
    split.
    { eapply same_rest_trans; [exact Hs|].
      eapply same_rest_trans; [apply same_rest_put|apply same_rest_wake]. }
    intros p. rewrite cell_at_wake, cell_at_put, Hw, !Hc.
    destruct (Z.eqb_spec (cell_addr (wt_slot_idx w)) p) as [->|Hne].
    + rewrite decide_True, orb_true_r by done. simpl. by destruct (wakes_slot pre idx p).
    + rewrite decide_False by done. by rewrite andb_false_r, orb_false_r.
  - rewrite wp_ret. split; [done|]. intros p. by rewrite Hc, Hw, andb_false_l, orb_false_r.
Qed.

(** Every object but [idx] and the stranded ones has woken its waiters. *)
Definition woken_except idx s : Prop :=
  ∀ w i, w ∈ w_waiters s → i ∈ wt_shm_idxs w → i ≠ idx → i ∉ stranded →
    cell_signaled (cell_idx s i) = true → c_low (cell_idx s (wt_slot_idx w)) = 0.

Lemma wakes_slot_true ws idx p :
  wakes_slot ws idx p = true ↔
    ∃ w, w ∈ ws ∧ idx ∈ wt_shm_idxs w ∧ cell_addr (wt_slot_idx w) = p.
Proof.
  unfold wakes_slot. rewrite existsb_exists. split.
  - intros (w & Hin & Hw). rewrite andb_true_iff, bool_decide_eq_true, Z.eqb_eq in Hw.
    exists w. by rewrite list_elem_of_In.
  - intros (w & Hin & Hi & Hp). exists w. rewrite <- list_elem_of_In, andb_true_iff,
      bool_decide_eq_true, Z.eqb_eq. done.
Qed.

(** Cells of objects are not slots. *)
Lemma not_a_slot s p :
  (∀ w, w ∈ w_waiters s → slot_ok s (wt_slot_idx w)) →
  type_of (cell_at s p) ≠ INPROC_SYNC_INTERNAL → ∀ idx, wakes_slot (w_waiters s) idx p = false.
Proof.
  intros Hsl Ht idx. apply not_true_is_false. rewrite wakes_slot_true.
  intros (w & Hin & _ & <-). by destruct (Hsl w Hin) as (_ & _ & ?).
Qed.

(** The invariant with its wakeup part restricted. *)
Record almost_ok idx s : Prop := {
  ao_reg : reg_inv (registered s) s;
  ao_nodup : NoDup (wt_slot_idx <$> w_waiters s);
  ao_slot : ∀ w, w ∈ w_waiters s → slot_ok s (wt_slot_idx w);
  ao_woken : woken_except idx s }.

(** Waking the waiters of the one object that may have been signaled restores it. *)
Lemma wake_restores idx s :
  almost_ok idx s →
  wp (wake_waiters_for_object idx)
    (λ _ s', waiters_ok s' ∧ same_rest s s' ∧
       ∀ p, type_of (cell_at s p) ≠ INPROC_SYNC_INTERNAL → cell_at s' p = cell_at s p) s.
Proof.
  intros [Hr Hnd Hsl Hw]. eapply wp_mono.
  { apply wake_waiters_for_object_spec. intros w Hin. by destruct (Hsl w Hin) as (_&?&_). }
  intros [] s' [Hs Hc].
  assert (∀ p, type_of (cell_at s p) ≠ INPROC_SYNC_INTERNAL → cell_at s' p = cell_at s p) as Hobj.
  { intros p Ht. by rewrite Hc, not_a_slot. }
  assert (∀ p, c_type (cell_at s' p) = c_type (cell_at s p)) as Hty.
  { intros p. rewrite Hc. by destruct (wakes_slot _ _ _). }
  assert (∀ p, type_of (cell_at s' p) = type_of (cell_at s p)) as Htof.
  { intros p. unfold type_of. by rewrite Hty. }
  split_and!; [|done|done]. pose proof (same_rest_waiters _ _ Hs) as Hws. split.
  - unfold registered. rewrite Hws. fold (registered s). destruct Hr as [H1 H2 H3 H4 H5].
    rewrite Hs. split; [done|done| |done|done].
    rewrite <- Hs. intros i Hi. rewrite Htof. unfold has_flag. rewrite Hty. by apply H3.
  - split.
    + by rewrite Hws.
    + intros w. rewrite Hws. intros Hin. destruct (Hsl w Hin) as (?&?&?).
      split_and!; [lia|lia|by rewrite (same_rest_mapped _ _ _ Hs)|by rewrite Htof].
    + intros w i. rewrite Hws. intros Hin Hi Hns Hsig.
      assert (type_of (cell_idx s i) ≠ INPROC_SYNC_INTERNAL) as Hni.
      { intros E. rewrite internal_not_signaled in Hsig; [done|by rewrite Htof]. }
      rewrite Hobj in Hsig by done. rewrite Hc.
      destruct (wakes_slot (w_waiters s) idx (cell_addr (wt_slot_idx w))) eqn:E; [done|].
      apply (Hw w i Hin Hi); [|done|done]. intros ->. apply not_true_iff_false in E. apply E.
      apply wakes_slot_true. eauto.
Qed.
End wake.

(** * The server-side wait-all

    [wfusync_try_wait_all] acquires all the objects of a request or none of them: its
    status is a function of the cells it found, on success every cell is consumed
    exactly once, and otherwise no cell is changed. *)

Notation with_server := (with_flag 15).
Notation guarded_state := (flagged 15).

Lemma server_flag : is_flag 15.
Proof. unfold is_flag. lia. Qed.

Section wait_all.
Context `{PageSize}.
Implicit Types (s : wfs) (c : cell) (e : wait_entry).

Definition entry_addr e : Z := cell_addr (en_shm_idx e).

(** ** The specification: what a request finds, and what it consumes *)

Definition entry_guardable s e : bool :=
  state_mapped s (en_shm_idx e) && guardable (cell_at s (entry_addr e)) e.

(** Every entry names a current, unlocked cell that the server does not wait on, and no
    cell is named twice. *)
Definition request_ok s (entries : list wait_entry) : bool :=
  negb (Z.of_nat (length entries) =? 0) && negb (64 <? Z.of_nat (length entries)) &&
  forallb (entry_guardable s) entries && bool_decide (NoDup (entry_addr <$> entries)).

(** The first entry that blocks decides; otherwise whether a mutex was abandoned. *)
Fixpoint entries_status s (entries : list wait_entry) (tid : Z) (abandoned : bool) : Z :=
  match entries with
  | [] => if abandoned then STATUS_ABANDONED_WAIT_0 else STATUS_WAIT_0
  | e :: entries =>
      match entry_blocks (cell_at s (entry_addr e)) e tid with
      | inl status => status
      | inr ab => entries_status s entries tid (ab || abandoned)
      end
  end.

Definition wait_all_status s (entries : list wait_entry) (tid : Z) : Z :=
  if request_ok s entries then entries_status s entries tid false else STATUS_NOT_IMPLEMENTED.

Definition acquired (status : Z) : bool :=
  (status =? STATUS_WAIT_0) || (status =? STATUS_ABANDONED_WAIT_0).

(** The cell an acquired entry leaves behind. *)
Definition consumed c e tid : cell := default c (consume_cell c (en_type e) tid).

Fixpoint consumed_at s (entries : list wait_entry) (tid p : Z) : cell :=
  match entries with
  | [] => cell_at s p
  | e :: entries =>
      if decide (entry_addr e = p) then consumed (cell_at s p) e tid
      else consumed_at s entries tid p
  end.

(** ** Guarding *)

Lemma guardable_flags c e :
  guardable c e = true →
  has_flag c WFUSYNC_SERVER_WAITERS = false ∧ has_flag c WFUSYNC_STATE_LOCKED = false ∧
  type_of c = en_type e ∧ c_generation c = en_generation e.
Proof.
  unfold guardable. rewrite !andb_true_iff, negb_true_iff, !Z.eqb_eq. intros [[Hf Ht] Hg].
  unfold truth in Hf. apply negb_false_iff, Z.eqb_eq in Hf.
  rewrite Z.land_lor_distr_r in Hf. apply Z.lor_eq_0_iff in Hf as [H1 H2].
  unfold has_flag, truth. rewrite H1, H2. done.
Qed.

(** The first loop runs to its end exactly when every entry is guardable and no cell
    occurs twice; what it guarded is recorded either way. *)
Lemma guard_all_spec s0 entries : ∀ g s,
  guarded_state s0 g s →
  wp (guard_all entries g)
    (λ r s', guarded_state s0 r.1 s' ∧
       r.2 = forallb (entry_guardable s0) entries &&
             bool_decide (NoDup (g ++ (entry_addr <$> entries))) ∧
       (r.2 = true → r.1 = g ++ (entry_addr <$> entries))) s.
Proof.
  induction entries as [|e entries IH]; intros g s Hg; simpl.
  - rewrite wp_ret. simpl. rewrite app_nil_r.
    rewrite bool_decide_true by apply (fl_nodup _ _ _ _ Hg). done.
  - wp_run ltac:(rewrite wp_get_state). unfold entry_guardable at 1.
    rewrite (same_rest_mapped _ _ _ (fl_rest _ _ _ _ Hg)).
    destruct (state_mapped s0 (en_shm_idx e)) eqn:Hm; [|by rewrite wp_ret].
    wp_run ltac:(rewrite wp_ld). fold (entry_addr e).
    destruct (guardable (cell_at s (entry_addr e)) e) eqn:Hok; cbn [negb].
    + destruct (flagged_add 15 server_flag _ _ _ (entry_addr e) Hg) as (Hin & E0 & Hg').
      { by apply guardable_flags in Hok as [? _]. }
      rewrite <- E0, Hok.
      wp_run ltac:(unfold fetch_or_type; rewrite wp_st). eapply wp_mono.
      { apply IH, Hg'. symmetry. apply Permutation_cons_append. }
      intros r s' (Hr & E & Hall). by rewrite <- app_assoc in E, Hall.
    + rewrite wp_ret. split_and!; [done| |done]. cbn [snd].
      rewrite (fl_cell _ _ _ _ Hg) in Hok. case_bool_decide as Hin.
      * symmetry. apply andb_false_iff. right. apply bool_decide_eq_false.
        rewrite list.NoDup_app. intros (_ & Hd & _). apply (Hd _ Hin). by left.
      * by rewrite Hok.
Qed.

(** ** Checking and consuming *)

Lemma entry_blocks_with_server c e tid : entry_blocks (with_server c) e tid = entry_blocks c e tid.
Proof. unfold entry_blocks. by rewrite (with_flag_type 15 server_flag). Qed.

Lemma entry_blocks_status c e tid status :
  entry_blocks c e tid = inl status → acquired status = false.
Proof.
  unfold entry_blocks.
  repeat match goal with |- context [if ?b then _ else _] => destruct b end; by intros [= <-].
Qed.

Lemma check_all_spec s0 entries tid : ∀ s ab,
  (∀ e, e ∈ entries → cell_at s (entry_addr e) = with_server (cell_at s0 (entry_addr e))) →
  wp (check_all (zip (entry_addr <$> entries) entries) tid ab)
    (λ r s', s' = s ∧
       match r with
       | inl status => entries_status s0 entries tid ab = status ∧ acquired status = false
       | inr ab' => entries_status s0 entries tid ab =
             (if ab' then STATUS_ABANDONED_WAIT_0 else STATUS_WAIT_0) ∧
           ∀ e, e ∈ entries → ∃ a, entry_blocks (cell_at s0 (entry_addr e)) e tid = inr a
       end) s.
Proof.
  induction entries as [|e entries IH]; intros s ab Hc; csimpl.
  - rewrite wp_ret. split_and!; [done|done|]. by intros e ?%elem_of_nil.
  - wp_run ltac:(rewrite wp_ld). rewrite Hc by by left. rewrite entry_blocks_with_server.
    destruct (entry_blocks _ e tid) as [status|a] eqn:E.
    + rewrite wp_ret. split_and!; [done|done|by eapply entry_blocks_status].
    + eapply wp_mono; [apply IH; intros e' Hin; apply Hc; by right|].
      intros [status|ab'] s' [-> Hr]; [done|]. split; [done|]. destruct Hr as [Hr Hall].
      split; [done|]. intros e' [->|Hin]%elem_of_cons; eauto.
Qed.

Lemma consume_cell_with_server c ty tid :
  consume_cell (with_server c) ty tid = with_server <$> consume_cell c ty tid.
Proof.
  unfold consume_cell. cbn [with_flag c_low c_high c_generation set_type].
  repeat match goal with |- context [if ?b then _ else _] => destruct b end; done.
Qed.

Lemma consume_cell_type c ty tid c' : consume_cell c ty tid = Some c' → c_type c' = c_type c.
Proof.
  unfold consume_cell.
  repeat match goal with |- context [if ?b then _ else _] => destruct b end; by intros [= <-].
Qed.

Lemma consumed_type c e tid : c_type (consumed c e tid) = c_type c.
Proof. unfold consumed. destruct (consume_cell _ _ _) eqn:E; [by eapply consume_cell_type|done]. Qed.

(** An entry that does not block can be consumed. *)
Lemma not_blocked_consumable c e tid a :
  entry_blocks c e tid = inr a → ∃ c', consume_cell c (en_type e) tid = Some c'.
Proof.
  unfold entry_blocks, consume_cell. destruct (_ || _); [done|].
  destruct (en_type e =? INPROC_SYNC_EVENT); [destruct (c_low c =? 0); [done|eauto]|].
  destruct (en_type e =? INPROC_SYNC_SEMAPHORE); [destruct (c_low c <=? 0); [done|eauto]|].
  destruct (en_type e =? INPROC_SYNC_MUTEX); [|done]. unfold truth.
  destruct (Z.eqb_spec (c_low c) (s32 tid)) as [E|E].
  - rewrite andb_false_r. simpl. destruct (c_high c =? INT_MAX); [done|eauto].
  - destruct (Z.eqb_spec (c_low c) 0), (Z.ltb_spec (c_low c) 0), (Z.ltb_spec 0 (c_low c));
      simpl; eauto; try done. lia.
Qed.

Lemma consumed_at_tail s e entries tid p :
  entry_addr e ≠ p → consumed_at s (e :: entries) tid p = consumed_at s entries tid p.
Proof. intros. simpl. by rewrite decide_False. Qed.
Lemma consumed_at_other s entries tid p :
  p ∉ entry_addr <$> entries → consumed_at s entries tid p = cell_at s p.
Proof.
  induction entries as [|e entries IH]; csimpl; [done|].
  rewrite not_elem_of_cons. intros [Hne Hin]. rewrite decide_False by done. by apply IH.
Qed.

Lemma consumed_at_type s entries tid p : c_type (consumed_at s entries tid p) = c_type (cell_at s p).
Proof. induction entries; simpl; [done|]. case_decide; [apply consumed_type|done]. Qed.

Lemma consume_all_spec s0 entries tid : ∀ s,
  NoDup (entry_addr <$> entries) →
  (∀ e, e ∈ entries → cell_at s (entry_addr e) = with_server (cell_at s0 (entry_addr e)) ∧
     ∃ a, entry_blocks (cell_at s0 (entry_addr e)) e tid = inr a) →
  wp (consume_all (zip (entry_addr <$> entries) entries) tid)
    (λ ok s', ok = true ∧ same_rest s s' ∧ ∀ p, cell_at s' p =
       if bool_decide (p ∈ entry_addr <$> entries) then with_server (consumed_at s0 entries tid p)
       else cell_at s p) s.
Proof.
  induction entries as [|e entries IH]; intros s Hnd Hc; csimpl.
  - rewrite wp_ret. split_and!; [done|apply same_rest_refl|done].
  - csimpl in Hnd. apply list.NoDup_cons in Hnd as [Hni Hnd].
    destruct (Hc e) as (He & a & Ha); [by left|].
    wp_run ltac:(rewrite wp_ld). rewrite He, consume_cell_with_server.
    destruct (not_blocked_consumable _ _ _ _ Ha) as [c' Hc']. rewrite Hc'. simpl fmap.
    wp_run ltac:(rewrite wp_st). eapply wp_mono.
    { apply IH; [done|]. intros e' Hin. rewrite cell_at_put_ne; [apply Hc; by right|].
      intros E. apply Hni. rewrite E. by apply list_elem_of_fmap_2. }
    intros ok s' (-> & Hr & Hcell).
    split_and!; [done|by eapply same_rest_trans; [apply same_rest_put|]|].
    intros p. rewrite Hcell, cell_at_put. destruct (decide (entry_addr e = p)) as [<-|Hne].
    + rewrite bool_decide_false by done. rewrite bool_decide_true by by left.
      unfold consumed. by rewrite Hc'.
    + apply bool_decide_ext_if. rewrite elem_of_cons. naive_solver.
Qed.

Lemma try_wait_all_spec entries tid s :
  wp (wfusync_try_wait_all entries tid)
    (λ status s', status = wait_all_status s entries tid ∧ same_rest s s' ∧
       ∀ p, cell_at s' p =
         if acquired status then consumed_at s entries tid p else cell_at s p) s.
Proof.
  unfold wfusync_try_wait_all, wait_all_status, request_ok.
  destruct (_ =? 0); cbn [orb negb andb];
    [rewrite wp_ret; split_and!; [done|apply same_rest_refl|done]|].
  destruct (64 <? _); cbn [orb negb andb];
    [rewrite wp_ret; split_and!; [done|apply same_rest_refl|done]|].
  rewrite wp_bind. eapply wp_mono.
  { apply (guard_all_spec s), flagged_nil. }
  intros [g ok] s1 (Hg & Hok & Hall). cbn [fst snd app] in *. rewrite <- Hok.
  destruct ok; cbn [negb].
  2:{ wp_run idtac. eapply wp_mono.
      { apply (release_flags_spec 15 server_flag s g s1 s1 (cell_at s)); [done|apply same_rest_refl|done|].
        apply Hg. }
      intros [] s' [Hr Hc]. rewrite wp_ret. done. }
  specialize (Hall eq_refl). symmetry in Hok. apply andb_true_iff in Hok as [_ Hnd].
  apply bool_decide_eq_true in Hnd. subst g.
  assert (∀ e, e ∈ entries → cell_at s1 (entry_addr e) = with_server (cell_at s (entry_addr e))) as Hc1.
  { intros e Hin. rewrite (fl_cell _ _ _ _ Hg), bool_decide_true; [done|]. by apply list_elem_of_fmap_2. }
  rewrite !wp_bind. eapply wp_mono; [by apply (check_all_spec s)|].
  intros [status|ab] s2 [-> Hr].
  - rewrite wp_ret. destruct Hr as [-> Hacq]. wp_run idtac. eapply wp_mono.
    { apply (release_flags_spec 15 server_flag s (entry_addr <$> entries) s1 s1 (cell_at s)); [done|apply same_rest_refl|done|].
      apply Hg. }
    intros [] s' [Hr' Hc']. rewrite wp_ret, Hacq. done.
  - destruct Hr as [-> Hblk]. wp_run idtac. eapply wp_mono.
    { apply (consume_all_spec s); [done|]. intros e Hin. split; [by apply Hc1|by apply Hblk]. }
    intros ok s2 (-> & Hr2 & Hc2). cbn [negb]. wp_run idtac. eapply wp_mono.
    { apply (release_flags_spec 15 server_flag s (entry_addr <$> entries) s1 s2 (consumed_at s entries tid)); [done|done| |].
      - intros p. apply consumed_at_type.
      - intros p. rewrite Hc2. case_bool_decide as Hin; [done|].
        rewrite consumed_at_other by done. by rewrite (fl_cell _ _ _ _ Hg), bool_decide_false. }
    intros [] s' [Hr' Hc']. rewrite wp_ret. by destruct ab.
Qed.
End wait_all.
