(* ===== verification/WfusyncServerInv.v ===== *)
(** * The server's invariant

    [server_ok] ties together the heap of [struct wfusync], the cells, the index
    allocator and the waiter registry, and is kept by every operation that the server's
    objects and request handlers perform; so no sequence of them leaves a registered
    waiter asleep on a signaled object, leaks a registration or reuses a cell. *)

From S2P Require Import Prelude.
From S2P Require Import ShmState.
From S2P Require Import ShmGuard.
From S2P Require Import WfusyncServer.
From S2P Require Import WfusyncServerOps.
From S2P Require Import WfusyncRegistry.
From S2P Require Import WfusyncWake.

(** A live [struct wfusync] and its cell. *)
Record live_sync `{PageSize} (s : wfs) (v : wfusync) : Prop := {
  ls_idx : 0 ≤ ws_shm_idx v < w_next_shm_idx s;
  ls_mapped : state_mapped s (ws_shm_idx v) = true;
  ls_free : has_flag (cell_idx s (ws_shm_idx v)) WFUSYNC_STATE_LOCKED = false;
  ls_type : is_waitable_type (type_of (cell_idx s (ws_shm_idx v))) = true;
  ls_ref : 1 ≤ c_refcount (cell_idx s (ws_shm_idx v)) < 2 ^ 16 }.

Record server_ok `{PageSize} `{ST : Stranded} (s : wfs) : Prop := {
  so_waiters : waiters_ok s;
  so_range : 1 ≤ w_next_shm_idx s < 2 ^ 31;
  so_sync : ∀ q v, w_syncs s !! q = Some v → live_sync s v;
  so_inj : ∀ q q' v v', w_syncs s !! q = Some v → w_syncs s !! q' = Some v' →
    ws_shm_idx v = ws_shm_idx v' → q = q';
  so_key : ∀ q, is_Some (w_syncs s !! q) → q < w_next_sync s;
  so_slot : ∀ w, w ∈ w_waiters s → wt_slot_idx w < w_next_shm_idx s;
  so_registered : ∀ idx, idx ∈ registered s → idx < w_next_shm_idx s;
  so_fresh : ∀ idx, w_next_shm_idx s ≤ idx < 2 ^ 32 →
    type_of (cell_idx s idx) = INPROC_SYNC_UNKNOWN;
  so_pages : w_pages_count s = 0 ∨ ∃ k, w_pages_count s = 2 ^ k ∧ 4 ≤ k ≤ 31 }.

Section invariant.
Context `{PageSize} `{ST : Stranded}.
Implicit Types (s : wfs) (v : wfusync).

Lemma waitable_not_internal ty : is_waitable_type ty = true → ty ≠ INPROC_SYNC_INTERNAL.
Proof. by intros ? ->. Qed.

Lemma live_sync_cell s q v :
  server_ok s → w_syncs s !! q = Some v →
  sync_cell s q v (cell_addr (ws_shm_idx v)).
Proof. intros Hok Hq. destruct (so_sync _ Hok _ _ Hq). by split. Qed.

Lemma live_free s q v ty :
  server_ok s → w_syncs s !! q = Some v → type_of (cell_idx s (ws_shm_idx v)) = ty →
  free_cell (cell_idx s (ws_shm_idx v)) ty.
Proof. intros Hok Hq <-. destruct (so_sync _ Hok _ _ Hq). by split. Qed.

(** ** Writing to the cell of an object *)

(** A store that keeps the type word and the reference count. *)
Definition same_word (c c' : cell) : Prop :=
  c_type c' = c_type c ∧ c_refcount c' = c_refcount c.

Lemma almost_ok_put s idx c :
  waiters_ok s → 0 ≤ idx < 2 ^ 32 →
  type_of (cell_idx s idx) ≠ INPROC_SYNC_INTERNAL →
  c_type c = c_type (cell_idx s idx) →
  almost_ok idx (put_cell (cell_addr idx) c s).
Proof.
  intros [Hr [Hnd Hsl Hw]] Hi Hni Hc. split; [by apply reg_inv_put|done| |].
  - intros w Hin. by apply slot_ok_put, Hsl.
  - intros w i Hin Hi' Hne Hns. simpl in Hin.
    destruct (decide (cell_addr idx = cell_addr i)) as [E|E].
    + apply cell_addr_inj in E; [done|done|]. apply (reg_idx _ _ Hr i).
      apply list_elem_of_join. exists (wt_shm_idxs w). split; [done|].
      apply list_elem_of_fmap. eauto.
    + rewrite cell_at_put_ne by done. intros Hsig.
      rewrite cell_at_put_ne; [by eapply Hw|]. intros E'. rewrite E' in Hni.
      by destruct (Hsl w Hin) as (_&_&?).
Qed.

(** If the object does not become signaled, nothing has to be woken. *)
Lemma waiters_ok_put s idx c :
  waiters_ok s → 0 ≤ idx < 2 ^ 32 →
  type_of (cell_idx s idx) ≠ INPROC_SYNC_INTERNAL →
  c_type c = c_type (cell_idx s idx) →
  (cell_signaled c = true → cell_signaled (cell_idx s idx) = true) →
  waiters_ok (put_cell (cell_addr idx) c s).
Proof.
  intros Hok Hi Hni Hc Hsig. destruct (almost_ok_put s idx c Hok Hi Hni Hc) as [Hr Hnd Hsl Hw].
  split; [done|split; [done|done|]].
  intros w i Hin Hidx Hns Hs. destruct (decide (i = idx)) as [->|Hne]; [|by eapply Hw].
  rewrite cell_at_put_eq in Hs. simpl in Hin.
  assert (c_low (cell_idx s (wt_slot_idx w)) = 0) as Hl
    by (eapply (wo_woken _ (wo_slots _ Hok)); eauto).
  rewrite cell_at_put_ne; [done|]. intros E. rewrite E in Hni.
  by destruct (wo_slot _ (wo_slots _ Hok) w Hin) as (_&_&?).
Qed.

(** A stranded object may become signaled. *)
Lemma waiters_ok_put_stranded s idx c :
  waiters_ok s → 0 ≤ idx < 2 ^ 32 →
  type_of (cell_idx s idx) ≠ INPROC_SYNC_INTERNAL →
  c_type c = c_type (cell_idx s idx) → idx ∈ stranded →
  waiters_ok (put_cell (cell_addr idx) c s).
Proof.
  intros Hok Hi Hni Hc Hin. destruct (almost_ok_put s idx c Hok Hi Hni Hc) as [Hr Hnd Hsl Hw].
  split; [done|split; [done|done|]]. intros w i Hw' Hidx Hns. apply (Hw w i Hw' Hidx); [|done]. by intros ->.
Qed.

(** The parts of a cell that say what it is; only the waiter flags of the type word, the
    values and the generation may differ. *)
Definition same_kind (c c' : cell) : Prop :=
  type_of c' = type_of c ∧
  has_flag c' WFUSYNC_STATE_LOCKED = has_flag c WFUSYNC_STATE_LOCKED ∧
  c_refcount c' = c_refcount c.

Lemma same_word_kind c c' : same_word c c' → same_kind c c'.
Proof. unfold same_kind, type_of, has_flag. by intros [-> ->]. Qed.

(** What no operation on existing objects and waiters changes. *)
Record kinds_ok s s' : Prop := {
  rk_next : w_next_shm_idx s' = w_next_shm_idx s;
  rk_syncs : w_syncs s' = w_syncs s;
  rk_nsync : w_next_sync s' = w_next_sync s;
  rk_mapped : ∀ idx, state_mapped s' idx = state_mapped s idx;
  rk_pages : w_pages_count s' = w_pages_count s;
  rk_cell : ∀ p, same_kind (cell_at s p) (cell_at s' p) }.

#[export] Instance kinds_ok_preorder : PreOrder kinds_ok.
Proof.
  split; [by split|]. intros s1 s2 s3 [A1 A2 A3 A4 A5 A6] [B1 B2 B3 B4 B5 B6].
  split; try congruence.
  intros p. destruct (A6 p) as (?&?&?), (B6 p) as (?&?&?). split_and!; congruence.
Qed.

Lemma kinds_ok_server s s' :
  server_ok s → kinds_ok s s' → waiters_ok s' →
  (∀ w, w ∈ w_waiters s' → wt_slot_idx w < w_next_shm_idx s) →
  (∀ idx, idx ∈ registered s' → idx < w_next_shm_idx s) →
  server_ok s'.
Proof.
  intros [_ H2 H3 H4 H5 H6 H7 H8 H9] [R1 R2 R3 R4 R5 R6] Hw Hsl Hreg.
  assert (∀ p, type_of (cell_at s' p) = type_of (cell_at s p)) as Ht by apply R6.
  split; rewrite ?R1, ?R2, ?R3, ?R5; try done.
  - intros q v Hq. destruct (H3 q v Hq) as [I1 I2 I3 I4 I5]. split.
    + by rewrite R1.
    + by rewrite R4.
    + by rewrite (proj1 (proj2 (R6 _))).
    + by rewrite Ht.
    + by rewrite (proj2 (proj2 (R6 _))).
  - intros idx Hi. rewrite Ht. by apply H8.
Qed.

(** The same, with the waiters. *)
Definition rest_ok s s' : Prop := kinds_ok s s' ∧ w_waiters s' = w_waiters s.

Lemma rest_ok_server s s' : server_ok s → rest_ok s s' → waiters_ok s' → server_ok s'.
Proof.
  intros Hok [Hk Hw] Hws. eapply kinds_ok_server; [done..| |].
  - rewrite Hw. apply Hok.
  - unfold registered. rewrite Hw. apply Hok.
Qed.

Lemma rest_ok_trans s1 s2 s3 : rest_ok s1 s2 → rest_ok s2 s3 → rest_ok s1 s3.
Proof. intros [] []. split; [by etrans|congruence]. Qed.

Lemma kinds_ok_put s p c : same_kind (cell_at s p) c → kinds_ok s (put_cell p c s).
Proof.
  intros Hw. split; try done. intros q. rewrite cell_at_put. by case_decide; [subst|].
Qed.
Lemma rest_ok_put s p c : same_word (cell_at s p) c → rest_ok s (put_cell p c s).
Proof. intros Hw%same_word_kind. split; [by apply kinds_ok_put|done]. Qed.
Lemma rest_ok_wake s p all : rest_ok s (add_wake p all s).
Proof. by split; [split|]. Qed.
Lemma rest_ok_err s e : rest_ok s (set_err e s).
Proof. by split; [split|]. Qed.

(** Writing the cell of a live object without signaling it. *)
Lemma server_ok_put s q v c :
  server_ok s → w_syncs s !! q = Some v →
  same_word (cell_idx s (ws_shm_idx v)) c →
  (cell_signaled c = true → cell_signaled (cell_idx s (ws_shm_idx v)) = true) →
  server_ok (put_cell (cell_addr (ws_shm_idx v)) c s).
Proof.
  intros Hok Hq Hc Hsig. destruct (so_sync _ Hok _ _ Hq) as [I1 I2 I3 I4 I5].
  pose proof (so_range _ Hok). eapply rest_ok_server; [done|by apply rest_ok_put|].
  apply waiters_ok_put; [apply Hok|lia|by apply waitable_not_internal|apply Hc|done].
Qed.

Lemma server_ok_put_stranded s q v c :
  server_ok s → w_syncs s !! q = Some v →
  same_word (cell_idx s (ws_shm_idx v)) c → ws_shm_idx v ∈ stranded →
  server_ok (put_cell (cell_addr (ws_shm_idx v)) c s).
Proof.
  intros Hok Hq Hc Hst. destruct (so_sync _ Hok _ _ Hq) as [I1 I2 I3 I4 I5].
  pose proof (so_range _ Hok). eapply rest_ok_server; [done|by apply rest_ok_put|].
  apply waiters_ok_put_stranded; [apply Hok|lia|by apply waitable_not_internal|apply Hc|done].
Qed.

Lemma server_ok_wake s p all : server_ok s → server_ok (add_wake p all s).
Proof.
  intros Hok. eapply rest_ok_server; [done|apply rest_ok_wake|]. apply waiters_ok_wake, Hok.
Qed.
Lemma server_ok_err s e : server_ok s → server_ok (set_err e s).
Proof.
  intros Hok. eapply rest_ok_server; [done|apply rest_ok_err|]. apply waiters_ok_set_err, Hok.
Qed.

(** Writing it and then waking the object's waiters. *)
Lemma server_ok_put_wake s s1 q v c :
  server_ok s → w_syncs s !! q = Some v →
  same_word (cell_idx s (ws_shm_idx v)) c →
  (s1 = put_cell (cell_addr (ws_shm_idx v)) c s ∨
   ∃ p all, s1 = add_wake p all (put_cell (cell_addr (ws_shm_idx v)) c s)) →
  wp (wake_waiters_for_object (ws_shm_idx v))
    (λ _ s', server_ok s' ∧ same_rest s1 s' ∧
       ∀ p, type_of (cell_at s1 p) ≠ INPROC_SYNC_INTERNAL → cell_at s' p = cell_at s1 p) s1.
Proof.
  intros Hok Hq Hc Hs1. destruct (so_sync _ Hok _ _ Hq) as [I1 I2 I3 I4 I5].
  pose proof (so_range _ Hok).
  assert (almost_ok (ws_shm_idx v) s1) as Ha.
  { assert (almost_ok (ws_shm_idx v) (put_cell (cell_addr (ws_shm_idx v)) c s)) as Ha.
    { apply almost_ok_put; [apply Hok|lia|by apply waitable_not_internal|apply Hc]. }
    destruct Hs1 as [->|(p & all & ->)]; [done|]. destruct Ha as [A1 A2 A3 A4]. split.
    - by apply reg_inv_wake.
    - done.
    - intros w Hin. destruct (A3 w Hin) as (?&?&?). split_and!; [lia|lia|done|by rewrite cell_at_wake].
    - intros w i. rewrite !cell_at_wake. apply A4. }
  assert (rest_ok s s1) as R1.
  { destruct Hs1 as [->|(p & all & ->)]; [by apply rest_ok_put|].
    eapply rest_ok_trans; [by apply rest_ok_put|apply rest_ok_wake]. }
  eapply wp_mono; [by apply wp_conj; [apply wake_restores|apply wake_waiters_for_object_spec;
    intros w Hin; apply (ao_slot _ _ Ha w Hin)]|].
  intros [] s' [(Hw & Hs & Hobj) [_ Hcell]]. split_and!; [|done|done].
  eapply rest_ok_server; [done| |done]. eapply rest_ok_trans; [done|].
  rewrite Hs. split; [split; try done|done]. intros p. rewrite <- Hs, Hcell.
  by destruct (wakes_slot _ _ _).
Qed.

(** ** Allocation *)

(** Everything but the index and page allocators is unchanged, and those only grow. *)
Record grown s s' : Prop := {
  gr_next : w_next_shm_idx s ≤ w_next_shm_idx s' < 2 ^ 31;
  gr_syncs : w_syncs s' = w_syncs s;
  gr_nsync : w_next_sync s' = w_next_sync s;
  gr_waiters : w_waiters s' = w_waiters s;
  gr_counts : w_mw_counts s' = w_mw_counts s;
  gr_len : w_mw_len s' = w_mw_len s;
  gr_mapped : ∀ idx, state_mapped s idx = true → state_mapped s' idx = true;
  gr_pages : w_pages_count s' = 0 ∨ ∃ k, w_pages_count s' = 2 ^ k ∧ 4 ≤ k ≤ 31;
  gr_cell : ∀ p, cell_at s' p = cell_at s p }.

Lemma grown_server_ok s s' : grown s s' → server_ok s → server_ok s'.
Proof.
  intros [G1 G2 G3 G4 G5 G6 G7 G8 G9] [[[A1 A2 A3 A4 A5] [A6 A7 A8]] H2 H3 H4 H5 H6 H7 H8 H9].
  assert (registered s' = registered s) as Hreg by (unfold registered; by rewrite G4).
  split; rewrite ?G2, ?G3, ?G4, ?Hreg; try done.
  - split; [split|split]; rewrite ?G4, ?G6, ?Hreg; try done.
    + intros idx. unfold mw_count. rewrite G5. apply A1.
    + intros idx Hin. destruct (A2 idx Hin) as (?&?&?). split_and!; [lia|lia|auto|lia].
    + intros idx Hi. rewrite !G9. by apply A3.
    + intros w Hin. destruct (A7 w Hin) as (?&?&?). split_and!; [lia|lia|auto|by rewrite G9].
    + intros w idx. rewrite G4, !G9. apply A8.
  - lia.
  - intros q v Hq. destruct (H3 q v Hq) as [I1 I2 I3 I4 I5].
    split; rewrite ?G9; try done; [lia|auto].
  - intros w Hin. specialize (H6 w Hin). lia.
  - intros idx Hin. specialize (H7 idx Hin). lia.
  - intros idx Hi. rewrite G9. apply H8. lia.
Qed.

(** No object, slot or registration refers to the cell. *)
Record unowned s (idx : Z) : Prop := {
  un_sync : ∀ q v, w_syncs s !! q = Some v → ws_shm_idx v ≠ idx;
  un_slot : ∀ w, w ∈ w_waiters s → wt_slot_idx w ≠ idx;
  un_registered : idx ∉ registered s }.

Lemma fresh_unowned s s' :
  server_ok s → w_syncs s' = w_syncs s → w_waiters s' = w_waiters s →
  unowned s' (w_next_shm_idx s).
Proof.
  intros Hok Hs Hw. split.
  - intros q v. rewrite Hs. intros Hq. destruct (so_sync _ Hok q v Hq). lia.
  - intros w. rewrite Hw. intros Hin. pose proof (so_slot _ Hok w Hin). lia.
  - unfold registered. rewrite Hw. intros Hin. pose proof (so_registered _ Hok _ Hin). lia.
Qed.

Lemma server_ok_put_unowned s idx c :
  server_ok s → (∀ q v, w_syncs s !! q = Some v → ws_shm_idx v ≠ idx) →
  (∀ w, w ∈ w_waiters s → wt_slot_idx w ≠ idx) → 0 ≤ idx < w_next_shm_idx s →
  (idx ∉ registered s ∧
     (is_waitable_type (type_of c) = true → has_flag c WFUSYNC_MULTI_WAITERS = false) ∨
   type_of c = INPROC_SYNC_UNKNOWN) →
  server_ok (put_cell (cell_addr idx) c s).
Proof.
  intros Hok U1 U2 Hi Hc. pose proof (so_range _ Hok) as Hr.
  assert (∀ i, 0 ≤ i < 2 ^ 32 → i ≠ idx → cell_idx (put_cell (cell_addr idx) c s) i = cell_idx s i)
    as Hne.
  { intros i ? ?. apply cell_at_put_ne. intros E. apply cell_addr_inj in E; [by subst|lia|lia]. }
  destruct Hok as [[[A1 A2 A3 A4 A5] [A6 A7 A8]] H2 H3 H4 H5 H6 H7 H8 H9].
  split; try done.
  - split; [split|split]; try done.
    + intros i Hi32. change (registered (put_cell (cell_addr idx) c s)) with (registered s).
      destruct (decide (i = idx)) as [->|Hn]; [|by rewrite Hne; auto].
      rewrite cell_at_put_eq. destruct Hc as [[U3 Hc]|Hc]; intros Hty; [|by rewrite Hc in Hty].
      rewrite Hc by done. symmetry. apply bool_decide_eq_false. by rewrite occ_pos.
    + intros w Hin. destruct (A7 w Hin) as (?&?&?). split_and!; [lia|lia|done|].
      rewrite Hne; auto.
    + intros w i Hin Hi' Hns Hsig. simpl in Hin. assert (i ∈ registered s) as Hreg.
      { apply list_elem_of_join. exists (wt_shm_idxs w). split; [done|]. apply list_elem_of_fmap. eauto. }
      destruct (A2 i Hreg) as (?&_&_). destruct (A7 w Hin) as (?&_&_).
      rewrite Hne by auto. destruct (decide (i = idx)) as [->|Hn].
      * rewrite cell_at_put_eq in Hsig. destruct Hc as [[U3 _]|Hc]; [done|].
        unfold cell_signaled in Hsig. by rewrite Hc in Hsig.
      * rewrite Hne in Hsig by done. by eapply A8.
  - intros q v Hq. specialize (U1 q v Hq). destruct (H3 q v Hq) as [I1 I2 I3 I4 I5].
    split; simpl; try done; rewrite Hne by (lia || done); done.
  - intros i Hfr. simpl in Hfr. rewrite Hne by lia. by apply H8.
Qed.

(** The system calls around the shared file only use up answers. *)
Definition only_fd s s' : Prop := ∃ fd e, s' = set_env e (set_shared_fd fd s).

Lemma only_fd_refl s : only_fd s s.
Proof. exists (w_shared_fd s), (w_env s). by destruct s. Qed.
Lemma only_fd_trans s1 s2 s3 : only_fd s1 s2 → only_fd s2 s3 → only_fd s1 s3.
Proof. intros (fd & e & ->) (fd' & e' & ->). by exists fd', e'. Qed.

Lemma wp_syscall_fd (Q : sysres → wfs → Prop) s :
  (∀ r s', only_fd s s' → Q r s') → wp syscall Q s.
Proof. intros HQ. apply wp_syscall. intros r e. apply HQ. exists (w_shared_fd s), e. by destruct s. Qed.

Lemma shared_fd_attempts_spec n s : wp (shared_fd_attempts n) (λ _ s', only_fd s s') s.
Proof.
  revert s. induction n as [|n IH]; intros s; simpl; [apply only_fd_refl|].
  rewrite wp_bind. apply wp_syscall_fd. intros [| |] s' Hs; [done| |done].
  eapply wp_mono; [apply IH|]. intros fd s'' Hs'. by eapply only_fd_trans.
Qed.

Lemma get_shared_fd_spec s : wp wfusync_get_shared_fd (λ _ s', only_fd s s') s.
Proof.
  unfold wfusync_get_shared_fd. wp_run idtac.
  destruct (w_shared_fd s =? -1); cbn [negb]; [|apply only_fd_refl].
  rewrite wp_bind. eapply wp_mono; [apply shared_fd_attempts_spec|].
  intros fd s' (fd' & e & ->). wp_run idtac.
  destruct (fd =? -1); [rewrite wp_ret; by exists fd, e|].
  rewrite wp_bind. apply wp_syscall. intros r e'. destruct (sys_ok r).
  - rewrite wp_ret. by exists fd, e'.
  - wp_run idtac. by exists (-1), e'.
Qed.

Lemma ensure_shared_file_size_spec pages s :
  wp (ensure_shared_file_size pages) (λ _ s', only_fd s s') s.
Proof.
  unfold ensure_shared_file_size. rewrite wp_bind. eapply wp_mono; [apply get_shared_fd_spec|].
  intros fd s' Hs. destruct (fd =? -1); [done|]. rewrite wp_bind. apply wp_syscall_fd.
  intros r s'' Hs'. rewrite wp_ret. exact (only_fd_trans _ _ _ Hs Hs').
Qed.

Lemma grown_refl s :
  w_next_shm_idx s < 2 ^ 31 → (w_pages_count s = 0 ∨ ∃ k, w_pages_count s = 2 ^ k ∧ 4 ≤ k ≤ 31) →
  grown s s.
Proof. by split. Qed.
Lemma grown_fd s s1 s2 : grown s s1 → only_fd s1 s2 → grown s s2.
Proof. intros [] (fd & e & ->). by split. Qed.
Lemma grown_pages s s1 mapped count :
  grown s s1 → (∃ k, count = 2 ^ k ∧ 4 ≤ k ≤ 31) → w_pages_count s1 ≤ count →
  w_mapped s1 ⊆ mapped → grown s (set_pages mapped count s1).
Proof.
  intros [] Hk Hc Hm. split; try done; [|by right].
  intros idx Hi. apply gr_mapped0 in Hi. unfold state_mapped in *. simpl.
  apply andb_true_iff in Hi as [Hl Hi]. apply andb_true_iff. split.
  - apply Z.ltb_lt in Hl. apply Z.ltb_lt. lia.
  - apply bool_decide_eq_true in Hi. apply bool_decide_eq_true. set_solver.
Qed.

(** [grow_count] from the next capacity of an array of [count] elements. *)
Lemma next_capacity entry count k0 :
  0 ≤ k0 ≤ 31 → 0 ≤ entry < 2 ^ 31 → (count = 0 ∨ ∃ k, count = 2 ^ k ∧ k0 ≤ k ≤ 31) →
  count ≤ entry →
  ∃ k, grow_count grow_fuel entry (if truth count then u32 (count * 2) else 2 ^ k0) = Some (2 ^ k) ∧
    k0 ≤ k ≤ 31 ∧ count ≤ 2 ^ k ∧ entry < 2 ^ k.
Proof.
  intros Hk0 He Hc Hle.
  assert (∃ j, (if truth count then u32 (count * 2) else 2 ^ k0) = 2 ^ j ∧ count ≤ 2 ^ j ∧ k0 ≤ j ≤ 31)
    as (j & -> & Hj & Hk).
  { destruct Hc as [->|(k & -> & Hk)]; [exists k0; simpl; split_and!; [done|lia..]|].
    assert (k < 31) by (apply (Z.pow_lt_mono_r_iff 2); lia).
    assert (2 ^ k < 2 ^ 31) by (apply Z.pow_lt_mono_r; lia).
    assert (0 < 2 ^ k) by (apply Z.pow_pos_nonneg; lia).
    exists (k + 1). unfold truth. rewrite (proj2 (Z.eqb_neq _ _)) by lia. simpl.
    rewrite Z.pow_add_r by lia. change (2 ^ 1) with 2. rewrite u32_small; lia. }
  destruct (grow_count_spec grow_fuel entry j) as (k' & -> & Hk' & Hn); [unfold grow_fuel; lia..|].
  exists k'. split; [done|]. split; [lia|].
  assert (2 ^ j ≤ 2 ^ k') by (apply Z.pow_le_mono_r; lia). lia.
Qed.

Lemma cell_page_range idx : 0 ≤ idx < 2 ^ 31 → 0 ≤ cell_page idx < 2 ^ 31.
Proof.
  intros Hi. rewrite cell_page_eq by lia. pose proof page_size_ge. pose proof page_size_pos.
  unfold sizeof_cell in *. split; [apply Z.div_pos; lia|].
  apply Z.div_lt_upper_bound; [lia|]. nia.
Qed.

(** A successful allocation yields the next index, whose cell is mapped, zeroed and
    owned by nobody; a failed one only uses up the index. *)
Definition allocated s (r : option (Z * Z)) s' : Prop :=
  server_ok s' ∧ w_next_shm_idx s' = w_next_shm_idx s + 1 ∧
  w_syncs s' = w_syncs s ∧ w_next_sync s' = w_next_sync s ∧ w_waiters s' = w_waiters s ∧
  (∀ p, p ≠ cell_addr (w_next_shm_idx s) → cell_at s' p = cell_at s p) ∧
  match r with
  | None => True
  | Some (idx, p) => idx = w_next_shm_idx s ∧ p = cell_addr idx ∧
      state_mapped s' idx = true ∧ unowned s' idx ∧ cell_at s' p = zero_cell
  end.

Lemma grown_allocated s s' :
  server_ok s → grown s s' → w_next_shm_idx s' = w_next_shm_idx s + 1 →
  allocated s None s'.
Proof.
  intros Hok G Hn. split_and!; [by eapply grown_server_ok|done|apply G|apply G|apply G|..|done].
  intros p _. apply G.
Qed.

Lemma grow_pages_spec s s1 entry :
  grown s s1 → 0 ≤ entry < 2 ^ 31 →
  wp (grow_pages entry)
    (λ ok s2, grown s s2 ∧ w_next_shm_idx s2 = w_next_shm_idx s1 ∧
       (ok = true → entry < w_pages_count s2)) s1.
Proof.
  intros G He. unfold grow_pages. wp_run idtac.
  destruct (Z.leb_spec (w_pages_count s1) entry) as [Hle|]; cbn [negb]; [|by rewrite wp_ret].
  destruct (next_capacity entry (w_pages_count s1) 4) as (k & E & Hk & Hc & Hlt);
    [lia|lia|apply (gr_pages _ _ G)|done|].
  change 16 with (2 ^ 4). rewrite E. rewrite wp_bind. apply wp_syscall_fd.
  intros r s2 Hs2. pose proof (grown_fd _ _ _ G Hs2) as G2. destruct Hs2 as (fd & e & ->).
  destruct (sys_ok r); cbn [negb]; [|by rewrite wp_ret].
  wp_run idtac. split_and!; [|done|done].
  apply grown_pages; [done|by exists k|done|done].
Qed.

Lemma map_page_spec s s2 idx :
  grown s s2 → cell_page idx < w_pages_count s2 →
  wp (map_page (cell_page idx))
    (λ ok s3, grown s s3 ∧ w_next_shm_idx s3 = w_next_shm_idx s2 ∧
       (ok = true → state_mapped s3 idx = true)) s2.
Proof.
  intros G2 Hlt. unfold map_page. wp_run idtac. case_bool_decide as Hin.
  { rewrite wp_ret. split_and!; [done..|]. intros _. unfold state_mapped.
    by rewrite (proj2 (Z.ltb_lt _ _) Hlt), bool_decide_true. }
  rewrite wp_bind. eapply wp_mono; [apply ensure_shared_file_size_spec|].
  intros sized s3 Hs3. pose proof (grown_fd _ _ _ G2 Hs3) as G3.
  destruct sized; cbn [negb]; [|rewrite wp_ret; by destruct Hs3 as (? & ? & ->)].
  rewrite wp_bind. eapply wp_mono; [apply get_shared_fd_spec|].
  intros fd s4 Hs4. pose proof (only_fd_trans _ _ _ Hs3 Hs4) as Hs24.
  rewrite wp_bind. apply wp_syscall_fd. intros r s5 Hs5.
  pose proof (only_fd_trans _ _ _ Hs24 Hs5) as Hs25.
  pose proof (grown_fd _ _ _ G2 Hs25) as G5. destruct Hs25 as (fd' & e & ->).
  destruct (sys_ok r); cbn [negb]; [|by rewrite wp_ret].
  wp_run idtac. split_and!; [|done|].
  - pose proof (gr_pages _ _ G5). apply grown_pages; [done| |done|set_solver].
    simpl in *. destruct (gr_pages _ _ G2) as [E|?]; [|done].
    pose proof (u32_range (idx * sizeof_cell / page_size)). unfold cell_page in Hlt. lia.
  - intros _. unfold state_mapped. simpl.
    rewrite (proj2 (Z.ltb_lt _ _) Hlt), bool_decide_true; [done|set_solver].
Qed.

Lemma alloc_state_slot_spec s :
  server_ok s → w_next_shm_idx s + 1 < 2 ^ 31 →
  wp alloc_state_slot (allocated s) s.
Proof.
  intros Hok Hn. pose proof (so_range _ Hok) as Hr. unfold alloc_state_slot.
  wp_run idtac. set (idx := w_next_shm_idx s).
  assert (u32 (idx + 1) = idx + 1) as -> by (apply u32_small; lia).
  set (s1 := set_next_shm_idx (idx + 1) s).
  assert (grown s s1) as G1.
  { destruct Hok. split; try done. simpl. lia. }
  eapply wp_mono; [apply (grow_pages_spec s); [done|apply cell_page_range; lia]|].
  intros ok s2 (G2 & Hn2 & Hlt).
  destruct ok; cbn [negb]; [|by rewrite wp_ret; apply grown_allocated]. specialize (Hlt eq_refl).
  rewrite wp_bind. eapply wp_mono; [by apply (map_page_spec s)|].
  intros ok s3 (G3 & Hn3 & Hm). rewrite Hn2 in Hn3. change (w_next_shm_idx s3 = idx + 1) in Hn3.
  destruct ok; cbn [negb]; [|by rewrite wp_ret; apply grown_allocated]. specialize (Hm eq_refl).
  wp_run ltac:(rewrite wp_st).
  assert (unowned s3 idx) as Hun by (apply fresh_unowned; [done|apply G3|apply G3]).
  split_and!; try done; try apply G3.
  - destruct Hun. apply server_ok_put_unowned; [by eapply grown_server_ok|done|done|lia|by left].
  - intros p Hp. rewrite cell_at_put_ne by done. apply G3.
  - by destruct Hun.
  - by rewrite cell_at_put_eq.
Qed.

(** ** Creating and destroying objects *)

(** [create_wfusync]: either nothing but allocator state changes, or there is a new
    object with a cell of its own holding the given values. *)
Definition created s (low high type : Z) (r : option Z) s' : Prop :=
  server_ok s' ∧
  match r with
  | None => w_syncs s' = w_syncs s
  | Some q => ∃ v, q = w_next_sync s ∧ w_syncs s' = <[q := v]> (w_syncs s) ∧
      (∀ q' v', w_syncs s !! q' = Some v' → ws_shm_idx v' ≠ ws_shm_idx v) ∧
      ws_server_waiters v = 0 ∧
      let c := cell_idx s' (ws_shm_idx v) in
      c_low c = s32 low ∧ c_high c = s32 high ∧ c_type c = type ∧ c_refcount c = 1
  end ∧
  (∀ q v, w_syncs s !! q = Some v → cell_idx s' (ws_shm_idx v) = cell_idx s (ws_shm_idx v)).

Lemma server_ok_new_sync s q v :
  server_ok s → q = w_next_sync s → unowned s (ws_shm_idx v) → live_sync s v →
  server_ok (set_syncs (<[q := v]> (w_syncs s)) (q + 1) s).
Proof.
  intros Hok -> [U _ _] Hl.
  assert (w_syncs s !! w_next_sync s = None) as Hnone.
  { destruct (w_syncs s !! w_next_sync s) eqn:E; [|done].
    assert (w_next_sync s < w_next_sync s) by (apply (so_key _ Hok); by rewrite E). lia. }
  destruct Hok as [[[] []] H2 H3 H4 H5 H6 H7 H8 H9]. split; try done; simpl.
  - intros q v'. rewrite lookup_insert. case_decide; [intros [= <-]|intros Hq].
    + by destruct Hl.
    + by destruct (H3 q v' Hq).
  - intros q q' v1 v2. rewrite !lookup_insert. do 2 case_decide; subst; intros ? ? E;
      simplify_eq; [done| | |by eapply H4].
    + exfalso. by eapply U.
    + exfalso. by eapply U.
  - intros q. rewrite lookup_insert. case_decide; [subst; lia|]. intros Hq.
    specialize (H5 q Hq). lia.
Qed.

Lemma waitable_const type :
  is_waitable_type type = true → u16 type = type ∧ Z.land type WFUSYNC_TYPE_MASK = type ∧
  Z.land type WFUSYNC_STATE_LOCKED = 0 ∧ Z.land type WFUSYNC_MULTI_WAITERS = 0.
Proof.
  unfold is_waitable_type. rewrite !orb_true_iff, !Z.eqb_eq. intros [[-> | ->] | ->]; done.
Qed.

(** Filling the freshly allocated cell of a new object. *)
Lemma fill_new_cell s idx c :
  server_ok s → unowned s idx → 0 ≤ idx < w_next_shm_idx s → state_mapped s idx = true →
  is_waitable_type (c_type c) = true → c_refcount c = 1 →
  let s' := put_cell (cell_addr idx) c s in
  server_ok s' ∧ unowned s' idx ∧ live_sync s' (Wfusync idx 0).
Proof.
  intros Hok Hun Hi Hm Hty Href s'. destruct (waitable_const _ Hty) as (H1 & H2 & H3 & H4).
  split_and!.
  - destruct Hun. apply server_ok_put_unowned; [done..|]. left. split; [done|].
    intros _. unfold has_flag. by rewrite H4.
  - by destruct Hun.
  - split; simpl; [lia|done|..]; unfold s'; rewrite cell_at_put_eq.
    + unfold has_flag. by rewrite H3.
    + unfold type_of. by rewrite H2.
    + rewrite Href. lia.
Qed.

Lemma server_ok_set_env s e : server_ok s → server_ok (set_env e s).
Proof. intros Hok. eapply rest_ok_server; [done|by split; [split|]|]. apply waiters_ok_set_env, Hok. Qed.
Lemma server_ok_set_gen s g : server_ok s → server_ok (set_next_generation g s).
Proof. intros Hok. eapply rest_ok_server; [done|by split; [split|]|]. apply waiters_ok_set_gen, Hok. Qed.

Lemma create_wfusync_spec low high type s :
  server_ok s → w_next_shm_idx s + 1 < 2 ^ 31 → is_waitable_type type = true →
  wp (create_wfusync low high type) (created s low high type) s.
Proof.
  intros Hok Hn Hty. destruct (waitable_const _ Hty) as (Hu & _).
  unfold create_wfusync, created. rewrite wp_bind. apply wp_mem_alloc_ok; intros e; cbn [negb].
  2:{ rewrite wp_ret. split_and!; [|done|done]. by apply server_ok_err, server_ok_set_env. }
  rewrite wp_bind. eapply wp_mono.
  { apply alloc_state_slot_spec; [by apply server_ok_set_env|done]. }
  intros r s1 (Hok1 & Hn1 & Hsy & Hns & Hws & Hcells & Hr). simpl in Hn1, Hsy, Hns, Hws, Hr.
  assert (∀ q v, w_syncs s !! q = Some v → cell_addr (ws_shm_idx v) ≠ cell_addr (w_next_shm_idx s))
    as Hdiff.
  { intros q v Hq E. pose proof (so_range _ Hok). destruct (so_sync _ Hok q v Hq).
    apply cell_addr_inj in E; lia. }
  destruct r as [[idx p]|].
  2:{ rewrite wp_ret. split_and!; [done|done|]. intros q v Hq. apply Hcells. by eapply Hdiff. }
  destruct Hr as (-> & -> & Hm & Hun & Hz). unfold take_generation.
  wp_run ltac:(rewrite wp_st). autorewrite with shm_db. rewrite Hz. simpl. rewrite Hu.
  set (idx := w_next_shm_idx s) in *. set (c := Cell (s32 low) (s32 high) (w_next_generation s1) type 1).
  match goal with |- context [set_refcount 1 ?x] => change (set_refcount 1 x) with c end.
  assert (0 ≤ idx < w_next_shm_idx s1) as Hi by (pose proof (so_range _ Hok); lia).
  destruct (fill_new_cell s1 idx c) as (Hok2 & Hun2 & Hl2); [done..|].
  set (s2 := put_cell (cell_addr idx) c s1) in *.
  split_and!.
  - apply (server_ok_new_sync (set_next_generation (u32 (w_next_generation s1 + 1)) s2)
             (w_next_sync s1) (Wfusync idx 0)).
    + by apply server_ok_set_gen.
    + done.
    + by destruct Hun2.
    + by destruct Hl2.
  - exists (Wfusync idx 0). cbn [ws_shm_idx]. rewrite cell_at_set_syncs. unfold s2.
    autorewrite with shm_db. split_and!; [done|simpl; by rewrite Hsy, Hns| |done..].
    intros q' v' Hq'. destruct Hun as [U _ _]. eapply U. by rewrite Hsy.
  - intros q v Hq. rewrite cell_at_set_syncs. autorewrite with shm_db. unfold s2.
    rewrite cell_at_put_ne by (apply not_eq_sym; by eapply Hdiff). apply Hcells. by eapply Hdiff.
Qed.

(** A fresh wait slot: its cell is INTERNAL and belongs to no object or waiter. *)
Lemma alloc_wait_slot_spec s :
  server_ok s → w_next_shm_idx s + 1 < 2 ^ 31 →
  wp wfusync_alloc_wait_slot
    (λ idx s', server_ok s' ∧ w_waiters s' = w_waiters s ∧ w_syncs s' = w_syncs s ∧
       (∀ q v, w_syncs s !! q = Some v → cell_idx s' (ws_shm_idx v) = cell_idx s (ws_shm_idx v)) ∧
       (idx ≠ 0 → slot_ok s' idx ∧ slot_free s' idx ∧ c_low (cell_idx s' idx) = 0)) s.
Proof.
  intros Hok Hn. unfold wfusync_alloc_wait_slot. rewrite wp_bind.
  eapply wp_mono; [by apply alloc_state_slot_spec|].
  intros r s1 (Hok1 & Hn1 & Hsy & _ & Hws & Hcells & Hr).
  assert (∀ q v, w_syncs s !! q = Some v → cell_addr (ws_shm_idx v) ≠ cell_addr (w_next_shm_idx s))
    as Hdiff.
  { intros q v Hq E. pose proof (so_range _ Hok). destruct (so_sync _ Hok q v Hq).
    apply cell_addr_inj in E; lia. }
  destruct r as [[idx p]|].
  2:{ rewrite wp_ret. split_and!; [done..| |done]. intros q v Hq. apply Hcells. by eapply Hdiff. }
  destruct Hr as (-> & -> & Hm & [U1 U2 U3] & Hz). unfold take_generation.
  wp_run ltac:(rewrite wp_st). autorewrite with shm_db.
  match goal with |- context [set_refcount 1 ?x] => set (c := set_refcount 1 x) end.
  pose proof (so_range _ Hok) as Hr.
  assert (server_ok (put_cell (cell_addr (w_next_shm_idx s)) c s1)) as Hok2.
  { apply server_ok_put_unowned; [done|done|done|lia|by left]. }
  split_and!; [by apply server_ok_set_gen|done|done| |].
  { intros q v Hq. autorewrite with shm_db.
    rewrite cell_at_put_ne by (apply not_eq_sym; by eapply Hdiff). apply Hcells. by eapply Hdiff. }
  intros _. split_and!.
  - split_and!; [lia|lia|done|]. by autorewrite with shm_db.
  - intros w Hin. by apply U2.
  - by autorewrite with shm_db.
Qed.

Lemma server_ok_delete s q :
  server_ok s → server_ok (set_syncs (delete q (w_syncs s)) (w_next_sync s) s).
Proof.
  intros [[[] []] H2 H3 H4 H5 H6 H7 H8 H9]. split; try done; simpl.
  - intros q' v. rewrite lookup_delete_Some. intros [_ Hq]. by destruct (H3 q' v Hq).
  - intros q1 q2 v1 v2. rewrite !lookup_delete_Some. intros [_ ?] [_ ?]. by eapply H4.
  - intros q' [v Hq]. apply lookup_delete_Some in Hq as [_ Hq]. apply H5. eauto.
Qed.

(** Destroying a live object passes its assertion, retires its cell and its key. *)
Lemma destroy_spec s q v :
  server_ok s → w_syncs s !! q = Some v →
  wp (wfusync_destroy (Some q))
    (λ _ s', server_ok s' ∧ w_syncs s' = delete q (w_syncs s) ∧ w_waiters s' = w_waiters s ∧
       type_of (cell_idx s' (ws_shm_idx v)) = INPROC_SYNC_UNKNOWN ∧
       c_generation (cell_idx s' (ws_shm_idx v)) = w_next_generation s ∧
       ∀ q' v', q' ≠ q → w_syncs s !! q' = Some v' →
         cell_idx s' (ws_shm_idx v') = cell_idx s (ws_shm_idx v')) s.
Proof.
  intros Hok Hq. pose proof (so_range _ Hok) as Hr.
  destruct (so_sync _ Hok q v Hq) as [I1 I2 I3 I4 I5].
  pose proof (live_sync_cell s q v Hok Hq) as Hs.
  unfold wfusync_destroy, take_generation.
  wp_run ltac:(first [rewrite (wp_sync_state _ _ _ _ _ Hs) | rewrite wp_ld | rewrite wp_st]).
  split; [unfold truth; rewrite (proj2 (Z.eqb_neq _ _)) by lia; done|].
  wp_run ltac:(first [rewrite wp_ld | rewrite wp_st]). autorewrite with shm_db.
  match goal with |- context [set_refcount ?n ?x] => set (c := set_refcount n x) end.
  assert (server_ok (put_cell (cell_addr (ws_shm_idx v)) c
            (set_syncs (delete q (w_syncs s)) (w_next_sync s) s))) as Hok2.
  { apply server_ok_put_unowned; [by apply server_ok_delete| | |simpl; lia|by right].
    - intros q' v'. simpl. rewrite lookup_delete_Some. intros [Hne Hq'] E.
      apply Hne. by eapply (so_inj _ Hok).
    - intros w Hin. simpl in Hin. intros E. destruct (wo_slot _ (wo_slots _ (so_waiters _ Hok)) w Hin)
        as (_ & _ & Ht). rewrite E in Ht. by apply waitable_not_internal in I4. }
  split_and!.
  - apply (server_ok_set_gen _ (u32 (w_next_generation s + 1))) in Hok2. exact Hok2.
  - done.
  - done.
  - autorewrite with shm_db. done.
  - autorewrite with shm_db. done.
  - intros q' v' Hne Hq'. autorewrite with shm_db. rewrite cell_at_put_ne; [done|].
    intros E. destruct (so_sync _ Hok q' v' Hq') as [J1 _ _ _ _].
    apply cell_addr_inj in E; [|lia|lia]. apply Hne. by eapply (so_inj _ Hok).
Qed.

(** ** References and server-side waiters *)

Lemma grab_spec s q v :
  server_ok s → w_syncs s !! q = Some v →
  c_refcount (cell_idx s (ws_shm_idx v)) + 1 < 2 ^ 16 →
  wp (wfusync_grab_object (Some q))
    (λ _ s', server_ok s' ∧ s' = put_cell (cell_addr (ws_shm_idx v))
       (set_refcount (c_refcount (cell_idx s (ws_shm_idx v)) + 1) (cell_idx s (ws_shm_idx v))) s) s.
Proof.
  intros Hok Hq Hlt. pose proof (live_sync_cell s q v Hok Hq) as Hs.
  pose proof (so_range _ Hok) as Hr. destruct (so_sync _ Hok q v Hq) as [I1 I2 I3 I4 I5].
  unfold wfusync_grab_object.
  wp_run ltac:(first [rewrite (wp_sync_state _ _ _ _ _ Hs) | rewrite wp_ld | rewrite wp_st]).
  split; [unfold truth; rewrite (proj2 (Z.eqb_neq _ _)) by lia; done|].
  wp_run ltac:(rewrite wp_st). rewrite u16_small by lia. split; [|done].
  destruct Hok as [Hw H2 H3 H4 H5 H6 H7 H8 H9].
  set (c := cell_idx s (ws_shm_idx v)) in *.
  assert (∀ p, type_of (cell_at (put_cell (cell_addr (ws_shm_idx v)) (set_refcount (c_refcount c + 1) c) s) p)
               = type_of (cell_at s p)) as Ht.
  { intros p. rewrite cell_at_put. by case_decide as E; [rewrite <- E|]. }
  split; try done.
  - apply waiters_ok_put; [done|lia|by apply waitable_not_internal|done|done].
  - intros q' v' Hq'. destruct (H3 q' v' Hq') as [J1 J2 J3 J4 J5].
    split; try done; rewrite cell_at_put; case_decide as E; try done.
    simpl. lia.
  - intros i Hi. rewrite Ht. by apply H8.
Qed.

(** Changing the server-waiter flag of a cell. *)
Lemma server_ok_flags s idx t :
  server_ok s → let c := cell_idx s idx in
  type_of (set_type t c) = type_of c →
  has_flag (set_type t c) WFUSYNC_STATE_LOCKED = has_flag c WFUSYNC_STATE_LOCKED →
  has_flag (set_type t c) WFUSYNC_MULTI_WAITERS = has_flag c WFUSYNC_MULTI_WAITERS →
  server_ok (put_cell (cell_addr idx) (set_type t c) s).
Proof.
  intros Hok c Ht Hl Hm. pose proof (so_waiters _ Hok) as [Hr Hs].
  assert (frame s (put_cell (cell_addr idx) (set_type t c) s)) as F by by apply frame_type_word.
  eapply rest_ok_server; [done| |].
  - split; [|done]. apply kinds_ok_put. by split_and!.
  - split; [|by eapply slots_ok_frame]. destruct Hr as [H1 H2 H3 H4 H5]. split; try done.
    intros i Hi. rewrite cell_at_put. case_decide as E; [|by apply H3].
    rewrite Ht, Hm. unfold c. rewrite E. by apply H3.
Qed.

Lemma server_ok_put_waiters s q v n :
  server_ok s → w_syncs s !! q = Some v →
  server_ok (set_syncs (<[q := Wfusync (ws_shm_idx v) n]> (w_syncs s)) (w_next_sync s) s).
Proof.
  intros [[[] []] H2 H3 H4 H5 H6 H7 H8 H9] Hq.
  assert (∀ q' v', <[q := Wfusync (ws_shm_idx v) n]> (w_syncs s) !! q' = Some v' →
            ∃ v0, w_syncs s !! q' = Some v0 ∧ ws_shm_idx v0 = ws_shm_idx v') as Hold.
  { intros q' v'. rewrite lookup_insert. case_decide; [|eauto]. intros [= <-]. subst. eauto. }
  split; try done; simpl.
  - intros q' v' Hq'. destruct (Hold q' v' Hq') as (v0 & Hv0 & E).
    destruct (H3 q' v0 Hv0) as [J1 J2 J3 J4 J5]. rewrite E in *. by split.
  - intros q1 q2 v1 v2 Hq1 Hq2 E. destruct (Hold _ _ Hq1) as (? & ? & ?).
    destruct (Hold _ _ Hq2) as (? & ? & ?). eapply H4; [done|done|congruence].
  - intros q' [v' Hq']. destruct (Hold _ _ Hq') as (? & ? & ?). apply H5. eauto.
Qed.

Lemma set_server_flag_ok s idx :
  server_ok s → let c := cell_idx s idx in
  server_ok (put_cell (cell_addr idx) (set_type (Z.lor (c_type c) WFUSYNC_SERVER_WAITERS) c) s).
Proof.
  intros Hok c. rewrite server_pow. apply server_ok_flags; [done|..]; fold c.
  - apply type_of_set_flag. unfold is_flag. lia.
  - rewrite locked_pow. apply flag_set_other; lia.
  - rewrite multi_pow. apply flag_set_other; lia.
Qed.

Lemma clear_server_flag_ok s idx :
  server_ok s → let c := cell_idx s idx in
  server_ok (put_cell (cell_addr idx)
    (set_type (Z.land (c_type c) (Z.lnot WFUSYNC_SERVER_WAITERS)) c) s).
Proof.
  intros Hok c. rewrite server_pow. apply server_ok_flags; [done|..]; fold c.
  - apply type_of_clear_flag. unfold is_flag. lia.
  - rewrite locked_pow. apply flag_clear_other; lia.
  - rewrite multi_pow. apply flag_clear_other; lia.
Qed.

Lemma add_server_waiter_spec s q v :
  server_ok s → w_syncs s !! q = Some v → 0 ≤ ws_server_waiters v < 2 ^ 32 - 1 →
  wp (wfusync_add_server_waiter (Some q))
    (λ _ s', server_ok s' ∧
       w_syncs s' = <[q := Wfusync (ws_shm_idx v) (ws_server_waiters v + 1)]> (w_syncs s) ∧
       has_flag (cell_idx s' (ws_shm_idx v)) WFUSYNC_SERVER_WAITERS = true) s.
Proof.
  intros Hok Hq Hn. pose proof (live_sync_cell s q v Hok Hq) as Hs.
  unfold wfusync_add_server_waiter, put_sync.
  wp_run ltac:(first [rewrite (wp_sync_state _ _ _ _ _ Hs)]). unfold fetch_or_type. rewrite wp_st.
  rewrite u32_small by lia. set (v' := Wfusync _ _).
  pose proof (server_ok_put_waiters s q v (ws_server_waiters v + 1) Hok Hq) as Hok1.
  split_and!; [|done|].
  - exact (set_server_flag_ok _ (ws_shm_idx v) Hok1).
  - rewrite cell_at_put_eq, server_pow. by apply flag_set_same.
Qed.

Lemma remove_server_waiter_spec s q v :
  server_ok s → w_syncs s !! q = Some v → 0 < ws_server_waiters v →
  wp (wfusync_remove_server_waiter (Some q))
    (λ _ s', server_ok s' ∧
       w_syncs s' = <[q := Wfusync (ws_shm_idx v) (ws_server_waiters v - 1)]> (w_syncs s) ∧
       has_flag (cell_idx s' (ws_shm_idx v)) WFUSYNC_SERVER_WAITERS =
         has_flag (cell_idx s (ws_shm_idx v)) WFUSYNC_SERVER_WAITERS &&
         negb (ws_server_waiters v =? 1)) s.
Proof.
  intros Hok Hq Hn. pose proof (live_sync_cell s q v Hok Hq) as Hs.
  unfold wfusync_remove_server_waiter, put_sync.
  wp_run ltac:(first [rewrite (wp_sync_state _ _ _ _ _ Hs)]).
  rewrite (proj2 (Z.eqb_neq (ws_server_waiters v) 0)) by lia. wp_run idtac.
  pose proof (server_ok_put_waiters s q v (ws_server_waiters v - 1) Hok Hq) as Hok1.
  unfold truth. destruct (Z.eqb_spec (ws_server_waiters v - 1) 0) as [E|E]; cbn [negb].
  - rewrite (proj2 (Z.eqb_eq (ws_server_waiters v) 1)) by lia. unfold fetch_and_type. rewrite wp_st.
    rewrite andb_false_r. split_and!; [|done|].
    + exact (clear_server_flag_ok _ (ws_shm_idx v) Hok1).
    + rewrite cell_at_put_eq, server_pow. by apply flag_clear_same.
  - rewrite (proj2 (Z.eqb_neq (ws_server_waiters v) 1)) by lia. rewrite wp_ret, andb_true_r. done.
Qed.

(** ** Registrations *)

Lemma keeps_st p f : (∀ c, same_kind c (f c)) → keeps kinds_ok (st p f).
Proof. intros Hf. apply keeps_modify. intros s. by apply kinds_ok_put. Qed.
Lemma keeps_wake p all : keeps kinds_ok (wake_address p all).
Proof. apply keeps_modify. intros s. apply rest_ok_wake. Qed.
Lemma keeps_syscall : keeps kinds_ok syscall.
Proof. intros s r s'. unfold syscall. destruct (w_env s); intros [= _ <-]; by split. Qed.
Lemma keeps_set_waiters ws : keeps kinds_ok (modify (set_waiters ws)).
Proof. apply keeps_modify. by split. Qed.
Lemma keeps_set_mw m n : keeps kinds_ok (modify (set_mw m n)).
Proof. apply keeps_modify. by split. Qed.
Lemma keeps_set_gen g : keeps kinds_ok (modify (set_next_generation g)).
Proof. apply keeps_modify. by split. Qed.
Lemma keeps_set_err e : keeps kinds_ok (set_error e).
Proof. apply keeps_modify. by split. Qed.

Lemma same_kind_multi c :
  same_kind c (set_type (Z.lor (c_type c) WFUSYNC_MULTI_WAITERS) c).
Proof.
  split_and!; [apply type_word_multi| |done]. rewrite multi_pow, locked_pow. apply flag_set_other; lia.
Qed.
Lemma same_kind_no_multi c :
  same_kind c (set_type (Z.land (c_type c) (Z.lnot WFUSYNC_MULTI_WAITERS)) c).
Proof.
  split_and!; [apply type_word_no_multi| |done].
  rewrite multi_pow, locked_pow. apply flag_clear_other; lia.
Qed.

Ltac kinds tac := keeps_tac ltac:(first
  [ apply keeps_st; intros ?; first [done | apply same_kind_multi | apply same_kind_no_multi]
  | apply keeps_wake | apply keeps_syscall | apply keeps_set_waiters | apply keeps_set_gen
  | apply keeps_set_err | apply keeps_set_mw | (apply keeps_modify; by split) | tac ]).

Lemma keeps_remove_multi idx : keeps kinds_ok (remove_multi_waiter idx).
Proof. unfold remove_multi_waiter, fetch_and_type, get_state. kinds idtac. Qed.

Lemma keeps_remove_waiter slot : keeps kinds_ok (remove_waiter slot).
Proof.
  unfold remove_waiter. kinds idtac. induction a as [|w ws IH]; simpl;
    kinds ltac:(first [apply keeps_remove_multi | exact IH]).
Qed.

Lemma keeps_add_multi idx : keeps kinds_ok (add_multi_waiter idx).
Proof.
  unfold add_multi_waiter, get_state, get_state_type, ld, ensure_multi_waiter_count, fetch_or_type.
  kinds idtac.
Qed.

Lemma keeps_register_add todo : ∀ added, keeps kinds_ok (register_add added todo).
Proof.
  induction todo as [|idx todo IH]; intros added; simpl;
    kinds ltac:(first [apply keeps_add_multi | apply keeps_remove_multi | apply IH]).
Qed.

Lemma keeps_wake_slot slot : keeps kinds_ok (wake_wait_slot slot).
Proof. unfold wake_wait_slot. kinds idtac. Qed.

Lemma keeps_register slot idxs : keeps kinds_ok (wfusync_register_wait slot idxs).
Proof.
  unfold wfusync_register_wait, get_state, get_state_type, ld, take_generation,
    register_validate, mem_alloc_ok, wfusync_state_signaled.
  kinds ltac:(first [apply keeps_remove_waiter | apply keeps_wake_slot | apply keeps_register_add
    | progress (unfold get_state, get_state_type, ld) ]).
Qed.

(** A registration keeps the whole invariant. *)
Lemma server_ok_register slot_idx idxs s :
  server_ok s → 0 ≤ slot_idx < w_next_shm_idx s →
  (∀ idx, idx ∈ idxs → 0 ≤ idx < 2 ^ 31) →
  Z.of_nat (length (registered s) + length idxs) < 2 ^ 32 - 1 →
  wp (wfusync_register_wait slot_idx idxs)
    (λ ok s', server_ok s' ∧
       if ok then accepted slot_idx idxs s s' else s' = s ∨ refused slot_idx s s') s.
Proof.
  intros Hok Hslot Hidx Hlen. pose proof (so_range _ Hok) as Hr. eapply wp_mono.
  { apply wp_keeps; [|apply keeps_register].
    apply register_wait_spec; [apply Hok|lia|done|done]. }
  intros ok s' [Hres Hk]. pose proof (so_slot _ Hok) as Hsl. pose proof (so_registered _ Hok) as Hreg.
  assert (∀ ws, ws = filter (other_slot slot_idx) (w_waiters s) → ∀ w, w ∈ ws → w ∈ w_waiters s)
    as Hsub by (intros ws -> w; rewrite list_elem_of_filter; naive_solver).
  assert (∀ w idx, w ∈ w_waiters s → idx ∈ wt_shm_idxs w → idx < w_next_shm_idx s) as Hreg'.
  { intros w idx Hw Hi. apply Hreg. apply list_elem_of_join. exists (wt_shm_idxs w).
    split; [done|]. apply list_elem_of_fmap. eauto. }
  assert (∀ idx, idx ∈ registered s' → ∃ w, w ∈ w_waiters s' ∧ idx ∈ wt_shm_idxs w) as Hinv.
  { intros idx. unfold registered. rewrite list_elem_of_join. intros (l & Hi & Hl).
    apply list_elem_of_fmap in Hl as (w & -> & Hw). eauto. }
  destruct ok.
  - destruct Hres as [(Hs & Hw & Hws & Hlow) Hval]. split; [|done].
    eapply kinds_ok_server; [done..| |].
    + intros w. rewrite Hws. intros [->|Hin]%elem_of_cons; [simpl; lia|]. eauto.
    + intros idx (w & Hin & Hi)%Hinv. rewrite Hws in Hin.
      apply elem_of_cons in Hin as [->|Hin]; [|by eauto]. simpl in Hi.
      rewrite forallb_forall in Hval. specialize (Hval idx).
      rewrite <- list_elem_of_In in Hval. specialize (Hval Hi).
      apply andb_true_iff in Hval as [_ Hval].
      destruct (Z.lt_ge_cases idx (w_next_shm_idx s)) as [|Hge]; [done|].
      specialize (Hidx idx Hi). by rewrite (so_fresh _ Hok) in Hval by lia.
  - destruct Hres as [->|(Hs & Hw & Hws & Hlow)]; [by split; [|left]|]. split; [|by right].
    eapply kinds_ok_server; [done..| |].
    + intros w. rewrite Hws. eauto.
    + intros idx (w & Hin & Hi)%Hinv. rewrite Hws in Hin. eauto.
Qed.

Lemma keeps_unregister slot : keeps kinds_ok (wfusync_unregister_wait slot).
Proof.
  unfold wfusync_unregister_wait, get_state.
  kinds ltac:(first [apply keeps_remove_waiter | apply keeps_wake_slot]).
Qed.

Lemma unregister_waiters_ok slot_idx s :
  waiters_ok s → slot_ok s slot_idx →
  wp (wfusync_unregister_wait slot_idx)
    (λ _ s', waiters_ok s' ∧ w_waiters s' = filter (other_slot slot_idx) (w_waiters s) ∧
       c_low (cell_idx s' slot_idx) = 0) s.
Proof.
  intros Hok Hs. unfold wfusync_unregister_wait.
  rewrite wp_bind. eapply wp_mono; [by apply waiters_ok_remove|].
  intros [] t (Hokt & Hws & Hmap & Hcell). wp_run ltac:(rewrite wp_get_state).
  destruct Hs as (?&Hm&Hty). rewrite Hmap, Hm. eapply wp_mono.
  { apply wake_wait_slot_spec; [done|]. split_and!; [lia|lia|by rewrite Hmap|].
    by rewrite (proj1 (Hcell _)). }
  intros [] s' (Hok' & Hws' & _ & Hlow & _). rewrite Hws in Hws'. done.
Qed.

(** Unregistering removes exactly the slot's record and leaves the slot awake. *)
Lemma server_ok_unregister slot_idx s :
  server_ok s → slot_ok s slot_idx →
  wp (wfusync_unregister_wait slot_idx)
    (λ _ s', server_ok s' ∧ w_waiters s' = filter (other_slot slot_idx) (w_waiters s) ∧
       c_low (cell_idx s' slot_idx) = 0) s.
Proof.
  intros Hok Hs. eapply wp_mono.
  { apply wp_keeps; [|apply keeps_unregister]. apply unregister_waiters_ok; [apply Hok|done]. }
  intros [] s' [(Hw & Hws & Hlow) Hk]. split; [|done].
  assert (∀ w, w ∈ w_waiters s' → w ∈ w_waiters s) as Hsub.
  { intros w. rewrite Hws, list_elem_of_filter. naive_solver. }
  eapply kinds_ok_server; [done..| |].
  - intros w Hin%Hsub. by apply (so_slot _ Hok).
  - intros idx. unfold registered. rewrite list_elem_of_join. intros (l & Hi & Hl).
    apply list_elem_of_fmap in Hl as (w & -> & Hin). apply (so_registered _ Hok).
    apply list_elem_of_join. exists (wt_shm_idxs w). split; [done|].
    apply list_elem_of_fmap. eauto.
Qed.
End invariant.
