(* ===== verification/WfusyncHistory.v ===== *)
(** * Histories of server operations

    The operations that the server's objects and request handlers perform on WFUSync
    state, as a step function, and the invariant of every sequence of them: the
    structural invariant [server_ok] together with the value invariant of each object. *)

From S2P Require Import Prelude.
From S2P Require Import ShmState.
From S2P Require Import ShmGuard.
From S2P Require Import WfusyncServer.
From S2P Require Import WfusyncServerOps.
From S2P Require Import WfusyncRegistry.
From S2P Require Import WfusyncWake.
From S2P Require Import WfusyncServerInv.

(** What the two words of an object's cell may hold: an event any state; a semaphore a
    count within its limit; a mutex is free, owned at least once, or abandoned (the
    negated owner, no recursion). *)
Definition value_ok (c : cell) : Prop :=
  (type_of c = INPROC_SYNC_SEMAPHORE → 0 ≤ c_low c ≤ c_high c ∧ c_high c ≤ INT_MAX) ∧
  (type_of c = INPROC_SYNC_MUTEX →
     (c_low c = 0 ∧ c_high c = 0) ∨ (0 < c_low c ≤ INT_MAX ∧ 1 ≤ c_high c ≤ INT_MAX) ∨
     (- INT_MAX ≤ c_low c < 0 ∧ c_high c = 0)).

Record server_wf `{PageSize} `{ST : Stranded} (s : wfs) : Prop := {
  sw_ok : server_ok s;
  sw_value : ∀ q v, w_syncs s !! q = Some v → value_ok (cell_idx s (ws_shm_idx v)) }.

(** The operations, each composed as its caller composes it (event.c, semaphore.c,
    mutex.c and the request handlers of wfusync.c). *)
Inductive server_op :=
| OpCreate (low high type : Z)
| OpDestroy (q : Z)
| OpGrab (q : Z)
| OpAddWaiter (q : Z)
| OpRemoveWaiter (q : Z)
| OpSetEvent (q : Z)
| OpResetEvent (q : Z)
| OpEventSatisfied (q : Z)
| OpReleaseSemaphore (q count : Z)
| OpSemaphoreSatisfied (q : Z)
| OpReleaseMutex (q tid : Z)
| OpSignalMutex (q tid : Z)      (* by SignalObjectAndWait *)
| OpMutexSatisfied (q tid : Z)
| OpAbandonMutex (q tid : Z)
| OpGetSlot
| OpRegister (slot : Z) (idxs : list Z)
| OpUnregister (slot : Z)
| OpWakeWaiters (idx : Z)
| OpTryWaitAll (entries : list wait_entry) (tid : Z).

Section history.
Context `{PageSize}.
Implicit Types (s : wfs) (v : wfusync).

Definition wake_index (q : Z) : W unit :=
  idx ← wfusync_get_index (Some q); _ ← wfusync_wake_waiters idx; mret tt.

Definition run_op (o : server_op) : W unit :=
  match o with
  | OpCreate low high type => _ ← create_wfusync low high type; mret tt
  | OpDestroy q => wfusync_destroy (Some q)
  | OpGrab q => wfusync_grab_object (Some q)
  | OpAddWaiter q => wfusync_add_server_waiter (Some q)
  | OpRemoveWaiter q => wfusync_remove_server_waiter (Some q)
  | OpSetEvent q => wfusync_set_event (Some q)
  | OpResetEvent q => wfusync_reset_event (Some q)
  | OpEventSatisfied q => wfusync_event_satisfied (Some q)
  | OpReleaseSemaphore q count =>
      r ← wfusync_release_semaphore (Some q) count;
      match r with Some old => when (old =? 0) (wake_index q) | None => mret tt end
  | OpSemaphoreSatisfied q => wfusync_semaphore_satisfied (Some q)
  | OpReleaseMutex q tid =>
      r ← wfusync_release_mutex (Some q) tid;
      match r with Some prev => when (prev =? 1) (wake_index q) | None => mret tt end
  | OpSignalMutex q tid => _ ← wfusync_release_mutex (Some q) tid; mret tt
  | OpMutexSatisfied q tid => _ ← wfusync_mutex_satisfied (Some q) tid; mret tt
  | OpAbandonMutex q tid =>
      r ← wfusync_abandon_mutex (Some q) tid; when r (wake_index q)
  | OpGetSlot => _ ← wfusync_alloc_wait_slot; mret tt
  | OpRegister slot idxs => _ ← wfusync_register_wait slot idxs; mret tt
  | OpUnregister slot => wfusync_unregister_wait slot
  | OpWakeWaiters idx => _ ← wfusync_wake_waiters idx; mret tt
  | OpTryWaitAll entries tid => _ ← wfusync_try_wait_all entries tid; mret tt
  end.

(** What the callers guarantee: live objects of the right kind, thread ids that fit an
    [int], counters and indices that have not run out. *)
Definition live_type s (q type : Z) : Prop :=
  ∃ v, w_syncs s !! q = Some v ∧ type_of (cell_idx s (ws_shm_idx v)) = type.
Definition live s (q : Z) : Prop := is_Some (w_syncs s !! q).
Definition tid_ok (tid : Z) : Prop := 0 < tid ≤ INT_MAX.

Definition op_pre s (o : server_op) : Prop :=
  match o with
  | OpCreate low high type =>
      w_next_shm_idx s + 1 < 2 ^ 31 ∧ is_waitable_type type = true ∧
      - 2 ^ 31 ≤ low < 2 ^ 31 ∧ - 2 ^ 31 ≤ high < 2 ^ 31 ∧
      value_ok (Cell low high 0 type 1)
  | OpDestroy q => live s q
  | OpGrab q => ∃ v, w_syncs s !! q = Some v ∧ c_refcount (cell_idx s (ws_shm_idx v)) + 1 < 2 ^ 16
  | OpAddWaiter q => ∃ v, w_syncs s !! q = Some v ∧ 0 ≤ ws_server_waiters v < 2 ^ 32 - 1
  | OpRemoveWaiter q => ∃ v, w_syncs s !! q = Some v ∧ 0 < ws_server_waiters v
  | OpSetEvent q | OpResetEvent q | OpEventSatisfied q => live_type s q INPROC_SYNC_EVENT
  | OpReleaseSemaphore q count => live_type s q INPROC_SYNC_SEMAPHORE ∧ 0 ≤ count < 2 ^ 32
  | OpSemaphoreSatisfied q => live_type s q INPROC_SYNC_SEMAPHORE
  | OpReleaseMutex q tid | OpSignalMutex q tid | OpAbandonMutex q tid => live_type s q INPROC_SYNC_MUTEX ∧ tid_ok tid
  | OpMutexSatisfied q tid =>
      tid_ok tid ∧ ∃ v, w_syncs s !! q = Some v ∧
        type_of (cell_idx s (ws_shm_idx v)) = INPROC_SYNC_MUTEX ∧
        c_high (cell_idx s (ws_shm_idx v)) < INT_MAX
  | OpGetSlot => w_next_shm_idx s + 1 < 2 ^ 31
  | OpRegister slot idxs =>
      0 ≤ slot < w_next_shm_idx s ∧ (∀ idx, idx ∈ idxs → 0 ≤ idx < 2 ^ 31) ∧
      Z.of_nat (length (registered s) + length idxs) < 2 ^ 32 - 1
  | OpUnregister slot => slot_ok s slot
  | OpWakeWaiters idx => True
  | OpTryWaitAll entries tid => tid_ok tid
  end.

(** The objects that are signaled without having woken their registered waiters: a mutex
    that SignalObjectAndWait makes available becomes one (mutex.c calls [wake_up] and not
    [wfusync_wake_waiters]); one that is no longer signaled, or whose waiters a client asks
    to be woken, is one no more. *)
Definition strands s (q : Z) (s' : wfs) : list Z :=
  match w_syncs s !! q with
  | Some v =>
      if negb (cell_signaled (cell_idx s (ws_shm_idx v))) && cell_signaled (cell_idx s' (ws_shm_idx v))
      then [ws_shm_idx v] else []
  | None => []
  end.
Definition stranded_after (o : server_op) s (X : list Z) s' : list Z :=
  filter (λ i, cell_signaled (cell_idx s' i) = true)
    match o with
    | OpSignalMutex q _ => strands s q s' ++ X
    | OpWakeWaiters idx => filter (λ i, i ≠ idx) X
    | _ => X
    end.

(** A sequence of operations whose preconditions hold one after the other, with the
    stranded objects before and after it. *)
Inductive history : list Z → wfs → list Z → wfs → Prop :=
| history_refl X s : history X s X s
| history_step X s o s1 Y s2 : op_pre s o → run_op o s = Done tt s1 →
    history (stranded_after o s X s1) s1 Y s2 → history X s Y s2.

(** Operations other than the release by SignalObjectAndWait. *)
Definition wakes_waiters (o : server_op) : bool := match o with OpSignalMutex _ _ => false | _ => true end.
Class Wakes (o : server_op) : Prop := wakes : wakes_waiters o = true.

(** Sequences of those: nothing is stranded. *)
Definition reachable s s' : Prop := history [] s [] s'.
Lemma reach_refl s : reachable s s.
Proof. apply history_refl. Qed.
Lemma reach_step s o `{!Wakes o} s1 s2 :
  op_pre s o → run_op o s = Done tt s1 → reachable s1 s2 → reachable s s2.
Proof.
  intros Hpre Hrun Hr. eapply history_step; [done..|].
  assert (stranded_after o s [] s1 = []) as ->; [|done]. destruct o; done.
Qed.

End history.
#[export] Hint Extern 0 (Wakes _) => exact (eq_refl true) : typeclass_instances.

(** ** Every operation keeps the invariant *)

Section operations.
Context `{PageSize} `{ST : Stranded}.
Implicit Types (s : wfs) (v : wfusync).

Lemma value_ok_put s v c :
  server_wf s → value_ok c →
  ∀ (q' : Z) v', w_syncs s !! q' = Some v' →
    value_ok (cell_idx (put_cell (cell_addr (ws_shm_idx v)) c s) (ws_shm_idx v')).
Proof.
  intros Hwf Hc q' v' Hq'. rewrite cell_at_put. case_decide; [done|]. by eapply sw_value.
Qed.

(** The cell of a live object changes without signaling it. *)
Lemma wf_put s (q : Z) v c :
  server_wf s → w_syncs s !! q = Some v →
  same_word (cell_idx s (ws_shm_idx v)) c → value_ok c →
  (cell_signaled c = true → cell_signaled (cell_idx s (ws_shm_idx v)) = true) →
  server_wf (put_cell (cell_addr (ws_shm_idx v)) c s).
Proof.
  intros Hwf Hq Hw Hv Hs. split; [by eapply server_ok_put; [apply Hwf|..]|].
  exact (value_ok_put s v c Hwf Hv).
Qed.

(** It changes, and its registered waiters are woken. *)
Lemma wf_put_wake s s1 (q : Z) v c :
  server_wf s → w_syncs s !! q = Some v →
  same_word (cell_idx s (ws_shm_idx v)) c → value_ok c →
  (s1 = put_cell (cell_addr (ws_shm_idx v)) c s ∨
   ∃ p all, s1 = add_wake p all (put_cell (cell_addr (ws_shm_idx v)) c s)) →
  wp (wake_waiters_for_object (ws_shm_idx v)) (λ _ s', server_wf s') s1.
Proof.
  intros Hwf Hq Hw Hv Hs1. eapply wp_mono.
  { eapply server_ok_put_wake; [apply Hwf|done..]. }
  intros [] s' (Hok & Hs & Hobj). split; [done|].
  assert (w_syncs s' = w_syncs s) as Hsy.
  { rewrite (same_rest_syncs _ _ Hs). by destruct Hs1 as [->|(p & all & ->)]. }
  assert (∀ p, cell_at s1 p = cell_at (put_cell (cell_addr (ws_shm_idx v)) c s) p) as Hc1.
  { intros p. destruct Hs1 as [->|(p' & all & ->)]; [done|by rewrite cell_at_wake]. }
  intros q' v' Hq'. pose proof (so_sync _ Hok q' v' Hq') as [_ _ _ Hty _].
  rewrite Hsy in Hq'. destruct (so_sync _ (sw_ok _ Hwf) q' v' Hq') as [_ _ _ Hty0 _].
  rewrite Hobj, Hc1; [by eapply value_ok_put|]. rewrite Hc1, cell_at_put.
  case_decide as E; [|by apply waitable_not_internal].
  destruct (so_sync _ (sw_ok _ Hwf) q v Hq) as [_ _ _ Htyv _].
  unfold type_of. rewrite (proj1 Hw). by apply waitable_not_internal.
Qed.

Lemma wake_index_exec s (q : Z) v Q :
  w_syncs s !! q = Some v → state_mapped s (ws_shm_idx v) = true →
  wp (wake_waiters_for_object (ws_shm_idx v)) (λ _ s', Q tt s') s → wp (wake_index q) Q s.
Proof.
  intros Hq Hm Hw. unfold wake_index, wfusync_get_index, wfusync_wake_waiters.
  rewrite wp_bind, wp_bind, (wp_get_sync _ _ _ _ Hq). wp_run ltac:(rewrite wp_get_state). rewrite Hm.
  rewrite wp_bind. eapply wp_mono; [exact Hw|]. intros [] s' HQ. exact HQ.
Qed.

Lemma value_ok_event c : type_of c = INPROC_SYNC_EVENT → value_ok c.
Proof. by unfold value_ok; intros ->. Qed.

Lemma live_cell s (q : Z) v ty :
  server_wf s → w_syncs s !! q = Some v → type_of (cell_idx s (ws_shm_idx v)) = ty →
  sync_cell s q v (cell_addr (ws_shm_idx v)) ∧ free_cell (cell_idx s (ws_shm_idx v)) ty ∧
  state_mapped s (ws_shm_idx v) = true.
Proof.
  intros Hwf Hq Ht. pose proof (live_sync_cell _ _ _ (sw_ok _ Hwf) Hq) as Hs.
  split_and!; [done|by eapply live_free; [apply Hwf|..]|apply Hs].
Qed.

Lemma event_ops_wf s q o :
  server_wf s → live_type s q INPROC_SYNC_EVENT →
  o = OpSetEvent q ∨ o = OpResetEvent q ∨ o = OpEventSatisfied q →
  wp (run_op o) (λ _ s', server_wf s') s.
Proof.
  intros Hwf (v & Hq & Ht) Ho. destruct (live_cell s q v _ Hwf Hq Ht) as (Hs & Hf & Hm).
  assert (∀ x, type_of (set_low x (cell_idx s (ws_shm_idx v))) = INPROC_SYNC_EVENT) as Hty by done.
  destruct Ho as [->|[->| ->]]; simpl.
  - unfold wp. rewrite (set_event_exec s q v _ _ Hs (or_introl eq_refl) Hf). cbv zeta.
    apply (wf_put_wake s _ q v (set_low 1 (cell_idx s (ws_shm_idx v)))); [done|done|done|by apply value_ok_event|].
    destruct (truth _); [by left|right; eauto].
  - eapply wp_of_exec; [by apply (reset_event_exec s q v _ _ Hs (or_introl eq_refl) Hf)|].
    apply (wf_put s q); [done|done|done|by apply value_ok_event|].
    unfold cell_signaled. rewrite Hty, Ht. done.
  - eapply wp_of_exec; [by apply (event_satisfied_exec s q v _ _ Hs (or_introl eq_refl) Hf)|].
    cbv beta. destruct (truth _); [done|].
    apply (wf_put s q); [done|done|done|by apply value_ok_event|].
    unfold cell_signaled. rewrite Hty, Ht. done.
Qed.

(** Below the limit the unsigned test is the ordinary one. *)
Lemma semaphore_limit_spec old count max :
  0 ≤ old ≤ max → max ≤ INT_MAX → 0 ≤ count < 2 ^ 32 →
  semaphore_limit_exceeded old count max = (max <? old + count).
Proof.
  intros Ho Hm Hc. unfold semaphore_limit_exceeded, INT_MAX in *.
  rewrite (u32_small old), (u32_small max) by lia. unfold u32.
  destruct (Z.lt_ge_cases (old + count) (2 ^ 32)) as [Hlt|Hge].
  - rewrite Z.mod_small by lia. rewrite (proj2 (Z.ltb_ge (old + count) old)) by lia. done.
  - replace (old + count) with (old + count - 2 ^ 32 + 1 * 2 ^ 32) at 1 by lia.
    rewrite Z.mod_add, Z.mod_small by lia.
    rewrite (proj2 (Z.ltb_lt (old + count - 2 ^ 32) old)) by lia. simpl. symmetry.
    apply Z.ltb_lt. lia.
Qed.

Lemma semaphore_value s (q : Z) v :
  server_wf s → w_syncs s !! q = Some v →
  type_of (cell_idx s (ws_shm_idx v)) = INPROC_SYNC_SEMAPHORE →
  let c := cell_idx s (ws_shm_idx v) in 0 ≤ c_low c ≤ c_high c ∧ c_high c ≤ INT_MAX.
Proof. intros Hwf Hq Ht. by apply (sw_value _ Hwf q v Hq). Qed.

Lemma semaphore_ops_wf s q o :
  server_wf s → live_type s q INPROC_SYNC_SEMAPHORE →
  (∃ count, 0 ≤ count < 2 ^ 32 ∧ o = OpReleaseSemaphore q count) ∨ o = OpSemaphoreSatisfied q →
  wp (run_op o) (λ _ s', server_wf s') s.
Proof.
  intros Hwf (v & Hq & Ht) Ho. destruct (live_cell s q v _ Hwf Hq Ht) as (Hs & Hf & Hm).
  destruct (semaphore_value s q v Hwf Hq Ht) as [Hlow Hhigh].
  set (c := cell_idx s (ws_shm_idx v)) in *.
  assert (∀ x, 0 ≤ x ≤ c_high c → value_ok (set_low x c)) as Hval.
  { intros x Hx. split; [done|]. change (type_of (set_low x c)) with (type_of c). by rewrite Ht. }
  assert (∀ x, type_of (set_low x c) = INPROC_SYNC_SEMAPHORE) as Hty by done.
  destruct Ho as [(count & Hc & ->)| ->]; simpl.
  - rewrite wp_bind. unfold wp at 1.
    rewrite (release_semaphore_exec s q v _ Hs Hf). fold c.
    rewrite semaphore_limit_spec by done.
    destruct (Z.ltb_spec (c_high c) (c_low c + count)).
    { split; [apply server_ok_err, Hwf|]. apply Hwf. }
    unfold INT_MAX in *. rewrite s32_small by lia. rewrite wp_when.
    destruct (Z.eqb_spec (c_low c) 0) as [E|E].
    + apply (wake_index_exec _ q v); [done|done|].
      apply (wf_put_wake s _ q v (set_low (c_low c + count) c)); [done|done|done|apply Hval; lia|eauto].
    + apply (wf_put s q); [done|done|done|apply Hval; lia|].
      intros _. fold c. unfold cell_signaled. rewrite Ht. simpl. apply Z.ltb_lt. lia.
  - eapply wp_of_exec; [by apply (semaphore_satisfied_exec s q v _ Hs Hf)|]. fold c. cbv beta.
    destruct (Z.leb_spec (c_low c) 0); [done|].
    apply (wf_put s q); [done|done|done|apply Hval; lia|].
    intros _. fold c. unfold cell_signaled. rewrite Ht. simpl. apply Z.ltb_lt. lia.
Qed.

Lemma mutex_value s (q : Z) v :
  server_wf s → w_syncs s !! q = Some v →
  type_of (cell_idx s (ws_shm_idx v)) = INPROC_SYNC_MUTEX →
  let c := cell_idx s (ws_shm_idx v) in
  (c_low c = 0 ∧ c_high c = 0) ∨ (0 < c_low c ≤ INT_MAX ∧ 1 ≤ c_high c ≤ INT_MAX) ∨
  (- INT_MAX ≤ c_low c < 0 ∧ c_high c = 0).
Proof. intros Hwf Hq Ht. by apply (sw_value _ Hwf q v Hq). Qed.

Lemma value_ok_mutex c :
  type_of c = INPROC_SYNC_MUTEX →
  (c_low c = 0 ∧ c_high c = 0) ∨ (0 < c_low c ≤ INT_MAX ∧ 1 ≤ c_high c ≤ INT_MAX) ∨
  (- INT_MAX ≤ c_low c < 0 ∧ c_high c = 0) → value_ok c.
Proof. intros Ht Hv. split; rewrite Ht; [done|by intros _]. Qed.

Lemma mutex_signaled_iff c :
  type_of c = INPROC_SYNC_MUTEX → cell_signaled c = (c_low c <=? 0).
Proof.
  unfold cell_signaled. intros ->. simpl.
  destruct (Z.eqb_spec (c_low c) 0), (Z.ltb_spec (c_low c) 0), (Z.leb_spec (c_low c) 0); simpl; done || lia.
Qed.

Lemma release_mutex_wf s q tid :
  server_wf s → live_type s q INPROC_SYNC_MUTEX → tid_ok tid →
  wp (run_op (OpReleaseMutex q tid)) (λ _ s', server_wf s') s.
Proof.
  intros Hwf (v & Hq & Ht) Htid. destruct (live_cell s q v _ Hwf Hq Ht) as (Hs & Hf & Hm).
  pose proof (mutex_value s q v Hwf Hq Ht) as Hv. cbv zeta in Hv.
  set (c := cell_idx s (ws_shm_idx v)) in *. simpl. rewrite wp_bind. unfold wp at 1.
  rewrite (release_mutex_exec s q v _ tid Hs Hf). fold c.
  unfold tid_ok, INT_MAX in *. rewrite s32_small by lia.
  destruct (Z.eqb_spec (c_low c) tid) as [E|E]; simpl.
  2:{ split; [apply server_ok_err, Hwf|]. apply Hwf. }
  destruct (Z.eqb_spec (c_high c) 0) as [E0|E0]; [split; [apply server_ok_err, Hwf|]; apply Hwf|].
  assert (type_of (set_high (c_high c - 1) c) = INPROC_SYNC_MUTEX) as Ht1 by done.
  assert (type_of (set_low 0 (set_high 0 c)) = INPROC_SYNC_MUTEX) as Ht2 by done.
  destruct (Z.ltb_spec 1 (c_high c)).
  - rewrite (proj2 (Z.eqb_neq (c_high c) 1)) by lia. rewrite wp_when.
    apply (wf_put s q); [done|done|done| |].
    + apply value_ok_mutex; [done|]. right. left. simpl. unfold INT_MAX. lia.
    + intros Hsig. rewrite mutex_signaled_iff in Hsig by done. simpl in Hsig.
      rewrite mutex_signaled_iff by done. fold c. done.
  - rewrite (proj2 (Z.eqb_eq (c_high c) 1)) by lia. rewrite wp_when.
    apply (wake_index_exec _ q v); [done|done|].
    apply (wf_put_wake s _ q v (set_low 0 (set_high 0 c))); [done|done|done| |eauto].
    apply value_ok_mutex; [done|]. by left.
Qed.

Lemma mutex_satisfied_wf s q tid :
  server_wf s → op_pre s (OpMutexSatisfied q tid) →
  wp (run_op (OpMutexSatisfied q tid)) (λ _ s', server_wf s') s.
Proof.
  intros Hwf (Htid & v & Hq & Ht & Hmax). destruct (live_cell s q v _ Hwf Hq Ht) as (Hs & Hf & Hm).
  pose proof (mutex_value s q v Hwf Hq Ht) as Hv. cbv zeta in Hv.
  set (c := cell_idx s (ws_shm_idx v)) in *. simpl. rewrite wp_bind. unfold wp at 1.
  rewrite (mutex_satisfied_exec s q v _ tid Hs Hf). fold c.
  unfold tid_ok, INT_MAX in *. rewrite !s32_small by lia.
  destruct (Z.eqb_spec (c_low c) tid) as [E|E].
  - apply (wf_put s q); [done|done|done| |].
    + apply value_ok_mutex; [done|]. right. left. simpl. unfold INT_MAX. lia.
    + intros Hsig. rewrite mutex_signaled_iff in Hsig by done. simpl in Hsig.
      rewrite mutex_signaled_iff by done. fold c. done.
  - destruct ((c_low c =? 0) || (c_low c <? 0)) eqn:E1; [|done].
    set (c' := set_high _ _).
    assert (c_low c' = tid ∧ c_high c' = 1 ∧ same_word c c' ∧ type_of c' = INPROC_SYNC_MUTEX)
      as (Hl & Hh & Hw & Ht') by (unfold c'; destruct (c_low c <? 0); done).
    apply (wf_put s q); [done|done|done| |].
    + apply value_ok_mutex; [done|]. right. left. unfold INT_MAX. lia.
    + rewrite mutex_signaled_iff by done. rewrite Hl. intros Hle%Z.leb_le. lia.
Qed.

Lemma abandon_mutex_wf s q tid :
  server_wf s → live_type s q INPROC_SYNC_MUTEX → tid_ok tid →
  wp (run_op (OpAbandonMutex q tid)) (λ _ s', server_wf s') s.
Proof.
  intros Hwf (v & Hq & Ht) Htid. destruct (live_cell s q v _ Hwf Hq Ht) as (Hs & Hf & Hm).
  set (c := cell_idx s (ws_shm_idx v)) in *. simpl. rewrite wp_bind. unfold wp at 1.
  rewrite (abandon_mutex_exec s q v _ tid Hs Hf). fold c.
  unfold tid_ok, INT_MAX in *. rewrite !s32_small by (rewrite ?s32_small by lia; lia).
  destruct (_ || _); [done|]. rewrite wp_when.
  apply (wake_index_exec _ q v); [done|done|].
  eapply (wf_put_wake s _ q v); [done|done| | |right; eauto].
  - done.
  - apply value_ok_mutex; [done|]. right. right. simpl. unfold INT_MAX. lia.
Qed.

(** ** Operations that do not touch the values of objects *)

(** Type and words of every cell but the one at [a]. *)
Definition values_but (a : option Z) s s' : Prop :=
  ∀ p, Some p ≠ a → type_of (cell_at s' p) = type_of (cell_at s p) ∧
    c_low (cell_at s' p) = c_low (cell_at s p) ∧ c_high (cell_at s' p) = c_high (cell_at s p).

#[local] Instance values_but_preorder a : PreOrder (values_but a).
Proof.
  split; [done|]. intros s1 s2 s3 H1 H2 p Hp. destruct (H1 p Hp) as (?&?&?), (H2 p Hp) as (?&?&?).
  split_and!; congruence.
Qed.

Lemma values_st a p f :
  Some p = a ∨ (∀ c, type_of (f c) = type_of c ∧ c_low (f c) = c_low c ∧ c_high (f c) = c_high c) →
  keeps (values_but a) (st p f).
Proof.
  intros Hf. apply keeps_modify. intros s q Hq. rewrite cell_at_put.
  case_decide as E; [subst|done]. by destruct Hf as [Hf|Hf].
Qed.

Lemma values_flag_or c n :
  is_flag n → let c' := set_type (Z.lor (c_type c) (2 ^ n)) c in
  type_of c' = type_of c ∧ c_low c' = c_low c ∧ c_high c' = c_high c.
Proof. intros Hn. split_and!; [by apply type_of_set_flag|done|done]. Qed.
Lemma values_flag_and c n :
  is_flag n → let c' := set_type (Z.land (c_type c) (Z.lnot (2 ^ n))) c in
  type_of c' = type_of c ∧ c_low c' = c_low c ∧ c_high c' = c_high c.
Proof. intros Hn. split_and!; [by apply type_of_clear_flag|done|done]. Qed.

Lemma values_fetch_or a p n : is_flag n → keeps (values_but a) (fetch_or_type p (2 ^ n)).
Proof. intros Hn. apply values_st. right. intros c. by apply values_flag_or. Qed.
Lemma values_fetch_and a p n : is_flag n → keeps (values_but a) (fetch_and_type p (Z.lnot (2 ^ n))).
Proof. intros Hn. apply values_st. right. intros c. by apply values_flag_and. Qed.

Lemma values_syscall a : keeps (values_but a) syscall.
Proof. intros s r s'. unfold syscall. destruct (w_env s); intros [= _ <-]; done. Qed.

Lemma values_get_state {A} a idx (k : option Z → W A) :
  keeps (values_but a) (k None) → keeps (values_but a) (k (Some (cell_addr idx))) →
  keeps (values_but a) (get_state idx ≫= k).
Proof.
  intros H1 H2 s r s'. unfold get_state, gets, mbind, M_bind.
  destruct (state_mapped s idx); [apply H2|apply H1].
Qed.

Ltac values_tac tac := repeat first
  [ apply values_get_state
  | keeps_step ltac:(first
    [ rewrite ?multi_pow, ?server_pow; apply values_fetch_or; unfold is_flag; lia
    | rewrite ?multi_pow, ?server_pow; apply values_fetch_and; unfold is_flag; lia
    | apply values_syscall
    | apply values_st; first [by left | by right; intros [] ]
    | apply keeps_modify; [first [done | intros ?; done]]
    | tac ]) ].

Lemma values_server_waiter a q :
  keeps (values_but a) (wfusync_add_server_waiter q) ∧
  keeps (values_but a) (wfusync_remove_server_waiter q).
Proof.
  split; unfold wfusync_add_server_waiter, wfusync_remove_server_waiter, sync_state, get_sync,
    put_sync; values_tac idtac.
Qed.

Lemma values_remove_multi a idx : keeps (values_but a) (remove_multi_waiter idx).
Proof. unfold remove_multi_waiter. values_tac idtac. Qed.

Lemma values_remove_waiter a slot : keeps (values_but a) (remove_waiter slot).
Proof.
  unfold remove_waiter. values_tac idtac. induction a0 as [|w ws IH]; simpl;
    values_tac ltac:(first [apply values_remove_multi | exact IH]).
Qed.

Lemma values_register_add a todo : ∀ added, keeps (values_but a) (register_add added todo).
Proof.
  induction todo as [|idx todo IH]; intros added; simpl;
    values_tac ltac:(first [progress (unfold add_multi_waiter, get_state_type, ld,
      ensure_multi_waiter_count) | apply values_remove_multi | apply IH]).
Qed.

Lemma values_wake_slot idx :
  keeps (values_but (Some (cell_addr idx))) (wake_wait_slot (cell_addr idx)).
Proof. unfold wake_wait_slot, wake_address. values_tac idtac. Qed.

Lemma values_register slot idxs :
  keeps (values_but (Some (cell_addr slot))) (wfusync_register_wait slot idxs).
Proof.
  unfold wfusync_register_wait, get_state_type, ld, take_generation,
    register_validate, mem_alloc_ok, wfusync_state_signaled, set_error.
  values_tac ltac:(first [apply values_remove_waiter | apply values_wake_slot
    | apply values_register_add | progress (unfold get_state_type, ld) ]).
Qed.

Lemma values_unregister slot :
  keeps (values_but (Some (cell_addr slot))) (wfusync_unregister_wait slot).
Proof.
  unfold wfusync_unregister_wait.
  values_tac ltac:(first [apply values_remove_waiter | apply values_wake_slot]).
Qed.

(** The values of the objects survive when their cells keep type and words. *)
Lemma value_ok_same c c' :
  type_of c' = type_of c ∧ c_low c' = c_low c ∧ c_high c' = c_high c → value_ok c → value_ok c'.
Proof. unfold value_ok. by intros (-> & -> & ->). Qed.

Lemma wf_values s s' a :
  server_wf s → server_ok s' → values_but a s s' →
  (∀ (q : Z) v', w_syncs s' !! q = Some v' → Some (cell_addr (ws_shm_idx v')) ≠ a ∧
     ∃ q' v, w_syncs s !! q' = Some v ∧ ws_shm_idx v = ws_shm_idx v') →
  server_wf s'.
Proof.
  intros Hwf Hok Hv Hs. split; [done|]. intros q v' Hq.
  destruct (Hs q v' Hq) as (Hne & q' & v & Hq' & E).
  apply (value_ok_same (cell_idx s (ws_shm_idx v'))); [by apply (Hv _ Hne)|].
  rewrite <- E. by eapply (sw_value _ Hwf).
Qed.

(** The objects keep their cells' types and words. *)
Definition objects_keep s s' : Prop :=
  w_syncs s' = w_syncs s ∧ ∀ (q : Z) v, w_syncs s !! q = Some v →
    type_of (cell_idx s' (ws_shm_idx v)) = type_of (cell_idx s (ws_shm_idx v)) ∧
    c_low (cell_idx s' (ws_shm_idx v)) = c_low (cell_idx s (ws_shm_idx v)) ∧
    c_high (cell_idx s' (ws_shm_idx v)) = c_high (cell_idx s (ws_shm_idx v)).
Lemma wf_objects s s' : server_wf s → server_ok s' → objects_keep s s' → server_wf s'.
Proof.
  intros Hwf Hok [E Hk]. split; [done|]. intros q v. rewrite E. intros Hq.
  eapply value_ok_same; [by apply (Hk q)|]. by eapply sw_value.
Qed.

Lemma slot_not_object s (q : Z) v slot :
  server_ok s → w_syncs s !! q = Some v → 0 ≤ slot < 2 ^ 32 →
  type_of (cell_idx s slot) = INPROC_SYNC_INTERNAL →
  Some (cell_addr (ws_shm_idx v)) ≠ Some (cell_addr slot).
Proof.
  intros Hok Hq Hi Ht [= E]. destruct (so_sync _ Hok q v Hq) as [_ _ _ Hty _].
  rewrite E, Ht in Hty. done.
Qed.

Lemma server_waiter_wf s q :
  server_wf s →
  (op_pre s (OpAddWaiter q) → wp (run_op (OpAddWaiter q)) (λ _ s', server_wf s') s) ∧
  (op_pre s (OpRemoveWaiter q) → wp (run_op (OpRemoveWaiter q)) (λ _ s', server_wf s') s).
Proof.
  intros Hwf. destruct (values_server_waiter None (Some q)) as [Ka Kr].
  assert (∀ s' (v : wfusync) n, w_syncs s !! q = Some v → server_ok s' → values_but None s s' →
    w_syncs s' = <[q := Wfusync (ws_shm_idx v) n]> (w_syncs s) → server_wf s') as Hfin.
  { intros s' v n Hq Hok Hv Hsy. eapply wf_values; [done..|]. intros q' v'. rewrite Hsy, lookup_insert.
    intros Hq'. split; [done|]. case_decide; [|by eauto]. simplify_eq. by eauto. }
  split; intros (v & Hq & Hn); eapply wp_mono.
  - apply wp_keeps; [|exact Ka]. apply add_server_waiter_spec; [apply Hwf|done|done].
  - intros [] s' [(Hok & Hsy & _) Hv]. by eapply Hfin.
  - apply wp_keeps; [|exact Kr]. apply remove_server_waiter_spec; [apply Hwf|done|done].
  - intros [] s' [(Hok & Hsy & _) Hv]. by eapply Hfin.
Qed.

Lemma create_wf s low high type :
  server_wf s → op_pre s (OpCreate low high type) →
  wp (run_op (OpCreate low high type)) (λ _ s', server_wf s') s.
Proof.
  intros Hwf (Hn & Hty & Hl & Hh & Hval). simpl. rewrite wp_bind. eapply wp_mono.
  { apply create_wfusync_spec; [apply Hwf|done|done]. }
  intros r s' (Hok & Hr & Hold). rewrite wp_ret. split; [done|]. intros q v Hq.
  destruct r as [p|]; [|rewrite Hr in Hq; rewrite (Hold q) by done; by eapply sw_value].
  destruct Hr as (v0 & -> & Hsy & _ & _ & H1 & H2 & H3 & H4). rewrite Hsy, lookup_insert in Hq.
  case_decide; [|rewrite (Hold q) by done; by eapply sw_value]. injection Hq as ->.
  eapply value_ok_same; [|exact Hval]. rewrite H1, H2, !s32_small by lia.
  unfold type_of. by rewrite H3.
Qed.

Lemma wake_waiters_objects s idx :
  server_wf s → wp (wfusync_wake_waiters idx) (λ _ s', server_wf s' ∧ objects_keep s s') s.
Proof.
  intros Hwf. unfold wfusync_wake_waiters. wp_run ltac:(rewrite wp_get_state).
  destruct (state_mapped s idx); [|done]. wp_run idtac.
  pose proof (so_waiters _ (sw_ok _ Hwf)) as [Hr [Hnd Hsl Hw]]. eapply wp_mono.
  { apply wp_conj; [apply wake_restores; split; [done..|by intros w i Hin Hi _; apply (Hw w i)]|].
    apply wake_waiters_for_object_spec. intros w Hin. by destruct (Hsl w Hin) as (_&?&_). }
  intros [] s' [(Hws & Hs & Hobj) [_ Hcell]].
  assert (server_ok s') as Hok.
  { eapply rest_ok_server; [apply Hwf| |done]. rewrite Hs. split; [split; try done|done].
    intros p. rewrite <- Hs, Hcell. by destruct (wakes_slot _ _ _). }
  assert (objects_keep s s') as Hk; [|split; [by apply (wf_objects s)|done]].
  split; [by apply same_rest_syncs|]. intros q v Hq. destruct (so_sync _ (sw_ok _ Hwf) q v Hq) as [_ _ _ Hty _].
  by rewrite Hobj by by apply waitable_not_internal.
Qed.
Lemma wake_waiters_wf s idx :
  server_wf s → wp (run_op (OpWakeWaiters idx)) (λ _ s', server_wf s') s.
Proof.
  intros Hwf. simpl. rewrite wp_bind. eapply wp_mono; [by apply wake_waiters_objects|]. by intros ok s' [? _].
Qed.

(** Only the cell of a slot changes. *)
Lemma slot_objects s s' slot :
  server_wf s → slot_ok s slot → kinds_ok s s' → values_but (Some (cell_addr slot)) s s' → objects_keep s s'.
Proof.
  intros Hwf (Hi & Hm & Ht) Hk Hv. pose proof (so_range _ (sw_ok _ Hwf)) as Hr.
  split; [by apply (rk_syncs _ _ Hk)|]. intros q v Hq. apply Hv. by eapply slot_not_object; [apply Hwf|..].
Qed.

Lemma register_objects s slot idxs :
  server_wf s → op_pre s (OpRegister slot idxs) →
  wp (wfusync_register_wait slot idxs) (λ _ s', server_wf s' ∧ objects_keep s s') s.
Proof.
  intros Hwf (Hslot & Hidx & Hlen). pose proof (so_range _ (sw_ok _ Hwf)) as Hr. eapply wp_mono.
  { apply wp_keeps; [|apply values_register]. apply wp_keeps; [|apply keeps_register].
    by apply server_ok_register; [apply Hwf|..]. }
  intros ok s' [[[Hok Hres] Hk] Hv].
  assert (s' = s ∨ slot_ok s slot) as [->|Hs]; [|by split; [|split]|].
  { destruct ok; [right; apply Hres|destruct Hres as [->|Hres]; [by left|right; apply Hres]]. }
  assert (objects_keep s s') by by eapply slot_objects. split; [by apply (wf_objects s)|done].
Qed.
Lemma register_wf s slot idxs :
  server_wf s → op_pre s (OpRegister slot idxs) →
  wp (run_op (OpRegister slot idxs)) (λ _ s', server_wf s') s.
Proof.
  intros Hwf Hpre. simpl. rewrite wp_bind. eapply wp_mono; [by apply register_objects|]. by intros ok s' [? _].
Qed.

Lemma unregister_objects s slot :
  server_wf s → slot_ok s slot → wp (wfusync_unregister_wait slot) (λ _ s', server_wf s' ∧ objects_keep s s') s.
Proof.
  intros Hwf Hs. eapply wp_mono.
  { apply wp_keeps; [|apply values_unregister]. apply wp_keeps; [|apply keeps_unregister].
    by apply server_ok_unregister; [apply Hwf|]. }
  intros [] s' [[[Hok _] Hk] Hv].
  assert (objects_keep s s') by by eapply slot_objects. split; [by apply (wf_objects s)|done].
Qed.
Lemma unregister_wf s slot :
  server_wf s → slot_ok s slot → wp (run_op (OpUnregister slot)) (λ _ s', server_wf s') s.
Proof.
  intros Hwf Hs. eapply wp_mono; [by apply unregister_objects|]. by intros [] s' [? _].
Qed.

Lemma destroy_wf s q : server_wf s → live s q → wp (run_op (OpDestroy q)) (λ _ s', server_wf s') s.
Proof.
  intros Hwf [v Hq]. eapply wp_mono; [by apply (destroy_spec _ q v); [apply Hwf|]|].
  intros [] s' (Hok & Hsy & _ & _ & _ & Hold). split; [done|]. intros q' v'. rewrite Hsy.
  rewrite lookup_delete_Some. intros [Hne Hq']. rewrite (Hold q' v') by done.
  by eapply sw_value.
Qed.

Lemma grab_wf s q : server_wf s → op_pre s (OpGrab q) → wp (run_op (OpGrab q)) (λ _ s', server_wf s') s.
Proof.
  intros Hwf (v & Hq & Hlt). eapply wp_mono; [by apply (grab_spec _ q v); [apply Hwf|..]|].
  intros [] s' [Hok ->]. split; [done|]. intros q' v' Hq'.
  eapply value_ok_put; [done| |done]. by eapply (value_ok_same (cell_idx s (ws_shm_idx v)));
    [|eapply sw_value].
Qed.

Lemma get_slot_objects s :
  server_wf s → w_next_shm_idx s + 1 < 2 ^ 31 →
  wp wfusync_alloc_wait_slot (λ _ s', server_wf s' ∧ objects_keep s s') s.
Proof.
  intros Hwf Hn. eapply wp_mono.
  { apply alloc_wait_slot_spec; [apply Hwf|done]. }
  intros idx s' (Hok & _ & Hsy & Hold & _).
  assert (objects_keep s s') by (split; [done|]; intros q v Hq; by rewrite (Hold q)).
  split; [by apply (wf_objects s)|done].
Qed.
Lemma get_slot_wf s :
  server_wf s → w_next_shm_idx s + 1 < 2 ^ 31 → wp (run_op OpGetSlot) (λ _ s', server_wf s') s.
Proof.
  intros Hwf Hn. simpl. rewrite wp_bind. eapply wp_mono; [by apply get_slot_objects|]. by intros idx s' [? _].
Qed.

(** ** The server-side wait-all *)

(** Consuming an entry that does not block: the word and the value stay in order, and
    nothing becomes signaled. *)
Lemma consumed_props c e tid a :
  entry_blocks c e tid = inr a → tid_ok tid →
  same_word c (consumed c e tid) ∧ type_of c ≠ INPROC_SYNC_INTERNAL ∧
  (cell_signaled (consumed c e tid) = true → cell_signaled c = true) ∧
  (value_ok c → value_ok (consumed c e tid)).
Proof.
  intros Hb Htid. assert (type_of c = en_type e) as Ht.
  { unfold entry_blocks in Hb. destruct (Z.eqb_spec (type_of c) (en_type e)); [done|by simpl in Hb]. }
  assert (is_waitable_type (en_type e) = true) as Hw.
  { unfold entry_blocks in Hb. unfold is_waitable_type. destruct (_ || _); [done|].
    by destruct (en_type e =? INPROC_SYNC_EVENT), (en_type e =? INPROC_SYNC_SEMAPHORE),
      (en_type e =? INPROC_SYNC_MUTEX). }
  destruct (not_blocked_consumable _ _ _ _ Hb) as [c' Hc'].
  unfold consumed. rewrite Hc'. simpl. unfold id.
  assert (same_word c c') as Hsw.
  { split; [by eapply consume_cell_type|]. revert Hc'. unfold consume_cell.
    repeat match goal with |- context [if ?b then _ else _] => destruct b end; by intros [= <-]. }
  assert (type_of c' = en_type e) as Ht' by (unfold type_of in *; by rewrite (proj1 Hsw)).
  split_and!; [done|rewrite Ht; by apply waitable_not_internal|..].
  all: unfold is_waitable_type in Hw; rewrite !orb_true_iff, !Z.eqb_eq in Hw.
  all: unfold consume_cell in Hc'; unfold cell_signaled, value_ok; rewrite Ht, Ht'.
  all: unfold tid_ok, INT_MAX in *; rewrite !s32_small in Hc' by lia.
  all: destruct Hw as [[Hw|Hw]|Hw]; rewrite Hw in *; simpl in *.
  - destruct (c_low c =? 0); [done|]. done.
  - destruct (Z.leb_spec (c_low c) 0); [done|]. intros _. apply Z.ltb_lt. lia.
  - destruct (Z.eqb_spec (c_low c) tid).
    + destruct (c_high c =? _); [done|]. simplify_eq/=. done.
    + destruct ((c_low c =? 0) || (c_low c <? 0)); [done|done].
  - destruct (c_low c =? 0); [done|]. done.
  - destruct (Z.leb_spec (c_low c) 0); [done|]. simplify_eq/=. intros [Hv _]. split; [|done].
    intros _. specialize (Hv eq_refl). lia.
  - intros [_ Hv]. split; [done|]. intros _. specialize (Hv eq_refl).
    destruct (Z.eqb_spec (c_low c) tid).
    + destruct (Z.eqb_spec (c_high c) (2 ^ 31 - 1)); [done|]. simplify_eq/=. lia.
    + destruct ((c_low c =? 0) || (c_low c <? 0)); [|done].
      destruct (c_low c <? 0); simplify_eq/=; lia.
Qed.

Lemma entries_status_acquired s entries tid : ∀ ab,
  acquired (entries_status s entries tid ab) = true →
  ∀ e, e ∈ entries → ∃ a, entry_blocks (cell_at s (entry_addr e)) e tid = inr a.
Proof.
  induction entries as [|e entries IH]; intros ab Hacq e'; [by intros ?%elem_of_nil|].
  simpl in Hacq. destruct (entry_blocks (cell_at s (entry_addr e)) e tid) eqn:E.
  - by rewrite (entry_blocks_status _ _ _ _ E) in Hacq.
  - intros [->|Hin]%elem_of_cons; [eauto|]. by eapply IH.
Qed.

(** Changing many cells at once without signaling any. *)
Lemma wf_pointwise s s' :
  server_wf s → same_rest s s' →
  (∀ p, same_word (cell_at s p) (cell_at s' p) ∧
     (type_of (cell_at s p) = INPROC_SYNC_INTERNAL → c_low (cell_at s' p) = c_low (cell_at s p)) ∧
     (cell_signaled (cell_at s' p) = true → cell_signaled (cell_at s p) = true) ∧
     (value_ok (cell_at s p) → value_ok (cell_at s' p))) →
  server_wf s'.
Proof.
  intros Hwf Hs Hp.
  assert (∀ p, type_of (cell_at s' p) = type_of (cell_at s p)) as Ht.
  { intros p. unfold type_of. by destruct (Hp p) as [[-> _] _]. }
  pose proof (same_rest_waiters _ _ Hs) as Hws.
  assert (rest_ok s s') as Hk.
  { rewrite Hs. split; [split; try done|done]. intros p. rewrite <- Hs.
    apply same_word_kind, Hp. }
  split.
  - eapply rest_ok_server; [apply Hwf|done|].
    pose proof (so_waiters _ (sw_ok _ Hwf)) as [[H1 H2 H3 H4 H5] [Hnd Hsl Hw]].
    assert (registered s' = registered s) as Hreg by (unfold registered; by rewrite Hws).
    split; [split|split]; rewrite ?Hreg, ?Hws; try done.
    + intros idx. rewrite Hs. apply H1.
    + intros idx Hin. destruct (H2 idx Hin) as (?&?&?).
      split_and!; [lia|lia|by rewrite (same_rest_mapped _ _ _ Hs)|rewrite Hs; done].
    + intros idx Hi. rewrite Ht. unfold has_flag. destruct (Hp (cell_addr idx)) as [[-> _] _]. by apply H3.
    + by rewrite Hs.
    + intros w Hin. destruct (Hsl w Hin) as (?&?&?).
      split_and!; [lia|lia|by rewrite (same_rest_mapped _ _ _ Hs)|by rewrite Ht].
    + intros w idx. rewrite Hws. intros Hin Hi Hns Hsig.
      destruct (Hsl w Hin) as (_&_&Hint). destruct (Hp (cell_addr (wt_slot_idx w))) as (_&Hlow&_&_).
      rewrite Hlow by done. eapply Hw; [done|done|done|]. by apply Hp.
  - intros q v. rewrite (same_rest_syncs _ _ Hs). intros Hq. apply Hp. by eapply sw_value.
Qed.

Lemma try_wait_all_wf s entries tid :
  server_wf s → tid_ok tid → wp (run_op (OpTryWaitAll entries tid)) (λ _ s', server_wf s') s.
Proof.
  intros Hwf Htid. simpl. rewrite wp_bind. eapply wp_mono; [apply try_wait_all_spec|].
  intros status s' (Hst & Hr & Hc). rewrite wp_ret. apply (wf_pointwise s); [done|done|].
  intros p. rewrite Hc. destruct (acquired status) eqn:Hacq; [|done].
  assert (∀ e, e ∈ entries → ∃ a, entry_blocks (cell_at s (entry_addr e)) e tid = inr a) as Hall.
  { subst status. unfold wait_all_status in Hacq. destruct (request_ok s entries); [|done].
    by eapply entries_status_acquired. }
  clear Hst Hc. induction entries as [|e entries IH]; simpl; [done|].
  destruct (decide (entry_addr e = p)) as [<-|Hne].
  - destruct (Hall e) as [a Ha]; [by left|].
    destruct (consumed_props _ _ _ _ Ha Htid) as (H1 & H2 & H3 & H4). by split_and!.
  - apply IH. intros e' Hin. apply Hall. by right.
Qed.

Lemma op_keeps_wf s o `{!Wakes o} : server_wf s → op_pre s o → wp (run_op o) (λ _ s', server_wf s') s.
Proof.
  intros Hwf Hpre. destruct o; simpl in Hpre; try done.
  - by apply create_wf.
  - by apply destroy_wf.
  - by apply grab_wf.
  - by apply server_waiter_wf.
  - by apply server_waiter_wf.
  - eapply event_ops_wf; eauto.
  - eapply event_ops_wf; eauto.
  - eapply event_ops_wf; eauto.
  - destruct Hpre. eapply semaphore_ops_wf; eauto.
  - eapply semaphore_ops_wf; eauto.
  - destruct Hpre. by apply release_mutex_wf.
  - by apply mutex_satisfied_wf.
  - destruct Hpre. by apply abandon_mutex_wf.
  - by apply get_slot_wf.
  - by apply register_wf.
  - by apply unregister_wf.
  - by apply wake_waiters_wf.
  - by apply try_wait_all_wf.
Qed.

(** Setting an event from the server: its cell, its waiters and the rest. *)
Lemma set_event_spec (q : Z) v s :
  server_wf s → w_syncs s !! q = Some v →
  type_of (cell_idx s (ws_shm_idx v)) = INPROC_SYNC_EVENT →
  wp (wfusync_set_event (Some q))
    (λ _ s', server_wf s' ∧ w_syncs s' = w_syncs s ∧
       cell_idx s' (ws_shm_idx v) = set_low 1 (cell_idx s (ws_shm_idx v)) ∧
       (∀ w, w ∈ w_waiters s → ws_shm_idx v ∈ wt_shm_idxs w →
          c_low (cell_idx s' (wt_slot_idx w)) = 0) ∧
       (∀ p, p ≠ cell_addr (ws_shm_idx v) → type_of (cell_at s p) ≠ INPROC_SYNC_INTERNAL →
          cell_at s' p = cell_at s p)) s.
Proof.
  intros Hwf Hq Ht. destruct (live_cell s q v _ Hwf Hq Ht) as (Hs & Hf & Hm).
  pose proof (event_ops_wf s q (OpSetEvent q) Hwf) as Hev. unfold wp in *. simpl in Hev.
  specialize (Hev (ex_intro _ v (conj Hq Ht)) (or_introl eq_refl)).
  rewrite (set_event_exec s q v _ _ Hs (or_introl eq_refl) Hf) in *. cbv zeta in *.
  set (c := cell_idx s (ws_shm_idx v)) in *. set (s1 := if truth (c_low c) then _ else _) in *.
  assert (∀ p, cell_at s1 p = if decide (cell_addr (ws_shm_idx v) = p) then set_low 1 c else cell_at s p)
    as Hc1.
  { intros p. unfold s1. destruct (truth _); by rewrite ?cell_at_wake, cell_at_put. }
  assert (w_waiters s1 = w_waiters s) as Hws by (unfold s1; by destruct (truth _)).
  pose proof (so_waiters _ (sw_ok _ Hwf)) as [_ [_ Hsl _]].
  pose proof (wake_waiters_for_object_spec (ws_shm_idx v) s1) as Hwake. unfold wp in Hwake.
  destruct (wake_waiters_for_object (ws_shm_idx v) s1) as [[] s'| | |]; [|done..].
  destruct Hwake as [Hsame Hcell].
  { intros w. rewrite Hws. intros Hin. destruct (Hsl w Hin) as (_&Hmw&_).
    unfold s1. by destruct (truth _). }
  assert (∀ p, type_of (cell_at s p) ≠ INPROC_SYNC_INTERNAL →
            wakes_slot (w_waiters s) (ws_shm_idx v) p = false) as Hno.
  { intros p Hp. by apply not_a_slot. }
  split_and!; [done| |..].
  - rewrite (same_rest_syncs _ _ Hsame). unfold s1. by destruct (truth _).
  - rewrite Hcell, Hws, Hno, Hc1 by (unfold c in *; rewrite Ht; done). by rewrite decide_True.
  - intros w Hin Hi. rewrite Hcell, Hws. by rewrite (proj2 (wakes_slot_true _ _ _)) by eauto.
  - intros p Hne Hp. rewrite Hcell, Hws, Hno, Hc1 by done. by rewrite decide_False.
Qed.
End operations.

(** ** Stranded objects *)

Section stranding.
Context `{PageSize}.
Implicit Types (s : wfs) (v : wfusync) (X Y : list Z).

(** The invariant with some stranded objects; without any it is [server_wf]. *)
Definition wf_except X s : Prop := @server_wf _ X s.

Lemma wf_restrand X Y s :
  wf_except X s →
  (∀ w i, w ∈ w_waiters s → i ∈ wt_shm_idxs w → i ∈ X → i ∉ Y →
     cell_signaled (cell_idx s i) = true → c_low (cell_idx s (wt_slot_idx w)) = 0) →
  wf_except Y s.
Proof.
  intros [[[H1 [H2 H3 H4]] A1 A2 A3 A4 A5 A6 A7 A8] V] HY. split; [|done]. split; try done.
  split; [done|]. split; [done|done|]. intros w i Hw Hi Hns Hs.
  destruct (decide (i ∈ X)) as [Hx|Hx]; [by eapply HY|by eapply H4].
Qed.
Lemma wf_weaken X Y s : wf_except X s → X ⊆ Y → wf_except Y s.
Proof. intros Hwf Hsub. eapply wf_restrand; [done|]. intros w i _ _ Hx HY. by apply Hsub in Hx. Qed.
Lemma wf_signaled X s :
  wf_except X s → wf_except (filter (λ i, cell_signaled (cell_idx s i) = true) X) s.
Proof.
  intros Hwf. eapply wf_restrand; [done|]. intros w i _ _ Hx HY Hs. destruct HY. by apply list_elem_of_filter.
Qed.

Lemma signal_mutex_wf X s q tid :
  wf_except X s → op_pre s (OpSignalMutex q tid) →
  wp (run_op (OpSignalMutex q tid)) (λ _ s', wf_except (strands s q s' ++ X) s') s.
Proof.
  intros Hwf [(v & Hq & Ht) Htid]. destruct (@live_cell _ X s q v _ Hwf Hq Ht) as (Hs & Hf & Hm).
  pose proof (@mutex_value _ X s q v Hwf Hq Ht) as Hv. cbv zeta in Hv.
  assert (∀ Y s', wf_except X s' → wf_except (Y ++ X) s') as Hweak.
  { intros Y s' Hs'. eapply wf_weaken; [exact Hs'|]. set_solver. }
  set (c := cell_idx s (ws_shm_idx v)) in *. simpl. rewrite wp_bind. unfold wp at 1.
  rewrite (release_mutex_exec s q v _ tid Hs Hf). fold c. unfold tid_ok, INT_MAX in *. rewrite s32_small by lia.
  assert (wf_except X (set_err STATUS_MUTANT_NOT_OWNED s)) as Herr by (split; [apply server_ok_err, Hwf|apply Hwf]).
  destruct (Z.eqb_spec (c_low c) tid) as [E|E]; simpl; [|by apply Hweak].
  destruct (Z.eqb_spec (c_high c) 0) as [E0|E0]; [by apply Hweak|].
  destruct (Z.ltb_spec 1 (c_high c)).
  - apply Hweak, (@wf_put _ X s q); [done|done|done| |].
    + apply value_ok_mutex; [done|]. right. left. simpl. unfold INT_MAX. lia.
    + rewrite !mutex_signaled_iff by done. done.
  - set (c' := set_low 0 (set_high 0 c)). unfold strands. rewrite Hq. fold c.
    assert (cell_signaled c = false) as -> by (rewrite mutex_signaled_iff by done; apply Z.leb_gt; lia).
    rewrite wp_ret, cell_at_wake, cell_at_put_eq. assert (cell_signaled c' = true) as -> by by rewrite mutex_signaled_iff.
    simpl. assert (wf_except (ws_shm_idx v :: X) s) as Hwf' by (eapply wf_weaken; [exact Hwf|set_solver]).
    assert (wf_except (ws_shm_idx v :: X) (put_cell (cell_addr (ws_shm_idx v)) c' s)) as [Hok Hval].
    { split; [apply (@server_ok_put_stranded _ (ws_shm_idx v :: X) s q); [apply Hwf'|done|done|by left]|].
      apply (@value_ok_put _ (ws_shm_idx v :: X) s v c' Hwf'). apply value_ok_mutex; [done|]. by left. }
    split; [by apply server_ok_wake|]. intros q' v' Hq'. rewrite cell_at_wake. by apply (Hval q').
Qed.

Lemma wake_unstrands X s idx :
  wf_except X s →
  wp (run_op (OpWakeWaiters idx)) (λ _ s', wf_except (filter (λ i, i ≠ idx) X) s') s.
Proof.
  intros Hwf. simpl. pose proof (@so_waiters _ X s (@sw_ok _ X s Hwf)) as [Hr [_ Hsl _]].
  assert (wp (wfusync_wake_waiters idx) (λ _ s', wf_except X s' ∧ ∀ w, w ∈ w_waiters s' → idx ∈ wt_shm_idxs w →
    c_low (cell_idx s' (wt_slot_idx w)) = 0) s) as Hw.
  { pose proof (@wake_waiters_objects _ X s idx Hwf) as Hk. unfold wfusync_wake_waiters in *.
    rewrite wp_bind in Hk |- *. rewrite wp_get_state in Hk |- *.
    destruct (state_mapped s idx) eqn:Hm; [|rewrite wp_ret; split; [done|]; intros w Hw Hi].
    - rewrite wp_bind in Hk |- *. pose proof (wake_waiters_for_object_spec idx s) as Hspec.
      unfold wp in Hspec, Hk |- *. destruct (wake_waiters_for_object idx s) as [[] s'| | |]; [|done..].
      destruct Hspec as [Hs Hc]; [intros w Hw; by destruct (Hsl w Hw) as (_&?&_)|]. simpl in *. split; [apply Hk|].
      intros w. rewrite (same_rest_waiters _ _ Hs). intros Hw Hi. rewrite Hc.
      by rewrite (proj2 (wakes_slot_true _ _ _)) by eauto.
    - destruct (reg_idx _ _ Hr idx) as (_ & Hm' & _); [|congruence].
      apply list_elem_of_join. exists (wt_shm_idxs w). split; [done|]. apply list_elem_of_fmap. eauto. }
  rewrite wp_bind. eapply wp_mono; [exact Hw|]. intros ok s' [Hwf' Hawake]. rewrite wp_ret.
  eapply wf_restrand; [exact Hwf'|]. intros w i Hw' Hi Hx HY _. destruct (decide (i = idx)) as [->|Hne]; [by apply Hawake|].
  destruct HY. by apply list_elem_of_filter.
Qed.

Lemma op_keeps X s o :
  wf_except X s → op_pre s o → wp (run_op o) (λ _ s', wf_except (stranded_after o s X s') s') s.
Proof.
  intros Hwf Hpre. unfold stranded_after.
  assert (∀ (f : wfs → list Z), wp (run_op o) (λ _ s', wf_except (f s') s') s →
    wp (run_op o) (λ _ s', wf_except (filter (λ i, cell_signaled (cell_idx s' i) = true) (f s')) s') s) as Hprune.
  { intros f Hw. eapply wp_mono; [exact Hw|]. intros [] s' Hs'. by apply wf_signaled. }
  apply (Hprune (λ s', match o with OpSignalMutex q _ => strands s q s' ++ X
    | OpWakeWaiters idx => filter (λ i, i ≠ idx) X | _ => X end)). clear Hprune.
  destruct (wakes_waiters o) eqn:Ew; [|destruct o; try done; by apply signal_mutex_wf].
  pose proof (@op_keeps_wf _ X s o Ew Hwf Hpre) as Hk. destruct o; try exact Hk; [done|by apply wake_unstrands].
Qed.

Lemma history_wf X s Y s' : wf_except X s → history X s Y s' → wf_except Y s'.
Proof.
  intros Hwf Hr. induction Hr as [X s|X s o s1 Y s2 Hpre Hrun _ IH]; [done|]. apply IH.
  pose proof (op_keeps X s o Hwf Hpre) as H1. unfold wp in H1. by rewrite Hrun in H1.
Qed.
Lemma history_signaled X s Y s' :
  (∀ i, i ∈ X → cell_signaled (cell_idx s i) = true) → history X s Y s' →
  ∀ i, i ∈ Y → cell_signaled (cell_idx s' i) = true.
Proof.
  intros HX Hr. induction Hr as [X s|X s o s1 Y s2 _ _ _ IH]; [done|]. apply IH.
  intros i Hi. by apply list_elem_of_filter in Hi as [? _].
Qed.
Lemma reachable_wf s s' : server_wf s → reachable s s' → server_wf s'.
Proof. apply history_wf. Qed.
End stranding.
