(* ===== verification/WfusyncPending.v ===== *)
(** * While an object has not woken its waiters

    After src/server/semaphore.c and mutex.c have made an object with a cell available,
    they wake the threads that wait in the server first and the waiters that clients have
    registered afterwards. In between, the invariant of WfusyncServerInv.v holds but for
    that one object; the operations that run meanwhile keep it. *)

From S2P Require Import Prelude.
From S2P Require Import ShmState.
From S2P Require Import ShmGuard.
From S2P Require Import WfusyncServer.
From S2P Require Import WfusyncServerOps.
From S2P Require Import WfusyncRegistry.
From S2P Require Import WfusyncWake.
From S2P Require Import WfusyncServerInv.
From S2P Require Import WfusyncHistory.

(** The index of the object that has not woken its waiters yet, if there is one. *)
Class Pending := pending : option Z.

Section pending.
Context `{PageSize}.
Implicit Types (s : wfs) (v : wfusync).

(** Everything of [server_ok] that is not about waiters. *)
Record cells_ok s : Prop := {
  cl_range : 1 ≤ w_next_shm_idx s < 2 ^ 31;
  cl_sync : ∀ q v, w_syncs s !! q = Some v → live_sync s v;
  cl_inj : ∀ q q' v v', w_syncs s !! q = Some v → w_syncs s !! q' = Some v' →
    ws_shm_idx v = ws_shm_idx v' → q = q';
  cl_key : ∀ q, is_Some (w_syncs s !! q) → q < w_next_sync s;
  cl_slot : ∀ w, w ∈ w_waiters s → wt_slot_idx w < w_next_shm_idx s;
  cl_registered : ∀ idx, idx ∈ registered s → idx < w_next_shm_idx s;
  cl_fresh : ∀ idx, w_next_shm_idx s ≤ idx < 2 ^ 32 → type_of (cell_idx s idx) = INPROC_SYNC_UNKNOWN;
  cl_pages : w_pages_count s = 0 ∨ ∃ k, w_pages_count s = 2 ^ k ∧ 4 ≤ k ≤ 31 }.

(** The registry, and that all objects but [pending] have woken their waiters. *)
Record registry_ok `{PD : Pending} s : Prop := {
  rg_reg : reg_inv (registered s) s;
  rg_nodup : NoDup (wt_slot_idx <$> w_waiters s);
  rg_slot : ∀ w, w ∈ w_waiters s → slot_ok s (wt_slot_idx w);
  rg_woken : ∀ w i, w ∈ w_waiters s → i ∈ wt_shm_idxs w → pending ≠ Some i →
    cell_signaled (cell_idx s i) = true → c_low (cell_idx s (wt_slot_idx w)) = 0 }.

Definition values_ok s : Prop := ∀ q v, w_syncs s !! q = Some v → value_ok (cell_idx s (ws_shm_idx v)).

Record wf_but `{PD : Pending} s : Prop := {
  wb_cells : cells_ok s;
  wb_registry : registry_ok s;
  wb_values : values_ok s }.

Lemma wf_but_none s : @wf_but None s ↔ server_wf s.
Proof.
  split.
  - intros [[C1 C2 C3 C4 C5 C6 C7 C8] [R1 R2 R3 R4] V]. split; [|done]. split; try done.
    split; [done|]. split; [done|done|]. intros w i Hw Hi _. by apply (R4 w i).
  - intros [[[R1 [R2 R3 R4]] C1 C2 C3 C4 C5 C6 C7 C8] V]. split; [done| |done]. split; try done.
    intros w i Hw Hi _. apply (R4 w i Hw Hi), not_elem_of_nil.
Qed.

Lemma wf_but_weaken `{PD : Pending} s : server_wf s → wf_but s.
Proof.
  intros Hwf. apply wf_but_none in Hwf as [HC [R1 R2 R3 R4] V]. split; [done| |done]. split; [done..|].
  intros w i Hw Hi _. by apply (R4 w i).
Qed.
(** Waking the pending object's waiters. *)
Lemma wf_but_wake s idx :
  @wf_but (Some idx) s →
  wp (wake_waiters_for_object idx) (λ _ s', server_wf s' ∧ same_rest s s' ∧
    ∀ p, type_of (cell_at s p) ≠ INPROC_SYNC_INTERNAL → cell_at s' p = cell_at s p) s.
Proof.
  intros [[C1 C2 C3 C4 C5 C6 C7 C8] [R1 R2 R3 R4] V].
  assert (almost_ok idx s) as Ha.
  { split; [done..|]. intros w i Hw Hi Hne _. apply (R4 w i Hw Hi). unfold pending. congruence. }
  eapply wp_mono; [by apply wp_conj; [apply wake_restores|apply wake_waiters_for_object_spec;
    intros w Hin; apply R3]|].
  intros [] s' [(Hws & Hs & Hobj) [_ Hcell]].
  assert (∀ p, type_of (cell_at s' p) = type_of (cell_at s p) ∧ c_refcount (cell_at s' p) = c_refcount (cell_at s p) ∧
    has_flag (cell_at s' p) WFUSYNC_STATE_LOCKED = has_flag (cell_at s p) WFUSYNC_STATE_LOCKED) as Hk.
  { intros p. rewrite Hcell. by destruct (wakes_slot _ _ _). }
  split_and!; [|done|done]. split.
  - rewrite Hs. split; try done.
    + rewrite <- Hs. done.
    + intros q v Hq. destruct (C2 q v Hq) as [I1 I2 I3 I4 I5]. rewrite <- Hs.
      split; rewrite ?(proj1 (Hk _)), ?(proj1 (proj2 (Hk _))), ?(proj2 (proj2 (Hk _))); try done; by rewrite Hs.
    + intros i Hi. rewrite <- Hs, (proj1 (Hk _)). by apply C7.
  - intros q v Hq. rewrite (same_rest_syncs _ _ Hs) in Hq. destruct (C2 q v Hq) as [_ _ _ Hty _].
    rewrite Hobj by by apply waitable_not_internal. by eapply V.
Qed.
End pending.

Section operations.
Context `{PageSize} `{PD : Pending}.
Implicit Types (s : wfs) (v : wfusync).

Lemma wf_but_live s q v ty :
  wf_but s → w_syncs s !! q = Some v → type_of (cell_idx s (ws_shm_idx v)) = ty →
  sync_cell s q v (cell_addr (ws_shm_idx v)) ∧ free_cell (cell_idx s (ws_shm_idx v)) ty.
Proof.
  intros [[C1 C2 _ _ _ _ _ _] _ _] Hq <-. destruct (C2 q v Hq) as [I1 I2 I3 I4 I5]. by split; split.
Qed.

Lemma live_addr_ne s q q' v v' :
  cells_ok s → w_syncs s !! q = Some v → w_syncs s !! q' = Some v' → q ≠ q' →
  cell_addr (ws_shm_idx v) ≠ cell_addr (ws_shm_idx v').
Proof.
  intros [C1 C2 C3 _ _ _ _ _] Hq Hq' Hne E. destruct (C2 q v Hq) as [I1 _ _ _ _], (C2 q' v' Hq') as [J1 _ _ _ _].
  apply cell_addr_inj in E; [|lia|lia]. apply Hne. by eapply C3.
Qed.

Lemma cells_ok_kinds s s' :
  kinds_ok s s' → w_waiters s' = w_waiters s → cells_ok s → cells_ok s'.
Proof.
  intros [R1 R2 R3 R4 R5 R6] Hw [C1 C2 C3 C4 C5 C6 C7 C8].
  assert (∀ p, type_of (cell_at s' p) = type_of (cell_at s p)) as Ht by apply R6.
  split; unfold registered in *; rewrite ?R1, ?R2, ?R3, ?R5, ?Hw; try done.
  - intros q v Hq. destruct (C2 q v Hq) as [I1 I2 I3 I4 I5].
    split; rewrite ?R1, ?R4, ?Ht, ?(proj1 (proj2 (R6 _))), ?(proj2 (proj2 (R6 _))); done.
  - intros idx Hi. rewrite Ht. by apply C7.
Qed.

Lemma wf_but_add_wake s p all : wf_but s → wf_but (add_wake p all s).
Proof.
  intros [HC [R1 R2 R3 R4] V]. split.
  { apply (cells_ok_kinds s); [|done|exact HC]. split; try done; intros q; by rewrite cell_at_wake. }
  2:{ intros q v Hq. rewrite cell_at_wake. by apply (V q). }
  split; [by apply reg_inv_wake|done|..].
  - intros w Hw. destruct (R3 w Hw) as (?&?&?). split_and!; [lia|lia|done|by rewrite cell_at_wake].
  - intros w i. rewrite !cell_at_wake. apply R4.
Qed.

(** Writing to the cell of a live object, which is the pending one if that signals it. *)
Lemma wf_but_store s q v c :
  wf_but s → w_syncs s !! q = Some v → same_word (cell_idx s (ws_shm_idx v)) c → value_ok c →
  (pending ≠ Some (ws_shm_idx v) → cell_signaled c = true →
     cell_signaled (cell_idx s (ws_shm_idx v)) = true) →
  wf_but (put_cell (cell_addr (ws_shm_idx v)) c s).
Proof.
  intros [HC [R1 R2 R3 R4] V] Hq Hc Hval Hsig. pose proof (cl_range _ HC) as Hr.
  destruct (cl_sync _ HC q v Hq) as [I1 I2 I3 I4 I5]. split.
  - eapply cells_ok_kinds; [by apply kinds_ok_put, same_word_kind|done|done].
  - split; [by apply reg_inv_put; [apply Hc|]|done| |].
    + intros w Hin. apply slot_ok_put; [apply Hc|by apply R3].
    + intros w i Hin Hi Hne. simpl in Hin. intros Hs.
      assert (cell_signaled (cell_idx s i) = true) as Hs'.
      { rewrite cell_at_put in Hs. case_decide as E; [|done]. rewrite <- E. apply Hsig; [|done].
        destruct (reg_idx _ _ R1 i) as (Hi' & _); [apply list_elem_of_join; eexists; split; [done|by apply list_elem_of_fmap_2]|].
        apply cell_addr_inj in E; [congruence|lia..]. }
      rewrite cell_at_put. case_decide as E; [|by eapply R4].
      exfalso. destruct (R3 w Hin) as (_ & _ & Hint). rewrite <- E in Hint.
      by apply (waitable_not_internal _ I4).
  - intros q' v' Hq'. rewrite cell_at_put. case_decide; [done|]. by eapply V.
Qed.
Lemma wf_but_put s q v c :
  wf_but s → w_syncs s !! q = Some v → same_word (cell_idx s (ws_shm_idx v)) c → value_ok c →
  (cell_signaled c = true → cell_signaled (cell_idx s (ws_shm_idx v)) = true) →
  wf_but (put_cell (cell_addr (ws_shm_idx v)) c s).
Proof. intros Hwf Hq Hc Hval Hsig. apply (wf_but_store s q); [done..|by intros _]. Qed.

Lemma wf_but_set_waiters s q v n :
  wf_but s → w_syncs s !! q = Some v →
  wf_but (set_syncs (<[q := Wfusync (ws_shm_idx v) n]> (w_syncs s)) (w_next_sync s) s).
Proof.
  intros [[C1 C2 C3 C4 C5 C6 C7 C8] [[] R2 R3 R4] V] Hq.
  assert (∀ q' v', <[q := Wfusync (ws_shm_idx v) n]> (w_syncs s) !! q' = Some v' →
            ∃ v0, w_syncs s !! q' = Some v0 ∧ ws_shm_idx v0 = ws_shm_idx v') as Hold.
  { intros q' v'. rewrite lookup_insert. case_decide; [|eauto]. intros [= <-]. subst. eauto. }
  split; [split; try done|by split|].
  - intros q' v' Hq'. destruct (Hold q' v' Hq') as (v0 & Hv0 & E).
    destruct (C2 q' v0 Hv0) as [J1 J2 J3 J4 J5]. rewrite E in *. by split.
  - intros q1 q2 v1 v2 Hq1 Hq2 E. destruct (Hold _ _ Hq1) as (? & ? & ?).
    destruct (Hold _ _ Hq2) as (? & ? & ?). eapply C3; [done|done|congruence].
  - intros q' [v' Hq']. destruct (Hold _ _ Hq') as (? & ? & ?). apply C4. eauto.
  - intros q' v' Hq'. destruct (Hold _ _ Hq') as (v0 & Hv0 & E). autorewrite with shm_db. rewrite <- E.
    by eapply V.
Qed.

(** Changing the flag that says that threads wait in the server. *)
Lemma wf_but_flags s idx t :
  wf_but s → let c := cell_idx s idx in
  type_of (set_type t c) = type_of c →
  has_flag (set_type t c) WFUSYNC_STATE_LOCKED = has_flag c WFUSYNC_STATE_LOCKED →
  has_flag (set_type t c) WFUSYNC_MULTI_WAITERS = has_flag c WFUSYNC_MULTI_WAITERS →
  wf_but (put_cell (cell_addr idx) (set_type t c) s).
Proof.
  intros [HC [[H1 H2 H3 H4 H5] R2 R3 R4] V] c Ht Hl Hm.
  assert (frame s (put_cell (cell_addr idx) (set_type t c) s)) as F by by apply frame_type_word.
  split.
  - eapply cells_ok_kinds; [apply kinds_ok_put; by split_and!|done|done].
  - split; [split; try done|done| |].
    + intros i Hi. rewrite cell_at_put. case_decide as E; [|by apply H3].
      rewrite Ht, Hm. unfold c. rewrite E. by apply H3.
    + intros w Hin. destruct (R3 w Hin) as (?&?&?). split_and!; [lia|lia|done|by rewrite (fr_type _ _ F)].
    + intros w i Hin Hi Hne. rewrite (frame_signaled _ _ _ F), (fr_low _ _ F). by apply R4.
  - intros q v Hq. eapply value_ok_same; [|by eapply V]. by rewrite (fr_type _ _ F), (fr_low _ _ F), (fr_high _ _ F).
Qed.

Lemma remove_waiter_wf_but s q v :
  wf_but s → w_syncs s !! q = Some v → 0 < ws_server_waiters v →
  wp (wfusync_remove_server_waiter (Some q))
    (λ _ s', wf_but s' ∧ w_syncs s' = <[q := Wfusync (ws_shm_idx v) (ws_server_waiters v - 1)]> (w_syncs s) ∧
       values_but None s s') s.
Proof.
  intros Hwf Hq Hn. destruct (wf_but_live s q v _ Hwf Hq eq_refl) as [Hs _].
  assert (wp (wfusync_remove_server_waiter (Some q)) (λ _ s', wf_but s' ∧
    w_syncs s' = <[q := Wfusync (ws_shm_idx v) (ws_server_waiters v - 1)]> (w_syncs s)) s) as Hw.
  { unfold wfusync_remove_server_waiter, put_sync.
    wp_run ltac:(first [rewrite (wp_sync_state _ _ _ _ _ Hs)]).
    rewrite (proj2 (Z.eqb_neq (ws_server_waiters v) 0)) by lia. wp_run idtac.
    pose proof (wf_but_set_waiters s q v (ws_server_waiters v - 1) Hwf Hq) as Hwf1.
    destruct (truth (ws_server_waiters v - 1)); [by rewrite wp_ret|].
    unfold fetch_and_type. rewrite wp_st. split; [|done]. rewrite server_pow.
    apply (wf_but_flags _ (ws_shm_idx v)); [done|..]; autorewrite with shm_db.
    - apply type_of_clear_flag. unfold is_flag. lia.
    - rewrite locked_pow. apply flag_clear_other; lia.
    - rewrite multi_pow. apply flag_clear_other; lia. }
  eapply wp_mono; [apply (wp_keeps (values_but None)); [exact Hw|apply values_server_waiter]|].
  intros [] s' [[? ?] ?]. done.
Qed.

(** Destroying an object retires its cell. *)
Lemma destroy_wf_but s q v :
  wf_but s → w_syncs s !! q = Some v →
  wp (wfusync_destroy (Some q)) (λ _ s', wf_but s' ∧ w_syncs s' = delete q (w_syncs s) ∧
    ∀ q' v', q' ≠ q → w_syncs s !! q' = Some v' → cell_idx s' (ws_shm_idx v') = cell_idx s (ws_shm_idx v')) s.
Proof.
  intros Hwf Hq. destruct Hwf as [HC [[A1 A2 A3 A4 A5] R2 R3 R4] V]. pose proof HC as [C1 C2 C3 C4 C5 C6 C7 C8].
  destruct (C2 q v Hq) as [I1 I2 I3 I4 I5].
  assert (sync_cell s q v (cell_addr (ws_shm_idx v))) as Hs by by split.
  unfold wfusync_destroy, take_generation.
  wp_run ltac:(first [rewrite (wp_sync_state _ _ _ _ _ Hs) | rewrite wp_ld | rewrite wp_st]).
  split; [unfold truth; rewrite (proj2 (Z.eqb_neq _ _)) by lia; done|].
  wp_run ltac:(first [rewrite wp_ld | rewrite wp_st]). autorewrite with shm_db.
  match goal with |- context [set_refcount ?n ?x] => set (c := set_refcount n x) end.
  assert (∀ i, 0 ≤ i < 2 ^ 32 → i ≠ ws_shm_idx v →
    cell_idx (put_cell (cell_addr (ws_shm_idx v)) c s) i = cell_idx s i) as Hne.
  { intros i ? ?. apply cell_at_put_ne. intros E. apply cell_addr_inj in E; [by subst|lia|lia]. }
  assert (cell_idx (put_cell (cell_addr (ws_shm_idx v)) c s) (ws_shm_idx v) = c) as Heq
    by by rewrite cell_at_put_eq.
  assert (∀ q' v', q' ≠ q → w_syncs s !! q' = Some v' → ws_shm_idx v' ≠ ws_shm_idx v ∧ 0 ≤ ws_shm_idx v' < 2 ^ 32)
    as Hother.
  { intros q' v' Hq'q Hq'. destruct (C2 q' v' Hq') as [J1 _ _ _ _]. split; [|lia]. intros E. apply Hq'q. by eapply C3. }
  assert (∀ w, w ∈ w_waiters s → wt_slot_idx w ≠ ws_shm_idx v) as Hslot.
  { intros w Hin E. destruct (R3 w Hin) as (_ & _ & Ht). rewrite E in Ht. by apply waitable_not_internal in I4. }
  split_and!; [|done|].
  - split; [split; try done|split; [split; try done|done|..]|]; simpl; autorewrite with shm_db.
    + intros q' v' [Hqq Hq']%lookup_delete_Some. destruct (Hother q' v') as [? ?]; [done..|].
      destruct (C2 q' v' Hq') as [J1 J2 J3 J4 J5]. split; autorewrite with shm_db; rewrite ?Hne by done; done.
    + intros q1 q2 v1 v2. rewrite !lookup_delete_Some. intros [_ ?] [_ ?]. by eapply C3.
    + intros q' [v' Hq']. apply lookup_delete_Some in Hq' as [_ Hq']. apply C4. eauto.
    + intros i Hi. autorewrite with shm_db. rewrite Hne by lia. by apply C7.
    + intros i Hi. autorewrite with shm_db. destruct (decide (i = ws_shm_idx v)) as [->|?].
      * by rewrite Heq.
      * rewrite Hne by done. by apply A3.
    + intros w Hin. destruct (R3 w Hin) as (?&?&?). split_and!; [lia|lia|done|].
      autorewrite with shm_db. rewrite Hne; auto.
    + intros w i Hin Hi Hp. autorewrite with shm_db. simpl in Hin.
      assert (i ∈ registered s) as Hreg.
      { apply list_elem_of_join. exists (wt_shm_idxs w). split; [done|]. apply list_elem_of_fmap. eauto. }
      destruct (A2 i Hreg) as (?&_&_). destruct (R3 w Hin) as (?&_&_).
      rewrite (Hne (wt_slot_idx w)) by auto. destruct (decide (i = ws_shm_idx v)) as [->|?].
      * by rewrite Heq.
      * rewrite Hne by done. by apply R4.
    + intros q' v' Hq'. simpl in Hq'. apply lookup_delete_Some in Hq' as [Hqq Hq'].
      destruct (Hother q' v') as [? ?]; [done..|]. autorewrite with shm_db. rewrite Hne by done. by eapply V.
  - intros q' v' Hqq Hq'. autorewrite with shm_db. destruct (Hother q' v'); [done..|]. by rewrite Hne.
Qed.

(** ** The stores of the [satisfied] methods *)

Section stores.
Context (s : wfs) (q : Z) (v : wfusync).
Context (Hwf : wf_but s) (Hq : w_syncs s !! q = Some v).
Notation c := (cell_idx s (ws_shm_idx v)).
Notation store x := (put_cell (cell_addr (ws_shm_idx v)) x s).

Lemma event_low_wf : type_of c = INPROC_SYNC_EVENT → wf_but (store (set_low 0 c)).
Proof using Hwf Hq.
  intros Ht. apply (wf_but_put s q); [done|done|done|by apply value_ok_event|].
  unfold cell_signaled. change (type_of (set_low 0 c)) with (type_of c). by rewrite Ht.
Qed.

Lemma semaphore_low_wf :
  type_of c = INPROC_SYNC_SEMAPHORE → 0 < c_low c → wf_but (store (set_low (c_low c - 1) c)).
Proof using Hwf Hq.
  intros Ht Hpos. destruct (wb_values _ Hwf q v Hq) as [Hv _]. specialize (Hv Ht).
  apply (wf_but_put s q); [done|done|done| |].
  - split; [|by change (type_of (set_low (c_low c - 1) c)) with (type_of c); rewrite Ht].
    intros _. simpl. lia.
  - intros _. unfold cell_signaled. rewrite Ht. simpl. by apply Z.ltb_lt.
Qed.

Lemma mutex_again_wf :
  type_of c = INPROC_SYNC_MUTEX → 0 < c_low c → c_high c < INT_MAX →
  wf_but (store (set_high (c_high c + 1) c)).
Proof using Hwf Hq.
  intros Ht Hl Hh. destruct (wb_values _ Hwf q v Hq) as [_ Hv]. specialize (Hv Ht).
  apply (wf_but_put s q); [done|done|done| |].
  - apply value_ok_mutex; [done|]. right. left. simpl. lia.
  - rewrite (mutex_signaled_iff (set_high _ _)) by done. simpl. intros Hs%Z.leb_le. lia.
Qed.

Lemma mutex_take_wf tid g :
  type_of c = INPROC_SYNC_MUTEX → tid_ok tid → c_low c ≤ 0 →
  wf_but (store (set_high 1 (set_low tid (set_generation g c)))) ∧
  wf_but (store (set_high 1 (set_low tid c))).
Proof using Hwf Hq.
  intros Ht Htid Hl. unfold tid_ok in Htid.
  split; (apply (wf_but_put s q); [done|done|done|apply value_ok_mutex; [done|]; right; left; simpl; unfold INT_MAX in *; lia|]).
  all: intros _; rewrite mutex_signaled_iff by done; by apply Z.leb_le.
Qed.
End stores.
End operations.
