(* ===== verification/WfusyncServerSpec.v ===== *)
(** * What the server side of WFUSync guarantees

    The theorems about src/server/wfusync.c, with witnesses on a concrete history that
    starts from the static initialisers of the file. *)

From S2P Require Import Prelude.
From S2P Require Import ShmState.
From S2P Require Import ShmGuard.
From S2P Require Import WfusyncServer.
From S2P Require Import WfusyncServerOps.
From S2P Require Import WfusyncRegistry.
From S2P Require Import WfusyncWake.
From S2P Require Import WfusyncServerInv.
From S2P Require Import WfusyncHistory.

(** The static variables before the first request; the error code of a request starts
    as success. *)
Definition initial_state (enabled : bool) : wfs :=
  Wfs (Shm ∅ []) ∅ 0 1 1 (-1) ∅ 0 [] ∅ 0 enabled [] STATUS_SUCCESS.

Section initial.
Context `{PageSize}.

Lemma no_initial_sync enabled (q : Z) v : w_syncs (initial_state enabled) !! q ≠ Some v.
Proof. change ((∅ : gmap Z wfusync) !! q ≠ Some v). by rewrite lookup_empty. Qed.

Lemma initial_wf enabled : server_wf (initial_state enabled).
Proof.
  split; [split; [split; [split|split]|..]|]; try (by intros q v Hq%no_initial_sync);
    simpl; try done; try lia; try (by intros ? ?%elem_of_nil); try (by left).
  intros q [v Hq]. by apply (no_initial_sync enabled) in Hq.
Qed.
End initial.

(** ** A concrete history *)

#[local] Instance page_4096 : PageSize.
Proof. refine {| page_size := 4096 |}; [lia|by exists 256]. Defined.

(** An auto-reset event, a semaphore, a free mutex and a wait slot, with cells 1 to 4. *)
Definition demo_setup : list server_op :=
  [OpCreate 0 0 INPROC_SYNC_EVENT; OpCreate 0 5 INPROC_SYNC_SEMAPHORE;
   OpCreate 0 0 INPROC_SYNC_MUTEX; OpGetSlot].
(** The slot waits for the event and the semaphore; then the semaphore is released. *)
Definition demo_wait : list server_op := [OpRegister 4 [1; 2]; OpReleaseSemaphore 1 2].

Fixpoint run_ops (l : list server_op) (s : wfs) : wfs :=
  match l with
  | [] => s
  | o :: l => match run_op o s with Done _ s' => run_ops l s' | _ => s end
  end.

Definition demo : wfs := Eval vm_compute in run_ops demo_setup (initial_state true).
Definition demo_registered : wfs := Eval vm_compute in run_ops [OpRegister 4 [1; 2]] demo.
Definition demo_released : wfs := Eval vm_compute in run_ops [OpReleaseSemaphore 1 2] demo_registered.

Lemma demo_pre_create low high type s :
  w_next_shm_idx s <? 100 = true → is_waitable_type type = true →
  0 ≤ low ≤ high → high ≤ 100 → (type = INPROC_SYNC_MUTEX → low = 0 ∧ high = 0) →
  op_pre s (OpCreate low high type).
Proof.
  intros Hn%Z.ltb_lt Hty Hl Hh Hm. destruct (waitable_const _ Hty) as (_ & E & _).
  assert (type_of (Cell low high 0 type 1) = type) as Ht by exact E.
  split; [lia|]. split; [done|]. split; [lia|]. split; [lia|].
  split; rewrite Ht; unfold INT_MAX; cbn [c_low c_high].
  - intros _. lia.
  - intros ?%Hm. by left.
Qed.

Ltac demo_step o := eapply (reach_step _ o); [ | vm_compute; reflexivity | ].

Lemma demo_reachable : reachable (initial_state true) demo.
Proof.
  demo_step (OpCreate 0 0 INPROC_SYNC_EVENT); [by apply demo_pre_create|].
  demo_step (OpCreate 0 5 INPROC_SYNC_SEMAPHORE); [by apply demo_pre_create|].
  demo_step (OpCreate 0 0 INPROC_SYNC_MUTEX); [by apply demo_pre_create|].
  demo_step OpGetSlot; [done|]. apply reach_refl.
Qed.

Lemma demo_wf : server_wf demo.
Proof. eapply reachable_wf; [apply (initial_wf true)|apply demo_reachable]. Qed.

Lemma demo_registered_reachable : reachable demo demo_registered.
Proof.
  demo_step (OpRegister 4 [1; 2]); [|apply reach_refl].
  split; [done|]. split; [|done]. intros idx Hin. repeat (apply elem_of_cons in Hin as [->|Hin]; [lia|]).
  by apply elem_of_nil in Hin.
Qed.

Lemma demo_registered_wf : server_wf demo_registered.
Proof. eapply reachable_wf; [apply demo_wf|apply demo_registered_reachable]. Qed.

Lemma demo_released_reachable : reachable demo demo_released.
Proof.
  demo_step (OpRegister 4 [1; 2]).
  { split; [done|]. split; [|done]. intros idx Hin.
    repeat (apply elem_of_cons in Hin as [->|Hin]; [lia|]). by apply elem_of_nil in Hin. }
  demo_step (OpReleaseSemaphore 1 2); [|apply reach_refl].
  split; [|lia]. exists (Wfusync 2 0). by split.
Qed.

Lemma demo_sync q v : w_syncs demo !! q = Some v → live_sync demo v.
Proof. apply (so_sync _ (sw_ok _ demo_wf)). Qed.

(** ** The theorems *)

Section theorems.
Context `{PageSize}.
Implicit Types (s : wfs) (v : wfusync) (w : wfusync_waiter).

(** C5: Whatever sequence of operations the server performs from a good state, the releases by
    SignalObjectAndWait among them, no registered multi-object waiter is left asleep on a
    signaled object, unless it is one of the objects [Y] that such a release made available
    (it does not wake the registered waiters) and that has since stayed signaled and not been
    woken on request: the set the history accumulates, all of them signaled and none without
    such a release. In every case the waiter counts are the multiplicities in the registry,
    the MULTI_WAITERS bit of an object says whether it is registered, live objects never
    share a cell, and every object holds a legal value. *)
Theorem history_safe s Y s' :
  server_wf s → history [] s Y s' →
  (∀ w idx, w ∈ w_waiters s' → idx ∈ wt_shm_idxs w → idx ∉ Y →
     cell_signaled (cell_idx s' idx) = true → c_low (cell_idx s' (wt_slot_idx w)) = 0) ∧
  (∀ idx, idx ∈ Y → cell_signaled (cell_idx s' idx) = true) ∧
  (∀ idx, mw_count s' idx = occ idx (registered s')) ∧
  (∀ q v, w_syncs s' !! q = Some v →
     has_flag (cell_idx s' (ws_shm_idx v)) WFUSYNC_MULTI_WAITERS =
       bool_decide (ws_shm_idx v ∈ registered s') ∧
     value_ok (cell_idx s' (ws_shm_idx v))) ∧
  (∀ q q' v v', w_syncs s' !! q = Some v → w_syncs s' !! q' = Some v' → q ≠ q' →
     cell_addr (ws_shm_idx v) ≠ cell_addr (ws_shm_idx v')).
Proof.
  intros Hwf Hr. pose proof (history_wf _ _ _ _ Hwf Hr) as [Hok Hval].
  pose proof (@so_range _ Y _ Hok). destruct (@so_waiters _ Y _ Hok) as [[H1 H2 H3 H4 H5] [Hnd Hsl Hw]].
  split_and!; [done| |done| |].
  - eapply history_signaled; [|exact Hr]. by intros i ?%elem_of_nil.
  - intros q v Hq. split; [|by eapply Hval]. destruct (@so_sync _ Y _ Hok q v Hq) as [I1 I2 I3 I4 I5].
    rewrite H3 by (done || lia). apply bool_decide_ext, occ_pos.
  - intros q q' v v' Hq Hq' Hne E. destruct (@so_sync _ Y _ Hok q v Hq), (@so_sync _ Y _ Hok q' v' Hq').
    apply cell_addr_inj in E; [|lia|lia]. apply Hne. by eapply (@so_inj _ Y _ Hok).
Qed.

(** C6: Every operation whose precondition holds runs to completion: no assertion
    fails, no lock is waited for and no loop exceeds its bound, whatever the system
    calls answer; and it keeps the server's invariant, also in a state where mutexes that
    SignalObjectAndWait released have not woken their waiters, up to the set of those. *)
Theorem operation_completes X s o :
  wf_except X s → op_pre s o →
  ∃ s', run_op o s = Done tt s' ∧ wf_except (stranded_after o s X s') s' ∧
    (X = [] → wakes_waiters o = true → server_wf s').
Proof.
  intros Hwf Hpre. pose proof (op_keeps X s o Hwf Hpre) as Hw.
  apply wp_done in Hw as ([] & s' & Hrun & Hs'). exists s'. split_and!; [done..|]. intros -> Ew.
  pose proof (@op_keeps_wf _ [] s o Ew Hwf Hpre) as Hk. unfold wp in Hk. by rewrite Hrun in Hk.
Qed.

(** C10: A registration either is accepted, and then the slot is asleep exactly when
    none of its objects is signaled, the slot's old record is replaced and the other
    records are kept; or it is refused, and then either nothing changed or the slot is
    awake and has no record left. *)
Theorem register_wait_correct slot_idx idxs s :
  server_wf s → op_pre s (OpRegister slot_idx idxs) →
  wp (wfusync_register_wait slot_idx idxs)
    (λ ok s', server_wf s' ∧
       if ok then
         w_waiters s' = Waiter slot_idx idxs :: filter (other_slot slot_idx) (w_waiters s) ∧
         (c_low (cell_idx s' slot_idx) =
            if existsb (λ idx, cell_signaled (cell_idx s' idx)) idxs then 0 else 1)
       else s' = s ∨
         w_waiters s' = filter (other_slot slot_idx) (w_waiters s) ∧
         c_low (cell_idx s' slot_idx) = 0) s.
Proof.
  intros Hwf Hpre. pose proof (register_wf s slot_idx idxs Hwf Hpre) as Hw.
  destruct Hpre as (Hs & Hi & Hl).
  pose proof (server_ok_register slot_idx idxs s (sw_ok _ Hwf) Hs Hi Hl) as Hreg.
  unfold wp in *. simpl in Hw. unfold mbind, M_bind in Hw.
  destruct (wfusync_register_wait slot_idx idxs s) as [ok s'| | |]; [|done..].
  split; [done|]. destruct Hreg as [_ Hreg].
  destruct ok; [split; apply Hreg|]. destruct Hreg as [->|Hreg]; [by left|right; split; apply Hreg].
Qed.

(** Setting an event from the server stores the signal, wakes every waiter that is
    registered for it, and touches no other object. *)
Theorem set_event_wakes q v s :
  server_wf s → w_syncs s !! q = Some v →
  type_of (cell_idx s (ws_shm_idx v)) = INPROC_SYNC_EVENT →
  wp (wfusync_set_event (Some q))
    (λ _ s', server_wf s' ∧
       cell_idx s' (ws_shm_idx v) = set_low 1 (cell_idx s (ws_shm_idx v)) ∧
       (∀ w, w ∈ w_waiters s → ws_shm_idx v ∈ wt_shm_idxs w →
          c_low (cell_idx s' (wt_slot_idx w)) = 0) ∧
       (∀ p, p ≠ cell_addr (ws_shm_idx v) → type_of (cell_at s p) ≠ INPROC_SYNC_INTERNAL →
          cell_at s' p = cell_at s p)) s.
Proof.
  intros Hwf Hq Ht. eapply wp_mono; [by eapply set_event_spec|].
  intros [] s' (H1 & _ & H2 & H3 & H4). done.
Qed.

(** Creating an object either yields a new pointer to a cell no other object uses,
    holding the requested values and one reference, or leaves the objects as they were;
    existing objects keep their cells. *)
Theorem create_fresh low high type s :
  server_wf s → op_pre s (OpCreate low high type) →
  wp (create_wfusync low high type)
    (λ r s', server_wf s' ∧
       (∀ q v, w_syncs s !! q = Some v → cell_idx s' (ws_shm_idx v) = cell_idx s (ws_shm_idx v)) ∧
       match r with
       | None => w_syncs s' = w_syncs s
       | Some q => w_syncs s !! q = None ∧ ∃ v, w_syncs s' = <[q := v]> (w_syncs s) ∧
           (∀ q' v', w_syncs s !! q' = Some v' → ws_shm_idx v' ≠ ws_shm_idx v) ∧
           let c := cell_idx s' (ws_shm_idx v) in
           c_low c = low ∧ c_high c = high ∧ c_type c = type ∧ c_refcount c = 1
       end) s.
Proof.
  intros Hwf Hpre. pose proof (create_wf s low high type Hwf Hpre) as Hw.
  destruct Hpre as (Hn & Hty & Hl & Hh & _).
  pose proof (create_wfusync_spec low high type s (sw_ok _ Hwf) Hn Hty) as Hc.
  unfold wp in *. simpl in Hw. unfold mbind, M_bind in Hw.
  destruct (create_wfusync low high type s) as [r s'| | |]; [|done..].
  destruct Hc as (_ & Hr & Hold). split_and!; [done|done|]. destruct r as [q|]; [|done].
  destruct Hr as (v & -> & Hsy & Hd & _ & H1 & H2 & H3 & H4). split.
  - destruct (w_syncs s !! w_next_sync s) eqn:E; [|done].
    assert (w_next_sync s < w_next_sync s); [|lia]. apply (so_key _ (sw_ok _ Hwf)). by rewrite E.
  - exists v. rewrite s32_small in H1, H2 by lia. done.
Qed.

(** C11: The server's wait-all is atomic: its status is the one the cells it found
    determine, with a satisfied status every named cell is consumed exactly once, and
    with any other status no cell changes. It always returns. *)
Theorem try_wait_all_atomic entries tid s :
  ∃ s', wfusync_try_wait_all entries tid s = Done (wait_all_status s entries tid) s' ∧
    same_rest s s' ∧
    ∀ p, cell_at s' p =
      if acquired (wait_all_status s entries tid) then consumed_at s entries tid p
      else cell_at s p.
Proof.
  pose proof (try_wait_all_spec entries tid s) as Hw.
  apply wp_done in Hw as (status & s' & Hrun & -> & Hr & Hc). eauto.
Qed.

(** Destroying an object passes its reference assertion, frees its pointer, makes
    its cell unusable for every client that still has it cached (type and generation
    change), and leaves the other objects alone. *)
Theorem destroy_retires q v s :
  server_wf s → w_syncs s !! q = Some v →
  wp (wfusync_destroy (Some q))
    (λ _ s', server_wf s' ∧ w_syncs s' = delete q (w_syncs s) ∧
       type_of (cell_idx s' (ws_shm_idx v)) = INPROC_SYNC_UNKNOWN ∧
       c_generation (cell_idx s' (ws_shm_idx v)) = w_next_generation s ∧
       ∀ q' v', q' ≠ q → w_syncs s !! q' = Some v' →
         cell_idx s' (ws_shm_idx v') = cell_idx s (ws_shm_idx v')) s.
Proof.
  intros Hwf Hq. pose proof (destroy_wf s q Hwf (ex_intro _ v Hq)) as Hw.
  pose proof (destroy_spec s q v (sw_ok _ Hwf) Hq) as Hd.
  change (run_op (OpDestroy q)) with (wfusync_destroy (Some q)) in Hw. unfold wp in *.
  destruct (wfusync_destroy (Some q) s) as [u s'| | |]; [|done..].
  destruct Hd as (_ & ? & _ & ? & ? & ?). done.
Qed.
End theorems.

(** Thread 5 takes the mutex, a slot waits for the mutex and the event, and SignalObjectAndWait
    releases the mutex: it is stranded, with the slot asleep. *)
Definition demo_stranded : wfs :=
  Eval vm_compute in run_ops [OpMutexSatisfied 2 5; OpRegister 4 [1; 3]; OpSignalMutex 2 5] demo.
Lemma demo_stranded_history : history [] demo [3] demo_stranded.
Proof.
  eapply (history_step _ _ (OpMutexSatisfied 2 5)); [|vm_compute; reflexivity|].
  { split; [by split|]. exists (Wfusync 3 0). by split_and!. }
  eapply (history_step _ _ (OpRegister 4 [1; 3])); [|vm_compute; reflexivity|].
  { split; [done|]. split; [|done]. intros idx Hin.
    repeat (apply elem_of_cons in Hin as [->|Hin]; [lia|]). by apply elem_of_nil in Hin. }
  eapply (history_step _ _ (OpSignalMutex 2 5)); [|vm_compute; reflexivity|apply history_refl].
  split; [|by split]. exists (Wfusync 3 0). by split.
Qed.
(** The waiter of [demo_released] is registered for the released semaphore; in
    [demo_stranded] the mutex of index 3 is stranded, the event of index 1 is not. *)
Lemma history_safe_witness :
  (cell_signaled (cell_idx demo_released 2) = true ∧ c_low (cell_idx demo_released 4) = 0) ∧
  (c_low (cell_idx demo_stranded 4) = 1 ∧ cell_signaled (cell_idx demo_stranded 3) = true).
Proof.
  split.
  - split; [reflexivity|].
    pose proof (history_safe demo [] demo_released demo_wf demo_released_reachable) as [Hsafe _].
    apply (Hsafe (Waiter 4 [1; 2]) 2); [by left|by right; left|apply not_elem_of_nil|reflexivity].
  - split; [reflexivity|].
    pose proof (history_safe demo [3] demo_stranded demo_wf demo_stranded_history) as (_ & Hsig & _).
    apply Hsig. by left.
Defined.

Lemma operation_completes_witness :
  ∃ s', run_op (OpSetEvent 0) demo = Done tt s' ∧ server_wf s'.
Proof.
  destruct (operation_completes [] demo (OpSetEvent 0) demo_wf) as (s' & Hrun & _ & Hwf).
  - exists (Wfusync 1 0). split; reflexivity.
  - exists s'. split; [exact Hrun|]. apply Hwf; reflexivity.
Defined.

Lemma register_wait_correct_witness :
  wp (wfusync_register_wait 4 [1; 2])
    (λ ok s', server_wf s' ∧
       if ok then
         w_waiters s' = Waiter 4 [1; 2] :: filter (other_slot 4) (w_waiters demo) ∧
         (c_low (cell_idx s' 4) =
            if existsb (λ idx, cell_signaled (cell_idx s' idx)) [1; 2] then 0 else 1)
       else s' = demo ∨
         w_waiters s' = filter (other_slot 4) (w_waiters demo) ∧
         c_low (cell_idx s' 4) = 0) demo.
Proof.
  apply (register_wait_correct 4 [1; 2] demo demo_wf). split; [done|]. split; [|done].
  intros idx Hin. repeat (apply elem_of_cons in Hin as [->|Hin]; [lia|]). by apply elem_of_nil in Hin.
Defined.

Lemma set_event_wakes_witness :
  wp (wfusync_set_event (Some 0))
    (λ _ s', cell_idx s' 1 = set_low 1 (cell_idx demo_registered 1) ∧
       c_low (cell_idx s' 4) = 0) demo_registered.
Proof.
  eapply wp_mono.
  - apply (set_event_wakes 0 (Wfusync 1 0) demo_registered demo_registered_wf); reflexivity.
  - intros [] s' (_ & Hc & Hw & _). split; [exact Hc|].
    apply (Hw (Waiter 4 [1; 2])); by left.
Defined.

Lemma create_fresh_witness :
  wp (create_wfusync 3 7 INPROC_SYNC_SEMAPHORE) (λ r s', server_wf s') demo.
Proof.
  eapply wp_mono.
  - apply (create_fresh 3 7 INPROC_SYNC_SEMAPHORE demo demo_wf). by apply demo_pre_create.
  - intros r s' [Hwf _]. exact Hwf.
Defined.

Lemma destroy_retires_witness :
  wp (wfusync_destroy (Some 2)) (λ _ s', type_of (cell_idx s' 3) = INPROC_SYNC_UNKNOWN) demo.
Proof.
  eapply wp_mono.
  - apply (destroy_retires 2 (Wfusync 3 0) demo demo_wf). reflexivity.
  - intros [] s' (_ & _ & Ht & _). exact Ht.
Defined.
