(* ===== verification/WfusyncClient.v ===== *)
(** * The client side of WFUSync

    src/dlls/ntdll/unix/wfusync.c: the per-process cache from handles to cells, the
    operations that a process performs on cells without entering the server, the
    single-object wait loops, the locally performed wait-all and the multi-object
    wait with its requests to the server.

    The client state contains the server's state, because requests run there and the
    cells are shared. The environment answers allocator and mapping calls, the clock and
    the address waits; an address wait that really sleeps lets the other threads run,
    which is the function [wfs → wfs] in its answer. *)

From S2P Require Import Prelude.
From S2P Require Import ShmState.
From S2P Require Import WfusyncServer.

Definition WFUSYNC_CACHE_BLOCK_SIZE : Z := 1024.
Definition WFUSYNC_CACHE_ENTRIES : Z := 128.
Definition WFUSYNC_TICKS_PER_SEC : Z := 10000000.
Definition WFUSYNC_SPIN_LIMIT : Z := 32.
Definition WFUSYNC_BLOCKING_FALLBACK_NS : Z := 10000000.

Definition WFUSYNC_KIND_UNKNOWN : Z := 0.
Definition WFUSYNC_KIND_EVENT : Z := 1.
Definition WFUSYNC_KIND_MUTEX : Z := 2.
Definition WFUSYNC_KIND_SEMAPHORE : Z := 3.
Definition WFUSYNC_KIND_UNSUPPORTED : Z := 4.

Definition SYNCHRONIZE : Z := 0x100000.
Definition EVENT_QUERY_STATE : Z := 1.
Definition EVENT_MODIFY_STATE : Z := 2.
Definition MUTANT_QUERY_STATE : Z := 1.
Definition SEMAPHORE_MODIFY_STATE : Z := 2.

(** [struct wfusync_fast_state] and [struct wfusync_cache_entry]; a NULL pointer is
    None, a pointer to a cell its byte offset in the shared file. *)
Record wfusync_fast_state := FastState {
  fs_type : Z; fs_access : Z; fs_shm_idx : Z; fs_ptr : option Z; fs_generation : Z }.
Record wfusync_cache_entry := CacheEntry {
  ce_handle : Z; ce_valid : bool;
  ce_local_event : bool; ce_local_mutex : bool; ce_local_semaphore : bool;
  ce_signal_unsafe : bool; ce_state : wfusync_fast_state }.
Definition zero_entry : wfusync_cache_entry :=
  CacheEntry 0 false false false false false (FastState 0 0 0 None 0).

(** [struct timespec] *)
Record timespec := Timespec { tv_sec : Z; tv_nsec : Z }.

(** What the kernel answers to an address wait that does sleep. *)
Inductive sleep_result := Woken | Interrupted | Timed_out | Wait_failed.

Record client := Client {
  k_server : wfs;
  k_cache : gmap Z (gmap Z wfusync_cache_entry);  (* wfusync_cache; absent block = NULL *)
  k_kinds : gmap Z (gmap Z Z);                    (* wfusync_handle_kinds *)
  k_unsafe : gmap Z Z;                            (* wfusync_signal_unsafe_indexes *)
  k_unsafe_count : Z;
  k_mapped : gset Z;                              (* non-NULL wfusync_pages *)
  k_pages_count : Z;
  k_locked : bool;                                (* wfusync_cache_lock *)
  k_shared_fd : Z;
  k_slot_idx : Z;                                 (* wfusync_wait_slot_idx *)
  k_slot : option Z;                              (* wfusync_wait_slot *)
  k_enabled : bool;                               (* do_wfusync() *)
  k_tid : Z;                                      (* GetCurrentThreadId() *)
  k_alloc : list bool;                            (* calloc, realloc and mmap *)
  k_os_sync : bool;                               (* macOS 14.4 or later *)
  k_clock : list (Z * Z);                         (* gettimeofday: sec, usec *)
  k_sleeps : list (sleep_result * (wfs → wfs)) }.

Definition on_server (f : wfs → wfs) (s : client) : client :=
  Client (f (k_server s)) (k_cache s) (k_kinds s) (k_unsafe s) (k_unsafe_count s) (k_mapped s)
    (k_pages_count s) (k_locked s) (k_shared_fd s) (k_slot_idx s) (k_slot s) (k_enabled s)
    (k_tid s) (k_alloc s) (k_os_sync s) (k_clock s) (k_sleeps s).
Definition on_cache (f : gmap Z (gmap Z wfusync_cache_entry) → gmap Z (gmap Z wfusync_cache_entry))
    (s : client) : client :=
  Client (k_server s) (f (k_cache s)) (k_kinds s) (k_unsafe s) (k_unsafe_count s) (k_mapped s)
    (k_pages_count s) (k_locked s) (k_shared_fd s) (k_slot_idx s) (k_slot s) (k_enabled s)
    (k_tid s) (k_alloc s) (k_os_sync s) (k_clock s) (k_sleeps s).
Definition on_kinds (f : gmap Z (gmap Z Z) → gmap Z (gmap Z Z)) (s : client) : client :=
  Client (k_server s) (k_cache s) (f (k_kinds s)) (k_unsafe s) (k_unsafe_count s) (k_mapped s)
    (k_pages_count s) (k_locked s) (k_shared_fd s) (k_slot_idx s) (k_slot s) (k_enabled s)
    (k_tid s) (k_alloc s) (k_os_sync s) (k_clock s) (k_sleeps s).
Definition set_client_pages (mapped : gset Z) (count : Z) (s : client) : client :=
  Client (k_server s) (k_cache s) (k_kinds s) (k_unsafe s) (k_unsafe_count s) mapped
    count (k_locked s) (k_shared_fd s) (k_slot_idx s) (k_slot s) (k_enabled s)
    (k_tid s) (k_alloc s) (k_os_sync s) (k_clock s) (k_sleeps s).
Definition set_locked (b : bool) (s : client) : client :=
  Client (k_server s) (k_cache s) (k_kinds s) (k_unsafe s) (k_unsafe_count s) (k_mapped s)
    (k_pages_count s) b (k_shared_fd s) (k_slot_idx s) (k_slot s) (k_enabled s)
    (k_tid s) (k_alloc s) (k_os_sync s) (k_clock s) (k_sleeps s).
Definition set_client_fd (fd : Z) (s : client) : client :=
  Client (k_server s) (k_cache s) (k_kinds s) (k_unsafe s) (k_unsafe_count s) (k_mapped s)
    (k_pages_count s) (k_locked s) fd (k_slot_idx s) (k_slot s) (k_enabled s)
    (k_tid s) (k_alloc s) (k_os_sync s) (k_clock s) (k_sleeps s).
Definition set_slot (idx : Z) (slot : option Z) (s : client) : client :=
  Client (k_server s) (k_cache s) (k_kinds s) (k_unsafe s) (k_unsafe_count s) (k_mapped s)
    (k_pages_count s) (k_locked s) (k_shared_fd s) idx slot (k_enabled s)
    (k_tid s) (k_alloc s) (k_os_sync s) (k_clock s) (k_sleeps s).
Definition set_alloc (l : list bool) (s : client) : client :=
  Client (k_server s) (k_cache s) (k_kinds s) (k_unsafe s) (k_unsafe_count s) (k_mapped s)
    (k_pages_count s) (k_locked s) (k_shared_fd s) (k_slot_idx s) (k_slot s) (k_enabled s)
    (k_tid s) l (k_os_sync s) (k_clock s) (k_sleeps s).
Definition set_clock (l : list (Z * Z)) (s : client) : client :=
  Client (k_server s) (k_cache s) (k_kinds s) (k_unsafe s) (k_unsafe_count s) (k_mapped s)
    (k_pages_count s) (k_locked s) (k_shared_fd s) (k_slot_idx s) (k_slot s) (k_enabled s)
    (k_tid s) (k_alloc s) (k_os_sync s) l (k_sleeps s).
Definition set_sleeps (l : list (sleep_result * (wfs → wfs))) (s : client) : client :=
  Client (k_server s) (k_cache s) (k_kinds s) (k_unsafe s) (k_unsafe_count s) (k_mapped s)
    (k_pages_count s) (k_locked s) (k_shared_fd s) (k_slot_idx s) (k_slot s) (k_enabled s)
    (k_tid s) (k_alloc s) (k_os_sync s) (k_clock s) l.

#[export] Instance HasShm_client : HasShm client.
Proof.
  refine {| get_shm := λ s, w_shm (k_server s);
            set_shm := λ m, on_server (set_shm m) |}; intros; by repeat destruct s as [[]].
Defined.

Definition K := M client.

Definition alloc_ok : K bool := λ s,
  match k_alloc s with
  | [] => Done true s
  | b :: l => Done b (set_alloc l s)
  end.

(** A request: the handler runs in the server, the client gets the error it left. *)
Definition server_call {A} (handler : W A) : K (Z * A) := λ s,
  match handler (set_err STATUS_SUCCESS (k_server s)) with
  | Done a w => Done (w_error w, a) (on_server (λ _, w) s)
  | AssertFailed => AssertFailed
  | Spinning => Spinning
  | NoFuel => NoFuel
  end.

(** The cache lock is not recursive: taking it twice aborts the process, and so does
    releasing it when it is not held. *)
Definition lock_wfusync_cache : K unit :=
  locked ← gets k_locked; _ ← c_assert (negb locked); modify (set_locked true).
Definition unlock_wfusync_cache : K unit :=
  locked ← gets k_locked; _ ← c_assert locked; modify (set_locked false).

(** ** Handles *)

(** [wine_server_obj_handle]: a handle is a 64-bit pointer. *)
Definition wine_server_obj_handle (handle : Z) : Z :=
  if s32 handle =? s64 handle then u32 handle else 0xfffffff0.

Definition wfusync_handle_to_index (handle : Z) : option (Z * Z) :=
  if 0xfffffffa <=? u32 handle then None else
  let handle_idx := u32 (Z.shiftr (wine_server_obj_handle handle) 2 - 1) in
  let entry := handle_idx / WFUSYNC_CACHE_BLOCK_SIZE in
  let idx := handle_idx mod WFUSYNC_CACHE_BLOCK_SIZE in
  if entry <? WFUSYNC_CACHE_ENTRIES then Some (entry, idx) else None.

Definition wfusync_supported_type (type : Z) : bool :=
  (type =? INPROC_SYNC_INTERNAL) || (type =? INPROC_SYNC_EVENT) ||
  (type =? INPROC_SYNC_MUTEX) || (type =? INPROC_SYNC_SEMAPHORE).

(** A [struct wfusync_cache_entry *] is a block and an index in it. *)
Definition cache_entry (s : client) (e : Z * Z) : wfusync_cache_entry :=
  default zero_entry (k_cache s !! e.1 ≫= λ block, block !! e.2).
Definition put_entry (e : Z * Z) (v : wfusync_cache_entry) (s : client) : client :=
  on_cache (λ m, <[e.1 := <[e.2 := v]> (default ∅ (m !! e.1))]> m) s.
Definition get_entry (e : Z * Z) : K wfusync_cache_entry := gets (λ s, cache_entry s e).

Definition get_wfusync_cache_entry (handle : Z) : K (option (Z * Z)) :=
  match wfusync_handle_to_index handle with
  | None => mret None
  | Some (block, idx) =>
      cache ← gets k_cache;
      match cache !! block with
      | Some _ => mret (Some (block, idx))
      | None =>
          ok ← alloc_ok;
          if negb ok then mret None else
          _ ← modify (on_cache (λ m, <[block := ∅]> m));
          mret (Some (block, idx))
      end
  end.

Definition wfusync_type_to_kind (type : Z) : Z :=
  if type =? INPROC_SYNC_EVENT then WFUSYNC_KIND_EVENT
  else if type =? INPROC_SYNC_MUTEX then WFUSYNC_KIND_MUTEX
  else if type =? INPROC_SYNC_SEMAPHORE then WFUSYNC_KIND_SEMAPHORE
  else WFUSYNC_KIND_UNKNOWN.

(** Block 0 uses a static array, the others are allocated on first use. *)
Definition wfusync_set_handle_kind (handle kind : Z) : K unit :=
  match wfusync_handle_to_index handle with
  | None => mret tt
  | Some (block, idx) =>
      kinds ← gets k_kinds;
      present ← (match kinds !! block with
        | Some _ => mret true
        | None =>
            ok ← (if block =? 0 then mret true else alloc_ok);
            if negb ok then mret false else
            _ ← modify (on_kinds (λ m, <[block := ∅]> m)); mret true
        end);
      when present (modify (on_kinds (λ m, <[block := <[idx := kind]> (default ∅ (m !! block))]> m)))
  end.

Definition handle_kind (s : client) (handle : Z) : Z :=
  match wfusync_handle_to_index handle with
  | None => WFUSYNC_KIND_UNKNOWN
  | Some (block, idx) =>
      match k_kinds s !! block with
      | None => WFUSYNC_KIND_UNKNOWN
      | Some m => default WFUSYNC_KIND_UNKNOWN (m !! idx)
      end
  end.
Definition wfusync_get_handle_kind (handle : Z) : K Z := gets (λ s, handle_kind s handle).

Definition idx_signal_unsafe (s : client) (shm_idx : Z) : bool :=
  if (shm_idx =? 0) || (k_unsafe_count s <=? shm_idx) then false
  else truth (default 0 (k_unsafe s !! shm_idx)).
Definition wfusync_shm_idx_signal_unsafe (shm_idx : Z) : K bool :=
  gets (λ s, idx_signal_unsafe s shm_idx).

Section client.
Context `{PageSize}.

(** [map_wfusync_state]: the byte offset of the cell when its page is or can be
    mapped. The page arithmetic is on 64-bit values truncated to unsigned int. *)
Definition map_wfusync_state (shm_idx fd : Z) : K (option Z) :=
  if shm_idx =? 0 then mret None else
  if fd <? 0 then mret None else
  let page := u32 (shm_idx * sizeof_cell / page_size) in
  let offset := u32 ((shm_idx * sizeof_cell) mod page_size) in
  if page_size <? offset + sizeof_cell then mret None else
  count ← gets k_pages_count;
  grown ← (if count <=? page then
    match grow_count grow_fuel page (if truth count then u32 (count * 2) else 16) with
    | None => no_fuel
    | Some new_count =>
        ok ← alloc_ok;
        if negb ok then mret false else
        mapped ← gets k_mapped;
        _ ← modify (set_client_pages mapped new_count); mret true
    end
    else mret true);
  if negb grown then mret None else
  mapped ← gets k_mapped;
  present ← (if bool_decide (page ∈ mapped) then mret true else
    ok ← alloc_ok;
    if negb ok then mret false else
    count ← gets k_pages_count;
    _ ← modify (set_client_pages ({[page]} ∪ mapped) count); mret true);
  if negb present then mret None
  else mret (Some (page * page_size + offset)).
End client.

(** ** The handle cache *)

Definition set_handle (h : Z) (e : wfusync_cache_entry) : wfusync_cache_entry :=
  CacheEntry h (ce_valid e) (ce_local_event e) (ce_local_mutex e) (ce_local_semaphore e)
    (ce_signal_unsafe e) (ce_state e).
Definition set_local_event (e : wfusync_cache_entry) : wfusync_cache_entry :=
  CacheEntry (ce_handle e) (ce_valid e) true (ce_local_mutex e) (ce_local_semaphore e)
    (ce_signal_unsafe e) (ce_state e).
Definition set_local_mutex (e : wfusync_cache_entry) : wfusync_cache_entry :=
  CacheEntry (ce_handle e) (ce_valid e) (ce_local_event e) true (ce_local_semaphore e)
    (ce_signal_unsafe e) (ce_state e).
Definition set_local_semaphore (e : wfusync_cache_entry) : wfusync_cache_entry :=
  CacheEntry (ce_handle e) (ce_valid e) (ce_local_event e) (ce_local_mutex e) true
    (ce_signal_unsafe e) (ce_state e).
Definition set_signal_unsafe (b : bool) (e : wfusync_cache_entry) : wfusync_cache_entry :=
  CacheEntry (ce_handle e) (ce_valid e) (ce_local_event e) (ce_local_mutex e)
    (ce_local_semaphore e) b (ce_state e).
Definition set_entry_generation (g : Z) (e : wfusync_cache_entry) : wfusync_cache_entry :=
  CacheEntry (ce_handle e) (ce_valid e) (ce_local_event e) (ce_local_mutex e)
    (ce_local_semaphore e) (ce_signal_unsafe e)
    (FastState (fs_type (ce_state e)) (fs_access (ce_state e)) (fs_shm_idx (ce_state e))
       (fs_ptr (ce_state e)) g).

(** The common body of the three [wfusync_mark_local_*] functions. *)
Definition mark_local (mark : wfusync_cache_entry → wfusync_cache_entry) (kind handle : Z) :
    K unit :=
  enabled ← gets k_enabled;
  if negb enabled then mret tt else
  _ ← lock_wfusync_cache;
  r ← get_wfusync_cache_entry handle;
  _ ← match r with
      | None => mret tt
      | Some entry =>
          e ← get_entry entry;
          let e := if truth (ce_handle e) && negb (ce_handle e =? handle)
                   then zero_entry else e in
          _ ← modify (put_entry entry (mark (set_handle handle e)));
          wfusync_set_handle_kind handle kind
      end;
  unlock_wfusync_cache.
Definition wfusync_mark_local_event : Z → K unit := mark_local set_local_event WFUSYNC_KIND_EVENT.
Definition wfusync_mark_local_mutex : Z → K unit := mark_local set_local_mutex WFUSYNC_KIND_MUTEX.
Definition wfusync_mark_local_semaphore : Z → K unit :=
  mark_local set_local_semaphore WFUSYNC_KIND_SEMAPHORE.

Definition wfusync_handle_kind_matches (handle kind : Z) : K bool :=
  k ← wfusync_get_handle_kind handle; mret (k =? kind).
Definition wfusync_handle_is_local_event (handle : Z) : K bool :=
  wfusync_handle_kind_matches handle WFUSYNC_KIND_EVENT.
Definition wfusync_handle_is_local_mutex (handle : Z) : K bool :=
  wfusync_handle_kind_matches handle WFUSYNC_KIND_MUTEX.
Definition wfusync_handle_is_local_semaphore (handle : Z) : K bool :=
  wfusync_handle_kind_matches handle WFUSYNC_KIND_SEMAPHORE.

(** The cached state, None when the call returns FALSE. *)
Definition wfusync_get_cached_state (handle : Z) : K (option wfusync_fast_state) :=
  enabled ← gets k_enabled;
  if negb enabled then mret None else
  match wfusync_handle_to_index handle with
  | None => mret None
  | Some entry =>
      _ ← lock_wfusync_cache;
      e ← get_entry entry;
      let ret := if ce_valid e && (ce_handle e =? handle) then Some (ce_state e) else None in
      _ ← unlock_wfusync_cache;
      mret ret
  end.

(** [get_local_event_state_locked] and its two siblings: inl status, or the entry. *)
Definition get_local_state_locked (local : wfusync_cache_entry → bool) (type handle access : Z) :
    K (Z + (Z * Z)) :=
  r ← get_wfusync_cache_entry handle;
  match r with
  | None => mret (inl STATUS_NOT_IMPLEMENTED)
  | Some entry =>
      cache ← get_entry entry;
      if negb (local cache) || negb (ce_valid cache) || negb (ce_handle cache =? handle) ||
         negb (bool_decide (is_Some (fs_ptr (ce_state cache))))
      then mret (inl STATUS_NOT_IMPLEMENTED)
      else if negb (fs_type (ce_state cache) =? type)
      then mret (inl STATUS_OBJECT_TYPE_MISMATCH)
      else if negb (Z.land (fs_access (ce_state cache)) access =? access)
      then mret (inl STATUS_ACCESS_DENIED)
      else mret (inr entry)
  end.
Definition get_local_event_state_locked := get_local_state_locked ce_local_event INPROC_SYNC_EVENT.
Definition get_local_semaphore_state_locked :=
  get_local_state_locked ce_local_semaphore INPROC_SYNC_SEMAPHORE.
Definition get_local_mutex_state_locked := get_local_state_locked ce_local_mutex INPROC_SYNC_MUTEX.

(** The part of [wfusync_cache_inproc_sync] after the cell has been found. *)
Definition store_state (handle type access shm_idx fd shared : Z) : K unit :=
  shared_fd ← gets k_shared_fd;
  _ ← (if shared_fd <? 0 then
         ok ← alloc_ok; modify (set_client_fd (if (ok : bool) then fd else -1))
       else mret tt);
  r ← get_wfusync_cache_entry handle;
  match r with
  | None => mret tt
  | Some entry =>
    e ← get_entry entry;
    let e := if ce_handle e =? handle then e else zero_entry in
    unsafe ← wfusync_shm_idx_signal_unsafe shm_idx;
    c ← ld shared;
    _ ← modify (put_entry entry
      (CacheEntry handle true (ce_local_event e) (ce_local_mutex e) (ce_local_semaphore e)
         (ce_signal_unsafe e || unsafe)
         (FastState type access shm_idx (Some shared) (c_generation c))));
    wfusync_set_handle_kind handle (wfusync_type_to_kind type)
  end.


Section cache.
Context `{PageSize}.

Definition wfusync_cache_inproc_sync (handle type access shm_idx fd : Z) : K unit :=
  enabled ← gets k_enabled;
  if negb enabled then mret tt else
  if shm_idx =? 0 then mret tt else
  if negb (wfusync_supported_type type) then mret tt else
  match wfusync_handle_to_index handle with
  | None => mret tt
  | Some _ =>
      _ ← lock_wfusync_cache;
      shared ← map_wfusync_state shm_idx fd;
      match shared with
      | None => unlock_wfusync_cache
      | Some shared =>
          _ ← store_state handle type access shm_idx fd shared;
          unlock_wfusync_cache
      end
  end.
End cache.

Definition wfusync_drop_handle (handle : Z) : K unit :=
  enabled ← gets k_enabled;
  if negb enabled then mret tt else
  match wfusync_handle_to_index handle with
  | None => mret tt
  | Some entry =>
      _ ← wfusync_set_handle_kind handle WFUSYNC_KIND_UNKNOWN;
      _ ← lock_wfusync_cache;
      cache ← gets k_cache;
      e ← get_entry entry;
      _ ← when (bool_decide (is_Some (cache !! entry.1)) && (ce_handle e =? handle))
            (modify (put_entry entry zero_entry));
      unlock_wfusync_cache
  end.

Definition wfusync_note_fallback (handle status : Z) : K unit :=
  enabled ← gets k_enabled;
  if negb enabled then mret tt else
  when (status =? STATUS_NOT_IMPLEMENTED)
    (wfusync_set_handle_kind handle WFUSYNC_KIND_UNSUPPORTED).

(** ** Time *)

Definition compare_timespec (left right : timespec) : Z :=
  if negb (tv_sec left =? tv_sec right) then if tv_sec left <? tv_sec right then -1 else 1
  else if negb (tv_nsec left =? tv_nsec right) then
    if tv_nsec left <? tv_nsec right then -1 else 1
  else 0.

Definition timespec_diff_ns (end_ start : timespec) : Z :=
  if compare_timespec end_ start <=? 0 then 0
  else u64 (u64 (tv_sec end_ - tv_sec start) * 1000000000 + tv_nsec end_ - tv_nsec start).

Definition ns_to_timespec (ns : Z) : timespec :=
  Timespec (s64 (ns / 1000000000)) (ns mod 1000000000).

(** The clock: when the list of answers is used up it stands still. *)
Definition gettimeofday : K (Z * Z) := λ s,
  match k_clock s with
  | [] => Done (0, 0) s
  | [t] => Done t s
  | t :: l => Done t (set_clock l s)
  end.

(** [timeout->QuadPart] is negative or zero here: a relative time in 100 ns ticks. C
    division and remainder truncate. *)
Definition get_relative_timeout_abs (timeout : Z) : K timespec :=
  let ticks := s64 (- timeout) in
  now ← gettimeofday;
  let nsec := now.2 * 1000 + Z.rem ticks WFUSYNC_TICKS_PER_SEC * 100 in
  mret (Timespec (now.1 + Z.quot ticks WFUSYNC_TICKS_PER_SEC + Z.quot nsec 1000000000)
          (Z.rem nsec 1000000000)).

Definition get_now_abs : K timespec :=
  tv ← gettimeofday; mret (Timespec tv.1 (tv.2 * 1000)).

Definition wfusync_adaptive_spin (attempts : Z) : option Z :=
  if WFUSYNC_SPIN_LIMIT <=? attempts then None else Some (attempts + 1).

(** ** Address waits *)

(** [wfusync_address_wait_supported] on Apple platforms. *)
Definition wfusync_address_wait_supported : bool := true.

(** The kernel primitive: it sleeps only while the word has the expected value. A
    sleep with a time limit that nobody ends times out; one without a limit lasts for
    ever. *)
Definition os_wait (p value : Z) (limited : bool) : K Z :=
  c ← ld p;
  if negb (c_low c =? value) then mret STATUS_SUCCESS else
  sleeps ← gets k_sleeps;
  match sleeps with
  | [] => if limited then mret STATUS_TIMEOUT else spin
  | (r, others) :: sleeps =>
      _ ← modify (set_sleeps sleeps);
      _ ← modify (on_server others);
      mret (match r with
            | Woken | Interrupted => STATUS_SUCCESS
            | Timed_out => STATUS_TIMEOUT
            | Wait_failed => STATUS_NOT_IMPLEMENTED
            end)
  end.

Definition UINT_MAX : Z := 2 ^ 32 - 1.

Definition wfusync_wait_address (p value : Z) (timeout : option timespec) : K Z :=
  os_sync ← gets k_os_sync;
  if os_sync : bool then
    match timeout with
    | Some t =>
        let ns_timeout := u64 (u64 (tv_sec t) * 1000000000 + tv_nsec t) in
        if ns_timeout =? 0 then mret STATUS_TIMEOUT else os_wait p value true
    | None => os_wait p value false
    end
  else
    match timeout with
    | Some t =>
        let usec64 := u64 (u64 (tv_sec t) * 1000000 + tv_nsec t / 1000) in
        if usec64 =? 0 then mret STATUS_TIMEOUT
        else if UINT_MAX <? usec64 then mret STATUS_NOT_IMPLEMENTED
        else os_wait p value true
    | None => os_wait p value false
    end.

(** ** The lock bit, from the client *)

Definition wfusync_atomic_load (p : Z) : K Z := c ← ld p; mret (c_low c).
Definition load_high (p : Z) : K Z := c ← ld p; mret (c_high c).
Definition load_generation (p : Z) : K Z := c ← ld p; mret (c_generation c).
Definition wfusync_state_type (p : Z) : K Z := get_state_type p.

(** [__atomic_compare_exchange_n] on the type word and on [low]. *)
Definition cas_type (p expected desired : Z) : K bool :=
  c ← ld p;
  if c_type c =? expected then _ ← st p (set_type desired); mret true else mret false.
Definition wfusync_atomic_compare_exchange (p expected desired : Z) : K bool :=
  c ← ld p;
  if c_low c =? expected then _ ← st p (set_low desired); mret true else mret false.

Definition wfusync_try_lock_state (p expected_type : Z) : K bool :=
  c ← ld p;
  if negb (type_of c =? expected_type) ||
     truth (Z.land (c_type c) (Z.lor WFUSYNC_STATE_LOCKED WFUSYNC_SERVER_WAITERS))
  then mret false
  else cas_type p (c_type c) (Z.lor (c_type c) WFUSYNC_STATE_LOCKED).

(** One round of the [for] loop; a round that neither locks nor gives up is repeated,
    without effect, until another thread changes the word. *)
Definition wfusync_lock_state (p expected_type : Z) : K bool :=
  locked ← wfusync_try_lock_state p expected_type;
  if locked : bool then mret true else
  c ← ld p;
  if negb (type_of c =? expected_type) || has_flag c WFUSYNC_SERVER_WAITERS
  then mret false else spin.

Definition wfusync_unlock_state (p : Z) : K unit := unlock_state p.

Definition wfusync_has_server_waiters (p : Z) : K bool :=
  c ← ld p; mret (has_flag c (Z.lor WFUSYNC_SERVER_WAITERS WFUSYNC_MULTI_WAITERS)).
Definition wfusync_has_wine_server_waiters (p : Z) : K bool :=
  c ← ld p; mret (has_flag c WFUSYNC_SERVER_WAITERS).
Definition wfusync_has_multi_waiters (p : Z) : K bool :=
  c ← ld p; mret (has_flag c WFUSYNC_MULTI_WAITERS).

Definition wfusync_entry_signal_hotpath_enabled (entry : Z * Z) : K bool :=
  e ← get_entry entry;
  unsafe ← wfusync_shm_idx_signal_unsafe (fs_shm_idx (ce_state e));
  if negb (ce_signal_unsafe e) && negb unsafe then mret true else
  _ ← modify (λ s, put_entry entry (set_signal_unsafe true (cache_entry s entry)) s);
  mret false.

(** The state pointer and generation of an entry. *)
Definition entry_ptr (entry : Z * Z) : K Z :=
  e ← get_entry entry; mret (default 0 (fs_ptr (ce_state e))).
Definition entry_generation (entry : Z * Z) : K Z :=
  e ← get_entry entry; mret (fs_generation (ce_state e)).

Section operations.
Context `{PageSize}.

Definition wfusync_wake_waiters (shm_idx : Z) : K unit :=
  _ ← server_call (req_wake_wfusync_waiters shm_idx); mret tt.

(** The prologue the operations on one object share: the part under the cache lock, with
    the unlock each return has of its own. [hotpath] says whether the operation asks
    [wfusync_entry_signal_hotpath_enabled], [waiting] whether it is a wait, which also
    asks [wfusync_address_wait_supported]. Yields inl the status to return, or the entry
    with its cell and generation. *)
Definition locked_prologue (get_local : Z → Z → K (Z + (Z * Z))) (access : Z)
    (hotpath waiting : bool) (handle : Z) : K (Z + (Z * Z) * Z * Z) :=
  _ ← lock_wfusync_cache;
  r ← get_local handle access;
  match r with
  | inl ret => _ ← unlock_wfusync_cache; mret (inl ret)
  | inr entry =>
      state ← entry_ptr entry;
      generation ← entry_generation entry;
      enabled ← (if hotpath then wfusync_entry_signal_hotpath_enabled entry else mret true);
      if negb enabled
      then _ ← unlock_wfusync_cache; mret (inl STATUS_NOT_IMPLEMENTED) else
      waiters ← wfusync_has_server_waiters state;
      if (waiters : bool)
      then _ ← unlock_wfusync_cache; mret (inl STATUS_NOT_IMPLEMENTED) else
      if waiting && negb wfusync_address_wait_supported
      then _ ← unlock_wfusync_cache; mret (inl STATUS_NOT_IMPLEMENTED) else
      _ ← unlock_wfusync_cache;
      mret (inr (entry, state, generation))
  end.

(** [do_wfusync()] and the handle kind; then the prologue. *)
Definition signal_prologue (kind : Z) (get_local : Z → Z → K (Z + (Z * Z))) (access : Z)
    (hotpath : bool) (handle : Z) : K (Z + (Z * Z) * Z * Z) :=
  enabled ← gets k_enabled;
  if negb enabled then mret (inl STATUS_NOT_IMPLEMENTED) else
  matches ← wfusync_handle_kind_matches handle kind;
  if negb matches then mret (inl STATUS_NOT_IMPLEMENTED) else
  locked_prologue get_local access hotpath false handle.

(** Locks the cell and re-checks it: true with the lock held, false without. *)
Definition lock_and_validate (state type generation : Z) : K bool :=
  locked ← wfusync_lock_state state type;
  if negb locked then mret false else
  g ← load_generation state;
  waiters ← wfusync_has_server_waiters state;
  if negb (g =? generation) || waiters then _ ← wfusync_unlock_state state; mret false
  else mret true.

(** Results are the status and what is stored through the output pointer. *)
Definition wfusync_set_event (handle : Z) : K (Z * option Z) :=
  r ← signal_prologue WFUSYNC_KIND_EVENT get_local_event_state_locked EVENT_MODIFY_STATE true handle;
  match r with
  | inl ret => mret (ret, None)
  | inr (entry, state, generation) =>
      ok ← lock_and_validate state INPROC_SYNC_EVENT generation;
      if negb ok then mret (STATUS_NOT_IMPLEMENTED, None) else
      previous ← wfusync_atomic_load state;
      _ ← st state (set_low 1);
      _ ← wfusync_unlock_state state;
      _ ← when (negb (truth previous))
            (high ← load_high state; wake_address state (truth high));
      multi ← wfusync_has_multi_waiters state;
      _ ← when (negb (truth previous) && multi)
            (e ← get_entry entry; wfusync_wake_waiters (fs_shm_idx (ce_state e)));
      mret (STATUS_SUCCESS, Some previous)
  end.

Definition wfusync_reset_event (handle : Z) : K (Z * option Z) :=
  r ← signal_prologue WFUSYNC_KIND_EVENT get_local_event_state_locked EVENT_MODIFY_STATE true handle;
  match r with
  | inl ret => mret (ret, None)
  | inr (_, state, generation) =>
      ok ← lock_and_validate state INPROC_SYNC_EVENT generation;
      if negb ok then mret (STATUS_NOT_IMPLEMENTED, None) else
      previous ← wfusync_atomic_load state;
      _ ← st state (set_low 0);
      _ ← wfusync_unlock_state state;
      mret (STATUS_SUCCESS, Some previous)
  end.

(** The information is (manual reset?, EventState). *)
Definition wfusync_query_event (handle : Z) : K (Z * option (bool * Z)) :=
  enabled ← gets k_enabled;
  if negb enabled then mret (STATUS_NOT_IMPLEMENTED, None) else
  _ ← lock_wfusync_cache;
  r ← get_local_event_state_locked handle EVENT_QUERY_STATE;
  ret ← match r with
        | inl ret => mret (ret, None)
        | inr entry =>
            state ← entry_ptr entry;
            high ← load_high state;
            low ← wfusync_atomic_load state;
            mret (STATUS_SUCCESS, Some (truth high, low))
        end;
  _ ← unlock_wfusync_cache;
  mret ret.

Definition wfusync_release_mutex (handle : Z) : K (Z * option Z) :=
  tid ← gets (λ s, s32 (k_tid s));
  r ← signal_prologue WFUSYNC_KIND_MUTEX get_local_mutex_state_locked 0 false handle;
  match r with
  | inl ret => mret (ret, None)
  | inr (entry, state, generation) =>
      ok ← lock_and_validate state INPROC_SYNC_MUTEX generation;
      if negb ok then mret (STATUS_NOT_IMPLEMENTED, None) else
      owner ← wfusync_atomic_load state;
      count ← load_high state;
      if negb (owner =? tid) || (count =? 0) then
        _ ← wfusync_unlock_state state; mret (STATUS_MUTANT_NOT_OWNED, None)
      else if 1 <? count then
        _ ← st state (set_high (count - 1));
        _ ← wfusync_unlock_state state;
        mret (STATUS_SUCCESS, Some (s32 (1 - count)))
      else
        _ ← st state (set_high 0);
        _ ← st state (set_low 0);
        _ ← wfusync_unlock_state state;
        _ ← wake_address state false;
        multi ← wfusync_has_multi_waiters state;
        _ ← when multi (e ← get_entry entry; wfusync_wake_waiters (fs_shm_idx (ce_state e)));
        mret (STATUS_SUCCESS, Some (s32 (1 - count)))
  end.

(** The information is (CurrentCount, OwnedByCaller, AbandonedState). *)
Definition wfusync_query_mutex (handle : Z) : K (Z * option (Z * bool * bool)) :=
  enabled ← gets k_enabled;
  if negb enabled then mret (STATUS_NOT_IMPLEMENTED, None) else
  matches ← wfusync_handle_kind_matches handle WFUSYNC_KIND_MUTEX;
  if negb matches then mret (STATUS_NOT_IMPLEMENTED, None) else
  _ ← lock_wfusync_cache;
  r ← get_local_mutex_state_locked handle MUTANT_QUERY_STATE;
  ret ← match r with
        | inl ret => mret (ret, None)
        | inr entry =>
            state ← entry_ptr entry;
            locked ← wfusync_lock_state state INPROC_SYNC_MUTEX;
            if negb locked then mret (STATUS_NOT_IMPLEMENTED, None) else
            owner ← wfusync_atomic_load state;
            high ← load_high state;
            tid ← gets k_tid;
            let count := if owner <? 0 then 0 else high in
            _ ← wfusync_unlock_state state;
            mret (STATUS_SUCCESS, Some (s32 (1 - count), owner =? s32 tid, owner <? 0))
        end;
  _ ← unlock_wfusync_cache;
  mret ret.

(** [state->high] is read again for the limit test; the loop's compare-and-exchange
    can only fail if another thread changed [low] meanwhile. *)
Definition wfusync_release_semaphore (handle count : Z) : K (Z * option Z) :=
  r ← signal_prologue WFUSYNC_KIND_SEMAPHORE get_local_semaphore_state_locked
        SEMAPHORE_MODIFY_STATE true handle;
  match r with
  | inl ret => mret (ret, None)
  | inr (entry, state, generation) =>
      ok ← lock_and_validate state INPROC_SYNC_SEMAPHORE generation;
      if negb ok then mret (STATUS_NOT_IMPLEMENTED, None) else
      old_count ← wfusync_atomic_load state;
      high ← load_high state;
      if semaphore_limit_exceeded old_count count high then
        _ ← wfusync_unlock_state state; mret (STATUS_SEMAPHORE_LIMIT_EXCEEDED, None)
      else
      swapped ← wfusync_atomic_compare_exchange state old_count (s32 (old_count + count));
      if negb swapped then spin else
      _ ← wfusync_unlock_state state;
      _ ← when (old_count =? 0) (wake_address state (1 <? count));
      multi ← wfusync_has_multi_waiters state;
      _ ← when ((old_count =? 0) && multi)
            (e ← get_entry entry; wfusync_wake_waiters (fs_shm_idx (ce_state e)));
      mret (STATUS_SUCCESS, Some (u32 old_count))
  end.

Definition wfusync_query_semaphore (_ : Z) : K Z := mret STATUS_NOT_IMPLEMENTED.
End operations.

(** ** Consuming an object *)

Definition consume_auto_event_state (state : Z) : K Z :=
  low ← wfusync_atomic_load state;
  if low =? 0 then mret STATUS_TIMEOUT else
  high ← load_high state;
  if truth high then mret STATUS_NOT_IMPLEMENTED else
  ok ← wfusync_atomic_compare_exchange state 1 0;
  mret (if (ok : bool) then STATUS_WAIT_0 else STATUS_TIMEOUT).

Definition consume_event_state (state : Z) : K Z :=
  locked ← wfusync_lock_state state INPROC_SYNC_EVENT;
  if negb locked then mret STATUS_NOT_IMPLEMENTED else
  low ← wfusync_atomic_load state;
  high ← load_high state;
  ret ← (if low =? 0 then mret STATUS_TIMEOUT
         else if truth high then mret STATUS_WAIT_0
         else consume_auto_event_state state);
  _ ← wfusync_unlock_state state;
  mret ret.

Definition consume_semaphore_state (state : Z) : K Z :=
  locked ← wfusync_lock_state state INPROC_SYNC_SEMAPHORE;
  if negb locked then mret STATUS_NOT_IMPLEMENTED else
  count ← wfusync_atomic_load state;
  if count <=? 0 then _ ← wfusync_unlock_state state; mret STATUS_TIMEOUT else
  swapped ← wfusync_atomic_compare_exchange state count (count - 1);
  if negb swapped then spin else
  _ ← wfusync_unlock_state state; mret STATUS_WAIT_0.

Definition consume_mutex_state_locked (state tid : Z) : K Z :=
  owner ← wfusync_atomic_load state;
  count ← load_high state;
  if owner =? tid then
    if count =? INT_MAX then mret STATUS_NOT_IMPLEMENTED
    else _ ← st state (set_high (count + 1)); mret STATUS_WAIT_0
  else if (owner =? 0) || (owner <? 0) then
    _ ← st state (set_low tid);
    _ ← st state (set_high 1);
    if owner <? 0 then
      _ ← st state (λ c, set_generation (u32 (c_generation c + 1)) c);
      mret STATUS_ABANDONED
    else mret STATUS_WAIT_0
  else mret STATUS_TIMEOUT.

Definition consume_mutex_state (state tid : Z) : K Z :=
  locked ← wfusync_lock_state state INPROC_SYNC_MUTEX;
  if negb locked then mret STATUS_NOT_IMPLEMENTED else
  ret ← consume_mutex_state_locked state tid;
  _ ← wfusync_unlock_state state;
  mret ret.

Definition wfusync_refresh_cache_generation (handle state : Z) : K unit :=
  _ ← lock_wfusync_cache;
  r ← get_wfusync_cache_entry handle;
  _ ← match r with
      | None => mret tt
      | Some entry =>
          e ← get_entry entry;
          c ← ld state;
          when ((ce_handle e =? handle) && ce_valid e &&
                bool_decide (fs_ptr (ce_state e) = Some state))
            (modify (put_entry entry (set_entry_generation (c_generation c) e)))
      end;
  unlock_wfusync_cache.

(** ** Waiting for one object *)

Definition timeout_is (timeout : option Z) (f : Z → bool) : bool :=
  match timeout with Some t => f t | None => false end.

(** The deadline is only computed when there is a timeout. *)
Definition deadline_of (timeout : option Z) : K (option timespec) :=
  match timeout with
  | None => mret None
  | Some t => d ← get_relative_timeout_abs t; mret (Some d)
  end.

(** How long the next address wait may last: [default] without a deadline, None when
    the deadline has passed. *)
Definition remaining (deadline : option timespec) (default : option timespec) :
    K (option (option timespec)) :=
  match deadline with
  | None => mret (Some default)
  | Some d =>
      now ← get_now_abs;
      let ns := timespec_diff_ns d now in
      mret (if ns =? 0 then None else Some (Some (ns_to_timespec ns)))
  end.

Definition fallback_wait : option timespec := Some (ns_to_timespec WFUSYNC_BLOCKING_FALLBACK_NS).

(** The state is no longer the one the handle was cached for, or the server waits on it. *)
Definition stale_or_server_owned (state generation type : Z) : K bool :=
  g ← load_generation state;
  ty ← wfusync_state_type state;
  waiters ← wfusync_has_server_waiters state;
  mret (negb (g =? generation) || negb (ty =? type) || waiters).

(** The [for] loop of [wfusync_wait_event] and of [wfusync_wait_semaphore]. *)
Fixpoint wait_loop (fuel : nat) (consume : Z → K Z) (type state generation : Z)
    (deadline : option timespec) (attempts : Z) : K Z :=
  match fuel with
  | O => no_fuel
  | S fuel =>
    match wfusync_adaptive_spin attempts with
    | Some attempts => wait_loop fuel consume type state generation deadline attempts
    | None =>
      stale ← stale_or_server_owned state generation type;
      if stale : bool then mret STATUS_NOT_IMPLEMENTED else
      ret ← consume state;
      if ret =? STATUS_WAIT_0 then mret ret else
      t ← remaining deadline fallback_wait;
      match t with
      | None => mret STATUS_TIMEOUT
      | Some t =>
        ret ← wfusync_wait_address state 0 t;
        if ret =? STATUS_TIMEOUT
        then mret (if deadline then ret else STATUS_NOT_IMPLEMENTED)
        else if negb (ret =? STATUS_SUCCESS) then mret ret
        else wait_loop fuel consume type state generation deadline attempts
      end
    end
  end.

(** The [for] loop of [wfusync_wait_mutex]. *)
Fixpoint mutex_wait_loop (fuel : nat) (handle tid state generation : Z)
    (deadline : option timespec) (attempts : Z) : K Z :=
  match fuel with
  | O => no_fuel
  | S fuel =>
    match wfusync_adaptive_spin attempts with
    | Some attempts => mutex_wait_loop fuel handle tid state generation deadline attempts
    | None =>
      stale ← stale_or_server_owned state generation INPROC_SYNC_MUTEX;
      if stale : bool then mret STATUS_NOT_IMPLEMENTED else
      ret ← consume_mutex_state state tid;
      if (ret =? STATUS_WAIT_0) || (ret =? STATUS_ABANDONED) then
        _ ← when (ret =? STATUS_ABANDONED) (wfusync_refresh_cache_generation handle state);
        mret ret
      else if negb (ret =? STATUS_TIMEOUT) then mret ret else
      t ← remaining deadline fallback_wait;
      match t with
      | None => mret STATUS_TIMEOUT
      | Some t =>
        owner ← wfusync_atomic_load state;
        ret ← wfusync_wait_address state owner t;
        if ret =? STATUS_TIMEOUT
        then mret (if deadline then STATUS_TIMEOUT else STATUS_NOT_IMPLEMENTED)
        else if negb (ret =? STATUS_SUCCESS) then mret ret
        else mutex_wait_loop fuel handle tid state generation deadline attempts
      end
    end
  end.

(** Every round beyond the spinning ones sleeps or ends. *)
Definition wait_fuel : K nat := gets (λ s, (34 + length (k_sleeps s))%nat).

(** The tests before the prologue of a wait. *)
Definition wait_prologue (kind : Z) (get_local : Z → Z → K (Z + (Z * Z))) (hotpath : bool)
    (handle : Z) (alertable : bool) (timeout : option Z) : K (Z + (Z * Z) * Z * Z) :=
  enabled ← gets k_enabled;
  if negb enabled then mret (inl STATUS_NOT_IMPLEMENTED) else
  k ← wfusync_get_handle_kind handle;
  if truth k && negb (k =? kind) then mret (inl STATUS_NOT_IMPLEMENTED) else
  if (alertable : bool) then mret (inl STATUS_NOT_IMPLEMENTED) else
  if timeout_is timeout (λ t, 0 <? t) then mret (inl STATUS_NOT_IMPLEMENTED) else
  locked_prologue get_local SYNCHRONIZE hotpath true handle.

(** [wfusync_wait_event] and [wfusync_wait_semaphore] after the prologue. *)
Definition wait_consumable (consume : Z → K Z) (type : Z) (r : Z + (Z * Z) * Z * Z)
    (timeout : option Z) : K Z :=
  match r with
  | inl ret => mret ret
  | inr (_, state, generation) =>
      ret ← consume state;
      if ret =? STATUS_WAIT_0 then mret ret else
      if timeout_is timeout (λ t, t =? 0) then mret STATUS_TIMEOUT else
      deadline ← deadline_of timeout;
      fuel ← wait_fuel;
      wait_loop fuel consume type state generation deadline 0
  end.

Definition wfusync_wait_event (handle : Z) (alertable : bool) (timeout : option Z) : K Z :=
  r ← wait_prologue WFUSYNC_KIND_EVENT get_local_event_state_locked true handle alertable timeout;
  wait_consumable consume_event_state INPROC_SYNC_EVENT r timeout.

Definition wfusync_wait_semaphore (handle : Z) (alertable : bool) (timeout : option Z) : K Z :=
  r ← wait_prologue WFUSYNC_KIND_SEMAPHORE get_local_semaphore_state_locked true
        handle alertable timeout;
  wait_consumable consume_semaphore_state INPROC_SYNC_SEMAPHORE r timeout.

Definition wfusync_wait_mutex (handle : Z) (alertable : bool) (timeout : option Z) : K Z :=
  tid ← gets (λ s, s32 (k_tid s));
  r ← wait_prologue WFUSYNC_KIND_MUTEX get_local_mutex_state_locked false handle alertable timeout;
  match r with
  | inl ret => mret ret
  | inr (_, state, generation) =>
      ret ← consume_mutex_state state tid;
      if (ret =? STATUS_WAIT_0) || (ret =? STATUS_ABANDONED) then
        _ ← when (ret =? STATUS_ABANDONED) (wfusync_refresh_cache_generation handle state);
        mret ret
      else if negb (ret =? STATUS_TIMEOUT) then mret ret
      else if timeout_is timeout (λ t, t =? 0) then mret STATUS_TIMEOUT else
      deadline ← deadline_of timeout;
      fuel ← wait_fuel;
      mutex_wait_loop fuel handle tid state generation deadline 0
  end.

(** ** Requests of a multi-object wait *)

Section multiple.
Context `{PageSize}.

Definition get_wfusync_wait_slot : K Z :=
  slot ← gets k_slot;
  if bool_decide (is_Some slot) then mret STATUS_SUCCESS else
  fd ← gets k_shared_fd;
  if fd <? 0 then mret STATUS_NOT_IMPLEMENTED else
  r ← server_call req_get_wfusync_wait_slot;
  if truth r.1 then mret r.1 else
  _ ← modify (set_slot r.2 slot);
  if r.2 =? 0 then mret STATUS_NOT_IMPLEMENTED else
  _ ← lock_wfusync_cache;
  slot ← map_wfusync_state r.2 fd;
  _ ← modify (set_slot r.2 slot);
  _ ← unlock_wfusync_cache;
  mret (if bool_decide (is_Some slot) then STATUS_SUCCESS else STATUS_NOT_IMPLEMENTED).

Definition register_wfusync_wait (shm_idxs : list Z) : K Z :=
  slot_idx ← gets k_slot_idx;
  r ← server_call (req_register_wfusync_wait slot_idx (Z.of_nat (length shm_idxs) * 4) shm_idxs);
  mret r.1.

Definition unregister_wfusync_wait : K unit :=
  slot_idx ← gets k_slot_idx;
  _ ← server_call (req_unregister_wfusync_wait slot_idx); mret tt.

Definition try_wait_all_wfusync (entries : list Z) (slot_idx : Z) : K Z :=
  tid ← gets k_tid;
  r ← server_call (req_try_wait_all_wfusync slot_idx tid (Z.of_nat (length entries) * 4) entries);
  mret r.1.
End multiple.

(** One element of the parallel arrays [states], [shm_idxs], [generations], [types]. *)
Record wait_obj := WaitObj { ob_state : Z; ob_shm_idx : Z; ob_generation : Z; ob_type : Z }.

(** ** Wait-all without the server *)

(** The insertion sort of [order]: [prefix] is the sorted part, last element first. *)
Fixpoint order_insert (key : nat → Z) (i : nat) (prefix : list nat) : list nat :=
  match prefix with
  | [] => [i]
  | x :: rest => if key i <? key x then x :: order_insert key i rest else i :: prefix
  end.
Fixpoint order_from (key : nat → Z) (i count : nat) (prefix : list nat) : list nat :=
  match count with
  | O => rev prefix
  | S count => order_from key (S i) count (order_insert key i prefix)
  end.
Definition lock_order (objs : list wait_obj) : list nat :=
  order_from (λ i, default 0 (ob_shm_idx <$> objs !! i)) 0 (length objs) [].

Definition waitall_type_ok (type : Z) : bool :=
  (type =? INPROC_SYNC_EVENT) || (type =? INPROC_SYNC_SEMAPHORE) || (type =? INPROC_SYNC_MUTEX).

(** The second loop: locks along [order]. Returns the locked cells, last one first, and
    whether the loop ran to its end. *)
Fixpoint lock_in_order (order : list wait_obj) (prev : option Z) (locked : list Z) :
    K (list Z * bool) :=
  match order with
  | [] => mret (locked, true)
  | o :: order =>
      if bool_decide (prev = Some (ob_shm_idx o)) then mret (locked, false) else
      if negb (waitall_type_ok (ob_type o)) then mret (locked, false) else
      ok ← wfusync_lock_state (ob_state o) (ob_type o);
      if negb ok then mret (locked, false) else
      let locked := ob_state o :: locked in
      c ← ld (ob_state o);
      if negb (c_generation c =? ob_generation o) then mret (locked, false) else
      if (ob_type o =? INPROC_SYNC_EVENT) && truth (c_high c) then mret (locked, false) else
      lock_in_order order (Some (ob_shm_idx o)) locked
  end.

(** The third loop: inl status to leave with it, inr abandoned to go on. *)
Definition obj_blocks (c : cell) (type tid : Z) : Z + bool :=
  if ((type =? INPROC_SYNC_EVENT) && (c_low c =? 0)) ||
     ((type =? INPROC_SYNC_SEMAPHORE) && (c_low c <=? 0)) ||
     ((type =? INPROC_SYNC_MUTEX) && (0 <? c_low c) && negb (c_low c =? tid))
  then inl STATUS_TIMEOUT
  else if (type =? INPROC_SYNC_MUTEX) && (c_low c =? tid) && (c_high c =? INT_MAX)
  then inl STATUS_NOT_IMPLEMENTED
  else inr ((type =? INPROC_SYNC_MUTEX) && (c_low c <? 0)).

Fixpoint check_objs (objs : list wait_obj) (tid : Z) (abandoned : bool) : K (Z + bool) :=
  match objs with
  | [] => mret (inr abandoned)
  | o :: objs =>
      c ← ld (ob_state o);
      match obj_blocks c (ob_type o) tid with
      | inl status => mret (inl status)
      | inr ab => check_objs objs tid (ab || abandoned)
      end
  end.

(** The fourth loop: None when it leaves early. *)
Fixpoint consume_objs (objs : list wait_obj) (tid : Z) (abandoned : bool) : K (option bool) :=
  match objs with
  | [] => mret (Some abandoned)
  | o :: objs =>
      if ob_type o =? INPROC_SYNC_EVENT then
        _ ← st (ob_state o) (set_low 0); consume_objs objs tid abandoned
      else if ob_type o =? INPROC_SYNC_SEMAPHORE then
        _ ← st (ob_state o) (λ c, set_low (c_low c - 1) c); consume_objs objs tid abandoned
      else
        status ← consume_mutex_state_locked (ob_state o) tid;
        if status =? STATUS_ABANDONED then consume_objs objs tid true
        else if status =? STATUS_WAIT_0 then consume_objs objs tid abandoned
        else mret None
  end.

Definition try_wait_all_local (objs : list wait_obj) : K Z :=
  tid ← gets (λ s, s32 (k_tid s));
  r ← lock_in_order (omap (objs !!.) (lock_order objs)) None [];
  let '(locked, ok) := r in
  ret ← (if negb ok then mret STATUS_NOT_IMPLEMENTED else
    r ← check_objs objs tid false;
    match r with
    | inl status => mret status
    | inr abandoned =>
        r ← consume_objs objs tid abandoned;
        mret (match r with
              | None => STATUS_NOT_IMPLEMENTED
              | Some true => STATUS_ABANDONED_WAIT_0
              | Some false => STATUS_WAIT_0
              end)
    end);
  _ ← for_each locked wfusync_unlock_state;
  mret ret.

(** ** Waiting for several objects *)

(** [consume_waitany_states]: [i] is the index of the first remaining object. *)
Fixpoint consume_waitany_from (i : Z) (objs : list (Z * wait_obj)) : K Z :=
  match objs with
  | [] => mret STATUS_TIMEOUT
  | (handle, o) :: objs =>
      tid ← gets (λ s, s32 (k_tid s));
      g ← load_generation (ob_state o);
      ty ← wfusync_state_type (ob_state o);
      if negb (g =? ob_generation o) || negb (ty =? ob_type o)
      then mret STATUS_NOT_IMPLEMENTED else
      if negb (waitall_type_ok (ob_type o)) then mret STATUS_NOT_IMPLEMENTED else
      ret ← (if ob_type o =? INPROC_SYNC_EVENT then consume_event_state (ob_state o)
             else if ob_type o =? INPROC_SYNC_SEMAPHORE
             then consume_semaphore_state (ob_state o)
             else
               ret ← consume_mutex_state (ob_state o) tid;
               _ ← when (ret =? STATUS_ABANDONED)
                     (wfusync_refresh_cache_generation handle (ob_state o));
               mret ret);
      if ret =? STATUS_WAIT_0 then mret (STATUS_WAIT_0 + i)
      else if ret =? STATUS_ABANDONED then mret (STATUS_ABANDONED_WAIT_0 + i)
      else if negb (ret =? STATUS_TIMEOUT) then mret ret
      else consume_waitany_from (i + 1) objs
  end.
Definition consume_waitany_states : list (Z * wait_obj) → K Z := consume_waitany_from 0.

Definition wfusync_waitall_ret_satisfied (ret count : Z) : bool :=
  (ret =? STATUS_WAIT_0) ||
  ((STATUS_ABANDONED_WAIT_0 <=? ret) && (ret <? STATUS_ABANDONED_WAIT_0 + count)).

Definition refresh_waitall_mutex_generations (objs : list (Z * wait_obj)) : K unit :=
  for_each objs (λ ho, when (ob_type ho.2 =? INPROC_SYNC_MUTEX)
                         (wfusync_refresh_cache_generation ho.1 (ob_state ho.2))).

Inductive wait_type := WaitAll | WaitAny | WaitOther.
Definition is_wait_all (type : wait_type) : bool :=
  match type with WaitAll => true | _ => false end.

(** The loop of [wfusync_wait_multiple] over the handles, under the cache lock, which each
    of the three ways out of it gives back: inl is the status returned, without the lock,
    inr the state of one more handle, with it. *)
Definition collect_one (type : wait_type) (handle : Z) : K (Z + wait_obj) :=
  kind ← wfusync_get_handle_kind handle;
  r ← (if kind =? WFUSYNC_KIND_EVENT then get_local_event_state_locked handle SYNCHRONIZE
       else if kind =? WFUSYNC_KIND_SEMAPHORE
       then get_local_semaphore_state_locked handle SYNCHRONIZE
       else if kind =? WFUSYNC_KIND_MUTEX then get_local_mutex_state_locked handle SYNCHRONIZE
       else mret (inl STATUS_NOT_IMPLEMENTED));
  match r with
  | inl ret => _ ← unlock_wfusync_cache; mret (inl ret)
  | inr entry =>
      e ← get_entry entry;
      state ← entry_ptr entry;
      c ← ld state;
      fresh ← (if c_generation c =? fs_generation (ce_state e) then mret true
               else if (fs_type (ce_state e) =? INPROC_SYNC_MUTEX) &&
                       (type_of c =? INPROC_SYNC_MUTEX) && (c_low c <? 0)
               then _ ← modify (put_entry entry (set_entry_generation (c_generation c) e));
                    mret true
               else mret false);
      if negb fresh
      then _ ← unlock_wfusync_cache; mret (inl STATUS_NOT_IMPLEMENTED) else
      waiters ← (if is_wait_all type then wfusync_has_wine_server_waiters state
                 else wfusync_has_server_waiters state);
      if (waiters : bool)
      then _ ← unlock_wfusync_cache; mret (inl STATUS_NOT_IMPLEMENTED) else
      e ← get_entry entry;
      mret (inr (WaitObj state (fs_shm_idx (ce_state e)) (fs_generation (ce_state e))
                   (fs_type (ce_state e))))
  end.

Fixpoint collect_states (type : wait_type) (handles : list Z) : K (Z + list wait_obj) :=
  match handles with
  | [] => mret (inr [])
  | handle :: handles =>
      r ← collect_one type handle;
      match r with
      | inl ret => mret (inl ret)
      | inr o =>
          rest ← collect_states type handles;
          mret (match rest with inl ret => inl ret | inr os => inr (o :: os) end)
      end
  end.

Section wait_multiple.
Context `{PageSize}.

(** The address wait on the slot of this thread. *)
Definition wait_on_slot (t : option timespec) : K Z :=
  slot ← gets k_slot; wfusync_wait_address (default 0 slot) 1 t.

(** The loop of a WaitAll that waits in the server's registry. *)
Fixpoint waitall_loop (fuel : nat) (objs : list (Z * wait_obj)) (entries : list Z)
    (deadline : option timespec) : K Z :=
  match fuel with
  | O => no_fuel
  | S fuel =>
      slot_idx ← gets k_slot_idx;
      ret ← try_wait_all_wfusync entries slot_idx;
      if wfusync_waitall_ret_satisfied ret (Z.of_nat (length objs)) then
        _ ← when (STATUS_ABANDONED_WAIT_0 <=? ret) (refresh_waitall_mutex_generations objs);
        mret ret
      else if negb (ret =? STATUS_PENDING) then mret ret else
      t ← remaining deadline None;
      match t with
      | None => _ ← unregister_wfusync_wait; mret STATUS_TIMEOUT
      | Some t =>
          ret ← wait_on_slot t;
          if negb (ret =? STATUS_SUCCESS) then _ ← unregister_wfusync_wait; mret ret
          else waitall_loop fuel objs entries deadline
      end
  end.

Definition multi_fuel : K nat := gets (λ s, (2 + length (k_sleeps s))%nat).

Definition wait_entries (objs : list (Z * wait_obj)) : list Z :=
  mjoin ((λ ho, [ob_shm_idx ho.2; ob_generation ho.2; ob_type ho.2]) <$> objs).

Definition wait_multiple_all (objs : list (Z * wait_obj)) (timeout : option Z) : K Z :=
  ret ← try_wait_all_local objs.*2;
  if (ret =? STATUS_WAIT_0) || (ret =? STATUS_ABANDONED_WAIT_0) then
    _ ← when (ret =? STATUS_ABANDONED_WAIT_0) (refresh_waitall_mutex_generations objs);
    mret ret
  else if (ret =? STATUS_TIMEOUT) && timeout_is timeout (λ t, t =? 0) then mret ret else
  let entries := wait_entries objs in
  if timeout_is timeout (λ t, t =? 0) then
    ret ← try_wait_all_wfusync entries 0;
    _ ← when (wfusync_waitall_ret_satisfied ret (Z.of_nat (length objs)) &&
              (STATUS_ABANDONED_WAIT_0 <=? ret)) (refresh_waitall_mutex_generations objs);
    mret ret
  else
  ret ← get_wfusync_wait_slot;
  if truth ret then mret ret else
  deadline ← deadline_of timeout;
  fuel ← multi_fuel;
  waitall_loop fuel objs entries deadline.

(** The loop of a WaitAny that found nothing to consume. *)
Fixpoint waitany_loop (fuel : nat) (objs : list (Z * wait_obj))
    (deadline : option timespec) : K Z :=
  match fuel with
  | O => no_fuel
  | S fuel =>
      ret ← register_wfusync_wait (ob_shm_idx ∘ snd <$> objs);
      if truth ret then mret ret else
      ret ← consume_waitany_states objs;
      if negb (ret =? STATUS_TIMEOUT) then _ ← unregister_wfusync_wait; mret ret else
      t ← remaining deadline fallback_wait;
      match t with
      | None => _ ← unregister_wfusync_wait; mret STATUS_TIMEOUT
      | Some t =>
          ret ← wait_on_slot t;
          _ ← unregister_wfusync_wait;
          if ret =? STATUS_TIMEOUT
          then mret (if deadline then STATUS_TIMEOUT else STATUS_NOT_IMPLEMENTED)
          else if negb (ret =? STATUS_SUCCESS) then mret ret else
          ret ← consume_waitany_states objs;
          if negb (ret =? STATUS_TIMEOUT) then mret ret
          else waitany_loop fuel objs deadline
      end
  end.

Definition wait_multiple_any (objs : list (Z * wait_obj)) (timeout : option Z) : K Z :=
  ret ← consume_waitany_states objs;
  if negb (ret =? STATUS_TIMEOUT) then mret ret else
  if timeout_is timeout (λ t, t =? 0) then mret STATUS_TIMEOUT else
  ret ← get_wfusync_wait_slot;
  if truth ret then mret ret else
  deadline ← deadline_of timeout;
  fuel ← multi_fuel;
  waitany_loop fuel objs deadline.

Definition wfusync_wait_multiple (handles : list Z) (type : wait_type) (alertable : bool)
    (timeout : option Z) : K Z :=
  enabled ← gets k_enabled;
  let count := Z.of_nat (length handles) in
  if negb enabled then mret STATUS_NOT_IMPLEMENTED else
  if negb (match type with WaitOther => false | _ => true end) then mret STATUS_NOT_IMPLEMENTED else
  if alertable then mret STATUS_NOT_IMPLEMENTED else
  if timeout_is timeout (λ t, 0 <? t) then mret STATUS_NOT_IMPLEMENTED else
  if (count <? 2) || (64 <? count) then mret STATUS_NOT_IMPLEMENTED else
  if negb (is_wait_all type) && negb wfusync_address_wait_supported
  then mret STATUS_NOT_IMPLEMENTED else
  _ ← lock_wfusync_cache;
  r ← collect_states type handles;
  match r with
  | inl ret => mret ret
  | inr os =>
      _ ← unlock_wfusync_cache;
      let objs := zip handles os in
      if is_wait_all type then wait_multiple_all objs timeout
      else wait_multiple_any objs timeout
  end.
End wait_multiple.
