(* ===== verification/WfusyncClientOps.v ===== *)
(** * The client's operations on a single cell

    What each operation of src/dlls/ntdll/unix/wfusync.c does when its handle is cached
    and its cell free, as exact equations, and when it refuses. *)

From S2P Require Import Prelude.
From S2P Require Import ShmState.
From S2P Require Import WfusyncServer.
From S2P Require Import WfusyncServerOps.
From S2P Require Import WfusyncClient.

(** A process that has just started, with the server in state [w]: the static
    initialisers of the file. *)
Definition initial_client (w : wfs) : client :=
  Client w ∅ ∅ ∅ 0 ∅ 0 false (-1) 0 None true 0x24 [] true [] [].

(** ** The cache lock *)

Lemma relock (s : client) : k_locked s = false → set_locked false (set_locked true s) = s.
Proof. destruct s. simpl. by intros ->. Qed.

Lemma wp_lock_cache Q s :
  wp lock_wfusync_cache Q s ↔ k_locked s = false ∧ Q tt (set_locked true s).
Proof.
  unfold lock_wfusync_cache. rewrite wp_bind, wp_gets, wp_bind, wp_assert, wp_modify.
  by rewrite negb_true_iff.
Qed.
Lemma wp_unlock_cache Q s :
  wp unlock_wfusync_cache Q s ↔ k_locked s = true ∧ Q tt (set_locked false s).
Proof. unfold unlock_wfusync_cache. by rewrite wp_bind, wp_gets, wp_bind, wp_assert, wp_modify. Qed.

(** Code that takes the lock, when it is free, and then runs [body]. *)
Lemma wp_locked {A B} (body : K A) (f : A → K B) Q s :
  k_locked s = false → wp body (λ r s', wp (f r) Q s') (set_locked true s) →
  wp (_ ← lock_wfusync_cache; r ← body; f r) Q s.
Proof. intros Hl Hb. rewrite wp_bind, wp_lock_cache. split; [done|]. by rewrite wp_bind. Qed.

Lemma cell_at_set_locked b (s : client) p : cell_at (set_locked b s) p = cell_at s p.
Proof. done. Qed.
Lemma put_cell_set_locked b (s : client) p c :
  put_cell p c (set_locked b s) = set_locked b (put_cell p c s).
Proof. done. Qed.
Lemma cell_at_put_entry e v (s : client) p : cell_at (put_entry e v s) p = cell_at s p.
Proof. done. Qed.
#[export] Hint Rewrite cell_at_set_locked put_cell_set_locked cell_at_put_entry : shm_db.

(** ** Handles that are ready for the fast path *)

Definition usable_cell (c : cell) (ty : Z) : Prop :=
  free_cell c ty ∧ has_flag c WFUSYNC_SERVER_WAITERS = false ∧
  has_flag c WFUSYNC_MULTI_WAITERS = false.

(** The handle is cached with sufficient access for a cell at [p]. *)
Record cached (local : wfusync_cache_entry → bool) (kind ty access : Z) (handle : Z)
    (entry : Z * Z) (p : Z) (s : client) : Prop := {
  ch_enabled : k_enabled s = true;
  ch_unlocked : k_locked s = false;
  ch_kind : handle_kind s handle = kind;
  ch_index : wfusync_handle_to_index handle = Some entry;
  ch_block : is_Some (k_cache s !! entry.1);
  ch_local : local (cache_entry s entry) = true;
  ch_valid : ce_valid (cache_entry s entry) = true;
  ch_handle : ce_handle (cache_entry s entry) = handle;
  ch_ptr : fs_ptr (ce_state (cache_entry s entry)) = Some p;
  ch_type : fs_type (ce_state (cache_entry s entry)) = ty;
  ch_access : Z.land (fs_access (ce_state (cache_entry s entry))) access = access;
  ch_safe : ce_signal_unsafe (cache_entry s entry) = false;
  ch_index_safe : idx_signal_unsafe s (fs_shm_idx (ce_state (cache_entry s entry))) = false }.

(** Cached, current, and neither locked nor waited on. *)
Definition ready local kind ty access handle entry p (s : client) : Prop :=
  cached local kind ty access handle entry p s ∧
  fs_generation (ce_state (cache_entry s entry)) = c_generation (cell_at s p) ∧
  usable_cell (cell_at s p) ty.

Lemma server_or_multi c :
  has_flag c (Z.lor WFUSYNC_SERVER_WAITERS WFUSYNC_MULTI_WAITERS) =
    has_flag c WFUSYNC_SERVER_WAITERS || has_flag c WFUSYNC_MULTI_WAITERS.
Proof.
  unfold has_flag, truth. apply eq_true_iff_eq.
  rewrite orb_true_iff, !negb_true_iff, !Z.eqb_neq, Z.land_lor_distr_r.
  rewrite (Z.lor_eq_0_iff (Z.land _ _)). lia.
Qed.

Lemma locked_or_server c :
  has_flag c (Z.lor WFUSYNC_STATE_LOCKED WFUSYNC_SERVER_WAITERS) =
    has_flag c WFUSYNC_STATE_LOCKED || has_flag c WFUSYNC_SERVER_WAITERS.
Proof.
  unfold has_flag, truth. apply eq_true_iff_eq.
  rewrite orb_true_iff, !negb_true_iff, !Z.eqb_neq, Z.land_lor_distr_r.
  rewrite (Z.lor_eq_0_iff (Z.land _ _)). lia.
Qed.

(** Locking from the client: it also gives way to the server. *)
Lemma wfusync_lock_state_cases p ty (s : client) :
  wfusync_lock_state p ty s =
    let c := cell_at s p in
    if decide (type_of c = ty) then
      if has_flag c WFUSYNC_SERVER_WAITERS then Done false s
      else if has_flag c WFUSYNC_STATE_LOCKED then Spinning
      else Done true (put_cell p (locked_cell c) s)
    else Done false s.
Proof.
  unfold wfusync_lock_state, wfusync_try_lock_state, cas_type, ld, gets, mbind, M_bind.
  cbv beta zeta. fold (has_flag (cell_at s p) (Z.lor WFUSYNC_STATE_LOCKED WFUSYNC_SERVER_WAITERS)).
  rewrite locked_or_server. case_decide as E.
  - rewrite E, Z.eqb_refl. simpl. destruct (has_flag _ WFUSYNC_SERVER_WAITERS) eqn:Es.
    + rewrite orb_true_r. simpl. by rewrite E, Z.eqb_refl, Es.
    + destruct (has_flag _ WFUSYNC_STATE_LOCKED) eqn:El; simpl.
      * by rewrite E, Z.eqb_refl, Es.
      * by rewrite Z.eqb_refl.
  - rewrite (proj2 (Z.eqb_neq _ _) E). simpl. by rewrite (proj2 (Z.eqb_neq _ _) E).
Qed.

Lemma lock_free p ty (s : client) :
  free_cell (cell_at s p) ty → has_flag (cell_at s p) WFUSYNC_SERVER_WAITERS = false →
  wfusync_lock_state p ty s = Done true (put_cell p (locked_cell (cell_at s p)) s).
Proof.
  intros [Ht Hf] Hs. rewrite wfusync_lock_state_cases. cbv zeta.
  by rewrite decide_True, Hs, Hf.
Qed.

Lemma flag_locked_cell c n :
  0 ≤ n → n ≠ 13 → has_flag (locked_cell c) (2 ^ n) = has_flag c (2 ^ n).
Proof. intros. unfold locked_cell. rewrite locked_pow. apply flag_set_other; lia. Qed.

Lemma server_locked_cell c :
  has_flag (locked_cell c) WFUSYNC_SERVER_WAITERS = has_flag c WFUSYNC_SERVER_WAITERS.
Proof. rewrite server_pow. by apply flag_locked_cell. Qed.
Lemma multi_locked_cell c :
  has_flag (locked_cell c) WFUSYNC_MULTI_WAITERS = has_flag c WFUSYNC_MULTI_WAITERS.
Proof. rewrite multi_pow. by apply flag_locked_cell. Qed.

(** ** The prologues *)

Lemma get_local_exec local kind ty access handle entry p s b :
  cached local kind ty access handle entry p s →
  get_local_state_locked local ty handle access (set_locked b s) =
    Done (inr entry) (set_locked b s).
Proof.
  intros [_ _ _ Hi [m Hb] Hl Hv Hh Hp Ht Ha _ _]. apply wp_exec.
  unfold get_local_state_locked, get_wfusync_cache_entry, get_entry. rewrite Hi. destruct entry as [b' i].
  wp_run idtac. simpl in Hb. change (k_cache (set_locked b s)) with (k_cache s). rewrite Hb.
  wp_run idtac. change (cache_entry (set_locked b s)) with (cache_entry s).
  rewrite Hl, Hv, Hh, Hp, Ht, Ha, !Z.eqb_refl, bool_decide_true by done. done.
Qed.

(** The prologue accepts a cached handle whose cell nobody waits on, unchanged. *)
Lemma locked_prologue_exec local kind ty access hotpath waiting handle entry p s :
  cached local kind ty access handle entry p s →
  usable_cell (cell_at s p) ty →
  locked_prologue (get_local_state_locked local ty) access hotpath waiting handle s =
    Done (inr (entry, p, fs_generation (ce_state (cache_entry s entry)))) s.
Proof.
  intros Hc (Hf & Hsv & Hmu). pose proof (ch_unlocked _ _ _ _ _ _ _ _ Hc) as Hl.
  pose proof (get_local_exec _ _ _ _ _ _ _ _ true Hc) as Hg. apply wp_exec. apply wp_locked; [done|].
  eapply wp_of_exec; [exact Hg|]. cbv beta iota.
  unfold entry_ptr, entry_generation, wfusync_entry_signal_hotpath_enabled, get_entry,
    wfusync_shm_idx_signal_unsafe, wfusync_has_server_waiters.
  destruct hotpath; wp_run ltac:(first
    [ rewrite wp_ld
    | progress (change (cache_entry (set_locked true s)) with (cache_entry s))
    | progress (change (idx_signal_unsafe (set_locked true s)) with (idx_signal_unsafe s))
    | rewrite (ch_ptr _ _ _ _ _ _ _ _ Hc) | rewrite (ch_safe _ _ _ _ _ _ _ _ Hc)
    | rewrite (ch_index_safe _ _ _ _ _ _ _ _ Hc) | progress (cbn [negb andb default]) ]);
    unfold id; rewrite cell_at_set_locked, server_or_multi, Hsv, Hmu;
    cbn [orb]; rewrite andb_false_r, wp_bind, wp_unlock_cache, relock by done; done.
Qed.

Lemma signal_prologue_exec local kind ty access hotpath handle entry p s :
  cached local kind ty access handle entry p s →
  usable_cell (cell_at s p) ty →
  signal_prologue kind (get_local_state_locked local ty) access hotpath handle s =
    Done (inr (entry, p, fs_generation (ce_state (cache_entry s entry)))) s.
Proof.
  intros Hc Hu. unfold signal_prologue, wfusync_handle_kind_matches, wfusync_get_handle_kind.
  apply wp_exec. wp_run idtac. rewrite (ch_enabled _ _ _ _ _ _ _ _ Hc). cbn [negb].
  wp_run idtac. rewrite (ch_kind _ _ _ _ _ _ _ _ Hc), Z.eqb_refl. cbn [negb].
  eapply wp_of_exec; [by eapply locked_prologue_exec|done].
Qed.

Lemma wait_prologue_exec local kind ty hotpath handle entry p timeout s :
  cached local kind ty SYNCHRONIZE handle entry p s →
  usable_cell (cell_at s p) ty →
  timeout_is timeout (λ t, 0 <? t) = false →
  wait_prologue kind (get_local_state_locked local ty) hotpath handle false timeout s =
    Done (inr (entry, p, fs_generation (ce_state (cache_entry s entry)))) s.
Proof.
  intros Hc Hu Ht. unfold wait_prologue, wfusync_get_handle_kind.
  apply wp_exec. wp_run idtac. rewrite (ch_enabled _ _ _ _ _ _ _ _ Hc). cbn [negb].
  wp_run idtac. rewrite (ch_kind _ _ _ _ _ _ _ _ Hc), Z.eqb_refl, Ht.
  rewrite andb_false_r.
  eapply wp_of_exec; [by eapply locked_prologue_exec|done].
Qed.

Lemma lock_and_validate_exec p ty g s :
  usable_cell (cell_at s p) ty → c_generation (cell_at s p) = g →
  lock_and_validate p ty g s = Done true (put_cell p (locked_cell (cell_at s p)) s).
Proof.
  intros (Hf & Hsv & Hmu) Hg. apply wp_exec. unfold lock_and_validate. rewrite wp_bind.
  eapply wp_of_exec; [by apply lock_free|]. unfold load_generation, wfusync_has_server_waiters.
  wp_run ltac:(first [rewrite wp_ld | progress (cbn [negb])]). autorewrite with shm_db.
  rewrite Hg, Z.eqb_refl, server_or_multi, server_locked_cell, multi_locked_cell, Hsv, Hmu. done.
Qed.

Lemma has_multi_exec p (s : client) :
  wfusync_has_multi_waiters p s = Done (has_flag (cell_at s p) WFUSYNC_MULTI_WAITERS) s.
Proof. done. Qed.

(** ** The operations *)

(** Symbolic execution of what follows the prologues, with [Hf] the free cell and [Hu]
    its waiter bits. *)
Ltac run_client Hf Hu :=
  wp_run ltac:(first
    [ rewrite wp_unlock_state | rewrite wp_ld | rewrite wp_st | rewrite wp_wake
    | progress (unfold wfusync_unlock_state, wfusync_atomic_load, load_high,
        wfusync_atomic_compare_exchange, wfusync_has_multi_waiters)
    | progress (cbn [negb fst snd andb])
    | progress (autorewrite with shm_db)
    | rewrite (unlocked_locked_cell _ _ Hf)
    | rewrite Z.eqb_refl
    | progress (rewrite ?(proj2 (proj2 Hu)))
    | match goal with |- context [if ?b then _ else _] => destruct b eqn:? end ]).

Lemma multi_set_low v c : has_flag (set_low v c) WFUSYNC_MULTI_WAITERS = has_flag c WFUSYNC_MULTI_WAITERS.
Proof. done. Qed.
Lemma multi_set_high v c : has_flag (set_high v c) WFUSYNC_MULTI_WAITERS = has_flag c WFUSYNC_MULTI_WAITERS.
Proof. done. Qed.
#[export] Hint Rewrite multi_set_low multi_set_high multi_locked_cell andb_false_r : shm_db.

Section event_client.
Context `{PageSize}.
Context (handle access p : Z) (entry : Z * Z) (s : client).
Context (Hr : ready ce_local_event WFUSYNC_KIND_EVENT INPROC_SYNC_EVENT access handle entry p s).
Notation c := (cell_at s p).

Lemma client_set_event_exec :
  access = EVENT_MODIFY_STATE →
  wfusync_set_event handle s =
    let s' := put_cell p (set_low 1 c) s in
    Done (STATUS_SUCCESS, Some (c_low c))
      (if truth (c_low c) then s' else add_wake p (truth (c_high c)) s').
Proof using Hr.
  intros ->. destruct Hr as (Hc & Hg & Hu). pose proof (proj1 Hu) as Hf.
  apply wp_exec. unfold wfusync_set_event. rewrite wp_bind.
  eapply wp_of_exec; [by apply signal_prologue_exec|]. cbv beta iota. rewrite wp_bind.
  eapply wp_of_exec; [by apply lock_and_validate_exec|].
  run_client Hf Hu; simplify_eq/=; done.
Qed.

Lemma client_reset_event_exec :
  access = EVENT_MODIFY_STATE →
  wfusync_reset_event handle s =
    Done (STATUS_SUCCESS, Some (c_low c)) (put_cell p (set_low 0 c) s).
Proof using Hr.
  intros ->. destruct Hr as (Hc & Hg & Hu). pose proof (proj1 Hu) as Hf.
  apply wp_exec. unfold wfusync_reset_event. rewrite wp_bind.
  eapply wp_of_exec; [by apply signal_prologue_exec|]. cbv beta iota. rewrite wp_bind.
  eapply wp_of_exec; [by apply lock_and_validate_exec|].
  run_client Hf Hu; simplify_eq/=; done.
Qed.
End event_client.

Section semaphore_client.
Context `{PageSize}.
Context (handle access p : Z) (entry : Z * Z) (s : client).
Context (Hr : ready ce_local_semaphore WFUSYNC_KIND_SEMAPHORE INPROC_SYNC_SEMAPHORE
                access handle entry p s).
Notation c := (cell_at s p).

Lemma client_release_semaphore_exec count :
  access = SEMAPHORE_MODIFY_STATE →
  wfusync_release_semaphore handle count s =
    if semaphore_limit_exceeded (c_low c) count (c_high c)
    then Done (STATUS_SEMAPHORE_LIMIT_EXCEEDED, None) s
    else
      let s' := put_cell p (set_low (s32 (c_low c + count)) c) s in
      Done (STATUS_SUCCESS, Some (u32 (c_low c)))
        (if c_low c =? 0 then add_wake p (1 <? count) s' else s').
Proof using Hr.
  intros ->. destruct Hr as (Hc & Hg & Hu). pose proof (proj1 Hu) as Hf.
  destruct (semaphore_limit_exceeded _ _ _) eqn:E;
    apply wp_exec; unfold wfusync_release_semaphore; rewrite wp_bind;
    (eapply wp_of_exec; [by apply signal_prologue_exec|]); cbv beta iota; rewrite wp_bind;
    (eapply wp_of_exec; [by apply lock_and_validate_exec|]);
    run_client Hf Hu; simplify_eq/=; (split; [done|]);
    rewrite ?(put_cell_id _ _ _ Hf) by done; done.
Qed.
End semaphore_client.

Section mutex_client.
Context `{PageSize}.
Context (handle p : Z) (entry : Z * Z) (s : client).
Context (Hr : ready ce_local_mutex WFUSYNC_KIND_MUTEX INPROC_SYNC_MUTEX 0 handle entry p s).
Notation c := (cell_at s p).

Lemma client_release_mutex_exec :
  wfusync_release_mutex handle s =
    if negb (c_low c =? s32 (k_tid s)) || (c_high c =? 0) then
      Done (STATUS_MUTANT_NOT_OWNED, None) s
    else if 1 <? c_high c then
      Done (STATUS_SUCCESS, Some (s32 (1 - c_high c))) (put_cell p (set_high (c_high c - 1) c) s)
    else Done (STATUS_SUCCESS, Some (s32 (1 - c_high c)))
           (add_wake p false (put_cell p (set_low 0 (set_high 0 c)) s)).
Proof using Hr.
  destruct Hr as (Hc & Hg & Hu). pose proof (proj1 Hu) as Hf.
  destruct (negb (c_low c =? s32 (k_tid s)) || (c_high c =? 0)) eqn:E1;
    [|destruct (1 <? c_high c) eqn:E2];
    apply wp_exec; unfold wfusync_release_mutex; wp_run idtac;
    (eapply wp_of_exec; [by apply signal_prologue_exec|]); cbv beta iota; rewrite wp_bind;
    (eapply wp_of_exec; [by apply lock_and_validate_exec|]);
    run_client Hf Hu; simplify_eq/=; (split; [done|]);
    rewrite ?(put_cell_id _ _ _ Hf) by done; done.
Qed.

Lemma client_query_mutex_exec :
  Z.land (fs_access (ce_state (cache_entry s entry))) MUTANT_QUERY_STATE = MUTANT_QUERY_STATE →
  wfusync_query_mutex handle s =
    Done (STATUS_SUCCESS,
          Some (s32 (1 - (if c_low c <? 0 then 0 else c_high c)), c_low c =? s32 (k_tid s),
                c_low c <? 0)) s.
Proof using Hr.
  destruct Hr as (Hc & Hg & Hu). pose proof (proj1 Hu) as Hf. intros Ha.
  unfold wfusync_query_mutex. apply wp_exec. wp_run idtac.
  rewrite (ch_enabled _ _ _ _ _ _ _ _ Hc). cbn [negb].
  unfold wfusync_handle_kind_matches, wfusync_get_handle_kind.
  wp_run idtac. rewrite (ch_kind _ _ _ _ _ _ _ _ Hc), Z.eqb_refl. cbn [negb].
  assert (cached ce_local_mutex WFUSYNC_KIND_MUTEX INPROC_SYNC_MUTEX MUTANT_QUERY_STATE
            handle entry p s) as Hc' by (destruct Hc; by split).
  apply wp_locked; [by apply ch_unlocked in Hc|].
  eapply wp_of_exec; [by eapply get_local_exec|]. cbv beta iota. unfold entry_ptr, get_entry.
  wp_run idtac. change (cache_entry (set_locked true s)) with (cache_entry s).
  rewrite (ch_ptr _ _ _ _ _ _ _ _ Hc). simpl default. unfold id.
  eapply wp_of_exec; [apply lock_free; [done|apply Hu]|]. cbn [negb].
  run_client Hf Hu; simplify_eq/=; rewrite wp_unlock_cache; (split; [by destruct s|]);
    wp_run idtac; (split; [done|]); rewrite relock by (by destruct Hc); by rewrite (put_cell_id _ _ _ Hf).
Qed.
End mutex_client.

(** ** Consuming *)

Section consume.
Context (s : client) (p : Z).
Notation c := (cell_at s p).
Context (Hsv : has_flag c WFUSYNC_SERVER_WAITERS = false).

Lemma consume_event_exec :
  free_cell c INPROC_SYNC_EVENT →
  (c_low c = 0 ∨ c_low c = 1) →
  consume_event_state p s =
    if c_low c =? 0 then Done STATUS_TIMEOUT s
    else Done STATUS_WAIT_0 (if truth (c_high c) then s else put_cell p (set_low 0 c) s).
Proof using All.
  intros Hf Hl. destruct (c_low c =? 0) eqn:E; apply wp_exec; unfold consume_event_state;
  rewrite wp_bind; (eapply wp_of_exec; [by apply lock_free|]); unfold consume_auto_event_state;
  run_client Hf Hsv; simplify_eq/=; rewrite ?(put_cell_id _ _ _ Hf) by done;
    try (split; [done|]); try done; exfalso; destruct Hl as [El|El]; rewrite El in *; done.
Qed.

Lemma consume_semaphore_exec :
  free_cell c INPROC_SYNC_SEMAPHORE →
  consume_semaphore_state p s =
    if c_low c <=? 0 then Done STATUS_TIMEOUT s
    else Done STATUS_WAIT_0 (put_cell p (set_low (c_low c - 1) c) s).
Proof using All.
  intros Hf. destruct (c_low c <=? 0) eqn:E; apply wp_exec; unfold consume_semaphore_state;
    rewrite wp_bind; (eapply wp_of_exec; [by apply lock_free|]);
    run_client Hf Hsv; simplify_eq/=; rewrite ?(put_cell_id _ _ _ Hf) by done; done.
Qed.

Lemma consume_mutex_exec tid :
  free_cell c INPROC_SYNC_MUTEX →
  consume_mutex_state p tid s =
    if c_low c =? tid then
      if c_high c =? INT_MAX then Done STATUS_NOT_IMPLEMENTED s
      else Done STATUS_WAIT_0 (put_cell p (set_high (c_high c + 1) c) s)
    else if (c_low c =? 0) || (c_low c <? 0) then
      Done (if c_low c <? 0 then STATUS_ABANDONED else STATUS_WAIT_0)
        (put_cell p (set_high 1 (set_low tid
           (if c_low c <? 0 then set_generation (u32 (c_generation c + 1)) c else c))) s)
    else Done STATUS_TIMEOUT s.
Proof using All.
  intros Hf. destruct (c_low c =? tid) eqn:E1; [destruct (c_high c =? INT_MAX) eqn:E2|
    destruct ((c_low c =? 0) || (c_low c <? 0)) eqn:E2];
    apply wp_exec; unfold consume_mutex_state, consume_mutex_state_locked;
    rewrite wp_bind; (eapply wp_of_exec; [by apply lock_free|]);
    run_client Hf Hsv; simplify_eq/=; rewrite ?(put_cell_id _ _ _ Hf) by done; done.
Qed.
End consume.
