(* ===== verification/WfusyncLock.v ===== *)
(** * The lock bit between processes

    [lock_state] and [try_wait_all] of src/server/wfusync.c and [wfusync_lock_state] and
    [try_wait_all_local] of src/dlls/ntdll/unix/wfusync.c, one atomic access of a type
    word per step, interleaved in any order: one server and any number of client threads,
    each of which locks the cells of an increasing list (one cell for a signal or a wait on
    one object). What is done under the lock is left open: the steps only say who is
    inside. *)

From Stdlib Require Import Sorted.
From stdpp Require Import functions sorting.
From S2P Require Import Prelude.
From S2P Require Import ShmState.
From S2P Require Import WfusyncServer.
From S2P Require Import WfusyncRegistry.
From S2P Require Import WfusyncClient.
From S2P Require Import WfusyncClientOps.

(** ** Type words *)

Definition wtype (w : Z) : Z := Z.land w WFUSYNC_TYPE_MASK.
Definition wflag (w flag : Z) : bool := truth (Z.land w flag).
Definition wset (w flag : Z) : Z := Z.lor w flag.
Definition wclear (w flag : Z) : Z := Z.land w (Z.lnot flag).

Notation LOCKED := WFUSYNC_STATE_LOCKED (only parsing).
Notation SERVER := WFUSYNC_SERVER_WAITERS (only parsing).
Notation MULTI := WFUSYNC_MULTI_WAITERS (only parsing).

Definition is_word_flag (f : Z) : Prop := f = LOCKED ∨ f = SERVER ∨ f = MULTI.

Definition cell_of_word (w : Z) : cell := Cell 0 0 0 w 0.

(** The flags are the bits 13 to 15, so the facts about cells apply. *)
Lemma word_flag_pow f : is_word_flag f → ∃ n, f = 2 ^ n ∧ is_flag n.
Proof. by intros [->|[->| ->]]; [exists 13|exists 15|exists 14]. Qed.

Lemma wtype_set w f : is_word_flag f → wtype (wset w f) = wtype w.
Proof. intros (n & -> & Hn)%word_flag_pow. exact (type_of_set_flag (cell_of_word w) n Hn). Qed.
Lemma wtype_clear w f : is_word_flag f → wtype (wclear w f) = wtype w.
Proof. intros (n & -> & Hn)%word_flag_pow. exact (type_of_clear_flag (cell_of_word w) n Hn). Qed.
Lemma wflag_set_same w f : is_word_flag f → wflag (wset w f) f = true.
Proof.
  intros (n & -> & Hn)%word_flag_pow. apply (flag_set_same (cell_of_word w)). unfold is_flag in Hn. lia.
Qed.
Lemma wflag_clear_same w f : is_word_flag f → wflag (wclear w f) f = false.
Proof.
  intros (n & -> & Hn)%word_flag_pow. apply (flag_clear_same (cell_of_word w)). unfold is_flag in Hn. lia.
Qed.
Lemma wflag_set_other w f g :
  is_word_flag f → is_word_flag g → f ≠ g → wflag (wset w f) g = wflag w g.
Proof.
  intros (n & -> & Hn)%word_flag_pow (m & -> & Hm)%word_flag_pow Hne. unfold is_flag in *.
  apply (flag_set_other (cell_of_word w)); [lia|lia|congruence].
Qed.
Lemma wflag_clear_other w f g :
  is_word_flag f → is_word_flag g → f ≠ g → wflag (wclear w f) g = wflag w g.
Proof.
  intros (n & -> & Hn)%word_flag_pow (m & -> & Hm)%word_flag_pow Hne. unfold is_flag in *.
  apply (flag_clear_other (cell_of_word w)); [lia|lia|congruence].
Qed.
Lemma locked_flag : is_word_flag LOCKED. Proof. by left. Qed.
Lemma server_word_flag : is_word_flag SERVER. Proof. by right; left. Qed.
#[export] Hint Resolve locked_flag server_word_flag : core.
#[export] Hint Rewrite wtype_set wtype_clear wflag_set_same wflag_clear_same
  wflag_set_other wflag_clear_other using done : word_db.

(** ** The agents *)

(** The tests of [wfusync_try_lock_state] and of the loop around it, and of
    [wfusync_try_wait_all]. *)
Definition can_lock (ty w : Z) : bool :=
  (wtype w =? ty) && negb (truth (Z.land w (Z.lor LOCKED SERVER))).
Definition gives_up (ty w : Z) : bool := negb (wtype w =? ty) || wflag w SERVER.
Definition can_guard (ty w : Z) : bool :=
  (wtype w =? ty) && negb (truth (Z.land w (Z.lor LOCKED SERVER))).

Lemma both_flags w : truth (Z.land w (Z.lor LOCKED SERVER)) = wflag w LOCKED || wflag w SERVER.
Proof.
  unfold wflag, truth. rewrite Z.land_lor_distr_r, <- negb_andb. f_equal.
  apply eq_true_iff_eq. rewrite andb_true_iff, !Z.eqb_eq. apply Z.lor_eq_0_iff.
Qed.

(** A client thread: the cells it holds, the last one first, and those it has still to
    lock, before each atomic access that it makes. *)
Inductive client_pc :=
| CTry (held todo : list Z)                       (* load, or all cells are locked *)
| CCas (held : list Z) (p : Z) (todo : list Z) (old : Z)
| CLook (held : list Z) (p : Z) (todo : list Z)   (* the second load *)
| CIn (held : list Z)                             (* all cells are locked *)
| COut (held : list Z).                           (* unlocking *)

(** The server: at rest, in [lock_state], with the lock, or guarding cells for a wait-all. *)
Inductive server_pc :=
| SIdle
| SLoad (p : Z)
| SCas (p old : Z)
| SIn (p : Z)
| SGuard (guarded todo : list Z)
| SGuardCas (guarded : list Z) (p : Z) (todo : list Z) (old : Z)
| SGuarded (guarded : list Z)
| SUnguard (guarded : list Z).

Record sys := Sys { words : Z → Z; clients : list client_pc; server_at : server_pc }.

Section steps.
Context (ty : Z → Z).
Implicit Types (w : Z → Z).

(** One atomic access of a client, or one move between two. [C_quit] is the exit of
    [try_wait_all_local] on a stale generation or a manual-reset event. *)
Inductive client_step : (Z → Z) → client_pc → (Z → Z) → client_pc → Prop :=
| C_load w held p todo :
    client_step w (CTry held (p :: todo))
      w (if can_lock (ty p) (w p) then CCas held p todo (w p) else CLook held p todo)
| C_cas w held p todo :
    client_step w (CCas held p todo (w p)) (<[p := wset (w p) LOCKED]> w) (CTry (p :: held) todo)
| C_cas_fails w held p todo old :
    w p ≠ old → client_step w (CCas held p todo old) w (CLook held p todo)
| C_look w held p todo :
    client_step w (CLook held p todo)
      w (if gives_up (ty p) (w p) then COut held else CTry held (p :: todo))
| C_quit w p held todo : client_step w (CTry (p :: held) todo) w (COut (p :: held))
| C_enter w held : client_step w (CTry held []) w (CIn held)
| C_leave w held : client_step w (CIn held) w (COut held)
| C_unlock w p held :
    client_step w (COut (p :: held)) (<[p := wclear (w p) LOCKED]> w) (COut held).

Inductive server_step : (Z → Z) → server_pc → (Z → Z) → server_pc → Prop :=
| S_lock w p : server_step w SIdle w (SLoad p)
| S_load w p :
    server_step w (SLoad p) w
      (if negb (wtype (w p) =? ty p) then SIdle
       else if wflag (w p) LOCKED then SLoad p else SCas p (w p))
| S_cas w p : server_step w (SCas p (w p)) (<[p := wset (w p) LOCKED]> w) (SIn p)
| S_cas_fails w p old : w p ≠ old → server_step w (SCas p old) w (SLoad p)
| S_unlock w p : server_step w (SIn p) (<[p := wclear (w p) LOCKED]> w) SIdle
| S_set_flag w p f : f = SERVER ∨ f = MULTI → server_step w SIdle (<[p := wset (w p) f]> w) SIdle
| S_clear_flag w p f : f = SERVER ∨ f = MULTI → server_step w SIdle (<[p := wclear (w p) f]> w) SIdle
| S_retire w p : server_step w SIdle (<[p := INPROC_SYNC_UNKNOWN]> w) SIdle
| S_wait_all w l : server_step w SIdle w (SGuard [] l)
| S_guard_load w guarded p todo :
    server_step w (SGuard guarded (p :: todo)) w
      (if can_guard (ty p) (w p) then SGuardCas guarded p todo (w p) else SUnguard guarded)
| S_guard_cas w guarded p todo :
    server_step w (SGuardCas guarded p todo (w p)) (<[p := wset (w p) SERVER]> w) (SGuard (p :: guarded) todo)
| S_guard_cas_fails w guarded p todo old :
    w p ≠ old → server_step w (SGuardCas guarded p todo old) w (SUnguard guarded)
| S_guard_quit w guarded todo : server_step w (SGuard guarded todo) w (SUnguard guarded)
| S_guard_in w guarded : server_step w (SGuard guarded []) w (SGuarded guarded)
| S_guard_done w guarded : server_step w (SGuarded guarded) w (SUnguard guarded)
| S_unguard w p guarded :
    server_step w (SUnguard (p :: guarded)) (<[p := wclear (w p) SERVER]> w) (SUnguard guarded)
| S_wait_all_done w : server_step w (SUnguard []) w SIdle.

Inductive step : sys → sys → Prop :=
| step_client w w' cs i pc pc' sv :
    cs !! i = Some pc → client_step w pc w' pc' →
    step (Sys w cs sv) (Sys w' (<[i := pc']> cs) sv)
| step_server w w' cs sv sv' :
    server_step w sv w' sv' → step (Sys w cs sv) (Sys w' cs sv').

(** At the start no cell is locked, and every client is about to lock the cells of an
    increasing list. *)
Definition initial (s : sys) : Prop :=
  (∀ p, wflag (words s p) LOCKED = false) ∧ server_at s = SIdle ∧
  ∀ i pc, clients s !! i = Some pc → ∃ l, pc = CTry [] l ∧ StronglySorted Z.lt l.

Definition c_held (pc : client_pc) : list Z :=
  match pc with
  | CTry held _ | CCas held _ _ _ | CLook held _ _ | CIn held | COut held => held
  end.
Definition s_held (sv : server_pc) : list Z := match sv with SIn p => [p] | _ => [] end.
Definition s_guarded (sv : server_pc) : list Z :=
  match sv with SGuard g _ | SGuardCas g _ _ _ | SGuarded g | SUnguard g => g | _ => [] end.
Definition c_todo (pc : client_pc) : list Z :=
  match pc with CTry _ todo => todo | CCas _ p todo _ | CLook _ p todo => p :: todo | _ => [] end.

(** Everyone who holds a lock, cell by cell. *)
Definition holders (s : sys) : list Z := concat (c_held <$> clients s) ++ s_held (server_at s).
Definition live (s : sys) (p : Z) : Prop := wtype (words s p) = ty p.
End steps.

(** ** The invariant *)

Section invariant.
Context (ty : Z → Z).
Implicit Types (s : sys) (w : Z → Z) (pc : client_pc).

Record lock_inv s : Prop := {
  li_count : ∀ p, live ty s p → occ p (holders s) = b2z (wflag (words s p) LOCKED);
  li_guard : ∀ p, p ∈ s_guarded (server_at s) → live ty s p →
    wflag (words s p) LOCKED = false ∧ wflag (words s p) SERVER = true;
  li_nodup : NoDup (s_guarded (server_at s));
  li_client : ∀ i pc, clients s !! i = Some pc →
    StronglySorted Z.lt (rev (c_held pc) ++ c_todo pc) ∧
    match pc with CCas _ p _ old => can_lock (ty p) old = true | _ => True end;
  li_server : match server_at s with
    | SCas p old => wtype old = ty p ∧ wflag old LOCKED = false
    | SGuardCas _ p _ old => can_guard (ty p) old = true
    | _ => True
    end }.

Lemma can_lock_true t x :
  can_lock t x = true ↔ wtype x = t ∧ wflag x LOCKED = false ∧ wflag x SERVER = false.
Proof.
  unfold can_lock. rewrite both_flags, andb_true_iff, Z.eqb_eq, negb_true_iff, orb_false_iff. done.
Qed.
Lemma can_guard_true t x :
  can_guard t x = true ↔ wtype x = t ∧ wflag x LOCKED = false ∧ wflag x SERVER = false.
Proof. apply can_lock_true. Qed.

Lemma occ_app p l l' : occ p (l ++ l') = occ p l + occ p l'.
Proof. unfold occ. rewrite count_occ_app. lia. Qed.

Lemma elem_of_concat {A} (x : A) ls : x ∈ concat ls ↔ ∃ l, x ∈ l ∧ l ∈ ls.
Proof.
  rewrite list_elem_of_In, in_concat. split; intros (l & H1 & H2); exists l; by rewrite !list_elem_of_In in *.
Qed.

Lemma occ_concat_insert p (cs : list client_pc) i pc pc' :
  cs !! i = Some pc →
  occ p (concat (c_held <$> <[i := pc']> cs)) + occ p (c_held pc) =
  occ p (concat (c_held <$> cs)) + occ p (c_held pc').
Proof.
  revert i. induction cs as [|x cs IH]; intros [|i] Hi; csimpl in *; [done..| |].
  - injection Hi as ->. rewrite !occ_app. lia.
  - rewrite !occ_app. specialize (IH _ Hi). lia.
Qed.

Lemma holders_insert p w cs sv i pc w' pc' :
  cs !! i = Some pc →
  occ p (holders (Sys w' (<[i := pc']> cs) sv)) + occ p (c_held pc) =
  occ p (holders (Sys w cs sv)) + occ p (c_held pc').
Proof.
  intros Hi. unfold holders. simpl. rewrite !occ_app. pose proof (occ_concat_insert p cs i pc pc' Hi). lia.
Qed.

Lemma holders_held p s i pc : clients s !! i = Some pc → occ p (c_held pc) ≤ occ p (holders s).
Proof.
  intros Hi. unfold holders. rewrite occ_app. pose proof (occ_nonneg p (s_held (server_at s))).
  enough (occ p (c_held pc) ≤ occ p (concat (c_held <$> clients s))) by lia.
  revert i Hi. induction (clients s) as [|x cs IH]; intros [|i] Hi; csimpl in *; [done..| |].
  - injection Hi as ->. rewrite occ_app. pose proof (occ_nonneg p (concat (c_held <$> cs))). lia.
  - rewrite occ_app. pose proof (occ_nonneg p (c_held x)). specialize (IH _ Hi). lia.
Qed.

(** What a step may do to the word of a cell. *)
Lemma live_set s p q f :
  is_word_flag f → (wtype ((<[p := wset (words s p) f]> (words s)) q) = ty q ↔ live ty s q).
Proof.
  intros Hf. unfold live. destruct (decide (p = q)) as [->|Hne].
  - by rewrite fn_lookup_insert, wtype_set.
  - by rewrite fn_lookup_insert_ne.
Qed.
Lemma live_clear s p q f :
  is_word_flag f → (wtype ((<[p := wclear (words s p) f]> (words s)) q) = ty q ↔ live ty s q).
Proof.
  intros Hf. unfold live. destruct (decide (p = q)) as [->|Hne].
  - by rewrite fn_lookup_insert, wtype_clear.
  - by rewrite fn_lookup_insert_ne.
Qed.

Lemma sorted_held_shift held p (todo : list Z) :
  rev held ++ p :: todo = rev (p :: held) ++ todo.
Proof. simpl. by rewrite <- app_assoc. Qed.

(** The part of the invariant about the other clients. *)
Lemma client_inv_insert s i pc' :
  lock_inv s →
  StronglySorted Z.lt (rev (c_held pc') ++ c_todo pc') →
  match pc' with CCas _ p _ old => can_lock (ty p) old = true | _ => True end →
  ∀ j pc, <[i := pc']> (clients s) !! j = Some pc →
    StronglySorted Z.lt (rev (c_held pc) ++ c_todo pc) ∧
    match pc with CCas _ p _ old => can_lock (ty p) old = true | _ => True end.
Proof.
  intros Hinv H1 H2 j pc Hj. apply list_lookup_insert_Some in Hj as [(-> & <- & _)|[_ Hj]]; [done|].
  by eapply li_client.
Qed.

(** A client changes its counter without writing to memory or releasing anything. *)
Lemma client_move_inv w cs sv i pc pc' :
  lock_inv (Sys w cs sv) → cs !! i = Some pc → c_held pc' = c_held pc →
  StronglySorted Z.lt (rev (c_held pc') ++ c_todo pc') →
  match pc' with CCas _ p _ old => can_lock (ty p) old = true | _ => True end →
  lock_inv (Sys w (<[i := pc']> cs) sv).
Proof.
  intros Hinv Hi Hh Hs Hc. pose proof Hinv as [H1 H2 H3 H4 H5]. split; simpl in *; try done.
  - intros p Hl. pose proof (holders_insert p w cs sv i pc w pc' Hi). rewrite Hh in *.
    specialize (H1 p Hl). lia.
  - by apply (client_inv_insert (Sys w cs sv)).
Qed.

Lemma sorted_app_l {A} (R : A → A → Prop) l l' : StronglySorted R (l ++ l') → StronglySorted R l.
Proof. intros Hs. by apply StronglySorted_app in Hs as (_ & ? & _). Qed.
End invariant.

Section preservation.
Context (ty : Z → Z) (Hty : ∀ p, ty p ≠ INPROC_SYNC_UNKNOWN).
Implicit Types (s : sys) (w : Z → Z) (pc : client_pc).
Notation lock_inv := (lock_inv ty).


Lemma lock_word_inv w cs sv i held p todo :
  lock_inv (Sys w cs sv) → cs !! i = Some (CCas held p todo (w p)) →
  lock_inv (Sys (<[p := wset (w p) LOCKED]> w) (<[i := CTry (p :: held) todo]> cs) sv).
Proof using Hty.
  intros Hinv Hi. pose proof Hinv as [H1 H2 H3 H4 H5]. simpl in *.
  destruct (H4 _ _ Hi) as [Hs (Ht & HL & HS)%can_lock_true].
  split; simpl; [| |done| |done].
  - intros q Hl. apply (live_set ty (Sys w cs sv)) in Hl; [|done].
    pose proof (holders_insert q w cs sv i _ (<[p := wset (w p) LOCKED]> w) (CTry (p :: held) todo) Hi) as Ho.
    cbn [c_held] in Ho. rewrite occ_cons in Ho. specialize (H1 q Hl). simpl in H1.
    destruct (decide (q = p)) as [->|Hne].
    + rewrite fn_lookup_insert, wflag_set_same by done. rewrite HL in H1. simpl in *. lia.
    + rewrite fn_lookup_insert_ne by done. lia.
  - intros q Hg Hl. apply (live_set ty (Sys w cs sv)) in Hl; [|done].
    destruct (H2 q Hg Hl) as [HqL HqS]. destruct (decide (p = q)) as [->|Hne]; [congruence|].
    by rewrite fn_lookup_insert_ne.
  - apply (client_inv_insert ty (Sys w cs sv)); [done| |done].
    simpl in Hs. rewrite sorted_held_shift in Hs. exact Hs.
Qed.

Lemma unlock_word_inv w cs sv i held p :
  lock_inv (Sys w cs sv) → cs !! i = Some (COut (p :: held)) →
  lock_inv (Sys (<[p := wclear (w p) LOCKED]> w) (<[i := COut held]> cs) sv).
Proof using Hty.
  intros Hinv Hi. pose proof Hinv as [H1 H2 H3 H4 H5]. simpl in *.
  destruct (H4 _ _ Hi) as [Hs _]. pose proof (holders_held p (Sys w cs sv) i _ Hi) as Hp.
  cbn [c_held] in Hp. rewrite occ_cons, decide_True in Hp by done. pose proof (occ_nonneg p held) as Hp0.
  split; simpl; [| |done| |done].
  - intros q Hl. apply (live_clear ty (Sys w cs sv)) in Hl; [|done].
    pose proof (holders_insert q w cs sv i _ (<[p := wclear (w p) LOCKED]> w) (COut held) Hi) as Ho.
    cbn [c_held] in Ho. rewrite occ_cons in Ho. specialize (H1 q Hl). simpl in H1.
    destruct (decide (q = p)) as [->|Hne].
    + rewrite fn_lookup_insert, wflag_clear_same by done. simpl.
      destruct (wflag (w p) LOCKED); simpl in *; lia.
    + rewrite fn_lookup_insert_ne by done. lia.
  - intros q Hg Hl. apply (live_clear ty (Sys w cs sv)) in Hl; [|done].
    destruct (H2 q Hg Hl) as [HqL HqS]. destruct (decide (p = q)) as [->|Hne].
    + rewrite fn_lookup_insert, wflag_clear_same, wflag_clear_other by done. done.
    + by rewrite fn_lookup_insert_ne.
  - apply (client_inv_insert ty (Sys w cs sv)); [done| |done].
    simpl in *. rewrite app_nil_r in *. by apply sorted_app_l in Hs.
Qed.

Lemma client_step_inv w cs sv i pc w' pc' :
  lock_inv (Sys w cs sv) → cs !! i = Some pc → client_step ty w pc w' pc' →
  lock_inv (Sys w' (<[i := pc']> cs) sv).
Proof using Hty.
  intros Hinv Hi Hstep. pose proof (li_client _ _ Hinv _ _ Hi) as [Hs Hc].
  destruct Hstep as [w held p todo|w held p todo|w held p todo old Hne|w held p todo|w p held todo
    |w held|w held|w p held]; simpl in Hs, Hc.
  - eapply client_move_inv; [done|done| | |]; destruct (can_lock (ty p) (w p)) eqn:E; done.
  - by apply lock_word_inv.
  - by eapply client_move_inv.
  - eapply client_move_inv; [done|done| | |]; destruct (gives_up (ty p) (w p)); try done.
    simpl. rewrite app_nil_r. by apply sorted_app_l in Hs.
  - eapply client_move_inv; [done..| |done]. simpl. rewrite app_nil_r. by apply sorted_app_l in Hs.
  - by eapply client_move_inv.
  - by eapply client_move_inv.
  - by apply unlock_word_inv.
Qed.

(** The server changes its counter only. *)
Lemma server_move_inv w cs sv sv' :
  lock_inv (Sys w cs sv) → s_held sv' = s_held sv → (s_guarded sv' = s_guarded sv ∨ s_guarded sv' = []) →
  match sv' with
  | SCas p old => wtype old = ty p ∧ wflag old LOCKED = false
  | SGuardCas _ p _ old => can_guard (ty p) old = true
  | _ => True
  end → lock_inv (Sys w cs sv').
Proof using Hty.
  intros [H1 H2 H3 H4 H5] Hh Hg Hc. split; simpl in *; try done.
  - intros p Hl. rewrite <- (H1 p Hl). unfold holders. simpl. by rewrite Hh.
  - intros p Hp. destruct Hg as [E|E]; rewrite E in Hp; [by apply H2|by apply elem_of_nil in Hp].
  - destruct Hg as [->| ->]; [done|constructor].
Qed.

(** It writes a word without taking or releasing the lock, and guards nothing. *)
Lemma server_flag_inv w cs p f (b : bool) :
  lock_inv (Sys w cs SIdle) → f = SERVER ∨ f = MULTI →
  lock_inv (Sys (<[p := if b then wset (w p) f else wclear (w p) f]> w) cs SIdle).
Proof using Hty.
  intros [H1 H2 H3 H4 H5] Hf. simpl in *.
  assert (is_word_flag f) as Hw by (destruct Hf as [->| ->]; [by right; left|by right; right]).
  assert (f ≠ LOCKED) as Hne by (by destruct Hf as [->| ->]).
  split; simpl; try done.
  - intros q Hl. assert (live ty (Sys w cs SIdle) q) as Hl0.
    { destruct b; [by apply (live_set ty (Sys w cs SIdle) p q f)|by apply (live_clear ty (Sys w cs SIdle) p q f)]. }
    etrans; [exact (H1 q Hl0)|]. f_equal. destruct (decide (p = q)) as [->|Hpq].
    + rewrite fn_lookup_insert. destruct b; [by rewrite wflag_set_other|by rewrite wflag_clear_other].
    + by rewrite fn_lookup_insert_ne.
  - intros q Hq. by apply elem_of_nil in Hq.
Qed.

Lemma wtype_unknown : wtype INPROC_SYNC_UNKNOWN = INPROC_SYNC_UNKNOWN.
Proof. done. Qed.

Lemma server_retire_inv w cs p :
  lock_inv (Sys w cs SIdle) → lock_inv (Sys (<[p := INPROC_SYNC_UNKNOWN]> w) cs SIdle).
Proof using Hty.
  intros [H1 H2 H3 H4 H5]. simpl in *. split; simpl; try done.
  - intros q Hl. unfold live in Hl. simpl in Hl. destruct (decide (p = q)) as [->|Hpq].
    + rewrite fn_lookup_insert, wtype_unknown in Hl. by destruct (Hty q).
    + rewrite fn_lookup_insert_ne in Hl |- * by done. exact (H1 q Hl).
  - intros q Hq. by apply elem_of_nil in Hq.
Qed.

Lemma server_lock_inv w cs p :
  lock_inv (Sys w cs (SCas p (w p))) → lock_inv (Sys (<[p := wset (w p) LOCKED]> w) cs (SIn p)).
Proof using Hty.
  intros [H1 H2 H3 H4 [H5 H6]]. simpl in *. split; simpl; try done.
  - intros q Hl. apply (live_set ty (Sys w cs SIdle)) in Hl; [|done].
    specialize (H1 q Hl). unfold holders in *. simpl in *. rewrite app_nil_r in H1.
    rewrite occ_app, H1, occ_cons. change (occ q []) with 0.
    destruct (decide (q = p)) as [->|Hne].
    + rewrite fn_lookup_insert, wflag_set_same, H6 by done. done.
    + rewrite fn_lookup_insert_ne by done. lia.
  - intros q Hq. by apply elem_of_nil in Hq.
Qed.

Lemma server_unlock_inv w cs p :
  lock_inv (Sys w cs (SIn p)) → lock_inv (Sys (<[p := wclear (w p) LOCKED]> w) cs SIdle).
Proof using Hty.
  intros [H1 H2 H3 H4 _]. simpl in *. split; simpl; try done.
  - intros q Hl. apply (live_clear ty (Sys w cs SIdle)) in Hl; [|done].
    specialize (H1 q Hl). unfold holders in *. simpl in *. rewrite app_nil_r.
    rewrite occ_app, occ_cons in H1. change (occ q []) with 0 in H1.
    pose proof (occ_nonneg q (concat (c_held <$> cs))).
    destruct (decide (q = p)) as [->|Hne].
    + rewrite fn_lookup_insert, wflag_clear_same by done. destruct (wflag (w p) LOCKED); simpl in *; lia.
    + rewrite fn_lookup_insert_ne by done. lia.
  - intros q Hq. by apply elem_of_nil in Hq.
Qed.

Lemma server_guard_inv w cs g p todo :
  lock_inv (Sys w cs (SGuardCas g p todo (w p))) →
  lock_inv (Sys (<[p := wset (w p) SERVER]> w) cs (SGuard (p :: g) todo)).
Proof using Hty.
  intros [H1 H2 H3 H4 (Ht & HL & HS)%can_guard_true]. simpl in *.
  assert (p ∉ g) as Hp by (intros Hp; destruct (H2 p Hp Ht); congruence).
  split; simpl; try done.
  - intros q Hl. apply (live_set ty (Sys w cs SIdle)) in Hl; [|done].
    etrans; [exact (H1 q Hl)|]. f_equal. destruct (decide (p = q)) as [->|Hne].
    + by rewrite fn_lookup_insert, wflag_set_other.
    + by rewrite fn_lookup_insert_ne.
  - intros q [->|Hq]%elem_of_cons Hl.
    + by rewrite fn_lookup_insert, wflag_set_same, wflag_set_other.
    + apply (live_set ty (Sys w cs SIdle)) in Hl; [|done].
      rewrite fn_lookup_insert_ne by (by intros ->). by apply H2.
  - by constructor.
Qed.

Lemma server_unguard_inv w cs p g :
  lock_inv (Sys w cs (SUnguard (p :: g))) →
  lock_inv (Sys (<[p := wclear (w p) SERVER]> w) cs (SUnguard g)).
Proof using Hty.
  intros [H1 H2 H3 H4 _]. simpl in *. apply list.NoDup_cons in H3 as [Hp H3]. split; simpl; try done.
  - intros q Hl. apply (live_clear ty (Sys w cs SIdle)) in Hl; [|done].
    etrans; [exact (H1 q Hl)|]. f_equal. destruct (decide (p = q)) as [->|Hne].
    + by rewrite fn_lookup_insert, wflag_clear_other.
    + by rewrite fn_lookup_insert_ne.
  - intros q Hq Hl. apply (live_clear ty (Sys w cs SIdle)) in Hl; [|done].
    rewrite fn_lookup_insert_ne by (by intros ->). apply H2; [by right|done].
Qed.

Lemma server_step_inv w cs sv w' sv' :
  lock_inv (Sys w cs sv) → server_step ty w sv w' sv' → lock_inv (Sys w' cs sv').
Proof using Hty.
  intros Hinv Hstep. pose proof (li_server _ _ Hinv) as Hsv. simpl in Hsv.
  destruct Hstep as [w p|w p|w p|w p old Hne|w p|w p f Hf|w p f Hf|w p|w l|w g p todo|w g p todo
    |w g p todo old Hne|w g todo|w g|w g|w p g|w];
    try (by eapply server_move_inv; [done|done|by (left; done) || (right; done)|]).
  - eapply server_move_inv; [done|by repeat case_match|left; by repeat case_match|].
    destruct (negb _) eqn:E1; [done|]. destruct (wflag _ _) eqn:E2; [done|].
    apply negb_false_iff, Z.eqb_eq in E1. done.
  - by apply server_lock_inv.
  - by apply server_unlock_inv.
  - by apply (server_flag_inv _ _ _ _ true).
  - by apply (server_flag_inv _ _ _ _ false).
  - by apply server_retire_inv.
  - eapply server_move_inv; [done|by repeat case_match|left; by repeat case_match|].
    by destruct (can_guard _ _) eqn:E.
  - by apply server_guard_inv.
  - by apply server_unguard_inv.
Qed.

Lemma step_inv s s' : lock_inv s → step ty s s' → lock_inv s'.
Proof using Hty.
  intros Hinv Hstep. destruct Hstep; [by eapply client_step_inv|by eapply server_step_inv].
Qed.

Lemma initial_inv s : initial s → lock_inv s.
Proof using Hty.
  intros (Hw & Hsv & Hcs).
  assert (∀ p, occ p (holders s) = 0) as Hocc.
  { intros p. unfold holders. rewrite Hsv. simpl. rewrite app_nil_r.
    assert (∀ i pc, clients s !! i = Some pc → c_held pc = []) as Hh.
    { intros i pc Hi. by destruct (Hcs i pc Hi) as (l & -> & _). }
    clear -Hh. induction (clients s) as [|pc cs IH]; [done|]. csimpl.
    rewrite (Hh 0%nat pc) by done. apply IH. intros i. apply (Hh (S i)). }
  split; rewrite ?Hsv; simpl.
  - intros p _. by rewrite Hw, Hocc.
  - intros p Hp. by apply elem_of_nil in Hp.
  - constructor.
  - intros i pc Hi. by destruct (Hcs i pc Hi) as (l & -> & Hs).
  - done.
Qed.

Lemma reachable_lock_inv s s' : lock_inv s → rtc (step ty) s s' → lock_inv s'.
Proof using Hty. intros Hinv. induction 1; [done|]. eauto using step_inv. Qed.
End preservation.

(** ** Exclusion *)

Section exclusion.
Context (ty : Z → Z) (Hty : ∀ p, ty p ≠ INPROC_SYNC_UNKNOWN).
Implicit Types (s : sys).

Lemma holder_unique s p i j pc pc' :
  occ p (holders s) ≤ 1 → clients s !! i = Some pc → clients s !! j = Some pc' →
  p ∈ c_held pc → p ∈ c_held pc' → i = j.
Proof.
  intros Ho Hi Hj Hp Hp'. destruct (decide (i = j)) as [|Hne]; [done|exfalso].
  destruct s as [w cs sv]. simpl in *.
  pose proof (holders_insert p w cs sv i pc w (COut []) Hi) as H1. cbn [c_held] in H1.
  change (occ p []) with 0 in H1. apply occ_pos in Hp, Hp'.
  assert (occ p (c_held pc') ≤ occ p (holders (Sys w (<[i:=COut []]> cs) sv))) as H2.
  { apply (holders_held _ _ j). simpl. by rewrite list_lookup_insert_ne. }
  lia.
Qed.

(** C7: However the accesses of the server and of all client threads interleave, at most
    one thread is between locking and unlocking a cell that is in use; while the server
    is, no client is; and while the server guards the cell for a wait-all, no client is
    either, although guarding does not take the lock. *)
Theorem lock_exclusion s0 s p :
  initial s0 → rtc (step ty) s0 s → live ty s p →
  (∀ i j pc pc', clients s !! i = Some pc → clients s !! j = Some pc' →
     p ∈ c_held pc → p ∈ c_held pc' → i = j) ∧
  (∀ i pc, clients s !! i = Some pc → p ∈ c_held pc →
     p ∉ s_held (server_at s) ∧ p ∉ s_guarded (server_at s)).
Proof using Hty.
  intros H0 Hsteps Hl.
  pose proof (reachable_lock_inv ty Hty _ _ (initial_inv ty Hty _ H0) Hsteps) as Hinv.
  pose proof (li_count _ _ Hinv p Hl) as Hc.
  assert (occ p (holders s) ≤ 1) as Hle by (rewrite Hc; by destruct (wflag _ _)).
  split; [intros i j pc pc'; by apply holder_unique|]. intros i pc Hi Hp. split.
  - intros Hs. pose proof (holders_held p s i pc Hi) as H1. unfold holders in *. rewrite occ_app in *.
    destruct s as [w cs sv]. simpl in *.
    pose proof (occ_concat_insert p cs i pc (COut []) Hi) as H2. cbn [c_held] in H2.
    change (occ p []) with 0 in H2. apply occ_pos in Hp, Hs.
    pose proof (occ_nonneg p (concat (c_held <$> <[i:=COut []]> cs))). lia.
  - intros Hg. destruct (li_guard _ _ Hinv p Hg Hl) as [HL _]. rewrite HL in Hc.
    pose proof (holders_held p s i pc Hi). apply occ_pos in Hp. simpl in Hc. lia.
Qed.
End exclusion.

(** ** Every reachable state can finish *)

Section progress.
Context (ty : Z → Z) (Hty : ∀ p, ty p ≠ INPROC_SYNC_UNKNOWN).
Implicit Types (s : sys) (w : Z → Z) (pc : client_pc).

(** What a client has still to do. *)
Definition work (pc : client_pc) : nat :=
  match pc with
  | CTry held todo => 2 * length todo + length held + 2
  | CCas held _ todo _ | CLook held _ todo => 2 * S (length todo) + length held + 2
  | CIn held => S (length held)
  | COut held => length held
  end.
Definition total_work (cs : list client_pc) : nat := sum_list_with work cs.

Lemma total_work_insert cs i pc pc' :
  cs !! i = Some pc → (total_work (<[i := pc']> cs) + work pc = total_work cs + work pc')%nat.
Proof.
  revert i. induction cs as [|x cs IH]; intros [|i] Hi; simpl in *; [done..| |].
  - injection Hi as ->. lia.
  - specialize (IH _ Hi). unfold total_work in *. simpl. lia.
Qed.

(** One agent on its own. *)
Definition client_alone : (Z → Z) * client_pc → (Z → Z) * client_pc → Prop :=
  λ a b, client_step ty a.1 a.2 b.1 b.2.
Definition server_alone : (Z → Z) * server_pc → (Z → Z) * server_pc → Prop :=
  λ a b, server_step ty a.1 a.2 b.1 b.2.

Lemma client_alone_l w pc w' pc' b :
  client_step ty w pc w' pc' → rtc client_alone (w', pc') b → rtc client_alone (w, pc) b.
Proof. intros H Hr. by apply (rtc_l _ _ (w', pc')). Qed.
Lemma server_alone_l w sv w' sv' b :
  server_step ty w sv w' sv' → rtc server_alone (w', sv') b → rtc server_alone (w, sv) b.
Proof. intros H Hr. by apply (rtc_l _ _ (w', sv')). Qed.

Lemma client_alone_steps a b cs sv i :
  rtc client_alone a b → cs !! i = Some a.2 →
  rtc (step ty) (Sys a.1 cs sv) (Sys b.1 (<[i := b.2]> cs) sv).
Proof.
  intros Hr. revert cs. induction Hr as [a|a b c Hab _ IH]; intros cs Hi.
  - rewrite list_insert_id by done. apply rtc_refl.
  - eapply rtc_l; [by eapply step_client|]. rewrite <- (list_insert_insert_eq cs i c.2 b.2).
    apply IH. apply list_lookup_insert_eq. by eapply lookup_lt_Some.
Qed.

Lemma server_alone_steps a b cs :
  rtc server_alone a b → rtc (step ty) (Sys a.1 cs a.2) (Sys b.1 cs b.2).
Proof.
  induction 1 as [a|a b c Hab _ IH]; [apply rtc_refl|]. eapply rtc_l; [by eapply step_server|done].
Qed.

(** The cell that a client is about to lock is locked by another agent. *)
Definition blocked (w : Z → Z) (p : Z) : bool :=
  (wtype (w p) =? ty p) && wflag (w p) LOCKED && negb (wflag (w p) SERVER).

Lemma blocked_spec w p :
  blocked w p = true ↔ wtype (w p) = ty p ∧ wflag (w p) LOCKED = true ∧ wflag (w p) SERVER = false.
Proof. unfold blocked. rewrite !andb_true_iff, Z.eqb_eq, negb_true_iff. tauto. Qed.

(** A client that looks at a cell nobody holds either locks it or gives up. *)
Lemma look_advances w held p todo :
  blocked w p = false →
  ∃ w' pc', rtc client_alone (w, CLook held p todo) (w', pc') ∧
    (work pc' < work (CLook held p todo))%nat.
Proof.
  intros Hb. pose proof (C_look ty w held p todo) as Hlook.
  destruct (gives_up (ty p) (w p)) eqn:Eg.
  - exists w, (COut held). split; [by apply rtc_once|]. simpl. lia.
  - unfold gives_up in Eg. apply orb_false_iff in Eg as [Et%negb_false_iff%Z.eqb_eq Es].
    assert (can_lock (ty p) (w p) = true) as Ec.
    { apply can_lock_true. split_and!; [done| |done]. apply not_true_is_false. intros HL.
      rewrite (proj2 (blocked_spec w p)) in Hb; done. }
    pose proof (C_load ty w held p todo) as Hload. rewrite Ec in Hload.
    exists (<[p := wset (w p) LOCKED]> w), (CTry (p :: held) todo). split; [|simpl; lia].
    eapply client_alone_l; [exact Hlook|]. eapply client_alone_l; [exact Hload|]. apply rtc_once. by constructor.
Qed.

Lemma client_advances w pc :
  (0 < work pc)%nat → (∀ p, head (c_todo pc) = Some p → blocked w p = false) →
  ∃ w' pc', rtc client_alone (w, pc) (w', pc') ∧ (work pc' < work pc)%nat.
Proof.
  intros Hw Hb. destruct pc as [held [|p todo]|held p todo old|held p todo|held|[|p held]]; simpl in Hw.
  - exists w, (CIn held). split; [apply rtc_once; by constructor|]. simpl. lia.
  - pose proof (C_load ty w held p todo) as Hload. destruct (can_lock (ty p) (w p)) eqn:Ec.
    + exists (<[p := wset (w p) LOCKED]> w), (CTry (p :: held) todo). split; [|simpl; lia].
      eapply client_alone_l; [exact Hload|]. apply rtc_once. by constructor.
    + destruct (look_advances w held p todo) as (w' & pc' & Hr & Hlt); [by apply Hb|].
      exists w', pc'. split; [by eapply client_alone_l|]. simpl in *. lia.
  - destruct (decide (w p = old)) as [<-|Hne].
    + exists (<[p := wset (w p) LOCKED]> w), (CTry (p :: held) todo). split; [|simpl; lia].
      apply rtc_once. by constructor.
    + destruct (look_advances w held p todo) as (w' & pc' & Hr & Hlt); [by apply Hb|].
      exists w', pc'. split; [|done]. eapply client_alone_l; [by apply C_cas_fails|done].
  - destruct (look_advances w held p todo) as (w' & pc' & Hr & Hlt); [by apply Hb|]. eauto.
  - exists w, (COut held). split; [apply rtc_once; by constructor|]. simpl. lia.
  - lia.
  - exists (<[p := wclear (w p) LOCKED]> w), (COut held). split; [apply rtc_once; by constructor|]. simpl. lia.
Qed.

(** The server holds nothing and guards nothing. *)
Definition waits_at_most (sv : server_pc) : Prop :=
  match sv with SIdle | SLoad _ | SCas _ _ => True | _ => False end.

Lemma server_unguards w guarded : ∃ w', rtc server_alone (w, SUnguard guarded) (w', SIdle).
Proof.
  revert w. induction guarded as [|p g IH]; intros w.
  - exists w. apply rtc_once. constructor.
  - destruct (IH (<[p := wclear (w p) SERVER]> w)) as [w' Hr]. exists w'.
    eapply server_alone_l; [by constructor|exact Hr].
Qed.

Lemma server_settles w sv : ∃ w' sv', rtc server_alone (w, sv) (w', sv') ∧ waits_at_most sv'.
Proof.
  assert (∀ g, ∃ w' sv', rtc server_alone (w, SUnguard g) (w', sv') ∧ waits_at_most sv') as Hun.
  { intros g. destruct (server_unguards w g) as [w' Hr]. by exists w', SIdle. }
  destruct sv as [|p|p old|p|g todo|g p todo old|g|g].
  - by exists w, SIdle.
  - by exists w, (SLoad p).
  - by exists w, (SCas p old).
  - exists (<[p := wclear (w p) LOCKED]> w), SIdle. split; [|done]. apply rtc_once. by constructor.
  - destruct (Hun g) as (w' & sv' & Hr & Hs). exists w', sv'. split; [|done].
    eapply server_alone_l; [by apply S_guard_quit|done].
  - destruct (decide (w p = old)) as [<-|Hne].
    + destruct (server_unguards (<[p := wset (w p) SERVER]> w) (p :: g)) as [w' Hr].
      exists w', SIdle. split; [|done]. eapply server_alone_l; [by apply S_guard_cas|].
      eapply server_alone_l; [by apply S_guard_quit|done].
    + destruct (Hun g) as (w' & sv' & Hr & Hs). exists w', sv'. split; [|done].
      eapply server_alone_l; [by apply S_guard_cas_fails|done].
  - destruct (Hun g) as (w' & sv' & Hr & Hs). exists w', sv'. split; [|done].
    eapply server_alone_l; [by apply S_guard_done|done].
  - apply Hun.
Qed.

(** Among clients that lock in increasing order somebody is not blocked: the holder of the
    cell that a blocked client wants is either not blocked or wants a larger cell. *)
Lemma somebody_advances s B : ∀ n i pc p,
  lock_inv ty s → waits_at_most (server_at s) →
  (∀ j pc', clients s !! j = Some pc' → ∀ q, q ∈ c_todo pc' → q ≤ B) →
  clients s !! i = Some pc → head (c_todo pc) = Some p → (Z.to_nat (B - p) < n)%nat →
  ∃ j pc', clients s !! j = Some pc' ∧ (0 < work pc')%nat ∧
    ∀ q, head (c_todo pc') = Some q → blocked (words s) q = false.
Proof using Hty.
  induction n as [|n IH]; intros i pc p Hinv Hsv HB Hi Hp Hn; [lia|].
  destruct (blocked (words s) p) eqn:Eb.
  2:{ exists i, pc. split; [done|]. split; [|naive_solver].
      destruct pc as [held [|]| | | |]; simpl in *; try done; lia. }
  apply blocked_spec in Eb as (Hl & HL & _).
  pose proof (li_count _ _ Hinv p Hl) as Hc. rewrite HL in Hc. simpl in Hc.
  assert (p ∈ concat (c_held <$> clients s)) as Hin.
  { apply occ_pos. unfold holders in Hc. rewrite occ_app in Hc.
    destruct (server_at s); try done; change (occ p (s_held _)) with 0 in Hc; lia. }
  apply elem_of_concat in Hin as (held & Hpj & Hj).
  apply list_elem_of_fmap in Hj as (pc' & -> & (j & Hj)%list_elem_of_lookup).
  destruct (head (c_todo pc')) as [q|] eqn:Eq.
  - assert (p < q) as Hpq.
    { destruct (li_client _ _ Hinv _ _ Hj) as [Hs _]. apply StronglySorted_app in Hs as (Hlt & _ & _).
      apply Hlt; [by rewrite list_elem_of_In, <- in_rev, <- list_elem_of_In|].
      destruct (c_todo pc'); simplify_eq/=. by left. }
    assert (q ≤ B).
    { apply (HB j pc' Hj). destruct (c_todo pc'); simplify_eq/=. by left. }
    apply (IH j pc' q); try done. lia.
  - exists j, pc'. split; [done|]. split; [|congruence].
    destruct pc' as [[|]|[|]|[|]|[|]|[|]]; simpl in *; try (by apply elem_of_nil in Hpj); lia.
Qed.

Lemma list_bound (l : list Z) : ∃ B, ∀ x, x ∈ l → x ≤ B.
Proof.
  induction l as [|x l [B IH]]; [exists 0; by intros x ?%elem_of_nil|].
  exists (Z.max x B). intros y [->|Hy]%elem_of_cons; [lia|]. specialize (IH y Hy). lia.
Qed.

Lemma clients_finish : ∀ n s,
  lock_inv ty s → waits_at_most (server_at s) → (total_work (clients s) < n)%nat →
  ∃ s', rtc (step ty) s s' ∧ server_at s' = server_at s ∧
    ∀ i pc, clients s' !! i = Some pc → pc = COut [].
Proof using Hty.
  induction n as [|n IH]; intros s Hinv Hsv Hn; [lia|].
  destruct (decide (Exists (λ pc, (0 < work pc)%nat) (clients s))) as [He|Hno].
  2:{ exists s. split; [apply rtc_refl|]. split; [done|]. intros i pc Hi.
      apply list.not_Exists_Forall in Hno; [|intros ?; apply _].
      rewrite Forall_lookup in Hno. specialize (Hno i pc Hi). simpl in Hno.
      destruct pc as [| | | |[|]]; simpl in Hno; lia || done. }
  assert (∃ j pc', clients s !! j = Some pc' ∧ (0 < work pc')%nat ∧
    ∀ q, head (c_todo pc') = Some q → blocked (words s) q = false) as (j & pc & Hj & Hw & Hb).
  { apply list.Exists_exists in He as (pc & (i & Hi)%list_elem_of_lookup & Hw).
    destruct (list_bound (concat (c_todo <$> clients s))) as [B HB].
    destruct (head (c_todo pc)) as [p|] eqn:Ep.
    - eapply (somebody_advances s B (S (Z.to_nat (B - p))) i pc p); try done; [|lia].
      intros j pc' Hj q Hq. apply HB, elem_of_concat. exists (c_todo pc'). split; [done|].
      apply list_elem_of_fmap. exists pc'. split; [done|]. by eapply list_elem_of_lookup_2.
    - exists i, pc. split; [done|]. split; [done|congruence]. }
  destruct (client_advances (words s) pc Hw Hb) as (w' & pc' & Hr & Hlt).
  destruct s as [w cs sv]. simpl in *.
  pose proof (client_alone_steps _ _ cs sv j Hr Hj) as Hsteps. simpl in Hsteps.
  pose proof (total_work_insert cs j pc pc' Hj) as Ht.
  destruct (IH (Sys w' (<[j := pc']> cs) sv)) as (s' & Hs' & Hsv' & Hdone);
    [by eapply reachable_lock_inv|done|simpl; lia|].
  exists s'. split; [by etrans|]. done.
Qed.

(** C9: No interleaving of the server and the clients leads to a deadlock: every reachable
    state can be continued until all clients have left their critical sections and
    released every lock and the server is at rest. *)
Theorem every_state_can_finish s0 s :
  initial s0 → rtc (step ty) s0 s →
  ∃ s', rtc (step ty) s s' ∧ server_at s' = SIdle ∧
    ∀ i pc, clients s' !! i = Some pc → pc = COut [].
Proof using Hty.
  intros H0 Hreach.
  pose proof (reachable_lock_inv ty Hty _ _ (initial_inv ty Hty _ H0) Hreach) as Hinv.
  destruct s as [w cs sv]. destruct (server_settles w sv) as (w1 & sv1 & Hr1 & Hw1).
  pose proof (server_alone_steps _ _ cs Hr1) as Hs1. simpl in Hs1.
  pose proof (reachable_lock_inv ty Hty _ _ Hinv Hs1) as Hinv1.
  destruct (clients_finish _ _ Hinv1 Hw1 (Nat.lt_succ_diag_r _)) as ([w2 cs2 sv2] & Hs2 & Hsv & Hdone).
  simpl in Hsv, Hdone. subst sv2.
  pose proof (reachable_lock_inv ty Hty _ _ Hinv1 Hs2) as Hinv2.
  assert (∀ p, wtype (w2 p) = ty p → wflag (w2 p) LOCKED = false) as Hfree.
  { intros p Hl. pose proof (li_count _ _ Hinv2 p Hl) as Hc.
    assert (occ p (holders (Sys w2 cs2 sv1)) = 0) as H00.
    { unfold holders. simpl. rewrite occ_app. destruct sv1; try done;
        change (occ p (s_held _)) with 0; rewrite Z.add_0_r; clear -Hdone;
        (induction cs2 as [|pc cs IH]; [done|]; csimpl;
         rewrite (Hdone 0%nat pc) by done; apply IH; intros i; apply (Hdone (S i))). }
    rewrite H00 in Hc. simpl in Hc. by destruct (wflag _ _). }
  assert (∃ w3, rtc server_alone (w2, sv1) (w3, SIdle)) as [w3 Hr3].
  { assert (∀ p, ∃ w3, rtc server_alone (w2, SLoad p) (w3, SIdle)) as Hload.
    { intros p. pose proof (S_load ty w2 p) as Hst. destruct (Z.eqb_spec (wtype (w2 p)) (ty p)) as [E|E].
      - rewrite (Hfree p E) in Hst. simpl in Hst. eexists.
        eapply server_alone_l; [exact Hst|]. eapply server_alone_l; [by apply S_cas|].
        apply rtc_once. by apply S_unlock.
      - exists w2. by apply rtc_once. }
    destruct sv1 as [|p|p old| | | | |]; try apply Hload; try done.
    { exists w2. apply rtc_refl. }
    destruct (decide (w2 p = old)) as [<-|Hne].
    - eexists. eapply server_alone_l; [by apply S_cas|]. apply rtc_once. by apply S_unlock.
    - destruct (Hload p) as [w3 Hr]. exists w3. eapply server_alone_l; [by apply S_cas_fails|done]. }
  exists (Sys w3 cs2 SIdle). split; [|done].
  etrans; [exact Hs1|]. etrans; [exact Hs2|]. exact (server_alone_steps _ _ cs2 Hr3).
Qed.
End progress.

(** ** A loop that nobody interferes with *)

(** The words of a memory. *)
Definition words_of {S} `{HasShm S} (s : S) : Z → Z := λ p, c_type (cell_at s p).

Section alone.
Context (ty : Z → Z).

Lemma words_put {S} `{HasShm S} (s : S) p c q :
  words_of (put_cell p c s) q = (<[p := c_type c]> (words_of s)) q.
Proof.
  unfold words_of. rewrite cell_at_put. case_decide as E; [subst; by rewrite fn_lookup_insert|].
  by rewrite fn_lookup_insert_ne.
Qed.

Lemma server_stays a p :
  wtype (a p) = ty p → wflag (a p) LOCKED = true →
  ∀ b, rtc (server_alone ty) (a, SLoad p) b → b = (a, SLoad p).
Proof.
  intros Ht HL b Hr. remember (a, SLoad p) as x eqn:Ex. induction Hr as [|x y z Hxy _ IH]; [done|].
  subst x. unfold server_alone in Hxy. simpl in Hxy. inversion Hxy; subst.
  rewrite Ht, Z.eqb_refl, HL in *. destruct y as [w sv]. simpl in *. subst. by apply IH.
Qed.

Lemma client_stays a p todo x b :
  wtype (a p) = ty p → wflag (a p) LOCKED = true → wflag (a p) SERVER = false →
  rtc (client_alone ty) x b →
  x = (a, CTry [] (p :: todo)) ∨ x = (a, CLook [] p todo) →
  b = (a, CTry [] (p :: todo)) ∨ b = (a, CLook [] p todo).
Proof.
  intros Ht HL HS Hr. induction Hr as [x|x y z Hxy _ IH]; intros Hx; [done|]. apply IH.
  assert (can_lock (ty p) (a p) = false) as Hcl.
  { apply not_true_is_false. rewrite can_lock_true. intros (_ & ? & _). congruence. }
  assert (gives_up (ty p) (a p) = false) as Hgu by (unfold gives_up; by rewrite Ht, Z.eqb_refl, HS).
  destruct y as [w pc]. unfold client_alone in Hxy.
  destruct Hx as [->| ->]; simpl in Hxy; inversion Hxy; subst; rewrite ?Hcl, ?Hgu; [by right|by left].
Qed.

(** The two lock loops as functions on a memory are these steps taken by one agent
    while the others stand still: a loop that returns 1 reaches the locked state with the
    same words, one that returns 0 leaves the loop without a write, and one that the model
    calls spinning goes round for ever. *)
Theorem lock_loops_alone (t : wfs) (k : client) (p : Z) :
  match lock_state p (ty p) t with
  | Done true t' => ∃ w', rtc (server_alone ty) (words_of t, SLoad p) (w', SIn p) ∧
      ∀ q, w' q = words_of t' q
  | Done false t' => rtc (server_alone ty) (words_of t, SLoad p) (words_of t, SIdle) ∧ t' = t
  | Spinning => ∀ b, rtc (server_alone ty) (words_of t, SLoad p) b → b = (words_of t, SLoad p)
  | _ => False
  end ∧
  match wfusync_lock_state p (ty p) k with
  | Done true k' => ∃ w', rtc (client_alone ty) (words_of k, CTry [] [p]) (w', CTry [p] []) ∧
      ∀ q, w' q = words_of k' q
  | Done false k' => rtc (client_alone ty) (words_of k, CTry [] [p]) (words_of k, COut []) ∧ k' = k
  | Spinning => ∀ b, rtc (client_alone ty) (words_of k, CTry [] [p]) b →
      b = (words_of k, CTry [] [p]) ∨ b = (words_of k, CLook [] p [])
  | _ => False
  end.
Proof.
  split.
  - rewrite lock_state_cases. pose proof (S_load ty (words_of t) p) as Hst.
    change (wtype (words_of t p)) with (type_of (cell_at t p)) in Hst.
    change (wflag (words_of t p) LOCKED) with (has_flag (cell_at t p) LOCKED) in Hst.
    case_decide as Et.
    + rewrite Et, Z.eqb_refl in Hst. simpl in Hst. destruct (has_flag _ _) eqn:EL.
      * intros b Hr. by eapply server_stays.
      * exists (<[p := wset (words_of t p) LOCKED]> (words_of t)).
        split; [|intros q; by rewrite words_put].
        eapply server_alone_l; [exact Hst|]. apply rtc_once. by apply S_cas.
    + rewrite (proj2 (Z.eqb_neq _ _)) in Hst by done. split; [|done]. by apply rtc_once.
  - rewrite wfusync_lock_state_cases. cbv zeta.
    pose proof (C_load ty (words_of k) [] p []) as Hst. pose proof (C_look ty (words_of k) [] p []) as Hlk.
    unfold can_lock in Hst. rewrite both_flags in Hst. unfold gives_up in Hlk.
    change (wtype (words_of k p)) with (type_of (cell_at k p)) in *.
    change (wflag (words_of k p) LOCKED) with (has_flag (cell_at k p) LOCKED) in *.
    change (wflag (words_of k p) SERVER) with (has_flag (cell_at k p) SERVER) in *.
    case_decide as Et.
    + rewrite Et, Z.eqb_refl in Hst, Hlk. simpl in Hst, Hlk.
      destruct (has_flag (cell_at k p) SERVER) eqn:ES.
      { rewrite orb_true_r in Hst. split; [|done].
        eapply client_alone_l; [exact Hst|]. by apply rtc_once. }
      destruct (has_flag (cell_at k p) LOCKED) eqn:EL.
      * intros b Hr. eapply client_stays; [done..|exact Hr|by left].
      * exists (<[p := wset (words_of k p) LOCKED]> (words_of k)).
        split; [|intros q; by rewrite words_put].
        eapply client_alone_l; [exact Hst|]. apply rtc_once. by apply C_cas.
    + rewrite (proj2 (Z.eqb_neq _ _)) in Hst, Hlk by done. split; [|done].
      eapply client_alone_l; [exact Hst|]. by apply rtc_once.
Qed.
End alone.

(** ** Two clients that want the same event, one of them with a second one *)

Definition demo_ty (_ : Z) : Z := INPROC_SYNC_EVENT.
Definition two_clients : sys :=
  Sys (λ _, INPROC_SYNC_EVENT) [CTry [] [1]; CTry [] [1; 2]] SIdle.
(** The second one has locked the first event. *)
Definition one_inside : sys :=
  Sys (<[1 := wset INPROC_SYNC_EVENT WFUSYNC_STATE_LOCKED]> (λ _, INPROC_SYNC_EVENT))
    [CTry [] [1]; CTry [1] [2]] SIdle.

Lemma demo_ty_known p : demo_ty p ≠ INPROC_SYNC_UNKNOWN.
Proof. done. Qed.

Lemma two_clients_initial : initial two_clients.
Proof.
  split; [done|]. split; [done|]. intros [|[|i]] pc Hi; simplify_eq/=.
  - exists [1]. split; [done|]. repeat constructor.
  - exists [1; 2]. split; [done|]. repeat constructor.
Qed.

Lemma one_inside_reachable : rtc (step demo_ty) two_clients one_inside.
Proof.
  apply (rtc_l _ _ (Sys (λ _, INPROC_SYNC_EVENT) [CTry [] [1]; CCas [] 1 [2] INPROC_SYNC_EVENT] SIdle)).
  - apply (step_client demo_ty _ _ [CTry [] [1]; CTry [] [1; 2]] 1 (CTry [] [1; 2])
      (CCas [] 1 [2] INPROC_SYNC_EVENT)); [done|]. exact (C_load demo_ty (λ _, INPROC_SYNC_EVENT) [] 1 [2]).
  - apply rtc_once.
    apply (step_client demo_ty _ _ [CTry [] [1]; CCas [] 1 [2] INPROC_SYNC_EVENT] 1
      (CCas [] 1 [2] INPROC_SYNC_EVENT) (CTry [1] [2])); [done|].
    exact (C_cas demo_ty (λ _, INPROC_SYNC_EVENT) [] 1 [2]).
Qed.

Lemma lock_exclusion_witness :
  live demo_ty one_inside 1 ∧ 1 ∈ c_held (CTry [1] [2]) ∧
  ∀ i pc, clients one_inside !! i = Some pc → 1 ∈ c_held pc → i = 1%nat.
Proof.
  assert (live demo_ty one_inside 1) as Hl by (vm_compute; reflexivity).
  split; [exact Hl|]. split; [by left|]. intros i pc Hi Hp.
  refine (proj1 (lock_exclusion demo_ty demo_ty_known two_clients one_inside 1 two_clients_initial
    one_inside_reachable Hl) i 1%nat pc (CTry [1] [2]) Hi _ Hp _); [reflexivity|by left].
Defined.

Lemma every_state_can_finish_witness :
  ∃ s', rtc (step demo_ty) one_inside s' ∧ server_at s' = SIdle ∧
    ∀ i pc, clients s' !! i = Some pc → pc = COut [].
Proof.
  exact (every_state_can_finish demo_ty demo_ty_known two_clients one_inside two_clients_initial
    one_inside_reachable).
Defined.
