(* ===== verification/WfusyncRace.v ===== *)
(** * Signals that race with registrations

    The protocol by which a client that signals an object without the server still wakes
    the multi-object waiters that the server registers for it at the same time: the client
    stores the new value and then looks at the MULTI_WAITERS bit ([wfusync_set_event],
    [wfusync_release_semaphore] and [wfusync_release_mutex] of
    src/dlls/ntdll/unix/wfusync.c); the server sets the bit and then looks at the value
    ([wfusync_register_wait] of src/server/wfusync.c). One atomic access per step, any
    number of clients and of waiters, one object. The server's own stores wake the registered
    waiters where its code does: not after one that consumes or resets the object, and not
    after SignalObjectAndWait has released a mutex ([mutex_signal] of src/server/mutex.c),
    which leaves the object stranded. *)

From S2P Require Import Prelude.
From S2P Require Import ShmState.
From S2P Require Import WfusyncServer.

(** A client between two accesses: about to store to [low]; about to look at the bit
    after it made the object signaled; asking the server to wake the waiters. *)
Inductive signaler := Store | LookMulti | AskServer | Finished.

(** The server: at rest; registering a slot that it has put to sleep ([RegFlag]), whose bit
    it has set ([RegInsert]), that it has inserted ([RegCheck]); about to wake the slot
    because it saw the object signaled; waking the slots of a list. *)
Inductive registrar :=
| Idle
| RegFlag (slot : Z)
| RegInsert (slot : Z)
| RegCheck (slot : Z)
| RegWake (slot : Z)
| WakeAll (slots : list Z).

(** [r_stranded]: SignalObjectAndWait has made the object available; since then it has stayed
    signaled and nobody has had the waiters woken. *)
Record race := Race {
  r_low : Z; r_multi : bool; r_stranded : bool; r_registered : list Z; r_asleep : Z → bool;
  r_clients : list signaler; r_server : registrar }.

Section race.
Context (type : Z).

Definition is_signaled (low : Z) : bool := cell_signaled (Cell low 0 0 type 0).

Definition sleep (slot : Z) (f : Z → bool) : Z → bool := λ x, if x =? slot then true else f x.
Definition wake (slot : Z) (f : Z → bool) : Z → bool := λ x, if x =? slot then false else f x.

(** [R_store]: under the lock bit the client stores any value, a signal or a wait that
    consumes the object; only a signal that found the object unsignaled goes on to look at
    the bit. The server's stores: [R_server_signal] makes the object signaled, or sets an
    event again, and goes on to wake the waiters; [R_server_store] consumes, resets or adds to
    the object and wakes nobody, also while the waiters of an earlier signal are still to be
    woken (threads that wait in the server are served first); [R_mutex_signal] is the release
    of a mutex by SignalObjectAndWait, after which nobody is woken. *)
Inductive race_step : race → race → Prop :=
| R_store l m st reg sl cs sv i v :
    cs !! i = Some Store →
    race_step (Race l m st reg sl cs sv)
      (Race v m (st && is_signaled v) reg sl
         (<[i := if negb (is_signaled l) && is_signaled v then LookMulti else Finished]> cs) sv)
| R_again l m st reg sl cs sv i :
    cs !! i = Some Finished → race_step (Race l m st reg sl cs sv) (Race l m st reg sl (<[i := Store]> cs) sv)
| R_look l m st reg sl cs sv i :
    cs !! i = Some LookMulti →
    race_step (Race l m st reg sl cs sv)
      (Race l m st reg sl (<[i := if m then AskServer else Finished]> cs) sv)
| R_asked l m st reg sl cs i :
    cs !! i = Some AskServer →
    race_step (Race l m st reg sl cs Idle) (Race l m false reg sl (<[i := Finished]> cs) (WakeAll reg))
| R_server_signal l m st reg sl cs v :
    is_signaled v = true → is_signaled l = false ∨ type = INPROC_SYNC_EVENT →
    race_step (Race l m st reg sl cs Idle) (Race v m false reg sl cs (WakeAll reg))
| R_server_store l m st reg sl cs sv v :
    (is_signaled v = true → is_signaled l = true) → sv = Idle ∨ (∃ slots, sv = WakeAll slots) →
    race_step (Race l m st reg sl cs sv) (Race v m (st && is_signaled v) reg sl cs sv)
| R_mutex_signal l m st reg sl cs v :
    type = INPROC_SYNC_MUTEX → is_signaled l = false → is_signaled v = true →
    race_step (Race l m st reg sl cs Idle) (Race v m true reg sl cs Idle)
| R_wake l m st reg sl cs slot slots :
    race_step (Race l m st reg sl cs (WakeAll (slot :: slots))) (Race l m st reg (wake slot sl) cs (WakeAll slots))
| R_woken l m st reg sl cs : race_step (Race l m st reg sl cs (WakeAll [])) (Race l m st reg sl cs Idle)
| R_register l m st reg sl cs slot :
    slot ∉ reg → race_step (Race l m st reg sl cs Idle) (Race l m st reg (sleep slot sl) cs (RegFlag slot))
| R_flag l m st reg sl cs slot :
    race_step (Race l m st reg sl cs (RegFlag slot)) (Race l true st reg sl cs (RegInsert slot))
| R_insert l m st reg sl cs slot :
    race_step (Race l m st reg sl cs (RegInsert slot)) (Race l m st (slot :: reg) sl cs (RegCheck slot))
| R_check l m st reg sl cs slot :
    race_step (Race l m st reg sl cs (RegCheck slot))
      (Race l m st reg sl cs (if is_signaled l then RegWake slot else Idle))
| R_reg_wake l m st reg sl cs slot :
    race_step (Race l m st reg sl cs (RegWake slot)) (Race l m st reg (wake slot sl) cs Idle)
| R_unregister l m st reg sl cs slot :
    race_step (Race l m st reg sl cs Idle)
      (Race l (m && negb (bool_decide (list_difference reg [slot] = []))) st (list_difference reg [slot])
         sl cs Idle).

(** Nobody is registered, and no client is past its store. *)
Definition race_start (r : race) : Prop :=
  r_registered r = [] ∧ r_stranded r = false ∧ r_server r = Idle ∧
  ∀ i c, r_clients r !! i = Some c → c = Store ∨ c = Finished.

(** Somebody will still wake the slot. *)
Definition wake_pending (r : race) (slot : Z) : Prop :=
  (∃ i, r_clients r !! i = Some LookMulti ∨ r_clients r !! i = Some AskServer) ∨
  r_server r = RegCheck slot ∨ r_server r = RegWake slot ∨
  ∃ slots, r_server r = WakeAll slots ∧ slot ∈ slots.

Record race_inv (r : race) : Prop := {
  ri_multi : (r_registered r ≠ [] ∨ ∃ slot, r_server r = RegInsert slot) → r_multi r = true;
  ri_wake : ∀ slot, r_stranded r = false → slot ∈ r_registered r → r_asleep r slot = true →
    is_signaled (r_low r) = true → wake_pending r slot;
  ri_stranded : r_stranded r = true → type = INPROC_SYNC_MUTEX ∧ is_signaled (r_low r) = true }.

Lemma race_start_inv r : race_start r → race_inv r.
Proof.
  intros (Hr & Hst & Hs & Hc). split.
  - rewrite Hr, Hs. naive_solver.
  - intros slot _ Hin. rewrite Hr in Hin. by apply elem_of_nil in Hin.
  - by rewrite Hst.
Qed.

(** A client other than [i] that is past its store stays so. *)
Lemma pending_client (cs : list signaler) i c c' :
  cs !! i = Some c → c = Store ∨ c = Finished →
  (∃ j, cs !! j = Some LookMulti ∨ cs !! j = Some AskServer) →
  ∃ j, <[i := c']> cs !! j = Some LookMulti ∨ <[i := c']> cs !! j = Some AskServer.
Proof.
  intros Hi Hc [j Hj]. exists j. destruct (decide (i = j)) as [->|Hne].
  - rewrite Hi in Hj. destruct Hc as [->| ->]; naive_solver.
  - by rewrite list_lookup_insert_ne.
Qed.

Lemma wake_asleep slot x f : wake slot f x = true → f x = true ∧ x ≠ slot.
Proof. unfold wake. destruct (Z.eqb_spec x slot); [done|]. by split. Qed.

Lemma race_step_inv r r' : race_inv r → race_step r r' → race_inv r'.
Proof.
  intros [Hm Hw Hst] Hstep. unfold wake_pending in *.
  destruct Hstep as [l m st reg sl cs sv i v Hi|l m st reg sl cs sv i Hi|l m st reg sl cs sv i Hi|l m st reg sl cs i Hi
    |l m st reg sl cs v Hv Hl|l m st reg sl cs sv v Hv Hsv|l m st reg sl cs v Hty Hl Hv|l m st reg sl cs slot slots
    |l m st reg sl cs|l m st reg sl cs slot Hn|l m st reg sl cs slot
    |l m st reg sl cs slot|l m st reg sl cs slot|l m st reg sl cs slot|l m st reg sl cs slot];
    split; simpl in *; try exact Hm; try exact Hst; try done.
  - intros slot Hns Hin Ha Hs. destruct (is_signaled l) eqn:El; simpl.
    + destruct (Hw slot) as [Hp|Hp]; [by destruct st; simpl in *; [congruence|]|done..|left|by right].
      eapply pending_client; eauto.
    + rewrite Hs. left. exists i. left. apply list_lookup_insert_eq. by eapply lookup_lt_Some.
  - intros [Hs Hv]%andb_true_iff. split; [by apply Hst|done].
  - intros slot Hns Hin Ha Hs. destruct (Hw slot Hns Hin Ha Hs) as [Hp|Hp]; [left|by right].
    eapply pending_client; eauto.
  - intros slot Hns Hin Ha Hs. rewrite Hm by (left; by intros ->; apply elem_of_nil in Hin).
    left. exists i. right. apply list_lookup_insert_eq. by eapply lookup_lt_Some.
  - intros [Hr|[slot [=]]]. apply Hm. by left.
  - intros slot Hns Hin Ha Hs. right. right. right. eauto.
  - intros [Hr|[slot [=]]]. apply Hm. by left.
  - intros slot Hns Hin Ha Hs. right. right. right. eauto.
  - intros slot Hns Hin Ha Hs. apply Hw; [by destruct st; simpl in *; [congruence|]|done|done|by apply Hv].
  - intros [Hs Hv']%andb_true_iff. split; [by apply Hst|done].
  - intros [Hr|[slot' [=]]]. apply Hm. by left.
  - intros x Hns Hin [Ha Hne]%wake_asleep Hs.
    destruct (Hw x Hns Hin Ha Hs) as [Hp|[[=]|[[=]|(slots' & [= <-] & Hx)]]]; [by left|].
    apply elem_of_cons in Hx as [->|Hx]; [done|]. right. right. right. eauto.
  - intros [Hr|[slot [=]]]. apply Hm. by left.
  - intros x Hns Hin Ha Hs.
    destruct (Hw x Hns Hin Ha Hs) as [Hp|[[=]|[[=]|(slots' & [= <-] & Hx)]]]; [by left|].
    by apply elem_of_nil in Hx.
  - intros [Hr|[slot' [=]]]. apply Hm. by left.
  - intros x Hns Hin Ha Hs. unfold sleep in Ha. destruct (Z.eqb_spec x slot) as [->|_]; [done|].
    destruct (Hw x Hns Hin Ha Hs) as [Hp|[[=]|[[=]|(? & [=] & _)]]]. by left.
  - intros x Hns Hin Ha Hs. destruct (Hw x Hns Hin Ha Hs) as [Hp|[[=]|[[=]|(? & [=] & _)]]]. by left.
  - intros _. apply Hm. right. eauto.
  - intros x Hns [->|Hin]%elem_of_cons Ha Hs; [by right; left|].
    destruct (Hw x Hns Hin Ha Hs) as [Hp|[[=]|[[=]|(? & [=] & _)]]]. by left.
  - intros Hr. apply Hm. destruct Hr as [Hr|[slot' Hr]]; [by left|]. by destruct (is_signaled l).
  - intros x Hns Hin Ha Hs. destruct (Hw x Hns Hin Ha Hs) as [Hp|[[= <-]|[[=]|(? & [=] & _)]]]; [by left|].
    rewrite Hs. by right; right; left.
  - intros [Hr|[slot' [=]]]. apply Hm. by left.
  - intros x Hns Hin [Ha Hne]%wake_asleep Hs.
    destruct (Hw x Hns Hin Ha Hs) as [Hp|[[=]|[[= <-]|(? & [=] & _)]]]; [by left|done].
  - intros [Hr|[slot' [=]]]. rewrite bool_decide_false by done. rewrite Hm; [done|]. left.
    intros ->. by destruct Hr.
  - intros x Hns Hin Ha Hs. apply list_elem_of_difference in Hin as [Hin _].
    destruct (Hw x Hns Hin Ha Hs) as [Hp|[[=]|[[=]|(? & [=] & _)]]]. by left.
Qed.

Lemma race_reachable_inv r r' : race_inv r → rtc race_step r r' → race_inv r'.
Proof. intros Hinv. induction 1; [done|]. eauto using race_step_inv. Qed.

(** The steps that bring a wake-up on its way to its slot. *)
Lemma wake_list_steps l m st reg sl cs slots slot :
  slot ∈ slots →
  ∃ sl', rtc race_step (Race l m st reg sl cs (WakeAll slots)) (Race l m st reg sl' cs Idle) ∧ sl' slot = false.
Proof.
  assert (∀ sl, (sl slot = false ∨ slot ∈ slots) →
    ∃ sl', rtc race_step (Race l m st reg sl cs (WakeAll slots)) (Race l m st reg sl' cs Idle) ∧ sl' slot = false) as H.
  { clear sl. induction slots as [|x slots IH]; intros sl Hs.
    - exists sl. split; [apply rtc_once; constructor|]. destruct Hs as [?|?%elem_of_nil]; done.
    - destruct (IH (wake x sl)) as (sl' & Hr & Hsl).
      { unfold wake. destruct (Z.eqb_spec slot x) as [->|Hne]; [by left|].
        destruct Hs as [?|[->|?]%elem_of_cons]; [by left|done|by right]. }
      exists sl'. split; [|done]. eapply rtc_l; [apply R_wake|done]. }
  intros Hs. apply H. by right.
Qed.

(** The server can always come to rest, and slots only wake on the way. *)
Lemma server_rests l m st reg sl cs sv :
  ∃ m' reg' sl', rtc race_step (Race l m st reg sl cs sv) (Race l m' st reg' sl' cs Idle) ∧
    (∀ x, sl' x = true → sl x = true) ∧ (∀ x, x ∈ reg → x ∈ reg') ∧ (m = true → m' = true).
Proof.
  assert (∀ slots m reg sl, ∃ sl', rtc race_step (Race l m st reg sl cs (WakeAll slots)) (Race l m st reg sl' cs Idle) ∧
    (∀ x, sl' x = true → sl x = true)) as Hall.
  { clear. induction slots as [|x slots IH]; intros m reg sl.
    - exists sl. split; [apply rtc_once; constructor|done].
    - destruct (IH m reg (wake x sl)) as (sl' & Hr & Hsl). exists sl'.
      split; [eapply rtc_l; [apply R_wake|done]|]. intros y Hy. by apply Hsl, wake_asleep in Hy as [? _]. }
  assert (∀ slot m reg, ∃ sl', rtc race_step (Race l m st reg sl cs (RegCheck slot)) (Race l m st reg sl' cs Idle) ∧
    (∀ x, sl' x = true → sl x = true)) as Hcheck.
  { clear -Hall. intros slot m reg. pose proof (R_check l m st reg sl cs slot) as Hst. destruct (is_signaled l).
    - exists (wake slot sl). split; [|by intros x [? _]%wake_asleep].
      eapply rtc_l; [exact Hst|]. apply rtc_once. constructor.
    - exists sl. split; [by apply rtc_once|done]. }
  destruct sv as [|slot|slot|slot|slot|slots].
  - exists m, reg, sl. split; [apply rtc_refl|done].
  - destruct (Hcheck slot true (slot :: reg)) as (sl' & Hr & Hsl). exists true, (slot :: reg), sl'.
    split_and!; [|done|by right|done]. eapply rtc_l; [apply R_flag|]. eapply rtc_l; [apply R_insert|done].
  - destruct (Hcheck slot m (slot :: reg)) as (sl' & Hr & Hsl). exists m, (slot :: reg), sl'.
    split_and!; [|done|by right|done]. eapply rtc_l; [apply R_insert|done].
  - destruct (Hcheck slot m reg) as (sl' & Hr & Hsl). exists m, reg, sl'. done.
  - exists m, reg, (wake slot sl). split_and!; [apply rtc_once; constructor|by intros x [? _]%wake_asleep|done|done].
  - destruct (Hall slots m reg sl) as (sl' & Hr & Hsl). exists m, reg, sl'. done.
Qed.

End race.

(** ** One client sets an event while the server registers slot 7 for it *)

Definition race_demo_start : race := Race 0 false false [] (λ _, false) [Store] Idle.
(** The server has put the slot to sleep and set the bit; the client has stored its signal
    and seen the bit; the server has inserted the waiter. *)
Definition race_demo : race := Race 1 true false [7] (sleep 7 (λ _, false)) [AskServer] (RegCheck 7).

Lemma race_demo_reachable : rtc (race_step INPROC_SYNC_EVENT) race_demo_start race_demo.
Proof.
  set (sl := sleep 7 (λ _, false)).
  apply (rtc_l _ _ (Race 0 false false [] sl [Store] (RegFlag 7))); [constructor; by apply not_elem_of_nil|].
  apply (rtc_l _ _ (Race 0 true false [] sl [Store] (RegInsert 7))); [constructor|].
  apply (rtc_l _ _ (Race 1 true false [] sl [LookMulti] (RegInsert 7))).
  { exact (R_store INPROC_SYNC_EVENT 0 true false [] sl [Store] (RegInsert 7) 0 1 eq_refl). }
  apply (rtc_l _ _ (Race 1 true false [] sl [AskServer] (RegInsert 7))).
  { exact (R_look INPROC_SYNC_EVENT 1 true false [] sl [LookMulti] (RegInsert 7) 0 eq_refl). }
  apply rtc_once. constructor.
Qed.


(** The exception is real: a slot is registered for an owned mutex, and SignalObjectAndWait
    releases the mutex; everybody is at rest, and the slot sleeps although the mutex is free. *)
Example stranded_waiter_sleeps :
  rtc (race_step INPROC_SYNC_MUTEX) (Race 5 false false [] (λ _, false) [Finished] Idle)
    (Race 0 true true [7] (sleep 7 (λ _, false)) [Finished] Idle) ∧
  is_signaled INPROC_SYNC_MUTEX 0 = true.
Proof.
  set (sl := sleep 7 (λ _, false)). split; [|by vm_compute].
  apply (rtc_l _ _ (Race 5 false false [] sl [Finished] (RegFlag 7))); [constructor; by apply not_elem_of_nil|].
  apply (rtc_l _ _ (Race 5 true false [] sl [Finished] (RegInsert 7))); [constructor|].
  apply (rtc_l _ _ (Race 5 true false [7] sl [Finished] (RegCheck 7))); [constructor|].
  apply (rtc_l _ _ (Race 5 true false [7] sl [Finished] Idle)).
  { exact (R_check INPROC_SYNC_MUTEX 5 true false [7] sl [Finished] 7). }
  apply rtc_once. constructor; by vm_compute.
Qed.
