(* ===== verification/WfusyncClientSpec.v ===== *)
(** * What the client side of WFUSync guarantees

    The handle cache and the page mapping, the discipline of the cache lock, and the
    agreement of the operations a process performs itself with the server's. *)

From S2P Require Import Prelude.
From S2P Require Import ShmState.
From S2P Require Import WfusyncServer.
From S2P Require Import WfusyncServerOps.
From S2P Require Import WfusyncRegistry.
From S2P Require Import WfusyncWake.
From S2P Require Import WfusyncServerInv.
From S2P Require Import WfusyncHistory.
From S2P Require Import WfusyncServerSpec.
From S2P Require Import WfusyncClient.
From S2P Require Import WfusyncClientOps.

(** ** The cache lock

    [lock_path b m after]: run with the lock held or free as [b] says, [m] never violates
    the lock's assertions and ends with it as [after] says of the result. [lock_kept] is
    the case where it ends as it started; [unlocked m] starts and ends without the lock;
    [inside m] is code that does not touch it. *)

Definition lock_path {A} (b : bool) (m : K A) (after : A → bool) : Prop :=
  ∀ s, k_locked s = b →
    match m s with Done a s' => k_locked s' = after a | AssertFailed => False | _ => True end.
Definition lock_kept {A} (b : bool) (m : K A) : Prop := lock_path b m (λ _, b).
Definition inside {A} (m : K A) : Prop := ∀ b, lock_kept b m.
Definition unlocked {A} (m : K A) : Prop := lock_kept false m.

Section lock.
Implicit Types (s : client).

Lemma lock_ret {A} b (a : A) : lock_kept b (mret a).
Proof. by intros s. Qed.
Lemma path_ret {A} b (a : A) after : after a = b → lock_path b (mret a) after.
Proof. by intros <- s. Qed.
Lemma path_bind {A B} b mid (m : K A) (f : A → K B) after :
  lock_path b m mid → (∀ a, lock_path (mid a) (f a) after) → lock_path b (m ≫= f) after.
Proof.
  intros Hm Hf s Hs. specialize (Hm s Hs). unfold mbind, M_bind.
  destruct (m s) as [a s'| | |]; [by apply Hf|done..].
Qed.
Lemma lock_bind {A B} b (m : K A) (f : A → K B) after :
  lock_kept b m → (∀ a, lock_path b (f a) after) → lock_path b (m ≫= f) after.
Proof. by apply path_bind. Qed.
(** Taking the lock and giving it back: the only two steps that change it. *)
Lemma path_lock : lock_path false lock_wfusync_cache (λ _, true).
Proof. intros s Hs. unfold lock_wfusync_cache, gets, mbind, M_bind. by rewrite Hs. Qed.
Lemma path_unlock : lock_path true unlock_wfusync_cache (λ _, false).
Proof. intros s Hs. unfold unlock_wfusync_cache, gets, mbind, M_bind. by rewrite Hs. Qed.
Lemma lock_gets {A} b (f : client → A) : lock_kept b (gets f).
Proof. by intros s. Qed.
Lemma lock_modify b f : (∀ s, k_locked (f s) = k_locked s) → lock_kept b (modify f).
Proof. intros Hf s Hs. simpl. by rewrite Hf. Qed.
Lemma lock_st b p f : lock_kept b (st p f).
Proof. by apply lock_modify. Qed.
Lemma lock_wake b p all : lock_kept b (wake_address p all).
Proof. by apply lock_modify. Qed.
Lemma lock_spin {A} b : lock_kept b (@spin client A).
Proof. by intros s. Qed.
Lemma lock_no_fuel {A} b : lock_kept b (@no_fuel client A).
Proof. by intros s. Qed.
Lemma lock_when b c m : lock_kept b m → lock_kept b (when c m).
Proof. destruct c; [done|intros _; apply lock_ret]. Qed.
Lemma lock_for_each {A} b (l : list A) f : (∀ x, lock_kept b (f x)) → lock_kept b (for_each l f).
Proof. intros Hf. induction l; simpl; [apply lock_ret|by apply lock_bind]. Qed.
Lemma lock_alloc b : lock_kept b alloc_ok.
Proof. intros s Hs. unfold alloc_ok. by destruct (k_alloc s). Qed.
Lemma lock_clock b : lock_kept b gettimeofday.
Proof. intros s Hs. unfold gettimeofday. by destruct (k_clock s) as [|t [|]]. Qed.

(** A request whose handler does not fail an assertion. *)
Lemma lock_call {A} b (h : W A) : (∀ w, h w ≠ AssertFailed) → lock_kept b (server_call h).
Proof.
  intros Hh s Hs. unfold server_call. specialize (Hh (set_err STATUS_SUCCESS (k_server s))).
  by destruct (h _).
Qed.
End lock.

Ltac lock_step tac :=
  cbv beta iota zeta;
  lazymatch goal with
  | |- lock_kept _ _ => unfold lock_kept
  | |- lock_path false (lock_wfusync_cache ≫= _) _ => eapply path_bind; [exact path_lock|intros ?]
  | |- lock_path true (unlock_wfusync_cache ≫= _) _ => eapply path_bind; [exact path_unlock|intros ?]
  | |- lock_path true unlock_wfusync_cache _ => exact path_unlock
  | |- lock_path _ (_ ≫= _) _ => apply lock_bind; [|intros ?]
  | |- lock_path _ (mret _) _ => apply path_ret; reflexivity
  | |- lock_path _ (_ ≫= _) _ => apply lock_bind; [|intros ?]
  | |- lock_path _ (gets _) _ => apply lock_gets
  | |- lock_path _ (ld _) _ => apply lock_gets
  | |- lock_path _ (st _ _) _ => apply lock_st
  | |- lock_path _ (wake_address _ _) _ => apply lock_wake
  | |- lock_path _ (modify _) _ => apply lock_modify; intros ?; done
  | |- lock_path _ spin _ => apply lock_spin
  | |- lock_path _ no_fuel _ => apply lock_no_fuel
  | |- lock_path _ alloc_ok _ => apply lock_alloc
  | |- lock_path _ gettimeofday _ => apply lock_clock
  | |- lock_path _ (when _ _) _ => apply lock_when
  | |- lock_path _ (for_each _ _) _ => apply lock_for_each; intros ?
  | |- lock_path _ (if ?b then _ else _) _ => destruct b
  | |- lock_path _ (match ?x with _ => _ end) _ => destruct x
  | |- _ => tac
  end.
Ltac lock_tac tac := repeat (lock_step tac).

(** Requests do not fail assertions: none of the handlers the client calls contains one. *)
Definition no_assert {A} (m : W A) : Prop := ∀ w, m w ≠ AssertFailed.

Section no_assert.
Lemma na_ret {A} (a : A) : no_assert (mret a).
Proof. by intros w. Qed.
Lemma na_bind {A B} (m : W A) (f : A → W B) :
  no_assert m → (∀ a, no_assert (f a)) → no_assert (m ≫= f).
Proof.
  intros Hm Hf w. unfold mbind, M_bind. specialize (Hm w).
  destruct (m w) as [a w'| | |]; [apply Hf|done..].
Qed.
Lemma na_gets {A} (f : wfs → A) : no_assert (gets f).
Proof. by intros w. Qed.
Lemma na_modify f : no_assert (modify f).
Proof. by intros w. Qed.
Lemma na_no_fuel {A} : no_assert (@no_fuel wfs A).
Proof. by intros w. Qed.
Lemma na_when b m : no_assert m → no_assert (when b m).
Proof. destruct b; [done|intros _; apply na_ret]. Qed.
Lemma na_for_each {A} (l : list A) f : (∀ x, no_assert (f x)) → no_assert (for_each l f).
Proof. intros Hf. induction l; simpl; [apply na_ret|by apply na_bind]. Qed.
Lemma na_for_until {A R} (l : list A) (f : A → W (option R)) :
  (∀ x, no_assert (f x)) → no_assert (for_until l f).
Proof.
  intros Hf. induction l as [|x l IH]; simpl; [apply na_ret|].
  apply na_bind; [done|]. intros [r|]; [apply na_ret|done].
Qed.
Lemma na_syscall : no_assert syscall.
Proof. intros w. unfold syscall. by destruct (w_env w). Qed.
End no_assert.

Ltac na_step tac :=
  cbv beta iota zeta;
  lazymatch goal with
  | |- no_assert (_ ≫= _) => apply na_bind; [|intros ?]
  | |- no_assert (mret _) => apply na_ret
  | |- no_assert (gets _) => apply na_gets
  | |- no_assert (ld _) => apply na_gets
  | |- no_assert (st _ _) => apply na_modify
  | |- no_assert (wake_address _ _) => apply na_modify
  | |- no_assert (modify _) => apply na_modify
  | |- no_assert no_fuel => apply na_no_fuel
  | |- no_assert syscall => apply na_syscall
  | |- no_assert (when _ _) => apply na_when
  | |- no_assert (for_each _ _) => apply na_for_each; intros ?
  | |- no_assert (for_until _ _) => apply na_for_until; intros ?
  | |- no_assert (if ?b then _ else _) => destruct b
  | |- no_assert (match ?x with _ => _ end) => destruct x
  | |- _ => tac
  end.
Ltac na_tac tac := repeat (na_step tac).

Section handlers.
Context `{PageSize}.

Lemma na_shared_fd : no_assert wfusync_get_shared_fd.
Proof.
  assert (∀ n, no_assert (shared_fd_attempts n)) as Ha.
  { intros n. induction n as [|n IH]; simpl; na_tac ltac:(exact IH). }
  unfold wfusync_get_shared_fd. na_tac ltac:(apply Ha).
Qed.

Lemma na_alloc_slot : no_assert alloc_state_slot.
Proof.
  unfold alloc_state_slot, grow_pages, map_page, ensure_shared_file_size.
  na_tac ltac:(apply na_shared_fd).
Qed.

Lemma na_get_slot : no_assert req_get_wfusync_wait_slot.
Proof.
  unfold req_get_wfusync_wait_slot, wfusync_alloc_wait_slot, take_generation, set_error.
  na_tac ltac:(apply na_alloc_slot).
Qed.

Lemma na_remove_multi idx : no_assert (remove_multi_waiter idx).
Proof. unfold remove_multi_waiter, get_state, fetch_and_type. na_tac idtac. Qed.

Lemma na_remove_waiter slot : no_assert (remove_waiter slot).
Proof.
  assert (∀ l, no_assert (remove_waiter_walk slot l)) as Hw.
  { intros l. induction l as [|w l IH]; simpl; na_tac ltac:(first [apply na_remove_multi | exact IH]). }
  unfold remove_waiter. na_tac ltac:(apply Hw).
Qed.

Lemma na_register slot idxs : no_assert (wfusync_register_wait slot idxs).
Proof.
  assert (∀ idx, no_assert (add_multi_waiter idx)) as Hadd.
  { intros idx. unfold add_multi_waiter, ensure_multi_waiter_count, get_state, get_state_type,
      fetch_or_type. na_tac idtac. }
  assert (∀ todo added, no_assert (register_add added todo)) as Ha.
  { intros todo. induction todo as [|x todo IH]; intros added; simpl;
      na_tac ltac:(first [apply Hadd | apply na_remove_multi | apply IH]). }
  unfold wfusync_register_wait, register_validate, mem_alloc_ok, take_generation, set_error,
    wfusync_state_signaled, wake_wait_slot, get_state, get_state_type.
  na_tac ltac:(first [apply na_remove_waiter | apply Ha]).
Qed.

Lemma na_unregister slot : no_assert (wfusync_unregister_wait slot).
Proof.
  unfold wfusync_unregister_wait, wake_wait_slot, get_state. na_tac ltac:(apply na_remove_waiter).
Qed.

Lemma na_req_register slot size data : no_assert (req_register_wfusync_wait slot size data).
Proof. unfold req_register_wfusync_wait, set_error. na_tac ltac:(apply na_register). Qed.
Lemma na_req_unregister slot : no_assert (req_unregister_wfusync_wait slot).
Proof. unfold req_unregister_wfusync_wait, set_error. na_tac ltac:(apply na_unregister). Qed.
Lemma na_req_wake idx : no_assert (req_wake_wfusync_waiters idx).
Proof.
  unfold req_wake_wfusync_waiters, WfusyncServer.wfusync_wake_waiters, wake_waiters_for_object,
    wake_wait_slot, get_state, set_error. na_tac idtac.
Qed.

Lemma na_try_wait_all entries tid : no_assert (wfusync_try_wait_all entries tid).
Proof.
  assert (∀ es g, no_assert (guard_all es g)) as Hg.
  { intros es. induction es as [|e es IH]; intros g; simpl; unfold get_state, fetch_or_type;
      na_tac ltac:(apply IH). }
  assert (∀ ps ab, no_assert (check_all ps tid ab)) as Hc.
  { intros ps. induction ps as [|[p e] ps IH]; intros ab; simpl; na_tac ltac:(apply IH). }
  assert (∀ ps, no_assert (consume_all ps tid)) as Hs.
  { intros ps. induction ps as [|[p e] ps IH]; simpl; na_tac ltac:(apply IH). }
  unfold wfusync_try_wait_all, unguard_all, fetch_and_type.
  na_tac ltac:(first [apply Hg | apply Hc | apply Hs]).
Qed.

Lemma na_req_try_wait_all slot tid size data :
  no_assert (req_try_wait_all_wfusync slot tid size data).
Proof.
  assert (∀ es acc, no_assert (get_wait_all_unsignaled es tid acc)) as Hu.
  { intros es. induction es as [|e es IH]; intros acc; simpl; unfold get_state; na_tac ltac:(apply IH). }
  assert (∀ n es, no_assert (wait_all_attempts n slot tid es)) as Ha.
  { intros n. induction n as [|n IH]; intros es; simpl;
      na_tac ltac:(first [apply na_try_wait_all | apply Hu | apply na_register | apply IH]). }
  unfold req_try_wait_all_wfusync, set_error. na_tac ltac:(first [apply na_unregister | apply Ha]).
Qed.
End handlers.

(** Code that does not touch the lock. *)
Section inside.
Context `{PageSize}.
Implicit Types (b : bool).

Lemma lock_cache_entry b h : lock_kept b (get_wfusync_cache_entry h).
Proof. unfold get_wfusync_cache_entry. lock_tac idtac. Qed.
Lemma lock_set_kind b h kind : lock_kept b (wfusync_set_handle_kind h kind).
Proof. unfold wfusync_set_handle_kind. lock_tac idtac. Qed.
Lemma lock_get_local b local ty h access : lock_kept b (get_local_state_locked local ty h access).
Proof. unfold get_local_state_locked, get_entry. lock_tac ltac:(apply lock_cache_entry). Qed.
Lemma lock_map b idx fd : lock_kept b (map_wfusync_state idx fd).
Proof. unfold map_wfusync_state. lock_tac idtac. Qed.
Lemma lock_hotpath b entry : lock_kept b (wfusync_entry_signal_hotpath_enabled entry).
Proof.
  unfold wfusync_entry_signal_hotpath_enabled, get_entry, wfusync_shm_idx_signal_unsafe.
  lock_tac idtac.
Qed.
Lemma lock_state_lock b p ty : lock_kept b (wfusync_lock_state p ty).
Proof.
  unfold wfusync_lock_state, wfusync_try_lock_state, cas_type. lock_tac idtac.
Qed.
Lemma lock_validate b p ty g : lock_kept b (lock_and_validate p ty g).
Proof.
  unfold lock_and_validate, load_generation, wfusync_has_server_waiters, wfusync_unlock_state,
    unlock_state, fetch_and_type. lock_tac ltac:(apply lock_state_lock).
Qed.
Lemma lock_wake_waiters b idx : lock_kept b (wfusync_wake_waiters idx).
Proof.
  unfold wfusync_wake_waiters. lock_tac ltac:(apply lock_call; apply na_req_wake).
Qed.
Lemma lock_wait_address b p v t : lock_kept b (wfusync_wait_address p v t).
Proof. unfold wfusync_wait_address, os_wait. lock_tac idtac. Qed.
Lemma lock_relative b t : lock_kept b (get_relative_timeout_abs t).
Proof. unfold get_relative_timeout_abs. lock_tac idtac. Qed.
Lemma lock_deadline b t : lock_kept b (deadline_of t).
Proof. unfold deadline_of. lock_tac ltac:(apply lock_relative). Qed.
Lemma lock_remaining b d t : lock_kept b (remaining d t).
Proof. unfold remaining, get_now_abs. lock_tac idtac. Qed.
Lemma lock_stale b p g ty : lock_kept b (stale_or_server_owned p g ty).
Proof.
  unfold stale_or_server_owned, load_generation, wfusync_state_type, get_state_type,
    wfusync_has_server_waiters. lock_tac idtac.
Qed.
Lemma lock_consume_event b p : lock_kept b (consume_event_state p).
Proof.
  unfold consume_event_state, consume_auto_event_state, wfusync_atomic_load, load_high,
    wfusync_atomic_compare_exchange, wfusync_unlock_state, unlock_state, fetch_and_type.
  lock_tac ltac:(apply lock_state_lock).
Qed.
Lemma lock_consume_semaphore b p : lock_kept b (consume_semaphore_state p).
Proof.
  unfold consume_semaphore_state, wfusync_atomic_load, wfusync_atomic_compare_exchange,
    wfusync_unlock_state, unlock_state, fetch_and_type.
  lock_tac ltac:(apply lock_state_lock).
Qed.
Lemma lock_consume_mutex_locked b p tid : lock_kept b (consume_mutex_state_locked p tid).
Proof. unfold consume_mutex_state_locked, wfusync_atomic_load, load_high. lock_tac idtac. Qed.
Lemma lock_consume_mutex b p tid : lock_kept b (consume_mutex_state p tid).
Proof.
  unfold consume_mutex_state, wfusync_unlock_state, unlock_state, fetch_and_type.
  lock_tac ltac:(first [apply lock_state_lock | apply lock_consume_mutex_locked]).
Qed.
Lemma lock_call_register b l : lock_kept b (register_wfusync_wait l).
Proof. unfold register_wfusync_wait. lock_tac ltac:(apply lock_call; apply na_req_register). Qed.
Lemma lock_call_unregister b : lock_kept b unregister_wfusync_wait.
Proof. unfold unregister_wfusync_wait. lock_tac ltac:(apply lock_call; apply na_req_unregister). Qed.
Lemma lock_call_wait_all b l i : lock_kept b (try_wait_all_wfusync l i).
Proof. unfold try_wait_all_wfusync. lock_tac ltac:(apply lock_call; apply na_req_try_wait_all). Qed.
Lemma lock_try_local b objs : lock_kept b (try_wait_all_local objs).
Proof.
  assert (∀ order prev locked, lock_kept b (lock_in_order order prev locked)) as Hl.
  { intros order. induction order as [|o order IH]; intros prev locked; simpl;
      lock_tac ltac:(first [apply lock_state_lock | apply IH]). }
  assert (∀ l tid ab, lock_kept b (check_objs l tid ab)) as Hc.
  { intros l tid. induction l as [|o l IH]; intros ab; simpl; lock_tac ltac:(apply IH). }
  assert (∀ l tid ab, lock_kept b (consume_objs l tid ab)) as Hs.
  { intros l tid. induction l as [|o l IH]; intros ab; simpl;
      lock_tac ltac:(first [apply lock_consume_mutex_locked | apply IH]). }
  unfold try_wait_all_local, wfusync_unlock_state, unlock_state, fetch_and_type.
  lock_tac ltac:(first [apply Hl | apply Hc | apply Hs]).
Qed.
(** A way out of the loop over the handles of a wait has given the lock back; the end of
    the loop has not. *)
Definition held_on_success {A} (r : Z + A) : bool := if r then false else true.
Lemma lock_collect type handles : lock_path true (collect_states type handles) held_on_success.
Proof.
  assert (∀ h, lock_path true (collect_one type h) held_on_success) as H1.
  { intros h. unfold collect_one, wfusync_get_handle_kind, get_local_event_state_locked,
      get_local_semaphore_state_locked, get_local_mutex_state_locked, get_entry, entry_ptr,
      get_entry, wfusync_has_wine_server_waiters, wfusync_has_server_waiters.
    lock_tac ltac:(apply lock_get_local). }
  induction handles as [|h hs IH]; simpl; [by apply path_ret|].
  eapply path_bind; [apply H1|]. intros [ret|o]; [by apply path_ret|].
  eapply path_bind; [exact IH|]. intros [ret|os]; by apply path_ret.
Qed.
End inside.

(** Code that takes it. *)
Section outside.
Context `{PageSize}.

Lemma unlocked_prologue (local : wfusync_cache_entry → bool) ty access hotpath waiting h :
  unlocked (locked_prologue (get_local_state_locked local ty) access hotpath waiting h).
Proof.
  unfold unlocked, locked_prologue, entry_ptr, entry_generation, get_entry, wfusync_has_server_waiters.
  lock_tac ltac:(first [apply lock_get_local | apply lock_hotpath]).
Qed.
Lemma unlocked_signal (local : wfusync_cache_entry → bool) kind ty access hotpath h :
  unlocked (signal_prologue kind (get_local_state_locked local ty) access hotpath h).
Proof.
  unfold unlocked, signal_prologue, wfusync_handle_kind_matches, wfusync_get_handle_kind.
  lock_tac ltac:(apply unlocked_prologue).
Qed.
Lemma unlocked_wait (local : wfusync_cache_entry → bool) kind ty hotpath h al t :
  unlocked (wait_prologue kind (get_local_state_locked local ty) hotpath h al t).
Proof.
  unfold unlocked, wait_prologue, wfusync_get_handle_kind. lock_tac ltac:(apply unlocked_prologue).
Qed.
Lemma unlocked_refresh h p : unlocked (wfusync_refresh_cache_generation h p).
Proof.
  unfold unlocked, wfusync_refresh_cache_generation, get_entry. lock_tac ltac:(apply lock_cache_entry).
Qed.
Lemma unlocked_wait_loop n consume ty p g d a :
  (∀ q, unlocked (consume q)) → unlocked (wait_loop n consume ty p g d a).
Proof.
  intros Hc. unfold unlocked. revert a. induction n as [|n IH]; intros a; simpl;
    lock_tac ltac:(first [apply IH | apply lock_stale | apply Hc | apply lock_remaining
                         | apply lock_wait_address]).
Qed.
Lemma unlocked_mutex_loop n h tid p g d a : unlocked (mutex_wait_loop n h tid p g d a).
Proof.
  unfold unlocked. revert a. induction n as [|n IH]; intros a; simpl;
    unfold wfusync_atomic_load;
    lock_tac ltac:(first [apply IH | apply lock_stale | apply lock_consume_mutex
                         | apply unlocked_refresh | apply lock_remaining | apply lock_wait_address]).
Qed.
Lemma unlocked_refresh_all objs : unlocked (refresh_waitall_mutex_generations objs).
Proof. unfold unlocked, refresh_waitall_mutex_generations. lock_tac ltac:(apply unlocked_refresh). Qed.
Lemma unlocked_waitany i objs : unlocked (consume_waitany_from i objs).
Proof.
  unfold unlocked. revert i. induction objs as [|[h o] objs IH]; intros i; simpl;
    unfold load_generation, wfusync_state_type, get_state_type;
    lock_tac ltac:(first [apply IH | apply lock_consume_event | apply lock_consume_semaphore
                         | apply lock_consume_mutex | apply unlocked_refresh]).
Qed.
Lemma unlocked_get_slot : unlocked get_wfusync_wait_slot.
Proof.
  unfold unlocked, get_wfusync_wait_slot.
  lock_tac ltac:(first [apply lock_call; apply na_get_slot | apply lock_map]).
Qed.
Lemma unlocked_multiple_all objs t : unlocked (wait_multiple_all objs t).
Proof.
  assert (∀ n entries d, unlocked (waitall_loop n objs entries d)) as Hl.
  { intros n entries d. unfold unlocked. induction n as [|n IH]; simpl; unfold wait_on_slot;
      lock_tac ltac:(first [apply lock_call_wait_all | apply unlocked_refresh_all
        | apply lock_remaining | apply lock_call_unregister | apply lock_wait_address | apply IH]). }
  unfold unlocked, wait_multiple_all, multi_fuel.
  lock_tac ltac:(first [apply lock_try_local | apply unlocked_refresh_all | apply lock_call_wait_all
    | apply unlocked_get_slot | apply lock_deadline | apply Hl]).
Qed.
Lemma unlocked_multiple_any objs t : unlocked (wait_multiple_any objs t).
Proof.
  assert (∀ n d, unlocked (waitany_loop n objs d)) as Hl.
  { intros n d. unfold unlocked. induction n as [|n IH]; simpl; unfold wait_on_slot;
      lock_tac ltac:(first [apply lock_call_register | apply unlocked_waitany
        | apply lock_remaining | apply lock_call_unregister | apply lock_wait_address | apply IH]). }
  unfold unlocked, wait_multiple_any, multi_fuel.
  lock_tac ltac:(first [apply unlocked_waitany | apply unlocked_get_slot | apply lock_deadline | apply Hl]).
Qed.
Lemma unlocked_multiple hs ty al t : unlocked (wfusync_wait_multiple hs ty al t).
Proof.
  unfold unlocked, wfusync_wait_multiple. apply lock_bind; [apply lock_gets|intros en].
  cbv zeta. do 6 (lazymatch goal with |- lock_path _ (if ?b then _ else _) _ =>
                    destruct b; [by apply path_ret|] end).
  eapply path_bind; [exact path_lock|intros []].
  eapply path_bind; [apply lock_collect|intros [ret|os]; [by apply path_ret|cbn [held_on_success]]].
  lock_tac ltac:(first [apply unlocked_multiple_all | apply unlocked_multiple_any]).
Qed.
End outside.

(** The functions the rest of ntdll calls. *)
Inductive client_op :=
| MarkLocalEvent (handle : Z) | MarkLocalMutex (handle : Z) | MarkLocalSemaphore (handle : Z)
| CacheInprocSync (handle type access shm_idx fd : Z)
| GetCachedState (handle : Z)
| DropHandle (handle : Z)
| NoteFallback (handle status : Z)
| SetEvent (handle : Z) | ResetEvent (handle : Z) | QueryEvent (handle : Z)
| ReleaseMutex (handle : Z) | QueryMutex (handle : Z)
| ReleaseSemaphore (handle count : Z)
| WaitEvent (handle : Z) (alertable : bool) (timeout : option Z)
| WaitMutex (handle : Z) (alertable : bool) (timeout : option Z)
| WaitSemaphore (handle : Z) (alertable : bool) (timeout : option Z)
| WaitMultiple (handles : list Z) (type : wait_type) (alertable : bool) (timeout : option Z).

Definition run_client_op `{PageSize} (op : client_op) : K unit :=
  match op with
  | MarkLocalEvent h => wfusync_mark_local_event h
  | MarkLocalMutex h => wfusync_mark_local_mutex h
  | MarkLocalSemaphore h => wfusync_mark_local_semaphore h
  | CacheInprocSync h ty access idx fd => wfusync_cache_inproc_sync h ty access idx fd
  | GetCachedState h => _ ← wfusync_get_cached_state h; mret tt
  | DropHandle h => wfusync_drop_handle h
  | NoteFallback h st => wfusync_note_fallback h st
  | SetEvent h => _ ← wfusync_set_event h; mret tt
  | ResetEvent h => _ ← wfusync_reset_event h; mret tt
  | QueryEvent h => _ ← wfusync_query_event h; mret tt
  | ReleaseMutex h => _ ← wfusync_release_mutex h; mret tt
  | QueryMutex h => _ ← wfusync_query_mutex h; mret tt
  | ReleaseSemaphore h n => _ ← wfusync_release_semaphore h n; mret tt
  | WaitEvent h al t => _ ← wfusync_wait_event h al t; mret tt
  | WaitMutex h al t => _ ← wfusync_wait_mutex h al t; mret tt
  | WaitSemaphore h al t => _ ← wfusync_wait_semaphore h al t; mret tt
  | WaitMultiple hs ty al t => _ ← wfusync_wait_multiple hs ty al t; mret tt
  end.

(** C17: The cache lock [wfusync_cache_lock] is not recursive, and no function of the
    client takes it twice, releases it unheld or returns with it: every call that starts
    without the lock keeps the lock's assertions, and if it returns, it returns without
    the lock, on every path, errors and early returns included. *)
Theorem cache_lock_discipline `{PageSize} (op : client_op) (s : client) :
  k_locked s = false →
  match run_client_op op s with
  | Done _ s' => k_locked s' = false
  | AssertFailed => False
  | Spinning | NoFuel => True
  end.
Proof.
  revert s. change (unlocked (run_client_op op)). unfold unlocked.
  destruct op; simpl;
    unfold wfusync_mark_local_event, wfusync_mark_local_mutex, wfusync_mark_local_semaphore,
      mark_local, wfusync_cache_inproc_sync, store_state, wfusync_get_cached_state, wfusync_drop_handle,
      wfusync_note_fallback, wfusync_set_event, wfusync_reset_event, wfusync_query_event,
      wfusync_release_mutex, wfusync_query_mutex, wfusync_release_semaphore, wfusync_wait_event,
      wfusync_wait_semaphore, wfusync_wait_mutex, wait_consumable,
      wait_fuel, entry_ptr, wfusync_shm_idx_signal_unsafe, wfusync_atomic_load,
      load_high, wfusync_has_multi_waiters, wfusync_atomic_compare_exchange,
      wfusync_unlock_state, unlock_state, fetch_and_type, wfusync_handle_kind_matches,
      wfusync_get_handle_kind, get_entry;
    lock_tac ltac:(first
      [ apply lock_cache_entry | apply lock_set_kind | apply lock_map | apply lock_get_local
      | apply unlocked_signal | apply unlocked_wait | apply lock_validate | apply lock_state_lock
      | apply lock_wake_waiters | apply lock_consume_event | apply lock_consume_semaphore
      | apply lock_consume_mutex | apply unlocked_refresh | apply lock_deadline
      | apply unlocked_wait_loop; intros ?; first [apply lock_consume_event | apply lock_consume_semaphore]
      | apply unlocked_mutex_loop | apply unlocked_multiple ]).
Qed.

#[local] Existing Instance page_4096.

(** Caching the cell of an event for the handle 4. *)
Lemma cache_lock_discipline_witness :
  match run_client_op (CacheInprocSync 4 INPROC_SYNC_EVENT 0x1f0003 1 5) (initial_client demo) with
  | Done _ s' => k_locked s' = false
  | AssertFailed => False
  | Spinning | NoFuel => True
  end.
Proof.
  apply (cache_lock_discipline (CacheInprocSync 4 INPROC_SYNC_EVENT 0x1f0003 1 5) (initial_client demo)).
  reflexivity.
Defined.
