(* ===== verification/WfusyncClientAgree.v ===== *)
(** * The fast path agrees with the server

    A process that finds the cell of its handle free and nobody waiting performs the
    operation on shared memory itself (src/dlls/ntdll/unix/wfusync.c). The theorems here
    say that the memory, the wakeups and the result are those of the server function
    (src/server/wfusync.c) that the system call would have reached. *)

From S2P Require Import Prelude.
From S2P Require Import ShmState.
From S2P Require Import WfusyncServer.
From S2P Require Import WfusyncServerOps.
From S2P Require Import WfusyncRegistry.
From S2P Require Import WfusyncWake.
From S2P Require Import WfusyncServerInv.
From S2P Require Import WfusyncHistory.
From S2P Require Import WfusyncServerSpec.
From S2P Require Import WfusyncClient.
From S2P Require Import WfusyncClientOps.

(** ** From the client's view of memory to the server's *)

Lemma on_server_cell f (s : client) p : cell_at (on_server f s) p = cell_at (f (k_server s)) p.
Proof. done. Qed.
Lemma client_put p c (s : client) :
  put_cell p c s = on_server (λ _, put_cell p c (k_server s)) s.
Proof. done. Qed.
Lemma client_wake p all f (s : client) :
  add_wake p all (on_server f s) = on_server (λ _, add_wake p all (f (k_server s))) s.
Proof. done. Qed.
Lemma on_server_id (s : client) : on_server (λ _, k_server s) s = s.
Proof. by destruct s. Qed.

Lemma for_each_none {S A} (l : list A) (f : A → M S unit) s :
  (∀ x, x ∈ l → f x s = Done tt s) → for_each l f s = Done tt s.
Proof.
  induction l as [|x l IH]; intros Hf; [done|]. simpl. unfold mbind, M_bind.
  rewrite Hf by (by left). apply IH. intros y Hy. apply Hf. by right.
Qed.

Section agree.
Context `{PageSize}.
Implicit Types (w : wfs) (s : client) (v : wfusync).

Lemma registered_elem w (x : wfusync_waiter) idx :
  x ∈ w_waiters w → idx ∈ wt_shm_idxs x → idx ∈ registered w.
Proof.
  intros Hx Hi. unfold registered. apply list_elem_of_join. exists (wt_shm_idxs x).
  split; [done|]. apply list_elem_of_fmap. by exists x.
Qed.

Lemma wake_nobody w idx :
  idx ∉ registered w → wake_waiters_for_object idx w = Done tt w.
Proof.
  intros Hn. unfold wake_waiters_for_object. eapply run_bind; [done|]. apply for_each_none.
  intros x Hx. rewrite bool_decide_false; [done|]. intros Hi. by eapply Hn, registered_elem.
Qed.

(** An object whose cell does not have the bit is not registered. *)
Lemma unflagged_unregistered w q v :
  server_wf w → w_syncs w !! q = Some v →
  has_flag (cell_idx w (ws_shm_idx v)) WFUSYNC_MULTI_WAITERS = false →
  ws_shm_idx v ∉ registered w.
Proof.
  intros Hwf Hq Hf Hin. pose proof (so_range _ (sw_ok _ Hwf)).
  destruct (so_waiters _ (sw_ok _ Hwf)) as [[H1 H2 H3 H4 H5] _].
  destruct (so_sync _ (sw_ok _ Hwf) q v Hq) as [I1 I2 I3 I4 I5].
  rewrite H3, bool_decide_eq_false in Hf by (done || lia). apply Hf. by apply occ_pos.
Qed.

(** The handle stands for the server's object [q]: it is cached for its cell, and the
    cell is current, free and not waited on. *)
Definition stands_for (local : wfusync_cache_entry → bool) (kind ty access handle : Z)
    (q : Z) (v : wfusync) (s : client) : Prop :=
  server_wf (k_server s) ∧ w_syncs (k_server s) !! q = Some v ∧
  ∃ entry, ready local kind ty access handle entry (cell_addr (ws_shm_idx v)) s.

Lemma stands_for_cell local kind ty access handle q v s :
  stands_for local kind ty access handle q v s →
  sync_cell (k_server s) q v (cell_addr (ws_shm_idx v)) ∧
  free_cell (cell_at (k_server s) (cell_addr (ws_shm_idx v))) ty ∧
  ws_shm_idx v ∉ registered (k_server s).
Proof.
  intros (Hwf & Hq & entry & Hc & Hg & Hu). split_and!.
  - by apply live_sync_cell; [apply Hwf|].
  - apply Hu.
  - eapply unflagged_unregistered; [done..|]. apply Hu.
Qed.
End agree.

Section theorems.
Context `{PageSize}.

(** Event fast path. Setting and resetting an event from the process, without a
    system call, leaves exactly the shared memory and the wakeups that the server's
    [wfusync_set_event] and [wfusync_reset_event] leave, and reports the previous
    signal state. *)
Theorem event_fast_path_agrees handle q v s :
  stands_for ce_local_event WFUSYNC_KIND_EVENT INPROC_SYNC_EVENT EVENT_MODIFY_STATE handle q v s →
  let previous := c_low (cell_idx (k_server s) (ws_shm_idx v)) in
  (∃ w, WfusyncServer.wfusync_set_event (Some q) (k_server s) = Done tt w ∧
     WfusyncClient.wfusync_set_event handle s =
       Done (STATUS_SUCCESS, Some previous) (on_server (λ _, w) s)) ∧
  (∃ w, WfusyncServer.wfusync_reset_event (Some q) (k_server s) = Done tt w ∧
     WfusyncClient.wfusync_reset_event handle s =
       Done (STATUS_SUCCESS, Some previous) (on_server (λ _, w) s)).
Proof.
  intros Hst. destruct (stands_for_cell _ _ _ _ _ _ _ _ Hst) as (Hsc & Hf & Hn).
  destruct Hst as (Hwf & Hq & entry & Hr). cbv zeta. split.
  - rewrite (client_set_event_exec _ _ _ _ _ Hr eq_refl).
    rewrite (set_event_exec _ _ _ _ _ Hsc (or_introl eq_refl) Hf). cbv zeta.
    change (cell_at s) with (cell_at (k_server s)).
    destruct (truth _); (eexists; split; [by apply wake_nobody|done]).
  - rewrite (client_reset_event_exec _ _ _ _ _ Hr eq_refl).
    rewrite (reset_event_exec _ _ _ _ _ Hsc (or_introl eq_refl) Hf). by eexists.
Qed.

(** C15: Semaphore fast path. Releasing a semaphore from the process gives the same
    answer as the server: when the limit would be exceeded both refuse, the process with
    the status the server sets as error and with memory untouched; otherwise both leave
    the same count and the same wakeups and report the previous count. *)
Theorem semaphore_fast_path_agrees handle count q v s :
  stands_for ce_local_semaphore WFUSYNC_KIND_SEMAPHORE INPROC_SYNC_SEMAPHORE
    SEMAPHORE_MODIFY_STATE handle q v s →
  ∃ r w, WfusyncServer.wfusync_release_semaphore (Some q) count (k_server s) = Done r w ∧
    match r with
    | Some previous =>
        WfusyncClient.wfusync_release_semaphore handle count s =
          Done (STATUS_SUCCESS, Some previous) (on_server (λ _, w) s)
    | None =>
        WfusyncClient.wfusync_release_semaphore handle count s = Done (w_error w, None) s ∧
        w_error w = STATUS_SEMAPHORE_LIMIT_EXCEEDED ∧ w_shm w = w_shm (k_server s)
    end.
Proof.
  intros Hst. destruct (stands_for_cell _ _ _ _ _ _ _ _ Hst) as (Hsc & Hf & Hn).
  destruct Hst as (Hwf & Hq & entry & Hr).
  rewrite (client_release_semaphore_exec _ _ _ _ _ Hr _ eq_refl).
  rewrite (release_semaphore_exec _ _ _ _ Hsc Hf). change (cell_at s) with (cell_at (k_server s)).
  destruct (semaphore_limit_exceeded _ _ _); [by eexists _, _|]. cbv zeta.
  do 2 eexists. split; [done|]. simpl.
  destruct (semaphore_value _ q v Hwf Hq) as [Hlo Hhi]; [apply Hf|].
  unfold cell_idx, INT_MAX in *. rewrite (u32_small (c_low _)) by lia. by destruct (_ =? 0).
Qed.

(** C16: Mutex fast path. Releasing a mutex from the process gives the same answer as
    the server for the calling thread: not the owner, a nested release, or the last
    release, which frees the mutex and wakes one address waiter. The two sides report
    the same previous recursion, the process as a previous count [1 - recursion]. *)
Theorem mutex_fast_path_agrees handle q v s :
  stands_for ce_local_mutex WFUSYNC_KIND_MUTEX INPROC_SYNC_MUTEX 0 handle q v s →
  ∃ r w, WfusyncServer.wfusync_release_mutex (Some q) (k_tid s) (k_server s) = Done r w ∧
    match r with
    | Some recursion =>
        WfusyncClient.wfusync_release_mutex handle s =
          Done (STATUS_SUCCESS, Some (1 - recursion)) (on_server (λ _, w) s)
    | None =>
        WfusyncClient.wfusync_release_mutex handle s = Done (w_error w, None) s ∧
        w_error w = STATUS_MUTANT_NOT_OWNED ∧ w_shm w = w_shm (k_server s)
    end.
Proof.
  intros Hst. destruct (stands_for_cell _ _ _ _ _ _ _ _ Hst) as (Hsc & Hf & Hn).
  destruct Hst as (Hwf & Hq & entry & Hr).
  rewrite (client_release_mutex_exec _ _ _ _ Hr).
  rewrite (release_mutex_exec _ _ _ _ _ Hsc Hf). change (cell_at s) with (cell_at (k_server s)).
  destruct (negb _ || _) eqn:E; [by eexists _, _|].
  pose proof (mutex_value _ q v Hwf Hq (proj1 Hf)) as Hval.
  assert (s32 (1 - c_high (cell_at (k_server s) (cell_addr (ws_shm_idx v)))) =
          1 - c_high (cell_at (k_server s) (cell_addr (ws_shm_idx v)))) as ->.
  { unfold cell_idx, INT_MAX in *. apply s32_small. lia. }
  destruct (1 <? _); by eexists _, _.
Qed.
End theorems.

(** ** A concrete process *)

#[local] Existing Instance page_4096.

Definition full_access : Z := 0x1f0003.

(** It learns the cells of the event, the semaphore and the mutex of [demo] through the
    handles 4, 8 and 12, and knows that it may use them locally. *)
Definition demo_caching : list (K unit) :=
  [ wfusync_cache_inproc_sync 4 INPROC_SYNC_EVENT full_access 1 5; wfusync_mark_local_event 4;
    wfusync_cache_inproc_sync 8 INPROC_SYNC_SEMAPHORE full_access 2 5; wfusync_mark_local_semaphore 8;
    wfusync_cache_inproc_sync 12 INPROC_SYNC_MUTEX full_access 3 5; wfusync_mark_local_mutex 12 ].

Fixpoint run_client (l : list (K unit)) (s : client) : client :=
  match l with
  | [] => s
  | m :: l => match m s with Done _ s' => run_client l s' | _ => s end
  end.
Definition demo_client : client :=
  Eval vm_compute in run_client demo_caching (initial_client demo).
(** The same process once its thread owns the mutex. *)
Definition demo_owner : client :=
  Eval vm_compute in run_client [_ ← wfusync_wait_mutex 12 false None; mret tt] demo_client.

Lemma demo_server : k_server demo_client = demo.
Proof. reflexivity. Qed.

Lemma demo_owner_wf : server_wf (k_server demo_owner).
Proof.
  pose proof (op_keeps_wf demo (OpMutexSatisfied 2 0x24) demo_wf) as Hw.
  change (k_server demo_owner) with (put_cell (cell_addr 3) (Cell 36 1 3 3 1) demo).
  unfold wp in Hw.
  assert (run_op (OpMutexSatisfied 2 0x24) demo =
            Done tt (put_cell (cell_addr 3) (Cell 36 1 3 3 1) demo)) as E by reflexivity.
  rewrite E in Hw. apply Hw. split; [done|]. by exists (Wfusync 3 0).
Qed.

Ltac demo_stands idx :=
  split; [first [exact demo_wf | exact demo_owner_wf]|]; split; [reflexivity|];
  exists (0, idx); split; [split; first [reflexivity | by eexists]|];
  split; [reflexivity|]; split; [split|split]; reflexivity.

Lemma event_fast_path_agrees_witness :
  ∃ w, WfusyncClient.wfusync_set_event 4 demo_client =
         Done (STATUS_SUCCESS, Some 0) (on_server (λ _, w) demo_client) ∧
       cell_signaled (cell_idx w 1) = true.
Proof.
  destruct (event_fast_path_agrees 4 0 (Wfusync 1 0) demo_client) as [(w & Hs & Hc) _].
  - demo_stands 0.
  - exists w. split; [exact Hc|]. vm_compute in Hs. injection Hs as <-. reflexivity.
Defined.

Lemma semaphore_fast_path_agrees_witness :
  WfusyncClient.wfusync_release_semaphore 8 6 demo_client =
    Done (STATUS_SEMAPHORE_LIMIT_EXCEEDED, None) demo_client.
Proof.
  destruct (semaphore_fast_path_agrees 8 6 1 (Wfusync 2 0) demo_client) as (r & w & Hs & Hc).
  - demo_stands 1.
  - vm_compute in Hs. injection Hs as <- <-. destruct Hc as (Hc & _). exact Hc.
Defined.

Lemma mutex_fast_path_agrees_witness :
  ∃ w, WfusyncClient.wfusync_release_mutex 12 demo_owner =
         Done (STATUS_SUCCESS, Some 0) (on_server (λ _, w) demo_owner) ∧ c_low (cell_idx w 3) = 0.
Proof.
  destruct (mutex_fast_path_agrees 12 2 (Wfusync 3 0) demo_owner) as (r & w & Hs & Hc).
  - demo_stands 2.
  - vm_compute in Hs. injection Hs as <- <-. eexists. split; [exact Hc|reflexivity].
Defined.
