(* ===== verification/WfusyncCache.v ===== *)
(** * The client's handle cache

    src/dlls/ntdll/unix/wfusync.c: which cell a cached handle stands for, that caching
    one handle does not disturb another, and that a dropped handle is refused by every
    operation until it is cached again. *)

From S2P Require Import Prelude.
From S2P Require Import ShmState.
From S2P Require Import WfusyncServer.
From S2P Require Import WfusyncServerOps.
From S2P Require Import WfusyncRegistry.
From S2P Require Import WfusyncServerInv.
From S2P Require Import WfusyncServerSpec.
From S2P Require Import WfusyncClient.
From S2P Require Import WfusyncClientOps.

(** ** What the cache says about a handle *)

(** The answer of [wfusync_get_cached_state], as a function of the state. *)
Definition cached_state (s : client) (handle : Z) : option wfusync_fast_state :=
  match wfusync_handle_to_index handle with
  | None => None
  | Some entry =>
      let e := cache_entry s entry in
      if k_enabled s && ce_valid e && (ce_handle e =? handle) then Some (ce_state e) else None
  end.

Lemma get_cached_state_exec handle s :
  k_locked s = false → wfusync_get_cached_state handle s = Done (cached_state s handle) s.
Proof.
  intros Hl. unfold wfusync_get_cached_state, cached_state. apply wp_exec. wp_run idtac.
  destruct (k_enabled s); cbn [negb andb]; [|by destruct (wfusync_handle_to_index _)].
  destruct (wfusync_handle_to_index handle) as [entry|]; [|done].
  apply wp_locked; [done|]. unfold get_entry.
  wp_run ltac:(rewrite wp_unlock_cache; split; [done|]). by rewrite relock.
Qed.

Definition view (s : client) :=
  (k_server s, k_cache s, k_kinds s, k_unsafe s, k_unsafe_count s, k_locked s, k_enabled s).
(** Only page bookkeeping and the environment's answers differ. *)
Definition same_view (s s' : client) : Prop := view s' = view s.

#[export] Instance same_view_pre : PreOrder same_view.
Proof. split; [by intros s|intros s1 s2 s3 H1 H2; unfold same_view in *; congruence]. Qed.

(** The capacity of the page array is 0 or a power of two from 16. *)
Definition pages_ok (s : client) : Prop :=
  k_pages_count s = 0 ∨ ∃ k, k_pages_count s = 2 ^ k ∧ 4 ≤ k ≤ 31.

Section mapping.
Context `{PageSize}.

Lemma wp_alloc_ok (Q : bool → client → Prop) s :
  (∀ ok s', same_view s s' → k_pages_count s' = k_pages_count s → k_mapped s' = k_mapped s →
     k_shared_fd s' = k_shared_fd s → (k_alloc s = [] → ok = true ∧ k_alloc s' = []) → Q ok s') →
  wp alloc_ok Q s.
Proof. intros HQ. unfold wp, alloc_ok. by destruct (k_alloc s) as [|b l] eqn:E; apply HQ. Qed.

(** Where [map_wfusync_state] finds a cell: at the offset the server uses for it. *)
Lemma map_wfusync_state_spec idx fd s :
  pages_ok s → 0 ≤ idx < 2 ^ 31 → 0 ≤ fd →
  wp (map_wfusync_state idx fd)
    (λ r s', pages_ok s' ∧ same_view s s' ∧ k_shared_fd s' = k_shared_fd s ∧
       (r = None ∨ r = Some (cell_addr idx)) ∧
       (idx ≠ 0 → k_alloc s = [] → r = Some (cell_addr idx) ∧ k_alloc s' = [])) s.
Proof.
  intros Hp Hi Hfd. unfold map_wfusync_state.
  fold (cell_page idx) (cell_offset idx). pose proof (cell_page_range idx Hi) as Hpr.
  destruct (Z.eqb_spec idx 0); [by rewrite wp_ret; split_and!; [done..|left|]|].
  rewrite (proj2 (Z.ltb_ge fd 0)) by lia. cbv zeta.
  rewrite (proj2 (Z.ltb_ge _ _)) by apply cell_in_page.
  rewrite wp_bind, wp_gets, wp_bind. eapply wp_mono with
    (Q := λ ok s', pages_ok s' ∧ same_view s s' ∧ k_shared_fd s' = k_shared_fd s ∧
            (k_alloc s = [] → ok = true ∧ k_alloc s' = [])).
  { destruct (Z.leb_spec (k_pages_count s) (cell_page idx)); [|by rewrite wp_ret].
    destruct (next_capacity (cell_page idx) (k_pages_count s) 4) as (k & Hk & Hk4 & _);
      [lia|lia|done|lia|].
    change (2 ^ 4) with 16 in Hk. rewrite Hk. rewrite wp_bind. apply wp_alloc_ok.
    intros ok s1 Hv Hc Hm Hf Ha. destruct ok; wp_run idtac.
    - split; [right; by exists k|done].
    - split; [|done]. unfold pages_ok in *. by rewrite Hc. }
  intros grown s1 (Hp1 & Hv1 & Hf1 & Ha1). destruct grown;
    [|wp_run idtac; split_and!; [done..|by left|intros _ Ha; by destruct (Ha1 Ha)]].
  cbn [negb]. wp_run idtac. eapply wp_mono with
    (Q := λ ok s', pages_ok s' ∧ same_view s s' ∧ k_shared_fd s' = k_shared_fd s ∧
            (k_alloc s = [] → ok = true ∧ k_alloc s' = [])).
  { case_bool_decide; [rewrite wp_ret; naive_solver|]. rewrite wp_bind. apply wp_alloc_ok.
    intros ok s2 Hv2 Hc2 Hm2 Hf2 Ha2. destruct ok; wp_run idtac;
      (split; [unfold pages_ok in *; simpl; by rewrite Hc2|]); (split; [by etrans|]);
      (split; [simpl; congruence|]); intros Ha; apply Ha2, (Ha1 Ha). }
  intros present s2 (Hp2 & Hv2 & Hf2 & Ha2). destruct present; wp_run idtac.
  - split_and!; [done..|by right|]. intros _ Ha. by destruct (Ha2 Ha).
  - split_and!; [done..|by left|]. intros _ Ha. by destruct (Ha2 Ha).
Qed.
End mapping.

(** ** Entries *)

Lemma cache_entry_put e e' v s :
  cache_entry (put_entry e v s) e' = if decide (e = e') then v else cache_entry s e'.
Proof.
  destruct e as [b i], e' as [b' i']. unfold cache_entry, put_entry, on_cache; simpl.
  destruct (decide (b = b')) as [->|Hb].
  - rewrite lookup_insert_eq. simpl. destruct (decide (i = i')) as [->|Hi].
    + by rewrite lookup_insert_eq, decide_True.
    + rewrite lookup_insert_ne, decide_False by congruence. by destruct (k_cache s !! b').
  - rewrite lookup_insert_ne, decide_False by congruence. done.
Qed.

(** A block that is allocated is all zero, as an absent one reads. *)
Lemma get_cache_entry_spec handle s :
  wp (get_wfusync_cache_entry handle)
    (λ r s', (r = None ∨ r = wfusync_handle_to_index handle) ∧
       (k_alloc s = [] → r = wfusync_handle_to_index handle ∧ k_alloc s' = []) ∧
       (∀ e, r = Some e → is_Some (k_cache s' !! e.1)) ∧
       (∀ e, cache_entry s' e = cache_entry s e) ∧
       k_server s' = k_server s ∧ k_kinds s' = k_kinds s ∧ k_locked s' = k_locked s ∧
       k_enabled s' = k_enabled s ∧ k_unsafe s' = k_unsafe s ∧
       k_unsafe_count s' = k_unsafe_count s ∧ k_pages_count s' = k_pages_count s) s.
Proof.
  unfold get_wfusync_cache_entry. destruct (wfusync_handle_to_index handle) as [[b i]|];
    [|rewrite wp_ret; split_and!; eauto; done].
  wp_run idtac. destruct (k_cache s !! b) as [m|] eqn:Hb.
  { rewrite wp_ret. split_and!; eauto. intros e [= <-]. simpl. rewrite Hb. eauto. }
  rewrite wp_bind. apply wp_alloc_ok. intros ok s1 Hv Hpc _ _ Ha. unfold same_view, view in Hv.
  simplify_eq. destruct ok; wp_run idtac.
  - split_and!; try (simpl; congruence); [by right|intros E; by destruct (Ha E)| |].
    + intros e [= <-]. simpl. rewrite lookup_insert_eq. eauto.
    + intros [b' i']. unfold cache_entry. simpl. replace (k_cache s1) with (k_cache s) by congruence.
      destruct (decide (b = b')) as [<-|]; [|by rewrite lookup_insert_ne].
      rewrite lookup_insert_eq, Hb. simpl. by rewrite lookup_empty.
  - split_and!; try congruence; [by left|intros E; by destruct (Ha E)|].
    intros e. unfold cache_entry. by replace (k_cache s1) with (k_cache s) by congruence.
Qed.

Lemma set_handle_kind_spec handle kind s :
  wp (wfusync_set_handle_kind handle kind)
    (λ _ s', k_server s' = k_server s ∧ k_cache s' = k_cache s ∧ k_locked s' = k_locked s ∧
       k_enabled s' = k_enabled s ∧ k_pages_count s' = k_pages_count s ∧
       k_unsafe s' = k_unsafe s ∧ k_unsafe_count s' = k_unsafe_count s ∧
       (handle_kind s' handle = kind ∨ handle_kind s' handle = WFUSYNC_KIND_UNKNOWN)) s.
Proof.
  unfold wfusync_set_handle_kind, handle_kind.
  destruct (wfusync_handle_to_index handle) as [[b i]|]; [|by rewrite wp_ret; eauto 10].
  wp_run idtac. eapply wp_mono with (Q := λ present s', view s' = (k_server s, k_cache s, k_kinds s',
    k_unsafe s, k_unsafe_count s, k_locked s, k_enabled s) ∧ k_pages_count s' = k_pages_count s ∧
    (present = false → k_kinds s' !! b = None)).
  { destruct (k_kinds s !! b) eqn:Hb; [by rewrite wp_ret|]. rewrite wp_bind.
    destruct (b =? 0); [by wp_run idtac|]. apply wp_alloc_ok. intros ok s1 Hv Hpc _ _ _.
    unfold same_view, view in Hv. simplify_eq. destruct ok; wp_run idtac; unfold view, on_kinds;
      split_and!; destruct s1; simpl in *; congruence. }
  intros present s1 (Hv & Hp & Hn). unfold view in Hv. destruct present; wp_run idtac.
  - simpl. rewrite lookup_insert_eq. simpl. rewrite lookup_insert_eq. split_and!; try congruence. by left.
  - rewrite Hn by done. split_and!; try congruence. by right.
Qed.

(** ** Caching and dropping *)

Inductive handle_call :=
| CallSetEvent | CallResetEvent | CallQueryEvent | CallReleaseMutex | CallQueryMutex
| CallReleaseSemaphore (count : Z)
| CallWaitEvent (alertable : bool) (timeout : option Z)
| CallWaitSemaphore (alertable : bool) (timeout : option Z)
| CallWaitMutex (alertable : bool) (timeout : option Z).

Section theorems.
Context `{PageSize}.
Implicit Types (s : client).

(** An entry that is not valid for the handle is refused, without touching memory. *)
Lemma get_local_refused local ty handle access s :
  cached_state s handle = None → k_enabled s = true →
  wp (get_local_state_locked local ty handle access)
    (λ r s', r = inl STATUS_NOT_IMPLEMENTED ∧ k_server s' = k_server s ∧ k_locked s' = k_locked s) s.
Proof.
  intros Hn He. unfold get_local_state_locked. rewrite wp_bind.
  eapply wp_mono; [apply get_cache_entry_spec|].
  intros r s1 (Hr & _ & _ & Hc & Hsv & _ & Hl & _). destruct r as [entry|]; [|by rewrite wp_ret].
  destruct Hr as [|Hr]; [done|]. unfold get_entry. wp_run idtac. rewrite Hc.
  unfold cached_state in Hn. rewrite <- Hr, He in Hn. simpl in Hn.
  destruct (ce_valid _ && _) eqn:E; [done|]. apply andb_false_iff in E.
  assert (negb (local (cache_entry s entry)) || negb (ce_valid (cache_entry s entry)) ||
          negb (ce_handle (cache_entry s entry) =? handle) ||
          negb (bool_decide (is_Some (fs_ptr (ce_state (cache_entry s entry))))) = true) as ->
    by (destruct E as [-> | ->]; simpl; by rewrite ?orb_true_r).
  by rewrite wp_ret.
Qed.

Lemma locked_prologue_refused local ty access hotpath waiting handle s :
  cached_state s handle = None → k_enabled s = true → k_locked s = false →
  wp (locked_prologue (get_local_state_locked local ty) access hotpath waiting handle)
    (λ r s', r = inl STATUS_NOT_IMPLEMENTED ∧ k_server s' = k_server s) s.
Proof.
  intros Hn He Hl. unfold locked_prologue. apply wp_locked; [done|].
  eapply wp_mono; [by apply get_local_refused|]. intros r s1 (-> & Hs & Hl1).
  by wp_run ltac:(rewrite wp_unlock_cache; split; [done|]).
Qed.

(** What the rest of ntdll can ask about one handle, and the status it gets. *)
Definition handle_status (c : handle_call) (handle : Z) : K Z :=
  match c with
  | CallSetEvent => r ← WfusyncClient.wfusync_set_event handle; mret r.1
  | CallResetEvent => r ← WfusyncClient.wfusync_reset_event handle; mret r.1
  | CallQueryEvent => r ← wfusync_query_event handle; mret r.1
  | CallReleaseMutex => r ← WfusyncClient.wfusync_release_mutex handle; mret r.1
  | CallQueryMutex => r ← wfusync_query_mutex handle; mret r.1
  | CallReleaseSemaphore count => r ← WfusyncClient.wfusync_release_semaphore handle count; mret r.1
  | CallWaitEvent alertable timeout => wfusync_wait_event handle alertable timeout
  | CallWaitSemaphore alertable timeout => wfusync_wait_semaphore handle alertable timeout
  | CallWaitMutex alertable timeout => wfusync_wait_mutex handle alertable timeout
  end.

Definition refused {A} (f : A → Z) (server : wfs) (m : K A) s : Prop :=
  wp m (λ r s', f r = STATUS_NOT_IMPLEMENTED ∧ k_server s' = server) s.

Lemma signal_prologue_refused local kind ty access hotpath handle s :
  cached_state s handle = None → k_enabled s = true → k_locked s = false →
  wp (signal_prologue kind (get_local_state_locked local ty) access hotpath handle)
    (λ r s', r = inl STATUS_NOT_IMPLEMENTED ∧ k_server s' = k_server s) s.
Proof.
  intros Hn He Hl. unfold signal_prologue, wfusync_handle_kind_matches, wfusync_get_handle_kind.
  wp_run idtac. rewrite He. cbn [negb]. wp_run idtac. destruct (handle_kind s handle =? kind); [by apply locked_prologue_refused|done].
Qed.

Lemma wait_prologue_refused local kind ty hotpath handle al t s :
  cached_state s handle = None → k_enabled s = true → k_locked s = false →
  wp (wait_prologue kind (get_local_state_locked local ty) hotpath handle al t)
    (λ r s', r = inl STATUS_NOT_IMPLEMENTED ∧ k_server s' = k_server s) s.
Proof.
  intros Hn He Hl. unfold wait_prologue, wfusync_get_handle_kind.
  wp_run idtac. rewrite He. cbn [negb]. wp_run idtac. case_match; [done|].
  destruct al; [done|]. case_match; [done|]. by apply locked_prologue_refused.
Qed.

Lemma uncached_refused c handle s :
  cached_state s handle = None → k_enabled s = true → k_locked s = false →
  refused (λ r, r) (k_server s) (handle_status c handle) s.
Proof.
  intros Hn He Hl. unfold refused. destruct c; simpl; rewrite ?wp_bind;
    unfold WfusyncClient.wfusync_set_event, WfusyncClient.wfusync_reset_event, wfusync_query_event,
      WfusyncClient.wfusync_release_mutex, wfusync_query_mutex, WfusyncClient.wfusync_release_semaphore,
      wfusync_wait_event, wfusync_wait_semaphore, wfusync_wait_mutex;
    wp_run idtac;
    try (eapply wp_mono; [first [by apply signal_prologue_refused | by apply wait_prologue_refused]|];
         intros r s1 [-> Hs]; by wp_run idtac).
  - rewrite He. cbn [negb]. apply wp_locked; [done|].
    eapply wp_mono; [by apply get_local_refused|]. intros r s1 (-> & Hs & Hl1).
    by wp_run ltac:(rewrite wp_unlock_cache; split; [done|]).
  - rewrite He. cbn [negb]. unfold wfusync_handle_kind_matches, wfusync_get_handle_kind. wp_run idtac.
    case_match; [by wp_run idtac|]. apply wp_locked; [done|].
    eapply wp_mono; [by apply get_local_refused|]. intros r s1 (-> & Hs & Hl1).
    by wp_run ltac:(rewrite wp_unlock_cache; split; [done|]).
Qed.

Lemma cached_state_ext s s' :
  k_enabled s' = k_enabled s → (∀ e, cache_entry s' e = cache_entry s e) →
  ∀ handle, cached_state s' handle = cached_state s handle.
Proof.
  intros He Hc handle. unfold cached_state.
  destruct (wfusync_handle_to_index handle) as [e|]; [|done]. by rewrite He, Hc.
Qed.

(** Storing a valid entry for a handle. *)
Lemma cached_state_stored s s' entry v handle :
  wfusync_handle_to_index handle = Some entry → k_enabled s' = true → k_enabled s = true →
  ce_valid v = true → ce_handle v = handle → k_cache s' = k_cache (put_entry entry v s) →
  cached_state s' handle = Some (ce_state v) ∧
  ∀ other, wfusync_handle_to_index other ≠ wfusync_handle_to_index handle →
    cached_state s' other = cached_state s other.
Proof.
  intros Hi He' He Hv Hh Hc.
  assert (∀ e, cache_entry s' e = if decide (entry = e) then v else cache_entry s e) as Hce.
  { intros e. rewrite <- cache_entry_put. unfold cache_entry. by rewrite Hc. }
  unfold cached_state. rewrite Hi, He', He. split.
  - by rewrite Hce, decide_True, Hv, Hh, Z.eqb_refl.
  - intros other Hne. destruct (wfusync_handle_to_index other) as [e|]; [|done].
    by rewrite Hce, decide_False by congruence.
Qed.

(** What caching promises, from the state [s] to the state [s']. *)
Definition cached_from (handle : Z) (expected : wfusync_fast_state) s s' : Prop :=
  k_server s' = k_server s ∧ k_locked s' = k_locked s ∧ k_enabled s' = true ∧ pages_ok s' ∧
  (∀ other, wfusync_handle_to_index other ≠ wfusync_handle_to_index handle →
     cached_state s' other = cached_state s other) ∧
  (cached_state s' handle = cached_state s handle ∨ cached_state s' handle = Some expected) ∧
  (k_alloc s = [] → is_Some (wfusync_handle_to_index handle) →
     cached_state s' handle = Some expected).

Lemma store_state_spec handle type access shm_idx fd shared s :
  k_enabled s = true → pages_ok s →
  wp (store_state handle type access shm_idx fd shared)
    (λ _ s', cached_from handle (FastState type access shm_idx (Some shared)
                                   (c_generation (cell_at s shared))) s s') s.
Proof.
  intros He Hp. unfold store_state, cached_from.
  wp_run idtac. eapply wp_mono with (Q := λ _ s1, same_view s s1 ∧ pages_ok s1 ∧
    (k_alloc s = [] → k_alloc s1 = [])).
  { destruct (_ <? 0); [|by rewrite wp_ret]. rewrite wp_bind. apply wp_alloc_ok.
    intros ok s1 Hv1 Hc1 _ _ Ha1. wp_run idtac. split_and!; [done| |intros Ha; by apply Ha1].
    unfold pages_ok in *. simpl. by rewrite Hc1. }
  intros [] s1 (Hv1 & Hp1 & Ha1). unfold same_view, view in Hv1. simplify_eq. rewrite wp_bind.
  eapply wp_mono; [apply get_cache_entry_spec|].
  intros r s2 (Hr & Ha2 & _ & Hc2 & Hsv2 & _ & Hl2 & He2 & _ & _ & Hpc2).
  assert (∀ e, cache_entry s2 e = cache_entry s e) as Hc2'
    by (intros e; rewrite Hc2; unfold cache_entry; congruence).
  assert (∀ h, cached_state s2 h = cached_state s h) as Hsame
    by (apply cached_state_ext; [congruence|done]).
  assert (pages_ok s2) as Hp2 by (unfold pages_ok in *; by rewrite Hpc2).
  destruct r as [entry|].
  2:{ rewrite wp_ret. split_and!; try congruence; [by left|].
      intros Ha [e Hx]. destruct (Ha2 (Ha1 Ha)). congruence. }
  destruct Hr as [|Hidx]; [done|]. symmetry in Hidx.
  unfold get_entry, wfusync_shm_idx_signal_unsafe. wp_run ltac:(rewrite wp_ld).
  eapply wp_mono; [apply set_handle_kind_spec|].
  intros [] s3 (Hsv3 & Hca3 & Hl3 & He3 & Hpc3 & _).
  eapply cached_state_stored in Hca3 as [Hnew Hoth];
    [|exact Hidx|simpl in *; congruence|congruence|done|done].
  simpl in *. assert (cell_at s2 shared = cell_at s shared) as Hcell
    by (unfold cell_at; simpl; congruence).
  rewrite Hcell in Hnew. split_and!; try congruence.
  - unfold pages_ok in *. by rewrite Hpc3.
  - intros other Hne. by rewrite Hoth, Hsame.
  - by right.
Qed.

(** Caching a handle either leaves the handle as it was (an allocation failed, or
    the handle is beyond the cache), or makes the cache answer with exactly the given
    type and access, the cell at the offset where the server keeps object [shm_idx], and
    that cell's current generation. Handles with other entries keep their answers, shared
    memory is not touched, and without allocation failures the handle is cached. *)
Theorem cache_inproc_sync_roundtrip handle type access shm_idx fd s :
  k_locked s = false → k_enabled s = true → pages_ok s →
  0 < shm_idx < 2 ^ 31 → 0 ≤ fd → wfusync_supported_type type = true →
  let expected := FastState type access shm_idx (Some (cell_addr shm_idx))
                    (c_generation (cell_idx (k_server s) shm_idx)) in
  wp (wfusync_cache_inproc_sync handle type access shm_idx fd)
    (λ _ s', k_server s' = k_server s ∧ k_locked s' = false ∧ pages_ok s' ∧
       (∀ other, wfusync_handle_to_index other ≠ wfusync_handle_to_index handle →
          cached_state s' other = cached_state s other) ∧
       (cached_state s' handle = cached_state s handle ∨ cached_state s' handle = Some expected) ∧
       (k_alloc s = [] → is_Some (wfusync_handle_to_index handle) →
          cached_state s' handle = Some expected)) s.
Proof.
  intros Hl He Hp Hi Hfd Hty. cbv zeta. unfold wfusync_cache_inproc_sync.
  wp_run idtac. rewrite He. cbn [negb]. rewrite (proj2 (Z.eqb_neq _ _)) by lia. rewrite Hty. cbn [negb].
  destruct (wfusync_handle_to_index handle) as [entry|] eqn:Hidx;
    [|rewrite wp_ret; split_and!; try done; by left].
  apply wp_locked; [done|]. eapply wp_mono;
    [apply (map_wfusync_state_spec shm_idx fd (set_locked true s)); [done|lia|done]|].
  intros r s1 (Hp1 & Hv1 & Hf1 & Hr & Ha1). unfold same_view, view in Hv1. simpl in Hv1, Ha1. simplify_eq.
  assert (∀ h, cached_state s1 h = cached_state s h) as Hsame.
  { apply cached_state_ext; [congruence|]. intros e. unfold cache_entry. congruence. }
  destruct r as [shared|].
  2:{ rewrite wp_unlock_cache. split; [done|].
      split_and!; try done; [intros other _; apply Hsame|left; apply Hsame|].
      intros Ha _. by destruct (Ha1 ltac:(lia) Ha). }
  destruct Hr as [|[= ->]]; [done|].
  rewrite wp_bind.
  eapply wp_mono; [apply (store_state_spec handle type access shm_idx fd); [congruence|done]|].
  intros [] s2 (Hsv & Hlk & Hen & Hpg & Hoth & Hor & Hal).
  assert (c_generation (cell_at s1 (cell_addr shm_idx)) = c_generation (cell_idx (k_server s) shm_idx)) as Hg.
  { unfold cell_idx, cell_at. simpl. congruence. }
  rewrite Hg in *. rewrite wp_unlock_cache. split; [congruence|]. split_and!; try done; simpl; try congruence.
  - intros other Hne. rewrite <- Hsame. by rewrite <- Hidx in Hne; apply Hoth.
  - destruct Hor as [Hor|]; [left; by rewrite <- Hsame|by right].
  - intros Ha _. apply Hal; [by apply Ha1; [lia|]|rewrite Hidx; eauto].
Qed.

(** Once a handle has been dropped (it is being closed or replaced), the cache no
    longer answers for it, and every signal, query and wait on it is refused with
    STATUS_NOT_IMPLEMENTED, so that the caller goes to the server; shared memory is not
    touched by any of this. *)
Theorem dropped_handle_refused handle c s :
  k_locked s = false → k_enabled s = true →
  wp (wfusync_drop_handle handle)
    (λ _ s', k_server s' = k_server s ∧ cached_state s' handle = None ∧
       wp (handle_status c handle)
         (λ status s'', status = STATUS_NOT_IMPLEMENTED ∧ k_server s'' = k_server s) s') s.
Proof.
  intros Hl He. eapply wp_mono with (Q := λ _ s', k_server s' = k_server s ∧ k_locked s' = false ∧
    k_enabled s' = true ∧ cached_state s' handle = None).
  2:{ intros [] s' (Hs & Hl' & He' & Hn). split_and!; [done..|]. rewrite <- Hs.
      by apply uncached_refused. }
  unfold wfusync_drop_handle. wp_run idtac. rewrite He. cbn [negb].
  destruct (wfusync_handle_to_index handle) as [entry|] eqn:Hi;
    [|rewrite wp_ret; unfold cached_state; by rewrite Hi].
  rewrite wp_bind. eapply wp_mono; [apply set_handle_kind_spec|].
  intros [] s1 (Hs1 & Hc1 & Hl1 & He1 & _). apply wp_locked; [congruence|].
  unfold get_entry. wp_run idtac. unfold cached_state. rewrite Hi.
  change (cache_entry (set_locked true s1)) with (cache_entry s1).
  change (k_cache (set_locked true s1)) with (k_cache s1).
  case_bool_decide as Hb; simpl; [destruct (Z.eqb_spec (ce_handle (cache_entry s1 entry)) handle) as [E|E]|];
    wp_run idtac; rewrite wp_unlock_cache; (split; [done|]); (split_and!; [simpl; congruence..|]).
  - change (cache_entry (set_locked false (put_entry entry zero_entry (set_locked true s1))))
      with (cache_entry (put_entry entry zero_entry s1)).
    rewrite cache_entry_put, decide_True by done. simpl. by rewrite andb_false_r.
  - change (cache_entry (set_locked false (set_locked true s1))) with (cache_entry s1).
    by rewrite (proj2 (Z.eqb_neq _ _) E), andb_false_r.
  - change (cache_entry (set_locked false (set_locked true s1))) with (cache_entry s1).
    unfold cache_entry. destruct (k_cache s1 !! entry.1); [by destruct Hb|]. simpl. by rewrite andb_false_r.
Qed.
End theorems.

(** ** Handles and entries *)

(** A handle is the sign extension of its low word when it is below 2^31 or among the
    last 2^31 values. *)
Lemma sign_extended handle :
  0 ≤ handle < 2 ^ 64 →
  (s32 handle =? s64 handle) = (handle <? 2 ^ 31) || (2 ^ 64 - 2 ^ 31 <=? handle).
Proof.
  intros Hh. unfold s32, s64. apply eq_true_iff_eq. rewrite orb_true_iff, Z.eqb_eq, Z.ltb_lt, Z.leb_le.
  pose proof (Z.div_mod (handle + 2 ^ 31) (2 ^ 32)). pose proof (Z.mod_pos_bound (handle + 2 ^ 31) (2 ^ 32)).
  pose proof (Z.div_mod (handle + 2 ^ 63) (2 ^ 64)). pose proof (Z.mod_pos_bound (handle + 2 ^ 63) (2 ^ 64)).
  assert (0 ≤ (handle + 2 ^ 63) / 2 ^ 64 ≤ 1)
    by (split; [apply Z.div_pos; lia|apply Z.lt_succ_r, Z.div_lt_upper_bound; lia]).
  lia.
Qed.

(** The number of a handle wraps around for the null handle. *)
Lemma table_index x :
  0 ≤ x < 2 ^ 32 → u32 (x / 4 - 1) = if x <? 4 then 2 ^ 32 - 1 else x / 4 - 1.
Proof.
  intros Hx. pose proof (Z.div_mod x 4). pose proof (Z.mod_pos_bound x 4). unfold u32.
  destruct (Z.ltb_spec x 4); [by assert (x / 4 = 0) as -> by lia|rewrite Z.mod_small; lia].
Qed.

(** The cache covers exactly the handles 4 to 524291: they go to the block and index
    of their number [handle / 4 - 1], so that two handles share an entry only when they
    differ in their two tag bits; null, pseudo and 64-bit handles are never cached. *)
Theorem handle_to_index_exact handle :
  0 ≤ handle < 2 ^ 64 →
  wfusync_handle_to_index handle =
    if (4 <=? handle) && (handle <? 4 * (WFUSYNC_CACHE_BLOCK_SIZE * WFUSYNC_CACHE_ENTRIES + 1))
    then Some ((handle / 4 - 1) / WFUSYNC_CACHE_BLOCK_SIZE, (handle / 4 - 1) mod WFUSYNC_CACHE_BLOCK_SIZE)
    else None.
Proof.
  intros Hh. unfold wfusync_handle_to_index, wine_server_obj_handle,
    WFUSYNC_CACHE_BLOCK_SIZE, WFUSYNC_CACHE_ENTRIES.
  rewrite Z.shiftr_div_pow2 by lia. change (2 ^ 2) with 4.
  change (4 * (1024 * 128 + 1)) with 524292.
  rewrite sign_extended by done.
  destruct (Z.ltb_spec handle (2 ^ 31)) as [Hlt|Hge]; simpl.
  - rewrite !(u32_small handle) by lia. rewrite table_index by lia.
    pose proof (Z.div_mod handle 4). pose proof (Z.mod_pos_bound handle 4).
    rewrite (proj2 (Z.leb_gt _ _)) by lia.
    destruct (Z.ltb_spec handle 4), (Z.leb_spec 4 handle); try lia; [done|]. simpl.
    destruct (Z.ltb_spec handle 524292) as [Hs|Hs].
    + rewrite (proj2 (Z.ltb_lt _ _)); [done|]. apply Z.div_lt_upper_bound; lia.
    + rewrite (proj2 (Z.ltb_ge _ _)); [done|]. apply Z.div_le_lower_bound; lia.
  - rewrite (proj2 (Z.ltb_ge handle 524292)) by lia. rewrite andb_false_r.
    destruct (0xfffffffa <=? u32 handle) eqn:Hp; [done|].
    assert (∀ x, 2 ^ 31 ≤ x < 2 ^ 32 → (u32 (x / 4 - 1) / 1024 <? 128) = false) as Hbig.
    { intros x Hx. rewrite table_index, (proj2 (Z.ltb_ge x 4)) by lia. apply Z.ltb_ge.
      apply Z.div_le_lower_bound; [lia|]. pose proof (Z.div_mod x 4). pose proof (Z.mod_pos_bound x 4). lia. }
    destruct (Z.leb_spec (2 ^ 64 - 2 ^ 31) handle) as [Hn|Hn]; rewrite Hbig; [done| |done|lia].
    unfold u32. pose proof (Z.div_mod handle (2 ^ 32)). pose proof (Z.mod_pos_bound handle (2 ^ 32)).
    assert (handle / 2 ^ 32 = 2 ^ 32 - 1); [|lia].
    symmetry. apply (Z.div_unique _ _ _ (handle - 2 ^ 32 * (2 ^ 32 - 1))); lia.
Qed.

#[local] Existing Instance page_4096.

Lemma cache_inproc_sync_roundtrip_witness :
  wp (wfusync_cache_inproc_sync 8 INPROC_SYNC_SEMAPHORE 0x1f0003 2 5)
    (λ _ s', cached_state s' 8 =
       Some (FastState INPROC_SYNC_SEMAPHORE 0x1f0003 2 (Some (cell_addr 2))
               (c_generation (cell_idx demo 2)))) (initial_client demo).
Proof.
  eapply wp_mono.
  - apply (cache_inproc_sync_roundtrip 8 INPROC_SYNC_SEMAPHORE 0x1f0003 2 5 (initial_client demo));
      [reflexivity|reflexivity|by left|lia|lia|reflexivity].
  - intros [] s' (_ & _ & _ & _ & _ & Hc). apply Hc; [reflexivity|by eexists].
Defined.

Lemma dropped_handle_refused_witness :
  wp (wfusync_drop_handle 8)
    (λ _ s', wp (handle_status (CallReleaseSemaphore 1) 8)
       (λ status _, status = STATUS_NOT_IMPLEMENTED) s') (initial_client demo).
Proof.
  eapply wp_mono.
  - apply (dropped_handle_refused 8 (CallReleaseSemaphore 1) (initial_client demo)); reflexivity.
  - intros [] s' (_ & _ & Hw). eapply wp_mono; [exact Hw|]. intros st s'' [Hst _]. exact Hst.
Defined.

Lemma handle_to_index_exact_witness :
  wfusync_handle_to_index 524291 = Some (127, 1023) ∧ wfusync_handle_to_index 524292 = None.
Proof.
  split; [rewrite (handle_to_index_exact 524291)|rewrite (handle_to_index_exact 524292)];
    [reflexivity|lia|reflexivity|lia].
Defined.
