(* ===== verification/WfusyncClientWait.v ===== *)
(** * Waiting for one object

    The waits of src/dlls/ntdll/unix/wfusync.c on a single handle: what consuming does
    to a cell in every state it may be in, that the wait loops end, and that a wait as a
    whole has the effect of the other threads during its sleeps followed by at most one
    consumption. *)

From S2P Require Import Prelude.
From S2P Require Import ShmState.
From S2P Require Import WfusyncServer.
From S2P Require Import WfusyncServerOps.
From S2P Require Import WfusyncServerInv.
From S2P Require Import WfusyncServerSpec.
From S2P Require Import WfusyncClient.
From S2P Require Import WfusyncClientOps.
From S2P Require Import WfusyncClientSpec.
From S2P Require Import WfusyncCache.
From S2P Require Import WfusyncClientAgree.

(** ** Taking a cell

    What a wait does to a cell that it has locked: the status and the new contents. *)

Definition event_take (c : cell) : Z * cell :=
  if c_low c =? 0 then (STATUS_TIMEOUT, c)
  else if truth (c_high c) then (STATUS_WAIT_0, c)
  else if c_low c =? 1 then (STATUS_WAIT_0, set_low 0 c) else (STATUS_TIMEOUT, c).
Definition semaphore_take (c : cell) : Z * cell :=
  if c_low c <=? 0 then (STATUS_TIMEOUT, c) else (STATUS_WAIT_0, set_low (c_low c - 1) c).
Definition mutex_take (tid : Z) (c : cell) : Z * cell :=
  if c_low c =? tid then
    if c_high c =? INT_MAX then (STATUS_NOT_IMPLEMENTED, c)
    else (STATUS_WAIT_0, set_high (c_high c + 1) c)
  else if (c_low c =? 0) || (c_low c <? 0) then
    (if c_low c <? 0 then STATUS_ABANDONED else STATUS_WAIT_0,
     set_high 1 (set_low tid (if c_low c <? 0 then set_generation (u32 (c_generation c + 1)) c else c)))
  else (STATUS_TIMEOUT, c).

Definition satisfied (status : Z) : bool := (status =? STATUS_WAIT_0) || (status =? STATUS_ABANDONED).

(** A consuming function takes the cell, unless it is of another type or the server has
    waiters on it; it goes round while another process holds the lock bit. *)
Definition consumes (ty : Z) (take : cell → Z * cell) (consume : Z → K Z) : Prop :=
  ∀ p s, consume p s =
    let c := cell_at s p in
    if negb (type_of c =? ty) || has_flag c WFUSYNC_SERVER_WAITERS then Done STATUS_NOT_IMPLEMENTED s
    else if has_flag c WFUSYNC_STATE_LOCKED then Spinning
    else Done (take c).1 (if satisfied (take c).1 then put_cell p (take c).2 s else s).

(** The three ways the locking in front can go. *)
Lemma consumes_intro ty take (consume : Z → K Z) (body : Z → K Z) :
  (∀ p, consume p = (locked ← wfusync_lock_state p ty;
                     if negb locked then mret STATUS_NOT_IMPLEMENTED else body p)) →
  (∀ p s, free_cell (cell_at s p) ty → has_flag (cell_at s p) WFUSYNC_SERVER_WAITERS = false →
     consume p s = Done (take (cell_at s p)).1
       (if satisfied (take (cell_at s p)).1 then put_cell p (take (cell_at s p)).2 s else s)) →
  consumes ty take consume.
Proof.
  intros Hc Hf p s. cbv zeta. destruct (Z.eqb_spec (type_of (cell_at s p)) ty) as [Ht|Ht]; simpl.
  - destruct (has_flag _ WFUSYNC_SERVER_WAITERS) eqn:Hs.
    + rewrite Hc. eapply run_bind; [rewrite wfusync_lock_state_cases; cbv zeta; by rewrite decide_True, Hs|done].
    + destruct (has_flag _ WFUSYNC_STATE_LOCKED) eqn:Hl; [|by apply Hf].
      rewrite Hc. unfold mbind, M_bind. rewrite wfusync_lock_state_cases. cbv zeta.
      by rewrite decide_True, Hs, Hl.
  - rewrite Hc. eapply run_bind; [rewrite wfusync_lock_state_cases; cbv zeta; by rewrite decide_False|done].
Qed.

Lemma event_consumes : consumes INPROC_SYNC_EVENT event_take consume_event_state.
Proof.
  eapply consumes_intro; [done|]. intros p s Hf Hs. unfold event_take.
  destruct (c_low (cell_at s p) =? 0) eqn:E0; [|destruct (truth (c_high (cell_at s p))) eqn:E1;
    [|destruct (c_low (cell_at s p) =? 1) eqn:E2]]; simpl;
  apply wp_exec; unfold consume_event_state, consume_auto_event_state; rewrite wp_bind;
  (eapply wp_of_exec; [by apply lock_free|]); run_client Hf Hs; simplify_eq/=;
  rewrite ?(put_cell_id _ _ _ Hf) by done; done.
Qed.

Lemma semaphore_consumes : consumes INPROC_SYNC_SEMAPHORE semaphore_take consume_semaphore_state.
Proof.
  eapply consumes_intro; [done|]. intros p s Hf Hs. rewrite consume_semaphore_exec by done.
  unfold semaphore_take. by destruct (_ <=? 0).
Qed.

Lemma mutex_consumes tid :
  consumes INPROC_SYNC_MUTEX (mutex_take tid) (λ p, consume_mutex_state p tid).
Proof.
  eapply consumes_intro; [done|]. intros p s Hf Hs. rewrite consume_mutex_exec by done.
  unfold mutex_take. destruct (_ =? tid); [by destruct (_ =? INT_MAX)|].
  destruct (_ || _); [|done]. by destruct (_ <? 0).
Qed.

(** ** The effect of a wait *)

(** What other threads do during the sleeps [used]. *)
Definition interference (used : list (sleep_result * (wfs → wfs))) (w : wfs) : wfs :=
  foldl (λ w sleep, sleep.2 w) w used.

(** From [s], the sleeps [used] were taken and nothing else happened in memory. *)
Definition slept (used : list (sleep_result * (wfs → wfs))) (s s' : client) : Prop :=
  k_sleeps s = used ++ k_sleeps s' ∧ k_server s' = interference used (k_server s) ∧
  k_locked s' = k_locked s.

Lemma slept_refl s : slept [] s s.
Proof. done. Qed.
Lemma slept_trans u1 u2 s1 s2 s3 : slept u1 s1 s2 → slept u2 s2 s3 → slept (u1 ++ u2) s1 s3.
Proof.
  intros (H1 & H2 & H3) (H4 & H5 & H6). split_and!; [by rewrite H1, H4, <- app_assoc| |congruence].
  unfold interference in *. by rewrite foldl_app, <- H2.
Qed.

(** The outcome of a wait on the cell [p] that takes with [take], started in [s]: the
    sleeps it used and at most one consumption, with the memory it found it in. *)
Definition wait_outcome (ty : Z) (take : cell → Z * cell) (p : Z) (s : client)
    (status : Z) (s' : client) : Prop :=
  ∃ used w, w = interference used (k_server s) ∧ k_sleeps s = used ++ k_sleeps s' ∧
    k_locked s' = k_locked s ∧
    if satisfied status then
      type_of (cell_at w p) = ty ∧ has_flag (cell_at w p) WFUSYNC_STATE_LOCKED = false ∧
      has_flag (cell_at w p) WFUSYNC_SERVER_WAITERS = false ∧
      (take (cell_at w p)).1 = status ∧ k_server s' = put_cell p (take (cell_at w p)).2 w
    else k_server s' = w.

Definition same_sleeps (s s' : client) : Prop := k_sleeps s' = k_sleeps s.
#[export] Instance same_sleeps_pre : PreOrder same_sleeps.
Proof. split; [done|]. unfold same_sleeps. intros s1 s2 s3. congruence. Qed.
Lemma keeps_alloc : keeps same_sleeps alloc_ok.
Proof. intros t a t'. unfold alloc_ok. destruct (k_alloc t); by intros [= _ <-]. Qed.

Lemma keeps_cache_entry handle : keeps same_sleeps (get_wfusync_cache_entry handle).
Proof.
  unfold get_wfusync_cache_entry. keeps_tac ltac:(first [by apply keeps_modify | apply keeps_alloc]).
Qed.

(** Total up to waiting for ever: no assertion fails and no bound is exceeded. *)
Definition ends {A} (m : K A) (Q : A → client → Prop) (s : client) : Prop :=
  match m s with Done a s' => Q a s' | Spinning => True | _ => False end.

Lemma ends_bind {A B} (m : K A) (f : A → K B) Q s :
  ends m (λ a s', ends (f a) Q s') s → ends (m ≫= f) Q s.
Proof. unfold ends, mbind, M_bind. by destruct (m s). Qed.
Lemma ends_mono {A} (m : K A) (Q Q' : A → client → Prop) s :
  ends m Q s → (∀ a s', Q a s' → Q' a s') → ends m Q' s.
Proof. unfold ends. destruct (m s); naive_solver. Qed.
Lemma ends_wp {A} (m : K A) Q s : wp m Q s → ends m Q s.
Proof. unfold wp, ends. by destruct (m s). Qed.

Section waits.
Context `{PageSize}.
Implicit Types (s : client).

Lemma clock_slept s : wp gettimeofday (λ _ s', slept [] s s' ∧ k_os_sync s' = k_os_sync s) s.
Proof. unfold wp, gettimeofday. by destruct (k_clock s) as [|t [|t' l]]. Qed.

Lemma deadline_slept timeout s : wp (deadline_of timeout) (λ _ s', slept [] s s') s.
Proof.
  unfold deadline_of, get_relative_timeout_abs. destruct timeout; [|done].
  rewrite !wp_bind. eapply wp_mono; [apply clock_slept|]. intros now s' [Hs _]. by wp_run idtac.
Qed.

Lemma remaining_slept d def s : wp (remaining d def) (λ _ s', slept [] s s') s.
Proof.
  unfold remaining, get_now_abs. destruct d; [|done].
  rewrite !wp_bind. eapply wp_mono; [apply clock_slept|]. intros now s' [Hs _]. by wp_run idtac.
Qed.

Lemma refresh_slept handle p s :
  k_locked s = false → wp (wfusync_refresh_cache_generation handle p) (λ _ s', slept [] s s') s.
Proof.
  intros Hl. apply wp_locked; [done|].
  pose proof (get_cache_entry_spec handle (set_locked true s)) as Hg.
  eapply wp_mono; [apply wp_keeps; [exact Hg|apply keeps_cache_entry]|].
  intros r s1 [(_ & _ & _ & _ & Hs & _ & Hlk & _) Hsl]. simpl in *.
  destruct r as [entry|]; unfold get_entry; wp_run ltac:(rewrite wp_ld);
    [destruct (_ && _ && _)|]; wp_run idtac; rewrite wp_unlock_cache; (split; [done|]); by split_and!.
Qed.

(** An address wait takes at most one sleep; the status says which. *)
Lemma os_wait_slept p v limited s :
  ends (os_wait p v limited) (λ r s', satisfied r = (r =? STATUS_SUCCESS) ∧ ∃ used, slept used s s') s.
Proof.
  unfold os_wait. apply ends_bind. unfold ends at 1. simpl.
  destruct (negb _); [split; [done|by exists []]|]. apply ends_bind. unfold ends at 1. simpl.
  destruct (k_sleeps s) as [|[r others] l] eqn:E.
  - destruct limited; [|done]. split; [done|]. by exists [].
  - unfold ends. simpl. split; [by destruct r|]. exists [(r, others)]. by split_and!.
Qed.

Lemma wait_address_slept p v t s :
  ends (wfusync_wait_address p v t)
    (λ r s', (r = STATUS_SUCCESS ∨ satisfied r = false) ∧ ∃ used, slept used s s' ∧
       (r = STATUS_SUCCESS → c_low (cell_at s p) = v → used ≠ [])) s.
Proof.
  assert (∀ limited, ends (os_wait p v limited)
    (λ r s', (r = STATUS_SUCCESS ∨ satisfied r = false) ∧ ∃ used, slept used s s' ∧
       (r = STATUS_SUCCESS → c_low (cell_at s p) = v → used ≠ [])) s) as Hos.
  { intros limited. unfold os_wait. apply ends_bind. unfold ends at 1. simpl.
    destruct (Z.eqb_spec (c_low (cell_at s p)) v) as [Hv|Hv]; simpl;
      [|split; [by left|by exists []]].
    apply ends_bind. unfold ends at 1. simpl. destruct (k_sleeps s) as [|[r others] l] eqn:E.
    - destruct limited; [|done]. split; [by right|]. by exists [].
    - unfold ends. simpl. split; [by destruct r; auto|]. exists [(r, others)]. by split_and!. }
  unfold wfusync_wait_address. apply ends_bind. unfold ends at 1. simpl.
  destruct (k_os_sync s), t; cbv zeta; repeat case_match; try apply Hos;
    (split; [by right|by exists []]).
Qed.

(** Cells hold values their operations can leave: an event 0 or 1, a semaphore no
    negative count. Nobody breaks this while the thread sleeps. *)
Definition sane (c : cell) : Prop :=
  (type_of c = INPROC_SYNC_EVENT → c_low c = 0 ∨ c_low c = 1) ∧
  (type_of c = INPROC_SYNC_SEMAPHORE → 0 ≤ c_low c).
Definition sane_client s : Prop :=
  (∀ p, sane (cell_at s p)) ∧
  ∀ sleep, sleep ∈ k_sleeps s → ∀ w, (∀ p, sane (cell_at w p)) → ∀ p, sane (cell_at (sleep.2 w) p).

Lemma interference_sane used : ∀ w,
  (∀ x, x ∈ used → ∀ w', (∀ p, sane (cell_at w' p)) → ∀ p, sane (cell_at (x.2 w') p)) →
  (∀ p, sane (cell_at w p)) → ∀ p, sane (cell_at (interference used w) p).
Proof.
  unfold interference. induction used as [|x used IH]; intros w Hu Hw; simpl; [done|].
  apply IH; [intros y Hy; apply Hu; by right|]. apply Hu; [by left|done].
Qed.

Lemma sane_slept used s s' : slept used s s' → sane_client s → sane_client s'.
Proof.
  intros (H1 & H2 & _) [Hs He]. rewrite H1 in He. split.
  - change (∀ p, sane (cell_at (k_server s') p)). rewrite H2. apply interference_sane; [|exact Hs].
    intros x Hx. apply He, elem_of_app. by left.
  - intros x Hx. apply He, elem_of_app. by right.
Qed.

(** A cell that cannot be taken has the value that the address wait waits on. *)
Definition blocks_at_zero (ty : Z) (take : cell → Z * cell) : Prop :=
  ∀ c, type_of c = ty → sane c → satisfied (take c).1 = false → c_low c = 0.

Lemma event_blocks : blocks_at_zero INPROC_SYNC_EVENT event_take.
Proof.
  intros c Ht [Hs _]. unfold event_take. destruct (Hs Ht) as [-> | ->]; [done|]. simpl.
  by destruct (truth _).
Qed.
Lemma semaphore_blocks : blocks_at_zero INPROC_SYNC_SEMAPHORE semaphore_take.
Proof.
  intros c Ht [_ Hs]. unfold semaphore_take. specialize (Hs Ht). destruct (Z.leb_spec (c_low c) 0); [lia|done].
Qed.

(** ** The loops *)

Lemma outcome_slept used ty take p s s1 status s' :
  slept used s s1 → wait_outcome ty take p s1 status s' → wait_outcome ty take p s status s'.
Proof.
  intros (H1 & H2 & H3) (u & w & Hw & Hk & Hl & Hr). exists (used ++ u), w. split_and!.
  - rewrite Hw, H2. unfold interference. by rewrite foldl_app.
  - by rewrite H1, Hk, app_assoc.
  - congruence.
  - done.
Qed.

Lemma outcome_none used ty take p s status s' :
  slept used s s' → satisfied status = false → wait_outcome ty take p s status s'.
Proof. intros (H1 & H2 & H3) Hs. exists used, (interference used (k_server s)). by rewrite Hs. Qed.

(** One attempt at the cell: it ends the wait, or nothing happened. *)
Lemma consumes_outcome ty take consume p s :
  consumes ty take consume →
  ends (consume p)
    (λ r s', if satisfied r then wait_outcome ty take p s r s' else s' = s ∧
       (type_of (cell_at s p) = ty → has_flag (cell_at s p) WFUSYNC_SERVER_WAITERS = false →
          r = (take (cell_at s p)).1)) s.
Proof.
  intros Hc. unfold ends. rewrite Hc. cbv zeta.
  destruct (Z.eqb_spec (type_of (cell_at s p)) ty) as [Ht|Ht]; simpl; [|by split].
  destruct (has_flag _ WFUSYNC_SERVER_WAITERS) eqn:Hs; [by split|].
  destruct (has_flag _ WFUSYNC_STATE_LOCKED) eqn:Hl; [done|].
  destruct (satisfied _) eqn:Hsat; [|done].
  exists [], (k_server s). rewrite Hsat. by split_and!.
Qed.

Lemma stale_slept p g ty s :
  stale_or_server_owned p g ty s = Done (negb (c_generation (cell_at s p) =? g) ||
    negb (type_of (cell_at s p) =? ty) ||
    has_flag (cell_at s p) (Z.lor WFUSYNC_SERVER_WAITERS WFUSYNC_MULTI_WAITERS)) s.
Proof. done. Qed.

(** The sleep of a round whose attempt found nothing, and what follows it: [again] is the
    next round, entered with fewer sleeps left. *)
Lemma sleep_outcome ty take p v t (on_timeout : Z → Z) (again : K Z) s :
  satisfied (on_timeout STATUS_TIMEOUT) = false → c_low (cell_at s p) = v →
  (∀ used s', used ≠ [] → slept used s s' → ends again (λ r t, wait_outcome ty take p s' r t) s') →
  ends (ret ← wfusync_wait_address p v t;
        if ret =? STATUS_TIMEOUT then mret (on_timeout ret)
        else if negb (ret =? STATUS_SUCCESS) then mret ret else again)
    (λ r t, wait_outcome ty take p s r t) s.
Proof.
  intros Hto Hv Hag. apply ends_bind. eapply ends_mono; [apply wait_address_slept|].
  intros r s2 (Hr & u & Hs & Hne). destruct (Z.eqb_spec r STATUS_TIMEOUT) as [->|_]; [by eapply outcome_none|].
  destruct (Z.eqb_spec r STATUS_SUCCESS) as [->|Hne']; simpl.
  - eapply ends_mono; [apply (Hag u); [by apply Hne|done]|].
    intros r' s3 Ho. by eapply outcome_slept.
  - eapply outcome_none; [exact Hs|]. by destruct Hr as [->|].
Qed.

Lemma round_outcome ty take p d def (wait : option timespec → K Z) s :
  (∀ t s', slept [] s s' → ends (wait t) (λ r t, wait_outcome ty take p s' r t) s') →
  ends (t ← remaining d def; match t with None => mret STATUS_TIMEOUT | Some t => wait t end)
    (λ r t, wait_outcome ty take p s r t) s.
Proof.
  intros Hw. apply ends_bind. eapply ends_mono; [apply ends_wp, remaining_slept|].
  intros t s1 Hs1. destruct t as [t|]; [|by eapply outcome_none].
  eapply ends_mono; [by apply Hw|]. intros r s2 Ho. by eapply outcome_slept.
Qed.

Lemma slept_cell s s' p : slept [] s s' → cell_at s' p = cell_at s p.
Proof. intros (_ & Hs & _). unfold cell_at. simpl. by rewrite Hs. Qed.

Definition loop_bound (fuel : nat) (attempts : Z) s : Prop :=
  0 ≤ attempts ≤ WFUSYNC_SPIN_LIMIT ∧
  WFUSYNC_SPIN_LIMIT - attempts + Z.of_nat (length (k_sleeps s)) < Z.of_nat fuel.

Lemma loop_bound_spin fuel attempts s :
  loop_bound (S fuel) attempts s →
  match wfusync_adaptive_spin attempts with
  | Some attempts' => loop_bound fuel attempts' s
  | None => attempts = WFUSYNC_SPIN_LIMIT
  end.
Proof.
  unfold loop_bound, wfusync_adaptive_spin. intros [H1 H2].
  destruct (Z.leb_spec WFUSYNC_SPIN_LIMIT attempts); lia.
Qed.

Lemma loop_bound_sleep fuel attempts s used s' :
  loop_bound (S fuel) attempts s → attempts = WFUSYNC_SPIN_LIMIT → used ≠ [] → slept used s s' →
  loop_bound fuel attempts s'.
Proof.
  unfold loop_bound. intros [H1 H2] -> Hne (Hs & _). rewrite Hs, length_app in H2.
  destruct used; [done|]. simpl in *. lia.
Qed.

Lemma wait_loop_outcome ty take consume p g d fuel :
  consumes ty take consume → blocks_at_zero ty take →
  (∀ c, satisfied (take c).1 = ((take c).1 =? STATUS_WAIT_0)) →
  ∀ attempts s, sane_client s → loop_bound fuel attempts s →
  ends (wait_loop fuel consume ty p g d attempts) (λ r t, wait_outcome ty take p s r t) s.
Proof.
  intros Hc Hb Ht. induction fuel as [|fuel IH]; intros attempts s Hsane Hf;
    [unfold loop_bound in Hf; simpl in Hf; lia|].
  cbn [wait_loop]. pose proof (loop_bound_spin _ _ _ Hf) as Hsp.
  destruct (wfusync_adaptive_spin attempts) as [attempts'|]; [by apply IH|].
  apply ends_bind. unfold ends at 1. rewrite stale_slept.
  destruct (_ || _) eqn:Hst; [eapply outcome_none; [apply slept_refl|done]|].
  apply orb_false_iff in Hst as [Hst Hw]. apply orb_false_iff in Hst as [_ Hty].
  apply negb_false_iff, Z.eqb_eq in Hty. rewrite server_or_multi in Hw. apply orb_false_iff in Hw as [Hw _].
  apply ends_bind. eapply ends_mono; [by apply consumes_outcome|]. intros r s1 Hr. cbv beta in Hr.
  destruct (Z.eqb_spec r STATUS_WAIT_0) as [->|Hne]; [exact Hr|].
  assert (s1 = s ∧ r = (take (cell_at s p)).1 ∧ satisfied (take (cell_at s p)).1 = false) as (-> & Hr' & Hn).
  { revert Hr. destruct (satisfied r) eqn:Hsat; intros Hr.
    - exfalso. destruct Hr as (u & w & _ & _ & _ & Hr). rewrite Hsat in Hr.
      destruct Hr as (_ & _ & _ & <- & _). rewrite Ht in Hsat. by apply Z.eqb_eq in Hsat.
    - destruct Hr as [-> Hr]. specialize (Hr Hty Hw). by subst r. }
  apply round_outcome. intros t s1 Hs1.
  apply (sleep_outcome _ _ _ _ _ (λ ret, if d then ret else STATUS_NOT_IMPLEMENTED)); [by destruct d| |].
  { rewrite (slept_cell _ _ _ Hs1). by apply (Hb _ Hty); [apply Hsane|]. }
  intros used s' Hu Hs'. pose proof (slept_trans _ _ _ _ _ Hs1 Hs') as Hs2.
  apply IH; [by eapply sane_slept|by eapply loop_bound_sleep].
Qed.

(** A mutex that was taken abandoned has its generation stored in the cache. *)
Lemma refreshed_outcome handle ty take p q r s s1 :
  k_locked s = false → satisfied r = true → wait_outcome ty take p s r s1 →
  ends (_ ← when (r =? STATUS_ABANDONED) (wfusync_refresh_cache_generation handle q); mret r)
    (λ r t, wait_outcome ty take p s r t) s1.
Proof.
  intros Hl Hsat Ho. apply ends_bind. apply ends_wp. rewrite wp_when.
  destruct (_ =? STATUS_ABANDONED); [|exact Ho]. destruct Ho as (u & w & Hw & Hk & Hlk & Hr).
  eapply wp_mono; [apply refresh_slept; congruence|]. intros [] s2 (H1 & H2 & H3).
  exists u, w. rewrite Hsat in Hr |- *. simpl in H1, H2.
  split; [done|]. split; [by rewrite Hk, H1|]. split; [congruence|]. by rewrite H2.
Qed.

Lemma mutex_loop_outcome handle tid p g d fuel :
  ∀ attempts s, k_locked s = false → sane_client s → loop_bound fuel attempts s →
  ends (mutex_wait_loop fuel handle tid p g d attempts)
    (λ r t, wait_outcome INPROC_SYNC_MUTEX (mutex_take tid) p s r t) s.
Proof.
  induction fuel as [|fuel IH]; intros attempts s Hl Hsane Hf;
    [unfold loop_bound in Hf; simpl in Hf; lia|].
  cbn [mutex_wait_loop]. pose proof (loop_bound_spin _ _ _ Hf) as Hsp.
  destruct (wfusync_adaptive_spin attempts) as [attempts'|]; [by apply IH|].
  apply ends_bind. unfold ends at 1. rewrite stale_slept.
  destruct (_ || _) eqn:Hst; [eapply outcome_none; [apply slept_refl|done]|].
  apply ends_bind. eapply ends_mono; [apply (consumes_outcome _ _ _ p s (mutex_consumes tid))|].
  intros r s1 Hr. cbv beta in Hr. fold (satisfied r).
  revert Hr. destruct (satisfied r) eqn:Hsat; intros Hr.
  - by apply refreshed_outcome.
  - destruct Hr as [-> Hr]. destruct (r =? STATUS_TIMEOUT); simpl;
      [|by eapply outcome_none; [apply slept_refl|]].
    apply round_outcome. intros t s1 Hs1. apply ends_bind. unfold ends at 1. simpl.
    apply (sleep_outcome _ _ _ _ _ (λ _, if d then STATUS_TIMEOUT else STATUS_NOT_IMPLEMENTED));
      [by destruct d|done|].
    intros used s' Hu Hs'. pose proof (slept_trans _ _ _ _ _ Hs1 Hs') as Hs2.
    apply IH; [|by eapply sane_slept|by eapply loop_bound_sleep].
    destruct Hs2 as (_ & _ & ->). done.
Qed.

(** ** The whole wait *)

(** What a wait finds the handle to stand for. *)
Definition waits_on (handle ty p : Z) s : Prop :=
  ∃ fs, cached_state s handle = Some fs ∧ fs_type fs = ty ∧ fs_ptr fs = Some p ∧
    Z.land (fs_access fs) SYNCHRONIZE = SYNCHRONIZE.

Lemma wait_get_local local ty handle s :
  k_enabled s = true →
  wp (get_local_state_locked local ty handle SYNCHRONIZE)
    (λ r s', slept [] s s' ∧ (∀ e, cache_entry s' e = cache_entry s e) ∧
       match r with
       | inl status => satisfied status = false
       | inr entry => ∃ p, waits_on handle ty p s ∧ fs_ptr (ce_state (cache_entry s entry)) = Some p
       end) s.
Proof.
  intros He. unfold get_local_state_locked. rewrite wp_bind.
  eapply wp_mono; [apply wp_keeps; [apply get_cache_entry_spec|apply keeps_cache_entry]|].
  intros r s1 [(Hr & _ & _ & Hc & Hsv & _ & Hl & _) Hsl].
  assert (slept [] s s1) as Hslept by (by split_and!).
  destruct r as [entry|]; [|by rewrite wp_ret].
  destruct Hr as [|Hr]; [done|]. symmetry in Hr. unfold get_entry. wp_run idtac. rewrite Hc.
  set (e := cache_entry s entry). destruct (_ || _) eqn:E1; [by rewrite wp_ret|].
  apply orb_false_iff in E1 as [E1 Hp]. apply orb_false_iff in E1 as [E1 Hh].
  apply orb_false_iff in E1 as [_ Hv]. apply negb_false_iff in Hp, Hh, Hv.
  apply bool_decide_eq_true in Hp as [p Hp].
  destruct (Z.eqb_spec (fs_type (ce_state e)) ty); simpl; [|by rewrite wp_ret].
  destruct (Z.eqb_spec (Z.land (fs_access (ce_state e)) SYNCHRONIZE) SYNCHRONIZE); simpl;
    rewrite wp_ret; [|done].
  split_and!; [done..|]. exists p. split; [|done]. exists (ce_state e). split_and!; [|done..].
  unfold cached_state. rewrite Hr, He. fold e. by rewrite Hv, Hh.
Qed.

Lemma wait_prologue_spec local kind ty hotpath handle al timeout s :
  k_locked s = false →
  wp (wait_prologue kind (get_local_state_locked local ty) hotpath handle al timeout)
    (λ r s', slept [] s s' ∧
       match r with
       | inl status => satisfied status = false
       | inr (_, p, _) => waits_on handle ty p s
       end) s.
Proof.
  intros Hl. unfold wait_prologue, wfusync_get_handle_kind. wp_run idtac.
  destruct (k_enabled s) eqn:He; cbn [negb]; [|done]. wp_run idtac.
  destruct (truth _ && _); [done|]. destruct al; [done|]. destruct (timeout_is _ _); [done|].
  apply wp_locked; [done|].
  eapply wp_mono; [by apply (wait_get_local local ty handle (set_locked true s))|].
  intros r s1 ((H1 & H2 & H3) & Hc & Hr). destruct r as [status|entry];
    [by wp_run ltac:(rewrite wp_unlock_cache; split; [done|])|].
  destruct Hr as (p & Hw & Hp). unfold entry_ptr, entry_generation,
    wfusync_entry_signal_hotpath_enabled, get_entry, wfusync_shm_idx_signal_unsafe, wfusync_has_server_waiters.
  assert (fs_ptr (ce_state (cache_entry s1 entry)) = Some p) as Hp1 by (by rewrite Hc).
  wp_run idtac. destruct hotpath; wp_run idtac;
    repeat case_match; wp_run ltac:(first [rewrite wp_ld | progress cbn [negb]]);
    repeat case_match; wp_run ltac:(rewrite wp_unlock_cache; split; [done|]); rewrite ?Hp1; done.
Qed.

Lemma wait_fuel_bound s used s' :
  slept used s s' → loop_bound (34 + length (k_sleeps s'))%nat 0 s'.
Proof. unfold loop_bound, WFUSYNC_SPIN_LIMIT. intros _. lia. Qed.

Lemma wait_consumable_outcome ty take consume p g timeout entry s :
  consumes ty take consume → blocks_at_zero ty take →
  (∀ c, satisfied (take c).1 = ((take c).1 =? STATUS_WAIT_0)) → sane_client s →
  ends (wait_consumable consume ty (inr (entry, p, g)) timeout)
    (λ r t, wait_outcome ty take p s r t) s.
Proof.
  intros Hc Hb Ht Hsane. unfold wait_consumable. apply ends_bind.
  eapply ends_mono; [by apply consumes_outcome|]. intros r s1 Hr. cbv beta in Hr.
  destruct (Z.eqb_spec r STATUS_WAIT_0) as [->|Hne]; [exact Hr|].
  assert (s1 = s) as ->.
  { revert Hr. destruct (satisfied r) eqn:Hsat; intros Hr; [|apply Hr].
    exfalso. destruct Hr as (u & w & _ & _ & _ & Hr). rewrite Hsat in Hr.
    destruct Hr as (_ & _ & _ & <- & _). rewrite Ht in Hsat. by apply Z.eqb_eq in Hsat. }
  destruct (timeout_is _ _); [eapply outcome_none; [apply slept_refl|done]|].
  apply ends_bind. eapply ends_mono; [apply ends_wp, deadline_slept|]. intros d s2 Hs2. cbv beta in Hs2.
  apply ends_bind, ends_wp. unfold wait_fuel. rewrite wp_gets. eapply ends_mono.
  - apply (wait_loop_outcome ty take); [done..|by eapply sane_slept|by eapply wait_fuel_bound].
  - intros r' s3 Ho. by eapply outcome_slept.
Qed.

Lemma wait_mutex_outcome handle al timeout s :
  k_locked s = false → sane_client s →
  ends (wfusync_wait_mutex handle al timeout)
    (λ r t, ∃ p, (satisfied r = true → waits_on handle INPROC_SYNC_MUTEX p s) ∧
       wait_outcome INPROC_SYNC_MUTEX (mutex_take (s32 (k_tid s))) p s r t) s.
Proof.
  intros Hl Hsane. unfold wfusync_wait_mutex. apply ends_bind. unfold ends at 1. simpl.
  apply ends_bind. eapply ends_mono; [by apply ends_wp, wait_prologue_spec|]. intros r s1 [Hs1 Hr].
  destruct r as [status|[[entry p] g]]; [exists 0; split; [congruence|by eapply outcome_none]|].
  set (tid := s32 (k_tid s)). assert (k_locked s1 = false) as Hl1 by (destruct Hs1 as (_&_&->); done).
  apply ends_mono with (Q := λ r t, wait_outcome INPROC_SYNC_MUTEX (mutex_take tid) p s1 r t);
    [|intros r t Ho; exists p; split; [done|by eapply outcome_slept]].
  assert (sane_client s1) as Hsane1 by (by eapply sane_slept).
  apply ends_bind. eapply ends_mono; [apply (consumes_outcome _ _ _ p s1 (mutex_consumes tid))|].
  intros r s2 Ho. cbv beta in Ho. fold (satisfied r).
  revert Ho. destruct (satisfied r) eqn:Hsat; intros Ho; [by apply refreshed_outcome|].
  destruct Ho as [-> _]. destruct (negb _); [by eapply outcome_none; [apply slept_refl|]|].
  destruct (timeout_is _ _); [by eapply outcome_none; [apply slept_refl|]|].
  apply ends_bind. eapply ends_mono; [apply ends_wp, deadline_slept|]. intros d s2 Hs2. cbv beta in Hs2.
  apply ends_bind, ends_wp. unfold wait_fuel. rewrite wp_gets. eapply ends_mono.
  - apply (mutex_loop_outcome handle tid p g d); [by destruct Hs2 as (_&_&->)|by eapply sane_slept|].
    by eapply wait_fuel_bound.
  - intros r' s3 Ho. by eapply outcome_slept.
Qed.

Lemma wait_simple_outcome local kind ty take consume handle al timeout s :
  consumes ty take consume → blocks_at_zero ty take →
  (∀ c, satisfied (take c).1 = ((take c).1 =? STATUS_WAIT_0)) →
  k_locked s = false → sane_client s →
  ends (r ← wait_prologue kind (get_local_state_locked local ty) true handle al timeout;
        wait_consumable consume ty r timeout)
    (λ r t, ∃ p, (satisfied r = true → waits_on handle ty p s) ∧ wait_outcome ty take p s r t) s.
Proof.
  intros Hc Hb Ht Hl Hsane. apply ends_bind.
  eapply ends_mono; [by apply ends_wp, wait_prologue_spec|]. intros r s1 [Hs1 Hr].
  destruct r as [status|[[entry p] g]]; [exists 0; split; [congruence|by eapply outcome_none]|].
  eapply ends_mono; [apply (wait_consumable_outcome ty take); [done..|by eapply sane_slept]|].
  intros r t Ho. exists p. split; [done|by eapply outcome_slept].
Qed.
End waits.

Inductive waitable := WaitableEvent | WaitableSemaphore | WaitableMutex.
Definition waitable_type (k : waitable) : Z :=
  match k with
  | WaitableEvent => INPROC_SYNC_EVENT
  | WaitableSemaphore => INPROC_SYNC_SEMAPHORE
  | WaitableMutex => INPROC_SYNC_MUTEX
  end.
Definition waitable_take (k : waitable) (tid : Z) : cell → Z * cell :=
  match k with
  | WaitableEvent => event_take
  | WaitableSemaphore => semaphore_take
  | WaitableMutex => mutex_take tid
  end.
Definition run_wait `{PageSize} (k : waitable) : Z → bool → option Z → K Z :=
  match k with
  | WaitableEvent => wfusync_wait_event
  | WaitableSemaphore => wfusync_wait_semaphore
  | WaitableMutex => wfusync_wait_mutex
  end.

(** C12: A wait on one object ends, unless it waits for another thread for ever; the
    bound of its loop is never reached. Its whole effect on shared memory is what the
    other threads did during the sleeps it took and, exactly when its status says that
    the wait was satisfied, one consumption of the cell that the handle is cached for,
    in a state where that cell was available, unlocked and without server waiters. *)
Theorem single_wait_effect `{PageSize} k handle alertable timeout s :
  k_locked s = false → sane_client s →
  match run_wait k handle alertable timeout s with
  | Done status s' =>
      ∃ used p, let w := interference used (k_server s) in
        k_sleeps s = used ++ k_sleeps s' ∧
        (satisfied status = false → k_server s' = w) ∧
        (satisfied status = true →
           waits_on handle (waitable_type k) p s ∧
           type_of (cell_at w p) = waitable_type k ∧
           has_flag (cell_at w p) WFUSYNC_STATE_LOCKED = false ∧
           has_flag (cell_at w p) WFUSYNC_SERVER_WAITERS = false ∧
           (waitable_take k (s32 (k_tid s)) (cell_at w p)).1 = status ∧
           k_server s' = put_cell p (waitable_take k (s32 (k_tid s)) (cell_at w p)).2 w)
  | Spinning => True
  | AssertFailed | NoFuel => False
  end.
Proof.
  intros Hl Hsane.
  assert (ends (run_wait k handle alertable timeout) (λ r t, ∃ p,
     (satisfied r = true → waits_on handle (waitable_type k) p s) ∧
     wait_outcome (waitable_type k) (waitable_take k (s32 (k_tid s))) p s r t) s) as He.
  { destruct k; simpl.
    - apply wait_simple_outcome; [apply event_consumes|apply event_blocks| |done..].
      intros c. unfold event_take. by repeat case_match.
    - apply wait_simple_outcome; [apply semaphore_consumes|apply semaphore_blocks| |done..].
      intros c. unfold semaphore_take. by repeat case_match.
    - by apply wait_mutex_outcome. }
  unfold ends in He. destruct (run_wait _ _ _ _ _) as [status s'| | |]; [|done..].
  destruct He as (p & Hp & used & w & -> & Hk & _ & Ho). exists used, p. cbv zeta.
  split; [done|]. destruct (satisfied status); (split; [done|]); intros Hs; [|done].
  split; [by apply Hp|exact Ho].
Qed.

(** A thread waits for the event of [demo], without a time limit; during its first sleep
    another thread of the process sets the event. *)
#[local] Existing Instance page_4096.

Definition other_sets_event (w : wfs) : wfs :=
  put_cell (cell_addr 1) (set_low 1 (cell_at w (cell_addr 1))) w.
Definition demo_waiting : client := set_sleeps [(Woken, other_sets_event)] demo_client.

Lemma demo_waiting_sane : sane_client demo_waiting.
Proof.
  split.
  - assert (map_Forall (λ _ c, (type_of c =? INPROC_SYNC_EVENT) && negb (c_low c =? 0) && negb (c_low c =? 1)
              || (type_of c =? INPROC_SYNC_SEMAPHORE) && (c_low c <? 0) = false)
              (shm_cells (w_shm (k_server demo_waiting)))) as Hf.
    { eapply bool_decide_eq_true_1. vm_compute. reflexivity. }
    intros p. unfold cell_at, cell_of. destruct (shm_cells _ !! p) as [c|] eqn:E; [|by split].
    apply Hf, orb_false_iff in E as [E1 E2]. simpl. split; intros Ht; rewrite Ht in *; simpl in *.
    + destruct (Z.eqb_spec (c_low c) 0), (Z.eqb_spec (c_low c) 1); naive_solver.
    + by apply Z.ltb_ge.
  - intros x ->%list_elem_of_singleton w Hw p. simpl. unfold other_sets_event. rewrite cell_at_put.
    case_decide; [|apply Hw]. split; [by right|]. intros Ht. simpl. lia.
Qed.

Definition demo_waited : client := Eval vm_compute in
  match run_wait WaitableEvent 4 false None demo_waiting with Done _ s' => s' | _ => demo_waiting end.

Lemma single_wait_effect_witness :
  ∃ used p, [(Woken, other_sets_event)] = used ++ [] ∧ waits_on 4 INPROC_SYNC_EVENT p demo_waiting ∧
    k_server demo_waited =
      put_cell p (event_take (cell_at (interference used demo) p)).2 (interference used demo).
Proof.
  pose proof (single_wait_effect WaitableEvent 4 false None demo_waiting eq_refl demo_waiting_sane) as He.
  assert (run_wait WaitableEvent 4 false None demo_waiting = Done STATUS_WAIT_0 demo_waited) as E
    by (vm_compute; reflexivity).
  rewrite E in He. destruct He as (used & p & Hk & _ & Hs). exists used, p.
  destruct (Hs eq_refl) as (Hw & _ & _ & _ & _ & Hsv). split; [exact Hk|]. split; [exact Hw|exact Hsv].
Defined.
