(* ===== verification/WfusyncLocalAll.v ===== *)
(** * The wait-all a process performs itself

    [try_wait_all_local] of src/dlls/ntdll/unix/wfusync.c locks the cells of a wait-all in
    the order of their indices, and takes all of them or none. It is the same operation
    as the server's [wfusync_try_wait_all], under another guard. *)

From Stdlib Require Import Sorting.Sorted.
From S2P Require Import Prelude.
From S2P Require Import ShmState.
From S2P Require Import ShmGuard.
From S2P Require Import WfusyncServer.
From S2P Require Import WfusyncServerOps.
From S2P Require Import WfusyncRegistry.
From S2P Require Import WfusyncWake.
From S2P Require Import WfusyncServerSpec.
From S2P Require Import WfusyncClient.
From S2P Require Import WfusyncClientOps.
From S2P Require Import WfusyncClientAgree.
From S2P Require Import WfusyncClientWait.

(** ** The insertion sort *)

Section order.
Context (key : nat → Z).
Notation below := (λ i j, key i ≤ key j).

(** The prefix is kept last element first, so it is sorted downwards. *)
Lemma order_insert_perm i l : order_insert key i l ≡ₚ i :: l.
Proof.
  induction l as [|x l IH]; simpl; [done|]. destruct (_ <? _); [|done].
  rewrite IH. constructor.
Qed.

Lemma order_insert_sorted i l :
  StronglySorted (λ a b, key b ≤ key a) l → StronglySorted (λ a b, key b ≤ key a) (order_insert key i l).
Proof.
  induction l as [|x l IH]; intros Hs; simpl; [by repeat constructor|].
  inversion_clear Hs as [|? ? Hl Hx]. destruct (Z.ltb_spec (key i) (key x)) as [Hlt|Hge].
  - constructor; [by apply IH|]. rewrite list.Forall_forall in Hx |- *. intros y Hy.
    rewrite order_insert_perm in Hy. apply elem_of_cons in Hy as [->|Hy]; [lia|by apply Hx].
  - constructor; [by constructor|]. constructor; [lia|].
    rewrite list.Forall_forall in Hx |- *. intros y Hy. specialize (Hx y Hy). lia.
Qed.

Lemma order_from_perm count : ∀ i prefix,
  order_from key i count prefix ≡ₚ seq i count ++ prefix.
Proof.
  induction count as [|count IH]; intros i prefix; simpl; [symmetry; apply Permutation_rev|].
  rewrite IH, order_insert_perm. by rewrite <- Permutation_middle.
Qed.

Lemma StronglySorted_snoc {A} (R : A → A → Prop) l x :
  StronglySorted R l → Forall (λ y, R y x) l → StronglySorted R (l ++ [x]).
Proof.
  induction l as [|y l IH]; intros Hs Hx; simpl; [by repeat constructor|].
  inversion_clear Hs as [|? ? Hl Hy]. inversion_clear Hx as [|? ? Hyx Hlx].
  constructor; [by apply IH|]. apply Forall_app. split; [done|by constructor].
Qed.

Lemma rev_sorted l :
  StronglySorted (λ a b, key b ≤ key a) l → StronglySorted below (rev l).
Proof.
  induction l as [|x l IH]; intros Hs; simpl; [constructor|].
  inversion_clear Hs as [|? ? Hl Hx]. apply StronglySorted_snoc; [by apply IH|].
  rewrite list.Forall_forall in Hx |- *. intros y Hy. apply Hx.
  apply list_elem_of_In, in_rev in Hy. by apply list_elem_of_In.
Qed.

Lemma order_from_sorted count : ∀ i prefix,
  StronglySorted (λ a b, key b ≤ key a) prefix → StronglySorted below (order_from key i count prefix).
Proof.
  induction count as [|count IH]; intros i prefix Hs; simpl; [by apply rev_sorted|].
  by apply IH, order_insert_sorted.
Qed.
End order.

Definition index_key (objs : list wait_obj) (i : nat) : Z := default 0 (ob_shm_idx <$> objs !! i).

(** The lock order of a wait-all is a permutation of the objects, by increasing
    index of their cells, whatever order the caller named them in; any two processes
    therefore lock common cells in the same order. *)
Theorem lock_order_sorted objs :
  lock_order objs ≡ₚ seq 0 (length objs) ∧
  StronglySorted (λ i j, index_key objs i ≤ index_key objs j) (lock_order objs).
Proof.
  unfold lock_order. split.
  - by rewrite order_from_perm, app_nil_r.
  - apply order_from_sorted. constructor.
Qed.

(** ** Objects and entries *)

(** The entry that the request to the server would carry for an object. *)
Definition entry_of (o : wait_obj) : wait_entry :=
  WaitEntry (ob_shm_idx o) (ob_generation o) (ob_type o).

Notation with_lock := (with_flag 13).
Lemma lock_flag : is_flag 13.
Proof. unfold is_flag. lia. Qed.

(** What the locking loop demands of the cell of an object. *)
Definition lockable (c : cell) (o : wait_obj) : bool :=
  waitall_type_ok (ob_type o) && (type_of c =? ob_type o) && negb (has_flag c WFUSYNC_SERVER_WAITERS) &&
  (c_generation c =? ob_generation o) && negb ((ob_type o =? INPROC_SYNC_EVENT) && truth (c_high c)).

Section local.
Context `{PageSize}.
Implicit Types (s : client) (o : wait_obj).

(** The cache maps an index to the address of its cell. *)
Definition placed o : Prop := ob_state o = cell_addr (ob_shm_idx o) ∧ 0 ≤ ob_shm_idx o < 2 ^ 32.

Fixpoint strictly_from (prev : option Z) (order : list wait_obj) : bool :=
  match order with
  | [] => true
  | o :: order => negb (bool_decide (prev = Some (ob_shm_idx o))) &&
                  strictly_from (Some (ob_shm_idx o)) order
  end.

Lemma sorted_distinct order prev :
  StronglySorted (λ a b, ob_shm_idx a ≤ ob_shm_idx b) order →
  (∀ i o, prev = Some i → o ∈ order → i ≤ ob_shm_idx o) →
  strictly_from prev order = true ↔
    NoDup (ob_shm_idx <$> order) ∧ ∀ i, prev = Some i → i ∉ ob_shm_idx <$> order.
Proof.
  revert prev. induction order as [|o order IH]; intros prev Hs Hp; csimpl.
  - split; [|done]. intros _. split; [constructor|]. by intros i _ ?%elem_of_nil.
  - inversion_clear Hs as [|? ? Hs' Ho]. rewrite list.Forall_forall in Ho.
    rewrite andb_true_iff, negb_true_iff, bool_decide_eq_false, IH; [|done|].
    2:{ intros i o' [= <-] Ho'. by apply Ho. }
    rewrite list.NoDup_cons. split.
    + intros (Hne & Hnd & Hn). split; [split; [by apply Hn|done]|].
      intros i -> [->|Hin]%elem_of_cons; [done|]. apply Hne. f_equal.
      apply list_elem_of_fmap in Hin as (o' & -> & Ho'). specialize (Ho _ Ho').
      specialize (Hp (ob_shm_idx o') o eq_refl ltac:(by left)). lia.
    + intros [[Hn Hnd] Hpi]. split; [|split; [done|by intros i [= <-]]].
      intros ->. apply (Hpi _ eq_refl). by left.
Qed.

Lemma lock_lockable s o :
  waitall_type_ok (ob_type o) = true → has_flag (cell_at s (ob_state o)) WFUSYNC_STATE_LOCKED = false →
  wfusync_lock_state (ob_state o) (ob_type o) s =
    if (type_of (cell_at s (ob_state o)) =? ob_type o) &&
       negb (has_flag (cell_at s (ob_state o)) WFUSYNC_SERVER_WAITERS)
    then Done true (put_cell (ob_state o) (with_lock (cell_at s (ob_state o))) s) else Done false s.
Proof.
  intros Ht Hl. rewrite wfusync_lock_state_cases. cbv zeta.
  destruct (Z.eqb_spec (type_of (cell_at s (ob_state o))) (ob_type o)) as [E|E];
    [rewrite decide_True by done|by rewrite decide_False]. rewrite Hl. simpl.
  by destruct (has_flag _ WFUSYNC_SERVER_WAITERS).
Qed.

(** The locking loop: it locks every object exactly when each is lockable and no index
    occurs twice; the cells it has locked are recorded either way. *)
Lemma lock_in_order_spec s0 order : ∀ prev locked s,
  flagged 13 s0 locked s →
  (∀ o, o ∈ order → placed o ∧ has_flag (cell_at s0 (ob_state o)) WFUSYNC_STATE_LOCKED = false) →
  StronglySorted (λ a b, ob_shm_idx a ≤ ob_shm_idx b) order →
  (∀ p, p ∈ locked → ∃ i j, prev = Some i ∧ p = cell_addr j ∧ 0 ≤ j ≤ i) →
  (∀ i o, prev = Some i → o ∈ order → i ≤ ob_shm_idx o) →
  wp (lock_in_order order prev locked)
    (λ r s', flagged 13 s0 r.1 s' ∧
       r.2 = forallb (λ o, lockable (cell_at s0 (ob_state o)) o) order && strictly_from prev order ∧
       (r.2 = true → r.1 = rev (ob_state <$> order) ++ locked)) s.
Proof.
  induction order as [|o order IH]; intros prev locked s Hf Hok Hs Hl Hp; [done|].
  csimpl. inversion_clear Hs as [|? ? Hs' Ho]. rewrite list.Forall_forall in Ho.
  destruct (Hok o) as [[Hst Hr] Hfree]; [by left|].
  case_bool_decide as Hprev; simpl; [rewrite wp_ret; simpl; by rewrite andb_false_r|].
  assert (ob_state o ∉ locked) as Hnew.
  { intros Hin. destruct (Hl _ Hin) as (i & j & -> & E & Hj). rewrite Hst in E.
    pose proof (Hp i o eq_refl ltac:(by left)).
    apply cell_addr_inj in E; [|lia|lia]. apply Hprev. f_equal. lia. }
  assert (cell_at s (ob_state o) = cell_at s0 (ob_state o)) as Hcell
    by (rewrite (fl_cell _ _ _ _ Hf); by rewrite bool_decide_false).
  unfold lockable at 1. destruct (waitall_type_ok (ob_type o)) eqn:Hty; simpl; [|by rewrite wp_ret].
  rewrite wp_bind. unfold wp at 1. rewrite lock_lockable, Hcell by (rewrite ?Hcell; done).
  destruct (type_of (cell_at s0 (ob_state o)) =? ob_type o) eqn:E1; simpl; [|done].
  destruct (has_flag (cell_at s0 (ob_state o)) WFUSYNC_SERVER_WAITERS) eqn:E2; simpl; [done|].
  destruct (flagged_add 13 lock_flag s0 locked s (ob_state o) Hf) as (_ & _ & Hf').
  { rewrite Hcell. exact Hfree. }
  specialize (Hf' (ob_state o :: locked) (Permutation_refl _)). rewrite Hcell in Hf'.
  set (s1 := put_cell _ _ _) in *.
  assert (cell_at s1 (ob_state o) = with_lock (cell_at s0 (ob_state o))) as Hc1 by apply cell_at_put_eq.
  change (wp (c ← ld (ob_state o); if negb (c_generation c =? ob_generation o)
    then mret (ob_state o :: locked, false)
    else if (ob_type o =? INPROC_SYNC_EVENT) && truth (c_high c) then mret (ob_state o :: locked, false)
    else lock_in_order order (Some (ob_shm_idx o)) (ob_state o :: locked))
    (λ r s', flagged 13 s0 r.1 s' ∧
       r.2 = (c_generation (cell_at s0 (ob_state o)) =? ob_generation o) &&
             negb ((ob_type o =? INPROC_SYNC_EVENT) && truth (c_high (cell_at s0 (ob_state o)))) &&
             forallb (λ o, lockable (cell_at s0 (ob_state o)) o) order &&
             strictly_from (Some (ob_shm_idx o)) order ∧
       (r.2 = true → r.1 = rev (ob_state o :: (ob_state <$> order)) ++ locked)) s1).
  rewrite wp_bind, wp_ld, Hc1. cbn [c_generation c_high with_flag set_type].
  destruct (_ =? ob_generation o); simpl; [|done].
  destruct ((ob_type o =? _) && _); simpl; [done|]. eapply wp_mono; [apply IH|].
  - exact Hf'.
  - intros o' Ho'. apply Hok. by right.
  - done.
  - intros p [->|Hin]%elem_of_cons.
    + exists (ob_shm_idx o), (ob_shm_idx o). split_and!; [done|done|lia|lia].
    + destruct (Hl p Hin) as (i & j & -> & -> & Hj). pose proof (Hp i o eq_refl ltac:(by left)).
      exists (ob_shm_idx o), j. split_and!; [done|done|lia|lia].
  - intros i o' [= <-] Ho'. by apply Ho.
  - intros r s2 (H1 & H2 & H3). split_and!; [done|done|]. intros Htrue. rewrite H3 by done.
    by rewrite <- app_assoc.
Qed.

(** ** Checking and consuming agree with the server's *)

Lemma lockable_parts c o :
  lockable c o = true →
  waitall_type_ok (ob_type o) = true ∧ type_of c = ob_type o ∧
  has_flag c WFUSYNC_SERVER_WAITERS = false ∧ c_generation c = ob_generation o ∧
  (ob_type o = INPROC_SYNC_EVENT → c_high c = 0).
Proof.
  unfold lockable. rewrite !andb_true_iff, !negb_true_iff, !Z.eqb_eq.
  intros ((((H1 & H2) & H3) & H4) & H5). split_and!; [done..|]. intros E. rewrite E in H5.
  unfold truth in H5. simpl in H5. by apply negb_false_iff, Z.eqb_eq in H5.
Qed.

Lemma obj_blocks_entry c o tid :
  lockable c o = true → obj_blocks (with_lock c) (ob_type o) (s32 tid) = entry_blocks c (entry_of o) tid.
Proof.
  intros (Hty & Ht & _ & Hg & _)%lockable_parts. unfold obj_blocks, entry_blocks. simpl.
  rewrite Ht, Hg, !Z.eqb_refl. cbn [c_low c_high with_flag set_type negb orb].
  unfold waitall_type_ok in Hty. rewrite !orb_true_iff, !Z.eqb_eq in Hty.
  destruct Hty as [[-> | ->]| ->]; simpl.
  - by destruct (c_low c =? 0).
  - by destruct (c_low c <=? 0).
  - unfold truth. destruct (Z.ltb_spec 0 (c_low c)) as [Hl|Hl]; simpl; rewrite ?andb_false_r, ?andb_true_r;
      [rewrite (proj2 (Z.eqb_neq (c_low c) 0)) by lia|]; simpl; done.
Qed.

Lemma check_objs_spec s0 objs tid : ∀ s ab,
  (∀ o, o ∈ objs → placed o ∧ lockable (cell_at s0 (ob_state o)) o = true ∧
     cell_at s (ob_state o) = with_lock (cell_at s0 (ob_state o))) →
  wp (check_objs objs (s32 tid) ab)
    (λ r s', s' = s ∧
       match r with
       | inl status => entries_status (k_server s0) (entry_of <$> objs) tid ab = status ∧
                       acquired status = false
       | inr ab' => entries_status (k_server s0) (entry_of <$> objs) tid ab =
             (if ab' then STATUS_ABANDONED_WAIT_0 else STATUS_WAIT_0) ∧
           (ab = true → ab' = true) ∧
           ∀ o, o ∈ objs → ∃ a, entry_blocks (cell_at s0 (ob_state o)) (entry_of o) tid = inr a ∧
                                (a = true → ab' = true)
       end) s.
Proof.
  induction objs as [|o objs IH]; intros s ab Hc; csimpl.
  - rewrite wp_ret. split_and!; [done|done|done|]. by intros o ?%elem_of_nil.
  - destruct (Hc o) as ([Hst _] & Hl & Ho); [by left|].
    wp_run ltac:(rewrite wp_ld). rewrite Ho, obj_blocks_entry by done.
    unfold entry_addr. cbn [en_shm_idx entry_of]. rewrite <- Hst.
    change (cell_at (k_server s0)) with (cell_at s0).
    destruct (entry_blocks _ (entry_of o) tid) as [status|a] eqn:E.
    + rewrite wp_ret. split_and!; [done|done|by eapply entry_blocks_status].
    + eapply wp_mono; [apply IH; intros o' Hin; apply Hc; by right|].
      intros [status|ab'] s' [-> Hr]; [done|]. split; [done|]. destruct Hr as (Hr & Hab & Hall).
      split_and!; [done|intros ->; apply Hab; by rewrite orb_true_r|].
      intros o' [->|Hin]%elem_of_cons; [|by apply Hall].
      exists a. split; [done|]. intros ->. by apply Hab.
Qed.

Lemma consume_mutex_locked_exec p tid s :
  consume_mutex_state_locked p tid s =
    Done (mutex_take tid (cell_at s p)).1
      (if satisfied (mutex_take tid (cell_at s p)).1 then put_cell p (mutex_take tid (cell_at s p)).2 s else s).
Proof.
  unfold mutex_take. apply wp_exec. unfold consume_mutex_state_locked, wfusync_atomic_load, load_high.
  destruct (c_low (cell_at s p) =? tid) eqn:E1; [destruct (c_high (cell_at s p) =? INT_MAX) eqn:E2|
    destruct (c_low (cell_at s p) =? 0) eqn:E2; destruct (c_low (cell_at s p) <? 0) eqn:E3];
  wp_run ltac:(first [rewrite wp_ld | rewrite wp_st | rewrite E1 | rewrite E2 | rewrite E3
    | progress (cbn [orb]) | progress (autorewrite with shm_db)]); done.
Qed.

Lemma mutex_take_lock t c : mutex_take t (with_lock c) = ((mutex_take t c).1, with_lock (mutex_take t c).2).
Proof. unfold mutex_take. cbn [with_flag c_low c_high c_generation set_type]. by repeat case_match. Qed.

(** What the taking loop stores for an object that does not block is what the server
    would store. *)
Lemma take_obj c o tid a :
  lockable c o = true → entry_blocks c (entry_of o) tid = inr a →
  let c' := consumed c (entry_of o) tid in
  if ob_type o =? INPROC_SYNC_EVENT then with_lock c' = set_low 0 (with_lock c)
  else if ob_type o =? INPROC_SYNC_SEMAPHORE then with_lock c' = set_low (c_low (with_lock c) - 1) (with_lock c)
  else satisfied (mutex_take (s32 tid) c).1 = true ∧ (mutex_take (s32 tid) c).2 = c' ∧
       ((mutex_take (s32 tid) c).1 = STATUS_ABANDONED → a = true).
Proof.
  intros Hl Ha. destruct (not_blocked_consumable _ _ _ _ Ha) as [x Hx].
  destruct (lockable_parts _ _ Hl) as (Hty & Ht & _ & Hg & Hev). cbv zeta. unfold consumed. rewrite Hx. simpl.
  unfold consume_cell in Hx. unfold entry_blocks in Ha. cbn [en_type en_generation entry_of] in *.
  rewrite Ht, Hg, !Z.eqb_refl in Ha. cbn [negb orb] in Ha.
  destruct (Z.eqb_spec (ob_type o) INPROC_SYNC_EVENT) as [E|E].
  { rewrite (Hev E) in Hx. by destruct (c_low c =? 0); simplify_eq/=. }
  destruct (ob_type o =? INPROC_SYNC_SEMAPHORE); [by destruct (c_low c <=? 0); simplify_eq/=|].
  destruct (ob_type o =? INPROC_SYNC_MUTEX); [|done]. unfold mutex_take.
  destruct (c_low c =? s32 tid); [by destruct (c_high c =? INT_MAX); simplify_eq/=|].
  rewrite andb_true_r in Ha. simpl in Ha.
  destruct (truth (c_low c) && (0 <? c_low c)); simplify_eq/=.
  destruct ((c_low c =? 0) || (c_low c <? 0)); simplify_eq/=.
  by destruct (c_low c <? 0).
Qed.

(** The abandoned bits have all been seen by the check already. *)
Lemma consume_objs_spec s0 objs tid ab : ∀ s,
  NoDup (ob_state <$> objs) →
  (∀ o, o ∈ objs → placed o ∧ lockable (cell_at s0 (ob_state o)) o = true ∧
     cell_at s (ob_state o) = with_lock (cell_at s0 (ob_state o)) ∧
     ∃ a, entry_blocks (cell_at s0 (ob_state o)) (entry_of o) tid = inr a ∧ (a = true → ab = true)) →
  wp (consume_objs objs (s32 tid) ab)
    (λ r s', r = Some ab ∧ same_rest s s' ∧ ∀ p, cell_at s' p =
       if bool_decide (p ∈ ob_state <$> objs)
       then with_lock (consumed_at (k_server s0) (entry_of <$> objs) tid p) else cell_at s p) s.
Proof.
  induction objs as [|o objs IH]; intros s Hnd Hc; csimpl.
  - rewrite wp_ret. split_and!; [done|apply same_rest_refl|done].
  - csimpl in Hnd. apply list.NoDup_cons in Hnd as [Hni Hnd].
    destruct (Hc o) as ([Hst _] & Hl & Ho & a & Ha & Hab); [by left|].
    set (c := cell_at s0 (ob_state o)) in *. set (c' := consumed c (entry_of o) tid).
    assert (wp (consume_objs objs (s32 tid) ab)
      (λ r s', r = Some ab ∧ same_rest s s' ∧ ∀ p, cell_at s' p =
         if bool_decide (p ∈ ob_state o :: (ob_state <$> objs))
         then with_lock (if decide (entry_addr (entry_of o) = p)
                         then consumed (cell_at (k_server s0) p) (entry_of o) tid
                         else consumed_at (k_server s0) (entry_of <$> objs) tid p)
         else cell_at s p) (put_cell (ob_state o) (with_lock c') s)) as Hrest.
    { eapply wp_mono.
      { apply IH; [done|]. intros o' Hin. rewrite cell_at_put_ne; [apply Hc; by right|].
        intros E. apply Hni. rewrite E. by apply list_elem_of_fmap_2. }
      intros r s' (-> & Hr & Hcell). split_and!; [done|by eapply same_rest_trans; [apply same_rest_put|]|].
      intros p. unfold entry_addr. cbn [en_shm_idx entry_of]. rewrite <- Hst, Hcell, cell_at_put.
      destruct (decide (ob_state o = p)) as [<-|Hne].
      + rewrite bool_decide_false by done. rewrite bool_decide_true by by left. done.
      + apply bool_decide_ext_if. rewrite elem_of_cons. naive_solver. }
    pose proof (take_obj c o tid a Hl Ha) as Htake. fold c' in Htake.
    destruct (ob_type o =? INPROC_SYNC_EVENT); [|destruct (ob_type o =? INPROC_SYNC_SEMAPHORE)];
      rewrite wp_bind; [by rewrite wp_st, Ho, <- Htake..|].
    destruct Htake as (Hsat & Hm & Hab'). unfold wp at 1.
    rewrite consume_mutex_locked_exec, Ho, mutex_take_lock. cbn [fst snd].
    rewrite Hsat, Hm. destruct (Z.eqb_spec (mutex_take (s32 tid) c).1 STATUS_ABANDONED) as [E|E].
    + rewrite Hab in Hrest |- * by auto. exact Hrest.
    + apply orb_true_iff in Hsat as [-> |E'%Z.eqb_eq]; [exact Hrest|done].
Qed.

(** ** The whole operation *)

Lemma omap_seq {A} (l pre : list A) :
  omap ((pre ++ l) !!.) (seq (length pre) (length l)) = l.
Proof.
  revert pre. induction l as [|x l IH]; intros pre; [done|]. csimpl.
  rewrite list_lookup_middle by done. f_equal.
  specialize (IH (pre ++ [x])). rewrite <- app_assoc, length_app in IH. simpl in IH.
  by rewrite Nat.add_1_r in IH.
Qed.

Lemma ordered_perm objs : omap (objs !!.) (lock_order objs) ≡ₚ objs.
Proof.
  transitivity (omap (objs !!.) (seq 0 (length objs))).
  - apply omap_Permutation. unfold lock_order. by rewrite order_from_perm, app_nil_r.
  - pose proof (omap_seq objs []) as E. simpl in E. by rewrite E.
Qed.

Lemma ordered_sorted objs :
  StronglySorted (λ a b, ob_shm_idx a ≤ ob_shm_idx b) (omap (objs !!.) (lock_order objs)).
Proof.
  assert (StronglySorted (λ i j, index_key objs i ≤ index_key objs j) (lock_order objs)) as Hs
    by (apply order_from_sorted; constructor).
  induction Hs as [|i l Hs IH Hi]; csimpl; [constructor|]. destruct (objs !! i) as [o|] eqn:E; [|done].
  constructor; [done|]. rewrite list.Forall_forall in Hi. apply list.Forall_forall. intros o' Ho'.
  apply list_elem_of_omap in Ho' as (j & Hj & Ho'). specialize (Hi j Hj). unfold index_key in Hi.
  by rewrite E, Ho' in Hi.
Qed.

Definition local_ok s objs : bool :=
  forallb (λ o, lockable (cell_at s (ob_state o)) o) objs && bool_decide (NoDup (ob_shm_idx <$> objs)).
Definition local_status s objs : Z :=
  if local_ok s objs then entries_status (k_server s) (entry_of <$> objs) (k_tid s) false
  else STATUS_NOT_IMPLEMENTED.

Lemma ordered_ok s objs :
  forallb (λ o, lockable (cell_at s (ob_state o)) o) (omap (objs !!.) (lock_order objs)) &&
  strictly_from None (omap (objs !!.) (lock_order objs)) = local_ok s objs.
Proof.
  unfold local_ok. apply eq_true_iff_eq. rewrite !andb_true_iff, bool_decide_eq_true.
  rewrite (sorted_distinct _ _ (ordered_sorted objs)) by done.
  rewrite !forallb_forall. rewrite (ordered_perm objs).
  assert (∀ x, In x (omap (objs !!.) (lock_order objs)) ↔ In x objs) as Hin.
  { intros x. by rewrite <- !list_elem_of_In, (ordered_perm objs). }
  split; intros [H1 H2]; (split; [intros x Hx; by apply H1, Hin|]); [apply H2|by split].
Qed.

Lemma try_wait_all_local_spec objs s :
  (∀ o, o ∈ objs → placed o ∧ has_flag (cell_at s (ob_state o)) WFUSYNC_STATE_LOCKED = false) →
  wp (try_wait_all_local objs)
    (λ status s', status = local_status s objs ∧ same_rest s s' ∧
       ∀ p, cell_at s' p =
         if acquired status then consumed_at (k_server s) (entry_of <$> objs) (k_tid s) p
         else cell_at s p) s.
Proof.
  intros Hobj. unfold try_wait_all_local. wp_run idtac.
  eapply wp_mono.
  { apply (lock_in_order_spec s); [apply flagged_nil| |apply ordered_sorted| |done].
    - intros o Ho. apply Hobj. by rewrite (ordered_perm objs) in Ho.
    - by intros p ?%elem_of_nil. }
  intros [locked ok] s1 (Hf & Hok & Hall). cbn [fst snd] in *. rewrite ordered_ok in Hok.
  unfold local_status. rewrite <- Hok. change wfusync_unlock_state with
    (λ p, fetch_and_type (S := client) p (Z.lnot (2 ^ 13))).
  destruct ok; cbn [negb].
  2:{ wp_run idtac. eapply wp_mono.
      { apply (release_flags_spec 13 lock_flag s locked s1 s1 (cell_at s));
          [done|apply same_rest_refl|done|apply Hf]. }
      intros [] s' [Hr Hc]. by rewrite wp_ret. }
  specialize (Hall eq_refl). rewrite app_nil_r in Hall. symmetry in Hok.
  unfold local_ok in Hok. apply andb_true_iff in Hok as [Hlk Hnd]. apply bool_decide_eq_true in Hnd.
  rewrite forallb_forall in Hlk.
  assert (locked ≡ₚ ob_state <$> objs) as Hperm
    by (rewrite Hall, <- Permutation_rev; by rewrite (ordered_perm objs)).
  assert (∀ o, o ∈ objs → placed o ∧ lockable (cell_at s (ob_state o)) o = true ∧
            cell_at s1 (ob_state o) = with_lock (cell_at s (ob_state o))) as Hc1.
  { intros o Ho. split_and!; [by apply Hobj|by apply Hlk, list_elem_of_In|].
    rewrite (fl_cell _ _ _ _ Hf), bool_decide_true; [done|]. rewrite Hperm. by apply list_elem_of_fmap_2. }
  rewrite !wp_bind. eapply wp_mono; [by apply (check_objs_spec s)|].
  intros [status|ab] s2 [-> Hr].
  - rewrite wp_ret. destruct Hr as [-> Hacq]. wp_run idtac. eapply wp_mono.
    { apply (release_flags_spec 13 lock_flag s locked s1 s1 (cell_at s));
        [done|apply same_rest_refl|done|apply Hf]. }
    intros [] s' [Hr' Hc']. by rewrite wp_ret, Hacq.
  - destruct Hr as (-> & _ & Hblk). wp_run idtac. eapply wp_mono.
    { apply (consume_objs_spec s objs (k_tid s)).
      - rewrite <- Hperm. apply Hf.
      - intros o Ho. destruct (Hc1 o Ho) as (? & ? & ?). split_and!; [done..|by apply Hblk]. }
    intros r s2 (-> & Hr2 & Hc2). wp_run idtac. eapply wp_mono.
    { apply (release_flags_spec 13 lock_flag s locked s1 s2
               (consumed_at (k_server s) (entry_of <$> objs) (k_tid s))); [done|done| |].
      - intros p. apply consumed_at_type.
      - intros p. rewrite Hc2. rewrite (bool_decide_ext_if (p ∈ ob_state <$> objs) (p ∈ locked))
          by (by rewrite Hperm). case_bool_decide as Hin; [done|].
        rewrite consumed_at_other; [by rewrite (fl_cell _ _ _ _ Hf), bool_decide_false|].
        intros Hin'. apply Hin. rewrite Hperm. apply list_elem_of_fmap in Hin' as (e & -> & He).
        apply list_elem_of_fmap in He as (o & -> & Ho). destruct (Hc1 o Ho) as ([E _] & _).
        unfold entry_addr. cbn [en_shm_idx entry_of]. rewrite <- E. by apply list_elem_of_fmap_2. }
    intros [] s' [Hr' Hc']. rewrite wp_ret. by destruct ab.
Qed.

(** The server accepts what the process could lock. *)
Lemma lockable_guardable s o :
  placed o → has_flag (cell_at s (ob_state o)) WFUSYNC_STATE_LOCKED = false →
  lockable (cell_at s (ob_state o)) o = true →
  guardable (cell_at (k_server s) (entry_addr (entry_of o))) (entry_of o) = true.
Proof.
  intros [Hst _] Hl Hk. destruct (lockable_parts _ _ Hk) as (_ & Ht & Hs & Hg & _).
  unfold entry_addr. cbn [en_shm_idx entry_of]. rewrite <- Hst.
  change (cell_at (k_server s)) with (cell_at s). unfold guardable.
  change (truth (Z.land (c_type (cell_at s (ob_state o))) (Z.lor WFUSYNC_STATE_LOCKED WFUSYNC_SERVER_WAITERS)))
    with (has_flag (cell_at s (ob_state o)) (Z.lor WFUSYNC_STATE_LOCKED WFUSYNC_SERVER_WAITERS)).
  rewrite locked_or_server, Hl, Hs. cbn [en_type en_generation]. by rewrite Ht, Hg, !Z.eqb_refl.
Qed.

Lemma local_request_ok s objs :
  (∀ o, o ∈ objs → placed o ∧ has_flag (cell_at s (ob_state o)) WFUSYNC_STATE_LOCKED = false ∧
     state_mapped (k_server s) (ob_shm_idx o) = true) →
  1 ≤ Z.of_nat (length objs) ≤ 64 → local_ok s objs = true →
  request_ok (k_server s) (entry_of <$> objs) = true.
Proof.
  intros Hobj Hlen Hok. unfold local_ok in Hok. apply andb_true_iff in Hok as [Hlk Hnd].
  apply bool_decide_eq_true in Hnd. rewrite forallb_forall in Hlk.
  unfold request_ok. rewrite length_fmap, !andb_true_iff, !negb_true_iff. split_and!.
  - apply Z.eqb_neq. lia.
  - apply Z.ltb_ge. lia.
  - apply forallb_forall. intros e He. apply list_elem_of_In, list_elem_of_fmap in He as (o & -> & Ho).
    destruct (Hobj o Ho) as (Hp & Hl & Hm). unfold entry_guardable. apply andb_true_iff.
    split; [done|]. apply lockable_guardable; [done..|]. by apply Hlk, list_elem_of_In.
  - apply bool_decide_eq_true. rewrite <- list_fmap_compose.
    assert ((entry_addr ∘ entry_of) <$> objs = cell_addr <$> (ob_shm_idx <$> objs)) as ->
      by (by rewrite <- list_fmap_compose).
    apply NoDup_fmap_2_strong; [|done].
    intros i j Hi Hj. apply list_elem_of_fmap in Hi as (o & -> & Ho).
    apply list_elem_of_fmap in Hj as (o' & -> & Ho').
    destruct (Hobj o Ho) as ([_ ?] & _), (Hobj o' Ho') as ([_ ?] & _). by apply cell_addr_inj.
Qed.

(** C13: The wait-all of a process is atomic: unless another process holds a lock bit of
    its cells, it ends, its status is the one the cells determine, with a satisfied
    status every cell is taken exactly once, and with any other status, errors half way
    through the locking included, no cell has changed and no lock is left behind. *)
Theorem local_wait_all_atomic objs s :
  (∀ o, o ∈ objs → placed o ∧ has_flag (cell_at s (ob_state o)) WFUSYNC_STATE_LOCKED = false) →
  ∃ s', try_wait_all_local objs s = Done (local_status s objs) s' ∧ same_rest s s' ∧
    ∀ p, cell_at s' p =
      if acquired (local_status s objs) then consumed_at (k_server s) (entry_of <$> objs) (k_tid s) p
      else cell_at s p.
Proof.
  intros Hobj. pose proof (try_wait_all_local_spec objs s Hobj) as Hw.
  apply wp_done in Hw as (status & s' & Hrun & -> & Hr & Hc). eauto.
Qed.

(** C14: The wait-all of a process implements the server's: whenever it does not ask to
    fall back, the request [try_wait_all_wfusync] for the same objects would have
    returned the same status and left the same cells. *)
Theorem local_wait_all_refines_server objs s :
  (∀ o, o ∈ objs → placed o ∧ has_flag (cell_at s (ob_state o)) WFUSYNC_STATE_LOCKED = false ∧
     state_mapped (k_server s) (ob_shm_idx o) = true) →
  1 ≤ Z.of_nat (length objs) ≤ 64 →
  ∃ status s', try_wait_all_local objs s = Done status s' ∧
    (status ≠ STATUS_NOT_IMPLEMENTED →
       ∃ w, wfusync_try_wait_all (entry_of <$> objs) (k_tid s) (k_server s) = Done status w ∧
         ∀ p, cell_at s' p = cell_at w p).
Proof.
  intros Hobj Hlen.
  assert (∀ o, o ∈ objs → placed o ∧ has_flag (cell_at s (ob_state o)) WFUSYNC_STATE_LOCKED = false) as Hl
    by (intros o Ho; destruct (Hobj o Ho) as (? & ? & _); done).
  pose proof (try_wait_all_local_spec objs s Hl) as Hw.
  apply wp_done in Hw as (status & s' & Hrun & -> & _ & Hc). exists (local_status s objs), s'.
  split; [done|]. intros Hne.
  pose proof (try_wait_all_spec (entry_of <$> objs) (k_tid s) (k_server s)) as Hw.
  apply wp_done in Hw as (status & w & Hrunw & -> & _ & Hcw).
  assert (wait_all_status (k_server s) (entry_of <$> objs) (k_tid s) = local_status s objs) as E.
  { unfold wait_all_status, local_status in *. destruct (local_ok s objs) eqn:Hok; [|done].
    by rewrite local_request_ok. }
  rewrite E in *. exists w. split; [done|]. intros p. rewrite Hc, Hcw. done.
Qed.
End local.

#[local] Existing Instance page_4096.

(** The event and the semaphore of [demo] after both were signaled, waited for together,
    the semaphore first. *)
Definition demo_signaled : client :=
  Eval vm_compute in run_client
    [ _ ← WfusyncClient.wfusync_set_event 4; mret tt;
      _ ← WfusyncClient.wfusync_release_semaphore 8 2; mret tt ] demo_client.
Definition demo_objs : list wait_obj :=
  [WaitObj (cell_addr 2) 2 2 INPROC_SYNC_SEMAPHORE; WaitObj (cell_addr 1) 1 1 INPROC_SYNC_EVENT].

Lemma demo_objs_free o :
  o ∈ demo_objs → placed o ∧ has_flag (cell_at demo_signaled (ob_state o)) WFUSYNC_STATE_LOCKED = false ∧
    state_mapped (k_server demo_signaled) (ob_shm_idx o) = true.
Proof.
  intros Ho. repeat (apply elem_of_cons in Ho as [->|Ho]; [split; [split; [done|simpl; lia]|by split]|]).
  by apply elem_of_nil in Ho.
Qed.

Lemma local_wait_all_atomic_witness :
  ∃ s', try_wait_all_local demo_objs demo_signaled = Done STATUS_WAIT_0 s' ∧
    c_low (cell_at s' (cell_addr 1)) = 0 ∧ c_low (cell_at s' (cell_addr 2)) = 1.
Proof.
  destruct (local_wait_all_atomic demo_objs demo_signaled) as (s' & Hrun & _ & Hc).
  { intros o Ho. destruct (demo_objs_free o Ho) as (? & ? & _). by split. }
  exists s'. split; [rewrite Hrun; reflexivity|]. rewrite !Hc. split; reflexivity.
Defined.

Lemma local_wait_all_refines_server_witness :
  ∃ status s', try_wait_all_local demo_objs demo_signaled = Done status s' ∧
    (status ≠ STATUS_NOT_IMPLEMENTED →
       ∃ w, wfusync_try_wait_all (entry_of <$> demo_objs) (k_tid demo_signaled) (k_server demo_signaled) =
              Done status w ∧ ∀ p, cell_at s' p = cell_at w p).
Proof.
  apply (local_wait_all_refines_server demo_objs demo_signaled); [exact demo_objs_free|simpl; lia].
Defined.
