(* ===== verification/Security.v ===== *)
(** * Tokens and access checks

    src/server/token.c, with the inline helpers of src/server/security.h and the generic
    mapping of src/server/object.h: the privileges and groups of a token, and the check of
    a desired access against a security descriptor.

    A security descriptor and its access lists are records here; [sd_is_valid], which the
    callers run before, is what makes the packed bytes describe one. *)

From S2P Require Import Prelude.
From S2P Require Import ShmState.

Definition GENERIC_READ : Z := 0x80000000.
Definition GENERIC_WRITE : Z := 0x40000000.
Definition GENERIC_EXECUTE : Z := 0x20000000.
Definition GENERIC_ALL : Z := 0x10000000.
Definition MAXIMUM_ALLOWED : Z := 0x02000000.
Definition ACCESS_SYSTEM_SECURITY : Z := 0x01000000.
Definition STANDARD_RIGHTS_REQUIRED : Z := 0x000f0000.
Definition SYNCHRONIZE : Z := 0x00100000.
Definition GENERIC_RIGHTS : Z :=
  Z.lor GENERIC_READ (Z.lor GENERIC_WRITE (Z.lor GENERIC_EXECUTE GENERIC_ALL)).

Definition SE_DACL_PRESENT : Z := 4.
Definition SE_GROUP_ENABLED : Z := 4.
Definition SE_GROUP_USE_FOR_DENY_ONLY : Z := 0x10.
Definition SE_PRIVILEGE_USED_FOR_ACCESS : Z := 0x80000000.
Definition ACCESS_ALLOWED_ACE_TYPE : Z := 0.
Definition ACCESS_DENIED_ACE_TYPE : Z := 1.
Definition INHERIT_ONLY_ACE : Z := 8.

Definition STATUS_PRIVILEGE_NOT_HELD : Z := 0xc0000061.
Definition STATUS_GENERIC_NOT_MAPPED : Z := 0xc00000e6.
Definition STATUS_INVALID_SECURITY_DESCR : Z := 0xc0000079.
Definition STATUS_BUFFER_TOO_SMALL : Z := 0xc0000023.

(** The C test [x & mask]. *)
Definition has (x mask : Z) : bool := truth (Z.land x mask).

(** ** Data *)

Record sid := Sid { sid_revision : Z; sid_id_auth : list Z; sid_sub_auth : list Z }.
#[export] Instance sid_eq_dec : EqDecision sid. Proof. solve_decision. Defined.

Record luid := Luid { low_part : Z; high_part : Z }.
#[export] Instance luid_eq_dec : EqDecision luid. Proof. solve_decision. Defined.
Record luid_attr := LuidAttr { la_luid : luid; la_attrs : Z }.

Record generic_map := GenericMap { gm_read : Z; gm_write : Z; gm_exec : Z; gm_all : Z }.

Record ace := Ace { ace_type : Z; ace_flags : Z; ace_mask : Z; ace_sid : sid }.
Record security_descriptor := SecurityDescriptor {
  sd_control : Z; sd_owner : option sid; sd_group : option sid;
  sd_sacl : option (list ace); sd_dacl : option (list ace) }.

Record privilege := Privilege { p_luid : luid; p_enabled : bool; p_def : bool }.
Record group := Group { g_attrs : Z; g_sid : sid }.
Record token := Token {
  tok_privileges : list privilege; tok_groups : list group; tok_user : sid }.

Definition SeSecurityPrivilege : luid := Luid 8 0.

(** ** Helpers of object.h and security.h *)

Definition map_access (access : Z) (mapping : generic_map) : Z :=
  let access := if has access GENERIC_READ then Z.lor access (gm_read mapping) else access in
  let access := if has access GENERIC_WRITE then Z.lor access (gm_write mapping) else access in
  let access := if has access GENERIC_EXECUTE then Z.lor access (gm_exec mapping) else access in
  let access := if has access GENERIC_ALL then Z.lor access (gm_all mapping) else access in
  Z.ldiff access GENERIC_RIGHTS.

(** [memcmp] over the revision, the count of sub-authorities, and the authorities. *)
Definition equal_sid (a b : sid) : bool := bool_decide (a = b).
Definition is_equal_luid (a b : luid) : bool := bool_decide (a = b).

(** The list and whether the descriptor says it is present. *)
Definition sd_get_dacl (sd : security_descriptor) : option (list ace) * bool :=
  (sd_dacl sd, has (sd_control sd) SE_DACL_PRESENT).

(** ** Privileges *)

Fixpoint find_privilege (l : list privilege) (luid : luid) (enabled_only : bool) : option privilege :=
  match l with
  | [] => None
  | p :: l =>
      if is_equal_luid luid (p_luid p)
      then (if enabled_only && negb (p_enabled p) then None else Some p)
      else find_privilege l luid enabled_only
  end.
Definition token_find_privilege (t : token) := find_privilege (tok_privileges t).

(** The number of enabled ones and the attributes written to [usedprivs]. *)
Fixpoint count_privileges (t : token) (reqprivs : list luid_attr) : Z * list luid_attr :=
  match reqprivs with
  | [] => (0, [])
  | r :: reqprivs =>
      let '(count, used) := count_privileges t reqprivs in
      match token_find_privilege t (la_luid r) true with
      | Some p =>
          if p_enabled p
          then (count + 1, LuidAttr (la_luid r) (Z.lor (la_attrs r) SE_PRIVILEGE_USED_FOR_ACCESS) :: used)
          else (count, r :: used)
      | None => (count, r :: used)
      end
  end.
Definition token_check_privileges (t : token) (all_required : bool) (reqprivs : list luid_attr)
    : bool * list luid_attr :=
  let '(enabled_count, used) := count_privileges t reqprivs in
  (if all_required then enabled_count =? Z.of_nat (length reqprivs) else 0 <? enabled_count, used).

(** ** The access check *)

Definition token_sid_present (t : token) (s : sid) (deny : bool) : bool :=
  equal_sid (tok_user t) s ||
  existsb (λ g,
    has (g_attrs g) SE_GROUP_ENABLED &&
    negb (negb deny && has (g_attrs g) SE_GROUP_USE_FOR_DENY_ONLY) &&
    equal_sid (g_sid g) s) (tok_groups t).

(** The outputs of [token_access_check]: what it returns, [granted_access], [status] when
    it is written, [priv_count] and [privs] when the caller passes them. *)
Record access_result := AccessResult {
  ar_ret : Z; ar_granted : Z; ar_status : option Z;
  ar_priv_count : option Z; ar_privs : option luid_attr }.

(** One entry of the access list; the flag tells that it ends the scan with [goto done].
    Access masks are unsigned: [access & ~x] is [Z.ldiff access x]. *)
Definition check_ace (t : token) (mapping : generic_map) (desired : Z) (a : ace)
    (current denied : Z) : Z * Z * bool :=
  let access := map_access (ace_mask a) mapping in
  if ace_type a =? ACCESS_DENIED_ACE_TYPE then
    if token_sid_present t (ace_sid a) true then
      if has desired MAXIMUM_ALLOWED then (current, Z.lor denied access, false)
      else (current, Z.lor denied (Z.ldiff access current), has desired access)
    else (current, denied, false)
  else if ace_type a =? ACCESS_ALLOWED_ACE_TYPE then
    if token_sid_present t (ace_sid a) false then
      if has desired MAXIMUM_ALLOWED then (Z.lor current access, denied, false)
      else (Z.lor current (Z.ldiff access denied), denied, false)
    else (current, denied, false)
  else (current, denied, false).

(** The loop over the access list; [granted] is [*granted_access], which the loop reads. *)
Fixpoint check_dacl (t : token) (mapping : generic_map) (desired granted : Z) (l : list ace)
    (current denied : Z) : Z * Z :=
  match l with
  | [] => (current, denied)
  | a :: l =>
      if has (ace_flags a) INHERIT_ONLY_ACE
      then check_dacl t mapping desired granted l current denied else
      let '(current, denied, stop) := check_ace t mapping desired a current denied in
      if stop then (current, denied)
      else if desired =? granted then (current, denied)
      else check_dacl t mapping desired granted l current denied
  end.

(** The rights after the scan. *)
Definition final_access (desired current denied : Z) : Z :=
  if has desired MAXIMUM_ALLOWED then Z.ldiff current denied
  else if Z.land current desired =? desired then Z.land current desired else 0.

Definition token_access_check (t : token) (sd : security_descriptor) (desired : Z)
    (priv_count : option Z) (mapping : generic_map) : access_result :=
  let no_privs := (λ _, 0) <$> priv_count in
  if has desired GENERIC_RIGHTS then
    AccessResult STATUS_GENERIC_NOT_MAPPED 0 None no_privs None else
  let '(dacl, dacl_present) := sd_get_dacl sd in
  match sd_owner sd, sd_group sd with
  | None, _ | _, None => AccessResult STATUS_INVALID_SECURITY_DESCR 0 None no_privs None
  | Some owner, Some _ =>
      match dacl_present, dacl with
      | false, _ | _, None =>
          AccessResult STATUS_SUCCESS (if has desired MAXIMUM_ALLOWED then gm_all mapping else desired)
            (Some STATUS_SUCCESS) no_privs None
      | true, Some dacl =>
          (* the owner and the access list, once the privileges are known *)
          let check current priv_count privs :=
            let owner_present := token_sid_present t owner false in
            let current :=
              if owner_present then Z.lor current (Z.lor STANDARD_RIGHTS_REQUIRED SYNCHRONIZE)
              else current in
            if owner_present && (desired =? current) then
              AccessResult STATUS_SUCCESS current (Some STATUS_SUCCESS) priv_count privs else
            let '(current, denied) := check_dacl t mapping desired 0 dacl current 0 in
            let granted := final_access desired current denied in
            AccessResult STATUS_SUCCESS granted
              (Some (if truth granted then STATUS_SUCCESS else STATUS_ACCESS_DENIED)) priv_count privs in
          if has desired ACCESS_SYSTEM_SECURITY then
            let '(held, used) := token_check_privileges t true [LuidAttr SeSecurityPrivilege 0] in
            if negb held then
              AccessResult STATUS_SUCCESS 0 (Some STATUS_PRIVILEGE_NOT_HELD) no_privs None else
            match priv_count with
            | Some n =>
                if 1 <=? n then
                  if desired =? ACCESS_SYSTEM_SECURITY
                  then AccessResult STATUS_SUCCESS ACCESS_SYSTEM_SECURITY (Some STATUS_SUCCESS)
                         (Some 1) (head used)
                  else check ACCESS_SYSTEM_SECURITY (Some 1) (head used)
                else AccessResult STATUS_BUFFER_TOO_SMALL 0 None (Some 1) None
            | None =>
                if desired =? ACCESS_SYSTEM_SECURITY
                then AccessResult STATUS_SUCCESS ACCESS_SYSTEM_SECURITY (Some STATUS_SUCCESS) None None
                else check ACCESS_SYSTEM_SECURITY None None
            end
          else check 0 no_privs None
      end
  end.

(** [check_object_access], with the mapping method of the object and its security
    descriptor: the verdict and the new [*access]. *)
Definition check_access (t : token) (map_obj : Z → Z) (sd : option security_descriptor)
    (access : Z) : bool * Z :=
  match sd with
  | None => (true, if has access MAXIMUM_ALLOWED then map_obj GENERIC_ALL else access)
  | Some sd =>
      let mapping := GenericMap (map_obj GENERIC_READ) (map_obj GENERIC_WRITE)
                       (map_obj GENERIC_EXECUTE) (map_obj GENERIC_ALL) in
      let r := token_access_check t sd access None mapping in
      ((ar_ret r =? STATUS_SUCCESS) && bool_decide (ar_status r = Some STATUS_SUCCESS), ar_granted r)
  end.
