(* ===== verification/ServerObjects.v ===== *)
(** * The server's synchronisation objects and waits

    src/server/event.c, mutex.c, semaphore.c and the wait queues of src/server/thread.c
    (with the reference counts of object.c): the objects a handle refers to, their sync
    objects with an optional WFUSync cell, the queues of waiting threads and the
    [select] machinery.

    Pointers are keys of heaps: objects, waits and threads. A dereference of a freed
    object or wait is a failed assertion of the model. A [struct wait_queue_entry *] is a
    wait and an index in it. The handles are one map, of one process: which handle is free
    is an input of the requests that create objects, whether the table can grow an answer of
    the environment (HandleTable has the tables themselves). Threads that the server kills,
    keyed events, names, attributes and security are not modelled; a wakeup is always
    delivered. *)

From S2P Require Import Prelude.
From S2P Require Import ShmState.
From S2P Require Import Security.
From S2P Require Import WfusyncServer.

Definition STATUS_THREAD_WAS_SUSPENDED : Z := 0x40000001.
Definition MAXIMUM_WAIT_OBJECTS : Z := 64.
Definition TIMEOUT_INFINITE : Z := 0x7fffffffffffffff.
Definition SEMAPHORE_QUERY_STATE : Z := 1.
Definition ACCESS_SYNCHRONIZE : Z := 0x100000.
Definition ACCESS_EVENT_MODIFY : Z := 2.
Definition ACCESS_EVENT_QUERY : Z := 1.
Definition ACCESS_SEMAPHORE_MODIFY : Z := 2.
Definition ACCESS_MUTANT_QUERY : Z := 1.

(** [struct event_sync], [struct semaphore_sync], [struct mutex_sync] *)
Inductive sync_data :=
| EventSync (manual signaled : bool) (ws : option Z)
| SemaphoreSync (count max : Z) (ws : option Z)
| MutexSync (owner : option Z) (count : Z) (abandoned : bool) (ws : option Z).

(** What an object is; [struct event] and its siblings own a sync object. *)
Inductive obj_data :=
| Sync (d : sync_data)
| Event (sync : Z)
| Semaphore (sync : Z)
| Mutex (sync : Z).

(** [struct object]; the queue holds [struct wait_queue_entry] pointers. *)
Record object := Object {
  o_refcount : Z; o_handle_count : Z; o_wait_queue : list (Z * nat); o_data : obj_data }.

Inductive select_opcode := SELECT_NONE | SELECT_WAIT | SELECT_WAIT_ALL | SELECT_SIGNAL_AND_WAIT.

(** [flags] of a select. *)
Record select_flags := SelectFlags { sf_alertable : bool; sf_interruptible : bool; sf_cooperative : bool }.

(** [struct thread_wait]; [count] is the length of [tw_objs], the [obj] fields of its
    queue entries. *)
Record thread_wait := ThreadWait {
  tw_thread : Z; tw_flags : select_flags; tw_abandoned : bool; tw_select : select_opcode;
  tw_cookie : Z; tw_when : Z; tw_user : bool; tw_objs : list Z }.

(** [struct context]: only whether it suspends cooperatively and whether it was changed. *)
Record context := Context { cx_cooperative : bool; cx_flags : bool }.

(** [struct thread]; [t_waits] is the list of waits linked through [next]. *)
Record thread := Thread {
  t_id : Z; t_waits : list Z; t_mutex_list : list Z; t_suspend : Z; t_bypass : bool;
  t_process_suspend : Z; t_context : option context; t_suspend_cookie : Z;
  t_system_apc : bool; t_user_apc : bool }.

Record server := Server {
  sv_wfs : wfs;
  sv_objs : gmap Z object;
  sv_next_obj : Z;
  sv_waits : gmap Z thread_wait;
  sv_next_wait : Z;
  sv_threads : gmap Z thread;
  sv_wfusync_mutexes : list Z;
  sv_current : Z;
  sv_handles : gmap Z (Z * Z);     (* object and access, of the current process *)
  sv_current_time : Z;
  sv_monotonic_time : Z;
  sv_sent : list (Z * Z * Z) }.    (* wakeups written: thread, cookie, status *)

Definition on_wfs (f : wfs → wfs) (s : server) : server :=
  Server (f (sv_wfs s)) (sv_objs s) (sv_next_obj s) (sv_waits s) (sv_next_wait s) (sv_threads s)
    (sv_wfusync_mutexes s) (sv_current s) (sv_handles s) (sv_current_time s) (sv_monotonic_time s) (sv_sent s).
Definition set_objs (m : gmap Z object) (n : Z) (s : server) : server :=
  Server (sv_wfs s) m n (sv_waits s) (sv_next_wait s) (sv_threads s)
    (sv_wfusync_mutexes s) (sv_current s) (sv_handles s) (sv_current_time s) (sv_monotonic_time s) (sv_sent s).
Definition set_waits (m : gmap Z thread_wait) (n : Z) (s : server) : server :=
  Server (sv_wfs s) (sv_objs s) (sv_next_obj s) m n (sv_threads s)
    (sv_wfusync_mutexes s) (sv_current s) (sv_handles s) (sv_current_time s) (sv_monotonic_time s) (sv_sent s).
Definition set_threads (m : gmap Z thread) (s : server) : server :=
  Server (sv_wfs s) (sv_objs s) (sv_next_obj s) (sv_waits s) (sv_next_wait s) m
    (sv_wfusync_mutexes s) (sv_current s) (sv_handles s) (sv_current_time s) (sv_monotonic_time s) (sv_sent s).
Definition set_wfusync_mutexes (l : list Z) (s : server) : server :=
  Server (sv_wfs s) (sv_objs s) (sv_next_obj s) (sv_waits s) (sv_next_wait s) (sv_threads s)
    l (sv_current s) (sv_handles s) (sv_current_time s) (sv_monotonic_time s) (sv_sent s).
Definition set_handles (m : gmap Z (Z * Z)) (s : server) : server :=
  Server (sv_wfs s) (sv_objs s) (sv_next_obj s) (sv_waits s) (sv_next_wait s) (sv_threads s)
    (sv_wfusync_mutexes s) (sv_current s) m (sv_current_time s) (sv_monotonic_time s) (sv_sent s).
Definition set_sent (l : list (Z * Z * Z)) (s : server) : server :=
  Server (sv_wfs s) (sv_objs s) (sv_next_obj s) (sv_waits s) (sv_next_wait s) (sv_threads s)
    (sv_wfusync_mutexes s) (sv_current s) (sv_handles s) (sv_current_time s) (sv_monotonic_time s) l.

Definition V := M server.

(** Code of wfusync.c. *)
Definition wfu {A} (m : W A) : V A := λ s,
  match m (sv_wfs s) with
  | Done a w => Done a (on_wfs (λ _, w) s)
  | AssertFailed => AssertFailed
  | Spinning => Spinning
  | NoFuel => NoFuel
  end.

Definition sv_set_error (e : Z) : V unit := wfu (set_error e).
Definition get_error : V Z := gets (λ s, w_error (sv_wfs s)).
Definition clear_error : V unit := sv_set_error STATUS_SUCCESS.

(** Dereferences. *)
Definition deref {A} (f : server → option A) : V A := λ s,
  match f s with Some a => Done a s | None => AssertFailed end.
Definition obj (p : Z) : V object := deref (λ s, sv_objs s !! p).
Definition wait_of (w : Z) : V thread_wait := deref (λ s, sv_waits s !! w).
Definition thread_of (t : Z) : V thread := deref (λ s, sv_threads s !! t).
Definition set_obj (p : Z) (o : object) : V unit :=
  modify (λ s, set_objs (<[p := o]> (sv_objs s)) (sv_next_obj s) s).
Definition set_wait (w : Z) (v : thread_wait) : V unit :=
  modify (λ s, set_waits (<[w := v]> (sv_waits s)) (sv_next_wait s) s).
Definition set_thread (t : Z) (v : thread) : V unit :=
  modify (λ s, set_threads (<[t := v]> (sv_threads s)) s).
Definition update_obj (p : Z) (f : object → object) : V unit := o ← obj p; set_obj p (f o).
Definition update_wait (w : Z) (f : thread_wait → thread_wait) : V unit := v ← wait_of w; set_wait w (f v).
Definition update_thread (t : Z) (f : thread → thread) : V unit := v ← thread_of t; set_thread t (f v).

Definition with_refcount (n : Z) (o : object) : object :=
  Object n (o_handle_count o) (o_wait_queue o) (o_data o).
Definition with_handle_count (n : Z) (o : object) : object :=
  Object (o_refcount o) n (o_wait_queue o) (o_data o).
Definition with_queue (q : list (Z * nat)) (o : object) : object :=
  Object (o_refcount o) (o_handle_count o) q (o_data o).
Definition with_data (d : sync_data) (o : object) : object :=
  Object (o_refcount o) (o_handle_count o) (o_wait_queue o) (Sync d).
Definition with_waits (l : list Z) (t : thread) : thread :=
  Thread (t_id t) l (t_mutex_list t) (t_suspend t) (t_bypass t) (t_process_suspend t) (t_context t)
    (t_suspend_cookie t) (t_system_apc t) (t_user_apc t).
Definition with_mutex_list (l : list Z) (t : thread) : thread :=
  Thread (t_id t) (t_waits t) l (t_suspend t) (t_bypass t) (t_process_suspend t) (t_context t)
    (t_suspend_cookie t) (t_system_apc t) (t_user_apc t).
Definition with_context (c : option context) (t : thread) : thread :=
  Thread (t_id t) (t_waits t) (t_mutex_list t) (t_suspend t) (t_bypass t) (t_process_suspend t) c
    (t_suspend_cookie t) (t_system_apc t) (t_user_apc t).
Definition with_abandoned (v : thread_wait) : thread_wait :=
  ThreadWait (tw_thread v) (tw_flags v) true (tw_select v) (tw_cookie v) (tw_when v) (tw_user v) (tw_objs v).
Definition with_cookie (c : Z) (v : thread_wait) : thread_wait :=
  ThreadWait (tw_thread v) (tw_flags v) (tw_abandoned v) (tw_select v) c (tw_when v) (tw_user v) (tw_objs v).
Definition with_user (u : bool) (v : thread_wait) : thread_wait :=
  ThreadWait (tw_thread v) (tw_flags v) (tw_abandoned v) (tw_select v) (tw_cookie v) (tw_when v) u (tw_objs v).
Definition with_objs (l : list Z) (v : thread_wait) : thread_wait :=
  ThreadWait (tw_thread v) (tw_flags v) (tw_abandoned v) (tw_select v) (tw_cookie v) (tw_when v) (tw_user v) l.

(** ** Objects and references (object.c) *)

Definition alloc_object (d : obj_data) : V (option Z) :=
  ok ← wfu mem_alloc_ok;
  if negb ok then mret None else
  p ← gets sv_next_obj;
  _ ← modify (λ s, set_objs (<[p := Object 1 0 [] d]> (sv_objs s)) (p + 1) s);
  mret (Some p).

Definition grab_object (p : Z) : V unit :=
  o ← obj p;
  _ ← c_assert (o_refcount o <? INT_MAX);
  set_obj p (with_refcount (o_refcount o + 1) o).

Definition free_object (p : Z) : V unit :=
  modify (λ s, set_objs (delete p (sv_objs s)) (sv_next_obj s) s).

Definition remove_first (x : Z) (l : list Z) : list Z := list_difference l [x].

Section objects.
Context `{PageSize}.

(** The sync object of this type at [p]. *)
Definition sync_of (p : Z) : V sync_data :=
  o ← obj p;
  match o_data o with Sync d => mret d | _ => _ ← c_assert false; no_fuel end.

Definition event_sync_destroy (ws : option Z) : V unit :=
  match ws with Some q => wfu (wfusync_destroy (Some q)) | None => mret tt end.
Definition semaphore_sync_destroy (ws : option Z) : V unit :=
  match ws with Some q => wfu (wfusync_destroy (Some q)) | None => mret tt end.
Definition mutex_sync_destroy (p count : Z) (ws : option Z) : V unit :=
  _ ← (match ws with
       | Some q =>
           _ ← modify (λ s, set_wfusync_mutexes (remove_first p (sv_wfusync_mutexes s)) s);
           wfu (wfusync_destroy (Some q))
       | None => mret tt
       end);
  c_assert (count =? 0).

(** [release_object]; the destroy method of an event, semaphore or mutex releases its
    sync object, which owns nothing further: two levels are enough. *)
Fixpoint release_levels (levels : nat) (p : Z) : V unit :=
  match levels with
  | O => no_fuel
  | S levels =>
      o ← obj p;
      _ ← c_assert (truth (o_refcount o));
      _ ← set_obj p (with_refcount (o_refcount o - 1) o);
      if truth (o_refcount o - 1) then mret tt else
      _ ← c_assert (o_handle_count o =? 0);
      _ ← c_assert (bool_decide (o_wait_queue o = []));
      _ ← (match o_data o with
           | Sync (EventSync _ _ ws) => event_sync_destroy ws
           | Sync (SemaphoreSync _ _ ws) => semaphore_sync_destroy ws
           | Sync (MutexSync _ count _ ws) => mutex_sync_destroy p count ws
           | Event sync | Semaphore sync | Mutex sync => release_levels levels sync
           end);
      free_object p
  end.
Definition release_object : Z → V unit := release_levels 2.

(** [release_object_from_handle] *)
Definition release_object_from_handle (p : Z) : V unit :=
  o ← obj p;
  _ ← c_assert (truth (o_handle_count o));
  _ ← set_obj p (with_handle_count (o_handle_count o - 1) o);
  release_object p.

(** [get_obj_sync]: the [get_sync] methods of the three objects grab their sync. *)
Definition get_obj_sync (p : Z) : V Z :=
  o ← obj p;
  match o_data o with
  | Sync _ => _ ← grab_object p; mret p
  | Event sync | Semaphore sync | Mutex sync => _ ← grab_object sync; mret sync
  end.

(** [get_handle_obj], with the test of the operations table as a predicate on the data. *)
Definition get_handle_obj (handle access : Z) (is_type : obj_data → bool) : V (option Z) :=
  handles ← gets sv_handles;
  match handles !! handle with
  | None => _ ← sv_set_error STATUS_INVALID_HANDLE; mret None
  | Some (p, granted) =>
      o ← obj p;
      if negb (is_type (o_data o)) then _ ← sv_set_error STATUS_OBJECT_TYPE_MISMATCH; mret None
      else if negb (Z.land granted access =? access)
      then _ ← sv_set_error STATUS_ACCESS_DENIED; mret None
      else _ ← grab_object p; mret (Some p)
  end.
(** [get_handle_access]: ~RESERVED_ALL on unsigned int. *)
Definition get_handle_access (handle : Z) : V Z :=
  handles ← gets sv_handles;
  mret (match handles !! handle with
        | None => 0
        | Some (_, access) => Z.land access (u32 (Z.lnot RESERVED_ALL))
        end).
Definition is_event (d : obj_data) : bool := match d with Event _ => true | _ => false end.
Definition is_semaphore (d : obj_data) : bool := match d with Semaphore _ => true | _ => false end.
Definition is_mutex (d : obj_data) : bool := match d with Mutex _ => true | _ => false end.
Definition any_type (_ : obj_data) : bool := true.

(** ** Wait queues (thread.c) *)

Definition add_queue (p : Z) (entry : Z * nat) : V unit :=
  update_obj p (λ o, with_queue (o_wait_queue o ++ [entry]) o).
Definition remove_queue (p : Z) (entry : Z * nat) : V unit :=
  update_obj p (λ o, with_queue (list_difference (o_wait_queue o) [entry]) o).

Definition get_wait_queue_thread (entry : Z * nat) : V Z := w ← wait_of entry.1; mret (tw_thread w).
Definition make_wait_abandoned (entry : Z * nat) : V unit := update_wait entry.1 with_abandoned.
(** [get_wait_queue_thread( entry )->id] *)
Definition entry_thread_id (entry : Z * nat) : V Z :=
  t ← get_wait_queue_thread entry; t ← thread_of t; mret (t_id t).

Definition is_thread_suspended (t : thread) : bool :=
  match t_context t with
  | Some (Context true _) => false
  | _ => truth (t_suspend t) || (negb (t_bypass t) && truth (t_process_suspend t))
  end.

Definition sync_ws (d : sync_data) : option Z :=
  match d with EventSync _ _ ws | SemaphoreSync _ _ ws | MutexSync _ _ _ ws => ws end.

(** The [add_queue] and [remove_queue] methods, which are the same for the three. *)
Definition sync_add_queue (p : Z) (entry : Z * nat) : V unit :=
  d ← sync_of p;
  _ ← (match sync_ws d with
       | Some q => wfu (wfusync_add_server_waiter (Some q))
       | None => mret tt
       end);
  add_queue p entry.
Definition sync_remove_queue (p : Z) (entry : Z * nat) : V unit :=
  d ← sync_of p;
  _ ← (match sync_ws d with
       | Some q => wfu (wfusync_remove_server_waiter (Some q))
       | None => mret tt
       end);
  remove_queue p entry.

(** [grab a mutex for a given thread] *)
Definition do_grab (p t : Z) : V unit :=
  d ← sync_of p;
  match d with
  | MutexSync owner count abandoned ws =>
      _ ← c_assert ((count =? 0) || bool_decide (owner = Some t));
      if count =? 0 then
        _ ← c_assert (bool_decide (owner = None));
        _ ← update_obj p (with_data (MutexSync owner (u32 (count + 1)) abandoned ws));
        _ ← grab_object p;
        _ ← update_obj p (with_data (MutexSync (Some t) (u32 (count + 1)) abandoned ws));
        update_thread t (λ v, with_mutex_list (p :: t_mutex_list v) v)
      else update_obj p (with_data (MutexSync owner (u32 (count + 1)) abandoned ws))
  | _ => _ ← c_assert false; mret tt
  end.

(** The [signaled] methods. *)
Definition sync_signaled (p : Z) (entry : Z * nat) : V bool :=
  d ← sync_of p;
  match d with
  | EventSync _ signaled (Some q) => wfu (wfusync_event_signaled (Some q))
  | EventSync _ signaled None => mret signaled
  | SemaphoreSync _ _ (Some q) => wfu (wfusync_semaphore_signaled (Some q))
  | SemaphoreSync count _ None => mret (0 <? count)
  | MutexSync _ _ _ (Some q) => tid ← entry_thread_id entry; wfu (wfusync_mutex_signaled (Some q) tid)
  | MutexSync owner count _ None =>
      t ← get_wait_queue_thread entry; mret ((count =? 0) || bool_decide (owner = Some t))
  end.

(** The [satisfied] methods. *)
Definition event_sync_satisfied (p : Z) (manual signaled : bool) (ws : option Z) : V unit :=
  _ ← (match ws with Some q => wfu (wfusync_event_satisfied (Some q)) | None => mret tt end);
  when (negb manual) (update_obj p (with_data (EventSync manual false ws))).
Definition semaphore_sync_satisfied (p count max : Z) (ws : option Z) : V unit :=
  match ws with
  | Some q => wfu (wfusync_semaphore_satisfied (Some q))
  | None =>
      _ ← c_assert (truth count);
      update_obj p (with_data (SemaphoreSync (count - 1) max ws))
  end.
Definition mutex_sync_satisfied (p : Z) (ws : option Z) (entry : Z * nat) : V unit :=
  match ws with
  | Some q =>
      tid ← entry_thread_id entry;
      r ← wfu (wfusync_mutex_satisfied (Some q) tid);
      when (bool_decide (r = Some true)) (make_wait_abandoned entry)
  | None =>
      t ← get_wait_queue_thread entry;
      _ ← do_grab p t;
      d ← sync_of p;
      match d with
      | MutexSync owner count abandoned ws =>
          _ ← when abandoned (make_wait_abandoned entry);
          update_obj p (with_data (MutexSync owner count false ws))
      | _ => _ ← c_assert false; mret tt
      end
  end.
Definition sync_satisfied (p : Z) (entry : Z * nat) : V unit :=
  d ← sync_of p;
  match d with
  | EventSync manual signaled ws => event_sync_satisfied p manual signaled ws
  | SemaphoreSync count max ws => semaphore_sync_satisfied p count max ws
  | MutexSync _ _ _ ws => mutex_sync_satisfied p ws entry
  end.

Definition object_sync_satisfied (p : Z) (entry : Z * nat) : V unit :=
  sync ← get_obj_sync p; _ ← sync_satisfied sync entry; release_object sync.
Definition object_sync_remove_queue (p : Z) (entry : Z * nat) : V unit :=
  sync ← get_obj_sync p; _ ← sync_remove_queue sync entry; release_object sync.
Definition object_sync_add_queue (p : Z) (entry : Z * nat) : V unit :=
  sync ← get_obj_sync p; _ ← sync_add_queue sync entry; release_object sync.
Definition object_sync_signaled (p : Z) (entry : Z * nat) : V bool :=
  sync ← get_obj_sync p; r ← sync_signaled sync entry; _ ← release_object sync; mret r.
End objects.

(** ** Waiting and waking *)

Section waits.
Context `{PageSize}.

(** The entries of a wait with their objects. *)
Definition entries_of_wait (w : Z) (v : thread_wait) : list ((Z * nat) * Z) :=
  imap (λ i p, ((w, i), p)) (tw_objs v).

Definition STATUS_THREAD_IS_TERMINATING : Z := 0xc000004b.

(** [end_wait]: [status] is unsigned. *)
Definition end_wait (t status : Z) : V Z :=
  v ← thread_of t;
  match t_waits v with
  | [] => _ ← c_assert false; mret status
  | w :: next =>
      _ ← set_thread t (with_waits next v);
      wait ← wait_of w;
      let entries := entries_of_wait w wait in
      status ← (if status <? Z.of_nat (length (tw_objs wait)) then
        _ ← (match tw_select wait with
             | SELECT_WAIT_ALL => for_each entries (λ e, object_sync_satisfied e.2 e.1)
             | _ => match entries !! Z.to_nat status with
                    | Some e => object_sync_satisfied e.2 e.1
                    | None => _ ← c_assert false; mret tt
                    end
             end);
        wait ← wait_of w;
        mret (if tw_abandoned wait then u32 (status + STATUS_ABANDONED_WAIT_0) else status)
        else mret status);
      _ ← for_each entries (λ e, _ ← object_sync_remove_queue e.2 e.1; release_object e.2);
      _ ← modify (λ s, set_waits (delete w (sv_waits s)) (sv_next_wait s) s);
      mret status
  end.

(** One turn of the loop of [wait_on]. *)
Definition queue_object (w p : Z) : V unit :=
  v ← wait_of w;
  _ ← object_sync_add_queue p (w, length (tw_objs v));
  _ ← grab_object p;
  update_wait w (λ v, with_objs (tw_objs v ++ [p]) v).

Definition wait_on (select : select_opcode) (objects : list Z) (flags : select_flags) (when_ : Z) : V bool :=
  t ← gets sv_current;
  ok ← wfu mem_alloc_ok;
  if negb ok then mret false else
  w ← gets sv_next_wait;
  _ ← modify (λ s, set_waits (<[w := ThreadWait t flags false select 0 when_ false []]> (sv_waits s)) (w + 1) s);
  _ ← update_thread t (λ v, with_waits (w :: t_waits v) v);
  _ ← for_each objects (queue_object w);
  v ← thread_of t;
  mret (negb (bool_decide (t_waits v = []))).

(** The objects of the handles, up to the first one that fails. *)
Fixpoint get_objects (handles : list Z) : V (list Z * bool) :=
  match handles with
  | [] => mret ([], true)
  | h :: handles =>
      r ← get_handle_obj h ACCESS_SYNCHRONIZE any_type;
      match r with
      | None => mret ([], false)
      | Some p => rest ← get_objects handles; mret (p :: rest.1, rest.2)
      end
  end.
Definition wait_on_handles (select : select_opcode) (handles : list Z) (flags : select_flags) (when_ : Z) :
    V bool :=
  _ ← c_assert (Z.of_nat (length handles) <=? MAXIMUM_WAIT_OBJECTS);
  r ← get_objects handles;
  ret ← (if r.2 : bool then wait_on select r.1 flags when_ else mret false);
  _ ← for_each (rev r.1) release_object;
  mret ret.

(** The two loops of [check_wait] over the entries. *)
Fixpoint all_signaled (entries : list ((Z * nat) * Z)) : V bool :=
  match entries with
  | [] => mret true
  | e :: entries =>
      signaled ← object_sync_signaled e.2 e.1;
      rest ← all_signaled entries; mret (signaled && rest)
  end.
Definition first_signaled (entries : list ((Z * nat) * Z)) : V (option Z) :=
  for_until entries (λ e,
    signaled ← object_sync_signaled e.2 e.1;
    mret (if (signaled : bool) then Some (Z.of_nat e.1.2) else None)).

(** The part of [check_wait] after its tests for suspension. *)
Definition check_objects (v : thread) (w : Z) (wait : thread_wait) : V (option Z) :=
  if is_thread_suspended v then mret None else
  let entries := entries_of_wait w wait in
  r ← (match tw_select wait with
       | SELECT_WAIT_ALL =>
           ok ← all_signaled entries; mret (if (ok : bool) then Some STATUS_WAIT_0 else None)
       | _ => first_signaled entries
       end);
  match r with
  | Some status => mret (Some status)
  | None =>
      if sf_alertable (tw_flags wait) && t_user_apc v then mret (Some STATUS_USER_APC) else
      now ← gets sv_current_time;
      mono ← gets sv_monotonic_time;
      mret (if ((0 <=? tw_when wait) && (tw_when wait <=? now)) ||
               ((tw_when wait <? 0) && (- tw_when wait <=? mono))
            then Some STATUS_TIMEOUT else None)
  end.

(** [check_wait]: None is -1. *)
Definition check_wait (t : Z) : V (option Z) :=
  v ← thread_of t;
  match t_waits v with
  | [] => _ ← c_assert false; mret None
  | w :: _ =>
      wait ← wait_of w;
      if sf_interruptible (tw_flags wait) && t_system_apc v then mret (Some STATUS_KERNEL_APC) else
      match t_context v, sf_cooperative (tw_flags wait) with
      | Some c, true =>
          _ ← set_thread t (with_context (Some (Context true (cx_flags c))) v);
          mret (Some STATUS_THREAD_WAS_SUSPENDED)
      | _, _ => check_objects v w wait
      end
  end.

(** [send_thread_wakeup], with a write that succeeds. *)
Definition send_thread_wakeup (t cookie signaled : Z) : V unit :=
  v ← thread_of t;
  signaled ← (match t_context v with
    | Some c =>
        if (t_suspend_cookie v =? cookie) && negb (signaled =? STATUS_KERNEL_APC) &&
           negb (signaled =? STATUS_USER_APC)
        then if negb (cx_flags c) then _ ← set_thread t (with_context None v); mret signaled
             else mret STATUS_KERNEL_APC
        else mret signaled
    | None => mret signaled
    end);
  modify (λ s, set_sent ((t, cookie, signaled) :: sv_sent s) s).

(** [wake_thread]: the loop ends a wait of the thread in every turn. *)
Fixpoint wake_thread_loop (fuel : nat) (t count : Z) : V Z :=
  v ← thread_of t;
  match t_waits v with
  | [] => mret count
  | w :: _ =>
      r ← check_wait t;
      match r with
      | None => mret count
      | Some signaled =>
          match fuel with
          | O => no_fuel
          | S fuel =>
              wait ← wait_of w;
              signaled ← end_wait t signaled;
              _ ← when (truth (tw_cookie wait)) (send_thread_wakeup t (tw_cookie wait) signaled);
              wake_thread_loop fuel t (count + 1)
          end
      end
  end.
Definition wake_thread (t : Z) : V Z :=
  v ← thread_of t; wake_thread_loop (length (t_waits v)) t 0.

(** One pass of [wake_up] over the queue, up to the first thread that wakes. *)
Fixpoint wake_first (queue : list (Z * nat)) : V bool :=
  match queue with
  | [] => mret false
  | entry :: queue =>
      t ← get_wait_queue_thread entry;
      ret ← wake_thread t;
      if ret =? 0 then wake_first queue else mret true
  end.
(** [wake_up]: every pass but the last ends a wait. *)
Fixpoint wake_up_loop (fuel : nat) (p max : Z) : V unit :=
  o ← obj p;
  woken ← wake_first (o_wait_queue o);
  if negb woken then mret tt
  else if max =? 1 then mret tt else
  match fuel with
  | O => no_fuel
  | S fuel => wake_up_loop fuel p (if max =? 0 then 0 else max - 1)
  end.
Definition wake_up (p max : Z) : V unit :=
  waits ← gets sv_waits; wake_up_loop (size waits) p max.

(** [thread_timeout] *)
Definition thread_timeout (w : Z) : V unit :=
  wait ← wait_of w;
  let t := tw_thread wait in
  _ ← set_wait w (with_user false wait);
  v ← thread_of t;
  if negb (bool_decide (head (t_waits v) = Some w)) then mret tt
  else if is_thread_suspended v then mret tt else
  _ ← end_wait t STATUS_TIMEOUT;
  _ ← c_assert (truth (tw_cookie wait));
  _ ← send_thread_wakeup t (tw_cookie wait) STATUS_TIMEOUT;
  _ ← wake_thread t; mret tt.
End waits.

(** ** Signaling *)

Section signaling.
Context `{PageSize}.

(** Releases a mutex that has no cell: [do_release]. *)
Definition do_release (p t count : Z) : V bool :=
  d ← sync_of p;
  match d with
  | MutexSync owner c abandoned ws =>
      if (c =? 0) || negb (bool_decide (owner = Some t)) then
        _ ← sv_set_error STATUS_MUTANT_NOT_OWNED; mret false
      else
        let c := u32 (c - count) in
        _ ← update_obj p (with_data (MutexSync owner c abandoned ws));
        _ ← when (c =? 0)
              (_ ← update_thread t (λ v, with_mutex_list (remove_first p (t_mutex_list v)) v);
               _ ← update_obj p (with_data (MutexSync None c abandoned ws));
               _ ← wake_up p 0;
               release_object p);
        mret true
  | _ => _ ← c_assert false; mret false
  end.

(** [event_sync_signal]: all waiters of a manual-reset event are tried, one otherwise. *)
Definition event_sync_signal (p : Z) (signal : bool) : V unit :=
  d ← sync_of p;
  match d with
  | EventSync manual _ ws =>
      _ ← update_obj p (with_data (EventSync manual signal ws));
      match ws with
      | Some q =>
          _ ← wfu (if signal then wfusync_set_event (Some q) else wfusync_reset_event (Some q));
          wake_up p (b2z (negb manual))
      | None => when signal (wake_up p (b2z (negb manual)))
      end
  | _ => _ ← c_assert false; mret tt
  end.

(** [wfusync_wake_waiters( wfusync_get_index( ... ) )] *)
Definition wake_registered (q : Z) : V unit :=
  idx ← wfu (wfusync_get_index (Some q)); _ ← wfu (wfusync_wake_waiters idx); mret tt.

(** [release_semaphore] of semaphore.c; the result carries what is stored to [*prev]. *)
Definition release_semaphore (p count : Z) : V (bool * option Z) :=
  d ← sync_of p;
  match d with
  | SemaphoreSync _ _ (Some q) =>
      r ← wfu (wfusync_release_semaphore (Some q) count);
      match r with
      | None => mret (false, None)
      | Some old_count =>
          let old_count := u32 old_count in
          _ ← when (old_count =? 0) (_ ← wake_up p (s32 count); wake_registered q);
          mret (true, Some old_count)
      end
  | SemaphoreSync c max None =>
      if (u32 (c + count) <? c) || (max <? u32 (c + count)) then
        _ ← sv_set_error STATUS_SEMAPHORE_LIMIT_EXCEEDED; mret (false, Some c)
      else if truth c then
        _ ← update_obj p (with_data (SemaphoreSync (u32 (c + count)) max None)); mret (true, Some c)
      else
        _ ← update_obj p (with_data (SemaphoreSync count max None));
        _ ← wake_up p (s32 count);
        mret (true, Some c)
  | _ => _ ← c_assert false; mret (false, None)
  end.

(** The [signal] methods that [signal_object] calls. *)
Definition event_signal (sync access : Z) : V bool :=
  if negb (truth (Z.land access ACCESS_EVENT_MODIFY)) then
    _ ← sv_set_error STATUS_ACCESS_DENIED; mret false
  else _ ← event_sync_signal sync true; mret true.
Definition semaphore_signal (sync access : Z) : V bool :=
  if negb (truth (Z.land access ACCESS_SEMAPHORE_MODIFY)) then
    _ ← sv_set_error STATUS_ACCESS_DENIED; mret false
  else r ← release_semaphore sync 1; mret r.1.
Definition mutex_signal (sync access : Z) : V bool :=
  if negb (truth (Z.land access ACCESS_SYNCHRONIZE)) then
    _ ← sv_set_error STATUS_ACCESS_DENIED; mret false else
  d ← sync_of sync;
  cur ← gets sv_current;
  match d with
  | MutexSync _ _ _ (Some q) =>
      v ← thread_of cur;
      r ← wfu (wfusync_release_mutex (Some q) (t_id v));
      match r with
      | None => mret false
      | Some prev => _ ← when (prev =? 1) (wake_up sync 0); mret true
      end
  | MutexSync _ _ _ None => do_release sync cur 1
  | _ => _ ← c_assert false; mret false
  end.

Definition signal_object (handle : Z) : V bool :=
  r ← get_handle_obj handle 0 any_type;
  match r with
  | None => mret false
  | Some p =>
      access ← get_handle_access handle;
      o ← obj p;
      ret ← (match o_data o with
             | Event sync => event_signal sync access
             | Semaphore sync => semaphore_signal sync access
             | Mutex sync => mutex_signal sync access
             | Sync (EventSync _ _ _) => _ ← event_sync_signal p true; mret true
             | Sync _ => _ ← sv_set_error STATUS_OBJECT_TYPE_MISMATCH; mret false
             end);
      _ ← release_object p;
      mret ret
  end.

(** ** Select *)

Inductive select_op :=
| OpNone
| OpWait (handles : list Z)
| OpWaitAll (handles : list Z)
| OpSignalAndWait (wait signal : Z).

(** The tail of [select_on], once the current thread waits. *)
Definition select_check (cookie : Z) : V bool :=
  cur ← gets sv_current;
  r ← check_wait cur;
  match r with
  | Some status => status ← end_wait cur status; _ ← sv_set_error status; mret true
  | None =>
      v ← thread_of cur;
      match t_waits v with
      | [] => _ ← c_assert false; mret true
      | w :: _ =>
          wait ← wait_of w;
          armed ← (if tw_when wait =? TIMEOUT_INFINITE then mret true else
            ok ← wfu mem_alloc_ok;
            _ ← update_wait w (with_user ok); mret ok);
          if negb armed then e ← get_error; _ ← end_wait cur e; mret true else
          _ ← update_wait w (with_cookie cookie);
          _ ← sv_set_error STATUS_PENDING;
          mret false
      end
  end.

Definition select_on (op : select_op) (cookie : Z) (flags : select_flags) (when_ : Z) : V bool :=
  match op with
  | OpNone =>
      ok ← wait_on SELECT_NONE [] flags when_;
      if negb ok then mret true else select_check cookie
  | OpWait handles | OpWaitAll handles =>
      if MAXIMUM_WAIT_OBJECTS <? Z.of_nat (length handles) then
        _ ← sv_set_error STATUS_INVALID_PARAMETER; mret true else
      ok ← wait_on_handles (match op with OpWaitAll _ => SELECT_WAIT_ALL | _ => SELECT_WAIT end)
             handles flags when_;
      if negb ok then mret true else select_check cookie
  | OpSignalAndWait wait signal =>
      ok ← wait_on_handles SELECT_SIGNAL_AND_WAIT [wait] flags when_;
      if negb ok then mret true else
      if signal =? 0 then select_check cookie else
      signaled ← signal_object signal;
      cur ← gets sv_current;
      if negb signaled then e ← get_error; _ ← end_wait cur e; mret true else
      v ← thread_of cur;
      if bool_decide (t_waits v = []) then mret true else select_check cookie
  end.
End signaling.

(** ** Creation and requests *)

Section requests.
Context `{PageSize}.

(** [inproc && do_wfusync() && !(... = create_wfusync( ... ))] and [clear_error]. *)
Definition create_cell (inproc : bool) (low high type : Z) : V (option Z) :=
  enabled ← gets (λ s, w_do_wfusync (sv_wfs s));
  if inproc && enabled then
    r ← wfu (create_wfusync low high type);
    _ ← when (bool_decide (r = None)) clear_error;
    mret r
  else mret None.

Definition set_sync (p : Z) (d : sync_data) : V unit := update_obj p (with_data d).

Definition create_event_sync (manual signaled inproc : bool) : V (option Z) :=
  r ← alloc_object (Sync (EventSync manual signaled None));
  match r with
  | None => mret None
  | Some p =>
      ws ← create_cell inproc (b2z signaled) (b2z manual) INPROC_SYNC_EVENT;
      _ ← set_sync p (EventSync manual signaled ws); mret (Some p)
  end.
Definition create_internal_sync (manual signaled : bool) : V (option Z) :=
  alloc_object (Sync (EventSync manual signaled None)).

Definition create_semaphore_sync (initial max : Z) (inproc : bool) : V (option Z) :=
  r ← alloc_object (Sync (SemaphoreSync initial max None));
  match r with
  | None => mret None
  | Some p =>
      ws ← create_cell inproc initial max INPROC_SYNC_SEMAPHORE;
      _ ← set_sync p (SemaphoreSync initial max ws); mret (Some p)
  end.

Definition create_mutex_sync (owned inproc : bool) : V (option Z) :=
  r ← alloc_object (Sync (MutexSync None 0 false None));
  match r with
  | None => mret None
  | Some p =>
      cur ← gets sv_current;
      v ← thread_of cur;
      ws ← create_cell inproc (if owned then t_id v else 0) (b2z owned) INPROC_SYNC_MUTEX;
      match ws with
      | Some _ =>
          _ ← set_sync p (MutexSync None 0 false ws);
          _ ← modify (λ s, set_wfusync_mutexes (sv_wfusync_mutexes s ++ [p]) s);
          mret (Some p)
      | None => _ ← when owned (do_grab p cur); mret (Some p)
      end
  end.

(** An unnamed object around a sync; without the sync the new object is released again. *)
Definition create_object (create_sync : V (option Z)) (wrap : Z → obj_data) : V (option Z) :=
  ok ← wfu mem_alloc_ok;
  if negb ok then mret None else
  sync ← create_sync;
  match sync with
  | None => mret None
  | Some sync =>
      p ← gets sv_next_obj;
      _ ← modify (λ s, set_objs (<[p := Object 1 0 [] (wrap sync)]> (sv_objs s)) (p + 1) s);
      mret (Some p)
  end.
Definition event_init (manual initial : bool) : V (option Z) := create_event_sync manual initial true.
Definition semaphore_init (initial max : Z) : V (option Z) := create_semaphore_sync initial max true.
Definition mutex_init (owned : bool) : V (option Z) := create_mutex_sync owned true.

(** The [mapping] of [event_type], [semaphore_type] and [mutex_type]; sync objects have no
    handles of their own. *)
Definition STANDARD_RIGHTS_READ : Z := 0x20000.
Definition object_mapping (d : obj_data) : generic_map :=
  let all := Z.lor STANDARD_RIGHTS_REQUIRED SYNCHRONIZE in
  let standard := STANDARD_RIGHTS_READ in
  match d with
  | Sync _ => GenericMap 0 0 0 0
  | Event _ => GenericMap (Z.lor standard ACCESS_EVENT_QUERY) (Z.lor standard ACCESS_EVENT_MODIFY)
                 (Z.lor standard SYNCHRONIZE) (Z.lor all 3)
  | Semaphore _ => GenericMap (Z.lor standard SEMAPHORE_QUERY_STATE)
                     (Z.lor standard ACCESS_SEMAPHORE_MODIFY) (Z.lor standard SYNCHRONIZE) (Z.lor all 3)
  | Mutex _ => GenericMap (Z.lor standard ACCESS_MUTANT_QUERY) standard
                 (Z.lor standard SYNCHRONIZE) (Z.lor all ACCESS_MUTANT_QUERY)
  end.

(** [grow_handle_table]: whether the table can grow when it has to is the environment's
    answer. *)
Definition grow_handle_table : V bool :=
  r ← wfu syscall;
  if sys_ok r then mret true else _ ← sv_set_error STATUS_INSUFFICIENT_RESOURCES; mret false.

(** The entry [handle] is the one the table has free; 0 when there is none. *)
Definition alloc_handle_no_access_check (p handle access : Z) : V Z :=
  o ← obj p;
  let access := if truth (Z.land access MAXIMUM_ALLOWED) then GENERIC_ALL else access in
  let access := Z.ldiff (map_access access (object_mapping (o_data o))) RESERVED_ALL in
  grown ← grow_handle_table;
  if negb grown then mret 0 else
  _ ← grab_object p;
  _ ← update_obj p (λ o, with_handle_count (o_handle_count o + 1) o);
  _ ← modify (λ s, set_handles (<[handle := (p, access)]> (sv_handles s)) s);
  mret handle.

(** [create_named_obj_handle] for an object without a name: the new object gets a handle,
    and the creation's own reference goes, so that the object dies if there is no handle. *)
Definition create_obj_handle (create : V (option Z)) (handle access : Z) : V Z :=
  r ← create;
  match r with
  | None => mret 0
  | Some p =>
      handle ← alloc_handle_no_access_check p handle access;
      _ ← release_object p;
      mret handle
  end.
Definition close_handle (handle : Z) : V Z :=
  handles ← gets sv_handles;
  match handles !! handle with
  | None => mret STATUS_INVALID_HANDLE
  | Some (p, access) =>
      if truth (Z.land access RESERVED_CLOSE_PROTECT) then mret STATUS_HANDLE_NOT_CLOSABLE else
      _ ← modify (set_handles (delete handle handles));
      _ ← release_object_from_handle p;
      mret STATUS_SUCCESS
  end.
Definition req_close_handle (handle : Z) : V unit := err ← close_handle handle; sv_set_error err.

Definition req_create_event (handle access : Z) (manual initial : bool) : V Z :=
  create_obj_handle (create_object (event_init manual initial) Event) handle access.
Definition req_create_semaphore (handle access initial max : Z) : V Z :=
  if (max =? 0) || (max <? initial) then _ ← sv_set_error STATUS_INVALID_PARAMETER; mret 0
  else create_obj_handle (create_object (semaphore_init initial max) Semaphore) handle access.
Definition req_create_mutex (handle access : Z) (owned : bool) : V Z :=
  create_obj_handle (create_object (mutex_init owned) Mutex) handle access.

(** The sync object of a typed object. *)
Definition obj_sync_ptr (p : Z) : V Z :=
  o ← obj p;
  match o_data o with
  | Event sync | Semaphore sync | Mutex sync => mret sync
  | Sync _ => mret p
  end.

(** What the cell says, or None. *)
Definition cell_event_state (ws : option Z) : V (option (Z * Z)) :=
  match ws with None => mret None | Some q => wfu (wfusync_get_event_state (Some q)) end.

Inductive event_operation := PULSE_EVENT | SET_EVENT | RESET_EVENT | OTHER_EVENT_OP.

Definition set_event (sync : Z) : V unit := event_sync_signal sync true.
Definition reset_event (sync : Z) : V unit := event_sync_signal sync false.

(** [event_op] yields the previous state. *)
Definition req_event_op (handle : Z) (op : event_operation) : V (option Z) :=
  r ← get_handle_obj handle ACCESS_EVENT_MODIFY is_event;
  match r with
  | None => mret None
  | Some p =>
      sync ← obj_sync_ptr p;
      d ← sync_of sync;
      match d with
      | EventSync _ signaled ws =>
          r ← cell_event_state ws;
          let state := match r with Some (_, low) => low | None => b2z signaled end in
          _ ← (match op with
               | PULSE_EVENT => _ ← set_event sync; reset_event sync
               | SET_EVENT => set_event sync
               | RESET_EVENT => reset_event sync
               | OTHER_EVENT_OP => sv_set_error STATUS_INVALID_PARAMETER
               end);
          _ ← release_object p;
          mret (Some state)
      | _ => _ ← c_assert false; mret None
      end
  end.

(** [query_event] yields manual and signaled. *)
Definition req_query_event (handle : Z) : V (option (Z * Z)) :=
  r ← get_handle_obj handle ACCESS_EVENT_QUERY is_event;
  match r with
  | None => mret None
  | Some p =>
      sync ← obj_sync_ptr p;
      d ← sync_of sync;
      match d with
      | EventSync manual signaled ws =>
          r ← cell_event_state ws;
          _ ← release_object p;
          mret (Some (match r with Some state => state | None => (b2z manual, b2z signaled) end))
      | _ => _ ← c_assert false; mret None
      end
  end.

Definition req_release_semaphore (handle count : Z) : V (option Z) :=
  r ← get_handle_obj handle ACCESS_SEMAPHORE_MODIFY is_semaphore;
  match r with
  | None => mret None
  | Some p => sync ← obj_sync_ptr p; r ← release_semaphore sync count; _ ← release_object p; mret r.2
  end.

Definition req_query_semaphore (handle : Z) : V (option (Z * Z)) :=
  r ← get_handle_obj handle SEMAPHORE_QUERY_STATE is_semaphore;
  match r with
  | None => mret None
  | Some p =>
      sync ← obj_sync_ptr p;
      d ← sync_of sync;
      state ← (match d with
        | SemaphoreSync _ _ (Some q) => wfu (wfusync_get_semaphore_state (Some q))
        | SemaphoreSync count max None => mret (Some (count, max))
        | _ => _ ← c_assert false; mret None
        end);
      _ ← release_object p;
      mret state
  end.

Definition req_release_mutex (handle : Z) : V (option Z) :=
  r ← get_handle_obj handle 0 is_mutex;
  match r with
  | None => mret None
  | Some p =>
      sync ← obj_sync_ptr p;
      d ← sync_of sync;
      cur ← gets sv_current;
      prev ← (match d with
        | MutexSync _ _ _ (Some q) =>
            v ← thread_of cur;
            r ← wfu (wfusync_release_mutex (Some q) (t_id v));
            _ ← when (bool_decide (r = Some 1)) (_ ← wake_up sync 0; wake_registered q);
            mret r
        | MutexSync _ count _ None => _ ← do_release sync cur 1; mret (Some count)
        | _ => _ ← c_assert false; mret None
        end);
      _ ← release_object p;
      mret prev
  end.

(** [query_mutex] yields count, owned and abandoned. *)
Definition req_query_mutex (handle : Z) : V (option (Z * bool * bool)) :=
  r ← get_handle_obj handle ACCESS_MUTANT_QUERY is_mutex;
  match r with
  | None => mret None
  | Some p =>
      sync ← obj_sync_ptr p;
      d ← sync_of sync;
      cur ← gets sv_current;
      state ← (match d with
        | MutexSync _ _ _ (Some q) => v ← thread_of cur; wfu (wfusync_get_mutex_state (Some q) (t_id v))
        | MutexSync owner count abandoned None => mret (Some (count, bool_decide (owner = Some cur), abandoned))
        | _ => _ ← c_assert false; mret None
        end);
      _ ← release_object p;
      mret state
  end.

(** ** Dying threads *)

(** The list of owned mutexes shrinks with every release. *)
Fixpoint abandon_owned (fuel : nat) (t : Z) : V unit :=
  v ← thread_of t;
  match t_mutex_list v with
  | [] => mret tt
  | p :: _ =>
      match fuel with
      | O => no_fuel
      | S fuel =>
          d ← sync_of p;
          match d with
          | MutexSync owner count _ ws =>
              _ ← c_assert (bool_decide (owner = Some t));
              _ ← update_obj p (with_data (MutexSync owner count true ws));
              _ ← do_release p t count;
              abandon_owned fuel t
          | _ => _ ← c_assert false; mret tt
          end
      end
  end.

(** The element after [p] in a list. *)
Fixpoint next_after (p : Z) (l : list Z) : option Z :=
  match l with
  | [] => None
  | x :: l => if x =? p then head l else next_after p l
  end.

(** [LIST_FOR_EACH] over [wfusync_mutexes]: the link is read from the element after the
    body has run. *)
Fixpoint abandon_wfusync (fuel : nat) (t : Z) (cursor : option Z) : V unit :=
  match cursor with
  | None => mret tt
  | Some p =>
      match fuel with
      | O => no_fuel
      | S fuel =>
          d ← sync_of p;
          match d with
          | MutexSync _ _ _ (Some q) =>
              v ← thread_of t;
              abandoned ← wfu (wfusync_abandon_mutex (Some q) (t_id v));
              _ ← when abandoned
                    (_ ← wake_up p 0;
                     d ← sync_of p;
                     match sync_ws d with Some q => wake_registered q | None => mret tt end);
              _ ← obj p;
              l ← gets sv_wfusync_mutexes;
              abandon_wfusync fuel t (next_after p l)
          | _ => _ ← c_assert false; mret tt
          end
      end
  end.

Definition abandon_mutexes (t : Z) : V unit :=
  v ← thread_of t;
  _ ← abandon_owned (length (t_mutex_list v)) t;
  l ← gets sv_wfusync_mutexes;
  abandon_wfusync (length l) t (head l).

(** ** Indices for the clients *)

(** [get_event_wfusync_idx] and its two siblings: the type and the index. *)
Definition get_wfusync_idx (p : Z) : V (option (Z * Z)) :=
  enabled ← gets (λ s, w_do_wfusync (sv_wfs s));
  if negb enabled then mret None else
  sync ← obj_sync_ptr p;
  d ← sync_of sync;
  match sync_ws d with
  | None => mret None
  | Some q =>
      _ ← wfu (wfusync_grab_object (Some q));
      idx ← wfu (wfusync_get_index (Some q));
      mret (Some (match d with
                  | EventSync _ _ _ => INPROC_SYNC_EVENT
                  | SemaphoreSync _ _ _ => INPROC_SYNC_SEMAPHORE
                  | MutexSync _ _ _ _ => INPROC_SYNC_MUTEX
                  end, idx))
  end.

(** [get_inproc_sync_fd]: the type, the index and the access of the handle. *)
Definition req_get_inproc_sync_fd (handle : Z) : V (option (Z * Z * Z)) :=
  r ← get_handle_obj handle 0 any_type;
  match r with
  | None => mret None
  | Some p =>
      access ← get_handle_access handle;
      o ← obj p;
      r ← (match o_data o with Sync _ => mret None | _ => get_wfusync_idx p end);
      _ ← when (bool_decide (r = None)) (sv_set_error STATUS_NOT_IMPLEMENTED);
      _ ← when (negb (bool_decide (r = None))) (_ ← wfu wfusync_get_shared_fd; mret tt);
      _ ← release_object p;
      mret ((λ ti, (ti.1, ti.2, access)) <$> r)
  end.
End requests.
