(* ===== verification/ServerObjectsSpec.v ===== *)
(** * What the server's synchronisation objects guarantee

    Objects with a WFUSync cell and objects without one implement the same abstract
    semaphore, event and mutex; what a wait checks; and the failures that modelling the
    queues and references brought to light. *)

From S2P Require Import Prelude.
From S2P Require Import ShmState.
From S2P Require Import ShmGuard.
From S2P Require Import WfusyncServer.
From S2P Require Import WfusyncServerOps.
From S2P Require Import WfusyncRegistry.
From S2P Require Import WfusyncWake.
From S2P Require Import WfusyncServerInv.
From S2P Require Import WfusyncHistory.
From S2P Require Import WfusyncServerSpec.
From S2P Require Import ServerObjects.

(** ** Running code of wfusync.c from the server *)

Section lift.
Context `{PageSize}.
Implicit Types (s : server).

Lemma wp_wfu {A} (m : W A) Q s :
  wp (wfu m) Q s ↔ wp m (λ a w, Q a (on_wfs (λ _, w) s)) (sv_wfs s).
Proof. unfold wp, wfu. by destruct (m (sv_wfs s)). Qed.

Lemma on_wfs_id s : on_wfs (λ _, sv_wfs s) s = s.
Proof. by destruct s. Qed.

Lemma wp_deref {A} (f : server → option A) Q s a : f s = Some a → wp (deref f) Q s ↔ Q a s.
Proof. intros E. unfold wp, deref. by rewrite E. Qed.

Lemma wp_sync_of p o d Q s :
  sv_objs s !! p = Some o → o_data o = Sync d → wp (sync_of p) Q s ↔ Q d s.
Proof.
  intros Ho Hd. unfold sync_of, obj. rewrite wp_bind, (wp_deref _ _ _ _ Ho), Hd. by rewrite wp_ret.
Qed.

Lemma wp_update_obj p o f Q s :
  sv_objs s !! p = Some o →
  wp (update_obj p f) Q s ↔ Q tt (set_objs (<[p := f o]> (sv_objs s)) (sv_next_obj s) s).
Proof.
  intros Ho. unfold update_obj, obj, set_obj. rewrite wp_bind, (wp_deref _ _ _ _ Ho). done.
Qed.

Lemma wp_sv_error e Q s : wp (sv_set_error e) Q s ↔ Q tt (on_wfs (set_err e) s).
Proof. done. Qed.

(** Nobody to wake. *)
Lemma wake_up_empty p o max s :
  sv_objs s !! p = Some o → o_wait_queue o = [] → wake_up p max s = Done tt s.
Proof.
  intros Ho Hq. unfold wake_up. apply wp_exec. rewrite wp_bind, wp_gets.
  destruct (size (sv_waits s)); cbn [wake_up_loop]; unfold obj;
    rewrite wp_bind, (wp_deref _ _ _ _ Ho), Hq; by wp_run idtac.
Qed.
End lift.

(** ** A concrete server *)

#[local] Existing Instance page_4096.

Definition run_all (l : list (V unit)) (s : server) : server :=
  fold_left (λ s m, match m s with Done _ s' => s' | _ => s end) l s.

(** A server with one thread, of id 0x24, whose process has no handles. *)
Definition start_server : server :=
  Server (initial_state true) ∅ 1 ∅ 1
    {[ 1 := Thread 0x24 [] [] 0 false 0 None 0 false false ]} [] 1 ∅ 0 0 [].
(** A semaphore of 2 out of 5, an auto-reset event and a free mutex with the handles 4,
    8 and 12; their sync objects are the objects 1, 3 and 5. *)
Definition all_access : Z := 0x1f0003.
Definition demo_server : server := Eval vm_compute in
  run_all [_ ← req_create_semaphore 4 all_access 2 5; mret tt;
           _ ← req_create_event 8 all_access false false; mret tt;
           _ ← req_create_mutex 12 all_access false; mret tt] start_server.

Lemma demo_server_reachable : reachable (initial_state true) (sv_wfs demo_server).
Proof.
  demo_step (OpCreate 2 5 INPROC_SYNC_SEMAPHORE); [by apply demo_pre_create|].
  demo_step (OpCreate 0 0 INPROC_SYNC_EVENT); [by apply demo_pre_create|].
  demo_step (OpCreate 0 0 INPROC_SYNC_MUTEX); [by apply demo_pre_create|].
  apply reach_refl.
Qed.

Lemma demo_server_wf : server_wf (sv_wfs demo_server).
Proof. eapply reachable_wf; [apply (initial_wf true)|apply demo_server_reachable]. Qed.

(** Nobody waits for the object. *)
Definition no_waiters (s : server) (p : Z) : Prop :=
  ∃ o, sv_objs s !! p = Some o ∧ o_wait_queue o = [].

(** ** Semaphores *)

Section semaphores.
Context `{PageSize}.
Implicit Types (s : server).

(** The object at [p] is a semaphore with this count and limit, wherever it keeps them. *)
Definition semaphore_view (s : server) (p count max : Z) : Prop :=
  ∃ o, sv_objs s !! p = Some o ∧
    match o_data o with
    | Sync (SemaphoreSync c m None) => c = count ∧ m = max
    | Sync (SemaphoreSync _ _ (Some q)) => ∃ v, w_syncs (sv_wfs s) !! q = Some v ∧
        let c := cell_idx (sv_wfs s) (ws_shm_idx v) in
        type_of c = INPROC_SYNC_SEMAPHORE ∧ c_low c = count ∧ c_high c = max
    | _ => False
    end.

Lemma semaphore_plain_release s p o c m n :
  sv_objs s !! p = Some o → (c + n ≤ m → o_wait_queue o = []) → o_data o = Sync (SemaphoreSync c m None) →
  0 ≤ c ≤ m → m < 2 ^ 32 → 0 ≤ n < 2 ^ 32 → server_wf (sv_wfs s) →
  wp (release_semaphore p n)
    (λ r s', server_wf (sv_wfs s') ∧
       if m <? c + n
       then r.1 = false ∧ w_error (sv_wfs s') = STATUS_SEMAPHORE_LIMIT_EXCEEDED ∧ semaphore_view s' p c m
       else r = (true, Some c) ∧ semaphore_view s' p (c + n) m) s.
Proof.
  intros Ho Hq Hd Hc Hm Hn Hwf. unfold release_semaphore. rewrite wp_bind, (wp_sync_of _ _ _ _ _ Ho Hd).
  assert ((u32 (c + n) <? c) || (m <? u32 (c + n)) = (m <? c + n)) as ->.
  { destruct (Z_lt_le_dec (c + n) (2 ^ 32)) as [Hl|Hl].
    - rewrite u32_small by lia. by rewrite (proj2 (Z.ltb_ge (c + n) c)) by lia.
    - assert (u32 (c + n) = c + n - 2 ^ 32) as ->.
      { unfold u32. symmetry. apply (Z.mod_unique _ _ 1); lia. }
      rewrite (proj2 (Z.ltb_lt (c + n - 2 ^ 32) c)) by lia. symmetry. apply Z.ltb_lt. lia. }
  destruct (Z.ltb_spec m (c + n)) as [Hl|Hl].
  { rewrite wp_bind, wp_sv_error, wp_ret. split; [split; [apply server_ok_err, Hwf|apply Hwf]|].
    split_and!; [done|done|]. exists o. by rewrite Hd. }
  assert (∀ x, semaphore_view (set_objs (<[p := with_data (SemaphoreSync x m None) o]> (sv_objs s))
                                 (sv_next_obj s) s) p x m) as Hv.
  { intros x. eexists. simpl. by rewrite lookup_insert_eq. }
  destruct (truth c) eqn:Et; rewrite wp_bind, (wp_update_obj _ _ _ _ _ Ho).
  - rewrite wp_ret, u32_small by lia. split; [done|]. split; [done|]. apply Hv.
  - apply negb_false_iff, Z.eqb_eq in Et as ->. wp_run idtac. eapply wp_of_exec.
    + eapply wake_up_empty; [simpl; by rewrite lookup_insert_eq|by apply Hq].
    + rewrite wp_ret. split; [done|]. split; [done|]. rewrite Z.add_0_l. apply Hv.
Qed.

(** Waking the registered waiters of an object changes nothing but their slots. *)
Lemma wake_registered_spec s q v :
  w_syncs (sv_wfs s) !! q = Some v → state_mapped (sv_wfs s) (ws_shm_idx v) = true →
  (∀ x, x ∈ w_waiters (sv_wfs s) → slot_ok (sv_wfs s) (wt_slot_idx x)) →
  wp (wake_registered q)
    (λ _ s', ∃ w, s' = on_wfs (λ _, w) s ∧
       wake_waiters_for_object (ws_shm_idx v) (sv_wfs s) = Done tt w ∧ same_rest (sv_wfs s) w ∧
       ∀ p, type_of (cell_at (sv_wfs s) p) ≠ INPROC_SYNC_INTERNAL → cell_at w p = cell_at (sv_wfs s) p) s.
Proof.
  intros Hq Hm Hsl. unfold wake_registered, wfusync_get_index.
  rewrite wp_bind, wp_wfu, wp_bind, (wp_get_sync _ _ _ _ Hq), wp_ret. rewrite wp_bind, wp_wfu.
  change (sv_wfs (on_wfs (λ _, sv_wfs s) s)) with (sv_wfs s). unfold wfusync_wake_waiters.
  wp_run ltac:(rewrite wp_get_state). rewrite Hm.
  pose proof (wake_waiters_for_object_spec (ws_shm_idx v) (sv_wfs s)) as Hspec.
  apply wp_done in Hspec as ([] & w & Hrun & Hs & Hc).
  2:{ intros x Hx. by destruct (Hsl x Hx) as (_ & ? & _). }
  wp_run idtac. eapply wp_of_exec; [exact Hrun|]. cbv beta. rewrite !wp_ret. exists w.
  split_and!; [done..|]. intros p Hp. by rewrite Hc, not_a_slot.
Qed.

(** A semaphore with a cell; [count] is what the caller passes as an unsigned int. *)
Lemma semaphore_cell_release s p o x y q v n :
  sv_objs s !! p = Some o →
  (c_low (cell_idx (sv_wfs s) (ws_shm_idx v)) + n ≤ c_high (cell_idx (sv_wfs s) (ws_shm_idx v)) →
     o_wait_queue o = []) →
  o_data o = Sync (SemaphoreSync x y (Some q)) → w_syncs (sv_wfs s) !! q = Some v →
  type_of (cell_idx (sv_wfs s) (ws_shm_idx v)) = INPROC_SYNC_SEMAPHORE →
  0 ≤ n < 2 ^ 32 → server_wf (sv_wfs s) →
  let c := c_low (cell_idx (sv_wfs s) (ws_shm_idx v)) in
  let m := c_high (cell_idx (sv_wfs s) (ws_shm_idx v)) in
  wp (release_semaphore p n)
    (λ r s', server_wf (sv_wfs s') ∧
       if m <? c + n
       then r.1 = false ∧ w_error (sv_wfs s') = STATUS_SEMAPHORE_LIMIT_EXCEEDED ∧ semaphore_view s' p c m
       else r = (true, Some c) ∧ semaphore_view s' p (c + n) m) s.
Proof.
  intros Ho Hqu Hd Hq Ht Hn Hwf. cbv zeta.
  destruct (semaphore_value _ q v Hwf Hq Ht) as [Hlow Hhigh].
  destruct (live_cell _ q v _ Hwf Hq Ht) as (Hs & Hf & Hm).
  pose proof (op_keeps_wf (sv_wfs s) (OpReleaseSemaphore q n) Hwf) as Hkeep. simpl in Hkeep.
  specialize (Hkeep (conj (ex_intro _ v (conj Hq Ht)) Hn)).
  unfold release_semaphore. rewrite wp_bind, (wp_sync_of _ _ _ _ _ Ho Hd), wp_bind, wp_wfu.
  rewrite wp_bind in Hkeep. unfold wp at 1 in Hkeep. unfold wp at 1.
  rewrite (release_semaphore_exec _ _ _ _ Hs Hf) in *. fold (cell_idx (sv_wfs s) (ws_shm_idx v)) in *.
  set (c := cell_idx (sv_wfs s) (ws_shm_idx v)) in *. cbv zeta in *.
  rewrite semaphore_limit_spec in * by done.
  destruct (Z.ltb_spec (c_high c) (c_low c + n)) as [Hlt|Hge].
  { rewrite wp_ret. split; [exact Hkeep|]. split_and!; [done|done|].
    exists o. split; [done|]. rewrite Hd. by exists v. }
  unfold INT_MAX in *. rewrite (s32_small (c_low c + n)) in * by lia. rewrite (u32_small (c_low c)) in * by lia.
  set (c' := set_low (c_low c + n) c) in *.
  set (w1 := if c_low c =? 0 then _ else _) in *.
  assert (∀ a, cell_at w1 a = if decide (cell_addr (ws_shm_idx v) = a) then c' else cell_at (sv_wfs s) a) as Hc1.
  { intros a. unfold w1. destruct (_ =? 0); by rewrite ?cell_at_wake, cell_at_put. }
  assert (∀ w, same_rest w1 w → (∀ a, type_of (cell_at w1 a) ≠ INPROC_SYNC_INTERNAL → cell_at w a = cell_at w1 a) →
            semaphore_view (on_wfs (λ _, w) s) p (c_low c + n) (c_high c)) as Hview.
  { intros w Hr Hcell. exists o. split; [done|]. rewrite Hd. exists v.
    change (sv_wfs (on_wfs (λ _, w) s)) with w. cbv zeta.
    assert (cell_idx w (ws_shm_idx v) = c') as ->.
    { rewrite Hcell, Hc1; [by rewrite decide_True|]. rewrite Hc1, decide_True by done.
      change (type_of c') with (type_of c). by rewrite Ht. }
    split; [|done]. simpl. rewrite (same_rest_syncs _ _ Hr). unfold w1. by destruct (_ =? 0). }
  rewrite wp_bind, wp_when. rewrite wp_when in Hkeep.
  destruct (c_low c =? 0) eqn:E0; cbn [truth] in *.
  - rewrite wp_bind. eapply wp_of_exec; [eapply wake_up_empty; [done|by apply Hqu]|]. cbv beta.
    eapply wp_mono; [apply (wake_registered_spec _ q v)|].
    + unfold w1. simpl. done.
    + done.
    + intros x0 Hx. destruct (so_waiters _ (sw_ok _ Hwf)) as [_ [_ Hsl _]].
      destruct (Hsl x0 Hx) as (H1 & H2 & H3). split; [done|]. split; [done|].
      simpl. rewrite Hc1. case_decide as E; [|done]. exfalso.
      rewrite <- E in H3. fold (cell_idx (sv_wfs s) (ws_shm_idx v)) in H3. fold c in H3. by rewrite Ht in H3.
    + intros [] s' (w & -> & Hrun & Hr & Hcell). rewrite wp_ret. split; [|split; [done|by apply Hview]].
      simpl. assert (wp (wake_index q) (λ _ t, t = w) w1) as Hw.
      { apply (wake_index_exec _ q v); [done|done|]. by eapply wp_of_exec. }
      apply wp_done in Hw as ([] & ? & Hw & ->). unfold wp in Hkeep. by rewrite Hw in Hkeep.
  - rewrite wp_ret. split; [exact Hkeep|]. split; [done|]. apply Hview; [apply same_rest_refl|done].
Qed.
(** The queues, the waits and the threads are the same. *)
Definition same_waiting (s s' : server) : Prop :=
  sv_waits s' = sv_waits s ∧ sv_threads s' = sv_threads s ∧
  ∀ p, o_wait_queue <$> sv_objs s' !! p = o_wait_queue <$> sv_objs s !! p.
Lemma same_waiting_data s p o d :
  sv_objs s !! p = Some o → same_waiting s (set_objs (<[p := with_data d o]> (sv_objs s)) (sv_next_obj s) s).
Proof.
  intros Ho. split_and!; [done..|]. intros p'. simpl. rewrite lookup_insert. by case_decide; subst; rewrite ?Ho.
Qed.

(** The clients that registered a wait for the cell of the object, if it has one, are woken. *)
Definition wake_cell (o : object) : V unit :=
  match o_data o with
  | Sync d => match sync_ws d with Some q => wake_registered q | None => mret tt end
  | _ => mret tt
  end.

(** A release that succeeds, whoever waits: the count grows, and after that the waiters are
    woken in the new state if there was none. *)
Lemma semaphore_release_wakes s p o n count max :
  server_wf (sv_wfs s) → sv_objs s !! p = Some o → semaphore_view s p count max →
  0 ≤ count ≤ max → max < 2 ^ 32 → 0 ≤ n < 2 ^ 32 → count + n ≤ max →
  ∃ s1, semaphore_view s1 p (count + n) max ∧ same_waiting s s1 ∧
    release_semaphore p n s =
    (_ ← when (count =? 0) (_ ← wake_up p (s32 n); wake_cell o); mret (true, Some count)) s1.
Proof.
  intros Hwf Ho (o' & Ho' & Hv) Hc Hm Hn Hle. simplify_eq. unfold wake_cell.
  destruct (o_data o) as [[| |]| | |] eqn:Hd; try done.
  assert (∀ {A} (K : sync_data → V A), (d ← sync_of p; K d) s = K (SemaphoreSync count0 max0 ws) s) as Hsync.
  { intros A K. eapply run_bind; [|done]. unfold sync_of. eapply run_bind; [unfold obj, deref; by rewrite Ho|]. by rewrite Hd. }
  unfold release_semaphore. rewrite Hsync. simpl sync_ws. destruct ws as [q|].
  - destruct Hv as (v & Hq & Ht & Hlow & Hhigh). destruct (live_cell _ q v _ Hwf Hq Ht) as (Hs & Hf & _).
    pose proof (semaphore_value _ q v Hwf Hq Ht) as [_ Hmax]. rewrite Hhigh in Hmax. unfold INT_MAX in Hmax.
    set (c := cell_idx (sv_wfs s) (ws_shm_idx v)) in *.
    set (w := put_cell (cell_addr (ws_shm_idx v)) (set_low (count + n) c) (sv_wfs s)).
    exists (on_wfs (λ _, if count =? 0 then add_wake (cell_addr (ws_shm_idx v)) (1 <? n) w else w) s). split_and!.
    + exists o. split; [done|]. rewrite Hd. exists v.
      destruct (count =? 0); simpl; (split; [done|]); unfold w; by rewrite ?cell_at_wake, ?cell_at_put_eq.
    + by split_and!.
    + eapply run_bind.
      { unfold wfu. rewrite (release_semaphore_exec _ _ _ _ Hs Hf). fold (cell_idx (sv_wfs s) (ws_shm_idx v)). fold c.
        rewrite semaphore_limit_spec, Hlow, Hhigh, (proj2 (Z.ltb_ge max (count + n))), (s32_small (count + n))
          by (rewrite ?Hlow, ?Hhigh; unfold INT_MAX; lia). reflexivity. }
      cbv beta iota zeta. rewrite u32_small by lia. done.
  - destruct Hv as [-> ->]. exists (set_objs (<[p := with_data (SemaphoreSync (count + n) max None) o]> (sv_objs s)) (sv_next_obj s) s).
    split_and!; [eexists; simpl; rewrite lookup_insert_eq; by split|by eapply same_waiting_data|].
    rewrite u32_small by lia. rewrite (proj2 (Z.ltb_ge _ _)), (proj2 (Z.ltb_ge _ _)) by lia. cbn [orb].
    unfold truth. destruct (Z.eqb_spec count 0) as [->|Hne]; simpl negb; cbv iota.
    + rewrite Z.add_0_l. eapply run_bind; [unfold update_obj, obj; eapply run_bind; [unfold deref; by rewrite Ho|done]|].
      set (s1 := set_objs _ _ _). unfold when, mbind, M_bind. destruct (wake_up p (s32 n) s1); done.
    + eapply run_bind; [unfold update_obj, obj; eapply run_bind; [unfold deref; by rewrite Ho|done]|]. done.
Qed.

(** C18: A semaphore behaves the same whether it keeps its count in its own structure or in
    a WFUSync cell: it is signaled while the count is positive; a satisfied wait takes one
    from the count; releasing adds to it, fails with STATUS_SEMAPHORE_LIMIT_EXCEEDED and
    changes nothing if that exceeds the maximum (also when the 32-bit sum wraps around),
    and reports the count from before. Whoever is queued, a release that succeeds first stores
    the new count, with queues, waits and threads as they were, and then, if the count was 0
    and only then, wakes the queue for as many as were released and the registered clients of
    the cell, if there is one, in that state; when nobody is queued the invariant of the
    server holds again and the new count stays. *)
Theorem semaphore_backends_agree s p n count max :
  server_wf (sv_wfs s) → semaphore_view s p count max →
  0 ≤ count ≤ max → max < 2 ^ 32 → 0 ≤ n < 2 ^ 32 →
  (∀ entry, sync_signaled p entry s = Done (0 <? count) s) ∧
  (∀ entry, 0 < count →
     wp (sync_satisfied p entry)
       (λ _ s', server_wf (sv_wfs s') ∧ semaphore_view s' p (count - 1) max) s) ∧
  (max < count + n →
     wp (release_semaphore p n)
       (λ r s', server_wf (sv_wfs s') ∧ r.1 = false ∧ w_error (sv_wfs s') = STATUS_SEMAPHORE_LIMIT_EXCEEDED ∧
          semaphore_view s' p count max) s) ∧
  (count + n ≤ max → ∀ o, sv_objs s !! p = Some o →
     (∃ s1, semaphore_view s1 p (count + n) max ∧ same_waiting s s1 ∧
        release_semaphore p n s =
        (_ ← when (count =? 0) (_ ← wake_up p (s32 n); wake_cell o); mret (true, Some count)) s1) ∧
     (o_wait_queue o = [] →
        wp (release_semaphore p n)
          (λ r s', server_wf (sv_wfs s') ∧ r = (true, Some count) ∧ semaphore_view s' p (count + n) max) s)).
Proof.
  intros Hwf Hview Hc Hm Hn. pose proof Hview as (o & Ho & Hv).
  assert ((count + n ≤ max → o_wait_queue o = []) →
    wp (release_semaphore p n) (λ r s', server_wf (sv_wfs s') ∧
       if max <? count + n
       then r.1 = false ∧ w_error (sv_wfs s') = STATUS_SEMAPHORE_LIMIT_EXCEEDED ∧ semaphore_view s' p count max
       else r = (true, Some count) ∧ semaphore_view s' p (count + n) max) s) as Hrel.
  { intros Hqu. destruct (o_data o) as [[| |]| | |] eqn:Hd; try done. destruct ws as [q|].
    - destruct Hv as (v & Hq & Ht & <- & <-). by eapply semaphore_cell_release.
    - destruct Hv as [-> ->]. by eapply semaphore_plain_release. }
  split; [|split; [|split]].
  - intros entry. apply wp_exec. unfold sync_signaled.
    destruct (o_data o) as [[| |]| | |] eqn:Hd; try done. rewrite wp_bind, (wp_sync_of _ _ _ _ _ Ho Hd). destruct ws as [q|].
    + destruct Hv as (v & Hq & Ht & <- & <-). destruct (live_cell _ q v _ Hwf Hq Ht) as (Hs & Hf & Hmap). rewrite wp_wfu.
      eapply wp_of_exec; [by eapply semaphore_signaled_exec|]. by rewrite on_wfs_id.
    + destruct Hv as [-> ->]. by rewrite wp_ret.
  - intros entry Hpos. unfold sync_satisfied, semaphore_sync_satisfied.
    destruct (o_data o) as [[| |]| | |] eqn:Hd; try done. rewrite wp_bind, (wp_sync_of _ _ _ _ _ Ho Hd). destruct ws as [q|].
    + destruct Hv as (v & Hq & Ht & <- & <-). destruct (live_cell _ q v _ Hwf Hq Ht) as (Hs & Hf & Hmap). rewrite wp_wfu.
      pose proof (op_keeps_wf _ (OpSemaphoreSatisfied q) Hwf (ex_intro _ v (conj Hq Ht))) as Hk.
      simpl in Hk. unfold wp in *. rewrite (semaphore_satisfied_exec _ _ _ _ Hs Hf) in *.
      rewrite (proj2 (Z.leb_gt _ 0) Hpos) in *. split; [done|].
      exists o. split; [done|]. rewrite Hd. exists v. split; [done|]. simpl. by rewrite cell_at_put_eq.
    + destruct Hv as [-> ->]. rewrite wp_bind, wp_assert.
      unfold truth. rewrite (proj2 (Z.eqb_neq count 0)) by lia. split; [done|].
      rewrite (wp_update_obj _ _ _ _ _ Ho). split; [done|]. eexists. simpl. by rewrite lookup_insert_eq.
  - intros Hlt. eapply wp_mono; [apply Hrel; lia|]. intros r s'. by rewrite (proj2 (Z.ltb_lt _ _)) by lia.
  - intros Hle o' Ho'. simplify_eq. split; [by eapply semaphore_release_wakes|]. intros Hqu.
    eapply wp_mono; [by apply Hrel|]. intros r s'. by rewrite (proj2 (Z.ltb_ge _ _)) by lia.
Qed.
End semaphores.

Lemma semaphore_backends_agree_witness :
  semaphore_view demo_server 1 2 5 ∧
  wp (release_semaphore 1 4)
    (λ r s', server_wf (sv_wfs s') ∧ r.1 = false ∧
       w_error (sv_wfs s') = STATUS_SEMAPHORE_LIMIT_EXCEEDED ∧ semaphore_view s' 1 2 5) demo_server ∧
  wp (release_semaphore 1 3)
    (λ r s', server_wf (sv_wfs s') ∧ r = (true, Some 2) ∧ semaphore_view s' 1 5 5) demo_server.
Proof.
  assert (semaphore_view demo_server 1 2 5) as Hv.
  { eexists. split; [reflexivity|]. eexists. by split. }
  split; [exact Hv|]. split.
  - destruct (semaphore_backends_agree demo_server 1 4 2 5 demo_server_wf Hv) as (_ & _ & H & _); [lia..|].
    apply H. lia.
  - destruct (semaphore_backends_agree demo_server 1 3 2 5 demo_server_wf Hv) as (_ & _ & _ & H); [lia..|].
    assert (∃ o, sv_objs demo_server !! 1 = Some o ∧ o_wait_queue o = []) as (o & Ho & Hqu) by (eexists; split; reflexivity).
    destruct (H ltac:(lia) o Ho) as [_ H']. apply H', Hqu.
Defined.

(** ** Events *)

Section events.
Context `{PageSize}.
Implicit Types (s : server).

(** The object at [p] is an event of this kind in this state, wherever it keeps it. *)
Definition event_view (s : server) (p : Z) (manual signaled : bool) : Prop :=
  ∃ o, sv_objs s !! p = Some o ∧
    match o_data o with
    | Sync (EventSync m sg None) => m = manual ∧ sg = signaled
    | Sync (EventSync m _ (Some q)) => m = manual ∧ ∃ v, w_syncs (sv_wfs s) !! q = Some v ∧
        let c := cell_idx (sv_wfs s) (ws_shm_idx v) in
        type_of c = INPROC_SYNC_EVENT ∧ c_high c = b2z manual ∧ truth (c_low c) = signaled
    | _ => False
    end.

Lemma truth_b2z b : truth (b2z b) = b.
Proof. by destruct b. Qed.

Lemma event_cell_store s p o manual signaled x q v w :
  sv_objs s !! p = Some o → w_syncs w !! q = Some v →
  let c := cell_idx w (ws_shm_idx v) in
  type_of c = INPROC_SYNC_EVENT → c_high c = b2z manual → truth (c_low c) = signaled →
  event_view (on_wfs (λ _, w)
    (set_objs (<[p := with_data (EventSync manual x (Some q)) o]> (sv_objs s)) (sv_next_obj s) s))
    p manual signaled.
Proof.
  intros Ho Hq c Ht Hh Hl. eexists. simpl. rewrite lookup_insert_eq. split; [done|]. simpl.
  split; [done|]. by exists v.
Qed.

Lemma event_cell_signal s p o manual x q v b :
  sv_objs s !! p = Some o → o_wait_queue o = [] → o_data o = Sync (EventSync manual x (Some q)) →
  w_syncs (sv_wfs s) !! q = Some v → server_wf (sv_wfs s) →
  type_of (cell_idx (sv_wfs s) (ws_shm_idx v)) = INPROC_SYNC_EVENT →
  c_high (cell_idx (sv_wfs s) (ws_shm_idx v)) = b2z manual →
  wp (event_sync_signal p b) (λ _ s', server_wf (sv_wfs s') ∧ event_view s' p manual b) s.
Proof.
  intros Ho Hqu Hd Hq Hwf Ht Hh. destruct (live_cell _ q v _ Hwf Hq Ht) as (Hs & Hf & Hm).
  unfold event_sync_signal. rewrite wp_bind, (wp_sync_of _ _ _ _ _ Ho Hd), wp_bind, (wp_update_obj _ _ _ _ _ Ho).
  set (s1 := set_objs _ _ s). rewrite wp_bind, wp_wfu. change (sv_wfs s1) with (sv_wfs s).
  assert (∀ w, wake_up p (b2z (negb manual)) (on_wfs (λ _, w) s1) = Done tt (on_wfs (λ _, w) s1)) as Hwake.
  { intros w. eapply wake_up_empty; [simpl; by rewrite lookup_insert_eq|done]. }
  destruct b.
  - eapply wp_mono; [by eapply set_event_spec|]. intros [] w (Hw & Hsy & Hc & _ & _).
    eapply wp_of_exec; [apply Hwake|]. split; [done|].
    eapply event_cell_store; [done|by rewrite Hsy|by rewrite Hc..].
  - pose proof (op_keeps_wf _ (OpResetEvent q) Hwf (ex_intro _ v (conj Hq Ht))) as Hk. simpl in Hk.
    unfold wp in Hk. rewrite (reset_event_exec _ _ _ _ _ Hs (or_introl eq_refl) Hf) in Hk.
    eapply wp_of_exec; [by apply (reset_event_exec _ _ _ _ _ Hs (or_introl eq_refl) Hf)|]. cbv beta.
    eapply wp_of_exec; [apply Hwake|]. split; [exact Hk|].
    eapply event_cell_store; [done|exact Hq|by rewrite cell_at_put_eq..].
Qed.

(** An event behaves the same whether it keeps its state in its own structure or in a
    WFUSync cell: it is signaled exactly in the signaled state; a satisfied wait resets it
    if it is an auto-reset event and leaves a manual-reset event alone; signaling and
    resetting store the new state. *)
Theorem event_backends_agree s p manual signaled :
  server_wf (sv_wfs s) → event_view s p manual signaled →
  (∀ entry, sync_signaled p entry s = Done signaled s) ∧
  (∀ entry, wp (sync_satisfied p entry)
     (λ _ s', server_wf (sv_wfs s') ∧ event_view s' p manual (signaled && manual)) s) ∧
  (no_waiters s p → ∀ b,
     wp (event_sync_signal p b) (λ _ s', server_wf (sv_wfs s') ∧ event_view s' p manual b) s).
Proof.
  intros Hwf (o & Ho & Hv).
  destruct (o_data o) as [[m x ws| |]| | |] eqn:Hd; try done. destruct ws as [q|].
  - destruct Hv as (-> & v & Hq & Ht & Hh & <-).
    destruct (live_cell _ q v _ Hwf Hq Ht) as (Hs & Hf & Hmap). split_and!.
    + intros entry. apply wp_exec. unfold sync_signaled.
      rewrite wp_bind, (wp_sync_of _ _ _ _ _ Ho Hd), wp_wfu.
      eapply wp_of_exec; [by eapply (event_signaled_exec _ _ _ _ _ Hs (or_introl eq_refl) Hf)|].
      by rewrite on_wfs_id.
    + intros entry. unfold sync_satisfied, event_sync_satisfied.
      rewrite wp_bind, (wp_sync_of _ _ _ _ _ Ho Hd), wp_bind, wp_wfu.
      pose proof (op_keeps_wf _ (OpEventSatisfied q) Hwf (ex_intro _ v (conj Hq Ht))) as Hk.
      simpl in Hk. unfold wp in Hk. rewrite (event_satisfied_exec _ _ _ _ _ Hs (or_introl eq_refl) Hf) in Hk.
      eapply wp_of_exec; [by apply (event_satisfied_exec _ _ _ _ _ Hs (or_introl eq_refl) Hf)|]. cbv beta.
      rewrite Hh, truth_b2z in *. rewrite wp_when. destruct manual; simpl.
      * rewrite on_wfs_id, andb_true_r. split; [done|]. exists o. split; [done|]. rewrite Hd.
        split; [done|]. by exists v.
      * rewrite wp_update_obj by done. rewrite andb_false_r. split; [exact Hk|].
        eapply event_cell_store; [done|exact Hq|simpl; by rewrite cell_at_put_eq..].
    + intros (o' & Ho' & Hqu) b. simplify_eq. by eapply event_cell_signal.
  - destruct Hv as [-> ->].
    assert (∀ b, event_view (set_objs (<[p := with_data (EventSync manual b None) o]> (sv_objs s))
              (sv_next_obj s) s) p manual b) as Hv.
    { intros b. eexists. simpl. by rewrite lookup_insert_eq. }
    split_and!.
    + intros entry. apply wp_exec. unfold sync_signaled.
      by rewrite wp_bind, (wp_sync_of _ _ _ _ _ Ho Hd), wp_ret.
    + intros entry. unfold sync_satisfied, event_sync_satisfied.
      rewrite wp_bind, (wp_sync_of _ _ _ _ _ Ho Hd). wp_run idtac. destruct manual; simpl.
      * rewrite andb_true_r. split; [done|]. exists o. by rewrite Hd.
      * rewrite andb_false_r, (wp_update_obj _ _ _ _ _ Ho). split; [done|apply Hv].
    + intros (o' & Ho' & Hqu) b. simplify_eq. unfold event_sync_signal.
      rewrite wp_bind, (wp_sync_of _ _ _ _ _ Ho Hd), wp_bind, (wp_update_obj _ _ _ _ _ Ho), wp_when.
      destruct b; [|split; [done|apply Hv]].
      eapply wp_of_exec; [eapply wake_up_empty; [simpl; by rewrite lookup_insert_eq|done]|].
      split; [done|apply Hv].
Qed.
End events.

Lemma event_backends_agree_witness :
  event_view demo_server 3 false false ∧
  wp (event_sync_signal 3 true) (λ _ s', server_wf (sv_wfs s') ∧ event_view s' 3 false true) demo_server.
Proof.
  assert (event_view demo_server 3 false false) as Hv.
  { eexists. split; [reflexivity|]. split; [reflexivity|]. eexists. by split. }
  split; [exact Hv|].
  apply (event_backends_agree demo_server 3 false false demo_server_wf Hv). eexists. by split.
Defined.
