(* ===== verification/ServerMutexSpec.v ===== *)
(** * The server's mutexes

    A mutex with a WFUSync cell and one without implement the same abstract mutex; what
    happens to the waiters of a mutex that SignalObjectAndWait releases. *)

From S2P Require Import Prelude.
From S2P Require Import ShmState.
From S2P Require Import WfusyncServer.
From S2P Require Import WfusyncServerOps.
From S2P Require Import WfusyncRegistry.
From S2P Require Import WfusyncServerInv.
From S2P Require Import WfusyncHistory.
From S2P Require Import WfusyncServerSpec.
From S2P Require Import ServerObjects.
From S2P Require Import ServerObjectsSpec.

(** The abstract mutex: free, possibly abandoned by its last owner, or owned by a thread
    that has acquired it [n] times. *)
Inductive mutex_state :=
| Free (abandoned : bool)
| Owned (t n : Z).

Definition available (st : mutex_state) (t : Z) : bool :=
  match st with Free _ => true | Owned t' _ => t' =? t end.
Definition acquire (st : mutex_state) (t : Z) : mutex_state :=
  match st with Free _ => Owned t 1 | Owned t' n => Owned t' (n + 1) end.
Definition was_abandoned (st : mutex_state) : bool :=
  match st with Free a => a | Owned _ _ => false end.
Definition lock_count (st : mutex_state) : Z := match st with Free _ => 0 | Owned _ n => n end.
(** None: the thread does not own it. *)
Definition release (st : mutex_state) (t : Z) : option mutex_state :=
  match st with
  | Free _ => None
  | Owned t' n =>
      if t' =? t then Some (if n =? 1 then Free false else Owned t' (n - 1)) else None
  end.

(** Thread ids fit a positive [int] and tell threads apart. *)
Record threads_ok (m : gmap Z thread) : Prop := {
  to_id : ∀ t v, m !! t = Some v → tid_ok (t_id v);
  to_inj : ∀ t t' v v', m !! t = Some v → m !! t' = Some v' → t_id v = t_id v' → t = t' }.

Section mutexes.
Context `{PageSize}.
Implicit Types (s : server).

(** The words of a cell and the fields of [struct mutex_sync]. *)
Definition cell_mutex (m : gmap Z thread) (c : cell) (st : mutex_state) : Prop :=
  type_of c = INPROC_SYNC_MUTEX ∧
  match st with
  | Free a => c_high c = 0 ∧ if a then c_low c < 0 else c_low c = 0
  | Owned t n => c_high c = n ∧ 1 ≤ n ∧ ∃ v, m !! t = Some v ∧ c_low c = t_id v
  end.
Definition field_mutex (o : object) (owner : option Z) (count : Z) (abandoned : bool)
    (st : mutex_state) : Prop :=
  match st with
  | Free a => owner = None ∧ count = 0 ∧ abandoned = a ∧ 1 ≤ o_refcount o
  | Owned t n => owner = Some t ∧ count = n ∧ abandoned = false ∧ 1 ≤ n < 2 ^ 32 ∧ 2 ≤ o_refcount o
  end.

(** The object at [p] is a mutex in this state, wherever it keeps it. *)
Definition mutex_view (s : server) (p : Z) (st : mutex_state) : Prop :=
  ∃ o, sv_objs s !! p = Some o ∧
    match o_data o with
    | Sync (MutexSync owner count abandoned None) => field_mutex o owner count abandoned st
    | Sync (MutexSync _ _ _ (Some q)) => ∃ v, w_syncs (sv_wfs s) !! q = Some v ∧
        cell_mutex (sv_threads s) (cell_idx (sv_wfs s) (ws_shm_idx v)) st
    | _ => False
    end.

(** The waits and the queues are the same. *)
Definition same_queues (s s' : server) : Prop :=
  sv_waits s' = sv_waits s ∧ ∀ p, o_wait_queue <$> sv_objs s' !! p = o_wait_queue <$> sv_objs s !! p.
(** The reference that an owner holds to a mutex without a cell is given back. *)
Definition owner_reference (p : Z) (o : object) : V unit :=
  match o_data o with Sync (MutexSync _ _ _ None) => release_object p | _ => mret tt end.

(** ** Dereferences *)

Lemma wp_thread_of t v Q s : sv_threads s !! t = Some v → wp (thread_of t) Q s ↔ Q v s.
Proof. intros E. unfold thread_of. by rewrite (wp_deref _ _ _ _ E). Qed.
Lemma wp_wait_of w v Q s : sv_waits s !! w = Some v → wp (wait_of w) Q s ↔ Q v s.
Proof. intros E. unfold wait_of. by rewrite (wp_deref _ _ _ _ E). Qed.
Lemma wp_obj p o Q s : sv_objs s !! p = Some o → wp (obj p) Q s ↔ Q o s.
Proof. intros E. unfold obj. by rewrite (wp_deref _ _ _ _ E). Qed.
Lemma wp_update_wait w v f Q s :
  sv_waits s !! w = Some v →
  wp (update_wait w f) Q s ↔ Q tt (set_waits (<[w := f v]> (sv_waits s)) (sv_next_wait s) s).
Proof. intros E. unfold update_wait. by rewrite wp_bind, (wp_wait_of _ _ _ _ E). Qed.
Lemma wp_update_thread t v f Q s :
  sv_threads s !! t = Some v →
  wp (update_thread t f) Q s ↔ Q tt (set_threads (<[t := f v]> (sv_threads s)) s).
Proof. intros E. unfold update_thread. by rewrite wp_bind, (wp_thread_of _ _ _ _ E). Qed.
Lemma wp_entry_thread_id entry wt th Q s :
  sv_waits s !! entry.1 = Some wt → sv_threads s !! tw_thread wt = Some th →
  wp (entry_thread_id entry) Q s ↔ Q (t_id th) s.
Proof.
  intros Hw Ht. unfold entry_thread_id, get_wait_queue_thread.
  by rewrite !wp_bind, (wp_wait_of _ _ _ _ Hw), wp_ret, wp_bind, (wp_thread_of _ _ _ _ Ht), wp_ret.
Qed.

(** What the cell says about a thread, in the words of the abstract mutex. *)
Lemma cell_mutex_available m c st t th :
  threads_ok m → m !! t = Some th → cell_mutex m c st →
  (c_low c =? 0) || (c_low c =? s32 (t_id th)) || (c_low c <? 0) = available st t.
Proof.
  intros Hm Ht [_ Hc]. pose proof (to_id _ Hm _ _ Ht) as Hid. unfold tid_ok, INT_MAX in Hid.
  rewrite s32_small by lia. destruct st as [a|t' n]; simpl.
  - destruct Hc as [_ Hc]. destruct a; [|by rewrite Hc].
    rewrite (proj2 (Z.ltb_lt (c_low c) 0)) by lia. by rewrite orb_true_r.
  - destruct Hc as (_ & _ & v & Hv & ->). pose proof (to_id _ Hm _ _ Hv). unfold tid_ok in *.
    rewrite (proj2 (Z.eqb_neq (t_id v) 0)), (proj2 (Z.ltb_ge (t_id v) 0)), orb_false_r by lia. simpl.
    apply eq_true_iff_eq. rewrite !Z.eqb_eq. split; [by intros; eapply to_inj|]. intros ->. congruence.
Qed.

(** What [wfusync_mutex_satisfied] stores, whatever is done with the result. *)
Lemma cell_mutex_acquire {A} (K : option bool → cell → A) (z : A) m c st t th :
  threads_ok m → m !! t = Some th → cell_mutex m c st →
  available st t = true → lock_count st < INT_MAX →
  ∃ c',
    (if c_low c =? t_id th then K (Some false) (set_high (s32 (c_high c + 1)) c)
     else if (c_low c =? 0) || (c_low c <? 0) then
       K (Some (c_low c <? 0)) (set_high 1 (set_low (t_id th)
         (if c_low c <? 0 then set_generation (u32 (c_generation c + 1)) c else c)))
     else z) = K (Some (was_abandoned st)) c' ∧ cell_mutex m c' (acquire st t).
Proof.
  intros Hm Ht [Hty Hc] Hav Hlt. pose proof (to_id _ Hm _ _ Ht) as Hid. unfold tid_ok, INT_MAX in *.
  destruct st as [a|t' n]; simpl in *.
  - destruct Hc as [Hh Hl].
    assert (c_low c =? t_id th = false) as -> by (apply Z.eqb_neq; destruct a; lia).
    assert ((c_low c =? 0) || (c_low c <? 0) = true) as ->.
    { apply orb_true_iff. rewrite Z.eqb_eq, Z.ltb_lt. destruct a; lia. }
    assert (c_low c <? 0 = a) as ->.
    { destruct a; [by apply Z.ltb_lt|]. apply Z.ltb_ge. lia. }
    eexists. split; [done|]. split; [by destruct a|]. simpl. split; [done|]. split; [lia|]. eauto.
  - apply Z.eqb_eq in Hav as ->. destruct Hc as (Hh & Hn & v & Hv & Hl).
    assert (v = th) as -> by congruence. rewrite Hl, Z.eqb_refl.
    eexists. split; [done|]. split; [done|]. simpl. rewrite Hh, s32_small by lia.
    split; [done|]. split; [lia|]. eauto.
Qed.

(** The same for [wfusync_release_mutex]. *)
Lemma cell_mutex_release {A} (K K' : Z → cell → A) (z : A) m c st t th :
  threads_ok m → m !! t = Some th → cell_mutex m c st →
  let r := if negb (c_low c =? t_id th) || (c_high c =? 0) then z
           else if 1 <? c_high c then K (c_high c) (set_high (c_high c - 1) c)
           else K' (c_high c) (set_low 0 (set_high 0 c)) in
  match release st t with
  | None => r = z
  | Some st' => ∃ c', cell_mutex m c' st' ∧
      r = if 1 <? lock_count st then K (lock_count st) c' else K' (lock_count st) c'
  end.
Proof.
  intros Hm Ht [Hty Hc]. pose proof (to_id _ Hm _ _ Ht) as Hid. unfold tid_ok, INT_MAX in *.
  destruct st as [a|t' n]; simpl in *.
  { destruct Hc as [Hh Hl]. by rewrite (proj2 (Z.eqb_neq _ _)) by (destruct a; lia). }
  destruct Hc as (Hh & Hn & v & Hv & Hl). destruct (Z.eqb_spec t' t) as [->|Hne].
  - assert (v = th) as -> by congruence.
    rewrite Hl, Z.eqb_refl, Hh, (proj2 (Z.eqb_neq n 0)) by lia. simpl.
    destruct (Z.ltb_spec 1 n).
    + rewrite (proj2 (Z.eqb_neq n 1)) by lia. eexists. split; [|done].
      split; [done|]. simpl. split; [done|]. split; [lia|]. eauto.
    + rewrite (proj2 (Z.eqb_eq n 1)) by lia. eexists. split; [|done]. by repeat split.
  - rewrite (proj2 (Z.eqb_neq _ _)); [done|]. rewrite Hl. intros E. by apply Hne, (to_inj _ Hm _ _ v th).
Qed.

(** ** A mutex with a cell *)

Section cell.
Context (s : server) (p : Z) (o : object) (x : option Z) (y : Z) (z : bool) (q : Z) (v : wfusync).
Context (st : mutex_state).
Notation w := (sv_wfs s).
Notation c := (cell_idx w (ws_shm_idx v)).
Context (Ho : sv_objs s !! p = Some o) (Hd : o_data o = Sync (MutexSync x y z (Some q))).
Context (Hq : w_syncs w !! q = Some v) (Hwf : server_wf w).
Context (Hth : threads_ok (sv_threads s)) (Hst : cell_mutex (sv_threads s) c st).

Lemma mutex_view_cell c' st' s' :
  sv_objs s' = sv_objs s → sv_threads s' = sv_threads s → w_syncs (sv_wfs s') = w_syncs w →
  cell_idx (sv_wfs s') (ws_shm_idx v) = c' → cell_mutex (sv_threads s) c' st' → mutex_view s' p st'.
Proof using Ho Hd Hq.
  intros E1 E2 E3 E4 Hc. exists o. rewrite E1, Hd, E2, E3. split; [done|]. exists v. by rewrite E4.
Qed.

Lemma cell_signaled_spec entry wt th :
  sv_waits s !! entry.1 = Some wt → sv_threads s !! tw_thread wt = Some th →
  sync_signaled p entry s = Done (available st (tw_thread wt)) s.
Proof using All.
  intros Hw Ht. destruct (live_cell _ q v _ Hwf Hq (proj1 Hst)) as (Hs & Hf & _).
  apply wp_exec. unfold sync_signaled.
  rewrite wp_bind, (wp_sync_of _ _ _ _ _ Ho Hd), wp_bind, (wp_entry_thread_id _ _ _ _ _ Hw Ht), wp_wfu.
  eapply wp_of_exec; [apply (mutex_signaled_exec _ _ _ _ (t_id th) Hs Hf)|].
  by rewrite (cell_mutex_available _ _ _ _ _ Hth Ht Hst), on_wfs_id.
Qed.

Lemma cell_satisfied_spec entry wt th :
  sv_waits s !! entry.1 = Some wt → sv_threads s !! tw_thread wt = Some th →
  available st (tw_thread wt) = true → lock_count st < INT_MAX →
  wp (sync_satisfied p entry)
    (λ _ s', server_wf (sv_wfs s') ∧ mutex_view s' p (acquire st (tw_thread wt)) ∧
       sv_waits s' !! entry.1 = Some (if was_abandoned st then with_abandoned wt else wt)) s.
Proof using All.
  intros Hw Ht Hav Hlt. destruct (live_cell _ q v _ Hwf Hq (proj1 Hst)) as (Hs & Hf & _).
  pose proof (to_id _ Hth _ _ Ht) as Hid. pose proof Hid as Hid'. unfold tid_ok in Hid'.
  assert (op_pre w (OpMutexSatisfied q (t_id th))) as Hpre.
  { split; [done|]. exists v. split_and!; [done|apply Hst|].
    destruct Hst as [_ Hc]. destruct st; simpl in *; [|lia]. unfold INT_MAX. lia. }
  pose proof (op_keeps_wf _ _ Hwf Hpre) as Hk. simpl in Hk. rewrite wp_bind in Hk.
  unfold wp at 1 in Hk. rewrite (mutex_satisfied_exec _ _ _ _ (t_id th) Hs Hf) in Hk.
  unfold sync_satisfied, mutex_sync_satisfied.
  rewrite wp_bind, (wp_sync_of _ _ _ _ _ Ho Hd), wp_bind, (wp_entry_thread_id _ _ _ _ _ Hw Ht), wp_bind, wp_wfu.
  unfold wp at 1. rewrite (mutex_satisfied_exec _ _ _ _ (t_id th) Hs Hf).
  rewrite (s32_small (t_id th)) in * by (unfold INT_MAX in *; lia).
  set (K r c' := Done (S := wfs) (A := option bool) r (put_cell (cell_addr (ws_shm_idx v)) c' w)).
  destruct (cell_mutex_acquire K (Done None w) _ _ _ _ _ Hth Ht Hst Hav Hlt) as (c' & E & Hc').
  unfold K in E.
  rewrite E in Hk |- *. cbv beta in Hk. rewrite wp_when.
  destruct (was_abandoned st); simpl.
  - unfold make_wait_abandoned. rewrite (wp_update_wait _ wt) by done. split; [exact Hk|].
    split; [|simpl; by rewrite lookup_insert_eq].
    eapply mutex_view_cell; [done|done|done| |exact Hc']. simpl. by rewrite cell_at_put_eq.
  - split; [exact Hk|]. split; [|done].
    eapply mutex_view_cell; [done|done|done| |exact Hc']. simpl. by rewrite cell_at_put_eq.
Qed.

Lemma cell_release_spec th :
  sv_threads s !! sv_current s = Some th → (is_Some (release st (sv_current s)) → o_wait_queue o = []) →
  wp (mutex_signal p ACCESS_SYNCHRONIZE)
    (λ r s', match release st (sv_current s) with
       | Some st' => r = true ∧ mutex_view s' p st'
       | None => r = false ∧ w_error (sv_wfs s') = STATUS_MUTANT_NOT_OWNED ∧ mutex_view s' p st
       end) s.
Proof using All.
  intros Ht Hqu. destruct (live_cell _ q v _ Hwf Hq (proj1 Hst)) as (Hs & Hf & _).
  pose proof (to_id _ Hth _ _ Ht) as Hid. unfold tid_ok, INT_MAX in Hid.
  unfold mutex_signal. change (negb (truth (Z.land ACCESS_SYNCHRONIZE ACCESS_SYNCHRONIZE))) with false.
  cbv iota. rewrite wp_bind, (wp_sync_of _ _ _ _ _ Ho Hd), wp_bind, wp_gets, wp_bind,
    (wp_thread_of _ _ _ _ Ht), wp_bind, wp_wfu.
  unfold wp at 1. rewrite (release_mutex_exec _ _ _ _ (t_id th) Hs Hf), s32_small by lia.
  pose proof (cell_mutex_release
    (λ r c', Done (S := wfs) (A := option Z) (Some r) (put_cell (cell_addr (ws_shm_idx v)) c' w))
    (λ r c', Done (Some r) (add_wake (cell_addr (ws_shm_idx v)) false (put_cell (cell_addr (ws_shm_idx v)) c' w)))
    (Done None (set_err STATUS_MUTANT_NOT_OWNED w)) _ _ _ _ _ Hth Ht Hst) as E.
  cbv zeta beta in E. destruct (release st (sv_current s)) as [st'|].
  - destruct E as (c' & Hc' & ->). destruct (1 <? lock_count st) eqn:E1; rewrite wp_bind, wp_when.
    + apply Z.ltb_lt in E1. rewrite (proj2 (Z.eqb_neq _ _)), wp_ret by lia. split; [done|].
      eapply mutex_view_cell; [done|done|done| |exact Hc']. simpl. by rewrite cell_at_put_eq.
    + assert (∀ s', sv_objs s' = sv_objs s → wake_up p 0 s' = Done tt s') as Hw.
      { intros s' Es. eapply wake_up_empty; [by rewrite Es|by apply Hqu]. }
      assert (wp (wake_up p 0) (λ _ s', wp (mret true) (λ r s'0, r = true ∧ mutex_view s'0 p st') s')
        (on_wfs (λ _, add_wake (cell_addr (ws_shm_idx v)) false (put_cell (cell_addr (ws_shm_idx v)) c' w)) s))
        as Hwake.
      { eapply wp_of_exec; [by apply Hw|]. rewrite wp_ret. split; [done|].
        eapply mutex_view_cell; [done|done|done| |exact Hc']. simpl.
        by rewrite cell_at_wake, cell_at_put_eq. }
      destruct (lock_count st =? 1); [exact Hwake|]. rewrite wp_ret. split; [done|].
      eapply mutex_view_cell; [done|done|done| |exact Hc']. simpl. by rewrite cell_at_wake, cell_at_put_eq.
  - rewrite E. cbv beta. rewrite wp_ret. split; [done|]. split; [done|].
    eapply mutex_view_cell; [done|done|done|done|exact Hst].
Qed.

(** A release that succeeds, whoever waits: after the last one the queue is woken. *)
Lemma cell_release_run th st' :
  sv_threads s !! sv_current s = Some th → release st (sv_current s) = Some st' →
  ∃ s1, mutex_view s1 p st' ∧ same_queues s s1 ∧
    mutex_signal p ACCESS_SYNCHRONIZE s = (_ ← when (lock_count st =? 1) (wake_up p 0); mret true) s1.
Proof using All.
  intros Ht Hr. destruct (live_cell _ q v _ Hwf Hq (proj1 Hst)) as (Hs & Hf & _).
  pose proof (to_id _ Hth _ _ Ht) as Hid. unfold tid_ok, INT_MAX in Hid.
  pose proof (cell_mutex_release
    (λ r c', Done (S := wfs) (A := option Z) (Some r) (put_cell (cell_addr (ws_shm_idx v)) c' w))
    (λ r c', Done (Some r) (add_wake (cell_addr (ws_shm_idx v)) false (put_cell (cell_addr (ws_shm_idx v)) c' w)))
    (Done None (set_err STATUS_MUTANT_NOT_OWNED w)) _ _ _ _ _ Hth Ht Hst) as E.
  cbv zeta beta in E. rewrite Hr in E. destruct E as (c' & Hc' & E).
  set (w1 := if 1 <? lock_count st then put_cell (cell_addr (ws_shm_idx v)) c' w
             else add_wake (cell_addr (ws_shm_idx v)) false (put_cell (cell_addr (ws_shm_idx v)) c' w)).
  exists (on_wfs (λ _, w1) s). split_and!.
  - eapply mutex_view_cell; [done|done| | |exact Hc']; change (sv_wfs (on_wfs (λ _, w1) s)) with w1; unfold w1;
      destruct (1 <? lock_count st); by rewrite ?cell_at_wake, ?cell_at_put_eq.
  - by split.
  - unfold mutex_signal. change (negb (truth (Z.land ACCESS_SYNCHRONIZE ACCESS_SYNCHRONIZE))) with false. cbv iota.
    eapply run_bind; [unfold sync_of; eapply run_bind; [unfold obj, deref; by rewrite Ho|]; by rewrite Hd|].
    eapply run_bind; [done|]. eapply run_bind; [unfold thread_of, deref; by rewrite Ht|].
    eapply run_bind.
    { unfold wfu. rewrite (release_mutex_exec _ _ _ _ (t_id th) Hs Hf), s32_small by lia. rewrite E.
      instantiate (2 := Some (lock_count st)). instantiate (1 := on_wfs (λ _, w1) s). unfold w1.
      by destruct (1 <? lock_count st). }
    done.
Qed.
End cell.

(** ** A mutex without one *)

Section plain.
Context (s : server) (p : Z) (o : object) (owner : option Z) (count : Z) (abandoned : bool).
Context (st : mutex_state).
Context (Ho : sv_objs s !! p = Some o) (Hd : o_data o = Sync (MutexSync owner count abandoned None)).
Context (Hst : field_mutex o owner count abandoned st).

Lemma field_available t : (count =? 0) || bool_decide (owner = Some t) = available st t.
Proof using All.
  destruct st as [a|t' n]; simpl in *.
  - by destruct Hst as (-> & -> & _).
  - destruct Hst as (-> & -> & _ & Hn & _). rewrite (proj2 (Z.eqb_neq n 0)) by lia. simpl.
    apply eq_true_iff_eq. rewrite bool_decide_eq_true, Z.eqb_eq. naive_solver.
Qed.

Lemma plain_signaled_spec entry wt :
  sv_waits s !! entry.1 = Some wt → sync_signaled p entry s = Done (available st (tw_thread wt)) s.
Proof using All.
  intros Hw. apply wp_exec. unfold sync_signaled, get_wait_queue_thread.
  by rewrite wp_bind, (wp_sync_of _ _ _ _ _ Ho Hd), !wp_bind, (wp_wait_of _ _ _ _ Hw), !wp_ret, field_available.
Qed.

Lemma plain_grab_spec t th :
  sv_threads s !! t = Some th → available st t = true → lock_count st < INT_MAX → o_refcount o < INT_MAX →
  wp (do_grab p t)
    (λ _ s', sv_wfs s' = sv_wfs s ∧ sv_waits s' = sv_waits s ∧ sv_next_wait s' = sv_next_wait s ∧
       ∃ o' owner' count', sv_objs s' !! p = Some o' ∧
         o_data o' = Sync (MutexSync owner' count' abandoned None) ∧
         field_mutex o' owner' count' false (acquire st t)) s.
Proof using All.
  intros Ht Hav Hlt Href. unfold do_grab, INT_MAX in *.
  rewrite wp_bind, (wp_sync_of _ _ _ _ _ Ho Hd), wp_bind, wp_assert, field_available. split; [done|].
  assert (∀ Q (s' : server) f o', sv_objs s' !! p = Some o' →
    Q tt (set_objs (<[p := f o']> (sv_objs s')) (sv_next_obj s') s') → wp (update_obj p f) Q s') as Hup.
  { intros Q s' f o' E HQ. by apply wp_update_obj with (o := o'). }
  destruct st as [a|t' n]; simpl in *.
  - destruct Hst as (-> & -> & -> & Hr). change (0 =? 0) with true. cbv iota.
    rewrite wp_bind, wp_assert. split; [done|]. rewrite wp_bind. eapply Hup; [done|].
    rewrite wp_bind. unfold grab_object. rewrite wp_bind, (wp_obj p (with_data (MutexSync None (u32 (0 + 1)) a None) o))
      by (simpl; apply lookup_insert_eq).
    rewrite wp_bind, wp_assert. split; [apply Z.ltb_lt; unfold INT_MAX; simpl; lia|].
    unfold set_obj. rewrite wp_modify, wp_bind. eapply Hup; [simpl; apply lookup_insert_eq|].
    rewrite (wp_update_thread t th) by done. split_and!; [done..|].
    eexists _, _, _. simpl. rewrite lookup_insert_eq. split; [done|]. split; [done|].
    simpl. split_and!; [done|done|done|lia|done|lia].
  - apply Z.eqb_eq in Hav as ->. destruct Hst as (-> & -> & -> & Hn & Hr).
    rewrite (proj2 (Z.eqb_neq n 0)) by lia. eapply Hup; [done|]. split_and!; [done..|].
    eexists _, _, _. simpl. rewrite lookup_insert_eq. split; [done|]. split; [done|].
    simpl. rewrite u32_small by lia. split_and!; [done|done|done|lia|lia|lia].
Qed.

Lemma plain_satisfied_spec entry wt th :
  sv_waits s !! entry.1 = Some wt → sv_threads s !! tw_thread wt = Some th →
  available st (tw_thread wt) = true → lock_count st < INT_MAX → o_refcount o < INT_MAX →
  wp (sync_satisfied p entry)
    (λ _ s', sv_wfs s' = sv_wfs s ∧ mutex_view s' p (acquire st (tw_thread wt)) ∧
       sv_waits s' !! entry.1 = Some (if was_abandoned st then with_abandoned wt else wt)) s.
Proof using All.
  intros Hw Ht Hav Hlt Href. unfold sync_satisfied, mutex_sync_satisfied, get_wait_queue_thread.
  rewrite wp_bind, (wp_sync_of _ _ _ _ _ Ho Hd), wp_bind, wp_bind, (wp_wait_of _ _ _ _ Hw), wp_ret, wp_bind.
  eapply wp_mono; [by eapply plain_grab_spec|].
  intros [] s1 (E1 & E2 & E3 & o1 & ow & n & Ho1 & Hd1 & Hst1).
  rewrite wp_bind, (wp_sync_of _ _ _ _ _ Ho1 Hd1), wp_bind, wp_when.
  assert (abandoned = was_abandoned st) as Ea.
  { destruct st; simpl in *; [by destruct Hst as (_ & _ & -> & _)|by destruct Hst as (_ & _ & -> & _)]. }
  assert (∀ s2, sv_objs s2 = sv_objs s1 → mutex_view (set_objs
     (<[p := with_data (MutexSync ow n false None) o1]> (sv_objs s2)) (sv_next_obj s2) s2) p
     (acquire st (tw_thread wt))) as Hview.
  { intros s2 Es. eexists. simpl. rewrite lookup_insert_eq. by split. }
  rewrite <- Ea. destruct abandoned.
  - unfold make_wait_abandoned. rewrite (wp_update_wait _ wt) by by rewrite E2.
    rewrite (wp_update_obj _ o1) by done. split; [done|]. split; [by apply Hview|].
    simpl. by rewrite lookup_insert_eq.
  - rewrite (wp_update_obj _ o1) by done. split; [done|]. split; [by apply Hview|]. simpl. by rewrite E2.
Qed.

Lemma plain_release_spec th :
  sv_threads s !! sv_current s = Some th → (is_Some (release st (sv_current s)) → o_wait_queue o = []) →
  wp (mutex_signal p ACCESS_SYNCHRONIZE)
    (λ r s', match release st (sv_current s) with
       | Some st' => r = true ∧ mutex_view s' p st'
       | None => r = false ∧ w_error (sv_wfs s') = STATUS_MUTANT_NOT_OWNED ∧ mutex_view s' p st
       end) s.
Proof using All.
  intros Ht Hqu. unfold mutex_signal.
  change (negb (truth (Z.land ACCESS_SYNCHRONIZE ACCESS_SYNCHRONIZE))) with false. cbv iota.
  rewrite wp_bind, (wp_sync_of _ _ _ _ _ Ho Hd), wp_bind, wp_gets.
  unfold do_release. rewrite wp_bind, (wp_sync_of _ _ _ _ _ Ho Hd).
  assert ((count =? 0) || negb (bool_decide (owner = Some (sv_current s))) =
          match release st (sv_current s) with Some _ => false | None => true end) as ->.
  { destruct st as [a|t' n]; simpl in *; [by destruct Hst as (_ & -> & _)|].
    destruct Hst as (-> & -> & _ & Hn & _). rewrite (proj2 (Z.eqb_neq n 0)) by lia. simpl.
    destruct (Z.eqb_spec t' (sv_current s)) as [->|Hne]; [by rewrite bool_decide_true|].
    rewrite bool_decide_false by congruence. done. }
  destruct (release st (sv_current s)) as [st'|] eqn:Er.
  2:{ rewrite wp_bind, wp_sv_error, wp_ret. split_and!; [done|done|]. exists o. by rewrite Hd. }
  destruct st as [a|t' n]; simpl in *; [done|]. destruct (Z.eqb_spec t' (sv_current s)) as [->|]; [|done].
  injection Er as <-. destruct Hst as (-> & -> & -> & Hn & Hr).
  rewrite u32_small by lia. rewrite wp_bind, (wp_update_obj _ _ _ _ _ Ho), wp_bind, wp_when.
  replace (n - 1 =? 0) with (n =? 1) by (apply eq_true_iff_eq; rewrite !Z.eqb_eq; lia).
  destruct (Z.eqb_spec n 1) as [->|Hn1].
  - rewrite wp_bind, (wp_update_thread (sv_current s) th) by done.
    rewrite wp_bind. rewrite (wp_update_obj p) by (simpl; apply lookup_insert_eq).
    rewrite wp_bind. eapply wp_of_exec; [eapply wake_up_empty; [simpl; apply lookup_insert_eq|by apply Hqu]|].
    unfold release_object. cbn [release_levels].
    rewrite wp_bind, (wp_obj p) by (simpl; apply lookup_insert_eq). simpl.
    rewrite wp_bind, wp_assert. split; [unfold truth; by rewrite (proj2 (Z.eqb_neq _ _)) by lia|].
    unfold set_obj. rewrite wp_bind, wp_modify. unfold truth. rewrite (proj2 (Z.eqb_neq _ _)) by lia.
    simpl. rewrite !wp_ret. split; [done|]. eexists. simpl. rewrite lookup_insert_eq. split; [done|].
    simpl. split_and!; [done|done|done|lia].
  - rewrite wp_ret. split; [done|]. eexists. simpl. rewrite lookup_insert_eq. split; [done|].
    simpl. split_and!; [done|done|done|lia|lia|lia].
Qed.

Lemma plain_release_run th st' :
  sv_threads s !! sv_current s = Some th → release st (sv_current s) = Some st' →
  ∃ s1, mutex_view s1 p st' ∧ same_queues s s1 ∧
    mutex_signal p ACCESS_SYNCHRONIZE s =
    (_ ← when (lock_count st =? 1) (_ ← wake_up p 0; release_object p); mret true) s1.
Proof using All.
  intros Ht Hr. unfold mutex_signal.
  change (negb (truth (Z.land ACCESS_SYNCHRONIZE ACCESS_SYNCHRONIZE))) with false. cbv iota.
  assert (∀ (s' : server) o' d f, sv_objs s' !! p = Some o' → f o' = with_data d o → same_queues s s' →
    ∃ s'', update_obj p f s' = Done tt s'' ∧ sv_objs s'' !! p = Some (with_data d o) ∧ same_queues s s'' ∧
      sv_threads s'' = sv_threads s') as Hup.
  { intros s' o' d f E Ef [Ew Eq]. eexists. split_and!.
    - unfold update_obj, obj. eapply run_bind; [unfold deref; by rewrite E|done].
    - simpl. by rewrite lookup_insert_eq, Ef.
    - split; [done|]. intros p'. simpl. rewrite lookup_insert. case_decide as Ep; [|done]. rewrite <- Ep, Ef, Ho. done.
    - done. }
  destruct st as [a|t' n]; simpl in *; [done|]. destruct (Z.eqb_spec t' (sv_current s)) as [->|]; [|done].
  injection Hr as <-. destruct Hst as (-> & -> & -> & Hn & Href).
  assert (∀ {A} (K : sync_data → V A), (d ← sync_of p; K d) s = K (MutexSync (Some (sv_current s)) n false None) s) as Hsync.
  { intros A K. eapply run_bind; [|done]. unfold sync_of. eapply run_bind; [unfold obj, deref; by rewrite Ho|]. by rewrite Hd. }
  rewrite Hsync. cbv beta iota. destruct (Hup s o (MutexSync (Some (sv_current s)) (n - 1) false None)
    (with_data (MutexSync (Some (sv_current s)) (u32 (n - 1)) false None)) Ho ltac:(by rewrite u32_small by lia)
    ltac:(by split)) as (s1 & E1 & Ho1 & Hq1 & Et1).
  assert ((cur ← gets sv_current; do_release p cur 1) s =
    (_ ← when (n =? 1) (_ ← update_thread (sv_current s) (λ v, with_mutex_list (remove_first p (t_mutex_list v)) v);
       _ ← update_obj p (with_data (MutexSync None (n - 1) false None)); _ ← wake_up p 0; release_object p);
     mret true) s1) as Hrun.
  { eapply run_bind; [done|]. unfold do_release. rewrite Hsync, (proj2 (Z.eqb_neq n 0)), bool_decide_true by (done || lia).
    cbn [negb orb]. eapply run_bind; [exact E1|]. rewrite u32_small by lia.
    by replace (n - 1 =? 0) with (n =? 1) by (apply eq_true_iff_eq; rewrite !Z.eqb_eq; lia). }
  destruct (Z.eqb_spec n 1) as [->|Hn1].
  - set (s2 := set_threads (<[sv_current s := with_mutex_list (remove_first p (t_mutex_list th)) th]> (sv_threads s1)) s1).
    destruct (Hup s2 (with_data (MutexSync (Some (sv_current s)) (1 - 1) false None) o) (MutexSync None (1 - 1) false None)
      (with_data (MutexSync None (1 - 1) false None)) Ho1 eq_refl Hq1) as (s3 & E3 & Ho3 & Hq3 & Et3).
    exists s3. split_and!; [|done|].
    + exists (with_data (MutexSync None (1 - 1) false None) o). split; [done|]. simpl. split_and!; [done..|lia].
    + etrans; [exact Hrun|]. unfold when. cbn iota. assert (update_thread (sv_current s) (λ v, with_mutex_list (remove_first p (t_mutex_list v)) v) s1 = Done tt s2) as E2.
      { unfold update_thread, thread_of. eapply run_bind; [unfold deref; by rewrite Et1, Ht|done]. }
      unfold mbind, M_bind in *. rewrite E2, E3. done.
  - exists s1. split_and!; [|done|exact Hrun]. exists (with_data (MutexSync (Some (sv_current s)) (n - 1) false None) o).
    split; [done|]. simpl. split_and!; [done..|lia|lia|lia].
Qed.
End plain.

(** C19: A mutex behaves the same whether it keeps its owner in its own structure or in a
    WFUSync cell: it is available to a thread exactly when it is free or already its own;
    acquiring it (while the count of acquisitions is below INT_MAX) counts the acquisitions
    and tells a thread that takes over an abandoned mutex so; only the owner can release it,
    and it becomes free with the last release. The release is that of SignalObjectAndWait:
    whoever is queued, it first stores the new state, with queues and waits as they were, and
    then, after the last release and only then, wakes the queue in that state (and gives back
    the owner's reference to a mutex without a cell); when nobody is queued that state stays. *)
Theorem mutex_backends_agree s p st entry wt th :
  server_wf (sv_wfs s) → threads_ok (sv_threads s) → mutex_view s p st →
  sv_waits s !! entry.1 = Some wt → sv_threads s !! tw_thread wt = Some th →
  sync_signaled p entry s = Done (available st (tw_thread wt)) s ∧
  (available st (tw_thread wt) = true → lock_count st < INT_MAX →
   (∀ o, sv_objs s !! p = Some o → o_refcount o < INT_MAX) →
   wp (sync_satisfied p entry)
     (λ _ s', server_wf (sv_wfs s') ∧ mutex_view s' p (acquire st (tw_thread wt)) ∧
        sv_waits s' !! entry.1 = Some (if was_abandoned st then with_abandoned wt else wt)) s) ∧
  (sv_current s = tw_thread wt →
   match release st (tw_thread wt) with
   | None =>
       wp (mutex_signal p ACCESS_SYNCHRONIZE)
         (λ r s', r = false ∧ w_error (sv_wfs s') = STATUS_MUTANT_NOT_OWNED ∧ mutex_view s' p st) s
   | Some st' => ∀ o, sv_objs s !! p = Some o →
       (∃ s1, mutex_view s1 p st' ∧ same_queues s s1 ∧
          mutex_signal p ACCESS_SYNCHRONIZE s =
          (_ ← when (lock_count st =? 1) (_ ← wake_up p 0; owner_reference p o); mret true) s1) ∧
       (o_wait_queue o = [] →
          wp (mutex_signal p ACCESS_SYNCHRONIZE) (λ r s', r = true ∧ mutex_view s' p st') s)
   end).
Proof.
  intros Hwf Hth (o & Ho & Hv) Hw Ht.
  destruct (o_data o) as [[| |owner count abandoned ws]| | |] eqn:Hd; try done. destruct ws as [q|].
  - destruct Hv as (v & Hq & Hst). split; [by eapply cell_signaled_spec|].
    split; [intros Hav Hlt _; by eapply cell_satisfied_spec|]. intros Hcur. rewrite <- Hcur in *.
    pose proof (cell_release_spec s p o owner count abandoned q v st Ho Hd Hq Hwf Hth Hst th Ht) as Hspec.
    pose proof (cell_release_run s p o owner count abandoned q v st Ho Hd Hq Hwf Hth Hst th) as Hrun.
    destruct (release st (sv_current s)) as [st'|]; [|apply Hspec; by intros []].
    intros o' Ho'. simplify_eq. split; [|intros Hqu; by apply Hspec].
    destruct (Hrun st' Ht eq_refl) as (s1 & H1 & H2 & ->). exists s1. split_and!; [done..|].
    unfold owner_reference. rewrite Hd. unfold when, mbind, M_bind. destruct (lock_count st =? 1); [|done].
    by destruct (wake_up p 0 s1).
  - split; [by eapply plain_signaled_spec|]. split.
    { intros Hav Hlt Href. eapply wp_mono; [by eapply plain_satisfied_spec; eauto|]. intros [] s' (-> & ? & ?). done. }
    intros Hcur. rewrite <- Hcur in *.
    pose proof (plain_release_spec s p o owner count abandoned st Ho Hd Hv th Ht) as Hspec.
    pose proof (plain_release_run s p o owner count abandoned st Ho Hd Hv th) as Hrun.
    destruct (release st (sv_current s)) as [st'|]; [|apply Hspec; by intros []].
    intros o' Ho'. simplify_eq. split; [|intros Hqu; by apply Hspec].
    unfold owner_reference. rewrite Hd. by apply Hrun.
Qed.
End mutexes.

(** ** The only thread of the server waits for the event of handle 8 *)

#[local] Existing Instance page_4096.

Definition plain_flags : select_flags := SelectFlags false false false.
Definition demo_waiting : server := Eval vm_compute in
  run_all [_ ← select_on (OpWait [8]) 0x1000 plain_flags TIMEOUT_INFINITE; mret tt] demo_server.

Lemma wf_set_err `{PageSize} e (s : wfs) : server_wf s → server_wf (set_err e s).
Proof. intros [H1 H2]. split; [by apply server_ok_err|exact H2]. Qed.

Lemma demo_waiting_wf : server_wf (sv_wfs demo_waiting).
Proof.
  pose proof (op_keeps_wf _ (OpAddWaiter 1) demo_server_wf) as Hk.
  unfold wp in Hk. remember (run_op (OpAddWaiter 1) (sv_wfs demo_server)) as r eqn:E.
  vm_compute in E. subst r. apply (wf_set_err STATUS_PENDING) in Hk; [exact Hk|].
  exists (Wfusync 2 0). by split.
Qed.

Lemma demo_threads_ok : threads_ok (sv_threads demo_waiting).
Proof.
  set (v0 := Thread 0x24 [1] [] 0 false 0 None 0 false false).
  change (sv_threads demo_waiting) with ({[1 := v0]} : gmap Z thread).
  split.
  - intros t v [<- <-]%lookup_singleton_Some. by split.
  - intros t t' v v' [<- _]%lookup_singleton_Some [<- _]%lookup_singleton_Some _. done.
Qed.

Lemma mutex_backends_agree_witness :
  mutex_view demo_waiting 5 (Free false) ∧
  wp (sync_satisfied 5 (1, 0%nat)) (λ _ s', mutex_view s' 5 (Owned 1 1)) demo_waiting.
Proof.
  assert (mutex_view demo_waiting 5 (Free false)) as Hv.
  { eexists. split; [reflexivity|]. eexists. by split. }
  split; [exact Hv|].
  pose proof (mutex_backends_agree demo_waiting 5 (Free false) (1, 0%nat)
    (ThreadWait 1 plain_flags false SELECT_WAIT 0x1000 TIMEOUT_INFINITE false [4])
    (Thread 0x24 [1] [] 0 false 0 None 0 false false) demo_waiting_wf demo_threads_ok Hv
    eq_refl eq_refl) as (_ & Hsat & _).
  eapply wp_mono; [apply Hsat; [reflexivity|reflexivity|by intros o [= <-]]|].
  intros [] s' (_ & Hs & _). exact Hs.
Defined.
