(* ===== verification/ServerInv.v ===== *)
(** * The invariant of the server's objects and waits

    Who holds a reference to which object (src/server/object.c, thread.c, mutex.c), and
    the agreement of reference counts, wait queues, waits, threads and WFUSync cells that
    every function of ServerObjects.v relies on. A function that runs with the invariant
    cannot reach a freed object and fails no assertion. *)

From S2P Require Import Prelude.
From S2P Require Import ShmState.
From S2P Require Import WfusyncServer.
From S2P Require Import WfusyncServerOps.
From S2P Require Import WfusyncRegistry.
From S2P Require Import WfusyncServerInv.
From S2P Require Import WfusyncHistory.
From S2P Require Import WfusyncPending.
From S2P Require Import ServerObjects.
From S2P Require Import ServerObjectsSpec.
From S2P Require Import ServerMutexSpec.

(** ** Holders of references *)

(** A handle, the object around a sync object, an entry of a wait, the ownership of a
    mutex without a cell, or a variable of the running code. *)
Inductive holder :=
| HHandle (n : Z)
| HOwns (p : Z)
| HWait (e : Z * nat)
| HMutex (p : Z)
| HLocal (n : Z).

#[export] Instance holder_eq_dec : EqDecision holder.
Proof. solve_decision. Defined.
#[export] Instance holder_countable : Countable holder.
Proof.
  refine (inj_countable'
    (λ h, match h with
          | HHandle n => inl (inl n) | HOwns p => inl (inr p) | HWait e => inr (inl e)
          | HMutex p => inr (inr (inl p)) | HLocal n => inr (inr (inr n)) end)
    (λ x, match x with
          | inl (inl n) => HHandle n | inl (inr p) => HOwns p | inr (inl e) => HWait e
          | inr (inr (inl p)) => HMutex p | inr (inr (inr n)) => HLocal n end) _).
  by intros [].
Defined.

(** The references, by holder; the number of those of a kind to one object. *)
Notation references := (gmap holder Z).
Implicit Types (R : references).

Definition held (P : holder → bool) R (p : Z) : Z :=
  Z.of_nat (size (filter (λ x, P x.1 = true ∧ x.2 = p) R)).
Definition any_holder (_ : holder) : bool := true.
Definition is_handle (h : holder) : bool := match h with HHandle _ => true | _ => false end.
Definition is_lasting (h : holder) : bool :=
  match h with HHandle _ | HOwns _ | HWait _ => true | _ => false end.
Notation refs := (held any_holder).

Section counting.
Context (P : holder → bool).

Lemma held_nonneg R p : 0 ≤ held P R p.
Proof. unfold held. lia. Qed.

Lemma held_insert R h p x :
  R !! h = None → held P (<[h := p]> R) x = held P R x + b2z (P h && bool_decide (p = x)).
Proof.
  intros Hh. unfold held. rewrite map_filter_insert. simpl.
  assert (filter (λ y, P y.1 = true ∧ y.2 = x) R !! h = None) as Hn
    by (apply map_lookup_filter_None; by left).
  case_decide as E.
  - destruct E as [-> ->]. rewrite map_size_insert_None, bool_decide_true by done. simpl. lia.
  - rewrite delete_id by done. destruct (P h); simpl; [|lia].
    rewrite bool_decide_false by tauto. simpl. lia.
Qed.

Lemma held_delete R h p x :
  R !! h = Some p → held P (delete h R) x = held P R x - b2z (P h && bool_decide (p = x)).
Proof.
  intros Hh. rewrite <- (insert_delete_id R h p) at 2 by done.
  rewrite held_insert by apply lookup_delete_eq. lia.
Qed.

Lemma held_pos R h p : R !! h = Some p → P h = true → 1 ≤ held P R p.
Proof.
  intros Hh HP. pose proof (held_delete R h p p Hh) as E. pose proof (held_nonneg (delete h R) p).
  rewrite HP, bool_decide_true in E by done. simpl in E. lia.
Qed.

Lemma held_move R h h' p x :
  R !! h = Some p → R !! h' = None → P h = P h' →
  held P (<[h' := p]> (delete h R)) x = held P R x.
Proof.
  intros Hh Hh' E. rewrite held_insert by by rewrite lookup_delete_None; right.
  rewrite (held_delete _ _ _ _ Hh), E. lia.
Qed.
End counting.

Lemma held_zero (P : holder → bool) R p : (∀ h, R !! h ≠ Some p) → held P R p = 0.
Proof.
  intros Hu. unfold held. rewrite (proj2 (map_size_empty_iff _)); [done|]. apply map_empty. intros h.
  apply map_lookup_filter_None. right. intros x Hh [_ E]. simpl in E. subst x. by apply (Hu h).
Qed.

Lemma held_le (P P' : holder → bool) R p :
  (∀ h, P h = true → P' h = true) → held P R p ≤ held P' R p.
Proof.
  intros HP. unfold held. apply inj_le, map_subseteq_size.
  apply map_subseteq_spec. intros h x. rewrite !map_lookup_filter_Some. simpl. naive_solver.
Qed.

(** At most [MAX_LOCALS] variables hold references at a time. *)
Definition MAX_LOCALS : Z := 128.

Lemma refs_lasting R p :
  (∀ q x, R !! HMutex q = Some x → x = q) →
  (∀ n x, R !! HLocal n = Some x → 0 ≤ n < MAX_LOCALS) →
  refs R p ≤ held is_lasting R p + 1 + MAX_LOCALS.
Proof.
  intros Hm Hl. set (others := HMutex p :: (HLocal <$> seqZ 0 MAX_LOCALS)).
  assert (length others = 129%nat) as Hlen by done.
  assert (NoDup others) as Hnd.
  { constructor; [by intros (n & ? & _)%list_elem_of_fmap|].
    apply NoDup_fmap_2; [by intros ?? [=]|]. apply NoDup_seqZ. }
  assert (∀ h x, R !! h = Some x → x = p → is_lasting h = false → h ∈ others) as Hin.
  { intros h x Hx -> Hh. destruct h; try done.
    - apply Hm in Hx as ->. by left.
    - right. apply list_elem_of_fmap. exists n. split; [done|]. apply elem_of_seqZ.
      apply Hl in Hx. lia. }
  clearbody others. unfold held.
  set (X := dom (filter (λ y, is_lasting y.1 = true ∧ y.2 = p) R)).
  assert (dom (filter (λ y, any_holder y.1 = true ∧ y.2 = p) R) ⊆ X ∪ list_to_set others) as Hsub.
  { intros h [x Hx]%elem_of_dom. apply map_lookup_filter_Some in Hx as [Hx [_ E]]. simpl in E.
    apply elem_of_union. destruct (is_lasting h) eqn:El.
    - left. apply elem_of_dom. exists x. by apply map_lookup_filter_Some.
    - right. apply elem_of_list_to_set. by eapply Hin. }
  apply subseteq_size in Hsub. rewrite size_dom, size_union_alt in Hsub.
  assert (size ((list_to_set others : gset holder) ∖ X) ≤ 129)%nat as Hd.
  { rewrite <- Hlen, <- (size_list_to_set (C := gset holder)) by done.
    apply subseteq_size. set_solver. }
  unfold X in *. rewrite size_dom in Hsub. unfold MAX_LOCALS. lia.
Qed.

Lemma held_agree (P : holder → bool) R R' p :
  (∀ h, P h = true → R' !! h = R !! h) → held P R' p = held P R p.
Proof.
  intros E. unfold held. do 2 f_equal. apply map_eq. intros h. apply option_eq. intros x.
  rewrite !map_lookup_filter_Some. simpl. split; intros (Hx & HP & ->); (split; [|done]).
  - by rewrite <- E.
  - by rewrite E.
Qed.

Lemma held_none (P : holder → bool) R p h : held P R p = 0 → R !! h = Some p → P h = false.
Proof.
  intros Hz Hh. destruct (P h) eqn:E; [|done]. pose proof (held_pos P R h p Hh E). lia.
Qed.

(** ** The shape of the objects *)

Inductive kind := EventKind | SemaphoreKind | MutexKind.
#[export] Instance kind_eq_dec : EqDecision kind.
Proof. solve_decision. Defined.

Definition sync_kind (d : sync_data) : kind :=
  match d with EventSync _ _ _ => EventKind | SemaphoreSync _ _ _ => SemaphoreKind
             | MutexSync _ _ _ _ => MutexKind end.
Definition kind_type (k : kind) : Z :=
  match k with EventKind => INPROC_SYNC_EVENT | SemaphoreKind => INPROC_SYNC_SEMAPHORE
             | MutexKind => INPROC_SYNC_MUTEX end.
(** The sync object inside an event, a semaphore or a mutex. *)
Definition owned (d : obj_data) : option (kind * Z) :=
  match d with Event q => Some (EventKind, q) | Semaphore q => Some (SemaphoreKind, q)
             | Mutex q => Some (MutexKind, q) | Sync _ => None end.

Notation datas := (gmap Z obj_data).
Notation queues := (gmap Z (list (Z * nat))).
Definition data_of (s : server) : datas := o_data <$> sv_objs s.
Definition queue_of (s : server) : queues := o_wait_queue <$> sv_objs s.

(** What [get_obj_sync] yields. *)
Definition sync_ptr (D : datas) (x : Z) : option Z :=
  d ← D !! x; match owned d with Some (_, q) => Some q | None => Some x end.

(** ** The parts of the invariant *)

Record owns_ok R (D : datas) : Prop := {
  ow_held : ∀ p d k q, D !! p = Some d → owned d = Some (k, q) →
    R !! HOwns p = Some q ∧ ∃ d', D !! q = Some (Sync d') ∧ sync_kind d' = k;
  ow_only : ∀ p q, R !! HOwns p = Some q → ∃ d k, D !! p = Some d ∧ owned d = Some (k, q) }.

(** A queue has exactly the entries of the waits for objects with this sync object. *)
Record queues_ok R (D : datas) (Q : queues) : Prop := {
  qu_nodup : ∀ p l, Q !! p = Some l → NoDup l;
  qu_elem : ∀ p l e, Q !! p = Some l → e ∈ l ↔ ∃ x, R !! HWait e = Some x ∧ sync_ptr D x = Some p }.

Record waits_ok R (W : gmap Z thread_wait) (T : gmap Z thread) : Prop := {
  wa_entry : ∀ e x, R !! HWait e = Some x → ∃ wt, W !! e.1 = Some wt ∧ tw_objs wt !! e.2 = Some x;
  wa_thread : ∀ w wt, W !! w = Some wt → is_Some (T !! tw_thread wt);
  wa_list : ∀ t v, T !! t = Some v → NoDup (t_waits v) ∧
    ∀ w, w ∈ t_waits v → ∃ wt, W !! w = Some wt ∧ tw_thread wt = t }.

(** A mutex without a cell that thread [t] owns. *)
Definition owned_by (D : datas) (p t : Z) : Prop :=
  ∃ c a, D !! p = Some (Sync (MutexSync (Some t) c a None)).
Record mutexes_ok R (D : datas) (T : gmap Z thread) : Prop := {
  mu_list : ∀ t v p, T !! t = Some v → p ∈ t_mutex_list v ↔ owned_by D p t;
  mu_nodup : ∀ t v, T !! t = Some v → NoDup (t_mutex_list v);
  mu_held : ∀ p x, R !! HMutex p = Some x ↔ x = p ∧ ∃ t, owned_by D p t;
  mu_thread : ∀ p t, owned_by D p t → is_Some (T !! t) }.

(** The cell of a sync object with [n] waiters in the server. *)
Definition cell_ok `{PageSize} (w : wfs) (q : Z) (k : kind) (n : Z) : Prop :=
  ∃ v, w_syncs w !! q = Some v ∧ ws_server_waiters v = n ∧
    type_of (cell_idx w (ws_shm_idx v)) = kind_type k.
Definition sync_ok `{PageSize} (w : wfs) (d : sync_data) (n : Z) : Prop :=
  match sync_ws d with Some q => cell_ok w q (sync_kind d) n | None => True end ∧
  match d with
  | EventSync _ _ _ => True
  | SemaphoreSync c m ws => ws = None → 0 ≤ c ≤ m ∧ m < 2 ^ 32
  | MutexSync owner c _ None => 0 ≤ c ≤ INT_MAX ∧ (owner = None ↔ c = 0)
  | MutexSync owner c _ (Some _) => owner = None ∧ c = 0
  end.
Record syncs_ok `{PageSize} (w : wfs) (D : datas) (Q : queues) : Prop := {
  sy_data : ∀ p d l, D !! p = Some (Sync d) → Q !! p = Some l → sync_ok w d (Z.of_nat (length l));
  sy_unique : ∀ p p' d d' q, D !! p = Some (Sync d) → D !! p' = Some (Sync d') →
    sync_ws d = Some q → sync_ws d' = Some q → p = p' }.

Definition refcount_of (s : server) (p : Z) : Z := from_option o_refcount 0 (sv_objs s !! p).
Definition handle_count_of (s : server) (p : Z) : Z := from_option o_handle_count 0 (sv_objs s !! p).

Record counts_ok R (s : server) : Prop := {
  co_refs : ∀ p, refs R p = refcount_of s p;
  co_handles : ∀ p, held is_handle R p = handle_count_of s p;
  co_live : ∀ p, is_Some (sv_objs s !! p) → 1 ≤ refcount_of s p;
  co_local : ∀ n x, R !! HLocal n = Some x → 0 ≤ n < MAX_LOCALS;
  co_bound : ∀ p, held is_lasting R p + 2 * MAX_LOCALS ≤ INT_MAX;
  co_table : ∀ h p access, sv_handles s !! h = Some (p, access) → R !! HHandle h = Some p;
  co_next_obj : ∀ p, is_Some (sv_objs s !! p) → p < sv_next_obj s;
  co_next_wait : ∀ w, is_Some (sv_waits s !! w) → w < sv_next_wait s }.

Record inv `{PageSize} `{PD : Pending} R (s : server) : Prop := {
  iv_wf : wf_but (sv_wfs s);
  iv_counts : counts_ok R s;
  iv_owns : owns_ok R (data_of s);
  iv_queues : queues_ok R (data_of s) (queue_of s);
  iv_waits : waits_ok R (sv_waits s) (sv_threads s);
  iv_threads : threads_ok (sv_threads s);
  iv_mutexes : mutexes_ok R (data_of s) (sv_threads s);
  iv_syncs : syncs_ok (sv_wfs s) (data_of s) (queue_of s) }.

(** A wait that asks for all objects takes no semaphore without a cell twice. *)
Definition distinct_semaphores (D : datas) (wt : thread_wait) : Prop :=
  tw_select wt = SELECT_WAIT_ALL → ∀ i j x y p c m,
    i ≠ j → tw_objs wt !! i = Some x → tw_objs wt !! j = Some y →
    sync_ptr D x = Some p → sync_ptr D y = Some p →
    D !! p ≠ Some (Sync (SemaphoreSync c m None)).

(** The waits other than those in [X] are complete: their thread lists them and all of
    their entries are queued. *)
Definition settled (X : gset Z) R (s : server) : Prop :=
  ∀ w wt, sv_waits s !! w = Some wt → w ∉ X →
    (∃ v, sv_threads s !! tw_thread wt = Some v ∧ w ∈ t_waits v) ∧
    (∀ i x, tw_objs wt !! i = Some x → R !! HWait (w, i) = Some x) ∧
    Z.of_nat (length (tw_objs wt)) ≤ MAXIMUM_WAIT_OBJECTS ∧
    distinct_semaphores (data_of s) wt.

(** How often a mutex is held. *)
Definition hold_count `{PageSize} (w : wfs) (d : sync_data) : Z :=
  match d with
  | MutexSync _ c _ None => c
  | MutexSync _ _ _ (Some q) => from_option (λ v, c_high (cell_idx w (ws_shm_idx v))) 0 (w_syncs w !! q)
  | _ => 0
  end.
(** Every queued entry that is not in [E] can still take its mutex once more. *)
Definition open_entries (E : gset (Z * nat)) (l : list (Z * nat)) : Z :=
  Z.of_nat (length (filter (λ e, e ∉ E) l)).
Definition room `{PageSize} (E : gset (Z * nat)) (s : server) : Prop :=
  ∀ p o d, sv_objs s !! p = Some o → o_data o = Sync d →
    hold_count (sv_wfs s) d + open_entries E (o_wait_queue o) ≤ INT_MAX.

Record server_inv `{PageSize} `{PD : Pending} R (s : server) : Prop := {
  si_inv : inv R s;
  si_settled : settled ∅ R s;
  si_room : room ∅ s }.

(** ** Counting references *)

Section primitives.
Context `{PageSize} `{PD : Pending}.
Implicit Types (s : server) (o : object).

(** An object changes. *)
Definition upd (p : Z) o s : server := set_objs (<[p := o]> (sv_objs s)) (sv_next_obj s) s.

Lemma data_upd s p o o' :
  sv_objs s !! p = Some o → o_data o' = o_data o → data_of (upd p o' s) = data_of s.
Proof.
  intros Ho E. unfold data_of. simpl. rewrite fmap_insert, E. apply insert_id.
  by rewrite lookup_fmap, Ho.
Qed.
Lemma queue_upd s p o o' :
  sv_objs s !! p = Some o → o_wait_queue o' = o_wait_queue o → queue_of (upd p o' s) = queue_of s.
Proof.
  intros Ho E. unfold queue_of. simpl. rewrite fmap_insert, E. apply insert_id.
  by rewrite lookup_fmap, Ho.
Qed.
Lemma refcount_upd s p o x :
  refcount_of (upd p o s) x = if decide (p = x) then o_refcount o else refcount_of s x.
Proof. unfold refcount_of. simpl. rewrite lookup_insert. by case_decide. Qed.
Lemma handle_count_upd s p o x :
  handle_count_of (upd p o s) x = if decide (p = x) then o_handle_count o else handle_count_of s x.
Proof. unfold handle_count_of. simpl. rewrite lookup_insert. by case_decide. Qed.

Lemma data_lookup s p o : sv_objs s !! p = Some o → data_of s !! p = Some (o_data o).
Proof. intros Ho. unfold data_of. by rewrite lookup_fmap, Ho. Qed.
Lemma queue_lookup s p o : sv_objs s !! p = Some o → queue_of s !! p = Some (o_wait_queue o).
Proof. intros Ho. unfold queue_of. by rewrite lookup_fmap, Ho. Qed.
Lemma data_inv s p d : data_of s !! p = Some d → ∃ o, sv_objs s !! p = Some o ∧ o_data o = d.
Proof. unfold data_of. rewrite lookup_fmap, fmap_Some. naive_solver. Qed.

Lemma refcount_live s p : 1 ≤ refcount_of s p → is_Some (sv_objs s !! p).
Proof. unfold refcount_of. destruct (sv_objs s !! p); simpl; [done|lia]. Qed.

(** A held object is alive. *)
Lemma reference_live R s h p : counts_ok R s → R !! h = Some p → ∃ o, sv_objs s !! p = Some o.
Proof.
  intros Hc Hh. apply refcount_live. rewrite <- (co_refs _ _ Hc). by eapply held_pos.
Qed.
Lemma live_refcount R s p o : counts_ok R s → sv_objs s !! p = Some o → 1 ≤ o_refcount o.
Proof.
  intros Hc Ho. pose proof (co_live _ _ Hc p (ex_intro _ o Ho)) as Hl.
  unfold refcount_of in Hl. by rewrite Ho in Hl.
Qed.
Lemma refcount_refs R s p o : counts_ok R s → sv_objs s !! p = Some o → o_refcount o = refs R p.
Proof. intros Hc Ho. rewrite (co_refs _ _ Hc). unfold refcount_of. by rewrite Ho. Qed.
Lemma refcount_small R s p o : inv R s → sv_objs s !! p = Some o → o_refcount o < INT_MAX.
Proof.
  intros [_ Hc _ _ _ _ Hm _] Ho. rewrite (refcount_refs _ _ _ _ Hc Ho).
  pose proof (refs_lasting R p) as Hr. pose proof (co_bound _ _ Hc p) as Hb.
  assert (refs R p ≤ held is_lasting R p + 1 + MAX_LOCALS); [|unfold MAX_LOCALS in *; lia].
  apply Hr; [|apply Hc]. intros q x Hq. by apply (mu_held _ _ _ Hm) in Hq as [-> _].
Qed.
Lemma live_iff_data s p : is_Some (data_of s !! p) ↔ is_Some (sv_objs s !! p).
Proof. unfold data_of. by rewrite lookup_fmap, fmap_is_Some. Qed.

(** ** References held by variables *)

(** The references other than those of variables. *)
Definition same_lasting R R' : Prop := ∀ h, (∀ n, h ≠ HLocal n) → R' !! h = R !! h.

Lemma owns_agree R R' D :
  (∀ p, R' !! HOwns p = R !! HOwns p) → owns_ok R D → owns_ok R' D.
Proof. intros E [H1 H2]. split; intros *; rewrite (E p); eauto. Qed.
Lemma queues_agree R R' D Q :
  (∀ e, R' !! HWait e = R !! HWait e) → queues_ok R D Q → queues_ok R' D Q.
Proof. intros E [H1 H2]. split; [done|]. intros p l e Hl. rewrite (E e). eauto. Qed.
Lemma waits_agree R R' W T :
  (∀ e, R' !! HWait e = R !! HWait e) → waits_ok R W T → waits_ok R' W T.
Proof. intros E [H1 H2 H3]. split; [|done..]. intros e x. rewrite (E e). eauto. Qed.
Lemma mutexes_agree R R' D T :
  (∀ p, R' !! HMutex p = R !! HMutex p) → mutexes_ok R D T → mutexes_ok R' D T.
Proof. intros E [H1 H2 H3 H4]. split; [done..| |done]. intros p x. rewrite (E p). eauto. Qed.

Lemma settled_lasting X R R' s : same_lasting R R' → settled X R s → settled X R' s.
Proof.
  intros E Hs w wt Hw Hx. destruct (Hs w wt Hw Hx) as (H1 & H2 & H3). split_and!; [done| |apply H3..].
  intros i x Hi. rewrite E by done. eauto.
Qed.

(** Taking or dropping a reference of a variable to an object that stays. *)
Lemma inv_local R R' s p o k :
  inv R s → sv_objs s !! p = Some o → same_lasting R R' → 1 ≤ o_refcount o + k →
  (∀ n x, R' !! HLocal n = Some x → 0 ≤ n < MAX_LOCALS) →
  (∀ x, refs R' x = refs R x + if decide (p = x) then k else 0) →
  inv R' (upd p (with_refcount (o_refcount o + k) o) s).
Proof.
  intros [Hwf Hc Hw Hq Hwa Ht Hm Hy] Ho E Hk Hl Hr.
  split; rewrite ?(data_upd _ _ _ _ Ho), ?(queue_upd _ _ _ _ Ho) by done; try done.
  2:{ eapply owns_agree; [|done]. intros. by apply E. }
  2:{ eapply queues_agree; [|done]. intros. by apply E. }
  2:{ eapply waits_agree; [|done]. intros. by apply E. }
  2:{ eapply mutexes_agree; [|done]. intros. by apply E. }
  destruct Hc as [C1 C2 C3 C4 C5 C6 C7 C8]. split; simpl.
  - intros x. rewrite refcount_upd, Hr, C1. case_decide; [|lia]. subst x.
    unfold refcount_of. by rewrite Ho.
  - intros x. rewrite handle_count_upd, (held_agree _ R R'), C2.
    + case_decide; [|done]. subst x. unfold handle_count_of. by rewrite Ho.
    + intros h Hh. apply E. by intros n ->.
  - intros x Hx. rewrite refcount_upd. case_decide; [done|]. apply C3.
    simpl in Hx. by rewrite lookup_insert_ne in Hx.
  - done.
  - intros x. rewrite (held_agree _ R R'); [done|]. intros h Hh. apply E. by intros n ->.
  - intros h x a Hh. rewrite E by done. eauto.
  - intros x Hx. apply C7. destruct (decide (p = x)) as [<-|]; [by rewrite Ho|].
    by rewrite lookup_insert_ne in Hx.
  - done.
Qed.

Lemma same_lasting_insert R n p : same_lasting R (<[HLocal n := p]> R).
Proof. intros h Hh. apply lookup_insert_ne. intros <-. by apply (Hh n). Qed.
Lemma same_lasting_delete R n : same_lasting R (delete (HLocal n) R).
Proof. intros h Hh. apply lookup_delete_ne. intros <-. by apply (Hh n). Qed.

Lemma wp_grab R s p o n (Q : unit → server → Prop) :
  inv R s → sv_objs s !! p = Some o → R !! HLocal n = None → 0 ≤ n < MAX_LOCALS →
  (let s' := upd p (with_refcount (o_refcount o + 1) o) s in
   inv (<[HLocal n := p]> R) s' → Q tt s') →
  wp (grab_object p) Q s.
Proof.
  intros Hinv Ho Hn Hl HQ. unfold grab_object. rewrite wp_bind, (wp_obj _ _ _ _ Ho), wp_bind, wp_assert.
  pose proof (refcount_small _ _ _ _ Hinv Ho). split; [by apply Z.ltb_lt|]. apply HQ.
  pose proof (live_refcount _ _ _ _ (iv_counts _ _ Hinv) Ho).
  apply (inv_local R); [done..|apply same_lasting_insert|lia| |].
  - intros m x. rewrite lookup_insert. case_decide as E; [by injection E as <-|].
    apply (iv_counts _ _ Hinv).
  - intros x. rewrite held_insert by done. simpl. by destruct (decide (p = x)) as [->|];
      [rewrite bool_decide_true|rewrite bool_decide_false].
Qed.

Lemma refs_delete R h p x :
  R !! h = Some p → refs (delete h R) x = refs R x + if decide (p = x) then -1 else 0.
Proof.
  intros Hh. rewrite (held_delete _ _ _ _ _ Hh). simpl.
  destruct (decide (p = x)); [rewrite bool_decide_true|rewrite bool_decide_false]; simpl; done || lia.
Qed.

(** Dropping a reference that is not the last one. *)
Lemma inv_drop R s p o n :
  inv R s → sv_objs s !! p = Some o → R !! HLocal n = Some p → o_refcount o ≠ 1 →
  inv (delete (HLocal n) R) (upd p (with_refcount (o_refcount o - 1) o) s).
Proof.
  intros Hinv Ho Hn Hne. pose proof (live_refcount _ _ _ _ (iv_counts _ _ Hinv) Ho).
  apply (inv_local R); [done..|apply same_lasting_delete|lia| |].
  - intros m x. rewrite lookup_delete. case_decide; [done|]. apply (iv_counts _ _ Hinv).
  - intros x. by apply refs_delete.
Qed.

(** ** Freeing an object nobody holds *)

Definition unheld R (q : Z) : Prop := ∀ h, R !! h ≠ Some q.

Lemma unheld_refs R q : refs R q = 0 → unheld R q.
Proof. intros Hz h Hh. by apply (held_none _ _ _ _ Hz) in Hh. Qed.

Lemma sync_ptr_delete D q x : x ≠ q → sync_ptr (delete q D) x = sync_ptr D x.
Proof. intros Hne. unfold sync_ptr. by rewrite lookup_delete_ne. Qed.

Lemma owns_delete R D q :
  unheld R q → owns_ok R D → owns_ok (delete (HOwns q) R) (delete q D).
Proof.
  intros Hu [H1 H2]. split.
  - intros p d k x [Hne Hp]%lookup_delete_Some Hk. destruct (H1 p d k x Hp Hk) as [Hr Hd].
    rewrite lookup_delete_ne by congruence. split; [done|].
    rewrite lookup_delete_ne; [done|]. intros ->. by apply (Hu (HOwns p)).
  - intros p x [Hne Hp]%lookup_delete_Some. destruct (H2 p x Hp) as (d & k & Hd & Hk).
    exists d, k. split; [|done]. rewrite lookup_delete_ne; [done|]. congruence.
Qed.
Lemma queues_delete R D Q q :
  unheld R q → queues_ok R D Q → queues_ok R (delete q D) (delete q Q).
Proof.
  intros Hu [H1 H2]. split.
  - intros p l [_ Hp]%lookup_delete_Some. eauto.
  - intros p l e [Hne Hp]%lookup_delete_Some. rewrite (H2 p l e Hp).
    split; intros (x & Hx & Hs); exists x; (split; [done|]); revert Hs;
      rewrite sync_ptr_delete; (done || (intros ->; by apply (Hu (HWait e)))).
Qed.
Lemma owned_by_delete R D T q p t :
  unheld R q → mutexes_ok R D T → owned_by (delete q D) p t ↔ owned_by D p t.
Proof.
  intros Hu Hm. unfold owned_by. split; intros (c & a & Hp).
  - apply lookup_delete_Some in Hp as [_ Hp]. eauto.
  - exists c, a. rewrite lookup_delete_ne; [done|]. intros ->. apply (Hu (HMutex p)).
    apply (mu_held _ _ _ Hm). split; [done|]. exists t. by exists c, a.
Qed.
Lemma mutexes_delete R D T q :
  unheld R q → mutexes_ok R D T → mutexes_ok R (delete q D) T.
Proof.
  intros Hu Hm. pose proof (λ p t, owned_by_delete R D T q p t Hu Hm) as E.
  destruct Hm as [H1 H2 H3 H4]. split.
  - intros t v p Hv. by rewrite E, H1.
  - done.
  - intros p x. rewrite H3. by setoid_rewrite E.
  - intros p t. rewrite E. eauto.
Qed.

(** What the destruction of a sync object's cell does to the others. *)
Definition destroyed (ws : option Z) (w w' : wfs) : Prop :=
  match ws with
  | None => w' = w
  | Some c => wf_but w' ∧ w_syncs w' = delete c (w_syncs w) ∧
      ∀ q v, q ≠ c → w_syncs w !! q = Some v → cell_idx w' (ws_shm_idx v) = cell_idx w (ws_shm_idx v)
  end.

Lemma syncs_delete w w' D Q q d :
  D !! q = Some (Sync d) → destroyed (sync_ws d) w w' →
  syncs_ok w D Q → syncs_ok w' (delete q D) (delete q Q).
Proof.
  intros Hq Hd [H1 H2]. split.
  - intros p d' l [Hne Hp]%lookup_delete_Some [_ Hl]%lookup_delete_Some.
    destruct (H1 p d' l Hp Hl) as [Hc Hv]. split; [|done].
    destruct (sync_ws d') as [c'|] eqn:Ec'; [|done]. unfold destroyed in Hd.
    destruct (sync_ws d) as [c|] eqn:Ec; [|by subst]. destruct Hd as (_ & Hs & Hold).
    destruct Hc as (v & Hc & Hn & Ht).
    assert (c' ≠ c) as Hcc by (intros ->; apply Hne; by eapply H2).
    exists v. rewrite Hs, lookup_delete_ne by done. by rewrite (Hold c').
  - intros p p' d1 d2 c [_ Hp]%lookup_delete_Some [_ Hp']%lookup_delete_Some. eauto.
Qed.
Lemma syncs_delete_owner w D Q x :
  syncs_ok w D Q → syncs_ok w (delete x D) (delete x Q).
Proof.
  intros [H1 H2]. split.
  - intros p d l [_ Hp]%lookup_delete_Some [_ Hl]%lookup_delete_Some. eauto.
  - intros p p' d1 d2 c [_ Hp]%lookup_delete_Some [_ Hp']%lookup_delete_Some. eauto.
Qed.

(** The object at [p] goes. *)
Definition del (p : Z) s : server := set_objs (delete p (sv_objs s)) (sv_next_obj s) s.

Lemma counts_delete R R' s s' q :
  counts_ok R s → unheld R' q →
  (∀ h, h ≠ HOwns q → (∀ n, h ≠ HLocal n) → R' !! h = R !! h) →
  (∀ n x, R' !! HLocal n = Some x → 0 ≤ n < MAX_LOCALS) →
  (∀ x, x ≠ q → refs R' x = refs R x ∧ held is_handle R' x = held is_handle R x ∧
    held is_lasting R' x ≤ held is_lasting R x) →
  sv_objs s' = delete q (sv_objs s) → sv_handles s' = sv_handles s →
  sv_next_obj s' = sv_next_obj s → sv_waits s' = sv_waits s → sv_next_wait s' = sv_next_wait s →
  counts_ok R' s'.
Proof.
  intros [C1 C2 C3 C4 C5 C6 C7 C8] Hu Ha Hl Hx Eo Eh En Ew Enw.
  assert (∀ P : holder → bool, held P R' q = 0) as Hz.
  { intros P. by apply held_zero. }
  split.
  - intros x. unfold refcount_of. rewrite Eo. destruct (decide (x = q)) as [->|Hne].
    + by rewrite lookup_delete_eq, Hz.
    + rewrite lookup_delete_ne by done. rewrite (proj1 (Hx x Hne)). apply C1.
  - intros x. unfold handle_count_of. rewrite Eo. destruct (decide (x = q)) as [->|Hne].
    + by rewrite lookup_delete_eq, Hz.
    + rewrite lookup_delete_ne by done. rewrite (proj1 (proj2 (Hx x Hne))). apply C2.
  - intros x. rewrite Eo. intros [o [Hne Ho]%lookup_delete_Some]. unfold refcount_of.
    rewrite Eo, lookup_delete_ne by done. apply C3. by exists o.
  - done.
  - intros x. destruct (decide (x = q)) as [->|Hne].
    + rewrite Hz. by unfold MAX_LOCALS, INT_MAX.
    + pose proof (C5 x). destruct (Hx x Hne) as (_ & _ & ?). lia.
  - intros h x a. rewrite Eh. intros Hh. rewrite Ha by done. eauto.
  - intros x. rewrite Eo, En. intros [o [_ Ho]%lookup_delete_Some]. apply C7. by exists o.
  - intros x. rewrite Ew, Enw. eauto.
Qed.

(** The last reference to a sync object was that of a variable. *)
Lemma inv_free_sync R s s' q o d n :
  inv R s → sv_objs s !! q = Some o → o_data o = Sync d → R !! HLocal n = Some q → o_refcount o = 1 →
  wf_but (sv_wfs s') → destroyed (sync_ws d) (sv_wfs s) (sv_wfs s') →
  sv_objs s' = delete q (sv_objs s) → sv_handles s' = sv_handles s →
  sv_next_obj s' = sv_next_obj s → sv_waits s' = sv_waits s → sv_next_wait s' = sv_next_wait s →
  sv_threads s' = sv_threads s →
  inv (delete (HLocal n) R) s'.
Proof.
  intros [Hwf Hc Ho Hq Hwa Ht Hm Hy] Hob Hd Hn Hr Hwf' Hdes Eo Eh En Ew Enw Et.
  rewrite (refcount_refs _ _ _ _ Hc Hob) in Hr. pose proof (refs_delete R _ q q Hn) as Hz.
  rewrite decide_True, Hr in Hz by done. assert (unheld (delete (HLocal n) R) q) as Hu
    by by apply unheld_refs. clear Hz.
  assert (data_of s' = delete q (data_of s)) as Ed' by (unfold data_of; by rewrite Eo, fmap_delete).
  assert (queue_of s' = delete q (queue_of s)) as Eq' by (unfold queue_of; by rewrite Eo, fmap_delete).
  pose proof (data_lookup _ _ _ Hob) as Hdq. rewrite Hd in Hdq.
  split; rewrite ?Ed', ?Eq', ?Ew, ?Et; try done.
  - eapply counts_delete; [done|done| | | |done..].
    + intros h _ Hh. apply lookup_delete_ne. intros <-. by apply (Hh n).
    + intros m x [_ Hx]%lookup_delete_Some. by eapply (co_local _ _ Hc).
    + intros x Hne. rewrite !(held_delete _ _ _ _ _ Hn). simpl. rewrite bool_decide_false by done. simpl. lia.
  - rewrite <- (delete_id (delete (HLocal n) R) (HOwns q)).
    + apply owns_delete; [done|]. eapply owns_agree; [|done]. intros p. by rewrite lookup_delete_ne.
    + rewrite lookup_delete_ne by done. destruct (R !! HOwns q) eqn:E; [|done].
      apply (ow_only _ _ Ho) in E as (? & ? & E & ?). by simplify_eq.
  - apply queues_delete; [done|]. eapply queues_agree; [|done]. intros e. by rewrite lookup_delete_ne.
  - eapply waits_agree; [|done]. intros e. by rewrite lookup_delete_ne.
  - apply mutexes_delete; [done|]. eapply mutexes_agree; [|done]. intros p. by rewrite lookup_delete_ne.
  - by eapply syncs_delete.
Qed.

(** The last reference to the object around a sync object was that of a variable; the
    variable now stands for its reference to the sync object. *)
Lemma inv_free_owner R s x o k q n :
  inv R s → sv_objs s !! x = Some o → owned (o_data o) = Some (k, q) →
  R !! HLocal n = Some x → o_refcount o = 1 →
  inv (<[HLocal n := q]> (delete (HOwns x) (delete (HLocal n) R))) (del x s).
Proof.
  intros [Hwf Hc Ho Hq Hwa Ht Hm Hy] Hob Hd Hn Hr.
  rewrite (refcount_refs _ _ _ _ Hc Hob) in Hr. pose proof (refs_delete R _ x x Hn) as Hz.
  rewrite decide_True, Hr in Hz by done. assert (unheld (delete (HLocal n) R) x) as Hu
    by by apply unheld_refs. clear Hz.
  assert (data_of (del x s) = delete x (data_of s)) as Ed' by (unfold data_of; simpl; by rewrite fmap_delete).
  assert (queue_of (del x s) = delete x (queue_of s)) as Eq' by (unfold queue_of; simpl; by rewrite fmap_delete).
  pose proof (data_lookup _ _ _ Hob) as Hdx.
  destruct (ow_held _ _ Ho _ _ _ _ Hdx Hd) as [Hown _].
  set (R1 := delete (HLocal n) R) in *.
  assert (R1 !! HOwns x = Some q) as Hown1 by by (unfold R1; rewrite lookup_delete_ne).
  assert (q ≠ x) as Hqx by (intros ->; by apply (Hu (HOwns x))).
  set (R2 := <[HLocal n := q]> (delete (HOwns x) R1)).
  assert (∀ h, h ≠ HOwns x → h ≠ HLocal n → R2 !! h = R !! h) as Hold.
  { intros h H1 H2. unfold R2, R1. by rewrite lookup_insert_ne, !lookup_delete_ne. }
  assert (unheld R2 x) as Hu2.
  { intros h. unfold R2. rewrite lookup_insert, lookup_delete. repeat case_decide; first [congruence|apply Hu]. }
  assert (R1 !! HLocal n = None) as Hn1 by apply lookup_delete_eq.
  assert (∀ P y, held P R2 y = held P R y - b2z (P (HLocal n) && bool_decide (x = y))
            - b2z (P (HOwns x) && bool_decide (q = y)) + b2z (P (HLocal n) && bool_decide (q = y))) as Hheld.
  { intros P y. unfold R2. rewrite held_insert by by rewrite lookup_delete_ne.
    rewrite (held_delete _ _ _ _ _ Hown1). unfold R1. by rewrite (held_delete _ _ _ _ _ Hn). }
  split; rewrite ?Ed', ?Eq'; try done.
  - eapply counts_delete; [done|done| | | |done..].
    + intros h H1 H2. by apply Hold.
    + intros m y. destruct (decide (m = n)) as [->|Hne]; [intros _; by eapply (co_local _ _ Hc)|].
      rewrite Hold by congruence. apply (co_local _ _ Hc).
    + intros y Hne. rewrite !Hheld. simpl. rewrite (bool_decide_false (x = y)) by done. simpl.
      destruct (bool_decide (q = y)); simpl; lia.
  - eapply owns_agree; [|apply (owns_delete R1); [done|]].
    + intros p. unfold R2. by rewrite lookup_insert_ne.
    + eapply owns_agree; [|done]. intros p. unfold R1. by rewrite lookup_delete_ne.
  - apply queues_delete; [done|]. eapply queues_agree; [|done]. intros e. by rewrite Hold.
  - eapply waits_agree; [|done]. intros e. by rewrite Hold.
  - apply mutexes_delete; [done|]. eapply mutexes_agree; [|done]. intros p. by rewrite Hold.
  - by apply syncs_delete_owner.
Qed.
End primitives.
