(* ===== verification/ServerRefs.v ===== *)
(** * Taking and dropping references

    [release_object], [get_obj_sync] and the [signaled] methods (src/server/object.c,
    event.c, semaphore.c, mutex.c) with the invariant of ServerInv.v. *)

From S2P Require Import Prelude.
From S2P Require Import ShmState.
From S2P Require Import WfusyncServer.
From S2P Require Import WfusyncServerOps.
From S2P Require Import WfusyncRegistry.
From S2P Require Import WfusyncServerInv.
From S2P Require Import WfusyncHistory.
From S2P Require Import WfusyncPending.
From S2P Require Import ServerObjects.
From S2P Require Import ServerObjectsSpec.
From S2P Require Import ServerMutexSpec.
From S2P Require Import ServerInv.

Section refs.
Context `{PageSize} `{PD : Pending}.
Implicit Types (s : server) (o : object) (R : references).

Lemma wp_set_obj p o (Q : unit → server → Prop) s : wp (set_obj p o) Q s ↔ Q tt (upd p o s).
Proof. done. Qed.

(** No mutex without a cell is owned. *)
Definition idle (d : sync_data) : Prop := match d with MutexSync _ c _ _ => c = 0 | _ => True end.
(** The state after the last reference to a sync object is gone. *)
Definition freed (q : Z) (l : list Z) (w : wfs) s : server :=
  del q (set_wfusync_mutexes l (on_wfs (λ _, w) s)).

Lemma wp_wfusync_destroy c (Q : unit → server → Prop) s v :
  wf_but (sv_wfs s) → w_syncs (sv_wfs s) !! c = Some v →
  (∀ w, wf_but w → destroyed (Some c) (sv_wfs s) w → Q tt (on_wfs (λ _, w) s)) →
  wp (wfu (wfusync_destroy (Some c))) Q s.
Proof.
  intros Hwf Hc HQ. rewrite wp_wfu. eapply wp_mono.
  - by apply (destroy_wf_but _ c v).
  - intros [] w (Hw & Hs & Hold). by apply HQ.
Qed.

(** The [destroy] methods of sync objects. *)
Lemma wp_destroy_sync q d (Q : unit → server → Prop) s :
  idle d → wf_but (sv_wfs s) →
  (∀ c, sync_ws d = Some c → is_Some (w_syncs (sv_wfs s) !! c)) →
  (∀ l w, wf_but w → destroyed (sync_ws d) (sv_wfs s) w →
     Q tt (set_wfusync_mutexes l (on_wfs (λ _, w) s))) →
  wp (match d with
      | EventSync _ _ ws => event_sync_destroy ws
      | SemaphoreSync _ _ ws => semaphore_sync_destroy ws
      | MutexSync _ count _ ws => mutex_sync_destroy q count ws
      end) Q s.
Proof.
  intros Hi Hwf Hc HQ.
  assert (∀ l w, set_wfusync_mutexes l (on_wfs (λ _, w) s) = on_wfs (λ _, w) (set_wfusync_mutexes l s)) as E
    by done.
  assert (s = set_wfusync_mutexes (sv_wfusync_mutexes s) (on_wfs (λ _, sv_wfs s) s)) as Es by by destruct s.
  destruct d as [m g [c|]|c0 m [c|]|ow c0 a [c|]]; simpl in *; try destruct (Hc c eq_refl) as [v Hv].
  - eapply wp_wfusync_destroy; [done..|]. intros w Hw Hd. specialize (HQ (sv_wfusync_mutexes s) w Hw Hd).
    by destruct s.
  - rewrite wp_ret, Es. by apply HQ.
  - eapply wp_wfusync_destroy; [done..|]. intros w Hw Hd. specialize (HQ (sv_wfusync_mutexes s) w Hw Hd).
    by destruct s.
  - rewrite wp_ret, Es. by apply HQ.
  - unfold mutex_sync_destroy. wp_run idtac. eapply wp_wfusync_destroy; [done..|]. intros w Hw Hd.
    rewrite wp_assert. split; [by apply Z.eqb_eq|]. by apply (HQ _ w).
  - unfold mutex_sync_destroy. wp_run idtac. split; [by apply Z.eqb_eq|]. rewrite Es. by apply HQ.
Qed.

Lemma wp_release_sync m s q o d (Q : unit → server → Prop) :
  sv_objs s !! q = Some o → o_data o = Sync d → 1 ≤ o_refcount o →
  (o_refcount o ≠ 1 → Q tt (upd q (with_refcount (o_refcount o - 1) o) s)) →
  (o_refcount o = 1 → o_handle_count o = 0 ∧ o_wait_queue o = [] ∧ idle d ∧ wf_but (sv_wfs s) ∧
     (∀ c, sync_ws d = Some c → is_Some (w_syncs (sv_wfs s) !! c)) ∧
     ∀ l w, wf_but w → destroyed (sync_ws d) (sv_wfs s) w → Q tt (freed q l w s)) →
  wp (release_levels (S m) q) Q s.
Proof.
  intros Ho Hd Hr Hmore Hlast. cbn [release_levels].
  rewrite wp_bind, (wp_obj _ _ _ _ Ho), wp_bind, wp_assert. split.
  { apply negb_true_iff, Z.eqb_neq. lia. }
  rewrite wp_bind, wp_set_obj. unfold truth. destruct (Z.eqb_spec (o_refcount o - 1) 0) as [E|E]; cbn [negb].
  2:{ rewrite wp_ret. apply Hmore. lia. }
  destruct (Hlast ltac:(lia)) as (Hh & Hqu & Hi & Hwf & Hc & HQ).
  rewrite wp_bind, wp_assert. split; [by apply Z.eqb_eq|].
  rewrite wp_bind, wp_assert. split; [by apply bool_decide_eq_true|].
  rewrite Hd, wp_bind. apply (wp_destroy_sync q d); [done|done|exact Hc|].
  intros l w Hw Hdes. unfold free_object. rewrite wp_modify. specialize (HQ l w Hw Hdes).
  unfold freed, del in HQ. simpl in *. by rewrite delete_insert_eq.
Qed.

(** ** The last reference of a variable *)

Definition env_of s :=
  (sv_waits s, sv_next_wait s, sv_threads s, sv_next_obj s, sv_current s, sv_handles s,
   sv_current_time s, sv_monotonic_time s, sv_sent s).

(** The cells that are left are as they were. *)
Definition same_cells (w w' : wfs) : Prop :=
  ∀ c v, w_syncs w' !! c = Some v →
    w_syncs w !! c = Some v ∧ cell_idx w' (ws_shm_idx v) = cell_idx w (ws_shm_idx v).
Lemma destroyed_cells ws w w' : destroyed ws w w' → same_cells w w'.
Proof.
  destruct ws as [c|]; [|by intros ->]. intros (_ & Hs & Hold) q v. rewrite Hs.
  intros [Hne Hq]%lookup_delete_Some. split; [done|by apply (Hold q)].
Qed.

(** What dropping the reference of variable [n] leaves. *)
Record released (n : Z) R s R' s' : Prop := {
  rl_refs : ∀ h, (∀ q, h ≠ HOwns q) → R' !! h = delete (HLocal n) R !! h;
  rl_data : data_of s' ⊆ data_of s;
  rl_queue : queue_of s' ⊆ queue_of s;
  rl_cells : same_cells (sv_wfs s) (sv_wfs s');
  rl_env : env_of s' = env_of s }.

(** An object held once, by a variable, has no handles, no waiters and no owner. *)
Lemma last_reference R s p o n :
  inv R s → sv_objs s !! p = Some o → R !! HLocal n = Some p → o_refcount o = 1 →
  o_handle_count o = 0 ∧ (∀ h, R !! h = Some p → h = HLocal n) ∧
  (∀ d, o_data o = Sync d → o_wait_queue o = [] ∧ idle d).
Proof.
  intros [_ Hc Ho Hq _ _ Hm Hy] Hob Hn Hr. rewrite (refcount_refs _ _ _ _ Hc Hob) in Hr.
  pose proof (refs_delete R _ p p Hn) as Hz. rewrite decide_True, Hr in Hz by done.
  pose proof (unheld_refs _ _ Hz) as Hu. split_and!.
  - pose proof (held_le is_handle any_holder (delete (HLocal n) R) p ltac:(done)) as Hle.
    rewrite (held_delete _ _ _ _ _ Hn) in Hle. simpl in Hle. pose proof (held_nonneg is_handle R p).
    pose proof (co_handles _ _ Hc p) as E. unfold handle_count_of in E. rewrite Hob in E. simpl in E. lia.
  - intros h Hh. destruct (decide (h = HLocal n)); [done|]. exfalso. apply (Hu h).
    by rewrite lookup_delete_ne.
  - intros d Hd. pose proof (data_lookup _ _ _ Hob) as Hdp. rewrite Hd in Hdp.
    pose proof (queue_lookup _ _ _ Hob) as Hqp. split.
    + destruct (o_wait_queue o) as [|e l] eqn:El; [done|]. exfalso.
      destruct (proj1 (qu_elem _ _ _ Hq _ _ e Hqp)) as (x & Hx & Hs); [by left|].
      destruct (decide (x = p)) as [->|Hne].
      * apply (Hu (HWait e)). by rewrite lookup_delete_ne.
      * unfold sync_ptr in Hs. destruct (data_of s !! x) as [dx|] eqn:Ex; [|done]. simpl in Hs.
        destruct (owned dx) as [[k q]|] eqn:Eo; [|by injection Hs]. injection Hs as ->.
        apply (Hu (HOwns x)). rewrite lookup_delete_ne by done. by eapply (ow_held _ _ Ho).
    + destruct d as [| |ow c a ws]; [done|done|]. simpl.
      destruct (sy_data _ _ _ Hy _ _ _ Hdp Hqp) as [_ Hv]. destruct ws as [q|]; [apply Hv|].
      apply Hv. destruct ow as [t|]; [|done]. exfalso. apply (Hu (HMutex p)).
      rewrite lookup_delete_ne by done. apply (mu_held _ _ _ Hm). split; [done|]. exists t. by eexists _, _.
Qed.

Lemma live_cell_key R s q o d c :
  inv R s → sv_objs s !! q = Some o → o_data o = Sync d → sync_ws d = Some c →
  is_Some (w_syncs (sv_wfs s) !! c).
Proof.
  intros [_ _ _ _ _ _ _ Hy] Ho Hd Hc. pose proof (data_lookup _ _ _ Ho) as Hdp. rewrite Hd in Hdp.
  destruct (sy_data _ _ _ Hy _ _ _ Hdp (queue_lookup _ _ _ Ho)) as [Hok _]. rewrite Hc in Hok.
  destruct Hok as (v & Hv & _). by exists v.
Qed.

Lemma destroyed_wf ws w w' : wf_but w → destroyed ws w w' → wf_but w'.
Proof. destruct ws; simpl; [by intros _ [? _]|by intros ? ->]. Qed.

(** A variable drops its reference to a sync object. *)
Lemma wp_release_local_sync m R s q o d n (Q : unit → server → Prop) :
  inv R s → sv_objs s !! q = Some o → o_data o = Sync d → R !! HLocal n = Some q →
  (o_refcount o ≠ 1 → let s' := upd q (with_refcount (o_refcount o - 1) o) s in
     inv (delete (HLocal n) R) s' → Q tt s') →
  (o_refcount o = 1 → ∀ l w, same_cells (sv_wfs s) w →
     let s' := freed q l w s in inv (delete (HLocal n) R) s' → Q tt s') →
  wp (release_levels (S m) q) Q s.
Proof.
  intros Hinv Ho Hd Hn H1 H2. apply (wp_release_sync m s q o d); [done|done|..].
  - by eapply live_refcount; [apply Hinv|].
  - intros Hne. by apply H1, inv_drop.
  - intros Hr. destruct (last_reference _ _ _ _ _ Hinv Ho Hn Hr) as (Hh & _ & Hq).
    destruct (Hq d Hd) as [Hqu Hi]. split_and!; [done|done|done|apply Hinv| |].
    + intros c Hc. by eapply live_cell_key.
    + intros l w Hw Hdes. apply (H2 Hr l w); [by eapply destroyed_cells|]. by eapply (inv_free_sync R s).
Qed.

Lemma data_del p s : data_of (del p s) = delete p (data_of s).
Proof. unfold data_of. simpl. by rewrite fmap_delete. Qed.
Lemma queue_del p s : queue_of (del p s) = delete p (queue_of s).
Proof. unfold queue_of. simpl. by rewrite fmap_delete. Qed.

Lemma released_drop R s p o o' n :
  sv_objs s !! p = Some o → o_data o' = o_data o → o_wait_queue o' = o_wait_queue o →
  released n R s (delete (HLocal n) R) (upd p o' s).
Proof. intros Ho E1 E2. split; [done|by rewrite (data_upd _ _ _ _ Ho)|by rewrite (queue_upd _ _ _ _ Ho)|done|done]. Qed.
Lemma released_freed R s q l w n : same_cells (sv_wfs s) w → released n R s (delete (HLocal n) R) (freed q l w s).
Proof.
  split; [done|..|done|done]; unfold freed; rewrite ?data_del, ?queue_del; apply delete_subseteq.
Qed.

(** An object nobody waits for has an empty queue. *)
Lemma owner_queue_empty R s x o k q :
  inv R s → sv_objs s !! x = Some o → owned (o_data o) = Some (k, q) → o_wait_queue o = [].
Proof.
  intros [_ Hc Hw Hq _ _ _ _] Ho Hk. pose proof (data_lookup _ _ _ Ho) as Hd.
  destruct (o_wait_queue o) as [|e l] eqn:El; [done|]. exfalso.
  pose proof (queue_lookup _ _ _ Ho) as Hqx. rewrite El in Hqx.
  destruct (proj1 (qu_elem _ _ _ Hq _ _ e Hqx)) as (y & Hy & Hs); [by left|].
  unfold sync_ptr in Hs. destruct (data_of s !! y) as [dy|] eqn:Ey; [|done]. simpl in Hs.
  destruct (owned dy) as [[k' q']|] eqn:Eo; injection Hs as ->; [|congruence].
  destruct (ow_held _ _ Hw _ _ _ _ Ey Eo) as (_ & d' & Hx & _). rewrite Hd in Hx. injection Hx as Hx.
  by rewrite Hx in Hk.
Qed.

Lemma delete_insert_ne_state p x o s :
  x ≠ p → del x (upd p o s) = upd p o (del x s).
Proof. intros Hne. unfold del, upd, set_objs. simpl. by rewrite delete_insert_ne. Qed.

(** A variable drops its reference to any object. *)
Lemma wp_release_local R s n p (Q : unit → server → Prop) :
  inv R s → R !! HLocal n = Some p →
  (∀ R' s', inv R' s' → released n R s R' s' → Q tt s') →
  wp (release_object p) Q s.
Proof.
  intros Hinv Hn HQ. destruct (reference_live _ _ _ _ (iv_counts _ _ Hinv) Hn) as [o Ho].
  unfold release_object. destruct (owned (o_data o)) as [[k q]|] eqn:Hk.
  2:{ destruct (o_data o) as [d| | |] eqn:Hd; try done.
      eapply wp_release_local_sync; [done..| |].
      - intros Hr s' Hi. eapply HQ; [exact Hi|by apply (released_drop _ _ _ o)].
      - intros Hr l w Hce s' Hi. eapply HQ; [exact Hi|by apply released_freed]. }
  pose proof (live_refcount _ _ _ _ (iv_counts _ _ Hinv) Ho) as Hr.
  change 2%nat with (S 1). remember 1%nat as m eqn:Em. cbn [release_levels].
  rewrite wp_bind, (wp_obj _ _ _ _ Ho), wp_bind, wp_assert. split.
  { apply negb_true_iff, Z.eqb_neq. lia. }
  rewrite wp_bind, wp_set_obj. unfold truth. destruct (Z.eqb_spec (o_refcount o - 1) 0) as [E|E]; cbn [negb].
  2:{ rewrite wp_ret. eapply HQ; [apply inv_drop; [done..|lia]|by apply (released_drop _ _ _ o)]. }
  assert (o_refcount o = 1) as Hr1 by lia.
  destruct (last_reference _ _ _ _ _ Hinv Ho Hn Hr1) as (Hh & Hl & _).
  rewrite wp_bind, wp_assert. split; [by apply Z.eqb_eq|].
  rewrite wp_bind, wp_assert. split; [by eapply bool_decide_eq_true, owner_queue_empty|].
  pose proof (inv_free_owner _ _ _ _ _ _ _ Hinv Ho Hk Hn Hr1) as Hfree.
  set (R2 := <[HLocal n := q]> _) in *.
  assert (R2 !! HLocal n = Some q) as Hn2 by apply lookup_insert_eq.
  pose proof (data_lookup _ _ _ Ho) as Hd.
  destruct (ow_held _ _ (iv_owns _ _ Hinv) _ _ _ _ Hd Hk) as (Hown & d & Hq & _).
  apply data_inv in Hq as (oq & Hoq & Hdq).
  assert (p ≠ q) as Hpq by (intros ->; rewrite Hoq in Ho; simplify_eq; by rewrite Hdq in Hk).
  assert (∀ h, (∀ x, h ≠ HOwns x) → delete (HLocal n) R2 !! h = delete (HLocal n) R !! h) as Hrefs.
  { intros h Hh'. unfold R2. rewrite delete_insert_eq, !lookup_delete. repeat case_decide; try done.
    by destruct (Hh' p). }
  set (s1 := upd p (with_refcount (o_refcount o - 1) o) s).
  assert (del p s1 = del p s) as Es1 by (unfold del, s1, upd, set_objs; simpl; by rewrite delete_insert_eq).
  rewrite wp_bind. eapply wp_mono.
  { assert (wp (release_levels m q) (λ _ s2, ∀ R', R' = delete (HLocal n) R2 → 
      inv R' (del p s2) ∧ released n R s R' (del p s2)) s1) as Hrel; [|destruct (o_data o); simplify_eq/=; exact Hrel].
    subst m. apply (wp_release_sync 0 s1 q oq d); [by unfold s1; simpl; rewrite lookup_insert_ne|done|..].
    - by eapply live_refcount; [apply Hinv|].
    - intros Hne R' ->. rewrite delete_insert_ne_state, Es1 by done. split.
      + apply inv_drop; [done|by simpl; rewrite lookup_delete_ne|done|done].
      + split; [done|..|done|done].
        * rewrite (data_upd _ _ oq) by (done || by simpl; rewrite lookup_delete_ne).
          rewrite data_del. apply delete_subseteq.
        * rewrite (queue_upd _ _ oq) by (done || by simpl; rewrite lookup_delete_ne).
          rewrite queue_del. apply delete_subseteq.
    - intros Hq1. assert (sv_objs (del p s) !! q = Some oq) as Hoq' by by simpl; rewrite lookup_delete_ne.
      destruct (last_reference _ _ _ _ _ Hfree Hoq' Hn2 Hq1) as (Hqh & _ & Hqq).
      destruct (Hqq d Hdq) as [Hqu Hi]. split_and!; [done|done|done|apply Hinv| |].
      { intros c Hc. by apply (live_cell_key _ _ _ _ _ _ Hfree Hoq' Hdq). }
      intros l w Hw Hdes R' ->. assert (del p (freed q l w s1) = freed q l w (del p s)) as ->.
      { unfold freed, del, s1, upd, set_objs. simpl. by rewrite delete_delete, delete_insert_eq. }
      split.
      + by eapply (inv_free_sync R2 (del p s)).
      + split; [done|..|by eapply destroyed_cells|done]; unfold freed; rewrite ?data_del, ?queue_del.
        * etrans; [apply delete_subseteq|]. unfold data_of. simpl. rewrite fmap_delete. apply delete_subseteq.
        * etrans; [apply delete_subseteq|]. unfold queue_of. simpl. rewrite fmap_delete. apply delete_subseteq. }
  intros [] s2 H2. unfold free_object. rewrite wp_modify. destruct (H2 _ eq_refl). by eapply HQ.
Qed.

(** ** The sync object of an object *)

Lemma sync_ptr_live R s h x :
  inv R s → R !! h = Some x →
  ∃ p o d, sync_ptr (data_of s) x = Some p ∧ sv_objs s !! p = Some o ∧ o_data o = Sync d.
Proof.
  intros Hinv Hh. destruct (reference_live _ _ _ _ (iv_counts _ _ Hinv) Hh) as [o Ho].
  pose proof (data_lookup _ _ _ Ho) as Hd. unfold sync_ptr. rewrite Hd. simpl.
  destruct (owned (o_data o)) as [[k q]|] eqn:Hk.
  - destruct (ow_held _ _ (iv_owns _ _ Hinv) _ _ _ _ Hd Hk) as (_ & d & Hq & _).
    apply data_inv in Hq as (oq & Hoq & Hdq). by exists q, oq, d.
  - destruct (o_data o) as [d| | |] eqn:E; try done. by exists x, o, d.
Qed.

Lemma wp_get_obj_sync R s h x p o n (Q : Z → server → Prop) :
  inv R s → R !! h = Some x → sync_ptr (data_of s) x = Some p → sv_objs s !! p = Some o →
  R !! HLocal n = None → 0 ≤ n < MAX_LOCALS →
  (let s' := upd p (with_refcount (o_refcount o + 1) o) s in
   inv (<[HLocal n := p]> R) s' → Q p s') →
  wp (get_obj_sync x) Q s.
Proof.
  intros Hinv Hh Hp Ho Hn Hl HQ. destruct (reference_live _ _ _ _ (iv_counts _ _ Hinv) Hh) as [ox Hox].
  unfold get_obj_sync. rewrite wp_bind, (wp_obj _ _ _ _ Hox).
  unfold sync_ptr in Hp. rewrite (data_lookup _ _ _ Hox) in Hp. simpl in Hp.
  destruct (o_data ox); simpl in Hp; injection Hp as ->; rewrite wp_bind;
    (eapply (wp_grab _ _ _ o); [done..|exact HQ]).
Qed.

Lemma upd_back s p o : sv_objs s !! p = Some o →
  upd p (with_refcount (o_refcount o) (with_refcount (o_refcount o + 1) o))
    (upd p (with_refcount (o_refcount o + 1) o) s) = s.
Proof.
  intros Ho. unfold upd, set_objs. simpl. rewrite insert_insert_eq, insert_id; [by destruct s|].
  by destruct o.
Qed.

(** ** The [signaled] methods *)

(** A sync object that thread [t] may take without failing an assertion. *)
Definition ready (D : datas) (t p : Z) : Prop :=
  match D !! p with
  | Some (Sync (SemaphoreSync c _ None)) => 0 < c
  | Some (Sync (MutexSync owner _ _ None)) => owner = None ∨ owner = Some t
  | _ => True
  end.

Lemma sync_cell_of R s p o d c :
  inv R s → sv_objs s !! p = Some o → o_data o = Sync d → sync_ws d = Some c →
  ∃ v, w_syncs (sv_wfs s) !! c = Some v ∧ ws_server_waiters v = Z.of_nat (length (o_wait_queue o)) ∧
    sync_cell (sv_wfs s) c v (cell_addr (ws_shm_idx v)) ∧
    free_cell (cell_idx (sv_wfs s) (ws_shm_idx v)) (kind_type (sync_kind d)).
Proof.
  intros Hinv Ho Hd Hc. pose proof (data_lookup _ _ _ Ho) as Hdp. rewrite Hd in Hdp.
  destruct (sy_data _ _ _ (iv_syncs _ _ Hinv) _ _ _ Hdp (queue_lookup _ _ _ Ho)) as [Hok _].
  rewrite Hc in Hok. destruct Hok as (v & Hv & Hn & Ht). exists v.
  by destruct (wf_but_live _ _ _ _ (iv_wf _ _ Hinv) Hv Ht).
Qed.

Lemma entry_thread R s e x :
  inv R s → R !! HWait e = Some x →
  ∃ wt v, sv_waits s !! e.1 = Some wt ∧ tw_objs wt !! e.2 = Some x ∧
    sv_threads s !! tw_thread wt = Some v.
Proof.
  intros Hinv He. destruct (wa_entry _ _ _ (iv_waits _ _ Hinv) _ _ He) as (wt & Hw & Hx).
  destruct (wa_thread _ _ _ (iv_waits _ _ Hinv) _ _ Hw) as [v Hv]. eauto.
Qed.

Lemma sync_signaled_exec R s p o d e wt v :
  inv R s → sv_objs s !! p = Some o → o_data o = Sync d →
  sv_waits s !! e.1 = Some wt → sv_threads s !! tw_thread wt = Some v →
  ∃ b, sync_signaled p e s = Done b s ∧ (b = true → ready (data_of s) (tw_thread wt) p).
Proof.
  intros Hinv Ho Hd Hw Hv. pose proof (data_lookup _ _ _ Ho) as Hdp. rewrite Hd in Hdp.
  assert (∀ (m : W bool) b, m (sv_wfs s) = Done b (sv_wfs s) →
            wp (wfu m) (λ a s', a = b ∧ s' = s) s) as Hwfu.
  { intros m b E. rewrite wp_wfu. by eapply wp_of_exec; [exact E|rewrite on_wfs_id]. }
  assert (∀ b (K : sync_data → V bool), sync_signaled p e = (d ← sync_of p; K d) →
            wp (K d) (λ a s', a = b ∧ s' = s) s → (b = true → ready (data_of s) (tw_thread wt) p) →
            ∃ b, sync_signaled p e s = Done b s ∧ (b = true → ready (data_of s) (tw_thread wt) p)) as Hfin.
  { intros b K -> HK Hb. exists b. split; [|done]. apply wp_exec.
    by rewrite wp_bind, (wp_sync_of _ _ _ _ _ Ho Hd). }
  pose proof (λ c Hc, sync_cell_of _ _ _ _ _ c Hinv Ho Hd Hc) as Hcell. unfold ready in *. rewrite Hdp in *.
  destruct d as [m g [c|]|c0 m [c|]|ow c0 a [c|]]; simpl in Hcell;
    try destruct (Hcell c eq_refl) as (u & Hu & _ & Hs & Hf).
  - eapply Hfin; [reflexivity| |done]. apply Hwfu. by eapply (event_signaled_exec _ _ _ _ _ Hs (or_introl eq_refl)).
  - eapply (Hfin g); [reflexivity|by rewrite wp_ret|done].
  - eapply Hfin; [reflexivity| |done]. apply Hwfu. by eapply semaphore_signaled_exec.
  - eapply (Hfin (0 <? c0)); [reflexivity|by rewrite wp_ret|]. apply Z.ltb_lt.
  - eapply Hfin; [reflexivity| |done]. cbv beta iota. rewrite wp_bind, (wp_entry_thread_id _ _ _ _ _ Hw Hv).
    apply Hwfu. by eapply mutex_signaled_exec.
  - eapply (Hfin ((c0 =? 0) || bool_decide (ow = Some (tw_thread wt)))); [reflexivity| |].
    + cbv beta iota. unfold get_wait_queue_thread. by rewrite !wp_bind, (wp_wait_of _ _ _ _ Hw), !wp_ret.
    + intros [E%Z.eqb_eq|E%bool_decide_eq_true]%orb_true_iff; [left|by right].
      destruct (sy_data _ _ _ (iv_syncs _ _ Hinv) _ _ _ Hdp (queue_lookup _ _ _ Ho)) as [_ Hok].
      by apply Hok.
Qed.

(** [object_sync_signaled] takes and drops a reference, which leaves the server as it was. *)
Lemma object_sync_signaled_exec R s e x :
  inv R s → R !! HLocal 0 = None → R !! HWait e = Some x →
  ∃ b wt p, object_sync_signaled x e s = Done b s ∧ sv_waits s !! e.1 = Some wt ∧
    sync_ptr (data_of s) x = Some p ∧ (b = true → ready (data_of s) (tw_thread wt) p).
Proof.
  intros Hinv Hn He. destruct (entry_thread _ _ _ _ Hinv He) as (wt & v & Hw & _ & Hv).
  destruct (sync_ptr_live _ _ _ _ Hinv He) as (p & o & d & Hp & Ho & Hd).
  assert (∃ b, object_sync_signaled x e s = Done b s ∧ (b = true → ready (data_of s) (tw_thread wt) p))
    as (b & E & Hb); [|by exists b, wt, p].
  set (o1 := with_refcount (o_refcount o + 1) o). set (s1 := upd p o1 s).
  assert (inv (<[HLocal 0 := p]> R) s1) as Hinv1.
  { assert (wp (get_obj_sync x) (λ _ s', s' = s1 ∧ inv (<[HLocal 0 := p]> R) s') s) as Hg.
    - eapply wp_get_obj_sync; [done..|by unfold MAX_LOCALS|]. done.
    - apply wp_done in Hg as (? & ? & _ & -> & ?). done. }
  destruct (sync_signaled_exec _ s1 p o1 d e wt v Hinv1) as (b & Eb & Hb);
    [by unfold s1; simpl; rewrite lookup_insert_eq|done..|].
  exists b. split.
  - apply wp_exec. unfold object_sync_signaled. rewrite wp_bind.
    eapply wp_get_obj_sync; [done..|by unfold MAX_LOCALS|]. intros s' _.
    rewrite wp_bind. eapply wp_of_exec; [exact Eb|]. cbv beta. rewrite wp_bind.
    eapply (wp_release_sync 1 s1 p o1 d); [by unfold s1; simpl; rewrite lookup_insert_eq|done|..].
    + pose proof (live_refcount _ _ _ _ (iv_counts _ _ Hinv) Ho). simpl. lia.
    + intros _. rewrite wp_ret. split; [done|]. simpl. replace (o_refcount o + 1 - 1) with (o_refcount o) by lia.
      by apply upd_back.
    + pose proof (live_refcount _ _ _ _ (iv_counts _ _ Hinv) Ho). simpl. lia.
  - intros Hbt. specialize (Hb Hbt). unfold s1 in Hb. by rewrite (data_upd _ _ _ _ Ho) in Hb.
Qed.
End refs.

(** * Testing a wait

    [check_wait] (src/server/thread.c) with the invariant of ServerInv.v: it fails no
    assertion, changes nothing unless it reports a suspension, and a status that it
    reports can be delivered by [end_wait]. *)

Section check.
Context `{PageSize} `{PD : Pending}.
Implicit Types (s : server) (v : thread) (wt : thread_wait) (R : references).

(** ** Changes of a thread that concern neither its waits nor its mutexes *)

Definition thread_upd (t : Z) v s : server := set_threads (<[t := v]> (sv_threads s)) s.
Definition same_links v v' : Prop :=
  t_id v' = t_id v ∧ t_waits v' = t_waits v ∧ t_mutex_list v' = t_mutex_list v.

Lemma thread_upd_lookup t v v' s t0 v0 :
  sv_threads s !! t = Some v → same_links v v' → sv_threads (thread_upd t v' s) !! t0 = Some v0 →
  ∃ v1, sv_threads s !! t0 = Some v1 ∧ same_links v1 v0.
Proof.
  intros Hv Hl. simpl. rewrite lookup_insert. case_decide; [|by exists v0].
  intros [= <-]. subst t0. by exists v.
Qed.
Lemma thread_upd_some t v v' s t0 :
  sv_threads s !! t = Some v → is_Some (sv_threads s !! t0) → is_Some (sv_threads (thread_upd t v' s) !! t0).
Proof. intros Hv. simpl. rewrite lookup_insert. by case_decide. Qed.

Lemma inv_thread_upd R s t v v' :
  inv R s → sv_threads s !! t = Some v → same_links v v' → inv R (thread_upd t v' s).
Proof.
  intros [Hwf [C1 C2 C3 C4 C5 C6 C7 C8] Ho Hq [W1 W2 W3] [T1 T2] [M1 M2 M3 M4] Hy] Hv Hl.
  pose proof (λ t0 v0, thread_upd_lookup t v v' s t0 v0 Hv Hl) as Hlook.
  split; try done; split; try done.
  - intros w wt Hw. eapply thread_upd_some; [done|]. by eapply W2.
  - intros t0 v0 H0. destruct (Hlook _ _ H0) as (v1 & H1 & _ & -> & _). by apply W3.
  - intros t0 v0 H0. destruct (Hlook _ _ H0) as (v1 & H1 & -> & _ & _). by eapply T1.
  - intros t0 t1 v0 v1 H0 H1. destruct (Hlook _ _ H0) as (v2 & H2 & -> & _), (Hlook _ _ H1) as (v3 & H3 & -> & _).
    by apply T2.
  - intros t0 v0 p H0. destruct (Hlook _ _ H0) as (v1 & H1 & _ & _ & ->). by apply M1.
  - intros t0 v0 H0. destruct (Hlook _ _ H0) as (v1 & H1 & _ & _ & ->). by eapply M2.
  - intros p t0 Hp. eapply thread_upd_some; [done|]. by eapply M4.
Qed.

Lemma settled_thread_upd X R s t v v' :
  settled X R s → sv_threads s !! t = Some v → same_links v v' → settled X R (thread_upd t v' s).
Proof.
  intros Hs Hv Hl w wt Hw Hx. destruct (Hs w wt Hw Hx) as ((v1 & H1 & Hin) & Hrest). split; [|done].
  simpl. rewrite lookup_insert. case_decide; [|by exists v1]. exists v'. split; [done|].
  destruct Hl as (_ & -> & _). by simplify_eq.
Qed.

(** ** The loops over the entries *)

Lemma entries_lookup w wt i x :
  tw_objs wt !! i = Some x → entries_of_wait w wt !! i = Some ((w, i), x).
Proof. intros Hi. unfold entries_of_wait. by rewrite list_lookup_imap, Hi. Qed.
Lemma entries_elem w wt e :
  e ∈ entries_of_wait w wt ↔ ∃ i x, e = ((w, i), x) ∧ tw_objs wt !! i = Some x.
Proof.
  unfold entries_of_wait. rewrite elem_of_lookup_imap. split.
  - intros (i & x & -> & Hi). eauto.
  - intros (i & x & -> & Hi). eauto.
Qed.

(** The object of entry [e] can be given to the thread that waits. *)
Definition entry_ready (D : datas) (t x : Z) : Prop := ∀ p, sync_ptr D x = Some p → ready D t p.

Lemma all_signaled_exec R s es t :
  inv R s → R !! HLocal 0 = None →
  (∀ e, e ∈ es → R !! HWait e.1 = Some e.2 ∧ ∃ wt, sv_waits s !! e.1.1 = Some wt ∧ tw_thread wt = t) →
  ∃ b, all_signaled es s = Done b s ∧ (b = true → ∀ e, e ∈ es → entry_ready (data_of s) t e.2).
Proof.
  intros Hinv Hn. induction es as [|e es IH]; intros Hes.
  { exists true. split; [done|]. by intros _ e ?%elem_of_nil. }
  destruct (Hes e) as (He & wt & Hw & Ht); [by left|].
  destruct (object_sync_signaled_exec _ _ _ _ Hinv Hn He) as (b & wt' & p & E & Hw' & Hp & Hb).
  destruct IH as (b' & E' & Hb'); [by intros e' ?; apply Hes; right|].
  exists (b && b'). split.
  - simpl. eapply run_bind; [exact E|]. eapply run_bind; [exact E'|]. done.
  - intros [Hbt Hbt']%andb_true_iff e' [->|Hin]%elem_of_cons; [|by apply Hb'].
    intros p' Hp'. simplify_eq. by apply Hb.
Qed.

Lemma first_signaled_exec R s es t :
  inv R s → R !! HLocal 0 = None →
  (∀ e, e ∈ es → R !! HWait e.1 = Some e.2 ∧ ∃ wt, sv_waits s !! e.1.1 = Some wt ∧ tw_thread wt = t) →
  ∃ r, first_signaled es s = Done r s ∧
    (∀ st, r = Some st → ∃ e, e ∈ es ∧ st = Z.of_nat e.1.2 ∧ entry_ready (data_of s) t e.2).
Proof.
  intros Hinv Hn. unfold first_signaled. induction es as [|e es IH]; intros Hes.
  { by exists None. }
  destruct (Hes e) as (He & wt & Hw & Ht); [by left|].
  destruct (object_sync_signaled_exec _ _ _ _ Hinv Hn He) as (b & wt' & p & E & Hw' & Hp & Hb).
  destruct b.
  - exists (Some (Z.of_nat e.1.2)). split.
    + simpl. eapply run_bind; [by eapply run_bind; [exact E|]|]. done.
    + intros st [= <-]. exists e. split; [by left|]. split; [done|]. intros p' Hp'. simplify_eq. by apply Hb.
  - destruct IH as (r & E' & Hr); [by intros e' ?; apply Hes; right|]. exists r. split.
    + simpl. eapply run_bind; [by eapply run_bind; [exact E|]|]. done.
    + intros st Hst. destruct (Hr st Hst) as (e' & ? & ?). exists e'. split; [by right|done].
Qed.

(** ** [check_wait] *)

(** What [end_wait] may do for status [st]. *)
Definition deliverable (D : datas) wt (st : Z) : Prop :=
  st < Z.of_nat (length (tw_objs wt)) →
  match tw_select wt with
  | SELECT_WAIT_ALL => ∀ x, x ∈ tw_objs wt → entry_ready D (tw_thread wt) x
  | _ => 0 ≤ st ∧ ∃ x, tw_objs wt !! Z.to_nat st = Some x ∧ entry_ready D (tw_thread wt) x
  end.

(** A complete wait: all its entries are queued, and there are not too many. *)
Definition complete R w wt : Prop :=
  (∀ i x, tw_objs wt !! i = Some x → R !! HWait (w, i) = Some x) ∧
  Z.of_nat (length (tw_objs wt)) ≤ MAXIMUM_WAIT_OBJECTS.

Lemma large_status D wt st :
  MAXIMUM_WAIT_OBJECTS ≤ st → Z.of_nat (length (tw_objs wt)) ≤ MAXIMUM_WAIT_OBJECTS → deliverable D wt st.
Proof. intros H1 H2 H3. lia. Qed.

Lemma check_objects_exec R s w wt v :
  inv R s → R !! HLocal 0 = None → sv_waits s !! w = Some wt → complete R w wt →
  ∃ r, check_objects v w wt s = Done r s ∧ (∀ st, r = Some st → deliverable (data_of s) wt st).
Proof.
  intros Hinv Hn Hw [Hc Hlen]. unfold check_objects.
  destruct (is_thread_suspended v); [by exists None|].
  set (es := entries_of_wait w wt).
  assert (∀ e, e ∈ es → R !! HWait e.1 = Some e.2 ∧
            ∃ wt', sv_waits s !! e.1.1 = Some wt' ∧ tw_thread wt' = tw_thread wt) as Hes.
  { intros e (i & x & -> & Hi)%entries_elem. split; [by apply Hc|]. by exists wt. }
  set (m := match tw_select wt with SELECT_WAIT_ALL => _ | _ => _ end).
  assert (∃ r, m s = Done r s ∧ (∀ st, r = Some st → deliverable (data_of s) wt st)) as (r & Em & Hr).
  { assert (∃ r, first_signaled es s = Done r s ∧ (∀ st, r = Some st →
        0 ≤ st ∧ ∃ x, tw_objs wt !! Z.to_nat st = Some x ∧ entry_ready (data_of s) (tw_thread wt) x))
      as (r & Er & Hr).
    { destruct (first_signaled_exec _ _ es (tw_thread wt) Hinv Hn Hes) as (r & Er & Hr). exists r.
      split; [done|]. intros st Hst. destruct (Hr st Hst) as (e & Hin & -> & Hrd).
      apply entries_elem in Hin as (i & x & -> & Hi). split; [simpl; lia|]. exists x.
      simpl. by rewrite Nat2Z.id. }
    unfold m, deliverable. destruct (tw_select wt);
      try (exists r; split; [exact Er|intros st Hst _; by apply Hr]).
    destruct (all_signaled_exec _ _ es (tw_thread wt) Hinv Hn Hes) as (b & Eb & Hb).
    exists (if b then Some STATUS_WAIT_0 else None). split; [by eapply run_bind; [exact Eb|]|].
    intros st Hst _ x [i Hi]%list_elem_of_lookup. destruct b; [|done].
    apply (Hb eq_refl ((w, i), x)). apply entries_elem. by eauto. }
  destruct r as [st|].
  { exists (Some st). split; [by eapply run_bind; [exact Em|]|done]. }
  destruct (sf_alertable (tw_flags wt) && t_user_apc v) eqn:Ea.
  { exists (Some STATUS_USER_APC). split.
    - by eapply run_bind; [exact Em|].
    - intros st [= <-]. by apply large_status. }
  eexists. split.
  - eapply run_bind; [exact Em|]. cbv beta iota. by do 2 (eapply run_bind; [done|]).
  - intros st. destruct (_ || _); [|done]. intros [= <-]. by apply large_status.
Qed.

Lemma check_wait_exec R s t v w next wt :
  inv R s → R !! HLocal 0 = None → sv_threads s !! t = Some v → t_waits v = w :: next →
  sv_waits s !! w = Some wt → complete R w wt →
  ∃ r v', check_wait t s = Done r (match r with Some _ => thread_upd t v' s | None => s end) ∧ same_links v v' ∧
    (∀ st, r = Some st → deliverable (data_of s) wt st).
Proof.
  intros Hinv Hn Hv Hwl Hw Hc.
  assert (thread_upd t v s = s) as Hid.
  { unfold thread_upd, set_threads. rewrite insert_id by done. by destruct s. }
  assert (∀ m : V (option Z), (wp m (λ r s', s' = s ∧ ∀ st, r = Some st → deliverable (data_of s) wt st) s) →
            ∃ r v', m s = Done r (match r with Some _ => thread_upd t v' s | None => s end) ∧ same_links v v' ∧
              (∀ st, r = Some st → deliverable (data_of s) wt st)) as Hsame.
  { intros m (r & s' & E & -> & Hr)%wp_done. exists r, v. rewrite Hid. split; [by destruct r|]. done. }
  destruct (check_objects_exec _ _ _ _ v Hinv Hn Hw Hc) as (r & Er & Hr).
  unfold check_wait.
  destruct (sf_interruptible (tw_flags wt) && t_system_apc v) eqn:Ei.
  { apply Hsame. rewrite wp_bind, (wp_thread_of _ _ _ _ Hv), Hwl, wp_bind, (wp_wait_of _ _ _ _ Hw), Ei, wp_ret.
    split; [done|]. intros st [= <-]. by apply large_status, Hc. }
  destruct (t_context v) as [c|] eqn:Ec, (sf_cooperative (tw_flags wt)) eqn:Es.
  2-4: apply Hsame; rewrite wp_bind, (wp_thread_of _ _ _ _ Hv), Hwl, wp_bind, (wp_wait_of _ _ _ _ Hw), Ei, Ec, ?Es;
    by eapply wp_of_exec.
  eexists (Some STATUS_THREAD_WAS_SUSPENDED), _. split; [|split].
  - apply wp_exec. rewrite wp_bind, (wp_thread_of _ _ _ _ Hv), Hwl, wp_bind, (wp_wait_of _ _ _ _ Hw), Ei, Ec, Es.
    by rewrite wp_bind.
  - done.
  - intros st [= <-]. by apply large_status, Hc.
Qed.
End check.
