(* ===== verification/ServerTake.v ===== *)
(** * Satisfying a wait

    The [satisfied] methods of events, semaphores and mutexes (src/server/event.c,
    semaphore.c, mutex.c) with the invariant of ServerInv.v: what they do to the objects
    of an entry that is ready, and what they leave alone. *)

From S2P Require Import Prelude.
From S2P Require Import ShmState.
From S2P Require Import WfusyncServer.
From S2P Require Import WfusyncServerOps.
From S2P Require Import WfusyncRegistry.
From S2P Require Import WfusyncServerInv.
From S2P Require Import WfusyncHistory.
From S2P Require Import WfusyncPending.
From S2P Require Import ServerObjects.
From S2P Require Import ServerObjectsSpec.
From S2P Require Import ServerMutexSpec.
From S2P Require Import ServerInv.
From S2P Require Import ServerRefs.

(** ** What waking threads leaves alone *)

(** Two maps with the same keys and related values. *)
Definition same_keys {A} (rel : A → A → Prop) (m m' : gmap Z A) : Prop :=
  ∀ k, match m !! k, m' !! k with
       | Some x, Some x' => rel x x' | None, None => True | _, _ => False end.

Lemma same_keys_fwd {A} (rel : A → A → Prop) m m' k x :
  same_keys rel m m' → m !! k = Some x → ∃ x', m' !! k = Some x' ∧ rel x x'.
Proof. intros Hs Hx. specialize (Hs k). rewrite Hx in Hs. destruct (m' !! k); [eauto|done]. Qed.
Lemma same_keys_bwd {A} (rel : A → A → Prop) m m' k x' :
  same_keys rel m m' → m' !! k = Some x' → ∃ x, m !! k = Some x ∧ rel x x'.
Proof. intros Hs Hx. specialize (Hs k). rewrite Hx in Hs. destruct (m !! k); [eauto|done]. Qed.
Lemma same_keys_refl {A} (rel : A → A → Prop) `{!Reflexive rel} m : same_keys rel m m.
Proof. intros k. by destruct (m !! k). Qed.
#[export] Instance same_keys_preorder {A} (rel : A → A → Prop) `{!PreOrder rel} : PreOrder (same_keys rel).
Proof.
  split; [intros m; apply same_keys_refl, _|]. intros m1 m2 m3 H1 H2 k. specialize (H1 k). specialize (H2 k).
  destruct (m1 !! k), (m2 !! k), (m3 !! k); try done. by etrans.
Qed.
Lemma same_keys_insert {A} (rel : A → A → Prop) `{!Reflexive rel} m k x x' :
  m !! k = Some x → rel x x' → same_keys rel m (<[k := x']> m).
Proof.
  intros Hx Hr k'. rewrite lookup_insert. case_decide; [subst; by rewrite Hx|]. by destruct (m !! k').
Qed.

(** A thread may get mutexes, a wait may be marked as abandoned. *)
Definition same_thread (v v' : thread) : Prop := ∃ l, v' = with_mutex_list l v.
Definition same_wait (wt wt' : thread_wait) : Prop := wt' = wt ∨ wt' = with_abandoned wt.
#[export] Instance same_thread_preorder : PreOrder same_thread.
Proof.
  split; [intros v; exists (t_mutex_list v); by destruct v|].
  intros v1 v2 v3 [l ->] [l' ->]. by exists l'.
Qed.
#[export] Instance same_wait_preorder : PreOrder same_wait.
Proof. split; [by left|]. intros w1 w2 w3 [-> | ->] [-> | ->]; by (left + right). Qed.

(** The data of a sync object change, not its kind or its cell. *)
Definition same_sync (d d' : sync_data) : Prop := sync_kind d' = sync_kind d ∧ sync_ws d' = sync_ws d.
#[export] Instance same_sync_preorder : PreOrder same_sync.
Proof. split; [done|]. intros d1 d2 d3 [] []. split; congruence. Qed.
Definition syncs_keep (D D' : datas) : Prop :=
  ∀ x d', D' !! x = Some (Sync d') → ∃ d, D !! x = Some (Sync d) ∧ same_sync d d'.
#[export] Instance syncs_keep_preorder : PreOrder syncs_keep.
Proof.
  split; [intros D x d Hd; by exists d|]. intros D1 D2 D3 H1 H2 x d3 Hd3.
  destruct (H2 x d3 Hd3) as (d2 & Hd2 & S2), (H1 x d2 Hd2) as (d1 & Hd1 & S1). exists d1. split; [done|by etrans].
Qed.
(** No cell appears or moves. *)
Definition cells_keep (w w' : wfs) : Prop :=
  ∀ c v', w_syncs w' !! c = Some v' → ∃ v, w_syncs w !! c = Some v ∧ ws_shm_idx v' = ws_shm_idx v.
#[export] Instance cells_keep_preorder : PreOrder cells_keep.
Proof.
  split; [intros w c v Hv; by exists v|]. intros w1 w2 w3 H1 H2 c v3 Hv3.
  destruct (H2 c v3 Hv3) as (v2 & Hv2 & E2), (H1 c v2 Hv2) as (v1 & Hv1 & E1). exists v1. split; [done|congruence].
Qed.
Lemma cells_keep_eq w w' : w_syncs w' = w_syncs w → cells_keep w w'.
Proof. intros E c v. rewrite E. by exists v. Qed.

Section evolves.
Context `{PageSize} `{PD : Pending}.
Implicit Types (s : server) (R : references).

Definition rest_of s :=
  (sv_next_wait s, sv_next_obj s, sv_current s, sv_handles s, sv_current_time s, sv_monotonic_time s, sv_sent s).

(** No object appears or changes its sync object; the references of handles, of callers
    and of the entries outside [X] stay. *)
Record evolves (X : gset (Z * nat)) R s R' s' : Prop := {
  ev_ptr : ∀ x, is_Some (data_of s' !! x) →
    is_Some (data_of s !! x) ∧ sync_ptr (data_of s') x = sync_ptr (data_of s) x;
  ev_sync : syncs_keep (data_of s) (data_of s');
  ev_cells : cells_keep (sv_wfs s) (sv_wfs s');
  ev_handle : ∀ n, R' !! HHandle n = R !! HHandle n;
  ev_local : ∀ n, 2 ≤ n → R' !! HLocal n = R !! HLocal n;
  ev_entry : ∀ e, e ∉ X → R' !! HWait e = R !! HWait e;
  ev_threads : same_keys same_thread (sv_threads s) (sv_threads s');
  ev_waits : same_keys same_wait (sv_waits s) (sv_waits s');
  ev_rest : rest_of s' = rest_of s }.

Lemma evolves_refl X R s : evolves X R s R s.
Proof. split; try done; reflexivity. Qed.

Lemma ev_semaphore X R s R' s' x c m :
  evolves X R s R' s' → data_of s' !! x = Some (Sync (SemaphoreSync c m None)) →
  ∃ c' m', data_of s !! x = Some (Sync (SemaphoreSync c' m' None)).
Proof.
  intros Hev Hx. destruct (ev_sync _ _ _ _ _ Hev x _ Hx) as (d & Hd & Hk & Hw).
  destruct d as [| |]; simplify_eq/=. by eexists _, _.
Qed.

Lemma evolves_trans X R1 s1 R2 s2 R3 s3 :
  evolves X R1 s1 R2 s2 → evolves X R2 s2 R3 s3 → evolves X R1 s1 R3 s3.
Proof.
  intros [P1 S1 K1 H1 L1 E1 T1 W1 O1] [P2 S2 K2 H2 L2 E2 T2 W2 O2]. split.
  - intros x Hx. destruct (P2 x Hx) as [Hx2 ->]. by apply P1.
  - by etrans.
  - by etrans.
  - intros n. by rewrite H2.
  - intros n Hn. by rewrite L2, L1.
  - intros e He. by rewrite E2, E1.
  - by etrans.
  - by etrans.
  - by rewrite O2.
Qed.

Lemma evolves_mono X X' R s R' s' : X ⊆ X' → evolves X R s R' s' → evolves X' R s R' s'.
Proof. intros HX [P S K Hh L E T W O]. split; try done. intros e He. apply E. set_solver. Qed.

Lemma sync_ptr_sub (D D' : datas) x :
  D' ⊆ D → is_Some (D' !! x) → is_Some (D !! x) ∧ sync_ptr D' x = sync_ptr D x.
Proof.
  intros Hsub [d Hd]. pose proof (lookup_weaken _ _ _ _ Hd Hsub) as Hd'. unfold sync_ptr.
  rewrite Hd, Hd'. by split; [eauto|].
Qed.

Lemma env_rest s s' : env_of s' = env_of s →
  rest_of s' = rest_of s ∧ sv_waits s' = sv_waits s ∧ sv_threads s' = sv_threads s.
Proof. unfold env_of, rest_of. intros [= -> -> -> -> -> -> -> -> ->]. done. Qed.

(** Dropping one of the two short-lived variables. *)
Lemma released_evolves X n R s R' s' :
  0 ≤ n < 2 → released n R s R' s' → evolves X R s R' s'.
Proof.
  intros Hn [Hr Hd Hq Hc He]. apply env_rest in He as (Er & Ew & Et). split; try done.
  - intros x. by apply sync_ptr_sub.
  - intros x d Hx. exists d. split; [by eapply lookup_weaken|done].
  - intros c v Hv. destruct (Hc c v Hv) as [? _]. by exists v.
  - intros h. rewrite Hr by done. by rewrite lookup_delete_ne.
  - intros h Hh. rewrite Hr by done. rewrite lookup_delete_ne; [done|]. intros [=]. lia.
  - intros e _. rewrite Hr by done. by rewrite lookup_delete_ne.
  - rewrite Et. reflexivity.
  - rewrite Ew. reflexivity.
Qed.

Lemma evolves_settled E X R s R' s' :
  evolves E R s R' s' → (∀ e, e ∈ E → e.1 ∈ X) → settled X R s → settled X R' s'.
Proof.
  intros Hev HE Hs w wt' Hw' Hx. destruct (same_keys_bwd _ _ _ _ _ (ev_waits _ _ _ _ _ Hev) Hw') as (wt & Hw & Hsw).
  destruct (Hs w wt Hw Hx) as ((v & Hv & Hin) & Hc & Hl & Hd).
  assert (tw_thread wt' = tw_thread wt ∧ tw_objs wt' = tw_objs wt ∧ tw_select wt' = tw_select wt)
    as (E1 & E2 & E3) by by destruct Hsw as [-> | ->].
  rewrite E1, E2. split_and!; [| |done|].
  - destruct (same_keys_fwd _ _ _ _ _ (ev_threads _ _ _ _ _ Hev) Hv) as (v' & Hv' & l & ->).
    by exists (with_mutex_list l v).
  - intros i x Hi. rewrite (ev_entry _ _ _ _ _ Hev); [by apply Hc|]. by intros ?%HE.
  - intros Hsel i j x y p c m Hij Hi Hj Hpx Hpy Hsem. rewrite E2 in Hi, Hj.
    destruct (ev_semaphore _ _ _ _ _ _ _ _ Hev Hsem) as (c' & m' & Hsem').
    assert (∀ z, sync_ptr (data_of s') z = Some p → sync_ptr (data_of s) z = Some p) as Hp.
    { intros z Hz. rewrite <- Hz. symmetry. apply (ev_ptr _ _ _ _ _ Hev).
      unfold sync_ptr in Hz. destruct (data_of s' !! z); [eauto|done]. }
    rewrite E3 in Hsel. by apply (Hd Hsel i j x y p c' m' Hij Hi Hj (Hp x Hpx) (Hp y Hpy)).
Qed.

(** ** Mutexes keep room for the entries that still wait *)

Lemma hold_count_cells w w' d q v :
  sync_ws d = Some q → w_syncs w !! q = Some v → w_syncs w' !! q = Some v →
  cell_idx w' (ws_shm_idx v) = cell_idx w (ws_shm_idx v) → hold_count w' d = hold_count w d.
Proof. intros Hq H1 H2 E. destruct d; try done; simpl in *; subst; by rewrite H1, H2; simpl; rewrite ?E. Qed.
Lemma hold_count_none w w' d : sync_ws d = None → hold_count w' d = hold_count w d.
Proof. by destruct d as [| |? ? ? []]. Qed.

Lemma room_released n E R s R' s' :
  inv R s → inv R' s' → released n R s R' s' → room E s → room E s'.
Proof.
  intros Hinv Hinv' Hrl Hroom p o' d Ho' Hd. pose proof (data_lookup _ _ _ Ho') as Hd'.
  pose proof (queue_lookup _ _ _ Ho') as Hq'.
  pose proof (lookup_weaken _ _ _ _ Hd' (rl_data _ _ _ _ _ Hrl)) as (o & Ho & Eo)%data_inv.
  pose proof (lookup_weaken _ _ _ _ Hq' (rl_queue _ _ _ _ _ Hrl)) as Hq.
  rewrite (queue_lookup _ _ _ Ho) in Hq. injection Hq as Hq. rewrite <- Hq.
  etrans; [|apply (Hroom p o d Ho); by rewrite Eo]. apply Z.add_le_mono_r, Z.eq_le_incl.
  destruct (sync_ws d) as [q|] eqn:Ews; [|by apply hold_count_none].
  destruct (live_cell_key _ _ _ _ _ _ Hinv' Ho' Hd Ews) as [v Hv].
  destruct (rl_cells _ _ _ _ _ Hrl _ _ Hv). by eapply hold_count_cells.
Qed.

Lemma ready_released n R s R' s' t p :
  released n R s R' s' → ready (data_of s) t p → ready (data_of s') t p.
Proof.
  intros Hrl. unfold ready. destruct (data_of s' !! p) eqn:E; [|done].
  by rewrite (lookup_weaken _ _ _ _ E (rl_data _ _ _ _ _ Hrl)).
Qed.

Lemma open_entries_take E l e :
  NoDup l → e ∈ l → e ∉ E → open_entries (E ∪ {[e]}) l = open_entries E l - 1.
Proof.
  intros Hnd Hin He. unfold open_entries. induction l as [|x l IH]; [by apply elem_of_nil in Hin|].
  apply list.NoDup_cons in Hnd as [Hx Hnd]. rewrite !filter_cons.
  destruct (decide (x = e)) as [->|Hne].
  - rewrite decide_False by set_solver. rewrite decide_True by done. simpl.
    assert (filter (λ y, y ∉ E ∪ {[e]}) l = filter (λ y, y ∉ E) l) as ->; [|lia].
    clear IH. induction l as [|y l IH]; [done|]. rewrite !filter_cons.
    assert (y ≠ e) by set_solver. apply list.NoDup_cons in Hnd as [_ Hnd].
    rewrite IH by (done || set_solver). destruct (decide (y ∉ E)) as [Hy|Hy].
    + rewrite decide_True by set_solver. done.
    + rewrite decide_False by set_solver. done.
  - apply elem_of_cons in Hin as [->|Hin]; [done|]. specialize (IH Hnd Hin).
    destruct (decide (x ∉ E)) as [Hy|Hy].
    + rewrite decide_True by set_solver. simpl. lia.
    + rewrite decide_False by set_solver. done.
Qed.
Lemma open_entries_mono E E' l : E ⊆ E' → open_entries E' l ≤ open_entries E l.
Proof.
  intros HE. unfold open_entries. apply inj_le. induction l as [|x l IH]; [done|]. rewrite !filter_cons.
  repeat case_decide; simpl; try lia. set_solver.
Qed.

(** ** Changing the data of a sync object *)

Definition owner_of (d : sync_data) : option Z :=
  match d with MutexSync owner _ _ None => owner | _ => None end.
Lemma owned_by_owner D p t : owned_by D p t ↔ ∃ d, D !! p = Some (Sync d) ∧ owner_of d = Some t.
Proof.
  split.
  - intros (c & a & Hp). by eexists.
  - intros (d & Hp & Ho). destruct d as [| |ow c a []]; try done. simpl in Ho. subst. by exists c, a.
Qed.

Lemma data_set s p o d' : data_of (upd p (with_data d' o) s) = <[p := Sync d']> (data_of s).
Proof. unfold data_of. simpl. by rewrite fmap_insert. Qed.

Lemma sync_ptr_set D p d d' x : D !! p = Some (Sync d) → sync_ptr (<[p := Sync d']> D) x = sync_ptr D x.
Proof. intros Hp. unfold sync_ptr. rewrite lookup_insert. case_decide; [|done]. subst. by rewrite Hp. Qed.

Lemma owns_set R D p d d' :
  D !! p = Some (Sync d) → sync_kind d' = sync_kind d → owns_ok R D → owns_ok R (<[p := Sync d']> D).
Proof.
  intros Hp Hk [H1 H2]. split.
  - intros x dx k q Hx Hox. rewrite lookup_insert in Hx. case_decide; [by simplify_eq|].
    destruct (H1 x dx k q Hx Hox) as (Hr & dq & Hq & Hkq). split; [done|].
    rewrite lookup_insert. case_decide; [|by eauto]. subst q. exists d'. simplify_eq. by split.
  - intros x q Hx. destruct (H2 x q Hx) as (dx & k & Hdx & Ho). exists dx, k. split; [|done].
    rewrite lookup_insert_ne; [done|]. intros ->. by simplify_eq.
Qed.
Lemma queues_set R D Q p d d' :
  D !! p = Some (Sync d) → queues_ok R D Q → queues_ok R (<[p := Sync d']> D) Q.
Proof.
  intros Hp [H1 H2]. split; [done|]. intros x l e Hl. rewrite (H2 x l e Hl).
  by setoid_rewrite (sync_ptr_set _ _ _ d' _ Hp).
Qed.
Lemma syncs_set w D Q p d d' l :
  D !! p = Some (Sync d) → Q !! p = Some l → same_sync d d' → sync_ok w d' (Z.of_nat (length l)) →
  syncs_ok w D Q → syncs_ok w (<[p := Sync d']> D) Q.
Proof.
  intros Hp Hl [_ Hw] Hok [H1 H2]. split.
  - intros x dx l'. rewrite lookup_insert. case_decide; [|by eauto]. subst. intros [= <-] Hl'. by simplify_eq.
  - intros x y dx dy q. rewrite !lookup_insert. repeat case_decide; subst; intros Hx Hy Hqx Hqy; simplify_eq.
    + done.
    + eapply H2; [exact Hp|exact Hy|by rewrite <- Hw|done].
    + eapply H2; [exact Hx|exact Hp|done|by rewrite <- Hw].
    + by eapply H2.
Qed.
Lemma mutexes_set R D T p d d' :
  D !! p = Some (Sync d) → owner_of d' = owner_of d → mutexes_ok R D T → mutexes_ok R (<[p := Sync d']> D) T.
Proof.
  intros Hp Ho Hm. assert (∀ x t, owned_by (<[p := Sync d']> D) x t ↔ owned_by D x t) as E.
  { intros x t. rewrite !owned_by_owner. setoid_rewrite lookup_insert. case_decide; [|done]. subst.
    rewrite Hp. split; intros (? & [= <-] & <-); eauto. }
  destruct Hm as [H1 H2 H3 H4]. split; try done.
  - intros t v x Hv. by rewrite E, H1.
  - intros x y. rewrite H3. by setoid_rewrite E.
  - intros x t. rewrite E. eauto.
Qed.

Lemma counts_objs R s s' :
  (∀ x, refcount_of s' x = refcount_of s x) → (∀ x, handle_count_of s' x = handle_count_of s x) →
  (∀ x, is_Some (sv_objs s' !! x) → is_Some (sv_objs s !! x)) →
  sv_handles s' = sv_handles s → sv_next_obj s' = sv_next_obj s → sv_next_wait s' = sv_next_wait s →
  (∀ w, is_Some (sv_waits s' !! w) → is_Some (sv_waits s !! w)) → counts_ok R s → counts_ok R s'.
Proof.
  intros E1 E2 E3 E4 E5 E6 E7 [C1 C2 C3 C4 C5 C6 C7 C8]. split; try done.
  - intros p. by rewrite E1.
  - intros p. by rewrite E2.
  - intros p Hp. rewrite E1. by apply C3, E3.
  - intros h. rewrite E4. apply C6.
  - intros p Hp. rewrite E5. by apply C7, E3.
  - intros w Hw. rewrite E6. by apply C8, E7.
Qed.
Lemma insert_live {A} (m : gmap Z A) k x y k' :
  m !! k = Some x → is_Some (<[k := y]> m !! k') → is_Some (m !! k').
Proof. intros Hk. rewrite lookup_insert. case_decide; [subst; eauto|done]. Qed.

Lemma inv_set_data R s p o d d' :
  inv R s → sv_objs s !! p = Some o → o_data o = Sync d → same_sync d d' → owner_of d' = owner_of d →
  sync_ok (sv_wfs s) d' (Z.of_nat (length (o_wait_queue o))) →
  inv R (upd p (with_data d' o) s).
Proof.
  intros [Hwf Hc Hw Hq Hwa Ht Hm Hy] Ho Hd Hs How Hok.
  pose proof (data_lookup _ _ _ Ho) as Hdp. rewrite Hd in Hdp.
  split; rewrite ?data_set, ?(queue_upd _ _ _ _ Ho) by done; try done.
  - eapply counts_objs; [..|exact Hc]; try done.
    + intros x. rewrite refcount_upd. case_decide; [|done]. subst. unfold refcount_of. by rewrite Ho.
    + intros x. rewrite handle_count_upd. case_decide; [|done]. subst. unfold handle_count_of. by rewrite Ho.
    + intros x. by eapply insert_live.
  - eapply owns_set; [done|apply Hs|done].
  - by eapply queues_set.
  - by eapply mutexes_set.
  - by eapply syncs_set; [..|exact Hok|]; [|apply queue_lookup|..].
Qed.

Lemma evolves_set_data R s p o d d' :
  sv_objs s !! p = Some o → o_data o = Sync d → same_sync d d' → evolves ∅ R s R (upd p (with_data d' o) s).
Proof.
  intros Ho Hd [Hk Hw]. pose proof (data_lookup _ _ _ Ho) as Hdp. rewrite Hd in Hdp.
  split; try done; rewrite ?data_set.
  - intros x Hx. split; [by eapply insert_live|by eapply sync_ptr_set].
  - intros x dx. rewrite lookup_insert. case_decide; [|by exists dx]. subst. intros [= <-]. by exists d.
Qed.

(** ** Changing the cells *)

Definition same_types (w w' : wfs) : Prop :=
  w_syncs w' = w_syncs w ∧ ∀ c v, w_syncs w !! c = Some v →
    type_of (cell_idx w' (ws_shm_idx v)) = type_of (cell_idx w (ws_shm_idx v)).

Lemma same_types_put w a c : type_of c = type_of (cell_at w a) → same_types w (put_cell a c w).
Proof. intros E. split; [done|]. intros q v _. rewrite cell_at_put. case_decide; [by subst|done]. Qed.

Lemma cell_ok_types w w' q k n : same_types w w' → cell_ok w q k n → cell_ok w' q k n.
Proof. intros [Es Et] (v & Hv & Hn & Ht). exists v. rewrite Es. split_and!; [done|done|]. by rewrite (Et q v Hv). Qed.

Lemma sync_ok_types w w' d n : same_types w w' → sync_ok w d n → sync_ok w' d n.
Proof.
  intros Ht [H1 H2]. split; [|done]. destruct (sync_ws d); [|done]. by eapply cell_ok_types.
Qed.
Lemma inv_wfs R s w' :
  inv R s → wf_but w' → same_types (sv_wfs s) w' → inv R (on_wfs (λ _, w') s).
Proof.
  intros [Hwf [] Ho Hq Hwa Ht Hm [H1 H2]] Hw' Hs. split; try done. split; [|done].
  intros p d l Hd Hl. eapply sync_ok_types; [exact Hs|by apply H1 with p].
Qed.
Lemma evolves_wfs X R s w' :
  w_syncs w' = w_syncs (sv_wfs s) → evolves X R s R (on_wfs (λ _, w') s).
Proof. intros E. split; try done; [by apply cells_keep_eq|..]; reflexivity. Qed.

(** One hold more for mutex [p] on behalf of entry [e]. *)
Lemma room_take E R s s' p o e :
  inv R s → sv_objs s !! p = Some o → e ∈ o_wait_queue o → e ∉ E →
  (∀ x o' d', sv_objs s' !! x = Some o' → o_data o' = Sync d' →
     ∃ o0 d0, sv_objs s !! x = Some o0 ∧ o_data o0 = Sync d0 ∧ o_wait_queue o' = o_wait_queue o0 ∧
       hold_count (sv_wfs s') d' ≤ hold_count (sv_wfs s) d0 + if decide (x = p) then 1 else 0) →
  room E s → room (E ∪ {[e]}) s'.
Proof.
  intros Hinv Ho He HeE Hs Hroom x o' d' Ho' Hd'. destruct (Hs x o' d' Ho' Hd') as (o0 & d0 & Hx & Hd0 & -> & Hle).
  pose proof (Hroom x o0 d0 Hx Hd0) as Hr. case_decide.
  - subst x. simplify_eq. rewrite open_entries_take; [lia|..]; [|done..].
    by eapply (qu_nodup _ _ _ (iv_queues _ _ Hinv)), queue_lookup.
  - pose proof (open_entries_mono E (E ∪ {[e]}) (o_wait_queue o0) ltac:(set_solver)). lia.
Qed.

(** The entry is in the queue of its sync object. *)
Lemma entry_queued R s e x p o :
  inv R s → R !! HWait e = Some x → sync_ptr (data_of s) x = Some p → sv_objs s !! p = Some o →
  e ∈ o_wait_queue o.
Proof.
  intros Hinv He Hp Ho. apply (qu_elem _ _ _ (iv_queues _ _ Hinv) p); [by apply queue_lookup|by exists x].
Qed.

(** ** What a [satisfied] method achieves *)

Record taken (p t : Z) (e : Z * nat) R s R' s' : Prop := {
  tk_inv : inv R' s';
  tk_ev : evolves ∅ R s R' s';
  tk_local : ∀ n, R' !! HLocal n = R !! HLocal n;
  tk_room : ∀ E, e ∉ E → room E s → room (E ∪ {[e]}) s';
  tk_ready : ∀ x, ready (data_of s) t x →
    (x = p → ∀ c m, data_of s !! x ≠ Some (Sync (SemaphoreSync c m None))) → ready (data_of s') t x }.

(** Steps that take nothing. *)
Record quiet (t : Z) R s R' s' : Prop := {
  qt_inv : inv R' s';
  qt_ev : evolves ∅ R s R' s';
  qt_local : ∀ n, R' !! HLocal n = R !! HLocal n;
  qt_room : ∀ E, room E s → room E s';
  qt_ready : ∀ x, ready (data_of s) t x → ready (data_of s') t x }.

Lemma taken_quiet p t e R s R1 s1 R2 s2 :
  taken p t e R s R1 s1 → quiet t R1 s1 R2 s2 → taken p t e R s R2 s2.
Proof.
  intros [I1 E1 L1 O1 D1] [I2 E2 L2 O2 D2]. split; eauto.
  - by eapply evolves_trans.
  - intros n. by rewrite L2.
Qed.

Lemma room_le E s s' :
  (∀ x o' d', sv_objs s' !! x = Some o' → o_data o' = Sync d' →
     ∃ o0 d0, sv_objs s !! x = Some o0 ∧ o_data o0 = Sync d0 ∧ o_wait_queue o' = o_wait_queue o0 ∧
       hold_count (sv_wfs s') d' ≤ hold_count (sv_wfs s) d0) →
  room E s → room E s'.
Proof.
  intros Hs Hroom x o' d' Ho' Hd'. destruct (Hs x o' d' Ho' Hd') as (o0 & d0 & Hx & Hd0 & -> & Hle).
  pose proof (Hroom x o0 d0 Hx Hd0). lia.
Qed.

Lemma quiet_data R s p t o d d' :
  inv R s → sv_objs s !! p = Some o → o_data o = Sync d → same_sync d d' → owner_of d' = owner_of d →
  sync_ok (sv_wfs s) d' (Z.of_nat (length (o_wait_queue o))) →
  hold_count (sv_wfs s) d' ≤ hold_count (sv_wfs s) d → (∀ c m, d ≠ SemaphoreSync c m None) →
  quiet t R s R (upd p (with_data d' o) s).
Proof.
  intros Hinv Ho Hd Hs How Hok Hh Hne. split.
  - by eapply inv_set_data.
  - by eapply evolves_set_data.
  - done.
  - intros E. apply room_le. intros y o' dy Hy Hdy. simpl in Hy. rewrite lookup_insert in Hy. case_decide.
    + subst y. injection Hy as <-. simpl in Hdy. injection Hdy as <-. by exists o, d.
    + exists o', dy. split_and!; [done..|]. simpl. lia.
  - intros y. rewrite data_set. unfold ready. rewrite lookup_insert. case_decide; [|done].
    subst y. pose proof (data_lookup _ _ _ Ho) as Hdp. rewrite Hd in Hdp. rewrite Hdp.
    destruct Hs as [Hk Hws].
    destruct d as [| ? ? []|? ? ? []], d' as [| ? ? []|? ? ? []]; simplify_eq/=; try done.
    exfalso. by eapply Hne.
Qed.

Definition wait_upd (w : Z) (wt : thread_wait) s : server :=
  set_waits (<[w := wt]> (sv_waits s)) (sv_next_wait s) s.

Lemma quiet_abandoned R s t w wt :
  inv R s → sv_waits s !! w = Some wt → quiet t R s R (wait_upd w (with_abandoned wt) s).
Proof.
  intros [Hwf Hc Ho Hq [W1 W2 W3] Ht Hm Hy] Hw. split; [split|..]; try done.
  - eapply counts_objs; [..|exact Hc]; try done. intros w'. by eapply insert_live.
  - split; simpl.
    + intros e x He. destruct (W1 e x He) as (wt' & Hw' & Hx). rewrite lookup_insert.
      case_decide; [|by eauto]. subst w. simplify_eq. by eexists.
    + intros w' wt'. rewrite lookup_insert. case_decide; [|apply W2]. intros [= <-]. exact (W2 w wt Hw).
    + intros t' v Hv. destruct (W3 t' v Hv) as [Hnd Hl]. split; [done|]. intros w' Hin.
      destruct (Hl w' Hin) as (wt' & Hw' & Ht'). rewrite lookup_insert.
      case_decide; [|by eauto]. subst w'. simplify_eq. by eexists.
  - split; try done; simpl; try reflexivity. by apply (same_keys_insert _ _ _ wt); [done|right].
Qed.

(** Ending a method without any step. *)
Lemma quiet_refl R s t : inv R s → quiet t R s R s.
Proof. intros Hinv. by split. Qed.

Lemma quiet_taken p t e R s R' s' : quiet t R s R' s' → taken p t e R s R' s'.
Proof.
  intros [I E L O D]. split; try done; [|by intros; apply D].
  intros E0 _ Hr x o d Hx Hd. pose proof (O E0 Hr x o d Hx Hd).
  pose proof (open_entries_mono E0 (E0 ∪ {[e]}) (o_wait_queue o) ltac:(set_solver)). lia.
Qed.

(** ** A mutex without a cell gets its first hold *)

(** The state after thread [t] has taken the free mutex [p]. *)
Definition first_hold (p t : Z) (o : object) (v : thread) (a : bool) s : server :=
  thread_upd t (with_mutex_list (p :: t_mutex_list v) v)
    (upd p (with_data (MutexSync (Some t) 1 a None) (with_refcount (o_refcount o + 1) o)) s).

Lemma inv_first_hold R s p t o v a :
  inv R s → sv_objs s !! p = Some o → o_data o = Sync (MutexSync None 0 a None) →
  sv_threads s !! t = Some v → inv (<[HMutex p := p]> R) (first_hold p t o v a s).
Proof.
  intros [Hwf [C1 C2 C3 C4 C5 C6 C7 C8] Hw Hq [W1 W2 W3] [T1 T2] [M1 M2 M3 M4] Hy] Ho Hd Hv.
  pose proof (data_lookup _ _ _ Ho) as Hdp. rewrite Hd in Hdp.
  assert (R !! HMutex p = None) as Hfree.
  { destruct (R !! HMutex p) eqn:E; [|done]. apply M3 in E as (_ & t' & c & a' & E). congruence. }
  set (d' := MutexSync (Some t) 1 a None).
  assert (data_of (first_hold p t o v a s) = <[p := Sync d']> (data_of s)) as Ed.
  { unfold data_of. simpl. by rewrite fmap_insert. }
  assert (queue_of (first_hold p t o v a s) = queue_of s) as Eq.
  { by rewrite <- (queue_upd s p o (with_data d' (with_refcount (o_refcount o + 1) o))). }
  assert (∀ h, h ≠ HMutex p → <[HMutex p := p]> R !! h = R !! h) as Hold by (intros; by apply lookup_insert_ne).
  assert (∀ x t', owned_by (<[p := Sync d']> (data_of s)) x t' ↔
            if decide (x = p) then t' = t else owned_by (data_of s) x t') as Eown.
  { intros x t'. unfold owned_by. destruct (decide (x = p)) as [->|Hne];
      [setoid_rewrite lookup_insert_eq|by setoid_rewrite lookup_insert_ne].
    split; [by intros (? & ? & [= <- _ _])|]. intros ->. by exists 1, a. }
  pose proof (λ t0 v0, thread_upd_lookup t v (with_mutex_list (p :: t_mutex_list v) v) s t0 v0 Hv) as Hlook.
  split; rewrite ?Ed, ?Eq; try done.
  - split; simpl.
    + intros x. rewrite held_insert by done. unfold refcount_of in *. simpl.
      rewrite lookup_insert. specialize (C1 x). destruct (decide (p = x)) as [<-|].
      * rewrite bool_decide_true by done. rewrite Ho in C1. simpl in *. lia.
      * rewrite bool_decide_false by done. simpl. lia.
    + intros x. rewrite (held_agree _ R) by (intros [] ?; by rewrite ?lookup_insert_ne). rewrite C2.
      unfold handle_count_of. simpl. rewrite lookup_insert. case_decide; [subst; by rewrite Ho|done].
    + intros x Hx. unfold refcount_of. simpl. rewrite lookup_insert. case_decide as Ex.
      * subst x. pose proof (C3 p (ex_intro _ _ Ho)) as Hl. unfold refcount_of in Hl. rewrite Ho in Hl.
        simpl in *. lia.
      * rewrite lookup_insert_ne in Hx by done. by apply C3.
    + intros n x. rewrite Hold by done. eauto.
    + intros x. rewrite (held_agree _ R) by (intros [] ?; by rewrite ?lookup_insert_ne). done.
    + intros h x acc. rewrite Hold by done. eauto.
    + intros x Hx. apply C7. by eapply insert_live.
    + done.
  - eapply owns_agree; [intros x; by apply Hold|]. by eapply owns_set.
  - eapply queues_agree; [intros y; by apply Hold|]. by eapply queues_set.
  - split.
    + intros e x. rewrite Hold by done. eauto.
    + intros w wt Hwt. eapply thread_upd_some; [done|]. by eapply W2.
    + intros t0 v0 H0. simpl in H0. rewrite lookup_insert in H0. case_decide; [|by apply W3].
      subst t0. injection H0 as <-. by apply (W3 t v).
  - split.
    + intros t0 v0 H0. simpl in H0. rewrite lookup_insert in H0. case_decide; [|by eapply T1].
      injection H0 as <-. by apply (T1 t v).
    + intros t0 t1 v0 v1 H0 H1. simpl in H0, H1. rewrite lookup_insert in H0, H1.
      repeat case_decide; simplify_eq; intros E; simpl in E; [done|eauto..].
  - split.
    + intros t0 v0 x H0. rewrite Eown. simpl in H0. rewrite lookup_insert in H0. case_decide.
      * subst t0. injection H0 as <-. simpl. rewrite elem_of_cons, (M1 t v x Hv). case_decide; [|naive_solver].
        naive_solver.
      * rewrite (M1 t0 v0 x H0). case_decide as Ex; [|done]. subst x. split; [|congruence].
        intros (c & a' & E). congruence.
    + intros t0 v0 H0. simpl in H0. rewrite lookup_insert in H0. case_decide; [|by eapply M2].
      injection H0 as <-. simpl. apply list.NoDup_cons. split; [|by eapply M2].
      rewrite (M1 t v p Hv). intros (c & a' & E). congruence.
    + intros x y. rewrite lookup_insert. destruct (decide (HMutex p = HMutex x)) as [[= <-]|Hne].
      * split; [intros [= <-]; split; [done|exists t]; rewrite Eown; by rewrite decide_True|by intros [-> _]].
      * assert (∀ t0, owned_by (<[p := Sync d']> (data_of s)) x t0 ↔ owned_by (data_of s) x t0) as E2
          by (intros t0; rewrite Eown; by rewrite decide_False by congruence).
        rewrite M3. by setoid_rewrite E2.
    + intros x t0. rewrite Eown. case_decide; [intros ->|intros Hx]; eapply thread_upd_some; eauto.
  - eapply syncs_set; [done|by apply queue_lookup|done| |done].
    split; [done|]. simpl. by unfold INT_MAX.
Qed.

Lemma data_first_hold p t o v a s : data_of (first_hold p t o v a s) = <[p := Sync (MutexSync (Some t) 1 a None)]> (data_of s).
Proof. unfold data_of. simpl. by rewrite fmap_insert. Qed.

Lemma evolves_first_hold R s p t o v a :
  sv_objs s !! p = Some o → o_data o = Sync (MutexSync None 0 a None) → sv_threads s !! t = Some v →
  evolves ∅ R s (<[HMutex p := p]> R) (first_hold p t o v a s).
Proof.
  intros Ho Hd Hv. pose proof (data_lookup _ _ _ Ho) as Hdp. rewrite Hd in Hdp.
  split; rewrite ?data_first_hold; try done.
  - intros y Hy. split; [by eapply insert_live|by eapply sync_ptr_set].
  - intros y dy. rewrite lookup_insert. case_decide; [|by exists dy]. subst y. intros [= <-]. by eexists.
  - intros n. by rewrite lookup_insert_ne.
  - intros n _. by rewrite lookup_insert_ne.
  - intros e' _. by rewrite lookup_insert_ne.
  - apply (same_keys_insert _ _ _ v); [done|]. by eexists.
Qed.

Lemma wp_first_grab s p t o v a (Q : unit → server → Prop) :
  sv_objs s !! p = Some o → o_data o = Sync (MutexSync None 0 a None) → sv_threads s !! t = Some v →
  o_refcount o < INT_MAX → Q tt (first_hold p t o v a s) → wp (do_grab p t) Q s.
Proof.
  intros Ho Hd Hv Hr HQ. unfold do_grab. rewrite wp_bind, (wp_sync_of _ _ _ _ _ Ho Hd), wp_bind, wp_assert.
  split; [done|]. cbn [Z.eqb]. rewrite wp_bind, wp_assert. split; [by apply bool_decide_eq_true|].
  rewrite wp_bind, (wp_update_obj _ _ _ _ _ Ho), wp_bind. unfold grab_object.
  rewrite wp_bind. unfold obj at 1. rewrite (wp_deref _ _ _ (with_data _ o)) by by simpl; rewrite lookup_insert_eq.
  rewrite wp_bind, wp_assert. split; [by apply Z.ltb_lt|].
  rewrite wp_set_obj, wp_bind. erewrite wp_update_obj by by simpl; rewrite lookup_insert_eq.
  rewrite (wp_update_thread _ v) by done.
  match goal with |- Q tt ?s' => assert (s' = first_hold p t o v a s) as -> end; [|done].
  unfold first_hold, thread_upd, upd, set_threads, set_objs. simpl. by rewrite !insert_insert_eq.
Qed.

Context (R : references) (s : server) (p x t : Z) (o : object) (e : Z * nat).
Context (Hinv : inv R s) (Ho : sv_objs s !! p = Some o) (He : R !! HWait e = Some x).
Context (Hp : sync_ptr (data_of s) x = Some p).

(** The cell of the sync object is stored, and perhaps its data. *)
Lemma taken_cell d c u cl :
  o_data o = Sync d → sync_ws d = Some c → w_syncs (sv_wfs s) !! c = Some u →
  wf_but (put_cell (cell_addr (ws_shm_idx u)) cl (sv_wfs s)) →
  type_of cl = type_of (cell_idx (sv_wfs s) (ws_shm_idx u)) →
  c_high cl ≤ c_high (cell_idx (sv_wfs s) (ws_shm_idx u)) + 1 →
  taken p t e R s R (on_wfs (λ _, put_cell (cell_addr (ws_shm_idx u)) cl (sv_wfs s)) s).
Proof using Hinv Ho He Hp.
  intros Hd Hc Hu Hwf Hty Hh. split.
  - apply inv_wfs; [done|done|]. by apply same_types_put.
  - by apply evolves_wfs.
  - done.
  - intros E HE. apply (room_take E R s _ p o e); [done|done|by eapply entry_queued|done|].
    intros y o' d' Hy Hd'. exists o', d'. split_and!; [done..|]. simpl.
    destruct (sync_ws d') as [c'|] eqn:Ec'; [|rewrite (hold_count_none (sv_wfs s)) by done; by case_decide; lia].
    destruct d' as [| |ow n a [q|]]; simplify_eq/=; try (case_decide; lia).
    destruct (w_syncs (sv_wfs s) !! c') as [u'|] eqn:Eu'; simpl; [|case_decide; lia].
    rewrite cell_at_put. case_decide as Ea; [|case_decide; lia].
    assert (ws_shm_idx u = ws_shm_idx u') as Ei.
    { pose proof (cl_sync _ (wb_cells _ (iv_wf _ _ Hinv)) _ _ Hu) as [I1 _ _ _ _].
      pose proof (cl_sync _ (wb_cells _ (iv_wf _ _ Hinv)) _ _ Eu') as [I2 _ _ _ _].
      pose proof (cl_range _ (wb_cells _ (iv_wf _ _ Hinv))). apply cell_addr_inj in Ea; lia. }
    assert (c = c') as -> by by eapply (cl_inj _ (wb_cells _ (iv_wf _ _ Hinv))).
    rewrite decide_True; [by rewrite <- Ei|].
    pose proof (data_lookup _ _ _ Ho) as Hdp. pose proof (data_lookup _ _ _ Hy) as Hdy.
    rewrite Hd in Hdp. rewrite Hd' in Hdy.
    eapply (sy_unique _ _ _ (iv_syncs _ _ Hinv)); [exact Hdy|exact Hdp|done|done].
  - intros y Hy _. exact Hy.
Qed.

(** Only the data of the sync object change. *)
Lemma taken_data d d' :
  o_data o = Sync d → same_sync d d' → owner_of d' = owner_of d →
  sync_ok (sv_wfs s) d' (Z.of_nat (length (o_wait_queue o))) →
  hold_count (sv_wfs s) d' ≤ hold_count (sv_wfs s) d + 1 →
  taken p t e R s R (upd p (with_data d' o) s).
Proof using Hinv Ho He Hp.
  intros Hd Hs How Hok Hh. split.
  - by eapply inv_set_data.
  - by eapply evolves_set_data.
  - done.
  - intros E HE. apply (room_take E R s _ p o e); [done|done|by eapply entry_queued|done|].
    intros y o' dy Hy Hdy. simpl in Hy. rewrite lookup_insert in Hy. case_decide.
    + subst y. injection Hy as <-. simpl in Hdy. injection Hdy as <-. exists o, d.
      by rewrite decide_True.
    + exists o', dy. split_and!; [done..|]. rewrite decide_False by done. simpl. lia.
  - intros y Hy Hne. rewrite data_set. unfold ready. rewrite lookup_insert. case_decide; [|exact Hy].
    subst y. specialize (Hne eq_refl). pose proof (data_lookup _ _ _ Ho) as Hdp. rewrite Hd in Hdp.
    unfold ready in Hy. rewrite Hdp in Hy, Hne. destruct Hs as [Hk Hws].
    destruct d as [| ? ? []|? ? ? []], d' as [| ? ? []|? ? ? []]; simplify_eq/=; try done.
    all: by (destruct (Hne _ _ eq_refl) || subst).
Qed.
End evolves.
