(* ===== verification/ServerSatisfied.v ===== *)
(** * The [satisfied] methods

    [sync_satisfied] and [object_sync_satisfied] with the invariant: an entry that is
    ready is satisfied without a failed assertion, for each kind of object, with a cell
    or without one. *)

From S2P Require Import Prelude.
From S2P Require Import ShmState.
From S2P Require Import WfusyncServer.
From S2P Require Import WfusyncServerOps.
From S2P Require Import WfusyncRegistry.
From S2P Require Import WfusyncServerInv.
From S2P Require Import WfusyncHistory.
From S2P Require Import WfusyncPending.
From S2P Require Import ServerObjects.
From S2P Require Import ServerObjectsSpec.
From S2P Require Import ServerMutexSpec.
From S2P Require Import ServerInv.
From S2P Require Import ServerRefs.
From S2P Require Import ServerTake.

Section satisfied.
Context `{PageSize} `{PD : Pending}.
Context (R : references) (s : server) (p x t : Z) (o : object) (e : Z * nat) (wt : thread_wait) (v : thread).
Context (Hinv : inv R s) (Ho : sv_objs s !! p = Some o) (He : R !! HWait e = Some x).
Context (Hp : sync_ptr (data_of s) x = Some p) (Hw : sv_waits s !! e.1 = Some wt).
Context (Ht : tw_thread wt = t) (Hv : sv_threads s !! t = Some v).
Context (Hrd : ready (data_of s) t p).
Context (E : gset (Z * nat)) (HE : e ∉ E) (Hroom : room E s).

Notation achieved := (λ _ s', ∃ R', taken p t e R s R' s').

(** The entry can take its mutex once more. *)
Lemma hold_room d : o_data o = Sync d → hold_count (sv_wfs s) d < INT_MAX.
Proof using Hinv Ho He Hp HE Hroom.
  intros Hd. pose proof (Hroom p o d Ho Hd) as Hr.
  pose proof (entry_queued _ _ _ _ _ _ Hinv He Hp Ho) as Hin.
  assert (1 ≤ open_entries E (o_wait_queue o)); [|lia]. unfold open_entries.
  assert (e ∈ filter (λ e, e ∉ E) (o_wait_queue o)) as Hf by by apply list_elem_of_filter.
  destruct (filter _ _); [by apply elem_of_nil in Hf|simpl; lia].
Qed.

Lemma plain_ok d : o_data o = Sync d → sync_ok (sv_wfs s) d (Z.of_nat (length (o_wait_queue o))).
Proof using Hinv Ho.
  intros Hd. pose proof (data_lookup _ _ _ Ho) as Hdp. rewrite Hd in Hdp.
  exact (sy_data _ _ _ (iv_syncs _ _ Hinv) _ _ _ Hdp (queue_lookup _ _ _ Ho)).
Qed.

Lemma event_satisfied_ok manual sg ws :
  o_data o = Sync (EventSync manual sg ws) →
  wp (event_sync_satisfied p manual sg ws) achieved s.
Proof using Hinv Ho He Hp.
  intros Hd. unfold event_sync_satisfied. rewrite wp_bind.
  pose proof (plain_ok _ Hd) as [Hok _]. destruct ws as [c|].
  - destruct (sync_cell_of _ _ _ _ _ c Hinv Ho Hd eq_refl) as (u & Hu & _ & Hs & Hf).
    rewrite wp_wfu.
    eapply wp_of_exec; [by apply (event_satisfied_exec _ _ _ _ _ Hs (or_introl eq_refl) Hf)|]. cbv beta.
    pose proof (event_low_wf _ _ _ (iv_wf _ _ Hinv) Hu (proj1 Hf)) as Hk.
    set (w := if truth _ then _ else _) in *.
    assert (taken p t e R s R (on_wfs (λ _, w) s)) as Htk.
    { unfold w in *. destruct (truth _).
      - rewrite on_wfs_id. by apply quiet_taken, quiet_refl.
      - eapply (taken_cell R s p x t o e); [done..|simpl; lia]. }
    rewrite wp_when. destruct manual; simpl; [by exists R|].
    rewrite wp_update_obj by done. exists R. eapply taken_quiet; [exact Htk|].
    eapply (quiet_data _ _ _ _ o); [apply Htk|done|done|done|done| |done|done].
    split; [|done]. simpl. eapply cell_ok_types; [|exact Hok]. unfold w. destruct (truth _); [done|].
    by apply same_types_put.
  - rewrite wp_ret, wp_when. destruct manual; simpl.
    + exists R. by apply quiet_taken, quiet_refl.
    + rewrite (wp_update_obj _ _ _ _ _ Ho). exists R. apply quiet_taken.
      by eapply (quiet_data _ _ _ _ o).
Qed.

Lemma semaphore_satisfied_ok count max ws :
  o_data o = Sync (SemaphoreSync count max ws) →
  wp (semaphore_sync_satisfied p count max ws) achieved s.
Proof using Hinv Ho He Hp Hrd.
  intros Hd. unfold semaphore_sync_satisfied. pose proof (plain_ok _ Hd) as [_ Hok]. destruct ws as [c|].
  - destruct (sync_cell_of _ _ _ _ _ c Hinv Ho Hd eq_refl) as (u & Hu & _ & Hs & Hf).
    rewrite wp_wfu.
    eapply wp_of_exec; [by apply (semaphore_satisfied_exec _ _ _ _ Hs Hf)|]. cbv beta.
    exists R. destruct (Z.leb_spec (c_low (cell_idx (sv_wfs s) (ws_shm_idx u))) 0) as [Hle|Hpos].
    + rewrite on_wfs_id. by apply quiet_taken, quiet_refl.
    + eapply (taken_cell R s p x t o e); [done..| |done|simpl; lia].
      by apply (semaphore_low_wf _ c); [apply (iv_wf _ _ Hinv)|..|apply Hf|].
  - pose proof Hrd as Hc. unfold ready in Hc. rewrite (data_lookup _ _ _ Ho), Hd in Hc.
    rewrite wp_bind, wp_assert. split; [apply negb_true_iff, Z.eqb_neq; lia|].
    rewrite (wp_update_obj _ _ _ _ _ Ho). exists R.
    destruct (Hok eq_refl). apply (taken_data R s p x t o e Hinv Ho He Hp (SemaphoreSync count max None)); try done.
    split; [done|]. intros _. lia.
Qed.

(** [do_grab] on a mutex that is free or already held by the thread. *)
Lemma do_grab_ok owner count a (Q : unit → server → Prop) :
  o_data o = Sync (MutexSync owner count a None) →
  (∀ R' s' o' owner', taken p t e R s R' s' → sv_objs s' !! p = Some o' →
     o_data o' = Sync (MutexSync owner' (count + 1) a None) → sv_waits s' = sv_waits s → Q tt s') →
  wp (do_grab p t) Q s.
Proof using Hinv Ho He Hp Hrd Hv HE Hroom.
  intros Hd HQ. pose proof (plain_ok _ Hd) as [_ [Hc How]]. pose proof (hold_room _ Hd) as Hlt. simpl in Hlt.
  pose proof Hrd as Hown. unfold ready in Hown. rewrite (data_lookup _ _ _ Ho), Hd in Hown.
  destruct (Z.eqb_spec count 0) as [->|Hne].
  - assert (owner = None) as -> by by apply How.
    apply (wp_first_grab s p t o v a); [done..|by eapply refcount_small|].
    eapply HQ; [|by simpl; rewrite lookup_insert_eq|reflexivity|done].
    split; [by apply inv_first_hold|by apply evolves_first_hold|..].
    + intros n. by rewrite lookup_insert_ne.
    + intros E0 HE0. apply (room_take E0 R s _ p o e); [done|done|by eapply entry_queued|done|].
      intros y o' dy Hy Hdy. simpl in Hy. rewrite lookup_insert in Hy. case_decide.
      * subst y. injection Hy as <-. simpl in Hdy. injection Hdy as <-. eexists o, _.
        split_and!; [done|exact Hd|done|]. rewrite decide_True by done. simpl. lia.
      * exists o', dy. split_and!; [done..|]. rewrite decide_False by done. simpl. lia.
    + intros y Hy _. unfold ready in *. rewrite data_first_hold, lookup_insert. case_decide; [by right|done].
  - unfold do_grab. rewrite wp_bind, (wp_sync_of _ _ _ _ _ Ho Hd), wp_bind, wp_assert. split.
    { apply orb_true_iff. destruct Hown as [Hn | ->]; [left; by apply Z.eqb_eq, How|right].
      by apply bool_decide_eq_true. }
    rewrite (proj2 (Z.eqb_neq count 0)), (wp_update_obj _ _ _ _ _ Ho), u32_small by (unfold INT_MAX in *; lia). eapply HQ; [|by simpl; rewrite lookup_insert_eq|reflexivity|done].
    apply (taken_data R s p x t o e Hinv Ho He Hp (MutexSync owner count a None)); try done.
    split; [done|]. split; [lia|]. rewrite How. lia.
Qed.

Lemma mutex_satisfied_ok owner count a ws :
  o_data o = Sync (MutexSync owner count a ws) → wp (mutex_sync_satisfied p ws e) achieved s.
Proof using Hinv Ho He Hp Hw Ht Hv Hrd HE Hroom.
  intros Hd. unfold mutex_sync_satisfied. destruct ws as [c|].
  - destruct (sync_cell_of _ _ _ _ _ c Hinv Ho Hd eq_refl) as (u & Hu & _ & Hs & Hf).
    pose proof (hold_room _ Hd) as Hlt. simpl in Hlt. rewrite Hu in Hlt. simpl in Hlt.
    pose proof (to_id _ (iv_threads _ _ Hinv) _ _ Hv) as Htid.
    pose proof (mutex_satisfied_exec _ _ _ _ (t_id v) Hs Hf) as Hx.
    rewrite wp_bind, (wp_entry_thread_id _ _ _ _ _ Hw) by by rewrite Ht. rewrite wp_bind, wp_wfu.
    assert (∀ (r : option bool) w, wfusync_mutex_satisfied (Some c) (t_id v) (sv_wfs s) = Done r w →
              taken p t e R s R (on_wfs (λ _, w) s) →
              wp (wfusync_mutex_satisfied (Some c) (t_id v)) (λ r w, wp (when (bool_decide (r = Some true))
                (make_wait_abandoned e)) achieved (on_wfs (λ _, w) s)) (sv_wfs s)) as Hfin.
    { intros r w Er Htk. eapply wp_of_exec; [exact Er|]. cbv beta. rewrite wp_when.
      destruct (bool_decide _); [|by exists R]. unfold make_wait_abandoned.
      rewrite (wp_update_wait _ wt) by done. exists R. eapply taken_quiet; [exact Htk|].
      apply quiet_abandoned; [apply Htk|done]. }
    revert Hx. pose proof (iv_wf _ _ Hinv) as Hwf. destruct (wb_values _ Hwf c u Hu) as [_ Hval]. specialize (Hval (proj1 Hf)).
    pose proof Htid as Htid'. unfold tid_ok, INT_MAX in Htid', Hlt, Hval. rewrite !s32_small by lia.
    set (cl := cell_idx (sv_wfs s) (ws_shm_idx u)) in *.
    destruct (Z.eqb_spec (c_low cl) (t_id v)) as [El|El].
    + intros Hx. eapply Hfin; [exact Hx|]. eapply (taken_cell R s p x t o e); [done..| |done|simpl; fold cl; lia].
      apply (mutex_again_wf _ c); [done|done|apply Hf|fold cl; lia|fold cl; unfold INT_MAX; lia].
    + destruct (_ || _) eqn:Eo; intros Hx.
      * assert (c_low cl ≤ 0) as Hle.
        { apply orb_true_iff in Eo as [E0%Z.eqb_eq|E0%Z.ltb_lt]; lia. }
        destruct (mutex_take_wf _ c u Hwf Hu (t_id v) (u32 (c_generation cl + 1)) (proj1 Hf) Htid Hle) as [Hw1 Hw2].
        eapply Hfin; [exact Hx|]. eapply (taken_cell R s p x t o e); [done..| | |].
        -- by destruct (_ <? 0).
        -- by destruct (_ <? 0).
        -- simpl. fold cl. lia.
      * eapply Hfin; [exact Hx|]. rewrite on_wfs_id. by apply quiet_taken, quiet_refl.
  - unfold get_wait_queue_thread. rewrite !wp_bind, (wp_wait_of _ _ _ _ Hw), wp_ret, Ht, wp_bind.
    apply (do_grab_ok owner count a); [done|]. intros R' s' o' owner' Htk Ho' Hd' Hws.
    rewrite wp_bind, (wp_sync_of _ _ _ _ _ Ho' Hd'), wp_bind, wp_when.
    assert (∀ s2, quiet t R' s' R' s2 → sv_objs s2 !! p = Some o' →
      wp (update_obj p (with_data (MutexSync owner' (count + 1) false None))) achieved s2) as Hfin.
    { intros s2 Hq2 Ho2. rewrite (wp_update_obj _ _ _ _ _ Ho2). exists R'. eapply taken_quiet; [exact Htk|].
      pose proof (qt_inv _ _ _ _ _ Hq2) as Hi2.
      assert (quiet t R' s2 R' (upd p (with_data (MutexSync owner' (count + 1) false None) o') s2)) as H2.
      { eapply quiet_data; [done..| |simpl; lia|done].
        pose proof (data_lookup _ _ _ Ho2) as Hdp. rewrite Hd' in Hdp.
        exact (sy_data _ _ _ (iv_syncs _ _ Hi2) _ _ _ Hdp (queue_lookup _ _ _ Ho2)). }
      destruct Hq2 as [_ E1 L1 O1 D1], H2 as [I2 E2 L2 O2 D2]. split; [done| |done|by eauto|by eauto].
      by eapply evolves_trans. }
    destruct a.
    + unfold make_wait_abandoned. rewrite (wp_update_wait _ wt) by by rewrite Hws.
      apply Hfin; [|done]. apply quiet_abandoned; [apply Htk|by rewrite Hws].
    + apply Hfin; [|done]. apply quiet_refl, Htk.
Qed.

Lemma sync_satisfied_ok d : o_data o = Sync d → wp (sync_satisfied p e) achieved s.
Proof using Hinv Ho He Hp Hw Ht Hv Hrd HE Hroom.
  intros Hd. unfold sync_satisfied. rewrite wp_bind, (wp_sync_of _ _ _ _ _ Ho Hd).
  destruct d; [by apply event_satisfied_ok|by apply semaphore_satisfied_ok|by eapply mutex_satisfied_ok].
Qed.
End satisfied.

(** ** Through the object *)

Section object.
Context `{PageSize} `{PD : Pending}.
Implicit Types (R : references) (s : server).

Lemma evolves_local X R s R' s' n :
  n < 2 → (∀ h, h ≠ HLocal n → R' !! h = R !! h) → data_of s' = data_of s → sv_wfs s' = sv_wfs s →
  env_of s' = env_of s → evolves X R s R' s'.
Proof.
  intros Hn Hr Ed Es Ee. apply env_rest in Ee as (Er & Ew & Et). split; rewrite ?Ed, ?Et, ?Ew, ?Es; try done.
  - intros m. by apply Hr.
  - intros m Hm. apply Hr. intros [=]. lia.
  - intros e _. by apply Hr.
Qed.

Lemma room_refcount E s p o n :
  sv_objs s !! p = Some o → room E s → room E (upd p (with_refcount n o) s).
Proof.
  intros Ho Hr x o' d. simpl. rewrite lookup_insert. case_decide; [|by apply Hr]. intros [= <-]. simpl.
  subst x. by apply (Hr p o d).
Qed.

(** What satisfying an entry achieves. *)
Record satisfied (E : gset (Z * nat)) (e : Z * nat) (p t : Z) R s R' s' : Prop := {
  sa_inv : inv R' s';
  sa_ev : evolves ∅ R s R' s';
  sa_local : ∀ n, R' !! HLocal n = R !! HLocal n;
  sa_room : room (E ∪ {[e]}) s';
  sa_ready : ∀ y, ready (data_of s) t y →
    (y = p → ∀ c m, data_of s !! y ≠ Some (Sync (SemaphoreSync c m None))) → ready (data_of s') t y }.

Lemma object_sync_satisfied_ok E R s e x p wt :
  inv R s → R !! HLocal 0 = None → R !! HWait e = Some x → sync_ptr (data_of s) x = Some p →
  sv_waits s !! e.1 = Some wt → ready (data_of s) (tw_thread wt) p → e ∉ E → room E s →
  wp (object_sync_satisfied x e) (λ _ s', ∃ R', satisfied E e p (tw_thread wt) R s R' s') s.
Proof.
  intros Hinv Hn He Hp Hw Hrd HE Hroom. destruct (entry_thread _ _ _ _ Hinv He) as (wt' & v & Hw' & _ & Hv).
  simplify_eq. destruct (sync_ptr_live _ _ _ _ Hinv He) as (p' & o & d & Hp' & Ho & Hd). simplify_eq.
  unfold object_sync_satisfied. rewrite wp_bind. eapply wp_get_obj_sync; [done..|by unfold MAX_LOCALS|].
  intros s1 Hinv1. set (o1 := with_refcount (o_refcount o + 1) o) in *. set (R1 := <[HLocal 0 := p]> R) in *.
  assert (data_of s1 = data_of s) as Ed1 by by apply (data_upd s p o).
  assert (sv_objs s1 !! p = Some o1) as Ho1 by apply lookup_insert_eq.
  rewrite wp_bind. eapply wp_mono.
  { eapply (sync_satisfied_ok R1 s1 p x (tw_thread wt) o1 e wt v); try done.
    - unfold R1. by rewrite lookup_insert_ne.
    - by rewrite Ed1.
    - by rewrite Ed1.
    - by apply room_refcount. }
  intros [] s2 (R2 & [I2 E2 L2 O2 D2]). eapply (wp_release_local _ _ 0); [exact I2| |].
  { rewrite L2. apply lookup_insert_eq. }
  intros R3 s3 I3 Hrl. exists R3. split.
  - done.
  - eapply evolves_trans; [|eapply evolves_trans; [exact E2|eapply released_evolves; [|exact Hrl]; lia]].
    apply (evolves_local _ _ _ _ _ 0); [lia| |done..]. intros h Hh. by apply lookup_insert_ne.
  - intros n. rewrite (rl_refs _ _ _ _ _ Hrl) by done. destruct (decide (n = 0)) as [->|Hne].
    + by rewrite lookup_delete_eq, Hn.
    + rewrite lookup_delete_ne by congruence. rewrite L2. unfold R1. by rewrite lookup_insert_ne by congruence.
  - eapply room_released; [exact I2|exact I3|exact Hrl|]. apply O2; [done|]. by apply room_refcount.
  - intros y Hy Hne. eapply ready_released; [exact Hrl|]. apply D2; [by rewrite Ed1|by rewrite Ed1].
Qed.
End object.
