(* ===== verification/ServerEndWait.v ===== *)
(** * Ending a wait

    [end_wait] (src/server/thread.c) with the invariant of ServerInv.v: it satisfies the
    objects, takes the entries out of their queues, drops their references and frees the
    wait; the server is again as it should be. *)

From S2P Require Import Prelude.
From S2P Require Import ShmState.
From S2P Require Import WfusyncServer.
From S2P Require Import WfusyncServerOps.
From S2P Require Import WfusyncRegistry.
From S2P Require Import WfusyncServerInv.
From S2P Require Import WfusyncHistory.
From S2P Require Import WfusyncPending.
From S2P Require Import ServerObjects.
From S2P Require Import ServerObjectsSpec.
From S2P Require Import ServerMutexSpec.
From S2P Require Import ServerInv.
From S2P Require Import ServerRefs.
From S2P Require Import ServerTake.
From S2P Require Import ServerSatisfied.

(** ** Removing an entry from a list without duplicates *)

Lemma difference_elem {A} `{!EqDecision A} (l : list A) e y : y ∈ list_difference l [e] ↔ y ∈ l ∧ y ≠ e.
Proof. rewrite list_elem_of_difference, list_elem_of_singleton. done. Qed.
Lemma difference_absent {A} `{!EqDecision A} (l : list A) e : e ∉ l → list_difference l [e] = l.
Proof.
  induction l as [|x l IH]; intros He; [done|]. simpl. case_decide; [set_solver|].
  f_equal. apply IH. set_solver.
Qed.
Lemma difference_length {A} `{!EqDecision A} (l : list A) e :
  NoDup l → e ∈ l → Z.of_nat (length (list_difference l [e])) = Z.of_nat (length l) - 1.
Proof.
  induction l as [|x l IH]; intros Hnd He; [by apply elem_of_nil in He|].
  apply list.NoDup_cons in Hnd as [Hx Hnd]. simpl. case_decide as Ex.
  - apply list_elem_of_singleton in Ex as ->. rewrite difference_absent by done. lia.
  - apply elem_of_cons in He as [->|He]; [by destruct Ex; left|]. simpl. specialize (IH Hnd He). lia.
Qed.

Section remove.
Context `{PageSize} `{PD : Pending}.
Implicit Types (R : references) (s : server).

(** The references after entry [e] has left its queue: a variable stands for it. *)
Definition unqueued R (e : Z * nat) (x : Z) : references := <[HLocal 1 := x]> (delete (HWait e) R).

(** What [wfusync_add_server_waiter] ([k] = 1) and [wfusync_remove_server_waiter]
    ([k] = -1) do to the cells. *)
Definition waiters_by (k : Z) (ws : option Z) (w w' : wfs) : Prop :=
  match ws with
  | None => w' = w
  | Some c => wf_but w' ∧ (∃ v, w_syncs w !! c = Some v ∧
      w_syncs w' = <[c := Wfusync (ws_shm_idx v) (ws_server_waiters v + k)]> (w_syncs w)) ∧
      ∀ a, type_of (cell_at w' a) = type_of (cell_at w a) ∧ c_high (cell_at w' a) = c_high (cell_at w a)
  end.

Definition unqueue (p : Z) (o : object) (e : Z * nat) (w : wfs) s : server :=
  upd p (with_queue (list_difference (o_wait_queue o) [e]) o) (on_wfs (λ _, w) s).

Lemma data_unqueue s p o e w : sv_objs s !! p = Some o → data_of (unqueue p o e w s) = data_of s.
Proof. intros Ho. unfold unqueue. by rewrite (data_upd _ _ o). Qed.

Lemma syncs_queue R s p d l l' k w' :
  inv R s → data_of s !! p = Some (Sync d) → queue_of s !! p = Some l →
  Z.of_nat (length l') = Z.of_nat (length l) + k → waiters_by k (sync_ws d) (sv_wfs s) w' →
  syncs_ok w' (data_of s) (<[p := l']> (queue_of s)).
Proof.
  intros Hinv Hdp Hqp Hlen Hl. destruct (iv_syncs _ _ Hinv) as [H1 H2]. split; [|done].
  intros y dy l0 Hy. rewrite lookup_insert. case_decide.
  - subst y. intros [= <-]. assert (dy = d) as -> by congruence.
    destruct (H1 _ _ _ Hdp Hqp) as [Hok Hv]. split; [|done].
    destruct (sync_ws d) as [c|] eqn:Ec; [|done]. destruct Hl as (_ & (v & Hv1 & Hs) & Ht).
    destruct Hok as (v' & Hv' & Hn & Hty). assert (v = v') as -> by congruence.
    exists (Wfusync (ws_shm_idx v') (ws_server_waiters v' + k)). rewrite Hs, lookup_insert_eq.
    split; [done|]. simpl. split; [lia|]. by rewrite (proj1 (Ht _)).
  - intros Hl'. destruct (H1 _ _ _ Hy Hl') as [Hok Hv]. split; [|done].
    destruct (sync_ws dy) as [c'|] eqn:Ec'; [|done]. unfold waiters_by in Hl.
    destruct (sync_ws d) as [c|] eqn:Ec; [|by subst]. destruct Hl as (_ & (v & Hv1 & Hs) & Ht).
    assert (c' ≠ c) as Hne by (intros ->; by assert (y = p) by by eapply H2).
    destruct Hok as (v' & Hv' & Hn & Hty). exists v'. rewrite Hs, lookup_insert_ne by done.
    by rewrite (proj1 (Ht _)).
Qed.

Lemma inv_unqueue R s p o d e x w' :
  inv R s → sv_objs s !! p = Some o → o_data o = Sync d → R !! HWait e = Some x →
  sync_ptr (data_of s) x = Some p → R !! HLocal 1 = None → wf_but w' →
  waiters_by (-1) (sync_ws d) (sv_wfs s) w' → inv (unqueued R e x) (unqueue p o e w' s).
Proof.
  intros Hinv Ho Hd He Hp Hn Hwf' Hl. pose proof (entry_queued _ _ _ _ _ _ Hinv He Hp Ho) as Hin.
  pose proof (data_lookup _ _ _ Ho) as Hdp. rewrite Hd in Hdp. pose proof (queue_lookup _ _ _ Ho) as Hqp.
  pose proof (difference_length _ e (qu_nodup _ _ _ (iv_queues _ _ Hinv) _ _ Hqp) Hin) as Hlen.
  pose proof (syncs_queue _ _ _ _ _ _ (-1) _ Hinv Hdp Hqp Hlen Hl) as Hsy. clear Hdp Hqp Hlen.
  destruct Hinv as [Hwf [C1 C2 C3 C4 C5 C6 C7 C8] Hw [Q1 Q2] [W1 W2 W3] Ht Hm _].
  set (R' := unqueued R e x).
  assert (∀ h, h ≠ HLocal 1 → h ≠ HWait e → R' !! h = R !! h) as Hold.
  { intros h H1 H2. unfold R', unqueued. by rewrite lookup_insert_ne, lookup_delete_ne. }
  assert (R' !! HWait e = None) as Hgone.
  { unfold R', unqueued. by rewrite lookup_insert_ne, lookup_delete_eq. }
  assert (data_of (unqueue p o e w' s) = data_of s) as Ed by by apply data_unqueue.
  assert (queue_of (unqueue p o e w' s) = <[p := list_difference (o_wait_queue o) [e]]> (queue_of s)) as Eq.
  { unfold queue_of. simpl. by rewrite fmap_insert. }
  split; rewrite ?Ed, ?Eq; try done.
  - split; simpl.
    + intros y. unfold R', unqueued. rewrite held_move by done. rewrite C1. unfold unqueue.
      rewrite refcount_upd. unfold refcount_of. simpl. case_decide; [subst; by rewrite Ho|done].
    + intros y. unfold R', unqueued. rewrite held_move by done. rewrite C2. unfold unqueue.
      rewrite handle_count_upd. unfold handle_count_of. simpl. case_decide; [subst; by rewrite Ho|done].
    + intros y Hy. unfold unqueue. rewrite refcount_upd. simpl.
      case_decide; [|apply C3; by rewrite lookup_insert_ne in Hy].
      pose proof (C3 p (ex_intro _ _ Ho)) as H3. unfold refcount_of in H3. by rewrite Ho in H3.
    + intros n y. destruct (decide (n = 1)) as [->|Hne]; [intros _; by unfold MAX_LOCALS|].
      rewrite Hold by congruence. eauto.
    + intros y. unfold R', unqueued. rewrite held_insert by by rewrite lookup_delete_ne.
      rewrite (held_delete _ _ _ _ _ He). cbn [is_lasting andb]. specialize (C5 y).
      destruct (bool_decide _); cbn [b2z]; lia.
    + intros h y a. rewrite Hold by done. eauto.
    + intros y Hy. apply C7. by eapply insert_live.
    + done.
  - eapply owns_agree; [|done]. intros y. by apply Hold.
  - split.
    + intros y l. rewrite lookup_insert. case_decide; [|by eauto]. intros [= <-].
      apply NoDup_list_difference. by eapply Q1, queue_lookup.
    + intros y l e'. rewrite lookup_insert. destruct (decide (e' = e)) as [->|Hne].
      * intros Hl'. rewrite Hgone. split; [|by intros (? & ? & _)]. case_decide.
        -- injection Hl' as <-. rewrite difference_elem. by intros [_ ?].
        -- rewrite (Q2 _ _ _ Hl'). intros (y' & Hy' & Hpy). simplify_eq.
      * rewrite Hold by (done || congruence). case_decide; [|by apply Q2]. intros [= <-]. subst y.
        rewrite difference_elem, (Q2 p _ e' (queue_lookup _ _ _ Ho)). naive_solver.
  - split; [|done..]. intros e' y. destruct (decide (e' = e)) as [->|Hne]; [by rewrite Hgone|].
    rewrite Hold by (done || congruence). eauto.
  - eapply mutexes_agree; [|done]. intros y. by apply Hold.
Qed.

Lemma wp_remove_waiter R s p o d e (Q : unit → server → Prop) :
  inv R s → sv_objs s !! p = Some o → o_data o = Sync d → e ∈ o_wait_queue o →
  (∀ w, wf_but w → waiters_by (-1) (sync_ws d) (sv_wfs s) w → Q tt (unqueue p o e w s)) →
  wp (sync_remove_queue p e) Q s.
Proof.
  intros Hinv Ho Hd He HQ. unfold sync_remove_queue. rewrite wp_bind, (wp_sync_of _ _ _ _ _ Ho Hd), wp_bind.
  assert (∀ w, wp (remove_queue p e) Q (on_wfs (λ _, w) s) ↔ Q tt (unqueue p o e w s)) as Hrem.
  { intros w. unfold remove_queue. by rewrite (wp_update_obj _ o). }
  destruct (sync_ws d) as [c|] eqn:Ec.
  - destruct (sync_cell_of _ _ _ _ _ c Hinv Ho Hd Ec) as (u & Hu & Hn & _).
    assert (0 < ws_server_waiters u) as Hpos.
    { rewrite Hn. destruct (o_wait_queue o); [by apply elem_of_nil in He|simpl; lia]. }
    rewrite wp_wfu. eapply wp_mono.
    + by apply (remove_waiter_wf_but _ c u); [apply (iv_wf _ _ Hinv)|..].
    + intros [] w (Hw & Hs & Hval). apply Hrem, HQ; [done|].
      split; [done|]. split; [by exists u|]. intros a. by destruct (Hval a ltac:(done)) as (? & _ & ?).
  - rewrite wp_ret. rewrite <- (on_wfs_id s). apply Hrem. by apply HQ; [apply Hinv|].
Qed.

Lemma open_entries_difference E l e : open_entries E (list_difference l [e]) ≤ open_entries E l.
Proof.
  unfold open_entries. apply inj_le. induction l as [|x l IH]; [done|]. simpl.
  destruct (decide_rel elem_of x [e]); rewrite !filter_cons; repeat case_decide; simpl; lia.
Qed.

Lemma hold_count_waiters k ws w w' d : waiters_by k ws w w' → hold_count w' d = hold_count w d.
Proof.
  unfold waiters_by. destruct ws as [c|]; [|by intros ->]. intros (_ & (v & Hv & Hs) & Ht).
  destruct d as [| |? ? ? [q|]]; try done. simpl. rewrite Hs, lookup_insert. case_decide.
  - subst q. rewrite Hv. simpl. by rewrite (proj2 (Ht _)).
  - destruct (w_syncs w !! q); simpl; [|done]. by rewrite (proj2 (Ht _)).
Qed.

Lemma waiters_cells k ws w w' : waiters_by k ws w w' → cells_keep w w'.
Proof.
  unfold waiters_by. destruct ws as [c|]; [|by intros ->]. intros (_ & (v & Hv & Hs) & _) c' v'.
  rewrite Hs, lookup_insert. case_decide; [|by exists v']. subst. intros [= <-]. by exists v.
Qed.

Lemma room_unqueue E s p o d e w' :
  sv_objs s !! p = Some o → waiters_by (-1) (sync_ws d) (sv_wfs s) w' →
  room E s → room E (unqueue p o e w' s).
Proof.
  intros Ho Hl Hr y o' dy. simpl. rewrite lookup_insert. rewrite (hold_count_waiters _ _ _ _ _ Hl). case_decide.
  - intros [= <-] Hdy. simpl in *. pose proof (Hr p o dy Ho Hdy).
    pose proof (open_entries_difference E (o_wait_queue o) e). lia.
  - apply Hr.
Qed.

(** Taking entry [e] out of the queue of its object, and dropping its reference. *)
Record removed (e : Z * nat) R s R' s' : Prop := {
  rm_inv : inv R' s';
  rm_ev : evolves {[e]} R s R' s';
  rm_entry : R' !! HWait e = None;
  rm_local : R' !! HLocal 0 = None ∧ R' !! HLocal 1 = None;
  rm_room : ∀ E, room E s → room E s' }.

Lemma remove_entry_ok R s e x :
  inv R s → R !! HLocal 0 = None → R !! HLocal 1 = None → R !! HWait e = Some x →
  wp (_ ← object_sync_remove_queue x e; release_object x) (λ _ s', ∃ R', removed e R s R' s') s.
Proof.
  intros Hinv Hn0 Hn1 He. destruct (sync_ptr_live _ _ _ _ Hinv He) as (p & o & d & Hp & Ho & Hd).
  unfold object_sync_remove_queue. rewrite !wp_bind.
  eapply (wp_get_obj_sync _ _ _ _ _ _ 0); [done..|by unfold MAX_LOCALS|].
  intros s1 Hinv1. set (o1 := with_refcount (o_refcount o + 1) o) in *. set (R1 := <[HLocal 0 := p]> R) in *.
  assert (data_of s1 = data_of s) as Ed1 by by apply (data_upd s p o).
  assert (sv_objs s1 !! p = Some o1) as Ho1 by apply lookup_insert_eq.
  assert (R1 !! HWait e = Some x) as He1 by by unfold R1; rewrite lookup_insert_ne.
  assert (sync_ptr (data_of s1) x = Some p) as Hp1 by by rewrite Ed1.
  rewrite wp_bind. eapply (wp_remove_waiter R1 s1 p o1 d e); [done|done|done|by eapply entry_queued|].
  intros w Hw Hl. set (s2 := unqueue p o1 e w s1). set (R2 := unqueued R1 e x).
  assert (inv R2 s2) as Hinv2.
  { eapply inv_unqueue; try done. unfold R1. by rewrite lookup_insert_ne. }
  assert (data_of s2 = data_of s) as Ed2 by (unfold s2; by rewrite data_unqueue).
  eapply (wp_release_local _ _ 0); [exact Hinv2|by unfold R2, unqueued, R1; rewrite lookup_insert_ne, lookup_delete_ne, lookup_insert_eq|].
  intros R3 s3 Hinv3 Hrl3. eapply (wp_release_local _ _ 1); [exact Hinv3| |].
  { rewrite (rl_refs _ _ _ _ _ Hrl3) by done. rewrite lookup_delete_ne by done. apply lookup_insert_eq. }
  intros R4 s4 Hinv4 Hrl4. exists R4.
  assert (∀ h, h ≠ HLocal 0 → h ≠ HLocal 1 → h ≠ HWait e → R2 !! h = R !! h) as Hold2.
  { intros h H1 H2 H3. unfold R2, unqueued, R1. by rewrite lookup_insert_ne, lookup_delete_ne, lookup_insert_ne. }
  split.
  - done.
  - eapply evolves_trans; [|eapply evolves_trans; [eapply released_evolves; [|exact Hrl3]; lia
      |eapply released_evolves; [|exact Hrl4]; lia]].
    split; rewrite ?Ed2; try done.
    + intros c v Hv. eapply waiters_cells; [exact Hl|done].
    + intros n. by apply Hold2.
    + intros n Hn. apply Hold2; [intros [=]; lia..|done].
    + intros e' He'. apply Hold2; [done..|]. intros [= ->]. set_solver.
  - rewrite (rl_refs _ _ _ _ _ Hrl4), lookup_delete_ne, (rl_refs _ _ _ _ _ Hrl3), lookup_delete_ne by done.
    unfold R2, unqueued. by rewrite lookup_insert_ne, lookup_delete_eq.
  - rewrite !(rl_refs _ _ _ _ _ Hrl4) by done. split; [|by rewrite lookup_delete_eq].
    rewrite lookup_delete_ne, (rl_refs _ _ _ _ _ Hrl3) by done. by rewrite lookup_delete_eq.
  - intros E Hr. eapply room_released; [exact Hinv3|exact Hinv4|exact Hrl4|].
    eapply room_released; [exact Hinv2|exact Hinv3|exact Hrl3|].
    eapply room_unqueue; [done|exact Hl|]. by apply room_refcount.
Qed.
End remove.

(** ** The loops of [end_wait] *)

Section end_wait.
Context `{PageSize} `{PD : Pending}.
Implicit Types (R : references) (s : server).

(** Both short-lived variables are free. *)
Definition no_locals R : Prop := R !! HLocal 0 = None ∧ R !! HLocal 1 = None.

(** The server while the entries of a wait are satisfied. *)
Record satisfying (E : gset (Z * nat)) R s R' s' : Prop := {
  sg_inv : inv R' s';
  sg_ev : evolves ∅ R s R' s';
  sg_local : no_locals R';
  sg_room : room E s' }.

Lemma evolves_live X R s R' s' h x :
  inv R' s' → evolves X R s R' s' → R' !! h = Some x → sync_ptr (data_of s') x = sync_ptr (data_of s) x.
Proof.
  intros Hinv Hev Hh. apply (ev_ptr _ _ _ _ _ Hev), live_iff_data.
  destruct (reference_live _ _ _ _ (iv_counts _ _ Hinv) Hh) as [o Ho]. by exists o.
Qed.

(** One entry of wait [w] is satisfied. *)
Lemma satisfy_step E R0 s0 R s w wt i x p :
  satisfying E R0 s0 R s → sv_waits s0 !! w = Some wt → R0 !! HWait (w, i) = Some x →
  sync_ptr (data_of s0) x = Some p → ready (data_of s) (tw_thread wt) p → (w, i) ∉ E →
  wp (object_sync_satisfied x (w, i))
    (λ _ s', ∃ R', satisfying (E ∪ {[(w, i)]}) R0 s0 R' s' ∧
       ∀ y, ready (data_of s) (tw_thread wt) y →
         (y = p → ∀ c m, data_of s0 !! y ≠ Some (Sync (SemaphoreSync c m None))) →
         ready (data_of s') (tw_thread wt) y) s.
Proof.
  intros [Hinv Hev [Hn0 Hn1] Hroom] Hw He Hp Hrd HE.
  destruct (same_keys_fwd _ _ _ _ _ (ev_waits _ _ _ _ _ Hev) Hw) as (wt' & Hw' & Hsw).
  assert (tw_thread wt' = tw_thread wt) as Et by by destruct Hsw as [-> | ->].
  assert (R !! HWait (w, i) = Some x) as He' by by rewrite (ev_entry _ _ _ _ _ Hev).
  eapply wp_mono.
  { eapply (object_sync_satisfied_ok E R s (w, i) x p wt'); try done; [|by rewrite Et].
    rewrite <- Hp. by eapply evolves_live. }
  intros [] s' (R' & [I V L O D]). exists R'. rewrite Et in D. split; [split|].
  - done.
  - by eapply evolves_trans.
  - split; by rewrite L.
  - done.
  - intros y Hy Hne. apply D; [done|]. intros -> c m Hsem.
    destruct (ev_semaphore _ _ _ _ _ _ _ _ Hev Hsem) as (c' & m' & Hsem'). by eapply Hne.
Qed.

(** The entries before one of the entries of a wait do not include it. *)
Lemma entries_split w wt done0 e x rest :
  entries_of_wait w wt = done0 ++ (e, x) :: rest →
  ∃ i, e = (w, i) ∧ tw_objs wt !! i = Some x ∧ e ∉ done0.*1.
Proof.
  intros Hl. assert (entries_of_wait w wt !! length done0 = Some (e, x)) as Hlk.
  { rewrite Hl, lookup_app_r, Nat.sub_diag by lia. done. }
  unfold entries_of_wait in Hlk. rewrite list_lookup_imap, fmap_Some in Hlk.
  destruct Hlk as (y & Hy & [= -> ->]). exists (length done0). split_and!; [done|done|].
  intros ([e' x'] & Ee & [k Hk]%list_elem_of_lookup)%list_elem_of_fmap. simpl in Ee. subst e'.
  assert (entries_of_wait w wt !! k = Some ((w, length done0), x')) as Hk'
    by (rewrite Hl; by apply lookup_app_l_Some).
  unfold entries_of_wait in Hk'. rewrite list_lookup_imap, fmap_Some in Hk'.
  destruct Hk' as (? & _ & [= <- _]). apply lookup_lt_Some in Hk. lia.
Qed.

Lemma satisfy_all_ok R s w wt :
  satisfying ∅ R s R s → sv_waits s !! w = Some wt → complete R w wt →
  tw_select wt = SELECT_WAIT_ALL → distinct_semaphores (data_of s) wt →
  (∀ x, x ∈ tw_objs wt → entry_ready (data_of s) (tw_thread wt) x) →
  wp (for_each (entries_of_wait w wt) (λ e, object_sync_satisfied e.2 e.1))
    (λ _ s', ∃ R' E, satisfying E R s R' s' ∧ ∀ e, e ∈ E → e.1 = w) s.
Proof.
  intros Hst Hw [Hc _] Hsel Hdis Hrd. eapply wp_mono.
  { apply (wp_for_each _ _ (λ done s', ∃ R', satisfying (list_to_set done.*1) R s R' s' ∧
      ∀ j y p, tw_objs wt !! j = Some y → (w, j) ∉ done.*1 → sync_ptr (data_of s) y = Some p →
        ready (data_of s') (tw_thread wt) p)).
    - exists R. split; [done|]. intros j y p Hj _ Hp. eapply Hrd; [|exact Hp]. by eapply list_elem_of_lookup_2.
    - intros done0 [e x] rest s' Hl (R' & Hs' & Hr').
      destruct (entries_split _ _ _ _ _ _ Hl) as (i & -> & Hy & Hfresh). rename x into y.
      destruct (sync_ptr_live _ _ _ _ (sg_inv _ _ _ _ _ Hst) (Hc i y Hy)) as (p & ? & ? & Hp & _).
      eapply wp_mono; [eapply (satisfy_step _ R s R' s' w wt i y p); try done|].
      + by apply Hc.
      + by eapply Hr'.
      + by rewrite elem_of_list_to_set.
      + intros [] s'' (R'' & Hs'' & Hr''). exists R''. rewrite fmap_app, list_to_set_app_L. simpl.
        rewrite union_empty_r_L. split; [done|]. intros j z q Hj Hnot Hq. apply Hr''.
        * eapply Hr'; [done| |done]. set_solver.
        * intros -> c m. apply (Hdis Hsel i j y z p c m); [|done..].
          intros <-. apply Hnot. set_solver. }
  intros _ s' (R' & Hs' & _). eexists _, _. split; [exact Hs'|]. intros e.
  rewrite elem_of_list_to_set, list_elem_of_fmap. intros ([e' x] & -> & Hin).
  by apply entries_elem in Hin as (i & y & [= -> ->] & _).
Qed.

(** All entries of the wait leave their queues. *)
Lemma remove_all_ok R s w wt :
  inv R s → no_locals R → (∀ i x, tw_objs wt !! i = Some x → R !! HWait (w, i) = Some x) →
  wp (for_each (entries_of_wait w wt) (λ e, _ ← object_sync_remove_queue e.2 e.1; release_object e.2))
    (λ _ s', ∃ R' X, inv R' s' ∧ no_locals R' ∧ evolves X R s R' s' ∧ (∀ e, e ∈ X → e.1 = w) ∧
       (∀ i, is_Some (tw_objs wt !! i) → R' !! HWait (w, i) = None) ∧
       ∀ E, room E s → room E s') s.
Proof.
  intros Hinv Hnl Hc. eapply wp_mono.
  { apply (wp_for_each _ _ (λ done s', ∃ R', inv R' s' ∧ no_locals R' ∧
      evolves (list_to_set done.*1) R s R' s' ∧ (∀ e, e ∈ done.*1 → R' !! HWait e = None) ∧
      ∀ E, room E s → room E s')).
    - exists R. split_and!; [done|done|apply evolves_refl|by intros ? ?%elem_of_nil|done].
    - intros done0 [e x] rest s' Hl (R' & Hinv' & [Hn0 Hn1] & Hev & Hgone & Hroom).
      destruct (entries_split _ _ _ _ _ _ Hl) as (i & -> & Hx & Hfresh).
      assert (R' !! HWait (w, i) = Some x) as He.
      { rewrite (ev_entry _ _ _ _ _ Hev) by by rewrite elem_of_list_to_set. by apply Hc. }
      eapply wp_mono; [by apply (remove_entry_ok R' s' (w, i) x)|].
      intros [] s'' (R'' & [I V G L O]). exists R''. rewrite fmap_app. simpl. split_and!; [done|done| | |by eauto].
      + rewrite list_to_set_app_L. simpl. rewrite union_empty_r_L.
        eapply evolves_trans; eapply evolves_mono; [..|exact Hev| |exact V]; set_solver.
      + intros e. rewrite elem_of_app, list_elem_of_singleton. intros [Hin | ->]; [|done].
        destruct (decide (e = (w, i))) as [->|Hne]; [done|]. rewrite (ev_entry _ _ _ _ _ V) by set_solver. by apply Hgone. }
  intros _ s' (R' & Hinv' & Hnl' & Hev & Hgone & Hroom). eexists R', _. split_and!; [done|done|exact Hev| | |done].
  - intros e. rewrite elem_of_list_to_set, list_elem_of_fmap. intros ([e' x] & -> & Hin).
    by apply entries_elem in Hin as (i & y & [= -> ->] & _).
  - intros i [x Hx]. apply Hgone. apply list_elem_of_fmap. exists ((w, i), x). split; [done|].
    apply entries_elem. by eauto.
Qed.

Lemma room_close E R s : inv R s → (∀ e, e ∈ E → R !! HWait e = None) → room E s → room ∅ s.
Proof.
  intros Hinv HE Hroom p o d Ho Hd. etrans; [|by apply (Hroom p o d)]. apply Z.add_le_mono_l.
  assert (∀ e, e ∈ o_wait_queue o → e ∉ E) as Hq.
  { intros e He HeE. apply (qu_elem _ _ _ (iv_queues _ _ Hinv) _ _ _ (queue_lookup _ _ _ Ho)) in He
      as (x & Hx & _). by rewrite HE in Hx. }
  unfold open_entries. apply inj_le. clear -Hq. induction (o_wait_queue o) as [|e l IH]; [done|].
  rewrite !filter_cons, (decide_True (P := e ∉ E)) by (apply Hq; by left).
  pose proof (IH (λ e' He', Hq e' (list_elem_of_further _ _ _ He'))). case_decide; simpl; lia.
Qed.

(** ** Unlinking and freeing the wait *)

Lemma inv_pop R s t v w next :
  inv R s → sv_threads s !! t = Some v → t_waits v = w :: next → inv R (thread_upd t (with_waits next v) s).
Proof.
  intros [Hwf [C1 C2 C3 C4 C5 C6 C7 C8] Ho Hq [W1 W2 W3] [T1 T2] [M1 M2 M3 M4] Hy] Hv Hwl.
  assert (∀ t0 v0, sv_threads (thread_upd t (with_waits next v) s) !! t0 = Some v0 →
    ∃ v1, sv_threads s !! t0 = Some v1 ∧ t_id v0 = t_id v1 ∧ t_mutex_list v0 = t_mutex_list v1 ∧
      t_waits v0 `suffix_of` t_waits v1) as Hlook.
  { intros t0 v0. simpl. rewrite lookup_insert. case_decide; [|intros; exists v0; by split_and!].
    subst t0. intros [= <-]. exists v. rewrite Hwl. split_and!; [done..|]. by exists [w]. }
  split; try done; split; try done.
  - intros w' wt Hw'. eapply thread_upd_some; [done|]. by eapply W2.
  - intros t0 v0 H0. destruct (Hlook _ _ H0) as (v1 & H1 & _ & _ & k & Hk). destruct (W3 t0 v1 H1) as [Hnd Hl].
    rewrite Hk in Hnd, Hl. apply list.NoDup_app in Hnd as (_ & _ & Hnd). split; [done|].
    intros w' Hin. apply Hl. apply elem_of_app. by right.
  - intros t0 v0 H0. destruct (Hlook _ _ H0) as (v1 & H1 & -> & _). by eapply T1.
  - intros t0 t1 v0 v1 H0 H1. destruct (Hlook _ _ H0) as (v2 & H2 & -> & _), (Hlook _ _ H1) as (v3 & H3 & -> & _).
    by apply T2.
  - intros t0 v0 p H0. destruct (Hlook _ _ H0) as (v1 & H1 & _ & -> & _). by apply M1.
  - intros t0 v0 H0. destruct (Hlook _ _ H0) as (v1 & H1 & _ & -> & _). by eapply M2.
  - intros p t0 Hp. eapply thread_upd_some; [done|]. by eapply M4.
Qed.

Lemma settled_pop R s t v w next :
  inv R s → settled ∅ R s → sv_threads s !! t = Some v → t_waits v = w :: next →
  settled {[w]} R (thread_upd t (with_waits next v) s).
Proof.
  intros Hinv Hs Hv Hwl w' wt Hw' Hne. destruct (Hs w' wt Hw') as ((v1 & H1 & Hin) & Hrest); [set_solver|].
  split; [|done]. simpl. rewrite lookup_insert. case_decide; [|by exists v1]. subst t. simplify_eq.
  eexists. split; [done|]. simpl. rewrite Hwl in Hin. set_solver.
Qed.

Definition wait_del (w : Z) s : server := set_waits (delete w (sv_waits s)) (sv_next_wait s) s.

Lemma inv_wait_del R s w :
  inv R s → (∀ i, R !! HWait (w, i) = None) → (∀ t v, sv_threads s !! t = Some v → w ∉ t_waits v) →
  inv R (wait_del w s).
Proof.
  intros [Hwf Hc Ho Hq [W1 W2 W3] Ht Hm Hy] Hgone Hun. split; try done.
  - eapply counts_objs; [..|exact Hc]; try done. intros w'. simpl. rewrite lookup_delete. by case_decide; [intros []|].
  - split; simpl.
    + intros [w' i] x He. destruct (W1 _ _ He) as (wt & Hw & Hx). exists wt. split; [|done].
      simpl in *. rewrite lookup_delete_ne; [done|]. intros <-. by rewrite Hgone in He.
    + intros w' wt [_ Hw]%lookup_delete_Some. by eapply W2.
    + intros t v Hv. destruct (W3 t v Hv) as [Hnd Hl]. split; [done|]. intros w' Hin.
      destruct (Hl w' Hin) as (wt & Hw & Ht'). exists wt. rewrite lookup_delete_ne; [done|].
      intros <-. by eapply Hun.
Qed.
Lemma settled_wait_del R s w : settled {[w]} R s → settled ∅ R (wait_del w s).
Proof.
  intros Hs w' wt Hw _. simpl in Hw. apply lookup_delete_Some in Hw as [Hne Hw]. apply (Hs w' wt Hw). set_solver.
Qed.

(** ** [end_wait] *)

(** What ending waits leaves: no object and no wait appears, objects keep their sync
    objects, the references of handles and of callers stay. *)
Definition fewer_waits (v v' : thread) : Prop := t_id v' = t_id v ∧ t_waits v' `suffix_of` t_waits v.
#[export] Instance fewer_waits_preorder : PreOrder fewer_waits.
Proof.
  split; [done|]. intros v1 v2 v3 [E1 S1] [E2 S2]. split; [congruence|by etrans].
Qed.
Record advances R s R' s' : Prop := {
  ad_ptr : ∀ x, is_Some (data_of s' !! x) →
    is_Some (data_of s !! x) ∧ sync_ptr (data_of s') x = sync_ptr (data_of s) x;
  ad_sync : syncs_keep (data_of s) (data_of s');
  ad_cells : cells_keep (sv_wfs s) (sv_wfs s');
  ad_handle : ∀ n, R' !! HHandle n = R !! HHandle n;
  ad_local : ∀ n, 2 ≤ n → R' !! HLocal n = R !! HLocal n;
  ad_threads : same_keys fewer_waits (sv_threads s) (sv_threads s');
  ad_waits : ∀ w wt', sv_waits s' !! w = Some wt' → ∃ wt, sv_waits s !! w = Some wt ∧ same_wait wt wt';
  ad_table : sv_handles s' = sv_handles s ∧ sv_current s' = sv_current s }.

Lemma advances_refl R s : advances R s R s.
Proof. split; try done. intros w wt' Hw. exists wt'. by split; [|left]. Qed.
Lemma advances_trans R1 s1 R2 s2 R3 s3 :
  advances R1 s1 R2 s2 → advances R2 s2 R3 s3 → advances R1 s1 R3 s3.
Proof.
  intros [P1 S1 K1 H1 L1 T1 W1 [O1 U1]] [P2 S2 K2 H2 L2 T2 W2 [O2 U2]]. split.
  - intros x Hx. destruct (P2 x Hx) as [Hx2 ->]. by apply P1.
  - by etrans.
  - by etrans.
  - intros n. by rewrite H2.
  - intros n Hn. by rewrite L2, L1.
  - by etrans.
  - intros w wt3 Hw3. destruct (W2 w wt3 Hw3) as (wt2 & Hw2 & A2). destruct (W1 w wt2 Hw2) as (wt1 & Hw1 & A1).
    exists wt1. split; [done|by etrans].
  - by rewrite O2, U2.
Qed.
Lemma evolves_advances X R s R' s' : evolves X R s R' s' → advances R s R' s'.
Proof.
  intros [P S K Hh L E T W O]. unfold rest_of in O. split; try done.
  - intros k. specialize (T k). destruct (sv_threads s !! k), (sv_threads s' !! k); try done.
    by destruct T as [l ->].
  - intros w wt' Hw. by eapply same_keys_bwd.
  - by injection O.
Qed.

Lemma satisfied_part_ok R s w wt v0 status :
  satisfying ∅ R s R s → settled {[w]} R s → sv_waits s !! w = Some wt → complete R w wt →
  distinct_semaphores (data_of s) wt → sv_threads s !! tw_thread wt = Some v0 →
  deliverable (data_of s) wt status →
  wp (if status <? Z.of_nat (length (tw_objs wt)) then
        _ ← (match tw_select wt with
             | SELECT_WAIT_ALL => for_each (entries_of_wait w wt) (λ e, object_sync_satisfied e.2 e.1)
             | _ => match entries_of_wait w wt !! Z.to_nat status with
                    | Some e => object_sync_satisfied e.2 e.1
                    | None => _ ← c_assert false; mret tt
                    end
             end);
        wait ← wait_of w;
        mret (if tw_abandoned wait then u32 (status + STATUS_ABANDONED_WAIT_0) else status)
      else mret status)
    (λ _ s', ∃ R' E, satisfying E R s R' s' ∧ ∀ e, e ∈ E → e.1 = w) s.
Proof.
  intros Hst Hset Hw Hc Hdis Hv Hdel.
  destruct (Z.ltb_spec status (Z.of_nat (length (tw_objs wt)))) as [Hlt|Hge].
  2:{ rewrite wp_ret. exists R, ∅. split; [done|]. by intros e ?%elem_of_empty. }
  specialize (Hdel Hlt). rewrite wp_bind.
  assert (∀ m : V unit, wp m (λ _ s', ∃ R' E, satisfying E R s R' s' ∧ ∀ e, e ∈ E → e.1 = w) s →
    wp m (λ _ s', wp (wait ← wait_of w;
        mret (if tw_abandoned wait then u32 (status + STATUS_ABANDONED_WAIT_0) else status))
      (λ _ s', ∃ R' E, satisfying E R s R' s' ∧ ∀ e, e ∈ E → e.1 = w) s') s) as Hfin.
  { intros m Hm. eapply wp_mono; [exact Hm|]. intros [] s' (R' & E & Hs' & HE).
    destruct (same_keys_fwd _ _ _ _ _ (ev_waits _ _ _ _ _ (sg_ev _ _ _ _ _ Hs')) Hw) as (wt' & Hw' & _).
    rewrite wp_bind, (wp_wait_of _ _ _ _ Hw'), wp_ret. by exists R', E. }
  apply Hfin. clear Hfin.
  assert (0 ≤ status ∧ (∃ x, tw_objs wt !! Z.to_nat status = Some x ∧ entry_ready (data_of s) (tw_thread wt) x) →
    wp (match entries_of_wait w wt !! Z.to_nat status with
        | Some e => object_sync_satisfied e.2 e.1
        | None => _ ← c_assert false; mret tt
        end) (λ _ s', ∃ R' E, satisfying E R s R' s' ∧ ∀ e, e ∈ E → e.1 = w) s) as Hone.
  { intros (_ & x & Hx & Hr). rewrite (entries_lookup _ _ _ _ Hx). simpl.
    pose proof (proj1 Hc _ _ Hx) as He.
    destruct (sync_ptr_live _ _ _ _ (sg_inv _ _ _ _ _ Hst) He) as (p & ? & ? & Hp & _).
    eapply wp_mono; [apply (satisfy_step ∅ R s R s w wt _ x p); try done; by apply Hr|].
    intros [] s' (R' & Hs' & _). eexists R', _. split; [exact Hs'|]. intros e Hin.
    by assert (e = (w, Z.to_nat status)) as -> by set_solver. }
  destruct (tw_select wt) eqn:Es; try by apply Hone.
  eapply wp_mono; [by apply satisfy_all_ok|]. done.
Qed.

Lemma end_wait_ok R s t v w next wt status :
  server_inv R s → no_locals R → sv_threads s !! t = Some v → t_waits v = w :: next →
  sv_waits s !! w = Some wt → deliverable (data_of s) wt status →
  wp (end_wait t status)
    (λ _ s', ∃ R', server_inv R' s' ∧ no_locals R' ∧ advances R s R' s' ∧ sv_waits s' !! w = None ∧
       ∃ v', sv_threads s' !! t = Some v' ∧ t_waits v' = next) s.
Proof.
  intros [Hinv Hset Hroom] Hnl Hv Hwl Hw Hdel.
  destruct (wa_list _ _ _ (iv_waits _ _ Hinv) t v Hv) as [Hnd Hl]. rewrite Hwl in Hnd, Hl.
  apply list.NoDup_cons in Hnd as [Hnext Hnd].
  destruct (Hl w ltac:(by left)) as (wt' & Hw' & Ht). assert (wt' = wt) as -> by congruence.
  destruct (Hset w wt Hw ltac:(set_solver)) as (_ & Hc & Hlen & Hdis).
  set (s1 := thread_upd t (with_waits next v) s).
  pose proof (inv_pop _ _ _ _ _ _ Hinv Hv Hwl) as Hinv1. pose proof (settled_pop _ _ _ _ _ _ Hinv Hset Hv Hwl) as Hset1.
  fold s1 in Hinv1, Hset1.
  assert (satisfying ∅ R s1 R s1) as Hst by (split; [done|apply evolves_refl|done|done]).
  unfold end_wait. rewrite wp_bind, (wp_thread_of _ _ _ _ Hv), Hwl, wp_bind. change (set_thread t (with_waits next v))
    with (modify (λ s, set_threads (<[t := with_waits next v]> (sv_threads s)) s)). rewrite wp_modify. fold (thread_upd t (with_waits next v) s). fold s1.
  rewrite wp_bind, (wp_wait_of w wt) by done. cbv zeta. rewrite wp_bind.
  eapply wp_mono; [by eapply (satisfied_part_ok R s1 w wt (with_waits next v)); try done; rewrite Ht; apply lookup_insert_eq|].
  intros r s2 (R2 & E & [Hinv2 Hev2 Hnl2 Hroom2] & HE). rewrite wp_bind.
  eapply wp_mono.
  { apply (remove_all_ok R2 s2 w wt Hinv2 Hnl2). intros i x Hi. rewrite (ev_entry _ _ _ _ _ Hev2) by done. by apply Hc. }
  intros [] s3 (R3 & X & Hinv3 & Hnl3 & Hev3 & HX & Hgone & Hroom3).
  pose proof (evolves_settled _ {[w]} _ _ _ _ Hev2 ltac:(set_solver) Hset1) as Hset2.
  pose proof (evolves_settled _ {[w]} _ _ _ _ Hev3 ltac:(intros e ->%HX; set_solver) Hset2) as Hset3.
  assert (∀ i, R3 !! HWait (w, i) = None) as Hall.
  { intros i. destruct (R3 !! HWait (w, i)) as [x|] eqn:Ex; [|done].
    destruct (wa_entry _ _ _ (iv_waits _ _ Hinv3) _ _ Ex) as (wt3 & Hw3 & Hx). simpl in *.
    destruct (same_keys_bwd _ _ _ _ _ (ev_waits _ _ _ _ _ Hev3) Hw3) as (wt2 & Hw2 & S2).
    destruct (same_keys_bwd _ _ _ _ _ (ev_waits _ _ _ _ _ Hev2) Hw2) as (wt1 & Hw1 & S1).
    assert (wt1 = wt) as -> by (simpl in Hw1; congruence). rewrite <- Ex. apply Hgone.
    destruct S2 as [-> | ->], S1 as [-> | ->]; by exists x. }
  assert (∀ t0 v0, sv_threads s3 !! t0 = Some v0 → ∃ v1, sv_threads s1 !! t0 = Some v1 ∧ t_waits v0 = t_waits v1) as Hthr.
  { intros t0 v0 H0. destruct (same_keys_bwd _ _ _ _ _ (ev_threads _ _ _ _ _ Hev3) H0) as (v2 & H2 & l2 & ->).
    destruct (same_keys_bwd _ _ _ _ _ (ev_threads _ _ _ _ _ Hev2) H2) as (v1 & H1 & l1 & ->). by exists v1. }
  rewrite wp_bind, wp_modify, wp_ret. fold (wait_del w s3). exists R3. split_and!.
  - split.
    + apply inv_wait_del; [done|done|]. intros t0 v0 (v1 & H1 & ->)%Hthr. simpl in H1.
      rewrite lookup_insert in H1. case_decide; [by injection H1 as <-|]. intros Hin.
      destruct (wa_list _ _ _ (iv_waits _ _ Hinv) t0 v1 H1) as [_ Hl1]. destruct (Hl1 w Hin) as (? & ? & ?). congruence.
    + by apply settled_wait_del.
    + intros p o d Ho Hd. eapply (room_close E R3 s3); [done| |by apply Hroom3|done|done].
      intros [w' i] Hin. apply HE in Hin as E1. simpl in E1. subst w'. apply Hall.
  - done.
  - eapply (advances_trans _ _ R s1).
    { split; try done.
      - apply (same_keys_insert _ _ _ v); [done|]. split; [done|]. rewrite Hwl. by exists [w].
      - intros w' wt' Hw''. exists wt'. by split; [|left]. }
    eapply advances_trans; [by eapply evolves_advances|]. eapply advances_trans; [by eapply evolves_advances|].
    split; try done. intros w' wt' Hd. simpl in Hd. apply lookup_delete_Some in Hd as [_ Hd].
    exists wt'. by split; [|left].
  - simpl. apply lookup_delete_eq.
  - assert (sv_threads s1 !! t = Some (with_waits next v)) as Hv1 by apply lookup_insert_eq.
    destruct (same_keys_fwd _ _ _ _ _ (ev_threads _ _ _ _ _ Hev2) Hv1) as (v2 & H2 & l2 & ->).
    destruct (same_keys_fwd _ _ _ _ _ (ev_threads _ _ _ _ _ Hev3) H2) as (v3 & H3 & l3 & ->). by eexists.
Qed.
End end_wait.
