(* ===== verification/ServerWake.v ===== *)
(** * Waking threads

    [wake_thread] and [wake_up] (src/server/thread.c) with the invariant of ServerInv.v:
    they end, fail no assertion, keep the invariant, and leave no thread in the queue that
    could be given what it waits for. *)

From S2P Require Import Prelude.
From S2P Require Import ShmState.
From S2P Require Import WfusyncServer.
From S2P Require Import WfusyncPending.
From S2P Require Import ServerObjects.
From S2P Require Import ServerObjectsSpec.
From S2P Require Import ServerMutexSpec.
From S2P Require Import ServerInv.
From S2P Require Import ServerRefs.
From S2P Require Import ServerTake.
From S2P Require Import ServerSatisfied.
From S2P Require Import ServerEndWait.

Section wake.
Context `{PageSize} `{PD : Pending}.
Implicit Types (R : references) (s : server).

(** The server between two function calls. *)
Record stable R s : Prop := { st_inv : server_inv R s; st_locals : no_locals R }.

(** A run that may end waits. *)
Definition leads R s R' s' : Prop := stable R' s' ∧ advances R s R' s'.

Lemma leads_refl R s : stable R s → leads R s R s.
Proof. intros Hs. split; [done|apply advances_refl]. Qed.
Lemma leads_trans R1 s1 R2 s2 R3 s3 : leads R1 s1 R2 s2 → leads R2 s2 R3 s3 → leads R1 s1 R3 s3.
Proof. intros [_ H1] [S2 H2]. split; [done|by eapply advances_trans]. Qed.

Lemma stable_thread_upd R s t v v' :
  stable R s → sv_threads s !! t = Some v → same_links v v' → leads R s R (thread_upd t v' s).
Proof.
  intros [[Hi Hs Hr] Hn] Hv Hl. split.
  - split; [|done]. split; [by eapply inv_thread_upd|by eapply settled_thread_upd|done].
  - split; try done.
    + apply (same_keys_insert _ _ _ v); [done|]. destruct Hl as (E1 & E2 & _). split; [done|by rewrite E2].
    + intros w wt Hw. exists wt. by split; [|left].
Qed.

Lemma stable_sent R s l : stable R s → leads R s R (set_sent l s).
Proof.
  intros [[[Hwf [] Ho Hq Hwa Ht Hm Hy] Hs Hr] Hn]. split; [done|]. split; try done.
  intros w wt Hw. exists wt. by split; [|left].
Qed.

Lemma send_thread_wakeup_ok R s t v cookie signaled :
  stable R s → sv_threads s !! t = Some v →
  wp (send_thread_wakeup t cookie signaled) (λ _ s', leads R s R s' ∧ sv_waits s' = sv_waits s ∧
     ∃ v', sv_threads s' !! t = Some v' ∧ same_links v v') s.
Proof.
  intros Hst Hv. unfold send_thread_wakeup. rewrite wp_bind, (wp_thread_of _ _ _ _ Hv), wp_bind.
  assert (∀ x, wp (modify (λ s, set_sent ((t, cookie, x) :: sv_sent s) s))
            (λ _ s', leads R s R s' ∧ sv_waits s' = sv_waits s ∧ ∃ v', sv_threads s' !! t = Some v' ∧ same_links v v') s)
    as Hsame.
  { intros x. rewrite wp_modify. split; [by apply stable_sent|]. split; [done|]. by exists v. }
  destruct (t_context v) as [c|]; [|by rewrite wp_ret]. destruct (_ && _); [|by rewrite wp_ret].
  destruct (negb (cx_flags c)); [|by rewrite wp_ret]. rewrite wp_bind.
  change (set_thread t (with_context None v)) with (modify (thread_upd t (with_context None v))).
  rewrite wp_modify, wp_ret, wp_modify.
  destruct (stable_thread_upd R s t v (with_context None v) Hst Hv) as [Hs1 Ha1]; [done|]. split.
  - eapply leads_trans; [by split|]. by apply stable_sent.
  - split; [done|]. exists (with_context None v). split; [apply lookup_insert_eq|done].
Qed.

(** Thread [t] waits for nothing that it could be given. *)
Definition thread_idle s (t : Z) : Prop :=
  ∃ v, sv_threads s !! t = Some v ∧ (t_waits v = [] ∨ check_wait t s = Done None s).

Lemma waits_shrink R s R' s' w :
  advances R s R' s' → is_Some (sv_waits s !! w) → sv_waits s' !! w = None →
  (size (sv_waits s') < size (sv_waits s))%nat.
Proof.
  intros Ha Hw Hw'. rewrite <- !size_dom. apply subset_size. split.
  - intros k [wt Hk]%elem_of_dom. destruct (ad_waits _ _ _ _ Ha _ _ Hk) as (wt0 & Hk0 & _).
    apply elem_of_dom. by exists wt0.
  - intros Hsub. apply elem_of_dom in Hw. apply Hsub, elem_of_dom in Hw as [wt Hw]. congruence.
Qed.
Lemma waits_le R s R' s' : advances R s R' s' → (size (sv_waits s') ≤ size (sv_waits s))%nat.
Proof.
  intros Ha. rewrite <- !size_dom. apply subseteq_size.
  intros k [wt Hk]%elem_of_dom. destruct (ad_waits _ _ _ _ Ha _ _ Hk) as (wt0 & Hk0 & _).
  apply elem_of_dom. by exists wt0.
Qed.

(** What one call of [wake_thread] does: nothing if the thread is idle, and otherwise it
    ends waits until it is. *)
Record woken (t : Z) (ended : Z) R s R' s' : Prop := {
  wk_leads : leads R s R' s';
  wk_idle : thread_idle s' t;
  wk_none : ended = 0 → s' = s;
  wk_some : 0 < ended → (size (sv_waits s') < size (sv_waits s))%nat;
  wk_count : 0 ≤ ended }.

Lemma wake_thread_loop_ok fuel t : ∀ count R s v,
  stable R s → sv_threads s !! t = Some v → (length (t_waits v) ≤ fuel)%nat →
  wp (wake_thread_loop fuel t count) (λ n s', ∃ R', woken t (n - count) R s R' s') s.
Proof.
  induction fuel as [|fuel IH]; intros count R s v Hst Hv Hlen; cbn [wake_thread_loop];
    rewrite wp_bind, (wp_thread_of _ _ _ _ Hv); destruct (t_waits v) as [|w next] eqn:Hwl.
  1, 3: rewrite wp_ret, Z.sub_diag; exists R; split; [by apply leads_refl| |done|done|done]; exists v; by split; [|left].
  1: simpl in Hlen; lia.
  destruct (st_inv _ _ Hst) as [Hinv Hset Hroom]. destruct (st_locals _ _ Hst) as [Hn0 Hn1].
  destruct (wa_list _ _ _ (iv_waits _ _ Hinv) t v Hv) as [_ Hl]. rewrite Hwl in Hl.
  destruct (Hl w ltac:(by left)) as (wt & Hw & Ht).
  destruct (Hset w wt Hw ltac:(set_solver)) as (_ & Hc & Hlw & _).
  destruct (check_wait_exec R s t v w next wt) as (r & v' & Er & Hsl & Hdel); [done..|by split|].
  rewrite wp_bind. eapply wp_of_exec; [exact Er|]. cbv beta. destruct r as [status|].
  2:{ rewrite wp_ret, Z.sub_diag. exists R. split; [by apply leads_refl| |done|done|done]. exists v. by split; [|right]. }
  destruct (stable_thread_upd R s t v v' Hst Hv Hsl) as [Hst1 Ha1]. set (s1 := thread_upd t v' s) in *.
  assert (sv_threads s1 !! t = Some v') as Hv1 by apply lookup_insert_eq.
  assert (t_waits v' = w :: next) as Hwl1 by (destruct Hsl as (_ & -> & _); done).
  rewrite wp_bind, (wp_wait_of w wt) by done. rewrite wp_bind.
  eapply wp_mono; [eapply (end_wait_ok R s1 t v' w next wt); try done; [apply Hst1|by apply Hdel]|].
  intros st s2 (R2 & Hsi2 & Hnl2 & Ha2 & Hgone & v2 & Hv2 & Hwl2).
  assert (leads R s R2 s2) as Hl2 by (split; [done|by eapply advances_trans]).
  assert ((size (sv_waits s2) < size (sv_waits s))%nat) as Hsz by (eapply waits_shrink; [apply Hl2|by exists wt|done]).
  rewrite wp_bind, wp_when.
  assert (∀ R3 s3 v3, leads R2 s2 R3 s3 → (size (sv_waits s3) ≤ size (sv_waits s2))%nat →
            sv_threads s3 !! t = Some v3 → t_waits v3 = next →
            wp (wake_thread_loop fuel t (count + 1)) (λ n s', ∃ R', woken t (n - count) R s R' s') s3) as Hrec.
  { intros R3 s3 v3 Hl3 Hsz3 Hv3 Hwl3. eapply wp_mono; [eapply (IH (count + 1) R3 s3 v3)|].
    - apply Hl3.
    - done.
    - rewrite Hwl3. simpl in Hlen. lia.
    - intros n s4 (R4 & [Hl4 Hid Hz Hs4 Hc4]). exists R4. split; [|done|lia| |lia].
      + eapply leads_trans; [exact Hl2|]. by eapply leads_trans.
      + intros _. pose proof (waits_le _ _ _ _ (proj2 Hl4)). lia. }
  destruct (truth (tw_cookie wt)).
  - eapply wp_mono; [apply (send_thread_wakeup_ok R2 s2 t v2 (tw_cookie wt) st); [by split|done]|].
    intros [] s3 (Hl3 & Ew & v3 & Hv3 & _ & E3 & _). eapply Hrec; [exact Hl3|by rewrite Ew|done|congruence].
  - eapply Hrec; [apply leads_refl; by split|done|done|done].
Qed.

Lemma wake_thread_ok R s t :
  stable R s → is_Some (sv_threads s !! t) →
  wp (wake_thread t) (λ n s', ∃ R', woken t n R s R' s') s.
Proof.
  intros Hst [v Hv]. unfold wake_thread. rewrite wp_bind, (wp_thread_of _ _ _ _ Hv).
  eapply wp_mono; [by eapply wake_thread_loop_ok|]. intros n s' (R' & Hw). exists R'. by rewrite Z.sub_0_r in Hw.
Qed.

(** The thread of a queued entry is idle. *)
Definition entry_idle s (e : Z * nat) : Prop :=
  ∃ wt, sv_waits s !! e.1 = Some wt ∧ thread_idle s (tw_thread wt).

Lemma wake_first_ok R s queue :
  stable R s → (∀ e, e ∈ queue → is_Some (sv_waits s !! e.1)) →
  wp (wake_first queue)
    (λ b s', ∃ R', leads R s R' s' ∧
       if b then (size (sv_waits s') < size (sv_waits s))%nat
       else s' = s ∧ ∀ e, e ∈ queue → entry_idle s e) s.
Proof.
  intros Hst. induction queue as [|e queue IH]; intros Hq; cbn [wake_first].
  { rewrite wp_ret. exists R. split; [by apply leads_refl|]. split; [done|]. by intros e ?%elem_of_nil. }
  destruct (Hq e ltac:(by left)) as [wt Hw].
  pose proof (wa_thread _ _ _ (iv_waits _ _ (si_inv _ _ (st_inv _ _ Hst))) _ _ Hw) as Ht.
  unfold get_wait_queue_thread. rewrite !wp_bind, (wp_wait_of _ _ _ _ Hw), wp_ret, wp_bind.
  eapply wp_mono; [by apply wake_thread_ok|]. intros n s' (R' & [Hl Hid Hz Hs Hc]).
  destruct (Z.eqb_spec n 0) as [->|Hne].
  - rewrite (Hz eq_refl) in *. eapply wp_mono; [apply IH; intros e' ?; apply Hq; by right|].
    intros b s2 (R2 & Hl2 & Hb). exists R2. split; [done|]. destruct b; [done|]. destruct Hb as [-> Hb].
    split; [done|]. intros e' [->|Hin]%elem_of_cons; [by exists wt|by apply Hb].
  - rewrite wp_ret. exists R'. split; [done|]. apply Hs. lia.
Qed.

(** ** [wake_up] *)

(** A handle or a caller keeps the sync object [p] alive. *)
Definition anchored R s (p : Z) : Prop :=
  ∃ h x, R !! h = Some x ∧ ((∃ n, h = HHandle n) ∨ ∃ n, h = HLocal n ∧ 2 ≤ n) ∧
    sync_ptr (data_of s) x = Some p.

Lemma anchored_live R s p :
  inv R s → anchored R s p → ∃ o d, sv_objs s !! p = Some o ∧ o_data o = Sync d.
Proof.
  intros Hinv (h & x & Hh & _ & Hp). destruct (sync_ptr_live _ _ _ _ Hinv Hh) as (p' & o & d & Hp' & Ho & Hd).
  simplify_eq. by exists o, d.
Qed.
Lemma anchored_advances R s R' s' p :
  inv R' s' → advances R s R' s' → anchored R s p → anchored R' s' p.
Proof.
  intros Hinv Ha (h & x & Hh & Hk & Hp). exists h, x.
  assert (R' !! h = Some x) as Hh'.
  { destruct Hk as [[n ->]|(n & -> & Hn)]; [by rewrite (ad_handle _ _ _ _ Ha)|by rewrite (ad_local _ _ _ _ Ha)]. }
  split; [done|]. split; [done|]. rewrite <- Hp. apply (ad_ptr _ _ _ _ Ha), live_iff_data.
  destruct (reference_live _ _ _ _ (iv_counts _ _ Hinv) Hh') as [o Ho]. by exists o.
Qed.

(** Nobody in the queue of [p] waits for something that could be given. *)
Definition queue_idle s (p : Z) : Prop :=
  ∃ o, sv_objs s !! p = Some o ∧ ∀ e, e ∈ o_wait_queue o → entry_idle s e.

Lemma wake_up_loop_ok fuel p : ∀ max R s,
  stable R s → anchored R s p → (size (sv_waits s) ≤ fuel)%nat →
  wp (wake_up_loop fuel p max) (λ _ s', ∃ R', leads R s R' s' ∧ (max = 0 → queue_idle s' p)) s.
Proof.
  induction fuel as [|fuel IH]; intros max R s Hst Hp Hsz; cbn [wake_up_loop];
    pose proof (si_inv _ _ (st_inv _ _ Hst)) as Hinv; destruct (anchored_live _ _ _ Hinv Hp) as (o & d & Ho & Hd);
    rewrite wp_bind, (wp_obj _ _ _ _ Ho), wp_bind;
    (eapply wp_mono; [apply (wake_first_ok R s (o_wait_queue o) Hst)|]).
  1, 3: intros e He; apply (qu_elem _ _ _ (iv_queues _ _ Hinv) _ _ _ (queue_lookup _ _ _ Ho)) in He as (x & Hx & _);
    destruct (wa_entry _ _ _ (iv_waits _ _ Hinv) _ _ Hx) as (wt & Hw & _); by exists wt.
  all: intros b s' (R' & Hl & Hb); destruct b; cbn [negb].
  2, 4: rewrite wp_ret; exists R'; split; [done|]; intros _; destruct Hb as [-> Hb]; by exists o.
  - lia.
  - destruct (Z.eqb_spec max 1) as [->|Hne1].
    { rewrite wp_ret. exists R'. split; [done|]. intros ?. lia. }
    destruct Hl as [Hst' Ha]. eapply wp_mono.
    { apply (IH _ R' s'); [done| |lia]. eapply anchored_advances; [apply Hst'|done|done]. }
    intros [] s2 (R2 & Hl2 & Hq). exists R2. split; [by eapply leads_trans|].
    intros ->. by apply Hq.
Qed.

Lemma wake_up_ok R s p max :
  stable R s → anchored R s p →
  wp (wake_up p max) (λ _ s', ∃ R', leads R s R' s' ∧ (max = 0 → queue_idle s' p)) s.
Proof.
  intros Hst Hp. unfold wake_up. rewrite wp_bind, wp_gets. by apply wake_up_loop_ok.
Qed.
End wake.
