(* ===== verification/ServerSteps.v ===== *)
(** * Steps of the requests

    What the request handlers of the server do around waking threads, with the invariant
    of ServerInv.v: the object of a handle, releasing it, setting an error, writing a cell
    and waking the waiters that clients registered for it. *)

From S2P Require Import Prelude.
From S2P Require Import ShmState.
From S2P Require Import ShmGuard.
From S2P Require Import WfusyncServer.
From S2P Require Import WfusyncServerOps.
From S2P Require Import WfusyncRegistry.
From S2P Require Import WfusyncWake.
From S2P Require Import WfusyncServerInv.
From S2P Require Import WfusyncHistory.
From S2P Require Import WfusyncPending.
From S2P Require Import ServerObjects.
From S2P Require Import ServerObjectsSpec.
From S2P Require Import ServerMutexSpec.
From S2P Require Import ServerInv.
From S2P Require Import ServerRefs.
From S2P Require Import ServerTake.
From S2P Require Import ServerSatisfied.
From S2P Require Import ServerEndWait.
From S2P Require Import ServerWake.

(** No object is about to wake its registered waiters. *)
#[export] Instance none_pending : Pending := None.

Section steps.
Context `{PageSize}.
Implicit Types (R : references) (s : server).

(** ** The cells *)

(** The cells keep their kinds, and no mutex is held more often. *)
Definition tame (w w' : wfs) : Prop :=
  w_syncs w' = w_syncs w ∧ ∀ c v, w_syncs w !! c = Some v →
    type_of (cell_idx w' (ws_shm_idx v)) = type_of (cell_idx w (ws_shm_idx v)) ∧
    c_high (cell_idx w' (ws_shm_idx v)) ≤ c_high (cell_idx w (ws_shm_idx v)).

Lemma tame_hold_count w w' d : tame w w' → hold_count w' d ≤ hold_count w d.
Proof.
  intros [E Ht]. destruct d as [| |? ? ? [q|]]; simpl; try lia. rewrite E.
  destruct (w_syncs w !! q) as [v|] eqn:Hv; simpl; [by apply (Ht q v)|lia].
Qed.

(** Cells may also appear. *)
Definition grows (w w' : wfs) : Prop :=
  ∀ c v, w_syncs w !! c = Some v → w_syncs w' !! c = Some v ∧
    type_of (cell_idx w' (ws_shm_idx v)) = type_of (cell_idx w (ws_shm_idx v)) ∧
    c_high (cell_idx w' (ws_shm_idx v)) ≤ c_high (cell_idx w (ws_shm_idx v)).
Lemma tame_grows w w' : tame w w' → grows w w'.
Proof. intros [E Ht] c v Hc. rewrite E. split; [done|by apply (Ht c)]. Qed.

(** Another shared memory, with cells of the same kinds, that leaves room for the threads
    in the queues. *)
Lemma stable_memory (P P' : Pending) R s w' :
  @stable _ P R s → @wf_but _ P' w' →
  (∀ c v, w_syncs (sv_wfs s) !! c = Some v → w_syncs w' !! c = Some v ∧
     type_of (cell_idx w' (ws_shm_idx v)) = type_of (cell_idx (sv_wfs s) (ws_shm_idx v))) →
  room ∅ (on_wfs (λ _, w') s) → @stable _ P' R (on_wfs (λ _, w') s).
Proof.
  intros [[[Hwf [] Ho Hq Hwa Ht Hm [H1 H2]] Hs Hr] Hn] Hw' Hta Hroom. split; [|done]. split; [|done|done].
  split; try done. split; [|done]. intros p d l Hd Hl. destruct (H1 p d l Hd Hl) as [Hc Hv].
  split; [|done]. destruct (sync_ws d) as [c|]; [|done]. destruct Hc as (v & Hv1 & Hv2 & Hv3).
  destruct (Hta c v Hv1) as (E1 & E2). exists v. split_and!; [done|done|]. simpl. by rewrite E2.
Qed.

Lemma stable_cells (P P' : Pending) R s w' :
  @stable _ P R s → @wf_but _ P' w' → grows (sv_wfs s) w' → @stable _ P' R (on_wfs (λ _, w') s).
Proof.
  intros Hst Hw' Hta. apply (stable_memory P); [done|done| |].
  - intros c v Hc. by destruct (Hta c v Hc) as (? & ? & _).
  - destruct Hst as [[[_ _ _ _ _ _ _ [H1 _]] _ Hr] _].
    intros p o d Ho' Hd. etrans; [|by apply (Hr p o d)]. apply Z.add_le_mono_r.
    pose proof (data_lookup _ _ _ Ho') as Hdp. simpl in Hdp. rewrite Hd in Hdp.
    destruct (H1 p d _ Hdp (queue_lookup _ _ _ Ho')) as [Hc _].
    destruct d as [| |? ? ? [q|]]; simpl; try lia. destruct Hc as (v & Hv & _).
    destruct (Hta q v Hv) as (E1 & _ & E3). by rewrite Hv, E1.
Qed.

Lemma stable_wfs (P P' : Pending) R s w' :
  @stable _ P R s → @wf_but _ P' w' → tame (sv_wfs s) w' → @leads _ P' R s R (on_wfs (λ _, w') s).
Proof.
  intros Hst Hw' Hta. split; [by apply (stable_cells P), tame_grows|].
  split; try done; [apply cells_keep_eq, Hta|]. intros w wt Hw. exists wt. by split; [|left].
Qed.

(** Other state of wfusync.c does not matter. *)
Lemma tame_refl w w' : w_syncs w' = w_syncs w → (∀ p, cell_at w' p = cell_at w p) → tame w w'.
Proof. intros E Hc. split; [done|]. intros c v _. by rewrite Hc. Qed.

Lemma wp_sv_set_error R s e (Q : unit → server → Prop) :
  stable R s → (∀ s', s' = on_wfs (λ _, set_err e (sv_wfs s)) s → leads R s R s' → Q tt s') →
  wp (sv_set_error e) Q s.
Proof.
  intros Hst HQ. unfold sv_set_error. rewrite wp_wfu. eapply HQ; [reflexivity|].
  pose proof (proj1 (wf_but_none _) (iv_wf _ _ (si_inv _ _ (st_inv _ _ Hst)))) as [Hok Hval].
  eapply stable_wfs; [done| |by apply tame_refl].
  apply wf_but_none. split; [by apply server_ok_err|done].
Qed.

(** ** Handles *)

Lemma wp_get_handle_obj R s h a ok n (Q : option Z → server → Prop) :
  stable R s → R !! HLocal n = None → 2 ≤ n < MAX_LOCALS →
  (∀ s', leads R s R s' → Q None s') →
  (∀ p o access, sv_handles s !! h = Some (p, access) → sv_objs s !! p = Some o → ok (o_data o) = true →
     let s' := upd p (with_refcount (o_refcount o + 1) o) s in
     stable (<[HLocal n := p]> R) s' → Q (Some p) s') →
  wp (get_handle_obj h a ok) Q s.
Proof.
  intros Hst Hn Hl HN HS. unfold get_handle_obj. rewrite wp_bind, wp_gets.
  assert (∀ e, wp (_ ← sv_set_error e; mret None) Q s) as Herr.
  { intros e. rewrite wp_bind. eapply wp_sv_set_error; [done|]. intros s' _ Hs'. rewrite wp_ret. by apply HN. }
  destruct (sv_handles s !! h) as [[p access]|] eqn:Eh; [|by apply Herr].
  destruct Hst as [[Hinv Hset Hroom] Hnl].
  destruct (reference_live _ _ _ _ (iv_counts _ _ Hinv) (co_table _ _ (iv_counts _ _ Hinv) _ _ _ Eh)) as [o Ho].
  rewrite wp_bind, (wp_obj _ _ _ _ Ho). destruct (ok (o_data o)) eqn:Eok; [|by apply Herr].
  destruct (Z.land access a =? a); [|by apply Herr]. cbn [negb]. rewrite wp_bind.
  eapply wp_grab; [done|done|exact Hn|lia|]. intros s' Hinv'. rewrite wp_ret.
  apply (HS p o access); [done..|]. split.
  - split; [done| |by apply room_refcount]. intros w wt Hw Hx.
    destruct (Hset w wt Hw Hx) as (A1 & A2 & A3 & A4). split_and!; [done| |done|by rewrite (data_upd s p o)].
    intros i x Hi. rewrite lookup_insert_ne by done. by apply A2.
  - destruct Hnl. by split; rewrite lookup_insert_ne by (intros [=]; lia).
Qed.

Lemma settled_released n R s R' s' :
  released n R s R' s' → settled ∅ R s → settled ∅ R' s'.
Proof.
  intros [Hr Hd Hq Hc He] Hs. apply env_rest in He as (_ & Ew & Et). intros w wt Hw Hx. rewrite Ew in Hw.
  destruct (Hs w wt Hw Hx) as (A1 & A2 & A3 & A4). rewrite Et. split_and!; [done| |done|].
  - intros i x Hi. rewrite Hr by done. rewrite lookup_delete_ne by done. by apply A2.
  - intros Hsel i j x y p c m Hij Hi Hj Hpx Hpy Hsem.
    assert (∀ z, sync_ptr (data_of s') z = Some p → sync_ptr (data_of s) z = Some p) as Hp.
    { intros z Hz. rewrite <- Hz. symmetry. refine (proj2 (sync_ptr_sub _ _ z Hd _)). unfold sync_ptr in Hz.
      destruct (data_of s' !! z); [eauto|done]. }
    apply (A4 Hsel i j x y p c m Hij Hi Hj (Hp x Hpx) (Hp y Hpy)). by eapply lookup_weaken.
Qed.

Lemma wp_release R s n p (Q : unit → server → Prop) :
  stable R s → R !! HLocal n = Some p → 2 ≤ n →
  (∀ R' s', stable R' s' → released n R s R' s' → Q tt s') →
  wp (release_object p) Q s.
Proof.
  intros [[Hinv Hset Hroom] [Hn0 Hn1]] Hn Hl HQ. eapply wp_release_local; [done..|]. intros R' s' Hinv' Hrl.
  apply (HQ R' s'); [|done]. split.
  - split; [done|by eapply settled_released|exact (room_released _ _ _ _ _ _ Hinv Hinv' Hrl Hroom)].
  - split; rewrite (rl_refs _ _ _ _ _ Hrl), lookup_delete_ne by (done || intros [=]; lia); done.
Qed.

(** ** Signaling *)

Lemma stable_set_data {PD : Pending} R s p o d d' :
  stable R s → sv_objs s !! p = Some o → o_data o = Sync d → same_sync d d' → owner_of d' = owner_of d →
  sync_ok (sv_wfs s) d' (Z.of_nat (length (o_wait_queue o))) →
  hold_count (sv_wfs s) d' ≤ hold_count (sv_wfs s) d →
  leads R s R (upd p (with_data d' o) s).
Proof.
  intros [[Hinv Hset Hroom] Hn] Ho Hd Hs How Hok Hle.
  pose proof (evolves_set_data R s p o d d' Ho Hd Hs) as Hev. split; [|by eapply evolves_advances].
  split; [|done]. split.
  - by eapply inv_set_data.
  - eapply evolves_settled; [exact Hev| |done]. by intros e ?%elem_of_empty.
  - apply (room_le _ s); [|done]. intros x o' dx Hx Hdx. simpl in Hx. rewrite lookup_insert in Hx. case_decide.
    + subst x. injection Hx as <-. simpl in Hdx. injection Hdx as <-. by exists o, d.
    + by exists o', dx.
Qed.

Lemma anchored_sync {PD : Pending} R s R' s' p d :
  inv R' s' → advances R s R' s' → anchored R s p → data_of s !! p = Some (Sync d) →
  ∃ o' d', sv_objs s' !! p = Some o' ∧ o_data o' = Sync d' ∧ same_sync d d'.
Proof.
  intros Hinv Ha Hp Hd. destruct (anchored_live R' s' p Hinv) as (o' & d' & Ho' & Hd'); [by eapply anchored_advances|].
  exists o', d'. split_and!; [done..|]. pose proof (data_lookup _ _ _ Ho') as Hl. rewrite Hd' in Hl.
  destruct (ad_sync _ _ _ _ Ha p d' Hl) as (d0 & Hd0 & Hs). by simplify_eq.
Qed.

Lemma wp_wake_registered R s c v (Q : unit → server → Prop) :
  @stable _ (Some (ws_shm_idx v)) R s → w_syncs (sv_wfs s) !! c = Some v →
  (∀ s', leads R s R s' → sv_objs s' = sv_objs s → Q tt s') → wp (wake_registered c) Q s.
Proof.
  intros Hst Hc HQ. pose proof (iv_wf _ _ (si_inv _ _ (st_inv _ _ Hst))) as Hwf.
  assert (wp (wake_index c) (λ _ w, Q tt (on_wfs (λ _, w) s)) (sv_wfs s)) as Hw.
  { destruct (wb_cells _ Hwf) as [_ C2 _ _ _ _ _ _]. pose proof (C2 c v Hc) as [_ Hm _ Hty _].
    apply (wake_index_exec _ c v); [done..|]. eapply wp_mono; [by apply wf_but_wake|].
    intros [] w (Hwf' & Hsame & Hcell). apply HQ; [|done].
    eapply (stable_wfs (Some (ws_shm_idx v))); [done|by apply wf_but_none|]. split; [by apply same_rest_syncs|].
    intros c' v' Hc'. rewrite Hcell; [done|]. apply waitable_not_internal. apply (C2 c' v' Hc'). }
  unfold wake_registered, wake_index in *. rewrite wp_bind in Hw. rewrite wp_bind, wp_wfu.
  eapply wp_mono; [exact Hw|]. intros idx w Hw'. cbv beta in *. rewrite wp_bind in Hw'. by rewrite wp_bind, wp_wfu.
Qed.

Lemma event_sync_signal_ok R s p o manual g ws signal :
  stable R s → anchored R s p → sv_objs s !! p = Some o → o_data o = Sync (EventSync manual g ws) →
  wp (event_sync_signal p signal)
    (λ _ s', ∃ R', leads R s R' s' ∧ (manual = true → signal = true → queue_idle s' p)) s.
Proof.
  intros Hst Hp Ho Hd. unfold event_sync_signal. rewrite wp_bind, (wp_sync_of _ _ _ _ _ Ho Hd), wp_bind,
    (wp_update_obj _ _ _ _ _ Ho).
  pose proof (si_inv _ _ (st_inv _ _ Hst)) as Hinv. pose proof (plain_ok R s p o Hinv Ho _ Hd) as [Hok _].
  assert (leads R s R (upd p (with_data (EventSync manual signal ws) o) s)) as Hl1
    by (by eapply stable_set_data).
  fold (upd p (with_data (EventSync manual signal ws) o) s). set (s1 := upd _ _ s) in *.
  assert (∀ R2 s2, leads R s R2 s2 → wp (wake_up p (b2z (negb manual)))
    (λ _ s', ∃ R', leads R s R' s' ∧ (manual = true → signal = true → queue_idle s' p)) s2) as Hwake.
  { intros R2 s2 [Hst2 Ha2]. eapply wp_mono.
    - apply (wake_up_ok R2); [done|]. eapply anchored_advances; [apply Hst2|exact Ha2|done].
    - intros [] s3 (R3 & Hl3 & Hq). exists R3. split; [exact (leads_trans _ _ _ _ _ _ (conj Hst2 Ha2) Hl3)|]. intros -> _. by apply Hq. }
  destruct ws as [c|].
  2:{ rewrite wp_when. destruct signal; [by apply (Hwake R)|]. by exists R. }
  destruct (sync_cell_of _ _ _ _ _ c Hinv Ho Hd eq_refl) as (v & Hv & _ & Hs & Hf).
  pose proof (proj1 (wf_but_none _) (iv_wf _ _ Hinv)) as Hwf. rewrite wp_bind, wp_wfu.
  assert (∀ w, server_wf w → tame (sv_wfs s) w → wp (wake_up p (b2z (negb manual)))
    (λ _ s', ∃ R', leads R s R' s' ∧ (manual = true → signal = true → queue_idle s' p)) (on_wfs (λ _, w) s1)) as Hfin.
  { intros w Hw Ht. apply (Hwake R). eapply leads_trans; [exact Hl1|].
    apply (stable_wfs None); [apply Hl1|by apply wf_but_none|done]. }
  destruct signal.
  - eapply wp_mono; [apply (set_event_spec c v); [done|done|apply Hf]|].
    intros [] w (Hw & Es & Ec & _ & Eo). apply Hfin; [done|]. split; [done|]. intros c' v' Hc'.
    destruct (decide (c' = c)) as [->|Hne].
    + assert (v' = v) as -> by congruence. rewrite Ec. done.
    + rewrite Eo; [done| |].
      * eapply live_addr_ne; [apply (iv_wf _ _ Hinv)|..]; done.
      * apply waitable_not_internal. by apply (cl_sync _ (wb_cells _ (iv_wf _ _ Hinv)) c').
  - eapply wp_of_exec; [by apply (reset_event_exec _ _ _ _ _ Hs (or_introl eq_refl) Hf)|]. cbv beta.
    apply Hfin.
    + apply wf_but_none. by apply (event_low_wf _ c v (iv_wf _ _ Hinv) Hv (proj1 Hf)).
    + split; [done|]. intros c' v' Hc'. rewrite cell_at_put. case_decide as E; [|done]. by rewrite <- E.
Qed.

Lemma leads_then R s R1 s1 R2 s2 : leads R s R1 s1 → leads R1 s1 R2 s2 → leads R s R2 s2.
Proof. apply leads_trans. Qed.

Lemma wp_error_ok {A} R s e (a : A) :
  stable R s → wp (_ ← sv_set_error e; mret a) (λ _ s', ∃ R', leads R s R' s') s.
Proof.
  intros Hst. rewrite wp_bind. eapply wp_sv_set_error; [done|]. intros s' _ Hs'. rewrite wp_ret. by exists R.
Qed.

(** Waking after a store that signals the cell: threads in the queue first, then the
    clients that registered. *)
Lemma wake_both_ok {A} R s R1 s1 p d c v max (a : A) :
  @leads _ (Some (ws_shm_idx v)) R s R1 s1 → anchored R1 s1 p → data_of s1 !! p = Some (Sync d) →
  sync_ws d = Some c → w_syncs (sv_wfs s1) !! c = Some v →
  wp (_ ← wake_up p max; _ ← wake_registered c; mret a) (λ _ s', ∃ R', leads R s R' s') s1.
Proof.
  intros [Hst1 Ha1] Hp Hd Hc Hv. rewrite wp_bind. eapply wp_mono.
  { apply (wake_up_ok (PD := Some (ws_shm_idx v)) R1); [exact Hst1|exact Hp]. }
  intros [] s2 (R2 & [Hst2 Ha2] & _).
  pose proof (si_inv _ _ (st_inv _ _ Hst2)) as Hinv2.
  destruct (anchored_sync _ _ _ _ _ _ Hinv2 Ha2 Hp Hd) as (o2 & d2 & Ho2 & Hd2 & _ & Hw2).
  rewrite Hc in Hw2. destruct (live_cell_key _ _ _ _ _ _ Hinv2 Ho2 Hd2 Hw2) as [v2 Hv2].
  destruct (ad_cells _ _ _ _ Ha2 _ _ Hv2) as (v' & Hv' & E). assert (v' = v) as -> by congruence.
  rewrite wp_bind. apply (wp_wake_registered R2 s2 c v2); [by rewrite E|done|]. intros s3 [Hst3 Ha3] _. rewrite wp_ret.
  exists R2. split; [done|]. exact (advances_trans _ _ _ _ _ _ Ha1 (advances_trans _ _ _ _ _ _ Ha2 Ha3)).
Qed.

Lemma tame_put s c v l :
  c_high l ≤ c_high (cell_idx (sv_wfs s) (ws_shm_idx v)) → w_syncs (sv_wfs s) !! c = Some v →
  type_of l = type_of (cell_idx (sv_wfs s) (ws_shm_idx v)) →
  tame (sv_wfs s) (put_cell (cell_addr (ws_shm_idx v)) l (sv_wfs s)).
Proof.
  intros Hh Hv Ht. split; [done|]. intros c' v' Hc'. rewrite cell_at_put. case_decide as E; [|done].
  by rewrite <- E.
Qed.

(** A store that signals a cell leaves its registered waiters to be woken. *)
Lemma store_signals R s c v l all :
  stable R s → w_syncs (sv_wfs s) !! c = Some v → same_word (cell_idx (sv_wfs s) (ws_shm_idx v)) l →
  value_ok l → c_high l ≤ c_high (cell_idx (sv_wfs s) (ws_shm_idx v)) →
  @leads _ (Some (ws_shm_idx v)) R s R
    (on_wfs (λ _, add_wake (cell_addr (ws_shm_idx v)) all (put_cell (cell_addr (ws_shm_idx v)) l (sv_wfs s))) s).
Proof.
  intros Hst Hv Hw Hl Hh. apply (stable_wfs None); [done|..].
  - apply wf_but_add_wake, (wf_but_store _ c); [|done..].
    by apply wf_but_weaken, wf_but_none, (iv_wf _ _ (si_inv _ _ (st_inv _ _ Hst))).
  - destruct (tame_put s c v l Hh Hv) as [E Ht]; [unfold type_of; by rewrite (proj1 Hw)|]. split; [done|]. intros c' v' Hc'.
    rewrite cell_at_wake. by apply (Ht c').
Qed.

Lemma release_semaphore_ok R s p o c0 max ws count :
  stable R s → anchored R s p → sv_objs s !! p = Some o → o_data o = Sync (SemaphoreSync c0 max ws) →
  0 ≤ count < 2 ^ 32 → wp (release_semaphore p count) (λ _ s', ∃ R', leads R s R' s') s.
Proof.
  intros Hst Hp Ho Hd Hcount. unfold release_semaphore. rewrite wp_bind, (wp_sync_of _ _ _ _ _ Ho Hd).
  pose proof (si_inv _ _ (st_inv _ _ Hst)) as Hinv. pose proof (plain_ok R s p o Hinv Ho _ Hd) as [_ Hok].
  destruct ws as [c|].
  - destruct (sync_cell_of _ _ _ _ _ c Hinv Ho Hd eq_refl) as (v & Hv & _ & Hs & Hf).
    pose proof (proj1 (wf_but_none _) (iv_wf _ _ Hinv)) as Hwf. pose proof (proj1 Hf) as Ht.
    destruct (semaphore_value _ _ _ Hwf Hv Ht) as [Hlow Hhigh].
    rewrite wp_bind, wp_wfu. unfold wp at 1. rewrite (release_semaphore_exec _ _ _ _ Hs Hf).
    set (cl := cell_idx (sv_wfs s) (ws_shm_idx v)) in *. rewrite semaphore_limit_spec by done.
    destruct (Z.ltb_spec (c_high cl) (c_low cl + count)) as [Hlim|Hlim].
    { cbv beta iota. rewrite wp_ret. exists R. apply (stable_wfs None); [done| |by apply tame_refl].
      apply wf_but_none. split; [by apply server_ok_err, Hwf|]. apply Hwf. }
    unfold INT_MAX in *. cbv beta iota zeta.
    rewrite (s32_small (c_low cl + count)), (u32_small (c_low cl)) by lia.
    assert (value_ok (set_low (c_low cl + count) cl)) as Hval.
    { split; [|by change (type_of (set_low _ cl)) with (type_of cl); rewrite Ht]. intros _. unfold INT_MAX. simpl. lia. }
    rewrite wp_bind, wp_when. destruct (Z.eqb_spec (c_low cl) 0) as [E|E].
    + pose proof (wake_both_ok R s R _ p _ c v (s32 count) (true, Some (c_low cl))
        (store_signals R s c v (set_low (c_low cl + count) cl) (1 <? count) Hst Hv ltac:(done) Hval ltac:(simpl; fold cl; lia)) Hp
        ltac:(rewrite <- Hd; by apply data_lookup) eq_refl Hv) as Hwake.
      rewrite !wp_bind in Hwake. rewrite wp_bind. eapply wp_mono; [exact Hwake|]. intros [] s2 H2.
      rewrite wp_bind in H2. eapply wp_mono; [exact H2|]. intros [] s3 H3. by rewrite wp_ret in *.
    + rewrite wp_ret. exists R. apply (stable_wfs None); [done| |by apply (tame_put _ c)].
      apply (wf_but_put _ c); [apply Hinv|done|done|done|].
      intros _. fold cl. unfold cell_signaled. rewrite Ht. simpl. apply Z.ltb_lt. lia.
  - destruct (Hok eq_refl) as [Hc Hm]. destruct (_ || _) eqn:Elim; [by apply wp_error_ok|].
    apply orb_false_iff in Elim as [E1%Z.ltb_ge E2%Z.ltb_ge].
    assert (∀ n, 0 ≤ n ≤ max → leads R s R (upd p (with_data (SemaphoreSync n max None) o) s)) as Hset.
    { intros n Hn. eapply stable_set_data; [done..| |simpl; lia]. split; [done|]. intros _. lia. }
    unfold truth. destruct (Z.eqb_spec c0 0) as [->|Hne]; cbn [negb]; rewrite wp_bind, (wp_update_obj _ _ _ _ _ Ho).
    + rewrite Z.add_0_l, u32_small in E2 by done. assert (0 ≤ count ≤ max) as Hn by lia.
      destruct (Hset count Hn) as [Hst1 Ha1]. rewrite wp_bind.
      eapply wp_mono.
      { apply (wake_up_ok R _ p (s32 count)); [exact Hst1|]. eapply anchored_advances; [apply Hst1|exact Ha1|done]. }
      intros [] s2 (R2 & Hl2 & _). rewrite wp_ret. exists R2. exact (leads_trans _ _ _ _ _ _ (conj Hst1 Ha1) Hl2).
    + rewrite wp_ret. exists R. apply Hset. pose proof (Z.mod_pos_bound (c0 + count) (2 ^ 32)). unfold u32 in *. lia.
Qed.
End steps.
