(* ===== verification/ServerRelease.v ===== *)
(** * Releasing mutexes

    [do_release] and the release of a mutex with a cell (src/server/mutex.c) with the
    invariant: the last release hands the mutex to the threads that wait. *)

From S2P Require Import Prelude.
From S2P Require Import ShmState.
From S2P Require Import WfusyncServer.
From S2P Require Import WfusyncServerOps.
From S2P Require Import WfusyncRegistry.
From S2P Require Import WfusyncServerInv.
From S2P Require Import WfusyncHistory.
From S2P Require Import WfusyncPending.
From S2P Require Import ServerObjects.
From S2P Require Import ServerObjectsSpec.
From S2P Require Import ServerMutexSpec.
From S2P Require Import ServerInv.
From S2P Require Import ServerRefs.
From S2P Require Import ServerTake.
From S2P Require Import ServerSatisfied.
From S2P Require Import ServerEndWait.
From S2P Require Import ServerWake.
From S2P Require Import ServerSteps.

Section release.
Context `{PageSize}.
Implicit Types (R : references) (s : server).

(** The state after thread [t] has given up its last hold of mutex [p]; the reference of
    the mutex list passes to variable 3. *)
Definition last_hold (p t : Z) (o : object) (v : thread) (a : bool) s : server :=
  upd p (with_data (MutexSync None 0 a None) o) (thread_upd t (with_mutex_list (remove_first p (t_mutex_list v)) v) s).
Definition handed R (p : Z) : references := <[HLocal 3 := p]> (delete (HMutex p) R).

Lemma handed_other R p h : h ≠ HLocal 3 → h ≠ HMutex p → handed R p !! h = R !! h.
Proof. intros H1 H2. unfold handed. by rewrite lookup_insert_ne, lookup_delete_ne. Qed.

Lemma held_handed (P : holder → bool) R p x :
  R !! HMutex p = Some p → R !! HLocal 3 = None → P (HMutex p) = P (HLocal 3) →
  held P (handed R p) x = held P R x.
Proof. intros. by apply held_move. Qed.

Lemma mutexes_last_hold R s p t o v c a :
  mutexes_ok R (data_of s) (sv_threads s) →
  sv_objs s !! p = Some o → o_data o = Sync (MutexSync (Some t) c a None) → sv_threads s !! t = Some v →
  R !! HLocal 3 = None →
  mutexes_ok (handed R p) (data_of (last_hold p t o v a s)) (sv_threads (last_hold p t o v a s)).
Proof.
  intros [M1 M2 M3 M4] Ho Hd Hv Hn. pose proof (data_lookup _ _ _ Ho) as Hdp. rewrite Hd in Hdp.
  assert (owned_by (data_of s) p t) as Hown by by exists c, a.
  assert (∀ x t', owned_by (data_of (last_hold p t o v a s)) x t' ↔ x ≠ p ∧ owned_by (data_of s) x t') as Eown.
  { intros x t'. unfold last_hold. rewrite data_set. unfold owned_by. destruct (decide (x = p)) as [->|Hne].
    - setoid_rewrite lookup_insert_eq. split; [by intros (? & ? & [=])|by intros []].
    - setoid_rewrite lookup_insert_ne; [|done]. naive_solver. }
  assert (∀ x t', owned_by (data_of s) x t' → owned_by (data_of s) x t → t' = t) as Huniq.
  { intros x t' (c1 & a1 & H1) (c2 & a2 & H2). congruence. }
  split.
  - intros t0 v0 x H0. rewrite Eown. simpl in H0. rewrite lookup_insert in H0. case_decide.
    + subst t0. injection H0 as <-. simpl. unfold remove_first. rewrite difference_elem, (M1 t v x Hv). tauto.
    + rewrite (M1 t0 v0 x H0). split; [|by intros []]. intros Hx. split; [|done]. intros ->. by apply Huniq in Hx.
  - intros t0 v0 H0. simpl in H0. rewrite lookup_insert in H0. case_decide; [|by eapply M2].
    injection H0 as <-. apply NoDup_list_difference. by eapply M2.
  - intros x y. setoid_rewrite Eown. destruct (decide (x = p)) as [->|Hne].
    + unfold handed. rewrite lookup_insert_ne, lookup_delete_eq by done. naive_solver.
    + rewrite handed_other by (done || congruence). rewrite M3. naive_solver.
  - intros x t0. rewrite Eown. intros [_ Hx]. eapply thread_upd_some; eauto.
Qed.

Lemma inv_last_hold R s p t o v c a :
  inv R s → sv_objs s !! p = Some o → o_data o = Sync (MutexSync (Some t) c a None) →
  sv_threads s !! t = Some v → R !! HLocal 3 = None → inv (handed R p) (last_hold p t o v a s).
Proof.
  intros [Hwf Hc Hw Hq [W1 W2 W3] [T1 T2] Hm Hy] Ho Hd Hv Hn.
  pose proof (mutexes_last_hold _ _ _ _ _ _ _ _ Hm Ho Hd Hv Hn) as Hm'.
  pose proof (data_lookup _ _ _ Ho) as Hdp. rewrite Hd in Hdp.
  assert (R !! HMutex p = Some p) as HM.
  { apply (mu_held _ _ _ Hm). split; [done|]. exists t. by exists c, a. }
  assert (∀ h, h ≠ HLocal 3 → h ≠ HMutex p → handed R p !! h = R !! h) as Hold by (intros; by apply handed_other).
  split; try done.
  - destruct Hc as [C1 C2 C3 C4 C5 C6 C7 C8]. unfold last_hold. split; simpl.
    + intros x. rewrite held_handed, C1 by done. rewrite refcount_upd. case_decide; [|done]. subst. unfold refcount_of.
      by rewrite Ho.
    + intros x. rewrite held_handed, C2 by done. rewrite handle_count_upd. case_decide; [|done]. subst.
      unfold handle_count_of. by rewrite Ho.
    + intros x Hx. rewrite refcount_upd. case_decide as Ex; [|apply C3; by rewrite lookup_insert_ne in Hx].
      pose proof (C3 p (ex_intro _ _ Ho)) as Hl. unfold refcount_of in Hl. by rewrite Ho in Hl.
    + intros n x. destruct (decide (n = 3)) as [->|Hne]; [intros _; by unfold MAX_LOCALS|].
      rewrite Hold by congruence. eauto.
    + intros x. by rewrite held_handed.
    + intros h x acc Hh. rewrite Hold by done. eauto.
    + intros x Hx. apply C7. by eapply insert_live.
    + done.
  - unfold last_hold. rewrite data_set. eapply owns_agree; [intros x; by apply Hold|]. by eapply owns_set.
  - unfold last_hold. rewrite data_set, (queue_upd _ _ o) by done.
    eapply queues_agree; [intros y; by apply Hold|]. by eapply queues_set.
  - split.
    + intros e x. rewrite Hold by done. eauto.
    + intros w wt Hwt. eapply thread_upd_some; [done|]. by eapply W2.
    + intros t0 v0 H0. simpl in H0. rewrite lookup_insert in H0. case_decide; [|by apply W3].
      subst t0. injection H0 as <-. by apply (W3 t v).
  - split.
    + intros t0 v0 H0. simpl in H0. rewrite lookup_insert in H0. case_decide; [|by eapply T1].
      injection H0 as <-. by apply (T1 t v).
    + intros t0 t1 v0 v1 H0 H1. simpl in H0, H1. rewrite lookup_insert in H0, H1.
      repeat case_decide; simplify_eq; intros E; simpl in E; [done|eauto..].
  - unfold last_hold. rewrite data_set, (queue_upd _ _ o) by done.
    eapply syncs_set; [done|by apply queue_lookup|done| |done]. split; [done|]. simpl. by unfold INT_MAX.
Qed.

(** ** Runs that also drop a reference *)

Lemma advances_refs R1 R2 s R1' R2' s' :
  (∀ n, R2 !! HHandle n = R1 !! HHandle n) → (∀ n, 2 ≤ n → R2 !! HLocal n = R1 !! HLocal n) →
  (∀ n, R2' !! HHandle n = R1' !! HHandle n) → (∀ n, 2 ≤ n → R2' !! HLocal n = R1' !! HLocal n) →
  advances R1 s R1' s' → advances R2 s R2' s'.
Proof.
  intros E1 E2 E3 E4 [P S K Hh L T W O]. split; try done.
  - intros n. rewrite E1, E3. apply Hh.
  - intros n Hn. rewrite E2, E4 by done. by apply L.
Qed.

Lemma released_advances R s n R' s' : released n R s R' s' → advances (delete (HLocal n) R) s R' s'.
Proof.
  intros [Hr Hd Hq Hc He]. apply env_rest in He as (Er & Ew & Et). split.
  - intros x. by apply sync_ptr_sub.
  - intros x d Hx. exists d. split; [by eapply lookup_weaken|done].
  - intros c v Hv. destruct (Hc c v Hv) as [? _]. by exists v.
  - intros h. by apply Hr.
  - intros m _. by apply Hr.
  - rewrite Et. reflexivity.
  - rewrite Ew. intros w wt Hw. exists wt. by split; [|left].
  - by injection Er.
Qed.

(** A run of a callee that starts by taking over a reference in variable [n]. *)
Lemma advances_released R s n R1 s1 R' s' :
  advances R s R1 s1 → released n R1 s1 R' s' → advances (delete (HLocal n) R) s R' s'.
Proof.
  intros Ha Hr. eapply advances_trans; [|by apply released_advances].
  assert (∀ (R : references) h, delete (HLocal n) R !! h = if decide (h = HLocal n) then None else R !! h) as E.
  { intros R0 h. rewrite lookup_delete. repeat case_decide; congruence. }
  destruct Ha as [P S K Hh L T W O]. split; try done.
  - intros m. rewrite !E, !decide_False by done. apply Hh.
  - intros m Hm. rewrite !E. case_decide; [done|]. by apply L.
Qed.

Lemma settled_agree X R R' s : (∀ e, R' !! HWait e = R !! HWait e) → settled X R s → settled X R' s.
Proof.
  intros E Hs w wt Hw Hx. destruct (Hs w wt Hw Hx) as (A1 & A2 & A3 & A4). split_and!; [done| |done..].
  intros i x Hi. rewrite E. by apply A2.
Qed.

Lemma stable_last_hold R s p t o v c a :
  stable R s → sv_objs s !! p = Some o → o_data o = Sync (MutexSync (Some t) c a None) →
  sv_threads s !! t = Some v → R !! HLocal 3 = None →
  stable (handed R p) (last_hold p t o v a s) ∧ advances (handed R p) s (handed R p) (last_hold p t o v a s).
Proof.
  intros [[Hinv Hset Hroom] [Hn0 Hn1]] Ho Hd Hv Hn. pose proof (plain_ok R s p o Hinv Ho _ Hd) as [_ Hok].
  assert (evolves ∅ (handed R p) s (handed R p) (last_hold p t o v a s)) as Hev.
  { eapply evolves_trans; [|by eapply (evolves_set_data (handed R p)
      (thread_upd t (with_mutex_list (remove_first p (t_mutex_list v)) v) s))].
    split; try done; simpl; try reflexivity. apply (same_keys_insert _ _ _ v); [done|]. by eexists. }
  split; [|by eapply evolves_advances]. split.
  - split.
    + by eapply inv_last_hold.
    + eapply evolves_settled; [exact Hev|by intros e ?%elem_of_empty|].
      eapply settled_agree; [|exact Hset]. intros e. by apply handed_other.
    + apply (room_le _ s); [|done]. intros x o' dx Hx Hdx. simpl in Hx. rewrite lookup_insert in Hx. case_decide.
      * subst x. injection Hx as <-. simpl in Hdx. injection Hdx as <-. exists o, (MutexSync (Some t) c a None).
        split_and!; [done..|]. simpl in *. lia.
      * by exists o', dx.
  - by split; rewrite handed_other.
Qed.

(** ** The two ways to release a mutex *)

Lemma do_release_ok R s p o t owner c a count :
  stable R s → R !! HLocal 3 = None → sv_objs s !! p = Some o → o_data o = Sync (MutexSync owner c a None) →
  is_Some (sv_threads s !! t) → (owner = Some t → 0 < count ≤ c) →
  wp (do_release p t count) (λ _ s', ∃ R', leads R s R' s') s.
Proof.
  intros Hst Hn Ho Hd [v Hv] Hcount. unfold do_release. rewrite wp_bind, (wp_sync_of _ _ _ _ _ Ho Hd).
  pose proof (si_inv _ _ (st_inv _ _ Hst)) as Hinv. pose proof (plain_ok R s p o Hinv Ho _ Hd) as [_ Hok].
  destruct (_ || _) eqn:Eown; [by apply wp_error_ok|].
  apply orb_false_iff in Eown as [E1%Z.eqb_neq E2%negb_false_iff%bool_decide_eq_true]. subst owner.
  specialize (Hcount eq_refl). destruct Hok as [Hc How]. unfold INT_MAX in Hc. rewrite u32_small by lia.
  rewrite wp_bind, (wp_update_obj _ _ _ _ _ Ho), wp_bind, wp_when.
  destruct (Z.eqb_spec (c - count) 0) as [E|E].
  2:{ rewrite wp_ret. exists R. eapply stable_set_data; [done..| |simpl; lia].
      split; [done|]. unfold INT_MAX. split; [lia|]. split; [done|]. lia. }
  rewrite E, wp_bind. unfold update_thread. rewrite wp_bind, (wp_thread_of _ v) by done.
  change (set_thread t ?x) with (modify (thread_upd t x)). rewrite wp_modify, wp_bind.
  rewrite (wp_update_obj _ (with_data (MutexSync (Some t) 0 a None) o)) by apply lookup_insert_eq.
  match goal with |- wp _ _ ?s' => assert (s' = last_hold p t o v a s) as ->
    by (unfold last_hold, upd, thread_upd, set_objs, set_threads; simpl; by rewrite insert_insert_eq) end.
  destruct (stable_last_hold R s p t o v c a Hst Ho Hd Hv Hn) as [Hst1 Ha1].
  set (s1 := last_hold p t o v a s) in *. set (R1 := handed R p) in *.
  rewrite wp_bind. eapply wp_mono.
  { apply (wake_up_ok R1 s1 p 0 Hst1). exists (HLocal 3), p. split; [apply lookup_insert_eq|].
    split; [right; by exists 3|]. unfold s1, last_hold. rewrite data_set. unfold sync_ptr. by rewrite lookup_insert_eq. }
  intros [] s2 (R2 & [Hst2 Ha2] & _).
  assert (R2 !! HLocal 3 = Some p) as Hn2 by (rewrite (ad_local _ _ _ _ Ha2) by done; apply lookup_insert_eq).
  eapply wp_release; [exact Hst2|exact Hn2|done|]. intros R3 s3 Hst3 Hr3. rewrite wp_ret. exists R3.
  split; [done|]. pose proof (advances_released _ _ _ _ _ _ _ (advances_trans _ _ _ _ _ _ Ha1 Ha2) Hr3) as Ha3.
  apply (advances_refs (delete (HLocal 3) R1) R s R3 R3); [..|exact Ha3]; try done.
  - intros m. unfold R1. by rewrite lookup_delete_ne, handed_other.
  - intros m Hm. unfold R1. destruct (decide (m = 3)) as [->|Hne]; [by rewrite Hn, lookup_delete_eq|].
    by rewrite lookup_delete_ne, handed_other by congruence.
Qed.

(** The release of a mutex with a cell by its own request. *)
Lemma release_mutex_cell_ok R s p o owner c0 a c t v :
  stable R s → anchored R s p → sv_objs s !! p = Some o → o_data o = Sync (MutexSync owner c0 a (Some c)) →
  sv_threads s !! t = Some v →
  wp (r ← wfu (wfusync_release_mutex (Some c) (t_id v));
      _ ← when (bool_decide (r = Some 1)) (_ ← wake_up p 0; wake_registered c);
      mret r) (λ _ s', ∃ R', leads R s R' s') s.
Proof.
  intros Hst Hp Ho Hd Hv. pose proof (si_inv _ _ (st_inv _ _ Hst)) as Hinv.
  destruct (sync_cell_of _ _ _ _ _ c Hinv Ho Hd eq_refl) as (u & Hu & _ & Hs & Hf).
  pose proof (proj1 (wf_but_none _) (iv_wf _ _ Hinv)) as Hwf. pose proof (proj1 Hf) as Ht.
  pose proof (mutex_value _ _ _ Hwf Hu Ht) as Hval. cbv zeta in Hval.
  pose proof (to_id _ (iv_threads _ _ Hinv) _ _ Hv) as Htid. unfold tid_ok, INT_MAX in Htid.
  rewrite wp_bind, wp_wfu. unfold wp at 1. rewrite (release_mutex_exec _ _ _ _ (t_id v) Hs Hf).
  set (cl := cell_idx (sv_wfs s) (ws_shm_idx u)) in *. rewrite s32_small by lia.
  assert (∀ e (x : option Z), x ≠ Some 1 → wp (_ ← when (bool_decide (x = Some 1)) (_ ← wake_up p 0; wake_registered c); mret x)
    (λ _ s', ∃ R', leads R s R' s') (on_wfs (λ _, set_err e (sv_wfs s)) s)) as Herr.
  { intros e x Hx. rewrite bool_decide_false, wp_bind, wp_when, wp_ret by done. exists R.
    apply (stable_wfs None); [done| |by apply tame_refl].
    apply wf_but_none. split; [by apply server_ok_err, Hwf|]. apply Hwf. }
  destruct (Z.eqb_spec (c_low cl) (t_id v)) as [El|El]; [|by apply Herr].
  destruct (Z.eqb_spec (c_high cl) 0) as [Eh|Eh]; [by apply Herr|]. cbn [negb orb].
  destruct (Z.ltb_spec 1 (c_high cl)) as [Hlt|Hge]; cbv beta iota.
  - rewrite bool_decide_false, wp_bind, wp_when, wp_ret by (intros [=]; lia). exists R.
    apply (stable_wfs None); [done| |apply (tame_put _ c); [simpl; fold cl; lia|done..]].
    apply (wf_but_put _ c); [apply Hinv|done|done| |].
    + apply value_ok_mutex; [done|]. right. left. simpl. unfold INT_MAX in *. lia.
    + rewrite (mutex_signaled_iff (set_high _ _)) by done. simpl. intros Hsig%Z.leb_le. lia.
  - assert (c_high cl = 1) as E1 by lia. rewrite E1, bool_decide_true by done.
    assert (value_ok (set_low 0 (set_high 0 cl))) as Hv0 by (apply value_ok_mutex; [done|by left]).
    pose proof (wake_both_ok R s R _ p _ c u 0 (Some 1)
      (store_signals R s c u (set_low 0 (set_high 0 cl)) false Hst Hu ltac:(done) Hv0 ltac:(simpl; fold cl; lia)) Hp
      ltac:(rewrite <- Hd; by apply data_lookup) eq_refl Hu) as Hwake.
    rewrite !wp_bind in Hwake. rewrite wp_bind, wp_when, wp_bind. eapply wp_mono; [exact Hwake|]. intros [] s2 H2.
    by rewrite wp_bind in H2.
Qed.
End release.
