(* ===== verification/ServerCreate.v ===== *)
(** * Creating objects and handles

    New objects, their cells, their handles, and closing a handle (src/server/event.c,
    semaphore.c, mutex.c, object.c, handle.c) with the invariant of ServerInv.v. *)

From S2P Require Import Prelude.
From S2P Require Import ShmState.
From S2P Require Import WfusyncServer.
From S2P Require Import WfusyncServerOps.
From S2P Require Import WfusyncRegistry.
From S2P Require Import WfusyncServerInv.
From S2P Require Import WfusyncHistory.
From S2P Require Import WfusyncPending.
From S2P Require Import ServerObjects.
From S2P Require Import ServerObjectsSpec.
From S2P Require Import ServerMutexSpec.
From S2P Require Import ServerInv.
From S2P Require Import ServerRefs.
From S2P Require Import ServerTake.
From S2P Require Import ServerSatisfied.
From S2P Require Import ServerEndWait.
From S2P Require Import ServerWake.
From S2P Require Import ServerSteps.
From S2P Require Import ServerRelease.

Section create.
Context `{PageSize}.
Implicit Types (R : references) (s : server).

(** ** A new object *)

Definition new_obj (d : obj_data) s : server :=
  set_objs (<[sv_next_obj s := Object 1 0 [] d]> (sv_objs s)) (sv_next_obj s + 1) s.

Lemma data_new d s : data_of (new_obj d s) = <[sv_next_obj s := d]> (data_of s).
Proof. unfold data_of, new_obj. simpl. by rewrite fmap_insert. Qed.
Lemma queue_new d s : queue_of (new_obj d s) = <[sv_next_obj s := []]> (queue_of s).
Proof. unfold queue_of, new_obj. simpl. by rewrite fmap_insert. Qed.
Lemma refcount_new d s x : refcount_of (new_obj d s) x = if decide (sv_next_obj s = x) then 1 else refcount_of s x.
Proof. unfold refcount_of. simpl. rewrite lookup_insert. by case_decide. Qed.
Lemma handle_count_new d s x :
  handle_count_of (new_obj d s) x = if decide (sv_next_obj s = x) then 0 else handle_count_of s x.
Proof. unfold handle_count_of. simpl. rewrite lookup_insert. by case_decide. Qed.

Section fresh.
Context (R : references) (s : server) (Hinv : inv R s).
Notation p := (sv_next_obj s).

Lemma next_free : sv_objs s !! p = None.
Proof using Hinv.
  destruct (sv_objs s !! p) as [o|] eqn:E; [|done]. exfalso.
  pose proof (co_next_obj _ _ (iv_counts _ _ Hinv) p (ex_intro _ o E)). lia.
Qed.
Lemma data_next_free : data_of s !! p = None.
Proof using Hinv. unfold data_of. by rewrite lookup_fmap, next_free. Qed.
Lemma next_unheld h : R !! h ≠ Some p.
Proof using Hinv.
  intros Hh. destruct (reference_live _ _ _ _ (iv_counts _ _ Hinv) Hh) as [o Ho]. by rewrite next_free in Ho.
Qed.
(** The sync object of a live object is alive. *)
Lemma sync_ptr_not_next x : is_Some (data_of s !! x) → sync_ptr (data_of s) x ≠ Some p.
Proof using Hinv.
  intros [d Hd]. unfold sync_ptr. rewrite Hd. simpl. destruct (owned d) as [[k q]|] eqn:E.
  - intros [= ->]. destruct (ow_held _ _ (iv_owns _ _ Hinv) _ _ _ _ Hd E) as [Hh _]. by apply next_unheld in Hh.
  - intros [= ->]. by rewrite data_next_free in Hd.
Qed.
Lemma sync_ptr_new d x : is_Some (data_of s !! x) → sync_ptr (<[p := d]> (data_of s)) x = sync_ptr (data_of s) x.
Proof using Hinv.
  intros [dx Hd]. unfold sync_ptr. rewrite lookup_insert_ne; [done|]. intros <-. by rewrite data_next_free in Hd.
Qed.
Lemma held_data h x : R !! h = Some x → is_Some (data_of s !! x).
Proof using Hinv.
  intros Hh. apply live_iff_data. destruct (reference_live _ _ _ _ (iv_counts _ _ Hinv) Hh) as [o Ho]. by exists o.
Qed.

(** The parts of the invariant, for references [R'] that keep the entries of waits and the
    owned mutexes. *)
Context (R' : references) (d : obj_data).
Context (Hw : ∀ e, R' !! HWait e = R !! HWait e) (Hm : ∀ x, R' !! HMutex x = R !! HMutex x).

Lemma queues_new : queues_ok R' (<[p := d]> (data_of s)) (<[p := []]> (queue_of s)).
Proof using Hinv Hw.
  destruct (iv_queues _ _ Hinv) as [Q1 Q2]. split.
  - intros x l. rewrite lookup_insert. case_decide; [intros [= <-]; constructor|apply Q1].
  - intros x l e. rewrite lookup_insert, Hw. case_decide as E.
    + subst x. intros [= <-]. split; [by intros ?%elem_of_nil|]. intros (y & Hy & Hs).
      rewrite sync_ptr_new in Hs by by eapply held_data. by apply sync_ptr_not_next in Hs; [|eapply held_data].
    + intros Hl. rewrite (Q2 x l e Hl). split; intros (y & Hy & Hs); exists y; (split; [done|]).
      * by rewrite sync_ptr_new by by eapply held_data.
      * by rewrite sync_ptr_new in Hs by by eapply held_data.
Qed.
Lemma mutexes_new (Hd : ∀ t c a, d ≠ Sync (MutexSync (Some t) c a None)) :
  mutexes_ok R' (<[p := d]> (data_of s)) (sv_threads s).
Proof using Hinv Hm.
  assert (∀ x t, owned_by (<[p := d]> (data_of s)) x t ↔ owned_by (data_of s) x t) as E.
  { intros x t. unfold owned_by. setoid_rewrite lookup_insert. case_decide; [|done]. subst x.
    rewrite data_next_free. split; [intros (c & a & [= E])|by intros (c & a & ?)]. by apply Hd in E. }
  destruct (iv_mutexes _ _ Hinv) as [M1 M2 M3 M4]. split; [|done|..].
  - intros t v x Hv. by rewrite E, M1.
  - intros x y. rewrite Hm, M3. by setoid_rewrite E.
  - intros x t. rewrite E. eauto.
Qed.
Lemma syncs_new :
  (∀ ds, d = Sync ds → sync_ok (sv_wfs s) ds 0 ∧ sync_ws ds = None) →
  syncs_ok (sv_wfs s) (<[p := d]> (data_of s)) (<[p := []]> (queue_of s)).
Proof using Hinv.
  intros Hd. destruct (iv_syncs _ _ Hinv) as [Y1 Y2]. split.
  - intros x dx l. rewrite !lookup_insert. case_decide; [|apply Y1]. intros [= ->] [= <-]. by apply Hd.
  - intros x y dx dy c. rewrite !lookup_insert. repeat case_decide; subst; [done|..].
    + intros [= ->] _ Hc. destruct (Hd _ eq_refl). congruence.
    + intros _ [= ->] _ Hc. destruct (Hd _ eq_refl). congruence.
    + apply Y2.
Qed.
Lemma settled_new : settled ∅ R s → settled ∅ R' (new_obj d s).
Proof using Hinv Hw.
  intros Hs w wt Hwt Hx. destruct (Hs w wt Hwt Hx) as (A1 & A2 & A3 & A4). split_and!; [done| |done|].
  - intros i x Hi. rewrite Hw. by apply A2.
  - intros Hsel i j x y q c m Hij Hi Hj. rewrite data_new.
    rewrite !sync_ptr_new by (eapply held_data; by apply A2). intros Hpx Hpy.
    rewrite lookup_insert_ne; [by apply (A4 Hsel i j x y)|]. intros <-.
    by apply sync_ptr_not_next in Hpx; [|eapply held_data, A2].
Qed.
End fresh.

(** ** A new sync object *)

Lemma room_new s d : room ∅ s → (∀ ds, d = Sync ds → hold_count (sv_wfs s) ds ≤ INT_MAX) → room ∅ (new_obj d s).
Proof.
  intros Hr Hd p o ds. simpl. rewrite lookup_insert. case_decide; [|apply Hr].
  intros [= <-]. simpl. intros E. unfold open_entries. simpl. specialize (Hd ds E). lia.
Qed.

Lemma stable_new_sync R s n d :
  stable R s → R !! HLocal n = None → 2 ≤ n < MAX_LOCALS →
  sync_ok (sv_wfs s) d 0 → sync_ws d = None → owner_of d = None →
  stable (<[HLocal n := sv_next_obj s]> R) (new_obj (Sync d) s).
Proof.
  intros [[Hinv Hset Hroom] [Hn0 Hn1]] Hn Hl Hok Hws How. set (p := sv_next_obj s). set (R' := <[HLocal n := p]> R).
  assert (∀ h, h ≠ HLocal n → R' !! h = R !! h) as Hold by (intros; by apply lookup_insert_ne).
  split; [split|].
  - pose proof Hinv as [Hwf Hc Ho Hq [W1 W2 W3] Ht Hm Hy].
    split; rewrite ?data_new, ?queue_new; try done.
    + destruct Hc as [C1 C2 C3 C4 C5 C6 C7 C8]. split; simpl.
      * intros x. unfold R'. rewrite held_insert by done. rewrite refcount_new, C1. unfold refcount_of. simpl.
        case_decide as Ex; [|rewrite bool_decide_false by done; simpl; lia].
        subst x. unfold p. by rewrite (next_free R s Hinv), bool_decide_true.
      * intros x. unfold R'. rewrite held_insert by done. rewrite handle_count_new, C2. unfold handle_count_of. simpl.
        case_decide as Ex; [|lia]. subst x. by rewrite (next_free R s Hinv).
      * intros x Hx. rewrite refcount_new. case_decide; [done|]. apply C3. by rewrite lookup_insert_ne in Hx.
      * intros m x. destruct (decide (m = n)) as [->|Hne]; [lia|]. rewrite Hold by congruence. eauto.
      * intros x. unfold R'. rewrite held_insert by done. simpl. rewrite Z.add_0_r. apply C5.
      * intros h x a Hh. rewrite Hold by done. eauto.
      * intros x. rewrite lookup_insert. case_decide; [subst; unfold p; lia|]. intros Hx. specialize (C7 x Hx). lia.
      * done.
    + destruct Ho as [O1 O2]. split.
      * intros x dx k q. rewrite lookup_insert. case_decide; [by intros [= <-]|]. intros Hx Hk.
        destruct (O1 x dx k q Hx Hk) as (Hr & d' & Hd' & Hk'). rewrite Hold by done. split; [done|].
        exists d'. rewrite lookup_insert_ne; [done|]. intros <-. by rewrite (data_next_free R s Hinv) in Hd'.
      * intros x q. rewrite Hold by done. intros Hx. destruct (O2 x q Hx) as (dx & k & Hdx & Hk). exists dx, k.
        rewrite lookup_insert_ne; [done|]. intros <-. by rewrite (data_next_free R s Hinv) in Hdx.
    + apply (queues_new R s Hinv). intros e. by apply Hold.
    + split; [|done..]. intros e x. rewrite Hold by done. eauto.
    + apply (mutexes_new R s Hinv); [intros x; by apply Hold|]. intros t c a [= ->]. done.
    + apply (syncs_new R s Hinv). by intros ds [= <-].
  - apply (settled_new R s Hinv); [|done]. intros e. by apply Hold.
  - apply room_new; [done|]. intros ds [= <-].
    destruct d as [| |ow c a [q|]]; simpl in *; try (by unfold INT_MAX). apply Hok.
  - split; by rewrite Hold by (intros [=]; lia).
Qed.

(** Giving a cell to a new sync object. *)
Lemma stable_attach R s p o d d' c :
  stable R s → sv_objs s !! p = Some o → o_data o = Sync d → o_wait_queue o = [] →
  sync_kind d' = sync_kind d → sync_ws d' = Some c → owner_of d = None → owner_of d' = None →
  sync_ok (sv_wfs s) d' 0 → hold_count (sv_wfs s) d' ≤ INT_MAX →
  (∀ x dx, data_of s !! x = Some (Sync dx) → sync_ws dx ≠ Some c) →
  stable R (upd p (with_data d' o) s).
Proof.
  intros [[Hinv Hset Hroom] Hn] Ho Hd Hqu Hk Hws How How' Hok Hhold Hun.
  pose proof (data_lookup _ _ _ Ho) as Hdp. rewrite Hd in Hdp.
  pose proof (queue_lookup _ _ _ Ho) as Hqp. rewrite Hqu in Hqp. split; [split|done].
  - destruct Hinv as [Hwf Hc Hw Hq Hwa Ht Hm [Y1 Y2]].
    split; rewrite ?data_set, ?(queue_upd _ _ _ _ Ho) by done; try done.
    + eapply counts_objs; [..|exact Hc]; try done.
      * intros x. rewrite refcount_upd. case_decide; [|done]. subst. unfold refcount_of. by rewrite Ho.
      * intros x. rewrite handle_count_upd. case_decide; [|done]. subst. unfold handle_count_of. by rewrite Ho.
      * intros x. by eapply insert_live.
    + by eapply owns_set.
    + by eapply queues_set.
    + eapply mutexes_set; [done|by rewrite How|done].
    + split.
      * intros x dx l. rewrite lookup_insert. case_decide; [|by apply Y1]. subst. intros [= <-] Hl. by simplify_eq.
      * intros x y dx dy q. rewrite !lookup_insert. repeat case_decide; subst; intros Hx Hy Hqx Hqy; [done|..].
        -- assert (q = c) as -> by congruence. by apply Hun in Hy.
        -- assert (q = c) as -> by congruence. by apply Hun in Hx.
        -- by eapply Y2.
  - intros w wt Hwt Hx. destruct (Hset w wt Hwt Hx) as (A1 & A2 & A3 & A4). split_and!; [done..|].
    intros Hsel i j x y q c' m Hij Hi Hj. rewrite data_set, !(sync_ptr_set _ _ d) by done. intros Hpx Hpy.
    rewrite lookup_insert. case_decide; [intros [= ->]; done|]. by apply (A4 Hsel i j x y).
  - intros x o' dx. simpl. rewrite lookup_insert. case_decide; [|apply Hroom]. intros [= <-]. simpl. intros [= <-].
    rewrite Hqu. unfold open_entries. simpl. lia.
Qed.

(** ** Allocation and cells *)

(** What the caller of a request still has after a callee. *)
Record follows R s R' s' : Prop := {
  fo_handle : ∀ n, R' !! HHandle n = R !! HHandle n;
  fo_table : sv_handles s' = sv_handles s ∧ sv_current s' = sv_current s;
  fo_threads : ∀ t, is_Some (sv_threads s !! t) → is_Some (sv_threads s' !! t) }.

Lemma follows_refl R s : follows R s R s.
Proof. by split. Qed.
Lemma follows_trans R1 s1 R2 s2 R3 s3 : follows R1 s1 R2 s2 → follows R2 s2 R3 s3 → follows R1 s1 R3 s3.
Proof.
  intros [A1 [B1 C1] D1] [A2 [B2 C2] D2]. split; [intros n; by rewrite A2|split; congruence|eauto].
Qed.
Lemma advances_follows R s R' s' : advances R s R' s' → follows R s R' s'.
Proof.
  intros Ha. split; [apply Ha|apply Ha|]. intros t [v Hv].
  destruct (same_keys_fwd _ _ _ _ _ (ad_threads _ _ _ _ Ha) Hv) as (v' & Hv' & _). by exists v'.
Qed.
Lemma released_follows n R s R' s' : released n R s R' s' → follows R s R' s'.
Proof.
  intros [Hr _ _ _ He]. split.
  - intros m. by rewrite Hr, lookup_delete_ne.
  - unfold env_of in He. by injection He.
  - unfold env_of in He. injection He as _ _ -> _ _ _ _ _ _. done.
Qed.
Lemma wfs_follows R s w : follows R s R (on_wfs (λ _, w) s).
Proof. by split. Qed.

(** The allocators answer as the environment says. *)
Lemma wp_alloc R s (Q : bool → server → Prop) :
  stable R s →
  (∀ b w, let s' := on_wfs (λ _, w) s in
     stable R s' → w_next_shm_idx w = w_next_shm_idx (sv_wfs s) → tame (sv_wfs s) w →
     w_do_wfusync w = w_do_wfusync (sv_wfs s) → (b = false → w_error w = STATUS_NO_MEMORY) → Q b s') →
  wp (wfu mem_alloc_ok) Q s.
Proof.
  intros Hst HQ. rewrite wp_wfu.
  pose proof (proj1 (wf_but_none _) (iv_wf _ _ (si_inv _ _ (st_inv _ _ Hst)))) as [Hok Hval].
  apply wp_mem_alloc_ok; intros e; (apply HQ; [|done..]);
    (apply (stable_wfs None); [done| |by apply tame_refl]); apply wf_but_none; (split; [|done]).
  - by apply server_ok_set_env.
  - by apply server_ok_err, server_ok_set_env.
Qed.

Lemma wp_grow R s (Q : bool → server → Prop) :
  stable R s →
  (∀ b s', stable R s' → follows R s R s' → sv_objs s' = sv_objs s → Q b s') →
  wp grow_handle_table Q s.
Proof.
  intros Hst HQ. unfold grow_handle_table. rewrite wp_bind, wp_wfu.
  pose proof (proj1 (wf_but_none _) (iv_wf _ _ (si_inv _ _ (st_inv _ _ Hst)))) as [Hok Hval].
  apply wp_syscall. intros r e.
  assert (stable R (on_wfs (λ _, set_env e (sv_wfs s)) s)) as Hst1.
  { apply (stable_wfs None); [done| |by apply tame_refl]. apply wf_but_none.
    split; [by apply server_ok_set_env|done]. }
  destruct (sys_ok r).
  - rewrite wp_ret. apply HQ; [done|apply wfs_follows|done].
  - rewrite wp_bind. eapply wp_sv_set_error; [exact Hst1|]. intros s' -> [Hst2 _]. rewrite wp_ret.
    apply HQ; [exact Hst2|by split|done].
Qed.

Lemma wp_alloc_sync R s n d (Q : option Z → server → Prop) :
  stable R s → R !! HLocal n = None → 2 ≤ n < MAX_LOCALS →
  sync_ok (sv_wfs s) d 0 → sync_ws d = None → owner_of d = None →
  (∀ s', stable R s' → follows R s R s' → Q None s') →
  (∀ w, let s' := new_obj (Sync d) (on_wfs (λ _, w) s) in
     stable (<[HLocal n := sv_next_obj s]> R) s' → w_next_shm_idx w = w_next_shm_idx (sv_wfs s) →
     w_do_wfusync w = w_do_wfusync (sv_wfs s) → Q (Some (sv_next_obj s)) s') →
  wp (alloc_object (Sync d)) Q s.
Proof.
  intros Hst Hn Hl Hok Hws How HN HS. unfold alloc_object. rewrite wp_bind. eapply wp_alloc; [done|].
  intros b w s1 Hst1 Hw1 Hw2 Hw3 _. destruct b; cbn [negb].
  2:{ rewrite wp_ret. apply HN; [done|apply wfs_follows]. }
  rewrite wp_bind, wp_gets, wp_bind, wp_modify, wp_ret. apply HS; [|done..].
  apply (stable_new_sync R s1 n d); [done|done|done| |done|done].
  destruct Hok as [_ Hok]. split; [by rewrite Hws|]. exact Hok.
Qed.

(** A cell for a new object, if it gets one: no other object has it. *)
Definition new_cell s (high type c : Z) : Prop :=
  (∃ v, w_syncs (sv_wfs s) !! c = Some v ∧ ws_server_waiters v = 0 ∧
     type_of (cell_idx (sv_wfs s) (ws_shm_idx v)) = type ∧ c_high (cell_idx (sv_wfs s) (ws_shm_idx v)) = high) ∧
  ∀ x dx, data_of s !! x = Some (Sync dx) → sync_ws dx ≠ Some c.

Lemma create_cell_ok R s inproc low high type :
  stable R s → (w_do_wfusync (sv_wfs s) = true → op_pre (sv_wfs s) (OpCreate low high type)) →
  wp (create_cell inproc low high type)
    (λ r s', stable R s' ∧ (∃ w, s' = on_wfs (λ _, w) s) ∧
       match r with Some c => new_cell s' high type c | None => True end) s.
Proof.
  intros Hst Hpre. unfold create_cell. rewrite wp_bind, wp_gets.
  assert (s = on_wfs (λ _, sv_wfs s) s) as Hid by by destruct s.
  destruct inproc; cbn [andb]; [|rewrite wp_ret; split; [done|]; split; [by eexists|done]].
  destruct (w_do_wfusync (sv_wfs s)); [|rewrite wp_ret; split; [done|]; split; [by eexists|done]].
  specialize (Hpre eq_refl). pose proof (si_inv _ _ (st_inv _ _ Hst)) as Hinv.
  pose proof (proj1 (wf_but_none _) (iv_wf _ _ Hinv)) as Hwf.
  pose proof (create_wf _ low high type Hwf Hpre) as Hw. destruct Hpre as (Hn & Hty & Hl & Hh & _).
  pose proof (create_wfusync_spec low high type _ (sw_ok _ Hwf) Hn Hty) as Hc. simpl in Hw.
  rewrite wp_bind, wp_wfu. unfold wp at 1 in Hw. unfold wp at 1 in Hc. unfold wp at 1. unfold mbind, M_bind in Hw.
  destruct (create_wfusync low high type (sv_wfs s)) as [r w| | |]; [|done..].
  simpl in Hw. destruct Hc as (_ & Hr & Hold).
  assert (stable R (on_wfs (λ _, w) s)) as Hst1.
  { apply (stable_cells None); [done|by apply wf_but_none|]. intros c v Hc. rewrite (Hold c v Hc).
    split; [|done]. destruct r as [q|]; [|by rewrite Hr]. destruct Hr as (v0 & -> & -> & _).
    rewrite lookup_insert_ne; [done|]. intros <-.
    pose proof (so_key _ (sw_ok _ Hwf) (w_next_sync (sv_wfs s)) (ex_intro _ v Hc)). lia. }
  rewrite wp_bind, wp_when. destruct r as [q|].
  - rewrite bool_decide_false, wp_ret by done. split; [done|]. split; [by eexists|].
    destruct Hr as (v0 & -> & Hsy & _ & Hsw & H1 & H2 & H3 & H4). split.
    + exists v0. simpl. rewrite Hsy, lookup_insert_eq. split_and!; [done|done| |].
      * unfold type_of. rewrite H3. by apply (waitable_const _ Hty).
      * by rewrite H2, s32_small by lia.
    + intros x dx Hx Hd. destruct (data_inv _ _ _ Hx) as (o & Ho & Hdo).
      destruct (live_cell_key _ _ _ _ _ _ Hinv Ho Hdo Hd) as [v Hv].
      pose proof (so_key _ (sw_ok _ Hwf) _ (ex_intro _ v Hv)). lia.
  - rewrite bool_decide_true by done. unfold clear_error. eapply wp_sv_set_error; [exact Hst1|].
    intros s2 -> [Hst2 _]. rewrite wp_ret. split; [done|]. split; [by eexists|done].
Qed.

(** ** The three kinds *)

Record made_sync (k : kind) (n : Z) R s R' s' (p : Z) : Prop := {
  ms_stable : stable R' s';
  ms_local : R' !! HLocal n = Some p;
  ms_others : ∀ m, m ≠ n → R' !! HLocal m = R !! HLocal m;
  ms_data : ∃ d, data_of s' !! p = Some (Sync d) ∧ sync_kind d = k;
  ms_lasting : held is_lasting R' p = 0;
  ms_follows : follows R s R' s' }.

(** The data of a new sync object, by the cell it has. *)
Record sync_shape (data : option Z → sync_data) : Prop := {
  sh_ws : ∀ ws, sync_ws (data ws) = ws;
  sh_kind : ∀ ws, sync_kind (data ws) = sync_kind (data None);
  sh_owner : ∀ ws, owner_of (data ws) = None;
  sh_unowned : ∀ ws, match data ws with MutexSync owner n _ _ => owner = None ∧ n = 0 | _ => True end }.

Lemma set_sync_ok R s p data ws high :
  stable R s → sv_objs s !! p = Some (Object 1 0 [] (Sync (data None))) → sync_shape data → high ≤ INT_MAX →
  (∀ c, ws = Some c → new_cell s high (kind_type (sync_kind (data None))) c) →
  wp (set_sync p (data ws)) (λ _ s', stable R s' ∧ s' = upd p (Object 1 0 [] (Sync (data ws))) s) s.
Proof.
  intros Hst Ho [S1 S2 S3 S4] Hh Hc. unfold set_sync. rewrite (wp_update_obj _ _ _ _ _ Ho).
  split; [|done]. destruct ws as [c|].
  - destruct (Hc c eq_refl) as [(v & Hv & Hn & Ht & Hhi) Hun].
    apply (stable_attach R s p _ (data None) (data (Some c)) c); try done; try (by rewrite S1).
    + split.
      * rewrite S1, S2. exists v. by split_and!.
      * specialize (S1 (Some c)). specialize (S4 (Some c)). destruct (data (Some c)); [done|by intros ->|].
        simpl in S1. by subst ws.
    + specialize (S1 (Some c)). destruct (data (Some c)) as [| |? ? ? [q|]]; simpl in S1; try (by unfold INT_MAX).
      injection S1 as ->. simpl. rewrite Hv. simpl. lia.
  - refine (proj1 (stable_set_data R s p _ (data None) (data None) Hst Ho eq_refl _ eq_refl _ _)); [done| |lia].
    by apply (plain_ok R s p _ (si_inv _ _ (st_inv _ _ Hst)) Ho).
Qed.

Lemma made_plain R s n d w :
  stable R s → sv_objs s !! sv_next_obj s = None → R !! HLocal n = None →
  stable (<[HLocal n := sv_next_obj s]> R) (new_obj (Sync d) (on_wfs (λ _, w) s)) →
  made_sync (sync_kind d) n R s (<[HLocal n := sv_next_obj s]> R) (new_obj (Sync d) (on_wfs (λ _, w) s)) (sv_next_obj s).
Proof.
  intros Hst0 Hfree Hn Hst. split.
  - done.
  - apply lookup_insert_eq.
  - intros m Hm. apply lookup_insert_ne. congruence.
  - exists d. rewrite data_new. simpl. by rewrite lookup_insert_eq.
  - rewrite held_insert by done. simpl. rewrite held_zero; [done|].
    apply (next_unheld R s). apply Hst0.
  - split; [intros m; by apply lookup_insert_ne|done|done].
Qed.

(** The new sync object before it gets its cell. *)
Record bare (plain : sync_data) n R s R' s' (p : Z) : Prop := {
  ba_made : made_sync (sync_kind plain) n R s R' s' p;
  ba_object : sv_objs s' !! p = Some (Object 1 0 [] (Sync plain));
  ba_refs : R' = <[HLocal n := p]> R;
  ba_threads : sv_threads s' = sv_threads s;
  ba_mutexes : R' !! HMutex p = None }.

Definition created_sync (k : kind) n R s (r : option Z) s' : Prop :=
  match r with
  | None => stable R s' ∧ follows R s R s'
  | Some p => ∃ R', made_sync k n R s R' s' p
  end.

Lemma alloc_bare R s n plain (K : Z → V (option Z)) k :
  stable R s → R !! HLocal n = None → 2 ≤ n < MAX_LOCALS →
  sync_ok (sv_wfs s) plain 0 → sync_ws plain = None → owner_of plain = None →
  (∀ p s1 R1, bare plain n R s R1 s1 p → w_next_shm_idx (sv_wfs s1) = w_next_shm_idx (sv_wfs s) →
     wp (K p) (created_sync k n R s) s1) →
  wp (r ← alloc_object (Sync plain); match r with None => mret None | Some p => K p end) (created_sync k n R s) s.
Proof.
  intros Hst Hn Hl Hok Hws How HK. rewrite wp_bind. eapply (wp_alloc_sync R s n plain); [done..| |].
  - intros s' Hst' Hf. by rewrite wp_ret.
  - intros w s1 Hst1 Hw1 _. pose proof (next_free R s (si_inv _ _ (st_inv _ _ Hst))) as Hfree.
    apply (HK (sv_next_obj s) s1 (<[HLocal n := sv_next_obj s]> R)); [|done]. split; [|apply lookup_insert_eq|done|done|].
    + by apply made_plain.
    + rewrite lookup_insert_ne by done. destruct (R !! HMutex _) as [x|] eqn:E; [|done].
      apply (mu_held _ _ _ (iv_mutexes _ _ (si_inv _ _ (st_inv _ _ Hst)))) in E as (_ & t & Hown).
      destruct Hown as (c & a & Hd). by rewrite (data_next_free R s (si_inv _ _ (st_inv _ _ Hst))) in Hd.
Qed.

Lemma bare_cell plain n R s R1 s1 p low high :
  bare plain n R s R1 s1 p → (w_do_wfusync (sv_wfs s1) = true → op_pre (sv_wfs s1) (OpCreate low high (kind_type (sync_kind plain)))) →
  wp (create_cell true low high (kind_type (sync_kind plain)))
    (λ ws s2, bare plain n R s R1 s2 p ∧
       ∀ c, ws = Some c → new_cell s2 high (kind_type (sync_kind plain)) c) s1.
Proof.
  intros [[M1 M2 M3 M4 M5 M6] B2 B3 B4 B5] Hpre. eapply wp_mono; [by apply (create_cell_ok R1)|].
  intros ws s2 (Hst2 & [w ->] & Hc). split; [|by intros c ->].
  split; [split|..]; try done. eapply follows_trans; [exact M6|apply wfs_follows].
Qed.

Lemma made_upd k n R s R1 s2 p d :
  made_sync k n R s R1 s2 p → stable R1 (upd p (Object 1 0 [] (Sync d)) s2) → sync_kind d = k →
  made_sync k n R s R1 (upd p (Object 1 0 [] (Sync d)) s2) p.
Proof.
  intros [M1 M2 M3 M4 M5 M6] Hst Hd. split; try done.
  - exists d. split; [|done]. unfold data_of. simpl. by rewrite fmap_insert, lookup_insert_eq.
  - eapply follows_trans; [exact M6|]. by split.
Qed.

(** Events and semaphores. *)
Lemma create_sync_ok R s n data low high :
  stable R s → R !! HLocal n = None → 2 ≤ n < MAX_LOCALS → sync_shape data →
  sync_ok (sv_wfs s) (data None) 0 → high ≤ INT_MAX →
  (∀ w, w_next_shm_idx w = w_next_shm_idx (sv_wfs s) → op_pre w (OpCreate low high (kind_type (sync_kind (data None))))) →
  wp (r ← alloc_object (Sync (data None));
      match r with
      | None => mret None
      | Some p => ws ← create_cell true low high (kind_type (sync_kind (data None)));
                  _ ← set_sync p (data ws); mret (Some p)
      end) (created_sync (sync_kind (data None)) n R s) s.
Proof.
  intros Hst Hn Hl Hsh Hok Hh Hpre. apply alloc_bare; [done..|apply Hsh|apply Hsh|]. intros p s1 R1 Hb Hidx.
  rewrite wp_bind. eapply wp_mono; [by eapply bare_cell; [|intros _; by apply Hpre]|].
  intros ws s2 [[Hm Ho _ _ _] Hc]. rewrite wp_bind.
  eapply wp_mono; [apply (set_sync_ok R1 s2 p data ws high); [apply Hm|done..]|].
  intros [] s3 [Hst3 ->]. rewrite wp_ret. exists R1. apply made_upd; [done..|]. apply Hsh.
Qed.

(** A mutex may be created owned. *)
Lemma stable_first_hold R s p t v a :
  stable R s → sv_objs s !! p = Some (Object 1 0 [] (Sync (MutexSync None 0 a None))) → sv_threads s !! t = Some v →
  let s' := first_hold p t (Object 1 0 [] (Sync (MutexSync None 0 a None))) v a s in
  stable (<[HMutex p := p]> R) s' ∧ advances R s (<[HMutex p := p]> R) s'.
Proof.
  intros [[Hinv Hset Hroom] [Hn0 Hn1]] Ho Hv s'.
  pose proof (evolves_first_hold R s p t _ v a Ho eq_refl Hv) as Hev. fold s' in Hev.
  split; [|by eapply evolves_advances]. split; [split|].
  - by apply inv_first_hold.
  - eapply evolves_settled; [exact Hev| |done]. by intros e ?%elem_of_empty.
  - intros x o d. simpl. rewrite lookup_insert. case_decide; [|apply Hroom]. intros [= <-] [= <-].
    unfold open_entries, INT_MAX. simpl. lia.
  - split; by rewrite lookup_insert_ne.
Qed.

Lemma stable_wfusync_mutexes R s l : stable R s → stable R (set_wfusync_mutexes l s).
Proof. intros [[[Hwf [] Ho Hq Hwa Ht Hm Hy] Hs Hr] Hn]. done. Qed.

Lemma create_mutex_sync_ok R s n owned :
  stable R s → R !! HLocal n = None → 2 ≤ n < MAX_LOCALS → is_Some (sv_threads s !! sv_current s) →
  w_next_shm_idx (sv_wfs s) + 1 < 2 ^ 31 →
  wp (create_mutex_sync owned true) (created_sync MutexKind n R s) s.
Proof.
  intros Hst Hn Hl [v Hv] Hidx. unfold create_mutex_sync.
  apply (alloc_bare R s n (MutexSync None 0 false None)); try done.
  intros p s1 R1 Hb Eidx. pose proof (ms_follows _ _ _ _ _ _ _ (ba_made _ _ _ _ _ _ _ Hb)) as [_ [_ Hcur] _].
  assert (sv_threads s1 !! sv_current s1 = Some v) as Hv1 by by rewrite Hcur, (ba_threads _ _ _ _ _ _ _ Hb).
  pose proof (to_id _ (iv_threads _ _ (si_inv _ _ (st_inv _ _ Hst))) _ _ Hv) as Htid. unfold tid_ok, INT_MAX in Htid.
  rewrite wp_bind, wp_gets, wp_bind, (wp_thread_of _ _ _ _ Hv1), wp_bind. eapply wp_mono.
  { apply (bare_cell _ _ _ _ _ _ _ (if owned then t_id v else 0) (b2z owned) Hb). intros _.
    split; [lia|]. split; [done|]. split; [destruct owned; lia|]. split; [by destruct owned|].
    apply value_ok_mutex; [done|]. destruct owned; simpl; [right; left|left]; unfold INT_MAX; lia. }
  intros ws s2 [[Hm Ho HR Ht HM] Hc].
  pose proof (set_sync_ok R1 s2 p (λ ws, MutexSync None 0 false ws) ws (b2z owned)
    (ms_stable _ _ _ _ _ _ _ Hm) Ho) as Hset. destruct ws as [c|].
  - rewrite wp_bind. eapply wp_mono; [apply Hset; [split; by intros []|by destruct owned|done]|].
    intros [] s3 [Hst3 ->]. rewrite wp_bind, wp_modify, wp_ret. exists R1.
    destruct (made_upd _ _ _ _ _ _ _ (MutexSync None 0 false (Some c)) Hm Hst3 eq_refl) as [M1 M2 M3 M4 M5 M6].
    split; try done; [by apply stable_wfusync_mutexes|]. eapply follows_trans; [exact M6|by split].
  - rewrite wp_bind, wp_when. destruct owned; [|rewrite wp_ret; by exists R1].
    assert (sv_threads s2 !! sv_current s1 = Some v) as Hv2 by by rewrite Ht, Hcur.
    apply (wp_first_grab s2 p (sv_current s1) _ v false _ Ho eq_refl Hv2); [by unfold INT_MAX|].
    rewrite wp_ret. exists (<[HMutex p := p]> R1). destruct Hm as [M1 M2 M3 M4 M5 M6].
    destruct (stable_first_hold R1 s2 p (sv_current s1) v false M1 Ho Hv2) as [Hst3 Ha3]. split.
    + done.
    + by rewrite lookup_insert_ne.
    + intros m Hm. by rewrite lookup_insert_ne, M3.
    + exists (MutexSync (Some (sv_current s1)) 1 false None). by rewrite data_first_hold, lookup_insert_eq.
    + by rewrite held_insert, M5.
    + eapply follows_trans; [exact M6|by apply advances_follows].
Qed.

Lemma create_event_sync_ok R s n manual signaled :
  stable R s → R !! HLocal n = None → 2 ≤ n < MAX_LOCALS → w_next_shm_idx (sv_wfs s) + 1 < 2 ^ 31 →
  wp (create_event_sync manual signaled true) (created_sync EventKind n R s) s.
Proof.
  intros Hst Hn Hl Hidx.
  apply (create_sync_ok R s n (λ ws, EventSync manual signaled ws) (b2z signaled) (b2z manual));
    try done; [by destruct manual|].
  intros w Hw. split; [lia|]. split; [done|]. split; [by destruct signaled|]. split; [by destruct manual|].
  by apply value_ok_event.
Qed.

Lemma create_semaphore_sync_ok R s n initial max :
  stable R s → R !! HLocal n = None → 2 ≤ n < MAX_LOCALS → w_next_shm_idx (sv_wfs s) + 1 < 2 ^ 31 →
  0 ≤ initial ≤ max → max ≤ INT_MAX →
  wp (create_semaphore_sync initial max true) (created_sync SemaphoreKind n R s) s.
Proof.
  intros Hst Hn Hl Hidx Hi Hm. unfold INT_MAX in *.
  apply (create_sync_ok R s n (λ ws, SemaphoreSync initial max ws) initial max);
    try done; [split; [done|]; intros _; lia|].
  intros w Hw. split; [lia|]. split; [done|]. split; [lia|]. split; [lia|]. split; [|done]. intros _. simpl. unfold INT_MAX. lia.
Qed.

(** ** The object around the sync object *)

(** The variable's reference to the sync object [q] passes to the new object. *)
Definition wrapped R (n p q : Z) : references := <[HLocal n := p]> (<[HOwns p := q]> (delete (HLocal n) R)).

Lemma wrapped_other R n p q h : h ≠ HLocal n → h ≠ HOwns p → wrapped R n p q !! h = R !! h.
Proof. intros H1 H2. unfold wrapped. by rewrite !lookup_insert_ne, lookup_delete_ne. Qed.

Lemma held_wrapped (P : holder → bool) R s n q x :
  inv R s → R !! HLocal n = Some q →
  let p := sv_next_obj s in
  held P (wrapped R n p q) x =
    held P R x - b2z (P (HLocal n) && bool_decide (q = x)) + b2z (P (HOwns p) && bool_decide (q = x)) +
    b2z (P (HLocal n) && bool_decide (p = x)).
Proof.
  intros Hinv Hn p. assert (R !! HOwns p = None) as Hp.
  { destruct (R !! HOwns p) as [y|] eqn:E; [|done]. destruct (ow_only _ _ (iv_owns _ _ Hinv) _ _ E) as (d & k & Hd & _).
    unfold p in Hd. by rewrite (data_next_free R s Hinv) in Hd. }
  unfold wrapped. rewrite held_insert by by rewrite lookup_insert_ne, lookup_delete_eq.
  rewrite held_insert by by rewrite lookup_delete_ne. rewrite (held_delete _ _ _ _ _ Hn). done.
Qed.

Lemma stable_new_owner R s n q d0 d k :
  stable R s → R !! HLocal n = Some q → 2 ≤ n < MAX_LOCALS → owned d = Some (k, q) →
  data_of s !! q = Some (Sync d0) → sync_kind d0 = k → held is_lasting R q = 0 →
  stable (wrapped R n (sv_next_obj s) q) (new_obj d s).
Proof.
  intros [[Hinv Hset Hroom] [Hn0 Hn1]] Hn Hl Hd Hq Hk Hlast. set (p := sv_next_obj s).
  pose proof (λ P x, held_wrapped P R s n q x Hinv Hn) as Hheld. cbv zeta in Hheld. fold p in Hheld.
  set (R' := wrapped R n p q) in *.
  assert (∀ h, h ≠ HLocal n → h ≠ HOwns p → R' !! h = R !! h) as Hold by (intros; by apply wrapped_other).
  assert (p ≠ q) as Hpq by (intros <-; by apply (next_unheld R s Hinv) in Hn).
  pose proof (next_unheld R s Hinv) as Hfresh. fold p in Hfresh.
  split; [split|].
  - pose proof Hinv as [Hwf Hc Ho Hqs [W1 W2 W3] Ht Hm Hy].
    split; rewrite ?data_new, ?queue_new; try done.
    + destruct Hc as [C1 C2 C3 C4 C5 C6 C7 C8]. split; simpl.
      * intros x. rewrite Hheld, refcount_new, C1. unfold refcount_of. simpl. fold p. case_decide as Ex.
        -- subst x. unfold p at 1. rewrite (next_free R s Hinv), bool_decide_false, bool_decide_true by done. done.
        -- rewrite (bool_decide_false (p = x)) by done. simpl. lia.
      * intros x. rewrite Hheld, handle_count_new, C2. unfold handle_count_of. simpl. fold p.
        case_decide as Ex; [|lia]. subst x. unfold p at 1. by rewrite (next_free R s Hinv).
      * intros x Hx. rewrite refcount_new. case_decide; [done|]. apply C3. by rewrite lookup_insert_ne in Hx.
      * intros m x. destruct (decide (m = n)) as [->|Hne]; [lia|]. rewrite Hold by congruence. eauto.
      * intros x. rewrite Hheld. simpl. case_bool_decide as Ex; simpl; [subst x; rewrite Hlast; by unfold MAX_LOCALS, INT_MAX|].
        specialize (C5 x). lia.
      * intros h x a Hh. rewrite Hold by done. eauto.
      * intros x. rewrite lookup_insert. case_decide; [subst; unfold p; lia|]. intros Hx. specialize (C7 x Hx). lia.
      * done.
    + destruct Ho as [O1 O2]. split.
      * intros x dx k' q'. rewrite lookup_insert. fold p. case_decide as Ex.
        -- subst x. intros [= <-] E. rewrite Hd in E. injection E as <- <-. split.
           ++ unfold R', wrapped. by rewrite lookup_insert_ne, lookup_insert_eq.
           ++ exists d0. by rewrite lookup_insert_ne.
        -- intros Hx Hk'. destruct (O1 x dx k' q' Hx Hk') as (Hr & d' & Hd' & Hkd).
           rewrite Hold by congruence. split; [done|]. exists d'. rewrite lookup_insert_ne; [done|].
           intros <-. by apply Hfresh in Hr.
      * intros x q'. destruct (decide (x = p)) as [->|Hne].
        -- unfold R', wrapped. rewrite lookup_insert_ne, lookup_insert_eq by done. intros [= <-].
           exists d, k. by rewrite lookup_insert_eq.
        -- rewrite Hold by congruence. intros Hx. destruct (O2 x q' Hx) as (dx & k' & Hdx & Hk'). exists dx, k'.
           by rewrite lookup_insert_ne.
    + apply (queues_new R s Hinv). intros e. by apply Hold.
    + split; [|done..]. intros e x. rewrite Hold by done. eauto.
    + apply (mutexes_new R s Hinv); [intros x; by apply Hold|]. by intros t c a ->.
    + apply (syncs_new R s Hinv). by intros ds ->.
  - apply (settled_new R s Hinv); [|done]. intros e. by apply Hold.
  - apply room_new; [done|]. by intros ds ->.
  - split; by rewrite Hold by (done || intros [=]; lia).
Qed.

(** ** Handles *)

(** A new handle to an object, with its reference. *)
Definition handled (h p access : Z) (o : object) s : server :=
  set_handles (<[h := (p, access)]> (sv_handles s))
    (upd p (with_handle_count (o_handle_count o + 1) (with_refcount (o_refcount o + 1) o)) s).

Lemma stable_handled R s h p access o :
  stable R s → R !! HHandle h = None → sv_objs s !! p = Some o →
  held is_lasting R p + 1 + 2 * MAX_LOCALS ≤ INT_MAX →
  stable (<[HHandle h := p]> R) (handled h p access o s).
Proof.
  intros [[Hinv Hset Hroom] [Hn0 Hn1]] Hh Ho Hb. set (R' := <[HHandle h := p]> R).
  assert (∀ h', h' ≠ HHandle h → R' !! h' = R !! h') as Hold by (intros; by apply lookup_insert_ne).
  assert (data_of (handled h p access o s) = data_of s) as Ed by by apply (data_upd s p o).
  assert (queue_of (handled h p access o s) = queue_of s) as Eq by by apply (queue_upd s p o).
  split; [split|].
  - pose proof Hinv as [Hwf Hc Hw Hq [W1 W2 W3] Ht Hm Hy]. split; rewrite ?Ed, ?Eq; try done.
    + destruct Hc as [C1 C2 C3 C4 C5 C6 C7 C8]. split; simpl.
      * intros x. unfold R'. rewrite held_insert by done. rewrite C1. change (refcount_of (handled _ _ _ _ _) x) with
          (refcount_of (upd p (with_handle_count (o_handle_count o + 1) (with_refcount (o_refcount o + 1) o)) s) x).
        rewrite refcount_upd. simpl. unfold refcount_of. case_decide; [subst; rewrite Ho, bool_decide_true by done; simpl; lia|].
        rewrite bool_decide_false by done. simpl. lia.
      * intros x. unfold R'. rewrite held_insert by done. rewrite C2. change (handle_count_of (handled _ _ _ _ _) x) with
          (handle_count_of (upd p (with_handle_count (o_handle_count o + 1) (with_refcount (o_refcount o + 1) o)) s) x).
        rewrite handle_count_upd. simpl. unfold handle_count_of.
        case_decide; [subst; rewrite Ho, bool_decide_true by done; simpl; lia|].
        rewrite bool_decide_false by done. simpl. lia.
      * intros x Hx. change (refcount_of (handled _ _ _ _ _) x) with
          (refcount_of (upd p (with_handle_count (o_handle_count o + 1) (with_refcount (o_refcount o + 1) o)) s) x).
        rewrite refcount_upd. simpl. case_decide; [|apply C3; by rewrite lookup_insert_ne in Hx].
        pose proof (C3 p (ex_intro _ _ Ho)) as Hr. unfold refcount_of in Hr. rewrite Ho in Hr. simpl in Hr. lia.
      * intros n x. rewrite Hold by done. eauto.
      * intros x. unfold R'. rewrite held_insert by done. simpl. case_bool_decide; simpl; [subst; lia|].
        rewrite Z.add_0_r. apply C5.
      * intros h' x a. rewrite lookup_insert. case_decide; [subst; intros [= -> _]; apply lookup_insert_eq|].
        intros Hx. rewrite Hold by congruence. eauto.
      * intros x Hx. apply C7. by eapply insert_live.
      * done.
    + eapply owns_agree; [|done]. intros x. by apply Hold.
    + eapply queues_agree; [|done]. intros e. by apply Hold.
    + split; [|done..]. intros e x. rewrite Hold by done. eauto.
    + eapply mutexes_agree; [|done]. intros x. by apply Hold.
  - intros w wt Hw Hx. rewrite Ed. destruct (Hset w wt Hw Hx) as (A1 & A2 & A3 & A4). split_and!; [done| |done..].
    intros i x Hi. rewrite Hold by done. by apply A2.
  - intros x o' d. simpl. rewrite lookup_insert. case_decide; [|apply Hroom]. intros [= <-]. simpl. subst x. by apply (Hroom p o d).
  - split; by rewrite Hold.
Qed.
End create.
