(* ===== verification/ServerHandles.v ===== *)
(** * Requests that create objects and close handles

    The requests of src/server/event.c, semaphore.c, mutex.c and handle.c that make a new
    object with a handle, or close one, keep the invariant between requests. *)

From S2P Require Import Prelude.
From S2P Require Import ShmState.
From S2P Require Import WfusyncServer.
From S2P Require Import WfusyncServerOps.
From S2P Require Import WfusyncRegistry.
From S2P Require Import WfusyncHistory.
From S2P Require Import WfusyncPending.
From S2P Require Import ServerObjects.
From S2P Require Import ServerObjectsSpec.
From S2P Require Import ServerMutexSpec.
From S2P Require Import ServerInv.
From S2P Require Import ServerRefs.
From S2P Require Import ServerTake.
From S2P Require Import ServerSatisfied.
From S2P Require Import ServerEndWait.
From S2P Require Import ServerWake.
From S2P Require Import ServerSteps.
From S2P Require Import ServerRelease.
From S2P Require Import ServerCreate.

Section requests.
Context `{PageSize}.
Implicit Types (R : references) (s : server).

(** The server between two requests: no variable holds a reference, the handle table has
    exactly the handles that hold one, and a thread runs. *)
Record calm R s : Prop := {
  ca_stable : stable R s;
  ca_locals : ∀ n, R !! HLocal n = None;
  ca_table : ∀ h p, R !! HHandle h = Some p → ∃ access, sv_handles s !! h = Some (p, access);
  ca_current : is_Some (sv_threads s !! sv_current s) }.

Lemma calm_follows R s R' s' :
  calm R s → follows R s R' s' → stable R' s' → (∀ n, R' !! HLocal n = None) → calm R' s'.
Proof.
  intros [C1 C2 C3 C4] [F1 [F2 F3] F4] Hst Hl. split; [done|done|..].
  - intros h p. rewrite F1, F2. apply C3.
  - rewrite F3. by apply F4.
Qed.
Lemma calm_leads R s R' s' : calm R s → leads R s R' s' → calm R' s'.
Proof.
  intros Hc [Hst Ha]. eapply calm_follows; [done|by apply advances_follows|done|]. intros n.
  destruct (st_locals _ _ Hst) as [Hn0 Hn1]. destruct (decide (2 ≤ n)).
  - rewrite (ad_local _ _ _ _ Ha) by done. apply Hc.
  - destruct (decide (n = 0)) as [->|]; [done|]. destruct (decide (n = 1)) as [->|]; [done|].
    destruct (R' !! HLocal n) as [x|] eqn:E; [|done].
    pose proof (co_local _ _ (iv_counts _ _ (si_inv _ _ (st_inv _ _ Hst))) _ _ E). lia.
Qed.

Notation keeps_calm := (λ _ s', ∃ R', calm R' s').

(** ** Creation *)

Lemma create_object_ok R s cs wrap k :
  calm R s → (∀ q, owned (wrap q) = Some (k, q)) →
  (∀ s1, calm R s1 → w_next_shm_idx (sv_wfs s1) = w_next_shm_idx (sv_wfs s) → wp cs (created_sync k 2 R s1) s1) →
  wp (create_object cs wrap) (λ r s', match r with
    | None => calm R s'
    | Some p => ∃ R', stable R' s' ∧ follows R s R' s' ∧ R' !! HLocal 2 = Some p ∧
        (∀ m, m ≠ 2 → R' !! HLocal m = None) ∧ held is_lasting R' p = 0 ∧
        sv_objs s' !! p = Some (Object 1 0 [] (default (Event 0) (o_data <$> sv_objs s' !! p)))
    end) s.
Proof.
  intros Hcalm Hwrap Hcs. unfold create_object. rewrite wp_bind. eapply wp_alloc; [apply Hcalm|].
  intros b w s1 Hst1 Hidx _ _ _. assert (follows R s R s1) as Hf1 by apply wfs_follows.
  assert (calm R s1) as Hcalm1 by (by eapply calm_follows; [..|apply Hcalm]).
  destruct b; cbn [negb]; [|by rewrite wp_ret]. rewrite wp_bind. eapply wp_mono; [by apply Hcs|].
  intros [q|] s2; simpl.
  2:{ intros [Hst2 Hf2]. rewrite wp_ret. eapply calm_follows; [exact Hcalm1|exact Hf2|done|apply Hcalm]. }
  intros (R2 & [M1 M2 M3 (d & Hd & Hk) M5 M6]). rewrite wp_bind, wp_gets, wp_bind, wp_modify, wp_ret.
  pose proof (stable_new_owner R2 s2 2 q d (wrap q) k M1 M2 ltac:(done) (Hwrap q) Hd Hk M5) as Hst3.
  pose proof (si_inv _ _ (st_inv _ _ M1)) as Hinv2. change (set_objs _ _ s2) with (new_obj (wrap q) s2).
  exists (wrapped R2 2 (sv_next_obj s2) q). split_and!.
  - done.
  - eapply follows_trans; [exact Hf1|]. eapply follows_trans; [exact M6|]. split; [|done|done].
    intros m. by apply wrapped_other.
  - apply lookup_insert_eq.
  - intros m Hm. rewrite wrapped_other by congruence. rewrite M3 by done. apply Hcalm.
  - rewrite (held_wrapped _ _ _ _ _ _ Hinv2 M2). simpl.
    rewrite (held_zero _ R2 (sv_next_obj s2)) by apply (next_unheld R2 s2 Hinv2).
    rewrite bool_decide_false; [done|]. intros ->. by apply (next_unheld R2 s2 Hinv2) in M2.
  - simpl. by rewrite lookup_insert_eq.
Qed.

Lemma create_obj_handle_ok R s cs wrap k h access :
  calm R s → (∀ q, owned (wrap q) = Some (k, q)) → sv_handles s !! h = None →
  (∀ s1, calm R s1 → w_next_shm_idx (sv_wfs s1) = w_next_shm_idx (sv_wfs s) → wp cs (created_sync k 2 R s1) s1) →
  wp (create_obj_handle (create_object cs wrap) h access) keeps_calm s.
Proof.
  intros Hcalm Hwrap Hh Hcs. unfold create_obj_handle. rewrite wp_bind. eapply wp_mono; [by eapply create_object_ok|].
  intros [p|] s1; [|intros Hc; rewrite wp_ret; by exists R]. intros (R1 & Hst1 & Hf1 & Hn & Hothers & Hlast & Ho).
  assert (R1 !! HHandle h = None) as Hh1.
  { rewrite (fo_handle _ _ _ _ Hf1). destruct (R !! HHandle h) as [x|] eqn:E; [|done].
    destruct (ca_table _ _ Hcalm _ _ E) as [a Ha]. congruence. }
  set (o := Object 1 0 [] _) in Ho.
  unfold alloc_handle_no_access_check. rewrite wp_bind, wp_bind, (wp_obj _ _ _ _ Ho), wp_bind. cbv zeta.
  set (granted := Z.ldiff _ _).
  eapply wp_grow; [exact Hst1|]. intros b s2 Hst2 Hf2 Ho2. rewrite <- Ho2 in Ho.
  destruct b; cbn [negb]; cycle 1.
  { rewrite wp_ret, wp_bind. eapply (wp_release _ _ 2); [exact Hst2|exact Hn|done|]. intros R3 s3 Hst3 Hr3. rewrite wp_ret.
    exists R3. eapply calm_follows; [exact Hcalm| |done|].
    - eapply follows_trans; [exact Hf1|]. eapply follows_trans; [exact Hf2|]. by eapply released_follows.
    - intros m. destruct Hr3 as [Hr _ _ _ _]. rewrite Hr by done. destruct (decide (m = 2)) as [->|Hne];
        [by rewrite lookup_delete_eq|]. rewrite lookup_delete_ne by congruence. by apply Hothers. }
  pose proof (follows_trans _ _ _ _ _ _ Hf1 Hf2) as Hf.
  pose proof (stable_handled R1 s2 h p granted o Hst2 Hh1 Ho ltac:(rewrite Hlast; by unfold MAX_LOCALS, INT_MAX)) as Hst3.
  unfold grab_object. rewrite !wp_bind, (wp_obj _ _ _ _ Ho), wp_bind, wp_assert. split; [done|].
  rewrite wp_set_obj, wp_bind, (wp_update_obj _ (with_refcount (o_refcount o + 1) o)) by apply lookup_insert_eq.
  rewrite wp_bind, wp_modify, wp_ret, wp_bind.
  match goal with |- wp _ _ ?s' => assert (s' = handled h p granted o s2) as -> end.
  { unfold handled, set_handles, upd, set_objs. simpl. by rewrite insert_insert_eq. }
  eapply (wp_release _ _ 2); [exact Hst3|by rewrite lookup_insert_ne|done|]. intros R3 s3 Hst4 Hr3. rewrite wp_ret.
  exists R3. destruct Hr3 as [Hr _ _ _ He]. unfold env_of in He. injection He as _ _ Ht _ Hcur Hha _ _ _. split.
  - done.
  - intros m. rewrite Hr by done. destruct (decide (m = 2)) as [->|Hne]; [by rewrite lookup_delete_eq|].
    rewrite lookup_delete_ne, lookup_insert_ne by congruence. by apply Hothers.
  - intros h' x. rewrite Hr, lookup_delete_ne by done. rewrite Hha. simpl. rewrite !lookup_insert.
    repeat case_decide; try congruence; [intros [= <-]; by eexists|].
    rewrite (fo_handle _ _ _ _ Hf), (proj1 (fo_table _ _ _ _ Hf)). apply Hcalm.
  - rewrite Ht, Hcur. simpl. rewrite (proj2 (fo_table _ _ _ _ Hf)). apply (fo_threads _ _ _ _ Hf), Hcalm.
Qed.

Lemma create_event_ok R s h access manual initial :
  calm R s → sv_handles s !! h = None → w_next_shm_idx (sv_wfs s) + 1 < 2 ^ 31 →
  wp (req_create_event h access manual initial) keeps_calm s.
Proof.
  intros Hc Hh Hidx. apply (create_obj_handle_ok R s _ _ EventKind); [done..|].
  intros s1 Hc1 Hi. apply create_event_sync_ok; [apply Hc1|apply Hc1|done|lia].
Qed.
Lemma create_semaphore_ok R s h access initial max :
  calm R s → sv_handles s !! h = None → w_next_shm_idx (sv_wfs s) + 1 < 2 ^ 31 →
  0 ≤ initial → max ≤ INT_MAX → wp (req_create_semaphore h access initial max) keeps_calm s.
Proof.
  intros Hc Hh Hidx Hi Hm. unfold req_create_semaphore. destruct (_ || _) eqn:E.
  - eapply wp_mono; [apply (wp_error_ok R), Hc|]. intros r s' (R' & Hl). exists R'. by eapply calm_leads.
  - apply orb_false_iff in E as [_ E%Z.ltb_ge]. apply (create_obj_handle_ok R s _ _ SemaphoreKind); [done..|].
    intros s1 Hc1 Hi1. apply create_semaphore_sync_ok; [apply Hc1|apply Hc1|done|lia|lia|done].
Qed.
Lemma create_mutex_ok R s h access owned :
  calm R s → sv_handles s !! h = None → w_next_shm_idx (sv_wfs s) + 1 < 2 ^ 31 →
  wp (req_create_mutex h access owned) keeps_calm s.
Proof.
  intros Hc Hh Hidx. apply (create_obj_handle_ok R s _ _ MutexKind); [done..|].
  intros s1 Hc1 Hi. apply create_mutex_sync_ok; [apply Hc1|apply Hc1|done|apply Hc1|lia].
Qed.

(** ** Closing a handle *)

Definition unhandled (h p : Z) (o : object) s : server :=
  upd p (with_handle_count (o_handle_count o - 1) o) (set_handles (delete h (sv_handles s)) s).

Lemma stable_unhandled R s h p o access :
  calm R s → sv_handles s !! h = Some (p, access) → sv_objs s !! p = Some o →
  let R' := <[HLocal 2 := p]> (delete (HHandle h) R) in
  stable R' (unhandled h p o s).
Proof.
  intros [[[Hinv Hset Hroom] [Hn0 Hn1]] Hl Htab Hcur] Hh Ho R'.
  pose proof (co_table _ _ (iv_counts _ _ Hinv) _ _ _ Hh) as HR.
  assert (∀ h', h' ≠ HHandle h → h' ≠ HLocal 2 → R' !! h' = R !! h') as Hold.
  { intros h' H1 H2. unfold R'. by rewrite lookup_insert_ne, lookup_delete_ne. }
  assert (∀ P x, held P R' x = held P R x - b2z (P (HHandle h) && bool_decide (p = x)) +
            b2z (P (HLocal 2) && bool_decide (p = x))) as Hheld.
  { intros P x. unfold R'. rewrite held_insert by by rewrite lookup_delete_ne. by rewrite (held_delete _ _ _ _ _ HR). }
  assert (data_of (unhandled h p o s) = data_of s) as Ed
    by exact (data_upd (set_handles (delete h (sv_handles s)) s) p o
      (with_handle_count (o_handle_count o - 1) o) Ho eq_refl).
  assert (queue_of (unhandled h p o s) = queue_of s) as Eq
    by exact (queue_upd (set_handles (delete h (sv_handles s)) s) p o
      (with_handle_count (o_handle_count o - 1) o) Ho eq_refl).
  split; [split|].
  - pose proof Hinv as [Hwf Hc Hw Hq [W1 W2 W3] Ht Hm Hy]. split; rewrite ?Ed, ?Eq; try done.
    + destruct Hc as [C1 C2 C3 C4 C5 C6 C7 C8]. unfold unhandled. split; simpl.
      * intros x. rewrite Hheld, C1. rewrite refcount_upd. simpl. unfold refcount_of. simpl.
        case_decide; [subst; rewrite Ho; simpl; lia|lia].
      * intros x. rewrite Hheld, C2. rewrite handle_count_upd. simpl. unfold handle_count_of. simpl.
        case_decide; [subst; rewrite Ho, bool_decide_true by done; simpl; lia|].
        rewrite bool_decide_false by done. simpl. lia.
      * intros x Hx. rewrite refcount_upd. simpl. case_decide; [|apply C3; by rewrite lookup_insert_ne in Hx].
        pose proof (C3 p (ex_intro _ _ Ho)) as Hr. unfold refcount_of in Hr. by rewrite Ho in Hr.
      * intros n x. destruct (decide (n = 2)) as [->|]; [intros _; by unfold MAX_LOCALS|]. rewrite Hold by congruence. eauto.
      * intros x. rewrite Hheld. cbn [is_lasting andb]. specialize (C5 x). destruct (bool_decide _); cbn [b2z]; lia.
      * intros h' x a [Hne Hx]%lookup_delete_Some. rewrite Hold by congruence. eauto.
      * intros x Hx. apply C7. by eapply insert_live.
      * done.
    + eapply owns_agree; [|done]. intros x. by apply Hold.
    + eapply queues_agree; [|done]. intros e. by apply Hold.
    + split; [|done..]. intros e x. rewrite Hold by done. eauto.
    + eapply mutexes_agree; [|done]. intros x. by apply Hold.
  - intros w wt Hwt Hx. rewrite Ed. destruct (Hset w wt Hwt Hx) as (A1 & A2 & A3 & A4). split_and!; [done| |done..].
    intros i x Hi. rewrite Hold by done. by apply A2.
  - intros x o' d. simpl. rewrite lookup_insert. case_decide; [|apply Hroom]. intros [= <-]. simpl. subst x. by apply (Hroom p o d).
  - split; by rewrite Hold.
Qed.

Lemma close_handle_ok R s h : calm R s → wp (close_handle h) keeps_calm s.
Proof.
  intros Hcalm. unfold close_handle. rewrite wp_bind, wp_gets.
  destruct (sv_handles s !! h) as [[p access]|] eqn:Hh; [|rewrite wp_ret; by exists R].
  destruct (truth _); [rewrite wp_ret; by exists R|]. rewrite wp_bind, wp_modify, wp_bind.
  pose proof (si_inv _ _ (st_inv _ _ (ca_stable _ _ Hcalm))) as Hinv.
  pose proof (co_table _ _ (iv_counts _ _ Hinv) _ _ _ Hh) as HR.
  destruct (reference_live _ _ _ _ (iv_counts _ _ Hinv) HR) as [o Ho].
  pose proof (stable_unhandled R s h p o access Hcalm Hh Ho) as Hst. cbv zeta in Hst.
  unfold release_object_from_handle. rewrite wp_bind, (wp_obj _ o) by done. rewrite wp_bind, wp_assert. split.
  { pose proof (held_pos is_handle R _ _ HR eq_refl) as Hpos. rewrite (co_handles _ _ (iv_counts _ _ Hinv)) in Hpos.
    unfold handle_count_of in Hpos. rewrite Ho in Hpos. simpl in Hpos. apply negb_true_iff, Z.eqb_neq. lia. }
  rewrite wp_bind, wp_set_obj. fold (unhandled h p o s).
  eapply (wp_release _ _ 2); [exact Hst|apply lookup_insert_eq|done|]. intros R2 s2 Hst2 Hr2. rewrite wp_ret.
  exists R2. destruct Hr2 as [Hr _ _ _ He]. unfold env_of in He. injection He as _ _ Ht _ Hcur Hha _ _ _. split.
  - done.
  - intros m. rewrite Hr by done. rewrite delete_insert_eq, !lookup_delete. repeat case_decide; try done. apply Hcalm.
  - intros h' x. rewrite Hr, Hha by done. rewrite delete_insert_eq. simpl. rewrite !lookup_delete.
    repeat case_decide; try congruence. apply Hcalm.
  - rewrite Ht, Hcur. apply Hcalm.
Qed.
End requests.

(** * Requests on events, semaphores and mutexes

    The requests of src/server/event.c, semaphore.c and mutex.c that act on the object of a
    handle keep the invariant between requests. *)

Section requests.
Context `{PageSize}.
Implicit Types (R : references) (s : server).
Notation keeps_calm := (λ _ s', ∃ R', calm R' s').

(** ** The object of the handle *)

(** Variable 2 holds the object [p], nothing else changed since the request began. *)
Record holding R s (p : Z) R1 s1 : Prop := {
  hg_stable : stable R1 s1;
  hg_local : R1 !! HLocal 2 = Some p;
  hg_others : ∀ m, m ≠ 2 → R1 !! HLocal m = None;
  hg_follows : follows R s R1 s1 }.

Lemma holding_leads R s p R1 s1 R2 s2 : holding R s p R1 s1 → leads R1 s1 R2 s2 → holding R s p R2 s2.
Proof.
  intros [H1 H2 H3 H4] [Hst Ha]. split; [done|by rewrite (ad_local _ _ _ _ Ha)|..].
  - intros m Hm. destruct (st_locals _ _ Hst) as [Hn0 Hn1]. destruct (decide (2 ≤ m)).
    + rewrite (ad_local _ _ _ _ Ha) by done. by apply H3.
    + destruct (decide (m = 0)) as [->|]; [done|]. destruct (decide (m = 1)) as [->|]; [done|].
      destruct (R2 !! HLocal m) as [x|] eqn:E; [|done].
      pose proof (co_local _ _ (iv_counts _ _ (si_inv _ _ (st_inv _ _ Hst))) _ _ E). lia.
  - eapply follows_trans; [exact H4|by apply advances_follows].
Qed.

Lemma with_handle {A} R s h a ok (K : option Z → V A) :
  calm R s → (∀ s', calm R s' → wp (K None) keeps_calm s') →
  (∀ p o R1 s1, holding R s p R1 s1 → sv_objs s1 !! p = Some o → ok (o_data o) = true → wp (K (Some p)) keeps_calm s1) →
  wp (r ← get_handle_obj h a ok; K r) keeps_calm s.
Proof.
  intros Hcalm HN HS. rewrite wp_bind. eapply (wp_get_handle_obj R s h a ok 2); [apply Hcalm|apply Hcalm|done|..].
  - intros s' Hl. apply HN. by eapply calm_leads.
  - intros p o access Hh Ho Hok s' Hst'.
    apply (HS p (with_refcount (o_refcount o + 1) o) (<[HLocal 2 := p]> R)); [|apply lookup_insert_eq|done]. split.
    + done.
    + apply lookup_insert_eq.
    + intros m Hm. rewrite lookup_insert_ne by congruence. apply Hcalm.
    + split; [intros m; by apply lookup_insert_ne|done|done].
Qed.

Lemma finish {A} R s p R1 s1 (a : A) :
  calm R s → holding R s p R1 s1 → wp (_ ← release_object p; mret a) keeps_calm s1.
Proof.
  intros Hcalm [H1 H2 H3 H4]. rewrite wp_bind. eapply (wp_release _ _ 2); [exact H1|exact H2|done|].
  intros R2 s2 Hst2 Hr2. rewrite wp_ret. exists R2. eapply calm_follows; [exact Hcalm| |done|].
  - eapply follows_trans; [exact H4|by eapply released_follows].
  - intros m. rewrite (rl_refs _ _ _ _ _ Hr2) by done. rewrite lookup_delete. case_decide; [done|].
    apply H3. congruence.
Qed.

(** The sync object of the object, which the handle's object keeps alive. *)
Lemma holding_sync R s p R1 s1 o k q :
  holding R s p R1 s1 → sv_objs s1 !! p = Some o → owned (o_data o) = Some (k, q) →
  anchored R1 s1 q ∧ ∃ oq d, sv_objs s1 !! q = Some oq ∧ o_data oq = Sync d ∧ sync_kind d = k ∧
    obj_sync_ptr p s1 = Done q s1.
Proof.
  intros [H1 H2 H3 H4] Ho Hk. pose proof (data_lookup _ _ _ Ho) as Hd. split.
  - exists (HLocal 2), p. split; [done|]. split; [right; by exists 2|]. unfold sync_ptr. rewrite Hd. simpl. by rewrite Hk.
  - destruct (ow_held _ _ (iv_owns _ _ (si_inv _ _ (st_inv _ _ H1))) _ _ _ _ Hd Hk) as (_ & d & Hq & Hkd).
    apply data_inv in Hq as (oq & Hoq & Hdq). exists oq, d. split_and!; [done..|]. apply wp_exec.
    unfold obj_sync_ptr. rewrite wp_bind, (wp_obj _ _ _ _ Ho). destruct (o_data o); simplify_eq/=; by rewrite wp_ret.
Qed.

(** ** Events *)

Lemma cell_event_state_exec R s p o manual g ws :
  stable R s → sv_objs s !! p = Some o → o_data o = Sync (EventSync manual g ws) →
  ∃ r, cell_event_state ws s = Done r s.
Proof.
  intros Hst Ho Hd. destruct ws as [c|]; [|by exists None].
  destruct (sync_cell_of _ _ _ _ _ c (si_inv _ _ (st_inv _ _ Hst)) Ho Hd eq_refl) as (v & Hv & _ & Hs & Hf).
  eexists. apply wp_exec. simpl. rewrite wp_wfu.
  eapply wp_of_exec; [by apply (get_event_state_exec _ _ _ _ _ Hs (or_introl eq_refl) Hf)|]. rewrite on_wfs_id. done.
Qed.

Lemma event_signal_ok R s p R1 s1 q o d signal :
  holding R s p R1 s1 → anchored R1 s1 q → sv_objs s1 !! q = Some o → o_data o = Sync d → sync_kind d = EventKind →
  wp (event_sync_signal q signal) (λ _ s2, ∃ R2, leads R1 s1 R2 s2 ∧
     ∃ o2 d2, anchored R2 s2 q ∧ sv_objs s2 !! q = Some o2 ∧ o_data o2 = Sync d2 ∧ sync_kind d2 = EventKind) s1.
Proof.
  intros Hh Ha Ho Hd Hk. destruct d as [manual g ws| |]; try done.
  eapply wp_mono; [by apply (event_sync_signal_ok R1 s1 q o manual g ws signal); [apply Hh|..]|].
  intros [] s2 (R2 & [Hst2 Ha2] & _). exists R2. split; [done|].
  pose proof (si_inv _ _ (st_inv _ _ Hst2)) as Hinv2. pose proof (data_lookup _ _ _ Ho) as Hq. rewrite Hd in Hq.
  destruct (anchored_sync _ _ _ _ _ _ Hinv2 Ha2 Ha Hq) as (o2 & d2 & Ho2 & Hd2 & Hk2 & _).
  exists o2, d2. split; [by eapply anchored_advances|done].
Qed.

Lemma event_op_ok R s h op : calm R s → wp (req_event_op h op) keeps_calm s.
Proof.
  intros Hcalm. unfold req_event_op. apply (with_handle R); [done|intros s' ?; rewrite wp_ret; by exists R|].
  intros p o R1 s1 Hh Ho Hok. destruct (o_data o) as [|q| |] eqn:Hd; try done.
  destruct (holding_sync _ _ _ _ _ o EventKind q Hh Ho ltac:(by rewrite Hd)) as (Ha & oq & d & Hoq & Hdq & Hk & Er).
  rewrite wp_bind. eapply wp_of_exec; [exact Er|]. rewrite wp_bind, (wp_sync_of _ _ _ _ _ Hoq Hdq).
  destruct d as [manual g ws| |]; try done. rewrite wp_bind.
  destruct (cell_event_state_exec R1 s1 q oq manual g ws (hg_stable _ _ _ _ _ Hh) Hoq Hdq) as [r Ecell].
  eapply wp_of_exec; [exact Ecell|]. cbv zeta beta. rewrite wp_bind.
  assert (∀ R2 s2, leads R1 s1 R2 s2 → wp (_ ← release_object p; mret (Some match r with Some (_, low) => low | None => b2z g end))
    keeps_calm s2) as Hfin by (intros R2 s2 Hl; eapply finish; [done|by eapply holding_leads]).
  destruct op.
  - rewrite wp_bind. eapply wp_mono; [by eapply event_signal_ok|]. intros [] s2 (R2 & Hl2 & o2 & d2 & Ha2 & Ho2 & Hd2 & Hk2).
    pose proof (holding_leads _ _ _ _ _ _ _ Hh Hl2) as Hh2.
    eapply wp_mono; [by eapply (event_signal_ok R s p R2 s2)|]. intros [] s3 (R3 & Hl3 & _).
    apply (Hfin R3). by eapply leads_then.
  - eapply wp_mono; [by eapply event_signal_ok|]. intros [] s2 (R2 & Hl2 & _). by apply (Hfin R2).
  - eapply wp_mono; [by eapply event_signal_ok|]. intros [] s2 (R2 & Hl2 & _). by apply (Hfin R2).
  - eapply wp_sv_set_error; [apply Hh|]. intros s2 _ Hl2. by apply (Hfin R1).
Qed.

Lemma query_event_ok R s h : calm R s → wp (req_query_event h) keeps_calm s.
Proof.
  intros Hcalm. unfold req_query_event. apply (with_handle R); [done|intros s' ?; rewrite wp_ret; by exists R|].
  intros p o R1 s1 Hh Ho Hok. destruct (o_data o) as [|q| |] eqn:Hd; try done.
  destruct (holding_sync _ _ _ _ _ o EventKind q Hh Ho ltac:(by rewrite Hd)) as (Ha & oq & d & Hoq & Hdq & Hk & Er).
  rewrite wp_bind. eapply wp_of_exec; [exact Er|]. rewrite wp_bind, (wp_sync_of _ _ _ _ _ Hoq Hdq).
  destruct d as [manual g ws| |]; try done. rewrite wp_bind.
  destruct (cell_event_state_exec R1 s1 q oq manual g ws (hg_stable _ _ _ _ _ Hh) Hoq Hdq) as [r Ecell].
  eapply wp_of_exec; [exact Ecell|]. by eapply finish.
Qed.

(** ** Semaphores *)

Lemma release_semaphore_request_ok R s h count :
  calm R s → 0 ≤ count < 2 ^ 32 → wp (req_release_semaphore h count) keeps_calm s.
Proof.
  intros Hcalm Hcount. unfold req_release_semaphore. apply (with_handle R); [done|intros s' ?; rewrite wp_ret; by exists R|].
  intros p o R1 s1 Hh Ho Hok. destruct (o_data o) as [| |q|] eqn:Hd; try done.
  destruct (holding_sync _ _ _ _ _ o SemaphoreKind q Hh Ho ltac:(by rewrite Hd)) as (Ha & oq & d & Hoq & Hdq & Hk & Er).
  rewrite wp_bind. eapply wp_of_exec; [exact Er|]. rewrite wp_bind. destruct d as [|c0 max ws|]; try done.
  eapply wp_mono; [by eapply (release_semaphore_ok R1); [apply Hh|..]|]. intros r s2 (R2 & Hl2).
  eapply finish; [done|by eapply holding_leads].
Qed.

(** The queries read the cell or the fields and change nothing. *)
Lemma wp_wfu_same {A} s (m : W A) (a : A) (Q : A → server → Prop) :
  m (sv_wfs s) = Done a (sv_wfs s) → Q a s → wp (wfu m) Q s.
Proof. intros E HQ. rewrite wp_wfu. eapply wp_of_exec; [exact E|]. by rewrite on_wfs_id. Qed.

Lemma query_semaphore_ok R s h : calm R s → wp (req_query_semaphore h) keeps_calm s.
Proof.
  intros Hcalm. unfold req_query_semaphore. apply (with_handle R); [done|intros s' ?; rewrite wp_ret; by exists R|].
  intros p o R1 s1 Hh Ho Hok. destruct (o_data o) as [| |q|] eqn:Hd; try done.
  destruct (holding_sync _ _ _ _ _ o SemaphoreKind q Hh Ho ltac:(by rewrite Hd)) as (Ha & oq & d & Hoq & Hdq & Hk & Er).
  rewrite wp_bind. eapply wp_of_exec; [exact Er|]. rewrite wp_bind, (wp_sync_of _ _ _ _ _ Hoq Hdq).
  destruct d as [|c0 max [c|]|]; try done; rewrite wp_bind.
  - destruct (sync_cell_of _ _ _ _ _ c (si_inv _ _ (st_inv _ _ (hg_stable _ _ _ _ _ Hh))) Hoq Hdq eq_refl)
      as (v & _ & _ & Hs & Hf).
    eapply wp_wfu_same; [by apply (get_semaphore_state_exec _ _ _ _ Hs Hf)|]. by eapply finish.
  - rewrite wp_ret. by eapply finish.
Qed.

(** ** Mutexes *)

Lemma holding_current R s p R1 s1 :
  calm R s → holding R s p R1 s1 → ∃ v, sv_threads s1 !! sv_current s1 = Some v.
Proof.
  intros Hcalm Hh. destruct (hg_follows _ _ _ _ _ Hh) as [_ [_ ->] Ht]. apply Ht, Hcalm.
Qed.

Lemma release_mutex_ok R s h : calm R s → wp (req_release_mutex h) keeps_calm s.
Proof.
  intros Hcalm. unfold req_release_mutex. apply (with_handle R); [done|intros s' ?; rewrite wp_ret; by exists R|].
  intros p o R1 s1 Hh Ho Hok. destruct (o_data o) as [| | |q] eqn:Hd; try done.
  destruct (holding_sync _ _ _ _ _ o MutexKind q Hh Ho ltac:(by rewrite Hd)) as (Ha & oq & d & Hoq & Hdq & Hk & Er).
  rewrite wp_bind. eapply wp_of_exec; [exact Er|]. rewrite wp_bind, (wp_sync_of _ _ _ _ _ Hoq Hdq), wp_bind, wp_gets, wp_bind.
  destruct (holding_current _ _ _ _ _ Hcalm Hh) as [v Hv].
  assert (∀ (r : option Z) s2 R2, leads R1 s1 R2 s2 → wp (_ ← release_object p; mret r) keeps_calm s2) as Hfin.
  { intros r s2 R2 Hl. eapply finish; [done|by eapply holding_leads]. }
  destruct d as [| |owner c0 a [c|]]; try done.
  - rewrite wp_bind, (wp_thread_of _ _ _ _ Hv).
    eapply wp_mono; [by eapply (release_mutex_cell_ok R1 s1 q); [apply Hh|..]|].
    intros r s2 (R2 & Hl2). by apply (Hfin r s2 R2).
  - rewrite wp_bind. eapply wp_mono.
    + apply (do_release_ok R1 s1 q oq (sv_current s1) owner c0 a 1); [apply Hh|by apply Hh|done|done|by exists v|].
      pose proof (plain_ok R1 s1 q oq (si_inv _ _ (st_inv _ _ (hg_stable _ _ _ _ _ Hh))) Hoq _ Hdq) as [_ [Hc How]].
      intros ->. assert (c0 ≠ 0) by (intros E; by apply How in E). lia.
    + intros b s2 (R2 & Hl2). rewrite wp_ret. by apply (Hfin _ s2 R2).
Qed.

Lemma query_mutex_ok R s h : calm R s → wp (req_query_mutex h) keeps_calm s.
Proof.
  intros Hcalm. unfold req_query_mutex. apply (with_handle R); [done|intros s' ?; rewrite wp_ret; by exists R|].
  intros p o R1 s1 Hh Ho Hok. destruct (o_data o) as [| | |q] eqn:Hd; try done.
  destruct (holding_sync _ _ _ _ _ o MutexKind q Hh Ho ltac:(by rewrite Hd)) as (Ha & oq & d & Hoq & Hdq & Hk & Er).
  rewrite wp_bind. eapply wp_of_exec; [exact Er|]. rewrite wp_bind, (wp_sync_of _ _ _ _ _ Hoq Hdq), wp_bind, wp_gets, wp_bind.
  destruct (holding_current _ _ _ _ _ Hcalm Hh) as [v Hv].
  destruct d as [| |owner c0 a [c|]]; try done.
  - destruct (sync_cell_of _ _ _ _ _ c (si_inv _ _ (st_inv _ _ (hg_stable _ _ _ _ _ Hh))) Hoq Hdq eq_refl)
      as (u & _ & _ & Hs & Hf).
    rewrite wp_bind, (wp_thread_of _ _ _ _ Hv).
    eapply wp_wfu_same; [by apply (get_mutex_state_exec _ _ _ _ _ Hs Hf)|]. by eapply finish.
  - rewrite wp_ret. by eapply finish.
Qed.
End requests.
