(* ===== verification/ServerQueue.v ===== *)
(** * Queueing for objects

    The loop of [wait_on] (src/server/thread.c) with the invariant of ServerInv.v: each
    turn puts an entry into the queue of an object and takes a reference to the object. *)

From S2P Require Import Prelude.
From S2P Require Import ShmState.
From S2P Require Import WfusyncServer.
From S2P Require Import WfusyncServerOps.
From S2P Require Import WfusyncRegistry.
From S2P Require Import WfusyncServerInv.
From S2P Require Import WfusyncHistory.
From S2P Require Import WfusyncPending.
From S2P Require Import ServerObjects.
From S2P Require Import ServerObjectsSpec.
From S2P Require Import ServerMutexSpec.
From S2P Require Import ServerInv.
From S2P Require Import ServerRefs.
From S2P Require Import ServerTake.
From S2P Require Import ServerSatisfied.
From S2P Require Import ServerEndWait.
From S2P Require Import ServerWake.
From S2P Require Import ServerSteps.
From S2P Require Import ServerRelease.
From S2P Require Import ServerCreate.

Section queue.
Context `{PageSize}.
Implicit Types (R : references) (s : server).

(** ** One entry *)

Definition enqueue (p : Z) (o : object) (e : Z * nat) (w : wfs) s : server :=
  upd p (with_queue (o_wait_queue o ++ [e]) o) (on_wfs (λ _, w) s).

Lemma wp_add_waiter R s p o d e (Q : unit → server → Prop) :
  inv R s → sv_objs s !! p = Some o → o_data o = Sync d → Z.of_nat (length (o_wait_queue o)) < INT_MAX →
  (∀ w, wf_but w → waiters_by 1 (sync_ws d) (sv_wfs s) w → Q tt (enqueue p o e w s)) →
  wp (sync_add_queue p e) Q s.
Proof.
  intros Hinv Ho Hd Hlen HQ. unfold sync_add_queue. rewrite wp_bind, (wp_sync_of _ _ _ _ _ Ho Hd), wp_bind.
  assert (∀ w, wp (add_queue p e) Q (on_wfs (λ _, w) s) ↔ Q tt (enqueue p o e w s)) as Hadd.
  { intros w. unfold add_queue. by rewrite (wp_update_obj _ o). }
  destruct (sync_ws d) as [c|] eqn:Ec.
  - destruct (sync_cell_of _ _ _ _ _ c Hinv Ho Hd Ec) as (u & Hu & Hn & _).
    pose proof (proj1 (wf_but_none _) (iv_wf _ _ Hinv)) as Hwf. rewrite wp_wfu. unfold INT_MAX in Hlen.
    assert (0 ≤ ws_server_waiters u < 2 ^ 32 - 1) as Hrange by lia.
    eapply wp_mono.
    + apply wp_conj; [apply (proj1 (server_waiter_wf _ c Hwf)); by exists u|].
      apply wp_keeps; [|apply (proj1 (values_server_waiter None (Some c)))].
      apply (add_server_waiter_spec _ c u); [apply Hwf|done|done].
    + intros [] w (Hw & (_ & Hs & _) & Hval). apply Hadd, HQ; [by apply wf_but_none|].
      split; [by apply wf_but_none|]. split; [by exists u|]. intros a. by destruct (Hval a ltac:(done)) as (? & _ & ?).
  - rewrite wp_ret. rewrite <- (on_wfs_id s). apply Hadd. by apply HQ; [apply Hinv|].
Qed.

(** The invariant once the entry, the reference and the list of the wait are all there. *)
Record queued (e : Z * nat) (x q : Z) (l : list (Z * nat)) (d : sync_data) (wt : thread_wait) s s' : Prop := {
  qd_data : data_of s' = data_of s;
  qd_queue : queue_of s' = <[q := l ++ [e]]> (queue_of s);
  qd_refs : ∀ y, refcount_of s' y = refcount_of s y + if decide (x = y) then 1 else 0;
  qd_handles : ∀ y, handle_count_of s' y = handle_count_of s y;
  qd_live : ∀ y, is_Some (sv_objs s' !! y) → is_Some (sv_objs s !! y);
  qd_waits : sv_waits s' = <[e.1 := with_objs (tw_objs wt ++ [x]) wt]> (sv_waits s);
  qd_wf : wf_but (sv_wfs s');
  qd_cells : waiters_by 1 (sync_ws d) (sv_wfs s) (sv_wfs s');
  qd_rest : rest_of s' = rest_of s ∧ sv_threads s' = sv_threads s }.

Lemma inv_queued R s s' e x q l d wt :
  inv R s → R !! HWait e = None → (∃ h, R !! h = Some x) → sync_ptr (data_of s) x = Some q →
  data_of s !! q = Some (Sync d) → queue_of s !! q = Some l →
  sv_waits s !! e.1 = Some wt → e.2 = length (tw_objs wt) →
  held is_lasting R x + 1 + 2 * MAX_LOCALS ≤ INT_MAX →
  queued e x q l d wt s s' → inv (<[HWait e := x]> R) s'.
Proof.
  intros Hinv He [h0 Hx0] Hp Hdq Hlq Hw He2 Hb [Q1 Q2 Q3 Q4 Q5 Q6 Q7 Q8 [Q9 Q10]].
  set (R' := <[HWait e := x]> R). unfold rest_of in Q9. injection Q9 as E1 E2 E3 E4 E5 E6 E7.
  assert (∀ h, h ≠ HWait e → R' !! h = R !! h) as Hold by (intros; by apply lookup_insert_ne).
  pose proof Hinv as [Hwf [C1 C2 C3 C4 C5 C6 C7 C8] Ho [U1 U2] [W1 W2 W3] Ht Hm Hy].
  split; rewrite ?Q1, ?Q2, ?Q10; try done.
  - split.
    + intros y. unfold R'. rewrite held_insert by done. rewrite Q3, C1. simpl.
      case_decide; [rewrite bool_decide_true|rewrite bool_decide_false]; simpl; done || lia.
    + intros y. unfold R'. rewrite held_insert by done. rewrite Q4, C2. simpl. lia.
    + intros y Hy'. rewrite Q3. specialize (C3 y (Q5 y Hy')). case_decide; lia.
    + intros n y. rewrite Hold by done. eauto.
    + intros y. unfold R'. rewrite held_insert by done. simpl. specialize (C5 y). case_bool_decide; simpl; [subst; lia|lia].
    + intros h y a. rewrite E4, Hold by done. eauto.
    + intros y Hy'. rewrite E2. by apply C7, Q5.
    + intros w. rewrite Q6, E1, lookup_insert. case_decide; [|apply C8]. intros _. apply C8. subst w. by exists wt.
  - eapply owns_agree; [intros y; by apply Hold|done].
  - assert (e ∉ l) as Hel.
    { intros Hin. apply (U2 q l e Hlq) in Hin as (y & Hy' & _). congruence. }
    split.
    + intros y l0. rewrite lookup_insert. case_decide; [|apply U1]. intros [= <-].
      apply list.NoDup_app. split; [by eapply U1|]. split; [|apply NoDup_singleton].
      intros z Hz ->%list_elem_of_singleton. done.
    + intros y l0 e'. destruct (decide (e' = e)) as [->|Hne].
      * unfold R'. rewrite lookup_insert, lookup_insert_eq. case_decide.
        -- subst y. intros [= <-]. rewrite elem_of_app, list_elem_of_singleton. split; [eauto|by right].
        -- intros Hl0. rewrite (U2 y l0 e Hl0), He. split; [by intros (? & ? & _)|].
           intros (z & [= <-] & Hz). congruence.
      * rewrite Hold by congruence. rewrite lookup_insert. case_decide; [|apply U2].
        intros [= <-]. subst y. rewrite elem_of_app, list_elem_of_singleton, (U2 q l e' Hlq). naive_solver.
  - rewrite Q6. split.
    + intros e' y. destruct (decide (e' = e)) as [->|Hne].
      * unfold R'. rewrite lookup_insert_eq. intros [= <-]. rewrite lookup_insert_eq. eexists. split; [done|].
        simpl. rewrite He2. rewrite lookup_app_r, Nat.sub_diag; [done|lia].
      * rewrite Hold by congruence. intros Hy'. destruct (W1 e' y Hy') as (wt' & Hw' & Hi). rewrite lookup_insert.
        case_decide as Ee; [|by eauto]. rewrite <- Ee, Hw in Hw'. injection Hw' as <-. eexists. split; [done|]. simpl.
        by apply lookup_app_l_Some.
    + intros w wt'. rewrite lookup_insert. case_decide; [|apply W2]. intros [= <-]. by apply (W2 e.1 wt).
    + intros t v Hv. destruct (W3 t v Hv) as [Hnd Hl]. split; [done|]. intros w Hin. destruct (Hl w Hin) as (wt' & Hw' & Ht').
      rewrite lookup_insert. case_decide; [|by eauto]. subst w. rewrite Hw in Hw'. injection Hw' as <-. by eexists.
  - eapply mutexes_agree; [intros y; by apply Hold|done].
  - eapply syncs_queue; [done|done|done| |done]. rewrite length_app. simpl. lia.
Qed.

(** ** One turn of the loop *)

(** There is room for [k] more references to every object and [k] more entries in every
    queue. *)
Record spare (k : Z) R s : Prop := {
  sp_refs : ∀ x, held is_lasting R x + k + 2 * MAX_LOCALS ≤ INT_MAX;
  sp_room : ∀ p o d, sv_objs s !! p = Some o → o_data o = Sync d →
    Z.of_nat (length (o_wait_queue o)) + k ≤ INT_MAX ∧
    hold_count (sv_wfs s) d + Z.of_nat (length (o_wait_queue o)) + k ≤ INT_MAX }.

Lemma open_entries_le E l : open_entries E l ≤ Z.of_nat (length l).
Proof. unfold open_entries. apply inj_le. induction l; [done|]. rewrite filter_cons. case_decide; simpl; lia. Qed.
Lemma spare_room R s : spare 0 R s → room ∅ s.
Proof. intros [_ Hr] p o d Ho Hd. destruct (Hr p o d Ho Hd). pose proof (open_entries_le ∅ (o_wait_queue o)). lia. Qed.
Lemma spare_mono k k' R s : k' ≤ k → spare k R s → spare k' R s.
Proof. intros Hk [H1 H2]. split; [intros x; specialize (H1 x); lia|]. intros p o d Ho Hd. specialize (H2 p o d Ho Hd). lia. Qed.

Lemma spare_queued k R s e x q l d wt s' :
  0 ≤ k → inv R s → R !! HWait e = None → data_of s !! q = Some (Sync d) → queue_of s !! q = Some l →
  spare (k + 1) R s → queued e x q l d wt s s' → spare k (<[HWait e := x]> R) s'.
Proof.
  intros Hk Hinv He Hdq Hlq [S1 S2] [Q1 Q2 Q3 Q4 Q5 Q6 Q7 Q8 Q9]. split.
  - intros y. rewrite held_insert by done. simpl. specialize (S1 y). case_bool_decide; simpl; lia.
  - intros p o' dp Ho' Hd'. rewrite (hold_count_waiters _ _ _ _ _ Q8).
    pose proof (data_lookup _ _ _ Ho') as Hdp. rewrite Q1, Hd' in Hdp. apply data_inv in Hdp as (o & Ho & Hd).
    pose proof (queue_lookup _ _ _ Ho') as Hq. rewrite Q2, lookup_insert in Hq.
    specialize (S2 p o dp Ho Hd). pose proof (queue_lookup _ _ _ Ho) as Hq0. case_decide.
    + subst p. rewrite Hq0 in Hlq. injection Hlq as <-. injection Hq as <-. rewrite length_app. simpl. lia.
    + rewrite Hq0 in Hq. injection Hq as <-. lia.
Qed.

Lemma settled_queued R s e x q l d wt s' :
  settled ∅ R s → R !! HWait e = None → sv_waits s !! e.1 = Some wt → e.2 = length (tw_objs wt) →
  Z.of_nat (length (tw_objs wt)) < MAXIMUM_WAIT_OBJECTS →
  distinct_semaphores (data_of s) (with_objs (tw_objs wt ++ [x]) wt) →
  queued e x q l d wt s s' → settled ∅ (<[HWait e := x]> R) s'.
Proof.
  intros Hs He Hw He2 Hlen Hdis [Q1 Q2 Q3 Q4 Q5 Q6 Q7 Q8 [Q9 Q10]] w wt' Hw' Hx. rewrite Q6, lookup_insert in Hw'.
  rewrite Q1, Q10. case_decide as Ew.
  - subst w. injection Hw' as <-. destruct (Hs e.1 wt Hw Hx) as (A1 & A2 & A3 & A4). split_and!; [done| | |done].
    + intros i y. simpl. intros [Hi|[Hge Hi]]%lookup_app_Some.
      * rewrite lookup_insert_ne; [by apply A2|]. intros [= E]. apply lookup_lt_Some in Hi. rewrite E in He2. simpl in He2. lia.
      * apply list_lookup_singleton_Some in Hi as [Hi <-]. replace i with e.2 by lia.
        rewrite <- surjective_pairing. apply lookup_insert_eq.
    + simpl. rewrite length_app. simpl. lia.
  - destruct (Hs w wt' Hw' Hx) as (A1 & A2 & A3 & A4). split_and!; [done| |done..].
    intros i y Hi. rewrite lookup_insert_ne; [by apply A2|]. intros [= ->]. by apply Ew.
Qed.

Lemma queue_object_ok k R s w wt x m :
  0 ≤ k → stable R s → R !! HLocal m = Some x → sv_waits s !! w = Some wt →
  R !! HWait (w, length (tw_objs wt)) = None → Z.of_nat (length (tw_objs wt)) < MAXIMUM_WAIT_OBJECTS →
  spare (k + 1) R s → distinct_semaphores (data_of s) (with_objs (tw_objs wt ++ [x]) wt) →
  wp (queue_object w x) (λ _ s', ∃ q l d, queued (w, length (tw_objs wt)) x q l d wt s s' ∧
     let R' := <[HWait (w, length (tw_objs wt)) := x]> R in stable R' s' ∧ spare k R' s') s.
Proof.
  intros Hk Hst Hm Hw He Hlen Hsp Hdis. pose proof (st_inv _ _ Hst) as [Hinv Hset Hroom].
  pose proof (st_locals _ _ Hst) as [Hn0 Hn1]. set (e := (w, length (tw_objs wt))).
  destruct (sync_ptr_live _ _ _ _ Hinv Hm) as (q & o & d & Hp & Ho & Hd).
  pose proof (data_lookup _ _ _ Ho) as Hdq. rewrite Hd in Hdq. pose proof (queue_lookup _ _ _ Ho) as Hlq.
  pose proof (live_refcount _ _ _ _ (iv_counts _ _ Hinv) Ho) as Hr1.
  assert (∀ s', queued e x q (o_wait_queue o) d wt s s' → ∃ q l d, queued e x q l d wt s s' ∧
    let R' := <[HWait e := x]> R in stable R' s' ∧ spare k R' s') as Hfin.
  { intros s' Hqd. pose proof (spare_queued k R s e x q _ d wt s' Hk Hinv He Hdq Hlq Hsp Hqd) as Hsp'.
    exists q, (o_wait_queue o), d. split; [done|]. split; [|done]. split; [split|].
    - eapply inv_queued; [done|done|by eexists|done|done|done|done|done| |done]. pose proof (sp_refs _ _ _ Hsp x). lia.
    - by eapply settled_queued.
    - apply (spare_room (<[HWait e := x]> R)). by eapply spare_mono.
    - split; by rewrite lookup_insert_ne. }
  unfold queue_object. rewrite wp_bind, (wp_wait_of _ _ _ _ Hw). fold e. rewrite wp_bind. unfold object_sync_add_queue.
  rewrite wp_bind. eapply (wp_get_obj_sync _ _ _ _ _ _ 0); [done..|by unfold MAX_LOCALS|]. intros s1 Hinv1.
  set (o1 := with_refcount (o_refcount o + 1) o) in *.
  assert (sv_objs s1 !! q = Some o1) as Ho1 by apply lookup_insert_eq.
  rewrite wp_bind. apply (wp_add_waiter (<[HLocal 0 := q]> R) s1 q o1 d e); [done|done|done| |].
  { destruct (sp_room _ _ _ Hsp q o d Ho Hd). simpl. lia. }
  intros w' Hw' Hwa. simpl in Hwa.
  eapply (wp_release_sync 1 _ q (with_queue (o_wait_queue o1 ++ [e]) o1) d); [apply lookup_insert_eq|done|simpl; lia| |simpl; lia].
  intros _. set (s2 := upd q _ _).
  assert (s2 = upd q (with_queue (o_wait_queue o ++ [e]) o) (on_wfs (λ _, w') s)) as ->.
  { unfold s2, enqueue, upd, set_objs, s1. simpl. rewrite !insert_insert_eq. do 3 f_equal. unfold with_refcount, with_queue, o1. simpl. f_equal. lia. }
  set (s2 := upd q _ _).
  destruct (reference_live _ _ _ _ (iv_counts _ _ Hinv) Hm) as [ox Hox].
  assert (∃ ox', sv_objs s2 !! x = Some ox' ∧ o_refcount ox' = o_refcount ox ∧ o_data ox' = o_data ox ∧
            o_handle_count ox' = o_handle_count ox ∧ (x ≠ q → ox' = ox) ∧ (x = q → ox' = with_queue (o_wait_queue o ++ [e]) o))
    as (ox' & Hox' & Er & Ed & Eh & E1 & E2).
  { unfold s2. simpl. rewrite lookup_insert. case_decide as E.
    - subst x. rewrite Ho in Hox. injection Hox as <-. by eexists.
    - exists ox. by split_and!. }
  unfold grab_object. rewrite !wp_bind, (wp_obj _ _ _ _ Hox'), wp_bind, wp_assert. split.
  { rewrite Er. apply Z.ltb_lt. exact (refcount_small R s x ox Hinv Hox). }
  rewrite wp_set_obj, (wp_update_wait _ wt) by done. apply Hfin. split; simpl.
  - change (data_of (upd x (with_refcount (o_refcount ox' + 1) ox') s2) = data_of s).
    rewrite (data_upd s2 x ox') by done. unfold s2. by rewrite (data_upd (on_wfs (λ _, w') s) q o).
  - change (queue_of (upd x (with_refcount (o_refcount ox' + 1) ox') s2) = <[q := o_wait_queue o ++ [e]]> (queue_of s)).
    rewrite (queue_upd s2 x ox') by done. unfold s2, queue_of. simpl. by rewrite fmap_insert.
  - intros y. change (refcount_of (upd x (with_refcount (o_refcount ox' + 1) ox') s2) y = refcount_of s y + if decide (x = y) then 1 else 0).
    rewrite refcount_upd. unfold s2. rewrite refcount_upd. simpl. case_decide as Exy.
    + subst y. unfold refcount_of. rewrite Hox. simpl. lia.
    + rewrite Z.add_0_r. case_decide; [|done]. subst y. unfold refcount_of. by rewrite Ho.
  - intros y. change (handle_count_of (upd x (with_refcount (o_refcount ox' + 1) ox') s2) y = handle_count_of s y).
    rewrite handle_count_upd. unfold s2. rewrite handle_count_upd. simpl. case_decide as Exy.
    + subst y. unfold handle_count_of. rewrite Hox. done.
    + case_decide; [|done]. subst y. unfold handle_count_of. by rewrite Ho.
  - intros y Hy. eapply insert_live in Hy; [|exact Hox']. by eapply insert_live in Hy.
  - done.
  - done.
  - done.
  - done.
Qed.

(** ** A new wait *)

Definition new_wait (t : Z) (v : thread) (wt : thread_wait) s : server :=
  thread_upd t (with_waits (sv_next_wait s :: t_waits v) v)
    (set_waits (<[sv_next_wait s := wt]> (sv_waits s)) (sv_next_wait s + 1) s).

Lemma next_wait_free R s : inv R s → sv_waits s !! sv_next_wait s = None.
Proof.
  intros Hinv. destruct (sv_waits s !! sv_next_wait s) as [wt|] eqn:E; [|done].
  pose proof (co_next_wait _ _ (iv_counts _ _ Hinv) _ (ex_intro _ wt E)). lia.
Qed.

Lemma stable_new_wait R s t v wt :
  stable R s → sv_threads s !! t = Some v → tw_thread wt = t → tw_objs wt = [] → stable R (new_wait t v wt s).
Proof.
  intros [[Hinv Hset Hroom] Hn] Hv Ht Hobjs. pose proof (next_wait_free _ _ Hinv) as Hfree.
  set (w := sv_next_wait s) in *. set (v' := with_waits (w :: t_waits v) v).
  assert (∀ t0 v0, sv_threads (new_wait t v wt s) !! t0 = Some v0 →
    ∃ v1, sv_threads s !! t0 = Some v1 ∧ t_id v0 = t_id v1 ∧ t_mutex_list v0 = t_mutex_list v1 ∧
      (t_waits v0 = t_waits v1 ∨ t0 = t ∧ t_waits v0 = w :: t_waits v1)) as Hlook.
  { intros t0 v0. simpl. rewrite lookup_insert. case_decide; [|intros; exists v0; by split_and!; try left].
    subst t0. intros [= <-]. exists v. split_and!; [done..|by right]. }
  assert (∀ t0, is_Some (sv_threads s !! t0) → is_Some (sv_threads (new_wait t v wt s) !! t0)) as Hlive.
  { intros t0. simpl. rewrite lookup_insert. by case_decide. }
  split; [split|done].
  - destruct Hinv as [Hwf [C1 C2 C3 C4 C5 C6 C7 C8] Ho Hq [W1 W2 W3] [T1 T2] [M1 M2 M3 M4] Hy].
    split; try done; split; try done.
    + intros w'. simpl. fold w. rewrite lookup_insert. case_decide; [subst; lia|]. intros Hw. specialize (C8 w' Hw). fold w in C8. lia.
    + intros e x He. destruct (W1 e x He) as (wt' & Hw & Hx). exists wt'. split; [|done]. simpl.
      rewrite lookup_insert_ne; [done|]. intros E. fold w in E. rewrite <- E in Hw. congruence.
    + intros w' wt'. simpl. rewrite lookup_insert. case_decide; [intros [= <-]; apply Hlive; by exists v; rewrite Ht|].
      intros Hw. by eapply Hlive, W2.
    + intros t0 v0 H0. destruct (Hlook _ _ H0) as (v1 & H1 & _ & _ & Hl1). destruct (W3 t0 v1 H1) as [Hnd Hl].
      assert (∀ w', w' ∈ t_waits v1 → w' ≠ w) as Hne.
      { intros w' Hin ->. destruct (Hl w Hin) as (wt' & Hw & _). congruence. }
      assert (∀ w', w' ∈ t_waits v1 → ∃ wt', sv_waits (new_wait t v wt s) !! w' = Some wt' ∧ tw_thread wt' = t0) as Hold.
      { intros w' Hin. simpl. rewrite lookup_insert_ne; [by apply Hl|]. by apply not_eq_sym, Hne. }
      destruct Hl1 as [-> | [-> ->]]; [done|]. split.
      * apply list.NoDup_cons. split; [|done]. intros Hin. by apply (Hne w Hin).
      * intros w' [->|Hin]%elem_of_cons; [|by apply Hold]. exists wt. simpl. fold w. by rewrite lookup_insert_eq.
    + intros t0 v0 H0. destruct (Hlook _ _ H0) as (v1 & H1 & -> & _). by eapply T1.
    + intros t0 t1 v0 v1 H0 H1. destruct (Hlook _ _ H0) as (v2 & H2 & -> & _), (Hlook _ _ H1) as (v3 & H3 & -> & _).
      by apply T2.
    + intros t0 v0 p H0. destruct (Hlook _ _ H0) as (v1 & H1 & _ & -> & _). by apply M1.
    + intros t0 v0 H0. destruct (Hlook _ _ H0) as (v1 & H1 & _ & -> & _). by eapply M2.
    + intros p t0 Hp. by eapply Hlive, M4.
  - intros w' wt'. simpl. fold w. rewrite lookup_insert. case_decide as E.
    + intros [= <-] _. subst w'. rewrite Ht, lookup_insert_eq, Hobjs. split_and!; [|done..|].
      * eexists. split; [done|]. by left.
      * intros _ i j x y p c m _ Hi. rewrite Hobjs in Hi. by rewrite lookup_nil in Hi.
    + intros Hw Hx. destruct (Hset w' wt' Hw Hx) as ((v1 & H1 & Hin) & A2). split; [|done].
      rewrite lookup_insert. case_decide; [|by exists v1]. subst t. eexists. split; [done|]. simpl.
      assert (v1 = v) as -> by congruence. by right.
  - done.
Qed.

(** ** The loop *)

(** Waiting for all objects takes no semaphore without a cell twice. *)
Definition distinct_objects (D : gmap Z obj_data) (select : select_opcode) (l : list Z) : Prop :=
  select = SELECT_WAIT_ALL → ∀ i j x y p c m,
    i ≠ j → l !! i = Some x → l !! j = Some y → sync_ptr D x = Some p → sync_ptr D y = Some p →
    D !! p ≠ Some (Sync (SemaphoreSync c m None)).

Lemma queue_objects_ok R s w wt l :
  stable R s → (∀ x, x ∈ l → ∃ m, R !! HLocal m = Some x) → sv_waits s !! w = Some wt → tw_objs wt = [] →
  (∀ i, R !! HWait (w, i) = None) → Z.of_nat (length l) ≤ MAXIMUM_WAIT_OBJECTS →
  spare (Z.of_nat (length l)) R s → distinct_objects (data_of s) (tw_select wt) l →
  wp (for_each l (queue_object w)) (λ _ s', ∃ R', stable R' s' ∧
    (∀ h, (∀ i, h ≠ HWait (w, i)) → R' !! h = R !! h) ∧ sv_threads s' = sv_threads s ∧ rest_of s' = rest_of s) s.
Proof.
  intros Hst Hl Hw Hobjs Hfree Hlen Hsp Hdis. eapply wp_mono.
  { apply (wp_for_each _ _ (λ done s', ∃ R', stable R' s' ∧ (∀ h, (∀ i, h ≠ HWait (w, i)) → R' !! h = R !! h) ∧
      (sv_threads s' = sv_threads s ∧ rest_of s' = rest_of s) ∧ data_of s' = data_of s ∧
      sv_waits s' !! w = Some (with_objs done wt) ∧ (∀ i, (length done ≤ i)%nat → R' !! HWait (w, i) = None) ∧
      spare (Z.of_nat (length l) - Z.of_nat (length done)) R' s')).
    - exists R. split_and!; try done; [|by rewrite Z.sub_0_r]. rewrite Hw. do 2 f_equal. destruct wt. simpl in *. by subst.
    - intros pre x rest s1 El (R1 & Hst1 & Hr1 & (Ht1 & Hrest1) & Hd1 & Hw1 & Hfree1 & Hsp1).
      assert (length l = (length pre + S (length rest))%nat) as Elen by by rewrite El, length_app.
      destruct (Hl x) as [m Hm]; [rewrite El, elem_of_app; right; by left|].
      eapply wp_mono.
      + apply (queue_object_ok (Z.of_nat (length l) - Z.of_nat (length pre) - 1) R1 s1 w (with_objs pre wt) x m);
          [lia|done|by rewrite Hr1|done|by apply Hfree1|simpl; lia|by rewrite Z.sub_add|].
        rewrite Hd1. intros Hsel i j x' y p c mm Hij Hi Hj. simpl in Hi, Hj.
        apply (Hdis Hsel i j x' y p c mm Hij); rewrite El, (cons_middle x), app_assoc; by apply lookup_app_l_Some.
      + intros [] s2 (q & l0 & d & [Q1 Q2 Q3 Q4 Q5 Q6 Q7 Q8 [Q9 Q10]] & Hst2 & Hsp2). simpl in *.
        eexists. split; [exact Hst2|]. split_and!.
        * intros h Hh. rewrite lookup_insert_ne by (apply not_eq_sym, Hh). by apply Hr1.
        * congruence.
        * congruence.
        * congruence.
        * by rewrite Q6, lookup_insert_eq.
        * intros i Hi. rewrite length_app in Hi. simpl in Hi. rewrite lookup_insert_ne; [apply Hfree1; lia|].
          intros [= E]. lia.
        * rewrite length_app. simpl. replace (Z.of_nat (length l) - Z.of_nat (length pre + 1)) with
            (Z.of_nat (length l) - Z.of_nat (length pre) - 1) by lia. done. }
  intros _ s' (R' & Hst' & Hr' & (Ht' & Hrest') & _). by exists R'.
Qed.

Lemma spare_new_wait k R s t v wt : spare k R s → spare k R (new_wait t v wt s).
Proof. by intros [H1 H2]. Qed.

Lemma spare_tame k R s w : spare k R s → tame (sv_wfs s) w → spare k R (on_wfs (λ _, w) s).
Proof.
  intros [H1 H2] Ht. split; [done|]. intros p o d Ho Hd. destruct (H2 p o d Ho Hd).
  pose proof (tame_hold_count _ _ d Ht). simpl. lia.
Qed.

(** [wait_on]: the wait is linked, or nothing has happened. *)
Lemma wait_on_ok R s select l flags when_ :
  stable R s → is_Some (sv_threads s !! sv_current s) → (∀ x, x ∈ l → ∃ m, R !! HLocal m = Some x) →
  Z.of_nat (length l) ≤ MAXIMUM_WAIT_OBJECTS → spare (Z.of_nat (length l)) R s →
  distinct_objects (data_of s) select l →
  wp (wait_on select l flags when_) (λ r s', ∃ R', stable R' s' ∧ follows R s R' s' ∧
    (∀ m, R' !! HLocal m = R !! HLocal m) ∧
    (r = true → ∃ v, sv_threads s' !! sv_current s' = Some v ∧ t_waits v ≠ [])) s.
Proof.
  intros Hst [v Hv] Hl Hlen Hsp Hdis. unfold wait_on. rewrite wp_bind, wp_gets, wp_bind.
  eapply wp_alloc; [done|]. intros b w0 s1 Hst1 Hidx Htame Hdo _. destruct b; cbn [negb].
  2:{ rewrite wp_ret. exists R. split_and!; [done|apply wfs_follows|done|done]. }
  rewrite wp_bind, wp_gets, wp_bind, wp_modify, wp_bind, (wp_update_thread _ v) by done.
  set (wt := ThreadWait _ _ _ _ _ _ _ _).
  change (set_threads _ _) with (new_wait (sv_current s) v wt s1).
  assert (stable R (new_wait (sv_current s) v wt s1)) as Hst2 by by apply stable_new_wait.
  assert (∀ i, R !! HWait (sv_next_wait s1, i) = None) as Hfree.
  { intros i. destruct (R !! HWait _) as [x|] eqn:E; [|done].
    destruct (wa_entry _ _ _ (iv_waits _ _ (si_inv _ _ (st_inv _ _ Hst1))) _ _ E) as (wt' & Hw & _).
    cbn [fst] in Hw. by rewrite (next_wait_free R s1 (si_inv _ _ (st_inv _ _ Hst1))) in Hw. }
  rewrite wp_bind. eapply wp_mono.
  { apply (queue_objects_ok R _ (sv_next_wait s1) wt l Hst2); try done.
    - simpl. by rewrite lookup_insert_eq.
    - apply spare_new_wait. by apply (spare_tame _ _ s). }
  intros [] s3 (R3 & Hst3 & Hr3 & Ht3 & Hrest3). unfold rest_of in Hrest3. injection Hrest3 as _ _ Ecur Eh _ _ _.
  assert (sv_threads s3 !! sv_current s = Some (with_waits (sv_next_wait s1 :: t_waits v) v)) as Hv3.
  { rewrite Ht3. apply lookup_insert_eq. }
  rewrite wp_bind, (wp_thread_of _ _ _ _ Hv3), wp_ret. exists R3. split_and!; [done| |intros m; by apply Hr3|].
  - split; [intros n; by apply Hr3|done|]. intros t0 H0. rewrite Ht3. simpl. rewrite lookup_insert. by case_decide.
  - intros _. rewrite Ecur. simpl. by eexists.
Qed.
End queue.
