(* ===== verification/ServerSelect.v ===== *)
(** * Select

    The select request (src/server/thread.c: [get_objects] of [wait_on_handles],
    [select_check] and [select_on]) and [thread_timeout] keep the invariant between
    requests. *)

From S2P Require Import Prelude.
From S2P Require Import ShmState.
From S2P Require Import WfusyncServer.
From S2P Require Import WfusyncServerOps.
From S2P Require Import WfusyncHistory.
From S2P Require Import WfusyncPending.
From S2P Require Import ServerObjects.
From S2P Require Import ServerObjectsSpec.
From S2P Require Import ServerMutexSpec.
From S2P Require Import ServerInv.
From S2P Require Import ServerRefs.
From S2P Require Import ServerTake.
From S2P Require Import ServerSatisfied.
From S2P Require Import ServerEndWait.
From S2P Require Import ServerWake.
From S2P Require Import ServerSteps.
From S2P Require Import ServerRelease.
From S2P Require Import ServerCreate.
From S2P Require Import ServerHandles.
From S2P Require Import ServerQueue.

Section select.
Context `{PageSize}.
Implicit Types (R : references) (s : server).
Notation keeps_calm := (λ _ s', ∃ R', calm R' s').

(** ** The objects of the handles *)

(** The variables [n], [n + 1], ... hold the objects of [l]. *)
Record holds_from (n : Z) (l : list Z) R R' : Prop := {
  hf_same : ∀ h, (∀ m, n ≤ m → h ≠ HLocal m) → R' !! h = R !! h;
  hf_local : ∀ i x, l !! i = Some x → R' !! HLocal (n + Z.of_nat i) = Some x;
  hf_none : ∀ m, n + Z.of_nat (length l) ≤ m → R' !! HLocal m = None }.

Lemma holds_nil n R : (∀ m, n ≤ m → R !! HLocal m = None) → holds_from n [] R R.
Proof. intros Hn. split; [done|done|]. intros m Hm. apply Hn. simpl in Hm. lia. Qed.
Lemma holds_cons n x l R R' :
  holds_from (n + 1) l (<[HLocal n := x]> R) R' → holds_from n (x :: l) R R'.
Proof.
  intros [H1 H2 H3]. split.
  - intros h Hh. rewrite H1, lookup_insert_ne; [done|by apply not_eq_sym, Hh|]. intros m Hm. apply Hh. lia.
  - intros [|i] y; simpl.
    + intros [= <-]. rewrite H1; [rewrite Z.add_0_r; apply lookup_insert_eq|]. intros m Hm [=]. lia.
    + intros Hi. rewrite <- (H2 i y Hi). do 2 f_equal. lia.
  - intros m. simpl. intros Hm. apply H3. lia.
Qed.

Lemma get_objects_ok handles : ∀ n R s,
  stable R s → (∀ m, n ≤ m → R !! HLocal m = None) → 2 ≤ n → n + Z.of_nat (length handles) ≤ MAX_LOCALS →
  wp (get_objects handles) (λ r s', ∃ R', stable R' s' ∧ holds_from n r.1 R R' ∧ follows R s R' s' ∧
    (length r.1 ≤ length handles)%nat ∧
    (∀ i x, r.1 !! i = Some x → ∃ h access, handles !! i = Some h ∧ sv_handles s !! h = Some (x, access)) ∧
    (r.2 = true → data_of s' = data_of s ∧ ∀ k, spare k R s → spare k R' s')) s.
Proof.
  induction handles as [|h handles IH]; intros n R s Hst Hnone Hn Hlen; cbn [get_objects].
  { rewrite wp_ret. exists R. split_and!; [done|by apply holds_nil|done|done|done|by intros _]. }
  simpl in Hlen. rewrite wp_bind. eapply (wp_get_handle_obj R s h _ _ n); [done|apply Hnone; lia|lia|..].
  - intros s' [Hst' Ha']. rewrite wp_ret. exists R. split_and!; [done|by apply holds_nil|by apply advances_follows|simpl; lia|done|done].
  - intros p o access Hh Ho _ s1 Hst1. set (R1 := <[HLocal n := p]> R) in *.
    rewrite wp_bind. eapply wp_mono; [apply (IH (n + 1) R1 s1)|]; [done| |lia|lia|].
    { intros m Hm. unfold R1. rewrite lookup_insert_ne by (intros [=]; lia). apply Hnone. lia. }
    intros [l ok] s2 (R2 & Hst2 & Hf2 & Hfo2 & Hlen2 & Hobj2 & Hok2). rewrite wp_ret. simpl in *. exists R2. split_and!.
    + done.
    + by apply holds_cons.
    + eapply follows_trans; [|exact Hfo2]. split; [intros m; by apply lookup_insert_ne|done|done].
    + lia.
    + intros [|i] x; simpl; [intros [= <-]; by exists h, access|]. apply Hobj2.
    + intros E. destruct (Hok2 E) as [Hd Hs]. split; [rewrite Hd; by apply (data_upd s p o)|].
      intros k [S1 S2]. apply Hs. split.
      * intros x. unfold R1. rewrite held_insert by (apply Hnone; lia). simpl. rewrite Z.add_0_r. apply S1.
      * intros x o' d. simpl. rewrite lookup_insert. case_decide; [|apply S2]. intros [= <-]. simpl. subst x. by apply (S2 p o d).
Qed.

(** Releasing them, the last one first. *)
Lemma release_objects_ok n l : ∀ R s,
  stable R s → 2 ≤ n → (∀ i x, l !! i = Some x → R !! HLocal (n + Z.of_nat i) = Some x) →
  wp (for_each (rev l) release_object) (λ _ s', ∃ R', stable R' s' ∧ follows R s R' s' ∧
    sv_threads s' = sv_threads s ∧
    ∀ m, R' !! HLocal m = if decide (n ≤ m < n + Z.of_nat (length l)) then None else R !! HLocal m) s.
Proof.
  induction l as [|x l IH] using rev_ind; intros R s Hst Hn Hl.
  { cbn [rev for_each]. rewrite wp_ret. exists R. split_and!; [done|done|done|]. intros m. rewrite decide_False; [done|]. simpl. lia. }
  rewrite rev_unit. cbn [for_each]. rewrite wp_bind.
  assert (R !! HLocal (n + Z.of_nat (length l)) = Some x) as Hx.
  { apply Hl. rewrite lookup_app_r, Nat.sub_diag; done. }
  eapply (wp_release _ _ (n + Z.of_nat (length l))); [done|exact Hx|lia|]. intros R1 s1 Hst1 Hr1.
  assert (∀ m, R1 !! HLocal m = if decide (m = n + Z.of_nat (length l)) then None else R !! HLocal m) as E1.
  { intros m. rewrite (rl_refs _ _ _ _ _ Hr1), lookup_delete by done. repeat case_decide; congruence. }
  eapply wp_mono; [apply (IH R1 s1 Hst1 Hn)|].
  - intros i y Hi. rewrite E1. pose proof (lookup_lt_Some _ _ _ Hi). rewrite decide_False by lia. apply Hl. by apply lookup_app_l_Some.
  - intros [] s2 (R2 & Hst2 & Hf2 & Ht2 & Hm2). exists R2. split_and!.
    + done.
    + eapply follows_trans; [by eapply released_follows|done].
    + rewrite Ht2. pose proof (rl_env _ _ _ _ _ Hr1) as He. unfold env_of in He. by injection He.
    + intros m. rewrite Hm2, E1, length_app. simpl. repeat case_decide; try lia; done.
Qed.

(** ** Waiting on handles *)

(** No two of the handles name a semaphore without a cell, if all are waited for. *)
Definition distinct_handles s (select : select_opcode) (handles : list Z) : Prop :=
  select = SELECT_WAIT_ALL → ∀ i j h h' x y a b p c m,
    i ≠ j → handles !! i = Some h → handles !! j = Some h' →
    sv_handles s !! h = Some (x, a) → sv_handles s !! h' = Some (y, b) →
    sync_ptr (data_of s) x = Some p → sync_ptr (data_of s) y = Some p →
    data_of s !! p ≠ Some (Sync (SemaphoreSync c m None)).

(** The current thread waits for something. *)
Definition waiting s : Prop := ∃ v, sv_threads s !! sv_current s = Some v ∧ t_waits v ≠ [].

Lemma wait_on_handles_ok R s select handles flags when_ :
  calm R s → Z.of_nat (length handles) ≤ MAXIMUM_WAIT_OBJECTS → spare MAXIMUM_WAIT_OBJECTS R s →
  distinct_handles s select handles →
  wp (wait_on_handles select handles flags when_) (λ r s', ∃ R', calm R' s' ∧ (r = true → waiting s')) s.
Proof.
  intros Hcalm Hlen Hsp Hdis. unfold wait_on_handles. rewrite wp_bind, wp_assert. split; [by apply Z.leb_le|].
  rewrite wp_bind. eapply wp_mono.
  { apply (get_objects_ok handles 2 R s); [apply Hcalm|intros m _; apply Hcalm|done|].
    unfold MAXIMUM_WAIT_OBJECTS, MAX_LOCALS in *. lia. }
  intros [l ok] s1 (R1 & Hst1 & Hf1 & Hfo1 & Hlen1 & Hobj1 & Hok1). simpl in *.
  assert (∀ (r : bool) R2 s2, stable R2 s2 → (∀ m, R2 !! HLocal m = R1 !! HLocal m) → follows R s R2 s2 →
    (r = true → waiting s2) →
    wp (_ ← for_each (rev l) release_object; mret r) (λ r s', ∃ R', calm R' s' ∧ (r = true → waiting s')) s2) as Hfin.
  { intros r R2 s2 Hst2 Hl2 Hfo2 Hr. rewrite wp_bind. eapply wp_mono; [apply (release_objects_ok 2 l R2 s2 Hst2)|].
    - done.
    - intros i x Hi. rewrite Hl2. by apply (hf_local _ _ _ _ Hf1).
    - intros [] s3 (R3 & Hst3 & Hfo3 & Ht3 & Hm3). rewrite wp_ret. exists R3. split.
      + eapply calm_follows; [exact Hcalm|by eapply follows_trans|done|]. intros m. rewrite Hm3, Hl2. case_decide; [done|].
        destruct (decide (2 ≤ m)); [apply (hf_none _ _ _ _ Hf1); lia|].
        rewrite (hf_same _ _ _ _ Hf1); [apply Hcalm|]. intros m' Hm' [=]. lia.
      + intros E. destruct (Hr E) as (v & Hv & Hw). exists v. split; [|done].
        by rewrite Ht3, (proj2 (fo_table _ _ _ _ Hfo3)). }
  rewrite wp_bind. destruct ok.
  - destruct (Hok1 eq_refl) as [Hd Hs]. eapply wp_mono.
    + apply (wait_on_ok R1 s1 select l flags when_ Hst1).
      * rewrite (proj2 (fo_table _ _ _ _ Hfo1)). apply (fo_threads _ _ _ _ Hfo1), Hcalm.
      * intros x Hx. apply list_elem_of_lookup in Hx as [i Hi]. eexists. by apply (hf_local _ _ _ _ Hf1 i).
      * lia.
      * eapply spare_mono; [|by apply Hs]. lia.
      * intros Hsel i j x y p c m Hij Hi Hj. rewrite Hd.
        destruct (Hobj1 i x Hi) as (h & a & Hh & Ha), (Hobj1 j y Hj) as (h' & b & Hh' & Hb). by eapply Hdis.
    + intros r s2 (R2 & Hst2 & Hfo2 & Hl2 & Hr). apply (Hfin r R2 s2 Hst2 Hl2); [by eapply follows_trans|done].
  - rewrite wp_ret. by apply (Hfin false R1 s1).
Qed.

(** ** The tail of [select_on] *)

(** The updates of a wait that touch none of its entries. *)
Definition same_entries (wt wt' : thread_wait) : Prop :=
  tw_thread wt' = tw_thread wt ∧ tw_select wt' = tw_select wt ∧ tw_objs wt' = tw_objs wt.

Lemma stable_wait_upd R s w wt wt' :
  stable R s → sv_waits s !! w = Some wt → same_entries wt wt' → stable R (wait_upd w wt' s).
Proof.
  intros [[Hinv Hset Hroom] Hnl] Hw (Et & Es & Eo).
  assert (∀ w1 wt1, sv_waits (wait_upd w wt' s) !! w1 = Some wt1 →
    ∃ wt2, sv_waits s !! w1 = Some wt2 ∧ same_entries wt2 wt1) as Hlook.
  { intros w1 wt1. simpl. rewrite lookup_insert. case_decide; [|intros; by exists wt1].
    subst w1. intros [= <-]. by exists wt. }
  assert (∀ w1 wt1, sv_waits s !! w1 = Some wt1 →
    ∃ wt2, sv_waits (wait_upd w wt' s) !! w1 = Some wt2 ∧ same_entries wt1 wt2) as Hback.
  { intros w1 wt1 H1. simpl. rewrite lookup_insert. case_decide; [|by exists wt1].
    subst w1. assert (wt1 = wt) as -> by congruence. by exists wt'. }
  split; [split|done]; [|..|done].
  - destruct Hinv as [Hwf [C1 C2 C3 C4 C5 C6 C7 C8] Ho Hq [W1 W2 W3] Ht Hm Hy]. split; try done; split; try done.
    + intros w1 [wt1 H1]. apply C8. destruct (Hlook _ _ H1) as (wt2 & H2 & _). by exists wt2.
    + intros e x He. destruct (W1 e x He) as (wt1 & H1 & Hx). destruct (Hback _ _ H1) as (wt2 & H2 & _ & _ & E).
      exists wt2. by rewrite E.
    + intros w1 wt1 H1. destruct (Hlook _ _ H1) as (wt2 & H2 & -> & _). by eapply W2.
    + intros t v Hv. destruct (W3 t v Hv) as [Hnd Hl]. split; [done|]. intros w1 Hin.
      destruct (Hl w1 Hin) as (wt1 & H1 & E1). destruct (Hback _ _ H1) as (wt2 & H2 & E & _). exists wt2. by rewrite E.
  - intros w1 wt1 H1 Hx. destruct (Hlook _ _ H1) as (wt2 & H2 & E1 & E2 & E3).
    specialize (Hset w1 wt2 H2 Hx). unfold distinct_semaphores in *. by rewrite E1, E2, E3.
Qed.

Lemma calm_wait_upd R s w wt wt' :
  calm R s → sv_waits s !! w = Some wt → same_entries wt wt' → calm R (wait_upd w wt' s).
Proof.
  intros Hc Hw He. eapply calm_follows; [exact Hc|done| |apply Hc]. by eapply stable_wait_upd; [apply Hc|..].
Qed.

(** The first wait of a thread that waits. *)
Record first_wait R s (t : Z) v w next wt : Prop := {
  fw_thread : sv_threads s !! t = Some v;
  fw_list : t_waits v = w :: next;
  fw_wait : sv_waits s !! w = Some wt;
  fw_complete : complete R w wt }.

Lemma waiting_first R s t v :
  stable R s → sv_threads s !! t = Some v → t_waits v ≠ [] → ∃ w next wt, first_wait R s t v w next wt.
Proof.
  intros Hst Hv Hne. destruct (st_inv _ _ Hst) as [Hinv Hset _]. destruct (t_waits v) as [|w next] eqn:Hl; [done|].
  destruct (proj2 (wa_list _ _ _ (iv_waits _ _ Hinv) t v Hv) w) as (wt & Hw & Ht); [rewrite Hl; by left|].
  destruct (Hset w wt Hw ltac:(set_solver)) as (_ & Hc & Hlen & _). exists w, next, wt. by split.
Qed.

(** Ending the wait of a thread, and going on with its status. *)
Lemma end_wait_then {A} R s t v w next wt status (m : Z → V A) :
  calm R s → first_wait R s t v w next wt → deliverable (data_of s) wt status →
  (∀ st R' s', calm R' s' → is_Some (sv_threads s' !! t) → wp (m st) keeps_calm s') →
  wp (st ← end_wait t status; m st) keeps_calm s.
Proof.
  intros Hc [Hv Hl Hw Hcm] Hd Hm. rewrite wp_bind. eapply wp_mono.
  { eapply end_wait_ok; [apply Hc|apply Hc|done..]. }
  intros st s' (R' & Hsi & Hnl & Ha & _ & v' & Hv' & _). eapply Hm; [|by exists v'].
  eapply calm_leads; [done|]. split; [by split|done].
Qed.

Lemma calm_error {A} R s e (a : A) : calm R s → wp (_ ← sv_set_error e; mret a) keeps_calm s.
Proof.
  intros Hc. eapply wp_mono; [by apply wp_error_ok; apply Hc|]. intros _ s' (R' & Hl). exists R'. by eapply calm_leads.
Qed.

Lemma select_check_ok R s cookie : calm R s → waiting s → wp (select_check cookie) keeps_calm s.
Proof.
  intros Hc (v & Hv & Hne). destruct (waiting_first R s _ v (ca_stable _ _ Hc) Hv Hne) as (w & next & wt & Hf).
  pose proof Hf as [_ Hl Hw Hcm]. unfold select_check. rewrite wp_bind, wp_gets, wp_bind. set (cur := sv_current s) in *.
  pose proof (si_inv _ _ (st_inv _ _ (ca_stable _ _ Hc))) as Hinv.
  destruct (check_wait_exec R s cur v w next wt) as (r & v' & Er & Hsl & Hdel); [done|apply Hc|done..|].
  eapply wp_of_exec; [exact Er|]. cbv beta. destruct r as [status|].
  - destruct (stable_thread_upd R s cur v v' (ca_stable _ _ Hc) Hv Hsl) as [Hst1 Ha1].
    eapply (end_wait_then R _ cur v' w next wt); [by eapply calm_leads| | |].
    + split; [apply lookup_insert_eq| |done|done]. destruct Hsl as (_ & -> & _). done.
    + by apply Hdel.
    + intros st R' s' Hc' _. by apply (calm_error R').
  - rewrite wp_bind, (wp_thread_of _ _ _ _ Hv), Hl, wp_bind, (wp_wait_of w wt) by done. rewrite wp_bind.
    assert (∀ s1 wt1, calm R s1 → sv_waits s1 !! w = Some wt1 → same_entries wt wt1 →
      wp (_ ← update_wait w (with_cookie cookie); _ ← sv_set_error STATUS_PENDING; mret false) keeps_calm s1) as Hfin.
    { intros s1 wt1 Hc1 Hw1 _. rewrite wp_bind, (wp_update_wait w wt1) by done.
      eapply (calm_error R). by eapply calm_wait_upd. }
    destruct (tw_when wt =? TIMEOUT_INFINITE); [rewrite wp_ret; by eapply Hfin|].
    rewrite wp_bind. eapply wp_alloc; [apply Hc|]. intros b w0 s1 Hst1 Hidx Htame Hdo Herr.
    rewrite wp_bind, (wp_update_wait w wt), wp_ret by done.
    assert (calm R s1) as Hc1 by (eapply calm_follows; [exact Hc|apply wfs_follows|done|apply Hc]).
    assert (calm R (wait_upd w (with_user b wt) s1)) as Hc2 by by eapply calm_wait_upd.
    destruct b; cbn [negb].
    + eapply Hfin; [exact Hc2|apply lookup_insert_eq|done].
    + rewrite wp_bind. unfold get_error. rewrite wp_gets.
      eapply (end_wait_then R _ cur v w next (with_user false wt)); [done| | |].
      * split; [done|done|apply lookup_insert_eq|done].
      * simpl. rewrite Herr by done. apply large_status; [done|]. apply Hcm.
      * intros st R' s' Hc' _. rewrite wp_ret. by exists R'.
Qed.

(** ** The select request and the timeout of a wait *)

(** The select operations that only wait. *)
Definition only_waits s (op : select_op) : Prop :=
  match op with
  | OpNone | OpWait _ => True
  | OpWaitAll handles => distinct_handles s SELECT_WAIT_ALL handles
  | OpSignalAndWait _ _ => False
  end.

Lemma select_on_ok R s op cookie flags when_ :
  calm R s → spare MAXIMUM_WAIT_OBJECTS R s → only_waits s op → wp (select_on op cookie flags when_) keeps_calm s.
Proof.
  intros Hc Hsp Hop.
  assert (∀ r s1, (∃ R', calm R' s1 ∧ (r = true → waiting s1)) →
    wp (if negb r then mret true else select_check cookie) keeps_calm s1) as Htail.
  { intros [] s1 (R1 & Hc1 & Hw); cbn [negb]; [by apply (select_check_ok R1); [|apply Hw]|].
    rewrite wp_ret. by exists R1. }
  assert (∀ select handles, distinct_handles s select handles →
    wp (if MAXIMUM_WAIT_OBJECTS <? Z.of_nat (length handles) then _ ← sv_set_error STATUS_INVALID_PARAMETER; mret true else
        ok ← wait_on_handles select handles flags when_;
        if negb ok then mret true else select_check cookie) keeps_calm s) as Hon.
  { intros select handles Hd. destruct (MAXIMUM_WAIT_OBJECTS <? Z.of_nat (length handles)) eqn:E; [by apply (calm_error R)|].
    apply Z.ltb_ge in E. rewrite wp_bind. eapply wp_mono; [by apply (wait_on_handles_ok R)|].
    intros r s1 H1. by apply Htail. }
  destruct op as [|handles|handles|wait signal]; cbn [select_on].
  - rewrite wp_bind. eapply wp_mono.
    + apply (wait_on_ok R s SELECT_NONE [] flags when_); [apply Hc|apply Hc|by intros x ?%elem_of_nil|done| |done].
      eapply spare_mono; [|exact Hsp]. done.
    + intros r s1 (R1 & Hst1 & Hf1 & Hl1 & Hw1). apply Htail. exists R1. split; [|done].
      eapply calm_follows; [exact Hc|done..|]. intros n. rewrite Hl1. apply Hc.
  - by apply Hon.
  - by apply Hon.
  - done.
Qed.

(** The timeout of a wait that has one, with the cookie that the wait was given. *)
Lemma thread_timeout_ok R s w wt :
  calm R s → sv_waits s !! w = Some wt → tw_cookie wt ≠ 0 → wp (thread_timeout w) keeps_calm s.
Proof.
  intros Hc Hw Hcookie. unfold thread_timeout. rewrite wp_bind, (wp_wait_of w wt) by done. rewrite wp_bind.
  unfold set_wait. rewrite wp_modify. change (set_waits _ _ s) with (wait_upd w (with_user false wt) s).
  set (t := tw_thread wt). set (s1 := wait_upd _ _ s).
  assert (calm R s1) as Hc1 by by eapply calm_wait_upd.
  destruct (wa_thread _ _ _ (iv_waits _ _ (si_inv _ _ (st_inv _ _ (ca_stable _ _ Hc)))) w wt Hw) as [v Hv].
  fold t in Hv. rewrite wp_bind, (wp_thread_of t v) by done. case_bool_decide as Ehead; cbn [negb].
  2:{ rewrite wp_ret. by exists R. }
  destruct (is_thread_suspended v); [rewrite wp_ret; by exists R|].
  destruct (waiting_first R s1 t v (ca_stable _ _ Hc1) Hv) as (w1 & next & wt1 & Hf).
  { intros E. by rewrite E in Ehead. }
  assert (w1 = w) as ->. { rewrite (fw_list _ _ _ _ _ _ _ Hf) in Ehead. by injection Ehead. }
  eapply (end_wait_then R s1 t v w next wt1 STATUS_TIMEOUT); [done|done|apply large_status; [done|apply Hf]|].
  intros st R2 s2 Hc2 [v2 Hv2]. rewrite wp_bind, wp_assert. split; [by apply negb_true_iff, Z.eqb_neq|]. rewrite wp_bind.
  eapply wp_mono; [by apply (send_thread_wakeup_ok R2 s2 t v2); [apply Hc2|]|].
  intros [] s3 (Hl3 & _ & v3 & Hv3 & _). rewrite wp_bind. eapply wp_mono.
  { apply (wake_thread_ok R2 s3 t); [apply Hl3|by exists v3]. }
  intros n s4 (R4 & [Hl4 _ _ _ _]). rewrite wp_ret. exists R4.
  eapply calm_leads; [by eapply calm_leads|]. done.
Qed.
End select.

(** * Waits with a timeout have a cookie

    [thread_timeout] of src/server/thread.c asserts that the wait it ends has a cookie.
    Only [select_on] gives a wait its timeout, and it gives it the cookie as well; no
    other function of the server touches either, so the assertion holds whenever the event
    loop calls [thread_timeout]. *)

(** A wait that can time out has a cookie. *)
Definition wait_armed (wt : thread_wait) : Prop := tw_user wt = true → tw_cookie wt ≠ 0.
Definition armed (s : server) : Prop := map_Forall (λ _ wt, wait_armed wt) (sv_waits s).
Definition keeps_armed (s s' : server) : Prop := armed s → armed s'.

#[export] Instance keeps_armed_preorder : PreOrder keeps_armed.
Proof. split; [by intros s ?|]. intros s1 s2 s3 H1 H2 H. by apply H2, H1. Qed.

Section armed.
Context `{PageSize}.
Implicit Types (s : server).

(** ** Steps *)

Lemma armed_wfu {A} (m : W A) : keeps keeps_armed (wfu m).
Proof. intros s a s'. unfold wfu. destruct (m (sv_wfs s)); [|done..]. by intros [= <- <-] ?. Qed.
Lemma armed_deref {A} (f : server → option A) : keeps keeps_armed (deref f).
Proof. intros s a s'. unfold deref. destruct (f s); [|done]. by intros [= <- <-] ?. Qed.
Lemma armed_modify f : (∀ s, sv_waits (f s) = sv_waits s) → keeps keeps_armed (modify f).
Proof. intros Hf. apply keeps_modify. intros s Ha. unfold armed. by rewrite Hf. Qed.
Lemma armed_update w f : (∀ wt, wait_armed wt → wait_armed (f wt)) → keeps keeps_armed (update_wait w f).
Proof.
  intros Hf s a s' E Ha. unfold update_wait, mbind, M_bind, wait_of, deref in E.
  destruct (sv_waits s !! w) as [wt|] eqn:Hw; [|done]. unfold set_wait, modify in E. injection E as <- <-.
  apply map_Forall_insert_2; [|done]. apply Hf. by apply (Ha w wt).
Qed.

Lemma armed_set_wait (w : Z) (wt : thread_wait) :
  wait_armed wt → keeps keeps_armed (set_wait w wt).
Proof. intros Hw. apply keeps_modify. intros s Ha. by apply map_Forall_insert_2. Qed.

Create HintDb armed.
Hint Extern 1 (∀ s, sv_waits _ = sv_waits s) => (intros ?; reflexivity) : armed.
Hint Resolve armed_wfu armed_deref armed_modify : armed.
Ltac armed_tac := keeps_tac ltac:(progress (auto with armed)).

Lemma armed_set_error e : keeps keeps_armed (sv_set_error e).
Proof. apply armed_wfu. Qed.
Lemma armed_set_obj p o : keeps keeps_armed (set_obj p o).
Proof. by apply armed_modify. Qed.
Lemma armed_set_thread t v : keeps keeps_armed (set_thread t v).
Proof. by apply armed_modify. Qed.
Lemma armed_obj p : keeps keeps_armed (obj p). Proof. apply armed_deref. Qed.
Lemma armed_thread_of t : keeps keeps_armed (thread_of t). Proof. apply armed_deref. Qed.
Lemma armed_wait_of w : keeps keeps_armed (wait_of w). Proof. apply armed_deref. Qed.
Hint Resolve armed_set_error armed_set_obj armed_set_thread armed_obj armed_thread_of armed_wait_of : armed.

Lemma armed_update_obj p f : keeps keeps_armed (update_obj p f).
Proof. unfold update_obj. armed_tac. Qed.
Lemma armed_update_thread t f : keeps keeps_armed (update_thread t f).
Proof. unfold update_thread. armed_tac. Qed.
Lemma armed_free_object p : keeps keeps_armed (free_object p).
Proof. by apply armed_modify. Qed.
Lemma armed_abandoned e : keeps keeps_armed (make_wait_abandoned e).
Proof. by apply armed_update. Qed.
Hint Resolve armed_update_obj armed_update_thread armed_free_object armed_abandoned : armed.

(** ** Objects *)

Lemma armed_grab p : keeps keeps_armed (grab_object p).
Proof. unfold grab_object. armed_tac. Qed.
Lemma armed_sync_of p : keeps keeps_armed (sync_of p).
Proof. unfold sync_of. armed_tac. Qed.
Lemma armed_release p : keeps keeps_armed (release_object p).
Proof.
  unfold release_object. assert (∀ n q, keeps keeps_armed (release_levels n q)) as Hl; [|apply Hl].
  induction n as [|n IH]; intros q; cbn [release_levels]; [apply keeps_no_fuel|].
  unfold event_sync_destroy, semaphore_sync_destroy, mutex_sync_destroy. armed_tac.
Qed.
Hint Resolve armed_grab armed_sync_of armed_release : armed.
Lemma armed_get_obj_sync p : keeps keeps_armed (get_obj_sync p).
Proof. unfold get_obj_sync. armed_tac. Qed.
Lemma armed_get_handle_obj h a ok : keeps keeps_armed (get_handle_obj h a ok).
Proof. unfold get_handle_obj. armed_tac. Qed.
Lemma armed_entry_thread e : keeps keeps_armed (get_wait_queue_thread e).
Proof. unfold get_wait_queue_thread. armed_tac. Qed.
Lemma armed_do_grab p t : keeps keeps_armed (do_grab p t).
Proof. unfold do_grab. armed_tac. Qed.
Hint Resolve armed_get_obj_sync armed_get_handle_obj armed_entry_thread armed_do_grab : armed.
Lemma armed_entry_thread_id e : keeps keeps_armed (entry_thread_id e).
Proof. unfold entry_thread_id. armed_tac. Qed.
Hint Resolve armed_entry_thread_id : armed.

Lemma armed_satisfied p e : keeps keeps_armed (object_sync_satisfied p e).
Proof.
  unfold object_sync_satisfied, sync_satisfied, event_sync_satisfied, semaphore_sync_satisfied, mutex_sync_satisfied.
  armed_tac.
Qed.
Lemma armed_signaled p e : keeps keeps_armed (object_sync_signaled p e).
Proof. unfold object_sync_signaled, sync_signaled. armed_tac. Qed.
Lemma armed_remove_queue p e : keeps keeps_armed (object_sync_remove_queue p e).
Proof. unfold object_sync_remove_queue, sync_remove_queue, remove_queue. armed_tac. Qed.
Lemma armed_add_queue p e : keeps keeps_armed (object_sync_add_queue p e).
Proof. unfold object_sync_add_queue, sync_add_queue, add_queue. armed_tac. Qed.
Hint Resolve armed_satisfied armed_signaled armed_remove_queue armed_add_queue : armed.

(** ** Waits *)

Lemma armed_check_wait t : keeps keeps_armed (check_wait t).
Proof.
  assert (∀ l, keeps keeps_armed (all_signaled l)) as Hall.
  { induction l as [|e l IH]; cbn [all_signaled]; armed_tac. }
  assert (∀ l, keeps keeps_armed (first_signaled l)) as Hfirst by (intros l; unfold first_signaled; armed_tac).
  unfold check_wait, check_objects. armed_tac.
Qed.
Lemma armed_delete w : keeps keeps_armed (modify (λ s, set_waits (delete w (sv_waits s)) (sv_next_wait s) s)).
Proof. apply keeps_modify. intros s Ha. by apply map_Forall_delete. Qed.
Hint Resolve armed_check_wait armed_delete : armed.
Lemma armed_end_wait t status : keeps keeps_armed (end_wait t status).
Proof. unfold end_wait. armed_tac. Qed.
Lemma armed_wakeup t cookie signaled : keeps keeps_armed (send_thread_wakeup t cookie signaled).
Proof. unfold send_thread_wakeup. armed_tac. Qed.
Hint Resolve armed_end_wait armed_wakeup : armed.
Lemma armed_wake_thread t : keeps keeps_armed (wake_thread t).
Proof.
  assert (∀ n c, keeps keeps_armed (wake_thread_loop n t c)) as Hl.
  { induction n as [|n IH]; intros c; cbn [wake_thread_loop]; armed_tac. }
  unfold wake_thread. armed_tac.
Qed.
Hint Resolve armed_wake_thread : armed.
Lemma armed_wake_up p max : keeps keeps_armed (wake_up p max).
Proof.
  assert (∀ l, keeps keeps_armed (wake_first l)) as Hf by (induction l as [|e l IH]; cbn [wake_first]; armed_tac).
  assert (∀ n m, keeps keeps_armed (wake_up_loop n p m)) as Hl.
  { induction n as [|n IH]; intros m; cbn [wake_up_loop]; armed_tac. }
  unfold wake_up. armed_tac.
Qed.
Hint Resolve armed_wake_up : armed.
Lemma armed_thread_timeout w : keeps keeps_armed (thread_timeout w).
Proof.
  unfold thread_timeout. apply keeps_bind; [apply _|armed_tac|]. intros wt.
  apply keeps_bind; [apply _|by apply armed_set_wait|]. intros _. armed_tac.
Qed.

Lemma armed_wait_on select l flags when_ : keeps keeps_armed (wait_on select l flags when_).
Proof.
  unfold wait_on. armed_tac.
  - apply keeps_modify. intros s Ha. by apply map_Forall_insert_2.
  - unfold queue_object. armed_tac. by apply armed_update.
Qed.
Hint Resolve armed_wait_on : armed.
Lemma armed_wait_on_handles select l flags when_ : keeps keeps_armed (wait_on_handles select l flags when_).
Proof.
  assert (∀ hs, keeps keeps_armed (get_objects hs)) as Hg by (induction hs as [|h hs IH]; cbn [get_objects]; armed_tac).
  unfold wait_on_handles. armed_tac.
Qed.
Hint Resolve armed_wait_on_handles : armed.

(** The tail of [select_on] sets the cookie of the wait that it has given a timeout. *)
Lemma armed_arm w cookie (m0 m : V bool) :
  cookie ≠ 0 → keeps keeps_armed m0 → keeps keeps_armed m →
  keeps keeps_armed (armed ← (ok ← m0; _ ← update_wait w (with_user ok); mret ok);
    if negb armed then m else _ ← update_wait w (with_cookie cookie); _ ← sv_set_error STATUS_PENDING; mret false).
Proof.
  intros Hc Hm0 Hm s a s' E Ha. unfold mbind, M_bind in E. destruct (m0 s) as [ok s1| | |] eqn:E0; try done.
  apply (Hm0 _ _ _ E0) in Ha. unfold update_wait, mbind, M_bind, wait_of, deref in E.
  destruct (sv_waits s1 !! w) as [wt|] eqn:Hw; [|done]. unfold set_wait, modify in E.
  destruct ok; simpl in E.
  - rewrite lookup_insert_eq in E. injection E as <- <-. unfold armed. simpl.
    rewrite insert_insert_eq. apply map_Forall_insert_2; [|done]. by intros _.
  - eapply Hm; [exact E|]. by apply map_Forall_insert_2.
Qed.
Lemma armed_select_check cookie : cookie ≠ 0 → keeps keeps_armed (select_check cookie).
Proof.
  intros Hc. assert (∀ w, keeps keeps_armed (_ ← update_wait w (with_cookie cookie); _ ← sv_set_error STATUS_PENDING; mret false)) as Hset.
  { intros w. apply keeps_bind; [apply _|by apply armed_update; intros ? _ _|]. intros _. armed_tac. }
  assert (∀ cur, keeps keeps_armed (e ← get_error; _ ← end_wait cur e; mret true)) as Hfail.
  { intros cur. unfold get_error. armed_tac. }
  assert (∀ cur w when_, keeps keeps_armed (armed ← (if when_ =? TIMEOUT_INFINITE then mret true else
      ok ← wfu mem_alloc_ok; _ ← update_wait w (with_user ok); mret ok);
    if negb armed then e ← get_error; _ ← end_wait cur e; mret true else
    _ ← update_wait w (with_cookie cookie); _ ← sv_set_error STATUS_PENDING; mret false)) as Harm.
  { intros cur w when_. destruct (when_ =? _); [apply Hset|]. apply armed_arm; [done|apply armed_wfu|apply Hfail]. }
  unfold select_check. apply keeps_bind; [apply _|armed_tac|]. intros cur.
  apply keeps_bind; [apply _|armed_tac|]. intros [status|]; [armed_tac|].
  apply keeps_bind; [apply _|armed_tac|]. intros v. destruct (t_waits v) as [|w l]; [armed_tac|].
  apply keeps_bind; [apply _|armed_tac|]. intros wt. apply Harm.
Qed.

(** ** Requests *)

Lemma armed_select_on op cookie flags when_ :
  cookie ≠ 0 → (∀ wait signal, op ≠ OpSignalAndWait wait signal) → keeps keeps_armed (select_on op cookie flags when_).
Proof.
  intros Hc Hop. pose proof (armed_select_check cookie Hc) as Hs. destruct op; cbn [select_on].
  1-3: armed_tac. by edestruct Hop.
Qed.

Lemma armed_event_signal p b : keeps keeps_armed (event_sync_signal p b).
Proof. unfold event_sync_signal. armed_tac. Qed.
Lemma armed_do_release p t n : keeps keeps_armed (do_release p t n).
Proof. unfold do_release. armed_tac. Qed.
Lemma armed_wake_registered q : keeps keeps_armed (wake_registered q).
Proof. unfold wake_registered. armed_tac. Qed.
Hint Resolve armed_event_signal armed_do_release armed_wake_registered : armed.
Lemma armed_release_semaphore p n : keeps keeps_armed (release_semaphore p n).
Proof. unfold release_semaphore. armed_tac. Qed.
Lemma armed_alloc_object d : keeps keeps_armed (alloc_object d).
Proof. unfold alloc_object. armed_tac. Qed.
Lemma armed_create_cell b x y z : keeps keeps_armed (create_cell b x y z).
Proof. unfold create_cell, clear_error. armed_tac. Qed.
Lemma armed_set_sync p d : keeps keeps_armed (set_sync p d).
Proof. unfold set_sync. armed_tac. Qed.
Lemma armed_sync_ptr p : keeps keeps_armed (obj_sync_ptr p).
Proof. unfold obj_sync_ptr. armed_tac. Qed.
Lemma armed_cell_state ws : keeps keeps_armed (cell_event_state ws).
Proof. unfold cell_event_state. armed_tac. Qed.
Hint Resolve armed_release_semaphore armed_alloc_object armed_create_cell armed_set_sync armed_sync_ptr armed_cell_state : armed.

Lemma armed_create_handle cs wrap h a :
  keeps keeps_armed cs → keeps keeps_armed (create_obj_handle (create_object cs wrap) h a).
Proof.
  intros Hcs. unfold create_obj_handle, create_object, alloc_handle_no_access_check, grow_handle_table.
  armed_tac.
Qed.
Lemma armed_create_event h a b c : keeps keeps_armed (req_create_event h a b c).
Proof. apply armed_create_handle. unfold event_init, create_event_sync. armed_tac. Qed.
Lemma armed_create_semaphore h a b c : keeps keeps_armed (req_create_semaphore h a b c).
Proof.
  unfold req_create_semaphore. armed_tac. apply armed_create_handle. unfold semaphore_init, create_semaphore_sync. armed_tac.
Qed.
Lemma armed_create_mutex h a b : keeps keeps_armed (req_create_mutex h a b).
Proof. apply armed_create_handle. unfold mutex_init, create_mutex_sync. armed_tac. Qed.
Lemma armed_close h : keeps keeps_armed (req_close_handle h).
Proof. unfold req_close_handle, close_handle, release_object_from_handle. armed_tac. Qed.
Lemma armed_event_op h op : keeps keeps_armed (req_event_op h op).
Proof. unfold req_event_op, set_event, reset_event. armed_tac. Qed.
Lemma armed_query_event h : keeps keeps_armed (req_query_event h).
Proof. unfold req_query_event. armed_tac. Qed.
Lemma armed_release_sem h n : keeps keeps_armed (req_release_semaphore h n).
Proof. unfold req_release_semaphore. armed_tac. Qed.
Lemma armed_query_semaphore h : keeps keeps_armed (req_query_semaphore h).
Proof. unfold req_query_semaphore. armed_tac. Qed.
Lemma armed_release_mutex h : keeps keeps_armed (req_release_mutex h).
Proof. unfold req_release_mutex. armed_tac. Qed.
Lemma armed_query_mutex h : keeps keeps_armed (req_query_mutex h).
Proof. unfold req_query_mutex. armed_tac. Qed.
End armed.
#[export] Hint Resolve armed_create_event armed_create_semaphore armed_create_mutex armed_close armed_event_op
  armed_query_event armed_release_sem armed_query_semaphore armed_release_mutex armed_query_mutex : armed.
