(* ===== verification/ServerLoop.v ===== *)
(** * The server's loop

    What reaches the server one after the other: requests (src/server/request.c), expired
    timeouts (src/server/fd.c), the passing of time, and what clients write to the shared
    memory in between. *)

From S2P Require Import Prelude.
From S2P Require Import ShmState.
From S2P Require Import WfusyncServer.
From S2P Require Import WfusyncRegistry.
From S2P Require Import WfusyncServerInv.
From S2P Require Import WfusyncHistory.
From S2P Require Import WfusyncPending.
From S2P Require Import WfusyncServerSpec.
From S2P Require Import ServerObjects.
From S2P Require Import ServerObjectsSpec.
From S2P Require Import ServerMutexSpec.
From S2P Require Import ServerInv.
From S2P Require Import ServerRefs.
From S2P Require Import ServerTake.
From S2P Require Import ServerEndWait.
From S2P Require Import ServerWake.
From S2P Require Import ServerSteps.
From S2P Require Import ServerCreate.
From S2P Require Import ServerHandles.
From S2P Require Import ServerQueue.
From S2P Require Import ServerSelect.

(** ** Requests and events *)

Inductive request :=
| CreateEvent (handle access : Z) (manual initial : bool)
| EventOp (handle : Z) (op : event_operation)
| QueryEvent (handle : Z)
| CreateSemaphore (handle access initial max : Z)
| ReleaseSemaphore (handle count : Z)
| QuerySemaphore (handle : Z)
| CreateMutex (handle access : Z) (owned : bool)
| ReleaseMutex (handle : Z)
| QueryMutex (handle : Z)
| CloseHandle (handle : Z)
| Select (op : select_op) (cookie : Z) (flags : select_flags) (when_ : Z)
| GetWfusyncWaitSlot
| RegisterWfusyncWait (slot_idx size : Z) (data : list Z)
| UnregisterWfusyncWait (slot_idx : Z)
| WakeWfusyncWaiters (shm_idx : Z).

Inductive event_source :=
| Request (t : Z) (r : request)
| Expire (w : Z)
| Tick (current_time monotonic_time : Z)
| Clients (m : shm).

Definition set_current (t : Z) (s : server) : server :=
  Server (sv_wfs s) (sv_objs s) (sv_next_obj s) (sv_waits s) (sv_next_wait s) (sv_threads s)
    (sv_wfusync_mutexes s) t (sv_handles s) (sv_current_time s) (sv_monotonic_time s) (sv_sent s).
Definition set_current_time (now mono : Z) (s : server) : server :=
  Server (sv_wfs s) (sv_objs s) (sv_next_obj s) (sv_waits s) (sv_next_wait s) (sv_threads s)
    (sv_wfusync_mutexes s) (sv_current s) (sv_handles s) now mono (sv_sent s).

Section loop.
Context `{PageSize}.

(** The select request without contexts and without the result of an APC. *)
Definition req_select (op : select_op) (cookie : Z) (flags : select_flags) (when_ : Z) : V unit :=
  if cookie =? 0 then sv_set_error STATUS_INVALID_PARAMETER
  else _ ← select_on op cookie flags when_; mret tt.

Definition req_handler (r : request) : V unit :=
  match r with
  | CreateEvent handle access manual initial => _ ← req_create_event handle access manual initial; mret tt
  | EventOp handle op => _ ← req_event_op handle op; mret tt
  | QueryEvent handle => _ ← req_query_event handle; mret tt
  | CreateSemaphore handle access initial max => _ ← req_create_semaphore handle access initial max; mret tt
  | ReleaseSemaphore handle count => _ ← req_release_semaphore handle count; mret tt
  | QuerySemaphore handle => _ ← req_query_semaphore handle; mret tt
  | CreateMutex handle access owned => _ ← req_create_mutex handle access owned; mret tt
  | ReleaseMutex handle => _ ← req_release_mutex handle; mret tt
  | QueryMutex handle => _ ← req_query_mutex handle; mret tt
  | CloseHandle handle => req_close_handle handle
  | Select op cookie flags when_ => req_select op cookie flags when_
  | GetWfusyncWaitSlot => _ ← wfu req_get_wfusync_wait_slot; mret tt
  | RegisterWfusyncWait slot_idx size data => wfu (req_register_wfusync_wait slot_idx size data)
  | UnregisterWfusyncWait slot_idx => wfu (req_unregister_wfusync_wait slot_idx)
  | WakeWfusyncWaiters shm_idx => wfu (req_wake_wfusync_waiters shm_idx)
  end.

(** The error of the reply. *)
Definition call_req_handler (t : Z) (r : request) : V Z :=
  _ ← modify (set_current t); _ ← clear_error; _ ← req_handler r; get_error.

Definition serve (e : event_source) : V unit :=
  match e with
  | Request t r => _ ← call_req_handler t r; mret tt
  | Expire w => thread_timeout w
  | Tick now mono => modify (set_current_time now mono)
  | Clients m => modify (on_wfs (set_shm m))
  end.

(** ** What may reach the server *)

(** There is room for another 64 references to every object, 64 more entries in every
    queue and 64 more acquisitions of every mutex: the counters are 32 bits wide. *)
Definition roomy_object (w : wfs) (o : object) : Prop :=
  o_refcount o + MAXIMUM_WAIT_OBJECTS + 2 * MAX_LOCALS ≤ INT_MAX ∧
  match o_data o with
  | Sync d => Z.of_nat (length (o_wait_queue o)) + MAXIMUM_WAIT_OBJECTS ≤ INT_MAX ∧
      hold_count w d + Z.of_nat (length (o_wait_queue o)) + MAXIMUM_WAIT_OBJECTS ≤ INT_MAX
  | _ => True
  end.
Definition headroom (s : server) : Prop := map_Forall (λ _ o, roomy_object (sv_wfs s) o) (sv_objs s).
#[export] Instance roomy_object_dec w o : Decision (roomy_object w o).
Proof. unfold roomy_object. destruct (o_data o); apply _. Defined.
#[export] Instance headroom_dec s : Decision (headroom s).
Proof. apply _. Defined.

(** The semaphores without a cell that the handles name. *)
Definition plain_semaphore (s : server) (handle : Z) : option Z :=
  '(x, _) ← sv_handles s !! handle; p ← sync_ptr (data_of s) x;
  match data_of s !! p with Some (Sync (SemaphoreSync _ _ None)) => Some p | _ => None end.

(** A free handle for a new object, and an index for its cell. *)
Definition can_create (s : server) (handle : Z) : Prop :=
  sv_handles s !! handle = None ∧ w_next_shm_idx (sv_wfs s) + 1 < 2 ^ 31.

Definition request_allowed (s : server) (r : request) : Prop :=
  match r with
  | CreateEvent handle _ _ _ | CreateMutex handle _ _ => can_create s handle
  | CreateSemaphore handle _ initial max => can_create s handle ∧ 0 ≤ initial ∧ max ≤ INT_MAX
  | ReleaseSemaphore _ count => 0 ≤ count < 2 ^ 32
  | Select op _ _ _ => headroom s ∧
      match op with
      | OpWaitAll handles => NoDup (omap (plain_semaphore s) handles)
      | OpSignalAndWait _ _ => False
      | _ => True
      end
  | GetWfusyncWaitSlot => op_pre (sv_wfs s) OpGetSlot
  | RegisterWfusyncWait slot_idx _ data => op_pre (sv_wfs s) (OpRegister slot_idx data)
  | UnregisterWfusyncWait slot_idx => slot_ok (sv_wfs s) slot_idx
  | _ => True
  end.

(** Only waits that have a timeout expire. Clients write to the cells of objects, no more
    than those operations do that the invariant of the shared memory allows. *)
Definition allowed (s : server) (e : event_source) : Prop :=
  match e with
  | Request t r => is_Some (sv_threads s !! t) ∧ request_allowed s r
  | Expire w => ∃ wt, sv_waits s !! w = Some wt ∧ tw_user wt = true
  | Tick _ _ => True
  | Clients m =>
      let w' := set_shm m (sv_wfs s) in
      server_wf w' ∧ room ∅ (on_wfs (λ _, w') s) ∧
      ∀ q v, w_syncs (sv_wfs s) !! q = Some v →
        type_of (cell_idx w' (ws_shm_idx v)) = type_of (cell_idx (sv_wfs s) (ws_shm_idx v))
  end.

Fixpoint all_allowed (s : server) (es : list event_source) : Prop :=
  match es with
  | [] => True
  | e :: es => allowed s e ∧ match serve e s with Done _ s' => all_allowed s' es | _ => True end
  end.

(** ** Every event is served *)

Implicit Types (R : references) (s : server).
Notation keeps_calm := (λ _ s', ∃ R', calm R' s').

Definition serving s : Prop := (∃ R, calm R s) ∧ armed s.

Lemma headroom_spare R s : calm R s → headroom s → spare MAXIMUM_WAIT_OBJECTS R s.
Proof.
  intros Hc Hh. pose proof (iv_counts _ _ (si_inv _ _ (st_inv _ _ (ca_stable _ _ Hc)))) as Hco. split.
  - intros x. pose proof (held_le is_lasting any_holder R x ltac:(done)) as Hl. fold (refs R x) in Hl. rewrite (co_refs _ _ Hco) in Hl. unfold refcount_of in Hl.
    destruct (sv_objs s !! x) as [o|] eqn:Ho; simpl in Hl.
    + destruct (Hh x o Ho) as [Hr _]. lia.
    + unfold MAXIMUM_WAIT_OBJECTS, MAX_LOCALS, INT_MAX in *. lia.
  - intros p o d Ho Hd. destruct (Hh p o Ho) as [_ Hr]. by rewrite Hd in Hr.
Qed.

Lemma omap_injective {A B} (f : A → option B) (l : list A) i j a b x :
  NoDup (omap f l) → l !! i = Some a → l !! j = Some b → f a = Some x → f b = Some x → i = j.
Proof.
  revert i j. induction l as [|y l IH]; [done|]. intros [|i] [|j]; simpl; intros Hnd Hi Hj Ha Hb.
  - done.
  - injection Hi as ->. rewrite Ha in Hnd. apply list.NoDup_cons in Hnd as [Hnd _]. destruct Hnd.
    apply list_elem_of_omap. exists b. split; [by eapply list_elem_of_lookup_2|done].
  - injection Hj as ->. rewrite Hb in Hnd. apply list.NoDup_cons in Hnd as [Hnd _]. destruct Hnd.
    apply list_elem_of_omap. exists a. split; [by eapply list_elem_of_lookup_2|done].
  - f_equal. apply IH; try done. by destruct (f y); [apply list.NoDup_cons in Hnd as [_ ?]|].
Qed.

Lemma distinct_semaphore_handles s select handles :
  NoDup (omap (plain_semaphore s) handles) → distinct_handles s select handles.
Proof.
  intros Hnd _ i j h h' x y a b p c m Hij Hi Hj Hh Hh' Hx Hy Hd. apply Hij.
  apply (omap_injective (plain_semaphore s) handles i j h h' p); try done;
    unfold plain_semaphore; rewrite ?Hh, ?Hh'; simpl; rewrite ?Hx, ?Hy; simpl; by rewrite Hd.
Qed.

Lemma calm_set_current R s t : calm R s → is_Some (sv_threads s !! t) → calm R (set_current t s).
Proof.
  intros [[[[Hwf [] Ho Hq Hwa Ht Hm Hy] Hs Hr] Hn] Hl Htab Hcur] Hth. split; [|done..]. by split.
Qed.
Lemma calm_set_time R s now mono : calm R s → calm R (set_current_time now mono s).
Proof.
  intros [[[[Hwf [] Ho Hq Hwa Ht Hm Hy] Hs Hr] Hn] Hl Htab Hcur]. split; [|done..]. by split.
Qed.
Lemma calm_memory R s w' :
  calm R s → server_wf w' →
  (∀ q v, w_syncs (sv_wfs s) !! q = Some v → w_syncs w' !! q = Some v ∧
     type_of (cell_idx w' (ws_shm_idx v)) = type_of (cell_idx (sv_wfs s) (ws_shm_idx v))) →
  room ∅ (on_wfs (λ _, w') s) → calm R (on_wfs (λ _, w') s).
Proof.
  intros [Hst Hl Htab Hcur] Hwf Hk Hr. split; [|done..]. apply (stable_memory None); [done|by apply wf_but_none|done..].
Qed.

(** Requests that only concern the waiters that clients register. *)
Lemma calm_objects R s w' : calm R s → server_wf w' → objects_keep (sv_wfs s) w' → calm R (on_wfs (λ _, w') s).
Proof.
  intros Hc Hwf [E Hk]. assert (tame (sv_wfs s) w') as Ht.
  { split; [done|]. intros q v Hq. destruct (Hk q v Hq) as (? & ? & ?). split; [done|lia]. }
  eapply calm_leads; [done|]. apply (stable_wfs None); [apply Hc|by apply wf_but_none|done].
Qed.
Lemma objects_error w w1 e :
  server_wf w1 ∧ objects_keep w w1 → wp (set_error e) (λ _ w', server_wf w' ∧ objects_keep w w') w1.
Proof. intros [[Hok Hv] Hk]. split; [|done]. split; [by apply server_ok_err|done]. Qed.
Lemma objects_refl w : server_wf w → server_wf w ∧ objects_keep w w.
Proof. by split. Qed.
Ltac objects_done := apply objects_error; cbv beta in *; first [eassumption | by apply objects_refl].

Lemma wfusync_request_ok w r :
  server_wf w →
  match r with
  | GetWfusyncWaitSlot => op_pre w OpGetSlot →
      wp req_get_wfusync_wait_slot (λ _ w', server_wf w' ∧ objects_keep w w') w
  | RegisterWfusyncWait slot_idx size data => op_pre w (OpRegister slot_idx data) →
      wp (req_register_wfusync_wait slot_idx size data) (λ _ w', server_wf w' ∧ objects_keep w w') w
  | UnregisterWfusyncWait slot_idx => slot_ok w slot_idx →
      wp (req_unregister_wfusync_wait slot_idx) (λ _ w', server_wf w' ∧ objects_keep w w') w
  | WakeWfusyncWaiters idx =>
      wp (req_wake_wfusync_waiters idx) (λ _ w', server_wf w' ∧ objects_keep w w') w
  | _ => True
  end.
Proof.
  intros Hwf. destruct r; try done; try intros Hpre.
  - unfold req_get_wfusync_wait_slot. rewrite wp_bind, wp_gets. destruct (w_do_wfusync w); simpl.
    + rewrite wp_bind. eapply wp_mono; [by apply get_slot_objects|]. intros idx w1 H1.
      rewrite wp_bind, wp_when. destruct (idx =? 0); [|by rewrite wp_ret].
      eapply wp_mono. { objects_done. } intros ? w2 ?. by rewrite wp_ret.
    + rewrite wp_bind. eapply wp_mono; [objects_done|]. intros ? w2 ?. by rewrite wp_ret.
  - unfold req_register_wfusync_wait. rewrite wp_bind, wp_gets. destruct (_ || _); [objects_done|].
    rewrite wp_bind. eapply wp_mono; [by apply register_objects|]. intros ok w1 H1.
    rewrite wp_when. destruct ok; [done|objects_done].
  - unfold req_unregister_wfusync_wait. rewrite wp_bind, wp_gets. destruct (negb _); [objects_done|].
    by apply unregister_objects.
  - unfold req_wake_wfusync_waiters. rewrite wp_bind, wp_gets. destruct (negb _); [objects_done|].
    rewrite wp_bind. eapply wp_mono; [by apply wake_waiters_objects|]. intros ok w1 H1.
    rewrite wp_when. destruct ok; [done|objects_done].
Qed.

Lemma calm_wf R s : calm R s → server_wf (sv_wfs s).
Proof. intros Hc. apply wf_but_none. apply (iv_wf _ _ (si_inv _ _ (st_inv _ _ (ca_stable _ _ Hc)))). Qed.

Lemma wfu_objects {A} R s (m : W A) :
  calm R s → wp m (λ _ w', server_wf w' ∧ objects_keep (sv_wfs s) w') (sv_wfs s) → wp (wfu m) keeps_calm s.
Proof.
  intros Hc Hm. rewrite wp_wfu. eapply wp_mono; [exact Hm|]. intros a w1 [Hwf Ho]. exists R. by apply calm_objects.
Qed.

Lemma wfu_error R s e : calm R s → wp (wfu (set_error e)) keeps_calm s.
Proof. intros Hc. apply (wfu_objects R); [done|]. apply objects_error, objects_refl. by apply (calm_wf R). Qed.

Lemma calm_then {A B} (m : V A) (k : A → V B) s :
  wp m keeps_calm s → (∀ a R s', calm R s' → wp (k a) keeps_calm s') → wp (a ← m; k a) keeps_calm s.
Proof. intros Hm Hk. rewrite wp_bind. eapply wp_mono; [exact Hm|]. intros a s' [R' Hc]. by eapply Hk. Qed.
Lemma calm_drop {A} (m : V A) s : wp m keeps_calm s → wp (_ ← m; mret tt) keeps_calm s.
Proof. intros Hm. apply calm_then; [done|]. intros _ R s' Hc. rewrite wp_ret. by exists R. Qed.

Lemma req_handler_ok R s r : calm R s → request_allowed s r → wp (req_handler r) keeps_calm s.
Proof.
  intros Hc Hr. pose proof (wfusync_request_ok (sv_wfs s) r (calm_wf _ _ Hc)) as Hw.
  destruct r; cbn [req_handler]; simpl in Hr.
  - apply calm_drop, (create_event_ok R); [done|apply Hr..].
  - by apply calm_drop, (event_op_ok R).
  - by apply calm_drop, (query_event_ok R).
  - apply calm_drop, (create_semaphore_ok R); [done|apply Hr..].
  - by apply calm_drop, (release_semaphore_request_ok R).
  - by apply calm_drop, (query_semaphore_ok R).
  - apply calm_drop, (create_mutex_ok R); [done|apply Hr..].
  - by apply calm_drop, (release_mutex_ok R).
  - by apply calm_drop, (query_mutex_ok R).
  - unfold req_close_handle. apply calm_then; [by apply (close_handle_ok R)|]. intros e R' s' Hc'. by apply (wfu_error R').
  - unfold req_select. destruct (cookie =? 0); [by apply (wfu_error R)|]. destruct Hr as [Hh Hop].
    apply calm_drop, (select_on_ok R); [done|by apply headroom_spare|].
    destruct op; try done. by apply distinct_semaphore_handles.
  - apply calm_drop, (wfu_objects R); auto.
  - apply (wfu_objects R); auto.
  - apply (wfu_objects R); auto.
  - apply (wfu_objects R); auto.
Qed.

Lemma req_handler_armed s r : request_allowed s r → keeps keeps_armed (req_handler r).
Proof.
  intros Hr. destruct r; cbn [req_handler]; try (keeps_tac ltac:(first [by auto with armed | apply armed_wfu])).
  unfold req_select. destruct (Z.eqb_spec cookie 0); [apply armed_wfu|].
  apply keeps_bind; [apply _|apply armed_select_on; [done|]|intros _; apply keeps_ret; apply _].
  intros wait signal ->. by destruct Hr.
Qed.

Lemma serve_calm R s e : calm R s → armed s → allowed s e → wp (serve e) keeps_calm s.
Proof.
  intros Hc Ha Hal. destruct e as [t r|w|now mono|m]; cbn [serve].
  - destruct Hal as [Ht Hr]. apply calm_drop. unfold call_req_handler. rewrite wp_bind, wp_modify.
    pose proof (calm_set_current R s t Hc Ht) as Hc1. set (s1 := set_current t s) in *.
    rewrite wp_bind. unfold clear_error, sv_set_error. rewrite wp_wfu.
    unfold set_error at 1. rewrite wp_modify. set (s2 := on_wfs _ s1).
    assert (calm R s2) as Hc2.
    { apply calm_objects; [done| |done]. by apply (objects_error (sv_wfs s1)), objects_refl, (calm_wf R). }
    apply calm_then; [by apply (req_handler_ok R)|]. intros _ R' s' Hc'. unfold get_error. rewrite wp_gets. by exists R'.
  - destruct Hal as (wt & Hw & Hu). apply (thread_timeout_ok R _ _ wt); [done|done|]. by apply (Ha w wt).
  - rewrite wp_modify. exists R. by apply calm_set_time.
  - destruct Hal as (Hwf & Hr & Hk). rewrite wp_modify. exists R.
    change (calm R (on_wfs (λ _, set_shm m (sv_wfs s)) s)). apply calm_memory; [done..| |done].
    intros q v Hq. split; [done|]. by apply (Hk q v).
Qed.

Lemma serve_armed s e : allowed s e → keeps keeps_armed (serve e).
Proof.
  destruct e as [t r|w|now mono|m]; cbn [serve]; intros Hal.
  - destruct Hal as [_ Hr]. pose proof (req_handler_armed s r Hr) as Hk. unfold call_req_handler, clear_error, get_error.
    keeps_tac ltac:(first [apply armed_set_error | by apply armed_modify | exact Hk]).
  - apply armed_thread_timeout.
  - by apply armed_modify.
  - by apply armed_modify.
Qed.

Lemma serve_ok s e : serving s → allowed s e → wp (serve e) (λ _, serving) s.
Proof.
  intros [[R Hc] Ha] Hal. eapply wp_mono.
  { apply (wp_keeps keeps_armed); [by apply (serve_calm R)|by apply (serve_armed s)]. }
  intros _ s' [Hc' Ha']. split; [done|by apply Ha'].
Qed.

(** ** A run of the server *)

Lemma run_ok es : ∀ s, serving s → all_allowed s es → wp (for_each es serve) (λ _, serving) s.
Proof.
  induction es as [|e es IH]; intros s Hs; cbn [all_allowed for_each]; [by rewrite wp_ret|].
  intros [He Hes]. rewrite wp_bind. pose proof (serve_ok s e Hs He) as Hw. unfold wp in Hw |- *.
  destruct (serve e s) as [[] s1| | |]; try done. by apply IH.
Qed.

(** ** Deciding what is allowed *)

#[export] Instance can_create_dec s h : Decision (can_create s h).
Proof. unfold can_create. apply _. Defined.

Definition request_okb (s : server) (r : request) : bool :=
  match r with
  | CreateEvent handle _ _ _ | CreateMutex handle _ _ => bool_decide (can_create s handle)
  | CreateSemaphore handle _ initial max =>
      bool_decide (can_create s handle) && (0 <=? initial) && (max <=? INT_MAX)
  | ReleaseSemaphore _ count => (0 <=? count) && (count <? 2 ^ 32)
  | Select op _ _ _ => bool_decide (headroom s) &&
      match op with
      | OpWaitAll handles => bool_decide (NoDup (omap (plain_semaphore s) handles))
      | OpSignalAndWait _ _ => false
      | _ => true
      end
  | GetWfusyncWaitSlot => w_next_shm_idx (sv_wfs s) + 1 <? 2 ^ 31
  | RegisterWfusyncWait _ _ _ | UnregisterWfusyncWait _ => false
  | _ => true
  end.
Definition event_okb (s : server) (e : event_source) : bool :=
  match e with
  | Request t r => bool_decide (is_Some (sv_threads s !! t)) && request_okb s r
  | Expire w => match sv_waits s !! w with Some wt => tw_user wt | None => false end
  | Tick _ _ => true
  | Clients _ => false
  end.
Fixpoint run_okb (s : server) (es : list event_source) : bool :=
  match es with
  | [] => true
  | e :: es => event_okb s e && match serve e s with Done _ s' => run_okb s' es | _ => false end
  end.

Lemma request_okb_allowed s r : request_okb s r = true → request_allowed s r.
Proof.
  destruct r as [| | |? ? initial max|? count| | | | | |op| | | |]; simpl; try done.
  - apply bool_decide_eq_true_1.
  - rewrite !andb_true_iff, bool_decide_eq_true, !Z.leb_le. intros [[? ?] ?]. done.
  - rewrite andb_true_iff, Z.leb_le, Z.ltb_lt. done.
  - apply bool_decide_eq_true_1.
  - rewrite andb_true_iff, bool_decide_eq_true. intros [? Hop]. split; [done|]. destruct op; try done.
    by apply bool_decide_eq_true in Hop.
  - apply Z.ltb_lt.
Qed.
Lemma event_okb_allowed s e : event_okb s e = true → allowed s e.
Proof.
  destruct e as [t r|w| |]; simpl; try done.
  - rewrite andb_true_iff, bool_decide_eq_true. intros [? ?]. split; [done|]. by apply request_okb_allowed.
  - destruct (sv_waits s !! w) as [wt|]; [|done]. intros Hu. by exists wt.
Qed.
Lemma run_okb_allowed es : ∀ s, run_okb s es = true → all_allowed s es.
Proof.
  induction es as [|e es IH]; intros s; cbn [run_okb all_allowed]; [done|]. rewrite andb_true_iff. intros [He Hes].
  split; [by apply event_okb_allowed|]. destruct (serve e s); try done. by apply IH.
Qed.
End loop.
