(* ===== verification/ServerSafe.v ===== *)
(** * The server never fails

    A server that has just started serves every admissible sequence of requests, timeouts
    and client writes without failing an assertion; what holds of its objects, handles
    and queues after any such sequence. *)

From S2P Require Import Prelude.
From S2P Require Import ShmState.
From S2P Require Import WfusyncServer.
From S2P Require Import WfusyncServerOps.
From S2P Require Import WfusyncRegistry.
From S2P Require Import WfusyncServerInv.
From S2P Require Import WfusyncHistory.
From S2P Require Import WfusyncPending.
From S2P Require Import WfusyncServerSpec.
From S2P Require Import ServerObjects.
From S2P Require Import ServerObjectsSpec.
From S2P Require Import ServerMutexSpec.
From S2P Require Import ServerInv.
From S2P Require Import ServerRefs.
From S2P Require Import ServerWake.
From S2P Require Import ServerSteps.
From S2P Require Import ServerHandles.
From S2P Require Import ServerSelect.
From S2P Require Import ServerLoop.

Section safe.
Context `{PageSize}.
Implicit Types (R : references) (s : server).

(** ** A server that has just started *)

Definition started (enabled : bool) (env : list sysres) (threads : gmap Z thread) (cur : Z) : server :=
  Server (set_env env (initial_state enabled)) ∅ 1 ∅ 1 threads [] cur ∅ 0 0 [].
(** Its threads have done nothing yet; [cur] is any of them. *)
Record fresh_threads (threads : gmap Z thread) (cur : Z) : Prop := {
  ft_threads : threads_ok threads;
  ft_idle : map_Forall (λ _ v, t_waits v = [] ∧ t_mutex_list v = []) threads;
  ft_current : is_Some (threads !! cur) }.

Lemma started_calm enabled env threads cur :
  fresh_threads threads cur → calm ∅ (started enabled env threads cur).
Proof.
  intros [Ht Hidle Hcur]. split; [split; [split|]|done..|done].
  - split; simpl.
    + apply wf_but_none. destruct (initial_wf enabled) as [Hok Hv]. split; [by apply server_ok_set_env|done].
    + split; simpl; try done; intros p [? Hp]; by rewrite lookup_empty in Hp.
    + split; intros p; unfold data_of; simpl; by rewrite ?fmap_empty, ?lookup_empty.
    + split; intros p l; unfold queue_of; simpl; by rewrite ?fmap_empty, ?lookup_empty.
    + split; try done. intros t v Hv. destruct (Hidle t v Hv) as [-> _]. split; [constructor|]. by intros w ?%elem_of_nil.
    + done.
    + assert (∀ p t, ¬ owned_by (data_of (started enabled env threads cur)) p t) as Hno.
      { intros p t (c & a & Hp). unfold data_of in Hp. simpl in Hp. by rewrite fmap_empty, lookup_empty in Hp. }
      split.
      * intros t v p Hv. destruct (Hidle t v Hv) as [_ ->]. split; [by intros ?%elem_of_nil|]. intros Hp. by apply Hno in Hp.
      * intros t v Hv. destruct (Hidle t v Hv) as [_ ->]. constructor.
      * intros p x. split; [done|]. intros (_ & t & Hp). by apply Hno in Hp.
      * intros p t Hp. by apply Hno in Hp.
    + split; intros p; unfold data_of; simpl; by rewrite ?fmap_empty, ?lookup_empty.
  - intros w wt Hw. simpl in Hw. by rewrite lookup_empty in Hw.
  - intros p o d Ho. simpl in Ho. by rewrite lookup_empty in Ho.
  - done.
Qed.

Lemma started_serving enabled env threads cur :
  fresh_threads threads cur → serving (started enabled env threads cur).
Proof. intros Hf. split; [exists ∅; by apply started_calm|]. intros w wt Hw. simpl in Hw. by rewrite lookup_empty in Hw. Qed.

(** C1: A server that has just started serves every sequence of requests, expired timeouts
    and client writes that is admissible step by step: no handler fails an assertion, follows
    a dangling pointer or runs forever. *)
Theorem requests_safe enabled env threads cur es :
  fresh_threads threads cur → all_allowed (started enabled env threads cur) es →
  ∃ s', for_each es serve (started enabled env threads cur) = Done tt s'.
Proof.
  intros Hf Hes. pose proof (run_ok es _ (started_serving enabled env threads cur Hf) Hes) as Hw.
  apply wp_done in Hw as ([] & s' & E & _). by exists s'.
Qed.

(** ** What holds after every run *)

Lemma run_serving enabled env threads cur es s' :
  fresh_threads threads cur → all_allowed (started enabled env threads cur) es →
  for_each es serve (started enabled env threads cur) = Done tt s' → serving s'.
Proof.
  intros Hf Hes E. pose proof (run_ok es _ (started_serving enabled env threads cur Hf) Hes) as Hw.
  unfold wp in Hw. by rewrite E in Hw.
Qed.

Lemma run_calm enabled env threads cur es s' :
  fresh_threads threads cur → all_allowed (started enabled env threads cur) es →
  for_each es serve (started enabled env threads cur) = Done tt s' → ∃ R, calm R s'.
Proof. intros Hf Hes E. by destruct (run_serving _ _ _ _ _ _ Hf Hes E) as [? _]. Qed.

(** The cell of a sync object is live, has the object's type and counts the queue. *)
Definition cell_typed s (ws : option Z) (type n : Z) : Prop :=
  ∀ c, ws = Some c → ∃ v, w_syncs (sv_wfs s) !! c = Some v ∧ live_sync (sv_wfs s) v ∧
    type_of (cell_idx (sv_wfs s) (ws_shm_idx v)) = type ∧ ws_server_waiters v = n.
(** An object is what its type says. *)
Definition well_typed s (o : object) : Prop :=
  let sync q (shape : sync_data → option Z → Prop) type :=
    ∃ o' d, sv_objs s !! q = Some o' ∧ o_data o' = Sync d ∧ shape d (sync_ws d) ∧
      cell_typed s (sync_ws d) type (Z.of_nat (length (o_wait_queue o'))) in
  match o_data o with
  | Event q => sync q (λ d ws, ∃ manual signaled, d = EventSync manual signaled ws) INPROC_SYNC_EVENT
  | Semaphore q => sync q (λ d ws, ∃ count max, d = SemaphoreSync count max ws ∧
      (ws = None → 0 ≤ count ≤ max)) INPROC_SYNC_SEMAPHORE
  | Mutex q => sync q (λ d ws, ∃ owner count abandoned, d = MutexSync owner count abandoned ws ∧
      (owner = None ↔ count = 0)) INPROC_SYNC_MUTEX
  | Sync _ => True
  end.

Lemma calm_well_typed R s h x access :
  calm R s → sv_handles s !! h = Some (x, access) → ∃ o, sv_objs s !! x = Some o ∧ well_typed s o.
Proof.
  intros Hc Hh. pose proof (si_inv _ _ (st_inv _ _ (ca_stable _ _ Hc))) as Hinv.
  pose proof (co_table _ _ (iv_counts _ _ Hinv) _ _ _ Hh) as Hx.
  destruct (reference_live _ _ _ _ (iv_counts _ _ Hinv) Hx) as [o Ho]. exists o. split; [done|].
  pose proof (data_lookup _ _ _ Ho) as Hdx.
  assert (∀ k q, owned (o_data o) = Some (k, q) → ∃ o' d, sv_objs s !! q = Some o' ∧ o_data o' = Sync d ∧ sync_kind d = k ∧
    sync_ok (sv_wfs s) d (Z.of_nat (length (o_wait_queue o'))) ∧
    cell_typed s (sync_ws d) (kind_type k) (Z.of_nat (length (o_wait_queue o')))) as Hown.
  { intros k q Hk. destruct (ow_held _ _ (iv_owns _ _ Hinv) x _ k q Hdx Hk) as (_ & d & Hd & Ek).
    apply data_inv in Hd as (o' & Ho' & Hd'). exists o', d. split_and!; [done..| |].
    - pose proof (data_lookup _ _ _ Ho') as Hdq. rewrite Hd' in Hdq.
      by apply (sy_data _ _ _ (iv_syncs _ _ Hinv) q d _ Hdq), queue_lookup.
    - intros c Hcd. destruct (sync_cell_of _ _ _ _ _ c Hinv Ho' Hd' Hcd) as (v & Hv & Hn & _ & Hf).
      exists v. split; [done|]. split; [by apply (so_sync _ (sw_ok _ (calm_wf _ _ Hc)) c)|]. rewrite <- Ek. split; [apply Hf|done]. }
  unfold well_typed. destruct (o_data o) as [d|q|q|q]; [done|..];
    destruct (Hown _ q eq_refl) as (o' & d & Ho' & Hd' & Ek & [_ Hs] & Hct); exists o', d; (split_and!; [done|done| |done]);
    destruct d as [| |? ? ? ws]; try done; simpl; eauto.
  - eexists _, _. split; [done|]. intros E. by destruct (Hs E).
  - eexists _, _, _. split; [done|]. destruct ws; [|apply Hs]. destruct Hs as [-> ->]. done.
Qed.

(** C3: Whatever the server has served, every handle names a live object; an event, a
    semaphore or a mutex has a live sync object of its own kind in a consistent state, and
    the cell that this has in the shared memory is allocated, has the matching type and
    counts the waiters in the server's queue. *)
Theorem handles_well_typed enabled env threads cur es s' h x access :
  fresh_threads threads cur → all_allowed (started enabled env threads cur) es →
  for_each es serve (started enabled env threads cur) = Done tt s' →
  sv_handles s' !! h = Some (x, access) → ∃ o, sv_objs s' !! x = Some o ∧ well_typed s' o.
Proof. intros Hf Hes E Hh. destruct (run_calm _ _ _ _ _ _ Hf Hes E) as [R Hc]. by eapply calm_well_typed. Qed.

(** What refers to an object: a handle, a wait, the object around a sync object, or the
    thread that owns a mutex without a cell. *)
Definition refers s (x : Z) : Prop :=
  (∃ h access, sv_handles s !! h = Some (x, access)) ∨
  (∃ w wt, sv_waits s !! w = Some wt ∧ x ∈ tw_objs wt) ∨
  (∃ p o k, sv_objs s !! p = Some o ∧ owned (o_data o) = Some (k, x)) ∨
  (∃ t v, sv_threads s !! t = Some v ∧ x ∈ t_mutex_list v).
Definition queues_exact s : Prop := ∀ p o, sv_objs s !! p = Some o → NoDup (o_wait_queue o) ∧
  ∀ e, e ∈ o_wait_queue o ↔
    ∃ wt x, sv_waits s !! e.1 = Some wt ∧ tw_objs wt !! e.2 = Some x ∧ sync_ptr (data_of s) x = Some p.

(** A calm server's waits and their entries. *)
Lemma calm_entry R s e x :
  calm R s → R !! HWait e = Some x ↔ ∃ wt, sv_waits s !! e.1 = Some wt ∧ tw_objs wt !! e.2 = Some x.
Proof.
  intros Hc. destruct (st_inv _ _ (ca_stable _ _ Hc)) as [Hinv Hset _]. split.
  - apply (wa_entry _ _ _ (iv_waits _ _ Hinv)).
  - intros (wt & Hw & Hx). destruct (Hset _ _ Hw ltac:(set_solver)) as (_ & Hcm & _). destruct e. by apply Hcm.
Qed.

Lemma calm_refers R s x : calm R s → is_Some (sv_objs s !! x) ↔ refers s x.
Proof.
  intros Hc. pose proof (si_inv _ _ (st_inv _ _ (ca_stable _ _ Hc))) as Hinv. pose proof (iv_counts _ _ Hinv) as Hco.
  split.
  - intros Hx. assert (∃ h, R !! h = Some x) as [h Hh].
    { destruct (decide (map_Exists (λ _ y, y = x) R)) as [(h & y & Hh & ->)|Hno]; [by exists h|].
      pose proof (co_live _ _ Hco x Hx) as Hl. rewrite <- (co_refs _ _ Hco), held_zero in Hl; [lia|].
      intros h Hh. apply Hno. by exists h, x. }
    destruct h as [h|p|e|p|n].
    + left. destruct (ca_table _ _ Hc _ _ Hh) as [a Ha]. by exists h, a.
    + right; right; left. destruct (ow_only _ _ (iv_owns _ _ Hinv) _ _ Hh) as (d & k & Hd & Hk).
      apply data_inv in Hd as (o & Ho & <-). by exists p, o, k.
    + right; left. apply (calm_entry _ _ _ _ Hc) in Hh as (wt & Hw & Hi). exists e.1, wt. split; [done|].
      by eapply list_elem_of_lookup_2.
    + right; right; right. destruct (iv_mutexes _ _ Hinv) as [M1 M2 M3 M4].
      apply M3 in Hh as (-> & t & Ht). destruct (M4 _ _ Ht) as [v Hv]. exists t, v. split; [done|]. by eapply M1.
    + by rewrite (ca_locals _ _ Hc) in Hh.
  - intros Hr. assert (∃ h, R !! h = Some x) as [h Hh].
    { destruct Hr as [(h & a & Hh)|[(w & wt & Hw & Hi)|[(p & o & k & Ho & Hk)|(t & v & Hv & Hi)]]].
      - eexists. by eapply (co_table _ _ Hco).
      - apply list_elem_of_lookup in Hi as [i Hi]. exists (HWait (w, i)). apply (calm_entry _ _ _ _ Hc). by exists wt.
      - exists (HOwns p). apply data_lookup in Ho. by apply (ow_held _ _ (iv_owns _ _ Hinv) p _ k x Ho).
      - destruct (iv_mutexes _ _ Hinv) as [M1 M2 M3 M4]. exists (HMutex x). apply M3. split; [done|]. exists t. by eapply M1. }
    destruct (reference_live _ _ _ _ Hco Hh) as [o Ho]. by exists o.
Qed.

Lemma calm_queues R s : calm R s → queues_exact s.
Proof.
  intros Hc p o Ho. pose proof (si_inv _ _ (st_inv _ _ (ca_stable _ _ Hc))) as Hinv.
  destruct (iv_queues _ _ Hinv) as [Q1 Q2]. apply queue_lookup in Ho. split; [by eapply Q1|]. intros e.
  rewrite (Q2 p _ e Ho). split.
  - intros (x & Hx & Hp). apply (calm_entry _ _ _ _ Hc) in Hx as (wt & Hw & Hi). by exists wt, x.
  - intros (wt & x & Hw & Hi & Hp). exists x. split; [|done]. apply (calm_entry _ _ _ _ Hc). by exists wt.
Qed.

(** C2: Whatever the server has served, an object exists exactly as long as a handle, a
    wait, the object around it or an owning thread refers to it: nothing leaks and nothing
    dangles. The wait queue of an object holds exactly the entries of the waits for it, each
    once, and every wait is in the list of its thread. *)
Theorem objects_and_queues_exact enabled env threads cur es s' :
  fresh_threads threads cur → all_allowed (started enabled env threads cur) es →
  for_each es serve (started enabled env threads cur) = Done tt s' →
  (∀ x, is_Some (sv_objs s' !! x) ↔ refers s' x) ∧ queues_exact s' ∧
  ∀ w, is_Some (sv_waits s' !! w) ↔ ∃ t v, sv_threads s' !! t = Some v ∧ w ∈ t_waits v.
Proof.
  intros Hf Hes E. destruct (run_calm _ _ _ _ _ _ Hf Hes E) as [R Hc].
  split; [intros x; by apply (calm_refers R)|]. split; [by apply (calm_queues R)|].
  destruct (st_inv _ _ (ca_stable _ _ Hc)) as [Hinv Hset _]. intros w. split.
  - intros [wt Hw]. destruct (Hset w wt Hw ltac:(set_solver)) as ((v & Hv & Hi) & _). eauto.
  - intros (t & v & Hv & Hi). destruct (proj2 (wa_list _ _ _ (iv_waits _ _ Hinv) t v Hv) w Hi) as (wt & Hw & _). by exists wt.
Qed.

(** ** Setting an event *)

(** C4: Setting a manual-reset event that a handle names leaves nobody behind: once the
    server has set it, no thread in its queue waits for something that it could be given,
    and the server is as consistent as before. *)
Theorem set_event_wakes_all s h x access q o ws signaled :
  serving s → sv_handles s !! h = Some (x, access) → sync_ptr (data_of s) x = Some q →
  sv_objs s !! q = Some o → o_data o = Sync (EventSync true signaled ws) →
  wp (set_event q) (λ _ s', queue_idle s' q ∧ serving s') s.
Proof.
  intros [[R Hc] Ha] Hh Hq Ho Hd. pose proof (si_inv _ _ (st_inv _ _ (ca_stable _ _ Hc))) as Hinv.
  assert (anchored R s q) as Hanc.
  { exists (HHandle h), x. split; [by eapply (co_table _ _ (iv_counts _ _ Hinv))|]. split; [left; by eexists|done]. }
  pose proof (event_sync_signal_ok R s q o true signaled ws true (ca_stable _ _ Hc) Hanc Ho Hd) as Hw.
  pose proof (wp_keeps keeps_armed _ _ _ Hw (armed_event_signal q true)) as Hw'.
  unfold set_event. eapply wp_mono; [exact Hw'|].
  intros [] s' [(R' & Hl & Hidle) Ha']. split; [by apply Hidle|]. split; [|by apply Ha'].
  exists R'. by eapply calm_leads.
Qed.
End safe.

(** ** A run *)

#[local] Existing Instance page_4096.

Definition two_threads : gmap Z thread :=
  {[ 1 := Thread 0x24 [] [] 0 false 0 None 0 false false; 2 := Thread 0x28 [] [] 0 false 0 None 0 false false ]}.
Lemma two_fresh_threads : fresh_threads two_threads 1.
Proof.
  unfold two_threads. split; [split| |by eexists].
  - intros t v [[<- <-]|[_ [<- <-]%lookup_singleton_Some]]%lookup_insert_Some; by split.
  - intros t t' v v' [[<- <-]|[_ [<- <-]%lookup_singleton_Some]]%lookup_insert_Some
      [[<- <-]|[_ [<- <-]%lookup_singleton_Some]]%lookup_insert_Some; done.
  - intros t v [[<- <-]|[_ [<- <-]%lookup_singleton_Some]]%lookup_insert_Some; by split.
Qed.

(** Thread 2 waits for a manual-reset event and a mutex of thread 1, which sets the event
    and releases the mutex; thread 1 takes the only count of a semaphore and waits for it
    again until its timeout expires. *)
Definition demo_setup_run : list event_source :=
  [Request 1 (CreateEvent 4 all_access true false);
   Request 1 (CreateSemaphore 8 all_access 1 5);
   Request 1 (CreateMutex 12 all_access true);
   Request 2 (Select (OpWaitAll [4; 12]) 0x1000 plain_flags TIMEOUT_INFINITE)].
Definition demo_run : list event_source := demo_setup_run ++
  [Request 1 (EventOp 4 SET_EVENT);
   Request 1 (ReleaseMutex 12);
   Request 1 (Select (OpWait [8]) 0x2000 plain_flags 50);
   Request 1 (Select (OpWait [8]) 0x2000 plain_flags 50);
   Request 2 (CloseHandle 12);
   Tick 60 0; Expire 3].
Definition demo_started : server := started true [] two_threads 1.
Definition after (m : V unit) (s : server) : server := match m s with Done _ s' => s' | _ => s end.
Definition waiting_server : server := Eval vm_compute in after (for_each demo_setup_run serve) demo_started.
Definition served_server : server := Eval vm_compute in after (for_each demo_run serve) demo_started.

Lemma demo_run_allowed : all_allowed demo_started demo_run.
Proof. apply run_okb_allowed. by vm_compute. Qed.
Lemma demo_setup_allowed : all_allowed demo_started demo_setup_run.
Proof. apply run_okb_allowed. by vm_compute. Qed.
Lemma waiting_serving : serving waiting_server.
Proof. apply (run_serving true [] two_threads 1 demo_setup_run); [apply two_fresh_threads|apply demo_setup_allowed|by vm_compute]. Qed.

Lemma requests_safe_witness : ∃ s', for_each demo_run serve demo_started = Done tt s'.
Proof. apply (requests_safe true [] two_threads 1 demo_run two_fresh_threads demo_run_allowed). Defined.

Lemma handles_well_typed_witness : ∃ o, sv_objs served_server !! 4 = Some o ∧ well_typed served_server o.
Proof.
  apply (handles_well_typed true [] two_threads 1 demo_run served_server 8 4 all_access two_fresh_threads demo_run_allowed);
    vm_compute; reflexivity.
Defined.

Lemma objects_and_queues_exact_witness : is_Some (sv_objs waiting_server !! 5) ↔ refers waiting_server 5.
Proof.
  apply (objects_and_queues_exact true [] two_threads 1 demo_setup_run waiting_server two_fresh_threads demo_setup_allowed).
  vm_compute. reflexivity.
Defined.

Lemma set_event_wakes_all_witness :
  wp (set_event 1) (λ _ s', queue_idle s' 1 ∧ serving s') waiting_server.
Proof.
  eapply (set_event_wakes_all waiting_server 4 2 all_access 1 _ (Some 0) false waiting_serving);
    vm_compute; reflexivity.
Defined.
