(* ===== verification/ServerFindings.v ===== *)
(** * Failures that the model brings to light

    Five places where the server does not keep what the rest of it relies on: a mutex
    released by SignalObjectAndWait does not wake the waiters that clients registered for
    it; the 16-bit reference count of a cell wraps around after enough clients asked for
    it; a dying thread that owns a mutex with a cell holds no reference to it, so waking the
    next owner can free the mutex under the loop that wakes it; waiting for all of two
    handles to one semaphore fails an assertion; and a thread whose wait has expired can
    take the only wake-up of an event. *)

From S2P Require Import Prelude.
From S2P Require Import ShmState.
From S2P Require Import ShmGuard.
From S2P Require Import WfusyncServer.
From S2P Require Import WfusyncServerOps.
From S2P Require Import WfusyncRegistry.
From S2P Require Import WfusyncWake.
From S2P Require Import WfusyncServerInv.
From S2P Require Import WfusyncHistory.
From S2P Require Import WfusyncServerSpec.
From S2P Require Import ServerObjects.
From S2P Require Import ServerObjectsSpec.
From S2P Require Import ServerMutexSpec.
From S2P Require Import ServerLoop.
From S2P Require Import ServerSafe.

Section findings.
Context `{PageSize}.

(** ** The reference count of a cell *)

(** [n] clients ask for the cell, one after the other. *)
Fixpoint grab_times (n : nat) (q : Z) : W unit :=
  match n with
  | O => mret tt
  | S n => _ ← wfusync_grab_object (Some q); grab_times n q
  end.

Lemma grab_object_exec (s : wfs) q v p :
  sync_cell s q v p →
  wfusync_grab_object (Some q) s =
    if c_refcount (cell_at s p) =? 0 then AssertFailed
    else Done tt (put_cell p (set_refcount (u16 (c_refcount (cell_at s p) + 1)) (cell_at s p)) s).
Proof.
  intros (Hq & Hm & ->). unfold wfusync_grab_object, sync_state.
  unfold mbind, M_bind, gets. rewrite (get_sync_live _ _ _ Hq). unfold get_state, gets. rewrite Hm. simpl.
  unfold truth. by destruct (c_refcount _ =? 0).
Qed.

Lemma grab_times_spec (n : nat) (s : wfs) q v p r :
  sync_cell s q v p → c_refcount (cell_at s p) = r → 1 ≤ r → r + Z.of_nat n < 2 ^ 16 →
  wp (grab_times n q)
    (λ _ s', sync_cell s' q v p ∧ c_refcount (cell_at s' p) = r + Z.of_nat n ∧
       c_type (cell_at s' p) = c_type (cell_at s p)) s.
Proof.
  revert s r. induction n as [|n IH]; intros s r Hs Hr H1 Hn; simpl.
  - rewrite wp_ret. split_and!; [done|lia|done].
  - rewrite wp_bind. unfold wp at 1. rewrite (grab_object_exec _ _ _ _ Hs), Hr.
    rewrite (proj2 (Z.eqb_neq r 0)), u16_small by lia.
    eapply wp_mono; [apply (IH _ (r + 1))|].
    + done.
    + by rewrite cell_at_put_eq.
    + lia.
    + lia.
    + intros [] s' (? & ? & Ht). rewrite cell_at_put_eq in Ht. split_and!; [done|lia|done].
Qed.

(** Nothing ever gives back the reference that a client's request for a cell takes, and
    the count is 16 bits wide: from a count of [r], the request number [2 ^ 16 - r] leaves
    a live object with a count of zero, and the next request for it, or its destruction,
    fails the assertion and ends the server. *)
Theorem grab_object_wraps (s : wfs) q v r :
  server_wf s → w_syncs s !! q = Some v →
  c_refcount (cell_idx s (ws_shm_idx v)) = r →
  wp (grab_times (Z.to_nat (2 ^ 16 - r)) q)
    (λ _ s', c_refcount (cell_idx s' (ws_shm_idx v)) = 0 ∧ w_syncs s' !! q = Some v ∧
       wfusync_grab_object (Some q) s' = AssertFailed ∧
       wfusync_destroy (Some q) s' = AssertFailed) s.
Proof.
  intros Hwf Hq Hr. destruct (so_sync _ (sw_ok _ Hwf) _ _ Hq) as [_ _ _ _ Href].
  pose proof (live_sync_cell _ _ _ (sw_ok _ Hwf) Hq) as Hs.
  replace (Z.to_nat (2 ^ 16 - r)) with (Z.to_nat (2 ^ 16 - 1 - r) + 1)%nat by lia.
  assert (∀ m n (s' : wfs) Q, wp (grab_times m q) (λ _, wp (grab_times n q) Q) s' →
            wp (grab_times (m + n) q) Q s') as Hsplit.
  { intros m n. induction m as [|m IH]; intros s' Q; simpl; [by rewrite wp_ret|].
    rewrite !wp_bind. intros Hw. eapply wp_mono; [exact Hw|]. intros [] s1. apply IH. }
  apply Hsplit. eapply wp_mono; [apply (grab_times_spec _ _ _ _ _ r Hs Hr); lia|].
  intros [] s1 (Hs1 & Hr1 & _). simpl. rewrite wp_bind. unfold wp at 1.
  rewrite (grab_object_exec _ _ _ _ Hs1), (proj2 (Z.eqb_neq _ 0)), wp_ret by lia.
  set (s2 := put_cell _ _ s1).
  assert (c_refcount (cell_at s2 (cell_addr (ws_shm_idx v))) = 0) as H0.
  { unfold s2. rewrite cell_at_put_eq. simpl. rewrite Hr1. unfold u16.
    replace (r + Z.of_nat (Z.to_nat (2 ^ 16 - 1 - r)) + 1) with (2 ^ 16) by lia. done. }
  assert (sync_cell s2 q v (cell_addr (ws_shm_idx v))) as Hs2 by exact Hs1.
  split_and!; [done|apply Hs2| |].
  - by rewrite (grab_object_exec _ _ _ _ Hs2), H0.
  - destruct Hs2 as (Hq2 & Hm2 & _). unfold wfusync_destroy, sync_state.
    unfold mbind, M_bind, gets. rewrite (get_sync_live _ _ _ Hq2). unfold get_state, gets. rewrite Hm2. simpl.
    unfold ld, gets. simpl. by rewrite H0.
Qed.

(** ** SignalObjectAndWait on a mutex *)

(** C36: When SignalObjectAndWait releases the last acquisition of a mutex with a cell on whose
    own queue nobody waits, a client that registered a multi-object wait for the mutex and
    sleeps on its slot is not woken, although the mutex has become available; the same release
    by the release_mutex request, from the same state, wakes it. *)
Theorem mutex_signal_strands_waiters (s : server) p o x y z q v th h m om granted (w : wfusync_waiter) :
  server_wf (sv_wfs s) → threads_ok (sv_threads s) →
  sv_objs s !! p = Some o → o_wait_queue o = [] → o_data o = Sync (MutexSync x y z (Some q)) →
  w_syncs (sv_wfs s) !! q = Some v → sv_threads s !! sv_current s = Some th →
  cell_mutex (sv_threads s) (cell_idx (sv_wfs s) (ws_shm_idx v)) (Owned (sv_current s) 1) →
  sv_handles s !! h = Some (m, granted) → sv_objs s !! m = Some om → o_data om = Mutex p →
  1 ≤ o_refcount om < INT_MAX →
  w ∈ w_waiters (sv_wfs s) → ws_shm_idx v ∈ wt_shm_idxs w →
  c_low (cell_idx (sv_wfs s) (wt_slot_idx w)) = 1 →
  wp (mutex_signal p ACCESS_SYNCHRONIZE)
    (λ r s', r = true ∧ cell_signaled (cell_idx (sv_wfs s') (ws_shm_idx v)) = true ∧
       w ∈ w_waiters (sv_wfs s') ∧ c_low (cell_idx (sv_wfs s') (wt_slot_idx w)) = 1) s ∧
  wp (req_release_mutex h)
    (λ r s', r = Some 1 ∧ cell_signaled (cell_idx (sv_wfs s') (ws_shm_idx v)) = true ∧
       c_low (cell_idx (sv_wfs s') (wt_slot_idx w)) = 0) s.
Proof.
  intros Hwf Hth Ho Hqu Hd Hq Ht [Hty (Hh & _ & th' & Hth' & Hl)] Hhm Hom Hdm Href Hw Hi Hslot.
  assert (th' = th) as -> by congruence.
  pose proof (to_id _ Hth _ _ Ht) as Hid. pose proof Hid as Hid'. unfold tid_ok, INT_MAX in Hid.
  destruct (live_cell _ q v _ Hwf Hq Hty) as (Hs & Hf & _).
  set (c := cell_idx (sv_wfs s) (ws_shm_idx v)) in *.
  set (w1 := add_wake (cell_addr (ws_shm_idx v)) false
               (put_cell (cell_addr (ws_shm_idx v)) (set_low 0 (set_high 0 c)) (sv_wfs s))).
  assert (wfusync_release_mutex (Some q) (t_id th) (sv_wfs s) = Done (Some 1) w1) as Hrun.
  { rewrite (release_mutex_exec _ _ _ _ (t_id th) Hs Hf). fold c.
    rewrite s32_small, Hl, Hh, Z.eqb_refl by lia. done. }
  destruct (so_waiters _ (sw_ok _ Hwf)) as [_ [_ Hsl _]].
  destruct (Hsl w Hw) as (_ & _ & Hsty).
  assert (cell_addr (ws_shm_idx v) ≠ cell_addr (wt_slot_idx w)) as Hne.
  { intros E. rewrite <- E in Hsty. fold c in Hsty. by rewrite Hty in Hsty. }
  split.
  - unfold mutex_signal.
    change (negb (truth (Z.land ACCESS_SYNCHRONIZE ACCESS_SYNCHRONIZE))) with false. cbv iota.
    rewrite wp_bind, (wp_sync_of _ _ _ _ _ Ho Hd), wp_bind, wp_gets, wp_bind,
      (wp_thread_of _ _ _ _ Ht), wp_bind, wp_wfu.
    eapply wp_of_exec; [exact Hrun|]. cbv beta iota. rewrite wp_bind, wp_when. simpl.
    eapply wp_of_exec; [by eapply wake_up_empty|]. rewrite wp_ret. simpl. unfold w1.
    rewrite !cell_at_wake, cell_at_put_eq, cell_at_put_ne by done.
    split_and!; [done| |done|done]. rewrite mutex_signaled_iff by done. done.
  - assert (m ≠ p) as Hmp by (by intros ->; simplify_eq; rewrite Hd in Hdm).
    unfold req_release_mutex, get_handle_obj. rewrite !wp_bind, wp_gets, Hhm, wp_bind, (wp_obj _ _ _ _ Hom), Hdm.
    rewrite Z.land_0_r. cbn [is_mutex negb Z.eqb]. unfold grab_object, set_obj.
    rewrite !wp_bind, (wp_obj _ _ _ _ Hom), wp_bind, wp_assert. split; [apply Z.ltb_lt; lia|].
    rewrite wp_modify, wp_ret. set (om' := with_refcount (o_refcount om + 1) om). set (s1 := set_objs _ _ _).
    assert (sv_objs s1 !! m = Some om') as Hm1 by apply lookup_insert_eq.
    assert (sv_objs s1 !! p = Some o) as Hp1 by (simpl; by rewrite lookup_insert_ne).
    unfold obj_sync_ptr. rewrite !wp_bind, (wp_obj _ _ _ _ Hm1). simpl. rewrite Hdm, wp_ret.
    rewrite wp_bind, (wp_sync_of _ _ _ _ _ Hp1 Hd), wp_bind, wp_gets, !wp_bind, (wp_thread_of _ th) by exact Ht.
    rewrite wp_bind, wp_wfu. eapply wp_of_exec; [exact Hrun|]. cbv beta iota. rewrite wp_bind, wp_when.
    rewrite bool_decide_true by done. cbv iota.
    set (s2 := on_wfs (λ _, w1) s1). rewrite wp_bind. eapply wp_of_exec; [by eapply (wake_up_empty p o)|].
    eapply wp_mono; [apply (wake_registered_spec s2 q v)|].
    + exact Hq.
    + apply Hs.
    + intros x' Hx'. simpl in Hx'. destruct (Hsl x' Hx') as (H1 & H2 & H3). split; [done|]. split; [done|].
      simpl. unfold w1. rewrite cell_at_wake. rewrite cell_at_put_ne; [done|]. intros E. rewrite <- E in H3.
      fold c in H3. by rewrite Hty in H3.
    + intros [] s3 (w3 & -> & Hwake & _ & _). rewrite wp_ret.
      assert (wp (release_object m) (λ _ s', sv_wfs s' = w3) (on_wfs (λ _, w3) s2)) as Hrel.
      { unfold release_object. cbn [release_levels]. rewrite wp_bind, (wp_obj m om') by exact Hm1.
        rewrite wp_bind, wp_assert. simpl o_refcount.
        split; [unfold truth; by rewrite (proj2 (Z.eqb_neq _ _)) by lia|]. unfold set_obj. rewrite wp_bind, wp_modify.
        unfold truth. rewrite (proj2 (Z.eqb_neq _ _)) by lia. simpl. by rewrite wp_ret. }
      rewrite wp_bind. eapply wp_mono; [exact Hrel|]. intros [] s' Es. rewrite wp_ret, Es. split; [done|].
      pose proof (wake_waiters_for_object_spec (ws_shm_idx v) w1) as Hspec. unfold wp in Hspec.
      change (sv_wfs s2) with w1 in Hwake. rewrite Hwake in Hspec.
      destruct Hspec as [_ Hc]; [intros w' Hw'; apply (Hsl w' Hw')|]. rewrite !Hc.
      change (w_waiters w1) with (w_waiters (sv_wfs s)).
      rewrite (proj2 (wakes_slot_true _ _ (cell_addr (wt_slot_idx w)))) by eauto.
      rewrite (not_a_slot _ _ (λ w H, Hsl w H)) by (fold c; by rewrite Hty). unfold w1.
      rewrite cell_at_wake, cell_at_put_eq. split; [|done]. by rewrite mutex_signaled_iff.
Qed.

End findings.

(** ** A dying owner of a mutex with a cell *)

#[local] Existing Instance page_4096.

(** Thread 1 owns the mutex of handle 12; thread 2 waits for it; thread 1 closes the handle. *)
Definition owner_dies : server := Eval vm_compute in
  run_all
    [modify (λ s, set_threads (<[2 := Thread 0x28 [] [] 0 false 0 None 0 false false]> (sv_threads s)) s);
     modify (set_current 1); _ ← req_create_mutex 12 all_access true; mret tt;
     modify (set_current 2); _ ← select_on (OpWait [12]) 0x1000 plain_flags TIMEOUT_INFINITE; mret tt;
     modify (set_current 1); req_close_handle 12] start_server.

(** The same without cells. *)
Definition owner_dies_plain : server := Eval vm_compute in
  run_all
    [modify (λ s, set_threads (<[2 := Thread 0x28 [] [] 0 false 0 None 0 false false]> (sv_threads s)) s);
     modify (set_current 1); _ ← req_create_mutex 12 all_access true; mret tt;
     modify (set_current 2); _ ← select_on (OpWait [12]) 0x1000 plain_flags TIMEOUT_INFINITE; mret tt;
     modify (set_current 1); req_close_handle 12] (on_wfs (λ _, initial_state false) start_server).

(** A thread that owns a mutex with a cell holds no reference to it. Thread 1 owns such
    a mutex, the last handle is closed, and the wait of thread 2 holds the only reference:
    when thread 1 dies, the loop that wakes thread 2 reads the queue of the mutex that its
    first turn has freed. Without cells the same history hands the mutex to thread 2,
    which is told that it was abandoned. *)
Theorem abandoned_mutex_use_after_free :
  (t_waits <$> sv_threads owner_dies !! 2) = Some [1] ∧
  (o_refcount <$> sv_objs owner_dies !! 2) = Some 1 ∧
  abandon_mutexes 1 owner_dies = AssertFailed ∧
  ∃ s', abandon_mutexes 1 owner_dies_plain = Done tt s' ∧
    sv_sent s' = [(2, 0x1000, STATUS_ABANDONED_WAIT_0)] ∧
    t_mutex_list <$> sv_threads s' !! 2 = Some [1].
Proof.
  split; [vm_compute; reflexivity|]. split; [vm_compute; reflexivity|].
  split; [vm_compute; reflexivity|]. eexists. split; [vm_compute; reflexivity|]. by vm_compute.
Qed.

(** ** A semaphore named twice *)

(** Waiting for all of two handles to the same semaphore of count 1, if it has no cell,
    ends the server: the wait is found satisfied, because each entry looks at the count by
    itself, and satisfying the second entry fails the assertion that the count is not
    zero. *)
Theorem wait_all_twice_fails :
  (∃ s, for_each [Request 1 (CreateSemaphore 4 all_access 1 2)] serve (started false [] two_threads 1) = Done tt s) ∧
  for_each [Request 1 (CreateSemaphore 4 all_access 1 2);
            Request 1 (Select (OpWaitAll [4; 4]) 0x1000 plain_flags TIMEOUT_INFINITE)]
    serve (started false [] two_threads 1) = AssertFailed.
Proof. split; [eexists; vm_compute; reflexivity|]. vm_compute. reflexivity. Qed.

(** ** A wake-up spent on an expired wait *)

Definition three_threads : gmap Z thread :=
  <[3 := Thread 0x2c [] [] 0 false 0 None 0 false false]> two_threads.
(** Thread 2 waits for the auto-reset events 4 and 8 together until the time 100, thread 3
    for the event 4 alone. At the time 100 thread 1 sets the event 4. *)
Definition expired_first : list event_source :=
  [Request 1 (CreateEvent 4 all_access false false);
   Request 1 (CreateEvent 8 all_access false false);
   Request 2 (Select (OpWaitAll [4; 8]) 0x1000 plain_flags 100);
   Request 3 (Select (OpWait [4]) 0x1000 plain_flags TIMEOUT_INFINITE);
   Tick 100 0;
   Request 1 (EventOp 4 SET_EVENT)].

(** Setting an auto-reset event wakes one thread at most, and a thread whose timeout has
    passed while its timer has not run yet counts as that one: it is told that its wait
    timed out, the event stays signaled, and a thread that waits for nothing but this event
    stays asleep although its wait is satisfied. *)
Theorem expired_wait_takes_wakeup :
  all_allowed (started false [] three_threads 1) expired_first ∧
  ∃ s o, for_each expired_first serve (started false [] three_threads 1) = Done tt s ∧
    sv_sent s = [(2, 0x1000, STATUS_TIMEOUT)] ∧
    sv_objs s !! 1 = Some o ∧ o_data o = Sync (EventSync false true None) ∧
    t_waits <$> sv_threads s !! 3 = Some [2] ∧ check_wait 3 s = Done (Some 0) s.
Proof.
  split; [apply run_okb_allowed; by vm_compute|]. eexists _, _. split; [vm_compute; reflexivity|].
  split; [reflexivity|]. split; [vm_compute; reflexivity|]. split; [reflexivity|]. by vm_compute.
Qed.

(** ** Witnesses *)

Lemma grab_object_wraps_witness :
  wp (grab_times (Z.to_nat (2 ^ 16 - 1)) 0)
    (λ _ s', wfusync_grab_object (Some 0) s' = AssertFailed) (sv_wfs demo_server).
Proof.
  eapply wp_mono.
  - apply (grab_object_wraps (sv_wfs demo_server) 0 (Wfusync 1 0) 1 demo_server_wf); reflexivity.
  - intros [] s' (_ & _ & Hg & _). exact Hg.
Defined.

(** Thread 1 owns a mutex, cell 1; a client sleeps on slot 2 and is registered for it. *)
Definition mutex_registered : server := Eval vm_compute in
  run_all
    [_ ← req_create_mutex 12 all_access true; mret tt;
     wfu (run_op OpGetSlot); wfu (run_op (OpRegister 2 [1]))] start_server.

Lemma mutex_registered_wf : server_wf (sv_wfs mutex_registered).
Proof.
  eapply reachable_wf; [apply (initial_wf true)|].
  demo_step (OpCreate 0x24 1 INPROC_SYNC_MUTEX).
  { split; [done|]. split; [done|]. split; [done|]. split; [done|]. split; [done|].
    intros _. right. left. simpl. unfold INT_MAX. lia. }
  demo_step OpGetSlot; [done|].
  demo_step (OpRegister 2 [1]); [|apply reach_refl].
  split; [done|]. split; [|done]. intros idx Hin.
  repeat (apply elem_of_cons in Hin as [->|Hin]; [lia|]). by apply elem_of_nil in Hin.
Qed.

Lemma mutex_registered_threads : threads_ok (sv_threads mutex_registered).
Proof.
  set (v0 := Thread 0x24 [] [] 0 false 0 None 0 false false).
  change (sv_threads mutex_registered) with ({[1 := v0]} : gmap Z thread).
  split.
  - intros t v [<- <-]%lookup_singleton_Some. by split.
  - intros t t' v v' [<- _]%lookup_singleton_Some [<- _]%lookup_singleton_Some _. done.
Qed.

Lemma mutex_signal_strands_waiters_witness :
  wp (mutex_signal 1 ACCESS_SYNCHRONIZE)
    (λ r s', r = true ∧ cell_signaled (cell_idx (sv_wfs s') 1) = true ∧
       Waiter 2 [1] ∈ w_waiters (sv_wfs s') ∧ c_low (cell_idx (sv_wfs s') 2) = 1) mutex_registered ∧
  wp (req_release_mutex 12)
    (λ r s', r = Some 1 ∧ cell_signaled (cell_idx (sv_wfs s') 1) = true ∧
       c_low (cell_idx (sv_wfs s') 2) = 0) mutex_registered.
Proof.
  refine (mutex_signal_strands_waiters mutex_registered 1 _ None 0 false 0 (Wfusync 1 0)
    (Thread 0x24 [] [] 0 false 0 None 0 false false) 12 2 _ _ (Waiter 2 [1])
    mutex_registered_wf mutex_registered_threads _ _ _ _ _ _ _ _ _ _ _ _ _);
    try reflexivity; try (by left).
  - split; [done|]. split; [done|]. split; [done|]. by eexists.
  - by split.
Defined.
