(* ===== verification/Timers.v ===== *)
(** * Timers

    The timers of src/server/fd.c: two sorted lists, for absolute times and for times of
    the monotonic clock (stored negated), the processing of expired timers and the time
    that the main loop may sleep. A callback is a parameter: it runs in the same state and
    may add and remove timers. [rest] is the rest of the server's state. *)

From S2P Require Import Prelude.

Record timeout_user := TimeoutUser { to_user : Z; to_when : Z; to_private : Z }.

Record timers (T : Type) := Timers {
  tm_abs : list timeout_user;
  tm_rel : list timeout_user;
  tm_expired : list timeout_user;  (* expired_list of the running get_next_timeout *)
  tm_next : Z;                     (* the next pointer *)
  tm_current_time : Z;
  tm_monotonic_time : Z;
  tm_shared_data : bool;           (* user_shared_data is mapped *)
  tm_allocs : list bool;           (* answers of malloc; none left means success *)
  tm_rest : T }.
Arguments Timers {T}.
Arguments tm_abs {T}. Arguments tm_rel {T}. Arguments tm_expired {T}. Arguments tm_next {T}.
Arguments tm_current_time {T}. Arguments tm_monotonic_time {T}. Arguments tm_shared_data {T}.
Arguments tm_allocs {T}. Arguments tm_rest {T}.

Definition TICKS_PER_SEC : Z := 10000000.
Definition user_shared_data_timeout : Z := 16 * 10000.

(** file.h *)
Definition timeout_to_abstime (monotonic_time timeout : Z) : Z :=
  if 0 <? timeout then timeout else s64 (timeout - monotonic_time).
Definition abstime_to_timeout (monotonic_time abstime : Z) : Z :=
  if 0 <? abstime then abstime
  else if s64 (- abstime) <? monotonic_time then 0 else s64 (abstime + monotonic_time).

Section timers.
Context {T : Type}.
Implicit Types (s : timers T).

Definition set_lists (a r e : list timeout_user) s : timers T :=
  Timers a r e (tm_next s) (tm_current_time s) (tm_monotonic_time s) (tm_shared_data s) (tm_allocs s) (tm_rest s).
Definition set_next (n : Z) (allocs : list bool) s : timers T :=
  Timers (tm_abs s) (tm_rel s) (tm_expired s) n (tm_current_time s) (tm_monotonic_time s) (tm_shared_data s)
    allocs (tm_rest s).

Definition timer_alloc : M (timers T) (option Z) := λ s,
  match tm_allocs s with
  | false :: l => Done None (set_next (tm_next s) l s)
  | _ => Done (Some (tm_next s)) (set_next (tm_next s + 1) (tail (tm_allocs s)) s)
  end.

(** [list_add_before] the first element that [stop] holds of, or at the end. *)
Fixpoint add_before (stop : timeout_user → bool) (user : timeout_user) (l : list timeout_user) :
    list timeout_user :=
  match l with
  | [] => [user]
  | x :: l' => if stop x then user :: l else x :: add_before stop user l'
  end.

Definition add_timeout_user (when_ private : Z) : M (timers T) (option Z) :=
  r ← timer_alloc;
  match r with
  | None => mret None
  | Some p =>
      mono ← gets tm_monotonic_time;
      let w := timeout_to_abstime mono when_ in
      let user := TimeoutUser p w private in
      _ ← modify (λ s,
        if 0 <? w
        then set_lists (add_before (λ t, w <=? to_when t) user (tm_abs s)) (tm_rel s) (tm_expired s) s
        else set_lists (tm_abs s) (add_before (λ t, to_when t <=? w) user (tm_rel s)) (tm_expired s) s);
      mret (Some p)
  end.

(** [list_remove] takes the entry out of the list that it is in; an entry that is in none,
    since it has been freed, is an error that stops the run, like a failed assertion. *)
Definition other_user (p : Z) (t : timeout_user) : Prop := to_user t ≠ p.
#[export] Instance other_user_dec p t : Decision (other_user p t).
Proof. unfold other_user. apply _. Defined.
Definition listed s (p : Z) : Prop := p ∈ to_user <$> tm_abs s ++ tm_rel s ++ tm_expired s.
#[export] Instance listed_dec s p : Decision (listed s p).
Proof. unfold listed. apply _. Defined.
Definition remove_timeout_user (p : Z) : M (timers T) unit :=
  found ← gets (λ s, bool_decide (listed s p));
  _ ← c_assert found;
  modify (λ s, set_lists (filter (other_user p) (tm_abs s)) (filter (other_user p) (tm_rel s))
    (filter (other_user p) (tm_expired s)) s).

(** The two loops that move expired timers, from the head of a list to the tail of
    [expired_list]. *)
Fixpoint move_expired (due : timeout_user → bool) (l expired : list timeout_user) :
    list timeout_user * list timeout_user :=
  match l with
  | t :: l' => if due t then move_expired due l' (expired ++ [t]) else (l, expired)
  | [] => ([], expired)
  end.
Definition abs_due (current_time : Z) (t : timeout_user) : bool := to_when t <=? current_time.
Definition rel_due (monotonic_time : Z) (t : timeout_user) : bool := s64 (- to_when t) <=? monotonic_time.

Definition expire s : timers T :=
  let a := move_expired (abs_due (tm_current_time s)) (tm_abs s) [] in
  let r := move_expired (rel_due (tm_monotonic_time s)) (tm_rel s) a.2 in
  set_lists a.1 r.1 r.2 s.

Context (callback : Z → M (timers T) unit).

(** A callback never adds to [expired_list], so that the list gets shorter. *)
Fixpoint call_expired (fuel : nat) : M (timers T) unit :=
  expired ← gets tm_expired;
  match expired with
  | [] => mret tt
  | t :: rest =>
      match fuel with
      | O => no_fuel
      | S fuel =>
          _ ← modify (λ s, set_lists (tm_abs s) (tm_rel s) rest s);
          _ ← callback (to_private t);
          call_expired fuel
      end
  end.

(** How long until the head of a list is due; -1 is forever. *)
Definition closer (ret : Z) (head : option timeout_user) (until : timeout_user → Z) : Z :=
  match head with
  | None => ret
  | Some t =>
      let diff := if until t <? 0 then 0 else until t in
      if (ret =? -1) || (diff <? ret) then diff else ret
  end.
Definition next_timeout s : Z :=
  let ret := if tm_shared_data s then user_shared_data_timeout else -1 in
  let ret := closer ret (head (tm_abs s)) (λ t, s64 (to_when t - tm_current_time s)) in
  closer ret (head (tm_rel s)) (λ t, s64 (s64 (- to_when t) - tm_monotonic_time s)).

(** The result of [get_next_timeout] and what it stores to [*ts]. *)
Definition timeout_result (ret : Z) : Z * option (Z * Z) :=
  if ret =? -1 then (-1, None) else
  let ms := (ret + 9999) / 10000 in
  (if INT_MAX <? ms then INT_MAX else ms, Some (ret / TICKS_PER_SEC, ret mod TICKS_PER_SEC * 100)).

Definition get_next_timeout : M (timers T) (Z * option (Z * Z)) :=
  s ← gets id;
  if bool_decide (tm_abs s = []) && bool_decide (tm_rel s = [])
  then mret (timeout_result (if tm_shared_data s then user_shared_data_timeout else -1))
  else
    _ ← modify expire;
    n ← gets (λ s, length (tm_expired s));
    _ ← call_expired n;
    s ← gets id;
    mret (timeout_result (next_timeout s)).
End timers.
