(* ===== verification/TimersSpec.v ===== *)
(** * Timers: sorted lists and the main loop's sleep

    The lists of src/server/fd.c stay sorted; [get_next_timeout] calls the callback of
    every timer that is due, once, in the order of the lists, and lets the main loop sleep
    until the first remaining timer, never less and at most a millisecond more. *)

From stdpp Require Import sorting.
From S2P Require Import Prelude.
From S2P Require Import Timers.

Lemma s64_small x : - 2 ^ 63 ≤ x < 2 ^ 63 → s64 x = x.
Proof. intros Hx. unfold s64. rewrite Z.mod_small; lia. Qed.

(** ** Times *)

(** A relative timeout that is stored as a time of the monotonic clock and read back
    later is what is left of it, 0 once it has passed; an absolute time is read back as it
    was. *)
Theorem timeout_roundtrip mono mono' t :
  0 ≤ mono ≤ mono' → mono' < 2 ^ 62 → - 2 ^ 62 ≤ t < 2 ^ 63 →
  abstime_to_timeout mono' (timeout_to_abstime mono t) = if 0 <? t then t else Z.min 0 (t + (mono' - mono)).
Proof.
  intros Hm Hm' Ht. unfold abstime_to_timeout, timeout_to_abstime. destruct (Z.ltb_spec 0 t) as [Hp|Hp].
  - by rewrite (proj2 (Z.ltb_lt _ _)).
  - rewrite (s64_small (t - mono)) by lia. rewrite (proj2 (Z.ltb_ge _ _)) by lia.
    rewrite !s64_small by lia. destruct (Z.ltb_spec (- (t - mono)) mono'); lia.
Qed.

(** ** Sorted lists *)

Section sorted.
Implicit Types (l : list timeout_user) (t user : timeout_user).

Definition abs_le t t' : Prop := to_when t ≤ to_when t'.
Definition rel_le t t' : Prop := to_when t' ≤ to_when t.
#[export] Instance abs_le_trans : Transitive abs_le.
Proof. unfold abs_le. intros t1 t2 t3. lia. Qed.
#[export] Instance rel_le_trans : Transitive rel_le.
Proof. unfold rel_le. intros t1 t2 t3. lia. Qed.

Context (le : timeout_user → timeout_user → Prop) `{!Transitive le}.

Lemma filter_all (P : timeout_user → Prop) `{!∀ t, Decision (P t)} l : Forall P l → filter P l = l.
Proof. induction 1 as [|t l Ht _ IH]; [done|]. rewrite filter_cons, decide_True by done. by rewrite IH. Qed.
Lemma filter_none (P : timeout_user → Prop) `{!∀ t, Decision (P t)} l : Forall (λ t, ¬ P t) l → filter P l = [].
Proof. induction 1 as [|t l Ht _ IH]; [done|]. by rewrite filter_cons, decide_False. Qed.

Lemma add_before_perm stop user l : add_before stop user l ≡ₚ user :: l.
Proof.
  induction l as [|x l IH]; simpl; [done|]. destruct (stop x); [done|]. rewrite IH. apply Permutation_swap.
Qed.
Lemma add_before_sorted stop user l :
  (∀ t, stop t = true → le user t) → (∀ t, stop t = false → le t user) →
  StronglySorted le l → StronglySorted le (add_before stop user l).
Proof.
  intros H1 H2 Hs. induction Hs as [|x l Hs IH Hx]; simpl; [by repeat constructor|].
  destruct (stop x) eqn:E.
  - constructor; [by constructor|]. constructor; [by apply H1|].
    rewrite list.Forall_forall in Hx |- *. intros t Ht. etrans; [by apply H1|by apply Hx].
  - constructor; [done|]. rewrite add_before_perm. constructor; [by apply H2|done].
Qed.

(** The due timers are a prefix of a sorted list. *)
Lemma move_expired_spec (due : timeout_user → bool) l :
  (∀ t t', t ∈ l → t' ∈ l → le t t' → due t' = true → due t = true) → StronglySorted le l → ∀ e,
  move_expired due l e = (filter (λ t, due t = false) l, e ++ filter (λ t, due t = true) l).
Proof.
  intros Hdue Hs. induction Hs as [|x l Hs IH Hx]; intros e; simpl.
  { by rewrite app_nil_r. }
  rewrite !filter_cons. destruct (due x) eqn:E.
  - rewrite IH by (intros ????; apply Hdue; by apply elem_of_cons; right).
    rewrite decide_False, decide_True by done. by rewrite <- app_assoc.
  - assert (∀ t, t ∈ l → due t = false) as Hl.
    { intros t Ht. destruct (due t) eqn:Et; [|done]. rewrite list.Forall_forall in Hx. rewrite <- E.
      symmetry. apply (Hdue x t); [by left|by right|by apply Hx|done]. }
    rewrite decide_True, decide_False by done. f_equal.
    + f_equal. rewrite filter_all; [done|]. by apply list.Forall_forall.
    + rewrite filter_none; [by rewrite app_nil_r|]. apply list.Forall_forall. intros t Ht. by rewrite (Hl t Ht).
Qed.

Lemma sorted_head x l t : StronglySorted le (x :: l) → t ∈ x :: l → t = x ∨ le x t.
Proof.
  intros Hs%StronglySorted_inv Ht. destruct Hs as [_ Hx]. rewrite list.Forall_forall in Hx.
  apply elem_of_cons in Ht as [->|Ht]; [by left|right; by apply Hx].
Qed.

Lemma filter_sorted (P : timeout_user → Prop) `{!∀ t, Decision (P t)} l :
  StronglySorted le l → StronglySorted le (filter P l).
Proof.
  intros Hs. induction Hs as [|x l Hs IH Hx]; [constructor|]. rewrite filter_cons. case_decide; [|done].
  constructor; [done|]. rewrite list.Forall_forall in Hx |- *. intros t [_ Ht]%list_elem_of_filter. by apply Hx.
Qed.
End sorted.

(** ** The invariant *)

Section invariant.
Context {T : Type}.
Implicit Types (s : timers T) (t user : timeout_user).

(** Clocks count from their epochs and are far from overflowing. *)
Definition time_ok (x : Z) : Prop := 0 ≤ x < 2 ^ 62.

Record timers_ok s : Prop := {
  ti_abs : StronglySorted abs_le (tm_abs s);
  ti_rel : StronglySorted rel_le (tm_rel s);
  ti_abs_range : ∀ t, t ∈ tm_abs s → 0 < to_when t < 2 ^ 63;
  ti_rel_range : ∀ t, t ∈ tm_rel s → - 2 ^ 63 < to_when t ≤ 0;
  ti_users : NoDup (to_user <$> tm_abs s ++ tm_rel s ++ tm_expired s);
  ti_fresh : ∀ t, t ∈ tm_abs s ++ tm_rel s ++ tm_expired s → to_user t < tm_next s;
  ti_current : time_ok (tm_current_time s);
  ti_monotonic : time_ok (tm_monotonic_time s) }.

Lemma rel_due_exact mono t : - 2 ^ 63 < to_when t ≤ 0 → rel_due mono t = true ↔ - to_when t ≤ mono.
Proof. intros Hr. unfold rel_due. rewrite s64_small by lia. apply Z.leb_le. Qed.

(** The timers that are due. *)
Definition due_timers s : list timeout_user :=
  filter (λ t, abs_due (tm_current_time s) t = true) (tm_abs s) ++
  filter (λ t, rel_due (tm_monotonic_time s) t = true) (tm_rel s).

Lemma expire_spec s :
  timers_ok s → expire s = set_lists (filter (λ t, abs_due (tm_current_time s) t = false) (tm_abs s))
    (filter (λ t, rel_due (tm_monotonic_time s) t = false) (tm_rel s)) (due_timers s) s.
Proof.
  intros [Ha Hr Ra Rr _ _ _ _]. unfold expire.
  rewrite (move_expired_spec abs_le); [|intros t t' _ _; unfold abs_le, abs_due; rewrite !Z.leb_le; lia|done].
  rewrite (move_expired_spec rel_le); [done| |done].
  intros t t' Ht Ht'. unfold rel_le. rewrite !rel_due_exact by auto. lia.
Qed.

Lemma filter_split (f : timeout_user → bool) l :
  filter (λ t, f t = false) l ++ filter (λ t, f t = true) l ≡ₚ l.
Proof.
  induction l as [|t l IH]; [done|]. rewrite !filter_cons. destruct (f t) eqn:E.
  - rewrite decide_False, decide_True by done. rewrite <- Permutation_middle. by rewrite IH.
  - rewrite decide_True, decide_False by done. simpl. by rewrite IH.
Qed.

Lemma timers_ok_expire s : timers_ok s → tm_expired s = [] → timers_ok (expire s).
Proof.
  intros Hok He. rewrite expire_spec by done. destruct Hok as [Ha Hr Ra Rr Hn Hf Hc Hm].
  assert (filter (λ t, abs_due (tm_current_time s) t = false) (tm_abs s) ++
    filter (λ t, rel_due (tm_monotonic_time s) t = false) (tm_rel s) ++ due_timers s ≡ₚ
    tm_abs s ++ tm_rel s ++ tm_expired s) as Hp.
  { rewrite He, app_nil_r. unfold due_timers. etrans.
    2:{ apply Permutation_app; [apply (filter_split (abs_due (tm_current_time s)))|
          apply (filter_split (rel_due (tm_monotonic_time s)))]. }
    solve_Permutation. }
  split; simpl; try done.
  - by apply filter_sorted.
  - by apply filter_sorted.
  - intros t [_ Ht]%list_elem_of_filter. by apply Ra.
  - intros t [_ Ht]%list_elem_of_filter. by apply Rr.
  - by rewrite Hp.
  - intros t. rewrite Hp. apply Hf.
Qed.

Lemma timers_ok_sub s a r e :
  timers_ok s → a `sublist_of` tm_abs s → r `sublist_of` tm_rel s → e `sublist_of` tm_expired s →
  StronglySorted abs_le a → StronglySorted rel_le r → timers_ok (set_lists a r e s).
Proof.
  intros [Ha Hr Ra Rr Hn Hf Hc Hm] H1 H2 H3 Sa Sr.
  assert (a ++ r ++ e `sublist_of` tm_abs s ++ tm_rel s ++ tm_expired s) as Hs
    by (apply sublist_app; [done|]; by apply sublist_app).
  split; simpl; try done.
  - intros t Ht. apply Ra. eapply elem_of_submseteq; [exact Ht|by apply sublist_submseteq].
  - intros t Ht. apply Rr. eapply elem_of_submseteq; [exact Ht|by apply sublist_submseteq].
  - eapply sublist_NoDup; [exact Hn|]. by apply fmap_sublist.
  - intros t Ht. apply Hf. eapply elem_of_submseteq; [exact Ht|by apply sublist_submseteq].
Qed.

(** ** Adding and removing *)

Lemma add_sorted s p w private :
  timers_ok s → tm_next s ≤ p → - 2 ^ 63 < w < 2 ^ 63 →
  let user := TimeoutUser p w private in
  let s' := if 0 <? w
    then set_lists (add_before (λ t, w <=? to_when t) user (tm_abs s)) (tm_rel s) (tm_expired s) (set_next (p + 1) (tail (tm_allocs s)) s)
    else set_lists (tm_abs s) (add_before (λ t, to_when t <=? w) user (tm_rel s)) (tm_expired s) (set_next (p + 1) (tail (tm_allocs s)) s) in
  timers_ok s' ∧ tm_abs s' ++ tm_rel s' ≡ₚ user :: tm_abs s ++ tm_rel s.
Proof.
  intros [Ha Hr Ra Rr Hn Hf Hc Hm] Hp Hw user s'.
  assert (tm_abs s' ++ tm_rel s' ≡ₚ user :: tm_abs s ++ tm_rel s) as Hperm.
  { unfold s'. destruct (0 <? w); simpl; rewrite add_before_perm; [done|]. by rewrite <- Permutation_middle. }
  assert (tm_abs s' ++ tm_rel s' ++ tm_expired s' ≡ₚ user :: tm_abs s ++ tm_rel s ++ tm_expired s) as Hall.
  { rewrite !app_assoc, Hperm. unfold s'. by destruct (0 <? w). }
  split; [|done]. split.
  - unfold s'. destruct (0 <? w); simpl; [|done]. apply (add_before_sorted abs_le); [..|done];
      unfold abs_le; simpl; intros t; rewrite ?Z.leb_le, ?Z.leb_gt; lia.
  - unfold s'. destruct (0 <? w); simpl; [done|]. apply (add_before_sorted rel_le); [..|done];
      unfold rel_le; simpl; intros t; rewrite ?Z.leb_le, ?Z.leb_gt; lia.
  - unfold s'. destruct (Z.ltb_spec 0 w); simpl; [|done]. intros t. rewrite add_before_perm.
    intros [->|Ht]%elem_of_cons; simpl; [lia|by apply Ra].
  - unfold s'. destruct (Z.ltb_spec 0 w); simpl; [done|]. intros t. rewrite add_before_perm.
    intros [->|Ht]%elem_of_cons; simpl; [lia|by apply Rr].
  - rewrite Hall. simpl. apply list.NoDup_cons. split; [|done]. intros (t & E & Ht)%list_elem_of_fmap.
    apply Hf in Ht. lia.
  - intros t. rewrite Hall. assert (tm_next s' = p + 1) as -> by (unfold s'; by destruct (0 <? w)).
    intros [->|Ht]%elem_of_cons; simpl; [lia|]. apply Hf in Ht. lia.
  - unfold s'. by destruct (0 <? w).
  - unfold s'. by destruct (0 <? w).
Qed.

Lemma timers_ok_alloc s l : timers_ok s → timers_ok (set_next (tm_next s) l s).
Proof. by intros []. Qed.

(** Adding a timer puts exactly one new entry for its time into the lists, which stay
    sorted; without memory nothing changes. *)
Theorem add_timeout_user_correct s when_ private :
  timers_ok s → - 2 ^ 62 ≤ when_ < 2 ^ 63 →
  wp (add_timeout_user when_ private) (λ r s', timers_ok s' ∧ match r with
    | None => tm_abs s' = tm_abs s ∧ tm_rel s' = tm_rel s
    | Some p => let user := TimeoutUser p (timeout_to_abstime (tm_monotonic_time s) when_) private in
        p ∉ to_user <$> tm_abs s ++ tm_rel s ∧ tm_abs s' ++ tm_rel s' ≡ₚ user :: tm_abs s ++ tm_rel s
    end) s.
Proof.
  intros Hok Hw. unfold add_timeout_user. rewrite wp_bind. unfold wp at 1, timer_alloc.
  assert (∀ p, p = tm_next s → p ∉ to_user <$> tm_abs s ++ tm_rel s) as Hfresh.
  { intros p -> (t & E & Ht)%list_elem_of_fmap. assert (to_user t < tm_next s); [|lia].
    apply (ti_fresh s Hok). rewrite app_assoc, elem_of_app. by left. }
  assert (- 2 ^ 63 < timeout_to_abstime (tm_monotonic_time s) when_ < 2 ^ 63) as Hr.
  { unfold timeout_to_abstime. pose proof (ti_monotonic s Hok) as Hm. unfold time_ok in Hm.
    destruct (Z.ltb_spec 0 when_); [lia|]. rewrite s64_small by lia. lia. }
  pose proof (add_sorted s (tm_next s) (timeout_to_abstime (tm_monotonic_time s) when_) private Hok (Z.le_refl _) Hr) as Hadd.
  cbv zeta in Hadd.
  destruct (tm_allocs s) as [|[] l]; cbn [tail] in Hadd.
  1, 2: rewrite wp_bind, wp_gets, wp_bind, wp_modify, wp_ret; (split; [apply Hadd|]); (split; [by apply Hfresh|apply Hadd]).
  rewrite wp_ret. split; [by apply timers_ok_alloc|done].
Qed.

Lemma remove_timeout_user_ok s p :
  timers_ok s → listed s p → wp (remove_timeout_user p) (λ _ s', timers_ok s' ∧ p ∉ to_user <$> tm_abs s' ++ tm_rel s' ∧
    tm_expired s' `sublist_of` tm_expired s) s.
Proof.
  intros Hok Hp. unfold remove_timeout_user. rewrite wp_bind, wp_gets, wp_bind, wp_assert, wp_modify. simpl.
  split; [by apply bool_decide_eq_true_2|].
  assert (∀ l : list timeout_user, filter (other_user p) l `sublist_of` l) as Hs by (intros l; apply sublist_filter).
  split; [apply timers_ok_sub; try done; apply filter_sorted; by apply Hok|]. split; [|done].
  intros (t & E & Ht)%list_elem_of_fmap. apply elem_of_app in Ht as [[Hne _]%list_elem_of_filter|[Hne _]%list_elem_of_filter]; by apply Hne.
Qed.

(** ** The sleep of the main loop *)

(** What is left of a timer; the main loop also wakes for the shared data page. *)
Definition abs_left s t : Z := Z.max 0 (to_when t - tm_current_time s).
Definition rel_left s t : Z := Z.max 0 (- to_when t - tm_monotonic_time s).
Definition deadlines s : list Z :=
  (if tm_shared_data s then [user_shared_data_timeout] else []) ++
  (abs_left s <$> tm_abs s) ++ (rel_left s <$> tm_rel s).

(** [ret] is the least of [ds], or -1 if there are none. *)
Definition least (ds : list Z) (ret : Z) : Prop :=
  Forall (λ d, 0 ≤ d) ds ∧ (ds = [] ∧ ret = -1 ∨ ret ∈ ds ∧ Forall (λ d, ret ≤ d) ds).

Lemma closer_least ds ret (l : list timeout_user) (f g : timeout_user → Z) :
  least ds ret → (∀ t, t ∈ l → f t = Z.max 0 (g t)) →
  (∀ t, head l = Some t → ∀ t', t' ∈ l → f t ≤ f t') →
  least (ds ++ (f <$> l)) (closer ret (head l) g).
Proof.
  intros [Hpos Hret] Hf Hhead. destruct l as [|t l]; simpl; [by rewrite app_nil_r|].
  assert (Forall (λ d, 0 ≤ d) (f <$> t :: l)) as Hpos'.
  { rewrite list.Forall_forall. intros d (t' & -> & Ht')%list_elem_of_fmap. rewrite (Hf t' Ht'). lia. }
  assert (Forall (λ d, f t ≤ d) (f <$> t :: l)) as Hmin.
  { rewrite list.Forall_forall. intros d (t' & -> & Ht')%list_elem_of_fmap. by apply (Hhead t). }
  assert ((if g t <? 0 then 0 else g t) = f t) as ->.
  { rewrite (Hf t) by by left. destruct (Z.ltb_spec (g t) 0); lia. }
  split; [by apply list.Forall_app|]. right. destruct Hret as [[-> ->]|[Hin Hle]]; simpl; [split; [by left|done]|].
  assert (ret =? -1 = false) as ->.
  { rewrite list.Forall_forall in Hpos. apply Z.eqb_neq. specialize (Hpos _ Hin). lia. }
  rewrite list.Forall_forall in Hle. destruct (Z.ltb_spec (f t) ret) as [Hlt|Hge]; simpl.
  - split; [apply elem_of_app; right; by left|]. apply list.Forall_app. split; [|done].
    rewrite list.Forall_forall. intros d Hd. specialize (Hle d Hd). lia.
  - split; [apply elem_of_app; by left|]. apply list.Forall_app. split; [by apply list.Forall_forall|].
    rewrite list.Forall_forall in Hmin |- *. intros d Hd. specialize (Hmin d Hd). lia.
Qed.

Lemma next_timeout_least s : timers_ok s → least (deadlines s) (next_timeout s).
Proof.
  intros [Ha Hr Ra Rr _ _ Hc Hm]. unfold time_ok in *. unfold next_timeout, deadlines. rewrite app_assoc. apply closer_least.
  - apply closer_least.
    + unfold least, user_shared_data_timeout. destruct (tm_shared_data s); [|by split; [|left]].
      split; [by repeat constructor|]. right. split; [by left|]. by repeat constructor.
    + intros t Ht. apply Ra in Ht. rewrite s64_small by lia. done.
    + intros t Hh t' Ht'. destruct (tm_abs s) as [|x l]; [done|]. injection Hh as ->.
      destruct (sorted_head abs_le t l t' Ha Ht') as [->|Hle]; [done|]. unfold abs_left, abs_le in *. lia.
  - intros t Ht. apply Rr in Ht. rewrite (s64_small (- to_when t)) by lia. rewrite s64_small by lia. done.
  - intros t Hh t' Ht'. destruct (tm_rel s) as [|x l]; [done|]. injection Hh as ->.
    destruct (sorted_head rel_le t l t' Hr Ht') as [->|Hle]; [done|]. unfold rel_left, rel_le in *. lia.
Qed.

(** The result is forever if nothing is to come; otherwise it is the time to the first
    deadline, exactly in [*ts] and rounded up to milliseconds, which fit an [int], in the
    return value. *)
Definition sleeps_until (ds : list Z) (r : Z * option (Z * Z)) : Prop :=
  match r.2 with
  | None => ds = [] ∧ r.1 = -1
  | Some (sec, nsec) => ∃ d, d ∈ ds ∧ Forall (λ d', d ≤ d') ds ∧
      0 ≤ sec ∧ 0 ≤ nsec < 1000000000 ∧ sec * 1000000000 + nsec = d * 100 ∧
      (d ≤ r.1 * 10000 < d + 10000 ∨ r.1 = INT_MAX ∧ INT_MAX * 10000 < d) ∧ 0 ≤ r.1 ≤ INT_MAX
  end.

Lemma timeout_result_sleeps ds ret : least ds ret → sleeps_until ds (timeout_result ret).
Proof.
  intros [Hpos [[-> ->]|[Hin Hle]]]; [done|]. unfold timeout_result, sleeps_until, TICKS_PER_SEC, INT_MAX.
  assert (0 ≤ ret) as H0 by (rewrite list.Forall_forall in Hpos; by apply Hpos).
  rewrite (proj2 (Z.eqb_neq _ _)) by lia. simpl. exists ret.
  split; [done|]. split; [done|]. split; [apply Z.div_pos; lia|].
  pose proof (Z.mod_pos_bound ret 10000000 ltac:(lia)). pose proof (Z.div_mod ret 10000000 ltac:(lia)).
  split; [lia|]. split; [lia|].
  pose proof (Z.div_mod (ret + 9999) 10000 ltac:(lia)) as Hd. pose proof (Z.mod_pos_bound (ret + 9999) 10000 ltac:(lia)) as Hb.
  destruct (Z.ltb_spec (2 ^ 31 - 1) ((ret + 9999) / 10000)); lia.
Qed.
End invariant.

(** ** Expired timers *)

Section callbacks.
Context {T : Type} (callback : Z → M (timers T) unit).
Implicit Types (s : timers T).

(** Callbacks add and remove timers as they like, but return. *)
Definition returns : Prop := ∀ private s, timers_ok s →
  wp (callback private) (λ _ s', timers_ok s' ∧ tm_expired s' `sublist_of` tm_expired s ∧
    tm_shared_data s' = tm_shared_data s) s.

Lemma call_expired_ok : returns → ∀ fuel s, timers_ok s → (length (tm_expired s) ≤ fuel)%nat →
  wp (call_expired callback fuel) (λ _ s', timers_ok s' ∧ tm_expired s' = []) s.
Proof.
  intros Hcb. induction fuel as [|fuel IH]; intros s Hok Hlen; cbn [call_expired]; rewrite wp_bind, wp_gets;
    destruct (tm_expired s) as [|t rest] eqn:E; try (by rewrite wp_ret); simpl in Hlen; [lia|].
  rewrite wp_bind, wp_modify, wp_bind. eapply wp_mono.
  - apply Hcb. apply timers_ok_sub; try done; [|apply Hok..]. rewrite E. by apply sublist_cons.
  - intros [] s1 (Hok1 & Hsub & _). simpl in Hsub. apply IH; [done|].
    apply sublist_length in Hsub. lia.
Qed.

(** C20: Whatever timers the callbacks of the expired timers add and remove,
    [get_next_timeout] returns, leaves no expired timer to be called and keeps the lists
    sorted; the main loop then sleeps until the first deadline that is left, never less and
    at most one millisecond more, or for INT_MAX milliseconds if that is sooner. The
    callbacks need only return and keep the lists sorted. *)
Theorem get_next_timeout_correct s :
  returns → timers_ok s → tm_expired s = [] →
  wp (get_next_timeout callback) (λ r s', timers_ok s' ∧ tm_expired s' = [] ∧ sleeps_until (deadlines s') r) s.
Proof.
  intros Hcb Hok He. unfold get_next_timeout. rewrite wp_bind, wp_gets. unfold id.
  destruct (bool_decide (tm_abs s = []) && bool_decide (tm_rel s = [])) eqn:Eempty.
  - apply andb_true_iff in Eempty as [Ea Er]. apply bool_decide_eq_true in Ea, Er. rewrite wp_ret.
    split_and!; [done..|]. assert (next_timeout s = if tm_shared_data s then user_shared_data_timeout else -1) as <-.
    { unfold next_timeout. by rewrite Ea, Er. }
    by apply timeout_result_sleeps, next_timeout_least.
  - rewrite wp_bind, wp_modify, wp_bind, wp_gets, wp_bind. eapply wp_mono.
    { apply call_expired_ok; [done|by apply timers_ok_expire|done]. }
    intros [] s1 [Hok1 He1]. rewrite wp_bind, wp_gets, wp_ret. split_and!; [done..|].
    by apply timeout_result_sleeps, next_timeout_least.
Qed.

(** Callbacks that only change the rest of the state. *)
Context (effect : Z → T → T).
Definition with_rest (x : T) s : timers T :=
  Timers (tm_abs s) (tm_rel s) (tm_expired s) (tm_next s) (tm_current_time s) (tm_monotonic_time s)
    (tm_shared_data s) (tm_allocs s) x.
Definition harmless : Prop := ∀ private s, callback private s = Done tt (with_rest (effect private (tm_rest s)) s).

Lemma call_expired_harmless : harmless → ∀ l s, tm_expired s = l →
  call_expired callback (length l) s =
    Done tt (with_rest (fold_left (λ x t, effect (to_private t) x) l (tm_rest s)) (set_lists (tm_abs s) (tm_rel s) [] s)).
Proof.
  intros Hcb. induction l as [|t l IH]; intros s E; cbn [call_expired length];
    unfold mbind at 1, M_bind at 1, gets at 1; rewrite E.
  - unfold mret, M_ret. f_equal. destruct s. simpl in *. by subst.
  - unfold mbind at 1, M_bind at 1, modify. unfold mbind at 1, M_bind at 1. rewrite Hcb. by rewrite IH.
Qed.

(** C21: If callbacks leave the timers alone, the callback of every timer that is due is
    called exactly once, the absolute ones first and each kind in the order of expiry, and
    exactly the others stay in the lists. *)
Theorem due_timers_called s :
  harmless → timers_ok s → tm_expired s = [] →
  wp (get_next_timeout callback) (λ _ s',
    tm_rest s' = fold_left (λ x t, effect (to_private t) x) (due_timers s) (tm_rest s) ∧
    tm_abs s' = filter (λ t, tm_current_time s < to_when t) (tm_abs s) ∧
    tm_rel s' = filter (λ t, tm_monotonic_time s < - to_when t) (tm_rel s)) s.
Proof.
  intros Hcb Hok He. unfold get_next_timeout. rewrite wp_bind, wp_gets. unfold id.
  assert (filter (λ t, abs_due (tm_current_time s) t = false) (tm_abs s) =
    filter (λ t, tm_current_time s < to_when t) (tm_abs s)) as Ea.
  { apply list_filter_iff. intros t. apply Z.leb_gt. }
  assert (filter (λ t, rel_due (tm_monotonic_time s) t = false) (tm_rel s) =
    filter (λ t, tm_monotonic_time s < - to_when t) (tm_rel s)) as Er.
  { assert (∀ l : list timeout_user, (∀ t, t ∈ l → - 2 ^ 63 < to_when t ≤ 0) →
      filter (λ t, rel_due (tm_monotonic_time s) t = false) l = filter (λ t, tm_monotonic_time s < - to_when t) l) as Hl.
    { induction l as [|t l IH]; intros Hl; [done|]. rewrite !filter_cons, IH by (intros; apply Hl; by right).
      pose proof (rel_due_exact (tm_monotonic_time s) t (Hl t ltac:(by left))) as Hd.
      destruct (rel_due (tm_monotonic_time s) t); repeat case_decide; try done; intuition lia. }
    apply Hl. by apply Hok. }
  destruct (bool_decide (tm_abs s = []) && bool_decide (tm_rel s = [])) eqn:Eempty.
  - apply andb_true_iff in Eempty as [E1 E2]. apply bool_decide_eq_true in E1, E2. rewrite wp_ret.
    unfold due_timers. by rewrite E1, E2.
  - rewrite wp_bind, wp_modify, wp_bind, wp_gets, wp_bind. rewrite expire_spec by done. rewrite Ea, Er.
    eapply wp_of_exec; [by apply call_expired_harmless|]. cbv beta. by rewrite wp_bind, wp_gets, wp_ret.
Qed.
End callbacks.

(** ** Witnesses *)

(** Three absolute and two relative timers; a callback records its argument, that of 9
    also removes the timer 2. *)
Definition demo_timers : timers (list Z) :=
  Timers [TimeoutUser 0 100 7; TimeoutUser 1 150 8; TimeoutUser 2 150 9] [TimeoutUser 3 (-40) 10; TimeoutUser 4 (-90) 11]
    [] 5 120 50 false [] [].
Definition record_call (private : Z) : M (timers (list Z)) unit := modify (λ s, with_rest (tm_rest s ++ [private]) s).

Lemma demo_timers_ok : timers_ok demo_timers.
Proof.
  split; simpl; [..|unfold time_ok; lia|unfold time_ok; lia].
  - repeat constructor; unfold abs_le; simpl; lia.
  - repeat constructor; unfold rel_le; simpl; lia.
  - intros t Ht. repeat (apply elem_of_cons in Ht as [->|Ht]; [simpl; lia|]). by apply elem_of_nil in Ht.
  - intros t Ht. repeat (apply elem_of_cons in Ht as [->|Ht]; [simpl; lia|]). by apply elem_of_nil in Ht.
  - apply (bool_decide_eq_true_1 _). by vm_compute.
  - intros t Ht. repeat (apply elem_of_cons in Ht as [->|Ht]; [simpl; lia|]). by apply elem_of_nil in Ht.
Qed.
Lemma record_harmless : harmless record_call (λ private l, l ++ [private]).
Proof. by intros private s. Qed.
Lemma record_returns : returns record_call.
Proof. intros private s [Ha Hr Ra Rr Hn Hf Hc Hm]. unfold record_call. rewrite wp_modify. by split. Qed.

Lemma timeout_roundtrip_witness : abstime_to_timeout 700 (timeout_to_abstime 500 (-1000)) = -800.
Proof. apply (timeout_roundtrip 500 700 (-1000)); lia. Defined.

Lemma add_timeout_user_correct_witness :
  wp (add_timeout_user (-30) 12) (λ r s', timers_ok s' ∧ r ≠ None) demo_timers.
Proof.
  pose proof (add_timeout_user_correct demo_timers (-30) 12 demo_timers_ok ltac:(lia)) as Hw.
  unfold wp in *. revert Hw. vm_compute (add_timeout_user (-30) 12 demo_timers). by intros [? _].
Defined.

Lemma get_next_timeout_correct_witness :
  wp (get_next_timeout record_call) (λ r s', sleeps_until (deadlines s') r) demo_timers.
Proof.
  eapply wp_mono; [apply (get_next_timeout_correct record_call demo_timers record_returns demo_timers_ok); reflexivity|].
  by intros r s' (_ & _ & ?).
Defined.

Lemma due_timers_called_witness :
  wp (get_next_timeout record_call) (λ _ s', tm_rest s' = [7; 10] ∧ to_user <$> tm_abs s' = [1; 2]) demo_timers.
Proof.
  eapply wp_mono.
  - apply (due_timers_called record_call (λ private l, l ++ [private]) demo_timers record_harmless demo_timers_ok); reflexivity.
  - intros r s' (-> & -> & _). split; by vm_compute.
Defined.
