(* ===== verification/Atoms.v ===== *)
(** * Atom tables

    src/server/atom.c: tables from atoms to names with reference counts. The entries are on
    a heap, linked into 37 hash lists in both directions; an array gives the entry of each
    atom. Names compare by the lower case of their 16-bit characters
    (src/server/unicode.c). *)

From stdpp Require Import strings.
From S2P Require Import Prelude.

(** The table [casemap] that the server loads from a file, by index. *)
Class CaseMap := casemap : Z → Z.

Definition HASH_SIZE : Z := 37.
Definition MIN_STR_ATOM : Z := 0xc000.
Definition MAX_ATOMS : Z := 0x4000.
Definition MAXINTATOM : Z := 0xc000.
Definition MAX_ATOM_LEN : Z := 255.

Definition STATUS_INVALID_HANDLE : Z := 0xc0000008.
Definition STATUS_INVALID_PARAMETER : Z := 0xc000000d.
Definition STATUS_NO_MEMORY : Z := 0xc0000017.
Definition STATUS_OBJECT_NAME_INVALID : Z := 0xc0000033.
Definition STATUS_OBJECT_NAME_NOT_FOUND : Z := 0xc0000034.

Record atom_entry := AtomEntry {
  ae_next : option Z; ae_prev : option Z; ae_count : Z; ae_atom : Z; ae_hash : Z; ae_str : list Z }.

(** The heap of entries, the table and the error of the running request. *)
Record atom_table := AtomTable {
  at_heap : gmap Z atom_entry;
  at_next_ptr : Z;
  at_allocs : list bool;        (* answers of malloc; none left means success *)
  at_count : Z;
  at_atoms : gmap Z Z;          (* atoms[]; absent is NULL *)
  at_entries : gmap Z Z;        (* entries[]; absent is NULL *)
  at_error : Z }.

Definition A := M atom_table.

Definition set_heap (h : gmap Z atom_entry) (t : atom_table) : atom_table :=
  AtomTable h (at_next_ptr t) (at_allocs t) (at_count t) (at_atoms t) (at_entries t) (at_error t).
Definition set_alloc (p : Z) (l : list bool) (t : atom_table) : atom_table :=
  AtomTable (at_heap t) p l (at_count t) (at_atoms t) (at_entries t) (at_error t).
Definition set_atoms (n : Z) (m : gmap Z Z) (t : atom_table) : atom_table :=
  AtomTable (at_heap t) (at_next_ptr t) (at_allocs t) n m (at_entries t) (at_error t).
Definition set_entries (m : gmap Z Z) (t : atom_table) : atom_table :=
  AtomTable (at_heap t) (at_next_ptr t) (at_allocs t) (at_count t) (at_atoms t) m (at_error t).
Definition set_error (e : Z) : A unit := modify (λ t,
  AtomTable (at_heap t) (at_next_ptr t) (at_allocs t) (at_count t) (at_atoms t) (at_entries t) e).

(** [create_atom_table] *)
Definition new_atom_table : atom_table := AtomTable ∅ 1 [] 1 ∅ ∅ 0.

(** Dereferencing a pointer that is not allocated is a failure. *)
Definition entry_of (p : Z) : A atom_entry := λ t,
  match at_heap t !! p with Some e => Done e t | None => AssertFailed end.
Definition set_entry (p : Z) (e : atom_entry) : A unit := modify (λ t, set_heap (<[p := e]> (at_heap t)) t).
Definition update_entry (p : Z) (f : atom_entry → atom_entry) : A unit := e ← entry_of p; set_entry p (f e).
Definition free_entry (p : Z) : A unit := modify (λ t, set_heap (delete p (at_heap t)) t).

Definition with_next (n : option Z) (e : atom_entry) : atom_entry :=
  AtomEntry n (ae_prev e) (ae_count e) (ae_atom e) (ae_hash e) (ae_str e).
Definition with_prev (p : option Z) (e : atom_entry) : atom_entry :=
  AtomEntry (ae_next e) p (ae_count e) (ae_atom e) (ae_hash e) (ae_str e).
Definition with_count (n : Z) (e : atom_entry) : atom_entry :=
  AtomEntry (ae_next e) (ae_prev e) n (ae_atom e) (ae_hash e) (ae_str e).
Definition with_atom (a : Z) (e : atom_entry) : atom_entry :=
  AtomEntry (ae_next e) (ae_prev e) (ae_count e) a (ae_hash e) (ae_str e).
Definition with_name (hash : Z) (str : list Z) (e : atom_entry) : atom_entry :=
  AtomEntry (ae_next e) (ae_prev e) (ae_count e) (ae_atom e) hash str.

(** ** Strings (unicode.c) *)

Section strings.
Context `{CaseMap}.

Definition to_lower (ch : Z) : Z :=
  u16 (ch + casemap (casemap (casemap (Z.shiftr ch 8) + Z.land (Z.shiftr ch 4) 0x0f) + Z.land ch 0x0f)).

(** Compares [len / 2] characters. *)
Fixpoint memicmp_strW (str1 str2 : list Z) (n : nat) : Z :=
  match n, str1, str2 with
  | S n, c1 :: str1, c2 :: str2 =>
      let ret := to_lower c1 - to_lower c2 in
      if truth ret then ret else memicmp_strW str1 str2 n
  | _, _, _ => 0
  end.

Definition hash_strW (str : list Z) (hash_size : Z) : Z :=
  fold_left (λ hash ch, u32 (hash * 65599 + to_lower ch)) str 0 mod hash_size.
End strings.

(** ** Atoms *)

(** Loop over the digits; None is the early return. *)
Fixpoint int_atom_digits (ret : Z) (str : list Z) : Z :=
  match str with
  | [] => ret
  | c :: str =>
      if (c <? 48) || (57 <? c) then 0 else
      let ret := u32 (u32 (ret * 10) + c - 48) in
      if MAXINTATOM <=? ret then 0 else int_atom_digits ret str
  end.
(** The string has been found not to be empty. *)
Definition get_int_atom_value (str : list Z) : Z :=
  match str with
  | c :: str => if negb (c =? 35) then 0 else int_atom_digits 0 str
  | [] => 0
  end.

Definition get_atom_entry (atom : Z) : A (option Z) :=
  t ← gets id;
  let entry := if (MIN_STR_ATOM <=? atom) && (atom <? MIN_STR_ATOM + at_count t)
               then at_atoms t !! (atom - MIN_STR_ATOM) else None in
  _ ← when (bool_decide (entry = None)) (set_error STATUS_INVALID_HANDLE);
  mret entry.

(** The first free index from [i]; [fuel] is the distance to [count]. *)
Fixpoint free_index (fuel : nat) (atoms : gmap Z Z) (i : Z) : Z :=
  match fuel with
  | O => i
  | S fuel => if bool_decide (atoms !! i = None) then i else free_index fuel atoms (i + 1)
  end.
Definition add_atom_entry (entry : Z) : A Z :=
  t ← gets id;
  let i := free_index (Z.to_nat (at_count t - 1)) (at_atoms t) 1 in
  if i =? MAX_ATOMS then mret 0 else
  let count := if i =? at_count t then at_count t + 1 else at_count t in
  _ ← modify (set_atoms count (<[i := entry]> (at_atoms t)));
  _ ← update_entry entry (with_atom (i + MIN_STR_ATOM));
  mret (i + MIN_STR_ATOM).

Definition mem_alloc_entry : A (option Z) := λ t,
  match at_allocs t with
  | false :: l => (_ ← set_error STATUS_NO_MEMORY; mret None) (set_alloc (at_next_ptr t) l t)
  | _ =>
      let p := at_next_ptr t in
      Done (Some p) (set_heap (<[p := AtomEntry None None 0 0 0 []]> (at_heap t)) (set_alloc (p + 1) (tail (at_allocs t)) t))
  end.

Section atoms.
Context `{CaseMap}.

(** The loop over a hash list. *)
Fixpoint find_in_list (fuel : nat) (entry : option Z) (str : list Z) : A (option Z) :=
  match entry with
  | None => mret None
  | Some p =>
      match fuel with
      | O => no_fuel
      | S fuel =>
          e ← entry_of p;
          if (Z.of_nat (length (ae_str e)) =? Z.of_nat (length str)) &&
             (memicmp_strW (ae_str e) str (length str) =? 0)
          then mret (Some p) else find_in_list fuel (ae_next e) str
      end
  end.
Definition find_atom_entry (str : list Z) (hash : Z) : A (option Z) :=
  t ← gets id; find_in_list (size (at_heap t)) (at_entries t !! hash) str.

(** The checks that [add_atom] and [find_atom] begin with: an error, or go on. *)
Definition check_name (str : list Z) (k : A Z) : A Z :=
  if bool_decide (str = []) then _ ← set_error STATUS_OBJECT_NAME_INVALID; mret 0
  else if MAX_ATOM_LEN <? Z.of_nat (length str) then _ ← set_error STATUS_INVALID_PARAMETER; mret 0
  else if truth (get_int_atom_value str) then mret (get_int_atom_value str) else k.

Definition add_atom (str : list Z) : A Z :=
  check_name str (
    let hash := hash_strW str HASH_SIZE in
    found ← find_atom_entry str hash;
    match found with
    | Some p => _ ← update_entry p (λ e, with_count (s32 (ae_count e + 1)) e); e ← entry_of p; mret (ae_atom e)
    | None =>
        r ← mem_alloc_entry;
        match r with
        | None => mret 0
        | Some p =>
            atom ← add_atom_entry p;
            if truth atom then
              head ← gets (λ t, at_entries t !! hash);
              _ ← update_entry p (with_next head ∘ with_prev None);
              _ ← (match head with Some n => update_entry n (with_prev (Some p)) | None => mret tt end);
              _ ← modify (λ t, set_entries (<[hash := p]> (at_entries t)) t);
              _ ← update_entry p (with_name hash str ∘ with_count 1);
              mret atom
            else
              _ ← set_error STATUS_NO_MEMORY; _ ← free_entry p; mret atom
        end
    end).

Definition delete_atom (atom : Z) : A unit :=
  r ← get_atom_entry atom;
  match r with
  | None => mret tt
  | Some p =>
      _ ← update_entry p (λ e, with_count (s32 (ae_count e - 1)) e);
      e ← entry_of p;
      if truth (ae_count e) then mret tt else
      _ ← (match ae_next e with Some n => update_entry n (with_prev (ae_prev e)) | None => mret tt end);
      _ ← (match ae_prev e with
           | Some q => update_entry q (with_next (ae_next e))
           | None => modify (λ t, set_entries (match ae_next e with
                                                | Some n => <[ae_hash e := n]> (at_entries t)
                                                | None => delete (ae_hash e) (at_entries t) end) t)
           end);
      _ ← modify (λ t, set_atoms (at_count t) (delete (atom - MIN_STR_ATOM) (at_atoms t)) t);
      free_entry p
  end.

Definition find_atom (str : list Z) : A Z :=
  check_name str (
    found ← find_atom_entry str (hash_strW str HASH_SIZE);
    match found with
    | None => _ ← set_error STATUS_OBJECT_NAME_NOT_FOUND; mret 0
    | Some p => e ← entry_of p; mret (ae_atom e)
    end).

Definition grab_atom (atom : Z) : A Z :=
  if MIN_STR_ATOM <=? atom then
    r ← get_atom_entry atom;
    match r with
    | None => mret 0
    | Some p => _ ← update_entry p (λ e, with_count (s32 (ae_count e + 1)) e); mret atom
    end
  else mret atom.
Definition release_atom (atom : Z) : A unit := when (MIN_STR_ATOM <=? atom) (delete_atom atom).

(** What the reply holds of [data] (request.h). *)
Definition set_reply_data (data : list Z) : A (list Z) := λ t,
  match data, at_allocs t with
  | [], _ => Done [] t
  | _, false :: l => (_ ← set_error STATUS_NO_MEMORY; mret []) (set_alloc (at_next_ptr t) l t)
  | _, _ => Done data (set_alloc (at_next_ptr t) (tail (at_allocs t)) t)
  end.

(** The requests; [get_atom_information] yields the count, the name cut to the room for the
    reply, and the length of the name in bytes. *)
Definition req_get_atom_information (atom reply_max_size : Z) : A (Z * list Z * Z) :=
  r ← get_atom_entry atom;
  match r with
  | Some p =>
      e ← entry_of p;
      let len := 2 * Z.of_nat (length (ae_str e)) in
      data ← set_reply_data (take (Z.to_nat (Z.min len reply_max_size / 2)) (ae_str e));
      mret (ae_count e, data, len)
  | None => mret (-1, [], 0)
  end.

Definition atom_table_destroy : A unit :=
  t ← gets id;
  for_each (seq 0 (Z.to_nat (at_count t)))
    (λ i, match at_atoms t !! Z.of_nat i with Some p => free_entry p | None => mret tt end).

(** ** The standard names *)

Definition add_atom_asciiz (name : string) : A unit :=
  _ ← add_atom (map (λ c, Z.of_N (Ascii.N_of_ascii c)) (String.list_ascii_of_string name)); mret tt.
Definition set_global_atom_table : A unit := for_each
  ["StdExit"; "StdNewDocument"; "StdOpenDocument"; "StdEditDocument"; "StdNewfromTemplate";
   "StdCloseDocument"; "StdShowItem"; "StdDoVerbItem"; "System"; "OLEsystem";
   "StdDocumentName"; "Protocols"; "Topics"; "Formats"; "Status"; "EditEnvItems"; "True";
   "False"; "Change"; "Save"; "Close"; "MSDraw"; "CC32SubclassInfo"]%string add_atom_asciiz.
Definition set_user_atom_table : A unit := for_each
  ["USER32"; "ObjectLink"; "OwnerLink"; "Native"; "Binary"; "FileName"; "FileNameW";
   "NetworkName"; "DataObject"; "Embedded Object"; "Embed Source"; "Custom Link Source";
   "Link Source"; "Object Descriptor"; "Link Source Descriptor"; "OleDraw"; "PBrush";
   "MSDraw"; "Ole Private Data"; "Screen Picture"; "OleClipboardPersistOnFlush";
   "MoreOlePrivateData"; "Button"; "Edit"; "Static"; "ListBox"; "ScrollBar"; "ComboBox"]%string add_atom_asciiz.
End atoms.
