(* ===== verification/AtomsInv.v ===== *)
(** * The invariant of an atom table

    The hash lists are doubly linked and partition the heap, the array inverts the atoms of
    the entries, and no two names are equal up to case. *)

From S2P Require Import Prelude.
From S2P Require Import Atoms.

Section atoms_inv.
Context `{CaseMap}.
Implicit Types (t : atom_table) (e : atom_entry) (m : gmap Z atom_entry) (l : list Z).

(** ** Names up to case *)

Definition fold_name (str : list Z) : list Z := to_lower <$> str.


Lemma memicmp_fold str1 : ∀ str2, length str1 = length str2 →
  memicmp_strW str1 str2 (length str2) = 0 ↔ fold_name str1 = fold_name str2.
Proof.
  induction str1 as [|c1 str1 IH]; intros [|c2 str2]; simpl; try done. intros [= E].
  unfold truth. destruct (Z.eqb_spec (to_lower c1 - to_lower c2) 0) as [E0|E0]; simpl.
  - rewrite IH by done. unfold fold_name. simpl. split; [intros ->; f_equal; lia|]. by intros [= _ ->].
  - split; [done|]. intros [= E1 _]. lia.
Qed.
Lemma same_name_iff str1 str2 :
  (Z.of_nat (length str1) =? Z.of_nat (length str2)) && (memicmp_strW str1 str2 (length str2) =? 0) = true ↔
  fold_name str1 = fold_name str2.
Proof.
  rewrite andb_true_iff, !Z.eqb_eq. split.
  - intros [E Hm]. apply memicmp_fold; [lia|done].
  - intros E. assert (length str1 = length str2) as El.
    { apply (f_equal length) in E. unfold fold_name in E. by rewrite !length_fmap in E. }
    split; [lia|by apply memicmp_fold].
Qed.

Lemma hash_fold str1 str2 n : fold_name str1 = fold_name str2 → hash_strW str1 n = hash_strW str2 n.
Proof.
  intros E. unfold hash_strW. f_equal. generalize 0. revert str2 E.
  induction str1 as [|c1 str1 IH]; intros [|c2 str2] E z; try done. simpl.
  unfold fold_name in E. simpl in E. injection E as E1 E2. rewrite E1. by apply IH.
Qed.

(** ** Linked lists *)

(** The entries of [l] are linked, between [prev] and [next]. *)
Fixpoint linked m (prev : option Z) l (next : option Z) : Prop :=
  match l with
  | [] => True
  | p :: l => ∃ e, m !! p = Some e ∧ ae_prev e = prev ∧
      ae_next e = match l with [] => next | q :: _ => Some q end ∧ linked m (Some p) l next
  end.
Definition first l (next : option Z) : option Z := match l with [] => next | q :: _ => Some q end.
Fixpoint final (prev : option Z) l : option Z := match l with [] => prev | p :: l => final (Some p) l end.

Lemma linked_app m l1 l2 : ∀ prev next,
  linked m prev (l1 ++ l2) next ↔ linked m prev l1 (first l2 next) ∧ linked m (final prev l1) l2 next.
Proof.
  induction l1 as [|p l1 IH]; intros prev next; [by split; [|intros [_ ?]]|].
  simpl. setoid_rewrite IH.
  assert (match l1 ++ l2 with [] => next | q :: _ => Some q end = match l1 with [] => first l2 next | q :: _ => Some q end) as ->
    by by destruct l1.
  naive_solver.
Qed.
Lemma linked_agree m m' l : ∀ prev next,
  (∀ p, p ∈ l → ∃ e e', m !! p = Some e ∧ m' !! p = Some e' ∧ ae_prev e' = ae_prev e ∧ ae_next e' = ae_next e) →
  linked m prev l next → linked m' prev l next.
Proof.
  induction l as [|p l IH]; intros prev next Hm; [done|]. intros (e & He & Hp & Hn & Hl).
  destruct (Hm p ltac:(by left)) as (e1 & e' & He1 & He' & E1 & E2). assert (e1 = e) as -> by congruence.
  exists e'. split; [done|]. split; [congruence|]. split; [congruence|]. apply IH; [|done].
  intros q Hq. apply Hm. by right.
Qed.
Lemma linked_other m q e' l prev next : q ∉ l → linked m prev l next → linked (<[q:=e']> m) prev l next.
Proof.
  intros Hq Hl. revert prev Hq Hl. induction l as [|p l IH]; intros prev Hq; [done|].
  intros (e & He & Hp & Hn & Hl). apply not_elem_of_cons in Hq as [Hne Hq]. exists e.
  rewrite lookup_insert_ne by done. split_and!; [done..|]. by apply IH.
Qed.
Lemma linked_delete m q l prev next : q ∉ l → linked m prev l next → linked (delete q m) prev l next.
Proof.
  intros Hq Hl. revert prev Hq Hl. induction l as [|p l IH]; intros prev Hq; [done|].
  intros (e & He & Hp & Hn & Hl). apply not_elem_of_cons in Hq as [Hne Hq]. exists e.
  rewrite lookup_delete_ne by done. split_and!; [done..|]. by apply IH.
Qed.

(** The first entry gets another predecessor. *)
Lemma linked_set_prev m p e l prev prev' next :
  NoDup (p :: l) → m !! p = Some e → linked m prev (p :: l) next → linked (<[p := with_prev prev' e]> m) prev' (p :: l) next.
Proof.
  intros [Hp _]%list.NoDup_cons He (e1 & He1 & _ & Hn & Hl). assert (e1 = e) as -> by congruence.
  exists (with_prev prev' e). rewrite lookup_insert_eq. split_and!; [done..|]. by apply linked_other.
Qed.
(** The last entry gets another successor. *)
Lemma linked_set_next m p e l prev next next' :
  NoDup (l ++ [p]) → m !! p = Some e → linked m prev (l ++ [p]) next → linked (<[p := with_next next' e]> m) prev (l ++ [p]) next'.
Proof.
  intros Hnd He. rewrite !linked_app. intros [Hl (e1 & He1 & Hp & _)]. assert (e1 = e) as -> by congruence.
  apply list.NoDup_app in Hnd as (_ & Hnd & _). split.
  - apply linked_other; [|done]. intros Hin. apply (Hnd p Hin). by left.
  - exists (with_next next' e). rewrite lookup_insert_eq. by split_and!.
Qed.

(** ** The invariant *)

(** A name that gets an entry. *)
Definition name_ok (str : list Z) : Prop :=
  str ≠ [] ∧ Z.of_nat (length str) ≤ MAX_ATOM_LEN ∧ get_int_atom_value str = 0.

(** [C h] is the hash list of [h]. *)
Record table_ok t (C : Z → list Z) : Prop := {
  tc_linked : ∀ h, linked (at_heap t) None (C h) None;
  tc_head : ∀ h, at_entries t !! h = first (C h) None;
  tc_nodup : ∀ h, NoDup (C h);
  tc_in : ∀ h p, p ∈ C h ↔ ∃ e, at_heap t !! p = Some e ∧ ae_hash e = h;
  tc_atom : ∀ i p, at_atoms t !! i = Some p ↔ ∃ e, at_heap t !! p = Some e ∧ ae_atom e = i + MIN_STR_ATOM;
  tc_index : ∀ i, is_Some (at_atoms t !! i) → 1 ≤ i < at_count t;
  tc_count : 1 ≤ at_count t ≤ MAX_ATOMS;
  tc_entry : ∀ p e, at_heap t !! p = Some e →
    1 ≤ ae_count e ≤ INT_MAX ∧ name_ok (ae_str e) ∧ ae_hash e = hash_strW (ae_str e) HASH_SIZE;
  tc_unique : ∀ p q e f, at_heap t !! p = Some e → at_heap t !! q = Some f →
    fold_name (ae_str e) = fold_name (ae_str f) → p = q;
  tc_fresh : ∀ p, is_Some (at_heap t !! p) → p < at_next_ptr t }.

(** The names by index, with their reference counts. *)
Definition names t : gmap Z (list Z * Z) :=
  omap (λ p, (λ e, (ae_str e, ae_count e)) <$> at_heap t !! p) (at_atoms t).

Lemma names_lookup t C i x :
  table_ok t C → names t !! i = Some x ↔
    ∃ p e, at_heap t !! p = Some e ∧ ae_atom e = i + MIN_STR_ATOM ∧ x = (ae_str e, ae_count e).
Proof.
  intros Hok. unfold names. rewrite lookup_omap_Some. split.
  - intros (p & Hx & Hp). apply fmap_Some in Hx as (e & He & ->). apply (tc_atom _ _ Hok) in Hp as (e' & He' & Ha).
    assert (e' = e) as -> by congruence. by exists p, e.
  - intros (p & e & He & Ha & ->). exists p. rewrite He. split; [done|]. apply (tc_atom _ _ Hok). by exists e.
Qed.

Lemma new_atom_table_ok : table_ok new_atom_table (λ _, []).
Proof.
  split; simpl; try done; try (intros ?? Hp; by rewrite lookup_empty in Hp).
  - intros h. constructor.
  - intros h p. split; [by intros ?%elem_of_nil|]. intros (e & He & _). by rewrite lookup_empty in He.
  - intros i p. rewrite lookup_empty. split; [done|]. intros (e & He & _). by rewrite lookup_empty in He.
  - intros i [p Hp]. by rewrite lookup_empty in Hp.
  - intros p [e Hp]. by rewrite lookup_empty in Hp.
Qed.

(** ** Dereferencing *)

Lemma wp_entry_of (p : Z) e t (Q : atom_entry → atom_table → Prop) :
  at_heap t !! p = Some e → wp (entry_of p) Q t ↔ Q e t.
Proof. intros He. unfold wp, entry_of. by rewrite He. Qed.
Lemma wp_update_entry (p : Z) e f t (Q : unit → atom_table → Prop) :
  at_heap t !! p = Some e → wp (update_entry p f) Q t ↔ Q tt (set_heap (<[p := f e]> (at_heap t)) t).
Proof. intros He. unfold update_entry. by rewrite wp_bind, (wp_entry_of _ _ _ _ He). Qed.

(** ** Searching *)

Lemma find_in_list_spec t str l : ∀ fuel prev,
  (length l ≤ fuel)%nat → linked (at_heap t) prev l None →
  wp (find_in_list fuel (first l None) str) (λ r t', t' = t ∧
    match r with
    | Some p => p ∈ l ∧ ∃ e, at_heap t !! p = Some e ∧ fold_name (ae_str e) = fold_name str
    | None => ∀ p e, p ∈ l → at_heap t !! p = Some e → fold_name (ae_str e) ≠ fold_name str
    end) t.
Proof.
  induction l as [|p l IH]; intros fuel prev Hlen.
  { intros _. destruct fuel; simpl; rewrite wp_ret; (split; [done|]); by intros p e ?%elem_of_nil. }
  intros (e & He & _ & Hn & Hl). destruct fuel as [|fuel]; simpl in Hlen; [lia|]. cbn [first find_in_list].
  rewrite wp_bind, (wp_entry_of _ _ _ _ He).
  destruct (_ && _) eqn:E.
  - rewrite wp_ret. split; [done|]. split; [by left|]. exists e. split; [done|]. by apply same_name_iff.
  - rewrite Hn. eapply wp_mono; [apply (IH fuel (Some p)); [lia|done]|].
    intros [q|] t' [-> Hr]; (split; [done|]).
    + destruct Hr as [Hin Hq]. split; [by right|done].
    + intros q f [->|Hin]%elem_of_cons Hf; [|by apply (Hr q)].
      assert (f = e) as -> by congruence. intros Hsame. apply same_name_iff in Hsame. congruence.
Qed.

Lemma chain_short t C h : table_ok t C → (length (C h) ≤ size (at_heap t))%nat.
Proof.
  intros Hok. rewrite <- size_dom. rewrite <- (size_list_to_set (C := gset Z)) by apply Hok.
  apply subseteq_size. intros p Hp%elem_of_list_to_set. apply (tc_in _ _ Hok) in Hp as (e & He & _).
  by apply elem_of_dom; exists e.
Qed.

Lemma find_atom_entry_spec t C str :
  table_ok t C →
  wp (find_atom_entry str (hash_strW str HASH_SIZE)) (λ r t', t' = t ∧
    match r with
    | Some p => ∃ e, at_heap t !! p = Some e ∧ fold_name (ae_str e) = fold_name str
    | None => ∀ p e, at_heap t !! p = Some e → fold_name (ae_str e) ≠ fold_name str
    end) t.
Proof.
  intros Hok. unfold find_atom_entry. rewrite wp_bind, wp_gets. unfold id. rewrite (tc_head _ _ Hok).
  eapply wp_mono; [apply (find_in_list_spec t str _ _ None); [by apply chain_short|apply Hok]|].
  intros [p|] t' [-> Hr]; (split; [done|]); [apply Hr|]. intros p e He Hsame. apply (Hr p e); [|done|done].
  apply (tc_in _ _ Hok). exists e. split; [done|]. destruct (tc_entry _ _ Hok p e He) as (_ & _ & ->). by apply hash_fold.
Qed.

(** ** Changing a count *)

Lemma table_ok_count t C p e n :
  table_ok t C → at_heap t !! p = Some e → 1 ≤ n ≤ INT_MAX →
  let t' := set_heap (<[p := with_count n e]> (at_heap t)) t in
  table_ok t' C ∧ names t' = <[ae_atom e - MIN_STR_ATOM := (ae_str e, n)]> (names t).
Proof.
  intros Hok He Hn t'.
  assert (∀ q f, at_heap t' !! q = Some f → ∃ f', at_heap t !! q = Some f' ∧ ae_next f = ae_next f' ∧ ae_prev f = ae_prev f' ∧
    ae_atom f = ae_atom f' ∧ ae_hash f = ae_hash f' ∧ ae_str f = ae_str f' ∧ ae_count f = if decide (q = p) then n else ae_count f') as Hf.
  { intros q f. simpl. rewrite lookup_insert. case_decide as E.
    - intros [= <-]. subst q. exists e. rewrite decide_True by done. by split_and!.
    - intros Hq. exists f. rewrite decide_False by congruence. by split_and!. }
  assert (∀ q f', at_heap t !! q = Some f' → ∃ f, at_heap t' !! q = Some f ∧ ae_next f = ae_next f' ∧ ae_prev f = ae_prev f' ∧
    ae_atom f = ae_atom f' ∧ ae_hash f = ae_hash f') as Hb.
  { intros q f' Hq. simpl. rewrite lookup_insert. case_decide as E; [|by exists f'].
    subst q. assert (f' = e) as -> by congruence. by exists (with_count n e). }
  pose proof Hok as [L H0 N I At Ix Ct En Un Fr].
  assert (table_ok t' C) as Hok'.
  { split; try done.
    - intros h. eapply linked_agree; [|apply L]. intros q Hq. apply I in Hq as (f & Hq & _).
      destruct (Hb q f Hq) as (f' & Hq' & E1 & E2 & _). by exists f, f'.
    - intros h q. rewrite I. split; intros (f & Hq & <-).
      + destruct (Hb q f Hq) as (f' & Hq' & _ & _ & _ & E). by exists f'.
      + destruct (Hf q f Hq) as (f' & Hq' & _ & _ & _ & E & _). by exists f'.
    - intros i q. etrans; [apply At|]. split; intros (f & Hq & Ha).
      + destruct (Hb q f Hq) as (f' & Hq' & _ & _ & E & _). exists f'. by rewrite E.
      + destruct (Hf q f Hq) as (f' & Hq' & _ & _ & E & _). exists f'. by rewrite <- E.
    - intros q f Hq. destruct (Hf q f Hq) as (f' & Hq' & _ & _ & _ & -> & -> & ->).
      destruct (En q f' Hq') as (? & ? & ?). case_decide; (split; [lia|by split]).
    - intros q r f g Hq Hr. destruct (Hf q f Hq) as (f' & Hq' & _ & _ & _ & _ & -> & _), (Hf r g Hr) as (g' & Hr' & _ & _ & _ & _ & -> & _).
      by apply (Un q r f' g').
    - intros q [f Hq]. destruct (Hf q f Hq) as (f' & Hq' & _). apply Fr. by exists f'. }
  split; [done|]. apply map_eq. intros i. apply option_eq. intros x. rewrite (names_lookup _ _ _ _ Hok').
  rewrite lookup_insert_Some, (names_lookup _ _ _ _ Hok). split.
  - intros (q & f & Hq & Ha & ->). destruct (Hf q f Hq) as (f' & Hq' & _ & _ & E & _ & -> & ->). case_decide as Eq.
    + subst q. assert (f' = e) as -> by congruence. left. split; [lia|done].
    + right. split; [|by exists q, f'; rewrite <- E]. intros Ei. apply Eq.
      assert (at_atoms t !! i = Some p) as H1 by (apply At; exists e; split; [done|lia]).
      assert (at_atoms t !! i = Some q) as H2 by (apply At; exists f'; split; [done|lia]). congruence.
  - intros [[Hi <-]|[Hi (q & f & Hq & Ha & ->)]].
    + exists p, (with_count n e). simpl. rewrite lookup_insert_eq. split_and!; [done|lia|done].
    + exists q, f. simpl. rewrite lookup_insert_ne by (intros ->; simplify_eq; lia). done.
Qed.
End atoms_inv.

(** * Entries that appear and disappear

    Linking a new entry at the head of its hash list, and unlinking one from anywhere,
    keep the invariant of AtomsInv.v and change one name of the table. *)

Section atoms_ops.
Context `{CaseMap}.
Implicit Types (t : atom_table) (e : atom_entry) (m : gmap Z atom_entry) (l : list Z).

(** The entries are the same but for their links. *)
Definition relinked m m' : Prop := ∀ p,
  match m !! p, m' !! p with
  | Some e, Some e' => ae_atom e' = ae_atom e ∧ ae_hash e' = ae_hash e ∧ ae_str e' = ae_str e ∧ ae_count e' = ae_count e
  | None, None => True
  | _, _ => False
  end.
#[export] Instance relinked_preorder : PreOrder relinked.
Proof.
  split.
  - intros m p. by destruct (m !! p).
  - intros m1 m2 m3 H1 H2 p. specialize (H1 p). specialize (H2 p).
    destruct (m1 !! p), (m2 !! p), (m3 !! p); try done. naive_solver congruence.
Qed.
Lemma relinked_prev m p e q : m !! p = Some e → relinked m (<[p := with_prev q e]> m).
Proof. intros He x. rewrite lookup_insert. case_decide as E; [subst x; by rewrite He|]. by destruct (m !! x). Qed.
Lemma relinked_next m p e q : m !! p = Some e → relinked m (<[p := with_next q e]> m).
Proof. intros He x. rewrite lookup_insert. case_decide as E; [subst x; by rewrite He|]. by destruct (m !! x). Qed.
Lemma relinked_fwd m m' p e : relinked m m' → m !! p = Some e →
  ∃ e', m' !! p = Some e' ∧ ae_atom e' = ae_atom e ∧ ae_hash e' = ae_hash e ∧ ae_str e' = ae_str e ∧ ae_count e' = ae_count e.
Proof. intros Hr He. specialize (Hr p). rewrite He in Hr. destruct (m' !! p) as [e'|]; [by exists e'|done]. Qed.
Lemma relinked_bwd m m' p e' : relinked m m' → m' !! p = Some e' →
  ∃ e, m !! p = Some e ∧ ae_atom e' = ae_atom e ∧ ae_hash e' = ae_hash e ∧ ae_str e' = ae_str e ∧ ae_count e' = ae_count e.
Proof. intros Hr He. specialize (Hr p). rewrite He in Hr. destruct (m !! p) as [e|]; [by exists e|done]. Qed.

(** ** A new entry *)

(** The first entry of the list gets the predecessor [p]. *)
Definition set_first_prev m l (p : Z) m' : Prop :=
  match l with
  | [] => m' = m
  | n :: _ => ∃ e, m !! n = Some e ∧ m' = <[n := with_prev (Some p) e]> m
  end.

Lemma table_ok_insert t C t' p i str m1 :
  table_ok t C → name_ok str →
  (∀ q f, at_heap t !! q = Some f → fold_name (ae_str f) ≠ fold_name str) →
  p = at_next_ptr t → at_atoms t !! i = None → 1 ≤ i < MAX_ATOMS → i ≤ at_count t →
  let h := hash_strW str HASH_SIZE in
  set_first_prev (at_heap t) (C h) p m1 →
  at_heap t' = <[p := AtomEntry (first (C h) None) None 1 (i + MIN_STR_ATOM) h str]> m1 →
  at_next_ptr t' = p + 1 → at_count t' = (if i =? at_count t then at_count t + 1 else at_count t) →
  at_atoms t' = <[i := p]> (at_atoms t) → at_entries t' = <[h := p]> (at_entries t) →
  table_ok t' (λ h', if decide (h' = h) then p :: C h else C h') ∧ names t' = <[i := (str, 1)]> (names t).
Proof.
  intros Hok Hname Hnew Hp Hi Hir Hic h Hm1 Eh En Ec Ea Ee. pose proof Hok as [L H0 N I At Ix Ct Ent Un Fr].
  set (e0 := AtomEntry _ _ _ _ _ _) in Eh.
  assert (at_heap t !! p = None) as Hpn.
  { destruct (at_heap t !! p) as [f|] eqn:E; [|done]. specialize (Fr p (ex_intro _ f E)). lia. }
  assert (∀ h', p ∉ C h') as Hpc. { intros h' Hin. apply I in Hin as (f & Hf & _). congruence. }
  assert (relinked (at_heap t) m1) as Hre.
  { unfold set_first_prev in Hm1. destruct (C h) as [|n l]; [by subst|]. destruct Hm1 as (f & Hf & ->). by apply relinked_prev. }
  assert (m1 !! p = None) as Hp1.
  { specialize (Hre p). rewrite Hpn in Hre. by destruct (m1 !! p). }
  assert (∀ q f, at_heap t' !! q = Some f → q = p ∧ f = e0 ∨ q ≠ p ∧ ∃ f', at_heap t !! q = Some f' ∧
    ae_atom f = ae_atom f' ∧ ae_hash f = ae_hash f' ∧ ae_str f = ae_str f' ∧ ae_count f = ae_count f') as Hf.
  { intros q f. rewrite Eh, lookup_insert. case_decide as E; [intros [= <-]; by left|]. intros Hq. right.
    split; [done|]. by eapply relinked_bwd. }
  assert (∀ q f', at_heap t !! q = Some f' → q ≠ p ∧ ∃ f, at_heap t' !! q = Some f ∧
    ae_atom f = ae_atom f' ∧ ae_hash f = ae_hash f' ∧ ae_str f = ae_str f' ∧ ae_count f = ae_count f') as Hb.
  { intros q f' Hq. assert (q ≠ p) as Hne by congruence. split; [done|]. rewrite Eh, lookup_insert_ne by done. by eapply relinked_fwd. }
  assert (at_heap t' !! p = Some e0) as Hpe by (rewrite Eh; apply lookup_insert_eq).
  assert (table_ok t' (λ h', if decide (h' = h) then p :: C h else C h')) as Hok'.
  { split.
    - intros h'. case_decide as E.
      + subst h'. exists e0. split; [done|]. split_and!; [done|by destruct (C h)|]. rewrite Eh. apply linked_other; [apply Hpc|].
        specialize (L h). specialize (N h). unfold set_first_prev in Hm1. destruct (C h) as [|n l]; [done|].
        destruct Hm1 as (f & Hn & ->). by apply (linked_set_prev _ n f l None).
      + rewrite Eh. apply linked_other; [apply Hpc|]. specialize (L h'). unfold set_first_prev in Hm1.
        destruct (C h) as [|n l] eqn:El; [by subst|]. destruct Hm1 as (f & Hn & ->). apply linked_other; [|done].
        intros Hin. apply I in Hin as (f' & Hf' & E'). assert (n ∈ C h) as Hin by (rewrite El; by left).
        apply I in Hin as (f'' & Hf'' & E''). congruence.
    - intros h'. rewrite Ee, lookup_insert. case_decide as E; [subst h'; by rewrite decide_True|]. by rewrite decide_False.
    - intros h'. case_decide; [|done]. apply list.NoDup_cons. by split.
    - intros h' q. case_decide as E.
      + subst h'. rewrite elem_of_cons, I. split.
        * intros [->|(f & Hq & Ef)]; [by exists e0|]. destruct (Hb q f Hq) as (_ & f' & Hq' & _ & E' & _). exists f'. by rewrite E'.
        * intros (f & Hq & Ef). destruct (Hf q f Hq) as [[-> _]|(_ & f' & Hq' & _ & E' & _)]; [by left|right]. exists f'. by rewrite <- E'.
      + rewrite I. split; intros (f & Hq & Ef).
        * destruct (Hb q f Hq) as (_ & f' & Hq' & _ & E' & _). exists f'. by rewrite E'.
        * destruct (Hf q f Hq) as [[_ ->]|(_ & f' & Hq' & _ & E' & _)]; [by simpl in Ef|]. exists f'. by rewrite <- E'.
    - intros j q. rewrite Ea, lookup_insert. case_decide as E.
      + subst j. split; [intros [= <-]; by exists e0|]. intros (f & Hq & Ef).
        destruct (Hf q f Hq) as [[-> _]|(_ & f' & Hq' & E' & _)]; [done|].
        assert (at_atoms t !! i = Some q) as Hc by (apply At; exists f'; split; [done|congruence]). congruence.
      + rewrite At. split; intros (f & Hq & Ef).
        * destruct (Hb q f Hq) as (_ & f' & Hq' & E' & _). exists f'. by rewrite E'.
        * destruct (Hf q f Hq) as [[_ ->]|(_ & f' & Hq' & E' & _)]; [simpl in Ef; lia|]. exists f'. by rewrite <- E'.
    - intros j. rewrite Ea, Ec, lookup_insert. case_decide as E.
      + intros _. destruct (Z.eqb_spec i (at_count t)); lia.
      + intros Hj. specialize (Ix j Hj). destruct (Z.eqb_spec i (at_count t)); lia.
    - rewrite Ec. destruct (Z.eqb_spec i (at_count t)); lia.
    - intros q f Hq. destruct (Hf q f Hq) as [[_ ->]|(_ & f' & Hq' & _ & -> & -> & ->)]; [|by apply (Ent q f')].
      simpl. split; [unfold INT_MAX; lia|by split].
    - intros q r f g Hq Hr. destruct (Hf q f Hq) as [[-> ->]|(_ & f' & Hq' & _ & _ & -> & _)],
        (Hf r g Hr) as [[-> ->]|(_ & g' & Hr' & _ & _ & -> & _)]; simpl; intros E; [done| | |by apply (Un q r f' g')].
      + by destruct (Hnew r g' Hr').
      + by destruct (Hnew q f' Hq').
    - intros q [f Hq]. rewrite En. destruct (Hf q f Hq) as [[-> _]|(_ & f' & Hq' & _)]; [lia|].
      specialize (Fr q (ex_intro _ f' Hq')). lia. }
  split; [done|]. apply map_eq. intros j. apply option_eq. intros x. rewrite (names_lookup _ _ _ _ Hok').
  rewrite lookup_insert_Some, (names_lookup _ _ _ _ Hok). split.
  - intros (q & f & Hq & Hj & ->). destruct (Hf q f Hq) as [[-> ->]|(_ & f' & Hq' & E & _ & -> & ->)].
    + left. simpl in Hj. split; [lia|done].
    + right. split; [|exists q, f'; by rewrite <- E]. intros ->.
      assert (at_atoms t !! j = Some q) as Hc by (apply At; exists f'; split; [done|congruence]). congruence.
  - intros [[-> <-]|[Hne (q & f & Hq & Hj & ->)]]; [by exists p, e0|].
    destruct (Hb q f Hq) as (_ & f' & Hq' & E & _ & E1 & E2). exists q, f'. by rewrite E, E1, E2.
Qed.

(** ** An entry that goes *)

(** The neighbours of [e] are linked to each other. *)
Definition bypassed m e m2 : Prop := ∃ m1,
  match ae_next e with
  | None => m1 = m
  | Some n => ∃ f, m !! n = Some f ∧ m1 = <[n := with_prev (ae_prev e) f]> m
  end ∧
  match ae_prev e with
  | None => m2 = m1
  | Some q => ∃ f, m1 !! q = Some f ∧ m2 = <[q := with_next (ae_next e) f]> m1
  end.

Lemma bypassed_relinked m e m2 : bypassed m e m2 → relinked m m2.
Proof.
  intros (m1 & H1 & H2). trans m1.
  - destruct (ae_next e); [|by subst]. destruct H1 as (f & Hf & ->). by apply relinked_prev.
  - destruct (ae_prev e); [|by subst]. destruct H2 as (f & Hf & ->). by apply relinked_next.
Qed.

Lemma final_snoc prev l p : final prev (l ++ [p]) = Some p.
Proof. revert prev. by induction l as [|q l IH]; intros prev; [|apply IH]. Qed.

Lemma linked_bypass m p e l1 l2 m2 :
  NoDup (l1 ++ p :: l2) → linked m None (l1 ++ p :: l2) None → m !! p = Some e → bypassed m e m2 →
  linked (delete p m2) None (l1 ++ l2) None.
Proof.
  intros Hnd. rewrite linked_app. intros [Hl1 (e' & He' & Hprev & Hnext & Hl2)] He (m1 & H1 & H2).
  assert (e' = e) as -> by congruence. clear He'. change (ae_next e = first l2 None) in Hnext.
  apply list.NoDup_app in Hnd as (N1 & N12 & [Hp N2]%list.NoDup_cons).
  assert (∀ q, q ∈ l1 → q ∉ l2) as Hdis by (intros q Hq Hq2; apply (N12 q Hq); by right).
  rewrite Hnext, Hprev in H1, H2.
  assert (linked m1 None l1 (Some p) ∧ linked m1 (final None l1) l2 None) as [L1 L2].
  { destruct l2 as [|n l2]; simpl in H1; [by subst|]. destruct H1 as (f & Hf & ->). split.
    - apply linked_other; [|done]. intros Hin. apply (Hdis n Hin). by left.
    - by apply (linked_set_prev _ n f l2 (Some p)). }
  apply linked_delete.
  { rewrite elem_of_app. intros [Hin|Hin]; [apply (N12 p Hin); by left|done]. }
  apply linked_app. destruct l1 as [|q l1 _] using rev_ind; simpl in H2; [by subst|].
  rewrite final_snoc in *. destruct H2 as (f & Hf & ->). split.
  - by apply (linked_set_next _ q f l1 None (Some p)).
  - apply linked_other; [|done]. apply Hdis. apply elem_of_app. right. by left.
Qed.

(** Nothing but the list of the entry changes. *)
Lemma linked_bypass_other m p e l1 l2 l m2 :
  linked m None (l1 ++ p :: l2) None → m !! p = Some e → (∀ q, q ∈ l1 ++ p :: l2 → q ∉ l) → bypassed m e m2 →
  linked m None l None → linked (delete p m2) None l None.
Proof.
  rewrite linked_app. intros [Hl1 (e' & He' & Hprev & Hnext & Hl2)] He Hdis (m1 & H1 & H2) Hl.
  assert (e' = e) as -> by congruence. change (ae_next e = first l2 None) in Hnext. rewrite Hnext, Hprev in H1, H2.
  apply linked_delete; [apply Hdis, elem_of_app; right; by left|].
  assert (linked m1 None l None) as L1.
  { destruct l2 as [|n l2]; simpl in H1; [by subst|]. destruct H1 as (f & Hf & ->). apply linked_other; [|done].
    apply Hdis, elem_of_app. right; right. by left. }
  destruct l1 as [|q l1 _] using rev_ind; simpl in H2; [by subst|]. rewrite final_snoc in *.
  destruct H2 as (f & Hf & ->). apply linked_other; [|done]. apply Hdis. rewrite !elem_of_app. left; right. by left.
Qed.

Lemma table_ok_delete t C t' p e l1 l2 m2 :
  table_ok t C → at_heap t !! p = Some e → C (ae_hash e) = l1 ++ p :: l2 → bypassed (<[p := with_count 0 e]> (at_heap t)) e m2 →
  at_heap t' = delete p m2 → at_next_ptr t' = at_next_ptr t → at_count t' = at_count t →
  at_atoms t' = delete (ae_atom e - MIN_STR_ATOM) (at_atoms t) →
  (∀ h, at_entries t' !! h = if decide (h = ae_hash e) then first (l1 ++ l2) None else at_entries t !! h) →
  table_ok t' (λ h, if decide (h = ae_hash e) then l1 ++ l2 else C h) ∧
  names t' = delete (ae_atom e - MIN_STR_ATOM) (names t).
Proof.
  intros Hok He Hl Hby Eh En Ec Ea Ee. pose proof Hok as [L H0 N I At Ix Ct Ent Un Fr].
  set (m := <[p := with_count 0 e]> (at_heap t)) in *.
  pose proof (bypassed_relinked _ _ _ Hby) as Hre.
  assert (relinked (delete p (at_heap t)) (at_heap t')) as Hr.
  { intros q. rewrite Eh. destruct (decide (q = p)) as [->|Hne]; [by rewrite !lookup_delete_eq|].
    rewrite !lookup_delete_ne by done. specialize (Hre q). unfold m in Hre. by rewrite lookup_insert_ne in Hre. }
  assert (∀ l next, linked (at_heap t) None l next → linked m None l next) as Hlm.
  { intros l next. generalize (@None Z). intros prev Hl0. eapply linked_agree; [|exact Hl0]. intros q Hq.
    destruct (decide (q = p)) as [->|Hne]; [exists e, (with_count 0 e); unfold m; by rewrite lookup_insert_eq|].
    assert (∀ l prev, linked (at_heap t) prev l next → q ∈ l → is_Some (at_heap t !! q)) as Hin.
    { clear. induction l as [|x l IH]; intros prev; [by intros _ ?%elem_of_nil|]. intros (f & Hf & _ & _ & Hl) [->|Hq]%elem_of_cons.
      - by exists f.
      - by eapply IH. }
    destruct (Hin l prev Hl0 Hq) as [f Hf]. exists f, f. unfold m. by rewrite lookup_insert_ne. }
  assert (at_atoms t !! (ae_atom e - MIN_STR_ATOM) = Some p) as Hip by (apply At; exists e; split; [done|lia]).
  pose proof (N (ae_hash e)) as Nh. rewrite Hl in Nh.
  assert (m !! p = Some (with_count 0 e)) as Hmp by apply lookup_insert_eq.
  assert (table_ok t' (λ h, if decide (h = ae_hash e) then l1 ++ l2 else C h)) as Hok'.
  { split.
    - intros h. rewrite Eh. pose proof (Hlm _ _ (L (ae_hash e))) as Lh. rewrite Hl in Lh. case_decide as E.
      + by apply (linked_bypass m p (with_count 0 e)).
      + apply (linked_bypass_other m p (with_count 0 e) l1 l2); try done; [|by apply Hlm].
        rewrite <- Hl. intros q (f & Hf & E1)%I (f' & Hf' & E2)%I. congruence.
    - intros h. rewrite Ee. case_decide; [done|]. apply H0.
    - intros h. case_decide; [|done]. apply list.NoDup_app in Nh as (N1 & N12 & [_ N2]%list.NoDup_cons).
      apply list.NoDup_app. split_and!; [done| |done]. intros q Hq Hq2. apply (N12 q Hq). by right.
    - intros h q. assert ((if decide (h = ae_hash e) then q ∈ l1 ++ l2 else q ∈ C h) ↔ q ≠ p ∧ q ∈ C h) as Hin.
      { case_decide as E; [|split; [|by intros [_ ?]]; intros Hq; split; [|done]; intros ->; apply I in Hq as (f & Hf & Ef); congruence].
        subst h. rewrite Hl, !elem_of_app, elem_of_cons. apply list.NoDup_app in Nh as (N1 & N12 & [Hp2 N2]%list.NoDup_cons).
        split; [|naive_solver]. intros Hq. split; [|naive_solver]. intros ->.
        destruct Hq as [Hq|Hq]; [apply (N12 p Hq); by left|done]. }
      trans (q ≠ p ∧ q ∈ C h); [by case_decide|]. rewrite I. split.
      + intros (Hne & f & Hf & Ef). destruct (relinked_fwd _ _ q f Hr) as (f' & Hf' & _ & E & _); [by rewrite lookup_delete_ne|].
        exists f'. by rewrite E.
      + intros (f' & Hf' & Ef). destruct (relinked_bwd _ _ q f' Hr Hf') as (f & Hf & _ & E & _).
        apply lookup_delete_Some in Hf as [Hne Hf]. split; [done|]. exists f. by rewrite <- E.
    - intros i q. rewrite Ea, lookup_delete_Some, At. split.
      + intros (Hne & f & Hf & Ef). destruct (relinked_fwd _ _ q f Hr) as (f' & Hf' & E & _).
        { rewrite lookup_delete_ne; [done|]. intros <-. assert (f = e) as -> by congruence. lia. }
        exists f'. by rewrite E.
      + intros (f' & Hf' & Ef). destruct (relinked_bwd _ _ q f' Hr Hf') as (f & Hf & E & _).
        apply lookup_delete_Some in Hf as [Hne Hf]. split; [|exists f; by rewrite <- E]. intros <-.
        assert (at_atoms t !! (ae_atom e - MIN_STR_ATOM) = Some q) as Hc by (apply At; exists f; split; [done|lia]). congruence.
    - intros i. rewrite Ea, Ec. intros [q [_ Hq]%lookup_delete_Some]. apply Ix. by exists q.
    - by rewrite Ec.
    - intros q f' Hf'. destruct (relinked_bwd _ _ q f' Hr Hf') as (f & Hf & _ & -> & -> & ->).
      apply lookup_delete_Some in Hf as [_ Hf]. by apply (Ent q f).
    - intros q r f' g' Hf' Hg'. destruct (relinked_bwd _ _ q f' Hr Hf') as (f & Hf & _ & _ & -> & _),
        (relinked_bwd _ _ r g' Hr Hg') as (g & Hg & _ & _ & -> & _).
      apply lookup_delete_Some in Hf as [_ Hf], Hg as [_ Hg]. by apply (Un q r f g).
    - intros q [f' Hf']. rewrite En. destruct (relinked_bwd _ _ q f' Hr Hf') as (f & Hf & _).
      apply lookup_delete_Some in Hf as [_ Hf]. apply Fr. by exists f. }
  split; [done|]. apply map_eq. intros i. apply option_eq. intros x. rewrite (names_lookup _ _ _ _ Hok').
  rewrite lookup_delete_Some, (names_lookup _ _ _ _ Hok). split.
  - intros (q & f' & Hf' & Hi & ->). destruct (relinked_bwd _ _ q f' Hr Hf') as (f & Hf & E & _ & E1 & E2).
    apply lookup_delete_Some in Hf as [Hne Hf]. split.
    + intros <-. assert (at_atoms t !! (ae_atom e - MIN_STR_ATOM) = Some q) as Hc by (apply At; exists f; split; [done|lia]). congruence.
    + exists q, f. rewrite E1, E2. by rewrite <- E.
  - intros (Hne & q & f & Hf & Hi & ->). destruct (relinked_fwd _ _ q f Hr) as (f' & Hf' & E & _ & E1 & E2).
    { rewrite lookup_delete_ne; [done|]. intros <-. assert (f = e) as -> by congruence. lia. }
    exists q, f'. by rewrite E, E1, E2.
Qed.
End atoms_ops.
