(* ===== verification/AtomsSpec.v ===== *)
(** * Atom tables as finite maps

    A table is a finite map from atoms to names with reference counts, whose names differ
    in more than case; src/server/atom.c adds, finds and deletes in that map. *)

From S2P Require Import Prelude.
From S2P Require Import Atoms.
From S2P Require Import AtomsInv.

(** ** Integer atoms *)

Definition is_digit (c : Z) : bool := (48 <=? c) && (c <=? 57).
(** The number that decimal digits denote. *)
Definition decimal (ret : Z) (str : list Z) : Z := fold_left (λ n c, n * 10 + (c - 48)) str ret.

Lemma decimal_ge str : ∀ ret, 0 ≤ ret → forallb is_digit str = true → ret ≤ decimal ret str.
Proof.
  induction str as [|c str IH]; intros ret Hr; simpl; [done|]. unfold is_digit at 1.
  rewrite !andb_true_iff, !Z.leb_le. intros [[H1 H2] Hs]. etrans; [|apply IH; [lia|done]]. lia.
Qed.
Lemma int_atom_digits_spec str : ∀ ret, 0 ≤ ret < MAXINTATOM →
  int_atom_digits ret str = if forallb is_digit str && (decimal ret str <? MAXINTATOM) then decimal ret str else 0.
Proof.
  unfold MAXINTATOM. induction str as [|c str IH]; intros ret Hr; simpl.
  { rewrite (proj2 (Z.ltb_lt _ _)) by lia. done. }
  unfold is_digit at 1. destruct (Z.ltb_spec c 48); simpl; [by rewrite (proj2 (Z.leb_gt 48 c))|].
  destruct (Z.ltb_spec 57 c); simpl; [by rewrite (proj2 (Z.leb_gt c 57)), andb_false_r by lia|].
  rewrite (proj2 (Z.leb_le 48 c)), (proj2 (Z.leb_le c 57)) by lia. simpl.
  unfold u32. rewrite (Z.mod_small (ret * 10)), Z.mod_small by lia.
  replace (ret * 10 + c - 48) with (ret * 10 + (c - 48)) by lia. unfold MAXINTATOM in *.
  destruct (Z.leb_spec 0xc000 (ret * 10 + (c - 48))) as [Hge|Hlt].
  - destruct (forallb is_digit str) eqn:E; [|done]. pose proof (decimal_ge str (ret * 10 + (c - 48)) ltac:(lia) E) as Hd.
    unfold decimal in *. simpl in *. rewrite (proj2 (Z.ltb_ge _ _)) by lia. done.
  - rewrite IH by lia. done.
Qed.

(** A name denotes an integer atom exactly if it is a number sign followed by decimal
    digits whose value is positive and less than 0xc000, and the atom is that value, however
    many leading zeros there are. *)
Theorem get_int_atom_value_exact str :
  get_int_atom_value str = match str with
    | c :: digits => if (c =? 35) && forallb is_digit digits && (decimal 0 digits <? MAXINTATOM) then decimal 0 digits else 0
    | [] => 0
    end.
Proof.
  destruct str as [|c str]; [done|]. unfold get_int_atom_value. destruct (c =? 35); simpl; [|done].
  by rewrite int_atom_digits_spec.
Qed.

Section atoms_spec.
Context `{CaseMap}.
Implicit Types (t : atom_table) (e : atom_entry).

Lemma get_atom_entry_spec t C atom :
  table_ok t C →
  wp (get_atom_entry atom) (λ r t', match r with
    | Some p => t' = t ∧ ∃ e, at_heap t !! p = Some e ∧ ae_atom e = atom ∧ at_atoms t !! (atom - MIN_STR_ATOM) = Some p
    | None => names t !! (atom - MIN_STR_ATOM) = None ∧ names t' = names t ∧ at_error t' = STATUS_INVALID_HANDLE ∧ table_ok t' C
    end) t.
Proof.
  intros Hok. unfold get_atom_entry. rewrite wp_bind, wp_gets, wp_bind, wp_when. unfold id.
  set (r := if _ && _ then _ else None).
  assert (r = at_atoms t !! (atom - MIN_STR_ATOM)) as ->.
  { unfold r. destruct (_ && _) eqn:E; [done|]. symmetry. destruct (at_atoms t !! _) as [p|] eqn:Hp; [|done].
    pose proof (tc_index _ _ Hok _ (ex_intro _ p Hp)). apply andb_false_iff in E as [E|E]; [apply Z.leb_gt in E|apply Z.ltb_ge in E]; lia. }
  destruct (at_atoms t !! (atom - MIN_STR_ATOM)) as [p|] eqn:Hp; simpl.
  - rewrite wp_ret. split; [done|]. apply (tc_atom _ _ Hok) in Hp as (e & He & Ha). exists e. split; [done|]. split; [lia|done].
  - unfold set_error. rewrite wp_modify, wp_ret. split_and!; [|done..|].
    + destruct (names t !! _) as [x|] eqn:Hx; [|done]. apply (names_lookup _ _ _ _ Hok) in Hx as (p & e & He & Ha & _).
      assert (at_atoms t !! (atom - MIN_STR_ATOM) = Some p) by (apply (tc_atom _ _ Hok); exists e; split; [done|lia]). congruence.
    + by destruct Hok.
Qed.

Lemma table_ok_error t C (e : Z) : table_ok t C → table_ok (AtomTable (at_heap t) (at_next_ptr t) (at_allocs t) (at_count t) (at_atoms t) (at_entries t) e) C.
Proof. by intros []. Qed.

(** ** Adding *)

Lemma free_index_spec atoms fuel : ∀ i, let j := free_index fuel atoms i in
  i ≤ j ≤ i + Z.of_nat fuel ∧ (∀ k, i ≤ k < j → is_Some (atoms !! k)) ∧ (j < i + Z.of_nat fuel → atoms !! j = None).
Proof.
  induction fuel as [|fuel IH]; intros i; cbn [free_index]; [split; [lia|split; [intros; lia|lia]]|].
  case_bool_decide as E; [split; [lia|]; split; [intros; lia|done]|].
  destruct (IH (i + 1)) as (H1 & H2 & H3). split; [lia|]. split; [|intros; apply H3; lia].
  intros k Hk. destruct (decide (k = i)) as [->|Hne]; [by apply not_eq_None_Some|]. apply H2. lia.
Qed.

(** The name of [str], if there is one. *)
Definition named (m : gmap Z (list Z * Z)) (str : list Z) (i : Z) (s : list Z) (n : Z) : Prop :=
  m !! i = Some (s, n) ∧ fold_name s = fold_name str.
Definition unnamed (m : gmap Z (list Z * Z)) (str : list Z) : Prop := ∀ i s n, ¬ named m str i s n.

Lemma entry_named t C p e str :
  table_ok t C → at_heap t !! p = Some e → fold_name (ae_str e) = fold_name str →
  named (names t) str (ae_atom e - MIN_STR_ATOM) (ae_str e) (ae_count e).
Proof.
  intros Hok He Hs. split; [|done]. apply (names_lookup _ _ _ _ Hok). exists p, e. split_and!; [done|lia|done].
Qed.
Lemma no_entry_unnamed t C str :
  table_ok t C → (∀ p e, at_heap t !! p = Some e → fold_name (ae_str e) ≠ fold_name str) → unnamed (names t) str.
Proof.
  intros Hok Hno i s n [Hi Hs]. apply (names_lookup _ _ _ _ Hok) in Hi as (p & e & He & _ & [= -> ->]). by apply (Hno p e).
Qed.

Lemma check_name_ok str k Q t : name_ok str → wp (check_name str k) Q t ↔ wp k Q t.
Proof.
  intros (Hne & Hlen & Hint). unfold check_name. rewrite bool_decide_false by done.
  rewrite (proj2 (Z.ltb_ge _ _)) by done. by rewrite Hint.
Qed.

(** What [add_atom] does to the map; [fails] tells if an allocation may fail. *)
Definition added (fails : Prop) (m : gmap Z (list Z * Z)) (str : list Z) (old_error : Z) (r : Z * Z) (m' : gmap Z (list Z * Z)) : Prop :=
  (∃ i s n, named m str i s n ∧ r = (i + MIN_STR_ATOM, old_error) ∧ m' = <[i := (s, n + 1)]> m) ∨
  unnamed m str ∧
  ((fails ∨ ∀ j, 1 ≤ j < MAX_ATOMS → is_Some (m !! j)) ∧ r = (0, STATUS_NO_MEMORY) ∧ m' = m ∨
   ∃ i, 1 ≤ i < MAX_ATOMS ∧ m !! i = None ∧ (∀ j, 1 ≤ j < i → is_Some (m !! j)) ∧
     r = (i + MIN_STR_ATOM, old_error) ∧ m' = <[i := (str, 1)]> m).

Lemma names_at t C i : table_ok t C → is_Some (names t !! i) ↔ is_Some (at_atoms t !! i).
Proof.
  intros Hok. split.
  - intros [x Hx]. apply (names_lookup _ _ _ _ Hok) in Hx as (p & e & He & Ha & _). exists p. apply (tc_atom _ _ Hok). by exists e.
  - intros [p Hp]. apply (tc_atom _ _ Hok) in Hp as (e & He & Ha). eexists. apply (names_lookup _ _ _ _ Hok). by exists p, e.
Qed.

(** The branch of a new name, once the entry has been allocated. *)
Lemma add_new_ok t C p str :
  table_ok t C → name_ok str → (∀ q f, at_heap t !! q = Some f → fold_name (ae_str f) ≠ fold_name str) → p = at_next_ptr t →
  ∀ allocs,
  wp (atom ← add_atom_entry p;
      if truth atom then
        head ← gets (λ t, at_entries t !! hash_strW str HASH_SIZE);
        _ ← update_entry p (with_next head ∘ with_prev None);
        _ ← (match head with Some n => update_entry n (with_prev (Some p)) | None => mret tt end);
        _ ← modify (λ t, set_entries (<[hash_strW str HASH_SIZE := p]> (at_entries t)) t);
        _ ← update_entry p (with_name (hash_strW str HASH_SIZE) str ∘ with_count 1);
        mret atom
      else _ ← set_error STATUS_NO_MEMORY; _ ← free_entry p; mret atom)
    (λ a t', (∃ C', table_ok t' C') ∧ added (false ∈ at_allocs t) (names t) str (at_error t) (a, at_error t') (names t'))
    (set_heap (<[p := AtomEntry None None 0 0 0 []]> (at_heap t)) (set_alloc (p + 1) allocs t)).
Proof.
  intros Hok Hname Hnew -> allocs. set (p := at_next_ptr t). set (h := hash_strW str HASH_SIZE).
  pose proof (tc_count _ _ Hok) as Hct.
  destruct (free_index_spec (at_atoms t) (Z.to_nat (at_count t - 1)) 1) as (F1 & F2 & F3).
  rewrite Z2Nat.id in F1, F3 by lia. set (i := free_index _ _ 1) in *.
  assert (at_heap t !! p = None) as Hpn.
  { destruct (at_heap t !! p) as [f|] eqn:E; [|done]. pose proof (tc_fresh _ _ Hok p (ex_intro _ f E)). unfold p in *. lia. }
  assert (at_atoms t !! i = None) as Hi.
  { destruct (decide (i < at_count t)); [apply F3; lia|]. destruct (at_atoms t !! i) as [q|] eqn:E; [|done].
    pose proof (tc_index _ _ Hok i (ex_intro _ q E)). lia. }
  assert (unnamed (names t) str) as Hun by by eapply no_entry_unnamed.
  unfold add_atom_entry. rewrite !wp_bind, wp_gets. unfold id. cbn [at_atoms at_count set_heap set_alloc]. fold i.
  destruct (Z.eqb_spec i MAX_ATOMS) as [Efull|Hroom].
  { rewrite wp_ret. cbn [truth negb Z.eqb]. unfold set_error, free_entry. rewrite wp_bind, wp_modify, wp_bind, wp_modify, wp_ret.
    simpl. rewrite delete_insert_id by done. split.
    - exists C. destruct Hok as [L H0 N I At Ix Ct En Un Fr]. split; try done. intros q Hq. specialize (Fr q Hq). simpl. unfold p. lia.
    - right. split; [done|]. left. split; [|done]. right. intros j Hj. apply (names_at _ _ _ Hok). apply F2. lia. }
  rewrite wp_bind, wp_modify, wp_bind, (wp_update_entry p (AtomEntry None None 0 0 0 [])) by apply lookup_insert_eq.
  rewrite wp_ret. simpl at_heap. rewrite insert_insert_eq.
  assert (truth (i + MIN_STR_ATOM) = true) as -> by (unfold truth, MIN_STR_ATOM; apply negb_true_iff, Z.eqb_neq; lia).
  rewrite wp_bind, wp_gets. simpl at_entries. rewrite (tc_head _ _ Hok).
  rewrite wp_bind, (wp_update_entry p (with_atom (i + MIN_STR_ATOM) (AtomEntry None None 0 0 0 []))) by apply lookup_insert_eq.
  simpl at_heap. rewrite insert_insert_eq.
  set (e1 := (with_next (first (C h) None) ∘ with_prev None) _).
  set (t1 := set_heap _ _).
  assert (∀ m1 t2, set_first_prev (at_heap t) (C h) p m1 → t2 = set_heap (<[p := e1]> m1) t1 →
    wp (_ ← modify (λ t, set_entries (<[h := p]> (at_entries t)) t);
        _ ← update_entry p (with_name h str ∘ with_count 1); mret (i + MIN_STR_ATOM))
      (λ a t', (∃ C', table_ok t' C') ∧ added (false ∈ at_allocs t) (names t) str (at_error t) (a, at_error t') (names t')) t2) as Hfin.
  { intros m1 t2 Hm1 ->. rewrite wp_bind, wp_modify, wp_bind, (wp_update_entry p e1) by apply lookup_insert_eq.
    rewrite wp_ret. simpl at_heap. rewrite insert_insert_eq.
    set (t3 := set_heap _ _).
    destruct (table_ok_insert t C t3 p i str m1 Hok Hname Hnew eq_refl Hi ltac:(lia) ltac:(lia) Hm1) as [Hok3 Hn3]; try reflexivity.
    split; [by eexists|]. right. split; [done|]. right. exists i. split_and!; [lia|lia| | |done|done].
    - apply eq_None_not_Some. rewrite (names_at _ _ _ Hok), Hi. by intros [? ?].
    - intros j Hj. apply (names_at _ _ _ Hok). by apply F2. }
  rewrite wp_bind. pose proof (tc_linked _ _ Hok h) as Hl. destruct (C h) as [|n l] eqn:El; simpl first.
  - rewrite wp_ret. by apply (Hfin (at_heap t)).
  - destruct Hl as (f & Hf & _). assert (p ≠ n) as Hne by congruence.
    rewrite (wp_update_entry n f) by (simpl; by rewrite lookup_insert_ne).
    apply (Hfin (<[n := with_prev (Some p) f]> (at_heap t))); [by exists f|].
    unfold t1. unfold set_heap. simpl. by rewrite insert_insert_ne.
Qed.

Lemma add_atom_ok t C str :
  table_ok t C → name_ok str → map_Forall (λ _ x, x.2 < INT_MAX) (names t) →
  wp (add_atom str) (λ a t', (∃ C', table_ok t' C') ∧ added (false ∈ at_allocs t) (names t) str (at_error t) (a, at_error t') (names t')) t.
Proof.
  intros Hok Hname Hbelow. unfold add_atom. rewrite check_name_ok by done. cbv zeta. rewrite wp_bind.
  eapply wp_mono; [by apply (find_atom_entry_spec t C str)|]. intros [p|] t' [-> Hr].
  - destruct Hr as (e & He & Hs). rewrite wp_bind, (wp_update_entry p e) by done.
    rewrite wp_bind. erewrite wp_entry_of by apply lookup_insert_eq. rewrite wp_ret. simpl.
    pose proof (entry_named t C p e str Hok He Hs) as Hn. destruct (tc_entry _ _ Hok p e He) as (Hc & _).
    assert (ae_count e < INT_MAX) as Hlt by exact (Hbelow _ _ (proj1 Hn)).
    assert (s32 (ae_count e + 1) = ae_count e + 1) as -> by (apply s32_small; unfold INT_MAX in *; lia).
    destruct (table_ok_count t C p e (ae_count e + 1) Hok He ltac:(lia)) as [Hok' Hn']. split; [by exists C|].
    left. exists (ae_atom e - MIN_STR_ATOM), (ae_str e), (ae_count e). split; [done|]. split; [f_equal; lia|done].
  - rewrite wp_bind. pose proof (add_new_ok t C _ str Hok Hname Hr eq_refl) as Hnew. set (fails := false ∈ at_allocs t) in *. unfold wp at 1, mem_alloc_entry. destruct (at_allocs t) as [|[] l] eqn:El.
    1, 2: exact (Hnew _).
    change (wp (mret 0) (λ (a : Z) t', (∃ C', table_ok t' C') ∧ added fails (names t) str (at_error t) (a, at_error t') (names t')) (AtomTable (at_heap t) (at_next_ptr t) l (at_count t) (at_atoms t) (at_entries t) STATUS_NO_MEMORY)). rewrite wp_ret. split.
    + exists C. by destruct Hok.
    + right. split; [by eapply no_entry_unnamed|]. left. split; [|done]. left. by left.
Qed.

(** ** Deleting *)

(** Linking the neighbours of an entry to each other. *)
Lemma wp_bypass t C p e l1 l2 m0 (Q : unit → atom_table → Prop) :
  table_ok t C → at_heap t !! p = Some e → C (ae_hash e) = l1 ++ p :: l2 →
  let t0 := set_heap m0 t in
  m0 = <[p := with_count 0 e]> (at_heap t) →
  (∀ m2 entries, bypassed m0 e m2 →
     (∀ h, entries !! h = if decide (h = ae_hash e) then first (l1 ++ l2) None else at_entries t !! h) →
     Q tt (set_entries entries (set_heap m2 t0))) →
  wp (_ ← (match ae_next e with Some n => update_entry n (with_prev (ae_prev e)) | None => mret tt end);
      match ae_prev e with
      | Some q => update_entry q (with_next (ae_next e))
      | None => modify (λ t, set_entries (match ae_next e with
                                           | Some n => <[ae_hash e := n]> (at_entries t)
                                           | None => delete (ae_hash e) (at_entries t) end) t)
      end) Q t0.
Proof.
  intros Hok He Hl t0 Hm0 HQ. pose proof (tc_linked _ _ Hok (ae_hash e)) as Hlk. pose proof (tc_nodup _ _ Hok (ae_hash e)) as Hnd.
  pose proof (tc_head _ _ Hok (ae_hash e)) as Hhead. rewrite Hl in Hlk, Hnd, Hhead. apply linked_app in Hlk as [_ (e' & He' & Hprev & Hnext & _)].
  assert (e' = e) as -> by congruence. change (ae_next e = first l2 None) in Hnext.
  apply list.NoDup_app in Hnd as (N1 & N12 & [Hp2 N2]%list.NoDup_cons).
  assert (∀ q, q ∈ l1 ++ p :: l2 → q ≠ p → ∃ f, m0 !! q = Some f) as Hlive.
  { intros q Hq Hne. rewrite <- Hl in Hq. apply (tc_in _ _ Hok) in Hq as (f & Hf & _). exists f. by rewrite Hm0, lookup_insert_ne. }
  assert (∀ q, q ∈ l1 → q ≠ p) as Hne1 by (intros q Hq ->; apply (N12 p Hq); by left).
  assert (∀ m1 t1, t1 = set_heap m1 t0 →
      match ae_next e with None => m1 = m0 | Some n => ∃ f, m0 !! n = Some f ∧ m1 = <[n := with_prev (ae_prev e) f]> m0 end →
    wp (match ae_prev e with
      | Some q => update_entry q (with_next (ae_next e))
      | None => modify (λ t, set_entries (match ae_next e with
                                           | Some n => <[ae_hash e := n]> (at_entries t)
                                           | None => delete (ae_hash e) (at_entries t) end) t)
      end) Q t1) as Hsecond.
  { intros m1 t1 -> Hm1. rewrite Hprev. destruct l1 as [|q l1 _] using rev_ind; cbn [final].
    - rewrite wp_modify. apply HQ; [exists m1; split; [done|by rewrite Hprev]|]. intros h. simpl. rewrite Hnext.
      destruct l2 as [|n l2]; simpl; rewrite ?lookup_delete, ?lookup_insert; repeat case_decide; congruence.
    - rewrite final_snoc in *. assert (q ∈ l1 ++ [q]) as Hq by (apply elem_of_app; right; by left).
      assert (∃ f, m1 !! q = Some f) as [f Hf].
      { destruct (Hlive q) as [f Hf]; [apply elem_of_app; by left|by apply Hne1|].
        destruct (ae_next e) as [n|]; [|subst; by exists f]. destruct Hm1 as (g & Hg & ->). rewrite lookup_insert. case_decide; eauto. }
      rewrite (wp_update_entry q f) by done.
      change (Q tt (set_entries (at_entries t) (set_heap (<[q := with_next (ae_next e) f]> m1) t0))). apply HQ.
      + exists m1. split; [done|]. rewrite Hprev. by exists f.
      + intros h. case_decide; [subst h|done]. rewrite Hhead. by destruct l1. }
  rewrite wp_bind. destruct (ae_next e) as [n|] eqn:En; [|rewrite wp_ret; by apply (Hsecond m0)].
  destruct l2 as [|n' l2]; [done|]. simpl in Hnext. injection Hnext as ->.
  destruct (Hlive n') as [f Hf].
  { apply elem_of_app; right; right; by left. }
  { intros ->. apply Hp2. by left. }
  rewrite (wp_update_entry n' f) by done. apply (Hsecond (<[n' := with_prev (ae_prev e) f]> m0)); [done|]. by exists f.
Qed.

(** What [delete_atom] does to the map. *)
Definition dropped (m : gmap Z (list Z * Z)) (i old_error error : Z) (m' : gmap Z (list Z * Z)) : Prop :=
  match m !! i with
  | None => m' = m ∧ error = STATUS_INVALID_HANDLE
  | Some (s, n) => m' = (if n =? 1 then delete i m else <[i := (s, n - 1)]> m) ∧ error = old_error
  end.

Lemma delete_atom_ok t C atom :
  table_ok t C →
  wp (delete_atom atom) (λ _ t', (∃ C', table_ok t' C') ∧
    dropped (names t) (atom - MIN_STR_ATOM) (at_error t) (at_error t') (names t')) t.
Proof.
  intros Hok. unfold delete_atom, dropped. rewrite wp_bind. eapply wp_mono; [by apply (get_atom_entry_spec t C)|].
  intros [p|] t'.
  2:{ intros (-> & ? & ? & ?). rewrite wp_ret. split; [by exists C|done]. }
  intros [-> (e & He & Ha & Hi)]. destruct (tc_entry _ _ Hok p e He) as (Hc & _).
  assert (names t !! (atom - MIN_STR_ATOM) = Some (ae_str e, ae_count e)) as ->.
  { apply (names_lookup _ _ _ _ Hok). exists p, e. split_and!; [done|lia|done]. }
  rewrite wp_bind, (wp_update_entry p e) by done.
  assert (s32 (ae_count e - 1) = ae_count e - 1) as -> by (apply s32_small; unfold INT_MAX in *; lia).
  rewrite wp_bind. erewrite wp_entry_of by apply lookup_insert_eq. simpl ae_count.
  destruct (Z.eqb_spec (ae_count e) 1) as [E1|E1].
  2:{ assert (truth (ae_count e - 1) = true) as -> by (apply negb_true_iff, Z.eqb_neq; lia). rewrite wp_ret.
      destruct (table_ok_count t C p e (ae_count e - 1) Hok He ltac:(lia)) as [Hok' Hn']. split; [by exists C|]. by rewrite <- Ha. }
  rewrite E1. change (truth (1 - 1)) with false. cbv iota. simpl ae_next. simpl ae_prev. simpl ae_hash.
  assert (p ∈ C (ae_hash e)) as (l1 & l2 & Hl)%list_elem_of_split by (apply (tc_in _ _ Hok); by exists e).
  match goal with |- wp ?m ?Q ?s => 
    assert (wp (_ ← (_ ← (match ae_next e with Some n => update_entry n (with_prev (ae_prev e)) | None => mret tt end);
      match ae_prev e with
      | Some q => update_entry q (with_next (ae_next e))
      | None => modify (λ t, set_entries (match ae_next e with
                                           | Some n => <[ae_hash e := n]> (at_entries t)
                                           | None => delete (ae_hash e) (at_entries t) end) t)
      end); _ ← modify (λ t, set_atoms (at_count t) (delete (atom - MIN_STR_ATOM) (at_atoms t)) t); free_entry p) Q s) as Hw end.
  { rewrite wp_bind. eapply (wp_bypass t C p e l1 l2); [done..|]. intros m2 entries Hby Hent.
    rewrite wp_bind, wp_modify. unfold free_entry. rewrite wp_modify.
    match goal with |- (∃ C', table_ok ?t' C') ∧ _ => set (t1 := t') end.
    destruct (table_ok_delete t C t1 p e l1 l2 m2 Hok He Hl Hby) as [Hok1 Hn1]; try reflexivity; [by rewrite Ha|done|].
    split; [by eexists|]. by rewrite <- Ha. }
  rewrite wp_bind in Hw. rewrite wp_bind in Hw. rewrite wp_bind. eapply wp_mono; [exact Hw|]. intros [] t1 H1. cbv beta in H1.
  by rewrite wp_bind.
Qed.

(** ** Finding *)

Lemma find_atom_ok t C str :
  table_ok t C → name_ok str →
  wp (find_atom str) (λ a t', names t' = names t ∧ (∃ C', table_ok t' C') ∧
    ((∃ i s n, named (names t) str i s n ∧ (a, at_error t') = (i + MIN_STR_ATOM, at_error t)) ∨
     unnamed (names t) str ∧ (a, at_error t') = (0, STATUS_OBJECT_NAME_NOT_FOUND))) t.
Proof.
  intros Hok Hname. unfold find_atom. rewrite check_name_ok by done. rewrite wp_bind.
  eapply wp_mono; [by apply (find_atom_entry_spec t C str)|]. intros [p|] t' [-> Hr].
  - destruct Hr as (e & He & Hs). rewrite wp_bind, (wp_entry_of _ _ _ _ He), wp_ret. split; [done|]. split; [by exists C|].
    left. exists (ae_atom e - MIN_STR_ATOM), (ae_str e), (ae_count e). split; [by eapply entry_named|f_equal; lia].
  - unfold set_error. rewrite wp_bind, wp_modify, wp_ret. split; [done|]. split; [exists C; by apply table_ok_error|].
    right. split; [by eapply no_entry_unnamed|done].
Qed.

Lemma grab_atom_ok t C atom :
  table_ok t C → map_Forall (λ _ x, x.2 < INT_MAX) (names t) → MIN_STR_ATOM ≤ atom →
  wp (grab_atom atom) (λ a t', (∃ C', table_ok t' C') ∧
    match names t !! (atom - MIN_STR_ATOM) with
    | None => names t' = names t ∧ (a, at_error t') = (0, STATUS_INVALID_HANDLE)
    | Some (s, n) => names t' = <[atom - MIN_STR_ATOM := (s, n + 1)]> (names t) ∧ (a, at_error t') = (atom, at_error t)
    end) t.
Proof.
  intros Hok Hbelow Hmin. unfold grab_atom. rewrite (proj2 (Z.leb_le _ _)) by done. rewrite wp_bind.
  eapply wp_mono; [by apply (get_atom_entry_spec t C)|]. intros [p|] t'.
  - intros [-> (e & He & Ha & Hi)]. destruct (tc_entry _ _ Hok p e He) as (Hc & _).
    assert (names t !! (atom - MIN_STR_ATOM) = Some (ae_str e, ae_count e)) as Hn.
    { apply (names_lookup _ _ _ _ Hok). exists p, e. split_and!; [done|lia|done]. }
    rewrite Hn. pose proof (Hbelow _ _ Hn) as Hlt. simpl in Hlt. rewrite wp_bind, (wp_update_entry p e) by done.
    assert (s32 (ae_count e + 1) = ae_count e + 1) as -> by (apply s32_small; unfold INT_MAX in *; lia).
    rewrite wp_ret. destruct (table_ok_count t C p e (ae_count e + 1) Hok He ltac:(lia)) as [Hok' Hn'].
    split; [by exists C|]. rewrite <- Ha in *. by split.
  - intros (-> & Hn & He & ?). rewrite wp_ret, He. split; [by exists C|done].
Qed.

(** ** The name of an atom, and the end of a table *)

Lemma set_reply_data_ok t data :
  wp (set_reply_data data) (λ r t', names t' = names t ∧
    (r = data ∧ at_error t' = at_error t ∨ r = [] ∧ at_error t' = STATUS_NO_MEMORY ∧ false ∈ at_allocs t)) t.
Proof.
  unfold wp, set_reply_data. destruct data as [|c data]; [split; [done|by left]|].
  destruct (at_allocs t) as [|[] l] eqn:E; try (split; [done|by left]). split; [done|]. right. split_and!; [done..|]. by left.
Qed.
Lemma get_atom_information_ok t C atom room :
  table_ok t C → 0 ≤ room →
  wp (req_get_atom_information atom room) (λ r t', names t' = names t ∧
    match names t !! (atom - MIN_STR_ATOM) with
    | Some (s, n) => ∃ data, r = (n, data, 2 * Z.of_nat (length s)) ∧
        (data = take (Z.to_nat (room / 2)) s ∧ at_error t' = at_error t ∨
         data = [] ∧ at_error t' = STATUS_NO_MEMORY ∧ false ∈ at_allocs t)
    | None => r = (-1, [], 0) ∧ at_error t' = STATUS_INVALID_HANDLE
    end) t.
Proof.
  intros Hok Hroom. unfold req_get_atom_information. rewrite wp_bind.
  eapply wp_mono; [by apply (get_atom_entry_spec t C)|]. intros [p|] t'.
  - intros [-> (e & He & Ha & Hi)]. rewrite wp_bind, (wp_entry_of _ _ _ _ He).
    assert (names t !! (atom - MIN_STR_ATOM) = Some (ae_str e, ae_count e)) as ->.
    { apply (names_lookup _ _ _ _ Hok). exists p, e. split_and!; [done|lia|done]. }
    assert (take (Z.to_nat (Z.min (2 * Z.of_nat (length (ae_str e))) room / 2)) (ae_str e) = take (Z.to_nat (room / 2)) (ae_str e)) as ->.
    { destruct (Z.leb_spec (2 * Z.of_nat (length (ae_str e))) room); [|by rewrite Z.min_r by lia].
      rewrite Z.min_l, Z.mul_comm, Z.div_mul, Nat2Z.id, firstn_all by lia. symmetry. apply take_ge. Z.to_euclidean_division_equations; lia. }
    rewrite wp_bind. eapply wp_mono; [apply set_reply_data_ok|]. intros data t' [Hn Hr]. rewrite wp_ret. split; [done|].
    by exists data.
  - intros (Hn & Hn' & He & ?). rewrite wp_ret, Hn. by split.
Qed.

(** Destroying a table frees every entry, once. *)
Lemma atom_table_destroy_ok t C : table_ok t C → wp atom_table_destroy (λ _ t', at_heap t' = ∅) t.
Proof.
  intros Hok. unfold atom_table_destroy. rewrite wp_bind, wp_gets. unfold id.
  eapply wp_mono; [apply (wp_for_each _ _ (λ done t', ∀ p, at_heap t' !! p =
    e ← at_heap t !! p; if decide (Z.to_nat (ae_atom e - MIN_STR_ATOM) ∈ done) then None else Some e))|].
  - intros p. by destruct (at_heap t !! p).
  - intros done i rest t' Hseq Ht'.
    assert (∀ p e, at_heap t !! p = Some e → 1 ≤ ae_atom e - MIN_STR_ATOM ∧ at_atoms t !! (ae_atom e - MIN_STR_ATOM) = Some p) as Hat.
    { intros p e He. assert (at_atoms t !! (ae_atom e - MIN_STR_ATOM) = Some p) as Hp by (apply (tc_atom _ _ Hok); exists e; split; [|lia]; assumption).
      split; [|assumption]. pose proof (tc_index _ _ Hok _ (ex_intro _ p Hp)). lia. }
    destruct (at_atoms t !! Z.of_nat i) as [q|] eqn:Hq.
    + unfold free_entry. rewrite wp_modify. intros p. simpl. rewrite lookup_delete. destruct (decide (q = p)) as [<-|Hne].
      * apply (tc_atom _ _ Hok) in Hq as (e & -> & Ha). simpl. rewrite decide_True; [reflexivity|].
        replace (Z.to_nat _) with i by lia. apply elem_of_app; right; by left.
      * rewrite Ht'. destruct (at_heap t !! p) as [e|] eqn:He; simpl; [|reflexivity]. apply decide_ext.
        rewrite elem_of_app, list_elem_of_singleton. split; [by left|]. intros [|Hi]; [assumption|].
        destruct (Hat p e He) as [H1 H2]. rewrite <- Hi, Z2Nat.id, H2 in Hq by lia. congruence.
    + rewrite wp_ret. intros p. rewrite Ht'. destruct (at_heap t !! p) as [e|] eqn:He; simpl; [|reflexivity]. apply decide_ext.
      rewrite elem_of_app, list_elem_of_singleton. split; [by left|]. intros [|Hi]; [assumption|].
      destruct (Hat p e He) as [H1 H2]. rewrite <- Hi, Z2Nat.id, H2 in Hq by lia. discriminate.
  - intros ? t' Ht'. apply map_eq. intros p. rewrite Ht', lookup_empty. destruct (at_heap t !! p) as [e|] eqn:He; simpl; [|done].
    rewrite decide_True; [done|]. apply elem_of_seq.
    assert (at_atoms t !! (ae_atom e - MIN_STR_ATOM) = Some p) as Hp by (apply (tc_atom _ _ Hok); exists e; split; [done|lia]).
    pose proof (tc_index _ _ Hok _ (ex_intro _ p Hp)). lia.
Qed.
End atoms_spec.
