(* ===== verification/AtomsHistory.v ===== *)
(** * Every sequence of operations on an atom table *)

From S2P Require Import Prelude.
From S2P Require Import Atoms.
From S2P Require Import AtomsInv.
From S2P Require Import AtomsSpec.

Section atoms_history.
Context `{CaseMap}.
Implicit Types (t : atom_table).

Inductive atom_op :=
| AddAtom (str : list Z) | FindAtom (str : list Z) | DeleteAtom (atom : Z) | GrabAtom (atom : Z) | ReleaseAtom (atom : Z).

Definition run_atom_op (op : atom_op) : A Z :=
  match op with
  | AddAtom str => add_atom str
  | FindAtom str => find_atom str
  | DeleteAtom atom => _ ← delete_atom atom; mret 0
  | GrabAtom atom => grab_atom atom
  | ReleaseAtom atom => _ ← release_atom atom; mret 0
  end.
(** A request starts without an error and replies with the one it leaves. *)
Fixpoint run_atoms (ops : list atom_op) : A (list (Z * Z)) :=
  match ops with
  | [] => mret []
  | op :: ops =>
      _ ← set_error 0; a ← run_atom_op op; e ← gets at_error; rest ← run_atoms ops; mret ((a, e) :: rest)
  end.

(** What [find_atom] yields. *)
Definition found (m : gmap Z (list Z * Z)) (str : list Z) (r : Z * Z) : Prop :=
  (∃ i s n, named m str i s n ∧ r = (i + MIN_STR_ATOM, 0)) ∨ unnamed m str ∧ r = (0, STATUS_OBJECT_NAME_NOT_FOUND).
(** Names that get no entry. *)
Definition special_name (str : list Z) : option (Z * Z) :=
  if bool_decide (str = []) then Some (0, STATUS_OBJECT_NAME_INVALID)
  else if MAX_ATOM_LEN <? Z.of_nat (length str) then Some (0, STATUS_INVALID_PARAMETER)
  else if truth (get_int_atom_value str) then Some (get_int_atom_value str, 0) else None.

(** One operation on the map: result, error and the map afterwards. *)
Definition atom_step (fails : Prop) (m : gmap Z (list Z * Z)) (op : atom_op) (r : Z * Z) (m' : gmap Z (list Z * Z)) : Prop :=
  match op with
  | AddAtom str => match special_name str with Some r' => r = r' ∧ m' = m | None => added fails m str 0 r m' end
  | FindAtom str => m' = m ∧ match special_name str with Some r' => r = r' | None => found m str r end
  | DeleteAtom atom => r.1 = 0 ∧ dropped m (atom - MIN_STR_ATOM) 0 r.2 m'
  | GrabAtom atom =>
      if atom <? MIN_STR_ATOM then r = (atom, 0) ∧ m' = m else
      match m !! (atom - MIN_STR_ATOM) with
      | None => r = (0, STATUS_INVALID_HANDLE) ∧ m' = m
      | Some (s, n) => r = (atom, 0) ∧ m' = <[atom - MIN_STR_ATOM := (s, n + 1)]> m
      end
  | ReleaseAtom atom =>
      if atom <? MIN_STR_ATOM then r = (0, 0) ∧ m' = m else r.1 = 0 ∧ dropped m (atom - MIN_STR_ATOM) 0 r.2 m'
  end.
Inductive atom_steps (fails : Prop) : gmap Z (list Z * Z) → list atom_op → list (Z * Z) → gmap Z (list Z * Z) → Prop :=
| steps_nil m : atom_steps fails m [] [] m
| steps_cons m op r m1 ops rs m2 : atom_step fails m op r m1 → atom_steps fails m1 ops rs m2 → atom_steps fails m (op :: ops) (r :: rs) m2.

Lemma atom_steps_mono (F F' : Prop) m ops rs m' :
  (F → F') → atom_steps F m ops rs m' → atom_steps F' m ops rs m'.
Proof.
  intros HF. induction 1 as [|m op r m1 ops rs m2 Hstep _ IH]; [constructor|]. econstructor; [|done].
  destruct op; simpl in *; unfold added in *; try done. destruct (special_name str); [done|]. naive_solver.
Qed.

(** Counts grow by one at most. *)
Definition counts_at_most (k : Z) (m : gmap Z (list Z * Z)) : Prop := map_Forall (λ _ x, x.2 ≤ k) m.
Lemma counts_mono k k' m : k ≤ k' → counts_at_most k m → counts_at_most k' m.
Proof. intros Hk Hm i x Hx. specialize (Hm i x Hx). simpl in *. lia. Qed.
Lemma dropped_counts m i (e e' : Z) m' k : counts_at_most k m → dropped m i e e' m' → counts_at_most k m'.
Proof.
  unfold dropped. intros Hm. destruct (m !! i) as [[s n]|] eqn:E; [|by intros [-> _]]. intros [-> _].
  specialize (Hm i _ E) as Hn. simpl in Hn. destruct (n =? 1); [by apply map_Forall_delete|].
  apply map_Forall_insert_2; [simpl; lia|done].
Qed.
Lemma atom_step_counts fails m op r m' k :
  1 ≤ k + 1 → counts_at_most k m → atom_step fails m op r m' → counts_at_most (k + 1) m'.
Proof.
  intros Hk Hm. pose proof (counts_mono k (k + 1) m ltac:(lia) Hm) as Hm1.
  assert (∀ i s n, m !! i = Some (s, n) → counts_at_most (k + 1) (<[i := (s, n + 1)]> m)) as Hinc.
  { intros i s n E. specialize (Hm i _ E). apply map_Forall_insert_2; [simpl in *; lia|done]. }
  destruct op as [str|str|atom|atom|atom]; simpl.
  - destruct (special_name str); [by intros [_ ->]|].
    intros [(i & s & n & [Hi _] & _ & ->)|[_ [(_ & _ & ->)|(i & _ & _ & _ & _ & ->)]]]; [by apply Hinc|done|].
    apply map_Forall_insert_2; [simpl; lia|done].
  - by intros [-> _].
  - intros [_ Hd]. by eapply dropped_counts.
  - destruct (atom <? MIN_STR_ATOM); [by intros [_ ->]|]. destruct (m !! _) as [[s n]|] eqn:E; intros [_ ->]; [by apply Hinc|done].
  - destruct (atom <? MIN_STR_ATOM); [by intros [_ ->]|]. intros [_ Hd]. by eapply dropped_counts.
Qed.

Lemma check_name_special str k (Q : Z → atom_table → Prop) t r :
  special_name str = Some r → at_error t = 0 →
  wp (check_name str k) Q t ↔
    Q r.1 (AtomTable (at_heap t) (at_next_ptr t) (at_allocs t) (at_count t) (at_atoms t) (at_entries t) r.2).
Proof.
  unfold special_name, check_name, set_error. intros Hr He.
  case_bool_decide; [injection Hr as <-; by rewrite wp_bind, wp_modify, wp_ret|].
  destruct (_ <? _); [injection Hr as <-; by rewrite wp_bind, wp_modify, wp_ret|].
  destruct (truth _); [|done]. injection Hr as <-. rewrite wp_ret. simpl. rewrite <- He. by destruct t.
Qed.
Lemma special_name_none str : special_name str = None → name_ok str.
Proof.
  unfold special_name, name_ok. case_bool_decide; [done|]. destruct (Z.ltb_spec MAX_ATOM_LEN (Z.of_nat (length str))); [done|].
  destruct (get_int_atom_value str) eqn:E; by try (unfold truth; simpl).
Qed.

(** One operation, on a table whose counts leave room. *)
Lemma run_atom_op_ok t C op k :
  table_ok t C → at_error t = 0 → counts_at_most k (names t) → k < INT_MAX →
  wp (run_atom_op op) (λ a t', (∃ C', table_ok t' C') ∧ atom_step (false ∈ at_allocs t) (names t) op (a, at_error t') (names t')) t.
Proof.
  intros Hok He Hc Hk.
  assert (map_Forall (λ _ x, x.2 < INT_MAX) (names t)) as Hroom by (intros i x Hx; specialize (Hc i x Hx); simpl in *; lia).
  assert (∀ r, table_ok (AtomTable (at_heap t) (at_next_ptr t) (at_allocs t) (at_count t) (at_atoms t) (at_entries t) r) C) as Herr
    by (intros; by apply table_ok_error).
  destruct op as [str|str|atom|atom|atom]; simpl.
  - destruct (special_name str) as [[a e]|] eqn:Es.
    + unfold add_atom. apply (check_name_special _ _ _ _ _ Es He). split; [by exists C|done].
    + rewrite <- He. eapply wp_mono; [apply (add_atom_ok t C); [done|by apply special_name_none|done]|done].
  - destruct (special_name str) as [[a e]|] eqn:Es.
    + unfold find_atom. apply (check_name_special _ _ _ _ _ Es He). split; [by exists C|done].
    + eapply wp_mono; [apply (find_atom_ok t C); [done|by apply special_name_none]|]. rewrite He. intros a t' (Hn & Hok' & Hr).
      split; [done|]. by split.
  - rewrite wp_bind. eapply wp_mono; [by apply (delete_atom_ok t C)|]. rewrite He. intros _ t' [Hok' Hd]. rewrite wp_ret. by split.
  - destruct (Z.ltb_spec atom MIN_STR_ATOM).
    + unfold grab_atom. rewrite (proj2 (Z.leb_gt _ _)) by done. rewrite wp_ret, He. split; [by exists C|done].
    + eapply wp_mono; [by apply (grab_atom_ok t C)|]. rewrite He. intros a t' [Hok' Hd]. split; [done|].
      destruct (names t !! _) as [[s n]|]; by destruct Hd.
  - unfold release_atom. destruct (Z.ltb_spec atom MIN_STR_ATOM).
    + rewrite (proj2 (Z.leb_gt _ _)) by done. rewrite wp_bind, wp_when, wp_ret, He. split; [by exists C|done].
    + rewrite (proj2 (Z.leb_le _ _)) by done. rewrite wp_bind, wp_when.
      eapply wp_mono; [by apply (delete_atom_ok t C)|]. rewrite He. intros _ t' [Hok' Hd]. rewrite wp_ret. by split.
Qed.

(** The answers of malloc are used up one by one. *)
Definition fewer_answers (t t' : atom_table) : Prop := at_allocs t' `suffix_of` at_allocs t.
Instance fewer_answers_preorder : PreOrder fewer_answers.
Proof. unfold fewer_answers. split; [by intros t; exists []|]. intros t1 t2 t3 H1 H2. by etrans. Qed.

Lemma keeps_entry_of p : keeps fewer_answers (entry_of p).
Proof. intros t e t'. unfold entry_of. destruct (at_heap t !! p); [|done]. by intros [= _ <-]. Qed.
Lemma keeps_mem_alloc_entry : keeps fewer_answers mem_alloc_entry.
Proof.
  intros t r t'. unfold mem_alloc_entry, fewer_answers. destruct (at_allocs t) as [|[] l] eqn:E; intros [= _ <-]; simpl; rewrite ?E;
    [done|..]; by apply suffix_cons_r.
Qed.
Ltac answers_tac := keeps_tac ltac:(first
  [ progress unfold set_error, update_entry, set_entry, free_entry, release_atom, delete_atom, get_atom_entry, add_atom_entry, check_name, find_atom_entry
  | apply keeps_modify; intros t; unfold fewer_answers; by exists []
  | apply keeps_entry_of
  | apply keeps_mem_alloc_entry ]).
Lemma keeps_find_in_list fuel str : ∀ entry, keeps fewer_answers (find_in_list fuel entry str).
Proof. induction fuel as [|fuel IH]; intros [p|]; simpl; answers_tac; apply IH. Qed.
Lemma keeps_run_atom_op op : keeps fewer_answers (run_atom_op op).
Proof.
  destruct op; simpl; unfold add_atom, find_atom, grab_atom, delete_atom; answers_tac; try apply keeps_find_in_list.
Qed.

Lemma run_atoms_ok ops : ∀ t C k,
  table_ok t C → counts_at_most k (names t) → 0 ≤ k → k + Z.of_nat (length ops) < INT_MAX →
  wp (run_atoms ops) (λ rs t', (∃ C', table_ok t' C') ∧ atom_steps (false ∈ at_allocs t) (names t) ops rs (names t')) t.
Proof.
  induction ops as [|op ops IH]; intros t C k Hok Hc Hk Hlen; simpl in Hlen |- *.
  { rewrite wp_ret. split; [by exists C|constructor]. }
  rewrite wp_bind. unfold set_error. rewrite wp_modify, wp_bind.
  set (t0 := AtomTable _ _ _ _ _ _ 0).
  eapply wp_mono; [apply wp_keeps; [apply (run_atom_op_ok t0 C op k); [by apply table_ok_error|done|done|lia]|apply keeps_run_atom_op]|].
  intros a t1 [[[C1 Hok1] Hstep] Hfewer]. change (names t0) with (names t) in Hstep. rewrite wp_bind, wp_gets, wp_bind.
  eapply wp_mono; [apply (IH t1 C1 (k + 1)); [done|eapply atom_step_counts; [|done|exact Hstep]; lia|lia|lia]|].
  intros rs t2 [Hok2 Hsteps]. rewrite wp_ret. split; [done|]. econstructor; [done|].
  eapply atom_steps_mono; [|exact Hsteps]. destruct Hfewer as [l Hl]. intros Hf.
  change (at_allocs t0) with (at_allocs t) in Hl. rewrite Hl. apply elem_of_app. by right.
Qed.

(** C22: From an empty table, any sequence of fewer than 2^31 - 1 additions, searches, deletions,
    grabs and releases - whichever allocations fail - runs without touching freed memory and
    ends, and every result and error is that of a finite map from atoms to names with reference
    counts: names that differ in case only share one atom; a new name gets the lowest free
    atom above 0xc000, unless an allocation failed or all are taken; the last deletion frees it. *)
Theorem atom_table_refines ops allocs :
  Z.of_nat (length ops) < INT_MAX →
  wp (run_atoms ops) (λ rs t', atom_steps (false ∈ allocs) ∅ ops rs (names t')) (set_alloc 1 allocs new_atom_table).
Proof.
  intros Hlen. set (t := set_alloc 1 allocs new_atom_table).
  assert (table_ok t (λ _, [])) as Hok by (by destruct new_atom_table_ok).
  assert (names t = ∅) as Hn by done. rewrite <- Hn.
  eapply wp_mono; [apply (run_atoms_ok ops t _ 0 Hok); [by rewrite Hn|lia|lia]|].
  by intros rs t' [_ ?].
Qed.
End atoms_history.

(** A case map of ASCII letters: capital letters differ from small ones by 32. *)
#[export] Instance ascii_casemap : CaseMap := λ i,
  if i =? 0 then 256 else if i <? 256 then 512 else if i =? 260 then 1088 else if i =? 261 then 1104
  else if i <? 1024 then 2048 else if (1089 <=? i) && (i <=? 1114) then 32 else 0.
Example to_lower_ascii : map to_lower [65; 90; 97; 122; 64; 91; 0x141] = [97; 122; 97; 122; 64; 91; 0x141].
Proof. reflexivity. Qed.

(** Seven operations: two spellings of "aB" share atom 0xc001; the second allocation fails;
    atom 0xc001 is free after two deletions. *)
Definition demo_atoms : list atom_op :=
  [AddAtom [97; 66]; AddAtom [65; 98]; AddAtom [99]; AddAtom [35; 48; 55]; DeleteAtom 0xc001; DeleteAtom 0xc001; FindAtom [97; 98]].
Lemma atom_table_refines_witness :
  Z.of_nat (length demo_atoms) < INT_MAX ∧
  wp (run_atoms demo_atoms) (λ rs t',
    rs = [(0xc001, 0); (0xc001, 0); (0, STATUS_NO_MEMORY); (7, 0); (0, 0); (0, 0); (0, STATUS_OBJECT_NAME_NOT_FOUND)] ∧
    atom_steps (false ∈ [true; false]) ∅ demo_atoms rs (names t')) (set_alloc 1 [true; false] new_atom_table).
Proof.
  assert (Z.of_nat (length demo_atoms) < INT_MAX) as Hlen by reflexivity. split; [exact Hlen|].
  eapply wp_mono; [apply wp_conj; [|exact (atom_table_refines demo_atoms [true; false] Hlen)]|by intros rs t' H; exact H].
  vm_compute. reflexivity.
Defined.

(** The standard names: 23 global and 28 user atoms, numbered from 0xc001. *)
Example standard_atoms :
  match set_global_atom_table new_atom_table, set_user_atom_table new_atom_table with
  | Done _ g, Done _ u => at_count g = 24 ∧ at_count u = 29 ∧ size (names g) = 23%nat ∧ size (names u) = 28%nat ∧
      (at_error g, at_error u) = (0, 0)
  | _, _ => False
  end.
Proof. vm_compute. done. Qed.
