(* ===== verification/RegStrings.v ===== *)
(** * Escaped strings

    [dump_strW] writes 16-bit characters as ASCII with escapes, [parse_strW] reads them
    back, and UTF-8 too (src/server/unicode.c). Texts are lists of bytes; the end of a list
    that is read is the terminating zero. *)

From S2P Require Import Prelude.

(** [*p], and the C library's character classes. *)
Definition char_at (p : list Z) : Z := match p with [] => 0 | c :: _ => c end.
Definition isdigit (c : Z) : bool := (48 <=? c) && (c <=? 57).
Definition isxdigit (c : Z) : bool := isdigit c || ((65 <=? c) && (c <=? 70)) || ((97 <=? c) && (c <=? 102)).
Definition isoctal (c : Z) : bool := (48 <=? c) && (c <=? 55).
Definition isspace (c : Z) : bool := (c =? 32) || ((9 <=? c) && (c <=? 13)).
Definition tolower (c : Z) : Z := if (65 <=? c) && (c <=? 90) then c + 32 else c.
Definition to_hex (ch : Z) : Z := if isdigit ch then ch - 48 else tolower ch - 97 + 10.

(** What [printf] makes of unsigned numbers: at least [width] digits, padded with zeros. *)
Definition digit (n : Z) : Z := if n <? 10 then 48 + n else 87 + n.
Fixpoint digits (fuel : nat) (base n : Z) (acc : list Z) : list Z :=
  match fuel with
  | O => acc
  | S fuel => if n <? base then digit n :: acc else digits fuel base (n / base) (digit (n mod base) :: acc)
  end.
(** A 32-bit number has at most 32 digits. *)
Definition print_number (base : Z) (width : nat) (n : Z) : list Z :=
  let d := digits 32 base n [] in replicate (width - length d) 48 ++ d.

(** ** Writing *)

(** [escapes], where '.' is no escape. *)
Definition escapes : list Z :=
  [46; 46; 46; 46; 46; 46; 46; 97; 98; 116; 110; 118; 102; 114; 46; 46;
   46; 46; 46; 46; 46; 46; 46; 46; 46; 46; 46; 101; 46; 46; 46; 46].

(** One turn of the loop: what it appends for the character [c] before [next]. *)
Definition dump_char (escape : Z * Z) (c : Z) (next : list Z) : list Z :=
  if 127 <? c then
    if match next with n :: _ => (n <? 128) && isxdigit n | [] => false end
    then [92; 120] ++ print_number 16 4 c else [92; 120] ++ print_number 16 0 c
  else if c <? 32 then
    let e := nth (Z.to_nat c) escapes 46 in
    if negb (e =? 46) then [92; e]
    else if match next with n :: _ => (48 <=? n) && (n <=? 55) | [] => false end
    then [92] ++ print_number 8 3 c else [92] ++ print_number 8 0 c
  else if (c =? 92) || (c =? escape.1) || (c =? escape.2) then [92; c] else [c].

(** The file, and the local buffer of 256 bytes; [snprintf] also writes a zero. *)
Record dump_state := DumpState { ds_file : list Z; ds_buffer : list Z }.
Definition fwrite_buffer : M dump_state unit := modify (λ s, DumpState (ds_file s ++ ds_buffer s) []).
Definition append_buffer (t : list Z) (zero : Z) : M dump_state unit :=
  s ← gets id;
  _ ← c_assert (Z.of_nat (length (ds_buffer s ++ t)) + zero <=? 256);
  modify (λ s, DumpState (ds_file s) (ds_buffer s ++ t)).
(** Yields the number of bytes in the file. *)
Fixpoint dump_strW (str : list Z) (escape : Z * Z) (count : Z) : M dump_state Z :=
  match str with
  | [] =>
      n ← gets (λ s, Z.of_nat (length (ds_buffer s)));
      _ ← fwrite_buffer; mret (count + n)
  | c :: next =>
      n ← gets (λ s, Z.of_nat (length (ds_buffer s)));
      _ ← when (256 - 8 <? n) fwrite_buffer;
      _ ← append_buffer (dump_char escape c next) (if (127 <? c) || (c <? 32) then 1 else 0);
      dump_strW next escape (if 256 - 8 <? n then count + n else count)
  end.

(** ** Reading *)

(** Tables for lead bytes from 0x80, and for the number of bytes that follow. *)
Definition utf8_length (ch : Z) : nat :=
  if ch <? 0xc2 then 0 else if ch <? 0xe0 then 1 else if ch <? 0xf0 then 2 else if ch <? 0xf5 then 3 else 0.
Definition utf8_mask (n : nat) : Z := nth n [0x7f; 0x1f; 0x0f; 0x07] 0.
Definition utf8_minval (n : nat) : Z := nth n [0; 0x80; 0x800; 0x10000] 0.

(** The bytes that follow a lead byte: the number, if they are valid, and what is left. *)
Fixpoint utf8_tail (n : nat) (res : Z) (p : list Z) : option Z * list Z :=
  match n with
  | O => (Some res, p)
  | S n =>
      let ch := Z.land (Z.lxor (char_at p) 0x80) 0xff in
      if 0x40 <=? ch then (None, p) else utf8_tail n (Z.lor (Z.shiftl res 6) ch) (tail p)
  end.
(** The characters of a code point, [room] of which fit. *)
Definition code_units (res room : Z) : list Z :=
  if res <=? 0xffff then [res]
  else Z.lor 0xd800 (Z.shiftr (res - 0x10000) 10) ::
       (if 1 <? room then [Z.lor 0xdc00 (Z.land (res - 0x10000) 0x3ff)] else []).
Definition parse_utf8 (ch : Z) (p : list Z) (room : Z) : list Z * list Z :=
  let charlen := utf8_length ch in
  match charlen with
  | O => ([], p)
  | _ =>
      match utf8_tail charlen (Z.land ch (utf8_mask charlen)) p with
      | (Some res, p) =>
          if (res <? utf8_minval charlen) || (0x10ffff <? res) then ([], p) else (code_units res room, p)
      | (None, p) => ([], p)
      end
  end.

(** Up to [n] more digits of an escape. *)
Fixpoint more_digits (base : Z) (is_digit : Z → bool) (n : nat) (d : Z) (p : list Z) : Z * list Z :=
  match n, p with
  | S n, c :: p' => if is_digit c then more_digits base is_digit n (u16 (d * base + to_hex c)) p' else (d, p)
  | _, _ => (d, p)
  end.

(** One turn of the loop: the characters it stores in [room] and the rest; None is [break]. *)
Definition parse_plain (p : list Z) (room : Z) : list Z * list Z :=
  match p with
  | [] => ([], [])
  | ch :: p => if ch <? 0x80 then ([ch], p) else parse_utf8 ch p room
  end.
Definition parse_escape (p : list Z) (room : Z) : option (list Z * list Z) :=
  match p with
  | [] => None
  | c :: p' =>
      if c =? 97 then Some ([7], p') else if c =? 98 then Some ([8], p')
      else if c =? 101 then Some ([27], p') else if c =? 102 then Some ([12], p')
      else if c =? 110 then Some ([10], p') else if c =? 114 then Some ([13], p')
      else if c =? 116 then Some ([9], p') else if c =? 118 then Some ([11], p')
      else if c =? 120 then
        match p' with
        | d :: p' => if isxdigit d then let '(v, q) := more_digits 16 isxdigit 3 (to_hex d) p' in Some ([v], q)
                     else Some ([120], d :: p')
        | [] => Some ([120], [])
        end
      else if isoctal c then let '(v, q) := more_digits 8 isoctal 2 (c - 48) p' in Some ([v], q)
      else Some (parse_plain p room)
  end.
Definition parse_step (p : list Z) (room : Z) : option (list Z * list Z) :=
  match p with
  | c :: p' => if c =? 92 then parse_escape p' room else Some (parse_plain p room)
  | [] => None
  end.

(** The loop; every turn reads a byte, so [fuel] is the length of the text. *)
Fixpoint parse_loop (fuel : nat) (dest : list Z) (room : Z) (p : list Z) (endchar : Z) : option (list Z * Z * list Z) :=
  if (char_at p =? 0) || (char_at p =? endchar) || (room <=? 0) then Some (dest, room, p) else
  match fuel with
  | O => None
  | S fuel =>
      match parse_step p room with
      | None => Some (dest, room, [])
      | Some (units, p) => parse_loop fuel (dest ++ units) (room - Z.of_nat (length units)) p endchar
      end
  end.
(** The characters with the terminating zero, and the number of bytes read; None is -1.
    [len] is the size of the destination in bytes. *)
Definition parse_strW (len : Z) (src : list Z) (endchar : Z) : option (list Z * Z) :=
  match parse_loop (length src) [] (len / 2) src endchar with
  | Some (dest, room, p) =>
      if (room <=? 0) || (char_at p =? 0) then None
      else Some (dest ++ [0], Z.of_nat (length src) - Z.of_nat (length p) + 1)
  | None => None
  end.
