(* ===== verification/RegStringsSpec.v ===== *)
(** * Escaped strings are read back as they were written

    For every string of 16-bit characters, with the delimiters that the registry uses. *)

From S2P Require Import Prelude.
From S2P Require Import RegStrings.

Definition wchar (c : Z) : Prop := 0 ≤ c < 65536.
(** The escaped characters of a call of [dump_strW] and the [endchar] of the matching
    [parse_strW]: quotes for names and data, brackets for paths of keys. *)
Definition delimits (escape : Z * Z) (e : Z) : Prop := escape = (34, 34) ∧ e = 34 ∨ escape = (91, 93) ∧ e = 93.

(** The text of a string. *)
Fixpoint dump_text (escape : Z * Z) (str : list Z) : list Z :=
  match str with [] => [] | c :: next => dump_char escape c next ++ dump_text escape next end.

(** ** Numbers *)

Section digits.
Context (base : Z) (is_digit : Z → bool) (Hbase : 2 ≤ base)
  (Hdigit : ∀ d, 0 ≤ d < base → is_digit (digit d) = true ∧ to_hex (digit d) = d).

(** The number that digits denote, and what 16-bit arithmetic makes of it. *)
Definition number (d : Z) (p : list Z) : Z := fold_left (λ d c, d * base + to_hex c) p d.
Definition read_digits (d : Z) (p : list Z) : Z := fold_left (λ d c, u16 (d * base + to_hex c)) p d.

Lemma number_nonneg p : forallb is_digit p = true → (∀ c, is_digit c = true → 0 ≤ to_hex c) → 0 ≤ number 0 p.
Proof.
  intros Hp Hc. induction p as [|c p IH] using rev_ind; [done|]. rewrite forallb_app in Hp. simpl in Hp. rewrite !andb_true_iff in Hp.
  unfold number in *. rewrite fold_left_app. simpl. pose proof (Hc c ltac:(naive_solver)). pose proof (IH ltac:(naive_solver)). nia.
Qed.
Lemma read_digits_number p : forallb is_digit p = true → (∀ c, is_digit c = true → 0 ≤ to_hex c) → number 0 p < 65536 → read_digits 0 p = number 0 p.
Proof.
  intros Hp Hc. induction p as [|c p IH] using rev_ind; [done|]. rewrite forallb_app in Hp. simpl in Hp. rewrite !andb_true_iff in Hp.
  pose proof (number_nonneg p ltac:(naive_solver) Hc) as H0. pose proof (Hc c ltac:(naive_solver)) as Hc0.
  unfold number, read_digits in *. rewrite !fold_left_app. simpl. intros Hn. rewrite IH by (naive_solver || nia). apply u16_small. nia.
Qed.

Lemma digits_app fuel : ∀ n acc, digits fuel base n acc = digits fuel base n [] ++ acc.
Proof.
  induction fuel as [|fuel IH]; intros n acc; simpl; [done|]. case_match; [done|].
  rewrite IH, (IH _ [_]), <- app_assoc. done.
Qed.
Lemma digits_spec fuel : ∀ n, 0 ≤ n < base ^ Z.of_nat fuel → (0 < fuel)%nat →
  let p := digits fuel base n [] in
  forallb is_digit p = true ∧ number 0 p = n ∧ p ≠ [] ∧
  ∀ k, (0 < k)%nat → n < base ^ Z.of_nat k → (length p ≤ k)%nat.
Proof.
  induction fuel as [|fuel IH]; intros n Hn Hf; cbn [digits]; [lia|].
  destruct (Z.ltb_spec n base) as [Hlt|Hge].
  - destruct (Hdigit n ltac:(lia)) as [H1 H2]. split_and!; [|unfold number; simpl; lia|done|simpl; lia].
    simpl. by rewrite H1.
  - rewrite digits_app. assert (0 ≤ n / base < n) as Hdiv by (split; [apply Z.div_pos; lia|apply Z.div_lt; lia]).
    assert (n / base < base ^ Z.of_nat fuel) as Hq.
    { apply Z.div_lt_upper_bound; [lia|]. rewrite Nat2Z.inj_succ, Z.pow_succ_r in Hn by lia. lia. }
    destruct fuel as [|fuel]; [simpl in Hq; assert (1 ≤ n / base) by (apply Z.div_le_lower_bound; lia); lia|].
    destruct (IH (n / base)) as (I1 & I2 & I3 & I4); [lia..|].
    destruct (Hdigit (n mod base)) as [H1 H2]; [apply Z.mod_pos_bound; lia|]. split_and!.
    + by rewrite forallb_app, I1; simpl; rewrite H1.
    + unfold number in *. rewrite fold_left_app, I2. simpl. rewrite H2. rewrite (Z.div_mod n base) at 3; lia.
    + by destruct (digits _ _ _ _).
    + intros [|[|k]] Hk Hnk; [lia|rewrite Z.pow_1_r in Hnk; lia|]. rewrite length_app. simpl.
      assert (length (digits (S fuel) base (n / base) []) ≤ S k)%nat; [|simpl in *; lia]. apply I4; [lia|].
      apply Z.div_lt_upper_bound; [lia|]. rewrite (Nat2Z.inj_succ (S k)), Z.pow_succ_r in Hnk by lia. lia.
Qed.

(** Reading stops after [n] digits or at something else. *)
Lemma more_digits_spec n p : ∀ d rest,
  forallb is_digit p = true → (length p ≤ n)%nat → (length p = n ∨ is_digit (char_at rest) = false) →
  more_digits base is_digit n d (p ++ rest) = (read_digits d p, rest).
Proof.
  revert n. induction p as [|c p IH]; intros n d rest Hp Hlen Hstop; simpl in *.
  - destruct n as [|n]; [done|]. destruct Hstop as [|Hstop]; [done|]. destruct rest as [|c rest]; [done|]. simpl in *. by rewrite Hstop.
  - apply andb_true_iff in Hp as [Hc Hp]. destruct n as [|n]; [lia|]. simpl. rewrite Hc.
    rewrite IH; [done|done|lia|]. destruct Hstop; [left; lia|by right].
Qed.

Lemma print_number_plain width n : 0 ≤ n < base ^ 32 →
  let p := print_number base width n in
  forallb is_digit p = true ∧ number 0 p = n ∧ p ≠ [] ∧ (width ≤ length p)%nat ∧
  ∀ k, (0 < k)%nat → (width ≤ k)%nat → n < base ^ Z.of_nat k → (length p ≤ k)%nat.
Proof.
  intros Hn. destruct (digits_spec 32 n) as (D1 & D2 & D3 & D4); [change (Z.of_nat 32) with 32; lia|lia|].
  unfold print_number. set (p := digits 32 base n []) in *. set (k := (width - length p)%nat).
  destruct (Hdigit 0 ltac:(lia)) as [Z1 Z2]. change (digit 0) with 48 in *.
  assert (forallb is_digit (replicate k 48) = true) as HR by (clear -Z1; induction k; simpl; [done|by rewrite Z1]).
  assert (number 0 (replicate k 48) = 0) as HV by (clear -Z2; unfold number; induction k; simpl; [done|by rewrite Z2]).
  split_and!.
  - by rewrite forallb_app, HR, D1.
  - unfold number in *. by rewrite fold_left_app, HV, D2.
  - intros [_ H0]%app_nil. by apply D3.
  - rewrite length_app, length_replicate. unfold k. lia.
  - intros k' Hk' Hwk Hnk. specialize (D4 k' Hk' Hnk). rewrite length_app, length_replicate. unfold k. lia.
Qed.
Lemma print_number_spec width n : (∀ c, is_digit c = true → 0 ≤ to_hex c) → wchar n → 65536 ≤ base ^ 32 →
  let p := print_number base width n in
  forallb is_digit p = true ∧ read_digits 0 p = n ∧ p ≠ [] ∧ (width ≤ length p)%nat ∧
  ∀ k, (0 < k)%nat → (width ≤ k)%nat → n < base ^ Z.of_nat k → (length p ≤ k)%nat.
Proof.
  intros Hc Hw H32. unfold wchar in Hw. destruct (print_number_plain width n ltac:(lia)) as (P1 & P2 & P3 & P4 & P5).
  split_and!; [done| |done..]. rewrite read_digits_number; [done..|lia].
Qed.
End digits.

Lemma hex_digit d : 0 ≤ d < 16 → isxdigit (digit d) = true ∧ to_hex (digit d) = d.
Proof.
  intros H. assert (Forall (λ d, isxdigit (digit d) = true ∧ to_hex (digit d) = d) (seqZ 0 16)) as HF by (vm_compute; repeat constructor).
  rewrite list.Forall_forall in HF. apply HF, elem_of_seqZ. lia.
Qed.
Lemma octal_digit d : 0 ≤ d < 8 → isoctal (digit d) = true ∧ to_hex (digit d) = d.
Proof.
  intros H. assert (Forall (λ d, isoctal (digit d) = true ∧ to_hex (digit d) = d) (seqZ 0 8)) as HF by (vm_compute; repeat constructor).
  rewrite list.Forall_forall in HF. apply HF, elem_of_seqZ. lia.
Qed.
Lemma xdigit_nonneg c : isxdigit c = true → 0 ≤ to_hex c < 16.
Proof. unfold to_hex, tolower, isxdigit, isdigit. intros Hc. repeat case_match; lia. Qed.
Lemma isoctal_isxdigit c : isoctal c = true → isxdigit c = true.
Proof.
  unfold isoctal, isxdigit, isdigit. rewrite !orb_true_iff, !andb_true_iff, !Z.leb_le. intros [H1 H2]. left. left. lia.
Qed.

Lemma hex_number width c : wchar c → 65536 ≤ 16 ^ 32 →
  let p := print_number 16 width c in
  forallb isxdigit p = true ∧ read_digits 16 0 p = c ∧ p ≠ [] ∧ (width ≤ length p)%nat ∧
  ∀ k, (0 < k)%nat → (width ≤ k)%nat → c < 16 ^ Z.of_nat k → (length p ≤ k)%nat.
Proof. apply (print_number_spec 16 isxdigit); [lia|apply hex_digit|apply xdigit_nonneg]. Qed.
Lemma octal_number width c : wchar c → 65536 ≤ 8 ^ 32 →
  let p := print_number 8 width c in
  forallb isoctal p = true ∧ read_digits 8 0 p = c ∧ p ≠ [] ∧ (width ≤ length p)%nat ∧
  ∀ k, (0 < k)%nat → (width ≤ k)%nat → c < 8 ^ Z.of_nat k → (length p ≤ k)%nat.
Proof. apply (print_number_spec 8 isoctal); [lia|apply octal_digit|]. intros d Hd. by apply xdigit_nonneg, isoctal_isxdigit. Qed.

(** ** Writing *)

(** The first byte after a character: if it looks like a digit, so does the next character. *)
Lemma next_digit escape e str rest :
  delimits escape e → isxdigit (char_at (dump_text escape str ++ e :: rest)) = true →
  ∃ c next, str = c :: next ∧ c < 128 ∧ char_at (dump_text escape str ++ e :: rest) = c.
Proof.
  intros Hd. destruct str as [|c next]; simpl; [by destruct Hd as [[_ ->]|[_ ->]]|].
  unfold dump_char. repeat case_match; simpl; try done. intros _. exists c, next. split_and!; [done| |done].
  destruct (Z.ltb_spec 127 c); [done|lia].
Qed.

Lemma dump_char_length escape c next : wchar c → (length (dump_char escape c next) ≤ 6)%nat.
Proof.
  intros Hc. unfold dump_char.
  destruct (hex_number 4 c Hc ltac:(lia)) as (_ & _ & _ & _ & H4).
  destruct (hex_number 0 c Hc ltac:(lia)) as (_ & _ & _ & _ & H0).
  destruct (octal_number 3 c Hc ltac:(lia)) as (_ & _ & _ & _ & O3).
  destruct (octal_number 0 c Hc ltac:(lia)) as (_ & _ & _ & _ & O0).
  specialize (H4 4%nat ltac:(lia) ltac:(lia) ltac:(unfold wchar in Hc; change (16 ^ Z.of_nat 4) with 65536; lia)).
  specialize (H0 4%nat ltac:(lia) ltac:(lia) ltac:(unfold wchar in Hc; change (16 ^ Z.of_nat 4) with 65536; lia)).
  destruct (127 <? c); [case_match; rewrite length_app; simpl; lia|]. destruct (Z.ltb_spec c 32) as [Hlt|]; [|case_match; simpl; lia].
  specialize (O3 4%nat ltac:(lia) ltac:(lia) ltac:(change (8 ^ Z.of_nat 4) with 4096; lia)).
  specialize (O0 4%nat ltac:(lia) ltac:(lia) ltac:(change (8 ^ Z.of_nat 4) with 4096; lia)).
  cbv zeta. repeat case_match; rewrite ?length_app; simpl; lia.
Qed.

(** The buffer never overflows, and the file gets the text. *)
Lemma dump_strW_ok escape str : ∀ count s,
  Forall wchar str → (length (ds_buffer s) ≤ 256)%nat →
  wp (dump_strW str escape count) (λ n s', s' = DumpState (ds_file s ++ ds_buffer s ++ dump_text escape str) [] ∧
    n = count + Z.of_nat (length (ds_buffer s)) + Z.of_nat (length (dump_text escape str))) s.
Proof.
  induction str as [|c next IH]; intros count s Hs Hb; simpl.
  { rewrite wp_bind, wp_gets, wp_bind. unfold fwrite_buffer. rewrite wp_modify, wp_ret. rewrite app_nil_r. split; [done|]. simpl. lia. }
  apply list.Forall_cons in Hs as [Hc Hs]. pose proof (dump_char_length escape c next Hc) as Hlen.
  assert (∀ s0, (length (ds_buffer s0) ≤ 248)%nat → ∀ count',
    wp (_ ← append_buffer (dump_char escape c next) (if (127 <? c) || (c <? 32) then 1 else 0);
        dump_strW next escape count')
      (λ n s', s' = DumpState (ds_file s0 ++ ds_buffer s0 ++ dump_char escape c next ++ dump_text escape next) [] ∧
        n = count' + Z.of_nat (length (ds_buffer s0)) + Z.of_nat (length (dump_char escape c next ++ dump_text escape next))) s0) as Hstep.
  { intros s0 Hs0 count'. rewrite wp_bind. unfold append_buffer. rewrite wp_bind, wp_gets, wp_bind, wp_assert. unfold id.
    split; [apply Z.leb_le; rewrite length_app; destruct (_ || _); lia|]. rewrite wp_modify.
    eapply wp_mono; [apply IH; [done|simpl; rewrite length_app; lia]|]. simpl. intros n s' [-> ->]. rewrite <- app_assoc. split; [done|].
    rewrite !length_app. lia. }
  rewrite wp_bind, wp_gets, wp_bind, wp_when. destruct (Z.ltb_spec (256 - 8) (Z.of_nat (length (ds_buffer s)))) as [Hfull|Hroom].
  - unfold fwrite_buffer. rewrite wp_modify. eapply wp_mono; [apply Hstep; simpl; lia|]. simpl. intros n s' [-> ->].
    rewrite <- !app_assoc. split; [done|]. simpl. lia.
  - eapply wp_mono; [apply Hstep; lia|]. intros n s' [-> ->]. done.
Qed.

(** ** Reading *)

#[local] Arguments more_digits : simpl never.

(** A number, and the byte after it that is no digit unless the number has [n] digits. *)
Lemma parse_hex_escape c width rest :
  128 ≤ c → wchar c → (width ≤ 4)%nat → (width = 4%nat ∨ isxdigit (char_at rest) = false) → ∀ room,
  parse_escape (120 :: print_number 16 width c ++ rest) room = Some ([c], rest).
Proof.
  intros Hge Hc Hwidth Hstop room.
  destruct (hex_number width c Hc ltac:(lia)) as (H1 & H2 & H3 & H4 & H5).
  specialize (H5 4%nat ltac:(lia) ltac:(lia) ltac:(unfold wchar in Hc; change (16 ^ Z.of_nat 4) with 65536; lia)).
  destruct (print_number 16 width c) as [|d p]; [done|]. simpl in H1, H4, H5 |- *. apply andb_true_iff in H1 as [Hd Hp]. rewrite Hd.
  rewrite (more_digits_spec 16 isxdigit) by first [done | lia | (destruct Hstop; [left; lia|by right])].
  assert (u16 (0 * 16 + to_hex d) = to_hex d) as Ed.
  { apply u16_small. clear -Hd. unfold to_hex, tolower, isxdigit, isdigit in *. repeat case_match; lia. }
  unfold read_digits in *. cbn [fold_left] in H2. rewrite Ed in H2. by rewrite H2.
Qed.
Lemma parse_octal_escape c width rest :
  0 ≤ c < 32 → (width ≤ 3)%nat → (width = 3%nat ∨ isoctal (char_at rest) = false) → ∀ room,
  parse_escape (print_number 8 width c ++ rest) room = Some ([c], rest).
Proof.
  intros Hc Hwidth Hstop room. assert (wchar c) as Hw by (unfold wchar; lia).
  destruct (octal_number width c Hw ltac:(lia)) as (H1 & H2 & H3 & H4 & H5).
  specialize (H5 3%nat ltac:(lia) ltac:(lia) ltac:(change (8 ^ Z.of_nat 3) with 512; lia)).
  destruct (print_number 8 width c) as [|d p]; [done|]. simpl in H1, H4, H5 |- *. apply andb_true_iff in H1 as [Hd Hp]. rewrite Hd.
  assert (48 ≤ d ≤ 55) as Hd' by (unfold isoctal in Hd; lia).
  repeat (match goal with |- context [d =? ?x] => rewrite (proj2 (Z.eqb_neq d x)) by lia end).
  rewrite (more_digits_spec 8 isoctal) by first [done | lia | (destruct Hstop; [left; lia|by right])].
  unfold read_digits in *. assert (to_hex d = d - 48) as Hh.
  { unfold to_hex, isdigit. by rewrite (proj2 (Z.leb_le 48 d)), (proj2 (Z.leb_le d 57)) by lia. }
  cbn [fold_left] in H2. rewrite Hh, (u16_small (0 * 8 + (d - 48))) in H2 by lia.
  change (0 * 8 + (d - 48)) with (d - 48) in H2. by rewrite H2.
Qed.

Lemma dump_char_parse escape e c next rest room :
  delimits escape e → wchar c →
  parse_step (dump_char escape c next ++ dump_text escape next ++ e :: rest) room =
    Some ([c], dump_text escape next ++ e :: rest).
Proof.
  intros Hd Hc. pose proof (next_digit escape e next rest Hd) as Hnext. set (p := dump_text escape next ++ e :: rest) in *.
  unfold dump_char. destruct (Z.ltb_spec 127 c) as [Hhigh|Hlow].
  - destruct next as [|n next]; [|destruct ((n <? 128) && isxdigit n) eqn:En].
    all: match goal with |- parse_step ((_ ++ ?x) ++ _) _ = _ => change (parse_escape (120 :: x ++ p) room = Some ([c], p)) end.
    all: apply parse_hex_escape; [lia|done|lia|]; try by left. all: right.
    + apply not_true_is_false; intros Ex. by destruct (Hnext Ex) as (? & ? & ? & _).
    + apply not_true_is_false; intros Ex. destruct (Hnext Ex) as (? & ? & [= <- <-] & Hlt & Heq). rewrite Heq in Ex.
      rewrite Ex, (proj2 (Z.ltb_lt _ _)) in En by done. done.
  - destruct (Z.ltb_spec c 32) as [Hctl|Hplain].
    + set (ec := nth (Z.to_nat c) escapes 46). destruct (Z.eqb_spec ec 46) as [E|E]; cbn [negb].
      * destruct next as [|n next]; [|destruct ((48 <=? n) && (n <=? 55)) eqn:En].
        all: match goal with |- parse_step ((_ ++ ?x) ++ _) _ = _ => change (parse_escape (x ++ p) room = Some ([c], p)) end.
        all: apply parse_octal_escape; [unfold wchar in Hc; lia|lia|]; try by left. all: right.
        -- apply not_true_is_false; intros Ex. by destruct (Hnext (isoctal_isxdigit _ Ex)) as (? & ? & ? & _).
        -- apply not_true_is_false; intros Ex. destruct (Hnext (isoctal_isxdigit _ Ex)) as (? & ? & [= <- <-] & Hlt & Heq).
           rewrite Heq in Ex. unfold isoctal in Ex. congruence.
      * assert (Forall (λ c, nth (Z.to_nat c) escapes 46 ≠ 46 → ∀ p room,
          parse_escape (nth (Z.to_nat c) escapes 46 :: p) room = Some ([c], p)) (seqZ 0 32)) as HF.
        { vm_compute seqZ. repeat constructor; intros; simpl in *; try done. }
        rewrite list.Forall_forall in HF. apply (HF c); [apply elem_of_seqZ; unfold wchar in Hc; lia|done].
    + destruct ((c =? 92) || _ || _) eqn:Eesc; simpl.
      * assert (c = 92 ∨ c = 34 ∨ c = 91 ∨ c = 93) as Hcases.
        { destruct Hd as [[-> _]|[-> _]]; simpl in Eesc; rewrite !orb_true_iff, !Z.eqb_eq in Eesc; naive_solver. }
        by destruct Hcases as [->|[->|[->| ->]]].
      * rewrite !orb_false_iff in Eesc. destruct Eesc as [[-> _] _]. unfold parse_plain. by rewrite (proj2 (Z.ltb_lt _ _)) by lia.
Qed.

Lemma dump_char_start escape e c next : delimits escape e → wchar c → ∃ b p, dump_char escape c next = b :: p ∧ b ≠ 0 ∧ b ≠ e.
Proof.
  intros Hd Hc. unfold dump_char. destruct (127 <? c); [|destruct (Z.ltb_spec c 32)].
  3: destruct (_ || _) eqn:E.
  1: case_match. 3: cbv zeta; repeat case_match. all: eexists _, _; split; [reflexivity|].
  all: try (split; [done|]; by destruct Hd as [[_ ->]|[_ ->]]).
  rewrite !orb_false_iff, !Z.eqb_neq in E. split; [lia|]. destruct Hd as [[-> ->]|[-> ->]]; simpl in E; lia.
Qed.

Lemma parse_loop_text escape e rest str : ∀ fuel dest room,
  delimits escape e → Forall wchar str → Z.of_nat (length str) < room → (length (dump_text escape str) ≤ fuel)%nat →
  parse_loop fuel dest room (dump_text escape str ++ e :: rest) e =
    Some (dest ++ str, room - Z.of_nat (length str), e :: rest).
Proof.
  induction str as [|c next IH]; intros fuel dest room Hd Hs Hroom Hfuel.
  - destruct fuel; simpl; rewrite Z.eqb_refl, orb_true_r; simpl; rewrite app_nil_r, Z.sub_0_r; done.
  - apply list.Forall_cons in Hs as [Hc Hs]. simpl in Hroom, Hfuel. rewrite length_app in Hfuel.
    destruct (dump_char_start escape e c next Hd Hc) as (b & p & Hb & Hb0 & Hbe).
    destruct fuel as [|fuel]; [rewrite Hb in Hfuel; simpl in Hfuel; lia|]. cbn [dump_text parse_loop]. rewrite <- app_assoc.
    rewrite dump_char_parse by done.
    assert ((char_at (dump_char escape c next ++ dump_text escape next ++ e :: rest) =? 0) ||
      (char_at (dump_char escape c next ++ dump_text escape next ++ e :: rest) =? e) || (room <=? 0) = false) as ->.
    { rewrite Hb. simpl. rewrite !orb_false_iff, !Z.eqb_neq, Z.leb_gt. lia. }
    rewrite IH; [|done|done|simpl; lia|rewrite Hb in Hfuel; simpl in Hfuel; lia].
    rewrite <- app_assoc. do 2 f_equal. f_equal. simpl length. lia.
Qed.

(** ** Reading any text *)

Lemma utf8_tail_suffix n : ∀ res p, (utf8_tail n res p).2 `suffix_of` p.
Proof.
  induction n as [|n IH]; intros res p; simpl; [by exists []|]. destruct (0x40 <=? _); [by exists []|].
  etrans; [apply IH|]. destruct p as [|c p]; [by exists []|by exists [c]].
Qed.
Lemma more_digits_suffix base is_digit n : ∀ d p, (more_digits base is_digit n d p).2 `suffix_of` p.
Proof.
  induction n as [|n IH]; intros d [|c p]; try by exists []. unfold more_digits; fold more_digits. destruct (is_digit c); [|by exists []].
  etrans; [apply IH|by exists [c]].
Qed.
Lemma parse_plain_safe c p room : 0 < room →
  let r := parse_plain (c :: p) room in Z.of_nat (length r.1) ≤ room ∧ r.2 `suffix_of` p.
Proof.
  intros Hroom. simpl. destruct (c <? 128); [split; [simpl; lia|by exists []]|]. unfold parse_utf8.
  destruct (utf8_length c) as [|n]; [split; [simpl; lia|by exists []]|].
  pose proof (utf8_tail_suffix (S n) (Z.land c (utf8_mask (S n))) p) as Hs. destruct (utf8_tail _ _ _) as [[res|] q]; simpl in Hs.
  - destruct (_ || _); (split; [|exact Hs]); simpl; [lia|]. unfold code_units. destruct (res <=? _); simpl; [lia|].
    destruct (Z.ltb_spec 1 room); simpl; lia.
  - split; [simpl; lia|exact Hs].
Qed.
Lemma parse_step_safe c p room units q : 0 < room →
  parse_step (c :: p) room = Some (units, q) → Z.of_nat (length units) ≤ room ∧ q `suffix_of` p.
Proof.
  intros Hroom. cbn [parse_step]. destruct (c =? 92).
  2:{ pose proof (parse_plain_safe c p room Hroom) as Hp. intros Hq.
    assert (parse_plain (c :: p) room = (units, q)) as E by congruence. by rewrite E in Hp. }
  destruct p as [|d p]; [done|].
  assert (∀ x, Some ([x], p) = Some (units, q) → Z.of_nat (length units) ≤ room ∧ q `suffix_of` d :: p) as Hone.
  { intros x [= <- <-]. split; [simpl; lia|by exists [d]]. }
  unfold parse_escape.
  do 8 (destruct (d =? _); [apply Hone|]). destruct (d =? _).
  { destruct p as [|x p]; [intros [= <- <-]; split; [simpl; lia|by exists [d]]|]. destruct (isxdigit x).
    - pose proof (more_digits_suffix 16 isxdigit 3 (to_hex x) p) as Hs. destruct (more_digits _ _ _ _ _) as [v r]. intros [= <- <-].
      split; [simpl; lia|]. etrans; [exact Hs|by exists [d; x]].
    - intros [= <- <-]. split; [simpl; lia|by exists [d]]. }
  destruct (isoctal d).
  { pose proof (more_digits_suffix 8 isoctal 2 (d - 48) p) as Hs. destruct (more_digits _ _ _ _ _) as [v r]. intros [= <- <-].
    split; [simpl; lia|]. etrans; [exact Hs|by exists [d]]. }
  pose proof (parse_plain_safe d p room Hroom) as [H1 H2]. intros Hq.
  assert (parse_plain (d :: p) room = (units, q)) as E by congruence. rewrite E in H1, H2. split; [exact H1|].
  etrans; [exact H2|by exists [d]].
Qed.

Lemma parse_loop_safe e fuel : ∀ dest room p, (length p ≤ fuel)%nat → 0 ≤ room →
  ∃ units room' q, parse_loop fuel dest room p e = Some (dest ++ units, room', q) ∧
    Z.of_nat (length units) + room' = room ∧ 0 ≤ room' ∧ q `suffix_of` p ∧ (char_at q = 0 ∨ char_at q = e ∨ room' = 0).
Proof.
  induction fuel as [|fuel IH]; intros dest room p Hlen Hroom.
  - destruct p; [|simpl in Hlen; lia]. exists [], room, []. rewrite app_nil_r. split_and!; [done|simpl; lia|done|by exists []|by left].
  - cbn [parse_loop]. destruct (_ || _) eqn:Estop.
    { exists [], room, p. rewrite app_nil_r. split_and!; [done|simpl; lia|done|by exists []|].
      rewrite !orb_true_iff, !Z.eqb_eq, Z.leb_le in Estop. destruct Estop as [[?|?]|?]; [by left|right; by left|right; right; lia]. }
    rewrite !orb_false_iff, !Z.eqb_neq, Z.leb_gt in Estop. destruct Estop as [[H0 He] Hpos].
    destruct p as [|c p]; [done|]. destruct (parse_step (c :: p) room) as [[units q]|] eqn:Estep.
    2:{ exists [], room, []. rewrite app_nil_r. split_and!; [done|simpl; lia|done|by exists (c :: p); rewrite app_nil_r|by left]. }
    destruct (parse_step_safe c p room units q Hpos Estep) as [Hu Hq].
    destruct (IH (dest ++ units) (room - Z.of_nat (length units)) q) as (u & r & q' & -> & Hr & Hr0 & Hs & Hend).
    { apply suffix_length in Hq. simpl in Hlen. lia. }
    { lia. }
    exists (units ++ u), r, q'. rewrite app_assoc, length_app. split_and!; [done|lia|done| |done].
    etrans; [exact Hs|]. etrans; [exact Hq|by exists [c]].
Qed.

(** Whatever the text, [parse_strW] ends and stores no more than fits, zero included; the
    bytes that it counts are the text up to and including the delimiter. *)
Lemma parse_strW_safe len src e dest n :
  0 ≤ len → parse_strW len src e = Some (dest, n) →
  2 * Z.of_nat (length dest) ≤ len ∧ 1 ≤ n ≤ Z.of_nat (length src) ∧ char_at (drop (Z.to_nat (n - 1)) src) = e.
Proof.
  intros Hlen. unfold parse_strW. assert (0 ≤ len / 2) as Hroom by (apply Z.div_pos; lia).
  destruct (parse_loop_safe e (length src) [] (len / 2) src (le_n _) Hroom) as (u & r & q & -> & Hr & Hr0 & [k Hk] & Hend).
  destruct (_ || _) eqn:E; [done|]. rewrite orb_false_iff, Z.leb_gt, Z.eqb_neq in E. destruct E as [Hpos H0]. simpl. intros [= <- <-].
  destruct q as [|c q]; [done|]. rewrite Hk, !length_app. simpl length. split_and!; [Z.to_euclidean_division_equations; lia|lia|lia|].
  rewrite drop_app_ge, (proj2 (Nat.sub_0_le _ _)) by lia. destruct Hend as [?|[?|?]]; [done|done|lia].
Qed.

Lemma parse_dump_text escape e str rest len :
  Forall wchar str → delimits escape e → 2 * (Z.of_nat (length str) + 1) ≤ len →
  parse_strW len (dump_text escape str ++ e :: rest) e = Some (str ++ [0], Z.of_nat (length (dump_text escape str)) + 1).
Proof.
  intros Hs Hd Hlen. unfold parse_strW.
  rewrite (parse_loop_text escape) by (done || (rewrite ?length_app; Z.to_euclidean_division_equations; lia)).
  assert (e ≠ 0) as He by (by destruct Hd as [[_ ->]|[_ ->]]). simpl char_at.
  rewrite (proj2 (Z.leb_gt _ _)), (proj2 (Z.eqb_neq _ _)) by (done || (Z.to_euclidean_division_equations; lia)).
  simpl. do 2 f_equal. rewrite length_app. simpl length. lia.
Qed.
Lemma dump_text_length escape e str : Forall wchar str → delimits escape e → (length str ≤ length (dump_text escape str))%nat.
Proof.
  intros Hs Hd. induction Hs as [|c next Hc _ IH]; [done|]. simpl. rewrite length_app.
  destruct (dump_char_start escape e c next Hd Hc) as (b & p & -> & _). simpl. lia.
Qed.

(** C30: A string of 16-bit characters is read back as it was written, in the quotes of
    names and data and in the brackets of key paths, whatever follows: the buffer of
    [dump_strW] does not overflow, it yields the number of bytes in the file, and
    [parse_strW], given room for the string and its zero, reads exactly these bytes and
    the delimiter. *)
Theorem dump_parse_roundtrip escape e str rest len file :
  Forall wchar str → delimits escape e → 2 * (Z.of_nat (length str) + 1) ≤ len →
  wp (dump_strW str escape 0) (λ n s', ∃ text, ds_file s' = file ++ text ∧ n = Z.of_nat (length text) ∧
    parse_strW len (text ++ e :: rest) e = Some (str ++ [0], n + 1)) (DumpState file []).
Proof.
  intros Hs Hd Hlen. eapply wp_mono; [apply dump_strW_ok; [done|simpl; lia]|]. intros n s' [-> ->].
  exists (dump_text escape str). split; [done|]. split; [done|]. by apply parse_dump_text.
Qed.

(** Every kind of escape: "a\b", a quote, a bell, a zero before a digit, U+0141 before a
    digit and at the end. *)
Definition demo_string : list Z := [97; 92; 98; 34; 7; 0; 55; 1; 56; 0x141; 65; 0x141].
Example demo_text : dump_text (34, 34) demo_string =
  [97; 92; 92; 98; 92; 34; 92; 97; 92; 48; 48; 48; 55; 92; 49; 56; 92; 120; 48; 49; 52; 49; 65; 92; 120; 49; 52; 49].
Proof. reflexivity. Qed.
Lemma dump_parse_roundtrip_witness :
  wp (dump_strW demo_string (34, 34) 0) (λ n s', ∃ text, ds_file s' = [64] ++ text ∧ n = Z.of_nat (length text) ∧
    parse_strW 26 (text ++ 34 :: [61]) 34 = Some (demo_string ++ [0], n + 1)) (DumpState [64] []).
Proof.
  apply (dump_parse_roundtrip (34, 34) 34 demo_string [61] 26 [64]); [repeat constructor; lia|by left|done].
Defined.
