(* ===== verification/RegKeys.v ===== *)
(** * Registry keys and their values

    src/server/registry.c: keys on a heap, each with an array of values and one of subkeys,
    both sorted by name; the marks that decide what is saved; notifications. *)

From S2P Require Import Prelude.
From S2P Require Import Atoms.

Definition KEY_VOLATILE : Z := 0x0001.
Definition KEY_DELETED : Z := 0x0002.
Definition KEY_DIRTY : Z := 0x0004.
Definition KEY_SYMLINK : Z := 0x0008.
Definition KEY_WOWSHARE : Z := 0x0010.
Definition KEY_PREDEF : Z := 0x0020.

Definition MIN_SUBKEYS : Z := 8.
Definition MIN_VALUES : Z := 8.
Definition MAX_NAME_LEN : Z := 256.
Definition MAX_VALUE_LEN : Z := 16383.

Definition REG_SZ : Z := 1.
Definition REG_EXPAND_SZ : Z := 2.
Definition REG_BINARY : Z := 3.
Definition REG_DWORD : Z := 4.
Definition REG_LINK : Z := 6.
Definition REG_MULTI_SZ : Z := 7.
Definition REG_NOTIFY_CHANGE_NAME : Z := 1.
Definition REG_NOTIFY_CHANGE_LAST_SET : Z := 4.

Definition STATUS_NO_MORE_ENTRIES : Z := 0x8000001a.
Definition STATUS_ACCESS_DENIED : Z := 0xc0000022.
Definition STATUS_NAME_TOO_LONG : Z := 0xc0000106.
Definition STATUS_CANNOT_DELETE : Z := 0xc0000121.
Definition STATUS_KEY_DELETED : Z := 0xc000017c.
Definition STATUS_CHILD_MUST_BE_VOLATILE : Z := 0xc0000181.

(** Names are lists of 16-bit characters; lengths in bytes are twice as much. [kv_data] is
    None for NULL. *)
Record key_value := KeyValue { kv_name : list Z; kv_type : Z; kv_len : Z; kv_data : option (list Z) }.
Record notify := Notify { n_events : list Z; n_subtree : bool; n_filter : Z; n_hkey : Z; n_process : Z }.

(** The arrays have [nb] elements, of which those up to [last] are in use. *)
Record key := Key {
  k_refcount : Z;
  k_name : option (list Z);            (* obj.name; None once unlinked *)
  k_parent : option Z;                 (* the parent of the name, if it is a key *)
  k_class : list Z;
  k_last_subkey : Z; k_nb_subkeys : Z; k_subkeys : list Z;
  k_wow6432node : option Z;
  k_last_value : Z; k_nb_values : Z; k_values : list key_value;
  k_flags : Z;
  k_modif : Z;
  k_notify_list : list notify }.

Definition with_values (last nb : Z) (vs : list key_value) (k : key) : key :=
  Key (k_refcount k) (k_name k) (k_parent k) (k_class k) (k_last_subkey k) (k_nb_subkeys k) (k_subkeys k)
    (k_wow6432node k) last nb vs (k_flags k) (k_modif k) (k_notify_list k).
Definition with_subkeys (last nb : Z) (ps : list Z) (k : key) : key :=
  Key (k_refcount k) (k_name k) (k_parent k) (k_class k) last nb ps
    (k_wow6432node k) (k_last_value k) (k_nb_values k) (k_values k) (k_flags k) (k_modif k) (k_notify_list k).
Definition with_flags (fl : Z) (k : key) : key :=
  Key (k_refcount k) (k_name k) (k_parent k) (k_class k) (k_last_subkey k) (k_nb_subkeys k) (k_subkeys k)
    (k_wow6432node k) (k_last_value k) (k_nb_values k) (k_values k) fl (k_modif k) (k_notify_list k).
Definition with_modif (t : Z) (k : key) : key :=
  Key (k_refcount k) (k_name k) (k_parent k) (k_class k) (k_last_subkey k) (k_nb_subkeys k) (k_subkeys k)
    (k_wow6432node k) (k_last_value k) (k_nb_values k) (k_values k) (k_flags k) t (k_notify_list k).
Definition with_notify (l : list notify) (k : key) : key :=
  Key (k_refcount k) (k_name k) (k_parent k) (k_class k) (k_last_subkey k) (k_nb_subkeys k) (k_subkeys k)
    (k_wow6432node k) (k_last_value k) (k_nb_values k) (k_values k) (k_flags k) (k_modif k) l.
Definition with_name (name : option (list Z)) (parent : option Z) (k : key) : key :=
  Key (k_refcount k) name parent (k_class k) (k_last_subkey k) (k_nb_subkeys k) (k_subkeys k)
    (k_wow6432node k) (k_last_value k) (k_nb_values k) (k_values k) (k_flags k) (k_modif k) (k_notify_list k).
Definition with_refcount (n : Z) (k : key) : key :=
  Key n (k_name k) (k_parent k) (k_class k) (k_last_subkey k) (k_nb_subkeys k) (k_subkeys k)
    (k_wow6432node k) (k_last_value k) (k_nb_values k) (k_values k) (k_flags k) (k_modif k) (k_notify_list k).
Definition with_wow6432node (w : option Z) (k : key) : key :=
  Key (k_refcount k) (k_name k) (k_parent k) (k_class k) (k_last_subkey k) (k_nb_subkeys k) (k_subkeys k)
    w (k_last_value k) (k_nb_values k) (k_values k) (k_flags k) (k_modif k) (k_notify_list k).
Definition with_class (c : list Z) (k : key) : key :=
  Key (k_refcount k) (k_name k) (k_parent k) c (k_last_subkey k) (k_nb_subkeys k) (k_subkeys k)
    (k_wow6432node k) (k_last_value k) (k_nb_values k) (k_values k) (k_flags k) (k_modif k) (k_notify_list k).

(** The 16-bit characters of data, low byte first. *)
Fixpoint wchars (data : list Z) : list Z :=
  match data with lo :: hi :: data => (lo + 256 * hi) :: wchars data | _ => [] end.

(** The heap of keys, the answers of the allocator (none left means success), the clock,
    the error of the running request and the events that notifications have set. *)
Record registry := Registry {
  r_keys : gmap Z key; r_next : Z; r_allocs : list bool; r_now : Z; r_error : Z; r_events : list Z }.
Definition R := M registry.

Definition set_keys (m : gmap Z key) (r : registry) : registry :=
  Registry m (r_next r) (r_allocs r) (r_now r) (r_error r) (r_events r).
Definition set_error (e : Z) : R unit :=
  modify (λ r, Registry (r_keys r) (r_next r) (r_allocs r) (r_now r) e (r_events r)).
Definition key_of (p : Z) : R key := λ r,
  match r_keys r !! p with Some k => Done k r | None => AssertFailed end.
Definition update_key (p : Z) (f : key → key) : R unit :=
  k ← key_of p; modify (λ r, set_keys (<[p := f k]> (r_keys r)) r).
(** An access out of the bounds of an array is a failure. *)
Definition access {A} (x : option A) : R A := λ r, match x with Some a => Done a r | None => AssertFailed end.

(** malloc or realloc; [mem_alloc] and [memdup] also set the error. *)
Definition malloc_ok : R bool := λ r,
  Done (match r_allocs r with a :: _ => a | [] => true end)
    (Registry (r_keys r) (r_next r) (tail (r_allocs r)) (r_now r) (r_error r) (r_events r)).
Definition mem_alloc_ok : R bool :=
  ok ← malloc_ok; _ ← when (negb ok) (set_error STATUS_NO_MEMORY); mret ok.

(** What the reply holds of [data] (request.h). *)
Definition set_reply_data (data : list Z) : R (list Z) :=
  ok ← (if truth (Z.of_nat (length data)) then mem_alloc_ok else mret true);
  mret (if negb ok then [] else data).

(** ** Arrays *)

Definition array_get {A} (l : list A) (i : Z) : option A := if 0 <=? i then l !! Z.to_nat i else None.
Definition array_set {A} (l : list A) (i : Z) (x : A) : option (list A) :=
  if (0 <=? i) && (i <? Z.of_nat (length l)) then Some (<[Z.to_nat i := x]> l) else None.
(** [for (; n; i--) l[i] = l[i - 1]] and [for (; n; i++) l[i] = l[i + 1]]. *)
Fixpoint shift_up {A} (n : nat) (i : Z) (l : list A) : option (list A) :=
  match n with
  | O => Some l
  | S n => x ← array_get l (i - 1); l ← array_set l i x; shift_up n (i - 1) l
  end.
Fixpoint shift_down {A} (n : nat) (i : Z) (l : list A) : option (list A) :=
  match n with
  | O => Some l
  | S n => x ← array_get l (i + 1); l ← array_set l i x; shift_down n (i + 1) l
  end.
(** The elements that realloc adds are not initialised. *)
Definition resize {A} (x : A) (n : Z) (l : list A) : list A :=
  take (Z.to_nat n) l ++ replicate (Z.to_nat n - length l) x.

(** The binary search; [fuel] bounds the length of the interval. *)
Fixpoint search (fuel : nat) (cmp : Z → option Z) (min max : Z) : option (bool * Z) :=
  if min <=? max then
    match fuel with
    | O => None
    | S fuel =>
        let i := (min + max) ÷ 2 in
        res ← cmp i;
        if negb (truth res) then Some (true, i)
        else if 0 <? res then search fuel cmp min (i - 1) else search fuel cmp (i + 1) max
    end
  else Some (false, min).

Section keys.
Context `{CaseMap}.

(** By lower case characters, then by length. *)
Definition compare_names (name1 name2 : list Z) : Z :=
  let res := memicmp_strW name1 name2 (Nat.min (length name1) (length name2)) in
  if negb (truth res) then s32 (u32 (2 * Z.of_nat (length name1) - 2 * Z.of_nat (length name2))) else res.

Definition find_value (k : key) (name : list Z) : option (bool * Z) :=
  search (Z.to_nat (k_last_value k + 1))
    (λ i, v ← array_get (k_values k) i; Some (compare_names (kv_name v) name)) 0 (k_last_value k).

Definition undefined_value : key_value := KeyValue [] 0 0 None.
Definition grow_values (p : Z) : R bool :=
  k ← key_of p;
  if truth (k_nb_values k) then
    let nb_values := k_nb_values k + k_nb_values k ÷ 2 in
    ok ← malloc_ok;
    if negb ok then _ ← set_error STATUS_NO_MEMORY; mret false
    else _ ← update_key p (λ k, with_values (k_last_value k) nb_values (resize undefined_value nb_values (k_values k)) k); mret true
  else
    let nb_values := MIN_VALUES in
    ok ← mem_alloc_ok;
    if negb ok then mret false
    else _ ← update_key p (λ k, with_values (k_last_value k) nb_values (resize undefined_value nb_values []) k); mret true.

(** Yields whether there is a new value, at [index]. Its type stays undefined. *)
Definition insert_value (p : Z) (name : list Z) (index : Z) : R bool :=
  if MAX_VALUE_LEN * 2 <? 2 * Z.of_nat (length name) then _ ← set_error STATUS_NAME_TOO_LONG; mret false else
  k ← key_of p;
  ok ← (if k_last_value k + 1 =? k_nb_values k then grow_values p else mret true);
  if negb ok then mret false else
  ok ← (if truth (2 * Z.of_nat (length name)) then mem_alloc_ok else mret true);
  if negb ok then mret false else
  k ← key_of p;
  let last := k_last_value k + 1 in
  values ← access (shift_up (Z.to_nat (last - index)) last (k_values k));
  old ← access (array_get values index);
  values ← access (array_set values index (KeyValue name (kv_type old) 0 None));
  _ ← update_key p (with_values last (k_nb_values k) values);
  mret true.

(** ** Dirty keys and notifications *)

Definition get_parent (k : key) : R (option Z) := access (_ ← k_name k; Some (k_parent k)).
Definition has_flag (k : key) (flag : Z) : bool := truth (Z.land (k_flags k) flag).

(** [fuel] bounds the depth of the key. *)
Fixpoint make_dirty (fuel : nat) (p : option Z) : R unit :=
  match p with
  | None => mret tt
  | Some p =>
      match fuel with
      | O => no_fuel
      | S fuel =>
          k ← key_of p;
          if has_flag k (Z.lor KEY_DIRTY KEY_VOLATILE) then mret tt else
          _ ← update_key p (λ k, with_flags (Z.lor (k_flags k) KEY_DIRTY) k);
          k ← key_of p;
          parent ← get_parent k;
          make_dirty fuel parent
      end
  end.

(** Sets the events of a notification and forgets them. *)
Definition do_notification_events (n : notify) : R notify :=
  _ ← modify (λ r, Registry (r_keys r) (r_next r) (r_allocs r) (r_now r) (r_error r) (r_events r ++ n_events n));
  mret (Notify [] (n_subtree n) (n_filter n) (n_hkey n) (n_process n)).
Fixpoint check_notifications (change : Z) (not_subtree : bool) (l : list notify) : R (list notify) :=
  match l with
  | [] => mret []
  | n :: l =>
      n ← (if (not_subtree || n_subtree n) && truth (Z.land change (n_filter n)) then do_notification_events n else mret n);
      l ← check_notifications change not_subtree l;
      mret (n :: l)
  end.
Definition check_notify (p : Z) (change : Z) (not_subtree : bool) : R unit :=
  k ← key_of p;
  l ← check_notifications change not_subtree (k_notify_list k);
  update_key p (with_notify l).
Fixpoint notify_parents (fuel : nat) (p : option Z) (change : Z) : R unit :=
  match p with
  | None => mret tt
  | Some p =>
      match fuel with
      | O => no_fuel
      | S fuel => _ ← check_notify p change false; k ← key_of p; parent ← get_parent k; notify_parents fuel parent change
      end
  end.
Definition touch_key (p : Z) (change : Z) : R unit :=
  r ← gets id;
  let fuel := size (r_keys r) in
  _ ← update_key p (with_modif (r_now r));
  _ ← make_dirty fuel (Some p);
  _ ← check_notify p change true;
  k ← key_of p;
  parent ← get_parent k;
  notify_parents fuel parent change.

(** ** Values *)

Definition symlink_value : list Z := [83; 121; 109; 98; 111; 108; 105; 99; 76; 105; 110; 107; 86; 97; 108; 117; 101].

Definition set_value (p : Z) (name : list Z) (type : Z) (data : list Z) : R unit :=
  k ← key_of p;
  if has_flag k KEY_PREDEF then set_error STATUS_INVALID_HANDLE else
  let len := Z.of_nat (length data) in
  f ← access (find_value k name);
  let '(found, index) := f in
  value ← (if found : bool then access (Some <$> array_get (k_values k) index) else mret None : R (option key_value));
  let identical := match value with
    | Some v => (kv_type v =? type) && (kv_len v =? len) &&
                match kv_data v with Some d => bool_decide (d = data) | None => false end
    | None => false
    end in
  if identical then mret tt else
  if has_flag k KEY_SYMLINK &&
     (negb (type =? REG_LINK) || negb (Z.of_nat (length name) =? Z.of_nat (length symlink_value)) ||
      truth (memicmp_strW name symlink_value (length name)))
  then set_error STATUS_ACCESS_DENIED else
  ok ← (if truth len then mem_alloc_ok else mret true);
  if negb ok then mret tt else
  ok ← (if found : bool then mret true else insert_value p name index);
  if negb ok then mret tt else
  k ← key_of p;
  v ← access (array_get (k_values k) index);
  values ← access (array_set (k_values k) index (KeyValue (kv_name v) type len (if truth len then Some data else None)));
  _ ← update_key p (λ k, with_values (k_last_value k) (k_nb_values k) values k);
  touch_key p REG_NOTIFY_CHANGE_LAST_SET.

(** Yields the type, the length and as much of the data as there is room for; the caller
    has set the length to 0. *)
Definition get_value (p : Z) (name : list Z) (reply_max_size : Z) : R (option Z * Z * list Z) :=
  k ← key_of p;
  if has_flag k KEY_PREDEF then _ ← set_error STATUS_INVALID_HANDLE; mret (None, 0, []) else
  f ← access (find_value k name);
  let '(found, index) := f in
  if found : bool then
    v ← access (array_get (k_values k) index);
    data ← (match kv_data v with
             | Some d => set_reply_data (take (Z.to_nat (Z.min (kv_len v) reply_max_size)) d)
             | None => mret [] end);
    mret (Some (kv_type v), kv_len v, data)
  else _ ← set_error STATUS_OBJECT_NAME_NOT_FOUND; mret (Some (-1), 0, []).

Definition delete_value (p : Z) (name : list Z) : R unit :=
  k ← key_of p;
  if has_flag k KEY_PREDEF then set_error STATUS_INVALID_HANDLE else
  f ← access (find_value k name);
  let '(found, index) := f in
  if negb found then set_error STATUS_OBJECT_NAME_NOT_FOUND else
  values ← access (shift_down (Z.to_nat (k_last_value k - index)) index (k_values k));
  _ ← update_key p (λ k, with_values (k_last_value k - 1) (k_nb_values k) values k);
  _ ← touch_key p REG_NOTIFY_CHANGE_LAST_SET;
  k ← key_of p;
  let nb_values := k_nb_values k in
  if (MIN_VALUES <? nb_values) && (k_last_value k <? nb_values ÷ 2) then
    let nb_values := nb_values - nb_values ÷ 3 in
    let nb_values := if nb_values <? MIN_VALUES then MIN_VALUES else nb_values in
    ok ← malloc_ok;
    if negb ok then mret tt
    else update_key p (λ k, with_values (k_last_value k) nb_values (resize undefined_value nb_values (k_values k)) k)
  else mret tt.

(** The fields of the reply and its data. *)
Inductive value_info := KeyValueBasicInformation | KeyValueFullInformation | KeyValuePartialInformation | OtherValueInformation.
#[export] Instance value_info_eq_dec : EqDecision value_info.
Proof. solve_decision. Defined.
Record enum_value_reply := EnumValueReply { ev_type : Z; ev_total : Z; ev_namelen : Z; ev_data : list Z }.
(** The bytes of a name, low byte first. *)
Definition name_bytes (name : list Z) : list Z := flat_map (λ c, [Z.land c 0xff; Z.shiftr c 8]) name.
(** The end of [enum_value]: as much of name and data as there is room for. *)
Definition fill_value_reply (v : key_value) (total namelen reply_max_size : Z) : R enum_value_reply :=
  let maxlen := Z.min total reply_max_size in
  let data := default [] (kv_data v) in
  ok ← (if truth maxlen then mem_alloc_ok else mret false);
  mret (if negb ok then EnumValueReply (kv_type v) total 0 []
        else if namelen <? maxlen
        then EnumValueReply (kv_type v) total namelen
               (take (Z.to_nat namelen) (name_bytes (kv_name v)) ++ take (Z.to_nat (maxlen - namelen)) data)
        else EnumValueReply (kv_type v) total maxlen (take (Z.to_nat maxlen) (name_bytes (kv_name v)))).
Definition enum_value (p i : Z) (info_class : value_info) (reply_max_size : Z) : R enum_value_reply :=
  k ← key_of p;
  if has_flag k KEY_PREDEF then _ ← set_error STATUS_INVALID_HANDLE; mret (EnumValueReply 0 0 0 []) else
  if (i <? 0) || (k_last_value k <? i) then _ ← set_error STATUS_NO_MORE_ENTRIES; mret (EnumValueReply 0 0 0 []) else
  v ← access (array_get (k_values k) i);
  let namelen := 2 * Z.of_nat (length (kv_name v)) in
  match info_class with
  | KeyValueBasicInformation => fill_value_reply v namelen namelen reply_max_size
  | KeyValueFullInformation => fill_value_reply v (namelen + kv_len v) namelen reply_max_size
  | KeyValuePartialInformation => fill_value_reply v (kv_len v) 0 reply_max_size
  | OtherValueInformation => _ ← set_error STATUS_INVALID_PARAMETER; mret (EnumValueReply (kv_type v) 0 0 [])
  end.
End keys.
