(* ===== verification/RegArrays.v ===== *)
(** * Sorted arrays: the order of names, binary search, insertion and removal *)

From stdpp Require Import sorting.
From S2P Require Import Prelude.
From S2P Require Import Atoms.
From S2P Require Import AtomsInv.
From S2P Require Import RegKeys.

(** ** The lexicographic order *)

Fixpoint lex (a b : list Z) : Prop :=
  match a, b with
  | _, [] => False
  | [], _ :: _ => True
  | x :: a, y :: b => x < y ∨ x = y ∧ lex a b
  end.
Lemma lex_irrefl a : ¬ lex a a.
Proof. induction a as [|x a IH]; simpl; [by intros []|]. intros [?|[_ ?]]; [lia|by apply IH]. Qed.
Lemma lex_trans a b c : lex a b → lex b c → lex a c.
Proof.
  revert b c. induction a as [|x a IH]; intros [|y b] [|z c]; simpl; try done.
  intros [?|[-> ?]] [?|[-> ?]]; [left; lia|by left|by left|right; eauto].
Qed.
Lemma lex_total a b : lex a b ∨ a = b ∨ lex b a.
Proof.
  revert b. induction a as [|x a IH]; intros [|y b]; simpl; [by right; left|by left|by right; right|].
  destruct (Z.lt_trichotomy x y) as [?|[->|?]]; [by left; left| |by right; right; left].
  destruct (IH b) as [?|[->|?]]; [by left; right|by right; left|by right; right; right].
Qed.
#[export] Instance lex_dec a b : Decision (lex a b).
Proof. revert b. induction a as [|x a IH]; intros [|y b]; simpl; apply _. Defined.

Lemma s32_u32 x : - 2 ^ 31 ≤ x < 2 ^ 31 → s32 (u32 x) = x.
Proof. intros Hx. unfold s32, u32. Z.to_euclidean_division_equations. lia. Qed.

Section order.
Context `{CaseMap}.

(** [compare_names] compares the lower case of names. *)
Lemma compare_names_spec a b :
  Z.of_nat (length a) < 2 ^ 29 → Z.of_nat (length b) < 2 ^ 29 →
  (compare_names a b < 0 ↔ lex (fold_name a) (fold_name b)) ∧
  (compare_names a b = 0 ↔ fold_name a = fold_name b).
Proof.
  intros Ha Hb. unfold compare_names.
  rewrite s32_u32 by lia. set (d := 2 * Z.of_nat (length a) - 2 * Z.of_nat (length b)).
  assert (∀ d', (d < 0 ↔ d' < 0) → (d = 0 ↔ d' = 0) →
    ((if negb (truth (memicmp_strW a b (Nat.min (length a) (length b)))) then d' else memicmp_strW a b (Nat.min (length a) (length b))) < 0 ↔
      lex (fold_name a) (fold_name b)) ∧
    ((if negb (truth (memicmp_strW a b (Nat.min (length a) (length b)))) then d' else memicmp_strW a b (Nat.min (length a) (length b))) = 0 ↔
      fold_name a = fold_name b)) as Hgen; [|by apply Hgen].
  unfold d. clear d Ha Hb. revert b. induction a as [|x a IH]; intros [|y b] d' Hlt Heq; simpl in *.
  - split; [lia|]. split; [done|]. intros _. apply Heq. lia.
  - split; [split; [done|]; intros _; apply Hlt; lia|]. split; [|done]. intros. lia.
  - split; [|split; [|done]; intros; lia]. split; [|done]. intros. lia.
  - destruct (truth (to_lower x - to_lower y)) eqn:E; unfold truth in E; [apply negb_true_iff, Z.eqb_neq in E|apply negb_false_iff, Z.eqb_eq in E].
    + assert (truth (to_lower x - to_lower y) = true) as -> by by apply negb_true_iff, Z.eqb_neq. simpl. split.
      * split; [intros; left; lia|]. intros [?|[? _]]; lia.
      * split; [lia|]. intros [= ? ?]. lia.
    + destruct (IH b d') as [I1 I2]; [lia|lia|]. rewrite I1, I2. assert (to_lower x = to_lower y) as Exy by lia. split.
      * split; [by right|]. intros [?|[_ ?]]; [lia|done].
      * rewrite Exy. split; [by intros ->|congruence].
Qed.
End order.

(** ** The binary search *)

(** In an array on which [c] rises from negative to positive, with at most one zero, the
    search ends and yields the zero or the place between. *)
Lemma search_spec (c : Z → Z) (cmp : Z → option Z) fuel : ∀ min max,
  (∀ i, min ≤ i ≤ max → cmp i = Some (c i)) →
  (∀ i j, min ≤ i → i < j → j ≤ max → c j ≤ 0 → c i < 0) → (∀ i j, min ≤ i → i < j → j ≤ max → 0 ≤ c i → 0 < c j) →
  0 ≤ min → max - min < Z.of_nat fuel →
  ∃ b i, search fuel cmp min max = Some (b, i) ∧
    if b : bool then min ≤ i ≤ max ∧ c i = 0
    else min ≤ i ∧ (min ≤ max + 1 → i ≤ max + 1) ∧ (∀ j, min ≤ j < i → j ≤ max → c j < 0) ∧ (∀ j, i ≤ j ≤ max → 0 < c j).
Proof.
  induction fuel as [|fuel IH]; intros min max Hcmp Hneg Hpos Hmin Hfuel; cbn [search].
  - destruct (Z.leb_spec min max); [lia|]. exists false, min. split; [done|]. split_and!; intros; lia.
  - destruct (Z.leb_spec min max) as [Hle|Hgt]; [|exists false, min; split; [done|]; split_and!; intros; lia].
    assert (min ≤ (min + max) ÷ 2 ≤ max) as Hi by (rewrite Z.quot_div_nonneg by lia; Z.to_euclidean_division_equations; lia).
    set (i := (min + max) ÷ 2) in *. rewrite Hcmp by done. simpl. unfold truth.
    destruct (Z.eqb_spec (c i) 0) as [E|E]; simpl; [by exists true, i|].
    destruct (Z.ltb_spec 0 (c i)) as [Hup|Hdown].
    + destruct (IH min (i - 1)) as (b & j & -> & Hr); [intros; apply Hcmp; lia|intros; eapply Hneg; [..|done]; lia|intros; eapply Hpos; [..|done]; lia|lia|lia|].
      exists b, j. split; [done|]. destruct b; [split; [lia|apply Hr]|]. destruct Hr as (R1 & R2 & R3 & R4). split_and!; [lia|lia| |].
      * intros k Hk _. apply R3; lia.
      * intros k Hk. destruct (Z.lt_trichotomy k i) as [?|[->|?]]; [apply R4; lia|done|]. apply (Hpos i k); lia.
    + destruct (IH (i + 1) max) as (b & j & -> & Hr); [intros; apply Hcmp; lia|intros; eapply Hneg; [..|done]; lia|intros; eapply Hpos; [..|done]; lia|lia|lia|].
      exists b, j. split; [done|]. destruct b; [split; [lia|apply Hr]|]. destruct Hr as (R1 & R2 & R3 & R4). split_and!; [lia|lia| |].
      * intros k Hk Hkm. destruct (Z.lt_trichotomy k i) as [?|[->|?]]; [apply (Hneg k i); lia|lia|apply R3; lia].
      * intros k Hk. apply R4. lia.
Qed.

(** ** Insertion and removal *)

Lemma array_get_app {A} (l1 l2 : list A) x : array_get (l1 ++ x :: l2) (Z.of_nat (length l1)) = Some x.
Proof. unfold array_get. rewrite (proj2 (Z.leb_le _ _)), Nat2Z.id by lia. by apply list_lookup_middle. Qed.
Lemma array_set_app {A} (l1 l2 : list A) x y : array_set (l1 ++ x :: l2) (Z.of_nat (length l1)) y = Some (l1 ++ y :: l2).
Proof.
  unfold array_set. rewrite (proj2 (Z.leb_le _ _)), (proj2 (Z.ltb_lt _ _)) by (rewrite ?length_app; simpl; lia).
  simpl. rewrite Nat2Z.id, <- (Nat.add_0_r (length l1)). by rewrite insert_app_r.
Qed.
Lemma array_get_lookup {A} (l : list A) i : 0 ≤ i → array_get l i = l !! Z.to_nat i.
Proof. intros. unfold array_get. by rewrite (proj2 (Z.leb_le _ _)). Qed.

(** Shifting [b] up by one leaves a hole of some old element. *)
Lemma shift_up_spec {A} (b : list A) : ∀ a y c,
  ∃ z, shift_up (length b) (Z.of_nat (length (a ++ b))) (a ++ b ++ y :: c) = Some (a ++ z :: b ++ c).
Proof.
  induction b as [|x b IH] using rev_ind; intros a y c; [by exists y; rewrite app_nil_r|].
  rewrite length_app, Nat.add_1_r. cbn [shift_up]. rewrite <- app_assoc. cbn [app].
  replace (Z.of_nat (length (a ++ b ++ [x])) - 1) with (Z.of_nat (length (a ++ b))) by (rewrite !length_app; simpl; lia).
  rewrite (app_assoc a b), array_get_app. simpl. rewrite <- (app_assoc a b).
  replace (Z.of_nat (length (a ++ b ++ [x]))) with (Z.of_nat (length (a ++ b ++ [x]))) by done.
  pose proof (array_set_app (a ++ b ++ [x]) c y x) as Hs. rewrite <- !app_assoc in Hs. cbn [app] in Hs. rewrite Hs. simpl.
  destruct (IH a x (x :: c)) as [z Hz]. rewrite Hz. exists z. by rewrite <- app_assoc.
Qed.
Lemma shift_down_spec {A} (b : list A) : ∀ a y c,
  ∃ z, shift_down (length b) (Z.of_nat (length a)) (a ++ y :: b ++ c) = Some (a ++ b ++ z :: c).
Proof.
  induction b as [|x b IH]; intros a y c; [by exists y|]. cbn [length shift_down app].
  pose proof (array_get_app (a ++ [y]) (b ++ c) x) as Hg. rewrite <- app_assoc in Hg. cbn [app] in Hg.
  rewrite length_app in Hg. simpl in Hg. replace (Z.of_nat (length a) + 1) with (Z.of_nat (length a + 1)) by lia. rewrite Hg. simpl.
  rewrite array_set_app. simpl. destruct (IH (a ++ [x]) x c) as [z Hz]. rewrite length_app, <- !app_assoc in Hz. simpl in Hz.
  rewrite Hz. by exists z.
Qed.

(** ** Sorted lists of names *)

Section names.
Context `{CaseMap}.

Definition before (a b : list Z) : Prop := lex (fold_name a) (fold_name b).
Definition short (name : list Z) : Prop := Z.of_nat (length name) < 2 ^ 29.

Lemma compare_before a b : short a → short b →
  (compare_names a b < 0 ↔ before a b) ∧ (compare_names a b = 0 ↔ fold_name a = fold_name b) ∧ (0 < compare_names a b ↔ before b a).
Proof.
  intros Ha Hb. destruct (compare_names_spec a b Ha Hb) as [H1 H2]. split_and!; [done|done|]. unfold before. split.
  - intros Hpos. destruct (lex_total (fold_name a) (fold_name b)) as [Hl|[He|Hl]]; [|apply H2 in He; lia|done]. apply H1 in Hl. lia.
  - intros Hl. destruct (Z.lt_trichotomy (compare_names a b) 0) as [Hn|[H0|]]; [| |done].
    + apply H1 in Hn. destruct (lex_irrefl (fold_name a)). by eapply lex_trans.
    + apply H2 in H0. rewrite H0 in Hl. by destruct (lex_irrefl (fold_name b)).
Qed.

Lemma sorted_middle (ns1 ns2 : list (list Z)) n :
  StronglySorted before (ns1 ++ n :: ns2) →
  Forall (λ m, before m n) ns1 ∧ Forall (before n) ns2 ∧ StronglySorted before (ns1 ++ ns2).
Proof.
  induction ns1 as [|m ns1 IH]; simpl; intros Hs; apply StronglySorted_inv in Hs as [Hs Hm].
  - split_and!; [constructor|done|done].
  - destruct (IH Hs) as (I1 & I2 & I3). rewrite list.Forall_app, list.Forall_cons in Hm. destruct Hm as (Hm1 & Hm2 & Hm3).
    split_and!; [by constructor|done|]. constructor; [done|]. by apply list.Forall_app.
Qed.
Lemma sorted_insert (ns1 ns2 : list (list Z)) n :
  StronglySorted before (ns1 ++ ns2) → Forall (λ m, before m n) ns1 → Forall (before n) ns2 →
  StronglySorted before (ns1 ++ n :: ns2).
Proof.
  induction ns1 as [|m ns1 IH]; simpl; intros Hs H1 H2; [by constructor|].
  apply StronglySorted_inv in Hs as [Hs Hm]. apply list.Forall_cons in H1 as [Hmn H1]. constructor; [by apply IH|].
  rewrite list.Forall_app in *. rewrite list.Forall_cons. naive_solver.
Qed.
Lemma sorted_replace (ns1 ns2 : list (list Z)) n n' :
  fold_name n = fold_name n' → StronglySorted before (ns1 ++ n :: ns2) → StronglySorted before (ns1 ++ n' :: ns2).
Proof.
  intros E Hs. destruct (sorted_middle _ _ _ Hs) as (H1 & H2 & H3). apply sorted_insert; [done|..]; unfold before in *; by rewrite <- E.
Qed.

(** The search for a name: where it is, or where it belongs. *)
Definition located (ns : list (list Z)) (name : list Z) (b : bool) (i : Z) : Prop :=
  if b then ∃ ns1 n ns2, ns = ns1 ++ n :: ns2 ∧ i = Z.of_nat (length ns1) ∧ fold_name n = fold_name name
  else ∃ ns1 ns2, ns = ns1 ++ ns2 ∧ i = Z.of_nat (length ns1) ∧ Forall (λ m, before m name) ns1 ∧ Forall (before name) ns2.

Lemma search_names ns name cmp :
  StronglySorted before ns → Forall short ns → short name →
  (∀ i n, ns !! i = Some n → cmp (Z.of_nat i) = Some (compare_names n name)) →
  ∃ b i, search (length ns) cmp 0 (Z.of_nat (length ns) - 1) = Some (b, i) ∧ located ns name b i.
Proof.
  intros Hs Hshort Hname Hcmp.
  assert (∀ i n, ns !! i = Some n → short n) as Hsh by (intros i n Hi; by eapply list.Forall_lookup_1 in Hshort).
  assert (∀ i j n m, ns !! i = Some n → ns !! j = Some m → (i < j)%nat → before n m) as Hord.
  { clear -Hs. induction Hs as [|x l Hl IH Hx]; intros i j n m Hi Hj Hij; [done|]. destruct j as [|j]; [lia|]. simpl in Hj.
    destruct i as [|i]; simpl in Hi; [|apply (IH i j); [done|done|lia]]. injection Hi as <-. by eapply list.Forall_lookup_1 in Hx. }
  set (c := λ i : Z, compare_names (default [] (ns !! Z.to_nat i)) name).
  assert (∀ i, 0 ≤ i ≤ Z.of_nat (length ns) - 1 → ∃ n, ns !! Z.to_nat i = Some n ∧ c i = compare_names n name) as Hc.
  { intros i Hi. destruct (lookup_lt_is_Some_2 ns (Z.to_nat i)) as [n Hn]; [lia|]. exists n. split; [done|]. unfold c. by rewrite Hn. }
  destruct (search_spec c cmp (length ns) 0 (Z.of_nat (length ns) - 1)) as (b & i & Hr & Hspec).
  - intros i Hi. destruct (Hc i Hi) as (n & Hn & ->). rewrite <- (Z2Nat.id i) by lia. by apply Hcmp.
  - intros i j Hi Hij Hj Hle. destruct (Hc i) as (n & Hn & ->); [lia|]. destruct (Hc j) as (m & Hm & Ecj); [lia|]. rewrite Ecj in Hle.
    pose proof (Hord _ _ _ _ Hn Hm ltac:(lia)) as Hnm.
    destruct (compare_before n name) as (C1 & C2 & C3); [by eapply Hsh|done|].
    destruct (compare_before m name) as (D1 & D2 & D3); [by eapply Hsh|done|].
    apply C1. destruct (Z.eq_dec (compare_names m name) 0) as [E|E].
    + apply D2 in E. unfold before in *. by rewrite <- E.
    + unfold before in *. eapply lex_trans; [done|]. apply D1. lia.
  - intros i j Hi Hij Hj Hle. destruct (Hc i) as (n & Hn & Eci); [lia|]. destruct (Hc j) as (m & Hm & ->); [lia|]. rewrite Eci in Hle.
    pose proof (Hord _ _ _ _ Hn Hm ltac:(lia)) as Hnm.
    destruct (compare_before n name) as (C1 & C2 & C3); [by eapply Hsh|done|].
    destruct (compare_before m name) as (D1 & D2 & D3); [by eapply Hsh|done|].
    apply D3. destruct (Z.eq_dec (compare_names n name) 0) as [E|E].
    + apply C2 in E. unfold before in *. by rewrite <- E.
    + unfold before in *. eapply lex_trans; [|done]. apply C3. lia.
  - lia.
  - lia.
  - exists b, i. split; [done|]. destruct b; simpl.
    + destruct Hspec as [Hi H0]. destruct (Hc i Hi) as (n & Hn & Eci). rewrite Eci in H0.
      exists (take (Z.to_nat i) ns), n, (drop (S (Z.to_nat i)) ns). split_and!; [by rewrite take_drop_middle| |].
      * rewrite length_take. lia.
      * by apply (compare_before n name); [eapply Hsh| |].
    + destruct Hspec as (Hi0 & Hi1 & Hlow & Hhigh). exists (take (Z.to_nat i) ns), (drop (Z.to_nat i) ns). split_and!; [by rewrite take_drop| | |].
      * rewrite length_take. lia.
      * apply list.Forall_lookup_2. intros j m Hj. apply lookup_take_Some in Hj as [Hj Hlt].
        pose proof (lookup_lt_Some _ _ _ Hj). assert (c (Z.of_nat j) < 0) as Hcj by (apply Hlow; lia). unfold c in Hcj. rewrite Nat2Z.id, Hj in Hcj. simpl in Hcj.
        apply (compare_before m name); [by eapply Hsh|done|done].
      * apply list.Forall_lookup_2. intros j m Hj. rewrite lookup_drop in Hj.
        pose proof (lookup_lt_Some _ _ _ Hj). assert (0 < c (i + Z.of_nat j)) as Hcj by (apply Hhigh; lia).
        unfold c in Hcj. replace (Z.to_nat (i + Z.of_nat j)) with (Z.to_nat i + j)%nat in Hcj by lia. rewrite Hj in Hcj. simpl in Hcj.
        apply (compare_before m name); [by eapply Hsh|done|done].
Qed.
End names.

(** * The values of a key as a finite map

    A key maps names, up to case, to types and data; the operations on values of
    src/server/registry.c are those on the map. *)

Section values.
Context `{CaseMap}.
Implicit Types (k : key) (v : key_value) (r : registry).

(** The values in use. *)
Definition used k : list key_value := take (Z.to_nat (k_last_value k + 1)) (k_values k).
Definition value_names (l : list key_value) : list (list Z) := kv_name <$> l.
Definition value_ok v : Prop :=
  Z.of_nat (length (kv_name v)) ≤ MAX_VALUE_LEN ∧
  (kv_data v = None ↔ kv_len v = 0) ∧ kv_len v = Z.of_nat (length (default [] (kv_data v))).
Record values_ok k : Prop := {
  vo_last : -1 ≤ k_last_value k;
  vo_room : k_last_value k + 1 ≤ k_nb_values k;
  vo_length : k_nb_values k = Z.of_nat (length (k_values k));
  vo_min : k_nb_values k = 0 ∨ MIN_VALUES ≤ k_nb_values k;
  vo_sorted : StronglySorted before (value_names (used k));
  vo_values : Forall value_ok (used k) }.

(** What a list of values maps a name to: the spelling, the type and the data. *)
Definition entry v : list Z * Z * list Z := (kv_name v, kv_type v, default [] (kv_data v)).
Definition map_of (l : list key_value) : gmap (list Z) (list Z * Z * list Z) :=
  foldr (λ v m, <[fold_name (kv_name v) := entry v]> m) ∅ l.
Definition value_map k := map_of (used k).

Lemma used_length k : values_ok k → length (used k) = Z.to_nat (k_last_value k + 1).
Proof. intros [? ? ? ? _ _]. unfold used. rewrite length_take. lia. Qed.
Lemma used_split k : values_ok k → ∃ rest, k_values k = used k ++ rest.
Proof. intros Hok. exists (drop (Z.to_nat (k_last_value k + 1)) (k_values k)). symmetry. apply take_drop. Qed.
Lemma used_get k i v : values_ok k → used k !! i = Some v → array_get (k_values k) (Z.of_nat i) = Some v.
Proof.
  intros Hok Hi. destruct (used_split k Hok) as [rest ->]. rewrite array_get_lookup, Nat2Z.id by lia. by apply lookup_app_l_Some.
Qed.

Lemma find_value_spec k name : values_ok k → short name →
  ∃ b i, find_value k name = Some (b, i) ∧ located (value_names (used k)) name b i.
Proof.
  intros Hok Hname. pose proof (used_length k Hok) as Hlen. pose proof (vo_last _ Hok).
  unfold find_value. replace (Z.to_nat (k_last_value k + 1)) with (length (value_names (used k))) by (unfold value_names; rewrite length_fmap; lia).
  replace (k_last_value k) with (Z.of_nat (length (value_names (used k))) - 1) by (unfold value_names; rewrite length_fmap; lia).
  apply search_names; [apply Hok| |done|].
  - unfold value_names. apply list.Forall_fmap. eapply list.Forall_impl; [apply (vo_values _ Hok)|]. intros v (Hn & _). unfold short, compose, MAX_VALUE_LEN in *. lia.
  - intros i n Hi. unfold value_names in Hi. rewrite list_lookup_fmap in Hi. apply fmap_Some in Hi as (v & Hv & ->). by rewrite (used_get _ _ _ Hok Hv).
Qed.

(** ** Sorted lists of values as maps *)

Definition other_name (name : list Z) v : Prop := fold_name (kv_name v) ≠ fold_name name.
Lemma map_of_other l name : Forall (other_name name) l → map_of l !! fold_name name = None.
Proof. induction 1 as [|w l Hw _ IH]; simpl; [apply lookup_empty|]. by rewrite lookup_insert_ne. Qed.
Lemma map_of_middle l1 l2 v : Forall (other_name (kv_name v)) l1 →
  map_of (l1 ++ v :: l2) = <[fold_name (kv_name v) := entry v]> (map_of (l1 ++ l2)).
Proof. induction 1 as [|w l1 Hw _ IH]; simpl; [done|]. rewrite IH. by apply insert_insert_ne. Qed.

Lemma before_other l name : Forall (λ m, before m name) (value_names l) → Forall (other_name name) l.
Proof.
  unfold value_names. rewrite list.Forall_fmap. intros Hl. eapply list.Forall_impl; [exact Hl|]. intros w Hw E.
  unfold compose, before in Hw. rewrite E in Hw. by apply lex_irrefl in Hw.
Qed.
Lemma after_other l name : Forall (before name) (value_names l) → Forall (other_name name) l.
Proof.
  unfold value_names. rewrite list.Forall_fmap. intros Hl. eapply list.Forall_impl; [exact Hl|]. intros w Hw E.
  unfold compose, before in Hw. rewrite E in Hw. by apply lex_irrefl in Hw.
Qed.
Lemma sorted_values_middle l1 l2 v : StronglySorted before (value_names (l1 ++ v :: l2)) →
  Forall (other_name (kv_name v)) l1 ∧ Forall (other_name (kv_name v)) l2 ∧ StronglySorted before (value_names (l1 ++ l2)).
Proof.
  unfold value_names. rewrite !fmap_app. intros (H1 & H2 & H3)%sorted_middle. split_and!; [by apply before_other|by apply after_other|done].
Qed.

(** The map with a value in the middle, without it, and with another value in its place. *)
Lemma map_of_lookup l1 l2 v name : StronglySorted before (value_names (l1 ++ v :: l2)) → fold_name (kv_name v) = fold_name name →
  map_of (l1 ++ v :: l2) !! fold_name name = Some (entry v).
Proof. intros (H1 & _ & _)%sorted_values_middle <-. rewrite map_of_middle by done. apply lookup_insert_eq. Qed.
Lemma map_of_delete l1 l2 v name : StronglySorted before (value_names (l1 ++ v :: l2)) → fold_name (kv_name v) = fold_name name →
  map_of (l1 ++ l2) = delete (fold_name name) (map_of (l1 ++ v :: l2)).
Proof.
  intros (H1 & H2 & _)%sorted_values_middle <-. rewrite map_of_middle by done. rewrite delete_insert_id; [done|].
  apply map_of_other. by apply list.Forall_app.
Qed.
Lemma map_of_replace l1 l2 v v' : StronglySorted before (value_names (l1 ++ v :: l2)) → kv_name v' = kv_name v →
  map_of (l1 ++ v' :: l2) = <[fold_name (kv_name v) := entry v']> (map_of (l1 ++ v :: l2)).
Proof.
  intros (H1 & _ & _)%sorted_values_middle E. rewrite !map_of_middle by (done || by rewrite E). rewrite E. by rewrite insert_insert_eq.
Qed.
Lemma map_of_located l name i : located (value_names l) name false i →
  map_of l !! fold_name name = None ∧ ∃ l1 l2, l = l1 ++ l2 ∧ i = Z.of_nat (length l1) ∧
    Forall (λ m, before m name) (value_names l1) ∧ Forall (before name) (value_names l2).
Proof.
  intros (ns1 & ns2 & E & Hi & H1 & H2). unfold value_names in E. apply fmap_app_inv in E as (l1 & l2 & -> & -> & ->).
  split; [|exists l1, l2; by rewrite length_fmap in Hi]. apply map_of_other, list.Forall_app. split; [by apply before_other|by apply after_other].
Qed.
Lemma map_of_found l name i : located (value_names l) name true i →
  ∃ l1 v l2, l = l1 ++ v :: l2 ∧ i = Z.of_nat (length l1) ∧ fold_name (kv_name v) = fold_name name.
Proof.
  intros (ns1 & n & ns2 & E & Hi & Hn). unfold value_names in E. apply fmap_app_inv in E as (l1 & l2' & -> & E & ->).
  symmetry in E. apply fmap_cons_inv in E as (v & l2 & -> & -> & ->). exists l1, v, l2. by rewrite length_fmap in Hi.
Qed.
End values.
