(* ===== verification/RegTouch.v ===== *)
(** * What [touch_key] changes, and that it ends

    Modification times, dirty marks and notifications; values, subkeys, names and the
    other flags stay. Its loops climb to the root. *)

From stdpp Require Import sorting.
From S2P Require Import Prelude.
From S2P Require Import Atoms.
From S2P Require Import AtomsInv.
From S2P Require Import RegKeys.
From S2P Require Import RegArrays.

(** ** What changes *)

Definition key_touched (k k' : key) : Prop := ∃ f m n,
  k' = with_notify n (with_modif m (with_flags f k)) ∧ (f = k_flags k ∨ f = Z.lor (k_flags k) KEY_DIRTY).
#[export] Instance key_touched_preorder : PreOrder key_touched.
Proof.
  split.
  - intros k. exists (k_flags k), (k_modif k), (k_notify_list k). split; [by destruct k|by left].
  - intros k1 k2 k3 (f & m & n & -> & Hf) (f' & m' & n' & -> & Hf'). exists f', m', n'. split; [done|].
    simpl in Hf'. destruct Hf as [->| ->], Hf' as [->| ->]; auto. right. by rewrite <- Z.lor_assoc, Z.lor_diag.
Qed.
Definition touched (r r' : registry) : Prop :=
  (∀ p, option_Forall2 key_touched (r_keys r !! p) (r_keys r' !! p)) ∧
  r_error r' = r_error r ∧ r_allocs r' = r_allocs r ∧ r_next r' = r_next r ∧ r_now r' = r_now r.
#[export] Instance touched_preorder : PreOrder touched.
Proof.
  split.
  - intros r. split; [|done]. intros p. destruct (r_keys r !! p); constructor. reflexivity.
  - intros r1 r2 r3 (H1 & E1 & E2 & E3 & E4) (H2 & ? & ? & ? & ?). split; [|split_and!; congruence]. intros p.
    specialize (H1 p). specialize (H2 p). destruct H1 as [k1 k2 H1|]; inversion H2; subst; constructor. by etrans.
Qed.

Lemma key_of_spec p r k : r_keys r !! p = Some k → ∀ Q, wp (key_of p) Q r ↔ Q k r.
Proof. intros Hk Q. unfold wp, key_of. by rewrite Hk. Qed.
Lemma update_key_spec p f r k : r_keys r !! p = Some k → ∀ Q, wp (update_key p f) Q r ↔ Q tt (set_keys (<[p := f k]> (r_keys r)) r).
Proof. intros Hk Q. unfold update_key. rewrite wp_bind, (key_of_spec p r k) by done. by rewrite wp_modify. Qed.
Lemma keeps_key_of (P : registry → registry → Prop) `{!PreOrder P} p : keeps P (key_of p).
Proof. intros r k r'. unfold key_of. destruct (r_keys r !! p); [|done]. intros [= _ <-]. reflexivity. Qed.
Lemma get_parent_spec k r : is_Some (k_name k) → ∀ Q, wp (get_parent k) Q r ↔ Q (k_parent k) r.
Proof. intros [n Hn] Q. unfold wp, get_parent. by rewrite Hn. Qed.
Lemma keeps_get_parent (P : registry → registry → Prop) `{!PreOrder P} k : keeps P (get_parent k).
Proof. intros r a r'. unfold get_parent. destruct (k_name k); [|done]. intros [= _ <-]. reflexivity. Qed.
Lemma keeps_touch_update p f : (∀ k, key_touched k (f k)) → keeps touched (update_key p f).
Proof.
  intros Hf r [] r'. unfold update_key, mbind, M_bind, key_of. destruct (r_keys r !! p) as [k|] eqn:Hk; [|done]. intros [= <-].
  split; [|done]. intros q. simpl. destruct (decide (p = q)) as [<-|Hne].
  - rewrite Hk, lookup_insert_eq. constructor. apply Hf.
  - rewrite lookup_insert_ne by done. destruct (r_keys r !! q); constructor. reflexivity.
Qed.

Lemma touched_flags k : key_touched k (with_flags (Z.lor (k_flags k) KEY_DIRTY) k).
Proof. exists (Z.lor (k_flags k) KEY_DIRTY), (k_modif k), (k_notify_list k). split; [by destruct k|by right]. Qed.
Lemma touched_modif m k : key_touched k (with_modif m k).
Proof. exists (k_flags k), m, (k_notify_list k). split; [by destruct k|by left]. Qed.
Lemma touched_notify n k : key_touched k (with_notify n k).
Proof. exists (k_flags k), (k_modif k), n. split; [by destruct k|by left]. Qed.

Lemma keeps_make_dirty fuel : ∀ p, keeps touched (make_dirty fuel p).
Proof.
  induction fuel as [|fuel IH]; intros [p|]; simpl; keeps_tac ltac:(first
    [apply keeps_key_of; apply _ | apply keeps_get_parent; apply _ | apply keeps_touch_update, touched_flags | apply IH]).
Qed.
Lemma keeps_check_notifications change not_subtree l : keeps touched (check_notifications change not_subtree l).
Proof.
  induction l as [|n l IH]; simpl; keeps_tac ltac:(first [apply IH|progress unfold do_notification_events|apply keeps_modify]).
  intros r. split; [|done]. intros p. simpl. destruct (r_keys r !! p); constructor. reflexivity.
Qed.
Lemma keeps_check_notify p change not_subtree : keeps touched (check_notify p change not_subtree).
Proof.
  unfold check_notify. keeps_tac ltac:(first [apply keeps_key_of; apply _ | apply keeps_check_notifications | apply keeps_touch_update, touched_notify]).
Qed.
Lemma keeps_notify_parents fuel change : ∀ p, keeps touched (notify_parents fuel p change).
Proof.
  induction fuel as [|fuel IH]; intros [p|]; simpl; keeps_tac ltac:(first
    [apply keeps_key_of; apply _ | apply keeps_get_parent; apply _ | apply keeps_check_notify | apply IH]).
Qed.
Lemma keeps_touch_key p change : keeps touched (touch_key p change).
Proof.
  unfold touch_key. keeps_tac ltac:(first [apply keeps_key_of; apply _ | apply keeps_get_parent; apply _ | apply keeps_make_dirty | apply keeps_check_notify |
    apply keeps_notify_parents | apply keeps_touch_update, touched_modif]).
Qed.

Lemma touched_lookup r r' p k : touched r r' → r_keys r !! p = Some k → ∃ k', r_keys r' !! p = Some k' ∧ key_touched k k'.
Proof. intros [Ht _] Hk. specialize (Ht p). rewrite Hk in Ht. inversion Ht; subst. eauto. Qed.

(** ** Chains of parents *)

(** [l] are the keys from [p] up to the root. *)
Fixpoint chain (m : gmap Z key) (p : option Z) (l : list Z) : Prop :=
  match l with
  | [] => p = None
  | q :: l => p = Some q ∧ ∃ k, m !! q = Some k ∧ is_Some (k_name k) ∧ chain m (k_parent k) l
  end.
Definition rooted (r : registry) : Prop := ∀ p k, r_keys r !! p = Some k → is_Some (k_name k) → ∃ l, chain (r_keys r) (Some p) l.

Lemma chain_unique m p l1 l2 : chain m p l1 → chain m p l2 → l1 = l2.
Proof.
  revert p l2. induction l1 as [|q l1 IH]; intros p [|q2 l2]; simpl; [done|by intros -> [? _]|by intros [-> _]|].
  intros [-> (k & Hk & _ & H1)] [[= <-] (k2 & Hk2 & _ & H2)]. assert (k2 = k) as -> by congruence. f_equal. by eapply IH.
Qed.
Lemma chain_split m l1 : ∀ p q l2, chain m p (l1 ++ q :: l2) → chain m (Some q) (q :: l2).
Proof. induction l1 as [|x l1 IH]; intros p q l2; simpl; [by intros [-> ?]|]. intros [_ (k & _ & _ & Hc)]. by eapply IH. Qed.
Lemma chain_nodup m p l : chain m p l → NoDup l.
Proof.
  revert p. induction l as [|q l IH]; intros p Hc; [constructor|]. apply list.NoDup_cons. split.
  - intros (l1 & l2 & ->)%list_elem_of_split. pose proof Hc as Hc1. simpl in Hc. destruct Hc as [-> (k & Hk & _ & Hc)].
    pose proof (chain_split _ (q :: l1) _ _ _ Hc1) as Hc2. pose proof (chain_unique _ _ _ _ Hc1 Hc2) as E.
    apply (f_equal length) in E. simpl in E. rewrite length_app in E. simpl in E. lia.
  - simpl in Hc. destruct Hc as [_ (k & _ & _ & Hc)]. by eapply IH.
Qed.
Lemma chain_length m p l : chain m p l → (length l ≤ size m)%nat.
Proof.
  intros Hc. rewrite <- size_dom, <- (size_list_to_set (C := gset Z) l) by by eapply chain_nodup.
  apply subseteq_size. intros q [l1 [l2 ->]]%elem_of_list_to_set%list_elem_of_split.
  apply chain_split in Hc as [_ (k & Hk & _)]. apply elem_of_dom. eauto.
Qed.
Lemma chain_touched r r' p l : touched r r' → chain (r_keys r) p l → chain (r_keys r') p l.
Proof.
  intros Ht. revert p. induction l as [|q l IH]; intros p; simpl; [done|]. intros [-> (k & Hk & Hn & Hc)]. split; [done|].
  destruct (touched_lookup _ _ _ _ Ht Hk) as (k' & Hk' & f & m & n & -> & _). eexists. split; [done|]. split; [done|]. by apply IH.
Qed.
Lemma rooted_touched r r' : touched r r' → rooted r → rooted r'.
Proof.
  intros Ht Hr p k' Hk' Hn. destruct Ht as [Ht ?]. pose proof (Ht p) as Hp. rewrite Hk' in Hp. inversion Hp as [k ? (f & m & n & -> & _) E|]; subst.
  destruct (Hr p k) as [l Hl]; [done|done|]. exists l. eapply chain_touched; [|done]. by split.
Qed.

(** ** The loops end *)

Lemma wp_keeps_touched {A} (m : R A) r Q : wp m (λ _ _, True) r → keeps touched m → (∀ a r', touched r r' → Q a r') → wp m Q r.
Proof. intros Hm Hk HQ. eapply wp_mono; [by apply wp_keeps|]. intros a r' [_ Ht]. by apply HQ. Qed.

Lemma make_dirty_ends l : ∀ fuel p r, chain (r_keys r) p l → (length l ≤ fuel)%nat → wp (make_dirty fuel p) (λ _ _, True) r.
Proof.
  induction l as [|q l IH]; intros fuel p r Hc Hlen.
  - simpl in Hc. subst p. by destruct fuel.
  - pose proof Hc as [-> (k & Hk & Hn & Hc')]. destruct fuel as [|fuel]; [simpl in Hlen; lia|]. simpl.
    rewrite wp_bind, (key_of_spec q r k) by done. destruct (has_flag _ _); [done|].
    rewrite wp_bind, (update_key_spec q _ r k) by done. rewrite wp_bind.
    set (r1 := set_keys _ r). rewrite (key_of_spec q r1 (with_flags (Z.lor (k_flags k) KEY_DIRTY) k)) by (simpl; apply lookup_insert_eq).
    rewrite wp_bind, get_parent_spec by done. apply IH; [|simpl in Hlen; lia]. eapply chain_touched; [|done].
    apply (keeps_touch_update q (λ k, with_flags (Z.lor (k_flags k) KEY_DIRTY) k) touched_flags r tt r1).
    unfold update_key, mbind, M_bind, key_of. by rewrite Hk.
Qed.
Lemma check_notifications_ends change not_subtree l : ∀ r, wp (check_notifications change not_subtree l) (λ _ _, True) r.
Proof.
  induction l as [|n l IH]; intros r; simpl; [done|]. rewrite wp_bind.
  destruct (_ && _); [unfold do_notification_events; rewrite wp_bind, wp_modify, wp_ret|rewrite wp_ret]; rewrite wp_bind.
  all: eapply wp_mono; [apply IH|done].
Qed.
Lemma check_notify_ends p k change not_subtree r : r_keys r !! p = Some k → wp (check_notify p change not_subtree) (λ _ _, True) r.
Proof.
  intros Hk. unfold check_notify. rewrite wp_bind, (key_of_spec p r k) by done. rewrite wp_bind.
  apply wp_keeps_touched; [apply check_notifications_ends|apply keeps_check_notifications|]. intros l r' Ht.
  destruct (touched_lookup _ _ _ _ Ht Hk) as (k' & Hk' & _). by rewrite (update_key_spec p _ r' k').
Qed.
Lemma notify_parents_ends change l : ∀ fuel p r, chain (r_keys r) p l → (length l ≤ fuel)%nat →
  wp (notify_parents fuel p change) (λ _ _, True) r.
Proof.
  induction l as [|q l IH]; intros fuel p r Hc Hlen.
  - simpl in Hc. subst p. by destruct fuel.
  - pose proof Hc as [-> (k & Hk & Hn & Hc')]. destruct fuel as [|fuel]; [simpl in Hlen; lia|]. simpl. rewrite wp_bind.
    apply wp_keeps_touched; [by eapply check_notify_ends|apply keeps_check_notify|]. intros _ r' Ht.
    destruct (touched_lookup _ _ _ _ Ht Hk) as (k' & Hk' & f & m & n & -> & _). rewrite wp_bind, (key_of_spec q r' _ Hk'), wp_bind, get_parent_spec by done.
    apply IH; [|simpl in Hlen; lia]. by eapply chain_touched.
Qed.

(** Under a rooted key, [touch_key] ends and only touches. *)
Lemma touch_key_ok p k change r : rooted r → r_keys r !! p = Some k → is_Some (k_name k) → wp (touch_key p change) (λ _ r', touched r r') r.
Proof.
  intros Hr Hk Hn. destruct (Hr p k Hk Hn) as [l Hl]. pose proof (chain_length _ _ _ Hl) as Hlen. 
  apply wp_keeps_touched; [|apply keeps_touch_key|done]. unfold touch_key. rewrite wp_bind, wp_gets, wp_bind. unfold id.
  apply wp_keeps_touched; [by rewrite (update_key_spec p _ r k)|apply keeps_touch_update, touched_modif|]. intros _ r1 H1.
  rewrite wp_bind. apply wp_keeps_touched; [by apply (make_dirty_ends l); [by eapply chain_touched|]|apply keeps_make_dirty|]. intros _ r2 H2.
  assert (touched r r2) as H02 by by etrans. destruct (touched_lookup _ _ _ _ H02 Hk) as (k2 & Hk2 & _). rewrite wp_bind.
  apply wp_keeps_touched; [by eapply check_notify_ends|apply keeps_check_notify|]. intros _ r3 H3.
  assert (touched r r3) as H03 by by etrans. destruct (touched_lookup _ _ _ _ H03 Hk) as (k3 & Hk3 & Hkt). rewrite wp_bind, (key_of_spec p r3 k3) by done.
  apply (chain_touched r r3) in Hl; [|done]. destruct l as [|q l]; [done|]. simpl in Hl. destruct Hl as [[= <-] (k' & Hk' & Hn' & Hl)].
  assert (k' = k3) as -> by congruence. rewrite wp_bind, get_parent_spec by done. apply (notify_parents_ends change l); [done|simpl in Hlen; lia].
Qed.

(** * Operations on the values of a key *)

Notation vmap := (@gmap (list Z) (@list.list_eq_dec Z Z.eq_dec) (@countable.list_countable Z Z.eq_dec countable.Z_countable) (list Z * Z * list Z)).

Section value_ops.
Context `{CaseMap}.
Implicit Types (k : key) (v : key_value) (r : registry).

Definition registry_ok r : Prop := rooted r ∧ map_Forall (λ _ k, values_ok k) (r_keys r).
Definition contents r : gmap Z vmap := value_map <$> r_keys r.

(** Only the array of values differs. *)
Definition other_values k k' : Prop := ∃ last nb vs, k' = with_values last nb vs k.

(** ** Growing and inserting *)

Lemma resize_length {A} (x : A) n l : 0 ≤ n → length (resize x n l) = Z.to_nat n.
Proof. intros Hn. unfold resize. rewrite length_app, length_take, length_replicate. lia. Qed.
Lemma resize_take {A} (x : A) n l (m : nat) : (m ≤ length l)%nat → Z.of_nat m ≤ n → take m (resize x n l) = take m l.
Proof. intros Hm Hn. unfold resize. rewrite take_app_le by (rewrite length_take; lia). rewrite take_take. f_equal. lia. Qed.

Lemma grown_ok k n : values_ok k → k_nb_values k ≤ n → MIN_VALUES ≤ n →
  let k' := with_values (k_last_value k) n (resize undefined_value n (k_values k)) k in
  values_ok k' ∧ used k' = used k.
Proof.
  intros Hok Hn Hmin k'. pose proof (vo_last _ Hok). pose proof (vo_room _ Hok). pose proof (vo_length _ Hok).
  assert (used k' = used k) as E by (unfold used, k'; simpl; apply resize_take; lia).
  split; [|done]. destruct Hok. split; rewrite ?E; simpl; try done; [lia|rewrite resize_length; lia|by right].
Qed.

Lemma wp_malloc_ok Q r : wp malloc_ok Q r ↔
  Q (match r_allocs r with a :: _ => a | [] => true end)
    (Registry (r_keys r) (r_next r) (tail (r_allocs r)) (r_now r) (r_error r) (r_events r)).
Proof. done. Qed.
(** What failed allocations do to the rest of the state. *)
Definition memory_step r (b : bool) r' : Prop :=
  r_keys r' = r_keys r ∧ r_now r' = r_now r ∧ r_allocs r' `suffix_of` r_allocs r ∧
  (if b then r_error r' = r_error r else r_error r' = STATUS_NO_MEMORY ∧ false ∈ r_allocs r).
Lemma mem_alloc_ok_spec r : wp mem_alloc_ok (memory_step r) r.
Proof.
  unfold mem_alloc_ok. rewrite wp_bind, wp_malloc_ok, wp_bind, wp_when.
  unfold memory_step. destruct (r_allocs r) as [|[] l]; cbn [negb tail]; [..|unfold set_error; rewrite wp_modify]; rewrite wp_ret.
  - split_and!; [done|done|by exists []|done].
  - split_and!; [done|done|by exists [true]|done].
  - split_and!; [done|done|by exists [false]|done|by left].
Qed.

Lemma grow_values_spec p k r : r_keys r !! p = Some k → values_ok k → k_last_value k + 1 = k_nb_values k →
  wp (grow_values p) (λ b r', r_now r' = r_now r ∧ r_allocs r' `suffix_of` r_allocs r ∧
    if b : bool then r_error r' = r_error r ∧ ∃ k', r_keys r' = <[p := k']> (r_keys r) ∧ other_values k k' ∧ values_ok k' ∧
      used k' = used k ∧ k_last_value k' = k_last_value k ∧ k_last_value k' + 1 < k_nb_values k'
    else r_keys r' = r_keys r ∧ r_error r' = STATUS_NO_MEMORY ∧ false ∈ r_allocs r) r.
Proof.
  intros Hk Hok Hfull. pose proof (vo_last _ Hok). pose proof (vo_length _ Hok). pose proof (vo_min _ Hok). unfold MIN_VALUES in *.
  unfold grow_values. rewrite wp_bind, (key_of_spec p r k) by done. unfold truth.
  destruct (Z.eqb_spec (k_nb_values k) 0) as [E0|E0]; cbn [negb]; rewrite wp_bind.
  - eapply wp_mono; [apply mem_alloc_ok_spec|]. intros b r1 (K1 & N1 & S1 & R1). destruct b; cbn [negb]; [|by rewrite wp_ret].
    rewrite wp_bind, (update_key_spec p _ r1 k), wp_ret by (by rewrite K1). split; [done|]. split; [done|]. split; [done|].
    eexists. split; [simpl; by rewrite K1|]. split; [by eexists _, _, _|].
    destruct (grown_ok k MIN_VALUES Hok) as [G1 G2]; [unfold MIN_VALUES; lia..|].
    assert (k_values k = []) as Ev by (destruct (k_values k); [done|simpl in *; lia]). rewrite Ev in G1, G2.
    split_and!; [done|done|done|simpl; unfold MIN_VALUES; lia].
  - rewrite wp_malloc_ok. destruct (r_allocs r) as [|[] l] eqn:El; cbn [negb].
    3:{ unfold set_error. rewrite wp_bind, wp_modify, wp_ret. split_and!; try done; [by exists [false]|by left]. }
    all: set (r1 := Registry _ _ _ _ _ _); rewrite wp_bind, (update_key_spec p _ r1 k), wp_ret by done.
    all: split; [done|]; split; [first [by exists []|by exists [true]]|]; split; [done|]; eexists; split; [reflexivity|]; split; [by eexists _, _, _|].
    all: destruct (grown_ok k (k_nb_values k + k_nb_values k ÷ 2) Hok) as [G1 G2];
      [unfold MIN_VALUES; rewrite Z.quot_div_nonneg by lia; Z.to_euclidean_division_equations; lia..|].
    all: split_and!; [done|done|done|simpl; rewrite Z.quot_div_nonneg by lia; Z.to_euclidean_division_equations; lia].
Qed.

(** The key with a new value between [l1] and [l2]. *)
Lemma inserted_ok k l1 l2 name t : values_ok k → used k = l1 ++ l2 → k_last_value k + 1 < k_nb_values k →
  Z.of_nat (length name) ≤ MAX_VALUE_LEN →
  Forall (λ m, before m name) (value_names l1) → Forall (before name) (value_names l2) →
  ∃ rest old values, shift_up (Z.to_nat (k_last_value k + 1 - Z.of_nat (length l1))) (k_last_value k + 1) (k_values k) = Some values ∧
    array_get values (Z.of_nat (length l1)) = Some old ∧
    array_set values (Z.of_nat (length l1)) (KeyValue name t 0 None) = Some (l1 ++ KeyValue name t 0 None :: l2 ++ rest) ∧
    let k' := with_values (k_last_value k + 1) (k_nb_values k) (l1 ++ KeyValue name t 0 None :: l2 ++ rest) k in
    values_ok k' ∧ used k' = l1 ++ KeyValue name t 0 None :: l2.
Proof.
  intros Hok Hu Hroom Hlen H1 H2. pose proof (vo_last _ Hok). pose proof (vo_length _ Hok) as Hnb.
  destruct (used_split k Hok) as [rest Hrest]. pose proof (used_length k Hok) as Hul. rewrite Hu in Hrest, Hul. rewrite length_app in Hul.
  destruct rest as [|y rest]; [rewrite Hrest, app_nil_r, length_app in Hnb; lia|].
  destruct (shift_up_spec l2 l1 y rest) as [old Hs]. exists rest, old, (l1 ++ old :: l2 ++ rest).
  rewrite Hrest, <- app_assoc. split_and!.
  - rewrite length_app in Hs. replace (Z.to_nat (k_last_value k + 1 - Z.of_nat (length l1))) with (length l2) by lia.
    by replace (k_last_value k + 1) with (Z.of_nat (length l1 + length l2)) by lia.
  - apply array_get_app.
  - by rewrite array_set_app.
  - set (k' := with_values _ _ _ _).
    assert (used k' = l1 ++ KeyValue name t 0 None :: l2) as E.
    { unfold used, k'. simpl. rewrite app_comm_cons, app_assoc. apply take_app_length'. rewrite length_app. simpl. lia. }
    split; [|done]. destruct Hok as [? ? ? ? Hsort Hval]. rewrite Hu in Hsort, Hval. split; rewrite ?E; simpl; try done; try lia.
    + rewrite Hnb, Hrest, !length_app. simpl. rewrite length_app. lia.
    + unfold value_names in *. rewrite fmap_app in *. by apply sorted_insert.
    + rewrite list.Forall_app, list.Forall_cons in *. destruct Hval. split_and!; [done| |done]. by split_and!.
Qed.

(** The key [k] at [p] has become [k'], in a step that may have used up allocations. *)
Definition became r p k k' r' : Prop :=
  r_keys r' = <[p := k']> (r_keys r) ∧ other_values k k' ∧ values_ok k' ∧ r_now r' = r_now r ∧ r_allocs r' `suffix_of` r_allocs r.
Lemma became_refl r p k : r_keys r !! p = Some k → values_ok k → became r p k k r.
Proof.
  intros Hk Hok. split_and!; [by rewrite insert_id| |done|done|by exists []].
  exists (k_last_value k), (k_nb_values k), (k_values k). by destruct k.
Qed.
Lemma became_trans r p k k1 k2 r1 r2 : became r p k k1 r1 → became r1 p k1 k2 r2 → became r p k k2 r2.
Proof.
  intros (K1 & O1 & _ & N1 & S1) (K2 & O2 & V2 & N2 & S2). split_and!; [by rewrite K2, K1, insert_insert_eq| |done|congruence|by etrans].
  destruct O1 as (? & ? & ? & ->), O2 as (? & ? & ? & ->). by eexists _, _, _.
Qed.
Lemma became_memory r p k k' r1 b r2 : became r p k k' r1 → memory_step r1 b r2 → became r p k k' r2.
Proof. intros (K1 & O1 & V1 & N1 & S1) (K2 & N2 & S2 & _). split_and!; [congruence|done|done|congruence|by etrans]. Qed.
Lemma memory_failed r r1 r2 : r_allocs r1 `suffix_of` r_allocs r → memory_step r1 false r2 → r_error r2 = STATUS_NO_MEMORY ∧ false ∈ r_allocs r.
Proof. intros [l Hl] (_ & _ & _ & E & F). split; [done|]. rewrite Hl. apply elem_of_app. by right. Qed.

Lemma wp_access {A} (x : A) Q r : wp (access (Some x)) Q r ↔ Q x r.
Proof. done. Qed.
(** An allocation that is skipped when nothing is needed. *)
Lemma alloc_if_spec n r : wp (if truth n then mem_alloc_ok else mret true) (memory_step r) r.
Proof. destruct (truth n); [apply mem_alloc_ok_spec|]. rewrite wp_ret. split_and!; [done|done|by exists []|done]. Qed.

(** What [insert_value] makes of the key. *)
Definition inserted r p k l1 l2 name (b : bool) r' : Prop := ∃ k', became r p k k' r' ∧
  if b then r_error r' = r_error r ∧ Z.of_nat (length name) ≤ MAX_VALUE_LEN ∧
    ∃ t rest, k_values k' = l1 ++ KeyValue name t 0 None :: l2 ++ rest ∧ used k' = l1 ++ KeyValue name t 0 None :: l2
  else used k' = used k ∧ (r_error r' = STATUS_NAME_TOO_LONG ∧ MAX_VALUE_LEN < Z.of_nat (length name) ∨
    r_error r' = STATUS_NO_MEMORY ∧ false ∈ r_allocs r).

Lemma insert_with_room p k k1 l1 l2 name r r1 : r_keys r !! p = Some k → became r p k k1 r1 → r_error r1 = r_error r →
  used k = l1 ++ l2 → used k1 = used k → k_last_value k1 + 1 < k_nb_values k1 → Z.of_nat (length name) ≤ MAX_VALUE_LEN →
  Forall (λ m, before m name) (value_names l1) → Forall (before name) (value_names l2) →
  wp (ok ← (if truth (2 * Z.of_nat (length name)) then mem_alloc_ok else mret true);
      if negb ok then mret false else
      k ← key_of p;
      let last := k_last_value k + 1 in
      values ← access (shift_up (Z.to_nat (last - Z.of_nat (length l1))) last (k_values k));
      old ← access (array_get values (Z.of_nat (length l1)));
      values ← access (array_set values (Z.of_nat (length l1)) (KeyValue name (kv_type old) 0 None));
      _ ← update_key p (with_values last (k_nb_values k) values);
      mret true) (inserted r p k l1 l2 name) r1.
Proof.
  intros Hk Hb E1 Hu Hu1 Hroom Hlen H1 H2. assert (used k1 = l1 ++ l2) as Hul by congruence.
  pose proof Hb as (K1 & O1 & V1 & N1 & S1). rewrite wp_bind. eapply wp_mono; [apply alloc_if_spec|]. intros b r2 Hm.
  destruct b; cbn [negb].
  - pose proof (became_memory _ _ _ _ _ _ _ Hb Hm) as Hb2. pose proof Hm as (K2 & _ & _ & E2).
    assert (r_keys r2 !! p = Some k1) as Hk2 by (rewrite K2, K1; apply lookup_insert_eq).
    rewrite wp_bind, (key_of_spec p r2 k1) by done. cbv zeta.
    destruct (inserted_ok k1 l1 l2 name 0 V1 Hul Hroom Hlen H1 H2) as (_ & old & values & Hs & Hg & _).
    destruct (inserted_ok k1 l1 l2 name (kv_type old) V1 Hul Hroom Hlen H1 H2) as (rest & old' & values' & Hs' & Hg' & Hset & F1 & F2).
    rewrite Hs in Hs'. injection Hs' as <-. rewrite wp_bind, Hs, wp_access, wp_bind, Hg, wp_access, wp_bind, Hset, wp_access.
    rewrite wp_bind, (update_key_spec p _ r2 k1), wp_ret by done. eexists. split.
    + eapply became_trans; [exact Hb2|]. split_and!; [reflexivity|by eexists _, _, _|done|done|by exists []].
    + split; [simpl; congruence|]. split; [done|]. by eexists _, _.
  - rewrite wp_ret. exists k1. split; [by eapply became_memory|]. split; [done|]. right. by eapply memory_failed.
Qed.
Lemma insert_value_spec p k l1 l2 name r : r_keys r !! p = Some k → values_ok k → used k = l1 ++ l2 →
  Forall (λ m, before m name) (value_names l1) → Forall (before name) (value_names l2) →
  wp (insert_value p name (Z.of_nat (length l1))) (inserted r p k l1 l2 name) r.
Proof.
  intros Hk Hok Hu H1 H2. pose proof (became_refl r p k Hk Hok) as Hb. unfold insert_value.
  destruct (Z.ltb_spec (MAX_VALUE_LEN * 2) (2 * Z.of_nat (length name))) as [Hlong|Hshort].
  { unfold set_error. rewrite wp_bind, wp_modify, wp_ret. exists k. split; [exact Hb|]. split; [done|]. left. split; [done|lia]. }
  rewrite wp_bind, (key_of_spec p r k) by done. rewrite wp_bind.
  destruct (Z.eqb_spec (k_last_value k + 1) (k_nb_values k)) as [Hfull|Hfree].
  - eapply wp_mono; [by apply grow_values_spec|]. intros b r1 (N1 & S1 & R1). destruct b; cbn [negb].
    + destruct R1 as (E1 & k1 & K1 & O1 & Hok1 & Hu1 & Hl1 & Hr1). apply (insert_with_room p k k1); try done. lia.
    + destruct R1 as (K1 & E1 & F1). rewrite wp_ret. exists k. split; [|split; [done|by right]].
      destruct Hb as (_ & ? & ? & _). split_and!; [by rewrite K1, insert_id|done..].
  - rewrite wp_ret. apply (insert_with_room p k k); try done; [|lia]. pose proof (vo_room _ Hok). lia.
Qed.
End value_ops.
