(* ===== verification/RegValueSpec.v ===== *)
(** * The registry as a map from keys to maps of values *)

From stdpp Require Import sorting.
From S2P Require Import Prelude.
From S2P Require Import Atoms.
From S2P Require Import AtomsInv.
From S2P Require Import RegKeys.
From S2P Require Import RegArrays.
From S2P Require Import RegTouch.

Section value_spec.
Context `{CaseMap}.
Implicit Types (p : Z) (k : key) (v : key_value) (r : registry) (m : vmap).

(** ** Steps that keep the invariant *)

Lemma chain_same_parents (m m' : gmap Z key) (p : option Z) l : (∀ q k, m !! q = Some k → ∃ k', m' !! q = Some k' ∧ k_parent k' = k_parent k ∧ k_name k' = k_name k) →
  chain m p l → chain m' p l.
Proof.
  intros Hm. revert p. induction l as [|q l IH]; intros p; simpl; [done|]. intros [-> (k & Hk & Hn & Hc)]. split; [done|].
  destruct (Hm q k Hk) as (k' & Hk' & E & En). exists k'. split; [done|]. rewrite E, En. split; [done|]. by apply IH.
Qed.
Lemma became_ok r p k k' r' : r_keys r !! p = Some k → registry_ok r → became r p k k' r' →
  registry_ok r' ∧ r_keys r' !! p = Some k' ∧ contents r' = <[p := value_map k']> (contents r).
Proof.
  intros Hk [Hroot Hvals] (K & (last & nb & vs & E) & Hok & _ & _). split; [split|split].
  - intros q k1 Hq Hn. assert (∃ k2, r_keys r !! q = Some k2 ∧ k_name k2 = k_name k1) as (k0 & Hk0 & En).
    { rewrite K in Hq. apply lookup_insert_Some in Hq as [[<- <-]|[? Hq]]; [exists k; by rewrite E|by exists k1]. }
    destruct (Hroot q k0 Hk0) as [l Hl]; [by rewrite En|].
    exists l. rewrite K. eapply chain_same_parents; [|exact Hl]. intros q' k2 Hk2. rewrite lookup_insert. case_decide as D; [|eauto].
    subst q'. exists k'. split; [done|]. rewrite E. simpl. split; congruence.
  - rewrite K. by apply map_Forall_insert_2.
  - rewrite K. apply lookup_insert_eq.
  - unfold contents. by rewrite K, fmap_insert.
Qed.
Lemma touched_ok r r' : touched r r' → registry_ok r → registry_ok r' ∧ contents r' = contents r ∧ r_error r' = r_error r ∧ r_allocs r' = r_allocs r.
Proof.
  intros Ht [Hroot Hvals]. pose proof (rooted_touched _ _ Ht Hroot). destruct Ht as (Ht & He & Ha & _). split_and!; [split; [done|]| |done|done].
  - intros p k' Hk'. specialize (Ht p). rewrite Hk' in Ht. inversion Ht as [k ? (f & m & n & -> & _) E|]; subst.
    specialize (Hvals p k (eq_sym E)). by destruct Hvals.
  - apply map_eq. intros p. unfold contents. rewrite !lookup_fmap. specialize (Ht p).
    destruct Ht as [k k' (f & m & n & -> & _)|]; done.
Qed.
Lemma memory_ok r b r' : memory_step r b r' → registry_ok r → registry_ok r' ∧ contents r' = contents r.
Proof. intros (K & _) Hok. unfold registry_ok, rooted, contents in *. by rewrite K. Qed.
Lemma error_ok r e : registry_ok r → registry_ok (Registry (r_keys r) (r_next r) (r_allocs r) (r_now r) e (r_events r)).
Proof. done. Qed.

(** ** Setting *)

(** The flags that keep values from being changed: predefined keys and symbolic links. *)
Definition protection k : bool * bool := (has_flag k KEY_PREDEF, has_flag k KEY_SYMLINK).
Definition is_link (name : list Z) (type : Z) : bool := (type =? REG_LINK) && bool_decide (fold_name name = fold_name symlink_value).
Definition spelling m name : list Z := match m !! fold_name name with Some (s, _, _) => s | None => name end.
(** What [set_value] does to the values of a key with this protection, and the error. *)
Definition set_step (fails : Prop) (prot : bool * bool) m (name : list Z) (type : Z) (data : list Z) (old_error error : Z) m' : Prop :=
  if prot.1 then m' = m ∧ error = STATUS_INVALID_HANDLE
  else if prot.2 && negb (is_link name type) &&
          negb (bool_decide (m !! fold_name name = Some (spelling m name, type, data) ∧ data ≠ []))
  then m' = m ∧ error = STATUS_ACCESS_DENIED
  else m' = <[fold_name name := (spelling m name, type, data)]> m ∧ error = old_error ∧
         (m !! fold_name name = None → Z.of_nat (length name) ≤ MAX_VALUE_LEN) ∨
       m' = m ∧ (error = STATUS_NO_MEMORY ∧ fails ∨
                 error = STATUS_NAME_TOO_LONG ∧ m !! fold_name name = None ∧ MAX_VALUE_LEN < Z.of_nat (length name)).

Lemma is_link_spec name type : negb (is_link name type) =
  negb (type =? REG_LINK) || negb (Z.of_nat (length name) =? Z.of_nat (length symlink_value)) || truth (memicmp_strW name symlink_value (length name)).
Proof.
  unfold is_link. pose proof (same_name_iff name symlink_value) as Hs. rewrite negb_andb, <- orb_assoc. f_equal.
  apply eq_true_iff_eq. rewrite orb_true_iff, !negb_true_iff, bool_decide_eq_false. rewrite <- Hs, not_true_iff_false, andb_false_iff.
  destruct (Z.eqb_spec (Z.of_nat (length name)) (Z.of_nat (length symlink_value))) as [E|E]; [|naive_solver].
  apply Nat2Z.inj in E. rewrite E. unfold truth. destruct (_ =? 0); naive_solver.
Qed.

Definition data_of (data : list Z) : option (list Z) := if truth (Z.of_nat (length data)) then Some data else None.
Lemma data_of_ok v name type data : value_ok v → kv_name v = name → value_ok (KeyValue name type (Z.of_nat (length data)) (data_of data)).
Proof.
  intros (Hn & _) <-. unfold data_of, truth. split_and!; simpl; [done| |].
  - destruct (Z.eqb_spec (Z.of_nat (length data)) 0); simpl; split; congruence || done.
  - destruct (Z.eqb_spec (Z.of_nat (length data)) 0) as [E|E]; simpl; [|done]. by destruct data.
Qed.

(** The value at [v] gets its type and data. *)
Lemma replaced_ok k l1 v l2 rest type data : values_ok k → k_values k = l1 ++ v :: l2 ++ rest → used k = l1 ++ v :: l2 →
  let v' := KeyValue (kv_name v) type (Z.of_nat (length data)) (data_of data) in
  let k' := with_values (k_last_value k) (k_nb_values k) (l1 ++ v' :: l2 ++ rest) k in
  values_ok k' ∧ value_map k' = <[fold_name (kv_name v) := (kv_name v, type, data)]> (value_map k).
Proof.
  intros Hok Hv Hu v' k'. pose proof (used_length k Hok) as Hl. rewrite Hu, length_app in Hl. simpl in Hl.
  assert (used k' = l1 ++ v' :: l2) as E.
  { unfold used, k'. simpl. rewrite app_comm_cons, app_assoc. apply take_app_length'. rewrite length_app. simpl. lia. }
  assert (entry v' = (kv_name v, type, data)) as Ev.
  { unfold entry, v', data_of, truth. simpl. destruct (Z.eqb_spec (Z.of_nat (length data)) 0); simpl; [|done]. by destruct data. }
  split.
  - destruct Hok as [? ? Hlen ? Hsort Hval]. rewrite Hu in Hsort, Hval. rewrite list.Forall_app, list.Forall_cons in Hval. destruct Hval as (V1 & V2 & V3).
    split; rewrite ?E; simpl; try done.
    + rewrite Hlen, Hv, !length_app. simpl. by rewrite length_app.
    + unfold value_names in *. by rewrite fmap_app in *.
    + rewrite list.Forall_app, list.Forall_cons. split_and!; [done|by eapply data_of_ok|done].
  - unfold value_map. rewrite E, Hu. rewrite (map_of_replace l1 l2 v v'); [by rewrite Ev| |done].
    destruct Hok as [? ? ? ? Hsort _]. by rewrite Hu in Hsort.
Qed.

(** Storing the data, and touching the key. *)
Lemma store_ok p k l1 v l2 rest type data r : registry_ok r → r_keys r !! p = Some k → is_Some (k_name k) →
  k_values k = l1 ++ v :: l2 ++ rest → used k = l1 ++ v :: l2 →
  wp (k ← key_of p;
      v ← access (array_get (k_values k) (Z.of_nat (length l1)));
      values ← access (array_set (k_values k) (Z.of_nat (length l1))
        (KeyValue (kv_name v) type (Z.of_nat (length data)) (if truth (Z.of_nat (length data)) then Some data else None)));
      _ ← update_key p (λ k, with_values (k_last_value k) (k_nb_values k) values k);
      touch_key p REG_NOTIFY_CHANGE_LAST_SET)
    (λ _ r', registry_ok r' ∧ r_error r' = r_error r ∧ r_allocs r' = r_allocs r ∧
      contents r' = <[p := <[fold_name (kv_name v) := (kv_name v, type, data)]> (value_map k)]> (contents r)) r.
Proof.
  intros Hr Hk Hn Hv Hu. pose proof (proj2 Hr p k Hk) as Hok.
  rewrite wp_bind, (key_of_spec p r k) by done. rewrite wp_bind, Hv, array_get_app, wp_access, wp_bind, array_set_app, wp_access.
  rewrite wp_bind, (update_key_spec p _ r k) by done.
  destruct (replaced_ok k l1 v l2 rest type data Hok Hv Hu) as [Hok' Hmap].
  match goal with |- wp _ _ ?s => set (r1 := s) end.
  assert (became r p k (with_values (k_last_value k) (k_nb_values k) (l1 ++ KeyValue (kv_name v) type (Z.of_nat (length data)) (data_of data) :: l2 ++ rest) k) r1) as Hb.
  { split_and!; [done|by eexists _, _, _|done|done|by exists []]. }
  destruct (became_ok _ _ _ _ _ Hk Hr Hb) as (Hr1 & Hk1 & Hc1).
  eapply wp_mono; [by eapply touch_key_ok; [apply Hr1|..]|]. intros ? r' Ht. destruct (touched_ok _ _ Ht Hr1) as (Hr' & Hc' & He & Ha).
  split_and!; [done|done|done|]. by rewrite Hc', Hc1, Hmap.
Qed.

(** What happens to the registry when the map of [p] becomes [m'], with an error. *)
Definition at_key r p (step : Z → vmap → Prop) r' : Prop :=
  registry_ok r' ∧ r_allocs r' `suffix_of` r_allocs r ∧ ∃ m', step (r_error r') m' ∧ contents r' = <[p := m']> (contents r).
Lemma at_key_same r p k r' (step : Z → vmap → Prop) : r_keys r !! p = Some k → registry_ok r' → contents r' = contents r → r_allocs r' `suffix_of` r_allocs r →
  step (r_error r') (value_map k) → at_key r p step r'.
Proof.
  intros Hk Hr' Hc Ha Hs. split; [done|]. split; [done|]. exists (value_map k). split; [done|]. rewrite Hc, insert_id; [done|].
  unfold contents. by rewrite lookup_fmap, Hk.
Qed.
Lemma at_key_error r p k e (step : Z → vmap → Prop) : r_keys r !! p = Some k → registry_ok r → step e (value_map k) → wp (set_error e) (λ _, at_key r p step) r.
Proof. intros Hk Hr Hs. unfold set_error. rewrite wp_modify. by apply (at_key_same r p k). Qed.

Lemma value_map_found k l1 v l2 name : values_ok k → used k = l1 ++ v :: l2 → fold_name (kv_name v) = fold_name name →
  value_map k !! fold_name name = Some (entry v) ∧ spelling (value_map k) name = kv_name v.
Proof.
  intros Hok Hu E. assert (value_map k !! fold_name name = Some (entry v)) as Hm.
  { unfold value_map. rewrite Hu. apply map_of_lookup; [|done]. rewrite <- Hu. apply Hok. }
  split; [done|]. unfold spelling. by rewrite Hm.
Qed.

Lemma set_new_ok p k l1 l2 name type data r r1 : registry_ok r → r_keys r !! p = Some k → is_Some (k_name k) → short name →
  memory_step r true r1 → has_flag k KEY_PREDEF = false → has_flag k KEY_SYMLINK && negb (is_link name type) = false →
  used k = l1 ++ l2 → value_map k !! fold_name name = None →
  Forall (λ n, before n name) (value_names l1) → Forall (before name) (value_names l2) →
  wp (ok ← insert_value p name (Z.of_nat (length l1));
      if negb ok then mret tt else
      k ← key_of p;
      v ← access (array_get (k_values k) (Z.of_nat (length l1)));
      values ← access (array_set (k_values k) (Z.of_nat (length l1))
        (KeyValue (kv_name v) type (Z.of_nat (length data)) (if truth (Z.of_nat (length data)) then Some data else None)));
      _ ← update_key p (λ k, with_values (k_last_value k) (k_nb_values k) values k);
      touch_key p REG_NOTIFY_CHANGE_LAST_SET)
    (λ _, at_key r p (set_step (false ∈ r_allocs r) (protection k) (value_map k) name type data (r_error r))) r1.
Proof.
  intros Hr Hk Hnamed Hname Hm Hpre Hsym Hu Hnone H1 H2. pose proof (proj2 Hr p k Hk) as Hok. destruct Hm as (K1 & N1 & S1 & E1).
  destruct (memory_ok r true r1) as [Hr1 Hc1]; [by split_and!|done|].
  assert (r_keys r1 !! p = Some k) as Hk1 by (by rewrite K1).
  rewrite wp_bind. eapply wp_mono; [by apply (insert_value_spec p k l1 l2)|]. intros b r2 (k2 & Hb & R2).
  destruct (became_ok _ _ _ _ _ Hk1 Hr1 Hb) as (Hr2 & Hk2 & Hc2). pose proof Hb as (_ & _ & _ & _ & S2).
  assert (spelling (value_map k) name = name) as Hsp by (unfold spelling; by rewrite Hnone).
  destruct b; cbn [negb].
  - destruct R2 as (E2 & Hlen & t & rest & Hv & Hu2). eapply wp_mono; [apply (store_ok p k2 l1 (KeyValue name t 0 None) l2 rest type data); [done|done| |done..]|].
    { destruct Hb as (_ & (? & ? & ? & ->) & _). done. }
    intros _ r' (Hr' & E' & A' & C'). split; [done|]. split; [rewrite A'; by etrans|].
    exists (<[fold_name name := (name, type, data)]> (value_map k)). split.
    + unfold set_step, protection; cbn [fst snd]. rewrite Hpre, Hsym. simpl. left. rewrite Hsp. split; [done|]. split; [congruence|done].
    + rewrite C', Hc2, Hc1, insert_insert_eq. f_equal. simpl. unfold value_map. rewrite Hu2, Hu.
      rewrite map_of_middle by by apply before_other. simpl. by rewrite insert_insert_eq.
  - destruct R2 as [Hu2 R2]. rewrite wp_ret. apply (at_key_same r p k); [done|done| |by etrans|].
    + rewrite Hc2, Hc1. unfold value_map. rewrite Hu2. rewrite insert_id; [done|]. unfold contents. by rewrite lookup_fmap, Hk.
    + unfold set_step, protection; cbn [fst snd]. rewrite Hpre, Hsym. simpl. right. split; [done|]. destruct R2 as [[-> ?]|[-> ?]]; [by right|left].
      split; [done|]. destruct S1 as [l ->]. apply elem_of_app. by right.
Qed.

Lemma set_value_ok p k name type data r : registry_ok r → r_keys r !! p = Some k → is_Some (k_name k) → short name →
  wp (set_value p name type data) (λ _, at_key r p (set_step (false ∈ r_allocs r) (protection k) (value_map k) name type data (r_error r))) r.
Proof.
  intros Hr Hk Hnamed Hname. pose proof (proj2 Hr p k Hk) as Hok. unfold set_value. rewrite wp_bind, (key_of_spec p r k) by done.
  destruct (has_flag k KEY_PREDEF) eqn:Hpre; [apply (at_key_error r p k); [done..|]; unfold set_step, protection; cbn [fst snd]; by rewrite Hpre|].
  destruct (find_value_spec k name Hok Hname) as (b & i & Hf & Hloc). rewrite wp_bind, Hf, wp_access. cbv zeta beta iota.
  rewrite <- is_link_spec. destruct b.
  - apply map_of_found in Hloc as (l1 & v & l2 & Hu & -> & Hn). destruct (used_split k Hok) as [rest Hv].
    rewrite Hu, <- app_assoc in Hv. cbn [app] in Hv. destruct (value_map_found k l1 v l2 name Hok Hu Hn) as [Hlook Hsp].
    rewrite wp_bind, Hv, array_get_app. cbn [fmap option_fmap option_map]. rewrite wp_access. cbv zeta beta iota.
    assert (value_ok v) as (_ & Hnull & Hvl).
    { pose proof (vo_values _ Hok) as Hall. rewrite Hu, list.Forall_app, list.Forall_cons in Hall. apply Hall. }
    set (same := (kv_type v =? type) && _ && _).
    assert (same = bool_decide (value_map k !! fold_name name = Some (spelling (value_map k) name, type, data) ∧ data ≠ [])) as Hsame.
    { unfold same. rewrite Hlook, Hsp. apply eq_true_iff_eq. rewrite !andb_true_iff, !Z.eqb_eq, bool_decide_eq_true. unfold entry.
      destruct (kv_data v) as [d|] eqn:Ed; rewrite ?bool_decide_eq_true; simpl in *.
      - split; [|naive_solver congruence]. intros [[-> E1] ->]. split; [done|]. intros ->. simpl in E1. assert (kv_len v = 0) as E0 by lia.
        apply Hnull in E0. done.
      - split; [by intros [_ ?]|]. intros [[= _ <-] ?]. done. }
    destruct same eqn:Es.
    + rewrite wp_ret. apply (at_key_same r p k); try done. unfold set_step, protection; cbn [fst snd]. rewrite Hpre, <- Hsame, andb_false_r. left.
      symmetry in Hsame. apply bool_decide_eq_true in Hsame as [Hsame _]. split; [by rewrite insert_id|]. split; [done|]. intros Hno. congruence.
    + destruct (has_flag k KEY_SYMLINK && negb (is_link name type)) eqn:Hsym.
      { apply (at_key_error r p k); [done..|]. unfold set_step, protection; cbn [fst snd]. by rewrite Hpre, Hsym, <- Hsame. }
      rewrite wp_bind. eapply wp_mono; [apply alloc_if_spec|]. intros b r1 Hm. pose proof Hm as (K1 & N1 & S1 & E1).
      destruct (memory_ok r b r1 Hm Hr) as [Hr1 Hc1]. destruct b; cbn [negb].
      * rewrite wp_bind, wp_ret. cbn [negb]. eapply wp_mono; [apply (store_ok p k l1 v l2 rest type data r1); [done|by rewrite K1|done..]|].
        intros _ r' (Hr' & E' & A' & C'). split; [done|]. split; [by rewrite A'|]. eexists. split; [|by rewrite C', Hc1].
        unfold set_step, protection; cbn [fst snd]. rewrite Hpre, Hsym. simpl. left. rewrite Hsp, <- Hn. split; [done|]. split; [congruence|]. rewrite Hn. congruence.
      * rewrite wp_ret. apply (at_key_same r p k); try done. unfold set_step, protection; cbn [fst snd]. rewrite Hpre, Hsym. simpl. right. split; [done|]. left. done.
  - apply map_of_located in Hloc as (Hnone & l1 & l2 & Hu & -> & H1 & H2). rewrite wp_bind, wp_ret. cbv iota.
    destruct (has_flag k KEY_SYMLINK && negb (is_link name type)) eqn:Hsym.
    { apply (at_key_error r p k); [done..|]. unfold set_step, protection; cbn [fst snd]. rewrite Hpre, Hsym, bool_decide_false; [done|]. unfold value_map. rewrite Hnone. by intros [? _]. }
    rewrite wp_bind. eapply wp_mono; [apply alloc_if_spec|]. intros b r1 Hm. destruct b; cbn [negb]; [by apply (set_new_ok p k l1 l2)|].
    destruct (memory_ok r false r1 Hm Hr) as [Hr1 Hc1]. pose proof Hm as (K1 & N1 & S1 & E1).
    rewrite wp_ret. apply (at_key_same r p k); try done. unfold set_step, protection; cbn [fst snd]. rewrite Hpre, Hsym. simpl. right. split; [done|]. left. done.
Qed.
End value_spec.

(** * Reading, enumerating and deleting values *)

Section value_query.
Context `{CaseMap}.
Implicit Types (p : Z) (k : key) (v : key_value) (r : registry) (m : vmap).

(** ** Reading *)

Lemma set_reply_data_spec data r : wp (set_reply_data data) (λ d r', ∃ b, memory_step r b r' ∧ d = if b then data else []) r.
Proof.
  unfold set_reply_data. rewrite wp_bind. eapply wp_mono; [apply alloc_if_spec|]. intros b r1 Hm. rewrite wp_ret. exists b.
  split; [done|]. by destruct b.
Qed.

(** The reply of [get_value]: type, length of the data and the data for which there is room. *)
Definition get_step (fails : Prop) (prot : bool * bool) m (name : list Z) (room : Z) (reply : option Z * Z * list Z) (old_error error : Z) : Prop :=
  if prot.1 then reply = (None, 0, []) ∧ error = STATUS_INVALID_HANDLE
  else match m !! fold_name name with
  | None => reply = (Some (-1), 0, []) ∧ error = STATUS_OBJECT_NAME_NOT_FOUND
  | Some (_, type, data) =>
      reply = (Some type, Z.of_nat (length data), take (Z.to_nat room) data) ∧ error = old_error ∨
      reply = (Some type, Z.of_nat (length data), []) ∧ error = STATUS_NO_MEMORY ∧ fails
  end.

Lemma get_value_ok p k name room r : registry_ok r → r_keys r !! p = Some k → short name → 0 ≤ room →
  wp (get_value p name room) (λ reply, at_key r p (λ e m', m' = value_map k ∧
    get_step (false ∈ r_allocs r) (protection k) (value_map k) name room reply (r_error r) e)) r.
Proof.
  intros Hr Hk Hname Hroom. pose proof (proj2 Hr p k Hk) as Hok. unfold get_value, get_step, protection; cbn [fst snd]. rewrite wp_bind, (key_of_spec p r k) by done.
  destruct (has_flag k KEY_PREDEF) eqn:Hpre; [unfold set_error; rewrite wp_bind, wp_modify, wp_ret; by apply (at_key_same r p k)|].
  destruct (find_value_spec k name Hok Hname) as (b & i & Hf & Hloc). rewrite wp_bind, Hf, wp_access. cbv zeta beta iota. destruct b.
  - apply map_of_found in Hloc as (l1 & v & l2 & Hu & -> & Hn). destruct (used_split k Hok) as [rest Hv].
    rewrite Hu, <- app_assoc in Hv. cbn [app] in Hv. destruct (value_map_found k l1 v l2 name Hok Hu Hn) as [Hlook _].
    rewrite wp_bind, Hv, array_get_app, wp_access, Hlook. unfold entry.
    assert (value_ok v) as (_ & _ & Hvl).
    { pose proof (vo_values _ Hok) as Hall. rewrite Hu, list.Forall_app, list.Forall_cons in Hall. apply Hall. }
    rewrite wp_bind. eapply wp_mono; [instantiate (1 := λ d r', ∃ b, memory_step r b r' ∧ d = if b then take (Z.to_nat room) (default [] (kv_data v)) else [])|].
    + destruct (kv_data v) as [d|]; simpl in *.
      * replace (take (Z.to_nat (Z.min (kv_len v) room)) d) with (take (Z.to_nat room) d); [apply set_reply_data_spec|].
        destruct (Z.leb_spec room (kv_len v)); [by rewrite Z.min_r by lia|]. rewrite Z.min_l, !take_ge by lia. done.
      * rewrite wp_ret. exists true. split; [split_and!; [done|done|by exists []|done]|by rewrite take_nil].
    + intros d r' (b & Hm & ->). rewrite wp_ret. destruct (memory_ok _ _ _ Hm Hr) as [Hr' Hc']. pose proof Hm as (_ & _ & S & E).
      apply (at_key_same r p k); try done. split; [done|]. rewrite Hvl. destruct b; [by left|by right].
  - apply map_of_located in Hloc as (Hnone & _). unfold set_error. rewrite wp_bind, wp_modify, wp_ret. unfold value_map.
    apply (at_key_same r p k); try done. fold (value_map k) in *. by rewrite Hnone.
Qed.

(** ** Deleting *)

Definition delete_step (prot : bool * bool) m (name : list Z) (old_error error : Z) m' : Prop :=
  if prot.1 then m' = m ∧ error = STATUS_INVALID_HANDLE
  else match m !! fold_name name with
  | None => m' = m ∧ error = STATUS_OBJECT_NAME_NOT_FOUND
  | Some _ => m' = delete (fold_name name) m ∧ error = old_error
  end.

Lemma removed_ok k l1 v l2 : values_ok k → used k = l1 ++ v :: l2 →
  ∃ values, shift_down (Z.to_nat (k_last_value k - Z.of_nat (length l1))) (Z.of_nat (length l1)) (k_values k) = Some values ∧
    let k' := with_values (k_last_value k - 1) (k_nb_values k) values k in
    values_ok k' ∧ used k' = l1 ++ l2.
Proof.
  intros Hok Hu. pose proof (used_length k Hok) as Hl. rewrite Hu, length_app in Hl. simpl in Hl. pose proof (vo_last _ Hok).
  destruct (used_split k Hok) as [rest Hv]. rewrite Hu, <- app_assoc in Hv. cbn [app] in Hv.
  destruct (shift_down_spec l2 l1 v rest) as [z Hz]. exists (l1 ++ l2 ++ z :: rest).
  replace (Z.to_nat (k_last_value k - Z.of_nat (length l1))) with (length l2) by lia. rewrite Hv. split; [done|].
  set (k' := with_values _ _ _ _). assert (used k' = l1 ++ l2) as E.
  { unfold used, k'. simpl. rewrite app_assoc. apply take_app_length'. rewrite length_app. lia. }
  split; [|done]. destruct Hok as [? ? Hnb ? Hsort Hval]. rewrite Hu in Hsort, Hval. split; rewrite ?E; simpl; try done; try lia.
  - rewrite Hnb, Hv, !length_app. simpl. rewrite length_app. simpl. lia.
  - by apply sorted_values_middle in Hsort as (_ & _ & ?).
  - rewrite list.Forall_app, list.Forall_cons in *. naive_solver.
Qed.

Lemma shrink_ok p k r : registry_ok r → r_keys r !! p = Some k →
  wp (if (MIN_VALUES <? k_nb_values k) && (k_last_value k <? k_nb_values k ÷ 2) then
        let nb_values := k_nb_values k - k_nb_values k ÷ 3 in
        let nb_values := if nb_values <? MIN_VALUES then MIN_VALUES else nb_values in
        ok ← malloc_ok;
        if negb ok then mret tt
        else update_key p (λ k, with_values (k_last_value k) nb_values (resize undefined_value nb_values (k_values k)) k)
      else mret tt)
    (λ _ r', registry_ok r' ∧ r_error r' = r_error r ∧ contents r' = contents r ∧ r_allocs r' `suffix_of` r_allocs r) r.
Proof.
  intros Hr Hk. pose proof (proj2 Hr p k Hk) as Hok. destruct (_ && _) eqn:E; [|rewrite wp_ret; split_and!; [done..|by exists []]].
  apply andb_true_iff in E as [E1%Z.ltb_lt E2%Z.ltb_lt]. cbv zeta. set (n := if _ <? MIN_VALUES then _ else _).
  assert (MIN_VALUES ≤ n ∧ k_last_value k + 1 ≤ n) as [Hn1 Hn2].
  { unfold n, MIN_VALUES in *. rewrite Z.quot_div_nonneg in E2 by lia. rewrite Z.quot_div_nonneg by lia.
    case_match; Z.to_euclidean_division_equations; lia. }
  rewrite wp_bind, wp_malloc_ok. destruct (r_allocs r) as [|[] l] eqn:El; cbn [negb].
  3:{ rewrite wp_ret. split_and!; [done..|]. by exists [false]. }
  all: match goal with |- wp _ _ ?s => set (r1 := s) end; rewrite (update_key_spec p _ r1 k) by done.
  all: match goal with |- _ ?s ∧ _ => set (r2 := s) end.
  all: set (k' := with_values (k_last_value k) n (resize undefined_value n (k_values k)) k).
  all: pose proof (vo_last _ Hok); pose proof (vo_room _ Hok); pose proof (vo_length _ Hok).
  all: assert (used k' = used k) as Eu by (unfold used, k'; simpl; apply resize_take; lia).
  all: assert (values_ok k') as Hok' by (destruct Hok; split; rewrite ?Eu; simpl; try done; [rewrite resize_length by lia; lia|by right]).
  all: assert (became r p k k' r2) as Hb by (split_and!; [done|by eexists _, _, _|done|done|rewrite El; first [by exists []|by exists [true]]]).
  all: destruct (became_ok _ _ _ _ _ Hk Hr Hb) as (Hr2 & _ & Hc2); split_and!; [done|done| |first [by exists []|by exists [true]]].
  all: rewrite Hc2; unfold value_map; rewrite Eu; apply insert_id; unfold contents; by rewrite lookup_fmap, Hk.
Qed.

Lemma delete_value_ok p k name r : registry_ok r → r_keys r !! p = Some k → is_Some (k_name k) → short name →
  wp (delete_value p name) (λ _, at_key r p (delete_step (protection k) (value_map k) name (r_error r))) r.
Proof.
  intros Hr Hk Hnamed Hname. pose proof (proj2 Hr p k Hk) as Hok. unfold delete_value, delete_step, protection; cbn [fst snd]. rewrite wp_bind, (key_of_spec p r k) by done.
  destruct (has_flag k KEY_PREDEF) eqn:Hpre; [by apply (at_key_error r p k)|].
  destruct (find_value_spec k name Hok Hname) as (b & i & Hf & Hloc). rewrite wp_bind, Hf, wp_access. cbv zeta beta iota. destruct b; cbn [negb].
  2:{ apply map_of_located in Hloc as (Hnone & _). apply (at_key_error r p k); [done..|]. fold (value_map k) in Hnone. by rewrite Hnone. }
  apply map_of_found in Hloc as (l1 & v & l2 & Hu & -> & Hn). destruct (value_map_found k l1 v l2 name Hok Hu Hn) as [Hlook _]. rewrite Hlook.
  destruct (removed_ok k l1 v l2 Hok Hu) as (values & Hs & Hok' & Hu'). rewrite wp_bind, Hs, wp_access, wp_bind, (update_key_spec p _ r k) by done.
  match goal with |- wp _ _ ?s => set (r1 := s) end. set (k' := with_values _ _ values k) in *.
  assert (became r p k k' r1) as Hb by (split_and!; [done|by eexists _, _, _|done|done|by exists []]).
  destruct (became_ok _ _ _ _ _ Hk Hr Hb) as (Hr1 & Hk1 & Hc1). rewrite wp_bind.
  eapply wp_mono; [by eapply touch_key_ok; [apply Hr1|..]|]. intros ? r2 Ht. destruct (touched_ok _ _ Ht Hr1) as (Hr2 & Hc2 & He2 & Ha2).
  destruct (touched_lookup _ _ _ _ Ht Hk1) as (k2 & Hk2 & _). rewrite wp_bind, (key_of_spec p r2 k2) by done.
  eapply wp_mono; [by apply shrink_ok|]. intros [] r3 (Hr3 & He3 & Hc3 & Ha3). split; [done|]. split; [by rewrite Ha2 in Ha3|].
  exists (delete (fold_name name) (value_map k)). split; [split; [done|by rewrite He3, He2]|]. rewrite Hc3, Hc2, Hc1. f_equal.
  unfold value_map. rewrite Hu', Hu. apply (map_of_delete l1 l2 v); [|done]. rewrite <- Hu. apply Hok.
Qed.
End value_query.
