(* ===== verification/RegValueHistory.v ===== *)
(** * Every sequence of operations on values *)

From stdpp Require Import sorting.
From S2P Require Import Prelude.
From S2P Require Import Atoms.
From S2P Require Import AtomsInv.
From S2P Require Import RegKeys.
From S2P Require Import RegArrays.
From S2P Require Import RegTouch.
From S2P Require Import RegValueSpec.

Section history.
Context `{CaseMap}.
Implicit Types (p : Z) (k : key) (v : key_value) (r : registry) (m : vmap).

(** ** Enumeration *)

(** What the classes of information ask for: the name, or nothing, and then the data. *)
Definition info_name (info : value_info) v : list Z :=
  match info with KeyValuePartialInformation => [] | _ => name_bytes (kv_name v) end.
Definition info_data (info : value_info) v : list Z :=
  match info with KeyValueBasicInformation => [] | _ => default [] (kv_data v) end.
Definition info_total info v : Z := Z.of_nat (length (info_name info v ++ info_data info v)).
(** The reply for the value number [i]: as much as there is room for. *)
Definition enum_step (fails : Prop) (prot : bool * bool) m (i : Z) (info : value_info) (room : Z) (reply : enum_value_reply) (old_error error : Z) : Prop :=
  if prot.1 then error = STATUS_INVALID_HANDLE
  else ∃ l, StronglySorted before (value_names l) ∧ Forall value_ok l ∧ map_of l = m ∧
  match array_get l i with
  | None => error = STATUS_NO_MORE_ENTRIES
  | Some v =>
      match info with
      | OtherValueInformation => error = STATUS_INVALID_PARAMETER
      | _ => reply = EnumValueReply (kv_type v) (info_total info v) (Z.min (Z.of_nat (length (info_name info v))) room)
                       (take (Z.to_nat room) (info_name info v ++ info_data info v)) ∧ error = old_error ∨
             reply = EnumValueReply (kv_type v) (info_total info v) 0 [] ∧ error = STATUS_NO_MEMORY ∧ fails
      end
  end.

Lemma name_bytes_length name : length (name_bytes name) = (2 * length name)%nat.
Proof. unfold name_bytes. induction name as [|c name IH]; simpl; [done|]. rewrite IH. lia. Qed.

Lemma fill_spec v info room r : value_ok v → info ≠ OtherValueInformation → 0 ≤ room →
  wp (fill_value_reply v (info_total info v) (Z.of_nat (length (info_name info v))) room) (λ reply r', ∃ b, memory_step r b r' ∧
    reply = if b then EnumValueReply (kv_type v) (info_total info v) (Z.min (Z.of_nat (length (info_name info v))) room)
                        (take (Z.to_nat room) (info_name info v ++ info_data info v))
            else EnumValueReply (kv_type v) (info_total info v) 0 []) r.
Proof.
  intros (_ & _ & Hvl) Hinfo Hroom. unfold fill_value_reply. rewrite wp_bind. unfold truth.
  assert (info_total info v = Z.of_nat (length (info_name info v)) + Z.of_nat (length (info_data info v))) as Et
    by (unfold info_total; rewrite length_app; lia).
  set (n := info_name info v) in *. set (d := info_data info v) in *.
  destruct (Z.eqb_spec (Z.min (info_total info v) room) 0) as [E|E]; cbn [negb].
  - rewrite !wp_ret. exists true. split; [split_and!; [done|done|by exists []|done]|].
    f_equal; [lia|]. destruct (decide (room = 0)) as [->|]; [done|]. assert (length (n ++ d) = 0%nat) as E0 by (rewrite length_app; lia).
    apply nil_length_inv in E0. by rewrite E0, take_nil.
  - eapply wp_mono; [apply mem_alloc_ok_spec|]. intros b r1 Hm. rewrite wp_ret. exists b. split; [done|]. destruct b; cbn [negb]; [|done].
    assert (n = [] ∨ n = name_bytes (kv_name v)) as Hn by (unfold n, info_name; destruct info; auto).
    assert (d = [] ∨ d = default [] (kv_data v)) as Hd by (unfold d, info_data; destruct info; auto).
    assert (n = name_bytes (kv_name v) ∨ d = default [] (kv_data v)) as Hnd by (unfold n, d, info_name, info_data; destruct info; auto).
    destruct (Z.ltb_spec (Z.of_nat (length n)) (Z.min (info_total info v) room)) as [Hlt|Hge].
    + assert (d = default [] (kv_data v)) as -> by (destruct Hd as [Hd|Hd]; [rewrite Hd in Et; simpl in Et; lia|done]).
      f_equal; [lia|]. rewrite take_app. f_equal.
      * rewrite Nat2Z.id. destruct Hn as [-> | ->]; [by rewrite !take_0, take_nil|]. rewrite !take_ge; [done|lia|lia].
      * destruct (Z.leb_spec room (info_total info v)); [f_equal; lia|]. rewrite !take_ge; [done|lia|lia].
    + assert (n = name_bytes (kv_name v)) as E1.
      { destruct Hn as [Hn|Hn]; [|done]. rewrite Hn in *. simpl in *. lia. }
      rewrite <- E1. destruct (Z.leb_spec room (Z.of_nat (length n))).
      * f_equal; [lia|]. rewrite take_app_le by lia. f_equal. lia.
      * assert (length d = 0%nat) as E0 by lia. apply nil_length_inv in E0. rewrite E0, app_nil_r. f_equal; [lia|]. rewrite !take_ge; [done|lia|lia].
Qed.

Lemma enum_value_ok p k i info room r : registry_ok r → r_keys r !! p = Some k → 0 ≤ room →
  wp (enum_value p i info room) (λ reply, at_key r p (λ e m', m' = value_map k ∧
    enum_step (false ∈ r_allocs r) (protection k) (value_map k) i info room reply (r_error r) e)) r.
Proof.
  intros Hr Hk Hroom. pose proof (proj2 Hr p k Hk) as Hok. pose proof (used_length k Hok) as Hl. pose proof (vo_last _ Hok).
  unfold enum_value, enum_step, protection; cbn [fst snd]. rewrite wp_bind, (key_of_spec p r k) by done.
  destruct (has_flag k KEY_PREDEF) eqn:Hpre; [unfold set_error; rewrite wp_bind, wp_modify, wp_ret; by apply (at_key_same r p k)|].
  destruct ((i <? 0) || (k_last_value k <? i)) eqn:Hout.
  { unfold set_error. rewrite wp_bind, wp_modify, wp_ret. apply (at_key_same r p k); try done. split; [done|].
    exists (used k). split_and!; [apply Hok|apply Hok|done|]. unfold array_get. destruct (Z.leb_spec 0 i); [|done].
    rewrite lookup_ge_None_2; [done|]. apply orb_true_iff in Hout as [Ho%Z.ltb_lt|Ho%Z.ltb_lt]; lia. }
  apply orb_false_iff in Hout as [Ho1%Z.ltb_ge Ho2%Z.ltb_ge].
  destruct (lookup_lt_is_Some_2 (used k) (Z.to_nat i)) as [v Hv]; [lia|].
  pose proof (used_get k _ v Hok Hv) as Hg. rewrite Z2Nat.id in Hg by lia. rewrite wp_bind, Hg, wp_access. cbv zeta.
  assert (value_ok v) as Hvok by (by eapply list.Forall_lookup_1; [apply Hok|]). pose proof Hvok as (_ & _ & Hvl).
  destruct (decide (info = OtherValueInformation)) as [->|Hinfo].
  { unfold set_error. rewrite wp_bind, wp_modify, wp_ret. apply (at_key_same r p k); try done. split; [done|].
    exists (used k). split_and!; [apply Hok|apply Hok|done|]. by rewrite array_get_lookup, Hv by done. }
  pose proof (fill_spec v info room r Hvok Hinfo Hroom) as Hfill.
  assert (wp (fill_value_reply v (info_total info v) (Z.of_nat (length (info_name info v))) room)
    (λ reply, at_key r p (λ e m', m' = value_map k ∧ ∃ l, StronglySorted before (value_names l) ∧ Forall value_ok l ∧ map_of l = value_map k ∧
      array_get l i = Some v ∧
      (reply = EnumValueReply (kv_type v) (info_total info v) (Z.min (Z.of_nat (length (info_name info v))) room)
         (take (Z.to_nat room) (info_name info v ++ info_data info v)) ∧ e = r_error r ∨
       reply = EnumValueReply (kv_type v) (info_total info v) 0 [] ∧ e = STATUS_NO_MEMORY ∧ false ∈ r_allocs r))) r) as Hw.
  { eapply wp_mono; [exact Hfill|]. intros reply r' (b & Hm & ->). destruct (memory_ok _ _ _ Hm Hr) as [Hr' Hc']. pose proof Hm as (_ & _ & S & E).
    apply (at_key_same r p k); try done. split; [done|]. exists (used k). split_and!; [apply Hok|apply Hok|done|by rewrite array_get_lookup|].
    destruct b; [by left|by right]. }
  destruct info; [| | |done]; unfold info_total, info_name, info_data in *; simpl in Hw; rewrite ?app_nil_r, ?length_app, ?name_bytes_length, ?Nat2Z.inj_add, ?Nat2Z.inj_mul, <- ?Hvl in Hw.
  all: eapply wp_mono; [exact Hw|]; intros reply r' (Hr' & Ha' & m' & (-> & l & L1 & L2 & L3 & L4 & L5) & Hc'); split; [done|]; split; [done|];
    exists (value_map k); split; [|done]; split; [done|]; exists l; split_and!; [done..|]; rewrite L4.
  all: unfold info_total, info_name, info_data; simpl; rewrite ?app_nil_r, ?length_app, ?name_bytes_length, ?Nat2Z.inj_add, ?Nat2Z.inj_mul, <- ?Hvl; exact L5.
Qed.

(** ** Flags and names, which the operations do not change *)

Definition identity k : bool * bool * option (list Z) := (protection k, k_name k).
Definition same_protection r r' : Prop := ∀ p, identity <$> r_keys r !! p = identity <$> r_keys r' !! p.
#[local] Instance same_protection_preorder : PreOrder same_protection.
Proof. split; [by intros r p|]. intros r1 r2 r3 H1 H2 p. by rewrite H1. Qed.

Lemma dirty_other f : Z.land (Z.lor f KEY_DIRTY) KEY_PREDEF = Z.land f KEY_PREDEF ∧ Z.land (Z.lor f KEY_DIRTY) KEY_SYMLINK = Z.land f KEY_SYMLINK.
Proof. rewrite !Z.land_lor_distr_l. change (Z.land KEY_DIRTY _) with 0. by rewrite !Z.lor_0_r. Qed.
Lemma touched_protection r r' : touched r r' → same_protection r r'.
Proof.
  intros [Ht _] p. specialize (Ht p). destruct Ht as [k k' (f & m & n & -> & Hf)|]; [|done]. simpl. f_equal.
  unfold identity, protection, has_flag. simpl. destruct Hf as [->| ->]; [done|]. by rewrite !(proj1 (dirty_other _)), !(proj2 (dirty_other _)).
Qed.
Lemma keeps_protection_update p f : (∀ k, identity (f k) = identity k) → keeps same_protection (update_key p f).
Proof.
  intros Hf r [] r'. unfold update_key, mbind, M_bind, key_of. destruct (r_keys r !! p) as [k|] eqn:Hk; [|done]. intros [= <-] q. simpl.
  destruct (decide (p = q)) as [<-|Hne]; [rewrite lookup_insert_eq, Hk; simpl; by rewrite Hf|by rewrite lookup_insert_ne].
Qed.
Lemma keeps_access {A} (x : option A) : keeps same_protection (access x).
Proof. intros r a r'. destruct x; [|done]. intros [= _ <-]. reflexivity. Qed.
Lemma keeps_malloc_ok : keeps same_protection malloc_ok.
Proof. intros r a r' [= _ <-] q. done. Qed.
Lemma keeps_protection_touch p change : keeps same_protection (touch_key p change).
Proof. intros r a r' Ht. apply touched_protection. by eapply keeps_touch_key. Qed.
Ltac protection_tac := keeps_tac ltac:(first
  [ apply keeps_key_of; apply _ | apply keeps_access | by apply keeps_protection_update
  | progress unfold mem_alloc_ok, set_error, insert_value, grow_values, set_reply_data, fill_value_reply
  | apply keeps_malloc_ok | apply keeps_protection_touch
  | apply keeps_modify; by intros ? ? ]).

Inductive value_op :=
| SetValue p (name : list Z) (type : Z) (data : list Z) | GetValue p (name : list Z) (room : Z)
| DeleteValue p (name : list Z) | EnumValue p (i : Z) (info : value_info) (room : Z).
Inductive value_reply := RDone | RValue (reply : option Z * Z * list Z) | REnum (reply : enum_value_reply).
Definition op_key (op : value_op) : Z :=
  match op with SetValue p _ _ _ | GetValue p _ _ | DeleteValue p _ | EnumValue p _ _ _ => p end.
(** The key of an operation exists and has not been deleted, and its name fits a request. *)
Definition op_ok r (op : value_op) : Prop :=
  (∃ k, r_keys r !! op_key op = Some k ∧ is_Some (k_name k)) ∧
  match op with
  | SetValue _ name _ _ | DeleteValue _ name => short name
  | GetValue _ name room => short name ∧ 0 ≤ room
  | EnumValue _ _ _ room => 0 ≤ room
  end.

Definition run_value_op (op : value_op) : R value_reply :=
  match op with
  | SetValue p name type data => _ ← set_value p name type data; mret RDone
  | GetValue p name room => reply ← get_value p name room; mret (RValue reply)
  | DeleteValue p name => _ ← delete_value p name; mret RDone
  | EnumValue p i info room => reply ← enum_value p i info room; mret (REnum reply)
  end.
Fixpoint run_value_ops (ops : list value_op) : R (list (value_reply * Z)) :=
  match ops with
  | [] => mret []
  | op :: ops =>
      _ ← set_error 0; reply ← run_value_op op; e ← gets r_error; rest ← run_value_ops ops; mret ((reply, e) :: rest)
  end.

Lemma keeps_run_value_op op : keeps same_protection (run_value_op op).
Proof. destruct op; simpl; unfold set_value, get_value, delete_value, enum_value; protection_tac. Qed.

(** ** The map that a run of operations works on *)

Definition protections r : gmap Z (bool * bool) := protection <$> r_keys r.
(** One operation: its reply, its error and the values of all keys afterwards. *)
Definition value_step (fails : Prop) (prots : gmap Z (bool * bool)) (c : gmap Z vmap) (op : value_op) (reply : value_reply) (error : Z)
    (c' : gmap Z vmap) : Prop :=
  ∃ prot m m', prots !! op_key op = Some prot ∧ c !! op_key op = Some m ∧ c' = <[op_key op := m']> c ∧
  match op with
  | SetValue _ name type data => reply = RDone ∧ set_step fails prot m name type data 0 error m'
  | GetValue _ name room => m' = m ∧ ∃ x, reply = RValue x ∧ get_step fails prot m name room x 0 error
  | DeleteValue _ name => reply = RDone ∧ delete_step prot m name 0 error m'
  | EnumValue _ i info room => m' = m ∧ ∃ x, reply = REnum x ∧ enum_step fails prot m i info room x 0 error
  end.
Inductive value_steps (fails : Prop) prots : gmap Z vmap → list value_op → list (value_reply * Z) → gmap Z vmap → Prop :=
| value_steps_nil c : value_steps fails prots c [] [] c
| value_steps_cons c op reply e c1 ops rs c2 :
    value_step fails prots c op reply e c1 → value_steps fails prots c1 ops rs c2 →
    value_steps fails prots c (op :: ops) ((reply, e) :: rs) c2.

Lemma value_step_mono (F F' : Prop) prots c op reply e c' :
  (F → F') → value_step F prots c op reply e c' → value_step F' prots c op reply e c'.
Proof.
  intros HF (prot & m & m' & H1 & H2 & H3 & H4). exists prot, m, m'. split_and!; [done..|]. destruct op; simpl in *.
  - destruct H4 as [-> H4]. split; [done|]. unfold set_step in *. repeat case_match; naive_solver.
  - destruct H4 as [-> (x & -> & H4)]. split; [done|]. exists x. split; [done|]. unfold get_step in *. repeat case_match; naive_solver.
  - done.
  - destruct H4 as [-> (x & -> & H4)]. split; [done|]. exists x. split; [done|]. unfold enum_step in *. destruct prot as [[] ?]; [done|]. simpl in *.
    destruct H4 as (l & L1 & L2 & L3 & L4). exists l. split_and!; [done..|]. destruct (array_get l i); [|done]. destruct info; naive_solver.
Qed.

Lemma run_value_op_ok op r : registry_ok r → op_ok r op → r_error r = 0 →
  wp (run_value_op op) (λ reply r', registry_ok r' ∧ r_allocs r' `suffix_of` r_allocs r ∧
    value_step (false ∈ r_allocs r) (protections r) (contents r) op reply (r_error r') (contents r')) r.
Proof.
  intros Hr [(k & Hk & Hnamed) Hop] He. unfold value_step.
  assert (protections r !! op_key op = Some (protection k)) as Hp by (unfold protections; by rewrite lookup_fmap, Hk).
  assert (contents r !! op_key op = Some (value_map k)) as Hc by (unfold contents; by rewrite lookup_fmap, Hk).
  destruct op as [p name type data|p name room|p name|p i info room]; simpl in *; rewrite wp_bind.
  - eapply wp_mono; [by apply set_value_ok|]. intros _ r' (Hr' & Ha & m' & Hs & Hc'). rewrite wp_ret, He in *. split; [done|]. split; [done|].
    by exists (protection k), (value_map k), m'.
  - destruct Hop. eapply wp_mono; [by apply get_value_ok|]. intros x r' (Hr' & Ha & m' & [-> Hs] & Hc'). rewrite wp_ret, He in *. split; [done|]. split; [done|].
    exists (protection k), (value_map k), (value_map k). split_and!; [done..|]. by exists x.
  - eapply wp_mono; [by apply delete_value_ok|]. intros _ r' (Hr' & Ha & m' & Hs & Hc'). rewrite wp_ret, He in *. split; [done|]. split; [done|].
    by exists (protection k), (value_map k), m'.
  - eapply wp_mono; [by apply enum_value_ok|]. intros x r' (Hr' & Ha & m' & [-> Hs] & Hc'). rewrite wp_ret, He in *. split; [done|]. split; [done|].
    exists (protection k), (value_map k), (value_map k). split_and!; [done..|]. by exists x.
Qed.

Lemma protections_same r r' : same_protection r r' → protections r' = protections r.
Proof.
  intros Hs. apply map_eq. intros p. unfold protections. rewrite !lookup_fmap. specialize (Hs p).
  destruct (r_keys r !! p), (r_keys r' !! p); simpl in *; try done. unfold identity in Hs. congruence.
Qed.
Lemma op_ok_same r r' op : same_protection r r' → op_ok r op → op_ok r' op.
Proof.
  intros Hs [(k & Hk & Hn) Hop]. split; [|done]. specialize (Hs (op_key op)). rewrite Hk in Hs.
  destruct (r_keys r' !! op_key op) as [k'|]; [|done]. exists k'. split; [done|]. unfold identity in Hs. simpl in Hs. congruence.
Qed.

Lemma value_steps_mono (F F' : Prop) prots c ops rs c' :
  (F → F') → value_steps F prots c ops rs c' → value_steps F' prots c ops rs c'.
Proof. intros HF. induction 1; econstructor; [by eapply value_step_mono|done]. Qed.

(** C23: In a registry whose value arrays are sorted, any sequence of operations on values of
    its keys ends without leaving the bounds of an array - whichever allocations fail -,
    keeps the arrays sorted, and every reply and error is that of finite maps from names,
    up to case, to types and data: a value is set where its name belongs, found by binary
    search, enumerated in order and deleted; symbolic links and predefined keys are
    protected; only a failed allocation or a long name keeps a value from being set. *)
Theorem registry_values_refine ops r :
  registry_ok r → Forall (op_ok r) ops →
  wp (run_value_ops ops) (λ rs r', registry_ok r' ∧
    value_steps (false ∈ r_allocs r) (protections r) (contents r) ops rs (contents r')) r.
Proof.
  revert r. induction ops as [|op ops IH]; intros r Hr Hops; simpl; [rewrite wp_ret; split; [done|constructor]|].
  apply list.Forall_cons in Hops as [Hop Hops]. rewrite wp_bind. unfold set_error. rewrite wp_modify, wp_bind.
  set (r0 := Registry _ _ _ _ 0 _). eapply wp_mono; [apply wp_keeps; [by apply (run_value_op_ok op r0)|apply keeps_run_value_op]|].
  intros reply r1 [(Hr1 & Ha & Hstep) Hsame]. rewrite wp_bind, wp_gets, wp_bind.
  eapply wp_mono; [apply (IH r1 Hr1)|].
  { eapply list.Forall_impl; [exact Hops|]. intros op' Hop'. by apply (op_ok_same r0). }
  intros rs r2 [Hr2 Hsteps]. rewrite wp_ret. split; [done|]. rewrite (protections_same r0 r1 Hsame) in Hsteps.
  econstructor; [exact Hstep|]. eapply value_steps_mono; [|exact Hsteps]. destruct Ha as [l Ha]. change (r_allocs r0) with (r_allocs r) in Ha.
  rewrite Ha. intros Hf. apply elem_of_app. by right.
Qed.
End history.
