(* ===== verification/RegFile.v ===== *)
(** * Registry files

    How src/server/registry.c writes a value as text, reads lines of a file and parses a
    value. Texts are lists of bytes without zeros. *)

From S2P Require Import Prelude.
From S2P Require Import Atoms.
From S2P Require Import RegStrings.
From S2P Require Import RegKeys.

(** ** Writing *)

(** [fprintf] of a text: it yields the number of bytes. *)
Definition fprint (t : list Z) : M dump_state Z :=
  _ ← modify (λ s, DumpState (ds_file s ++ t) (ds_buffer s)); mret (Z.of_nat (length t)).

Definition read_dword (data : list Z) : Z := foldr (λ b n, b + 256 * n) 0 data.
Definition dword_bytes (n : Z) : list Z := (λ i, Z.land (Z.shiftr n (8 * i)) 0xff) <$> [0; 1; 2; 3].

(** The loop over the bytes. *)
Fixpoint dump_hex (data : list Z) (count : Z) : M dump_state Z :=
  match data with
  | [] => mret count
  | b :: rest =>
      n ← fprint (print_number 16 2 b);
      let count := count + n in
      match rest with
      | [] => mret count
      | _ =>
          _ ← fprint [44];
          let count := count + 1 in
          if 76 <? count then _ ← fprint [92; 10; 32; 32]; dump_hex rest 2 else dump_hex rest count
      end
  end.

Definition dump_value (v : key_value) : M dump_state unit :=
  let data := default [] (kv_data v) in
  count ← (if truth (2 * Z.of_nat (length (kv_name v))) then
             _ ← fprint [34];
             n ← dump_strW (kv_name v) (34, 34) 0;
             m ← fprint [34; 61]; mret (1 + n + m)
           else fprint [64; 61]);
  if ((kv_type v =? REG_SZ) || (kv_type v =? REG_EXPAND_SZ) || (kv_type v =? REG_MULTI_SZ)) && negb (kv_len v <? 2) &&
     negb (truth (kv_len v mod 2)) && negb (truth (default 1 (array_get (wchars data) (kv_len v / 2 - 1))))
  then
    _ ← (if negb (kv_type v =? REG_SZ) then fprint ([115; 116; 114; 40] ++ print_number 16 0 (kv_type v) ++ [41; 58]) else mret 0);
    _ ← fprint [34];
    _ ← dump_strW (wchars (take (Z.to_nat (kv_len v - 2)) data)) (34, 34) 0;
    _ ← fprint [34; 10]; mret tt
  else if (kv_type v =? REG_DWORD) && (kv_len v =? 4) then
    _ ← fprint ([100; 119; 111; 114; 100; 58] ++ print_number 16 8 (read_dword data) ++ [10]); mret tt
  else
    n ← (if kv_type v =? REG_BINARY then fprint [104; 101; 120; 58]
         else fprint ([104; 101; 120; 40] ++ print_number 16 0 (kv_type v) ++ [41; 58]));
    _ ← dump_hex data (count + n);
    _ ← fprint [10]; mret tt.

(** ** Reading lines *)

(** The registry, what is left of the file, the line and the sizes of the two buffers. *)
Record load_state := LoadState { ls_registry : registry; ls_file : list Z; ls_buffer : list Z; ls_len : Z; ls_tmplen : Z }.
Definition L := M load_state.
Definition with_registry (r : registry) (s : load_state) : load_state :=
  LoadState r (ls_file s) (ls_buffer s) (ls_len s) (ls_tmplen s).
Definition lift {A} (m : R A) : L A := λ s,
  match m (ls_registry s) with
  | Done a r => Done a (with_registry r s)
  | AssertFailed => AssertFailed
  | Spinning => Spinning
  | NoFuel => NoFuel
  end.

(** [fgets] of at most [n] bytes, up to the end of a line. *)
Fixpoint fgets (n : nat) (file : list Z) : list Z * list Z :=
  match n, file with
  | S n, c :: file => if c =? 10 then ([10], file) else let '(t, file) := fgets n file in (c :: t, file)
  | _, _ => ([], file)
  end.

(** The result of a read: a line, the end of the file or an error. Every turn that does not
    return reads a byte; [fuel] is the size of the file. *)
Fixpoint read_loop (fuel : nat) (pos : list Z) : L Z :=
  s ← gets id;
  let '(t, file) := fgets (Z.to_nat (ls_len s - Z.of_nat (length pos) - 1)) (ls_file s) in
  if bool_decide (t = []) then
    _ ← modify (λ s, LoadState (ls_registry s) (ls_file s) pos (ls_len s) (ls_tmplen s));
    mret (if bool_decide (pos = []) then 0 else 1)
  else
  let line := pos ++ t in
  _ ← modify (λ s, LoadState (ls_registry s) file line (ls_len s) (ls_tmplen s));
  if last line 0 =? 10 then
    let line := removelast line in
    let line := if last line 0 =? 13 then removelast line else line in
    _ ← modify (λ s, LoadState (ls_registry s) (ls_file s) line (ls_len s) (ls_tmplen s));
    mret 1
  else if Z.of_nat (length line) <? ls_len s - 1 then mret 1
  else
    ok ← lift malloc_ok;
    if negb ok then _ ← lift (set_error STATUS_NO_MEMORY); mret (-1) else
    _ ← modify (λ s, LoadState (ls_registry s) (ls_file s) (ls_buffer s) (ls_len s + ls_len s ÷ 2) (ls_tmplen s));
    match fuel with O => no_fuel | S fuel => read_loop fuel line end.
Definition read_next_line : L Z := s ← gets id; read_loop (length (ls_file s)) [].

Definition get_file_tmp_space (size : Z) : L bool :=
  s ← gets id;
  if size <=? ls_tmplen s then mret true else
  ok ← lift malloc_ok;
  if negb ok then _ ← lift (set_error STATUS_NO_MEMORY); mret false else
  _ ← modify (λ s, LoadState (ls_registry s) (ls_file s) (ls_buffer s) (ls_len s) size);
  mret true.

(** ** Parsing a value *)

Fixpoint skip_spaces (p : list Z) : list Z :=
  match p with c :: q => if isspace c then skip_spaces q else p | [] => [] end.
Fixpoint take_xdigits (p : list Z) (n : Z) : Z * list Z :=
  match p with c :: q => if isxdigit c then take_xdigits q (n * 16 + to_hex c) else (n, p) | [] => (n, []) end.
(** [strtoul] in base 16: the number, at most ULONG_MAX, and the end; without digits it does
    not move. *)
Definition strtoul (p : list Z) : Z * list Z :=
  let q := skip_spaces p in
  let '(negative, q) := match q with c :: q' => if c =? 45 then (true, q') else if c =? 43 then (false, q') else (false, q) | [] => (false, q) end in
  let q := match q with
    | z :: x :: d :: q' => if (z =? 48) && ((x =? 120) || (x =? 88)) && isxdigit d then d :: q' else q
    | _ => q end in
  if isxdigit (char_at q) then
    let '(n, rest) := take_xdigits q 0 in
    (if 2 ^ 64 <=? n then 2 ^ 64 - 1 else if negative : bool then (- n) mod 2 ^ 64 else n, rest)
  else (0, p).

(** [strncmp( tag, p, strlen(tag) )] is zero: what follows the tag. *)
Fixpoint after_tag (tag p : list Z) : option (list Z) :=
  match tag, p with
  | [], _ => Some p
  | t :: tag, c :: p => if t =? c then after_tag tag p else None
  | _, _ => None
  end.
(** The type, the type to assume for parsing, and the rest; None is 0. *)
Definition data_types : list (list Z * Z * Z) :=
  [([34], REG_SZ, REG_SZ);
   ([115; 116; 114; 58; 34], REG_SZ, REG_SZ);
   ([115; 116; 114; 40; 50; 41; 58; 34], REG_EXPAND_SZ, REG_SZ);
   ([115; 116; 114; 40; 55; 41; 58; 34], REG_MULTI_SZ, REG_SZ);
   ([104; 101; 120; 58], REG_BINARY, REG_BINARY);
   ([100; 119; 111; 114; 100; 58], REG_DWORD, REG_DWORD);
   ([104; 101; 120; 40], -1, REG_BINARY)].
Fixpoint find_data_type (types : list (list Z * Z * Z)) (buffer : list Z) : option (Z * Z * list Z) :=
  match types with
  | [] => None
  | (tag, type, parse_type) :: types =>
      match after_tag tag buffer with
      | None => find_data_type types buffer
      | Some rest =>
          if negb (type =? -1) then Some (type, parse_type, rest) else
          let '(n, rest) := strtoul rest in
          match after_tag [41; 58] rest with Some rest => Some (u32 n, parse_type, rest) | None => None end
      end
  end.
Definition get_data_type (buffer : list Z) : option (Z * Z * list Z) := find_data_type data_types buffer.

(** The bytes and what is left of the text, or None for an error. Every turn reads a digit. *)
Fixpoint parse_hex_loop (fuel : nat) (dest : list Z) (len : Z) (p : list Z) : option (list Z * list Z) :=
  if isxdigit (char_at p) then
    match fuel with
    | O => None
    | S fuel =>
        let '(val, rest) := strtoul p in
        if 0xff <? val then None
        else if len <=? Z.of_nat (length dest) then None
        else
          let p := skip_spaces rest in
          let p := match p with c :: q => if c =? 44 then q else p | [] => [] end in
          parse_hex_loop fuel (dest ++ [val]) len (skip_spaces p)
    end
  else Some (dest, p).
Definition parse_hex (len : Z) (buffer : list Z) : option (list Z * list Z) := parse_hex_loop (length buffer) [] len buffer.

Section values.
Context `{CaseMap}.

(** The index of the value and the rest of the line. *)
Definition parse_value_name (p : Z) (buffer : list Z) : L (option (Z * list Z)) :=
  ok ← get_file_tmp_space (2 * Z.of_nat (length buffer));
  if negb ok then mret None else
  tmplen ← gets ls_tmplen;
  let parsed :=
    if char_at buffer =? 64 then Some ([], tail buffer)
    else match parse_strW tmplen (tail buffer) 34 with
         | Some (name, r) => Some (removelast name, drop (Z.to_nat r) (tail buffer))
         | None => None
         end in
  match parsed with
  | None => mret None
  | Some (name, rest) =>
      match skip_spaces rest with
      | c :: rest =>
          if negb (c =? 61) then mret None else
          k ← lift (key_of p);
          f ← lift (access (find_value k name));
          let '(found, index) := f in
          ok ← (if found : bool then mret true else lift (insert_value p name index));
          mret (if negb ok then None else Some (index, skip_spaces rest))
      | [] => mret None
      end
  end.

(** One turn of the loop over the lines of a hex value, [again] for the next line. An error
    has a flag that tells whether it leaves the value as it is. *)
Definition load_hex_turn (again : list Z → list Z → L (list Z + bool)) (data buffer : list Z) : L (list Z + bool) :=
  let maxlen := 1 + Z.of_nat (length buffer) / 2 in
  ok ← get_file_tmp_space (Z.of_nat (length data) + maxlen);
  if negb ok then mret (inr true) else
  match parse_hex maxlen buffer with
  | None => mret (inr false)
  | Some (bytes, buffer) =>
      match skip_spaces buffer with
      | [] => mret (inl (data ++ bytes))
      | c :: _ =>
          if negb (c =? 92) then mret (inr false) else
          n ← read_next_line;
          if negb (n =? 1) then mret (inr false) else
          line ← gets ls_buffer; again (data ++ bytes) (skip_spaces line)
      end
  end.
(** Every turn that goes on reads a line; [fuel] is the size of the file. *)
Fixpoint load_hex (fuel : nat) : list Z → list Z → L (list Z + bool) :=
  load_hex_turn (match fuel with O => λ _ _, no_fuel | S fuel => load_hex fuel end).

Definition store_value (p index type : Z) (data : option (list Z)) : R unit :=
  k ← key_of p;
  v ← access (array_get (k_values k) index);
  values ← access (array_set (k_values k) index (KeyValue (kv_name v) type (Z.of_nat (length (default [] data))) data));
  update_key p (λ k, with_values (k_last_value k) (k_nb_values k) values k).

(** The data of each kind. *)
Definition parse_data (parse_type : Z) (buffer : list Z) : L (list Z + bool) :=
  if parse_type =? REG_SZ then
    ok ← get_file_tmp_space (2 * Z.of_nat (length buffer));
    if negb ok then mret (inr true) else
    tmplen ← gets ls_tmplen;
    mret (match parse_strW tmplen buffer 34 with Some (str, _) => inl (name_bytes str) | None => inr false end)
  else if parse_type =? REG_DWORD then mret (inl (dword_bytes (u32 (fst (strtoul buffer)))))
  else file ← gets ls_file; load_hex (length file) [] buffer.

Definition load_value (p : Z) (buffer : list Z) : L bool :=
  n ← parse_value_name p buffer;
  match n with
  | None => mret false
  | Some (index, buffer) =>
      match get_data_type buffer with
      | None => _ ← lift (store_value p index 0 None); mret false
      | Some (type, parse_type, buffer) =>
          data ← parse_data parse_type buffer;
          match data with
          | inr keep => _ ← (if keep : bool then mret tt else lift (store_value p index 0 None)); mret false
          | inl data =>
              ok ← (if truth (Z.of_nat (length data)) then lift mem_alloc_ok else mret true);
              if negb ok then mret false else
              _ ← lift (store_value p index type (if truth (Z.of_nat (length data)) then Some data else None));
              mret true
          end
      end
  end.
End values.
