(* ===== verification/RegNumbers.v ===== *)
(** * Numbers and hex data in registry files *)

From S2P Require Import Prelude.
From S2P Require Import Atoms.
From S2P Require Import RegStrings.
From S2P Require Import RegStringsSpec.
From S2P Require Import RegKeys.
From S2P Require Import RegTouch.
From S2P Require Import RegFile.

(** ** [strtoul] reads what [printf] wrote *)

Lemma xdigit_not_space c : isxdigit c = true → isspace c = false.
Proof. unfold isspace, isxdigit, isdigit. intros Hc. lia. Qed.
Lemma skip_digit p : isxdigit (char_at p) = true → skip_spaces p = p.
Proof. destruct p as [|c p]; [done|]. simpl. intros Hc. by rewrite (xdigit_not_space c Hc). Qed.

Lemma take_xdigits_spec p : ∀ n rest, forallb isxdigit p = true → isxdigit (char_at rest) = false →
  take_xdigits (p ++ rest) n = (number 16 n p, rest).
Proof.
  induction p as [|c p IH]; intros n rest Hp Hrest; simpl in *.
  - destruct rest as [|c rest]; [done|]. simpl in *. by rewrite Hrest.
  - apply andb_true_iff in Hp as [Hc Hp]. rewrite Hc. by apply IH.
Qed.
(** What may follow a number: no digit, and no x after a zero. *)
Definition stops (rest : list Z) : Prop := isxdigit (char_at rest) = false ∧ char_at rest ≠ 120 ∧ char_at rest ≠ 88.

Lemma strtoul_digits p rest : forallb isxdigit p = true → p ≠ [] → stops rest → number 16 0 p < 2 ^ 64 →
  strtoul (p ++ rest) = (number 16 0 p, rest).
Proof.
  intros Hp Hne (Hrest & Hx & HX) Hn. unfold strtoul. destruct p as [|z p]; [done|]. cbn [app].
  pose proof Hp as Hz. cbn [forallb] in Hz. apply andb_true_iff in Hz as [Hz Hp'].
  rewrite skip_digit by done. 
  assert (z ≠ 45 ∧ z ≠ 43) as [H45 H43] by (unfold isxdigit, isdigit in Hz; lia).
  rewrite (proj2 (Z.eqb_neq z 45)), (proj2 (Z.eqb_neq z 43)) by done. cbv iota.
  assert (∀ q, p ++ rest = q → match q with
     | x :: d :: q' => if (z =? 48) && ((x =? 120) || (x =? 88)) && isxdigit d then d :: q' else z :: q
     | _ => z :: q end = z :: p ++ rest) as Hpre.
  { intros q <-. destruct p as [|x p]; cbn [app].
    - destruct rest as [|x [|d rest]]; try done. cbn [char_at] in *. rewrite (proj2 (Z.eqb_neq x 120)), (proj2 (Z.eqb_neq x 88)) by done.
      by rewrite andb_false_r.
    - cbn [forallb] in Hp'. apply andb_true_iff in Hp' as [Hxd _].
      assert (x ≠ 120 ∧ x ≠ 88) as [? ?] by (unfold isxdigit, isdigit in Hxd; lia).
      rewrite (proj2 (Z.eqb_neq x 120)), (proj2 (Z.eqb_neq x 88)) by done. rewrite andb_false_r. simpl. by destruct (p ++ rest). }
  rewrite (Hpre (p ++ rest) eq_refl). cbn [char_at]. rewrite Hz.
  change (z :: p ++ rest) with ((z :: p) ++ rest). rewrite take_xdigits_spec by done.
  by rewrite (proj2 (Z.leb_gt _ _)) by done.
Qed.
Lemma strtoul_print width n rest : 0 ≤ n < 2 ^ 32 → stops rest → strtoul (print_number 16 width n ++ rest) = (n, rest).
Proof.
  intros Hn Hs. destruct (print_number_plain 16 isxdigit ltac:(lia) hex_digit width n ltac:(lia)) as (P1 & P2 & P3 & _).
  rewrite strtoul_digits by (done || (rewrite P2; lia)). by rewrite P2.
Qed.
Lemma print_hex_start width n rest : 0 ≤ n < 2 ^ 32 → isxdigit (char_at (print_number 16 width n ++ rest)) = true.
Proof.
  intros Hn. destruct (print_number_plain 16 isxdigit ltac:(lia) hex_digit width n ltac:(lia)) as (P1 & _ & P3 & _).
  destruct (print_number 16 width n); [done|]. simpl in *. by apply andb_true_iff in P1 as [? _].
Qed.

(** ** Bytes *)

Definition byte (b : Z) : Prop := 0 ≤ b < 256.

Lemma name_bytes_wchars data : Forall byte data → Nat.Even (length data) → name_bytes (wchars data) = data ∧ Forall wchar (wchars data).
Proof.
  remember (length data) as n eqn:En. revert data En. induction n as [n IH] using lt_wf_ind. intros [|lo [|hi data]] En Hb He; simpl in En.
  - done.
  - subst n. destruct He as [m Hm]. lia.
  - apply list.Forall_cons in Hb as [Hlo Hb]. apply list.Forall_cons in Hb as [Hhi Hb]. unfold byte in *.
    destruct (IH (length data) ltac:(lia) data eq_refl Hb) as [I1 I2]; [subst n; destruct He as [m Hm]; exists (m - 1)%nat; lia|].
    cbn [wchars]. unfold name_bytes in *. cbn [flat_map app]. rewrite I1. split.
    + change 255 with (Z.ones 8). rewrite Z.land_ones, Z.shiftr_div_pow2 by lia. f_equal; [|f_equal]; Z.to_euclidean_division_equations; lia.
    + constructor; [unfold wchar; lia|done].
Qed.
Lemma wchars_app d1 d2 : Nat.Even (length d1) → wchars (d1 ++ d2) = wchars d1 ++ wchars d2.
Proof.
  remember (length d1) as n eqn:En. revert d1 En. induction n as [n IH] using lt_wf_ind. intros [|lo [|hi d1]] En He; simpl in En.
  - done.
  - subst n. destruct He as [m Hm]. lia.
  - simpl. f_equal. apply (IH (length d1)); [lia|done|]. subst n. destruct He as [m Hm]. exists (m - 1)%nat. lia.
Qed.
Lemma wchars_length d : Nat.Even (length d) → Z.of_nat (length (wchars d)) = Z.of_nat (length d) / 2.
Proof.
  remember (length d) as n eqn:En. revert d En. induction n as [n IH] using lt_wf_ind. intros [|lo [|hi d]] En He; simpl in En.
  - by subst.
  - subst n. destruct He as [m Hm]. lia.
  - simpl length. rewrite Nat2Z.inj_succ, (IH (length d) ltac:(lia) d eq_refl); [Z.to_euclidean_division_equations; lia|].
    subst n. destruct He as [m Hm]. exists (m - 1)%nat. lia.
Qed.
Lemma dword_roundtrip data : Forall byte data → length data = 4%nat → 0 ≤ read_dword data < 2 ^ 32 ∧ dword_bytes (read_dword data) = data.
Proof.
  intros Hb Hl. destruct data as [|a [|b [|c [|d [|? ?]]]]]; try done. rewrite !list.Forall_cons in Hb. unfold byte in Hb.
  destruct Hb as (Ha & Hb & Hc & Hd & _). unfold read_dword. cbn [foldr]. split; [lia|]. unfold dword_bytes. cbn [fmap list_fmap].
  change 0xff with (Z.ones 8). rewrite !Z.land_ones, !Z.shiftr_div_pow2 by lia.
  repeat f_equal; Z.to_euclidean_division_equations; lia.
Qed.

(** ** Hex data *)

(** Bytes separated by commas, and what [dump_hex] makes of them. *)
Fixpoint hex_join (d : list Z) : list Z :=
  match d with [] => [] | [b] => print_number 16 2 b | b :: d => print_number 16 2 b ++ 44 :: hex_join d end.
Fixpoint hex_text (data : list Z) (count : Z) : list Z :=
  match data with
  | [] => []
  | b :: rest =>
      let count := count + Z.of_nat (length (print_number 16 2 b)) in
      print_number 16 2 b ++
      match rest with
      | [] => []
      | _ => 44 :: (if 76 <? count + 1 then [92; 10; 32; 32] ++ hex_text rest 2 else hex_text rest (count + 1))
      end
  end.
Lemma wp_fprint t Q s : wp (fprint t) Q s ↔ Q (Z.of_nat (length t)) (DumpState (ds_file s ++ t) (ds_buffer s)).
Proof. done. Qed.
Lemma dump_hex_ok data : ∀ count s, wp (dump_hex data count) (λ _ s', s' = DumpState (ds_file s ++ hex_text data count) (ds_buffer s)) s.
Proof.
  induction data as [|b rest IH]; intros count s; cbn [dump_hex hex_text].
  { rewrite wp_ret, app_nil_r. by destruct s. }
  rewrite wp_bind, wp_fprint. cbv zeta. destruct rest as [|b2 rest].
  { rewrite wp_ret. by rewrite app_nil_r. }
  rewrite wp_bind, wp_fprint. destruct (76 <? _).
  - rewrite wp_bind, wp_fprint. eapply wp_mono; [apply IH|]. intros ? s' ->. simpl ds_file. simpl ds_buffer.
    f_equal. rewrite <- !app_assoc. done.
  - eapply wp_mono; [apply IH|]. intros ? s' ->. simpl ds_file. simpl ds_buffer. f_equal. rewrite <- !app_assoc. done.
Qed.
(** The first line of a hex text, and the lines that follow. *)
Lemma hex_text_lines data : ∀ count, data ≠ [] → ∃ d1 d2, data = d1 ++ d2 ∧ d1 ≠ [] ∧
  hex_text data count = hex_join d1 ++ match d2 with [] => [] | _ => [44; 92; 10; 32; 32] ++ hex_text d2 2 end.
Proof.
  induction data as [|b rest IH]; intros count Hne; [done|]. cbn [hex_text]. destruct rest as [|b2 rest].
  { exists [b], []. split_and!; [done|done|]. by rewrite !app_nil_r. }
  destruct (76 <? _).
  - exists [b], (b2 :: rest). done.
  - destruct (IH (count + Z.of_nat (length (print_number 16 2 b)) + 1)) as (d1 & d2 & E & Hd1 & ->); [done|].
    exists (b :: d1), d2. rewrite E. split_and!; [done|done|]. destruct d1 as [|x d1]; [done|]. cbn [hex_join]. by rewrite <- app_assoc.
Qed.

Lemma hex_join_length d : Forall byte d → (length d ≤ length (hex_join d))%nat ∧ Z.of_nat (length d) ≤ 1 + Z.of_nat (length (hex_join d)) / 2.
Proof.
  induction 1 as [|b d Hb Hd [IH1 IH2]]; [simpl; split; [lia|done]|]. unfold byte in Hb.
  destruct (print_number_plain 16 isxdigit ltac:(lia) hex_digit 2 b ltac:(lia)) as (_ & _ & _ & P4 & _).
  destruct d as [|x d]; [simpl; split; [lia|]; Z.to_euclidean_division_equations; lia|].
  change (hex_join (b :: x :: d)) with (print_number 16 2 b ++ 44 :: hex_join (x :: d)). rewrite length_app.
  set (h := hex_join (x :: d)) in *. cbn [length] in *. split; [lia|]. Z.to_euclidean_division_equations; lia.
Qed.
Lemma hex_join_start b d rest : byte b → isxdigit (char_at (hex_join (b :: d) ++ rest)) = true.
Proof. intros Hb. unfold byte in Hb. destruct d; cbn [hex_join]; rewrite <- ?app_assoc; apply print_hex_start; lia. Qed.

(** After the last byte of a line there is nothing, or a comma and a backslash. *)
Lemma parse_hex_loop_join stop len d : ∀ fuel dest, (stop = [] ∨ stop = [44; 92]) →
  Forall byte d → d ≠ [] → (length d ≤ fuel)%nat → Z.of_nat (length dest + length d) ≤ len →
  parse_hex_loop fuel dest len (hex_join d ++ stop) = Some (dest ++ d, match stop with [] => [] | _ => [92] end).
Proof.
  induction d as [|b d IH]; intros fuel dest Hstop Hb Hne Hfuel Hlen; [done|]. destruct fuel as [|fuel]; [simpl in Hfuel; lia|].
  apply list.Forall_cons in Hb as [Hb Hd]. cbn [parse_hex_loop]. rewrite hex_join_start by done. unfold byte in Hb. cbn [length] in Hlen, Hfuel.
  assert (∀ rest, stops rest → strtoul (print_number 16 2 b ++ rest) = (b, rest)) as Hstr by (intros; apply strtoul_print; [lia|done]).
  destruct d as [|x d].
  - cbn [hex_join]. rewrite Hstr by (destruct Hstop as [->| ->]; done).
    rewrite (proj2 (Z.ltb_ge _ _)), (proj2 (Z.leb_gt _ _)) by lia. destruct Hstop as [->| ->]; destruct fuel; done.
  - cbn [hex_join]. rewrite <- app_assoc. cbn [app]. rewrite Hstr by done.
    rewrite (proj2 (Z.ltb_ge _ _)), (proj2 (Z.leb_gt _ _)) by lia.
    change (skip_spaces (44 :: hex_join (x :: d) ++ stop)) with (44 :: hex_join (x :: d) ++ stop).
    change (44 =? 44) with true. cbv iota. pose proof Hd as Hd'. apply list.Forall_cons in Hd' as [Hx _].
    rewrite skip_digit by by apply hex_join_start. rewrite IH; [by rewrite <- app_assoc|done|done|done|cbn [length] in *; lia|rewrite length_app; cbn [length] in *; lia].
Qed.
Lemma parse_hex_join stop d : (stop = [] ∨ stop = [44; 92]) → Forall byte d → d ≠ [] →
  parse_hex (1 + Z.of_nat (length (hex_join d ++ stop)) / 2) (hex_join d ++ stop) = Some (d, match stop with [] => [] | _ => [92] end).
Proof.
  intros Hstop Hd Hne. unfold parse_hex. destruct (hex_join_length d Hd) as [L1 L2]. rewrite parse_hex_loop_join; [done|done|done|done|rewrite length_app; lia|].
  simpl. rewrite length_app. etrans; [exact L2|]. apply Z.add_le_mono_l, Z.div_le_mono; lia.
Qed.

(** * Lines of registry files *)

(** No allocation fails any more. *)
Definition memory_left (r : registry) : Prop := false ∉ r_allocs r.
(** A step that only uses up allocations of the registry. *)
Definition used_memory (r r' : registry) : Prop :=
  r_keys r' = r_keys r ∧ r_error r' = r_error r ∧ r_now r' = r_now r ∧ r_next r' = r_next r ∧ r_events r' = r_events r ∧
  r_allocs r' `suffix_of` r_allocs r.
#[export] Instance used_memory_preorder : PreOrder used_memory.
Proof.
  split; [intros r; split_and!; try done; by exists []|]. intros r1 r2 r3 (?&?&?&?&?&?) (?&?&?&?&?&?). split_and!; try congruence. by etrans.
Qed.
Lemma memory_left_suffix r r' : r_allocs r' `suffix_of` r_allocs r → memory_left r → memory_left r'.
Proof. intros [l Hl] Hm Hf. apply Hm. rewrite Hl. apply elem_of_app. by right. Qed.
Lemma memory_left_used r r' : used_memory r r' → memory_left r → memory_left r'.
Proof. intros (_&_&_&_&_&Hs). by apply memory_left_suffix. Qed.

Lemma wp_lift {A} (m : R A) Q s : wp (lift m) Q s ↔ wp m (λ a r, Q a (with_registry r s)) (ls_registry s).
Proof. unfold wp, lift. by destruct (m (ls_registry s)). Qed.
Lemma malloc_ok_spec r : memory_left r → wp malloc_ok (λ b r', b = true ∧ used_memory r r') r.
Proof.
  intros Hm. unfold wp, malloc_ok. destruct (r_allocs r) as [|[] l] eqn:E; simpl.
  - split; [done|]. split_and!; try done. rewrite E. by exists [].
  - split; [done|]. split_and!; try done. rewrite E. by exists [true].
  - destruct Hm. rewrite E. by left.
Qed.
Lemma mem_alloc_ok_true r : memory_left r → wp mem_alloc_ok (λ b r', b = true ∧ used_memory r r') r.
Proof.
  intros Hm. unfold mem_alloc_ok. rewrite wp_bind. eapply wp_mono; [by apply malloc_ok_spec|]. intros b r' [-> Hr].
  rewrite wp_bind, wp_when. simpl. by rewrite wp_ret.
Qed.

Lemma get_file_tmp_space_spec size s : memory_left (ls_registry s) →
  wp (get_file_tmp_space size) (λ b s', b = true ∧ used_memory (ls_registry s) (ls_registry s') ∧
    s' = LoadState (ls_registry s') (ls_file s) (ls_buffer s) (ls_len s) (ls_tmplen s') ∧ size ≤ ls_tmplen s' ∧ ls_tmplen s ≤ ls_tmplen s') s.
Proof.
  intros Hm. unfold get_file_tmp_space. rewrite wp_bind, wp_gets. unfold id. destruct (Z.leb_spec size (ls_tmplen s)).
  - rewrite wp_ret. split_and!; [done|done|by destruct s|done|done].
  - rewrite wp_bind, wp_lift. eapply wp_mono; [by apply malloc_ok_spec|]. intros b r' [-> Hr]. cbn [negb].
    rewrite wp_bind, wp_modify, wp_ret. simpl. split_and!; [done|done|done|lia|lia].
Qed.

(** ** Reading a line *)

Definition plain (l : list Z) : Prop := 10 ∉ l.
Lemma fgets_line n l rest : plain l → fgets n (l ++ 10 :: rest) =
  if (length l <? n)%nat then (l ++ [10], rest) else (take n l, drop n l ++ 10 :: rest).
Proof.
  revert l. induction n as [|n IH]; intros l Hl; [done|]. destruct l as [|c l]; [done|]. cbn [fgets app].
  apply not_elem_of_cons in Hl as [Hc Hl]. rewrite (proj2 (Z.eqb_neq c 10)), IH by (done || lia).
  change (length (c :: l) <? S n)%nat with (length l <? n)%nat. by destruct (_ <? _)%nat.
Qed.
Lemma last_plain l : plain l → last l 0 ≠ 10.
Proof.
  intros Hl E. destruct l as [|c l] using rev_ind; [done|]. rewrite last_last in E. subst. apply Hl, elem_of_app. right. by left.
Qed.

Lemma read_loop_line rest : ∀ fuel l pos s,
  plain (pos ++ l) → last (pos ++ l) 0 ≠ 13 → (length l < fuel)%nat → ls_file s = l ++ 10 :: rest → memory_left (ls_registry s) →
  2 ≤ ls_len s → Z.of_nat (length pos) < ls_len s - 1 →
  wp (read_loop fuel pos) (λ n s', n = 1 ∧ used_memory (ls_registry s) (ls_registry s') ∧
    s' = LoadState (ls_registry s') rest (pos ++ l) (ls_len s') (ls_tmplen s) ∧ ls_len s ≤ ls_len s') s.
Proof.
  induction fuel as [|fuel IH]; intros l pos s Hl H13 Hfuel Hfile Hm Hlen Hpos; [lia|]. cbn [read_loop].
  pose proof Hl as [Hlp Hll]%not_elem_of_app. rewrite wp_bind, wp_gets. unfold id. rewrite Hfile, fgets_line by done.
  remember (Z.to_nat (ls_len s - Z.of_nat (length pos) - 1)) as n eqn:En.
  destruct (Nat.ltb_spec (length l) n) as [Hfit|Hlong].
  - rewrite bool_decide_false by (by destruct l). rewrite wp_bind, wp_modify. rewrite app_assoc, last_last, removelast_last.
    change (10 =? 10) with true. cbv iota zeta. rewrite (proj2 (Z.eqb_neq _ _)) by done. rewrite wp_bind, wp_modify, wp_ret. simpl.
    split_and!; [done|reflexivity|done|done].
  - assert (take n l ≠ []) as Hne by (destruct l; [simpl in *; lia|destruct n; [lia|done]]).
    rewrite bool_decide_false by done. rewrite wp_bind, wp_modify.
    assert (plain (pos ++ take n l)) as Hplain.
    { intros Hin. apply Hl. rewrite <- (take_drop n l), app_assoc. apply elem_of_app. by left. }
    rewrite (proj2 (Z.eqb_neq _ _)) by by apply last_plain.
    assert (length (pos ++ take n l) = Z.to_nat (ls_len s - 1)) as Ht by (rewrite length_app, length_take; lia).
    simpl ls_len. rewrite (proj2 (Z.ltb_ge _ _)) by lia. rewrite wp_bind, wp_lift. simpl ls_registry.
    eapply wp_mono; [by apply malloc_ok_spec|]. intros b r' [-> Hr]. cbn [negb]. rewrite wp_bind, wp_modify. simpl.
    eapply wp_mono; [apply (IH (drop n l) (pos ++ take n l))|]; simpl.
    + by rewrite <- app_assoc, take_drop.
    + by rewrite <- app_assoc, take_drop.
    + rewrite length_drop. lia.
    + done.
    + by eapply memory_left_used.
    + rewrite Z.quot_div_nonneg by lia. Z.to_euclidean_division_equations; lia.
    + rewrite Z.quot_div_nonneg by lia. Z.to_euclidean_division_equations; lia.
    + intros x s' (-> & Hr' & -> & Hge). simpl in *. split_and!; [done|by etrans|by rewrite <- app_assoc, take_drop|].
      rewrite Z.quot_div_nonneg in Hge by lia. Z.to_euclidean_division_equations; lia.
Qed.
(** A line that does not end in a carriage return is read as it is, however long it is. *)
Lemma read_next_line_spec l rest s : plain l → last l 0 ≠ 13 → ls_file s = l ++ 10 :: rest → memory_left (ls_registry s) → 2 ≤ ls_len s →
  wp read_next_line (λ n s', n = 1 ∧ used_memory (ls_registry s) (ls_registry s') ∧
    s' = LoadState (ls_registry s') rest l (ls_len s') (ls_tmplen s) ∧ ls_len s ≤ ls_len s') s.
Proof.
  intros Hl H13 Hfile Hm Hlen. unfold read_next_line. rewrite wp_bind, wp_gets. unfold id.
  apply (read_loop_line rest (length (ls_file s)) l []); try done; [rewrite Hfile, length_app; simpl; lia|simpl; lia].
Qed.

(** * The text of a value *)

Implicit Types (v : key_value).

Definition data v : list Z := default [] (kv_data v).
Definition name_text v : list Z :=
  if decide (kv_name v = []) then [64; 61] else 34 :: dump_text (34, 34) (kv_name v) ++ [34; 61].
(** A string ends in a zero. *)
Definition is_string v : bool :=
  ((kv_type v =? REG_SZ) || (kv_type v =? REG_EXPAND_SZ) || (kv_type v =? REG_MULTI_SZ)) && negb (kv_len v <? 2) &&
  negb (truth (kv_len v mod 2)) && negb (truth (default 1 (array_get (wchars (data v)) (kv_len v / 2 - 1)))).
Definition is_dword v : bool := (kv_type v =? REG_DWORD) && (kv_len v =? 4).
Definition string_tag v : list Z :=
  if kv_type v =? REG_SZ then [] else [115; 116; 114; 40] ++ print_number 16 0 (kv_type v) ++ [41; 58].
Definition hex_tag v : list Z :=
  if kv_type v =? REG_BINARY then [104; 101; 120; 58] else [104; 101; 120; 40] ++ print_number 16 0 (kv_type v) ++ [41; 58].
Definition data_text v : list Z :=
  if is_string v then string_tag v ++ 34 :: dump_text (34, 34) (wchars (take (Z.to_nat (kv_len v - 2)) (data v))) ++ [34]
  else if is_dword v then [100; 119; 111; 114; 100; 58] ++ print_number 16 8 (read_dword (data v))
  else hex_tag v ++ hex_text (data v) (Z.of_nat (length (name_text v ++ hex_tag v))).
Definition value_text v : list Z := name_text v ++ data_text v ++ [10].

(** The type fits 32 bits, names have 16-bit characters and data are bytes. *)
Definition storable v : Prop := 0 ≤ kv_type v < 2 ^ 32 ∧ Forall wchar (kv_name v) ∧ Forall byte (data v) ∧ kv_len v = Z.of_nat (length (data v)).

Lemma is_string_even v : storable v → is_string v = true → Nat.Even (length (data v)) ∧ 2 ≤ kv_len v ∧
  (kv_type v = 1 ∨ kv_type v = 2 ∨ kv_type v = 7) ∧ array_get (wchars (data v)) (kv_len v / 2 - 1) = Some 0.
Proof.
  intros (_ & _ & _ & Hl). unfold is_string, truth, REG_SZ, REG_EXPAND_SZ, REG_MULTI_SZ.
  rewrite !andb_true_iff, !orb_true_iff, !negb_involutive, negb_true_iff, !Z.eqb_eq, Z.ltb_ge. intros [[[Ht Hl2] Hm] Hz].
  split_and!; [|done|tauto|].
  - exists (Z.to_nat (kv_len v / 2)). Z.to_euclidean_division_equations; lia.
  - destruct (array_get _ _) as [z|] eqn:E; simpl in Hz; [by subst|done].
Qed.
(** The data of a string: characters and the zero. *)
Lemma string_data v : storable v → is_string v = true →
  let str := wchars (take (Z.to_nat (kv_len v - 2)) (data v)) in
  Forall wchar str ∧ name_bytes (str ++ [0]) = data v.
Proof.
  intros Hv Hs. pose proof Hv as (_ & _ & Hb & Hl). destruct (is_string_even v Hv Hs) as (He & H2 & _ & Hz).
  set (d := take (Z.to_nat (kv_len v - 2)) (data v)).
  assert (length d = (length (data v) - 2)%nat) as Hd by (unfold d; rewrite length_take; lia).
  assert (Nat.Even (length d)) as Hed by (rewrite Hd; destruct He as [m Hm]; exists (m - 1)%nat; lia).
  assert (Forall byte d) as Hbd by by apply Forall_take.
  destruct (name_bytes_wchars d Hbd Hed) as [N1 N2]. split; [done|].
  assert (∃ lo hi, data v = d ++ [lo; hi]) as (lo & hi & E).
  { exists (default 0 (data v !! (length (data v) - 2)%nat)), (default 0 (data v !! (length (data v) - 1)%nat)).
    unfold d. rewrite <- (take_drop (Z.to_nat (kv_len v - 2)) (data v)) at 1. f_equal.
    apply list_eq. intros [|[|i]]; rewrite lookup_drop.
    - replace (Z.to_nat (kv_len v - 2) + 0)%nat with (length (data v) - 2)%nat by lia. simpl.
      destruct (lookup_lt_is_Some_2 (data v) (length (data v) - 2)%nat) as [x ->]; [lia|done].
    - replace (Z.to_nat (kv_len v - 2) + 1)%nat with (length (data v) - 1)%nat by lia. simpl.
      destruct (lookup_lt_is_Some_2 (data v) (length (data v) - 1)%nat) as [x ->]; [lia|done].
    - simpl. apply lookup_ge_None_2. lia. }
  rewrite E in Hz, Hb. rewrite wchars_app in Hz by done. rewrite list.Forall_app, !list.Forall_cons in Hb. unfold byte in Hb.
  assert (Z.of_nat (length (wchars d)) = kv_len v / 2 - 1) as Hw.
  { rewrite wchars_length, Hd by done. Z.to_euclidean_division_equations; lia. }
  rewrite <- Hw in Hz. unfold array_get in Hz. rewrite (proj2 (Z.leb_le _ _)), Nat2Z.id in Hz by lia.
  change (wchars [lo; hi]) with [lo + 256 * hi] in Hz. rewrite list_lookup_middle in Hz by done. injection Hz as Hz. assert (lo = 0 ∧ hi = 0) as [-> ->] by lia.
  unfold name_bytes in *. rewrite flat_map_app, N1, E. done.
Qed.

(** ** Writing it *)

Lemma dump_value_ok v file : storable v → wp (dump_value v) (λ _ s', s' = DumpState (file ++ value_text v) []) (DumpState file []).
Proof.
  intros Hv. pose proof Hv as (_ & Hn & Hb & _). unfold dump_value. fold (data v). rewrite wp_bind.
  eapply wp_mono; [instantiate (1 := λ count s, s = DumpState (file ++ name_text v) [] ∧ count = Z.of_nat (length (name_text v)))|].
  { unfold name_text, truth. destruct (decide (kv_name v = [])) as [E|Hne]; [rewrite E; simpl; by rewrite wp_fprint|].
    rewrite (proj2 (Z.eqb_neq _ _)) by (destruct (kv_name v); [done|simpl; lia]). cbn [negb].
    rewrite wp_bind, wp_fprint, wp_bind. eapply wp_mono; [apply dump_strW_ok; [done|simpl; lia]|]. intros n s' [-> ->].
    rewrite wp_bind, wp_fprint, wp_ret. simpl. split; [by rewrite <- !app_assoc|]. rewrite length_app. simpl. lia. }
  intros count s [-> ->]. unfold value_text, data_text. fold (is_string v). destruct (is_string v) eqn:Hs.
  - rewrite wp_bind. eapply wp_mono; [instantiate (1 := λ _ s, s = DumpState ((file ++ name_text v) ++ string_tag v) [])|].
    { unfold string_tag. destruct (kv_type v =? REG_SZ); cbn [negb]; [by rewrite wp_ret, app_nil_r|by rewrite wp_fprint]. }
    intros _ s ->. rewrite wp_bind, wp_fprint, wp_bind. eapply wp_mono; [apply dump_strW_ok; [by apply string_data|simpl; lia]|]. intros n s' [-> _].
    rewrite wp_bind, wp_fprint, wp_ret. simpl. f_equal. rewrite <- !app_assoc. cbn [app]. by rewrite <- !app_assoc.
  - fold (is_dword v). destruct (is_dword v).
    + rewrite wp_bind, wp_fprint, wp_ret. simpl. f_equal. rewrite <- !app_assoc. by cbn [app].
    + rewrite wp_bind. eapply wp_mono; [instantiate (1 := λ n s, s = DumpState ((file ++ name_text v) ++ hex_tag v) [] ∧ n = Z.of_nat (length (hex_tag v)))|].
      { unfold hex_tag. by destruct (kv_type v =? REG_BINARY); rewrite wp_fprint. }
      intros n s [-> ->]. rewrite wp_bind. eapply wp_mono; [apply dump_hex_ok|]. intros _ s' ->. rewrite wp_bind, wp_fprint, wp_ret. simpl.
      f_equal. rewrite length_app, Nat2Z.inj_add, <- !app_assoc. done.
Qed.

(** ** Printable texts *)

Definition printable (l : list Z) : Prop := Forall (λ b, 32 ≤ b) l.
Lemma printable_plain l : printable l → plain l ∧ last l 0 ≠ 13.
Proof.
  intros Hl. split.
  - intros Hin. eapply list.Forall_forall in Hl; [|exact Hin]. simpl in Hl. lia.
  - destruct l as [|c l] using rev_ind; [done|]. rewrite last_last. apply list.Forall_app in Hl as [_ Hl].
    apply list.Forall_cons in Hl as [Hc _]. lia.
Qed.
Lemma printable_number base width n : 2 ≤ base ≤ 16 → 0 ≤ n < base ^ 32 → printable (print_number base width n).
Proof.
  intros Hbase Hn.
  destruct (print_number_plain base (λ c, 32 <=? c) ltac:(lia)) with (width := width) (n := n) as (P & _); [|done|].
  - intros d Hd. unfold digit. split; [destruct (Z.ltb_spec d 10); lia|]. destruct (hex_digit d ltac:(lia)) as [_ E]. exact E.
  - apply list.Forall_forall. intros b Hb. rewrite forallb_forall in P. apply Z.leb_le, P. by apply list_elem_of_In.
Qed.
Lemma printable_dump_text escape str : Forall wchar str → printable (dump_text escape str).
Proof.
  induction 1 as [|c next Hc _ IH]; [constructor|]. simpl. apply list.Forall_app. split; [|done]. unfold dump_char, wchar in *.
  assert (∀ w, printable (print_number 16 w c)) as H16 by (intros; apply printable_number; lia).
  assert (∀ w, printable (print_number 8 w c)) as H8 by (intros; apply printable_number; lia).
  assert (Forall (λ e, 32 ≤ e) escapes) as Hesc by (repeat constructor; lia).
  destruct (127 <? c); [case_match; apply list.Forall_app; (split; [repeat constructor; lia|apply H16])|].
  destruct (Z.ltb_spec c 32).
  - cbv zeta. destruct (negb _).
    + constructor; [lia|]. constructor; [|constructor]. destruct (nth_in_or_default (Z.to_nat c) escapes 46) as [Hin| ->]; [|lia].
      rewrite list.Forall_forall in Hesc. apply Hesc. by apply list_elem_of_In.
    + case_match; apply list.Forall_app; (split; [repeat constructor; lia|apply H8]).
  - case_match; repeat constructor; lia.
Qed.
Lemma printable_hex_join d : Forall byte d → printable (hex_join d).
Proof.
  induction 1 as [|b d Hb Hd IH]; [constructor|]. unfold byte in Hb.
  assert (printable (print_number 16 2 b)) as Hp by (apply printable_number; lia). destruct d as [|x d]; [done|].
  change (hex_join (b :: x :: d)) with (print_number 16 2 b ++ 44 :: hex_join (x :: d)). apply list.Forall_app. split; [done|]. constructor; [lia|done].
Qed.
Lemma printable_name_text v : storable v → printable (name_text v).
Proof.
  intros (_ & Hn & _). unfold name_text. destruct (decide _); [repeat constructor; lia|]. constructor; [lia|]. apply list.Forall_app.
  split; [by apply printable_dump_text|repeat constructor; lia].
Qed.
Lemma printable_tags v : storable v → printable (string_tag v) ∧ printable (hex_tag v).
Proof.
  intros (Ht & _). assert (printable (print_number 16 0 (kv_type v))) as Hp by (apply printable_number; lia).
  split; unfold string_tag, hex_tag; case_match; repeat (apply list.Forall_app; split); try (repeat constructor; lia); done.
Qed.
