(* ===== verification/RegFileSpec.v ===== *)
(** * A value is loaded as it was saved *)

From stdpp Require Import sorting.
From S2P Require Import Prelude.
From S2P Require Import Atoms.
From S2P Require Import AtomsInv.
From S2P Require Import RegStrings.
From S2P Require Import RegStringsSpec.
From S2P Require Import RegKeys.
From S2P Require Import RegArrays.
From S2P Require Import RegTouch.
From S2P Require Import RegValueSpec.
From S2P Require Import RegFile.
From S2P Require Import RegNumbers.

(** ** Hex data over several lines *)

Lemma line_unique l1 l2 r1 r2 : plain l1 → plain l2 → l1 ++ 10 :: r1 = l2 ++ 10 :: r2 → l1 = l2 ∧ r1 = r2.
Proof.
  revert l2. induction l1 as [|c l1 IH]; intros [|c2 l2] H1 H2 E.
  - by injection E.
  - injection E as <- _. destruct H2. by left.
  - injection E as -> _. destruct H1. by left.
  - injection E as -> E. apply not_elem_of_cons in H1 as [_ H1]. apply not_elem_of_cons in H2 as [_ H2]. by destruct (IH l2 H1 H2 E) as [-> ->].
Qed.

(** [load_hex], on the first line of the text, yields the data and leaves the rest. *)
Lemma load_hex_spec rest fuel : ∀ d d0 count buffer s,
  Forall byte d → (length (ls_file s) ≤ fuel)%nat → plain buffer → hex_text d count ++ 10 :: rest = buffer ++ 10 :: ls_file s →
  memory_left (ls_registry s) → 2 ≤ ls_len s →
  wp (load_hex fuel d0 buffer) (λ res s', res = inl (d0 ++ d) ∧ used_memory (ls_registry s) (ls_registry s') ∧ ls_file s' = rest ∧
    ls_len s ≤ ls_len s' ∧ ls_tmplen s ≤ ls_tmplen s') s.
Proof.
  induction fuel as [fuel IH] using lt_wf_ind. intros d d0 count buffer s Hd Hfuel Hb Htext Hm Hlen.
  assert (load_hex fuel d0 buffer = load_hex_turn (match fuel with O => λ _ _, no_fuel | S fuel => load_hex fuel end) d0 buffer) as -> by by destruct fuel.
  unfold load_hex_turn. rewrite wp_bind. eapply wp_mono; [by apply get_file_tmp_space_spec|]. intros b1 s1 (-> & U1 & -> & _ & T1). cbn [negb].
  destruct (decide (d = [])) as [->|Hne].
  { destruct (line_unique [] buffer rest (ls_file s)) as [<- Hrest]; [apply not_elem_of_nil|done|done|].
    simpl. rewrite wp_ret, app_nil_r. by split_and!. }
  destruct (hex_text_lines d count Hne) as (d1 & d2 & E & Hne1 & Et). rewrite Et in Htext. clear Et.
  assert (Forall byte d1 ∧ Forall byte d2) as [Hd1 Hd2] by (by rewrite E, list.Forall_app in Hd).
  pose proof (proj1 (printable_plain _ (printable_hex_join d1 Hd1))) as Hp1.
  destruct d2 as [|x d2].
  - rewrite app_nil_r in Htext, E. apply line_unique in Htext as [<- Hrest]; [|done|done]. subst d1.
    pose proof (parse_hex_join [] d (or_introl eq_refl) Hd Hne) as Hparse. rewrite app_nil_r in Hparse. rewrite Hparse.
    cbn [skip_spaces]. rewrite wp_ret. by split_and!.
  - assert (buffer = hex_join d1 ++ [44; 92] ∧ ls_file s = [32; 32] ++ hex_text (x :: d2) 2 ++ 10 :: rest) as [-> Hfile].
    { destruct (line_unique (hex_join d1 ++ [44; 92]) buffer ([32; 32] ++ hex_text (x :: d2) 2 ++ 10 :: rest) (ls_file s)); [|done| |done].
      - unfold plain in *. rewrite elem_of_app. intros [?|Hin]; [done|]. rewrite !elem_of_cons in Hin. destruct Hin as [?|[?|Hin]]; [done..|by apply elem_of_nil in Hin].
      - rewrite <- Htext, <- !app_assoc. cbn [app]. by rewrite <- ?app_assoc. }
    rewrite (parse_hex_join [44; 92] d1) by (done || by right). change (skip_spaces [92]) with [92]. cbv iota.
    change (92 =? 92) with true. cbn [negb].
    assert (∃ line more, plain line ∧ last line 0 ≠ 13 ∧ hex_text (x :: d2) 2 ++ 10 :: rest = line ++ 10 :: more ∧ isxdigit (char_at line) = true) as (line & more & Hline & H13 & Hmore & Hstart).
    { destruct (hex_text_lines (x :: d2) 2 ltac:(done)) as (e1 & e2 & Ee & Hne2 & ->). rewrite Ee, list.Forall_app in Hd2. destruct Hd2 as [He1 _].
      pose proof (printable_plain _ (printable_hex_join e1 He1)) as [Q1 Q2]. destruct e1 as [|y e1]; [done|]. apply list.Forall_cons in He1 as [Hy _].
      destruct e2 as [|z e2].
      - exists (hex_join (y :: e1)), rest. split_and!; [done|done|by rewrite app_nil_r|]. pose proof (hex_join_start y e1 [] Hy) as Hs. by rewrite app_nil_r in Hs.
      - exists (hex_join (y :: e1) ++ [44; 92]), ([32; 32] ++ hex_text (z :: e2) 2 ++ 10 :: rest). split_and!.
        + unfold plain in *. rewrite elem_of_app. intros [?|Hin]; [done|]. rewrite !elem_of_cons in Hin. destruct Hin as [?|[?|Hin]]; [done..|by apply elem_of_nil in Hin].
        + change [44; 92] with ([44] ++ [92]). by rewrite app_assoc, last_last.
        + rewrite <- !app_assoc. cbn [app]. by rewrite <- ?app_assoc.
        + by apply hex_join_start. }
    rewrite Hmore in Hfile. rewrite wp_bind. assert (length more < fuel)%nat as Hless by (rewrite Hfile, !length_app in Hfuel; simpl in Hfuel; lia).
    eapply wp_mono; [apply (read_next_line_spec ([32; 32] ++ line) more)|]; simpl.
    + unfold plain. rewrite !not_elem_of_cons. done.
    + destruct line; [done|]. exact H13.
    + exact Hfile.
    + by eapply memory_left_used.
    + done.
    + intros n s2 (-> & U2 & -> & L2). simpl in *. rewrite wp_bind, wp_gets. simpl ls_buffer. cbn [skip_spaces]. change (isspace 32) with true. cbv iota.
      rewrite skip_digit by done. destruct fuel as [|fuel]; [lia|]. eapply wp_mono; [apply (IH fuel ltac:(lia) (x :: d2) (d0 ++ d1) 2 line)|]; simpl.
      * done.
      * lia.
      * done.
      * done.
      * eapply memory_left_used; [exact U2|]. by eapply memory_left_used.
      * lia.
      * intros r s3 (-> & U3 & F3 & L3 & T3). rewrite E, <- app_assoc. simpl in *. split_and!; [done|by etrans; [|etrans]|done|lia|lia].
Qed.

Section load.
Context `{CaseMap}.
Implicit Types (p : Z) (k : key) (v : key_value) (r : registry).

(** ** The name *)

(** The key [k] at [p] has become [k'], with a value of this name at [index]. *)
Definition has_value r p k (name : list Z) (index : Z) r' : Prop := ∃ k' l1 v0 l2 more,
  became r p k k' r' ∧ r_error r' = r_error r ∧ index = Z.of_nat (length l1) ∧
  k_values k' = l1 ++ v0 :: l2 ++ more ∧ used k' = l1 ++ v0 :: l2 ∧
  fold_name (kv_name v0) = fold_name name ∧ kv_name v0 = spelling (value_map k) name ∧
  delete (fold_name name) (value_map k') = delete (fold_name name) (value_map k).

Lemma find_or_insert_spec p k name r : r_keys r !! p = Some k → values_ok k → Z.of_nat (length name) ≤ MAX_VALUE_LEN → memory_left r →
  ∃ b i, find_value k name = Some (b, i) ∧
    wp (if b : bool then mret true else insert_value p name i) (λ ok r', ok = true ∧ has_value r p k name i r') r.
Proof.
  intros Hk Hok Hlen Hm. destruct (find_value_spec k name Hok) as (b & i & Hf & Hloc); [unfold short, MAX_VALUE_LEN in *; lia|].
  exists b, i. split; [done|]. destruct b.
  - apply map_of_found in Hloc as (l1 & v & l2 & Hu & -> & Hn). destruct (used_split k Hok) as [more Hv].
    rewrite Hu, <- app_assoc in Hv. cbn [app] in Hv. destruct (value_map_found k l1 v l2 name Hok Hu Hn) as [_ Hsp].
    rewrite wp_ret. split; [done|]. exists k, l1, v, l2, more. split_and!; try done. by apply became_refl.
  - apply map_of_located in Hloc as (Hnone & l1 & l2 & Hu & -> & H1 & H2).
    eapply wp_mono; [by apply (insert_value_spec p k l1 l2)|]. intros b r' (k' & Hb & Hr'). destruct b.
    + split; [done|]. destruct Hr' as (He & _ & t & more & Hv & Hu'). exists k', l1, (KeyValue name t 0 None), l2, more.
      split_and!; try done; [unfold spelling; unfold value_map; by rewrite Hnone|].
      unfold value_map. rewrite Hu', Hu. rewrite map_of_middle by by apply before_other. simpl. by rewrite delete_insert_eq.
    + destruct Hr' as (_ & [[_ Hbad]|[_ Hf']]); [lia|]. by destruct Hm.
Qed.

Lemma became_used_memory r r1 p k k' r' : used_memory r r1 → became r1 p k k' r' → became r p k k' r'.
Proof. intros (K&_&N&_&_&S) (K1&O&V&N1&S1). split_and!; [by rewrite K1, K|done|done|congruence|by etrans]. Qed.
Lemma has_value_used_memory r r1 p k name i r' : used_memory r r1 → has_value r1 p k name i r' → has_value r p k name i r'.
Proof.
  intros Hu (k' & l1 & v0 & l2 & more & Hb & He & Hrest). exists k', l1, v0, l2, more. split; [by eapply became_used_memory|].
  split; [|done]. destruct Hu as (_ & E & _). congruence.
Qed.

Lemma parse_value_name_spec p k v line s : registry_ok (ls_registry s) → r_keys (ls_registry s) !! p = Some k →
  value_ok v → storable v → memory_left (ls_registry s) →
  wp (parse_value_name p (name_text v ++ line)) (λ x s', ∃ i, x = Some (i, skip_spaces line) ∧
    has_value (ls_registry s) p k (kv_name v) i (ls_registry s') ∧
    s' = LoadState (ls_registry s') (ls_file s) (ls_buffer s) (ls_len s) (ls_tmplen s')) s.
Proof.
  intros Hr Hk (Hlen & _) (_ & Hn & _) Hm. pose proof (proj2 Hr p k Hk) as Hok. unfold parse_value_name. rewrite wp_bind.
  eapply wp_mono; [by apply get_file_tmp_space_spec|]. intros b s1 (-> & U1 & -> & T1 & _). cbn [negb]. rewrite wp_bind, wp_gets.
  simpl ls_tmplen. set (parsed := if char_at _ =? 64 then _ else _).
  assert (parsed = Some (kv_name v, 61 :: line)) as ->.
  { unfold parsed. revert T1. unfold name_text. destruct (decide (kv_name v = [])) as [E|Hne]; intros T1; [by rewrite E|]. cbn [app char_at tail]. change (34 =? 64) with false. cbv iota.
    rewrite <- app_assoc. cbn [app]. pose proof (dump_text_length (34, 34) 34 _ Hn (or_introl (conj eq_refl eq_refl))) as Hl.
    rewrite (parse_dump_text (34, 34) 34); [|done|by left|].
    - rewrite removelast_last. do 2 f_equal. replace (Z.to_nat _) with (S (length (dump_text (34, 34) (kv_name v)))) by lia.
      rewrite drop_app_ge by lia. by replace (S _ - _)%nat with 1%nat by lia.
    - cbn [app length] in T1. rewrite !length_app in T1. cbn [length ls_tmplen] in T1. lia. }
  change (skip_spaces (61 :: line)) with (61 :: line). cbv iota. change (61 =? 61) with true. cbn [negb].
  pose proof U1 as (K1 & _). rewrite wp_bind, wp_lift. simpl ls_registry. rewrite (key_of_spec p (ls_registry s1) k) by by rewrite K1.
  destruct (find_or_insert_spec p k (kv_name v) (ls_registry s1)) as (b & i & Hf & Hins); [by rewrite K1|done|done|by eapply memory_left_used|].
  rewrite wp_bind, wp_lift, Hf, wp_access. cbv zeta iota beta. rewrite wp_bind.
  assert (∀ Q s0, wp (if b then mret true else lift (insert_value p (kv_name v) i)) Q s0 ↔ wp (lift (if b then mret true else insert_value p (kv_name v) i)) Q s0) as Hlift.
  { intros Q s0. destruct b; [|done]. rewrite wp_lift, !wp_ret. by destruct s0. }
  rewrite Hlift, wp_lift. simpl ls_registry. eapply wp_mono; [exact Hins|]. intros ok r' [-> Hval]. cbn [negb]. rewrite wp_ret. exists i.
  split; [done|]. split; [|done]. by eapply has_value_used_memory.
Qed.

(** ** The data *)

(** [line] is the first line of the text of the data, and [file] what follows it. *)
Definition data_line v (rest line file : list Z) : Prop := data_text v ++ 10 :: rest = line ++ 10 :: file ∧ plain line.

Lemma single_line t rest line file : printable t → t ++ 10 :: rest = line ++ 10 :: file → plain line → line = t ∧ file = rest.
Proof. intros Ht E Hl. destruct (line_unique t line rest file) as [-> ->]; [by apply printable_plain|done|done|done]. Qed.
Lemma plain_prefix t x line file : printable t → t ++ x = line ++ 10 :: file → plain line → ∃ b, line = t ++ b ∧ x = b ++ 10 :: file ∧ plain b.
Proof.
  intros Ht. revert line. induction Ht as [|c t Hc Ht IH]; intros line E Hline; [by exists line|].
  destruct line as [|c' line]; [injection E as -> _; lia|]. injection E as -> E.
  apply not_elem_of_cons in Hline as [_ Hline]. destruct (IH line E Hline) as (b & -> & ?). by exists b.
Qed.
Lemma used_memory_post (s s1 : load_state) : used_memory (ls_registry s) (ls_registry s1) → 2 ≤ ls_len s → ls_len s ≤ ls_len s1 →
  used_memory (ls_registry s) (ls_registry s1) ∧ 2 ≤ ls_len s1.
Proof. intros. split; [done|lia]. Qed.

Lemma parse_string v rest line s : storable v → is_string v = true → data_line v rest line (ls_file s) → memory_left (ls_registry s) → 2 ≤ ls_len s →
  ∃ buffer, skip_spaces line = line ∧ get_data_type line = Some (kv_type v, REG_SZ, buffer) ∧
    wp (parse_data REG_SZ buffer) (λ res s', res = inl (data v) ∧ used_memory (ls_registry s) (ls_registry s') ∧ ls_file s' = rest ∧ 2 ≤ ls_len s') s.
Proof.
  intros Hv Hs [E Hline] Hm Hlen. unfold data_text in E. rewrite Hs in E. destruct (string_data v Hv Hs) as [Hw Hb].
  set (str := wchars (take (Z.to_nat (kv_len v - 2)) (data v))) in *.
  assert (printable (string_tag v ++ 34 :: dump_text (34, 34) str ++ [34])) as Hp.
  { apply list.Forall_app. split; [apply (proj1 (printable_tags v Hv))|]. constructor; [lia|]. apply list.Forall_app.
    split; [by apply printable_dump_text|repeat constructor; lia]. }
  destruct (single_line _ _ _ _ Hp E Hline) as [-> Hrest].
  exists (dump_text (34, 34) str ++ [34]).
  assert (kv_type v = 1 ∨ kv_type v = 2 ∨ kv_type v = 7) as Ht by by apply is_string_even.
  split; [unfold string_tag; by destruct Ht as [->|[->| ->]]|]. split; [unfold string_tag; by destruct Ht as [->|[->| ->]]|].
  unfold parse_data. change (REG_SZ =? REG_SZ) with true. cbv iota. rewrite wp_bind.
  eapply wp_mono; [by apply get_file_tmp_space_spec|]. intros b s1 (-> & U1 & -> & T1 & _). cbn [negb]. rewrite wp_bind, wp_gets, wp_ret. simpl in T1 |- *.
  rewrite (parse_dump_text (34, 34) 34 str []); [by rewrite Hb|done|by left|].
  pose proof (dump_text_length (34, 34) 34 str Hw (or_introl (conj eq_refl eq_refl))) as Hl. rewrite length_app in T1. cbn [length] in T1. lia.
Qed.

Lemma parse_dword v rest line s : storable v → is_string v = false → is_dword v = true → data_line v rest line (ls_file s) → 2 ≤ ls_len s →
  ∃ buffer, skip_spaces line = line ∧ get_data_type line = Some (kv_type v, REG_DWORD, buffer) ∧
    wp (parse_data REG_DWORD buffer) (λ res s', res = inl (data v) ∧ used_memory (ls_registry s) (ls_registry s') ∧ ls_file s' = rest ∧ 2 ≤ ls_len s') s.
Proof.
  intros Hv Hs Hdw [E Hline] Hlen. unfold data_text in E. rewrite Hs, Hdw in E. pose proof Hv as (_ & _ & Hb & Hl).
  unfold is_dword in Hdw. apply andb_true_iff in Hdw as [Ht%Z.eqb_eq H4%Z.eqb_eq].
  destruct (dword_roundtrip (data v) Hb ltac:(lia)) as [Hr Hd].
  assert (printable ([100; 119; 111; 114; 100; 58] ++ print_number 16 8 (read_dword (data v)))) as Hp.
  { apply list.Forall_app. split; [repeat constructor; lia|apply printable_number; lia]. }
  destruct (single_line _ _ _ _ Hp E Hline) as [-> Hrest].
  exists (print_number 16 8 (read_dword (data v))). split; [done|]. split; [by rewrite Ht|].
  unfold parse_data. change (REG_DWORD =? REG_SZ) with false. change (REG_DWORD =? REG_DWORD) with true. cbv iota. rewrite wp_ret.
  rewrite <- (app_nil_r (print_number 16 8 _)), strtoul_print by done. cbn [fst]. rewrite u32_small, Hd by done. split_and!; [done|reflexivity|done|done].
Qed.

Lemma hex_tag_type v rest : storable v → get_data_type (hex_tag v ++ rest) = Some (kv_type v, REG_BINARY, rest).
Proof.
  intros (Ht & _). unfold hex_tag. destruct (Z.eqb_spec (kv_type v) REG_BINARY) as [->|_]; [done|].
  rewrite <- !app_assoc. unfold get_data_type, data_types. cbn [find_data_type after_tag app]. 
  change (34 =? 104) with false. change (115 =? 104) with false. change (100 =? 104) with false. change (104 =? 104) with true.
  change (101 =? 101) with true. change (120 =? 120) with true. change (58 =? 40) with false. change (40 =? 40) with true. cbv iota.
  change (-1 =? -1) with true. cbn [negb]. rewrite strtoul_print by done. cbn [after_tag]. change (41 =? 41) with true. change (58 =? 58) with true. cbv iota.
  by rewrite u32_small.
Qed.
Lemma parse_hex_value v rest line s : storable v → is_string v = false → is_dword v = false → data_line v rest line (ls_file s) → memory_left (ls_registry s) → 2 ≤ ls_len s →
  ∃ buffer, skip_spaces line = line ∧ get_data_type line = Some (kv_type v, REG_BINARY, buffer) ∧
    wp (parse_data REG_BINARY buffer) (λ res s', res = inl (data v) ∧ used_memory (ls_registry s) (ls_registry s') ∧ ls_file s' = rest ∧ 2 ≤ ls_len s') s.
Proof.
  intros Hv Hs Hdw [E Hline] Hm Hlen. unfold data_text in E. rewrite Hs, Hdw in E. pose proof Hv as (_ & _ & Hb & _).
  generalize dependent (Z.of_nat (length (name_text v ++ hex_tag v))). intros count E. destruct (printable_tags v Hv) as [_ Htag].
  assert (∃ buffer, line = hex_tag v ++ buffer ∧ hex_text (data v) count ++ 10 :: rest = buffer ++ 10 :: ls_file s ∧ plain buffer) as (buffer & -> & Eb & Hpb).
  { rewrite <- app_assoc in E. by apply plain_prefix. }
  exists buffer. split; [unfold hex_tag; by destruct (kv_type v =? REG_BINARY)|]. split; [by apply hex_tag_type|].
  unfold parse_data. change (REG_BINARY =? REG_SZ) with false. change (REG_BINARY =? REG_DWORD) with false. cbv iota. rewrite wp_bind, wp_gets.
  eapply wp_mono; [by apply (load_hex_spec rest _ (data v) [] count buffer s)|].
  intros res s' (-> & U & F & L1 & _). split_and!; [done|done|done|lia].
Qed.


(** Whatever its type, the data come back. *)
Lemma parse_data_spec v rest line s : storable v → data_line v rest line (ls_file s) → memory_left (ls_registry s) → 2 ≤ ls_len s →
  ∃ parse_type buffer, skip_spaces line = line ∧ get_data_type line = Some (kv_type v, parse_type, buffer) ∧
    wp (parse_data parse_type buffer) (λ res s', res = inl (data v) ∧ used_memory (ls_registry s) (ls_registry s') ∧ ls_file s' = rest ∧ 2 ≤ ls_len s') s.
Proof.
  intros Hv Hd Hm Hlen. destruct (is_string v) eqn:Hs; [exists REG_SZ; by apply parse_string|].
  destruct (is_dword v) eqn:Hdw; [exists REG_DWORD; by apply parse_dword|]. exists REG_BINARY. by apply parse_hex_value.
Qed.

(** ** A whole value *)

Lemma store_value_spec p k l1 v0 l2 more type d r : r_keys r !! p = Some k → values_ok k → k_values k = l1 ++ v0 :: l2 ++ more → used k = l1 ++ v0 :: l2 →
  wp (store_value p (Z.of_nat (length l1)) type (data_of d)) (λ _ r', ∃ k', became r p k k' r' ∧ r_error r' = r_error r ∧
    value_map k' = <[fold_name (kv_name v0) := (kv_name v0, type, d)]> (value_map k)) r.
Proof.
  intros Hk Hok Hv Hu. assert (default [] (data_of d) = d) as Hd by (unfold data_of, truth; by destruct d).
  unfold store_value. rewrite wp_bind, (key_of_spec p r k) by done. rewrite wp_bind, Hv, array_get_app, wp_access, wp_bind, array_set_app, wp_access.
  rewrite (update_key_spec p _ r k), Hd by done. destruct (replaced_ok k l1 v0 l2 more type d Hok Hv Hu) as [Hok' Hmap].
  eexists. split; [|by split; [|exact Hmap]]. split_and!; [done|by eexists _, _, _|done|done|by exists []].
Qed.

(** The key with the value added. *)
Definition loaded r p k v r' : Prop := ∃ k', became r p k k' r' ∧ r_error r' = r_error r ∧
  value_map k' = <[fold_name (kv_name v) := (spelling (value_map k) (kv_name v), kv_type v, data v)]> (value_map k).

Lemma load_value_spec p k v rest line s : registry_ok (ls_registry s) → r_keys (ls_registry s) !! p = Some k → value_ok v → storable v →
  memory_left (ls_registry s) → 2 ≤ ls_len s → value_text v ++ rest = line ++ 10 :: ls_file s → plain line →
  wp (load_value p line) (λ b s', b = true ∧ loaded (ls_registry s) p k v (ls_registry s') ∧ ls_file s' = rest ∧ 2 ≤ ls_len s') s.
Proof.
  intros Hr Hk Hv Hs Hm Hlen E Hline. unfold value_text in E. rewrite <- !app_assoc in E. cbn [app] in E.
  destruct (plain_prefix _ _ _ _ (printable_name_text v Hs) E Hline) as (dline & -> & Ed & Hdl). pose proof (conj Ed Hdl : data_line v rest dline (ls_file s)) as Hdata.
  unfold load_value. rewrite wp_bind. eapply wp_mono; [by apply (parse_value_name_spec p k v dline s)|].
  intros x s1 (i & -> & (k1 & l1 & v0 & l2 & more & Hb & He & -> & Hv1 & Hu1 & Hn & Hsp & Hdel) & E1). cbv beta iota.
  destruct (parse_data_spec v rest dline s1 Hs) as (type & buffer & Hskip & Htype & Hparse).
  { by rewrite E1. }
  { eapply memory_left_suffix; [apply Hb|done]. }
  { by rewrite E1. }
  rewrite Hskip, Htype, wp_bind. eapply wp_mono; [exact Hparse|]. clear Hparse. intros res s2 (-> & U2 & F2 & L2). cbv beta iota.
  destruct (became_ok _ _ _ _ _ Hk Hr Hb) as (Hr1 & Hk1 & _). pose proof U2 as (K2 & E2 & _ & _ & _ & _). pose proof (proj2 Hr1 p k1 Hk1) as Hok1.
  assert (wp (if truth (Z.of_nat (length (data v))) then lift mem_alloc_ok else mret true)
    (λ b s3, b = true ∧ used_memory (ls_registry s2) (ls_registry s3) ∧ s3 = with_registry (ls_registry s3) s2) s2) as Halloc.
  { destruct (truth _); [|rewrite wp_ret; split_and!; [done|done|by destruct s2]]. rewrite wp_lift.
    eapply wp_mono; [apply mem_alloc_ok_true|by intros b r' [-> ?]]. eapply memory_left_used; [done|]. eapply memory_left_suffix; [apply Hb|done]. }
  rewrite wp_bind. eapply wp_mono; [exact Halloc|]. intros b s3 (-> & U3 & E3). cbn [negb]. pose proof U3 as (K3 & Er3 & _).
  rewrite wp_bind, wp_lift. eapply wp_mono; [apply (store_value_spec p k1 l1 v0 l2 more); [by rewrite K3, K2|done..]|].
  intros _ r' (k' & Hb' & Er' & Hmap). rewrite wp_ret. rewrite E3. simpl. split; [done|]. split; [|done].
  exists k'. split; [|split; [congruence|]].
  - eapply became_trans; [exact Hb|]. eapply became_used_memory; [exact U2|]. by eapply became_used_memory.
  - rewrite Hmap, <- Hsp, Hn. rewrite <- (insert_delete_eq (value_map k1)), Hdel, insert_delete_eq. done.
Qed.

(** ** Saved and loaded *)

Lemma first_line v rest : storable v → ∃ line more, printable line ∧ value_text v ++ rest = line ++ 10 :: more.
Proof.
  intros Hv. pose proof (printable_name_text v Hv) as Hn. destruct (printable_tags v Hv) as [Hst Hht]. pose proof Hv as (_ & _ & Hb & _).
  assert (∃ line more, printable line ∧ data_text v ++ 10 :: rest = line ++ 10 :: more) as (line & more & Hline & E).
  { unfold data_text. destruct (is_string v) eqn:Hs.
    - eexists _, rest. split; [|done]. apply list.Forall_app. split; [done|]. constructor; [lia|]. apply list.Forall_app.
      split; [by apply printable_dump_text, string_data|repeat constructor; lia].
    - destruct (is_dword v) eqn:Hd.
      + eexists _, rest. split; [|done]. apply list.Forall_app. split; [repeat constructor; lia|]. unfold is_dword in Hd.
        apply andb_true_iff in Hd as [_ H4%Z.eqb_eq]. destruct Hv as (_ & _ & _ & Hl).
        destruct (dword_roundtrip (data v) Hb ltac:(lia)) as [Hr _]. apply printable_number; lia.
      + generalize (Z.of_nat (length (name_text v ++ hex_tag v))). intros count.
        destruct (decide (data v = [])) as [->|Hne]; [exists (hex_tag v), rest; split; [done|by rewrite <- app_assoc]|].
        destruct (hex_text_lines (data v) count Hne) as (d1 & d2 & Ed & _ & ->). rewrite Ed in Hb. apply list.Forall_app in Hb as [Hd1 _].
        pose proof (printable_hex_join d1 Hd1) as Hp. destruct d2 as [|x d2].
        * exists (hex_tag v ++ hex_join d1), rest. split; [by apply list.Forall_app|by rewrite app_nil_r].
        * exists (hex_tag v ++ hex_join d1 ++ [44; 92]), ([32; 32] ++ hex_text (x :: d2) 2 ++ 10 :: rest). split.
          -- apply list.Forall_app. split; [done|]. apply list.Forall_app. split; [done|repeat constructor; lia].
          -- rewrite <- !app_assoc. cbn [app]. by rewrite <- ?app_assoc. }
  exists (name_text v ++ line), more. split; [by apply list.Forall_app|]. unfold value_text. rewrite <- !app_assoc. cbn [app]. by rewrite E.
Qed.

(** C29: a value that [dump_value] has written, whatever its name, type and data are, is read back
    by [read_next_line] and [load_value]: the key maps the name to the same type and data
    afterwards, nothing else changes in the key, and the file is left where the text of the
    value ends. *)
Theorem dumped_value_loads p k v file rest : value_ok v → storable v →
  wp (dump_value v) (λ _ d, ∀ s, registry_ok (ls_registry s) → r_keys (ls_registry s) !! p = Some k → memory_left (ls_registry s) → 2 ≤ ls_len s →
      file ++ ls_file s = ds_file d ++ rest →
      wp (n ← read_next_line; line ← gets ls_buffer; b ← load_value p line; mret (n, b))
        (λ res s', res = (1, true) ∧ loaded (ls_registry s) p k v (ls_registry s') ∧ ls_file s' = rest) s) (DumpState file []).
Proof.
  intros Hv Hs. eapply wp_mono; [by apply dump_value_ok|]. intros _ d -> s Hr Hk Hm Hlen E. simpl in E. rewrite <- app_assoc in E. apply app_inv_head in E.
  destruct (first_line v rest Hs) as (line & more & Hline & El). destruct (printable_plain line Hline) as [Hp H13].
  rewrite wp_bind. eapply wp_mono; [apply (read_next_line_spec line more); [done|done|congruence|done..]|].
  intros n s1 (-> & U & E1 & L1). rewrite wp_bind, wp_gets, wp_bind. pose proof U as (K1 & Er1 & _).
  pose proof (f_equal ls_file E1) as EF. pose proof (f_equal ls_buffer E1) as EB. clear E1. simpl in EF, EB. rewrite EB.
  eapply wp_mono; [apply (load_value_spec p k v rest)|].
  - destruct Hr as [H1 H2]. split; [unfold rooted in *; by rewrite K1|by rewrite K1].
  - by rewrite K1.
  - done.
  - done.
  - by eapply memory_left_used.
  - lia.
  - by rewrite EF.
  - done.
  - intros b s2 (-> & (k' & Hb & Er2 & Hmap) & F2 & _). rewrite wp_ret. split; [done|]. split; [|done]. exists k'.
    split; [by eapply became_used_memory|]. split; [congruence|done].
Qed.
End load.
