(* ===== verification/RegWitness.v ===== *)
(** * A concrete registry

    Two keys, on which the theorems about values apply. *)

From stdpp Require Import sorting.
From S2P Require Import Prelude.
From S2P Require Import Atoms.
From S2P Require Import AtomsInv.
From S2P Require Import AtomsHistory.
From S2P Require Import RegStrings.
From S2P Require Import RegStringsSpec.
From S2P Require Import RegKeys.
From S2P Require Import RegArrays.
From S2P Require Import RegTouch.
From S2P Require Import RegValueSpec.
From S2P Require Import RegValueHistory.
From S2P Require Import RegFile.
From S2P Require Import RegNumbers.
From S2P Require Import RegFileSpec.

(** The root 1 and its subkey 2, "k"; somebody waits for changes below the root. *)
Definition demo_root : key := Key 2 (Some [114]) None [] 0 8 (2 :: replicate 7 0) None (-1) 0 [] 0 0 [Notify [5] true 15 8 9].
Definition demo_key : key := Key 1 (Some [107]) (Some 1) [] (-1) 0 [] None (-1) 0 [] 0 0 [].
Definition demo_registry (allocs : list bool) : registry := Registry {[1 := demo_root; 2 := demo_key]} 3 allocs 77 0 [].

Lemma no_values_ok k : k_last_value k = -1 → k_nb_values k = 0 → k_values k = [] → values_ok k.
Proof.
  intros E1 E2 E3. assert (used k = []) as E by (unfold used; rewrite E1; done).
  split; rewrite ?E1, ?E2, ?E3, ?E; try done; [by left|constructor..].
Qed.
Lemma demo_registry_keys allocs p k : r_keys (demo_registry allocs) !! p = Some k → p = 1 ∧ k = demo_root ∨ p = 2 ∧ k = demo_key.
Proof.
  change (r_keys _) with ({[1 := demo_root; 2 := demo_key]} : gmap Z key).
  intros [[<- <-]|[_ [<- <-]%lookup_singleton_Some]]%lookup_insert_Some; auto.
Qed.
Lemma demo_registry_ok allocs : registry_ok (demo_registry allocs).
Proof.
  split; intros p k [[-> ->]|[-> ->]]%demo_registry_keys; [|..|by apply no_values_ok|by apply no_values_ok].
  - intros _. exists [1]. split; [done|]. by exists demo_root.
  - intros _. exists [2; 1]. split; [done|]. exists demo_key. split; [done|]. split; [done|]. split; [done|]. by exists demo_root.
Qed.

(** Names "b", "A", "B", "" and "z"; the eighth allocation fails, in the enumeration. *)
Definition demo_values : list value_op :=
  [SetValue 2 [98] REG_DWORD [1; 0; 0; 0]; SetValue 2 [65] REG_BINARY [9]; SetValue 2 [66] REG_BINARY [1; 2; 3]; SetValue 2 [] 0 [];
   GetValue 2 [66] 2; EnumValue 2 1 KeyValueFullInformation 5; DeleteValue 2 [97]; EnumValue 2 1 KeyValuePartialInformation 9;
   DeleteValue 2 [122]; EnumValue 2 2 KeyValuePartialInformation 9].
Lemma registry_values_refine_witness :
  let r := demo_registry (replicate 8 true ++ [false]) in
  registry_ok r ∧ Forall (op_ok r) demo_values ∧
  wp (run_value_ops demo_values) (λ rs r',
    rs = [(RDone, 0); (RDone, 0); (RDone, 0); (RDone, 0); (RValue (Some REG_BINARY, 3, [1; 2]), 0);
      (REnum (EnumValueReply REG_BINARY 3 2 [65; 0; 9]), 0); (RDone, 0); (REnum (EnumValueReply REG_BINARY 3 0 []), STATUS_NO_MEMORY);
      (RDone, STATUS_OBJECT_NAME_NOT_FOUND); (REnum (EnumValueReply 0 0 0 []), STATUS_NO_MORE_ENTRIES)] ∧
    registry_ok r' ∧ value_steps (false ∈ r_allocs r) (protections r) (contents r) demo_values rs (contents r')) r.
Proof.
  intros r. assert (registry_ok r) as Hr by apply demo_registry_ok.
  assert (∃ k, r_keys r !! 2 = Some k ∧ is_Some (k_name k)) as Hk by by exists demo_key.
  assert (Forall (op_ok r) demo_values) as Hops
    by (unfold demo_values; rewrite !list.Forall_cons, list.Forall_nil; split_and!; first [done|split; [exact Hk|simpl; unfold short; simpl; lia]]).
  split; [exact Hr|]. split; [exact Hops|].
  eapply wp_mono; [apply wp_conj; [|exact (registry_values_refine demo_values r Hr Hops)]|by intros rs r' H; exact H].
  vm_compute. reflexivity.
Defined.

(** A value with quotes in its name and 30 bytes of data, which take two lines. *)
Definition demo_value : key_value := KeyValue [34; 113; 34] 17 30 (Some (seqZ 1 30)).
Definition two_lines : list Z := [10; 97].
Example demo_value_text : length (filter (λ c, c = 10) (value_text demo_value)) = 2%nat.
Proof. vm_compute. reflexivity. Qed.
Lemma dumped_value_loads_witness :
  value_ok demo_value ∧ storable demo_value ∧
  wp (dump_value demo_value) (λ _ d,
    wp (n ← read_next_line; line ← gets ls_buffer; b ← load_value 2 line; mret (n, b))
      (λ res s', res = (1, true) ∧ loaded (demo_registry []) 2 demo_key demo_value (ls_registry s') ∧ ls_file s' = two_lines)
      (LoadState (demo_registry []) (drop 1 (ds_file d) ++ two_lines) [] 4 4)) (DumpState [59] []).
Proof.
  assert (value_ok demo_value) as Hv by done.
  assert (storable demo_value) as Hs by (split_and!; [done|done|repeat constructor; lia|repeat constructor; lia|done]).
  split; [exact Hv|]. split; [exact Hs|].
  eapply wp_mono; [apply wp_conj; [|exact (dumped_value_loads 2 demo_key demo_value [59] two_lines Hv Hs)]|].
  - instantiate (1 := λ _ d, ds_file d = 59 :: drop 1 (ds_file d)). vm_compute. reflexivity.
  - intros _ d [Hd H]. apply H; [apply demo_registry_ok|done|apply not_elem_of_nil|done|]. rewrite Hd. done.
Defined.
