(* ===== verification/RegTree.v ===== *)
(** * The tree of registry keys

    Names, subkeys and references: src/server/registry.c, with what it uses of
    src/server/object.c. Every object is a key here; what a path outside of the registry
    leads to is a parameter. *)

From S2P Require Import Prelude.
From S2P Require Import Atoms.
From S2P Require Import RegKeys.

Definition OBJ_OPENIF : Z := 0x80.
Definition OBJ_CASE_INSENSITIVE : Z := 0x40.
Definition OBJ_OPENLINK : Z := 0x100.
Definition OBJ_KEY_WOW64 : Z := 0x100000.
Definition REG_OPTION_VOLATILE : Z := 1.
Definition REG_OPTION_CREATE_LINK : Z := 2.
Definition STATUS_OBJECT_NAME_EXISTS : Z := 0x40000000.
Definition STATUS_OBJECT_NAME_COLLISION : Z := 0xc0000035.
Definition STATUS_OBJECT_PATH_SYNTAX_BAD : Z := 0xc000003b.

Definition backslash : Z := 92.
Definition has_attr (attr bit : Z) : bool := truth (Z.land attr bit).

(** The part of a path before the first backslash, and the rest. *)
Fixpoint path_element (path : list Z) : list Z * list Z :=
  match path with
  | [] => ([], [])
  | c :: rest => if c =? backslash then ([], path) else let '(e, rest) := path_element rest in (c :: e, rest)
  end.
Fixpoint skip_backslashes (path : list Z) : list Z :=
  match path with c :: rest => if c =? backslash then skip_backslashes rest else path | [] => [] end.

Definition grab_object (p : Z) : R unit :=
  k ← key_of p;
  _ ← c_assert (k_refcount k <? INT_MAX);
  update_key p (with_refcount (k_refcount k + 1)).

(** What [init_data] holds; the class is [classlen / sizeof(WCHAR)] characters. *)
Record key_init_data := KeyInitData { kd_modif : Z; kd_options : Z; kd_class : list Z }.

Section tree.
Context `{CaseMap}.

Definition wow6432node : list Z := [87; 111; 119; 54; 52; 51; 50; 78; 111; 100; 101].
Definition is_wow6432node (name : list Z) : bool :=
  let e := (path_element name).1 in
  (Z.of_nat (length e) =? 11) && negb (truth (memicmp_strW e wow6432node 11)).

(** ** Subkeys *)

(** Whether there is a subkey, and its index or where it belongs. *)
Definition find_subkey (k : key) (name : list Z) : R (bool * Z) :=
  m ← gets r_keys;
  access (search (Z.to_nat (k_last_subkey k + 1))
    (λ i, c ← array_get (k_subkeys k) i; kc ← m !! c; n ← k_name kc; Some (compare_names n name)) 0 (k_last_subkey k)).

Definition grow_subkeys (p : Z) : R bool :=
  k ← key_of p;
  if truth (k_nb_subkeys k) then
    let nb_subkeys := k_nb_subkeys k + k_nb_subkeys k ÷ 2 in
    ok ← malloc_ok;
    if negb ok then _ ← set_error STATUS_NO_MEMORY; mret false
    else _ ← update_key p (λ k, with_subkeys (k_last_subkey k) nb_subkeys (resize 0 nb_subkeys (k_subkeys k)) k); mret true
  else
    let nb_subkeys := MIN_SUBKEYS in
    ok ← mem_alloc_ok;
    if negb ok then mret false
    else _ ← update_key p (λ k, with_subkeys (k_last_subkey k) nb_subkeys (resize 0 nb_subkeys []) k); mret true.

(** Links the new key [p] into [parent]; the caller attaches the name to the key. *)
Definition key_link_name (p : Z) (name : list Z) (parent : Z) : R bool :=
  k ← key_of parent;
  ok ← (if k_last_subkey k + 1 =? k_nb_subkeys k then grow_subkeys parent else mret true);
  if negb ok then mret false else
  k ← key_of parent;
  f ← find_subkey k name;
  let index := snd f in
  let last := k_last_subkey k + 1 in
  subkeys ← access (shift_up (Z.to_nat (last - index)) last (k_subkeys k));
  _ ← grab_object p;
  subkeys ← access (array_set subkeys index p);
  _ ← update_key parent (λ k, with_subkeys last (k_nb_subkeys k) subkeys k);
  k ← key_of parent;
  parent_name ← access (k_name k);
  _ ← when (is_wow6432node name && negb (is_wow6432node parent_name)) (update_key parent (with_wow6432node (Some p)));
  mret true.

(** The index of the subkey [p], or one after the last. *)
Definition index_of (k : key) (p : Z) : option nat :=
  let used := take (Z.to_nat (k_last_subkey k + 1)) (k_subkeys k) in
  if Z.of_nat (length (k_subkeys k)) <? k_last_subkey k + 1 then None
  else Some (default (length used) (fst <$> list_find (λ c, c = p) used)).

(** The name of [p], whose parent was [parent], is no longer attached to it. *)
Definition key_unlink_name (release : Z → R unit) (p : Z) (parent : option Z) : R unit :=
  match parent with
  | None => mret tt
  | Some parent =>
      k ← key_of parent;
      i ← access (Z.of_nat <$> index_of k p);
      _ ← c_assert (i <=? k_last_subkey k);
      subkeys ← access (shift_down (Z.to_nat (k_last_subkey k - i)) i (k_subkeys k));
      _ ← update_key parent (λ k, with_subkeys (k_last_subkey k - 1) (k_nb_subkeys k) subkeys k);
      _ ← when (bool_decide (k_wow6432node k = Some p)) (update_key parent (with_wow6432node None));
      _ ← release p;
      k ← key_of parent;
      let nb_subkeys := k_nb_subkeys k in
      if (MIN_SUBKEYS <? nb_subkeys) && (k_last_subkey k <? nb_subkeys ÷ 2) then
        let nb_subkeys := nb_subkeys - nb_subkeys ÷ 3 in
        let nb_subkeys := if nb_subkeys <? MIN_SUBKEYS then MIN_SUBKEYS else nb_subkeys in
        ok ← malloc_ok;
        if negb ok then mret tt
        else update_key parent (λ k, with_subkeys (k_last_subkey k) nb_subkeys (resize 0 nb_subkeys (k_subkeys k)) k)
      else mret tt
  end.
Definition unlink_named_object (release : Z → R unit) (p : Z) : R unit :=
  k ← key_of p;
  match k_name k with
  | None => mret tt
  | Some _ =>
      _ ← update_key p (with_name None None);
      key_unlink_name release p (k_parent k)
  end.

(** ** References *)

Fixpoint do_notifications (l : list notify) : R unit :=
  match l with [] => mret tt | n :: l => _ ← do_notification_events n; do_notifications l end.
Fixpoint release_subkeys (release : Z → R unit) (l : list Z) : R unit :=
  match l with
  | [] => mret tt
  | c :: l =>
      kc ← key_of c;
      name ← access (k_name kc);
      _ ← update_key c (with_name (Some name) None);
      _ ← release c;
      release_subkeys release l
  end.
Definition key_destroy (release : Z → R unit) (p : Z) : R unit :=
  k ← key_of p;
  _ ← c_assert (k_last_value k <? Z.of_nat (length (k_values k)));
  subkeys ← access (if Z.of_nat (length (k_subkeys k)) <? k_last_subkey k + 1 then None
                    else Some (take (Z.to_nat (k_last_subkey k + 1)) (k_subkeys k)));
  _ ← release_subkeys release subkeys;
  do_notifications (k_notify_list k).
Definition free_object (p : Z) : R unit :=
  _ ← key_of p; modify (λ r, set_keys (delete p (r_keys r)) r).
(** [fuel] bounds the depth of the keys that go away. *)
Fixpoint release_object (fuel : nat) (p : Z) : R unit :=
  let release := match fuel with O => λ _, no_fuel | S fuel => release_object fuel end in
  k ← key_of p;
  _ ← c_assert (truth (k_refcount k));
  _ ← update_key p (with_refcount (k_refcount k - 1));
  if truth (k_refcount k - 1) then mret tt else
  _ ← unlink_named_object release p;
  _ ← key_destroy release p;
  free_object p.
(** At most all keys. *)
Definition release (p : Z) : R unit := r ← gets id; release_object (size (r_keys r)) p.

(** ** Lookup *)

(** Where a path of a symbolic link leads: a key and what is left of the path. *)
Definition lookup := list Z → R (option (Z * option (list Z))).

(** The subkey at [index] and the name after it. *)
Definition next_element (k : key) (index : Z) (next : list Z) (attr : Z) : R (option Z * option (option (list Z))) :=
  found ← access (array_get (k_subkeys k) index);
  if bool_decide (next = []) then _ ← grab_object found; mret (Some found, Some None) else
  kf ← key_of found;
  let found := match k_wow6432node kf with
    | Some w => if has_attr attr OBJ_KEY_WOW64 && negb (is_wow6432node next) then w else found
    | None => found end in
  _ ← grab_object found;
  mret (Some found, Some (Some next)).

(** The object to go on with, and the name left: None is the NULL pointer that stands for the
    empty path, Some None the NULL string after the last element. *)
Definition key_lookup_name (absolute : lookup) (p : Z) (name : option (option (list Z))) (attr : Z)
    : R (option Z * option (option (list Z))) :=
  k ← key_of p;
  match name with
  | None => mret (None, name)
  | Some str =>
      if has_flag k KEY_DELETED then _ ← set_error STATUS_KEY_DELETED; mret (None, name) else
      if has_flag k KEY_SYMLINK then
        let left := default [] str in
        if bool_decide (left = []) && has_attr attr OBJ_OPENLINK then mret (None, name) else
        f ← access (find_value k symlink_value);
        let '(found, index) := f in
        target ← (if found : bool then
                    v ← access (array_get (k_values k) index);
                    if kv_len v <? 2 then mret None else
                    target ← access (wchars <$> kv_data v);
                    if bool_decide (head target = Some backslash) then mret (Some target) else mret None
                  else mret None);
        match target with
        | None => _ ← set_error STATUS_OBJECT_NAME_NOT_FOUND; mret (None, name)
        | Some target =>
            l ← absolute target;
            match l with
            | None => mret (None, name)
            | Some (obj, name_left) =>
                if negb (bool_decide (left = [])) && negb (bool_decide (default [] name_left = [])) then
                  _ ← release obj; _ ← set_error STATUS_OBJECT_NAME_NOT_FOUND; mret (None, name)
                else
                let name := if bool_decide (left = []) then Some name_left else name in
                ko ← key_of obj;
                if has_flag ko KEY_WOWSHARE && has_attr attr OBJ_KEY_WOW64 && bool_decide (name = Some None) then
                  parent ← get_parent ko;
                  _ ← release obj;
                  parent ← access parent;
                  _ ← grab_object parent;
                  mret (Some parent, name)
                else mret (Some obj, name)
            end
        end
      else
      match str with
      | None => mret (None, name)
      | Some path =>
          let '(tmp, rest) := path_element path in
          if MAX_NAME_LEN <? Z.of_nat (length tmp) then _ ← set_error STATUS_INVALID_PARAMETER; mret (None, name) else
          let next := skip_backslashes rest in
          f ← find_subkey k tmp;
          let '(found, index) := f in
          if negb found && has_flag k KEY_WOWSHARE && has_attr attr OBJ_KEY_WOW64 then
            parent ← get_parent k;
            parent ← access parent;
            kp ← key_of parent;
            f ← find_subkey kp tmp;
            let '(found, index) := f in
            if found : bool then next_element kp index next attr
            else _ ← grab_object parent; mret (Some parent, name)
          else if found : bool then next_element k index next attr
          else
          if negb (bool_decide (next = [])) then _ ← set_error STATUS_OBJECT_NAME_NOT_FOUND; mret (None, name)
          else mret (None, Some (Some tmp))
      end
  end.

Fixpoint lookup_loop (absolute : lookup) (fuel : nat) (parent : Z) (name : option (option (list Z))) (attr : Z)
    : R (Z * option (list Z)) :=
  l ← key_lookup_name absolute parent name attr;
  let '(obj, name) := l in
  match obj with
  | None => mret (parent, default (Some []) name)
  | Some obj =>
      _ ← release parent;
      match fuel with O => no_fuel | S fuel => lookup_loop absolute fuel obj name attr end
  end.
(** Every turn of the loop shortens the path, or follows a link or a step to the 64-bit
    parent, which no turn does twice at one place. *)
Definition lookup_fuel (name : list Z) (r : registry) : nat := (length name + 2) * (size (r_keys r) + 2).
(** From the key [parent], of which the caller has a reference. *)
Definition lookup_from (absolute : lookup) (parent : Z) (name : option (option (list Z))) (attr : Z) : R (option (Z * option (list Z))) :=
  _ ← set_error 0;
  r ← gets id;
  l ← lookup_loop absolute (lookup_fuel (default [] (default None name)) r) parent name attr;
  e ← gets r_error;
  if truth e then _ ← release (fst l); mret None else mret (Some l).

(** The root key, in the directory of the same name, and the error of a lookup elsewhere.
    [recursion_count] is at most 32: [depth] is 33 less its value. *)
Context (root_key : Z) (lookup_other : list Z → Z).
Fixpoint lookup_absolute (depth : nat) (path : list Z) : R (option (Z * option (list Z))) :=
  match path with
  | c :: path =>
      if negb (c =? backslash) then _ ← set_error STATUS_OBJECT_PATH_SYNTAX_BAD; mret None else
      match depth with
      | O => _ ← set_error STATUS_INVALID_PARAMETER; mret None
      | S depth =>
          kr ← key_of root_key;
          root_name ← access (k_name kr);
          let '(e, rest) := path_element path in
          if (length e =? length root_name)%nat && negb (truth (memicmp_strW root_name e (length e))) then
            _ ← grab_object root_key;
            lookup_from (lookup_absolute depth) root_key (Some (match rest with [] => None | _ :: rest => Some rest end)) OBJ_CASE_INSENSITIVE
          else _ ← set_error (lookup_other path); mret None
      end
  | [] => _ ← set_error STATUS_OBJECT_PATH_SYNTAX_BAD; mret None
  end.
(** A path relative to the key [root]. *)
Definition lookup_named_object (root : Z) (name : list Z) (attr : Z) : R (option (Z * option (list Z))) :=
  if bool_decide (head name = Some backslash) then _ ← set_error STATUS_OBJECT_PATH_SYNTAX_BAD; mret None else
  _ ← grab_object root;
  lookup_from (lookup_absolute 32) root (if bool_decide (name = []) then None else Some (Some name)) attr.
Definition open_named_object (root : Z) (name : list Z) (attr : Z) : R (option Z) :=
  if 65534 <=? 2 * Z.of_nat (length name) then _ ← set_error STATUS_OBJECT_NAME_INVALID; mret None else
  l ← lookup_named_object root name attr;
  match l with
  | None => mret None
  | Some (obj, name_left) =>
      if negb (bool_decide (default [] name_left = [])) then
        _ ← set_error STATUS_OBJECT_NAME_NOT_FOUND; _ ← release obj; mret None
      else mret (Some obj)
  end.

(** ** Creation *)

(** Fields that [alloc_object] leaves undefined are zero here; [key_init] sets them. *)
Definition alloc_object : R (option Z) :=
  ok ← mem_alloc_ok;
  if negb ok then mret None else
  p ← gets r_next;
  _ ← modify (λ r, Registry (<[p := Key 1 None None [] 0 0 [] None 0 0 [] 0 0 []]> (r_keys r)) (p + 1) (r_allocs r) (r_now r) (r_error r) (r_events r));
  mret (Some p).

Definition key_init (p : Z) (data : key_init_data) : R bool :=
  k ← key_of p;
  parent ← get_parent k;
  _ ← update_key p (λ k, Key (k_refcount k) (k_name k) (k_parent k) [] (-1) 0 [] None (-1) 0 [] 0 (kd_modif data) []);
  ok ← (if truth (Z.of_nat (length (kd_class data))) then mem_alloc_ok else mret true);
  if negb ok then mret false else
  _ ← update_key p (with_class (kd_class data));
  _ ← when (truth (Z.land (kd_options data) REG_OPTION_CREATE_LINK)) (update_key p (λ k, with_flags (Z.lor (k_flags k) KEY_SYMLINK) k));
  if truth (Z.land (kd_options data) REG_OPTION_VOLATILE) then
    _ ← update_key p (λ k, with_flags (Z.lor (k_flags k) KEY_VOLATILE) k); mret true
  else
    volatile ← (match parent with Some q => kq ← key_of q; mret (has_flag kq KEY_VOLATILE) | None => mret false end);
    if volatile : bool then _ ← set_error STATUS_CHILD_MUST_BE_VOLATILE; mret false
    else _ ← update_key p (λ k, with_flags (Z.lor (k_flags k) KEY_DIRTY) k); mret true.

Definition create_object_without_name (data : key_init_data) : R (option Z) :=
  p ← alloc_object;
  match p with
  | None => mret None
  | Some p => ok ← key_init p data; if ok : bool then mret (Some p) else _ ← free_object p; mret None
  end.
(** The end of [create_object_with_name]: the object [new_name] in [parent]. *)
Definition create_child (parent : Z) (new_name : list Z) (data : key_init_data) : R (option Z) :=
  ok ← mem_alloc_ok;
  if negb ok then _ ← release parent; mret None else
  obj ← alloc_object;
  match obj with
  | None => _ ← release parent; mret None
  | Some obj =>
      ok ← key_link_name obj new_name parent;
      if negb ok then _ ← free_object obj; _ ← release parent; mret None else
      _ ← update_key obj (with_name (Some new_name) (Some parent));
      _ ← release parent;
      ok ← key_init obj data;
      if ok : bool then mret (Some obj) else
      _ ← unlink_named_object release obj; _ ← free_object obj; mret None
  end.
Definition create_object_with_name (root : Z) (name : list Z) (attr : Z) (data : key_init_data) : R (option Z) :=
  _ ← set_error 0;
  if bool_decide (name = []) then create_object_without_name data else
  l ← lookup_named_object root name attr;
  match l with
  | None => mret None
  | Some (parent, new_name) =>
      let new_name := default [] new_name in
      if bool_decide (new_name = []) then
        if has_attr attr OBJ_OPENIF then _ ← set_error STATUS_OBJECT_NAME_EXISTS; mret (Some parent)
        else _ ← release parent; _ ← set_error STATUS_OBJECT_NAME_COLLISION; mret None
      else create_child parent new_name data
  end.
(** None of the keys here is created with OBJ_PERMANENT. *)
Definition create_named_object := create_object_with_name.

(** The keys of a path, each created if it does not exist; [fuel] is the length of the path. *)
Fixpoint create_keys (fuel : nat) (parent : Z) (name : list Z) (data : key_init_data) : R (option Z) :=
  if bool_decide (name = []) then mret (Some parent) else
  match fuel with
  | O => no_fuel
  | S fuel =>
      let '(e, rest) := path_element name in
      key ← create_named_object parent e OBJ_OPENIF data;
      _ ← release parent;
      match key with
      | None => mret None
      | Some key => match rest with [] => mret (Some key) | _ :: rest => create_keys fuel key rest data end
      end
  end.
Definition create_key_recursive (root : Z) (name : list Z) (modif : Z) : R (option Z) :=
  _ ← grab_object root;
  create_keys (length name) root name (KeyInitData modif 0 []).

(** ** Renaming and deletion *)

Definition rename_key (p : Z) (new_name : list Z) : R unit :=
  k ← key_of p;
  parent ← get_parent k;
  let '(e, rest) := path_element new_name in
  if bool_decide (e = []) || negb (bool_decide (rest = [])) || (MAX_NAME_LEN <? Z.of_nat (length e)) then set_error STATUS_INVALID_PARAMETER else
  match parent with
  | None => set_error STATUS_CANNOT_DELETE
  | Some parent =>
      kp ← key_of parent;
      f ← find_subkey kp new_name;
      let '(found, index) := f in
      if found : bool then set_error STATUS_CANNOT_DELETE else
      if bool_decide (k_wow6432node kp = Some p) || is_wow6432node new_name then set_error STATUS_INVALID_PARAMETER else
      ok ← mem_alloc_ok;
      if negb ok then mret tt else
      cur_index ← access (Z.of_nat <$> index_of kp p);
      let '(index, shifted) :=
        if cur_index <? index then (index - 1, shift_down (Z.to_nat (index - 1 - cur_index)) cur_index (k_subkeys kp))
        else (index, shift_up (Z.to_nat (cur_index - index)) cur_index (k_subkeys kp)) in
      subkeys ← access shifted;
      subkeys ← access (array_set subkeys index p);
      _ ← update_key parent (λ k, with_subkeys (k_last_subkey k) (k_nb_subkeys k) subkeys k);
      _ ← update_key p (with_name (Some new_name) (Some parent));
      touch_key p REG_NOTIFY_CHANGE_NAME
  end.

(** Deletes the subkeys, the last one first. *)
Fixpoint delete_subkeys (delete_key : Z → R bool) (fuel : nat) (p : Z) : R bool :=
  k ← key_of p;
  if k_last_subkey k <? 0 then mret true else
  match fuel with
  | O => no_fuel
  | S fuel =>
      c ← access (array_get (k_subkeys k) (k_last_subkey k));
      ok ← delete_key c;
      if negb ok then mret false else delete_subkeys delete_key fuel p
  end.
(** [fuel] bounds the depth of the keys below. *)
Fixpoint delete_key (fuel : nat) (p : Z) (recurse : bool) : R bool :=
  k ← key_of p;
  if has_flag k KEY_DELETED then mret true else
  parent ← get_parent k;
  match parent with
  | None => _ ← set_error STATUS_ACCESS_DENIED; mret false
  | Some parent =>
      if has_flag k KEY_PREDEF then _ ← set_error STATUS_INVALID_HANDLE; mret false else
      ok ← (if recurse then
              delete_subkeys (λ c, match fuel with O => no_fuel | S fuel => delete_key fuel c true end) (Z.to_nat (k_last_subkey k + 1)) p
            else if 0 <=? k_last_subkey k then _ ← set_error STATUS_ACCESS_DENIED; mret false else mret true);
      if negb ok then mret false else
      _ ← update_key p (λ k, with_flags (Z.lor (k_flags k) KEY_DELETED) k);
      _ ← unlink_named_object release p;
      _ ← touch_key parent REG_NOTIFY_CHANGE_NAME;
      mret true
  end.

(** ** 32-bit views *)

Definition KEY_WOW64_64KEY : Z := 0x100.
Definition KEY_WOW64_32KEY : Z := 0x200.
Definition grab_wow6432node (p : Z) : R Z :=
  k ← key_of p;
  match k_wow6432node k with
  | None => mret p
  | Some ret =>
      kr ← key_of ret;
      if has_flag kr KEY_WOWSHARE then mret p else
      _ ← grab_object ret; _ ← release p; mret ret
  end.
(** [fuel] bounds the depth of the key. *)
Fixpoint get_wow6432node (fuel : nat) (p : option Z) : R (option Z) :=
  match p with
  | None => mret None
  | Some p =>
      match fuel with
      | O => no_fuel
      | S fuel =>
          k ← key_of p;
          if bool_decide (is_Some (k_wow6432node k)) then mret (k_wow6432node k) else
          parent ← get_parent k;
          kp ← (match parent with Some q => kp ← key_of q; mret (k_wow6432node kp) | None => mret None end);
          if bool_decide (is_Some parent) && bool_decide (kp = Some p) then mret (Some p) else
          ret ← get_wow6432node fuel parent;
          match ret with
          | None => mret (Some p)
          | Some ret =>
              name ← access (k_name k);
              kr ← key_of ret;
              f ← find_subkey kr name;
              let '(found, index) := f in
              if found : bool then c ← access (array_get (k_subkeys kr) index); mret (Some c) else mret None
          end
      end
  end.
Definition get_wow6432_parent (parent : Z) (access_ : Z) (name : list Z) : R Z :=
  if negb (has_attr access_ KEY_WOW64_64KEY) && negb (is_wow6432node name) then
    r ← gets id;
    key ← get_wow6432node (size (r_keys r)) (Some parent);
    match key with
    | None => mret parent
    | Some key =>
        k ← key_of key;
        mret (if has_attr access_ KEY_WOW64_32KEY || has_flag k KEY_WOWSHARE then key else parent)
    end
  else mret parent.

(** ** Requests

    The key [p] is that of the handle in the request. A key that is returned has a reference for
    the new handle. [access] has KEY_WOW64_64KEY for 64-bit processes. *)

Definition STATUS_PREDEFINED_HANDLE : Z := 0x40000016.
Definition get_hkey_obj (p : Z) : R (option Z) :=
  k ← key_of p;
  if has_flag k KEY_DELETED then _ ← set_error STATUS_KEY_DELETED; mret None else mret (Some p).

Definition open_attributes (access_ attr : Z) : Z := if has_attr access_ KEY_WOW64_64KEY then attr else Z.lor attr OBJ_KEY_WOW64.
Definition req_create_key (p : Z) (name : list Z) (access_ attr : Z) (data : key_init_data) : R (option Z) :=
  let attr := open_attributes access_ attr in
  let attr := if truth (Z.land (kd_options data) REG_OPTION_CREATE_LINK) then Z.lor (Z.ldiff attr OBJ_OPENIF) OBJ_OPENLINK else attr in
  parent ← get_hkey_obj p;
  match parent with
  | None => mret None
  | Some parent =>
      root ← get_wow6432_parent parent access_ name;
      key ← (if bool_decide (name = []) then open_named_object root name attr else create_named_object root name attr data);
      match key with
      | None => mret None
      | Some key =>
          e ← gets r_error;
          k ← key_of key;
          if bool_decide (name = []) || (e =? STATUS_OBJECT_NAME_EXISTS) then
            _ ← when (has_flag k KEY_PREDEF) (set_error STATUS_PREDEFINED_HANDLE);
            key ← (if has_attr access_ KEY_WOW64_64KEY then mret key else grab_wow6432node key);
            mret (Some key)
          else
            q ← get_parent k;
            q ← access q;
            _ ← touch_key q REG_NOTIFY_CHANGE_NAME;
            mret (Some key)
      end
  end.
Definition req_open_key (p : Z) (name : list Z) (access_ attr : Z) : R (option Z) :=
  let attr := open_attributes access_ attr in
  parent ← get_hkey_obj p;
  match parent with
  | None => mret None
  | Some parent =>
      root ← get_wow6432_parent parent access_ name;
      key ← open_named_object root name attr;
      match key with
      | None => mret None
      | Some key =>
          key ← (if has_attr access_ KEY_WOW64_64KEY then mret key else grab_wow6432node key);
          k ← key_of key;
          _ ← when (has_flag k KEY_PREDEF) (set_error STATUS_PREDEFINED_HANDLE);
          mret (Some key)
      end
  end.
(** The handle keeps the key alive. *)
Definition req_delete_key (p : Z) : R unit := r ← gets id; _ ← delete_key (size (r_keys r)) p false; mret tt.
Definition req_rename_key (p : Z) (name : list Z) : R unit :=
  key ← get_hkey_obj p;
  match key with None => mret tt | Some p => rename_key p name end.
End tree.
