(* ===== verification/RegTreeInv.v ===== *)
(** * The invariant of the tree of keys

    A key is its parent's subkey or the root, or it has been deleted; arrays of subkeys
    are sorted by name; each key is counted once for its parent, for being the root and for
    every handle. *)

From stdpp Require Import sorting.
From S2P Require Import Prelude.
From S2P Require Import Atoms.
From S2P Require Import AtomsInv.
From S2P Require Import RegKeys.
From S2P Require Import RegArrays.
From S2P Require Import RegTouch.
From S2P Require Import RegTree.

(** ** Arrays in use up to a last element *)

Record array_ok {A} (last nb : Z) (l used : list A) : Prop := {
  ao_last : last = Z.of_nat (length used) - 1;
  ao_nb : nb = Z.of_nat (length l);
  ao_used : used `prefix_of` l;
  ao_min : nb = 0 ∨ 8 ≤ nb }.

Section arrays.
Context {A : Type}.
Implicit Types (l used : list A).

Lemma array_take last nb l used : array_ok last nb l used → take (Z.to_nat (last + 1)) l = used.
Proof. intros [-> _ [rest ->] _]. rewrite take_app_length'; [done|lia]. Qed.
Lemma array_access last nb l used i x : array_ok last nb l used → used !! i = Some x → array_get l (Z.of_nat i) = Some x.
Proof. intros [_ _ [rest ->] _] Hi. rewrite array_get_lookup, Nat2Z.id by lia. by apply lookup_app_l_Some. Qed.
Lemma array_grow last nb l used x n : array_ok last nb l used → nb ≤ n → 8 ≤ n → array_ok last n (resize x n l) used.
Proof.
  intros [-> -> [rest ->] _] Hn H8. split; [done| | |by right].
  - rewrite resize_length by lia. lia.
  - exists (drop (length used) (resize x n (used ++ rest))).
    rewrite <- (take_drop (length used) (resize x n (used ++ rest))) at 1. f_equal.
    rewrite length_app in Hn. rewrite resize_take by (rewrite ?length_app; lia). apply take_app_length.
Qed.
Lemma array_shrink last nb l used x n : array_ok last nb l used → last + 1 ≤ n → 8 ≤ n → array_ok last n (resize x n l) used.
Proof.
  intros [-> -> [rest ->] _] Hn H8. split; [done| | |by right].
  - rewrite resize_length by lia. lia.
  - exists (drop (length used) (resize x n (used ++ rest))).
    rewrite <- (take_drop (length used) (resize x n (used ++ rest))) at 1. f_equal.
    rewrite resize_take by (rewrite ?length_app; lia). apply take_app_length.
Qed.
Lemma array_insert last nb l l1 l2 x : array_ok last nb l (l1 ++ l2) → last + 1 < nb →
  ∃ s s', shift_up (Z.to_nat (last + 1 - Z.of_nat (length l1))) (last + 1) l = Some s ∧
    array_set s (Z.of_nat (length l1)) x = Some s' ∧ array_ok (last + 1) nb s' (l1 ++ x :: l2).
Proof.
  intros [-> -> [rest ->] Hmin] Hroom. rewrite !length_app in *. destruct rest as [|y rest]; [simpl in Hroom; lia|].
  destruct (shift_up_spec l2 l1 y rest) as [z Hz]. rewrite length_app in Hz. exists (l1 ++ z :: l2 ++ rest), (l1 ++ x :: l2 ++ rest).
  split_and!.
  - rewrite <- app_assoc, <- Hz. f_equal; lia.
  - apply array_set_app.
  - split; [rewrite length_app; simpl; lia|rewrite !length_app; simpl; rewrite length_app; simpl in *; lia| |done].
    exists rest. by rewrite <- app_assoc.
Qed.
Lemma array_remove last nb l l1 l2 x : array_ok last nb l (l1 ++ x :: l2) →
  ∃ s, shift_down (Z.to_nat (last - Z.of_nat (length l1))) (Z.of_nat (length l1)) l = Some s ∧ array_ok (last - 1) nb s (l1 ++ l2).
Proof.
  intros [-> -> [rest ->] Hmin]. rewrite !length_app in *. destruct (shift_down_spec l2 l1 x rest) as [z Hz].
  exists (l1 ++ l2 ++ z :: rest). split.
  - rewrite <- app_assoc. cbn [app]. rewrite <- Hz. f_equal. simpl. lia.
  - split; [rewrite length_app; simpl; lia|rewrite !length_app; simpl; lia| |done]. exists (z :: rest). by rewrite <- app_assoc.
Qed.
(** An element moves back or forth. *)
Lemma array_move_up last nb l l1 l2 l3 x : array_ok last nb l (l1 ++ x :: l2 ++ l3) →
  ∃ s s', shift_down (length l2) (Z.of_nat (length l1)) l = Some s ∧ array_set s (Z.of_nat (length (l1 ++ l2))) x = Some s' ∧
    array_ok last nb s' (l1 ++ l2 ++ x :: l3).
Proof.
  intros [-> -> [rest ->] Hmin]. destruct (shift_down_spec l2 l1 x (l3 ++ rest)) as [z Hz].
  exists (l1 ++ l2 ++ z :: l3 ++ rest), (l1 ++ l2 ++ x :: l3 ++ rest). split_and!.
  - rewrite <- app_assoc. cbn [app]. by rewrite <- app_assoc.
  - pose proof (array_set_app (l1 ++ l2) (l3 ++ rest) z x) as Hs. by rewrite <- !app_assoc in Hs.
  - split; [repeat (rewrite ?length_app; simpl); lia|repeat (rewrite ?length_app; simpl); lia| |].
    + exists rest. rewrite <- !app_assoc. cbn [app]. done.
    + repeat (rewrite ?length_app in *; simpl in * ). lia.
Qed.
Lemma array_move_down last nb l l1 l2 l3 x : array_ok last nb l (l1 ++ l2 ++ x :: l3) →
  ∃ s s', shift_up (length l2) (Z.of_nat (length (l1 ++ l2))) l = Some s ∧ array_set s (Z.of_nat (length l1)) x = Some s' ∧
    array_ok last nb s' (l1 ++ x :: l2 ++ l3).
Proof.
  intros [-> -> [rest ->] Hmin]. destruct (shift_up_spec l2 l1 x (l3 ++ rest)) as [z Hz].
  exists (l1 ++ z :: l2 ++ l3 ++ rest), (l1 ++ x :: l2 ++ l3 ++ rest). split_and!.
  - rewrite <- !app_assoc. cbn [app]. done.
  - apply array_set_app.
  - split; [repeat (rewrite ?length_app; simpl); lia|repeat (rewrite ?length_app; simpl); lia| |].
    + exists rest. by list_simplifier.
    + repeat (rewrite ?length_app in *; simpl in * ). lia.
Qed.
End arrays.

(** ** Nodes *)

(** What matters of a key: whether it is marked as dirty, its times, notifications and
    arrays are left out. *)
Record node := Node {
  nd_name : option (list Z); nd_parent : option Z; nd_class : list Z; nd_flags : Z; nd_wow : option Z; nd_values : vmap }.

Section tree.
Context `{CaseMap} (root : Z).
Implicit Types (p q c : Z) (k : key) (m : gmap Z key) (r : registry) (ext : Z → Z) (T : gmap Z node).

Definition abs_key k : node := Node (k_name k) (k_parent k) (k_class k) (Z.ldiff (k_flags k) KEY_DIRTY) (k_wow6432node k) (value_map k).
Definition abs r : gmap Z node := abs_key <$> r_keys r.

Definition subs k : list Z := take (Z.to_nat (k_last_subkey k + 1)) (k_subkeys k).
Definition links_to m p c n : Prop := ∃ kc, m !! c = Some kc ∧ k_parent kc = Some p ∧ k_name kc = Some n.
(** The references of a key: [ext] are those of handles. *)
Definition refs ext p k : Z := ext p + b2z (bool_decide (is_Some (k_parent k))) + b2z (bool_decide (p = root)).
Record key_ok m ext p k : Prop := {
  ko_refs : k_refcount k = refs ext p k;
  ko_ext : 0 ≤ ext p;
  ko_used : 0 < k_refcount k;
  ko_array : array_ok (k_last_subkey k) (k_nb_subkeys k) (k_subkeys k) (subs k);
  ko_subs : ∃ names, Forall2 (links_to m p) (subs k) names ∧ StronglySorted before names;
  ko_parent : ∀ q, k_parent k = Some q → ∃ kq, m !! q = Some kq ∧ p ∈ subs kq;
  ko_named : match k_name k with
    | Some n => has_flag k KEY_DELETED = false ∧ Z.of_nat (length n) ≤ MAX_NAME_LEN ∧ (k_parent k = None ↔ p = root) ∧ backslash ∉ n
    | None => has_flag k KEY_DELETED = true ∧ k_parent k = None ∧ p ≠ root ∧ subs k = []
    end;
  ko_wow : ∀ c, k_wow6432node k = Some c → c ∈ subs k ∧ ∃ n, links_to m p c n ∧ is_wow6432node n = true;
  ko_values : values_ok k }.
Record tree_ok r ext : Prop := {
  to_keys : ∀ p k, r_keys r !! p = Some k → key_ok (r_keys r) ext p k;
  to_rooted : rooted r;
  to_root : is_Some (r_keys r !! root);
  to_fresh : ∀ p, is_Some (r_keys r !! p) → p < r_next r;
  to_ext : ∀ p, r_keys r !! p = None → ext p = 0 }.

Lemma tree_registry_ok r ext : tree_ok r ext → registry_ok r.
Proof. intros Hr. split; [apply Hr|]. intros p k Hk. by apply (to_keys _ _ Hr p k). Qed.

(** ** Children *)

Definition is_child T p (name : list Z) c : Prop :=
  ∃ nd n, T !! c = Some nd ∧ nd_parent nd = Some p ∧ nd_name nd = Some n ∧ fold_name n = fold_name name.
#[export] Instance is_child_dec T p name c : Decision (is_child T p name c).
Proof.
  destruct (T !! c) as [nd|] eqn:E; [|right; intros (nd & n & Hc & _); congruence].
  destruct (decide (nd_parent nd = Some p)) as [Hp|Hp]; [|right; intros (nd' & n & Hc & ? & _); congruence].
  destruct (nd_name nd) as [n|] eqn:En; [|right; intros (nd' & n & Hc & _ & ? & _); congruence].
  destruct (decide (fold_name n = fold_name name)) as [Hf|Hf]; [left; by exists nd, n|].
  right. intros (nd' & n' & Hc & _ & ? & ?). congruence.
Defined.
(** The subkey of this name, of which a tree has at most one. *)
Definition child T p (name : list Z) : option Z := snd <$> list_find (λ c, is_child T p name c) (map_to_list T).*1.
Definition unique_children T : Prop := ∀ p name c c', is_child T p name c → is_child T p name c' → c = c'.

Lemma child_some T p name c : unique_children T → child T p name = Some c ↔ is_child T p name c.
Proof.
  intros Hu. unfold child. destruct (list_find _ _) as [[i c']|] eqn:E; simpl.
  - apply list_find_Some in E as (_ & Hc & _). split; [by intros [= <-]|]. intros Hc'. f_equal. by eapply Hu.
  - split; [done|]. intros Hc. apply list_find_None in E. exfalso. eapply list.Forall_forall in E; [by apply E|].
    destruct Hc as (nd & n & HT & _). apply list_elem_of_fmap. exists (c, nd). split; [done|]. by apply elem_of_map_to_list.
Qed.
Lemma child_none T p name : child T p name = None ↔ ∀ c, ¬ is_child T p name c.
Proof.
  unfold child. destruct (list_find _ _) as [[i c]|] eqn:E; simpl.
  - apply list_find_Some in E as (_ & Hc & _). split; [done|]. intros Hn. by destruct (Hn c).
  - split; [|done]. intros _ c Hc. apply list_find_None in E. eapply list.Forall_forall in E; [by apply E|].
    destruct Hc as (nd & n & HT & _). apply list_elem_of_fmap. exists (c, nd). split; [done|]. by apply elem_of_map_to_list.
Qed.

Lemma abs_lookup r p : abs r !! p = abs_key <$> r_keys r !! p.
Proof. apply lookup_fmap. Qed.
Lemma is_child_links r p name c : is_child (abs r) p name c ↔ ∃ n, links_to (r_keys r) p c n ∧ fold_name n = fold_name name.
Proof.
  unfold is_child, links_to. rewrite abs_lookup. split.
  - intros (nd & n & (k & Hk & ->)%fmap_Some & ? & ? & ?). exists n. split; [|done]. by exists k.
  - intros (n & (k & -> & ? & ?) & ?). exists (abs_key k), n. by split_and!.
Qed.
Lemma links_to_inj m p c n n' : links_to m p c n → links_to m p c n' → n = n'.
Proof. intros (k & Hk & _ & Hn) (k' & Hk' & _ & Hn'). congruence. Qed.

(** A child of [p] is one of its subkeys, and only that. *)
Lemma subs_child r ext p k c n : tree_ok r ext → r_keys r !! p = Some k → links_to (r_keys r) p c n → c ∈ subs k.
Proof.
  intros Hr Hk (kc & Hkc & Hp & _). destruct (ko_parent _ _ _ _ (to_keys _ _ Hr c kc Hkc) p Hp) as (k' & Hk' & Hin).
  by assert (k' = k) as -> by congruence.
Qed.
Lemma sorted_fold_inj names i j n n' : StronglySorted before names → names !! i = Some n → names !! j = Some n' → fold_name n = fold_name n' → i = j.
Proof.
  intros Hs. revert i j. induction Hs as [|x l Hl IH Hx]; intros i j Hi Hj E; [done|].
  destruct i as [|i], j as [|j]; simpl in *; [done| | |f_equal; by eapply IH].
  - injection Hi as ->. eapply list.Forall_lookup_1 in Hx; [|done]. unfold before in Hx. rewrite E in Hx. by apply lex_irrefl in Hx.
  - injection Hj as ->. eapply list.Forall_lookup_1 in Hx; [|done]. unfold before in Hx. rewrite E in Hx. by apply lex_irrefl in Hx.
Qed.
Lemma tree_unique r ext : tree_ok r ext → unique_children (abs r).
Proof.
  intros Hr p name c c' (n & Hc & E)%is_child_links (n' & Hc' & E')%is_child_links.
  pose proof Hc as (kc & Hkc & Hpc & _). destruct (ko_parent _ _ _ _ (to_keys _ _ Hr c kc Hkc) p Hpc) as (k & Hk & Hin).
  pose proof (subs_child _ _ _ _ _ _ Hr Hk Hc') as Hin'.
  destruct (ko_subs _ _ _ _ (to_keys _ _ Hr p k Hk)) as (names & Hall & Hsort).
  apply list_elem_of_lookup in Hin as [i Hi]. apply list_elem_of_lookup in Hin' as [j Hj].
  destruct (Forall2_lookup_l _ _ _ _ _ Hall Hi) as (m & Hm & Hlm). destruct (Forall2_lookup_l _ _ _ _ _ Hall Hj) as (m' & Hm' & Hlm').
  rewrite (links_to_inj _ _ _ _ _ Hc Hlm) in E. rewrite (links_to_inj _ _ _ _ _ Hc' Hlm') in E'.
  assert (i = j) as -> by (eapply sorted_fold_inj; [done..|congruence]). congruence.
Qed.
Lemma subs_nodup r ext p k : tree_ok r ext → r_keys r !! p = Some k → NoDup (subs k).
Proof.
  intros Hr Hk. destruct (ko_subs _ _ _ _ (to_keys _ _ Hr p k Hk)) as (names & Hall & Hsort).
  apply NoDup_alt. intros i j c Hi Hj.
  destruct (Forall2_lookup_l _ _ _ _ _ Hall Hi) as (n & Hn & Hl). destruct (Forall2_lookup_l _ _ _ _ _ Hall Hj) as (n' & Hn' & Hl').
  eapply sorted_fold_inj; [done..|]. by rewrite (links_to_inj _ _ _ _ _ Hl Hl').
Qed.

(** ** Search *)

(** The search in any array of named keys that is sorted. *)
Lemma find_subkey_located r k used names name : array_ok (k_last_subkey k) (k_nb_subkeys k) (k_subkeys k) used →
  Forall2 (λ c n, ∃ kc, r_keys r !! c = Some kc ∧ k_name kc = Some n) used names → StronglySorted before names → Forall short names → short name →
  wp (find_subkey k name) (λ f r', r' = r ∧ located names name (fst f) (snd f)) r.
Proof.
  intros Harr Hall Hsort Hshort Hname. pose proof (Forall2_length Hall) as Hlen. unfold find_subkey. rewrite wp_bind, wp_gets.
  destruct (search_names names name (λ i, c ← array_get (k_subkeys k) i; kc ← r_keys r !! c; n ← k_name kc; Some (compare_names n name)))
    as (b & i & Hsearch & Hloc); [done..| |].
  - intros i n Hi. destruct (Forall2_lookup_r _ _ _ _ _ Hall Hi) as (c & Hc & kc & Hkc & Hn). rewrite (array_access _ _ _ _ _ _ Harr Hc). simpl. rewrite Hkc. simpl. by rewrite Hn.
  - rewrite (ao_last _ _ _ _ Harr). replace (Z.to_nat (Z.of_nat (length used) - 1 + 1)) with (length names) by lia.
    by rewrite Hlen, Hsearch, wp_access.
Qed.
Lemma links_short r ext p k names : tree_ok r ext → Forall2 (links_to (r_keys r) p) (subs k) names → Forall short names.
Proof.
  intros Hr Hall. apply list.Forall_lookup_2. intros i n Hi. destruct (Forall2_lookup_r _ _ _ _ _ Hall Hi) as (c & _ & kc & Hkc & _ & Hn).
  pose proof (ko_named _ _ _ _ (to_keys _ _ Hr c kc Hkc)) as Hnamed. rewrite Hn in Hnamed. destruct Hnamed as (_ & Hl & _).
  unfold short, MAX_NAME_LEN in *. lia.
Qed.

(** What finding or missing a name in the array of [p] says of the tree. *)
Lemma located_child r ext p k names name b i : tree_ok r ext → r_keys r !! p = Some k → Forall2 (links_to (r_keys r) p) (subs k) names →
  located names name b i →
  if b then ∃ l1 c l2, subs k = l1 ++ c :: l2 ∧ i = Z.of_nat (length l1) ∧ child (abs r) p name = Some c
  else child (abs r) p name = None ∧ ∃ l1 l2 ns1 ns2, subs k = l1 ++ l2 ∧ names = ns1 ++ ns2 ∧ i = Z.of_nat (length l1) ∧
    Forall2 (links_to (r_keys r) p) l1 ns1 ∧ Forall2 (links_to (r_keys r) p) l2 ns2 ∧
    Forall (λ n, before n name) ns1 ∧ Forall (before name) ns2.
Proof.
  intros Hr Hk Hall Hloc. destruct b; simpl in Hloc.
  - destruct Hloc as (ns1 & n & ns2 & -> & -> & E). apply Forall2_app_inv_r in Hall as (l1 & l2' & H1 & H2 & Es).
    apply Forall2_cons_inv_r in H2 as (c & l2 & Hc & H2 & ->). exists l1, c, l2. rewrite (Forall2_length H1). split_and!; [done..|].
    apply child_some; [by eapply tree_unique|]. apply is_child_links. by exists n.
  - destruct Hloc as (ns1 & ns2 & -> & -> & Hb1 & Hb2). apply Forall2_app_inv_r in Hall as (l1 & l2 & H1 & H2 & Es). split.
    + apply child_none. intros c (n & Hl & E)%is_child_links.
      pose proof (subs_child _ _ _ _ _ _ Hr Hk Hl) as Hin. rewrite Es in Hin.
      apply list_elem_of_lookup in Hin as [j Hj].
      destruct (Forall2_lookup_l _ _ _ j _ (Forall2_app H1 H2) Hj) as (n' & Hn' & Hl').
      rewrite (links_to_inj _ _ _ _ _ Hl Hl') in E. apply list_elem_of_lookup_2 in Hn'. unfold before in *.
      apply elem_of_app in Hn' as [Hin|Hin]; [eapply list.Forall_forall in Hb1|eapply list.Forall_forall in Hb2]; try exact Hin; simpl in *;
        [rewrite E in Hb1; by apply lex_irrefl in Hb1|rewrite E in Hb2; by apply lex_irrefl in Hb2].
    + exists l1, l2, ns1, ns2. rewrite (Forall2_length H1). by split_and!.
Qed.

Lemma find_subkey_spec r ext p k name : tree_ok r ext → r_keys r !! p = Some k → short name → ∀ Q,
  (∀ l1 c l2, subs k = l1 ++ c :: l2 → child (abs r) p name = Some c → Q (true, Z.of_nat (length l1)) r) →
  (∀ l1 l2 ns1 ns2, subs k = l1 ++ l2 → Forall2 (links_to (r_keys r) p) l1 ns1 → Forall2 (links_to (r_keys r) p) l2 ns2 →
     StronglySorted before (ns1 ++ ns2) → Forall (λ n, before n name) ns1 → Forall (before name) ns2 →
     child (abs r) p name = None → Q (false, Z.of_nat (length l1)) r) →
  wp (find_subkey k name) Q r.
Proof.
  intros Hr Hk Hname Q Htrue Hfalse. pose proof (to_keys _ _ Hr p k Hk) as Hko. destruct (ko_subs _ _ _ _ Hko) as (names & Hall & Hsort).
  eapply wp_mono; [eapply find_subkey_located; [apply Hko| |done|by eapply links_short|done]|].
  - eapply list.Forall2_impl; [exact Hall|]. intros c n (kc & ? & _ & ?). eauto.
  - intros [b i] r' [-> Hloc]. pose proof (located_child _ _ _ _ _ _ _ _ Hr Hk Hall Hloc) as Hch. simpl in Hch. destruct b.
    + destruct Hch as (l1 & c & l2 & ? & -> & ?). eauto.
    + destruct Hch as (Hnone & l1 & l2 & ns1 & ns2 & ? & -> & -> & ? & ? & ? & ?). by eapply Hfalse.
Qed.
End tree.

(** * References to keys *)

Lemma ldiff_dirty f g : Z.ldiff f KEY_DIRTY = Z.ldiff g KEY_DIRTY → ∀ bit, Z.land KEY_DIRTY bit = 0 → Z.land f bit = Z.land g bit.
Proof.
  intros E bit Hb.
  assert (∀ x, Z.land x bit = Z.land (Z.ldiff x KEY_DIRTY) bit) as Hx; [|by rewrite (Hx f), E, <- Hx].
  intros x. apply Z.bits_inj. intros i. rewrite !Z.land_spec, Z.ldiff_spec.
  assert (Z.testbit KEY_DIRTY i && Z.testbit bit i = false) as Hi by by rewrite <- Z.land_spec, Hb, Z.bits_0.
  destruct (Z.testbit x i), (Z.testbit KEY_DIRTY i), (Z.testbit bit i); done.
Qed.
Lemma dirty_ldiff f : Z.ldiff (Z.lor f KEY_DIRTY) KEY_DIRTY = Z.ldiff f KEY_DIRTY.
Proof. apply Z.bits_inj. intros i. rewrite !Z.ldiff_spec, Z.lor_spec. by destruct (Z.testbit f i), (Z.testbit KEY_DIRTY i). Qed.

(** Handles come and go. *)
Definition bump (p d : Z) (ext : Z → Z) : Z → Z := λ q, if decide (q = p) then ext q + d else ext q.
Lemma bump_same p d ext : bump p d ext p = ext p + d.
Proof. unfold bump. by rewrite decide_True. Qed.
Lemma bump_other p q d ext : q ≠ p → bump p d ext q = ext q.
Proof. intros. unfold bump. by rewrite decide_False. Qed.

Section refs.
Context `{CaseMap} (root : Z).
Implicit Types (p q c : Z) (k : key) (r : registry) (ext : Z → Z).

(** ** Changes that leave the tree as it is *)

Definition subkeys_ok k : Prop := array_ok (k_last_subkey k) (k_nb_subkeys k) (k_subkeys k) (subs k).
Definition tree_equiv k k' : Prop :=
  k_name k' = k_name k ∧ k_parent k' = k_parent k ∧ k_wow6432node k' = k_wow6432node k ∧
  Z.ldiff (k_flags k') KEY_DIRTY = Z.ldiff (k_flags k) KEY_DIRTY ∧
  subs k' = subs k ∧ (subkeys_ok k → subkeys_ok k') ∧ (values_ok k → values_ok k').
#[export] Instance tree_equiv_preorder : PreOrder tree_equiv.
Proof. split; [done|]. intros k1 k2 k3 (?&?&?&?&?&?&?) (?&?&?&?&?&?&?). split_and!; [congruence..|tauto|tauto]. Qed.
Definition trees_equiv r r' : Prop := ∀ p, option_Forall2 tree_equiv (r_keys r !! p) (r_keys r' !! p).

Lemma equiv_flag k k' flag : tree_equiv k k' → Z.land KEY_DIRTY flag = 0 → has_flag k' flag = has_flag k flag.
Proof. intros (_ & _ & _ & E & _) Hb. unfold has_flag. by rewrite (ldiff_dirty _ _ E flag Hb). Qed.
Lemma equiv_subs k k' : tree_equiv k k' → subs k' = subs k.
Proof. by intros (_ & _ & _ & _ & E & _). Qed.
Lemma equiv_lookup r r' p k : trees_equiv r r' → r_keys r !! p = Some k → ∃ k', r_keys r' !! p = Some k' ∧ tree_equiv k k'.
Proof. intros He Hk. specialize (He p). rewrite Hk in He. inversion He; subst; eauto. Qed.
Lemma equiv_lookup_r r r' p k' : trees_equiv r r' → r_keys r' !! p = Some k' → ∃ k, r_keys r !! p = Some k ∧ tree_equiv k k'.
Proof. intros He Hk. specialize (He p). rewrite Hk in He. inversion He; subst; eauto. Qed.

Lemma tree_ok_equiv r r' ext ext' : tree_ok root r ext → trees_equiv r r' →
  (∀ p k', r_keys r' !! p = Some k' → k_refcount k' = refs root ext' p k' ∧ 0 ≤ ext' p ∧ 0 < k_refcount k') →
  (∀ p, r_keys r' !! p = None → ext' p = 0) → r_next r ≤ r_next r' → tree_ok root r' ext'.
Proof.
  intros Hr He Hrefs Hext Hnext.
  assert (∀ p c n, links_to (r_keys r) p c n → links_to (r_keys r') p c n) as Hlinks.
  { intros p c n (kc & Hkc & Hp & Hn). destruct (equiv_lookup _ _ _ _ He Hkc) as (k' & Hk' & E). exists k'. destruct E as (E1 & E2 & _).
    split_and!; congruence. }
  split.
  - intros p k' Hk'. destruct (equiv_lookup_r _ _ _ _ He Hk') as (k & Hk & E). pose proof (to_keys _ _ _ Hr p k Hk) as Hko.
    pose proof (equiv_subs _ _ E) as Es. destruct (Hrefs p k' Hk') as (R1 & R2 & R3). pose proof E as (E1 & E2 & E3 & E4 & E5 & E6 & E8).
    split; try done.
    + apply E6, Hko.
    + destruct (ko_subs _ _ _ _ _ Hko) as (names & Hall & Hs). exists names. rewrite Es. split; [|done].
      eapply list.Forall2_impl; [exact Hall|]. intros; by apply Hlinks.
    + intros q Hq. rewrite E2 in Hq. destruct (ko_parent _ _ _ _ _ Hko q Hq) as (kq & Hkq & Hin).
      destruct (equiv_lookup _ _ _ _ He Hkq) as (kq' & Hkq' & Eq). exists kq'. by rewrite (equiv_subs _ _ Eq).
    + pose proof (ko_named _ _ _ _ _ Hko) as Hn. rewrite E1, E2, Es, (equiv_flag _ _ KEY_DELETED E) by done. done.
    + intros c. rewrite E3, Es. intros Hw. destruct (ko_wow _ _ _ _ _ Hko c Hw) as (Hin & n & Hl & Hn). split; [done|]. exists n. auto.
    + apply E8, Hko.
  - intros p k' Hk' Hn. destruct (equiv_lookup_r _ _ _ _ He Hk') as (k & Hk & (E1 & E2 & _)).
    destruct (to_rooted _ _ _ Hr p k Hk) as [l Hl]; [congruence|]. exists l. clear Hk Hk' Hn E1 E2 k k'.
    revert p Hl. induction l as [|x l IH]; intros p; [done|]. intros [[= <-] (k & Hk & Hn & Hl)]. split; [done|].
    destruct (equiv_lookup _ _ _ _ He Hk) as (k' & Hk' & (E1 & E2 & _)). exists k'. split; [done|]. split; [congruence|]. rewrite E2.
    revert Hl. destruct (k_parent k) as [q|]; [apply IH|]. by destruct l as [|y l]; [|intros [? _]].
  - destruct (to_root _ _ _ Hr) as [k Hk]. destruct (equiv_lookup _ _ _ _ He Hk) as (k' & Hk' & _). eauto.
  - intros p [k' Hk']. destruct (equiv_lookup_r _ _ _ _ He Hk') as (k & Hk & _). pose proof (to_fresh _ _ _ Hr p ltac:(eauto)). lia.
  - done.
Qed.

Lemma values_ok_ext k k' : k_last_value k' = k_last_value k → k_nb_values k' = k_nb_values k → k_values k' = k_values k → values_ok k → values_ok k'.
Proof.
  intros E1 E2 E3 []. assert (used k' = used k) as E by (unfold used; by rewrite E1, E3).
  split; rewrite ?E, ?E1, ?E2, ?E3; done.
Qed.
Lemma tree_equiv_refcount n k : tree_equiv k (with_refcount n k).
Proof. split_and!; try done. by apply values_ok_ext. Qed.

(** A step that changes only reference counts, and one that may also set the error. *)
Definition calm r r' : Prop :=
  trees_equiv r r' ∧ abs r' = abs r ∧ r_allocs r' = r_allocs r ∧ r_next r' = r_next r ∧ r_now r' = r_now r.
Definition quiet r r' : Prop := calm r r' ∧ r_error r' = r_error r.
#[export] Instance calm_preorder : PreOrder calm.
Proof.
  split.
  - intros r. split_and!; try done. intros p. destruct (r_keys r !! p); constructor. reflexivity.
  - intros r1 r2 r3 (He1&?&?&?&?) (He2&?&?&?&?). split_and!; try congruence. intros p. specialize (He1 p). specialize (He2 p).
    revert He2. destruct He1 as [k1 k2 He12|]; intros He2; inversion He2; subst; constructor. by etrans.
Qed.
#[export] Instance quiet_preorder : PreOrder quiet.
Proof. split; [intros r; by split|]. intros r1 r2 r3 [? ?] [? ?]. split; [by etrans|congruence]. Qed.
Lemma calm_refl r : trees_equiv r r.
Proof. intros p. destruct (r_keys r !! p); constructor. reflexivity. Qed.
Lemma tree_ok_ext r ext ext' : (∀ p, ext p = ext' p) → tree_ok root r ext → tree_ok root r ext'.
Proof.
  intros E Hr. eapply tree_ok_equiv; [exact Hr|apply calm_refl| | |done].
  - intros p k Hk. pose proof (to_keys _ _ _ Hr p k Hk) as Hko. unfold refs. rewrite <- E. split_and!; apply Hko.
  - intros p Hp. rewrite <- E. by apply (to_ext _ _ _ Hr).
Qed.
Lemma tree_ok_error r ext e : tree_ok root r ext → tree_ok root (Registry (r_keys r) (r_next r) (r_allocs r) (r_now r) e (r_events r)) ext.
Proof. by intros []. Qed.
Lemma quiet_refcount r p k n : r_keys r !! p = Some k → quiet r (set_keys (<[p := with_refcount n k]> (r_keys r)) r).
Proof.
  intros Hk. split; [|done]. split_and!; try done.
  - intros q. simpl. destruct (decide (q = p)) as [->|Hne]; [rewrite Hk, lookup_insert_eq; constructor; apply tree_equiv_refcount|].
    rewrite lookup_insert_ne by done. destruct (r_keys r !! q); constructor. reflexivity.
  - unfold abs. simpl. rewrite fmap_insert. apply insert_id. by rewrite lookup_fmap, Hk.
Qed.

(** Far from an overflow of the counts. *)
Definition few ext : Prop := ∀ p, 0 ≤ ext p ∧ ext p + 8 < INT_MAX.

Lemma bump_refs r ext p k d : tree_ok root r ext → r_keys r !! p = Some k → 0 ≤ ext p + d → 0 < k_refcount k + d →
  tree_ok root (set_keys (<[p := with_refcount (k_refcount k + d) k]> (r_keys r)) r) (bump p d ext).
Proof.
  intros Hr Hk Hd Hpos. eapply tree_ok_equiv; [done|by apply quiet_refcount| | |done].
  - intros q k' Hq. simpl in Hq. destruct (decide (q = p)) as [->|Hne].
    + rewrite lookup_insert_eq in Hq. injection Hq as <-. pose proof (ko_refs _ _ _ _ _ (to_keys _ _ _ Hr p k Hk)) as E.
      unfold refs in *. simpl. rewrite bump_same. lia.
    + rewrite lookup_insert_ne in Hq by done. pose proof (to_keys _ _ _ Hr q k' Hq) as Hko. unfold refs. rewrite bump_other by done. split_and!; apply Hko.
  - intros q Hq. simpl in Hq. destruct (decide (q = p)) as [->|Hne]; [by rewrite lookup_insert_eq in Hq|].
    rewrite lookup_insert_ne in Hq by done. rewrite bump_other by done. by apply (to_ext _ _ _ Hr).
Qed.

Lemma key_grab_spec r ext p : tree_ok root r ext → is_Some (r_keys r !! p) → ext p + 2 < INT_MAX →
  wp (grab_object p) (λ _ r', tree_ok root r' (bump p 1 ext) ∧ quiet r r') r.
Proof.
  intros Hr [k Hk] Hlt. pose proof (to_keys _ _ _ Hr p k Hk) as Hko. pose proof (ko_refs _ _ _ _ _ Hko) as E. pose proof (ko_ext _ _ _ _ _ Hko).
  unfold grab_object. rewrite wp_bind, (key_of_spec p r k) by done. rewrite wp_bind. apply wp_assert.
  split; [apply Z.ltb_lt; unfold refs, b2z in E; do 2 case_bool_decide; lia|]. rewrite (update_key_spec p _ r k) by done.
  split; [|by apply quiet_refcount]. pose proof (ko_used _ _ _ _ _ Hko). apply bump_refs; [done|done|lia|lia].
Qed.

(** A key that is linked has a reference besides those of its handles. *)
Lemma named_count r ext p k : tree_ok root r ext → r_keys r !! p = Some k → is_Some (k_name k) → ext p + 1 ≤ k_refcount k.
Proof.
  intros Hr Hk [n Hn]. pose proof (to_keys _ _ _ Hr p k Hk) as Hko. pose proof (ko_refs _ _ _ _ _ Hko) as E. pose proof (ko_named _ _ _ _ _ Hko) as Hnamed.
  rewrite Hn in Hnamed. destruct Hnamed as (_ & _ & Hroot & _). unfold refs, b2z in E.
  destruct (k_parent k); [rewrite bool_decide_true in E by eauto; case_bool_decide; lia|].
  rewrite (bool_decide_true (p = root)) in E by tauto. case_bool_decide; lia.
Qed.

(** A key that is linked, or has another handle, stays. *)
Lemma release_keeps r ext p k : tree_ok root r ext → r_keys r !! p = Some k → 1 ≤ ext p → 2 ≤ ext p ∨ is_Some (k_name k) →
  wp (release p) (λ _ r', tree_ok root r' (bump p (-1) ext) ∧ quiet r r') r.
Proof.
  intros Hr Hk Hext Hstay. pose proof (to_keys _ _ _ Hr p k Hk) as Hko. pose proof (ko_refs _ _ _ _ _ Hko) as E.
  assert (2 ≤ k_refcount k) as H2.
  { destruct Hstay as [?|Hn]; [unfold refs, b2z in E; do 2 case_bool_decide; lia|]. pose proof (named_count _ _ _ _ Hr Hk Hn). lia. }
  unfold release. rewrite wp_bind, wp_gets. unfold id.
  assert (∀ fuel, wp (release_object fuel p) (λ _ r', tree_ok root r' (bump p (-1) ext) ∧ quiet r r') r) as Hrel; [|by apply Hrel].
  intros fuel. assert (truth (k_refcount k) = true ∧ truth (k_refcount k - 1) = true) as [Ht1 Ht2].
  { unfold truth. rewrite !negb_true_iff, !Z.eqb_neq. lia. }
  destruct fuel as [|fuel]; cbn [release_object]; rewrite wp_bind, (key_of_spec p r k) by done; rewrite wp_bind, Ht1; apply wp_assert;
    (split; [done|]); rewrite wp_bind, (update_key_spec p _ r k) by done; rewrite Ht2, wp_ret; (split; [|by apply quiet_refcount]);
    apply (bump_refs r ext p k (-1)); done || lia.
Qed.

Lemma do_notifications_spec l : ∀ r, wp (do_notifications l) (λ _ r', r_keys r' = r_keys r ∧ r_error r' = r_error r ∧ r_allocs r' = r_allocs r ∧ r_next r' = r_next r ∧ r_now r' = r_now r) r.
Proof.
  induction l as [|n l IH]; intros r; simpl; [done|]. unfold do_notification_events. rewrite wp_bind, wp_bind, wp_modify, wp_ret.
  eapply wp_mono; [apply IH|]. intros _ r' (->&->&->&->&->). done.
Qed.

Lemma chain_delete (m : gmap Z key) (p : Z) k (q : option Z) l : m !! p = Some k → k_name k = None → chain m q l → chain (delete p m) q l.
Proof.
  intros Hk Hn. revert q. induction l as [|x l IH]; intros q; [done|]. intros [-> (k' & Hk' & Hs & Hl)]. split; [done|].
  exists k'. split; [|split; [done|by apply IH]]. rewrite lookup_delete_ne; [done|]. intros ->. assert (k' = k) as -> by congruence. rewrite Hn in Hs. by destruct Hs.
Qed.
(** A deleted key that goes away. *)
Lemma tree_ok_delete r r' ext p k : tree_ok root r ext → r_keys r !! p = Some k → k_name k = None → ext p = 1 →
  r_keys r' = delete p (r_keys r) → r_next r' = r_next r → tree_ok root r' (bump p (-1) ext).
Proof.
  intros Hr Hk Hn Hext Ek En. pose proof (to_keys _ _ _ Hr p k Hk) as Hko. pose proof (ko_named _ _ _ _ _ Hko) as Hnamed. rewrite Hn in Hnamed.
  destruct Hnamed as (_ & Hpar & Hroot & Hsubs).
  assert (∀ q c n, links_to (r_keys r) q c n → links_to (r_keys r') q c n) as Hlinks.
  { intros q c n (kc & Hkc & Hp & Hc). exists kc. rewrite Ek. split_and!; [|done|done]. rewrite lookup_delete_ne; [done|]. intros ->. congruence. }
  split.
  - intros q kq Hq. rewrite Ek in Hq. apply lookup_delete_Some in Hq as [Hne Hq]. pose proof (to_keys _ _ _ Hr q kq Hq) as Hkq. split; try apply Hkq.
    + unfold refs. rewrite bump_other by done. apply Hkq.
    + rewrite bump_other by done. apply Hkq.
    + destruct (ko_subs _ _ _ _ _ Hkq) as (names & Hall & Hs). exists names. split; [|done]. eapply list.Forall2_impl; [exact Hall|]. intros; by apply Hlinks.
    + intros q' Hq'. destruct (ko_parent _ _ _ _ _ Hkq q' Hq') as (k' & Hk' & Hin). exists k'. split; [|done]. rewrite Ek, lookup_delete_ne; [done|].
      intros ->. assert (k' = k) as -> by congruence. rewrite Hsubs in Hin. by apply elem_of_nil in Hin.
    + intros c Hw. destruct (ko_wow _ _ _ _ _ Hkq c Hw) as (Hin & n & Hl & Hwn). split; [done|]. exists n. auto.
  - intros q kq Hq Hs. rewrite Ek in Hq |- *. apply lookup_delete_Some in Hq as [Hne Hq]. destruct (to_rooted _ _ _ Hr q kq Hq Hs) as [l Hl].
    exists l. by eapply chain_delete.
  - destruct (to_root _ _ _ Hr) as [kr Hkr]. exists kr. by rewrite Ek, lookup_delete_ne.
  - intros q [kq Hq]. rewrite Ek in Hq. apply lookup_delete_Some in Hq as [Hne Hq]. rewrite En. apply (to_fresh _ _ _ Hr). eauto.
  - intros q Hq. rewrite Ek in Hq. destruct (decide (q = p)) as [->|Hne]; [rewrite bump_same; lia|]. rewrite bump_other by done.
    apply (to_ext _ _ _ Hr). by rewrite lookup_delete_ne in Hq.
Qed.
Lemma release_frees r ext p k : tree_ok root r ext → r_keys r !! p = Some k → ext p = 1 → k_name k = None →
  wp (release p) (λ _ r', tree_ok root r' (bump p (-1) ext) ∧ abs r' = delete p (abs r) ∧ r_error r' = r_error r ∧ r_allocs r' = r_allocs r) r.
Proof.
  intros Hr Hk Hext Hn. pose proof (to_keys _ _ _ Hr p k Hk) as Hko. pose proof (ko_refs _ _ _ _ _ Hko) as E. pose proof (ko_named _ _ _ _ _ Hko) as Hnamed.
  rewrite Hn in Hnamed. destruct Hnamed as (_ & Hpar & Hroot & Hsubs). unfold refs in E. rewrite Hpar, Hext in E.
  rewrite !bool_decide_false in E by (done || by intros []). change (1 + b2z false + b2z false) with 1 in E.
  pose proof (ko_array _ _ _ _ _ Hko) as Harr. rewrite Hsubs in Harr. pose proof (ao_last _ _ _ _ Harr) as Hl. simpl in Hl.
  unfold release. rewrite wp_bind, wp_gets. unfold id. generalize (size (r_keys r)). intros fuel.
  assert (∀ rel, wp (k ← key_of p; _ ← c_assert (truth (k_refcount k)); _ ← update_key p (with_refcount (k_refcount k - 1));
      if truth (k_refcount k - 1) then mret tt else _ ← unlink_named_object rel p; _ ← key_destroy rel p; free_object p)
    (λ _ r', tree_ok root r' (bump p (-1) ext) ∧ abs r' = delete p (abs r) ∧ r_error r' = r_error r ∧ r_allocs r' = r_allocs r) r) as Hrel;
    [|by destruct fuel; apply Hrel].
  intros rel. rewrite wp_bind, (key_of_spec p r k) by done. rewrite wp_bind, E. apply wp_assert. split; [done|]. rewrite wp_bind, (update_key_spec p _ r k) by done.
  change (truth (1 - 1)) with false. cbv iota. set (r1 := set_keys _ r). set (k1 := with_refcount (1 - 1) k).
  assert (r_keys r1 !! p = Some k1) as Hk1 by apply lookup_insert_eq.
  rewrite wp_bind. unfold unlink_named_object. rewrite wp_bind, (key_of_spec p r1 k1) by done. change (k_name k1) with (k_name k). rewrite Hn, wp_ret.
  rewrite wp_bind. unfold key_destroy. rewrite wp_bind, (key_of_spec p r1 k1), wp_bind by done. apply wp_assert.
  pose proof (ko_values _ _ _ _ _ Hko) as Hv. pose proof (vo_room _ Hv). pose proof (vo_length _ Hv).
  split; [simpl; apply Z.ltb_lt; lia|]. rewrite wp_bind. change (k_last_subkey k1) with (k_last_subkey k). change (k_subkeys k1) with (k_subkeys k).
  rewrite Hl, (proj2 (Z.ltb_ge _ _)) by lia. rewrite wp_access. change (take (Z.to_nat (Z.of_nat 0 - 1 + 1)) (k_subkeys k)) with (take 0 (k_subkeys k)). rewrite take_0.
  rewrite wp_bind. cbn [release_subkeys]. rewrite wp_ret. eapply wp_mono; [apply do_notifications_spec|]. intros _ r2 (K2 & E2 & A2 & N2 & _).
  unfold free_object. rewrite wp_bind, (key_of_spec p r2 k1) by by rewrite K2. rewrite wp_modify. simpl.
  assert (delete p (r_keys r2) = delete p (r_keys r)) as Ed by (rewrite K2; simpl; apply delete_insert_eq).
  split_and!; [|unfold abs; simpl; by rewrite Ed, fmap_delete|done|done]. by eapply tree_ok_delete.
Qed.
End refs.
