(* ===== verification/RegTreeLookup.v ===== *)
(** * Paths *)

From stdpp Require Import sorting.
From S2P Require Import Prelude.
From S2P Require Import Atoms.
From S2P Require Import AtomsInv.
From S2P Require Import RegKeys.
From S2P Require Import RegArrays.
From S2P Require Import RegTouch.
From S2P Require Import RegTree.
From S2P Require Import RegTreeInv.

(** ** The elements of a path *)

Fixpoint split_path (path : list Z) : list (list Z) :=
  match path with
  | [] => [[]]
  | c :: path =>
      if c =? backslash then [] :: split_path path
      else match split_path path with e :: es => (c :: e) :: es | [] => [[c]] end
  end.
Definition elements (path : list Z) : list (list Z) := filter (λ e, e ≠ []) (split_path path).

Lemma split_path_element path : ∀ e rest, path_element path = (e, rest) →
  split_path path = e :: (match rest with [] => [] | _ :: rest => split_path rest end).
Proof.
  induction path as [|c path IH]; intros e rest; simpl; [by intros [= <- <-]|].
  destruct (c =? backslash); [by intros [= <- <-]|]. destruct (path_element path) as [e' rest'] eqn:E. intros [= <- <-].
  by rewrite (IH e' rest').
Qed.
Lemma elements_skip path : elements (skip_backslashes path) = elements path.
Proof.
  induction path as [|c path IH]; [done|]. simpl. destruct (c =? backslash) eqn:E; [|done]. rewrite IH.
  unfold elements. simpl. rewrite E. by rewrite filter_cons_False by tauto.
Qed.
Lemma path_element_rest path e rest : path_element path = (e, rest) → path = e ++ rest ∧ (rest = [] ∨ head rest = Some backslash) ∧ backslash ∉ e.
Proof.
  revert e rest. induction path as [|c path IH]; intros e rest; simpl; [intros [= <- <-]; split_and!; [done|by left|apply not_elem_of_nil]|].
  destruct (Z.eqb_spec c backslash) as [->|Hc]; [intros [= <- <-]; split_and!; [done|by right|apply not_elem_of_nil]|].
  destruct (path_element path) as [e' rest'] eqn:E. intros [= <- <-]. destruct (IH e' rest' eq_refl) as (-> & Hr & He). split_and!; [done..|].
  by apply not_elem_of_cons.
Qed.
Lemma skip_head path : head (skip_backslashes path) ≠ Some backslash.
Proof. induction path as [|c path IH]; simpl; [done|]. destruct (Z.eqb_spec c backslash); [done|]. simpl. congruence. Qed.
Lemma skip_length path : (length (skip_backslashes path) ≤ length path)%nat.
Proof. induction path as [|c path IH]; simpl; [done|]. destruct (c =? backslash); simpl; lia. Qed.
(** The first element of a path that does not begin with a backslash. *)
Lemma elements_cons path e rest : path ≠ [] → head path ≠ Some backslash → path_element path = (e, rest) →
  e ≠ [] ∧ elements path = e :: elements (skip_backslashes rest) ∧ (length (skip_backslashes rest) < length path)%nat.
Proof.
  intros Hne Hhead E. pose proof (path_element_rest _ _ _ E) as (Hp & Hr & _).
  assert (e ≠ []) as He by (intros ->; simpl in Hp; subst rest; by destruct Hr).
  split; [done|]. split.
  - rewrite elements_skip. unfold elements. rewrite (split_path_element _ _ _ E), filter_cons_True by done. f_equal.
    destruct rest as [|c rest]; [done|]. destruct Hr as [|[= ->]]; [done|]. simpl. by rewrite filter_cons_False by tauto.
  - pose proof (skip_length rest). rewrite Hp, length_app. destruct e; [done|]. simpl. lia.
Qed.
Lemma elements_nil path : head path ≠ Some backslash → elements path = [] → path = [].
Proof.
  intros Hh He. destruct path as [|c path]; [done|]. destruct (path_element (c :: path)) as [e rest] eqn:E.
  destruct (elements_cons (c :: path) e rest) as (_ & E' & _); [done..|]. congruence.
Qed.

(** ** Walking down the tree *)

Inductive walked := Reached (c : Z) | Missing (parent : Z) (name : list Z) | Stuck (error : Z).
Section walk.
Context `{CaseMap}.
Fixpoint walk (T : gmap Z node) (p : Z) (es : list (list Z)) : walked :=
  match es with
  | [] => Reached p
  | e :: es =>
      if MAX_NAME_LEN <? Z.of_nat (length e) then Stuck STATUS_INVALID_PARAMETER else
      match child T p e with
      | Some c => walk T c es
      | None => match es with [] => Missing p e | _ => Stuck STATUS_OBJECT_NAME_NOT_FOUND end
      end
  end.
End walk.

Section lookup.
Context `{CaseMap} (root : Z) (absolute : lookup).
Implicit Types (p q c : Z) (k : key) (r : registry) (ext : Z → Z).

(** No key is a symbolic link. *)
Definition no_links r : Prop := ∀ p k, r_keys r !! p = Some k → has_flag k KEY_SYMLINK = false.
Lemma no_links_equiv r r' : trees_equiv r r' → no_links r → no_links r'.
Proof. intros He Hn p k' Hk'. destruct (equiv_lookup_r _ _ _ _ He Hk') as (k & Hk & E). rewrite (equiv_flag _ _ _ E) by done. by eapply Hn. Qed.
Lemma calm_links r r' : calm r r' → no_links r → no_links r'.
Proof. intros [He _]. by apply no_links_equiv. Qed.

(** A lookup yields a key that is linked, with a reference. *)
Definition found r ext c r' : Prop :=
  tree_ok root r' (bump c 1 ext) ∧ calm r r' ∧ ∃ k, r_keys r' !! c = Some k ∧ is_Some (k_name k).
Definition looked_up r ext (w : walked) (obj : Z) (left : option (list Z)) r' : Prop :=
  found r ext obj r' ∧
  match w with
  | Reached c => obj = c ∧ default [] left = [] ∧ r_error r' = r_error r
  | Missing x e => obj = x ∧ left = Some e ∧ e ≠ [] ∧ Z.of_nat (length e) ≤ MAX_NAME_LEN ∧ child (abs r) x e = None ∧ r_error r' = r_error r
  | Stuck e => r_error r' = e ∧ e ≠ 0
  end.

Lemma bump_bump p d e ext q : bump p d (bump p e ext) q = bump p (e + d) ext q.
Proof. unfold bump. case_decide; lia. Qed.
Lemma move_ref ext x c r1 : tree_ok root r1 (bump x (-1) (bump c 1 (bump x 1 ext))) → tree_ok root r1 (bump c 1 ext).
Proof. apply tree_ok_ext. intros q. unfold bump. repeat case_decide; lia. Qed.

Lemma set_error_calm r e : calm r (Registry (r_keys r) (r_next r) (r_allocs r) (r_now r) e (r_events r)).
Proof. split_and!; try done. exact (calm_refl r). Qed.

Lemma linked_key r ext p k : tree_ok root r ext → r_keys r !! p = Some k → is_Some (k_name k) → has_flag k KEY_DELETED = false.
Proof. intros Hr Hk [n Hn]. pose proof (ko_named _ _ _ _ _ (to_keys _ _ _ Hr p k Hk)) as Hnamed. rewrite Hn in Hnamed. by destruct Hnamed. Qed.
Lemma child_links r p e c : child (abs r) p e = Some c → ∃ k, r_keys r !! c = Some k ∧ is_Some (k_name k) ∧ k_parent k = Some p.
Proof.
  unfold child. destruct (list_find _ _) as [[i c']|] eqn:E; [|done]. simpl. intros [= ->]. apply list_find_Some in E as (_ & Hc & _).
  apply is_child_links in Hc as (n & (k & Hk & Hp & Hn) & _). eauto.
Qed.

Lemma looked_up_trans r r1 ext w obj left r' : quiet r r1 → looked_up r1 ext w obj left r' → looked_up r ext w obj left r'.
Proof.
  intros [Hc He] [(Hr & Hc' & Hk) Hw]. split; [split; [done|]; split; [by etrans|done]|].
  destruct Hc as (_ & Ha & _). destruct w; [by rewrite <- He|by rewrite <- He, <- Ha|done].
Qed.

Lemma lookup_loop_spec attr : has_attr attr OBJ_KEY_WOW64 = false → ∀ fuel path x r ext,
  (length path ≤ fuel)%nat → path ≠ [] → head path ≠ Some backslash → few ext → no_links r →
  found r ext x r →
  wp (lookup_loop absolute fuel x (Some (Some path)) attr) (λ l r', looked_up r ext (walk (abs r) x (elements path)) (fst l) (snd l) r') r.
Proof.
  intros Hattr. induction fuel as [|fuel IH]; intros path x r ext Hfuel Hne Hhead Hfew Hlinks (Hr & _ & k & Hk & Hnamed); [destruct path; [done|simpl in Hfuel; lia]|].
  cbn [lookup_loop]. rewrite wp_bind. unfold key_lookup_name. rewrite wp_bind, (key_of_spec x r k) by done.
  rewrite (linked_key _ _ _ _ Hr Hk Hnamed), (Hlinks x k Hk). destruct (path_element path) as [e rest] eqn:E.
  destruct (elements_cons path e rest Hne Hhead E) as (He & Hes & Hless). rewrite Hes. cbn [walk].
  assert (found r ext x r) as Hfound by (split; [done|]; split; [reflexivity|]; eauto).
  destruct (Z.ltb_spec MAX_NAME_LEN (Z.of_nat (length e))) as [Hlong|Hshort].
  { unfold set_error. rewrite wp_bind, wp_modify, wp_ret. cbv zeta iota beta. rewrite wp_ret. simpl. split; [|done].
    split; [by apply tree_ok_error|]. split; [apply set_error_calm|]. by exists k. }
  rewrite wp_bind. eapply find_subkey_spec; [exact Hr|done|unfold short, MAX_NAME_LEN in *; lia| |].
  - intros l1 c l2 Hs Hc. rewrite Hc. cbn [negb andb]. cbv iota. unfold next_element.
    pose proof (ko_array _ _ _ _ _ (to_keys _ _ _ Hr x k Hk)) as Harr.
    rewrite wp_bind, (array_access _ _ _ _ (length l1) c Harr) by (rewrite Hs; by apply list_lookup_middle). rewrite wp_access.
    destruct (child_links _ _ _ _ Hc) as (kc & Hkc & Hnc & Hpc).
    assert (c ≠ x) as Hcx.
    { intros ->. destruct (to_rooted _ _ _ Hr x kc Hkc Hnc) as [l Hl]. pose proof (chain_nodup _ _ _ Hl) as Hnd.
      destruct l as [|y l]; [done|]. simpl in Hl. destruct Hl as [[= <-] (k1 & Hk1 & _ & Hl)]. assert (k1 = kc) as -> by congruence. rewrite Hpc in Hl.
      destruct l as [|y l]; [done|]. destruct Hl as [[= <-] _]. apply list.NoDup_cons in Hnd as [Hin _]. apply Hin. by left. }
    assert (wp (grab_object c) (λ _ r1, wp (release x) (λ _ r2, found r2 ext c r2 ∧ quiet r r2) r1) r) as Hmove.
    { pose proof (Hfew c) as [_ Hc8]. pose proof (Hfew x) as [Hx0 _]. eapply wp_mono; [eapply key_grab_spec; [exact Hr|eauto|rewrite bump_other by done; lia]|].
      intros _ r1 (Hr1 & Hq1). pose proof Hq1 as [[He1 _] _]. destruct (equiv_lookup _ _ _ _ He1 Hk) as (k1 & Hk1 & E1).
      eapply wp_mono; [eapply release_keeps; [exact Hr1|done|rewrite bump_other, bump_same by done; lia|right; by rewrite (proj1 E1)]|].
      intros _ r2 (Hr2 & Hq2). apply move_ref in Hr2. assert (quiet r r2) as Hq by by etrans. split; [|done].
      split; [done|]. split; [reflexivity|]. pose proof Hq as [[Heq _] _]. destruct (equiv_lookup _ _ _ _ Heq Hkc) as (k2 & Hk2 & E2).
      exists k2. split; [done|]. by rewrite (proj1 E2). }
    assert (∀ name, (∀ r2, found r2 ext c r2 → quiet r r2 →
        wp (lookup_loop absolute fuel c name attr) (λ l r', looked_up r ext (walk (abs r) c (elements (skip_backslashes rest))) (fst l) (snd l) r') r2) →
      wp (_ ← grab_object c; mret (Some c, name)) (λ l r',
        wp (let '(obj, name) := l in match obj with
            | None => mret (x, default (Some []) name)
            | Some obj => _ ← release x; lookup_loop absolute fuel obj name attr end)
          (λ l r', looked_up r ext (walk (abs r) c (elements (skip_backslashes rest))) (fst l) (snd l) r') r') r) as Hstep.
    { intros name Hgo. rewrite wp_bind. eapply wp_mono; [exact Hmove|]. intros ? r1 Hrel. rewrite wp_ret, wp_bind.
      eapply wp_mono; [exact Hrel|]. intros _ r2 [Hf Hq]. by apply Hgo. }
    destruct (decide (skip_backslashes rest = [])) as [En|En].
    + rewrite bool_decide_true by done. apply Hstep. intros r2 (Hr2 & _ & k2 & Hk2 & Hn2) Hq. rewrite En.
      assert (lookup_loop absolute fuel c (Some None) attr = (l ← key_lookup_name absolute c (Some None) attr;
         let '(obj, name) := l in match obj with None => mret (c, default (Some []) name)
           | Some obj => _ ← release c; match fuel with O => no_fuel | S fuel => lookup_loop absolute fuel obj name attr end end)) as -> by by destruct fuel.
      rewrite wp_bind. unfold key_lookup_name. rewrite wp_bind, (key_of_spec c r2 k2) by done.
      pose proof Hq as [Hc2 E2]. rewrite (linked_key _ _ _ _ Hr2 Hk2 Hn2), (calm_links _ _ Hc2 Hlinks c k2 Hk2), !wp_ret.
      simpl. split; [split; [done|]; split; [done|]; eauto|done].
    + rewrite bool_decide_false by done. rewrite wp_bind, (key_of_spec c r kc) by done. rewrite Hattr. cbn [andb].
      assert ((match k_wow6432node kc with Some w => c | None => c end) = c) as -> by by destruct (k_wow6432node kc).
      apply Hstep. intros r2 Hf Hq. eapply wp_mono; [apply (IH (skip_backslashes rest) c r2 ext)|]; try done; [lia|apply skip_head|by eapply calm_links; [apply Hq|]|].
      intros l r' Hl. pose proof Hq as [(_ & Ha & _) _]. rewrite Ha in Hl. by eapply looked_up_trans.
  - intros l1 l2 ns1 ns2 _ _ _ _ _ _ Hnone. rewrite Hnone. rewrite Hattr, !andb_false_r. cbv iota.
    destruct (decide (skip_backslashes rest = [])) as [En|En].
    + rewrite bool_decide_true, En by done. cbn [negb]. rewrite !wp_ret. simpl. split; [done|]. by split_and!.
    + rewrite bool_decide_false by done. cbn [negb]. unfold set_error. rewrite wp_bind, wp_modify, wp_ret. cbv zeta iota beta. rewrite wp_ret.
      assert (elements (skip_backslashes rest) ≠ []) as Hes' by (intros Ee; apply En, elements_nil; [apply skip_head|done]).
      destruct (elements (skip_backslashes rest)) as [|e' es']; [done|]. simpl. split; [|done].
      split; [by apply tree_ok_error|]. split; [apply set_error_calm|]. by exists k.
Qed.
End lookup.

Section open.
Context `{CaseMap} (root : Z) (lookup_other : list Z → Z).
Implicit Types (p q c : Z) (k : key) (r : registry) (ext : Z → Z).

Lemma release_found r r0 ext c r1 : found root r0 ext c r1 → few ext → calm r r0 →
  wp (release c) (λ _ r', tree_ok root r' ext ∧ calm r r' ∧ r_error r' = r_error r1) r1.
Proof.
  intros (Hr & Hc & k & Hk & Hn) Hfew Hc0. pose proof (Hfew c) as [Hc1 _].
  eapply wp_mono; [eapply release_keeps; [exact Hr|done|rewrite bump_same; lia|by right]|]. intros _ r' (Hr' & Hq & He).
  split; [|split; [etrans; [done|]; by etrans|done]]. eapply tree_ok_ext; [|exact Hr']. intros q. unfold bump. repeat case_decide; lia.
Qed.

(** The result of a lookup, whose path must not begin with a backslash. *)
Definition resolve (T : gmap Z node) p name : walked :=
  if decide (head name = Some backslash) then Stuck STATUS_OBJECT_PATH_SYNTAX_BAD else walk T p (elements name).
Definition lookup_result r ext (w : walked) (l : option (Z * option (list Z))) r' : Prop :=
  match w, l with
  | Stuck e, None => tree_ok root r' ext ∧ calm r r' ∧ r_error r' = e ∧ e ≠ 0
  | Reached c, Some (obj, more) => obj = c ∧ default [] more = [] ∧ found root r ext c r' ∧ r_error r' = 0
  | Missing x e, Some (obj, more) => obj = x ∧ more = Some e ∧ e ≠ [] ∧ Z.of_nat (length e) ≤ MAX_NAME_LEN ∧ child (abs r) x e = None ∧
      found root r ext x r' ∧ r_error r' = 0
  | _, _ => False
  end.

Lemma lookup_named_object_spec r ext p k name attr : tree_ok root r ext → r_keys r !! p = Some k → is_Some (k_name k) →
  few ext → no_links r → has_attr attr OBJ_KEY_WOW64 = false →
  wp (lookup_named_object root lookup_other p name attr) (lookup_result r ext (resolve (abs r) p name)) r.
Proof.
  intros Hr Hk Hn Hfew Hlinks Hattr. unfold lookup_named_object, resolve.
  destruct (decide (head name = Some backslash)) as [Hb|Hb].
  { rewrite bool_decide_true by done. unfold set_error. rewrite wp_bind, wp_modify, wp_ret. simpl.
    split; [by apply tree_ok_error|]. split; [apply set_error_calm|done]. }
  rewrite bool_decide_false by done. rewrite wp_bind. pose proof (Hfew p) as [Hp0 Hp8].
  eapply wp_mono; [eapply key_grab_spec; [exact Hr|eauto|lia]|]. intros _ r1 (Hr1 & Hq1). pose proof Hq1 as [Hc1 _].
  unfold lookup_from. rewrite wp_bind. unfold set_error. rewrite wp_modify, wp_bind, wp_gets. unfold id.
  set (r2 := Registry _ _ _ _ 0 _). assert (calm r r2) as Hc2 by (etrans; [exact Hc1|apply set_error_calm]).
  assert (found root r2 ext p r2) as Hf2.
  { split; [by apply tree_ok_error|]. split; [reflexivity|]. destruct Hc1 as [He _]. destruct (equiv_lookup _ _ _ _ He Hk) as (k1 & Hk1 & E1).
    exists k1. split; [done|]. by rewrite (proj1 E1). }
  set (fuel := lookup_fuel _ r2). assert (length name ≤ fuel)%nat as Hfuel.
  { unfold fuel, lookup_fuel. case_bool_decide as E; [by rewrite E; simpl; lia|simpl; nia]. }
  clearbody fuel.
  assert (wp (lookup_loop (lookup_absolute root lookup_other 32) fuel p (if bool_decide (name = []) then None else Some (Some name)) attr)
    (λ l r', looked_up root r2 ext (walk (abs r) p (elements name)) (fst l) (snd l) r') r2) as Hloop.
  { pose proof Hc2 as (_ & Ha & _). rewrite <- Ha. destruct (decide (name = [])) as [->|Hne].
    - rewrite bool_decide_true by done. destruct Hf2 as (Hr2 & ? & k2 & Hk2 & Hn2).
      assert (∀ fuel, wp (lookup_loop (lookup_absolute root lookup_other 32) fuel p None attr) (λ l r', l = (p, Some []) ∧ r' = r2) r2) as Hl.
      { intros [|f]; cbn [lookup_loop]; rewrite wp_bind; unfold key_lookup_name; rewrite wp_bind, (key_of_spec p r2 k2) by done; by rewrite !wp_ret. }
      eapply wp_mono; [apply Hl|]. intros l r' [-> ->]. split; [split; [done|]; split; [reflexivity|]; eauto|done].
    - rewrite bool_decide_false by done. apply lookup_loop_spec; try done. by eapply calm_links. }
  rewrite wp_bind. eapply wp_mono; [exact Hloop|]. intros [obj more] r3 [Hf Hw]. simpl in Hf, Hw. rewrite wp_bind, wp_gets.
  assert (found root r ext obj r3) as Hf'.
  { destruct Hf as (H1 & H2 & H3). split; [done|]. split; [by etrans|done]. }
  destruct (walk (abs r) p (elements name)) as [c|x e|e]; unfold truth.
  - destruct Hw as (-> & Hl & E3). rewrite E3. simpl. rewrite wp_ret. by split_and!.
  - destruct Hw as (-> & -> & He & Hl & Hch & E3). rewrite E3. simpl. rewrite wp_ret. destruct Hc2 as (_ & Ha & _). rewrite Ha in Hch. by split_and!.
  - destruct Hw as [E3 He]. rewrite E3, (proj2 (Z.eqb_neq _ _)) by done. simpl. rewrite wp_bind.
    eapply wp_mono; [eapply release_found; [exact Hf|done|exact Hc2]|]. intros _ r4 (Hr4 & Hc4 & E4). rewrite wp_ret. split_and!; [done|done|congruence|done].
Qed.

Lemma open_named_object_spec r ext p k name attr : tree_ok root r ext → r_keys r !! p = Some k → is_Some (k_name k) →
  few ext → no_links r → has_attr attr OBJ_KEY_WOW64 = false → 2 * Z.of_nat (length name) < 65534 →
  wp (open_named_object root lookup_other p name attr) (λ obj r',
    match resolve (abs r) p name, obj with
    | Reached c, Some obj => obj = c ∧ found root r ext c r' ∧ r_error r' = 0
    | Missing _ _, None => tree_ok root r' ext ∧ calm r r' ∧ r_error r' = STATUS_OBJECT_NAME_NOT_FOUND
    | Stuck e, None => tree_ok root r' ext ∧ calm r r' ∧ r_error r' = e
    | _, _ => False
    end) r.
Proof.
  intros Hr Hk Hn Hfew Hlinks Hattr Hlen. unfold open_named_object. rewrite (proj2 (Z.leb_gt _ _)) by done.
  rewrite wp_bind. eapply wp_mono; [by apply (lookup_named_object_spec r ext p k)|]. intros l r1 Hl.
  destruct (resolve (abs r) p name) as [c|x e|e], l as [[obj more]|]; try done; simpl in Hl.
  - destruct Hl as (-> & -> & Hf & He). rewrite bool_decide_true by done. cbn [negb]. by rewrite wp_ret.
  - destruct Hl as (-> & -> & He & _ & _ & Hf & E1). rewrite bool_decide_false by done. cbn [negb]. unfold set_error. rewrite wp_bind, wp_modify, wp_bind.
    destruct Hf as (Hr1 & Hc1 & Hx). set (r2 := Registry _ _ _ _ _ _).
    assert (found root r ext x r2) as Hf2 by (split; [by apply tree_ok_error|]; split; [etrans; [done|apply set_error_calm]|done]).
    eapply wp_mono; [eapply (release_found r r); [exact Hf2|done|reflexivity]|]. intros _ r3 (Hr3 & Hc3 & E3). by rewrite wp_ret.
  - destruct Hl as (? & ? & ? & _). by rewrite wp_ret.
Qed.
End open.
