(* ===== verification/RegTreeLinks.v ===== *)
(** * Linking and unlinking keys *)

From stdpp Require Import sorting.
From S2P Require Import Prelude.
From S2P Require Import Atoms.
From S2P Require Import AtomsInv.
From S2P Require Import RegKeys.
From S2P Require Import RegArrays.
From S2P Require Import RegTouch.
From S2P Require Import RegTree.
From S2P Require Import RegTreeInv.
From S2P Require Import RegTreeLookup.

Section links.
Context `{CaseMap} (root : Z).
Implicit Types (p q c x : Z) (k : key) (r : registry) (ext : Z → Z).

(** ** Chains of parents that survive a change *)

Lemma chain_mono (m m' : gmap Z key) l : ∀ y : option Z,
  (∀ q k, q ∈ l → m !! q = Some k → ∃ k', m' !! q = Some k' ∧ k_parent k' = k_parent k ∧ (is_Some (k_name k) → is_Some (k_name k'))) →
  chain m y l → chain m' y l.
Proof.
  induction l as [|q l IH]; intros y Hm; [done|]. intros [-> (k & Hk & Hn & Hc)]. split; [done|].
  destruct (Hm q k (list_elem_of_here _ _) Hk) as (k' & Hk' & Hp & Hs). exists k'. split; [done|]. split; [auto|]. rewrite Hp.
  apply IH; [|done]. intros q' kq Hin. apply Hm. by right.
Qed.
Lemma chain_below (m : gmap Z key) p l : ∀ y, chain m (Some y) l → p ∈ l → y = p ∨ ∃ z kz, m !! z = Some kz ∧ k_parent kz = Some p.
Proof.
  induction l as [|q l IH]; intros y; [done|]. intros [[= <-] (k & Hk & Hn & Hc)] Hin. apply elem_of_cons in Hin as [->|Hin]; [by left|].
  destruct (k_parent k) as [z|] eqn:Hz; [|destruct l; [by apply elem_of_nil in Hin|by destruct Hc]].
  destruct (IH z Hc Hin) as [->|?]; [right; eauto|by right].
Qed.

(** ** A change of one link, between [p] and its parent [x] *)

Lemma tree_ok_relink r r' ext ext' x p kx kx' kp' : tree_ok root r ext → x ≠ p → r_keys r !! x = Some kx →
  r_keys r' = <[p := kp']> (<[x := kx']> (r_keys r)) →
  k_name kx' = k_name kx → is_Some (k_name kx) → k_parent kx' = k_parent kx → k_refcount kx' = k_refcount kx → k_flags kx' = k_flags kx → values_ok kx' →
  array_ok (k_last_subkey kx') (k_nb_subkeys kx') (k_subkeys kx') (subs kx') →
  (∃ names, Forall2 (links_to (r_keys r') x) (subs kx') names ∧ StronglySorted before names) →
  (∀ c, k_wow6432node kx' = Some c → c ∈ subs kx' ∧ ∃ n, links_to (r_keys r') x c n ∧ is_wow6432node n = true) →
  (∀ c, c ≠ p → c ∈ subs kx → c ∈ subs kx') →
  (∀ q kq, q ≠ p → q ≠ x → r_keys r !! q = Some kq → p ∉ subs kq) →
  key_ok root (r_keys r') ext' p kp' →
  (∀ c kc, r_keys r !! c = Some kc → k_parent kc = Some p → c ∈ subs kp') →
  (∀ q, q ≠ p → ext' q = ext q) → rooted r' → r_next r ≤ r_next r' → p < r_next r' →
  tree_ok root r' ext'.
Proof.
  intros Hr Hxp Hx Ek En Hnx Ep Er Ef Hv Harr Hsubs Hwow Hkeep Hother Hp Hchildren Hext Hrooted Hnext Hpn.
  pose proof (to_keys _ _ _ Hr x kx Hx) as Hkx.
  assert (∀ q kq, q ≠ p → r_keys r' !! q = Some kq → q = x ∧ kq = kx' ∨ q ≠ x ∧ r_keys r !! q = Some kq) as Hlook.
  { intros q kq Hq Hkq. rewrite Ek, lookup_insert_ne in Hkq by done. apply lookup_insert_Some in Hkq as [[<- <-]|[? ?]]; auto. }
  assert (r_keys r' !! x = Some kx') as Hx' by (rewrite Ek, lookup_insert_ne, lookup_insert_eq by done; done).
  assert (r_keys r' !! p = Some kp') as Hp' by (rewrite Ek; apply lookup_insert_eq).
  assert (∀ q c n, c ≠ p → links_to (r_keys r) q c n → links_to (r_keys r') q c n) as Hlinks.
  { intros q c n Hc (kc & Hkc & Hpc & Hnc). destruct (decide (c = x)) as [->|Hcx].
    - assert (kc = kx) as -> by congruence. exists kx'. split_and!; congruence.
    - exists kc. split; [|done]. by rewrite Ek, !lookup_insert_ne. }
  assert (∀ q kq, r_keys r !! q = Some kq → ∃ kq', r_keys r' !! q = Some kq' ∧ (q ≠ p → ∀ c, c ≠ p → c ∈ subs kq → c ∈ subs kq')) as Hold.
  { intros q kq Hq. destruct (decide (q = p)) as [->|Hqp]; [by exists kp'|]. destruct (decide (q = x)) as [->|Hqx].
    - assert (kq = kx) as -> by congruence. exists kx'. split; [done|]. intros _ c. by apply Hkeep.
    - exists kq. split; [by rewrite Ek, !lookup_insert_ne|done]. }
  split; [|done| | |].
  - intros q kq Hq. destruct (decide (q = p)) as [->|Hqp]; [by assert (kq = kp') as -> by congruence|].
    assert (∀ kq0, r_keys r !! q = Some kq0 → k_parent kq = k_parent kq0 → ∀ y, k_parent kq = Some y → ∃ ky, r_keys r' !! y = Some ky ∧ q ∈ subs ky) as Hpar.
    { intros kq0 Hq0 Eq y Hy. rewrite Eq in Hy. destruct (ko_parent _ _ _ _ _ (to_keys _ _ _ Hr q kq0 Hq0) y Hy) as (ky & Hky & Hin).
      destruct (decide (y = p)) as [->|Hyp]; [exists kp'; split; [done|]; by eapply Hchildren|].
      destruct (Hold y ky Hky) as (ky' & Hky' & Hs). exists ky'. auto. }
    destruct (Hlook q kq Hqp Hq) as [[-> ->]|[Hqx Hq0]].
    + destruct Hkx as [R1 R2 R3 R4 R5 R6 R7 R8 R9]. split.
      * rewrite Er, R1. unfold refs. by rewrite Ep, Hext by done.
      * by rewrite Hext by done.
      * by rewrite Er.
      * done.
      * done.
      * by apply (Hpar kx).
      * rewrite En, Ep. unfold has_flag in *. rewrite Ef. destruct (k_name kx); [done|by destruct Hnx].
      * done.
      * done.
    + pose proof (to_keys _ _ _ Hr q kq Hq0) as [R1 R2 R3 R4 R5 R6 R7 R8 R9]. split; try done.
      * rewrite R1. unfold refs. by rewrite Hext by done.
      * by rewrite Hext by done.
      * destruct R5 as (names & Hall & Hs). exists names. split; [|done]. pose proof (Hother q kq Hqp Hqx Hq0) as Hnot.
        apply Forall2_same_length_lookup_2; [by apply (Forall2_length Hall)|]. intros i c n Hc Hn.
        apply Hlinks; [|by eapply Forall2_lookup_lr]. intros ->. apply Hnot. by eapply list_elem_of_lookup_2.
      * by apply (Hpar kq).
      * intros c Hw. destruct (R8 c Hw) as (Hin & n & Hl & Hwn). split; [done|]. exists n. split; [|done].
        apply Hlinks; [|done]. intros ->. by apply (Hother q kq Hqp Hqx Hq0).
  - destruct (to_root _ _ _ Hr) as [kr Hkr]. destruct (Hold root kr Hkr) as (kr' & Hkr' & _). eauto.
  - intros q [kq Hq]. destruct (decide (q = p)) as [->|Hqp]; [done|].
    enough (q < r_next r) by lia. apply (to_fresh _ _ _ Hr). destruct (Hlook q kq Hqp Hq) as [[-> _]|[_ ?]]; eauto.
  - intros q Hq. destruct (decide (q = p)) as [->|Hqp]; [congruence|]. rewrite Hext by done. apply (to_ext _ _ _ Hr).
    rewrite Ek, lookup_insert_ne in Hq by done. by apply lookup_insert_None in Hq as [? _].
Qed.

(** ** The array of subkeys *)

(** [k] with another array that holds the same or other subkeys. *)
Definition with_array k (used : list Z) k' : Prop :=
  ∃ last nb s, k' = with_subkeys last nb s k ∧ array_ok last nb s used.
Lemma with_array_subs k used k' : with_array k used k' → subs k' = used ∧ array_ok (k_last_subkey k') (k_nb_subkeys k') (k_subkeys k') (subs k').
Proof.
  intros (last & nb & s & -> & Ha). pose proof (array_take _ _ _ _ Ha) as E. unfold subs. simpl. rewrite E. by split.
Qed.
(** What a step may do to the rest of the state. *)
Definition rest_same r r' : Prop := r_next r' = r_next r ∧ r_now r' = r_now r ∧ r_allocs r' `suffix_of` r_allocs r.
#[export] Instance rest_same_preorder : PreOrder rest_same.
Proof. split; [intros r; split_and!; [done|done|by exists []]|]. intros r1 r2 r3 (?&?&?) (?&?&?). split_and!; [congruence..|by etrans]. Qed.

Lemma wp_malloc r : wp malloc_ok (λ b r', r_keys r' = r_keys r ∧ rest_same r r' ∧ r_error r' = r_error r ∧ (b = false → false ∈ r_allocs r)) r.
Proof.
  rewrite wp_malloc_ok. split; [done|]. split; [|split; [done|]].
  - split_and!; [done|done|]. simpl. destruct (r_allocs r) as [|a l]; [by exists []|by exists [a]].
  - destruct (r_allocs r) as [|a l]; [done|]. intros ->. by left.
Qed.
Lemma wp_reg_mem_alloc r : wp mem_alloc_ok (λ b r', r_keys r' = r_keys r ∧ rest_same r r' ∧
  if b : bool then r_error r' = r_error r else r_error r' = STATUS_NO_MEMORY ∧ false ∈ r_allocs r) r.
Proof.
  unfold mem_alloc_ok. rewrite wp_bind. eapply wp_mono; [apply wp_malloc|]. intros b r1 (K & R & E & F). rewrite wp_bind, wp_when.
  destruct b; cbn [negb]; [|unfold set_error; rewrite wp_modify]; rewrite wp_ret; split_and!; auto; apply R.
Qed.

Lemma grow_subkeys_spec r x k used : r_keys r !! x = Some k → array_ok (k_last_subkey k) (k_nb_subkeys k) (k_subkeys k) used →
  k_last_subkey k + 1 = k_nb_subkeys k →
  wp (grow_subkeys x) (λ b r', rest_same r r' ∧
    if b : bool then r_error r' = r_error r ∧ ∃ k', r_keys r' = <[x := k']> (r_keys r) ∧ with_array k used k' ∧ k_last_subkey k' + 1 < k_nb_subkeys k'
    else r_keys r' = r_keys r ∧ r_error r' = STATUS_NO_MEMORY ∧ false ∈ r_allocs r) r.
Proof.
  intros Hk Ha Hfull. pose proof (ao_last _ _ _ _ Ha) as Hlast. pose proof (ao_nb _ _ _ _ Ha) as Hnb. pose proof (ao_min _ _ _ _ Ha) as Hmin.
  unfold grow_subkeys. rewrite wp_bind, (key_of_spec x r k) by done. unfold truth. destruct (Z.eqb_spec (k_nb_subkeys k) 0) as [E0|E0]; cbn [negb]; rewrite wp_bind.
  - eapply wp_mono; [apply wp_reg_mem_alloc|]. intros b r1 (K & R & E). destruct b; cbn [negb].
    + rewrite wp_bind, (update_key_spec x _ r1 k), wp_ret by by rewrite K. split; [done|]. split; [done|].
      assert (k_subkeys k = []) as Es by (destruct (k_subkeys k); [done|simpl in *; lia]).
      eexists. split; [simpl; by rewrite K|]. split; [|simpl; unfold MIN_SUBKEYS; lia]. eexists _, _, _. split; [done|]. rewrite <- Es.
      apply (array_grow _ _ _ _ 0 MIN_SUBKEYS Ha); unfold MIN_SUBKEYS; lia.
    + by rewrite wp_ret.
  - eapply wp_mono; [apply wp_malloc|]. intros b r1 (K & R & E & F). destruct b; cbn [negb].
    + rewrite wp_bind, (update_key_spec x _ r1 k), wp_ret by by rewrite K. split; [done|]. split; [done|].
      eexists. split; [simpl; by rewrite K|]. rewrite Z.quot_div_nonneg by lia. split.
      * eexists _, _, _. split; [done|]. apply (array_grow _ _ _ _ 0 _ Ha); Z.to_euclidean_division_equations; lia.
      * simpl. Z.to_euclidean_division_equations; lia.
    + unfold set_error. rewrite wp_bind, wp_modify, wp_ret. split_and!; [apply R..|done|done|auto].
Qed.

Lemma with_wow_same k : with_wow6432node (k_wow6432node k) k = k.
Proof. by destruct k. Qed.
(** [p] is inserted where [name] belongs; [p] itself is not in the array yet. *)
Definition wow_link (kx : key) (name : list Z) p : option Z :=
  if is_wow6432node name && negb (is_wow6432node (default [] (k_name kx))) then Some p else k_wow6432node kx.
Lemma key_link_name_spec r x p kx kp name names : r_keys r !! x = Some kx → r_keys r !! p = Some kp → x ≠ p → is_Some (k_name kx) →
  k_refcount kp < INT_MAX → array_ok (k_last_subkey kx) (k_nb_subkeys kx) (k_subkeys kx) (subs kx) →
  Forall2 (λ c n, ∃ kc, r_keys r !! c = Some kc ∧ k_name kc = Some n) (subs kx) names → StronglySorted before names → Forall short names → short name →
  wp (key_link_name p name x) (λ b r', rest_same r r' ∧
    if b : bool then r_error r' = r_error r ∧ ∃ f i kx', located names name f i ∧ 0 ≤ i ≤ Z.of_nat (length (subs kx)) ∧
      with_array kx (take (Z.to_nat i) (subs kx) ++ p :: drop (Z.to_nat i) (subs kx)) kx' ∧
      r_keys r' = <[p := with_refcount (k_refcount kp + 1) kp]> (<[x := with_wow6432node (wow_link kx name p) kx']> (r_keys r))
    else r_keys r' = r_keys r ∧ r_error r' = STATUS_NO_MEMORY ∧ false ∈ r_allocs r) r.
Proof.
  intros Hx Hp Hxp Hn Hcount Ha Hall Hsort Hshort Hname. unfold key_link_name. rewrite wp_bind, (key_of_spec x r kx), wp_bind by done.
  assert (wp (if k_last_subkey kx + 1 =? k_nb_subkeys kx then grow_subkeys x else mret true) (λ b r1, rest_same r r1 ∧
    if b : bool then r_error r1 = r_error r ∧ ∃ k1, r_keys r1 = <[x := k1]> (r_keys r) ∧ with_array kx (subs kx) k1 ∧ k_last_subkey k1 + 1 < k_nb_subkeys k1
    else r_keys r1 = r_keys r ∧ r_error r1 = STATUS_NO_MEMORY ∧ false ∈ r_allocs r) r) as Hgrow.
  { destruct (Z.eqb_spec (k_last_subkey kx + 1) (k_nb_subkeys kx)); [by apply grow_subkeys_spec|]. rewrite wp_ret. split; [reflexivity|]. split; [done|].
    exists kx. rewrite insert_id by done. split; [done|]. split; [exists (k_last_subkey kx), (k_nb_subkeys kx), (k_subkeys kx); split; [by destruct kx|done]|].
    pose proof (ao_last _ _ _ _ Ha). pose proof (ao_nb _ _ _ _ Ha). pose proof (ao_used _ _ _ _ Ha) as Hu%prefix_length. lia. }
  eapply wp_mono; [exact Hgrow|]. clear Hgrow. intros [] r1 [R1 H1]; cbn [negb].
  2:{ by rewrite wp_ret. }
  destruct H1 as (E1 & k1 & K1 & Hw1 & Hroom). destruct (with_array_subs _ _ _ Hw1) as [Es1 Ha1]. rewrite Es1 in Ha1.
  assert (r_keys r1 !! x = Some k1) as Hx1 by (rewrite K1; apply lookup_insert_eq).
  rewrite wp_bind, (key_of_spec x r1 k1), wp_bind by done. eapply wp_mono; [apply (find_subkey_located r1 k1 (subs kx) names name); try done|].
  { eapply list.Forall2_impl; [exact Hall|]. intros c n (kc & Hkc & Hnc). rewrite K1. destruct (decide (c = x)) as [->|Hc].
    - exists k1. rewrite lookup_insert_eq. split; [done|]. destruct Hw1 as (? & ? & ? & -> & _). simpl. congruence.
    - exists kc. by rewrite lookup_insert_ne. }
  intros [f i] r1' [-> Hloc]. cbn [fst snd] in *.
  assert (0 ≤ i ≤ Z.of_nat (length (subs kx))) as Hi.
  { pose proof (Forall2_length Hall) as Hl. destruct f; simpl in Hloc; [destruct Hloc as (n1 & n & n2 & -> & -> & _)|destruct Hloc as (n1 & n2 & -> & -> & _)];
      rewrite Hl, length_app; simpl; lia. }
  pose proof (take_drop (Z.to_nat i) (subs kx)) as Htd. rewrite <- Htd in Ha1.
  destruct (array_insert _ _ _ _ _ p Ha1 Hroom) as (s & s' & Hs & Hs' & Ha').
  rewrite length_take, Nat.min_l in Hs, Hs' by lia. rewrite Z2Nat.id in Hs, Hs' by lia.
  cbv zeta. rewrite wp_bind, Hs, wp_access, wp_bind. assert (r_keys r1 !! p = Some kp) as Hp1 by by rewrite K1, lookup_insert_ne.
  unfold grab_object. rewrite wp_bind, (key_of_spec p r1 kp), wp_bind by done. apply wp_assert. split; [by apply Z.ltb_lt|].
  rewrite (update_key_spec p _ r1 kp) by done. rewrite wp_bind, Hs', wp_access. set (r2 := set_keys _ r1).
  assert (r_keys r2 !! x = Some k1) as Hx2 by (simpl; by rewrite lookup_insert_ne).
  rewrite wp_bind, (update_key_spec x _ r2 k1) by done. set (k2 := with_subkeys _ _ s' k1). set (r3 := set_keys _ r2).
  assert (r_keys r3 !! x = Some k2) as Hx3 by apply lookup_insert_eq. rewrite wp_bind, (key_of_spec x r3 k2), wp_bind by done.
  assert (k_name k2 = k_name kx ∧ k_wow6432node k2 = k_wow6432node kx ∧ k_nb_subkeys k1 = k_nb_subkeys k2) as (En2 & Ew2 & _).
  { destruct Hw1 as (? & ? & ? & -> & _). done. }
  rewrite En2. destruct Hn as [nx Hn]. rewrite Hn, wp_access, wp_bind, wp_when.
  set (kx' := k2). assert (with_array kx (take (Z.to_nat i) (subs kx) ++ p :: drop (Z.to_nat i) (subs kx)) kx') as Hwa.
  { destruct Hw1 as (last & nb & s0 & Ek1 & _). exists (k_last_subkey k1 + 1), (k_nb_subkeys k1), s'. split; [|done]. unfold kx', k2. by rewrite Ek1. }
  assert (∀ keys', keys' = <[p := with_refcount (k_refcount kp + 1) kp]> (<[x := with_wow6432node (wow_link kx name p) kx']> (r_keys r)) →
    wp (mret true) (λ b r', rest_same r r' ∧
      if b : bool then r_error r' = r_error r ∧ ∃ f i kx', located names name f i ∧ 0 ≤ i ≤ Z.of_nat (length (subs kx)) ∧
        with_array kx (take (Z.to_nat i) (subs kx) ++ p :: drop (Z.to_nat i) (subs kx)) kx' ∧
        r_keys r' = <[p := with_refcount (k_refcount kp + 1) kp]> (<[x := with_wow6432node (wow_link kx name p) kx']> (r_keys r))
      else r_keys r' = r_keys r ∧ r_error r' = STATUS_NO_MEMORY ∧ false ∈ r_allocs r)
      (set_keys keys' r1)) as Hdone.
  { intros keys' ->. rewrite wp_ret. split; [done|]. split; [done|]. by exists f, i, kx'. }
  assert (wow_link kx name p = if is_wow6432node name && negb (is_wow6432node nx) then Some p else k_wow6432node kx) as Ewl by (unfold wow_link; by rewrite Hn).
  destruct (is_wow6432node name && negb (is_wow6432node nx)).
  - rewrite (update_key_spec x _ r3 k2) by done. apply Hdone. simpl. rewrite Ewl, insert_insert_eq. rewrite K1.
    rewrite (insert_insert_ne _ x p) by done. by rewrite insert_insert_eq.
  - apply Hdone. rewrite Ewl, <- Ew2, with_wow_same. simpl. rewrite K1, (insert_insert_ne _ x p) by done. by rewrite insert_insert_eq.
Qed.

(** ** Unlinking *)

Lemma release_decr r p k : r_keys r !! p = Some k → 2 ≤ k_refcount k → ∀ Q,
  Q tt (set_keys (<[p := with_refcount (k_refcount k - 1) k]> (r_keys r)) r) → wp (release p) Q r.
Proof.
  intros Hk H2 Q HQ. unfold release. rewrite wp_bind, wp_gets. unfold id.
  assert (truth (k_refcount k) = true ∧ truth (k_refcount k - 1) = true) as [Ht1 Ht2].
  { unfold truth. rewrite !negb_true_iff, !Z.eqb_neq. lia. }
  generalize (size (r_keys r)). intros fuel. destruct fuel as [|fuel]; cbn [release_object]; rewrite wp_bind, (key_of_spec p r k) by done;
    rewrite wp_bind, Ht1; apply wp_assert; (split; [done|]); rewrite wp_bind, (update_key_spec p _ r k) by done; by rewrite Ht2, wp_ret.
Qed.
Lemma index_of_spec k l1 l2 p : array_ok (k_last_subkey k) (k_nb_subkeys k) (k_subkeys k) (subs k) → subs k = l1 ++ p :: l2 → p ∉ l1 →
  index_of k p = Some (length l1).
Proof.
  intros Ha Hs Hp. unfold index_of. fold (subs k). pose proof (ao_last _ _ _ _ Ha). pose proof (ao_used _ _ _ _ Ha) as Hu%prefix_length.
  rewrite (proj2 (Z.ltb_ge _ _)) by lia. f_equal. rewrite Hs.
  assert (list_find (λ c, c = p) (l1 ++ p :: l2) = Some (length l1, p)) as ->; [|done].
  apply list_find_Some. split; [by apply list_lookup_middle|]. split; [done|]. intros j y Hj Hlt. rewrite lookup_app_l in Hj by done.
  intros ->. apply Hp. by eapply list_elem_of_lookup_2.
Qed.

Definition wow_unlink (kx : key) p : option Z := if decide (k_wow6432node kx = Some p) then None else k_wow6432node kx.
Lemma wp_unlink_wow r x k kx p Q : r_keys r !! x = Some k → k_wow6432node k = k_wow6432node kx →
  Q tt (set_keys (<[x := with_wow6432node (wow_unlink kx p) k]> (r_keys r)) r) →
  wp (when (bool_decide (k_wow6432node kx = Some p)) (update_key x (with_wow6432node None))) Q r.
Proof.
  intros Hx E HQ. rewrite wp_when. unfold wow_unlink in HQ. case_bool_decide as Hw.
  - rewrite decide_True in HQ by done. by rewrite (update_key_spec x _ r k).
  - rewrite decide_False in HQ by done. rewrite <- E, with_wow_same, insert_id in HQ by done. by destruct r.
Qed.
Lemma unlink_spec r p kp name x kx l1 l2 : r_keys r !! p = Some kp → k_name kp = Some name → k_parent kp = Some x → r_keys r !! x = Some kx → x ≠ p →
  array_ok (k_last_subkey kx) (k_nb_subkeys kx) (k_subkeys kx) (subs kx) → subs kx = l1 ++ p :: l2 → p ∉ l1 → 2 ≤ k_refcount kp →
  wp (unlink_named_object release p) (λ _ r', rest_same r r' ∧ r_error r' = r_error r ∧ ∃ kx', with_array kx (l1 ++ l2) kx' ∧
    r_keys r' = <[p := with_refcount (k_refcount kp - 1) (with_name None None kp)]> (<[x := with_wow6432node (wow_unlink kx p) kx']> (r_keys r))) r.
Proof.
  intros Hp Hname Hpar Hx Hxp Ha Hs Hnot H2. unfold unlink_named_object. rewrite wp_bind, (key_of_spec p r kp) by done. rewrite Hname, wp_bind, (update_key_spec p _ r kp), Hpar by done.
  set (kp1 := with_name None None kp). set (r1 := set_keys _ r). unfold key_unlink_name.
  assert (r_keys r1 !! x = Some kx) as Hx1 by (simpl; by rewrite lookup_insert_ne).
  assert (r_keys r1 !! p = Some kp1) as Hp1 by apply lookup_insert_eq.
  rewrite wp_bind, (key_of_spec x r1 kx), wp_bind by done. rewrite (index_of_spec kx l1 l2 p) by done. cbn [fmap option_fmap option_map]. rewrite wp_access, wp_bind.
  apply wp_assert. pose proof (ao_last _ _ _ _ Ha) as Hlast. rewrite Hs, length_app in Hlast. simpl in Hlast. split; [apply Z.leb_le; lia|].
  rewrite Hs in Ha. destruct (array_remove _ _ _ _ _ _ Ha) as (s & Hsh & Ha'). rewrite wp_bind, Hsh, wp_access, wp_bind, (update_key_spec x _ r1 kx) by done.
  set (k2 := with_subkeys _ _ s kx). set (r2 := set_keys _ r1). assert (r_keys r2 !! x = Some k2) as Hx2 by apply lookup_insert_eq.
  set (k3 := with_wow6432node (wow_unlink kx p) k2). set (r3 := set_keys (<[x := k3]> (r_keys r2)) r2).
  rewrite wp_bind. apply (wp_unlink_wow r2 x k2 kx p); [done..|]. fold k3. fold r3. assert (r_keys r3 !! p = Some kp1) as Hp3 by (simpl; rewrite !lookup_insert_ne by done; done).
  rewrite wp_bind. eapply release_decr; [exact Hp3|done|]. set (kp2 := with_refcount _ kp1). set (r4 := set_keys _ r3).
  assert (r_keys r4 !! x = Some k3) as Hx4 by (simpl; rewrite lookup_insert_ne by done; apply lookup_insert_eq).
  rewrite wp_bind, (key_of_spec x r4 k3) by done. cbv zeta.
  assert (r_keys r4 = <[p := kp2]> (<[x := k3]> (r_keys r))) as K4.
  { simpl. rewrite !insert_insert_eq. rewrite (insert_insert_ne _ x p), insert_insert_eq by done. done. }
  assert (with_array kx (l1 ++ l2) k2) as Hwa by by exists (k_last_subkey kx - 1), (k_nb_subkeys kx), s.
  destruct ((MIN_SUBKEYS <? k_nb_subkeys k3) && (k_last_subkey k3 <? k_nb_subkeys k3 ÷ 2)) eqn:Eshrink.
  2:{ rewrite wp_ret. split; [done|]. split; [done|]. by exists k2. }
  apply andb_true_iff in Eshrink as [E1%Z.ltb_lt E2%Z.ltb_lt]. simpl in E1, E2. set (n := if _ <? MIN_SUBKEYS then _ else _).
  assert (MIN_SUBKEYS ≤ n ∧ k_last_subkey kx - 1 + 1 ≤ n) as [Hn1 Hn2].
  { unfold n, MIN_SUBKEYS in *. simpl. rewrite Z.quot_div_nonneg in E2 by lia. rewrite Z.quot_div_nonneg by lia. case_match; Z.to_euclidean_division_equations; lia. }
  rewrite wp_bind. eapply wp_mono; [apply wp_malloc|]. intros b r5 (K5 & R5 & E5 & _). destruct b; cbn [negb].
  - rewrite (update_key_spec x _ r5 k3) by by rewrite K5. split; [apply R5|]. split; [done|].
    exists (with_subkeys (k_last_subkey kx - 1) n (resize 0 n s) kx). split.
    + eexists _, _, _. split; [done|]. apply (array_shrink _ _ _ _ 0 n Ha'); unfold MIN_SUBKEYS in *; lia.
    + simpl. rewrite K5, K4, insert_insert_ne, insert_insert_eq by done. done.
  - rewrite wp_ret. split; [apply R5|]. split; [done|]. exists k2. split; [done|]. by rewrite K5.
Qed.
End links.

(** * A new key in the tree, and a key that leaves it *)

Section add.
Context `{CaseMap} (root : Z).
Implicit Types (p q c x : Z) (k : key) (r : registry) (ext : Z → Z) (T : gmap Z node).

(** ** The same on the level of nodes *)

Definition with_node_wow (w : option Z) (nd : node) : node :=
  Node (nd_name nd) (nd_parent nd) (nd_class nd) (nd_flags nd) w (nd_values nd).
Definition node_wow_link (nd : node) (name : list Z) p : option Z :=
  if is_wow6432node name && negb (is_wow6432node (default [] (nd_name nd))) then Some p else nd_wow nd.
Definition node_wow_unlink (nd : node) p : option Z := if decide (nd_wow nd = Some p) then None else nd_wow nd.
(** The tree with the node [nd], named [name], as a child of [x]. *)
Definition add_node T x p (name : list Z) (nd : node) : gmap Z node :=
  <[p := nd]> (alter (λ ndx, with_node_wow (node_wow_link ndx name p) ndx) x T).
(** The tree with [p], a child of [x], cut off and marked as deleted. *)
Definition cut_node (nd : node) : node := Node None None (nd_class nd) (Z.lor (nd_flags nd) KEY_DELETED) (nd_wow nd) (nd_values nd).
Definition remove_node T x p : gmap Z node :=
  alter cut_node p (alter (λ ndx, with_node_wow (node_wow_unlink ndx p) ndx) x T).

Lemma abs_insert r r' x k : r_keys r' = <[x := k]> (r_keys r) → abs r' = <[x := abs_key k]> (abs r).
Proof. intros E. unfold abs. by rewrite E, fmap_insert. Qed.
Lemma with_array_abs k used k' w : with_array k used k' → abs_key (with_wow6432node w k') = with_node_wow w (abs_key k).
Proof. by intros (last & nb & s & -> & _). Qed.
Lemma with_array_refcount k used k' n : with_array k used k' → with_array (with_refcount n k) used (with_refcount n k').
Proof. intros (last & nb & s & -> & Ha). by exists last, nb, s. Qed.
Lemma with_array_same k used k' : with_array k used k' →
  k_name k' = k_name k ∧ k_parent k' = k_parent k ∧ k_refcount k' = k_refcount k ∧ k_flags k' = k_flags k ∧ k_wow6432node k' = k_wow6432node k ∧ (values_ok k → values_ok k').
Proof. intros (last & nb & s & -> & Ha). split_and!; try done. by apply values_ok_ext. Qed.

(** ** Insertion *)

(** A new key: two references, no subkeys and no values. *)
Definition fresh_key x (name : list Z) k : Prop :=
  k_refcount k = 2 ∧ k_name k = Some name ∧ k_parent k = Some x ∧ k_last_subkey k = -1 ∧ k_nb_subkeys k = 0 ∧ k_subkeys k = [] ∧
  k_wow6432node k = None ∧ k_last_value k = -1 ∧ k_nb_values k = 0 ∧ k_values k = [] ∧ has_flag k KEY_DELETED = false.
Lemma fresh_values x name k : fresh_key x name k → values_ok k ∧ value_map k = ∅.
Proof.
  intros (_ & _ & _ & _ & _ & _ & _ & E1 & E2 & E3 & _). assert (used k = []) as E by (unfold used; rewrite E1; done).
  split; [|unfold value_map; by rewrite E]. split; rewrite ?E1, ?E2, ?E3, ?E; try done; [by left|constructor..].
Qed.

(** Subkeys exist, and determine their names. *)
Lemma subs_exist r ext q kq c : tree_ok root r ext → r_keys r !! q = Some kq → c ∈ subs kq →
  ∃ kc n, r_keys r !! c = Some kc ∧ k_parent kc = Some q ∧ k_name kc = Some n.
Proof.
  intros Hr Hq [j Hj]%list_elem_of_lookup. destruct (ko_subs _ _ _ _ _ (to_keys _ _ _ Hr q kq Hq)) as (ns & Hns & _).
  destruct (Forall2_lookup_l _ _ _ _ _ Hns Hj) as (n & _ & kc & ?). eauto.
Qed.
Lemma links_names (m : gmap Z key) p l ns ns' : Forall2 (links_to m p) l ns' → Forall2 (links_to m p) l ns → ns' = ns.
Proof.
  intros H1. revert ns. induction H1 as [|c n l ns' Hc _ IH]; intros ns H2; inversion H2; subst; [done|].
  f_equal; [by eapply links_to_inj|by apply IH].
Qed.
Lemma tree_ok_add r r' ext x p name kx kx' kp : tree_ok root r ext → r_keys r !! x = Some kx → is_Some (k_name kx) →
  r_keys r !! p = None → p < r_next r' → r_next r ≤ r_next r' → child (abs r) x name = None →
  Z.of_nat (length name) ≤ MAX_NAME_LEN → backslash ∉ name → fresh_key x name kp → ∀ names i,
  Forall2 (links_to (r_keys r) x) (subs kx) names → located names name false i →
  with_array kx (take (Z.to_nat i) (subs kx) ++ p :: drop (Z.to_nat i) (subs kx)) kx' →
  r_keys r' = <[p := kp]> (<[x := with_wow6432node (wow_link kx name p) kx']> (r_keys r)) →
  tree_ok root r' (bump p 1 ext).
Proof.
  intros Hr Hx Hnx Hp Hpn Hnext Hchild Hlen Hback Hfresh names i Hall Hloc Hwa Ek.
  assert (x ≠ p) as Hxp by congruence. pose proof (with_array_same _ _ _ Hwa) as (En & Ep & Er & Ef & Ew & Hv).
  pose proof (with_array_subs _ _ _ Hwa) as [Es Harr]. pose proof (to_keys _ _ _ Hr x kx Hx) as Hkx.
  pose proof Hfresh as (F1 & F2 & F3 & F4 & F5 & F6 & F7 & F8 & F9 & F10 & F11).
  assert (∀ q kq, r_keys r !! q = Some kq → p ∉ subs kq) as Hnot.
  { intros q kq Hq Hin. destruct (subs_exist _ _ _ _ _ Hr Hq Hin) as (kc & n & Hkc & _). congruence. }
  assert (r_keys r' !! p = Some kp) as Hp' by (rewrite Ek; apply lookup_insert_eq).
  set (kx2 := with_wow6432node (wow_link kx name p) kx') in *.
  assert (r_keys r' !! x = Some kx2) as Hx' by (rewrite Ek, lookup_insert_ne by done; apply lookup_insert_eq).
  assert (∀ q kq, r_keys r !! q = Some kq → ∃ kq', r_keys r' !! q = Some kq' ∧ k_parent kq' = k_parent kq ∧ k_name kq' = k_name kq) as Hold.
  { intros q kq Hq. assert (q ≠ p) as Hqp by congruence. destruct (decide (q = x)) as [->|Hqx].
    - assert (kq = kx) as -> by congruence. by exists kx2.
    - exists kq. by rewrite Ek, !lookup_insert_ne. }
  assert (∀ q c n, links_to (r_keys r) q c n → links_to (r_keys r') q c n) as Hlinks.
  { intros q c n (kc & Hkc & Hpc & Hnc). destruct (Hold c kc Hkc) as (kc' & Hkc' & E1 & E2). exists kc'. split_and!; congruence. }
  assert (links_to (r_keys r') x p name) as Hlp by by exists kp.
  destruct (ko_subs _ _ _ _ _ Hkx) as (names' & Hall' & Hsort). assert (names' = names) as -> by by eapply links_names.
  eapply (tree_ok_relink root r r' ext (bump p 1 ext) x p kx kx2 kp); try done.
  - by apply (values_ok_ext kx'), Hv, Hkx.
  - change (subs kx2) with (subs kx'). rewrite Es. simpl in Hloc. destruct Hloc as (ns1 & ns2 & E & -> & Hb1 & Hb2). rewrite Nat2Z.id.
    exists (ns1 ++ name :: ns2). rewrite E in Hall. split.
    + assert (length ns1 = length (take (length ns1) (subs kx))) as El by (pose proof (Forall2_length Hall) as Hl; rewrite length_take, Hl, length_app; lia).
      rewrite <- (take_drop (length ns1) (subs kx)) in Hall. apply Forall2_app_inv in Hall as [H1 H2]; [|done].
      apply Forall2_app; [eapply list.Forall2_impl; eauto|]. constructor; [done|]. eapply list.Forall2_impl; eauto.
    + rewrite E in Hsort. by apply sorted_insert.
  - intros c. change (k_wow6432node kx2) with (wow_link kx name p). change (subs kx2) with (subs kx'). rewrite Es. unfold wow_link.
    destruct (is_wow6432node name && _) eqn:Hw.
    + intros [= <-]. apply andb_true_iff in Hw as [Hw _]. split; [set_solver|]. by exists name.
    + intros Hc. destruct (ko_wow _ _ _ _ _ Hkx c Hc) as (Hin & n & Hl & Hn). split; [|exists n; auto].
      rewrite <- (take_drop (Z.to_nat i) (subs kx)) in Hin. set_solver.
  - intros c _ Hin. change (subs kx2) with (subs kx'). rewrite Es. rewrite <- (take_drop (Z.to_nat i) (subs kx)) in Hin. set_solver.
  - intros q kq _ _. apply Hnot.
  - assert (subs kp = []) as Esp by (unfold subs; rewrite F4; done). pose proof (to_ext _ _ _ Hr p Hp) as He.
    assert (p ≠ root) as Hroot by (intros ->; destruct (to_root _ _ _ Hr); congruence).
    assert (p ∈ subs kx2) as Hin by (change (subs kx2) with (subs kx'); rewrite Es; set_solver).
    split.
    + unfold refs. rewrite F1, F3, bump_same, He. by rewrite (bool_decide_false (p = root)) by done.
    + rewrite bump_same. lia.
    + lia.
    + rewrite Esp, F4, F5, F6. split; [done|done|by exists []|by left].
    + exists []. rewrite Esp. split; constructor.
    + intros q. rewrite F3. intros [= <-]. by exists kx2.
    + rewrite F2, F3. split_and!; [done|done| |done]. by split.
    + intros c. by rewrite F7.
    + by eapply fresh_values.
  - intros c kc Hc Hpc. destruct (ko_parent _ _ _ _ _ (to_keys _ _ _ Hr c kc Hc) p Hpc) as (kq & Hkq & _). congruence.
  - intros q Hq. by apply bump_other.
  - assert (∀ y l, chain (r_keys r) y l → chain (r_keys r') y l) as Hch.
    { intros y l. apply chain_mono. intros q k _ Hk. destruct (Hold q k Hk) as (k' & Hk' & E1 & E2). exists k'. by rewrite E2. }
    intros q kq Hq Hn. destruct (decide (q = p)) as [->|Hqp].
    + assert (kq = kp) as -> by congruence. destruct (to_rooted _ _ _ Hr x kx Hx Hnx) as [l Hl]. exists (p :: l). split; [done|]. exists kp.
      split; [done|]. split; [done|]. rewrite F3. by apply Hch.
    + destruct (r_keys r !! q) as [kq0|] eqn:Hq0.
      * destruct (Hold q kq0 Hq0) as (kq' & Hkq' & E1 & E2). assert (kq' = kq) as -> by congruence. destruct (to_rooted _ _ _ Hr q kq0 Hq0) as [l Hl]; [by rewrite <- E2|].
        exists l. by apply Hch.
      * rewrite Ek, lookup_insert_ne, lookup_insert_ne in Hq by (congruence || done). congruence.
Qed.

(** ** Removal *)

(** The key without a name and with one reference less. *)
Definition removed_key k : key := with_refcount (k_refcount k - 1) (with_name None None (with_flags (Z.lor (k_flags k) KEY_DELETED) k)).
Lemma deleted_flag k : has_flag (removed_key k) KEY_DELETED = true.
Proof.
  unfold has_flag, removed_key, truth. simpl. rewrite Z.land_lor_distr_l. destruct (Z.eqb_spec (Z.lor (Z.land (k_flags k) KEY_DELETED) (Z.land KEY_DELETED KEY_DELETED)) 0) as [E|]; [|done].
  by apply Z.lor_eq_0_iff in E as [_ E].
Qed.
Lemma nodup_middle (l1 l2 : list Z) p : NoDup (l1 ++ p :: l2) → p ∉ l1 ∧ p ∉ l2.
Proof.
  intros (_ & Hd & Hnd)%list.NoDup_app. apply list.NoDup_cons in Hnd as [Hn2 _]. split; [|done]. intros Hp. by apply (Hd p Hp); left.
Qed.
Lemma subkey_parent r ext p kp x : tree_ok root r ext → r_keys r !! p = Some kp → k_parent kp = Some x →
  ∃ kx l1 l2, r_keys r !! x = Some kx ∧ subs kx = l1 ++ p :: l2 ∧ p ∉ l1 ∧ p ∉ l2 ∧ x ≠ p ∧ is_Some (k_name kx) ∧ p ≠ root ∧ is_Some (k_name kp).
Proof.
  intros Hr Hp Hpar. pose proof (to_keys _ _ _ Hr p kp Hp) as Hkp. destruct (ko_parent _ _ _ _ _ Hkp x Hpar) as (kx & Hx & Hin).
  pose proof (subs_nodup _ _ _ _ _ Hr Hx) as Hnd. apply list_elem_of_split in Hin as (l1 & l2 & E). exists kx, l1, l2. rewrite E in Hnd.
  apply nodup_middle in Hnd as [Hn1 Hn2].
  pose proof (ko_named _ _ _ _ _ Hkp) as Hnamed. destruct (k_name kp) as [n|] eqn:Hn; [|by destruct Hnamed as (_ & ? & _); congruence].
  assert (p ≠ root) as Hroot by (intros ->; destruct Hnamed as (_ & _ & Hiff & _); rewrite (proj2 Hiff) in Hpar by done; done).
  destruct (to_rooted _ _ _ Hr p kp Hp) as [l Hl]; [by rewrite Hn|]. pose proof (chain_nodup _ _ _ Hl) as Hndl. destruct l as [|y l]; [done|].
  destruct Hl as [[= <-] (k & Hk & _ & Hl)]. assert (k = kp) as -> by congruence. rewrite Hpar in Hl. destruct l as [|y l]; [done|]. destruct Hl as [[= <-] (k & Hk' & Hnx & _)].
  assert (k = kx) as -> by congruence. apply list.NoDup_cons in Hndl as [Hpl _]. split_and!; try done. set_solver.
Qed.
Lemma removed_names r ext x p kx l1 l2 : tree_ok root r ext → r_keys r !! x = Some kx → subs kx = l1 ++ p :: l2 →
  ∃ ns, Forall2 (links_to (r_keys r) x) (l1 ++ l2) ns ∧ StronglySorted before ns.
Proof.
  intros Hr Hx E. destruct (ko_subs _ _ _ _ _ (to_keys _ _ _ Hr x kx Hx)) as (ns & Hall & Hs). rewrite E in Hall.
  apply Forall2_app_inv_l in Hall as (ns1 & ns2 & H1 & H2 & ->). apply Forall2_cons_inv_l in H2 as (n & ns2' & _ & H2 & ->).
  exists (ns1 ++ ns2'). split; [by apply Forall2_app|]. by apply sorted_middle in Hs as (_ & _ & Hs).
Qed.

Lemma tree_ok_remove r r' ext x p kx kx' kp l1 l2 : tree_ok root r ext → r_keys r !! p = Some kp → k_parent kp = Some x → 1 ≤ ext p → subs kp = [] →
  r_keys r !! x = Some kx → subs kx = l1 ++ p :: l2 → with_array kx (l1 ++ l2) kx' →
  r_keys r' = <[p := removed_key kp]> (<[x := with_wow6432node (wow_unlink kx p) kx']> (r_keys r)) → r_next r' = r_next r →
  tree_ok root r' ext.
Proof.
  intros Hr Hp Hpar Hext Hsubs Hx Es0 Hwa Ek Enext. pose proof (to_keys _ _ _ Hr p kp Hp) as Hkp. pose proof (to_keys _ _ _ Hr x kx Hx) as Hkx.
  destruct (subkey_parent _ _ _ _ _ Hr Hp Hpar) as (kx0 & l1' & l2' & Hx0 & Es0' & Hn1 & Hn2 & Hxp & Hnx & Hroot & Hnp).
  assert (kx0 = kx) as -> by congruence. rewrite Es0 in Es0'.
  assert (p ∉ l1 ++ l2) as Hnot.
  { pose proof (subs_nodup _ _ _ _ _ Hr Hx) as Hnd. rewrite Es0 in Hnd. apply nodup_middle in Hnd. set_solver. }
  pose proof (with_array_same _ _ _ Hwa) as (En & Ep & Er & Ef & Ew & Hv). pose proof (with_array_subs _ _ _ Hwa) as [Es Harr].
  set (kx2 := with_wow6432node (wow_unlink kx p) kx') in *.
  assert (∀ q kq, q ≠ p → r_keys r !! q = Some kq → ∃ kq', r_keys r' !! q = Some kq' ∧ k_parent kq' = k_parent kq ∧ k_name kq' = k_name kq) as Hold.
  { intros q kq Hqp Hq. destruct (decide (q = x)) as [->|Hqx]; [assert (kq = kx) as -> by congruence; exists kx2|exists kq];
      rewrite Ek, lookup_insert_ne by done; [by rewrite lookup_insert_eq|by rewrite lookup_insert_ne]. }
  assert (∀ q c n, c ≠ p → links_to (r_keys r) q c n → links_to (r_keys r') q c n) as Hlinks.
  { intros q c n Hcp (kc & Hkc & Hpc & Hnc). destruct (Hold c kc Hcp Hkc) as (kc' & Hkc' & E1 & E2). exists kc'. split_and!; congruence. }
  assert (∀ c kc, r_keys r !! c = Some kc → k_parent kc ≠ Some p) as Hleaf.
  { intros c kc Hc Hpc. destruct (ko_parent _ _ _ _ _ (to_keys _ _ _ Hr c kc Hc) p Hpc) as (k & Hk & Hin). assert (k = kp) as -> by congruence. rewrite Hsubs in Hin. by apply elem_of_nil in Hin. }
  eapply (tree_ok_relink root r r' ext ext x p kx kx2 (removed_key kp)); try done.
  - by apply (values_ok_ext kx'), Hv, Hkx.
  - change (subs kx2) with (subs kx'). rewrite Es. destruct (removed_names _ _ _ _ _ _ _ Hr Hx Es0) as (ns & Hall & Hs). exists ns. split; [|done].
    apply Forall2_same_length_lookup_2; [by apply (Forall2_length Hall)|]. intros i c n Hc Hn.
    apply Hlinks; [|by eapply Forall2_lookup_lr]. intros ->. apply Hnot. by eapply list_elem_of_lookup_2.
  - intros c. change (k_wow6432node kx2) with (wow_unlink kx p). change (subs kx2) with (subs kx'). rewrite Es. unfold wow_unlink. case_decide as Hw; [done|]. intros Hc.
    destruct (ko_wow _ _ _ _ _ Hkx c Hc) as (Hin & n & Hl & Hwn). assert (c ≠ p) by congruence. rewrite Es0 in Hin. split; [set_solver|]. exists n. auto.
  - intros c Hcp. change (subs kx2) with (subs kx'). rewrite Es, Es0. set_solver.
  - intros q kq Hqp Hqx Hq Hin. destruct (subs_exist _ _ _ _ _ Hr Hq Hin) as (kc & n & Hkc & Hpc & _). congruence.
  - pose proof Hkp as [R1 R2 R3 R4 R5 R6 R7 R8 R9]. unfold refs in R1. rewrite Hpar in R1. rewrite (bool_decide_false (p = root)) in R1 by done.
    rewrite bool_decide_true in R1 by eauto. change (b2z true) with 1 in R1. change (b2z false) with 0 in R1.
    split; try done; simpl; try lia.
    + unfold refs. simpl. rewrite (bool_decide_false (p = root)) by done. simpl. lia.
    + exists []. change (subs (removed_key kp)) with (subs kp). rewrite Hsubs. split; constructor.
    + split; [apply deleted_flag|]. by split_and!.
    + intros c Hc. destruct (R8 c Hc) as [Hin _]. rewrite Hsubs in Hin. by apply elem_of_nil in Hin.
    + apply (values_ok_ext kp); done.
  - intros c kc Hc Hpc. by destruct (Hleaf c kc Hc).
  - intros q kq Hq Hn. assert (q ≠ p) as Hqp by (intros ->; rewrite Ek, lookup_insert_eq in Hq; injection Hq as <-; by destruct Hn).
    assert (∃ kq0, r_keys r !! q = Some kq0 ∧ is_Some (k_name kq0)) as (kq0 & Hq0 & Hn0).
    { rewrite Ek, lookup_insert_ne in Hq by done. apply lookup_insert_Some in Hq as [[<- <-]|[_ Hq]]; eauto. }
    destruct (to_rooted _ _ _ Hr q kq0 Hq0 Hn0) as [l Hl]. exists l. eapply chain_mono; [|exact Hl]. intros z kz Hz Hkz.
    assert (z ≠ p) as Hzp.
    { intros ->. destruct (chain_below _ _ _ _ Hl Hz) as [?|(y & ky & Hy & Hpy)]; [done|]. by apply (Hleaf y ky). }
    destruct (Hold z kz Hzp Hkz) as (kz' & Hz' & E1 & E2). exists kz'. by rewrite E2.
  - lia.
  - rewrite Enext. apply (to_fresh _ _ _ Hr). eauto.
Qed.
End add.
