(* ===== verification/RegTreeCreate.v ===== *)
(** * Creation of keys *)

From stdpp Require Import sorting.
From S2P Require Import Prelude.
From S2P Require Import Atoms.
From S2P Require Import AtomsInv.
From S2P Require Import RegKeys.
From S2P Require Import RegArrays.
From S2P Require Import RegTouch.
From S2P Require Import RegTree.
From S2P Require Import RegTreeInv.
From S2P Require Import RegTreeLookup.
From S2P Require Import RegTreeLinks.

Section create.
Context `{CaseMap} (root : Z).
Implicit Types (p q c x : Z) (k : key) (r : registry) (ext : Z → Z) (T : gmap Z node).

(** ** The node of a new key *)

Definition new_flags (options : Z) : Z :=
  Z.lor (if has_attr options REG_OPTION_CREATE_LINK then KEY_SYMLINK else 0) (if has_attr options REG_OPTION_VOLATILE then KEY_VOLATILE else 0).
Definition new_node x name (data : key_init_data) : node := Node (Some name) (Some x) (kd_class data) (new_flags (kd_options data)) None ∅.
(** A key below a volatile one is volatile. *)
Definition may_create (volatile : bool) (data : key_init_data) : bool := has_attr (kd_options data) REG_OPTION_VOLATILE || negb volatile.

Lemma set_keys_same r m : r_keys r = m → set_keys m r = r.
Proof. intros <-. by destruct r. Qed.
Lemma key_init_spec r p kp x kx name data : r_keys r !! p = Some kp → k_refcount kp = 2 → k_name kp = Some name → k_parent kp = Some x →
  r_keys r !! x = Some kx → x ≠ p →
  wp (key_init p data) (λ ok r', rest_same r r' ∧ ∃ kp', r_keys r' = <[p := kp']> (r_keys r) ∧ fresh_key x name kp' ∧
    if ok : bool then r_error r' = r_error r ∧ abs_key kp' = new_node x name data ∧ may_create (has_flag kx KEY_VOLATILE) data = true
    else r_error r' = STATUS_NO_MEMORY ∧ false ∈ r_allocs r ∨
         r_error r' = STATUS_CHILD_MUST_BE_VOLATILE ∧ may_create (has_flag kx KEY_VOLATILE) data = false) r.
Proof.
  intros Hp Hcount Hname Hpar Hx Hxp. unfold key_init. rewrite wp_bind, (key_of_spec p r kp), wp_bind, get_parent_spec, Hpar by (done || by rewrite Hname).
  rewrite wp_bind, (update_key_spec p _ r kp) by done. set (k1 := Key _ _ _ _ _ _ _ _ _ _ _ _ _ _). set (r1 := set_keys _ r).
  assert (r_keys r1 !! p = Some k1) as Hp1 by apply lookup_insert_eq.
  assert (fresh_key x name k1) as Hf1 by by repeat split.
  assert (∀ cl f, Z.land f KEY_DELETED = 0 → fresh_key x name (with_flags f (with_class cl k1))) as Hfresh.
  { intros cl f Hf. repeat split; try done. unfold has_flag. simpl. by rewrite Hf. }
  rewrite wp_bind. apply (wp_mono _ (λ b r2, r_keys r2 = r_keys r1 ∧ rest_same r1 r2 ∧
    if b : bool then r_error r2 = r_error r1 else r_error r2 = STATUS_NO_MEMORY ∧ false ∈ r_allocs r1)).
  { destruct (truth _); [apply wp_reg_mem_alloc|rewrite wp_ret]. by split_and!. }
  intros ok r2 (K2 & R2 & E2). destruct ok; cbn [negb].
  2:{ rewrite wp_ret. split; [done|]. exists k1. rewrite K2. split; [done|]. split; [done|]. by left. }
  rewrite wp_bind, (update_key_spec p _ r2 k1) by by rewrite K2. set (r3 := set_keys _ r2). set (k3 := with_class (kd_class data) k1).
  assert (r_keys r3 = <[p := k3]> (r_keys r)) as K3 by (simpl; rewrite K2; simpl; apply insert_insert_eq).
  set (k4 := with_flags (if has_attr (kd_options data) REG_OPTION_CREATE_LINK then Z.lor 0 KEY_SYMLINK else 0) k3).
  set (r4 := set_keys (<[p := k4]> (r_keys r)) r3).
  rewrite wp_bind. apply (wp_mono _ (λ _ r', r' = r4)).
  { rewrite wp_when. unfold r4, k4, has_attr. destruct (truth _).
    - rewrite (update_key_spec p _ r3 k3) by (rewrite K3; apply lookup_insert_eq). by rewrite K3, insert_insert_eq.
    - symmetry. by apply set_keys_same. }
  intros _ ? ->. assert (r_keys r4 !! p = Some k4) as Hp4 by apply lookup_insert_eq.
  assert (∀ f, r_keys (set_keys (<[p := with_flags f k4]> (r_keys r4)) r4) = <[p := with_flags f (with_class (kd_class data) k1)]> (r_keys r)) as Kf
    by (intros f; simpl; by rewrite insert_insert_eq).
  assert (rest_same r r4) as R4 by apply R2. unfold may_create, has_attr.
  destruct (truth (Z.land (kd_options data) REG_OPTION_VOLATILE)) eqn:Hvol; cbn [orb negb].
  - rewrite wp_bind, (update_key_spec p _ r4 k4), wp_ret by done. split; [done|]. eexists. split; [apply Kf|]. split.
    + apply Hfresh. simpl. by destruct (has_attr _ _).
    + split; [done|]. split; [|done]. unfold abs_key, new_node, new_flags. simpl. unfold has_attr. rewrite Hvol. f_equal; [done|done|]. by destruct (truth (Z.land _ REG_OPTION_CREATE_LINK)).
  - rewrite wp_bind, wp_bind, (key_of_spec x r4 kx), wp_ret by (simpl; by rewrite lookup_insert_ne). destruct (has_flag kx KEY_VOLATILE); cbn [negb].
    + unfold set_error. rewrite wp_bind, wp_modify, wp_ret. split; [done|]. exists k4. split; [done|]. split; [|by right].
      apply Hfresh. by destruct (has_attr _ _).
    + rewrite wp_bind, (update_key_spec p _ r4 k4), wp_ret by done. split; [done|]. eexists. split; [apply Kf|]. split.
      * apply Hfresh. simpl. by destruct (has_attr _ _).
      * split; [done|]. split; [|done]. unfold abs_key, new_node, new_flags. simpl. unfold has_attr. rewrite Hvol. f_equal; [done|done|]. by destruct (truth (Z.land _ REG_OPTION_CREATE_LINK)).
Qed.

(** ** Linking back and forth *)

Lemma tree_ok_fields r r' ext : tree_ok root r ext → r_keys r' = r_keys r → r_next r ≤ r_next r' → tree_ok root r' ext.
Proof.
  intros Hr E Hn. eapply tree_ok_equiv; [exact Hr|..].
  - intros p. rewrite E. apply calm_refl.
  - intros p k. rewrite E. intros Hk. pose proof (to_keys _ _ _ Hr p k Hk) as []. by split_and!.
  - intros p. rewrite E. apply (to_ext _ _ _ Hr).
  - done.
Qed.
Lemma insert_alter_same {A} (m : gmap Z A) f x a : m !! x = Some a → alter f x m = <[x := f a]> m.
Proof.
  intros Ha. apply map_eq. intros q. destruct (decide (q = x)) as [->|Hne].
  - by rewrite lookup_alter_eq, lookup_insert_eq, Ha.
  - by rewrite lookup_alter_ne, lookup_insert_ne.
Qed.
Lemma wow_fold (n : list Z) : backslash ∉ n → is_wow6432node n = true → fold_name n = fold_name wow6432node.
Proof.
  intros Hb. unfold is_wow6432node. destruct (path_element n) as [e rest] eqn:E. simpl.
  destruct (path_element_rest _ _ _ E) as (-> & [->|Hr] & _).
  - rewrite app_nil_r. intros [Hl%Z.eqb_eq Hm%negb_true_iff]%andb_true_iff. unfold truth in Hm. apply negb_false_iff, Z.eqb_eq in Hm.
    assert (length e = length wow6432node) as El by (simpl; lia). by apply (memicmp_fold e wow6432node El).
  - destruct rest as [|c rest]; [done|]. injection Hr as ->. set_solver.
Qed.
(** A parent gets back the 32-bit node it had. *)
Lemma wow_link_unlink r ext x kx kx' name p : tree_ok root r ext → r_keys r !! x = Some kx → p ∉ subs kx → child (abs r) x name = None → backslash ∉ name →
  k_wow6432node kx' = wow_link kx name p → wow_unlink kx' p = k_wow6432node kx.
Proof.
  intros Hr Hx Hp Hchild Hb E. unfold wow_unlink. rewrite E. unfold wow_link. pose proof (ko_wow _ _ _ _ _ (to_keys _ _ _ Hr x kx Hx)) as Hwow.
  destruct (is_wow6432node name && _) eqn:Hw.
  - apply andb_true_iff in Hw as [Hw _]. rewrite decide_True by done. destruct (k_wow6432node kx) as [c|]; [|done].
    destruct (Hwow c eq_refl) as (_ & n & Hl & Hn). destruct (proj1 (child_none _ _ _) Hchild c). apply is_child_links. exists n. split; [done|].
    rewrite (wow_fold name), (wow_fold n); try done. destruct Hl as (kc & Hkc & _ & Hnc). pose proof (ko_named _ _ _ _ _ (to_keys _ _ _ Hr c kc Hkc)) as Hnamed.
    rewrite Hnc in Hnamed. apply Hnamed.
  - rewrite decide_False; [done|]. intros Ec. destruct (Hwow p Ec) as [Hin _]. done.
Qed.
Lemma alloc_object_spec r ext : tree_ok root r ext →
  wp alloc_object (λ obj r', r_now r' = r_now r ∧ r_allocs r' `suffix_of` r_allocs r ∧
    match obj with
    | Some p => p = r_next r ∧ r_keys r !! p = None ∧ r_next r' = p + 1 ∧ r_error r' = r_error r ∧
        r_keys r' = <[p := Key 1 None None [] 0 0 [] None 0 0 [] 0 0 []]> (r_keys r)
    | None => r_keys r' = r_keys r ∧ r_next r' = r_next r ∧ r_error r' = STATUS_NO_MEMORY ∧ false ∈ r_allocs r
    end) r.
Proof.
  intros Hr. unfold alloc_object. rewrite wp_bind. eapply wp_mono; [apply wp_reg_mem_alloc|]. intros ok r1 (K & (N & W & A) & E).
  destruct ok; cbn [negb]; [|rewrite wp_ret; destruct E; by split_and!].
  rewrite wp_bind, wp_gets, wp_bind, wp_modify, wp_ret. simpl. rewrite K, N. split_and!; try done.
  destruct (r_keys r !! r_next r) eqn:Hn; [|done]. pose proof (to_fresh _ _ _ Hr (r_next r) ltac:(eauto)). lia.
Qed.

(** ** The new object *)

Definition node_flag T x (flag : Z) : bool := match T !! x with Some nd => has_attr (nd_flags nd) flag | None => false end.
Lemma node_flag_key r x kx flag : r_keys r !! x = Some kx → Z.land KEY_DIRTY flag = 0 → node_flag (abs r) x flag = has_flag kx flag.
Proof.
  intros Hx Hf. unfold node_flag. rewrite abs_lookup, Hx. unfold has_attr, has_flag. simpl. rewrite (ldiff_dirty (Z.ldiff (k_flags kx) KEY_DIRTY) (k_flags kx)); [done| |done].
  apply Z.bits_inj. intros i. rewrite !Z.ldiff_spec. by destruct (Z.testbit (k_flags kx) i), (Z.testbit KEY_DIRTY i).
Qed.
(** What becomes of a key [name] that did not exist in [x]. *)
Definition created (err : Z) r ext x name data (obj : option Z) r' : Prop :=
  r_now r' = r_now r ∧ r_allocs r' `suffix_of` r_allocs r ∧
  match obj with
  | Some p => r_keys r !! p = None ∧ tree_ok root r' (bump p 1 ext) ∧ abs r' = add_node (abs r) x p name (new_node x name data) ∧
      r_error r' = err ∧ may_create (node_flag (abs r) x KEY_VOLATILE) data = true
  | None => tree_ok root r' ext ∧ abs r' = abs r ∧
      (r_error r' = STATUS_NO_MEMORY ∧ false ∈ r_allocs r ∨
       r_error r' = STATUS_CHILD_MUST_BE_VOLATILE ∧ may_create (node_flag (abs r) x KEY_VOLATILE) data = false)
  end.
Lemma release_same r s ext x kx : tree_ok root r (bump x 1 ext) → few ext → r_keys r !! x = Some kx → is_Some (k_name kx) →
  r_keys s = r_keys r → r_next r ≤ r_next s →
  wp (release x) (λ _ r', tree_ok root r' ext ∧ abs r' = abs r ∧ r_error r' = r_error s ∧ r_now r' = r_now s ∧ r_allocs r' = r_allocs s) s.
Proof.
  intros Hr Hfew Hx Hn Ek Enext. eapply wp_mono; [eapply (release_found root s s ext x s); [|done|reflexivity]|].
  - split; [by eapply tree_ok_fields|]. split; [reflexivity|]. exists kx. by rewrite Ek.
  - intros _ r' (Hr' & (_ & Ha & Al & _ & Hw) & He). split_and!; try done. rewrite Ha. unfold abs. by rewrite Ek.
Qed.

(** The state once the key is linked, before its initialisation: [kx] has lost the
    reference of the lookup. *)
Lemma create_linked r r0 ext x p name data kx kx' kp names i :
  tree_ok root r ext → r_keys r !! x = Some kx → is_Some (k_name kx) → r_keys r !! p = None → p < r_next r0 → r_next r ≤ r_next r0 →
  child (abs r) x name = None → Z.of_nat (length name) ≤ MAX_NAME_LEN → backslash ∉ name →
  Forall2 (links_to (r_keys r) x) (subs kx) names → located names name false i → 0 ≤ i ≤ Z.of_nat (length (subs kx)) →
  with_array kx (take (Z.to_nat i) (subs kx) ++ p :: drop (Z.to_nat i) (subs kx)) kx' →
  r_keys r0 = <[p := kp]> (<[x := with_wow6432node (wow_link kx name p) kx']> (r_keys r)) →
  k_refcount kp = 2 → k_name kp = Some name → k_parent kp = Some x → r_now r0 = r_now r → r_allocs r0 `suffix_of` r_allocs r → r_error r0 = r_error r →
  wp (ok ← key_init p data; if ok : bool then mret (Some p) else _ ← unlink_named_object release p; _ ← free_object p; mret None)
    (created (r_error r) r ext x name data) r0.
Proof.
  intros Hr Hx Hnx Hp Hpn Hnext Hchild Hlen Hb Hall Hloc Hi Hwa K0 C0 N0 P0 W0 A0 E0. assert (x ≠ p) as Hxp by congruence.
  set (kx2 := with_wow6432node (wow_link kx name p) kx') in *.
  assert (r_keys r0 !! p = Some kp) as Hp0 by (rewrite K0; apply lookup_insert_eq).
  assert (r_keys r0 !! x = Some kx2) as Hx0 by (rewrite K0, lookup_insert_ne by done; apply lookup_insert_eq).
  pose proof (with_array_same _ _ _ Hwa) as (En & Ep & Er & Ef & Ew & Hv). pose proof (with_array_subs _ _ _ Hwa) as [Es Harr].
  rewrite wp_bind. eapply wp_mono; [by apply (key_init_spec r0 p kp x kx2 name data)|].
  intros ok r1 ((N1 & W1 & A1) & kp1 & K1 & Hfresh & H1). assert (has_flag kx2 KEY_VOLATILE = node_flag (abs r) x KEY_VOLATILE) as Evol.
  { rewrite (node_flag_key r x kx) by done. unfold has_flag. simpl. by rewrite Ef. }
  rewrite Evol in H1. rewrite K0, insert_insert_eq in K1.
  destruct ok.
  - destruct H1 as (E1 & Habs & Hmay). rewrite wp_ret. split; [congruence|]. split; [by etrans|]. split; [done|]. split; [|split; [|split; [congruence|done]]].
    + eapply tree_ok_add; try done; rewrite N1; lia.
    + unfold abs. rewrite K1, !fmap_insert, Habs. unfold add_node. f_equal. rewrite (insert_alter_same _ _ _ (abs_key kx)); [|by rewrite lookup_fmap, Hx].
      f_equal. unfold kx2. by erewrite with_array_abs.
  - assert (p ∉ subs kx) as Hps by (intros Hin; destruct (subs_exist _ _ _ _ _ _ Hr Hx Hin) as (kc & n & Hkc & _); congruence).
    assert (r_keys r1 !! x = Some kx2) as Hx1 by (rewrite K1, lookup_insert_ne by done; apply lookup_insert_eq). destruct Hfresh as (F1 & F2 & F3 & _).
    rewrite wp_bind. eapply wp_mono; [eapply (unlink_spec r1 p kp1 name x kx2 (take (Z.to_nat i) (subs kx)) (drop (Z.to_nat i) (subs kx))); try done|].
    + rewrite K1. apply lookup_insert_eq.
    + intros Hin. apply Hps. rewrite <- (take_drop (Z.to_nat i) (subs kx)). apply elem_of_app. by left.
    + lia.
    + rewrite take_drop. intros _ r2 ((N2 & W2 & A2) & E2 & kx3 & Hwa3 & K2). unfold free_object.
      rewrite wp_bind, wp_bind, (key_of_spec p r2 _) by (rewrite K2; apply lookup_insert_eq). rewrite wp_modify, wp_ret. set (r3 := set_keys _ r2).
      set (kx4 := with_wow6432node (wow_unlink kx2 p) kx3) in *.
      assert (r_keys r3 = <[x := kx4]> (r_keys r)) as K3.
      { simpl. by rewrite K2, delete_insert_eq, K1, (delete_insert_ne _ p x), delete_insert_eq, (delete_insert_ne _ p x), (delete_id _ p), insert_insert_eq. }
      pose proof (with_array_same _ _ _ Hwa3) as (En3 & Ep3 & Er3 & Ef3 & Ew3 & Hv3). pose proof (with_array_subs _ _ _ Hwa3) as [Es3 Harr3].
      change (k_name kx2) with (k_name kx') in En3. change (k_parent kx2) with (k_parent kx') in Ep3. change (k_flags kx2) with (k_flags kx') in Ef3.
      change (k_refcount kx2) with (k_refcount kx') in Er3.
      assert (wow_unlink kx2 p = k_wow6432node kx) as Ewow by by eapply wow_link_unlink.
      assert (tree_equiv kx kx4) as Heq.
      { split_and!; [unfold kx4; simpl; congruence..|change (subs kx4) with (subs kx3); done|done|].
        intros Hok. by apply (values_ok_ext kx3), Hv3, (values_ok_ext kx'), Hv. }
      split; [simpl; congruence|]. split; [by do 2 (etrans; [done|])|]. split; [|split].
      * eapply (tree_ok_equiv root r r3 ext ext Hr).
        -- intros q. rewrite K3. destruct (decide (q = x)) as [->|Hqx]; [rewrite lookup_insert_eq, Hx; by constructor|].
           rewrite lookup_insert_ne by done. apply calm_refl.
        -- intros q kq. rewrite K3. intros Hq. apply lookup_insert_Some in Hq as [[<- <-]|[Hqx Hq]]; [|pose proof (to_keys _ _ _ Hr q kq Hq) as []; by split_and!].
           pose proof (to_keys _ _ _ Hr x kx Hx) as []. unfold refs in *. simpl. rewrite Ep3, Er3. simpl. rewrite Ep, Er. by split_and!.
        -- intros q. rewrite K3. intros [Hq _]%lookup_insert_None. by apply (to_ext _ _ _ Hr).
        -- simpl. lia.
      * unfold abs. rewrite K3, fmap_insert. apply insert_id. rewrite lookup_fmap, Hx. simpl. f_equal. unfold kx4.
        rewrite (with_array_abs _ _ _ _ Hwa3), Ewow. unfold kx2. rewrite (with_array_abs _ _ _ _ Hwa). done.
      * destruct H1 as [[E1 Hm]|[E1 Hm]]; [left|right]; (split; [simpl; congruence|]); [|done]. by eapply elem_of_suffix.
Qed.

(** A failure before the key is linked. *)
Lemma create_fails r s ext x kx name data : tree_ok root r (bump x 1 ext) → few ext → r_keys r !! x = Some kx → is_Some (k_name kx) →
  r_keys s = r_keys r → r_next r ≤ r_next s → r_now s = r_now r → r_allocs s `suffix_of` r_allocs r → r_error s = STATUS_NO_MEMORY → false ∈ r_allocs r →
  wp (_ ← release x; mret None) (created (r_error r) r ext x name data) s.
Proof.
  intros Hr Hfew Hx Hn Ek Enext Ew Ea Ee Hf. rewrite wp_bind. eapply wp_mono; [by eapply release_same|].
  intros _ r' (Hr' & Ha & E1 & E2 & E3). rewrite wp_ret. split; [congruence|]. split; [by rewrite E3|]. split; [done|]. split; [done|]. left. split; [congruence|done].
Qed.
Lemma create_child_spec r ext x kx name data : tree_ok root r (bump x 1 ext) → few ext → r_keys r !! x = Some kx → is_Some (k_name kx) →
  child (abs r) x name = None → Z.of_nat (length name) ≤ MAX_NAME_LEN → backslash ∉ name →
  wp (create_child x name data) (created (r_error r) r ext x name data) r.
Proof.
  intros Hr Hfew Hx Hn Hchild Hlen Hb. unfold create_child. rewrite wp_bind. eapply wp_mono; [apply wp_reg_mem_alloc|].
  intros ok r1 (K1 & (N1 & W1 & A1) & E1). destruct ok; cbn [negb]; [|destruct E1; eapply create_fails; try done; lia].
  assert (tree_ok root r1 (bump x 1 ext)) as Hr1 by (eapply tree_ok_fields; [done|done|lia]).
  rewrite wp_bind. eapply wp_mono; [by eapply alloc_object_spec|]. intros [p|] r2 (W2 & A2 & H2).
  2:{ destruct H2 as (K2 & N2 & E2 & F2). eapply create_fails; try done; [congruence|lia|congruence|by etrans|by eapply elem_of_suffix]. }
  destruct H2 as (-> & Hp & N2 & E2 & K2). set (p := r_next r1) in *. rewrite K1 in Hp, K2. assert (x ≠ p) as Hxp by congruence.
  (* the state without the reference of the lookup *)
  set (kx0 := with_refcount (k_refcount kx + (-1)) kx). set (r0 := set_keys (<[x := kx0]> (r_keys r)) r).
  pose proof (named_count _ _ _ _ _ Hr Hx Hn) as Hcount. rewrite bump_same in Hcount. pose proof (Hfew x) as [Hx0 Hx8].
  assert (tree_ok root r0 ext) as Hr0.
  { eapply tree_ok_ext; [|apply (bump_refs root r (bump x 1 ext) x kx (-1)); try done; rewrite ?bump_same; lia]. intros q. unfold bump. case_decide; lia. }
  assert (abs r0 = abs r) as Habs0 by (apply (quiet_refcount r x kx); done).
  assert (r_keys r0 !! x = Some kx0) as Hkx0 by apply lookup_insert_eq.
  destruct (ko_subs _ _ _ _ _ (to_keys _ _ _ Hr0 x kx0 Hkx0)) as (names & Hall & Hsort).
  set (raw := Key _ _ _ _ _ _ _ _ _ _ _ _ _ _) in K2.
  rewrite wp_bind. eapply wp_mono; [eapply (key_link_name_spec r2 x p kx raw name names); try done|].
  - by rewrite K2, lookup_insert_ne.
  - rewrite K2. apply lookup_insert_eq.
  - apply (to_keys _ _ _ Hr x kx Hx).
  - eapply list.Forall2_impl; [exact Hall|]. intros c n (kc & Hkc & _ & Hnc). simpl in Hkc. rewrite K2.
    destruct (decide (c = x)) as [->|Hcx]; [exists kx; rewrite lookup_insert_eq in Hkc; injection Hkc as <-; by rewrite lookup_insert_ne|].
    rewrite lookup_insert_ne in Hkc by done. exists kc. rewrite lookup_insert_ne; [done|congruence].
  - by eapply links_short.
  - unfold short, MAX_NAME_LEN in *. lia.
  - intros ok r3 ((N3 & W3 & A3) & H3). destruct ok; cbn [negb].
    2:{ destruct H3 as (K3 & E3 & F3). unfold free_object. rewrite wp_bind, wp_bind, (key_of_spec p r3 raw), wp_modify by (rewrite K3, K2; apply lookup_insert_eq).
        eapply create_fails; try done; simpl; [by rewrite K3, K2, delete_insert_id|lia|congruence|by do 2 (etrans; [done|])|].
        eapply elem_of_suffix; [done|]. by etrans. }
    destruct H3 as (E3 & f & i & kx' & Hloc & Hi & Hwa & K3).
    assert (f = false) as ->.
    { destruct f; [|done]. destruct (located_child _ _ _ _ _ _ _ _ _ Hr0 Hkx0 Hall Hloc) as (? & c & ? & _ & _ & Hc). congruence. }
    set (kx2 := with_wow6432node (wow_link kx name p) kx') in *.
    rewrite wp_bind, (update_key_spec p _ r3 (with_refcount (1 + 1) raw)) by (rewrite K3; apply lookup_insert_eq). set (r4 := set_keys _ r3).
    assert (r_keys r4 !! x = Some kx2) as Hx4 by (simpl; rewrite K3, !lookup_insert_ne, lookup_insert_eq by done; done).
    pose proof (with_array_same _ _ _ Hwa) as (En & Ep & Er & Ef & Ew & Hv).
    rewrite wp_bind. eapply release_decr; [exact Hx4|simpl; lia|].
    set (kp := with_name (Some name) (Some x) (with_refcount (1 + 1) raw)) in *. set (r5 := set_keys _ r4).
    eapply wp_mono; [eapply (create_linked r0 r5 ext x p name data kx0 (with_refcount (k_refcount kx + (-1)) kx') kp names i); try done|].
    + simpl. by rewrite lookup_insert_ne.
    + simpl. lia.
    + simpl. lia.
    + by rewrite Habs0.
    + by apply with_array_refcount.
    + simpl. rewrite K3, K2. rewrite (insert_insert_ne _ x p), !insert_insert_eq, (insert_insert_ne _ x p), !insert_insert_eq by done.
      rewrite (insert_insert_ne _ p x), insert_insert_eq by done.
      rewrite (insert_insert_ne _ x p) by done. f_equal. f_equal. by rewrite Er.
    + simpl. congruence.
    + simpl. by do 2 (etrans; [done|]).
    + simpl. congruence.
    + intros obj r' (C1 & C2 & C3). simpl r_error in C3. split; [done|]. split; [done|]. rewrite Habs0 in C3. destruct obj as [p'|]; [|done].
      destruct C3 as (C3 & C4). split; [|done]. simpl in C3. by apply lookup_insert_None in C3 as [? _].
Qed.
Lemma created_calm err r r1 ext x name data obj r' : calm r r1 → created err r1 ext x name data obj r' → created err r ext x name data obj r'.
Proof.
  intros (He & Ha & Al & _ & Hw) (C1 & C2 & C3). rewrite Ha, Al in *. split; [congruence|]. split; [done|].
  destruct obj as [p|]; [|done]. destruct C3 as (Hp & C3). split; [|done]. specialize (He p). rewrite Hp in He. by inversion He.
Qed.

Lemma split_path_clean path : Forall (λ e, backslash ∉ e) (split_path path).
Proof.
  induction path as [|c path IH]; simpl; [constructor; [set_solver|done]|]. destruct (Z.eqb_spec c backslash); [constructor; [set_solver|done]|].
  destruct (split_path path) as [|e es]; [constructor; [set_solver|done]|]. apply list.Forall_cons in IH as [He IH]. constructor; [set_solver|done].
Qed.
Lemma elements_clean path : Forall (λ e, backslash ∉ e) (elements path).
Proof. apply list.Forall_forall. intros e [_ He]%list_elem_of_filter. pose proof (split_path_clean path) as Hc. by eapply list.Forall_forall in Hc. Qed.
Lemma walk_missing T p es x e : walk T p es = Missing x e → e ∈ es.
Proof.
  revert p. induction es as [|e' es IH]; intros p; simpl; [done|]. destruct (_ <? _); [done|]. destruct (child T p e') as [c|].
  - intros Hw. right. by eapply IH.
  - destruct es; [|done]. intros [= _ <-]. by left.
Qed.

Context (lookup_other : list Z → Z).
(** What a path with a name to create leads to. *)
Definition create_result r ext (w : walked) (attr : Z) data (obj : option Z) r' : Prop :=
  match w with
  | Reached c =>
      if has_attr attr OBJ_OPENIF then obj = Some c ∧ found root r ext c r' ∧ r_error r' = STATUS_OBJECT_NAME_EXISTS
      else obj = None ∧ tree_ok root r' ext ∧ calm r r' ∧ r_error r' = STATUS_OBJECT_NAME_COLLISION
  | Missing x e => created 0 r ext x e data obj r'
  | Stuck e => obj = None ∧ tree_ok root r' ext ∧ calm r r' ∧ r_error r' = e
  end.
Lemma create_object_with_name_spec r ext p k name attr data : tree_ok root r ext → r_keys r !! p = Some k → is_Some (k_name k) →
  few ext → no_links r → has_attr attr OBJ_KEY_WOW64 = false → name ≠ [] →
  wp (create_object_with_name root lookup_other p name attr data) (create_result r ext (resolve (abs r) p name) attr data) r.
Proof.
  intros Hr Hk Hn Hfew Hlinks Hattr Hname. unfold create_object_with_name, set_error. rewrite wp_bind, wp_modify, bool_decide_false by done.
  set (r0 := Registry _ _ _ _ 0 _). assert (calm r r0) as Hc0 by apply set_error_calm.
  assert (abs r0 = abs r) as Ha0 by done. rewrite <- Ha0.
  rewrite wp_bind. eapply wp_mono; [apply (lookup_named_object_spec root lookup_other r0 ext p k); try done; by apply tree_ok_error|].
  intros l r1 Hl. destruct (resolve (abs r0) p name) as [c|x e|e] eqn:Hw, l as [[obj more]|]; try done; unfold lookup_result in Hl.
  - destruct Hl as (-> & -> & Hf & E1). cbv zeta. rewrite bool_decide_true by done. unfold create_result. destruct Hf as (Hr1 & Hc1 & Hx1).
    assert (calm r r1) as Hc by by etrans.
    destruct (has_attr attr OBJ_OPENIF).
    + rewrite wp_bind, wp_modify, wp_ret. split; [done|]. split; [|done]. split; [by apply tree_ok_error|]. split; [etrans; [done|apply set_error_calm]|done].
    + rewrite wp_bind. eapply wp_mono; [by eapply (release_found root r0 r0 ext c r1)|]. intros _ r3 (Hr3 & Hc3 & E3). rewrite wp_bind, wp_modify, wp_ret.
      split; [done|]. split; [by apply tree_ok_error|]. split; [|done]. etrans; [exact Hc0|]. etrans; [exact Hc3|apply set_error_calm].
  - destruct Hl as (-> & -> & He & Hlen & Hchild & (Hr1 & Hc1 & k1 & Hk1 & Hn1) & E1). cbv zeta. change (default [] (Some e)) with e. rewrite bool_decide_false by done.
    pose proof Hc1 as (_ & Ha1 & _). eapply wp_mono; [eapply (create_child_spec r1 ext x k1 e data); try done|].
    + by rewrite Ha1.
    + unfold resolve in Hw. case_decide; [done|]. apply walk_missing in Hw. pose proof (elements_clean name) as Hcl. by eapply list.Forall_forall in Hcl.
    + intros obj r2 Hcr. rewrite E1 in Hcr. eapply created_calm; [|exact Hcr]. by etrans.
  - destruct Hl as (Hr1 & Hc1 & E1 & _). rewrite wp_ret. split; [done|]. split; [done|]. split; [by etrans|done].
Qed.
End create.
