(* ===== verification/RegTreeChange.v ===== *)
(** * Deletion and renaming of keys *)

From stdpp Require Import sorting.
From S2P Require Import Prelude.
From S2P Require Import Atoms.
From S2P Require Import AtomsInv.
From S2P Require Import RegKeys.
From S2P Require Import RegArrays.
From S2P Require Import RegTouch.
From S2P Require Import RegTree.
From S2P Require Import RegTreeInv.
From S2P Require Import RegTreeLookup.
From S2P Require Import RegTreeLinks.
From S2P Require Import RegTreeCreate.

Section change.
Context `{CaseMap} (root : Z).
Implicit Types (p q c x : Z) (k : key) (r : registry) (ext : Z → Z) (T : gmap Z node).

(** ** Touching *)

Lemma key_touched_equiv k k' : key_touched k k' → tree_equiv k k' ∧ abs_key k' = abs_key k ∧ k_refcount k' = k_refcount k.
Proof.
  intros (f & m & n & -> & Hf). assert (Z.ldiff f KEY_DIRTY = Z.ldiff (k_flags k) KEY_DIRTY) as Ef by (destruct Hf as [->| ->]; [done|apply dirty_ldiff]).
  split; [split_and!; try done; by apply values_ok_ext|]. split; [|done]. unfold abs_key. simpl. by f_equal.
Qed.
Lemma touched_tree r r' ext : touched r r' → tree_ok root r ext → tree_ok root r' ext ∧ abs r' = abs r.
Proof.
  intros Ht Hr. pose proof Ht as (Hk & _ & _ & Hn & _). split.
  - eapply (tree_ok_equiv root r r' ext ext Hr).
    + intros p. specialize (Hk p). destruct Hk as [k k' Hkt|]; constructor. by apply key_touched_equiv.
    + intros p k' Hk'. specialize (Hk p). rewrite Hk' in Hk. inversion Hk as [k k0 Hkt E E0|]; subst k0. destruct (key_touched_equiv _ _ Hkt) as ((_ & Ep & _) & _ & Er).
      pose proof (to_keys _ _ _ Hr p k (eq_sym E)) as []. unfold refs in *. rewrite Er, Ep. by split_and!.
    + intros p Hp. specialize (Hk p). rewrite Hp in Hk. inversion Hk. by apply (to_ext _ _ _ Hr).
    + lia.
  - apply map_eq. intros p. rewrite !abs_lookup. specialize (Hk p). destruct Hk as [k k' Hkt|]; [|done]. simpl. f_equal. by apply key_touched_equiv.
Qed.
Lemma touch_tree_spec r ext p k change : tree_ok root r ext → r_keys r !! p = Some k → is_Some (k_name k) →
  wp (touch_key p change) (λ _ r', tree_ok root r' ext ∧ abs r' = abs r ∧ r_error r' = r_error r ∧ r_now r' = r_now r ∧ r_allocs r' = r_allocs r) r.
Proof.
  intros Hr Hk Hn. eapply wp_mono; [apply (touch_key_ok p k); [apply Hr|done|done]|]. intros [] r' Ht.
  destruct (touched_tree _ _ _ Ht Hr) as [Hr' Ha]. destruct Ht as (_ & E1 & E2 & _ & E4). by split_and!.
Qed.

(** ** Deletion *)

Lemma flags_deleted f : Z.ldiff (Z.lor f KEY_DELETED) KEY_DIRTY = Z.lor (Z.ldiff f KEY_DIRTY) KEY_DELETED.
Proof.
  transitivity (Z.lor (Z.ldiff f KEY_DIRTY) (Z.ldiff KEY_DELETED KEY_DIRTY)); [|done].
  apply Z.bits_inj. intros i. rewrite !Z.lor_spec, !Z.ldiff_spec, Z.lor_spec. by destruct (Z.testbit f i), (Z.testbit KEY_DELETED i), (Z.testbit KEY_DIRTY i).
Qed.
Definition has_children T p : bool := bool_decide (map_Exists (λ _ nd, nd_parent nd = Some p) T).
Lemma has_children_subs r ext p k : tree_ok root r ext → r_keys r !! p = Some k → has_children (abs r) p = (0 <=? k_last_subkey k).
Proof.
  intros Hr Hk. pose proof (to_keys _ _ _ Hr p k Hk) as Hko. pose proof (ao_last _ _ _ _ (ko_array _ _ _ _ _ Hko)) as Hl.
  unfold has_children. destruct (Z.leb_spec 0 (k_last_subkey k)) as [Hle|Hlt].
  - apply bool_decide_true. destruct (subs k) as [|c l] eqn:E; [simpl in Hl; lia|].
    destruct (subs_exist root r ext p k c Hr Hk) as (kc & n & Hkc & Hp & _); [rewrite E; by left|].
    exists c, (abs_key kc). by rewrite abs_lookup, Hkc.
  - apply bool_decide_false. intros (c & nd & Hc & Hp). rewrite abs_lookup in Hc. apply fmap_Some in Hc as (kc & Hkc & ->).
    destruct (ko_parent _ _ _ _ _ (to_keys _ _ _ Hr c kc Hkc) p Hp) as (k' & Hk' & Hin). assert (k' = k) as -> by congruence.
    destruct (subs k); [by apply elem_of_nil in Hin|simpl in Hl; lia].
Qed.
Lemma no_subs r ext p k : tree_ok root r ext → r_keys r !! p = Some k → k_last_subkey k < 0 → subs k = [].
Proof.
  intros Hr Hk Hlt. pose proof (ao_last _ _ _ _ (ko_array _ _ _ _ _ (to_keys _ _ _ Hr p k Hk))) as Hl. destruct (subs k); [done|simpl in Hl; lia].
Qed.
(** The end of [delete_key]. *)
Lemma delete_unlink_spec r ext p k x : tree_ok root r ext → r_keys r !! p = Some k → k_parent k = Some x → 1 ≤ ext p → subs k = [] →
  wp (_ ← update_key p (λ k, with_flags (Z.lor (k_flags k) KEY_DELETED) k); _ ← unlink_named_object release p; _ ← touch_key x REG_NOTIFY_CHANGE_NAME; mret true)
    (λ ok r', ok = true ∧ tree_ok root r' ext ∧ abs r' = remove_node (abs r) x p ∧ r_error r' = r_error r ∧ r_now r' = r_now r ∧ r_allocs r' `suffix_of` r_allocs r) r.
Proof.
  intros Hr Hk Hpar Hext Hsubs. destruct (subkey_parent _ _ _ _ _ _ Hr Hk Hpar) as (kx & l1 & l2 & Hx & Es & Hn1 & Hn2 & Hxp & Hnx & Hroot & [name Hname]).
  pose proof (to_keys _ _ _ Hr p k Hk) as Hko. pose proof (to_keys _ _ _ Hr x kx Hx) as Hkx.
  rewrite wp_bind, (update_key_spec p _ r k) by done. set (k1 := with_flags _ k). set (r1 := set_keys _ r).
  pose proof (named_count _ _ _ _ _ Hr Hk ltac:(eauto)) as Hcount.
  rewrite wp_bind. eapply wp_mono; [eapply (unlink_spec r1 p k1 name x kx l1 l2); try done|].
  - apply lookup_insert_eq.
  - simpl. by rewrite lookup_insert_ne.
  - apply Hkx.
  - simpl. lia.
  - intros _ r2 ((N2 & W2 & A2) & E2 & kx' & Hwa & K2).
    change (r_error r1) with (r_error r) in E2. change (r_now r1) with (r_now r) in W2.
    set (kx2 := with_wow6432node (wow_unlink kx p) kx') in *.
    assert (r_keys r2 = <[p := removed_key k]> (<[x := kx2]> (r_keys r))) as K.
    { rewrite K2. simpl. by rewrite (insert_insert_ne _ x p), insert_insert_eq by done. }
    assert (tree_ok root r2 ext) as Hr2 by by eapply (tree_ok_remove root r r2 ext x p kx kx' k l1 l2).
    assert (abs r2 = remove_node (abs r) x p) as Ha2.
    { unfold abs. rewrite K, !fmap_insert. unfold remove_node. rewrite (insert_alter_same _ _ x (abs_key kx)) by (rewrite lookup_fmap, Hx; done).
      rewrite (insert_alter_same _ _ p (abs_key k)) by (rewrite lookup_insert_ne, lookup_fmap, Hk by done; done). f_equal.
      - unfold abs_key, cut_node, removed_key. simpl. f_equal. apply flags_deleted.
      - f_equal. unfold kx2. by rewrite (with_array_abs _ _ _ _ Hwa). }
    destruct (with_array_same _ _ _ Hwa) as (En & _).
    rewrite wp_bind. eapply wp_mono; [eapply (touch_tree_spec r2 ext x kx2); [done| |unfold kx2; simpl; by rewrite En]|].
    + rewrite K, lookup_insert_ne by done. apply lookup_insert_eq.
    + intros _ r3 (Hr3 & Ha3 & E3 & W3 & A3). rewrite wp_ret. split_and!; [done|done|congruence|congruence|congruence|by rewrite A3].
Qed.

(** What the server answers to the deletion of a key, on the tree alone. *)
Definition delete_refusal T p : option Z :=
  match T !! p with
  | None => None
  | Some nd =>
      if bool_decide (nd_parent nd = None) then Some STATUS_ACCESS_DENIED
      else if has_attr (nd_flags nd) KEY_PREDEF then Some STATUS_INVALID_HANDLE
      else if has_children T p then Some STATUS_ACCESS_DENIED else None
  end.
Lemma delete_key_spec fuel r ext p k : tree_ok root r ext → r_keys r !! p = Some k → 1 ≤ ext p →
  wp (delete_key fuel p false) (λ ok r', tree_ok root r' ext ∧ r_now r' = r_now r ∧ r_allocs r' `suffix_of` r_allocs r ∧
    if decide (k_name k = None) then ok = true ∧ abs r' = abs r ∧ r_error r' = r_error r
    else match delete_refusal (abs r) p with
    | Some e => ok = false ∧ abs r' = abs r ∧ r_error r' = e
    | None => ok = true ∧ r_error r' = r_error r ∧ ∃ x, k_parent k = Some x ∧ abs r' = remove_node (abs r) x p
    end) r.
Proof.
  intros Hr Hk Hext. assert (∀ e, tree_ok root (Registry (r_keys r) (r_next r) (r_allocs r) (r_now r) e (r_events r)) ext) as Herr by (intros e; by apply tree_ok_error).
  pose proof (ko_named _ _ _ _ _ (to_keys _ _ _ Hr p k Hk)) as Hnamed.
  assert (∀ rec, wp (k ← key_of p;
    if has_flag k KEY_DELETED then mret true else
    parent ← get_parent k;
    match parent with
    | None => _ ← set_error STATUS_ACCESS_DENIED; mret false
    | Some parent =>
        if has_flag k KEY_PREDEF then _ ← set_error STATUS_INVALID_HANDLE; mret false else
        ok ← (if false then rec k else if 0 <=? k_last_subkey k then _ ← set_error STATUS_ACCESS_DENIED; mret false else mret true);
        if negb ok then mret false else
        _ ← update_key p (λ k, with_flags (Z.lor (k_flags k) KEY_DELETED) k);
        _ ← unlink_named_object release p;
        _ ← touch_key parent REG_NOTIFY_CHANGE_NAME;
        mret true
    end) (λ ok r', tree_ok root r' ext ∧ r_now r' = r_now r ∧ r_allocs r' `suffix_of` r_allocs r ∧
    if decide (k_name k = None) then ok = true ∧ abs r' = abs r ∧ r_error r' = r_error r
    else match delete_refusal (abs r) p with
    | Some e => ok = false ∧ abs r' = abs r ∧ r_error r' = e
    | None => ok = true ∧ r_error r' = r_error r ∧ ∃ x, k_parent k = Some x ∧ abs r' = remove_node (abs r) x p
    end) r) as Hmain.
  2:{ destruct fuel as [|fuel]; [exact (Hmain (λ k, delete_subkeys (λ c, no_fuel) (Z.to_nat (k_last_subkey k + 1)) p))|
        exact (Hmain (λ k, delete_subkeys (λ c, delete_key fuel c true) (Z.to_nat (k_last_subkey k + 1)) p))]. }
  intros rec. rewrite wp_bind, (key_of_spec p r k) by done. destruct (k_name k) as [name|] eqn:Hname.
  2:{ destruct Hnamed as [-> _]. rewrite wp_ret, decide_True by done. by split_and!. }
  destruct Hnamed as [-> _]. destruct (decide (Some name = None)) as [?|_]; [done|]. rewrite wp_bind, get_parent_spec by by rewrite Hname.
  assert (delete_refusal (abs r) p = if bool_decide (k_parent k = None) then Some STATUS_ACCESS_DENIED
    else if has_flag k KEY_PREDEF then Some STATUS_INVALID_HANDLE else if 0 <=? k_last_subkey k then Some STATUS_ACCESS_DENIED else None) as ->.
  { rewrite <- (has_children_subs r ext p k Hr Hk), <- (node_flag_key r p k KEY_PREDEF Hk eq_refl). unfold delete_refusal, node_flag. by rewrite abs_lookup, Hk. }
  destruct (k_parent k) as [x|] eqn:Hpar; cbn [bool_decide decide_rel].
  2:{ rewrite bool_decide_true by done. unfold set_error. rewrite wp_bind, wp_modify, wp_ret. by split_and!. }
  rewrite bool_decide_false by done. destruct (has_flag k KEY_PREDEF).
  { unfold set_error. rewrite wp_bind, wp_modify, wp_ret. by split_and!. }
  rewrite wp_bind. destruct (Z.leb_spec 0 (k_last_subkey k)) as [Hle|Hlt].
  { unfold set_error. rewrite wp_bind, wp_modify, wp_ret. cbn [negb]. rewrite wp_ret. by split_and!. }
  rewrite wp_ret. cbn [negb]. eapply wp_mono; [apply (delete_unlink_spec r ext p k x); try done; by eapply no_subs|].
  intros ok r' (-> & Hr' & Ha & He & Hw & Hal). split_and!; try done. by exists x.
Qed.
End change.

(** * Renaming of keys *)

Section rename.
Context `{CaseMap} (root : Z).
Implicit Types (p q c x : Z) (k : key) (r : registry) (ext : Z → Z) (T : gmap Z node).

(** ** The array *)

Lemma sorted_moved (n1 n2 n1' n2' : list (list Z)) old name : StronglySorted before (n1 ++ old :: n2) → n1' ++ n2' = n1 ++ n2 →
  Forall (λ m, before m name) n1' → Forall (before name) n2' → StronglySorted before (n1' ++ name :: n2').
Proof. intros (_ & _ & Hs)%sorted_middle E H1 H2. apply sorted_insert; [by rewrite E|done|done]. Qed.
(** The element [p] goes to where its new name belongs. *)
Lemma rename_array last nb l l1 l2 p (n1 n2 : list (list Z)) old name i : array_ok last nb l (l1 ++ p :: l2) →
  length n1 = length l1 → length n2 = length l2 → StronglySorted before (n1 ++ old :: n2) → located (n1 ++ old :: n2) name false i →
  ∃ l1' l2' n1' n2' s s',
    (if Z.of_nat (length l1) <? i then (i - 1, shift_down (Z.to_nat (i - 1 - Z.of_nat (length l1))) (Z.of_nat (length l1)) l)
     else (i, shift_up (Z.to_nat (Z.of_nat (length l1) - i)) (Z.of_nat (length l1)) l)) = (Z.of_nat (length l1'), Some s) ∧
    array_set s (Z.of_nat (length l1')) p = Some s' ∧ array_ok last nb s' (l1' ++ p :: l2') ∧
    l1' ++ l2' = l1 ++ l2 ∧ n1' ++ n2' = n1 ++ n2 ∧ length n1' = length l1' ∧ StronglySorted before (n1' ++ name :: n2').
Proof.
  intros Ha E1 E2 Hs (m1 & m2 & Em & -> & B1 & B2). destruct (Z.ltb_spec (Z.of_nat (length l1)) (Z.of_nat (length m1))) as [Hlt|Hge].
  - assert (∃ n2a, m1 = n1 ++ old :: n2a ∧ n2 = n2a ++ m2) as (n2a & -> & ->).
    { apply app_eq_inv in Em as [(k & -> & Ek)|(k & -> & Ek)]; [|rewrite length_app in *; destruct k; simpl in *; [lia|]; injection Ek as <- ->; by exists k].
      destruct k as [|o k]; [rewrite app_nil_r in *; lia|rewrite length_app in *; simpl in *; lia]. }
    set (a := length n2a). rewrite length_app in *. simpl in *. rewrite <- (take_drop a l2) in Ha.
    assert (length (take a l2) = a) as Et by (rewrite length_take; lia).
    destruct (array_move_up _ _ _ _ _ _ _ Ha) as (s & s' & H1 & H2 & H3). exists (l1 ++ take a l2), (drop a l2), (n1 ++ n2a), m2, s, s'.
    rewrite <- !app_assoc. split_and!; [|done|done|by rewrite take_drop|done|rewrite !length_app; lia|].
    + rewrite length_app, Et. f_equal; [lia|]. rewrite <- H1, Et. f_equal. lia.
    + rewrite app_assoc. eapply sorted_moved; [exact Hs|by rewrite <- app_assoc| |done].
      apply list.Forall_app in B1 as [B1 B1']. apply list.Forall_cons in B1' as [_ B1']. by apply list.Forall_app.
  - assert (∃ n1b, n1 = m1 ++ n1b ∧ m2 = n1b ++ old :: n2) as (n1b & -> & ->).
    { apply app_eq_inv in Em as [(k & -> & Ek)|(k & -> & Ek)]; [by exists k|]. rewrite length_app in *. destruct k as [|o k]; [|simpl in *; lia].
      exists []. rewrite !app_nil_r. by split. }
    set (a := length m1). rewrite length_app in *. rewrite <- (take_drop a l1), <- app_assoc in Ha.
    assert (length (take a l1) = a) as Et by (rewrite length_take; lia).
    destruct (array_move_down _ _ _ _ _ _ _ Ha) as (s & s' & H1 & H2 & H3). exists (take a l1), (drop a l1 ++ l2), m1, (n1b ++ n2), s, s'.
    split_and!; [|done|done|by rewrite app_assoc, take_drop|by rewrite app_assoc|lia|].
    + rewrite Et. f_equal. rewrite take_drop in H1. rewrite <- H1. f_equal. rewrite length_drop. lia.
    + eapply sorted_moved; [exact Hs|by rewrite app_assoc|done|].
      apply list.Forall_app in B2 as [B2 B2']. apply list.Forall_cons in B2' as [_ B2']. by apply list.Forall_app.
Qed.

(** ** The tree *)

Lemma with_array_elem kx used kx' c : with_array kx used kx' → c ∈ subs kx' ↔ c ∈ used.
Proof. intros Hwa. by rewrite (proj1 (with_array_subs _ _ _ Hwa)). Qed.
Lemma elem_of_middle (l1 l2 : list Z) p c : c ∈ l1 ++ p :: l2 ↔ c = p ∨ c ∈ l1 ++ l2.
Proof. set_solver. Qed.
Lemma tree_ok_rename r r' ext x p k kx kx' name l1 l2 l1' l2' n1 n2 n1' n2' : tree_ok root r ext → r_keys r !! p = Some k → k_parent k = Some x →
  r_keys r !! x = Some kx → subs kx = l1 ++ p :: l2 → Forall2 (links_to (r_keys r) x) (l1 ++ l2) (n1 ++ n2) → p ∉ l1 ++ l2 →
  with_array kx (l1' ++ p :: l2') kx' → l1' ++ l2' = l1 ++ l2 → n1' ++ n2' = n1 ++ n2 → length n1' = length l1' → StronglySorted before (n1' ++ name :: n2') →
  k_wow6432node kx ≠ Some p → Z.of_nat (length name) ≤ MAX_NAME_LEN → backslash ∉ name →
  r_keys r' = <[p := with_name (Some name) (Some x) k]> (<[x := kx']> (r_keys r)) → r_next r' = r_next r → tree_ok root r' ext.
Proof.
  intros Hr Hp Hpar Hx Es Hall Hnot Hwa El Enm Elen Hsort Hwow Hlen Hb Ek Enext.
  destruct (subkey_parent _ _ _ _ _ _ Hr Hp Hpar) as (kx0 & _ & _ & Hx0 & _ & _ & _ & Hxp & Hnx & Hroot & Hnp). assert (kx0 = kx) as -> by congruence.
  pose proof (with_array_same _ _ _ Hwa) as (En & Ep & Er & Ef & Ew & Hv). pose proof (with_array_subs _ _ _ Hwa) as [Es' Harr].
  pose proof (to_keys _ _ _ Hr x kx Hx) as Hkx. pose proof (to_keys _ _ _ Hr p k Hp) as Hk. set (kp := with_name (Some name) (Some x) k) in *.
  assert (∀ c, c ∈ subs kx ↔ c ∈ subs kx') as Hin by (intros c; by rewrite Es, Es', !elem_of_middle, El).
  assert (∀ q kq, r_keys r !! q = Some kq → ∃ kq', r_keys r' !! q = Some kq' ∧ k_parent kq' = k_parent kq ∧ (is_Some (k_name kq) → is_Some (k_name kq')) ∧ (q ≠ p → k_name kq' = k_name kq)) as Hold.
  { intros q kq Hq. rewrite Ek. destruct (decide (q = p)) as [->|Hqp]; [assert (kq = k) as -> by congruence; exists kp; by rewrite lookup_insert_eq|].
    rewrite lookup_insert_ne by done. destruct (decide (q = x)) as [->|Hqx]; [assert (kq = kx) as -> by congruence; exists kx'; by rewrite lookup_insert_eq, En|].
    exists kq. by rewrite lookup_insert_ne. }
  assert (∀ q c n, c ≠ p → links_to (r_keys r) q c n → links_to (r_keys r') q c n) as Hlinks.
  { intros q c n Hcp (kc & Hkc & Hpc & Hnc). destruct (Hold c kc Hkc) as (kc' & Hkc' & E1 & _ & E2). exists kc'. split_and!; [done|congruence|]. by rewrite E2. }
  assert (∀ q kq c, r_keys r !! q = Some kq → c ∈ subs kq → q ≠ x → c ≠ p) as Hnotp.
  { intros q kq c Hq Hc Hqx ->. destruct (subs_exist _ _ _ _ _ _ Hr Hq Hc) as (kc & n & Hkc & Hpc & _). congruence. }
  eapply (tree_ok_relink root r r' ext ext x p kx kx' kp); try done.
  - by apply Hv, Hkx.
  - exists (n1' ++ name :: n2'). split; [|done]. rewrite Es'. rewrite <- El, <- Enm in Hall. apply Forall2_app_inv in Hall as [H1 H2]; [|done].
    rewrite <- El in Hnot. apply not_elem_of_app in Hnot as [Hn1 Hn2].
    assert (∀ l ns, Forall2 (links_to (r_keys r) x) l ns → p ∉ l → Forall2 (links_to (r_keys r') x) l ns) as Hmono.
    { intros l ns Hl Hpl. apply Forall2_same_length_lookup_2; [by apply (Forall2_length Hl)|]. intros j c n Hc Hn.
      apply Hlinks; [|by eapply Forall2_lookup_lr]. intros ->. apply Hpl. by eapply list_elem_of_lookup_2. }
    apply Forall2_app; [by apply Hmono|]. constructor; [|by apply Hmono]. exists kp. by rewrite Ek, lookup_insert_eq.
  - intros c. rewrite Ew. intros Hc. destruct (ko_wow _ _ _ _ _ Hkx c Hc) as (Hc' & n & Hl & Hn). split; [by apply Hin|]. exists n. split; [|done]. apply Hlinks; [congruence|done].
  - intros c _. by rewrite Hin.
  - intros q kq Hqp Hqx Hq Hpq. by apply (Hnotp q kq p).
  - assert (p ≠ x) as Hpx by done. pose proof Hk as [R1 R2 R3 R4 R5 R6 R7 R8 R9].
    assert (∀ c n, c ∈ subs k → links_to (r_keys r) p c n → links_to (r_keys r') p c n) as Hl by (intros c n Hc; apply Hlinks; by apply (Hnotp p k)).
    split; try done.
    + change (k_refcount kp) with (k_refcount k). rewrite R1. unfold refs. simpl. by rewrite Hpar.
    + destruct R5 as (ns & Hns & Hs). exists ns. split; [|done]. change (subs kp) with (subs k).
      apply Forall2_same_length_lookup_2; [by apply (Forall2_length Hns)|]. intros j c n Hc Hn. apply Hl; [by eapply list_elem_of_lookup_2|]. by eapply Forall2_lookup_lr.
    + intros q [= <-]. exists kx'. rewrite Ek, lookup_insert_ne, lookup_insert_eq by done. split; [done|]. apply Hin. rewrite Es. set_solver.
    + simpl. destruct (k_name k) as [n|]; [|by destruct Hnp]. destruct R7 as (Hd & _ & _ & _). split_and!; try done.
    + intros c Hc. destruct (R8 c Hc) as (Hc' & n & Hcl & Hn). split; [done|]. exists n. auto.
    + by apply (values_ok_ext k).
  - intros c kc Hc Hpc. destruct (ko_parent _ _ _ _ _ (to_keys _ _ _ Hr c kc Hc) p Hpc) as (k' & Hk' & Hc'). by assert (k' = k) as -> by congruence.
  - intros q kq Hq Hn. assert (∃ kq0, r_keys r !! q = Some kq0 ∧ is_Some (k_name kq0)) as (kq0 & Hq0 & Hn0).
    { rewrite Ek in Hq. apply lookup_insert_Some in Hq as [[<- <-]|[_ Hq]]; [eauto|]. apply lookup_insert_Some in Hq as [[<- <-]|[_ Hq]]; [|eauto]. rewrite En in Hn. eauto. }
    destruct (to_rooted _ _ _ Hr q kq0 Hq0 Hn0) as [l Hl]. exists l. eapply chain_mono; [|exact Hl]. intros z kz _ Hkz.
    destruct (Hold z kz Hkz) as (kz' & Hz' & E1 & E2 & _). eauto.
  - lia.
  - rewrite Enext. apply (to_fresh _ _ _ Hr). eauto.
Qed.

(** ** The operation *)

Definition renamed_node (name : list Z) (nd : node) : node := Node (Some name) (nd_parent nd) (nd_class nd) (nd_flags nd) (nd_wow nd) (nd_values nd).
Definition rename_node T p name : gmap Z node := alter (renamed_node name) p T.
(** A name that is one element of a path. *)
Definition good_name (name : list Z) : bool :=
  bool_decide (name ≠ []) && bool_decide (backslash ∉ name) && (Z.of_nat (length name) <=? MAX_NAME_LEN).
Definition rename_refusal T p name : option Z :=
  if negb (good_name name) then Some STATUS_INVALID_PARAMETER else
  match T !! p ≫= nd_parent with
  | None => Some STATUS_CANNOT_DELETE
  | Some x =>
      if bool_decide (is_Some (child T x name)) then Some STATUS_CANNOT_DELETE
      else if bool_decide (T !! x ≫= nd_wow = Some p) || is_wow6432node name then Some STATUS_INVALID_PARAMETER else None
  end.

Lemma good_name_spec name e rest : path_element name = (e, rest) →
  bool_decide (e = []) || negb (bool_decide (rest = [])) || (MAX_NAME_LEN <? Z.of_nat (length e)) = negb (good_name name).
Proof.
  intros E. destruct (path_element_rest _ _ _ E) as (-> & [->|Hr] & He); unfold good_name.
  - rewrite app_nil_r, (bool_decide_true (backslash ∉ e)) by done. rewrite (bool_decide_true ([] = [])) by done. rewrite Z.ltb_antisym, andb_true_r, orb_false_r.
    destruct e; simpl; [done|]. done.
  - destruct rest as [|c rest]; [done|]. injection Hr as ->. rewrite (bool_decide_false (_ :: rest = [])), (bool_decide_false (backslash ∉ _)) by set_solver.
    by rewrite orb_true_r, andb_false_r.
Qed.

Definition renamed r ext p name r' : Prop :=
  tree_ok root r' ext ∧ r_now r' = r_now r ∧ r_allocs r' `suffix_of` r_allocs r ∧
  match rename_refusal (abs r) p name with
  | Some e => abs r' = abs r ∧ r_error r' = e
  | None => abs r' = rename_node (abs r) p name ∧ r_error r' = r_error r ∨ abs r' = abs r ∧ r_error r' = STATUS_NO_MEMORY ∧ false ∈ r_allocs r
  end.
Lemma rename_key_spec r ext p k name : tree_ok root r ext → r_keys r !! p = Some k → is_Some (k_name k) → short name →
  wp (rename_key p name) (λ _, renamed r ext p name) r.
Proof.
  intros Hr Hk [old Hold] Hshort. unfold rename_key, renamed. rewrite wp_bind, (key_of_spec p r k), wp_bind, get_parent_spec by (done || by rewrite Hold).
  destruct (path_element name) as [e rest] eqn:E. rewrite (good_name_spec _ _ _ E). unfold rename_refusal. rewrite (abs_lookup r p), Hk. cbn [fmap option_fmap option_map mbind option_bind].
  change (nd_parent (abs_key k)) with (k_parent k).
  assert (∀ e Q, (tree_ok root (Registry (r_keys r) (r_next r) (r_allocs r) (r_now r) e (r_events r)) ext → Q) → Q) as Herr by (intros e0 Q HQ; by apply HQ, tree_ok_error).
  destruct (good_name name) eqn:Hgood; cbn [negb].
  2:{ unfold set_error. rewrite wp_modify. apply (Herr STATUS_INVALID_PARAMETER). intros. by split_and!. }
  destruct (k_parent k) as [x|] eqn:Hpar.
  2:{ unfold set_error. rewrite wp_modify. apply (Herr STATUS_CANNOT_DELETE). intros. by split_and!. }
  destruct (subkey_parent _ _ _ _ _ _ Hr Hk Hpar) as (kx & l1 & l2 & Hx & Es & Hn1 & Hn2 & Hxp & Hnx & Hroot & _).
  pose proof (to_keys _ _ _ Hr x kx Hx) as Hkx. destruct (ko_subs _ _ _ _ _ Hkx) as (ns & Hall & Hs).
  rewrite wp_bind, (key_of_spec x r kx), wp_bind by done.
  eapply wp_mono; [eapply (find_subkey_located r kx (subs kx) ns name); try done; [apply Hkx| |by eapply links_short]|].
  { eapply list.Forall2_impl; [exact Hall|]. intros c n (kc & ? & _ & ?). eauto. }
  intros [found i] r0 [-> Hloc]. cbn [fst snd] in Hloc. pose proof (located_child root r ext x kx ns name found i Hr Hx Hall Hloc) as Hch. destruct found.
  { destruct Hch as (_ & c & _ & _ & _ & ->). unfold set_error. rewrite wp_modify. apply (Herr STATUS_CANNOT_DELETE). intros. by split_and!. }
  destruct Hch as (Hnone & _). rewrite Hnone. rewrite (bool_decide_false (is_Some None)) by by intros []. rewrite (abs_lookup r x), Hx. cbn [fmap option_fmap option_map mbind option_bind].
  change (nd_wow (abs_key kx)) with (k_wow6432node kx). destruct (bool_decide (k_wow6432node kx = Some p) || is_wow6432node name) eqn:Hwow.
  { unfold set_error. rewrite wp_modify. apply (Herr STATUS_INVALID_PARAMETER). intros. by split_and!. }
  apply orb_false_iff in Hwow as [Hwow%bool_decide_eq_false _].
  rewrite wp_bind. eapply wp_mono; [apply wp_reg_mem_alloc|]. intros ok r1 (K1 & (N1 & W1 & A1) & E1). destruct ok; cbn [negb].
  2:{ rewrite wp_ret. split; [eapply tree_ok_fields; [done|done|lia]|]. split; [done|]. split; [done|]. right. split; [unfold abs; by rewrite K1|done]. }
  pose proof (ko_array _ _ _ _ _ Hkx) as Harr. rewrite wp_bind, (index_of_spec kx l1 l2 p) by done. cbn [fmap option_fmap option_map]. rewrite wp_access.
  rewrite Es in Hall, Harr. apply Forall2_app_inv_l in Hall as (n1 & n2' & H1 & H2 & ->). apply Forall2_cons_inv_l in H2 as (o & n2 & Ho & H2 & ->).
  destruct (rename_array _ _ _ l1 l2 p n1 n2 o name i Harr) as (l1' & l2' & n1' & n2' & s & s' & Eif & Eset & Ha & El & En & Elen & Hsort); [by rewrite (Forall2_length H1)|by rewrite (Forall2_length H2)|done..|].
  rewrite Eif. rewrite wp_bind, wp_access, wp_bind, Eset, wp_access, wp_bind, (update_key_spec x _ r1 kx) by by rewrite K1.
  set (kx' := with_subkeys _ _ s' kx). set (r2 := set_keys _ r1). rewrite wp_bind, (update_key_spec p _ r2 k) by (simpl; by rewrite lookup_insert_ne, K1).
  set (kp := with_name _ _ k). set (r3 := set_keys _ r2).
  assert (r_keys r3 = <[p := kp]> (<[x := kx']> (r_keys r))) as K3 by (simpl; by rewrite K1).
  unfold good_name in Hgood. apply andb_true_iff in Hgood as [[_ Hb%bool_decide_eq_true]%andb_true_iff Hlen%Z.leb_le].
  assert (tree_ok root r3 ext) as Hr3.
  { eapply (tree_ok_rename r r3 ext x p k kx kx' name l1 l2 l1' l2' n1 n2 n1' n2'); try done; [by apply Forall2_app|set_solver|].
    eexists _, _, _. split; [done|]. done. }
  assert (abs r3 = rename_node (abs r) p name) as Ha3.
  { unfold rename_node. rewrite (insert_alter_same _ _ p (abs_key k)) by (rewrite abs_lookup, Hk; done). unfold abs. rewrite K3, !fmap_insert. f_equal.
    - unfold abs_key, renamed_node. simpl. by rewrite Hpar.
    - apply insert_id. by rewrite lookup_fmap, Hx. }
  eapply wp_mono; [eapply (touch_tree_spec root r3 ext p kp); [done|rewrite K3; apply lookup_insert_eq|done]|].
  intros [] r4 (Hr4 & Ha4 & E4 & W4 & A4). split; [done|]. split; [rewrite W4; done|]. split; [by rewrite A4|]. left. split; [congruence|]. rewrite E4. done.
Qed.
End rename.
