(* ===== verification/RegTreeHistory.v ===== *)
(** * Every sequence of requests for keys of a 64-bit process *)

From stdpp Require Import sorting.
From S2P Require Import Prelude.
From S2P Require Import Atoms.
From S2P Require Import AtomsInv.
From S2P Require Import RegKeys.
From S2P Require Import RegArrays.
From S2P Require Import RegTouch.
From S2P Require Import RegTree.
From S2P Require Import RegTreeInv.
From S2P Require Import RegTreeLookup.
From S2P Require Import RegTreeLinks.

From S2P Require Import RegTreeCreate.
From S2P Require Import RegTreeChange.

Section requests.
Context `{CaseMap} (root : Z) (lookup_other : list Z → Z).
Implicit Types (p q c x : Z) (k : key) (r : registry) (ext : Z → Z) (T : gmap Z node) (hs : list (option Z)).

(** A handle is a place in a list of keys; one that is closed leaves a gap. *)
Inductive tree_op :=
| OpenKey (h : nat) (name : list Z) (attr : Z) | CreateKey (h : nat) (name : list Z) (attr : Z) (data : key_init_data)
| DeleteKey (h : nat) | RenameKey (h : nat) (name : list Z) | CloseKey (h : nat).
Definition op_handle (op : tree_op) : nat :=
  match op with OpenKey h _ _ | CreateKey h _ _ _ | DeleteKey h | RenameKey h _ | CloseKey h => h end.
Definition new_handle hs (c : option Z) : list (option Z) := match c with Some c => hs ++ [Some c] | None => hs end.
Definition run_tree_op (op : tree_op) hs : R (list (option Z)) :=
  _ ← set_error 0;
  match hs !! op_handle op with
  | Some (Some p) =>
      match op with
      | OpenKey _ name attr => c ← req_open_key root lookup_other p name KEY_WOW64_64KEY attr; mret (new_handle hs c)
      | CreateKey _ name attr data => c ← req_create_key root lookup_other p name KEY_WOW64_64KEY attr data; mret (new_handle hs c)
      | DeleteKey _ => _ ← req_delete_key p; mret hs
      | RenameKey _ name => _ ← req_rename_key p name; mret hs
      | CloseKey h => _ ← release p; mret (<[h := None]> hs)
      end
  | _ => _ ← set_error STATUS_INVALID_HANDLE; mret hs
  end.
Fixpoint run_tree_ops (ops : list tree_op) hs : R (list Z * list (option Z)) :=
  match ops with
  | [] => mret ([], hs)
  | op :: ops => hs ← run_tree_op op hs; e ← gets r_error; l ← run_tree_ops ops hs; mret (e :: fst l, snd l)
  end.

(** ** On the tree alone *)

Definition ext_of hs : Z → Z := λ p, Z.of_nat (length (filter (λ h, h = Some p) hs)).
Definition opened T hs c (e : Z) (e' : Z) T' hs' : Prop :=
  T' = T ∧ hs' = hs ++ [Some c] ∧ e' = if node_flag T c KEY_PREDEF then STATUS_PREDEFINED_HANDLE else e.
Definition refused T hs (e : Z) (e' : Z) T' hs' : Prop := T' = T ∧ hs' = hs ∧ e' = e.
Definition open_step T hs p name e T' hs' : Prop :=
  if 65534 <=? 2 * Z.of_nat (length name) then refused T hs STATUS_OBJECT_NAME_INVALID e T' hs' else
  match resolve T p name with
  | Reached c => opened T hs c 0 e T' hs'
  | Missing _ _ => refused T hs STATUS_OBJECT_NAME_NOT_FOUND e T' hs'
  | Stuck err => refused T hs err e T' hs'
  end.
Definition create_step (fails : Prop) T hs p name (attr : Z) data e T' hs' : Prop :=
  match resolve T p name with
  | Reached c => if has_attr attr OBJ_OPENIF then opened T hs c STATUS_OBJECT_NAME_EXISTS e T' hs' else refused T hs STATUS_OBJECT_NAME_COLLISION e T' hs'
  | Missing x n =>
      refused T hs STATUS_NO_MEMORY e T' hs' ∧ fails ∨
      if may_create (node_flag T x KEY_VOLATILE) data
      then e = 0 ∧ ∃ c, T !! c = None ∧ T' = add_node T x c n (new_node x n data) ∧ hs' = hs ++ [Some c]
      else refused T hs STATUS_CHILD_MUST_BE_VOLATILE e T' hs'
  | Stuck err => refused T hs err e T' hs'
  end.
Definition tree_step (fails : Prop) T hs (op : tree_op) (e : Z) T' hs' : Prop :=
  match hs !! op_handle op with
  | Some (Some p) =>
      match T !! p with
      | None => False
      | Some nd =>
          let deleted := bool_decide (nd_name nd = None) in
          match op with
          | CloseKey h => e = 0 ∧ hs' = <[h := None]> hs ∧ T' = if deleted && bool_decide (Some p ∉ hs') then delete p T else T
          | DeleteKey _ =>
              if deleted then refused T hs 0 e T' hs' else
              match delete_refusal T p with
              | Some err => refused T hs err e T' hs'
              | None => e = 0 ∧ hs' = hs ∧ ∃ x, nd_parent nd = Some x ∧ T' = remove_node T x p
              end
          | _ =>
              if deleted then refused T hs STATUS_KEY_DELETED e T' hs' else
              match op with
              | OpenKey _ name _ => open_step T hs p name e T' hs'
              | CreateKey _ name attr data => if bool_decide (name = []) then open_step T hs p name e T' hs' else create_step fails T hs p name attr data e T' hs'
              | RenameKey _ name =>
                  match rename_refusal T p name with
                  | Some err => refused T hs err e T' hs'
                  | None => e = 0 ∧ hs' = hs ∧ T' = rename_node T p name ∨ refused T hs STATUS_NO_MEMORY e T' hs' ∧ fails
                  end
              | _ => False
              end
          end
      end
  | _ => refused T hs STATUS_INVALID_HANDLE e T' hs'
  end.
Fixpoint tree_steps (fails : Prop) T hs (ops : list tree_op) (es : list Z) T' hs' : Prop :=
  match ops, es with
  | [], [] => T' = T ∧ hs' = hs
  | op :: ops, e :: es => ∃ T1 hs1, tree_step fails T hs op e T1 hs1 ∧ tree_steps fails T1 hs1 ops es T' hs'
  | _, _ => False
  end.

(** No symbolic links, no 32-bit view; the length of a name fits a request. *)
Definition op_plain (op : tree_op) : Prop :=
  match op with
  | OpenKey _ _ attr => has_attr attr OBJ_KEY_WOW64 = false
  | CreateKey _ _ attr data => has_attr attr OBJ_KEY_WOW64 = false ∧ has_attr (kd_options data) REG_OPTION_CREATE_LINK = false
  | RenameKey _ name => short name
  | _ => True
  end.
Definition session_ok r hs : Prop := tree_ok root r (ext_of hs) ∧ no_links r.

(** ** Handles *)

Lemma ext_app hs c : ∀ q, ext_of (hs ++ [Some c]) q = bump c 1 (ext_of hs) q.
Proof.
  intros q. unfold ext_of, bump. rewrite list.filter_app, length_app. case_decide as E.
  - subst q. rewrite filter_cons_True by done. simpl. lia.
  - rewrite filter_cons_False by congruence. simpl. lia.
Qed.
Lemma ext_close hs h p : hs !! h = Some (Some p) → ∀ q, ext_of (<[h := None]> hs) q = bump p (-1) (ext_of hs) q.
Proof.
  intros Hh q. pose proof (take_drop_middle hs h (Some p) Hh) as E. pose proof (lookup_lt_Some _ _ _ Hh) as Hl.
  assert (<[h := None]> hs = take h hs ++ None :: drop (S h) hs) as -> by by apply insert_take_drop.
  rewrite <- E at 3. unfold ext_of, bump. rewrite !list.filter_app, !length_app, (filter_cons_False _ None) by done. case_decide as Eq.
  - subst q. rewrite filter_cons_True by done. simpl. lia.
  - rewrite filter_cons_False by congruence. lia.
Qed.
Lemma ext_in hs h p : hs !! h = Some (Some p) → 1 ≤ ext_of hs p.
Proof.
  intros Hh. unfold ext_of. assert (Some p ∈ filter (λ h, h = Some p) hs) as Hin by (apply list_elem_of_filter; split; [done|by eapply list_elem_of_lookup_2]).
  destruct (filter _ hs); [by apply elem_of_nil in Hin|simpl; lia].
Qed.
Lemma ext_zero hs p : ext_of hs p = 0 ↔ Some p ∉ hs.
Proof.
  unfold ext_of. split.
  - intros E Hin. assert (Some p ∈ filter (λ h, h = Some p) hs) as Hf by by apply list_elem_of_filter. destruct (filter _ hs); [by apply elem_of_nil in Hf|simpl in E; lia].
  - intros Hin. destruct (filter _ hs) as [|x l] eqn:E; [done|]. assert (x ∈ filter (λ h, h = Some p) hs) as Hx by (rewrite E; by left).
    apply list_elem_of_filter in Hx as [-> Hx]. done.
Qed.
Lemma few_handles hs : Z.of_nat (length hs) + 8 < INT_MAX → few (ext_of hs).
Proof. intros Hl p. unfold ext_of. pose proof (length_filter (λ h, h = Some p) hs). lia. Qed.
Lemma session_key r hs h p : session_ok r hs → hs !! h = Some (Some p) → ∃ k, r_keys r !! p = Some k ∧ abs r !! p = Some (abs_key k).
Proof.
  intros [Hr _] Hh. apply ext_in in Hh. destruct (r_keys r !! p) as [k|] eqn:Hk; [exists k; by rewrite abs_lookup, Hk|].
  pose proof (to_ext _ _ _ Hr p Hk). lia.
Qed.

(** ** Links *)

Definition links_free T : Prop := map_Forall (λ _ nd, has_attr (nd_flags nd) KEY_SYMLINK = false) T.
Lemma no_links_abs r : no_links r ↔ links_free (abs r).
Proof.
  assert (∀ k, has_attr (nd_flags (abs_key k)) KEY_SYMLINK = has_flag k KEY_SYMLINK) as E.
  { intros k. unfold has_attr, has_flag. simpl. rewrite (ldiff_dirty (Z.ldiff (k_flags k) KEY_DIRTY) (k_flags k)); [done| |done].
    apply Z.bits_inj. intros i. rewrite !Z.ldiff_spec. by destruct (Z.testbit (k_flags k) i), (Z.testbit KEY_DIRTY i). }
  split.
  - intros Hn p nd Hp. rewrite abs_lookup in Hp. apply fmap_Some in Hp as (k & Hk & ->). rewrite E. by eapply Hn.
  - intros Hn p k Hk. rewrite <- E. apply (Hn p). by rewrite abs_lookup, Hk.
Qed.
Lemma links_free_alter f T x : (∀ nd, has_attr (nd_flags nd) KEY_SYMLINK = false → has_attr (nd_flags (f nd)) KEY_SYMLINK = false) → links_free T → links_free (alter f x T).
Proof. intros Hf HT p nd [(-> & nd0 & Hp & ->)|[_ Hp]]%lookup_alter_Some; [apply Hf; by eapply HT|by eapply HT]. Qed.
Lemma links_free_add T x p n data : has_attr (kd_options data) REG_OPTION_CREATE_LINK = false → links_free T → links_free (add_node T x p n (new_node x n data)).
Proof.
  intros Hl HT. apply map_Forall_insert_2; [|by apply links_free_alter]. simpl. unfold new_flags. rewrite Hl. destruct (has_attr (kd_options data) REG_OPTION_VOLATILE); reflexivity.
Qed.
Lemma links_free_remove T x p : links_free T → links_free (remove_node T x p).
Proof.
  intros HT. apply links_free_alter; [|by apply links_free_alter]. intros nd. unfold has_attr. simpl. rewrite Z.land_lor_distr_l. by rewrite Z.lor_0_r.
Qed.

(** ** One request *)

(** A request that ends in [r'] with the handles [hs']. *)
Definition answered r hs (op : tree_op) hs' r' : Prop :=
  session_ok r' hs' ∧ r_allocs r' `suffix_of` r_allocs r ∧ tree_step (false ∈ r_allocs r) (abs r) hs op (r_error r') (abs r') hs'.
Lemma session_same r hs r' : session_ok r hs → tree_ok root r' (ext_of hs) → abs r' = abs r → session_ok r' hs.
Proof. intros [_ Hn] Hr' Ha. split; [done|]. apply no_links_abs. rewrite Ha. by apply no_links_abs. Qed.
Lemma session_opened r hs r' c : session_ok r hs → tree_ok root r' (bump c 1 (ext_of hs)) → abs r' = abs r → session_ok r' (hs ++ [Some c]).
Proof.
  intros [_ Hn] Hr' Ha. split; [|apply no_links_abs; rewrite Ha; by apply no_links_abs]. eapply tree_ok_ext; [|exact Hr']. intros q. by rewrite ext_app.
Qed.
(** The error of a handle to a predefined key. *)
Lemma predef_spec r hs r1 c e Q : session_ok r hs → tree_ok root r1 (bump c 1 (ext_of hs)) → abs r1 = abs r → r_error r1 = e → r_allocs r1 `suffix_of` r_allocs r →
  (∀ r', session_ok r' (hs ++ [Some c]) → r_allocs r' `suffix_of` r_allocs r → opened (abs r) hs c e (r_error r') (abs r') (hs ++ [Some c]) → Q tt r') →
  ∃ k, r_keys r1 !! c = Some k ∧ wp (when (has_flag k KEY_PREDEF) (set_error STATUS_PREDEFINED_HANDLE)) Q r1.
Proof.
  intros Hs Hr1 Ha He Hal HQ. destruct (r_keys r1 !! c) as [k|] eqn:Hk.
  2:{ pose proof (to_ext _ _ _ Hr1 c Hk) as E. rewrite bump_same in E. unfold ext_of in E. lia. }
  exists k. split; [done|]. assert (node_flag (abs r) c KEY_PREDEF = has_flag k KEY_PREDEF) as Ef by (rewrite <- Ha; by apply node_flag_key).
  rewrite wp_when. destruct (has_flag k KEY_PREDEF) eqn:Hf; [unfold set_error; rewrite wp_modify|].
  - apply HQ; [eapply session_opened; [exact Hs|by apply tree_ok_error|done]|done|]. unfold opened. by rewrite Ef.
  - apply HQ; [by eapply session_opened|done|]. unfold opened. by rewrite Ef.
Qed.
Lemma open_request_spec r hs p k name attr : session_ok r hs → few (ext_of hs) → r_keys r !! p = Some k → is_Some (k_name k) → has_attr attr OBJ_KEY_WOW64 = false →
  wp (open_named_object root lookup_other p name attr) (λ obj r', r_allocs r' = r_allocs r ∧ abs r' = abs r ∧
    match obj with
    | Some c => tree_ok root r' (bump c 1 (ext_of hs)) ∧ r_error r' = 0 ∧ (∀ e T' hs', opened (abs r) hs c 0 e T' hs' → open_step (abs r) hs p name e T' hs')
    | None => tree_ok root r' (ext_of hs) ∧ open_step (abs r) hs p name (r_error r') (abs r') hs
    end) r.
Proof.
  intros [Hr Hlinks] Hfew Hk Hn Hattr. destruct (Z.leb_spec 65534 (2 * Z.of_nat (length name))) as [Hlong|Hlen].
  - unfold open_named_object, set_error. rewrite (proj2 (Z.leb_le _ _)), wp_bind, wp_modify, wp_ret by done. split_and!; try done; [by apply tree_ok_error|].
    unfold open_step. rewrite (proj2 (Z.leb_le _ _)) by done. done.
  - eapply wp_mono; [by apply (open_named_object_spec root lookup_other r (ext_of hs) p k)|]. intros obj r1 Hres. unfold open_step. rewrite (proj2 (Z.leb_gt _ _)) by done.
    destruct (resolve (abs r) p name) as [c|x e|e], obj as [c'|]; try done.
    + destruct Hres as (-> & (Hr1 & (_ & Ha & Hal & _) & _) & He). by split_and!.
    + destruct Hres as (Hr1 & (_ & Ha & Hal & _) & He). by split_and!.
    + destruct Hres as (Hr1 & (_ & Ha & Hal & _) & He). by split_and!.
Qed.
Lemma wow64_parent p name r Q : Q p r → wp (get_wow6432_parent p KEY_WOW64_64KEY name) Q r.
Proof. done. Qed.

(** The requests work on keys that have not been deleted. *)
Lemma request_key {A} r hs h p (f : option Z → R A) Q op : session_ok r hs → hs !! h = Some (Some p) → op_handle op = h →
  match op with OpenKey _ _ _ | CreateKey _ _ _ _ | RenameKey _ _ => True | _ => False end →
  (∀ r', answered r hs op hs r' → wp (f None) Q r') →
  (∀ k, r_keys r !! p = Some k → is_Some (k_name k) → abs r !! p = Some (abs_key k) → wp (f (Some p)) Q r) →
  wp (k ← get_hkey_obj p; f k) Q r.
Proof.
  intros Hs Hh Hop Hkind Hdel Hgo. pose proof Hs as [Hr _]. destruct (session_key _ _ _ _ Hs Hh) as (k & Hk & Ha).
  rewrite wp_bind. unfold get_hkey_obj. rewrite wp_bind, (key_of_spec p r k) by done.
  pose proof (ko_named _ _ _ _ _ (to_keys _ _ _ Hr p k Hk)) as Hnamed. destruct (k_name k) as [n|] eqn:Hn.
  - destruct Hnamed as [-> _]. rewrite wp_ret. eapply Hgo; [done|by rewrite Hn|done].
  - destruct Hnamed as [-> _]. unfold set_error. rewrite wp_bind, wp_modify, wp_ret. apply Hdel. split; [|split; [done|]].
    + eapply session_same; [exact Hs|by apply tree_ok_error|done].
    + unfold tree_step. rewrite Hop, Hh, Ha. rewrite bool_decide_true by done. by destruct op.
Qed.

Lemma step_named T hs op p nd : hs !! op_handle op = Some (Some p) → T !! p = Some nd → is_Some (nd_name nd) →
  match op with CloseKey _ => False | _ => True end → ∀ fails e T' hs',
  match op with
  | OpenKey _ name _ => open_step T hs p name e T' hs'
  | CreateKey _ name attr data => if bool_decide (name = []) then open_step T hs p name e T' hs' else create_step fails T hs p name attr data e T' hs'
  | RenameKey _ name =>
      match rename_refusal T p name with
      | Some err => refused T hs err e T' hs'
      | None => e = 0 ∧ hs' = hs ∧ T' = rename_node T p name ∨ refused T hs STATUS_NO_MEMORY e T' hs' ∧ fails
      end
  | DeleteKey _ =>
      match delete_refusal T p with
      | Some err => refused T hs err e T' hs'
      | None => e = 0 ∧ hs' = hs ∧ ∃ x, nd_parent nd = Some x ∧ T' = remove_node T x p
      end
  | CloseKey _ => False
  end → tree_step fails T hs op e T' hs'.
Proof.
  intros Hh Hp [n Hn] Hkind fails e T' hs' Hstep. unfold tree_step. rewrite Hh, Hp, Hn. rewrite bool_decide_false by done. by destruct op.
Qed.
Lemma open_key_spec r hs h p name attr : session_ok r hs → few (ext_of hs) → hs !! h = Some (Some p) → r_error r = 0 → has_attr attr OBJ_KEY_WOW64 = false →
  wp (c ← req_open_key root lookup_other p name KEY_WOW64_64KEY attr; mret (new_handle hs c)) (answered r hs (OpenKey h name attr)) r.
Proof.
  intros Hs Hfew Hh He Hattr. unfold req_open_key. rewrite wp_bind. change (open_attributes KEY_WOW64_64KEY attr) with attr. cbv zeta.
  eapply (request_key r hs h p _ _ (OpenKey h name attr)); try done. intros k Hk Hn Ha.
  cbv beta iota. rewrite wp_bind. apply wow64_parent. rewrite wp_bind. eapply wp_mono; [by eapply (open_request_spec r hs p k)|].
  intros [c|] r1 (Hal & Ha1 & H1).
  - destruct H1 as (Hr1 & He1 & Hstep). rewrite wp_bind. change (has_attr KEY_WOW64_64KEY KEY_WOW64_64KEY) with true. cbv iota. rewrite wp_ret, wp_bind.
    edestruct (predef_spec r hs r1 c 0) as (kc & Hkc & Hw); [done|done|done|done|by rewrite Hal| |rewrite (key_of_spec c r1 kc), wp_bind by done; exact Hw].
    intros r' Hs' Hal' Hop. rewrite !wp_ret. split; [done|]. split; [done|]. eapply step_named; try done. by apply Hstep.
  - destruct H1 as (Hr1 & Hstep). rewrite !wp_ret. split; [by eapply session_same|]. split; [by rewrite Hal|]. by eapply step_named.
Qed.

Lemma created_session r hs err x n data c r' : session_ok r hs → has_attr (kd_options data) REG_OPTION_CREATE_LINK = false →
  created root err r (ext_of hs) x n data (Some c) r' → session_ok r' (hs ++ [Some c]).
Proof.
  intros [_ Hn] Hlink (_ & _ & _ & Hr' & Ha & _). split; [eapply tree_ok_ext; [|exact Hr']; intros q; by rewrite ext_app|].
  apply no_links_abs. rewrite Ha. apply links_free_add; [done|]. by apply no_links_abs.
Qed.
Lemma create_key_spec r hs h p name attr data : session_ok r hs → few (ext_of hs) → hs !! h = Some (Some p) → r_error r = 0 →
  has_attr attr OBJ_KEY_WOW64 = false → has_attr (kd_options data) REG_OPTION_CREATE_LINK = false →
  wp (c ← req_create_key root lookup_other p name KEY_WOW64_64KEY attr data; mret (new_handle hs c)) (answered r hs (CreateKey h name attr data)) r.
Proof.
  intros Hs Hfew Hh He Hattr Hlink. pose proof Hs as [Hr Hlinks]. unfold req_create_key. rewrite wp_bind. change (open_attributes KEY_WOW64_64KEY attr) with attr. cbv zeta.
  change (truth (Z.land (kd_options data) REG_OPTION_CREATE_LINK)) with (has_attr (kd_options data) REG_OPTION_CREATE_LINK). rewrite Hlink.
  eapply (request_key r hs h p _ _ (CreateKey h name attr data)); try done. intros k Hk Hn Ha.
  assert (∀ r1 c e, tree_ok root r1 (bump c 1 (ext_of hs)) → abs r1 = abs r → r_error r1 = e → r_allocs r1 `suffix_of` r_allocs r → (name = [] ∨ e = STATUS_OBJECT_NAME_EXISTS) →
    (∀ r', opened (abs r) hs c e (r_error r') (abs r') (hs ++ [Some c]) → tree_step (false ∈ r_allocs r) (abs r) hs (CreateKey h name attr data) (r_error r') (abs r') (hs ++ [Some c])) →
    wp (e ← gets r_error; k ← key_of c;
      if bool_decide (name = []) || (e =? STATUS_OBJECT_NAME_EXISTS) then
        _ ← when (has_flag k KEY_PREDEF) (set_error STATUS_PREDEFINED_HANDLE);
        key ← (if has_attr KEY_WOW64_64KEY KEY_WOW64_64KEY then mret c else grab_wow6432node c);
        mret (Some key)
      else q ← get_parent k; q ← access q; _ ← touch_key q REG_NOTIFY_CHANGE_NAME; mret (Some c))
      (λ obj r', wp (mret (new_handle hs obj)) (answered r hs (CreateKey h name attr data)) r') r1) as Hopened.
  { intros r1 c e Hr1 Ha1 He1 Hal1 Hcase Hstep. rewrite wp_bind, wp_gets, wp_bind.
    edestruct (predef_spec r hs r1 c e) as (kc & Hkc & Hw); [done|done|done|done|done| |rewrite (key_of_spec c r1 kc) by done].
    2:{ rewrite He1. assert (bool_decide (name = []) || (e =? STATUS_OBJECT_NAME_EXISTS) = true) as ->.
        { destruct Hcase as [->| ->]; [done|by rewrite orb_true_r]. }
        rewrite wp_bind. exact Hw. }
    intros r' Hs' Hal' Hop. change (has_attr KEY_WOW64_64KEY KEY_WOW64_64KEY) with true. cbv iota. rewrite wp_bind, !wp_ret.
    split; [done|]. split; [done|]. by apply Hstep. }
  cbv beta iota. rewrite wp_bind. apply wow64_parent. rewrite wp_bind. destruct (decide (name = [])) as [E0|Hname].
  - rewrite (bool_decide_true (name = [])) by done. eapply wp_mono; [by eapply (open_request_spec r hs p k)|]. intros [c|] r1 (Hal & Ha1 & H1).
    + destruct H1 as (Hr1 & He1 & Hstep). rewrite <- (bool_decide_true (name = [])) by done. eapply Hopened; try done; [by rewrite Hal|by left|].
      intros r' Hop. eapply step_named; try done. cbv iota. rewrite bool_decide_true by done. by apply Hstep.
    + destruct H1 as (Hr1 & Hstep). rewrite !wp_ret. split; [by eapply session_same|]. split; [by rewrite Hal|]. eapply step_named; try done. cbv iota. by rewrite bool_decide_true.
  - rewrite (bool_decide_false (name = [])) by done. assert (∀ e T' hs', create_step (false ∈ r_allocs r) (abs r) hs p name attr data e T' hs' →
      tree_step (false ∈ r_allocs r) (abs r) hs (CreateKey h name attr data) e T' hs') as Hstep.
    { intros e T' hs' Hc. eapply step_named; try done. cbv iota. by rewrite bool_decide_false. }
    eapply wp_mono; [by apply (create_object_with_name_spec root lookup_other r (ext_of hs) p k name attr data)|].
    intros obj r1 Hres. unfold create_result, create_step in *. destruct (resolve (abs r) p name) as [c|x n|e].
    + destruct (has_attr attr OBJ_OPENIF).
      * destruct Hres as (-> & (Hr1 & (_ & Ha1 & Hal & _) & _) & He1). rewrite <- (bool_decide_false (name = [])) by done.
        eapply Hopened; try done; [by rewrite Hal|by right|]. intros r' Hop. by apply Hstep.
      * destruct Hres as (-> & Hr1 & (_ & Ha1 & Hal & _) & He1). rewrite !wp_ret. split; [by eapply session_same|]. split; [by rewrite Hal|]. by apply Hstep.
    + pose proof Hres as (_ & Hal & Hobj). destruct obj as [c|].
      * destruct Hobj as (Hc & Hr1 & Ha1 & He1 & Hmay). pose proof (created_session _ _ _ _ _ _ _ _ Hs Hlink Hres) as Hs1.
        assert (∃ kc, r_keys r1 !! c = Some kc ∧ abs_key kc = new_node x n data) as (kc & Hkc & Ekc).
        { assert (abs r1 !! c = Some (new_node x n data)) as E by (rewrite Ha1; apply lookup_insert_eq). rewrite abs_lookup in E. apply fmap_Some in E as (kc & ? & ?). eauto. }
        assert (k_parent kc = Some x ∧ is_Some (k_name kc)) as [Hpar Hnc] by (injection Ekc as En Ep; rewrite En; done).
        destruct (subkey_parent _ _ _ _ _ _ Hr1 Hkc Hpar) as (kx & _ & _ & Hkx & _ & _ & _ & _ & Hnx & _).
        rewrite wp_bind, wp_gets, wp_bind, (key_of_spec c r1 kc), He1 by done. change (false || (0 =? STATUS_OBJECT_NAME_EXISTS)) with false. cbv iota. rewrite wp_bind, get_parent_spec, Hpar, wp_bind, wp_access, wp_bind by done.
        eapply wp_mono; [by eapply (touch_tree_spec root r1)|]. intros [] r2 (Hr2 & Ha2 & He2 & _ & Hal2). rewrite !wp_ret. cbn [new_handle].
        split; [|split; [by rewrite Hal2|]].
        -- destruct Hs1 as [Hs1 Hl1]. split; [eapply tree_ok_ext; [|exact Hr2]; intros q; by rewrite ext_app|]. apply no_links_abs. rewrite Ha2. by apply no_links_abs.
        -- apply Hstep. right. rewrite Hmay, He2, Ha2. split; [done|]. exists c. by rewrite abs_lookup, Hc.
      * destruct Hobj as (Hr1 & Ha1 & Herr). rewrite !wp_ret. split; [by eapply session_same|]. split; [done|]. apply Hstep.
        destruct Herr as [[E F]|[E F]]; [left|right]; [done|]. by rewrite F.
    + destruct Hres as (-> & Hr1 & (_ & Ha1 & Hal & _) & He1). rewrite !wp_ret. split; [by eapply session_same|]. split; [by rewrite Hal|]. by apply Hstep.
Qed.

Lemma delete_request_spec r hs h p : session_ok r hs → hs !! h = Some (Some p) → r_error r = 0 →
  wp (_ ← req_delete_key p; mret hs) (answered r hs (DeleteKey h)) r.
Proof.
  intros Hs Hh He. pose proof Hs as [Hr Hlinks]. destruct (session_key _ _ _ _ Hs Hh) as (k & Hk & Ha).
  unfold req_delete_key. rewrite wp_bind, wp_bind, wp_gets, wp_bind. unfold id.
  eapply wp_mono; [eapply (delete_key_spec root _ r (ext_of hs) p k); [done|done|by eapply ext_in]|].
  intros ok r1 (Hr1 & _ & Hal & H1). rewrite !wp_ret. destruct (decide (k_name k = None)) as [Hn|Hn].
  - destruct H1 as (_ & Ha1 & He1). split; [by eapply session_same|]. split; [done|]. unfold tree_step. simpl. rewrite Hh, Ha, bool_decide_true by done. split_and!; [done|done|congruence].
  - assert (∀ e T' hs', match delete_refusal (abs r) p with Some err => refused (abs r) hs err e T' hs'
      | None => e = 0 ∧ hs' = hs ∧ ∃ x, nd_parent (abs_key k) = Some x ∧ T' = remove_node (abs r) x p end →
      tree_step (false ∈ r_allocs r) (abs r) hs (DeleteKey h) e T' hs') as Hstep.
    { intros e T' hs' Hc. eapply step_named; try done. destruct (k_name k) eqn:E; [|done]. simpl. rewrite E. eauto. }
    destruct (delete_refusal (abs r) p) as [err|].
    + destruct H1 as (_ & Ha1 & He1). split; [by eapply session_same|]. split; [done|]. by apply Hstep.
    + destruct H1 as (_ & He1 & x & Hx & Ha1). split; [|split; [done|]].
      * split; [done|]. apply no_links_abs. rewrite Ha1. by apply links_free_remove, no_links_abs.
      * apply Hstep. split; [congruence|]. split; [done|]. by exists x.
Qed.
Lemma rename_request_spec r hs h p name : session_ok r hs → hs !! h = Some (Some p) → r_error r = 0 → short name →
  wp (_ ← req_rename_key p name; mret hs) (answered r hs (RenameKey h name)) r.
Proof.
  intros Hs Hh He Hshort. pose proof Hs as [Hr Hlinks]. unfold req_rename_key. rewrite wp_bind.
  eapply (request_key r hs h p _ _ (RenameKey h name)); try done. intros k Hk Hn Ha.
  eapply wp_mono; [by eapply (rename_key_spec root r (ext_of hs) p k)|]. intros [] r1 (Hr1 & _ & Hal & H1). rewrite wp_ret.
  assert (session_ok r1 hs) as Hs1.
  { split; [done|]. apply no_links_abs. assert (abs r1 = abs r ∨ abs r1 = rename_node (abs r) p name) as [->| ->] by (destruct (rename_refusal _ _ _); naive_solver).
    - by apply no_links_abs. - apply links_free_alter; [done|]. by apply no_links_abs. }
  split; [done|]. split; [done|]. eapply step_named; try done. cbv iota. destruct (rename_refusal (abs r) p name); [by destruct H1 as [-> ->]|].
  destruct H1 as [[-> E]|(-> & E & F)]; [left; split_and!; [congruence|done|done]|right]. by split_and!.
Qed.
Lemma close_spec r hs h p : session_ok r hs → hs !! h = Some (Some p) → r_error r = 0 →
  wp (_ ← release p; mret (<[h := None]> hs)) (answered r hs (CloseKey h)) r.
Proof.
  intros Hs Hh He. pose proof Hs as [Hr Hlinks]. destruct (session_key _ _ _ _ Hs Hh) as (k & Hk & Ha). pose proof (ext_in _ _ _ Hh) as Hext.
  pose proof (ext_close _ _ _ Hh) as Hclose. pose proof (Hclose p) as Hp. rewrite bump_same in Hp. rewrite wp_bind.
  assert (∀ r', tree_ok root r' (bump p (-1) (ext_of hs)) → abs r' = (if bool_decide (k_name k = None) && bool_decide (Some p ∉ <[h := None]> hs) then delete p (abs r) else abs r) →
    r_error r' = 0 → r_allocs r' = r_allocs r → wp (mret (<[h := None]> hs)) (answered r hs (CloseKey h)) r') as Hdone.
  { intros r' Hr' Ha' He' Hal'. rewrite wp_ret. split; [|split; [by rewrite Hal'|]].
    - split; [eapply tree_ok_ext; [|exact Hr']; intros q; by rewrite Hclose|]. apply no_links_abs. rewrite Ha'. apply no_links_abs in Hlinks. destruct (_ && _); [by apply map_Forall_delete|done].
    - unfold tree_step. simpl. rewrite Hh, Ha. by split_and!. }
  destruct (decide (2 ≤ ext_of hs p ∨ is_Some (k_name k))) as [Hkeep|Hfree].
  - eapply wp_mono; [by eapply (release_keeps root r (ext_of hs) p k)|]. intros [] r' (Hr' & (_ & Ha' & Hal' & _) & He'). apply Hdone; [done| |congruence|done].
    rewrite Ha'. destruct Hkeep as [H2|[n Hn]]; [|by rewrite Hn].
    rewrite (bool_decide_false (Some p ∉ _)); [by rewrite andb_false_r|]. intros Hnot%ext_zero. lia.
  - assert (k_name k = None) as Hn by (destruct (k_name k); [destruct Hfree; right; eauto|done]). assert (ext_of hs p = 1) as E1 by lia.
    eapply wp_mono; [by eapply (release_frees root r (ext_of hs) p k)|]. intros [] r' (Hr' & Ha' & He' & Hal'). apply Hdone; [done| |congruence|done].
    rewrite Hn. rewrite (bool_decide_true (Some p ∉ _)) by (apply ext_zero; lia). done.
Qed.

(** ** Any number of requests *)

Lemma tree_step_length fails T hs op e T' hs' : tree_step fails T hs op e T' hs' → (length hs' ≤ S (length hs))%nat.
Proof.
  intros Hstep. assert (hs' = hs ∨ (∃ o, hs' = hs ++ [o]) ∨ ∃ h, hs' = <[h := None]> hs) as [->|[[o ->]|[h ->]]]; [|lia|rewrite length_app; simpl; lia|rewrite length_insert; lia].
  revert Hstep. unfold tree_step, open_step, create_step, opened, refused. repeat case_match; naive_solver.
Qed.
Lemma run_tree_op_spec op r hs : session_ok r hs → Z.of_nat (length hs) + 8 < INT_MAX → op_plain op →
  wp (run_tree_op op hs) (answered r hs op) r.
Proof.
  intros Hs Hlen%few_handles Hop. assert (session_ok (Registry (r_keys r) (r_next r) (r_allocs r) (r_now r) 0 (r_events r)) hs) as Hs0.
  { eapply session_same; [exact Hs|apply tree_ok_error, Hs|done]. }
  unfold run_tree_op, set_error. rewrite wp_bind, wp_modify. set (r0 := Registry _ _ _ _ _ _) in *.
  assert (hs !! op_handle op = None ∨ hs !! op_handle op = Some None ∨ ∃ p, hs !! op_handle op = Some (Some p)) as [Hh|[Hh|[p Hh]]]
    by (destruct (hs !! op_handle op) as [[p|]|]; eauto).
  1,2: rewrite Hh, wp_bind, wp_modify, wp_ret; (split; [eapply session_same; [exact Hs0|apply tree_ok_error, Hs0|done]|]);
    (split; [done|]); unfold tree_step; by rewrite Hh.
  rewrite Hh. change (answered r hs op) with (answered r0 hs op).
  destruct op as [h name attr|h name attr data|h|h name|h]; simpl in Hop, Hh.
  - by apply open_key_spec.
  - destruct Hop. by apply create_key_spec.
  - by apply delete_request_spec.
  - by apply rename_request_spec.
  - by apply close_spec.
Qed.

Lemma tree_step_mono (fails fails' : Prop) T hs op e T' hs' : (fails → fails') → tree_step fails T hs op e T' hs' → tree_step fails' T hs op e T' hs'.
Proof.
  intros Hf. unfold tree_step, create_step. repeat case_match; naive_solver.
Qed.
Lemma tree_steps_mono (fails fails' : Prop) T hs ops es T' hs' : (fails → fails') → tree_steps fails T hs ops es T' hs' → tree_steps fails' T hs ops es T' hs'.
Proof.
  intros Hf. revert T hs es. induction ops as [|op ops IH]; intros T hs [|e es]; simpl; try done.
  intros (T1 & hs1 & H1 & H2). exists T1, hs1. split; [by eapply tree_step_mono|by apply IH].
Qed.

(** C24: the tree of registry keys. Any sequence of requests of 64-bit processes that open, create, delete or rename keys or close their
    handles is answered, and does, what the tree alone says: a path leads from a key through the children of these names, ignoring case; a
    key is created where its path ends, unless it exists or memory is short; a key with subkeys is not deleted; a new name must be free; a
    key goes away with its last handle once it has been deleted. The arrays of subkeys stay sorted and the references counted. *)
Theorem registry_tree_refines ops : ∀ r hs, session_ok r hs → Z.of_nat (length hs + length ops) + 8 < INT_MAX → Forall op_plain ops →
  wp (run_tree_ops ops hs) (λ l r', session_ok r' (snd l) ∧ tree_steps (false ∈ r_allocs r) (abs r) hs ops (fst l) (abs r') (snd l)) r.
Proof.
  induction ops as [|op ops IH]; intros r hs Hs Hlen Hops; [by split|].
  apply list.Forall_cons in Hops as [Hop Hops]. cbn [run_tree_ops length] in *. rewrite wp_bind.
  eapply wp_mono; [apply run_tree_op_spec; [done|lia|done]|]. intros hs1 r1 (Hs1 & Hal & Hstep). pose proof (tree_step_length _ _ _ _ _ _ _ Hstep).
  rewrite wp_bind, wp_gets, wp_bind. eapply wp_mono; [apply IH; [done|lia|done]|]. intros [es hs2] r2 [Hs2 Hsteps]. rewrite wp_ret. split; [done|].
  exists (abs r1), hs1. split; [done|]. simpl in *. eapply tree_steps_mono; [|exact Hsteps]. intros Hf; by eapply elem_of_suffix.
Qed.
End requests.
