(* ===== verification/RegTreeWitness.v ===== *)
(** * A concrete tree of keys *)

From stdpp Require Import sorting.
From S2P Require Import Prelude.
From S2P Require Import Atoms.
From S2P Require Import AtomsInv.
From S2P Require Import RegKeys.
From S2P Require Import RegArrays.
From S2P Require Import RegTouch.
From S2P Require Import RegTree.
From S2P Require Import RegTreeInv.
From S2P Require Import RegTreeLookup.
From S2P Require Import RegTreeLinks.

From S2P Require Import RegTreeCreate.
From S2P Require Import RegTreeChange.

From S2P Require Import RegTreeHistory.
From S2P Require Import AtomsHistory.
From S2P Require Import RegWitness.

Lemma demo_root_ok allocs : key_ok 1 (r_keys (demo_registry allocs)) (ext_of [Some 1]) 1 demo_root.
Proof.
  split; try done.
  - split; [done|done|by exists (replicate 7 0)|by right].
  - exists [[107]]. split; [|by repeat constructor]. constructor; [by exists demo_key|constructor].
  - split_and!; try done. by rewrite list_elem_of_singleton.
  - by apply no_values_ok.
Qed.
Lemma demo_key_ok allocs : key_ok 1 (r_keys (demo_registry allocs)) (ext_of [Some 1]) 2 demo_key.
Proof.
  split; try done.
  - split; [done|done|by exists []|by left].
  - exists []. split; constructor.
  - intros q [= <-]. exists demo_root. split; [done|]. by apply list_elem_of_singleton.
  - split_and!; try done. by rewrite list_elem_of_singleton.
  - by apply no_values_ok.
Qed.
Lemma demo_session_ok allocs : session_ok 1 (demo_registry allocs) [Some 1].
Proof.
  split; [split|].
  - intros p k [[-> ->]|[-> ->]]%demo_registry_keys; [apply demo_root_ok|apply demo_key_ok].
  - apply demo_registry_ok.
  - by exists demo_root.
  - intros p [k [[-> ->]|[-> ->]]%demo_registry_keys]; simpl; lia.
  - intros p Hp. apply ext_zero. rewrite list_elem_of_singleton. intros [= ->]. done.
  - intros p k [[-> ->]|[-> ->]]%demo_registry_keys; done.
Qed.

(** "B" with a class, "b\A", "b" again, with and without OBJ_OPENIF, "" and "K\x"; then deletions, new names and closed handles. *)
Definition demo_ops : list tree_op :=
  [CreateKey 0 [66] 0 (KeyInitData 9 0 [99]); CreateKey 0 [98; 92; 65] 0 (KeyInitData 9 0 []);
   CreateKey 0 [98] 0 (KeyInitData 9 0 []); CreateKey 0 [98] OBJ_OPENIF (KeyInitData 9 0 []);
   OpenKey 2 [] 0; OpenKey 0 [75; 92; 120] 0; DeleteKey 1; RenameKey 1 [75]; RenameKey 1 [122]; DeleteKey 2;
   CreateKey 2 [120] 0 (KeyInitData 9 0 []); CloseKey 2; CloseKey 4; OpenKey 0 [90; 92; 65] 0; DeleteKey 0; CloseKey 2;
   CreateKey 0 [121] 0 (KeyInitData 9 0 [])].
Lemma registry_tree_refines_witness :
  let r := demo_registry (replicate 7 true ++ [false]) in
  session_ok 1 r [Some 1] ∧ Forall op_plain demo_ops ∧
  wp (run_tree_ops 1 (λ _, STATUS_OBJECT_NAME_NOT_FOUND) demo_ops [Some 1]) (λ l r',
    l = ([0; 0; STATUS_OBJECT_NAME_COLLISION; STATUS_OBJECT_NAME_EXISTS; 0; STATUS_OBJECT_NAME_NOT_FOUND; STATUS_ACCESS_DENIED; STATUS_CANNOT_DELETE; 0; 0;
          STATUS_KEY_DELETED; 0; 0; STATUS_OBJECT_NAME_NOT_FOUND; STATUS_ACCESS_DENIED; STATUS_INVALID_HANDLE; STATUS_NO_MEMORY],
         [Some 1; Some 3; None; Some 3; None]) ∧
    session_ok 1 r' (snd l) ∧ tree_steps (false ∈ r_allocs r) (abs r) [Some 1] demo_ops (fst l) (abs r') (snd l)) r.
Proof.
  intros r. assert (session_ok 1 r [Some 1]) as Hs by apply demo_session_ok.
  assert (Forall op_plain demo_ops) as Hops by (unfold demo_ops; rewrite !list.Forall_cons, list.Forall_nil; split_and!; try done; unfold op_plain, short; simpl; lia).
  split; [exact Hs|]. split; [exact Hops|].
  eapply wp_mono; [apply wp_conj; [|apply (registry_tree_refines 1 (λ _, STATUS_OBJECT_NAME_NOT_FOUND) demo_ops r [Some 1] Hs); [done|exact Hops]]|by intros l r' H; exact H].
  vm_compute. reflexivity.
Defined.
