(* ===== verification/RegView.v ===== *)
(** * A tree of keys seen from one of its keys

    What every path from a key leads to, and how creating a key and changing one change
    that. *)

From stdpp Require Import sorting.
From S2P Require Import Prelude.
From S2P Require Import Atoms.
From S2P Require Import AtomsInv.
From S2P Require Import RegKeys.
From S2P Require Import RegArrays.
From S2P Require Import RegTouch.
From S2P Require Import RegTree.
From S2P Require Import RegTreeInv.
From S2P Require Import RegTreeLookup.
From S2P Require Import RegTreeLinks.
From S2P Require Import RegTreeCreate.

(** What a path leads to, but for its place in the tree. *)
Record item := Item { it_name : option (list Z); it_class : list Z; it_flags : Z; it_values : vmap }.
Definition item_of (nd : node) : item := Item (nd_name nd) (nd_class nd) (nd_flags nd) (nd_values nd).
Notation paths := (list (list Z) → option item).

Section view.
Context `{CaseMap} (root : Z).
Implicit Types (p q c x : Z) (k : key) (r : registry) (ext : Z → Z) (T : gmap Z node) (es : list (list Z)) (V : paths).

Definition fold_path es : list (list Z) := fold_name <$> es.
Definition view T q : paths := λ es, match walk T q es with Reached c => item_of <$> T !! c | _ => None end.

(** ** Walks *)

Lemma fold_name_length (n n' : list Z) : fold_name n = fold_name n' → length n = length n'.
Proof. intros E. apply (f_equal length) in E. unfold fold_name in E. by rewrite !length_fmap in E. Qed.
Lemma is_child_fold T p n n' c : fold_name n = fold_name n' → is_child T p n c ↔ is_child T p n' c.
Proof. intros E. unfold is_child. by rewrite E. Qed.
Lemma child_fold T p n n' : unique_children T → fold_name n = fold_name n' → child T p n = child T p n'.
Proof.
  intros Hu E. destruct (child T p n') as [c|] eqn:Hc.
  - apply child_some; [done|]. rewrite (is_child_fold _ _ _ _ _ E). by apply child_some.
  - apply child_none. intros c. rewrite (is_child_fold _ _ _ _ _ E). by apply child_none.
Qed.
Lemma walk_cons T p e es c : walk T p (e :: es) = Reached c ↔
  Z.of_nat (length e) ≤ MAX_NAME_LEN ∧ ∃ x, child T p e = Some x ∧ walk T x es = Reached c.
Proof.
  simpl. destruct (Z.ltb_spec MAX_NAME_LEN (Z.of_nat (length e))); [split; [done|lia]|].
  destruct (child T p e) as [x|]; [split; [eauto|by intros (_ & ? & [= <-] & ?)]|]. split; [by destruct es|by intros (_ & ? & ? & _)].
Qed.
Lemma walk_app T p es es' c : walk T p (es ++ es') = Reached c ↔ ∃ x, walk T p es = Reached x ∧ walk T x es' = Reached c.
Proof.
  revert p. induction es as [|e es IH]; intros p; cbn [app].
  - split; [intros Hw; by exists p|by intros (x & [= ->] & Hw)].
  - rewrite walk_cons. split.
    + intros (Hl & x & Hx & (y & Hy & Hw)%IH). exists y. split; [rewrite walk_cons; eauto|done].
    + intros (y & (Hl & x & Hx & Hy)%walk_cons & Hw). split; [done|]. exists x. split; [done|]. apply IH. eauto.
Qed.
Lemma walk_snoc T p es e c : walk T p (es ++ [e]) = Reached c ↔
  ∃ x, walk T p es = Reached x ∧ Z.of_nat (length e) ≤ MAX_NAME_LEN ∧ child T x e = Some c.
Proof.
  rewrite walk_app. f_equiv. intros x. rewrite walk_cons. simpl. naive_solver.
Qed.
Lemma walk_fold T es es' p c : unique_children T → fold_path es = fold_path es' → walk T p es = Reached c → walk T p es' = Reached c.
Proof.
  intros Hu. revert es' p. induction es as [|e es IH]; intros [|e' es'] p E; try done. injection E as E1 E2.
  rewrite !walk_cons, (child_fold T p e e'), (fold_name_length _ _ E1) by done. naive_solver.
Qed.
Lemma view_fold T q es es' : unique_children T → fold_path es = fold_path es' → view T q es = view T q es'.
Proof.
  intros Hu E. unfold view. destruct (walk T q es) as [c| |] eqn:Hw, (walk T q es') as [c'| |] eqn:Hw'; try done.
  - pose proof (walk_fold T es es' q c Hu E Hw) as E'. congruence.
  - by rewrite (walk_fold T es es' q c Hu E Hw) in Hw'.
  - by rewrite (walk_fold T es es' q c Hu E Hw) in Hw'.
  - by rewrite (walk_fold T es' es q c' Hu (eq_sym E) Hw') in Hw.
  - by rewrite (walk_fold T es' es q c' Hu (eq_sym E) Hw') in Hw.
Qed.
Lemma walk_exists T p es c : walk T p es = Reached c → is_Some (T !! p) → is_Some (T !! c).
Proof.
  revert p. induction es as [|e es IH]; intros p; [by intros [= ->]|]. rewrite walk_cons. intros (_ & x & Hx & Hw) _. apply (IH x Hw).
  unfold child in Hx. destruct (list_find _ _) as [[i y]|] eqn:E; [|done]. injection Hx as ->. apply list_find_Some in E as (_ & (nd & n & Hc & _) & _). eauto.
Qed.
Lemma view_some T q es en : is_Some (T !! q) → view T q es = Some en ↔ ∃ c nd, walk T q es = Reached c ∧ T !! c = Some nd ∧ en = item_of nd.
Proof.
  intros Hq. unfold view. destruct (walk T q es) as [c| |] eqn:Hw; [|naive_solver..]. destruct (walk_exists _ _ _ _ Hw Hq) as [nd Hc].
  rewrite Hc. simpl. naive_solver.
Qed.
Lemma view_none T q es : is_Some (T !! q) → view T q es = None ↔ ∀ c, walk T q es ≠ Reached c.
Proof.
  intros Hq. unfold view. destruct (walk T q es) as [c| |] eqn:Hw; [|naive_solver..]. destruct (walk_exists _ _ _ _ Hw Hq) as [nd ->]. naive_solver.
Qed.

(** A key is at the end of one path only. *)
Lemma walk_chain r q es c l : chain (r_keys r) (Some q) l → walk (abs r) q es = Reached c → ∃ l', chain (r_keys r) (Some c) (l' ++ l) ∧ length l' = length es.
Proof.
  revert q l. induction es as [|e es IH]; intros q l Hl; [intros [= <-]; by exists []|]. rewrite walk_cons. intros (_ & x & Hx & Hw).
  destruct (child_links _ _ _ _ Hx) as (kx & Hkx & Hnx & Hpx).
  destruct (IH x (x :: l)) as (l' & Hl' & Elen); [split; [done|]; exists kx; rewrite Hpx; by split_and!|done|].
  exists (l' ++ [x]). rewrite <- app_assoc. split; [done|]. rewrite length_app. simpl. lia.
Qed.
Lemma child_name r x e c : unique_children (abs r) → child (abs r) x e = Some c → ∃ k n, r_keys r !! c = Some k ∧ k_parent k = Some x ∧ k_name k = Some n ∧ fold_name n = fold_name e.
Proof. intros Hu (n & (k & Hk & Hp & Hn) & E)%(child_some _ _ _ _ Hu)%is_child_links. by exists k, n. Qed.
Lemma walk_inj r ext q kq es es' c : tree_ok root r ext → r_keys r !! q = Some kq → is_Some (k_name kq) →
  walk (abs r) q es = Reached c → walk (abs r) q es' = Reached c → fold_path es = fold_path es'.
Proof.
  intros Hr Hq Hn Hw Hw'. destruct (to_rooted _ _ _ Hr q kq Hq Hn) as [l Hl]. pose proof (tree_unique _ _ _ Hr) as Hu.
  destruct (walk_chain _ _ _ _ _ Hl Hw) as (l1 & Hl1 & E1). destruct (walk_chain _ _ _ _ _ Hl Hw') as (l2 & Hl2 & E2).
  pose proof (chain_unique _ _ _ _ Hl1 Hl2) as E%app_inv_tail. subst l2. rewrite E1 in E2. clear Hl Hl1 Hl2 E1 l l1.
  revert es' c Hw Hw' E2. induction es as [|e es IH] using rev_ind; intros es' c Hw Hw' E2; [by destruct es'|].
  destruct es' as [|e' es' _] using rev_ind; [rewrite length_app in E2; simpl in E2; lia|]. rewrite !length_app in E2. simpl in E2.
  apply walk_snoc in Hw as (x & Hx & _ & Hc). apply walk_snoc in Hw' as (x' & Hx' & _ & Hc').
  destruct (child_name _ _ _ _ Hu Hc) as (k & n & Hk & Hp & Hn1 & F). destruct (child_name _ _ _ _ Hu Hc') as (k' & n' & Hk' & Hp' & Hn' & F').
  assert (x' = x) as -> by congruence. unfold fold_path. rewrite !fmap_app. f_equal; [by eapply IH; [..|lia]|]. simpl. congruence.
Qed.

(** ** A new key *)

Lemma is_child_add T x c e nd : T !! c = None → nd_parent nd = Some x → nd_name nd = Some e → ∀ y n d,
  is_child (add_node T x c e nd) y n d ↔ d = c ∧ y = x ∧ fold_name e = fold_name n ∨ d ≠ c ∧ is_child T y n d.
Proof.
  intros Hc Hp Hn y n d. unfold is_child, add_node. destruct (decide (d = c)) as [->|Hdc].
  - rewrite lookup_insert_eq. split; [intros (? & ? & [= <-] & ? & ? & ?); left; split_and!; congruence|].
    intros [(_ & -> & E)|[? _]]; [|done]. by exists nd, e.
  - rewrite lookup_insert_ne by done. split.
    + intros (nd' & n' & Hd & ? & ? & ?). right. split; [done|]. apply lookup_alter_Some in Hd as [(-> & nd0 & Hd & ->)|[_ Hd]]; [by exists nd0, n'|by exists nd', n'].
    + intros [(? & _)|(_ & nd' & n' & Hd & ? & ? & ?)]; [done|]. destruct (decide (d = x)) as [->|Hdx].
      * eexists _, n'. rewrite lookup_alter_eq, Hd. split; [done|]. done.
      * exists nd', n'. rewrite lookup_alter_ne by done. done.
Qed.
(** The tree with a key [c] named [e] in [x], where there was none. *)
Record adds T x c (e : list Z) nd T' : Prop := {
  ad_new : T !! c = None;
  ad_tree : T' = add_node T x c e nd;
  ad_parent : nd_parent nd = Some x;
  ad_name : nd_name nd = Some e;
  ad_short : Z.of_nat (length e) ≤ MAX_NAME_LEN;
  ad_unique : unique_children T;
  ad_unique' : unique_children T';
  ad_free : child T x e = None;
  ad_leaf : ∀ y nd', T !! y = Some nd' → nd_parent nd' ≠ Some c }.
Lemma child_add T x c e nd T' y n : adds T x c e nd T' → x ≠ c →
  child T' y n = if decide (y = x ∧ fold_name e = fold_name n) then Some c else child T y n.
Proof.
  intros [Hc -> Hp Hn Hs Hu Hu' Hfree Hleaf] Hxc. destruct (decide _) as [[-> E]|Hne].
  - apply child_some; [done|]. apply is_child_add; [done..|]. by left.
  - destruct (child T y n) as [d|] eqn:Hd.
    + apply child_some in Hd; [|done]. apply child_some; [done|]. apply is_child_add; [done..|]. right. split; [|done].
      intros ->. destruct Hd as (nd' & ? & Hd & _). congruence.
    + apply child_none. intros d. rewrite is_child_add by done. intros [(_ & -> & E)|[_ Hd']]; [tauto|]. by eapply child_none in Hd.
Qed.
Lemma child_of_new T x c e nd T' n : adds T x c e nd T' → child T c n = None.
Proof.
  intros [Hc _ _ _ _ Hu _ _ Hleaf]. apply child_none. intros d (nd' & n' & Hd & Hp & _). by eapply Hleaf.
Qed.
Lemma walk_add T x c e nd T' q es d : adds T x c e nd T' → x ≠ c →
  walk T' q es = Reached d ↔ walk T q es = Reached d ∨ d = c ∧ ∃ es0 e', es = es0 ++ [e'] ∧ walk T q es0 = Reached x ∧ fold_name e' = fold_name e.
Proof.
  intros Ha Hxc. revert d. induction es as [|e1 es IH] using rev_ind; intros d.
  { simpl. split; [by left|]. intros [?|(_ & es0 & e' & E & _)]; [done|]. by destruct es0. }
  rewrite !walk_snoc. split.
  - intros (y & Hy & Hl & Hd). apply IH in Hy as [Hy|(-> & _)].
    + rewrite (child_add _ _ _ _ _ _ _ _ Ha Hxc) in Hd. destruct (decide _) as [[-> E]|_]; [|left; eauto]. injection Hd as <-.
      right. split; [done|]. by exists es, e1.
    + rewrite (child_add _ _ _ _ _ _ _ _ Ha Hxc) in Hd. destruct (decide _) as [[? _]|_]; [congruence|]. by rewrite (child_of_new _ _ _ _ _ _ _ Ha) in Hd.
  - intros [(y & Hy & Hl & Hd)|(-> & es0 & e' & [-> [= ->]]%app_inj_tail & Hx & E)].
    + exists y. split; [apply IH; by left|]. split; [done|]. rewrite (child_add _ _ _ _ _ _ _ _ Ha Hxc).
      destruct (decide _) as [[-> E]|_]; [|done]. destruct Ha. rewrite (child_fold T x e1 e) in Hd by done. congruence.
    + exists x. split; [apply IH; by left|]. rewrite (fold_name_length _ _ E). split; [apply Ha|]. rewrite (child_add _ _ _ _ _ _ _ _ Ha Hxc).
      by rewrite decide_True.
Qed.

Definition put_item V es en : paths := λ es', if decide (fold_path es' = fold_path es) then Some en else V es'.
Lemma fold_path_snoc es e es' : fold_path es' = fold_path (es ++ [e]) ↔ ∃ es0 e0, es' = es0 ++ [e0] ∧ fold_path es0 = fold_path es ∧ fold_name e0 = fold_name e.
Proof.
  unfold fold_path. rewrite fmap_app. simpl. split.
  - destruct es' as [|e0 es0 _] using rev_ind; [by destruct (fold_name <$> es)|]. rewrite fmap_app. simpl. intros [E1 [= E2]]%app_inj_tail. eauto.
  - intros (es0 & e0 & -> & E1 & E2). rewrite fmap_app. simpl. congruence.
Qed.
Lemma view_add r ext q kq es x c e nd T' : tree_ok root r ext → r_keys r !! q = Some kq → is_Some (k_name kq) →
  walk (abs r) q es = Reached x → adds (abs r) x c e nd T' → ∀ es', view T' q es' = put_item (view (abs r) q) (es ++ [e]) (item_of nd) es'.
Proof.
  intros Hr Hq Hn Hw Ha es'. pose proof (tree_unique _ _ _ Hr) as Hu.
  assert (is_Some (abs r !! q)) as Hq' by (rewrite abs_lookup, Hq; eauto).
  assert (x ≠ c) as Hxc by (intros ->; destruct (walk_exists _ _ _ _ Hw Hq') as [? E]; destruct Ha; congruence).
  assert (q ≠ c) as Hqc by (intros ->; destruct Hq' as [? E]; destruct Ha; congruence).
  assert (is_Some (T' !! q)) as Hq'' by (rewrite (ad_tree _ _ _ _ _ _ Ha); unfold add_node; rewrite lookup_insert_ne by done; destruct (decide (q = x)) as [->|]; [rewrite lookup_alter_eq, abs_lookup, Hq; eauto|by rewrite lookup_alter_ne]).
  unfold put_item. destruct (decide _) as [E|E].
  - apply fold_path_snoc in E as (es0 & e0 & -> & E0 & E1). apply view_some; [done|]. exists c, nd. split_and!; [|rewrite (ad_tree _ _ _ _ _ _ Ha); apply lookup_insert_eq|done].
    apply (walk_add _ _ _ _ _ _ _ _ _ Ha Hxc). right. split; [done|]. exists es0, e0. split_and!; [done| |done]. by eapply walk_fold; [|symmetry|].
  - assert (∀ d, walk T' q es' = Reached d ↔ walk (abs r) q es' = Reached d) as Hsame.
    { intros d. rewrite (walk_add _ _ _ _ _ _ _ _ _ Ha Hxc). split; [|by left]. intros [?|(-> & es0 & e' & -> & Hw0 & E')]; [done|].
      destruct E. apply fold_path_snoc. exists es0, e'. split_and!; [done| |done]. by eapply walk_inj. }
    unfold view. destruct (walk T' q es') as [d| |] eqn:Hd.
    + pose proof (proj1 (Hsame d) eq_refl) as Hd'. rewrite Hd'. destruct (walk_exists _ _ _ _ Hd' Hq') as [ndd Hdd].
      assert (d ≠ c) as Hdc by (intros ->; destruct Ha; congruence). rewrite (ad_tree _ _ _ _ _ _ Ha). unfold add_node. rewrite lookup_insert_ne by done.
      destruct (decide (d = x)) as [->|Hdx]; [rewrite lookup_alter_eq, Hdd; done|by rewrite lookup_alter_ne].
    + destruct (walk (abs r) q es') as [d| |] eqn:Hd'; [|done..]. by pose proof (proj2 (Hsame d) eq_refl).
    + destruct (walk (abs r) q es') as [d| |] eqn:Hd'; [|done..]. by pose proof (proj2 (Hsame d) eq_refl).
Qed.

(** ** Other data of a key *)

Lemma walk_set T c nd nd' : T !! c = Some nd → nd_parent nd' = nd_parent nd → nd_name nd' = nd_name nd → unique_children T → ∀ es q d,
  walk (<[c := nd']> T) q es = Reached d ↔ walk T q es = Reached d.
Proof.
  intros Hc Hp Hn Hu.
  assert (∀ y n d, is_child (<[c := nd']> T) y n d ↔ is_child T y n d) as Hch.
  { intros y n d. unfold is_child. destruct (decide (d = c)) as [->|Hdc]; [rewrite lookup_insert_eq, Hc|by rewrite lookup_insert_ne].
    split; intros (nd0 & n0 & [= <-] & ? & ? & ?); eexists _, n0; (split; [done|]); split_and!; congruence. }
  assert (unique_children (<[c := nd']> T)) as Hu' by (intros y n d d' ?%Hch ?%Hch; by eapply Hu).
  assert (∀ y n, child (<[c := nd']> T) y n = child T y n) as E.
  { intros y n. destruct (child T y n) as [d|] eqn:Hd; [by apply child_some, Hch, child_some|]. apply child_none. intros d ?%Hch. by eapply child_none. }
  induction es as [|e es IH]; intros q d; [done|]. rewrite !walk_cons, E. setoid_rewrite IH. done.
Qed.
Lemma view_set r ext q kq es c nd nd' : tree_ok root r ext → r_keys r !! q = Some kq → is_Some (k_name kq) →
  walk (abs r) q es = Reached c → abs r !! c = Some nd → nd_parent nd' = nd_parent nd → nd_name nd' = nd_name nd → ∀ es',
  view (<[c := nd']> (abs r)) q es' = put_item (view (abs r) q) es (item_of nd') es'.
Proof.
  intros Hr Hq Hn Hw Hc Hp Hname es'. pose proof (tree_unique _ _ _ Hr) as Hu. pose proof (walk_set _ _ _ _ Hc Hp Hname Hu) as Hsame.
  unfold put_item, view. destruct (decide _) as [E|E].
  - rewrite (proj2 (Hsame es' q c)) by (eapply walk_fold; [done|by symmetry|done]). by rewrite lookup_insert_eq.
  - destruct (walk (<[c := nd']> (abs r)) q es') as [d| |] eqn:Hd.
    + pose proof (proj1 (Hsame _ _ _) Hd) as Hd'. rewrite Hd'. rewrite lookup_insert_ne; [done|]. intros ->. destruct E. by eapply walk_inj.
    + destruct (walk (abs r) q es') as [d| |] eqn:Hd'; [|done..]. apply Hsame in Hd'. congruence.
    + destruct (walk (abs r) q es') as [d| |] eqn:Hd'; [|done..]. apply Hsame in Hd'. congruence.
Qed.
End view.
