(* ===== verification/RegSave.v ===== *)
(** * Saving and loading trees of keys

    How src/server/registry.c writes a key and all its subkeys to a text file, and reads
    such a file line by line into a key. *)

From S2P Require Import Prelude.
From S2P Require Import Atoms.
From S2P Require Import RegStrings.
From S2P Require Import RegKeys.
From S2P Require Import RegFile.
From S2P Require Import RegTree.

Definition STATUS_NOT_REGISTRY_FILE : Z := 0xc000015c.
Definition TICKS_PER_SEC : Z := 10000000.
Definition ticks_1601_to_1970 : Z := 86400 * (369 * 365 + 89) * TICKS_PER_SEC.
Inductive prefix_type := PREFIX_UNKNOWN | PREFIX_32BIT | PREFIX_64BIT.
#[export] Instance prefix_type_eq_dec : EqDecision prefix_type.
Proof. solve_decision. Defined.

Definition put (t : list Z) : M dump_state unit := _ ← fprint t; mret tt.

(** ** Saving *)

Section save.
(** The keys do not change. *)
Context (keys : gmap Z key).

Definition saved_key (p : Z) : M dump_state key := λ s, match keys !! p with Some k => Done k s | None => AssertFailed end.
Definition saved {A} (x : option A) : M dump_state A := λ s, match x with Some a => Done a s | None => AssertFailed end.

(** [base] is None for NULL; [fuel] bounds the depth of the key. *)
Fixpoint dump_path (fuel : nat) (p : Z) (base : option Z) : M dump_state unit :=
  k ← saved_key p;
  name ← saved (k_name k);
  _ ← (match k_parent k with
       | None => mret tt
       | Some q =>
           if bool_decide (Some q = base) then mret tt else
           match fuel with
           | O => no_fuel
           | S fuel => _ ← dump_path fuel q base; put [92; 92]
           end
       end);
  _ ← dump_strW name (91, 93) 0; mret tt.

Fixpoint dump_values (l : list key_value) : M dump_state unit :=
  match l with [] => mret tt | v :: l => _ ← dump_value v; dump_values l end.
(** "] %u", "#time=%x%08x", "#class=" and "#link". *)
Definition save_key (p base : Z) (k : key) : M dump_state unit :=
  _ ← put [10; 91];
  _ ← (if negb (p =? base) then dump_path (size keys) p (Some base) else mret tt);
  _ ← put ([93; 32] ++ print_number 10 0 (u32 ((k_modif k - ticks_1601_to_1970) ÷ TICKS_PER_SEC)) ++ [10]);
  _ ← put ([35; 116; 105; 109; 101; 61] ++ print_number 16 0 (u32 (Z.shiftr (k_modif k) 32)) ++ print_number 16 8 (u32 (k_modif k)) ++ [10]);
  _ ← (if negb (bool_decide (k_class k = [])) then
         _ ← put [35; 99; 108; 97; 115; 115; 61; 34];
         _ ← dump_strW (k_class k) (34, 34) 0;
         put [34; 10]
       else mret tt);
  _ ← (if has_flag k KEY_SYMLINK then put [35; 108; 105; 110; 107; 10] else mret tt);
  values ← saved (if Z.of_nat (length (k_values k)) <? k_last_value k + 1 then None else Some (take (Z.to_nat (k_last_value k + 1)) (k_values k)));
  dump_values values.
(** Whether a key has an entry of its own. *)
Definition has_entry (k : key) : bool :=
  (0 <=? k_last_value k) || (k_last_subkey k =? -1) || negb (bool_decide (k_class k = [])) || has_flag k KEY_SYMLINK.

Fixpoint for_subkeys (save : Z → M dump_state unit) (l : list Z) : M dump_state unit :=
  match l with [] => mret tt | c :: l => _ ← save c; for_subkeys save l end.
(** [fuel] bounds the depth of the keys below. *)
Fixpoint save_subkeys (fuel : nat) (p base : Z) : M dump_state unit :=
  k ← saved_key p;
  if has_flag k KEY_VOLATILE then mret tt else
  _ ← (if has_entry k then save_key p base k else mret tt);
  subkeys ← saved (if Z.of_nat (length (k_subkeys k)) <? k_last_subkey k + 1 then None else Some (take (Z.to_nat (k_last_subkey k + 1)) (k_subkeys k)));
  for_subkeys (match fuel with O => λ _, no_fuel | S fuel => λ c, save_subkeys fuel c base end) subkeys.

(** "WINE REGISTRY Version 2". *)
Definition file_magic : list Z :=
  [87; 73; 78; 69; 32; 82; 69; 71; 73; 83; 84; 82; 89; 32; 86; 101; 114; 115; 105; 111; 110; 32; 50].
(** ";; All keys relative to ". *)
Definition relative_to : list Z :=
  [59; 59; 32; 65; 108; 108; 32; 107; 101; 121; 115; 32; 114; 101; 108; 97; 116; 105; 118; 101; 32; 116; 111; 32].
(** "#arch=". *)
Definition arch_tag : list Z := [35; 97; 114; 99; 104; 61].
Definition win32 : list Z := [119; 105; 110; 51; 50].
Definition win64 : list Z := [119; 105; 110; 54; 52].
Definition save_all_subkeys (p : Z) (prefix : prefix_type) : M dump_state unit :=
  _ ← put (file_magic ++ [10]);
  _ ← put relative_to;
  _ ← dump_path (size keys) p None;
  _ ← put [10];
  _ ← (match prefix with
       | PREFIX_32BIT => put ([10] ++ arch_tag ++ win32 ++ [10])
       | PREFIX_64BIT => put ([10] ++ arch_tag ++ win64 ++ [10])
       | PREFIX_UNKNOWN => mret tt
       end);
  save_subkeys (size keys) p p.
End save.

(** Marks the saved keys as clean; [fuel] bounds the depth of the keys below. *)
Fixpoint clean_subkeys (clean : Z → R unit) (l : list Z) : R unit :=
  match l with [] => mret tt | c :: l => _ ← clean c; clean_subkeys clean l end.
Fixpoint make_clean (fuel : nat) (p : Z) : R unit :=
  k ← key_of p;
  if has_flag k KEY_VOLATILE then mret tt else
  if negb (has_flag k KEY_DIRTY) then mret tt else
  _ ← update_key p (with_flags (Z.ldiff (k_flags k) KEY_DIRTY));
  subkeys ← access (if Z.of_nat (length (k_subkeys k)) <? k_last_subkey k + 1 then None else Some (take (Z.to_nat (k_last_subkey k + 1)) (k_subkeys k)));
  clean_subkeys (match fuel with O => λ _, no_fuel | S fuel => make_clean fuel end) subkeys.

(** ** Loading *)

Section load.
Context `{CaseMap} (root_key : Z) (lookup_other : list Z → Z).

(** [sscanf] with " %u": it finds a number, and which. *)
Fixpoint take_digits (p : list Z) (n : Z) : Z := match p with c :: q => if isdigit c then take_digits q (n * 10 + (c - 48)) else n | [] => n end.
Definition scan_unsigned (p : list Z) : option Z :=
  let q := skip_spaces p in
  let '(negative, q) := match q with c :: q' => if c =? 45 then (true, q') else if c =? 43 then (false, q') else (false, q) | [] => (false, q) end in
  if isdigit (char_at q) then
    let n := take_digits q 0 in
    Some (u32 (if 2 ^ 64 <=? n then 2 ^ 64 - 1 else if negative : bool then - n else n))
  else None.

(** What is left of the name [str], which ends in a zero, after [prefix_len] elements, and
    how many elements are missing. *)
Fixpoint skip_prefix (prefix_len : Z) (str : list Z) : list Z * Z :=
  match str with
  | c :: rest =>
      if truth prefix_len && truth c then skip_prefix (if c =? backslash then prefix_len - 1 else prefix_len) rest else (str, prefix_len)
  | [] => ([], prefix_len)
  end.
(** The key with a reference, and its time. *)
Definition load_key (base : Z) (buffer : list Z) (prefix_len : Z) (modif : Z) : L (option Z * Z) :=
  ok ← get_file_tmp_space (2 * Z.of_nat (length buffer));
  if negb ok then mret (None, modif) else
  tmplen ← gets ls_tmplen;
  match parse_strW tmplen buffer 93 with
  | None => mret (None, modif)
  | Some (str, res) =>
      now ← gets (λ s, r_now (ls_registry s));
      let modif := match scan_unsigned (drop (Z.to_nat res) buffer) with Some m => m * TICKS_PER_SEC + ticks_1601_to_1970 | None => now end in
      let '(p, prefix_len) := skip_prefix prefix_len str in
      if negb (truth (char_at p)) then
        if 1 <? prefix_len then mret (None, modif)
        else _ ← lift (grab_object base); mret (Some base, modif)
      else
        key ← lift (create_key_recursive root_key lookup_other base (removelast p) 0);
        mret (key, modif)
  end.

(** Up to the first key that has a time; [fuel] bounds the depth of the key. *)
Fixpoint update_key_time (fuel : nat) (p : option Z) (modif : Z) : R unit :=
  match p with
  | None => mret tt
  | Some p =>
      k ← key_of p;
      if truth (k_modif k) then mret tt else
      match fuel with
      | O => no_fuel
      | S fuel =>
          _ ← update_key p (with_modif modif);
          parent ← get_parent k;
          update_key_time fuel parent modif
      end
  end.

(** The type of prefixes of the server after an option, or None for a failure. *)
Definition load_global_option (buffer : list Z) (prefix : prefix_type) : L (option prefix_type) :=
  match after_tag arch_tag buffer with
  | None => mret (Some prefix)
  | Some p =>
      let type := if bool_decide (p = win32) then Some PREFIX_32BIT else if bool_decide (p = win64) then Some PREFIX_64BIT else None in
      match type with
      | None => _ ← lift (set_error STATUS_NOT_REGISTRY_FILE); mret None
      | Some type =>
          if bool_decide (prefix = PREFIX_UNKNOWN) then mret (Some type)
          else if negb (bool_decide (type = prefix)) then _ ← lift (set_error STATUS_NOT_REGISTRY_FILE); mret None
          else mret (Some prefix)
      end
  end.

(** The 64-bit time in hex digits. *)
Fixpoint read_time (modif : Z) (p : list Z) : Z :=
  match p with
  | c :: p => if isxdigit c then read_time (s64 (Z.lor (Z.shiftl modif 4) (to_hex c))) p else modif
  | [] => modif
  end.
Definition load_key_option (p : Z) (buffer : list Z) : L bool :=
  _ ← (match after_tag [35; 116; 105; 109; 101; 61] buffer with
       | Some t => r ← gets ls_registry; lift (update_key_time (size (r_keys r)) (Some p) (read_time 0 t))
       | None => mret tt
       end);
  ok ← (match after_tag [35; 99; 108; 97; 115; 115; 61] buffer with
        | Some (c :: t) =>
            if negb (c =? 34) then mret false else
            ok ← get_file_tmp_space (2 * Z.of_nat (length t));
            if negb ok then mret false else
            tmplen ← gets ls_tmplen;
            match parse_strW tmplen t 34 with
            | None => mret false
            | Some (str, _) =>
                ok ← lift mem_alloc_ok;
                _ ← lift (update_key p (with_class (if ok : bool then str else [])));
                mret true
            end
        | Some [] => mret false
        | None => mret true
        end);
  if negb ok then mret false else
  _ ← (match after_tag [35; 108; 105; 110; 107] buffer with
       | Some _ => lift (update_key p (λ k, with_flags (Z.lor (k_flags k) KEY_SYMLINK) k))
       | None => mret tt
       end);
  mret true.

(** The length of the part of a key's own path that begins with the first element of a name,
    in elements; [fuel] bounds the depth of the key. *)
Fixpoint prefix_loop (fuel : nat) (element : list Z) (key res : Z) : R Z :=
  if key =? root_key then mret 0 else
  k ← key_of key;
  name ← access (k_name k);
  if (length element =? length name)%nat && negb (truth (memicmp_strW element name (length element))) then mret res else
  parent ← get_parent k;
  parent ← access parent;
  match fuel with O => no_fuel | S fuel => prefix_loop fuel element parent (res + 1) end.
Fixpoint before_zero (str : list Z) : list Z := match str with c :: str => if truth c then c :: before_zero str else [] | [] => [] end.
Definition get_prefix_len (key : Z) (name : list Z) : L Z :=
  ok ← get_file_tmp_space (2 * Z.of_nat (length name));
  if negb ok then mret 0 else
  tmplen ← gets ls_tmplen;
  match parse_strW tmplen name 93 with
  | None => mret 0
  | Some (str, _) => r ← gets ls_registry; lift (prefix_loop (size (r_keys r)) (fst (path_element (before_zero str))) key 1)
  end.

(** The local variables of [load_keys]; the type of prefixes is a global one. *)
Record load_progress := LoadProgress { lp_subkey : option Z; lp_modif : Z; lp_prefix_len : Z; lp_prefix : prefix_type }.
Definition release_subkey (g : load_progress) : R unit :=
  match lp_subkey g with
  | Some subkey => r ← gets id; _ ← update_key_time (size (r_keys r)) (Some subkey) (lp_modif g); release subkey
  | None => mret tt
  end.
(** One line; false for [goto done]. *)
Definition load_line (key : Z) (line : list Z) (g : load_progress) : L (load_progress * bool) :=
  let p := skip_spaces line in
  let c := char_at p in
  if c =? 91 then
    _ ← lift (release_subkey g);
    prefix_len ← (if lp_prefix_len g =? -1 then get_prefix_len key (tail p) else mret (lp_prefix_len g));
    l ← load_key key (tail p) prefix_len (lp_modif g);
    mret (LoadProgress (fst l) (snd l) prefix_len (lp_prefix g), true)
  else if (c =? 64) || (c =? 34) then
    _ ← (match lp_subkey g with Some subkey => load_value subkey p | None => mret false end);
    mret (g, true)
  else if c =? 35 then
    match lp_subkey g with
    | Some subkey => _ ← load_key_option subkey p; mret (g, true)
    | None =>
        o ← load_global_option p (lp_prefix g);
        mret (match o with Some t => (LoadProgress None (lp_modif g) (lp_prefix_len g) t, true) | None => (g, false) end)
    end
  else mret (g, true).
(** Every line has a byte; [fuel] is the size of the file. *)
Fixpoint load_lines (fuel : nat) (key : Z) (g : load_progress) : L load_progress :=
  n ← read_next_line;
  if negb (n =? 1) then mret g else
  line ← gets ls_buffer;
  x ← load_line key line g;
  if negb (snd x) then mret (fst x) else
  match fuel with O => no_fuel | S fuel => load_lines fuel key (fst x) end.

(** With buffers of 4 bytes each. *)
Definition with_file {A} (m : L A) (file : list Z) : R A := λ r,
  match m (LoadState r file [] 4 4) with
  | Done a s => Done a (ls_registry s)
  | AssertFailed => AssertFailed
  | Spinning => Spinning
  | NoFuel => NoFuel
  end.
Definition load_keys (key : Z) (file : list Z) (prefix_len : Z) (prefix : prefix_type) : R prefix_type :=
  now ← gets r_now;
  ok ← mem_alloc_ok;
  if negb ok then mret prefix else
  ok ← mem_alloc_ok;
  if negb ok then mret prefix else
  g ← with_file (
    n ← read_next_line;
    line ← gets ls_buffer;
    let g := LoadProgress None now prefix_len prefix in
    if negb (n =? 1) || negb (bool_decide (line = file_magic)) then _ ← lift (set_error STATUS_NOT_REGISTRY_FILE); mret g
    else file ← gets ls_file; load_lines (length file) key g) file;
  _ ← release_subkey g;
  mret (lp_prefix g).
End load.
