(* ===== verification/RegSaveText.v ===== *)
(** * What is written of a tree of keys

    The text of a file is that of the saved keys, each with its path, parents first. *)

From stdpp Require Import sorting.
From S2P Require Import Prelude.
From S2P Require Import Atoms.
From S2P Require Import AtomsInv.
From S2P Require Import RegStrings.
From S2P Require Import RegStringsSpec.
From S2P Require Import RegKeys.
From S2P Require Import RegArrays.
From S2P Require Import RegTouch.
From S2P Require Import RegFile.
From S2P Require Import RegNumbers.
From S2P Require Import RegFileSpec.
From S2P Require Import RegTree.
From S2P Require Import RegTreeInv.
From S2P Require Import RegTreeLookup.
From S2P Require Import RegSave.

(** ** Paths of names *)

(** Names that a file can hold: 16-bit characters, but no zero at the start. *)
Definition good_name (e : list Z) : Prop :=
  e ≠ [] ∧ head e ≠ Some 0 ∧ backslash ∉ e ∧ Z.of_nat (length e) ≤ MAX_NAME_LEN ∧ Forall wchar e.
Fixpoint join_path (es : list (list Z)) : list Z :=
  match es with [] => [] | [e] => e | e :: es => e ++ backslash :: join_path es end.
Lemma join_path_cons e es : es ≠ [] → join_path (e :: es) = e ++ backslash :: join_path es.
Proof. by destruct es. Qed.
Lemma join_path_snoc es e : es ≠ [] → join_path (es ++ [e]) = join_path es ++ backslash :: e.
Proof.
  induction es as [|e1 es IH]; [done|]. intros _. destruct es as [|e2 es]; [done|]. cbn [app] in *.
  rewrite (join_path_cons e1 (e2 :: es ++ [e])), (join_path_cons e1 (e2 :: es)), IH by done. by rewrite <- app_assoc.
Qed.
Lemma join_path_wchar es : Forall good_name es → Forall wchar (join_path es).
Proof.
  induction 1 as [|e es (_ & _ & _ & _ & He) Hes IH]; [constructor|]. destruct es as [|e2 es]; [done|].
  rewrite join_path_cons by done. apply list.Forall_app. split; [done|]. constructor; [unfold wchar, backslash; lia|done].
Qed.
Lemma join_path_nil es : Forall good_name es → join_path es = [] → es = [].
Proof.
  intros [|e es' (He & _) _]; [done|]. destruct es' as [|e2 es']; [simpl; congruence|]. rewrite join_path_cons by done. by intros [_ ?]%app_nil.
Qed.
Lemma join_path_head es : Forall good_name es → head (join_path es) ≠ Some 0.
Proof.
  intros [|e es' (He & H0 & _) _]; [done|]. destruct es' as [|e2 es']; [done|]. rewrite join_path_cons by done. by destruct e.
Qed.
(** A separator ends a number, so that names can be written one by one. *)
Lemma dump_text_sep escape a b : dump_text escape (a ++ backslash :: b) = dump_text escape a ++ [92; 92] ++ dump_text escape b.
Proof.
  induction a as [|c a IH]; [done|]. cbn [app dump_text]. rewrite IH, app_assoc. f_equal. by destruct a.
Qed.

(** ** The text of a key *)

Definition header_text (k : key) : list Z :=
  [93; 32] ++ print_number 10 0 (u32 ((k_modif k - ticks_1601_to_1970) ÷ TICKS_PER_SEC)).
Definition time_text (k : key) : list Z :=
  [35; 116; 105; 109; 101; 61] ++ print_number 16 0 (u32 (Z.shiftr (k_modif k) 32)) ++ print_number 16 8 (u32 (k_modif k)).
Definition class_text (class : list Z) : list Z := [35; 99; 108; 97; 115; 115; 61; 34] ++ dump_text (34, 34) class ++ [34].
Definition values_text (l : list key_value) : list Z := flat_map value_text l.
Definition key_text (k : key) : list Z :=
  header_text k ++ [10] ++ time_text k ++ [10] ++ (if bool_decide (k_class k = []) then [] else class_text (k_class k) ++ [10]) ++ values_text (used k).
(** A key and its path. *)
Definition section_text (x : list (list Z) * key) : list Z := [10; 91] ++ dump_text (91, 93) (join_path (fst x)) ++ key_text (snd x).

Lemma wp_put t Q d : wp (put t) Q d ↔ Q tt (DumpState (ds_file d ++ t) (ds_buffer d)).
Proof. unfold put. by rewrite wp_bind, wp_fprint, wp_ret. Qed.
Lemma wp_saved {A} (x : A) Q d : wp (saved (Some x)) Q d ↔ Q x d.
Proof. done. Qed.
Lemma wp_dump_name escape n file Q : Forall wchar n → (∀ m, Q m (DumpState (file ++ dump_text escape n) [])) → wp (dump_strW n escape 0) Q (DumpState file []).
Proof. intros Hn HQ. eapply wp_mono; [apply dump_strW_ok; [done|simpl; lia]|]. intros m d [-> _]. apply HQ. Qed.
Lemma dump_values_ok l : ∀ file, Forall storable l → wp (dump_values l) (λ _ d, d = DumpState (file ++ values_text l) []) (DumpState file []).
Proof.
  induction l as [|v l IH]; intros file Hl; cbn [dump_values values_text flat_map]; [by rewrite wp_ret, app_nil_r|].
  apply list.Forall_cons in Hl as [Hv Hl]. rewrite wp_bind. eapply wp_mono; [by apply dump_value_ok|]. intros _ d ->.
  eapply wp_mono; [by apply IH|]. intros _ d ->. by rewrite <- app_assoc.
Qed.

Ltac app_norm := rewrite <- ?app_assoc; cbn [app]; rewrite <- ?app_assoc; cbn [app].

Section save.
Context `{CaseMap} (root : Z) (r : registry) (ext : Z → Z) (Hr : tree_ok root r ext) (Hlinks : no_links r).
Implicit Types (p q c : Z) (k : key) (es : list (list Z)).
#[local] Notation keys := (r_keys r).

(** Keys that a file can hold. *)
Definition storable_key k : Prop :=
  (∀ n, k_name k = Some n → Forall wchar n ∧ (is_Some (k_parent k) → n ≠ [] ∧ head n ≠ Some 0)) ∧
  Forall wchar (k_class k) ∧ Forall storable (used k).
Context (Hstore : map_Forall (λ _ k, storable_key k) keys).

Lemma wp_saved_key p k Q d : keys !! p = Some k → wp (saved_key keys p) Q d ↔ Q k d.
Proof. intros Hk. unfold wp, saved_key. by rewrite Hk. Qed.
Lemma subkey_name_good c k n : keys !! c = Some k → is_Some (k_parent k) → k_name k = Some n → good_name n.
Proof.
  intros Hk Hp Hn. destruct (Hstore c k Hk) as (Hs & _). destruct (Hs n Hn) as [Hw Hne]. destruct (Hne Hp) as [H1 H2].
  pose proof (ko_named _ _ _ _ _ (to_keys _ _ _ Hr c k Hk)) as Hnamed. rewrite Hn in Hnamed. destruct Hnamed as (_ & Hl & _ & Hb). by split_and!.
Qed.

(** ** The path of a key *)

(** [p] is below [base], at the end of the path [es]; [l] are the keys from [base] up. *)
Inductive below (base : Z) (l : list Z) : Z → list (list Z) → list Z → Prop :=
| below_base : below base l base [] l
| below_sub q es lq c k n : below base l q es lq → keys !! c = Some k → k_parent k = Some q → k_name k = Some n → below base l c (es ++ [n]) (c :: lq).
Lemma below_chain base l p es lp : chain keys (Some base) l → below base l p es lp → chain keys (Some p) lp ∧ (length lp = length es + length l)%nat ∧ Forall good_name es.
Proof.
  intros Hl. induction 1 as [|q es lq c k n Hq (IH1 & IH2 & IH3) Hc Hp Hn]; [by split_and!|]. split_and!.
  - split; [done|]. exists k. rewrite Hp. split_and!; [done|by eexists|done].
  - rewrite length_app. simpl. lia.
  - apply list.Forall_app. split; [done|]. constructor; [|done]. eapply subkey_name_good; [exact Hc|by eexists|done].
Qed.
Lemma below_nil base l p es lp : chain keys (Some base) l → below base l p es lp → p = base ↔ es = [].
Proof.
  intros Hl Hb. split; [|intros ->; inversion Hb as [|? es ? ? ? n]; [done|by destruct es]].
  intros ->. destruct (below_chain _ _ _ _ _ Hl Hb) as (Hc & Hlen & _). pose proof (chain_unique _ _ _ _ Hl Hc) as E.
  rewrite <- E in Hlen. destruct es; [done|simpl in Hlen; lia].
Qed.
Lemma dump_path_ok base l : chain keys (Some base) l → ∀ es fuel p lp file, below base l p es lp → es ≠ [] → (length es ≤ S fuel)%nat →
  wp (dump_path keys fuel p (Some base)) (λ _ d, d = DumpState (file ++ dump_text (91, 93) (join_path es)) []) (DumpState file []).
Proof.
  intros Hl. induction es as [|n0 es IH] using rev_ind; intros fuel p lp file Hb Hne Hfuel; [done|]. clear Hne.
  inversion Hb as [E|q es' lq c k n Hq Hc Hp Hn E1 E2]; subst; [by destruct es|]. apply app_inj_tail in E2 as [-> ->].
  destruct (below_chain _ _ _ _ _ Hl Hb) as (_ & _ & Hgood). pose proof (below_nil _ _ _ _ _ Hl Hq) as Hnil.
  apply list.Forall_app in Hgood as [_ (_ & _ & _ & _ & Hw)%list.Forall_singleton].
  assert (dump_path keys fuel p (Some base) = (k ← saved_key keys p; name ← saved (k_name k);
    _ ← (match k_parent k with None => mret tt | Some q => if bool_decide (Some q = Some base) then mret tt else
         match fuel with O => no_fuel | S fuel => _ ← dump_path keys fuel q (Some base); put [92; 92] end end);
    _ ← dump_strW name (91, 93) 0; mret tt)) as -> by by destruct fuel.
  rewrite wp_bind, (wp_saved_key p k), wp_bind, Hn, wp_saved, Hp, wp_bind by done. rewrite length_app in Hfuel. simpl in Hfuel.
  destruct (decide (q = base)) as [Hqb|Hqb].
  - rewrite bool_decide_true by congruence. rewrite (proj1 Hnil Hqb), wp_ret, wp_bind. apply wp_dump_name; [done|]. intros m. by rewrite wp_ret.
  - rewrite bool_decide_false by congruence. assert (es ≠ []) as Hes by tauto. destruct fuel as [|fuel]; [destruct es; [done|simpl in Hfuel; lia]|].
    rewrite wp_bind. eapply wp_mono; [eapply (IH fuel); [exact Hq|done|lia]|]. intros _ d ->. rewrite wp_put, wp_bind. apply wp_dump_name; [done|]. intros m. rewrite wp_ret.
    simpl ds_file. rewrite join_path_snoc by done. by rewrite dump_text_sep, <- !app_assoc.
Qed.
(** The path from the root. *)
Lemma dump_root_path_ok l : ∀ fuel p file, chain keys (Some p) l → (length l ≤ S fuel)%nat →
  wp (dump_path keys fuel p None) (λ _ d, ∃ t, printable t ∧ d = DumpState (file ++ t) []) (DumpState file []).
Proof.
  induction l as [|x l IH]; intros fuel p file Hc Hfuel; [done|]. destruct Hc as ([= <-] & k & Hk & [n Hn] & Hc).
  destruct (Hstore p k Hk) as (Hs & _). destruct (Hs n Hn) as [Hw _].
  assert (dump_path keys fuel p None = (k ← saved_key keys p; name ← saved (k_name k);
    _ ← (match k_parent k with None => mret tt | Some q => if bool_decide (Some q = None) then mret tt else
         match fuel with O => no_fuel | S fuel => _ ← dump_path keys fuel q None; put [92; 92] end end);
    _ ← dump_strW name (91, 93) 0; mret tt)) as -> by by destruct fuel.
  rewrite wp_bind, (wp_saved_key p k), wp_bind, Hn, wp_saved, wp_bind by done. pose proof (printable_dump_text (91, 93) n Hw) as Hpn.
  destruct (k_parent k) as [q|].
  - rewrite bool_decide_false by done. destruct fuel as [|fuel]; [destruct l; [done|simpl in Hfuel; lia]|].
    rewrite wp_bind. eapply wp_mono; [apply (IH fuel q); [done|simpl in Hfuel; lia]|]. intros _ d (t & Ht & ->). rewrite wp_put, wp_bind. apply wp_dump_name; [done|]. intros m. rewrite wp_ret. simpl ds_file.
    exists (t ++ [92; 92] ++ dump_text (91, 93) n). rewrite <- !app_assoc. split; [|done]. apply list.Forall_app. split; [done|]. by repeat constructor.
  - rewrite wp_ret, wp_bind. apply wp_dump_name; [done|]. intros m. rewrite wp_ret. eauto.
Qed.

Lemma save_key_ok base l p es lp k file : chain keys (Some base) l → below base l p es lp → keys !! p = Some k →
  wp (save_key keys p base k) (λ _ d, d = DumpState (file ++ section_text (es, k)) []) (DumpState file []).
Proof.
  intros Hl Hb Hk. destruct (below_chain _ _ _ _ _ Hl Hb) as (Hc & Hlen & Hgood). pose proof (chain_length _ _ _ Hc) as Hsize.
  destruct (Hstore p k Hk) as (_ & Hclass & Hvals). pose proof (ko_values _ _ _ _ _ (to_keys _ _ _ Hr p k Hk)) as Hv.
  unfold save_key. rewrite wp_bind, wp_put. simpl ds_file. simpl ds_buffer. rewrite wp_bind.
  eapply wp_mono; [instantiate (1 := λ _ d, d = DumpState (file ++ [10; 91] ++ dump_text (91, 93) (join_path es)) [])|].
  { pose proof (below_nil _ _ _ _ _ Hl Hb) as Hnil. destruct (Z.eqb_spec p base) as [E|E]; cbn [negb].
    - rewrite (proj1 Hnil E), wp_ret. done.
    - eapply wp_mono; [eapply dump_path_ok; [exact Hl|exact Hb|tauto|lia]|]. intros _ d ->. by rewrite <- app_assoc. }
  intros _ d ->. rewrite wp_bind, wp_put. simpl ds_file. simpl ds_buffer. rewrite wp_bind, wp_put. simpl ds_file. simpl ds_buffer. rewrite wp_bind.
  eapply wp_mono; [instantiate (1 := λ _ d, d = DumpState (((file ++ [10; 91] ++ dump_text (91, 93) (join_path es)) ++ header_text k ++ [10]) ++ time_text k ++ [10] ++
    if bool_decide (k_class k = []) then [] else class_text (k_class k) ++ [10]) [])|].
  { unfold header_text, time_text, class_text. generalize (print_number 10 0 (u32 ((k_modif k - ticks_1601_to_1970) ÷ TICKS_PER_SEC))).
    generalize (print_number 16 0 (u32 (Z.shiftr (k_modif k) 32))) (print_number 16 8 (u32 (k_modif k))) (dump_text (91, 93) (join_path es)). intros h t1 t2 path.
    case_bool_decide as E; cbn [negb].
    - rewrite wp_ret. f_equal. by app_norm.
    - rewrite wp_bind, wp_put. simpl ds_file. simpl ds_buffer. rewrite wp_bind. apply wp_dump_name; [done|]. intros m. rewrite wp_put. simpl ds_file. simpl ds_buffer.
      generalize (dump_text (34, 34) (k_class k)). intros class. f_equal. by app_norm. }
  intros _ d ->. rewrite wp_bind. unfold has_flag at 1. fold (has_flag k KEY_SYMLINK). rewrite (Hlinks p k Hk), wp_ret, wp_bind.
  pose proof (vo_room _ Hv). pose proof (vo_length _ Hv). rewrite (proj2 (Z.ltb_ge _ _)) by lia. fold (used k). rewrite wp_saved.
  eapply wp_mono; [by apply dump_values_ok|]. intros _ d ->. f_equal. unfold section_text, key_text. simpl fst. simpl snd. by app_norm.
Qed.

(** ** All keys *)

Definition subkey_name c : list Z := default [] (k ← keys !! c; k_name k).
(** The keys that have an entry in the file, in its order. *)
Fixpoint sections (fuel : nat) p es : list (list (list Z) * key) :=
  match keys !! p with
  | Some k =>
      if has_flag k KEY_VOLATILE then [] else
      (if has_entry k then [(es, k)] else []) ++
      match fuel with O => [] | S fuel => flat_map (λ c, sections fuel c (es ++ [subkey_name c])) (subs k) end
  | None => []
  end.
Lemma subkey_below base l p es lp k c : below base l p es lp → keys !! p = Some k → c ∈ subs k → below base l c (es ++ [subkey_name c]) (c :: lp).
Proof.
  intros Hb Hk Hc. destruct (ko_subs _ _ _ _ _ (to_keys _ _ _ Hr p k Hk)) as (names & Hall & _). apply list_elem_of_lookup in Hc as [i Hi].
  destruct (Forall2_lookup_l _ _ _ _ _ Hall Hi) as (n & _ & kc & Hkc & Hp & Hn). unfold subkey_name. rewrite Hkc. simpl. rewrite Hn. simpl.
  by eapply below_sub.
Qed.
Lemma subs_saved k p d Q : keys !! p = Some k → Q (subs k) d →
  wp (saved (if Z.of_nat (length (k_subkeys k)) <? k_last_subkey k + 1 then None else Some (take (Z.to_nat (k_last_subkey k + 1)) (k_subkeys k)))) Q d.
Proof.
  intros Hk HQ. pose proof (ko_array _ _ _ _ _ (to_keys _ _ _ Hr p k Hk)) as Ha. pose proof (ao_last _ _ _ _ Ha). pose proof (ao_used _ _ _ _ Ha) as Hu%prefix_length.
  rewrite (proj2 (Z.ltb_ge _ _)) by lia. by rewrite wp_saved.
Qed.
Lemma save_subkeys_ok base l : chain keys (Some base) l → ∀ fuel p es lp file, below base l p es lp → (size keys ≤ fuel + length lp)%nat →
  wp (save_subkeys keys fuel p base) (λ _ d, d = DumpState (file ++ flat_map section_text (sections fuel p es)) []) (DumpState file []).
Proof.
  intros Hl. induction fuel as [|fuel IH]; intros p es lp file Hb Hsize; pose proof (below_chain _ _ _ _ _ Hl Hb) as (Hc & _);
    (assert (∃ k, keys !! p = Some k) as [k Hk] by (destruct lp as [|? lp]; [done|]; destruct Hc as ([= <-] & k & Hk & _); eauto));
    cbn [save_subkeys sections]; rewrite wp_bind, (wp_saved_key p k), Hk by done; (destruct (has_flag k KEY_VOLATILE); [by rewrite wp_ret, app_nil_r|]);
    rewrite wp_bind;
    (eapply wp_mono; [instantiate (1 := λ _ d, d = DumpState (file ++ flat_map section_text (if has_entry k then [(es, k)] else [])) []);
      destruct (has_entry k); [|by rewrite wp_ret, app_nil_r]; cbn [flat_map]; rewrite app_nil_r; by eapply save_key_ok|]); intros _ d ->;
    rewrite wp_bind; (eapply subs_saved; [exact Hk|]); rewrite flat_map_app, app_assoc.
  - assert (subs k = []) as ->; [|by rewrite app_nil_r].
    destruct (subs k) as [|c cs] eqn:E; [done|]. assert (c ∈ subs k) as Hin by (rewrite E; by left).
    destruct (below_chain _ _ _ _ _ Hl (subkey_below _ _ _ _ _ _ _ Hb Hk Hin)) as (Hcc & _). apply chain_length in Hcc. simpl in Hcc. lia.
  - generalize (file ++ flat_map section_text (if has_entry k then [(es, k)] else [])). clear file. intros file.
    assert (∀ cs, (∀ c, c ∈ cs → c ∈ subs k) → ∀ file, wp (for_subkeys (λ c, save_subkeys keys fuel c base) cs)
      (λ _ d, d = DumpState (file ++ flat_map section_text (flat_map (λ c, sections fuel c (es ++ [subkey_name c])) cs)) []) (DumpState file [])) as Hfor; [|by apply Hfor].
    clear file. intros cs. induction cs as [|c cs IHc]; intros Hcs file; cbn [for_subkeys flat_map]; [by rewrite wp_ret, app_nil_r|].
    rewrite wp_bind. eapply wp_mono; [eapply IH; [eapply subkey_below; [exact Hb|exact Hk|apply Hcs; by left]|simpl; lia]|]. intros _ d ->.
    eapply wp_mono; [apply IHc; intros c' Hc'; apply Hcs; by right|]. intros _ d ->. by rewrite flat_map_app, <- app_assoc.
Qed.

(** The whole file. *)
Definition arch_line (prefix : prefix_type) : list Z :=
  match prefix with
  | PREFIX_32BIT => [10] ++ arch_tag ++ win32 ++ [10]
  | PREFIX_64BIT => [10] ++ arch_tag ++ win64 ++ [10]
  | PREFIX_UNKNOWN => []
  end.
Lemma save_all_subkeys_ok p k prefix : keys !! p = Some k → is_Some (k_name k) →
  wp (save_all_subkeys keys p prefix) (λ _ d, ∃ t, printable t ∧
    ds_file d = file_magic ++ [10] ++ (relative_to ++ t) ++ [10] ++ arch_line prefix ++ flat_map section_text (sections (size keys) p [])) (DumpState [] []).
Proof.
  intros Hk Hn. destruct (to_rooted _ _ _ Hr p k Hk Hn) as [l Hl]. pose proof (chain_length _ _ _ Hl) as Hsize.
  unfold save_all_subkeys. rewrite wp_bind, wp_put, wp_bind, wp_put, wp_bind. simpl ds_file. simpl ds_buffer.
  eapply wp_mono; [eapply dump_root_path_ok; [exact Hl|lia]|]. intros _ d (t & Ht & ->). rewrite wp_bind, wp_put, wp_bind. simpl ds_file. simpl ds_buffer.
  eapply wp_mono; [instantiate (1 := λ _ d, d = DumpState ((file_magic ++ [10] ++ (relative_to ++ t) ++ [10]) ++ arch_line prefix) [])|].
  { unfold arch_line. destruct prefix; rewrite ?wp_put, ?wp_ret; simpl ds_file; simpl ds_buffer; f_equal; by app_norm. }
  intros _ d ->. eapply wp_mono; [eapply (save_subkeys_ok p l Hl _ p [] l); [constructor|lia]|]. intros _ d ->. exists t. split; [done|]. simpl ds_file. by rewrite <- !app_assoc.
Qed.
End save.
