(* ===== verification/RegLoad.v ===== *)
(** * Loading a tree of keys, line by line

    What each line of a registry file makes of the tree seen from the key it is loaded into. *)

From stdpp Require Import sorting.
From S2P Require Import Prelude.
From S2P Require Import Atoms.
From S2P Require Import AtomsInv.
From S2P Require Import RegStrings.
From S2P Require Import RegStringsSpec.
From S2P Require Import RegKeys.
From S2P Require Import RegArrays.
From S2P Require Import RegTouch.
From S2P Require Import RegValueSpec.
From S2P Require Import RegFile.
From S2P Require Import RegNumbers.
From S2P Require Import RegFileSpec.
From S2P Require Import RegTree.
From S2P Require Import RegTreeInv.
From S2P Require Import RegTreeLookup.
From S2P Require Import RegTreeLinks.
From S2P Require Import RegTreeCreate.
From S2P Require Import RegTreeChange.
From S2P Require Import RegTreeHistory.
From S2P Require Import RegView.
From S2P Require Import RegSave.
From S2P Require Import RegSaveText.

(** ** Paths of names *)

Lemma path_element_app e rest : backslash ∉ e → path_element (e ++ backslash :: rest) = (e, backslash :: rest).
Proof.
  induction e as [|c e IH]; [done|]. intros [Hc He]%not_elem_of_cons. cbn [app path_element]. rewrite (proj2 (Z.eqb_neq c backslash)) by congruence. by rewrite IH.
Qed.
Lemma path_element_all e : backslash ∉ e → path_element e = (e, []).
Proof. induction e as [|c e IH]; [done|]. intros [Hc He]%not_elem_of_cons. simpl. rewrite (proj2 (Z.eqb_neq c backslash)) by congruence. by rewrite IH. Qed.
Lemma elements_single e : e ≠ [] → backslash ∉ e → elements e = [e].
Proof.
  intros He Hb. destruct (elements_cons e e []) as (_ & -> & _); [done| |by apply path_element_all|done].
  intros E. apply Hb. destruct e; [done|]. injection E as ->. by left.
Qed.

Section load.
Context `{CaseMap} (root : Z) (lookup_other : list Z → Z).
Implicit Types (p q c x : Z) (k : key) (r : registry) (ext : Z → Z) (T : gmap Z node) (es : list (list Z)) (V : paths) (s : load_state).

(** ** Keys on a path *)

Definition named T q : Prop := ∃ nd, T !! q = Some nd ∧ is_Some (nd_name nd).
(** The state in which [q] looks like [V]. *)
Record seen r ext q V : Prop := {
  se_tree : tree_ok root r ext;
  se_links : no_links r;
  se_memory : memory_left r;
  se_named : named (abs r) q;
  se_view : ∀ es, view (abs r) q es = V es }.
Definition wide ext : Prop := ∀ p, 0 ≤ ext p ∧ ext p + 16 < INT_MAX.
Definition lasting V : Prop := ∀ es it, V es = Some it → has_attr (it_flags it) KEY_VOLATILE = false.
(** The keys of a path below [pre] exist. *)
Fixpoint ensure V (pre es : list (list Z)) : paths :=
  match es with
  | [] => V
  | e :: es => ensure (match V (pre ++ [e]) with Some _ => V | None => put_item V (pre ++ [e]) (Item (Some e) [] 0 ∅) end) (pre ++ [e]) es
  end.

Lemma named_key r q : named (abs r) q → ∃ k, r_keys r !! q = Some k ∧ is_Some (k_name k).
Proof. intros (nd & Hq & Hn). rewrite abs_lookup in Hq. apply fmap_Some in Hq as (k & Hk & ->). eauto. Qed.
Lemma key_named r q k : r_keys r !! q = Some k → is_Some (k_name k) → named (abs r) q.
Proof. intros Hk Hn. exists (abs_key k). by rewrite abs_lookup, Hk. Qed.
Lemma reached_named r q es c : named (abs r) q → walk (abs r) q es = Reached c → named (abs r) c.
Proof.
  destruct es as [|e es _] using rev_ind; [by intros ? [= <-]|]. intros _ (x & _ & _ & Hc)%walk_snoc.
  destruct (child_links _ _ _ _ Hc) as (k & Hk & Hn & _). by eapply key_named.
Qed.
Lemma created_adds r ext x c e data r' : tree_ok root r ext → tree_ok root r' (bump c 1 ext) → r_keys r !! c = None → abs r' = add_node (abs r) x c e (new_node x e data) →
  child (abs r) x e = None → Z.of_nat (length e) ≤ MAX_NAME_LEN → adds (abs r) x c e (new_node x e data) (abs r').
Proof.
  intros Hr Hr' Hc Ha Hch He. split; try done.
  - by rewrite abs_lookup, Hc.
  - by eapply tree_unique.
  - by eapply tree_unique.
  - intros y nd' Hy. rewrite abs_lookup in Hy. apply fmap_Some in Hy as (k & Hk & ->). simpl. intros Hp.
    destruct (ko_parent _ _ _ _ _ (to_keys _ _ _ Hr y k Hk) c Hp) as (kc & Hkc & _). congruence.
Qed.
Lemma seen_quiet r ext ext' q V r' : seen r ext q V → tree_ok root r' ext' → abs r' = abs r → r_allocs r' `suffix_of` r_allocs r → seen r' ext' q V.
Proof.
  intros [Hr Hl Hm Hn Hv] Hr' Ha Hal. split; [done| | |by rewrite Ha|by rewrite Ha].
  - apply no_links_abs. rewrite Ha. by apply no_links_abs.
  - by eapply memory_left_suffix.
Qed.

Lemma create_key_step r ext q V pre x e : seen r (bump x 1 ext) q V → wide ext → lasting V → walk (abs r) q pre = Reached x → good_name e →
  wp (create_named_object root lookup_other x e OBJ_OPENIF (KeyInitData 0 0 [])) (λ obj r', ∃ c, obj = Some c ∧
    seen r' (bump c 1 (bump x 1 ext)) q (ensure V pre [e]) ∧ walk (abs r') q (pre ++ [e]) = Reached c ∧ named (abs r') x) r.
Proof.
  intros Hs Hw Hlast Hx (Hne & _ & Hb & Hlen & _). pose proof Hs as [Hr Hl Hm Hn Hv].
  destruct (named_key _ _ (reached_named _ _ _ _ Hn Hx)) as (kx & Hkx & Hnx). destruct (named_key _ _ Hn) as (kq & Hkq & Hnq).
  assert (few (bump x 1 ext)) as Hfew by (intros p; unfold bump; destruct (Hw p); case_decide; lia).
  assert (resolve (abs r) x e = walk (abs r) x [e]) as Hres.
  { unfold resolve. rewrite elements_single by done. rewrite decide_False; [done|]. intros E. apply Hb. destruct e; [done|]. injection E as ->. by left. }
  eapply wp_mono; [eapply (create_object_with_name_spec root lookup_other r (bump x 1 ext) x kx e); done|]. rewrite Hres. intros obj r' Hc.
  cbn [walk] in Hc. rewrite (proj2 (Z.ltb_ge _ _)) in Hc by done. cbn [ensure]. rewrite <- Hv.
  destruct (child (abs r) x e) as [c|] eqn:Hch.
  - assert (walk (abs r) q (pre ++ [e]) = Reached c) as Hwc by (apply walk_snoc; eauto).
    simpl in Hc. destruct Hc as (-> & (Hr' & (_ & Ha & Hal & _) & _) & _). exists c. split; [done|]. rewrite Ha. split; [|split; [done|by eapply reached_named]].
    assert (is_Some (view (abs r) q (pre ++ [e]))) as [it Hit].
    { destruct (child_links _ _ _ _ Hch) as (k & Hk & _). unfold view. rewrite Hwc, abs_lookup, Hk. eauto. }
    rewrite Hit. eapply seen_quiet; [done|done|done|by rewrite Hal].
  - destruct Hc as (_ & Hal & Hc).
    assert (node_flag (abs r) x KEY_VOLATILE = false) as Hvol.
    { unfold node_flag. rewrite abs_lookup, Hkx. simpl. apply (Hlast pre (item_of (abs_key kx))). rewrite <- Hv. unfold view. by rewrite Hx, abs_lookup, Hkx. }
    rewrite Hvol in Hc. destruct obj as [c|].
    2:{ destruct Hc as (_ & _ & [[_ Hf]|[_ Hf]]); [by destruct Hm|done]. }
    destruct Hc as (Hc & Hr' & Ha & _ & _). exists c. split; [done|].
    pose proof (created_adds _ _ _ _ _ _ _ Hr Hr' Hc Ha Hch Hlen) as Had.
    assert (x ≠ c) as Hxc by congruence. assert (q ≠ c) as Hqc by congruence.
    assert (walk (abs r') q (pre ++ [e]) = Reached c) as Hwc by (apply (walk_add _ _ _ _ _ _ _ _ _ Had Hxc); right; split; [done|]; by exists pre, e).
    assert (named (abs r') q) as Hn'.
    { rewrite Ha. destruct Hn as (nd & Hnd & ?). unfold named, add_node. setoid_rewrite lookup_insert_ne; [|done]. destruct (decide (q = x)) as [->|Hqx].
      - rewrite lookup_alter_eq, Hnd. eexists. split; [done|]. done.
      - rewrite lookup_alter_ne by done. eauto. }
    assert (view (abs r) q (pre ++ [e]) = None) as Hnone.
    { apply view_none; [rewrite abs_lookup, Hkq; eauto|]. intros c' (x' & Hx' & _ & Hc')%walk_snoc. congruence. }
    split; [|split; [done|]].
    + rewrite Hnone. split; [done| |by eapply memory_left_suffix|done|].
      * apply no_links_abs. rewrite Ha. apply links_free_add; [done|]. by apply no_links_abs.
      * intros es'. rewrite (view_add root r _ q kq pre x c e _ _ Hr Hkq Hnq Hx Had). unfold put_item. by rewrite Hv.
    + eapply reached_named; [exact Hn'|]. apply (walk_add _ _ _ _ _ _ _ _ _ Had Hxc). left. exact Hx.
Qed.

Lemma lasting_put V es it : lasting V → has_attr (it_flags it) KEY_VOLATILE = false → lasting (put_item V es it).
Proof. intros HV Hit es' it'. unfold put_item. case_decide; [by intros [= <-]|apply HV]. Qed.
Lemma lasting_ensure es : ∀ V pre, lasting V → lasting (ensure V pre es).
Proof.
  induction es as [|e es IH]; intros V pre HV; [done|]. cbn [ensure]. apply IH. destruct (V (pre ++ [e])); [done|]. by apply lasting_put.
Qed.
Lemma release_named r ext x : tree_ok root r (bump x 1 ext) → named (abs r) x → wide ext →
  wp (release x) (λ _ r', tree_ok root r' ext ∧ quiet r r') r.
Proof.
  intros Hr Hx Hw. destruct (named_key _ _ Hx) as (k & Hk & Hn). destruct (Hw x) as [H0 _].
  eapply wp_mono; [eapply release_keeps; [exact Hr|done|rewrite bump_same; lia|by right]|]. intros _ r' (Hr' & Hq). split; [|done].
  eapply tree_ok_ext; [|exact Hr']. intros p. unfold bump. repeat case_decide; lia.
Qed.

Lemma create_keys_spec : ∀ es fuel r ext q V pre x, seen r (bump x 1 ext) q V → wide ext → lasting V → walk (abs r) q pre = Reached x →
  Forall good_name es → (length (join_path es) ≤ fuel)%nat →
  wp (create_keys root lookup_other fuel x (join_path es) (KeyInitData 0 0 [])) (λ obj r', ∃ c, obj = Some c ∧
    seen r' (bump c 1 ext) q (ensure V pre es) ∧ walk (abs r') q (pre ++ es) = Reached c) r.
Proof.
  induction es as [|e es IH]; intros fuel r ext q V pre x Hs Hw Hlast Hx Hgood Hfuel.
  { rewrite app_nil_r. destruct fuel; cbn [create_keys join_path]; rewrite bool_decide_true, wp_ret by done; by exists x. }
  apply list.Forall_cons in Hgood as [He Hes]. pose proof He as (Hne & _ & Hb & _).
  assert (∃ rest, path_element (join_path (e :: es)) = (e, rest) ∧ rest = match es with [] => [] | _ => backslash :: join_path es end ∧ join_path (e :: es) ≠ []) as (rest & Hel & Hrest & Hj).
  { destruct es as [|e2 es]; [exists []; by rewrite path_element_all|]. rewrite join_path_cons by done. eexists. rewrite path_element_app by done.
    split_and!; [done|done|]. by intros [_ ?]%app_nil. }
  destruct fuel as [|fuel]; [destruct (join_path (e :: es)); [done|simpl in Hfuel; lia]|]. cbn [create_keys]. rewrite bool_decide_false by done. rewrite Hel, wp_bind.
  eapply wp_mono; [by eapply create_key_step|]. intros obj r1 (c & -> & Hs1 & Hc & Hx1). pose proof Hs1 as [Hr1 _ _ _ _].
  assert (∀ p, bump c 1 (bump x 1 ext) p = bump x 1 (bump c 1 ext) p) as Hcomm by (intros p; unfold bump; repeat case_decide; lia).
  assert (wp (release x) (λ _ r2, seen r2 (bump c 1 ext) q (ensure V pre [e]) ∧ abs r2 = abs r1) r1) as Hrel.
  { apply (tree_ok_ext _ _ _ _ Hcomm) in Hr1. destruct (named_key _ _ Hx1) as (k & Hk & Hn). destruct (Hw x) as [H0 _].
    eapply wp_mono; [eapply release_keeps; [exact Hr1|done|rewrite bump_same; unfold bump; case_decide; lia|by right]|]. intros _ r2 (Hr2 & (_ & Ha & Hal & _) & _).
    split; [|done]. eapply seen_quiet; [done| |done|by rewrite Hal]. eapply tree_ok_ext; [|exact Hr2]. intros p. unfold bump. repeat case_decide; lia. }
  rewrite wp_bind. eapply wp_mono; [exact Hrel|]. intros _ r2 (Hs2 & Ha2).
  destruct es as [|e2 es]; subst rest; [rewrite wp_ret; exists c; rewrite Ha2; by split_and!|].
  eapply wp_mono; [apply (IH fuel r2 ext q (ensure V pre [e]) (pre ++ [e]) c); try done|].
  - by apply lasting_ensure.
  - by rewrite Ha2.
  - rewrite join_path_cons, length_app in Hfuel by done. cbn [length] in Hfuel. lia.
  - intros obj r3 (c' & -> & Hs3 & Hc3). exists c'. rewrite <- app_assoc in Hc3. by split_and!.
Qed.
Lemma create_key_recursive_spec es r ext q V : seen r ext q V → wide ext → lasting V → Forall good_name es →
  wp (create_key_recursive root lookup_other q (join_path es) 0) (λ obj r', ∃ c, obj = Some c ∧
    seen r' (bump c 1 ext) q (ensure V [] es) ∧ walk (abs r') q es = Reached c) r.
Proof.
  intros Hs Hw Hlast Hgood. pose proof Hs as [Hr _ _ Hn _]. destruct (named_key _ _ Hn) as (k & Hk & _). destruct (Hw q) as [_ Hq].
  unfold create_key_recursive. rewrite wp_bind. eapply wp_mono; [eapply key_grab_spec; [exact Hr|eauto|lia]|]. intros _ r1 (Hr1 & (_ & Ha & Hal & _) & _).
  eapply wp_mono; [eapply (create_keys_spec es _ r1 ext q V [] q); try done|].
  - eapply seen_quiet; [done|done|done|by rewrite Hal].
  - done.
Qed.

(** ** Steps that do not change the keys *)

Lemma seen_memory r r' ext q V : used_memory r r' → seen r ext q V → seen r' ext q V.
Proof.
  intros (K & _ & _ & N & _ & A) Hs. eapply seen_quiet; [exact Hs| |unfold abs; by rewrite K|done].
  eapply tree_ok_fields; [apply Hs|done|lia].
Qed.
Lemma seen_touched r r' ext q V : touched r r' → seen r ext q V → seen r' ext q V ∧ abs r' = abs r.
Proof.
  intros Ht Hs. destruct (touched_tree root r r' ext Ht (se_tree _ _ _ _ Hs)) as [Hr' Ha]. split; [|done].
  eapply seen_quiet; [done|done|done|]. destruct Ht as (_ & _ & -> & _). by exists [].
Qed.
Lemma seen_error r ext q V e : seen r ext q V → seen (Registry (r_keys r) (r_next r) (r_allocs r) (r_now r) e (r_events r)) ext q V.
Proof. intros Hs. eapply seen_quiet; [exact Hs|by apply tree_ok_error, Hs|done|done]. Qed.

Lemma update_key_time_ends modif l : ∀ fuel (p : option Z) r, chain (r_keys r) p l → (length l ≤ fuel)%nat → wp (update_key_time fuel p modif) (λ _ r', touched r r') r.
Proof.
  induction l as [|x l IH]; intros fuel p r Hc Hlen.
  - simpl in Hc. subst p. by destruct fuel.
  - pose proof Hc as [-> (k & Hk & Hn & Hc')]. destruct fuel as [|fuel]; [simpl in Hlen; lia|]. cbn [update_key_time].
    rewrite wp_bind, (key_of_spec x r k) by done. destruct (truth (k_modif k)); [by rewrite wp_ret|].
    rewrite wp_bind, (update_key_spec x _ r k) by done. set (r1 := set_keys _ r).
    assert (touched r r1) as Ht.
    { split; [|done]. intros y. simpl. destruct (decide (y = x)) as [->|Hne]; [rewrite Hk, lookup_insert_eq; constructor; apply touched_modif|].
      rewrite lookup_insert_ne by done. destruct (r_keys r !! y); constructor. reflexivity. }
    rewrite wp_bind, get_parent_spec by done. eapply wp_mono; [apply IH; [by eapply chain_touched|simpl in Hlen; lia]|]. intros [] r2 H2. by etrans.
Qed.
Lemma update_key_time_spec r ext q V c modif : seen r ext q V → named (abs r) c →
  wp (update_key_time (size (r_keys r)) (Some c) modif) (λ _ r', seen r' ext q V ∧ abs r' = abs r) r.
Proof.
  intros Hs Hc. destruct (named_key _ _ Hc) as (k & Hk & Hn). destruct (to_rooted _ _ _ (se_tree _ _ _ _ Hs) c k Hk Hn) as [l Hl].
  eapply wp_mono; [eapply update_key_time_ends; [exact Hl|by eapply chain_length]|]. intros [] r' Ht. by apply seen_touched.
Qed.

(** ** New data for a key *)

Lemma tree_ok_replace r r' ext c k k' : tree_ok root r ext → r_keys r !! c = Some k → r_keys r' = <[c := k']> (r_keys r) → r_next r' = r_next r →
  tree_equiv k k' → k_refcount k' = k_refcount k → tree_ok root r' ext.
Proof.
  intros Hr Hk K N He Hc. eapply (tree_ok_equiv root r r' ext ext Hr).
  - intros p. rewrite K. destruct (decide (p = c)) as [->|Hne]; [rewrite lookup_insert_eq, Hk; by constructor|].
    rewrite lookup_insert_ne by done. apply calm_refl.
  - intros p kp. rewrite K. intros Hp. apply lookup_insert_Some in Hp as [[<- <-]|[_ Hp]]; [|pose proof (to_keys _ _ _ Hr p kp Hp) as []; by split_and!].
    pose proof (to_keys _ _ _ Hr c k Hk) as []. unfold refs in *. destruct He as (_ & -> & _). rewrite Hc. by split_and!.
  - intros p. rewrite K. intros [Hp _]%lookup_insert_None. by apply (to_ext _ _ _ Hr).
  - lia.
Qed.
(** A key at the end of the path [es] gets other data. *)
Lemma seen_replace r r' ext q V es c k k' : seen r ext q V → walk (abs r) q es = Reached c → r_keys r !! c = Some k → r_keys r' = <[c := k']> (r_keys r) →
  r_next r' = r_next r → r_allocs r' `suffix_of` r_allocs r → tree_equiv k k' → k_refcount k' = k_refcount k →
  V es = Some (item_of (abs_key k)) ∧ seen r' ext q (put_item V es (item_of (abs_key k'))) ∧ walk (abs r') q es = Reached c.
Proof.
  intros Hs Hw Hk K N A He Hc. pose proof Hs as [Hr Hl Hm Hn Hv]. destruct (named_key _ _ Hn) as (kq & Hkq & Hnq).
  assert (abs r !! c = Some (abs_key k)) as Hck by (by rewrite abs_lookup, Hk).
  assert (abs r' = <[c := abs_key k']> (abs r)) as Ha by by apply abs_insert.
  pose proof He as (En & Ep & _ & Ef & _). pose proof (tree_unique _ _ _ Hr) as Hu.
  split; [rewrite <- Hv; unfold view; by rewrite Hw, Hck|]. split; [split|].
  - by apply (tree_ok_replace r r' ext c k k').
  - intros p kp. rewrite K. intros [[<- <-]|[_ Hp]]%lookup_insert_Some; [|by eapply Hl]. rewrite (equiv_flag _ _ _ He) by done. by eapply Hl.
  - by eapply memory_left_suffix.
  - rewrite Ha. destruct Hn as (nd & Hnd & Hsome). destruct (decide (q = c)) as [->|Hne].
    + exists (abs_key k'). rewrite lookup_insert_eq. split; [done|]. simpl. rewrite En. assert (nd = abs_key k) as -> by congruence. done.
    + exists nd. by rewrite lookup_insert_ne.
  - intros es'. rewrite Ha. rewrite (view_set root r ext q kq es c (abs_key k)) by done. unfold put_item. by rewrite Hv.
  - rewrite Ha. by apply (walk_set (abs r) c (abs_key k)).
Qed.

(** ** The counter of keys stays while a value is loaded *)

Definition same_next r r' : Prop := r_next r' = r_next r.
#[export] Instance same_next_preorder : PreOrder same_next.
Proof. split; [done|]. intros r1 r2 r3 E1 E2. unfold same_next in *. congruence. Qed.
Definition same_next_l s s' : Prop := same_next (ls_registry s) (ls_registry s').
#[export] Instance same_next_l_preorder : PreOrder same_next_l.
Proof. split; [done|]. intros s1 s2 s3 E1 E2. unfold same_next_l in *. by etrans. Qed.
Lemma keeps_lift {A} (m : R A) : keeps same_next m → keeps same_next_l (lift m).
Proof. intros Hm s a s'. unfold lift. destruct (m (ls_registry s)) eqn:E; try done. intros [= <- <-]. by apply Hm in E. Qed.
Lemma keeps_next_access {A} (x : option A) : keeps same_next (access x).
Proof. intros r a r'. unfold access. destruct x; [|done]. by intros [= _ <-]. Qed.
Lemma keeps_next_malloc : keeps same_next malloc_ok.
Proof. intros r a r'. unfold malloc_ok. intros [= _ <-]. done. Qed.
Lemma keeps_next_update p f : keeps same_next (update_key p f).
Proof. unfold update_key. keeps_tac ltac:(first [apply keeps_key_of; apply _ | apply keeps_modify; done]). Qed.
Ltac next_prim := first [apply keeps_next_malloc | apply keeps_key_of; apply _ | apply keeps_next_access | apply keeps_next_update | apply keeps_modify; intros ?; reflexivity].
Lemma keeps_next_error e : keeps same_next (set_error e).
Proof. unfold set_error. keeps_tac next_prim. Qed.
Lemma keeps_next_mem_alloc : keeps same_next mem_alloc_ok.
Proof. unfold mem_alloc_ok. keeps_tac ltac:(first [next_prim | apply keeps_next_error]). Qed.
Lemma keeps_next_insert p name i : keeps same_next (insert_value p name i).
Proof. unfold insert_value, grow_values. keeps_tac ltac:(first [apply keeps_next_mem_alloc | apply keeps_next_error | next_prim]). Qed.
Lemma keeps_next_store p i type d : keeps same_next (store_value p i type d).
Proof. unfold store_value. keeps_tac next_prim. Qed.

Ltac next_lift := first [apply keeps_lift; first [apply keeps_next_insert | apply keeps_next_store | apply keeps_next_mem_alloc | apply keeps_next_error | next_prim] |
  apply keeps_modify; intros ?; reflexivity].
Lemma keeps_next_tmp size : keeps same_next_l (get_file_tmp_space size).
Proof. unfold get_file_tmp_space. keeps_tac next_lift. Qed.
Lemma keeps_next_read_loop fuel : ∀ line, keeps same_next_l (read_loop fuel line).
Proof. induction fuel as [|fuel IH]; intros line; cbn [read_loop]; keeps_tac ltac:(first [apply IH | next_lift]). Qed.
Lemma keeps_next_read_line : keeps same_next_l read_next_line.
Proof. unfold read_next_line. keeps_tac ltac:(apply keeps_next_read_loop). Qed.
Lemma keeps_next_hex fuel : ∀ d buffer, keeps same_next_l (load_hex fuel d buffer).
Proof.
  induction fuel as [|fuel IH]; intros d buffer; cbn [load_hex]; unfold load_hex_turn;
    keeps_tac ltac:(first [apply IH | apply keeps_next_tmp | apply keeps_next_read_line | next_lift]).
Qed.
Lemma keeps_next_value p buffer : keeps same_next_l (load_value p buffer).
Proof.
  unfold load_value, parse_value_name, parse_data.
  keeps_tac ltac:(first [apply keeps_next_tmp | apply keeps_next_hex | next_lift]).
Qed.

(** ** The state between two lines *)

(** The key that is being loaded, which has a reference, and its path. *)
Implicit Types (sub : option (Z * list (list Z))) (g : load_progress).
Definition sub_refs ext sub : Z → Z := match sub with Some (c, _) => bump c 1 ext | None => ext end.
Record loading s ext q sub V (file : list Z) g : Prop := {
  ld_seen : seen (ls_registry s) (sub_refs ext sub) q V;
  ld_sub : match sub with Some (c, es) => walk (abs (ls_registry s)) q es = Reached c | None => True end;
  ld_file : ls_file s = file;
  ld_len : 2 ≤ ls_len s;
  ld_key : lp_subkey g = fst <$> sub;
  ld_prefix_len : lp_prefix_len g = 0 }.
Definition continues (Q : load_progress → load_state → Prop) q g s : Prop :=
  ∀ fuel, (length (ls_file s) ≤ fuel)%nat → wp (load_lines root lookup_other fuel q g) Q s.

Lemma loading_memory s s' ext q sub V file file' g : loading s ext q sub V file g → used_memory (ls_registry s) (ls_registry s') → ls_file s' = file' → 2 ≤ ls_len s' →
  loading s' ext q sub V file' g.
Proof.
  intros [H1 H2 H3 H4 H5 H6] Hu Hf Hl. split; try done; [by eapply seen_memory|]. destruct sub as [[c es]|]; [|done].
  destruct Hu as (K & _). unfold abs. by rewrite K.
Qed.
Lemma line_shorter {A} (l more : list A) (x : A) : (length more < length (l ++ x :: more))%nat.
Proof. rewrite length_app. simpl. lia. Qed.
Lemma continue_line Q q line more s ext sub V g : loading s ext q sub V (line ++ 10 :: more) g → plain line → last line 0 ≠ 13 →
  (∀ s1, loading s1 ext q sub V more g → ls_buffer s1 = line →
     wp (load_line root lookup_other q line g) (λ res s2, snd res = true ∧ (length (ls_file s2) < length (ls_file s))%nat ∧ continues Q q (fst res) s2) s1) →
  continues Q q g s.
Proof.
  intros Hs Hp H13 Hline fuel Hfuel. pose proof Hs as [Hseen _ Hf Hl _ _].
  assert (∀ fuel, load_lines root lookup_other fuel q g = (n ← read_next_line; if negb (n =? 1) then mret g else line ← gets ls_buffer; res ← load_line root lookup_other q line g;
    if negb (snd res) then mret (fst res) else match fuel with O => no_fuel | S fuel => load_lines root lookup_other fuel q (fst res) end)) as -> by by destruct fuel0.
  rewrite wp_bind. eapply wp_mono; [eapply (read_next_line_spec line more); [done|done|done|apply Hseen|done]|]. intros n s1 (-> & Hu & E1 & L1).
  change (negb (1 =? 1)) with false. cbv iota. pose proof (f_equal ls_file E1) as EF. pose proof (f_equal ls_buffer E1) as EB. simpl in EF, EB.
  rewrite wp_bind, wp_gets, wp_bind, EB. eapply wp_mono; [apply Hline; [|done]|].
  - eapply loading_memory; [exact Hs|done|done|lia].
  - intros res s2 (-> & Hless & Hc). cbn [negb]. destruct fuel as [|fuel]; [lia|]. apply Hc. lia.
Qed.
(** The end of the file. *)
Lemma continue_end Q q g s : ls_file s = [] → (∀ s', ls_registry s' = ls_registry s → ls_file s' = ls_file s → ls_len s' = ls_len s → Q g s') → continues Q q g s.
Proof.
  intros Hf HQ fuel _.
  assert (load_lines root lookup_other fuel q g = (n ← read_next_line; if negb (n =? 1) then mret g else line ← gets ls_buffer; res ← load_line root lookup_other q line g;
    if negb (snd res) then mret (fst res) else match fuel with O => no_fuel | S fuel => load_lines root lookup_other fuel q (fst res) end)) as -> by by destruct fuel.
  rewrite wp_bind. unfold read_next_line. rewrite wp_bind, wp_gets. unfold id. rewrite Hf. cbn [length read_loop]. rewrite wp_bind, wp_gets. unfold id. rewrite Hf.
  assert (∀ n, fgets n [] = ([], [])) as -> by by intros []. rewrite bool_decide_true by done. rewrite wp_bind, wp_modify, wp_ret. cbv iota.
  change (negb (0 =? 1)) with true. cbv iota. rewrite wp_ret. by apply HQ.
Qed.

(** ** Lines without data *)

Lemma skip_line q line g : char_at (skip_spaces line) ∉ [91; 64; 34; 35] → load_line root lookup_other q line g = mret (g, true).
Proof.
  rewrite !not_elem_of_cons. intros (H1 & H2 & H3 & H4 & _). unfold load_line. by rewrite !(proj2 (Z.eqb_neq _ _)) by done.
Qed.
Lemma continue_skip Q q line more s ext sub V g : loading s ext q sub V (line ++ 10 :: more) g → plain line → last line 0 ≠ 13 →
  char_at (skip_spaces line) ∉ [91; 64; 34; 35] → (∀ s1, loading s1 ext q sub V more g → continues Q q g s1) → continues Q q g s.
Proof.
  intros Hs Hp H13 Hc HQ. eapply continue_line; [exact Hs|done|done|]. intros s1 Hs1 _. rewrite skip_line, wp_ret by done. split; [done|]. split; [|by apply HQ].
  rewrite (ld_file _ _ _ _ _ _ _ Hs), (ld_file _ _ _ _ _ _ _ Hs1). apply line_shorter.
Qed.

(** ** The line of a key *)

Lemma release_subkey_spec r ext sub q V g : seen r (sub_refs ext sub) q V → match sub with Some (c, es) => walk (abs r) q es = Reached c | None => True end →
  lp_subkey g = fst <$> sub → wide ext → wp (release_subkey g) (λ _ r', seen r' ext q V) r.
Proof.
  intros Hs Hsub Hg Hw. unfold release_subkey. rewrite Hg. destruct sub as [[c es]|]; simpl in *; [|by rewrite wp_ret].
  pose proof (reached_named _ _ _ _ (se_named _ _ _ _ Hs) Hsub) as Hc. rewrite wp_bind, wp_gets, wp_bind. unfold id.
  eapply wp_mono; [by eapply update_key_time_spec|]. intros _ r1 (Hs1 & Ha1).
  eapply wp_mono; [eapply release_named; [apply Hs1|by rewrite Ha1|done]|]. intros _ r2 (Hr2 & (_ & Ha2 & Hal & _) & _).
  eapply seen_quiet; [done|done|done|by rewrite Hal].
Qed.
Lemma skip_prefix_zero str : skip_prefix 0 str = (str, 0).
Proof. by destruct str. Qed.
Lemma load_key_spec es more s ext q V modif : seen (ls_registry s) ext q V → wide ext → lasting V → Forall good_name es → 2 ≤ ls_len s →
  wp (load_key root lookup_other q (dump_text (91, 93) (join_path es) ++ 93 :: more) 0 modif) (λ l s', ∃ c, fst l = Some c ∧
    seen (ls_registry s') (bump c 1 ext) q (ensure V [] es) ∧ walk (abs (ls_registry s')) q es = Reached c ∧ ls_file s' = ls_file s ∧ 2 ≤ ls_len s') s.
Proof.
  intros Hs Hw Hlast Hgood Hlen. pose proof (join_path_wchar _ Hgood) as Hwc. unfold load_key. rewrite wp_bind.
  eapply wp_mono; [eapply get_file_tmp_space_spec, Hs|]. intros ok s1 (-> & Hu & E1 & T1 & _). cbn [negb]. rewrite wp_bind, wp_gets.
  pose proof (dump_text_length (91, 93) 93 (join_path es) Hwc (or_intror (conj eq_refl eq_refl))) as Hl. rewrite length_app in T1. cbn [length] in T1.
  rewrite (parse_dump_text (91, 93) 93) by first [done | by right | lia]. rewrite wp_bind, wp_gets. cbv zeta. rewrite skip_prefix_zero.
  set (modif' := match scan_unsigned _ with Some m => m * TICKS_PER_SEC + ticks_1601_to_1970 | None => _ end). clearbody modif'.
  pose proof (seen_memory _ _ _ _ _ Hu Hs) as Hs1.
  assert (∀ (m : R (option Z)) c0, wp m (λ obj r', ∃ c, obj = Some c ∧ seen r' (bump c 1 ext) q (ensure V [] es) ∧ walk (abs r') q es = Reached c) (ls_registry s1) → c0 = modif' →
    wp (obj ← lift m; mret (obj, c0)) (λ l s', ∃ c, fst l = Some c ∧ seen (ls_registry s') (bump c 1 ext) q (ensure V [] es) ∧ walk (abs (ls_registry s')) q es = Reached c ∧
      ls_file s' = ls_file s ∧ 2 ≤ ls_len s') s1) as Hlift.
  { intros m c0 Hm _. rewrite wp_bind, wp_lift. eapply wp_mono; [exact Hm|]. intros obj r' (c & -> & Hs' & Hc). rewrite wp_ret. exists c. rewrite E1. by split_and!. }
  destruct (decide (es = [])) as [->|Hne].
  - change (char_at (join_path [] ++ [0])) with 0. change (negb (truth 0)) with true. cbv iota. change (1 <? 0) with false. cbv iota.
    pose proof (se_named _ _ _ _ Hs1) as Hn. destruct (named_key _ _ Hn) as (k & Hk & _). destruct (Hw q) as [_ Hq].
    rewrite wp_bind, wp_lift. eapply wp_mono; [eapply key_grab_spec; [apply Hs1|eauto|lia]|]. intros _ r' (Hr' & (_ & Ha & Hal & _) & _). rewrite wp_ret.
    exists q. simpl. split; [done|]. split; [eapply seen_quiet; [exact Hs1|done|done|by rewrite Hal]|]. rewrite E1. by split_and!.
  - assert (truth (char_at (join_path es ++ [0])) = true) as ->.
    { pose proof (join_path_head es Hgood) as Hh. destruct (join_path es) as [|z j] eqn:Ej; [by apply join_path_nil in Ej|]. simpl in *. unfold truth.
      rewrite negb_true_iff, Z.eqb_neq. congruence. }
    cbn [negb]. rewrite removelast_last. apply Hlift; [|done]. by apply create_key_recursive_spec.
Qed.
Lemma header_line es more s ext q sub V file g : loading s ext q sub V file g → wide ext → lasting V → Forall good_name es →
  wp (load_line root lookup_other q (91 :: dump_text (91, 93) (join_path es) ++ 93 :: more) g) (λ res s', snd res = true ∧ lp_prefix (fst res) = lp_prefix g ∧
    ∃ c, loading s' ext q (Some (c, es)) (ensure V [] es) file (fst res)) s.
Proof.
  intros [Hs Hsub Hf Hl Hg Hp] Hw Hlast Hgood. unfold load_line. change (skip_spaces (91 :: ?x)) with (91 :: x). cbn [char_at tail]. change (91 =? 91) with true. cbv iota.
  rewrite wp_bind, wp_lift. eapply wp_mono; [by eapply release_subkey_spec|]. intros [] r1 Hs1. rewrite Hp. change (0 =? -1) with false. cbv iota.
  rewrite wp_bind, wp_ret, wp_bind. eapply wp_mono; [by apply (load_key_spec es more (with_registry r1 s) ext q V)|].
  intros [obj modif] s2 (c & Hobj & Hs2 & Hc & F2 & L2). simpl in Hobj. subst obj. rewrite wp_ret. simpl. split; [done|]. split; [done|]. exists c. split; try done. simpl in F2. congruence.
Qed.

(** ** The lines of options and values *)

Definition update_item V es (f : item → item) : paths := match V es with Some it => put_item V es (f it) | None => V end.
Definition set_class (class : list Z) (it : item) : item := Item (it_name it) class (it_flags it) (it_values it).
Definition add_value (v : key_value) (it : item) : item :=
  Item (it_name it) (it_class it) (it_flags it) (<[fold_name (kv_name v) := (spelling (it_values it) (kv_name v), kv_type v, data v)]> (it_values it)).

Lemma time_line k s ext q sub V file g c es : loading s ext q sub V file g → sub = Some (c, es) →
  wp (load_line root lookup_other q (time_text k) g) (λ res s', res = (g, true) ∧ loading s' ext q sub V file g) s.
Proof.
  intros [Hs Hsub Hf Hl Hg Hp] ->. unfold load_line, time_text. generalize (print_number 16 0 (u32 (Z.shiftr (k_modif k) 32)) ++ print_number 16 8 (u32 (k_modif k))). intros t.
  change (skip_spaces ?x) with x. cbn [char_at app]. change (35 =? 91) with false. change ((35 =? 64) || (35 =? 34)) with false. change (35 =? 35) with true. cbv iota. change (lp_subkey g = Some c) in Hg. rewrite Hg, wp_bind.
  unfold load_key_option. cbn [after_tag]. rewrite !Z.eqb_refl. change (99 =? 116) with false. change (108 =? 116) with false. cbv iota.
  rewrite wp_bind, wp_bind, wp_gets, wp_lift. simpl in Hsub, Hs. pose proof (reached_named _ _ _ _ (se_named _ _ _ _ Hs) Hsub) as Hn.
  eapply wp_mono; [by eapply update_key_time_spec|]. intros [] r1 (Hs1 & Ha1). rewrite wp_bind, wp_ret. cbn [negb]. rewrite wp_bind, !wp_ret. split; [done|].
  split; try done. simpl. by rewrite Ha1.
Qed.
Lemma with_class_equiv class k : tree_equiv k (with_class class k).
Proof. split_and!; try done. by apply values_ok_ext. Qed.
Lemma class_line class s ext q V file g c es : loading s ext q (Some (c, es)) V file g → Forall wchar class →
  wp (load_line root lookup_other q (class_text class) g) (λ res s', res = (g, true) ∧ loading s' ext q (Some (c, es)) (update_item V es (set_class (class ++ [0]))) file g) s.
Proof.
  intros [Hs Hsub Hf Hl Hg Hp] Hclass. unfold load_line, class_text.
  change (skip_spaces ?x) with x. cbn [char_at app]. change (35 =? 91) with false. change ((35 =? 64) || (35 =? 34)) with false. change (35 =? 35) with true. cbv iota. change (lp_subkey g = Some c) in Hg. rewrite Hg, wp_bind.
  unfold load_key_option. cbn [after_tag]. rewrite !Z.eqb_refl. change (116 =? 99) with false. change (108 =? 99) with false. cbv iota.
  rewrite wp_bind, wp_ret. change (34 =? 34) with true. cbn [negb]. rewrite wp_bind, wp_bind.
  eapply wp_mono; [eapply get_file_tmp_space_spec, Hs|]. intros ok s1 (-> & Hu & E1 & T1 & _). cbn [negb]. rewrite wp_bind, wp_gets.
  pose proof (dump_text_length (34, 34) 34 class Hclass (or_introl (conj eq_refl eq_refl))) as Hlen. rewrite length_app in T1. cbn [length] in T1.
  rewrite (parse_dump_text (34, 34) 34 class []) by first [done | by left | lia]. pose proof (seen_memory _ _ _ _ _ Hu Hs) as Hs1.
  rewrite wp_bind, wp_lift. eapply wp_mono; [eapply mem_alloc_ok_true, Hs1|]. intros ok r2 (-> & Hu2). pose proof (seen_memory _ _ _ _ _ Hu2 Hs1) as Hs2.
  assert (walk (abs r2) q es = Reached c) as Hsub2 by (destruct Hu as (K & _), Hu2 as (K2 & _); unfold abs in *; by rewrite K2, K).
  destruct (named_key _ _ (reached_named _ _ _ _ (se_named _ _ _ _ Hs2) Hsub2)) as (k & Hk & _).
  rewrite wp_bind, wp_lift, (update_key_spec c _ r2 k), wp_ret by done. cbn [negb]. rewrite wp_bind, !wp_ret.
  destruct (seen_replace r2 (set_keys (<[c := with_class (class ++ [0]) k]> (r_keys r2)) r2) _ q V es c k (with_class (class ++ [0]) k) Hs2) as (HV & Hs3 & Hsub3);
    try done; [apply with_class_equiv|].
  split; [done|]. split; try done.
  - unfold update_item. rewrite HV. done.
  - rewrite E1. done.
  - rewrite E1. done.
Qed.

Lemma became_seen r r' ext q V es c k v : seen r ext q V → walk (abs r) q es = Reached c → r_keys r !! c = Some k → r_next r' = r_next r → loaded r c k v r' →
  seen r' ext q (update_item V es (add_value v)) ∧ walk (abs r') q es = Reached c.
Proof.
  intros Hs Hw Hk N (k' & (K & (last & nb & vs & ->) & Hok & _ & A) & _ & Hmap). set (k' := with_values _ _ _ _) in *.
  destruct (seen_replace r r' ext q V es c k k') as (HV & Hs' & Hw'); try done. split; [|done].
  unfold update_item. rewrite HV. unfold add_value. simpl. rewrite <- Hmap. exact Hs'.
Qed.
Lemma continue_value Q q v rest s ext V g c es : loading s ext q (Some (c, es)) V (value_text v ++ rest) g → value_ok v → storable v →
  (∀ s', loading s' ext q (Some (c, es)) (update_item V es (add_value v)) rest g → continues Q q g s') → continues Q q g s.
Proof.
  intros Hs Hv Hst HQ. destruct (first_line v rest Hst) as (line & more & Hline & E). rewrite E in Hs. destruct (printable_plain line Hline) as [Hp H13].
  assert (∃ z line', line = z :: line' ∧ (z = 64 ∨ z = 34)) as (z & line' & -> & Hz).
  { unfold value_text, name_text in E. destruct (decide _); destruct line as [|z line']; simpl in E; try done; injection E as <- E; eauto. }
  eapply continue_line; [exact Hs|done|done|]. intros s1 [Hs1 Hsub1 Hf1 Hl1 Hg1 Hp1] _. unfold load_line.
  assert (skip_spaces (z :: line') = z :: line') as -> by by destruct Hz as [->| ->]. cbn [char_at].
  rewrite (proj2 (Z.eqb_neq z 91)) by lia. assert ((z =? 64) || (z =? 34) = true) as -> by by destruct Hz as [->| ->]. change (lp_subkey g = Some c) in Hg1. rewrite Hg1, wp_bind.
  simpl in Hs1, Hsub1. destruct (named_key _ _ (reached_named _ _ _ _ (se_named _ _ _ _ Hs1) Hsub1)) as (k & Hk & _).
  assert (wp (load_value c (z :: line')) (λ _ s', loading s' ext q (Some (c, es)) (update_item V es (add_value v)) rest g) s1) as Hload.
  { assert (registry_ok (ls_registry s1)) as Hr1 by (eapply tree_registry_ok, Hs1).
    eapply wp_mono; [eapply wp_keeps; [|apply keeps_next_value]; apply (load_value_spec c k v rest); [done..|apply Hs1|done|by rewrite Hf1|done]|].
    - intros b s2 ((_ & Hld & F2 & L2) & N). destruct (became_seen _ _ _ _ _ _ _ _ _ Hs1 Hsub1 Hk N Hld) as [Hs2 Hsub2]. by split. }
  eapply wp_mono; [exact Hload|]. intros b s2 Hs2. rewrite wp_ret. split; [done|]. split; [|by apply HQ].
  rewrite (ld_file _ _ _ _ _ _ _ Hs), (ld_file _ _ _ _ _ _ _ Hs2), <- E, length_app. unfold value_text. rewrite !length_app. simpl. lia.
Qed.

(** ** A whole file *)

Definition load_class V es (class : list Z) : paths := if bool_decide (class = []) then V else update_item V es (set_class (class ++ [0])).
Definition load_values V es (l : list key_value) : paths := foldl (λ V v, update_item V es (add_value v)) V l.
(** What the text of a key makes of a view. *)
Definition load_section V (sec : list (list Z) * key) : paths :=
  load_values (load_class (ensure V [] (fst sec)) (fst sec) (k_class (snd sec))) (fst sec) (used (snd sec)).

Lemma lasting_update V es f : lasting V → (∀ it, it_flags (f it) = it_flags it) → lasting (update_item V es f).
Proof. intros HV Hf. unfold update_item. destruct (V es) as [it|] eqn:E; [|done]. apply lasting_put; [done|]. rewrite Hf. by eapply HV. Qed.
Lemma lasting_section V sec : lasting V → lasting (load_section V sec).
Proof.
  intros HV. unfold load_section, load_class, load_values. assert (∀ l V, lasting V → lasting (foldl (λ V v, update_item V (fst sec) (add_value v)) V l)) as Hl.
  { intros l. induction l as [|v l IH]; intros V0 H0; [done|]. simpl. apply IH. by apply lasting_update. }
  apply Hl. case_bool_decide; [by apply lasting_ensure|]. by apply lasting_update; [apply lasting_ensure|].
Qed.
Lemma printable_header es k : Forall good_name es → printable (91 :: dump_text (91, 93) (join_path es) ++ header_text k).
Proof.
  intros Hg. constructor; [lia|]. apply list.Forall_app. split; [by apply printable_dump_text, join_path_wchar|]. apply list.Forall_app. split; [repeat constructor; lia|].
  apply printable_number; [lia|]. unfold u32. pose proof (Z.mod_pos_bound ((k_modif k - ticks_1601_to_1970) ÷ TICKS_PER_SEC) (2 ^ 32) ltac:(lia)). lia.
Qed.
Lemma printable_time k : printable (time_text k).
Proof.
  unfold time_text. apply list.Forall_app. split; [repeat constructor; lia|]. apply list.Forall_app.
  split; (apply printable_number; [lia|]); unfold u32; (match goal with |- context [?a mod 2 ^ 32] => pose proof (Z.mod_pos_bound a (2 ^ 32) ltac:(lia)) end; lia).
Qed.
Lemma printable_class class : Forall wchar class → printable (class_text class).
Proof.
  intros Hc. unfold class_text. apply list.Forall_app. split; [repeat constructor; lia|]. apply list.Forall_app. split; [by apply printable_dump_text|repeat constructor; lia].
Qed.

Lemma continue_values Q q c es g ext l : ∀ V rest s, loading s ext q (Some (c, es)) V (values_text l ++ rest) g → Forall value_ok l → Forall storable l →
  (∀ s', loading s' ext q (Some (c, es)) (load_values V es l) rest g → continues Q q g s') → continues Q q g s.
Proof.
  induction l as [|v l IH]; intros V rest s Hs Hv Hst HQ; [by apply HQ|]. apply list.Forall_cons in Hv as [Hv Hl]. apply list.Forall_cons in Hst as [Hsv Hsl].
  cbn [values_text flat_map] in Hs. rewrite <- app_assoc in Hs. eapply continue_value; [exact Hs|done|done|]. intros s' Hs'. by eapply IH.
Qed.
Lemma continue_section Q q es k rest s ext sub V g : loading s ext q sub V (section_text (es, k) ++ rest) g → wide ext → lasting V → Forall good_name es →
  storable_key k → values_ok k →
  (∀ s' g' sub', lp_prefix g' = lp_prefix g → loading s' ext q sub' (load_section V (es, k)) rest g' → continues Q q g' s') → continues Q q g s.
Proof.
  intros Hs Hw Hlast Hgood (_ & Hclass & Hst) Hv HQ.
  assert (section_text (es, k) ++ rest = [] ++ 10 :: (91 :: dump_text (91, 93) (join_path es) ++ header_text k) ++ 10 :: time_text k ++ 10 ::
    (if bool_decide (k_class k = []) then [] else class_text (k_class k) ++ [10]) ++ values_text (used k) ++ rest) as E.
  { unfold section_text, key_text. cbn [fst snd]. generalize (dump_text (91, 93) (join_path es)) (header_text k) (time_text k) (class_text (k_class k)) (values_text (used k)).
    intros path header time class values. case_bool_decide; by app_norm. }
  rewrite E in Hs. clear E. eapply continue_skip; [exact Hs|apply not_elem_of_nil|done|rewrite !not_elem_of_cons; split_and!; try done; apply not_elem_of_nil|].
  clear Hs s. intros s Hs. destruct (printable_plain _ (printable_header es k Hgood)) as [Hp H13].
  eapply continue_line; [exact Hs|exact Hp|exact H13|]. intros s1 Hs1 _. eapply wp_mono; [by eapply (header_line es)|].
  intros [g1 ok] s2 (Hok & Hpre & c & Hs2). cbn [fst snd] in *. subst ok. split; [done|].
  split; [rewrite (ld_file _ _ _ _ _ _ _ Hs), (ld_file _ _ _ _ _ _ _ Hs2); apply line_shorter|].
  destruct (printable_plain _ (printable_time k)) as [Hp2 H132]. eapply continue_line; [exact Hs2|exact Hp2|exact H132|]. intros s3 Hs3 _.
  eapply wp_mono; [by eapply time_line|]. intros res s4 (-> & Hs4). split; [done|]. cbn [fst].
  split; [rewrite (ld_file _ _ _ _ _ _ _ Hs2), (ld_file _ _ _ _ _ _ _ Hs4); apply line_shorter|].
  assert (∀ s5, loading s5 ext q (Some (c, es)) (load_class (ensure V [] es) es (k_class k)) (values_text (used k) ++ rest) g1 → continues Q q g1 s5) as Hvals.
  { intros s5 Hs5. eapply continue_values; [exact Hs5|apply Hv|done|]. intros s' Hs'. by eapply HQ. }
  unfold load_class in Hvals. case_bool_decide as Ec; [by apply Hvals|]. rewrite <- app_assoc in Hs4. cbn [app] in Hs4.
  destruct (printable_plain _ (printable_class _ Hclass)) as [Hp3 H133]. eapply continue_line; [exact Hs4|exact Hp3|exact H133|]. intros s5 Hs5 _.
  eapply wp_mono; [by eapply class_line|]. intros res s6 (-> & Hs6). split; [done|]. cbn [fst]. split; [|by apply Hvals].
  rewrite (ld_file _ _ _ _ _ _ _ Hs4), (ld_file _ _ _ _ _ _ _ Hs6). apply line_shorter.
Qed.
Definition section_ok (sec : list (list Z) * key) : Prop := Forall good_name (fst sec) ∧ storable_key (snd sec) ∧ values_ok (snd sec).
Lemma continue_sections (Q : load_progress → load_state → Prop) q ext l : ∀ s sub V g, loading s ext q sub V (flat_map section_text l) g → wide ext → lasting V → Forall section_ok l →
  (∀ s' g' sub', lp_prefix g' = lp_prefix g → loading s' ext q sub' (foldl load_section V l) [] g' → Q g' s') → continues Q q g s.
Proof.
  induction l as [|[es k] l IH]; intros s sub V g Hs Hw Hlast Hok HQ.
  - apply continue_end; [apply Hs|]. intros s' E1 E2 E3. destruct Hs as [H1 H2 H3 H4 H5 H6].
    eapply HQ; [done|]. split; rewrite ?E1, ?E2, ?E3; done.
  - apply list.Forall_cons in Hok as [(Hg & Hst & Hv) Hok]. cbn [flat_map] in Hs. eapply continue_section; [exact Hs|done..|].
    intros s' g' sub' Hpre Hs'. eapply IH; [exact Hs'|done|by apply lasting_section|done|]. intros s'' g'' sub'' Hpre'' Hs''. eapply HQ; [congruence|done].
Qed.
End load.
