(* ===== verification/RegRoundTrip.v ===== *)
(** * A tree of keys that has been saved is loaded again

    The file is read back into another registry, or another part of the same one. *)

From stdpp Require Import sorting.
From S2P Require Import Prelude.
From S2P Require Import Atoms.
From S2P Require Import AtomsInv.
From S2P Require Import RegStrings.
From S2P Require Import RegStringsSpec.
From S2P Require Import RegKeys.
From S2P Require Import RegArrays.
From S2P Require Import RegTouch.
From S2P Require Import RegValueSpec.
From S2P Require Import RegFile.
From S2P Require Import RegNumbers.
From S2P Require Import RegFileSpec.
From S2P Require Import RegTree.
From S2P Require Import RegTreeInv.
From S2P Require Import RegTreeLookup.
From S2P Require Import RegTreeLinks.
From S2P Require Import RegTreeCreate.
From S2P Require Import RegTreeChange.
From S2P Require Import RegTreeHistory.
From S2P Require Import RegView.
From S2P Require Import RegSave.
From S2P Require Import RegSaveText.
From S2P Require Import RegLoad.

(** ** What the sections of a file make of a view *)

Section sections.
Context `{CaseMap}.
Implicit Types (es pre : list (list Z)) (V : paths) (k : key) (D : list (list (list Z) * key)).

Definition loaded_class (class : list Z) : list Z := if bool_decide (class = []) then [] else class ++ [0].

Lemma map_of_entry (l : list key_value) v : StronglySorted before (value_names l) → v ∈ l → map_of l !! fold_name (kv_name v) = Some (entry v).
Proof.
  intros Hs (l1 & l2 & ->)%list_elem_of_split. by apply map_of_lookup.
Qed.
(** Values that are not in a map yet, or just as they are, are added to it. *)
Definition add_to_map (m : vmap) (v : key_value) : vmap := <[fold_name (kv_name v) := (spelling m (kv_name v), kv_type v, data v)]> m.
Lemma add_to_map_all l : ∀ m : vmap, StronglySorted before (value_names l) →
  (∀ v, v ∈ l → m !! fold_name (kv_name v) = None ∨ m !! fold_name (kv_name v) = Some (entry v)) → foldl add_to_map m l = map_of l ∪ m.
Proof.
  induction l as [|v l IH]; intros m Hs Hm; [symmetry; apply (map_empty_union m)|]. cbn [foldl].
  assert (add_to_map m v = <[fold_name (kv_name v) := entry v]> m) as ->.
  { unfold add_to_map, spelling. by destruct (Hm v (list_elem_of_here _ _)) as [->| ->]. }
  pose proof (sorted_values_middle [] l v Hs) as Hsm. apply StronglySorted_inv in Hs as [Hs Hv].
  assert (∀ v', v' ∈ l → fold_name (kv_name v) ≠ fold_name (kv_name v')) as Hne.
  { intros v' Hin E. apply list.Forall_forall with (x := kv_name v') in Hv; [|by apply list_elem_of_fmap; exists v']. unfold before in Hv. rewrite E in Hv. by apply lex_irrefl in Hv. }
  rewrite IH; [|done|].
  - change (map_of (v :: l)) with (<[fold_name (kv_name v) := entry v]> (map_of l)). rewrite <- insert_union_l. symmetry. apply insert_union_r.
    destruct (map_of l !! fold_name (kv_name v)) eqn:E; [|done]. exfalso. revert E. clear -Hne. induction l as [|v' l IH]; [done|]. simpl.
    rewrite lookup_insert_ne by (intros E; apply (Hne v'); [by left|done]). apply IH. intros v'' Hin. apply Hne. by right.
  - intros v' Hin. rewrite lookup_insert_ne by by apply Hne. apply Hm. by right.
Qed.

(** ** Views, pointwise *)

Lemma put_item_eq V es it es' : fold_path es' = fold_path es → put_item V es it es' = Some it.
Proof. intros E. unfold put_item. by rewrite decide_True. Qed.
Lemma put_item_ne V es it es' : fold_path es' ≠ fold_path es → put_item V es it es' = V es'.
Proof. intros E. unfold put_item. by rewrite decide_False. Qed.
(** A view that looks at names up to case. *)
Definition folded V : Prop := ∀ es es', fold_path es = fold_path es' → V es = V es'.
Lemma folded_put V es it : folded V → folded (put_item V es it).
Proof. intros HV es1 es2 E. unfold put_item. rewrite E. case_decide; [done|]. by apply HV. Qed.
Lemma folded_update V es f : folded V → folded (update_item V es f).
Proof. intros HV. unfold update_item. destruct (V es); [by apply folded_put|done]. Qed.
Lemma update_item_spec V es f es' : folded V → update_item V es f es' = if decide (fold_path es' = fold_path es) then f <$> V es' else V es'.
Proof.
  intros HV. unfold update_item. destruct (V es) as [it|] eqn:E.
  - unfold put_item. case_decide as Ef; [|done]. by rewrite (HV es' es Ef), E.
  - case_decide as Ef; [|done]. by rewrite (HV es' es Ef), E.
Qed.
Lemma load_values_spec l : ∀ V es es', folded V → folded (load_values V es l) ∧
  load_values V es l es' = if decide (fold_path es' = fold_path es) then (λ it, Item (it_name it) (it_class it) (it_flags it) (foldl add_to_map (it_values it) l)) <$> V es' else V es'.
Proof.
  induction l as [|v l IH]; intros V es es' HV; cbn [load_values foldl].
  - split; [done|]. case_decide; [|done]. destruct (V es') as [[]|]; done.
  - destruct (IH (update_item V es (add_value v)) es es') as [H1 H2]; [by apply folded_update|]. split; [exact H1|]. unfold load_values in H2. rewrite H2.
    rewrite update_item_spec by done. case_decide; [|done]. by destruct (V es').
Qed.
Lemma load_class_spec class V es es' : folded V → folded (load_class V es class) ∧
  load_class V es class es' = if decide (fold_path es' = fold_path es) then (λ it, if bool_decide (class = []) then it else set_class (class ++ [0]) it) <$> V es' else V es'.
Proof.
  intros HV. unfold load_class. case_bool_decide.
  - split; [done|]. case_decide; [|done]. by destruct (V es').
  - split; [by apply folded_update|]. by rewrite update_item_spec.
Qed.
Lemma folded_ensure es : ∀ V pre, folded V → folded (ensure V pre es).
Proof. induction es as [|e es IH]; intros V pre HV; [done|]. cbn [ensure]. apply IH. destruct (V (pre ++ [e])); [done|]. by apply folded_put. Qed.
Lemma ensure_keeps es : ∀ V pre es' it, folded V → V es' = Some it → ensure V pre es es' = Some it.
Proof.
  induction es as [|e es IH]; intros V pre es' it HV Hit; [done|]. cbn [ensure]. destruct (V (pre ++ [e])) eqn:E; [by apply IH|].
  apply IH; [by apply folded_put|]. rewrite put_item_ne; [done|]. intros Ef. rewrite (HV _ _ Ef) in Hit. congruence.
Qed.
Lemma ensure_some es : ∀ V pre es' it, folded V → ensure V pre es es' = Some it →
  V es' = Some it ∨ V es' = None ∧ ∃ es1 e, (es1 ++ [e]) `prefix_of` es ∧ fold_path es' = fold_path (pre ++ es1 ++ [e]) ∧ it = Item (Some e) [] 0 ∅.
Proof.
  induction es as [|e es IH]; intros V pre es' it HV Hit; [by left|]. cbn [ensure] in Hit.
  assert (folded (match V (pre ++ [e]) with Some _ => V | None => put_item V (pre ++ [e]) (Item (Some e) [] 0 ∅) end)) as HV' by (destruct (V (pre ++ [e])); [done|by apply folded_put]).
  destruct (IH _ _ _ _ HV' Hit) as [H1|(H1 & es1 & e1 & Hpre & Hf & ->)].
  - destruct (V (pre ++ [e])) eqn:E; [by left|]. unfold put_item in H1. case_decide as Ef; [|by left]. injection H1 as <-. right.
    split; [by rewrite (HV _ _ Ef)|]. exists [], e. split_and!; [by exists es|done|done].
  - right. rewrite <- app_assoc in Hf. cbn [app] in Hf. split.
    + destruct (V (pre ++ [e])) eqn:E; [done|]. unfold put_item in H1. by case_decide.
    + exists (e :: es1), e1. split_and!; [by apply prefix_cons|done|done].
Qed.
Lemma ensure_exists es : ∀ V pre es1, folded V → es1 `prefix_of` es → es1 ≠ [] → is_Some (ensure V pre es (pre ++ es1)).
Proof.
  induction es as [|e es IH]; intros V pre es1 HV Hpre Hne; [by apply prefix_nil_inv in Hpre|]. destruct es1 as [|e1 es1]; [done|].
  pose proof (prefix_cons_inv_1 _ _ _ _ Hpre) as ->. apply prefix_cons_inv_2 in Hpre. cbn [ensure].
  set (V' := match V (pre ++ [e]) with Some _ => V | None => _ end).
  assert (folded V') as HV' by (unfold V'; destruct (V (pre ++ [e])); [done|by apply folded_put]).
  destruct (decide (es1 = [])) as [->|Hne1].
  - assert (is_Some (V' (pre ++ [e]))) as [it Hit]; [|exists it; by apply ensure_keeps].
    unfold V'. destruct (V (pre ++ [e])) eqn:E; [by rewrite E|]. rewrite put_item_eq by done. eauto.
  - pose proof (IH V' (pre ++ [e]) es1 HV' Hpre Hne1) as Hs. by rewrite <- app_assoc in Hs.
Qed.

(** ** The view after some sections *)

Record holds (name0 : option (list Z)) (flags0 : Z) D V : Prop := {
  ho_folded : folded V;
  ho_some : ∀ es it, es ≠ [] → V es = Some it → ∃ sec pre e, sec ∈ D ∧ (pre ++ [e]) `prefix_of` fst sec ∧ fold_path es = fold_path (pre ++ [e]) ∧
    it_name it = Some e ∧ it_flags it = 0;
  ho_exists : ∀ sec pre, sec ∈ D → pre `prefix_of` fst sec → is_Some (V pre);
  ho_data : ∀ sec it, sec ∈ D → V (fst sec) = Some it → it_class it = loaded_class (k_class (snd sec)) ∧ it_values it = value_map (snd sec);
  ho_empty : ∀ es it, V es = Some it → Forall (λ sec, fold_path es ≠ fold_path (fst sec)) D → it_class it = [] ∧ it_values it = ∅;
  ho_base : ∃ it, V [] = Some it ∧ it_name it = name0 ∧ it_flags it = flags0 }.

Lemma load_section_spec V sec es' : folded V → folded (load_section V sec) ∧
  load_section V sec es' = if decide (fold_path es' = fold_path (fst sec)) then
    (λ it, Item (it_name it) (if bool_decide (k_class (snd sec) = []) then it_class it else k_class (snd sec) ++ [0]) (it_flags it)
       (foldl add_to_map (it_values it) (used (snd sec)))) <$> ensure V [] (fst sec) es'
    else ensure V [] (fst sec) es'.
Proof.
  intros HV. unfold load_section. set (V1 := ensure _ _ _). assert (folded V1) as HV1 by by apply folded_ensure.
  destruct (load_class_spec (k_class (snd sec)) V1 (fst sec) es' HV1) as [HV2 E2]. set (V2 := load_class _ _ _) in *.
  destruct (load_values_spec (used (snd sec)) V2 (fst sec) es' HV2) as [HV3 E3]. split; [done|]. rewrite E3, E2.
  case_decide; [|done]. destruct (V1 es') as [it|]; [|done]. simpl. f_equal. by case_bool_decide.
Qed.
Lemma holds_section name0 flags0 D V sec : holds name0 flags0 D V → values_ok (snd sec) →
  (∀ sec', sec' ∈ D → fold_path (fst sec') = fold_path (fst sec) → snd sec' = snd sec) → holds name0 flags0 (D ++ [sec]) (load_section V sec).
Proof.
  intros [H1 H2 H3 H4 H5 H6] Hv Hcons. pose proof (λ es', load_section_spec V sec es' H1) as Hspec. set (V1 := ensure V [] (fst sec)) in *.
  assert (∀ es it, V1 es = Some it → V es = Some it ∨ V es = None ∧ ∃ pre e, (pre ++ [e]) `prefix_of` fst sec ∧ fold_path es = fold_path (pre ++ [e]) ∧ it = Item (Some e) [] 0 ∅) as Hnew
    by (intros es it; by apply ensure_some).
  assert (∀ es it, load_section V sec es = Some it → ∃ it1, V1 es = Some it1 ∧ it_name it = it_name it1 ∧ it_flags it = it_flags it1) as Hold.
  { intros es it. rewrite (proj2 (Hspec es)). case_decide; [|eauto]. destruct (V1 es) as [it1|]; [|done]. intros [= <-]. eauto. }
  (* the data of the section's own key *)
  assert (∀ it, load_section V sec (fst sec) = Some it → it_class it = loaded_class (k_class (snd sec)) ∧ it_values it = value_map (snd sec)) as Hown.
  { intros it. rewrite (proj2 (Hspec (fst sec))), decide_True by done. destruct (V1 (fst sec)) as [it1|] eqn:E; [|done]. intros [= <-]. simpl.
    assert (it_class it1 = [] ∧ it_values it1 = ∅ ∨ it_class it1 = loaded_class (k_class (snd sec)) ∧ it_values it1 = value_map (snd sec)) as Hit1.
    { destruct (Hnew _ _ E) as [E1|(_ & pre & e & _ & _ & ->)]; [|by left].
      destruct (decide (Exists (λ sec', fold_path (fst sec') = fold_path (fst sec)) D)) as [Hex|Hno].
      - right. apply list.Exists_exists in Hex as (sec' & Hin & Ef). rewrite <- (Hcons sec' Hin Ef). apply (H4 sec' it1 Hin). by rewrite (H1 _ _ Ef).
      - left. apply (H5 (fst sec) it1 E1). apply list.Forall_forall. intros sec' Hin Ef. apply Hno, list.Exists_exists. by exists sec'. }
    split.
    - unfold loaded_class in *. case_bool_decide as Ec; [|done]. by destruct Hit1 as [[? _]|[? _]].
    - rewrite add_to_map_all.
      + fold (value_map (snd sec)). destruct Hit1 as [[_ ->]|[_ ->]]; [by rewrite map_union_empty|by rewrite map_union_idemp].
      + apply Hv.
      + intros v Hin. destruct Hit1 as [[_ ->]|[_ ->]]; [by left|right]. apply map_of_entry; [apply Hv|done]. }
  split.
  - apply (Hspec []).
  - intros es it Hne Hit. destruct (Hold _ _ Hit) as (it1 & E & -> & ->). destruct (Hnew _ _ E) as [E1|(_ & pre & e & Hpre & Hf & ->)].
    + destruct (H2 es it1 Hne E1) as (sec' & pre & e & Hin & Hrest). exists sec', pre, e. split; [apply elem_of_app; by left|done].
    + exists sec, pre, e. split; [apply elem_of_app; right; by apply list_elem_of_singleton|]. by split_and!.
  - intros sec' pre Hin Hpre. rewrite (proj2 (Hspec pre)). assert (is_Some (V1 pre)) as [it ->]; [|case_decide; eauto].
    destruct (decide (pre = [])) as [->|Hne]; [destruct H6 as (it & Hit & _); exists it; by apply ensure_keeps|].
    apply elem_of_app in Hin as [Hin|Hin%list_elem_of_singleton].
    + destruct (H3 sec' pre Hin Hpre) as [it Hit]. exists it. by apply ensure_keeps.
    + subst sec'. by apply (ensure_exists (fst sec) V [] pre).
  - intros sec' it Hin Hit. apply elem_of_app in Hin as [Hin|Hin%list_elem_of_singleton]; [|subst sec'; by apply Hown].
    destruct (decide (fold_path (fst sec') = fold_path (fst sec))) as [Ef|Ef].
    + rewrite (Hcons sec' Hin Ef). apply Hown. by rewrite <- (proj1 (Hspec []) _ _ Ef).
    + rewrite (proj2 (Hspec (fst sec'))), decide_False in Hit by done. destruct (H3 sec' (fst sec') Hin) as [it' Hit']; [reflexivity|].
      apply (H4 sec' it Hin). rewrite Hit'. rewrite <- Hit. symmetry. by apply ensure_keeps.
  - intros es it Hit [Hall [Hsec _]%list.Forall_cons]%list.Forall_app. rewrite (proj2 (Hspec es)), decide_False in Hit by done.
    destruct (Hnew _ _ Hit) as [E1|(_ & pre & e & _ & _ & ->)]; [by apply (H5 es)|by simpl].
  - destruct H6 as (it & Hit & Hn & Hf). assert (V1 [] = Some it) as E by by apply ensure_keeps. rewrite (proj2 (Hspec [])), E. case_decide; eauto.
Qed.
Lemma holds_sections name0 flags0 L : ∀ D V, holds name0 flags0 D V → Forall (λ sec, values_ok (snd sec)) L →
  (∀ sec sec', sec ∈ D ++ L → sec' ∈ D ++ L → fold_path (fst sec') = fold_path (fst sec) → snd sec' = snd sec) → holds name0 flags0 (D ++ L) (foldl load_section V L).
Proof.
  induction L as [|sec L IH]; intros D V HV Hv Hcons; [by rewrite app_nil_r|]. apply list.Forall_cons in Hv as [Hv HL].
  cbn [foldl]. rewrite (app_assoc D [sec] L : D ++ sec :: L = (D ++ [sec]) ++ L). apply IH; [|done|].
  - apply holds_section; [done|done|]. intros sec' Hin Ef. apply (Hcons sec sec'); [apply elem_of_app; right; by left|apply elem_of_app; by left|done].
  - intros s1 s2. rewrite <- app_assoc. apply Hcons.
Qed.
End sections.

(** ** The keys that have a section *)

(** A key with data of its own, or with nothing below it. *)
Definition own_entry `{CaseMap} (T : gmap Z node) (c : Z) : bool :=
  match T !! c with
  | Some nd => negb (bool_decide (nd_values nd = ∅)) || negb (bool_decide (nd_class nd = [])) || negb (has_children T c)
  | None => false
  end.
(** No key on the path is volatile. *)
Definition kept_path `{CaseMap} (T : gmap Z node) (p : Z) (es : list (list Z)) : Prop :=
  ∀ pre, pre `prefix_of` es → ∃ c, walk T p pre = Reached c ∧ node_flag T c KEY_VOLATILE = false.
(** A key that is on the path of an entry. *)
Definition saved_path `{CaseMap} (T : gmap Z node) (p : Z) (es : list (list Z)) : Prop :=
  ∃ more c, kept_path T p (es ++ more) ∧ walk T p (es ++ more) = Reached c ∧ own_entry T c = true.

Section source.
Context `{CaseMap} (root : Z) (r : registry) (ext : Z → Z) (Hr : tree_ok root r ext) (Hlinks : no_links r).
Context (Hstore : map_Forall (λ _ k, storable_key k) (r_keys r)).
Context (base : Z) (kb : key) (Hbase : r_keys r !! base = Some kb) (Hnamed : is_Some (k_name kb)).
Implicit Types (p q c : Z) (k : key) (es pre : list (list Z)).
#[local] Notation keys := (r_keys r).
#[local] Notation T := (abs r).

Inductive kept : Z → list (list Z) → Prop :=
| kept_base : has_flag kb KEY_VOLATILE = false → kept base []
| kept_sub q es c k n : kept q es → keys !! c = Some k → k_parent k = Some q → k_name k = Some n → has_flag k KEY_VOLATILE = false → kept c (es ++ [n]).
Lemma kept_key c es : kept c es → ∃ k, keys !! c = Some k ∧ is_Some (k_name k) ∧ has_flag k KEY_VOLATILE = false ∧ ∀ pre e, es = pre ++ [e] → k_name k = Some e.
Proof.
  destruct 1 as [Hv|q es c k n _ Hc _ Hn Hv]; [exists kb; split_and!; try done; by intros [] ? ?|]. exists k. split_and!; [done|by eexists|done|].
  by intros pre e [_ ->]%app_inj_tail.
Qed.
Lemma kept_below l c es : chain keys (Some base) l → kept c es → ∃ lc, below r base l c es lc.
Proof. intros Hl. induction 1 as [|q es c k n _ [lq Hq] Hc Hp Hn _]; [eexists; constructor|]. eexists. by eapply below_sub. Qed.
Lemma kept_good c es : kept c es → Forall good_name es.
Proof.
  intros Hk. destruct (to_rooted _ _ _ Hr base kb Hbase Hnamed) as [l Hl]. destruct (kept_below l c es Hl Hk) as [lc Hb].
  by destruct (below_chain root r ext Hr Hstore _ _ _ _ _ Hl Hb) as (_ & _ & ?).
Qed.
Lemma kept_walk c es : kept c es → walk T base es = Reached c.
Proof.
  intros Hk. pose proof (kept_good _ _ Hk) as Hgood. induction Hk as [|q es c k n Hq IH Hc Hp Hn _]; [done|]. apply list.Forall_app in Hgood as [Hg Hn'].
  apply walk_snoc. exists q. split; [by apply IH|]. apply list.Forall_cons in Hn' as [(_ & _ & _ & Hlen & _) _]. split; [done|].
  apply child_some; [by eapply tree_unique|]. apply is_child_links. exists n. split; [|done]. by exists k.
Qed.
Lemma kept_prefix c es pre : kept c es → pre `prefix_of` es → ∃ c', kept c' pre.
Proof.
  intros Hk. revert pre. induction Hk as [Hv|q es c k n Hq IH Hc Hp Hn Hv]; intros pre Hpre.
  - apply prefix_nil_inv in Hpre as ->. exists base. by constructor.
  - destruct Hpre as [more E]. destruct more as [|e more _] using rev_ind; [rewrite app_nil_r in E; subst pre; exists c; by eapply kept_sub|].
    rewrite app_assoc in E. apply app_inj_tail in E as [-> _]. apply IH. by exists more.
Qed.
Lemma kept_kept_path c es : kept c es → kept_path T base es.
Proof.
  intros Hk pre Hpre. destruct (kept_prefix _ _ _ Hk Hpre) as [c' Hc']. exists c'. split; [by apply kept_walk|].
  destruct (kept_key _ _ Hc') as (k & Hck & _ & Hv & _). by rewrite (node_flag_key r c' k).
Qed.
Lemma kept_path_kept es : kept_path T base es → ∃ c es', kept c es' ∧ fold_path es' = fold_path es ∧ walk T base es = Reached c.
Proof.
  pose proof (tree_unique _ _ _ Hr) as Hu. induction es as [|e es IH] using rev_ind; intros Hk.
  - destruct (Hk [] (reflexivity _)) as (c & [= <-] & Hv). rewrite (node_flag_key r base kb) in Hv by done. exists base, []. split_and!; [by constructor|done|done].
  - destruct IH as (q & es' & Hq & Ef & Hw); [intros pre Hpre; apply Hk; by apply prefix_app_r|].
    destruct (Hk (es ++ [e]) (reflexivity _)) as (c & Hc & Hv). pose proof Hc as (x & Hx & _ & Hch)%walk_snoc. assert (x = q) as -> by congruence.
    destruct (child_name _ _ _ _ Hu Hch) as (k & n & Hkc & Hp & Hn & En). rewrite (node_flag_key r c k) in Hv by done.
    exists c, (es' ++ [n]). split_and!; [by eapply kept_sub| |done]. unfold fold_path in *. rewrite !fmap_app. simpl. congruence.
Qed.
Lemma kept_same c c' es es' : kept c es → kept c' es' → fold_path es' = fold_path es → c' = c.
Proof.
  intros Hk Hk' Ef. apply kept_walk in Hk. apply kept_walk in Hk'. apply (walk_fold T es' es base c') in Hk'; [congruence|by eapply tree_unique|done].
Qed.

Lemma sections_in fuel : ∀ p es0 kp es k, keys !! p = Some kp → (has_flag kp KEY_VOLATILE = false → kept p es0) → (es, k) ∈ sections r fuel p es0 →
  ∃ c, kept c es ∧ keys !! c = Some k ∧ has_entry k = true.
Proof.
  induction fuel as [|fuel IH]; intros p es0 kp es k Hp Hkp; cbn [sections]; rewrite Hp; destruct (has_flag kp KEY_VOLATILE); try by intros ?%elem_of_nil.
  all: intros [Hin|Hin]%elem_of_app; [destruct (has_entry kp) eqn:E; [|by apply elem_of_nil in Hin]; apply list_elem_of_singleton in Hin as [= -> ->]; exists p; by split_and!; [apply Hkp|..]|].
  - by apply elem_of_nil in Hin.
  - apply list_elem_of_In, in_flat_map in Hin as (c & Hc%list_elem_of_In & Hin%list_elem_of_In).
    destruct (ko_subs _ _ _ _ _ (to_keys _ _ _ Hr p kp Hp)) as (names & Hall & _). apply list_elem_of_lookup in Hc as [i Hi].
    destruct (Forall2_lookup_l _ _ _ _ _ Hall Hi) as (n & _ & kc & Hkc & Hpc & Hn). eapply (IH c); [exact Hkc| |exact Hin].
    unfold subkey_name. rewrite Hkc. simpl. rewrite Hn. intros Hv. by eapply kept_sub; [apply Hkp|..].
Qed.
Lemma sections_all l c es : chain keys (Some base) l → kept c es → ∃ fuel lc, below r base l c es lc ∧ (size keys ≤ fuel + length lc)%nat ∧
  ∀ sec, sec ∈ sections r fuel c es → sec ∈ sections r (size keys) base [].
Proof.
  intros Hl. induction 1 as [Hv|q es c k n Hq (fuel & lq & Hbq & Hsize & Hsub) Hc Hp Hn Hv].
  - exists (size keys), l. split_and!; [constructor|lia|done].
  - assert (below r base l c (es ++ [n]) (c :: lq)) as Hbc by by eapply below_sub.
    destruct (below_chain root r ext Hr Hstore _ _ _ _ _ Hl Hbc) as (Hcc%chain_length & _). simpl in Hcc. destruct fuel as [|fuel]; [lia|].
    exists fuel, (c :: lq). split_and!; [done|simpl; lia|]. intros sec Hin. apply Hsub. destruct (kept_key _ _ Hq) as (kq & Hkq & _ & Hvq & _).
    destruct (ko_parent _ _ _ _ _ (to_keys _ _ _ Hr c k Hc) q Hp) as (kq' & Hkq' & Hcq). assert (kq' = kq) as -> by congruence.
    cbn [sections]. rewrite Hkq, Hvq. apply elem_of_app. right. apply list_elem_of_In, in_flat_map. exists c. split; [by apply list_elem_of_In|]. apply list_elem_of_In.
    assert (subkey_name r c = n) as -> by (unfold subkey_name; rewrite Hc; simpl; by rewrite Hn). done.
Qed.
Lemma kept_section c es k : kept c es → keys !! c = Some k → has_entry k = true → (es, k) ∈ sections r (size keys) base [].
Proof.
  intros Hk Hc He. destruct (to_rooted _ _ _ Hr base kb Hbase Hnamed) as [l Hl]. destruct (sections_all l c es Hl Hk) as (fuel & lc & _ & _ & Hsub). apply Hsub.
  destruct (kept_key _ _ Hk) as (k' & Hk' & _ & Hv & _). assert (k' = k) as -> by congruence.
  destruct fuel; cbn [sections]; rewrite Hc, Hv, He; by left.
Qed.
Lemma section_kept es k : (es, k) ∈ sections r (size keys) base [] → ∃ c, kept c es ∧ keys !! c = Some k ∧ has_entry k = true.
Proof. apply (sections_in _ base [] kb); [done|]. intros Hv. by constructor. Qed.

Lemma has_entry_own c k : keys !! c = Some k → own_entry T c = has_entry k.
Proof.
  intros Hc. pose proof (to_keys _ _ _ Hr c k Hc) as Hk. unfold own_entry, has_entry. rewrite abs_lookup, Hc. simpl. rewrite (Hlinks c k Hc), orb_false_r.
  rewrite (has_children_subs root r ext c k) by done. pose proof (ao_last _ _ _ _ (ko_array _ _ _ _ _ Hk)) as Hl.
  assert (negb (bool_decide (value_map k = ∅)) = (0 <=? k_last_value k)) as ->.
  { pose proof (used_length k (ko_values _ _ _ _ _ Hk)) as Hu. unfold value_map. destruct (Z.leb_spec 0 (k_last_value k)).
    - rewrite bool_decide_false; [done|]. destruct (used k) as [|v l]; [simpl in Hu; lia|]. simpl. intros E. by apply insert_non_empty in E.
    - rewrite bool_decide_true; [done|]. destruct (used k); [done|simpl in Hu; lia]. }
  assert (negb (0 <=? k_last_subkey k) = (k_last_subkey k =? -1)) as ->.
  { destruct (Z.leb_spec 0 (k_last_subkey k)), (Z.eqb_spec (k_last_subkey k) (-1)); try done; lia. }
  destruct (0 <=? k_last_value k), (k_last_subkey k =? -1), (bool_decide (k_class k = [])); done.
Qed.
Lemma no_entry_empty c k : keys !! c = Some k → has_entry k = false → k_class k = [] ∧ value_map k = ∅.
Proof.
  intros Hc. rewrite <- (has_entry_own c k Hc). unfold own_entry. rewrite abs_lookup, Hc. simpl.
  rewrite !orb_false_iff, !negb_false_iff, !bool_decide_eq_true. by intros [[-> ->] _].
Qed.

(** ** The view of the file *)

Definition loaded_item (it : item) : item := Item (it_name it) (loaded_class (it_class it)) 0 (it_values it).
Lemma fold_path_prefix es es' pre : fold_path es = fold_path es' → pre `prefix_of` es → ∃ pre', pre' `prefix_of` es' ∧ fold_path pre = fold_path pre'.
Proof.
  intros E [more ->]. exists (take (length pre) es'). split; [apply prefix_take|]. unfold fold_path in *. rewrite fmap_take, <- E, fmap_app, take_app_length'; [done|].
  by rewrite length_fmap.
Qed.
Lemma kept_path_fold es es' : fold_path es = fold_path es' → kept_path T base es → kept_path T base es'.
Proof.
  intros E Hk pre Hpre. destruct (fold_path_prefix es' es pre) as (pre' & Hpre' & Ef); [done|done|]. destruct (Hk pre' Hpre') as (c & Hw & Hv).
  exists c. split; [|done]. eapply walk_fold; [by eapply tree_unique|by symmetry|done].
Qed.
Lemma view_kept c es es' k : kept c es' → fold_path es' = fold_path es → keys !! c = Some k → view T base es = Some (item_of (abs_key k)).
Proof.
  intros Hk E Hc. rewrite <- (view_fold T base es' es); [|by eapply tree_unique|done]. unfold view. by rewrite (kept_walk _ _ Hk), abs_lookup, Hc.
Qed.
Lemma sections_good : Forall section_ok (sections r (size keys) base []).
Proof.
  apply list.Forall_forall. intros [es k] (c & Hk & Hc & _)%section_kept. split_and!; [by eapply kept_good|by eapply Hstore|by apply (to_keys _ _ _ Hr c k Hc)].
Qed.

Context (name0 : option (list Z)) (flags0 : Z) (V0 V : paths).
Context (Hempty : holds name0 flags0 [] V0) (HV : V = foldl load_section V0 (sections r (size keys) base [])).
Lemma sections_hold : holds name0 flags0 (sections r (size keys) base []) V.
Proof.
  rewrite HV. apply (holds_sections name0 flags0 _ [] V0 Hempty).
  - apply (list.Forall_impl _ _ _ sections_good). intros sec (_ & _ & Hv). exact Hv.
  - intros [es k] [es' k'] (c & Hk & Hc & _)%section_kept (c' & Hk' & Hc' & _)%section_kept Ef. pose proof (kept_same _ _ _ _ Hk Hk' Ef). simpl in *. congruence.
Qed.
Lemma loaded_data c es es' k it : kept c es' → fold_path es' = fold_path es → keys !! c = Some k → V es = Some it →
  it_class it = loaded_class (k_class k) ∧ it_values it = value_map k.
Proof.
  intros Hk Ef Hc Hit. pose proof sections_hold as [H1 _ _ H4 H5 _].
  destruct (decide (Exists (λ sec, fold_path (fst sec) = fold_path es) (sections r (size keys) base []))) as [Hex|Hno].
  - apply list.Exists_exists in Hex as ([es1 k1] & Hin & E1). pose proof Hin as (c1 & Hk1 & Hc1 & _)%section_kept. simpl in E1.
    assert (c1 = c) as -> by (eapply kept_same; [exact Hk|exact Hk1|congruence]). assert (k1 = k) as -> by congruence.
    apply (H4 _ it Hin). simpl. by rewrite (H1 _ _ E1).
  - destruct (H5 es it Hit) as [E1 E2]; [apply list.Forall_forall; intros sec Hin E; apply Hno, list.Exists_exists; exists sec; by split|].
    destruct (has_entry k) eqn:He.
    + destruct Hno. apply list.Exists_exists. exists (es', k). split; [by eapply kept_section|done].
    + destruct (no_entry_empty c k Hc He) as [-> ->]. by rewrite E1, E2.
Qed.
Lemma loaded_saved es : es ≠ [] → saved_path T base es → ∃ it, view T base es = Some it ∧ V es = Some (loaded_item it).
Proof.
  intros Hne (more & d & Hkp & Hw & Hown). pose proof sections_hold as [H1 H2 H3 _ _ _].
  destruct (kept_path_kept _ Hkp) as (d' & es2 & Hk2 & Ef2 & Hw2). assert (d' = d) as -> by congruence. destruct (kept_key _ _ Hk2) as (kd & Hkd & _).
  rewrite (has_entry_own d kd) in Hown by done. pose proof (kept_section _ _ _ Hk2 Hkd Hown) as Hin.
  destruct (kept_path_kept es) as (c & es' & Hk & Ef & _); [intros pre Hpre; apply Hkp; by apply prefix_app_r|]. destruct (kept_key _ _ Hk) as (k & Hc & _).
  exists (item_of (abs_key k)). split; [by eapply view_kept|].
  destruct (fold_path_prefix (es ++ more) es2 es) as (pre & Hpre & Ep); [done|by exists more|].
  destruct (H3 _ pre Hin Hpre) as [it Hit]. rewrite (H1 es pre Ep). rewrite Hit. pose proof (loaded_data c pre es' k it Hk ltac:(congruence) Hc Hit) as [E1 E2].
  destruct (H2 pre it) as (sec & pre' & e & Hs & Hps & Epe & En & Efl); [|done|].
  { intros ->. destruct es; done. }
  destruct sec as [es3 k3]. apply section_kept in Hs as (c3 & Hk3 & _). destruct (kept_prefix _ _ _ Hk3 Hps) as [c4 Hk4].
  assert (c4 = c) as -> by (eapply kept_same; [exact Hk|exact Hk4|congruence]). destruct (kept_key _ _ Hk4) as (k4 & Hc4 & _ & _ & Hname).
  assert (k4 = k) as -> by congruence. pose proof (Hname pre' e eq_refl) as Hn. destruct it as [n cl fl vs]. simpl in *. unfold loaded_item. simpl. congruence.
Qed.
Lemma loaded_only_saved es it : es ≠ [] → V es = Some it → saved_path T base es.
Proof.
  intros Hne Hit. pose proof sections_hold as [_ H2 _ _ _ _]. destruct (H2 es it Hne Hit) as ([es1 k1] & pre & e & Hin & [more E] & Ef & _). simpl in E.
  apply section_kept in Hin as (c & Hk & Hc & He). exists more, c.
  assert (fold_path es1 = fold_path (es ++ more)) as Ef1 by (rewrite E; unfold fold_path in *; rewrite !(fmap_app _ _ more); congruence).
  split_and!; [eapply kept_path_fold; [exact Ef1|by eapply kept_kept_path]| |by rewrite (has_entry_own c k1)].
  eapply walk_fold; [by eapply tree_unique|exact Ef1|by apply kept_walk].
Qed.
Lemma loaded_base : has_flag kb KEY_VOLATILE = false → V [] = Some (Item name0 (loaded_class (k_class kb)) flags0 (value_map kb)).
Proof.
  intros Hv. pose proof sections_hold as [_ _ _ _ _ (it & Hit & En & Ef)]. rewrite Hit.
  destruct (loaded_data base [] [] kb it) as [<- <-]; [by constructor|done|done|done|]. rewrite <- En, <- Ef. by destruct it.
Qed.
End source.

(** * Loading the file *)

Section round_trip.
Context `{CaseMap} (root : Z) (lookup_other : list Z → Z).
Implicit Types (q c : Z) (k : key) (r : registry) (ext : Z → Z) (V : paths) (s : load_state) (g : load_progress).

Lemma wp_with_file {A} (m : L A) file Q r : wp (with_file m file) Q r ↔ wp m (λ a s, Q a (ls_registry s)) (LoadState r file [] 4 4).
Proof. unfold wp, with_file. by destruct (m _). Qed.

(** The prefix of the server after a file with this prefix. *)
Definition new_prefix (prefix prefix' : prefix_type) : prefix_type := match prefix with PREFIX_UNKNOWN => prefix' | _ => prefix end.
Definition prefix_fits (prefix prefix' : prefix_type) : Prop := prefix = PREFIX_UNKNOWN ∨ prefix' = PREFIX_UNKNOWN ∨ prefix' = prefix.
Lemma arch_option type tag s g q : lp_subkey g = None → (type = PREFIX_32BIT ∧ tag = win32 ∨ type = PREFIX_64BIT ∧ tag = win64) → prefix_fits type (lp_prefix g) →
  wp (load_line root lookup_other q (arch_tag ++ tag) g) (λ res s', res = (LoadProgress None (lp_modif g) (lp_prefix_len g) type, true) ∧ s' = s) s.
Proof.
  intros Hg Ht Hfit. unfold load_line. change (skip_spaces (arch_tag ++ tag)) with (arch_tag ++ tag). change (char_at (arch_tag ++ tag)) with 35.
  change (35 =? 91) with false. change ((35 =? 64) || (35 =? 34)) with false. change (35 =? 35) with true. cbv iota. rewrite Hg, wp_bind.
  apply (wp_mono _ (λ o s', o = Some type ∧ s' = s)); [|intros o s' [-> ->]; by rewrite wp_ret].
  unfold prefix_fits in Hfit. destruct Ht as [[-> ->]|[-> ->]], (lp_prefix g); try (exfalso; by destruct Hfit as [?|[?|?]]); by vm_compute.
Qed.
Lemma continue_arch Q q prefix rest s ext V g : loading root s ext q None V (arch_line prefix ++ rest) g → prefix_fits prefix (lp_prefix g) →
  (∀ s' g', lp_prefix g' = new_prefix prefix (lp_prefix g) → loading root s' ext q None V rest g' → continues root lookup_other Q q g' s') → continues root lookup_other Q q g s.
Proof.
  intros Hs Hfit HQ. destruct (decide (prefix = PREFIX_UNKNOWN)) as [->|Hp]; [by apply HQ|].
  assert (∃ tag, (prefix = PREFIX_32BIT ∧ tag = win32 ∨ prefix = PREFIX_64BIT ∧ tag = win64) ∧ arch_line prefix ++ rest = [] ++ 10 :: (arch_tag ++ tag) ++ 10 :: rest) as (tag & Htag & E).
  { destruct prefix; [done|exists win32|exists win64]; (split; [auto|done]). }
  rewrite E in Hs. eapply continue_skip; [exact Hs|apply not_elem_of_nil|done|rewrite !not_elem_of_cons; split_and!; try done; apply not_elem_of_nil|].
  clear Hs s. intros s Hs. pose proof (ld_key _ _ _ _ _ _ _ _ Hs) as Hg.
  assert (printable (arch_tag ++ tag)) as [Hpl H13]%printable_plain by (destruct Htag as [[_ ->]|[_ ->]]; repeat constructor; lia).
  eapply continue_line; [exact Hs|exact Hpl|exact H13|]. intros s1 Hs1 _. eapply wp_mono; [by eapply arch_option|].
  intros res s2 [-> ->]. split; [done|]. split; [rewrite (ld_file _ _ _ _ _ _ _ _ Hs), (ld_file _ _ _ _ _ _ _ _ Hs1); apply line_shorter|].
  apply HQ; [by destruct prefix|]. destruct Hs1. by split.
Qed.
Lemma load_keys_spec r ext q V l t prefix prefix' file : seen root r ext q V → wide ext → lasting V → Forall section_ok l → printable t → prefix_fits prefix prefix' →
  file = file_magic ++ [10] ++ (relative_to ++ t) ++ [10] ++ arch_line prefix ++ flat_map section_text l →
  wp (load_keys root lookup_other q file 0 prefix') (λ pt r', pt = new_prefix prefix prefix' ∧ seen root r' ext q (foldl load_section V l)) r.
Proof.
  intros Hs Hw Hlast Hok Ht Hfit ->. unfold load_keys. rewrite wp_bind, wp_gets, wp_bind.
  eapply wp_mono; [eapply mem_alloc_ok_true, Hs|]. intros ok r1 (-> & Hu1). cbn [negb]. pose proof (seen_memory _ _ _ _ _ _ Hu1 Hs) as Hs1.
  rewrite wp_bind. eapply wp_mono; [eapply mem_alloc_ok_true, Hs1|]. intros ok r2 (-> & Hu2). cbn [negb]. pose proof (seen_memory _ _ _ _ _ _ Hu2 Hs1) as Hs2.
  rewrite wp_bind, wp_with_file, wp_bind. set (rest := (relative_to ++ t) ++ [10] ++ arch_line prefix ++ flat_map section_text l).
  eapply wp_mono; [apply (read_next_line_spec file_magic rest); [|done|done|apply Hs2|simpl; lia]|].
  { unfold plain, file_magic. rewrite !not_elem_of_cons. split_and!; try done. apply not_elem_of_nil. }
  intros n s3 (-> & Hu3 & E3 & L3). rewrite wp_bind, wp_gets. pose proof (f_equal ls_buffer E3) as EB. pose proof (f_equal ls_file E3) as EF. simpl in EB, EF.
  rewrite EB. change (negb (1 =? 1)) with false. rewrite bool_decide_true by done. cbn [negb orb]. rewrite wp_bind, wp_gets.
  set (g := LoadProgress None (r_now r) 0 prefix'). 
  assert (loading root s3 ext q None V ((relative_to ++ t) ++ 10 :: (arch_line prefix ++ flat_map section_text l)) g) as Hs3.
  { split; [by eapply seen_memory|done|done|simpl in L3; lia|done|done]. }
  assert (continues root lookup_other (λ g' s', wp (_ ← release_subkey g'; mret (lp_prefix g')) (λ pt r', pt = new_prefix prefix prefix' ∧ seen root r' ext q (foldl load_section V l)) (ls_registry s')) q g s3) as Hc.
  2:{ apply Hc. done. }
  assert (printable (relative_to ++ t)) as [Hpl H13]%printable_plain by (apply list.Forall_app; split; [repeat constructor; lia|done]).
  eapply continue_skip; [exact Hs3|exact Hpl|exact H13| |].
  { change (char_at (skip_spaces (relative_to ++ t))) with 59. rewrite !not_elem_of_cons. split_and!; try done. apply not_elem_of_nil. }
  intros s4 Hs4. eapply continue_arch; [exact Hs4|done|]. intros s5 g5 Hpre5 Hs5. eapply continue_sections; [exact Hs5|done|done|done|].
  intros s6 g6 sub Hpre6 [H1 H2 H3 H4 H5 H6]. rewrite wp_bind. eapply wp_mono; [by eapply release_subkey_spec|]. intros [] r7 Hs7. rewrite wp_ret. split; [|done].
  simpl in Hpre5. congruence.
Qed.

(** ** The tree comes back *)

(** A key to load into: it is there, lasts, and is empty. *)
Record empty_key r q k : Prop := {
  em_key : r_keys r !! q = Some k;
  em_named : is_Some (k_name k);
  em_flags : has_flag k KEY_VOLATILE = false;
  em_subs : subs k = [];
  em_class : k_class k = [];
  em_values : value_map k = ∅ }.
Lemma empty_view r ext q k : tree_ok root r ext → empty_key r q k → ∀ es, view (abs r) q es = if decide (es = []) then Some (item_of (abs_key k)) else None.
Proof.
  intros Hr [Hq Hn Hf Hs Hc Hv] es. case_decide as E; [subst es; unfold view; simpl; by rewrite abs_lookup, Hq|].
  apply view_none; [rewrite abs_lookup, Hq; eauto|]. intros c. destruct es as [|e es]; [done|]. rewrite walk_cons. intros (_ & d & Hd & _).
  apply child_some in Hd; [|by eapply tree_unique]. apply is_child_links in Hd as (n & Hl & _). pose proof (subs_child _ _ _ _ _ _ _ Hr Hq Hl) as Hin.
  rewrite Hs in Hin. by apply elem_of_nil in Hin.
Qed.
Lemma empty_seen r hs q k : session_ok root r hs → memory_left r → empty_key r q k →
  let V0 : paths := λ es, if decide (es = []) then Some (item_of (abs_key k)) else None in
  seen root r (ext_of hs) q V0 ∧ lasting V0 ∧ holds (k_name k) (Z.ldiff (k_flags k) KEY_DIRTY) [] V0.
Proof.
  intros [Hr Hl] Hm Hk V0. pose proof Hk as [Hq Hn Hf Hs Hc Hv]. split; [|split].
  - split; [done|done|done|by eapply key_named|]. by eapply empty_view.
  - intros es it. unfold V0. case_decide; [|done]. intros [= <-]. pose proof (node_flag_key r q k KEY_VOLATILE Hq eq_refl) as E.
    unfold node_flag in E. rewrite abs_lookup, Hq in E. simpl in *. congruence.
  - split.
    + intros es es' E. unfold V0. destruct es, es'; done.
    + intros es it Hne. unfold V0. by rewrite decide_False.
    + by intros sec pre ?%elem_of_nil.
    + by intros sec it ?%elem_of_nil.
    + intros es it. unfold V0. case_decide; [|done]. intros [= <-] _. by split.
    + unfold V0. rewrite decide_True by done. eauto.
Qed.
End round_trip.

Section theorem.
Context `{CaseMap} (root : Z) (lookup_other : list Z → Z).

(** C25: a tree of keys that [save_all_subkeys] has written is rebuilt by [load_keys] in an empty key, possibly of another registry. Every path leads to a
    key with the name, the values and the class of the one that was saved (and a zero after the class), and to none if no key on the path or
    below it was saved: one that is not volatile, nor under a volatile one, and has values, a class or no subkeys. The loop over the lines ends, references stay
    counted and arrays sorted.
    This is for a saved registry without symbolic links in which no subkey's name begins with a NUL character (the parser takes such a name for the
    empty path, [zero_name_misplaced]), for names, classes and value data made of 16-bit characters and bytes ([storable_key]), and for a
    load with prefix length 0 in a registry whose allocations succeed. *)
Theorem saved_tree_loads root0 r0 ext0 p k0 prefix r hs q k prefix' :
  tree_ok root0 r0 ext0 → no_links r0 → map_Forall (λ _ k, storable_key k) (r_keys r0) → r_keys r0 !! p = Some k0 → is_Some (k_name k0) →
  has_flag k0 KEY_VOLATILE = false →
  session_ok root r hs → Z.of_nat (length hs) + 16 < INT_MAX → memory_left r → empty_key r q k → prefix_fits prefix prefix' →
  wp (save_all_subkeys (r_keys r0) p prefix) (λ _ d,
    wp (load_keys root lookup_other q (ds_file d) 0 prefix') (λ pt r', pt = new_prefix prefix prefix' ∧ session_ok root r' hs ∧
      view (abs r') q [] = Some (Item (k_name k) (loaded_class (k_class k0)) (Z.ldiff (k_flags k) KEY_DIRTY) (value_map k0)) ∧
      ∀ es, es ≠ [] →
        (saved_path (abs r0) p es → ∃ it, view (abs r0) p es = Some it ∧ view (abs r') q es = Some (loaded_item it)) ∧
        (¬ saved_path (abs r0) p es → view (abs r') q es = None)) r) (DumpState [] []).
Proof.
  intros Hr0 Hl0 Hst Hp Hn Hv0 Hr Hlen Hm Hk Hfit. destruct (empty_seen root r hs q k Hr Hm Hk) as (Hs & Hlast & Hholds). set (V0 := λ es : list (list Z), if decide (es = []) then Some (item_of (abs_key k)) else None) in *.
  eapply wp_mono; [by eapply (save_all_subkeys_ok root0 r0 ext0)|]. intros _ d (t & Ht & Hfile).
  assert (wide (ext_of hs)) as Hw by (intros x; unfold ext_of; pose proof (length_filter (λ h, h = Some x) hs); lia).
  eapply wp_mono; [apply (load_keys_spec root lookup_other r (ext_of hs) q V0 (sections r0 (size (r_keys r0)) p []) t prefix prefix' (ds_file d) Hs Hw Hlast); [|done|done|exact Hfile]|].
  { by eapply (sections_good root0 r0 ext0 Hr0 Hst p k0). }
  intros pt r' (-> & [Hr' Hl' _ _ Hview]). split; [done|]. split; [done|]. split.
  - rewrite Hview. by eapply (loaded_base root0 r0 ext0 Hr0 Hl0 Hst p k0 Hp Hn _ _ V0).
  - intros es Hne. rewrite Hview. split.
    + by eapply (loaded_saved root0 r0 ext0 Hr0 Hl0 Hst p k0 Hp Hn _ _ V0).
    + intros Hno. destruct (foldl load_section V0 (sections r0 (size (r_keys r0)) p []) es) as [it|] eqn:E; [|done]. destruct Hno.
      by eapply (loaded_only_saved root0 r0 ext0 Hr0 Hl0 Hst p k0 Hp Hn _ _ V0 _ Hholds eq_refl).
Qed.
End theorem.
