(* ===== verification/RegRoundTripWitness.v ===== *)
(** * A concrete tree that is saved and loaded *)

From stdpp Require Import sorting.
From S2P Require Import Prelude.
From S2P Require Import Atoms.
From S2P Require Import AtomsInv.
From S2P Require Import AtomsHistory.
From S2P Require Import RegStrings.
From S2P Require Import RegStringsSpec.
From S2P Require Import RegKeys.
From S2P Require Import RegArrays.
From S2P Require Import RegTouch.
From S2P Require Import RegFile.
From S2P Require Import RegNumbers.
From S2P Require Import RegFileSpec.
From S2P Require Import RegTree.
From S2P Require Import RegTreeInv.
From S2P Require Import RegTreeLookup.
From S2P Require Import RegTreeHistory.
From S2P Require Import RegWitness.
From S2P Require Import RegTreeWitness.
From S2P Require Import RegView.
From S2P Require Import RegSave.
From S2P Require Import RegSaveText.
From S2P Require Import RegLoad.
From S2P Require Import RegRoundTrip.

(** "A", which has a class, a value and the subkey "x"; "b", which is volatile; "d" with the
    volatile subkey "v". *)
Definition saved_value : key_value := KeyValue [118] REG_SZ 6 (Some [104; 0; 233; 0; 0; 0]).
Definition saved_root : key := Key 1 (Some [114]) None [] 2 8 ([2; 3; 5] ++ replicate 5 0) None (-1) 0 [] 0 0 [].
Definition saved_a : key := Key 1 (Some [65]) (Some 1) [99] 0 8 (4 :: replicate 7 0) None 0 8 (saved_value :: replicate 7 undefined_value) 0 132000000000000000 [].
Definition saved_b : key := Key 1 (Some [98]) (Some 1) [] (-1) 0 [] None (-1) 0 [] KEY_VOLATILE 0 [].
Definition saved_x : key := Key 1 (Some [120]) (Some 2) [] (-1) 0 [] None (-1) 0 [] 0 0 [].
Definition saved_d : key := Key 1 (Some [100]) (Some 1) [] 0 8 (6 :: replicate 7 0) None (-1) 0 [] 0 0 [].
Definition saved_v : key := Key 1 (Some [118]) (Some 5) [] (-1) 0 [] None (-1) 0 [] KEY_VOLATILE 0 [].
Definition saved_registry : registry :=
  Registry {[1 := saved_root; 2 := saved_a; 3 := saved_b; 4 := saved_x; 5 := saved_d; 6 := saved_v]} 7 [] 77 0 [].

Lemma saved_keys_forall (P : Z → key → Prop) : P 1 saved_root → P 2 saved_a → P 3 saved_b → P 4 saved_x → P 5 saved_d → P 6 saved_v →
  ∀ p k, r_keys saved_registry !! p = Some k → P p k.
Proof.
  intros H1 H2 H3 H4 H5 H6 p k Hk.
  change (r_keys _) with ({[1 := saved_root; 2 := saved_a; 3 := saved_b; 4 := saved_x; 5 := saved_d; 6 := saved_v]} : gmap Z key) in Hk.
  repeat (apply lookup_insert_Some in Hk as [[<- <-]|[_ Hk]]; [done|]). by apply lookup_singleton_Some in Hk as [<- <-].
Qed.
(** A key whose subkeys have these names. *)
Lemma saved_key_ok p k names : k_refcount k = refs 1 (ext_of []) p k → 0 < k_refcount k →
  array_ok (k_last_subkey k) (k_nb_subkeys k) (k_subkeys k) (subs k) →
  Forall2 (links_to (r_keys saved_registry) p) (subs k) names → StronglySorted before names →
  (∀ q, k_parent k = Some q → ∃ kq, r_keys saved_registry !! q = Some kq ∧ p ∈ subs kq) →
  (∃ n, k_name k = Some n ∧ has_flag k KEY_DELETED = false ∧ Z.of_nat (length n) ≤ MAX_NAME_LEN ∧ (k_parent k = None ↔ p = 1) ∧ backslash ∉ n) →
  k_wow6432node k = None → values_ok k → key_ok 1 (r_keys saved_registry) (ext_of []) p k.
Proof.
  intros H1 H2 H3 H4 H5 H6 (n & Hn & H7) H8 H9. split; try done; [by exists names|by rewrite Hn|by rewrite H8].
Qed.
Lemma saved_value_ok : value_ok saved_value ∧ storable saved_value.
Proof. split; [done|]. split_and!; try done; cbn; unfold wchar, byte; repeat constructor; lia. Qed.
Lemma saved_values_ok : values_ok saved_a.
Proof. split; try done; [by right|by repeat constructor|]. constructor; [apply saved_value_ok|constructor]. Qed.
(** Everything in these goals is concrete. *)
Ltac solve_saved :=
  match goal with
  | |- array_ok _ _ ?l ?u => split; [done|done|by exists (drop (length u) l)|first [by left | by right]]
  | |- Forall2 (links_to _ _) _ _ => repeat (constructor; [by eexists|]); constructor
  | |- StronglySorted before ?l => apply (bool_decide_unpack (StronglySorted (λ a b, lex (fold_name a) (fold_name b)) l)); by vm_compute
  | |- ∀ q, Some _ = Some q → _ => intros q [= <-]; eexists; split; [reflexivity|by apply (bool_decide_unpack _)]
  | |- ∃ n, Some _ = Some n ∧ _ => eexists; split_and!; [reflexivity|done|done|done..|by apply (bool_decide_unpack _)]
  | |- values_ok _ => first [apply saved_values_ok | by apply no_values_ok]
  end.
Lemma saved_tree_ok : tree_ok 1 saved_registry (ext_of []).
Proof.
  split.
  - apply saved_keys_forall; [apply (saved_key_ok _ _ [[65]; [98]; [100]])|apply (saved_key_ok _ _ [[120]])|apply (saved_key_ok _ _ [])|apply (saved_key_ok _ _ [])|
      apply (saved_key_ok _ _ [[118]])|apply (saved_key_ok _ _ [])]; cbn [k_parent k_name saved_root saved_a saved_b saved_x saved_d saved_v]; try done; solve_saved.
  - refine (saved_keys_forall (λ p k, is_Some (k_name k) → ∃ l, chain (r_keys saved_registry) (Some p) l) _ _ _ _ _ _); intros _; [exists [1]|exists [2; 1]|exists [3; 1]|exists [4; 2; 1]|exists [5; 1]|exists [6; 5; 1]];
      repeat (split; [done|]; eexists; split; [reflexivity|]; split; [by eexists|]); done.
  - by exists saved_root.
  - intros p [k Hk]. revert p k Hk. by refine (saved_keys_forall (λ p _, p < 7) _ _ _ _ _ _).
  - done.
Qed.

(** The file, and what is loaded of it into the key "k" of another registry. *)
Lemma saved_storable : map_Forall (λ _ k, storable_key k) (r_keys saved_registry).
Proof.
  refine (saved_keys_forall (λ _ k, storable_key k) _ _ _ _ _ _).
  all: split; [intros n [= <-]; split; [unfold wchar; repeat constructor; lia|first [by intros [] | by intros _]]|].
  all: split; [unfold wchar; repeat constructor; lia|first [by apply list.Forall_nil | apply list.Forall_cons; split; [apply saved_value_ok|by apply list.Forall_nil]]].
Qed.

(** What a path leads to: the name, the class and the values. *)
Definition found_at (r : registry) (q : Z) (es : list (list Z)) : option (option (list Z) * list Z * list (list Z * Z * list Z)) :=
  (λ it, (it_name it, it_class it, (map_to_list (it_values it)).*2)) <$> view (abs r) q es.
(** "a", "A\X", "b", "d" and "a\z". *)
Definition saved_queries : list (list (list Z)) := [[[97]]; [[65]; [88]]; [[98]]; [[100]]; [[97]; [122]]].
Definition not_found (_ : list Z) : Z := STATUS_OBJECT_NAME_NOT_FOUND.

Lemma saved_tree_loads_witness :
  tree_ok 1 saved_registry (ext_of []) ∧ map_Forall (λ _ k, storable_key k) (r_keys saved_registry) ∧ empty_key (demo_registry []) 2 demo_key ∧
  wp (save_all_subkeys (r_keys saved_registry) 1 PREFIX_64BIT) (λ _ d,
    wp (load_keys 1 not_found 2 (ds_file d) 0 PREFIX_UNKNOWN) (λ pt r',
      found_at r' 2 <$> saved_queries = [Some (Some [65], [99; 0], [([118], REG_SZ, [104; 0; 233; 0; 0; 0])]); Some (Some [120], [], []); None; None; None] ∧
      pt = PREFIX_64BIT ∧ session_ok 1 r' [Some 1] ∧
      ∀ es, es ≠ [] →
        (saved_path (abs saved_registry) 1 es → ∃ it, view (abs saved_registry) 1 es = Some it ∧ view (abs r') 2 es = Some (loaded_item it)) ∧
        (¬ saved_path (abs saved_registry) 1 es → view (abs r') 2 es = None)) (demo_registry [])) (DumpState [] []).
Proof.
  assert (empty_key (demo_registry []) 2 demo_key) as He by (split; try done; by eexists).
  assert (no_links saved_registry) as Hl by (by refine (saved_keys_forall (λ _ k, has_flag k KEY_SYMLINK = false) _ _ _ _ _ _)).
  split; [exact saved_tree_ok|]. split; [exact saved_storable|]. split; [exact He|].
  eapply wp_mono; [apply wp_conj; [|apply (saved_tree_loads 1 not_found 1 saved_registry (ext_of []) 1 saved_root PREFIX_64BIT (demo_registry []) [Some 1] 2 demo_key PREFIX_UNKNOWN
    saved_tree_ok Hl saved_storable)]|].
  - instantiate (1 := λ _ d, wp (load_keys 1 not_found 2 (ds_file d) 0 PREFIX_UNKNOWN) (λ pt r', found_at r' 2 <$> saved_queries =
      [Some (Some [65], [99; 0], [([118], REG_SZ, [104; 0; 233; 0; 0; 0])]); Some (Some [120], [], []); None; None; None]) (demo_registry [])).
    vm_compute. reflexivity.
  - done.
  - by eexists.
  - done.
  - apply demo_session_ok.
  - done.
  - apply not_elem_of_nil.
  - exact He.
  - by right; left.
  - intros _ d [H1 H2]. eapply wp_mono; [apply wp_conj; [exact H1|exact H2]|]. by intros pt r' (? & ? & ? & ? & ?).
Defined.

(** ** Keys that get lost *)

(** A key that lasts is lost, with no error, when all its subkeys are volatile and it has neither values nor a class: it is written neither for itself,
    because it has subkeys, nor for them. Here "d", which has the volatile subkey "v", does not come back. *)
Theorem key_above_volatile_lost :
  let loaded_back d := load_keys 1 not_found 2 d 0 PREFIX_UNKNOWN in
  view (abs saved_registry) 1 [[100]] = Some (Item (Some [100]) [] 0 ∅) ∧
  wp (save_all_subkeys (r_keys saved_registry) 1 PREFIX_64BIT) (λ _ d,
    wp (loaded_back (ds_file d)) (λ _ r', view (abs r') 2 [[100]] = None ∧ r_error r' = 0) (demo_registry [])) (DumpState [] []).
Proof. split; vm_compute; done. Qed.

(** The name of "\0a" is taken for the empty path: its value is loaded into the base key. *)
Definition zero_name : list Z := [0; 97].
Definition zero_keys : gmap Z key :=
  {[1 := Key 1 (Some [114]) None [] 0 8 (2 :: replicate 7 0) None (-1) 0 [] 0 0 [];
    2 := Key 1 (Some zero_name) (Some 1) [] (-1) 0 [] None 0 8 (saved_value :: replicate 7 undefined_value) 0 0 []]}.
Example zero_name_misplaced :
  wp (save_all_subkeys zero_keys 1 PREFIX_UNKNOWN) (λ _ d,
    wp (load_keys 1 not_found 2 (ds_file d) 0 PREFIX_UNKNOWN) (λ _ r',
      view (abs r') 2 [zero_name] = None ∧ found_at r' 2 [] = Some (Some [107], [], [([118], REG_SZ, [104; 0; 233; 0; 0; 0])])) (demo_registry [])) (DumpState [] []).
Proof. vm_compute. done. Qed.
