(* ===== verification/RegRequests.v ===== *)
(** * Requests that describe or watch keys

    The request of src/server/registry.c that enumerates the subkeys of a key and describes a
    key, full names included; the requests on values; the one that registers an event for changes
    of a key, what a change notifies, and the end of the handle. *)

From stdpp Require Import sorting.
From S2P Require Import Prelude.
From S2P Require Import Atoms.
From S2P Require Import AtomsInv.
From S2P Require Import AtomsHistory.
From S2P Require Import RegKeys.
From S2P Require Import RegArrays.
From S2P Require Import RegTouch.
From S2P Require Import RegValueSpec.
From S2P Require Import RegValueHistory.
From S2P Require Import RegNumbers.
From S2P Require Import RegTree.
From S2P Require Import RegTreeInv.
From S2P Require Import RegTreeLookup.
From S2P Require Import RegTreeLinks.
From S2P Require Import RegTreeHistory.
From S2P Require Import RegView.
From S2P Require Import RegRoundTripWitness.

(** ** Definitions *)

Definition STATUS_INFO_LENGTH_MISMATCH : Z := 0xc0000004.
Inductive key_info := KeyBasicInformation | KeyNodeInformation | KeyFullInformation | KeyNameInformation | KeyCachedInformation | OtherKeyInformation.
#[export] Instance key_info_eq_dec : EqDecision key_info.
Proof. solve_decision. Defined.
(** The fields of the reply, all zero at first, and its data. *)
Record enum_key_reply := EnumKeyReply {
  ek_subkeys : Z; ek_max_subkey : Z; ek_max_class : Z; ek_values : Z; ek_max_value : Z; ek_max_data : Z; ek_modif : Z;
  ek_total : Z; ek_namelen : Z; ek_data : list Z }.
Definition no_key_reply : enum_key_reply := EnumKeyReply 0 0 0 0 0 0 0 0 0 [].

(** The directory of the root key has no name. [fuel] bounds the depth of the key. *)
Fixpoint full_name (fuel : nat) (obj : option Z) : R (list Z) :=
  match obj with
  | None => mret []
  | Some obj =>
      k ← key_of obj;
      match k_name k with
      | None => mret []
      | Some name =>
          match fuel with O => no_fuel | S fuel => above ← full_name fuel (k_parent k); mret (above ++ backslash :: name) end
      end
  end.
Definition default_get_full_name (obj max : Z) : R (option (list Z)) :=
  r ← gets id;
  ret ← full_name (size (r_keys r)) (Some obj);
  if bool_decide (ret = []) then mret None else
  ok ← malloc_ok;
  if negb ok then mret None else
  _ ← when (max <? 2 * Z.of_nat (length ret)) (set_error STATUS_INFO_LENGTH_MISMATCH);
  mret (Some ret).
Definition key_get_full_name (p max : Z) : R (option (list Z)) :=
  k ← key_of p;
  if has_flag k KEY_DELETED then _ ← set_error STATUS_KEY_DELETED; mret None else default_get_full_name p max.

Definition larger (max x : Z) : Z := if max <? x then x else max.
Fixpoint subkey_sizes (l : list Z) (max_subkey max_class : Z) : R (Z * Z) :=
  match l with
  | [] => mret (max_subkey, max_class)
  | c :: l =>
      k ← key_of c;
      name ← access (k_name k);
      subkey_sizes l (larger max_subkey (2 * Z.of_nat (length name))) (larger max_class (2 * Z.of_nat (length (k_class k))))
  end.
Fixpoint value_sizes (l : list key_value) (max_value max_data : Z) : Z * Z :=
  match l with
  | [] => (max_value, max_data)
  | v :: l => value_sizes l (larger max_value (2 * Z.of_nat (length (kv_name v)))) (larger max_data (kv_len v))
  end.
(** The end of [enum_key]: as much of [reply_name] and the class as there is room for. [reply]
    lacks its last two fields, of which [old_namelen] is the first so far. *)
Definition fill_key_reply (reply : Z → list Z → enum_key_reply) (k : key) (full : bool) (reply_name : list Z) (old_namelen namelen total reply_max_size : Z)
    : R enum_key_reply :=
  let len := Z.min total reply_max_size in
  ok ← (if truth len then mem_alloc_ok else mret false);
  mret (if negb ok then reply old_namelen []
        else if namelen <? len then
          reply namelen (take (Z.to_nat namelen) (name_bytes reply_name) ++ take (Z.to_nat (len - namelen)) (name_bytes (k_class k)))
        else if full then reply namelen (take (Z.to_nat len) (name_bytes reply_name))
        else reply len (take (Z.to_nat len) (name_bytes reply_name))).
Definition enum_key (p index : Z) (info : key_info) (reply_max_size : Z) : R enum_key_reply :=
  k ← key_of p;
  if has_flag k KEY_PREDEF then _ ← set_error STATUS_INVALID_HANDLE; mret no_key_reply else
  if negb (index =? -1) && ((index <? 0) || (k_last_subkey k <? index)) then _ ← set_error STATUS_NO_MORE_ENTRIES; mret no_key_reply else
  p ← (if negb (index =? -1) then access (array_get (k_subkeys k) index) else mret p);
  k ← key_of p;
  name ← access (k_name k);
  let namelen := 2 * Z.of_nat (length name) in
  let classlen := 2 * Z.of_nat (length (k_class k)) in
  let reply max_subkey max_class max_value max_data :=
    EnumKeyReply (k_last_subkey k + 1) max_subkey max_class (k_last_value k + 1) max_value max_data (k_modif k) in
  let sizes :=
    subkeys ← access (if Z.of_nat (length (k_subkeys k)) <? k_last_subkey k + 1 then None else Some (take (Z.to_nat (k_last_subkey k + 1)) (k_subkeys k)));
    s ← subkey_sizes subkeys 0 0;
    values ← access (if Z.of_nat (length (k_values k)) <? k_last_value k + 1 then None else Some (take (Z.to_nat (k_last_value k + 1)) (k_values k)));
    let v := value_sizes values 0 0 in
    mret (reply (fst s) (snd s) (fst v) (snd v)) in
  match info with
  | KeyNameInformation =>
      fullname ← key_get_full_name p (2 ^ 32 - 1);
      match fullname with
      | None => mret no_key_reply
      | Some fullname =>
          let namelen := 2 * Z.of_nat (length fullname) in
          fill_key_reply (reply 0 0 0 0 namelen) k true fullname 0 namelen namelen reply_max_size
      end
  | KeyBasicInformation => fill_key_reply (reply 0 0 0 0 namelen) k false name 0 namelen namelen reply_max_size
  | KeyNodeInformation => fill_key_reply (reply 0 0 0 0 (namelen + classlen)) k false name 0 namelen (namelen + classlen) reply_max_size
  | KeyFullInformation => reply ← sizes; fill_key_reply (reply classlen) k false name namelen 0 classlen reply_max_size
  | KeyCachedInformation => reply ← sizes; fill_key_reply (reply 0) k false name namelen 0 0 reply_max_size
  | OtherKeyInformation => _ ← set_error STATUS_INVALID_PARAMETER; mret no_key_reply
  end.

(** ** Notifications *)

Definition STATUS_PENDING : Z := 0x103.
(** The notification of a handle, and where it is in the list of the key. *)
Definition find_notify (k : key) (process hkey : Z) : option (nat * notify) :=
  list_find (λ n, n_process n = process ∧ n_hkey n = hkey) (k_notify_list k).
Definition key_close_handle (p process hkey : Z) : R bool :=
  k ← key_of p;
  match find_notify k process hkey with
  | Some (i, n) => _ ← do_notification_events n; _ ← update_key p (λ k, with_notify (delete i (k_notify_list k)) k); mret true
  | None => mret true
  end.
(** [event] is what [get_event_obj] finds: the event, or the error it has set. Yields the event
    that is reset and of which the notification has a reference. *)
Definition req_set_registry_notification (p process hkey : Z) (event : Z + Z) (subtree : bool) (filter : Z) : R (option Z) :=
  key ← get_hkey_obj p;
  match key, event with
  | None, _ => mret None
  | Some p, inr error => _ ← set_error error; mret None
  | Some p, inl event =>
      k ← key_of p;
      i ← (match find_notify k process hkey with
           | Some (i, _) => mret (Some i)
           | None =>
               ok ← mem_alloc_ok;
               if negb ok then mret None
               else _ ← update_key p (λ k, with_notify (Notify [] subtree filter hkey process :: k_notify_list k) k); mret (Some 0%nat)
           end);
      match i with
      | None => mret None
      | Some i =>
          ok ← malloc_ok;
          if negb ok then _ ← set_error STATUS_NO_MEMORY; mret None else
          let add n := Notify (n_events n ++ [event]) (n_subtree n) (n_filter n) (n_hkey n) (n_process n) in
          _ ← update_key p (λ k, with_notify (alter add i (k_notify_list k)) k);
          _ ← set_error STATUS_PENDING;
          mret (Some event)
      end
  end.

(** ** Requests *)

(** The requests, on the key [p] of the handle; [data] is that of the request. *)
Section requests.
Context `{CaseMap}.
Definition req_enum_key (p index : Z) (info : key_info) (reply_max_size : Z) : R enum_key_reply :=
  key ← get_hkey_obj p;
  match key with Some p => enum_key p index info reply_max_size | None => mret no_key_reply end.
Definition req_set_key_value (p namelen type : Z) (data : list Z) : R unit :=
  if Z.of_nat (length data) <? namelen then set_error STATUS_INVALID_PARAMETER else
  let name := wchars (take (Z.to_nat (namelen ÷ 2 * 2)) data) in
  key ← get_hkey_obj p;
  match key with Some p => set_value p name type (drop (Z.to_nat namelen) data) | None => mret tt end.
Definition req_get_key_value (p : Z) (data : list Z) (reply_max_size : Z) : R (option Z * Z * list Z) :=
  key ← get_hkey_obj p;
  match key with Some p => get_value p (wchars data) reply_max_size | None => mret (None, 0, []) end.
Definition req_enum_key_value (p index : Z) (info : value_info) (reply_max_size : Z) : R enum_value_reply :=
  key ← get_hkey_obj p;
  match key with Some p => enum_value p index info reply_max_size | None => mret (EnumValueReply 0 0 0 []) end.
Definition req_delete_key_value (p : Z) (data : list Z) : R unit :=
  key ← get_hkey_obj p;
  match key with Some p => delete_value p (wchars data) | None => mret tt end.
End requests.

(** ** Subkeys in order *)

Section enum.
Context `{CaseMap} (root : Z).
Implicit Types (p q c i room : Z) (k : key) (r : registry) (ext : Z → Z) (l : list (list Z * list Z)) (T : gmap Z node).

(** Names and classes of the subkeys of [p], in the order of their names. *)
Definition lists_children T p l : Prop :=
  StronglySorted before l.*1 ∧
  ∀ n class, (n, class) ∈ l ↔ ∃ c nd, T !! c = Some nd ∧ nd_parent nd = Some p ∧ nd_name nd = Some n ∧ nd_class nd = class.
Definition describes r p c (x : list Z * list Z) : Prop :=
  ∃ k, r_keys r !! c = Some k ∧ k_parent k = Some p ∧ k_name k = Some x.1 ∧ k_class k = x.2.

Lemma describes_names r p cs names : Forall2 (links_to (r_keys r) p) cs names → ∃ l, Forall2 (describes r p) cs l ∧ l.*1 = names.
Proof.
  induction 1 as [|c n cs names (k & Hk & Hp & Hn) _ (l & Hl & <-)]; [by exists []|].
  exists ((n, k_class k) :: l). split; [|done]. constructor; [by exists k|done].
Qed.
Lemma children_listed r ext p k : tree_ok root r ext → r_keys r !! p = Some k →
  ∃ l, Forall2 (describes r p) (subs k) l ∧ lists_children (abs r) p l.
Proof.
  intros Hr Hk. destruct (ko_subs _ _ _ _ _ (to_keys _ _ _ Hr p k Hk)) as (names & Hnames & Hsorted).
  destruct (describes_names _ _ _ _ Hnames) as (l & Hl & <-). exists l. split; [done|]. split; [done|]. intros n class. split.
  - intros [i Hi]%list_elem_of_lookup. destruct (Forall2_lookup_r _ _ _ _ _ Hl Hi) as (c & _ & kc & Hc & Hp & Hn & Hcl).
    exists c, (abs_key kc). rewrite abs_lookup, Hc. by split_and!.
  - intros (c & nd & Hc & Hp & Hn & Hcl). rewrite abs_lookup in Hc. destruct (r_keys r !! c) as [kc|] eqn:Hkc; [|done]. injection Hc as <-. simpl in *.
    destruct (ko_parent _ _ _ _ _ (to_keys _ _ _ Hr c kc Hkc) p Hp) as (k' & Hk' & Hin). assert (k' = k) as -> by congruence.
    apply list_elem_of_lookup in Hin as [i Hi]. destruct (Forall2_lookup_l _ _ _ _ _ Hl Hi) as ([n' class'] & Hx & kc' & Hc' & _ & Hn' & Hcl').
    assert (kc' = kc) as -> by congruence. simpl in *. apply list_elem_of_lookup. exists i. rewrite Hx. congruence.
Qed.

(** ** Replies *)

Lemma fill_name_class_spec reply k name room r : 0 ≤ room →
  let namelen := 2 * Z.of_nat (length name) in
  let total := namelen + 2 * Z.of_nat (length (k_class k)) in
  wp (fill_key_reply reply k false name 0 namelen total room) (λ x r', ∃ b, memory_step r b r' ∧
    x = if b then reply (Z.min namelen room) (take (Z.to_nat room) (name_bytes name ++ name_bytes (k_class k))) else reply 0 []) r.
Proof.
  intros Hroom namelen total. unfold fill_key_reply. pose proof (name_bytes_length name) as Ln. pose proof (name_bytes_length (k_class k)) as Lc.
  assert (length (name_bytes name ++ name_bytes (k_class k)) = Z.to_nat total) as Lt by (rewrite length_app; lia).
  rewrite wp_bind. unfold truth. destruct (Z.eqb_spec (Z.min total room) 0) as [E|E]; cbn [negb].
  - rewrite !wp_ret. exists true. split; [split_and!; [done|done|by exists []|done]|]. f_equal; [lia|].
    destruct (decide (room = 0)) as [->|]; [done|]. rewrite (nil_length_inv (name_bytes name ++ name_bytes (k_class k))) by lia. by rewrite take_nil.
  - eapply wp_mono; [apply mem_alloc_ok_spec|]. intros b r1 Hm. rewrite wp_ret. exists b. split; [done|]. destruct b; cbn [negb]; [|done].
    destruct (Z.ltb_spec namelen (Z.min total room)) as [Hlt|Hge].
    + f_equal; [lia|]. rewrite take_app, (take_ge (name_bytes name)) by lia. rewrite (take_ge (name_bytes name)) by lia. f_equal.
      destruct (Z.leb_spec room total); [f_equal; lia|]. rewrite !take_ge; [done|lia|lia].
    + destruct (Z.leb_spec room namelen).
      * f_equal; [lia|]. rewrite take_app_le by lia. f_equal. lia.
      * rewrite (nil_length_inv (name_bytes (k_class k))) by lia. rewrite app_nil_r. f_equal; [lia|]. rewrite !take_ge; [done|lia|lia].
Qed.

Lemma fill_any reply k full name a b total room r :
  wp (fill_key_reply reply k full name a b total room) (λ x r', r_keys r' = r_keys r ∧ ∃ n data, x = reply n data) r.
Proof.
  unfold fill_key_reply. rewrite wp_bind. destruct (truth _).
  - eapply wp_mono; [apply mem_alloc_ok_spec|]. intros ok r' (E & _). rewrite wp_ret. split; [done|].
    destruct ok; cbn [negb]; [|eauto]. destruct (_ <? _); [eauto|]. destruct full; eauto.
  - rewrite !wp_ret. split; [done|]. simpl. eauto.
Qed.

(** The greatest of some lengths, or zero. *)
Definition greatest (x : Z) (lens : list Z) : Prop := (x = 0 ∨ x ∈ lens) ∧ Forall (λ y, y ≤ x) lens.
Lemma greatest_larger lens y : greatest (foldl larger 0 lens) lens → greatest (foldl larger 0 (lens ++ [y])) (lens ++ [y]).
Proof.
  rewrite foldl_app. simpl. set (x := foldl larger 0 lens). intros [Hx Hle]. unfold larger. destruct (Z.ltb_spec x y); split.
  - right. apply elem_of_app. right. by left.
  - apply list.Forall_app. split; [eapply list.Forall_impl; [exact Hle|]; simpl; intros; lia|by constructor].
  - destruct Hx; [by left|right; apply elem_of_app; by left].
  - apply list.Forall_app. split; [done|by constructor; [lia|]].
Qed.
Lemma foldl_larger lens : greatest (foldl larger 0 lens) lens.
Proof. induction lens as [|y lens IH] using rev_ind; [split; [by left|constructor]|by apply greatest_larger]. Qed.
Lemma value_sizes_spec vs : ∀ a b, value_sizes vs a b =
  (foldl larger a ((λ v, 2 * Z.of_nat (length (kv_name v))) <$> vs), foldl larger b (kv_len <$> vs)).
Proof. induction vs as [|v vs IH]; intros a b; [done|]. simpl. by rewrite IH. Qed.
Lemma subkey_sizes_spec r p cs l : Forall2 (describes r p) cs l → ∀ a b Q,
  Q (foldl larger a ((λ x, 2 * Z.of_nat (length x.1)) <$> l), foldl larger b ((λ x, 2 * Z.of_nat (length x.2)) <$> l)) r →
  wp (subkey_sizes cs a b) Q r.
Proof.
  induction 1 as [|c x cs l (k & Hk & _ & Hn & Hcl) _ IH]; intros a b Q HQ; cbn [subkey_sizes]; [by rewrite wp_ret|].
  rewrite wp_bind, (key_of_spec c r k), wp_bind, Hn, wp_access by done. apply IH. by rewrite Hcl.
Qed.
Lemma map_of_size vs : StronglySorted before (value_names vs) → size (map_of vs) = length vs.
Proof.
  induction vs as [|v vs IH]; [done|]. intros [Hs Hv]%StronglySorted_inv. simpl. rewrite map_size_insert_None, IH; [done|done|].
  apply map_of_other, list.Forall_forall. intros v' Hv'. rewrite list.Forall_forall in Hv. specialize (Hv (kv_name v') (list_elem_of_fmap_2 _ _ _ Hv')). simpl in Hv.
  unfold other_name. intros E. unfold before in Hv. rewrite E in Hv. by eapply lex_irrefl.
Qed.
Lemma map_of_value vs n entry : map_of vs !! n = Some entry → ∃ v, v ∈ vs ∧ entry = RegArrays.entry v.
Proof.
  induction vs as [|v vs IH]; [done|]. simpl. rewrite lookup_insert_Some. intros [[_ <-]|[_ Hn]]; [exists v; split; [by left|done]|].
  destruct (IH Hn) as (v' & Hv' & ->). exists v'. split; [by right|done].
Qed.

Lemma enum_key_at r ext p k l i room : tree_ok root r ext → r_keys r !! p = Some k → Forall2 (describes r p) (subs k) l →
  has_flag k KEY_DELETED = false → has_flag k KEY_PREDEF = false → i ≠ -1 → 0 ≤ room →
  wp (req_enum_key p i KeyNodeInformation room) (λ reply r',
    match array_get l i with
    | Some (name, class) => ∃ b, memory_step r b r' ∧
        ek_total reply = 2 * Z.of_nat (length name) + 2 * Z.of_nat (length class) ∧
        ek_namelen reply = (if b then Z.min (2 * Z.of_nat (length name)) room else 0) ∧
        ek_data reply = if b then take (Z.to_nat room) (name_bytes name ++ name_bytes class) else []
    | None => r_keys r' = r_keys r ∧ r_error r' = STATUS_NO_MORE_ENTRIES ∧ reply = no_key_reply
    end) r.
Proof.
  intros Hr Hk Hl Hdel Hpre Hi Hroom. pose proof (ko_array _ _ _ _ _ (to_keys _ _ _ Hr p k Hk)) as Harr.
  pose proof (ao_last _ _ _ _ Harr) as Hlast. pose proof (list.Forall2_length _ _ _ Hl) as Hlen.
  unfold req_enum_key, get_hkey_obj. rewrite wp_bind, wp_bind, (key_of_spec p r k), Hdel, wp_ret by done.
  unfold enum_key. rewrite wp_bind, (key_of_spec p r k), Hpre, (proj2 (Z.eqb_neq _ _)) by done. cbn [negb andb].
  destruct ((i <? 0) || (k_last_subkey k <? i)) eqn:Hout.
  - unfold set_error. rewrite wp_bind, wp_modify, wp_ret. assert (array_get l i = None) as ->; [|done]. unfold array_get.
    destruct (Z.leb_spec 0 i); [|done]. apply lookup_ge_None_2. apply orb_true_iff in Hout as [Ho%Z.ltb_lt|Ho%Z.ltb_lt]; lia.
  - apply orb_false_iff in Hout as [Ho1%Z.ltb_ge Ho2%Z.ltb_ge]. destruct (lookup_lt_is_Some_2 l (Z.to_nat i)) as [[name class] Hx]; [lia|].
    assert (array_get l i = Some (name, class)) as -> by by rewrite array_get_lookup, Hx. destruct (Forall2_lookup_r _ _ _ _ _ Hl Hx) as (c & Hc & kc & Hkc & _ & Hn & Hcl). simpl in *.
    pose proof (array_access _ _ _ _ _ _ Harr Hc) as Hg. rewrite Z2Nat.id in Hg by lia. rewrite wp_bind, Hg, wp_access.
    rewrite wp_bind, (key_of_spec c r kc), wp_bind, Hn, wp_access by done. cbv zeta. rewrite <- Hcl.
    eapply wp_mono; [by apply fill_name_class_spec|]. intros reply r' (b & Hm & ->). exists b. split; [done|]. by destruct b.
Qed.
Lemma enum_key_sizes r ext p k l info room : tree_ok root r ext → r_keys r !! p = Some k → Forall2 (describes r p) (subs k) l →
  is_Some (k_name k) → has_flag k KEY_DELETED = false → has_flag k KEY_PREDEF = false → info = KeyFullInformation ∨ info = KeyCachedInformation →
  wp (req_enum_key p (-1) info room) (λ reply r', r_keys r' = r_keys r ∧
    ek_subkeys reply = Z.of_nat (length l) ∧
    greatest (ek_max_subkey reply) ((λ x, 2 * Z.of_nat (length x.1)) <$> l) ∧
    greatest (ek_max_class reply) ((λ x, 2 * Z.of_nat (length x.2)) <$> l) ∧
    ek_values reply = Z.of_nat (size (value_map k)) ∧
    (∀ n name type data, value_map k !! n = Some (name, type, data) →
       2 * Z.of_nat (length name) ≤ ek_max_value reply ∧ Z.of_nat (length data) ≤ ek_max_data reply)) r.
Proof.
  intros Hr Hk Hl [name Hn] Hdel Hpre Hinfo. pose proof (to_keys _ _ _ Hr p k Hk) as Hok. pose proof (ko_array _ _ _ _ _ Hok) as Harr.
  pose proof (ao_last _ _ _ _ Harr) as Hlast. pose proof (list.Forall2_length _ _ _ Hl) as Hlen. pose proof (ko_values _ _ _ _ _ Hok) as Hv. pose proof (used_length k Hv) as Hu.
  destruct Harr as [_ _ Hpre' _]. pose proof (prefix_length _ _ Hpre') as Hsl.
  unfold req_enum_key, get_hkey_obj. rewrite wp_bind, wp_bind, (key_of_spec p r k), Hdel, wp_ret by done.
  unfold enum_key. rewrite wp_bind, (key_of_spec p r k), Hpre by done. cbn [Z.eqb Pos.eqb negb andb].
  rewrite wp_bind, wp_ret, wp_bind, (key_of_spec p r k), wp_bind, Hn, wp_access by done. cbv zeta.
  rewrite (proj2 (Z.ltb_ge (Z.of_nat (length (k_subkeys k))) _)) by lia. rewrite (proj2 (Z.ltb_ge (Z.of_nat (length (k_values k))) _)) by (destruct Hv; lia).
  fold (subs k) (used k).
  assert (∀ total, wp (reply ← (s ← subkey_sizes (subs k) 0 0; values ← access (Some (used k));
      mret (EnumKeyReply (k_last_subkey k + 1) s.1 s.2 (k_last_value k + 1) (value_sizes values 0 0).1 (value_sizes values 0 0).2 (k_modif k)));
      fill_key_reply (reply total) k false name (2 * Z.of_nat (length name)) 0 total room) (λ reply r', r_keys r' = r_keys r ∧
    ek_subkeys reply = Z.of_nat (length l) ∧
    greatest (ek_max_subkey reply) ((λ x, 2 * Z.of_nat (length x.1)) <$> l) ∧
    greatest (ek_max_class reply) ((λ x, 2 * Z.of_nat (length x.2)) <$> l) ∧
    ek_values reply = Z.of_nat (size (value_map k)) ∧
    (∀ n name type data, value_map k !! n = Some (name, type, data) →
       2 * Z.of_nat (length name) ≤ ek_max_value reply ∧ Z.of_nat (length data) ≤ ek_max_data reply)) r) as Hsizes.
  { intros total. rewrite !wp_bind. eapply subkey_sizes_spec; [exact Hl|]. rewrite wp_bind, wp_access, wp_ret, value_sizes_spec. cbn [fst snd].
    eapply wp_mono; [apply fill_any|]. intros reply r' (Hkeys & a & b & ->). simpl. split_and!; [done|lia|apply foldl_larger|apply foldl_larger| |].
    - unfold value_map. rewrite map_of_size by apply Hv. destruct Hv. lia.
    - intros n nm type data (v & Hin & [= -> -> ->])%map_of_value. split.
      + pose proof (foldl_larger ((λ v, 2 * Z.of_nat (length (kv_name v))) <$> used k)) as [_ G]. rewrite list.Forall_forall in G. apply G. by apply list_elem_of_fmap_2'  with v.
      + pose proof (foldl_larger (kv_len <$> used k)) as [_ G]. rewrite list.Forall_forall in G. apply G. apply list_elem_of_fmap_2' with v; [done|].
        pose proof (vo_values _ Hv) as Hall. rewrite list.Forall_forall in Hall. by destruct (Hall v Hin) as (_ & _ & ?). }
  destruct Hinfo as [-> | ->]; apply Hsizes.
Qed.
End enum.

(** ** Full names *)

Definition path_text (es : list (list Z)) : list Z := flat_map (λ e, backslash :: e) es.
Lemma path_text_snoc es e : path_text (es ++ [e]) = path_text es ++ backslash :: e.
Proof. unfold path_text. by rewrite flat_map_app, (app_nil_r (flat_map _ [e])) || (rewrite flat_map_app; simpl; by rewrite app_nil_r). Qed.
Lemma path_element_split e t : backslash ∉ e → t = [] ∨ head t = Some backslash → path_element (e ++ t) = (e, t).
Proof.
  intros He Ht. induction e as [|c e IH]; cbn [app path_element].
  - destruct Ht as [->|Ht]; [done|]. destruct t as [|c t]; [done|]. injection Ht as ->. done.
  - apply not_elem_of_cons in He as [Hc He]. rewrite (proj2 (Z.eqb_neq c backslash)), IH by done. done.
Qed.
Lemma path_text_head es : path_text es = [] ∨ head (path_text es) = Some backslash.
Proof. destruct es; [by left|by right]. Qed.
Lemma elements_path_text es : Forall (λ e, e ≠ [] ∧ backslash ∉ e) es → elements (path_text es) = es.
Proof.
  induction 1 as [|e es [He Hb] _ IH]; [done|]. cbn [path_text flat_map app]. fold (path_text es).
  rewrite <- elements_skip. cbn [skip_backslashes]. rewrite Z.eqb_refl, elements_skip.
  destruct (elements_cons (e ++ path_text es) e (path_text es)) as (_ & -> & _).
  - by destruct e.
  - destruct e as [|c e]; [done|]. simpl. intros [= ->]. apply Hb. by left.
  - apply path_element_split; [done|apply path_text_head].
  - by rewrite elements_skip, IH.
Qed.

Section names.
Context `{CaseMap} (root : Z) (lookup_other : list Z → Z).
Implicit Types (p q c : Z) (k : key) (r : registry) (ext : Z → Z) (es : list (list Z)).

(** The names of subkeys are not empty. *)
Definition proper_names r : Prop := ∀ p k, r_keys r !! p = Some k → is_Some (k_parent k) → k_name k ≠ Some [].

Lemma full_name_spec r ext kr rn : tree_ok root r ext → r_keys r !! root = Some kr → k_name kr = Some rn → proper_names r →
  ∀ l p fuel, chain (r_keys r) (Some p) l → (length l ≤ fuel)%nat →
  wp (full_name fuel (Some p)) (λ t r', r' = r ∧ ∃ es, t = path_text (rn :: es) ∧ walk (abs r) root es = Reached p ∧
    Forall (λ e, e ≠ [] ∧ backslash ∉ e) es) r.
Proof.
  intros Hr Hkr Hrn Hproper. pose proof (tree_unique _ _ _ Hr) as Hu.
  induction l as [|x l IH]; intros p fuel Hl Hfuel; [done|]. destruct Hl as [[= <-] (k & Hk & [n Hn] & Hl)].
  destruct fuel as [|fuel]; [simpl in Hfuel; lia|]. cbn [full_name]. rewrite wp_bind, (key_of_spec p r k), Hn, wp_bind by done.
  pose proof (ko_named _ _ _ _ _ (to_keys _ _ _ Hr p k Hk)) as Hnamed. rewrite Hn in Hnamed. destruct Hnamed as (_ & Hlen & Hroot & Hb).
  destruct (k_parent k) as [q|] eqn:Hp.
  - eapply wp_mono; [apply IH; [destruct l; [done|]; by destruct Hl as [[= <-] ?]|simpl in Hfuel; lia]|].
    intros t r' (-> & es & -> & Hwalk & Hes). rewrite wp_ret. split; [done|]. exists (es ++ [n]). split_and!.
    + by rewrite <- path_text_snoc.
    + apply walk_snoc. exists q. split_and!; [done|done|]. apply child_some; [done|]. apply is_child_links. exists n. split; [by exists k|done].
    + apply list.Forall_app. split; [done|]. constructor; [split; [|done]|constructor]. intros ->. by eapply (Hproper p k); [done|rewrite Hp; by eexists|].
  - assert (p = root) as -> by by apply Hroot. destruct fuel; cbn [full_name]; rewrite !wp_ret; (split; [done|]); exists [];
      (assert (k = kr) as -> by congruence); (assert (n = rn) as -> by congruence); split_and!; try done; unfold path_text; simpl; by rewrite app_nil_r.
Qed.

Lemma lookup_absolute_step depth path : lookup_absolute root lookup_other (S depth) (backslash :: path) = (
  kr ← key_of root;
  root_name ← access (k_name kr);
  let '(e, rest) := path_element path in
  if (length e =? length root_name)%nat && negb (truth (memicmp_strW root_name e (length e))) then
    _ ← grab_object root;
    lookup_from (lookup_absolute root lookup_other depth) root (Some (match rest with [] => None | _ :: rest => Some rest end)) OBJ_CASE_INSENSITIVE
  else _ ← set_error (lookup_other path); mret None).
Proof. done. Qed.
(** A path that begins with the name of the root key. *)
Lemma lookup_absolute_spec r ext kr rn es p k : tree_ok root r ext → few ext → no_links r → r_keys r !! root = Some kr → k_name kr = Some rn →
  r_keys r !! p = Some k → is_Some (k_name k) →
  Forall (λ e, e ≠ [] ∧ backslash ∉ e) es → walk (abs r) root es = Reached p →
  wp (lookup_absolute root lookup_other 33 (path_text (rn :: es))) (λ l r', ∃ left, l = Some (p, left) ∧ default [] left = [] ∧ found root r ext p r' ∧ r_error r' = 0) r.
Proof.
  intros Hr Hfew Hlinks Hkr Hrn Hk Hn Hes Hwalk.
  pose proof (ko_named _ _ _ _ _ (to_keys _ _ _ Hr root kr Hkr)) as Hnamed. rewrite Hrn in Hnamed. destruct Hnamed as (_ & _ & _ & Hb).
  cbn [path_text flat_map app]. fold (path_text es). rewrite (lookup_absolute_step 32).
  rewrite wp_bind, (key_of_spec root r kr), wp_bind, Hrn, wp_access by done. rewrite path_element_split by (done || apply path_text_head).
  rewrite Nat.eqb_refl, (proj2 (memicmp_fold rn rn eq_refl) eq_refl). cbn [andb negb truth Z.eqb].
  set (absolute := lookup_absolute root lookup_other 32). clearbody absolute. rewrite wp_bind. pose proof (Hfew root) as [Hp0 Hp8].
  eapply wp_mono; [eapply key_grab_spec; [exact Hr|eauto|lia]|]. intros _ r1 (Hr1 & [Hc1 _]).
  unfold lookup_from, set_error. rewrite wp_bind, wp_modify, wp_bind, wp_gets. unfold id.
  set (r2 := Registry _ _ _ _ 0 _). assert (calm r r2) as Hc2 by (etrans; [exact Hc1|apply set_error_calm]).
  assert (found root r2 ext root r2) as Hf2.
  { split; [by apply tree_ok_error|]. split; [reflexivity|]. destruct Hc1 as [He _]. destruct (equiv_lookup _ _ _ _ He Hkr) as (k1 & Hk1 & E1).
    exists k1. split; [done|]. rewrite (proj1 E1). by eexists. }
  rewrite wp_bind. set (name := match path_text es with [] => None | _ :: rest => Some rest end).
  assert (∀ fuel, (length (path_text es) ≤ fuel + 1)%nat → wp (lookup_loop absolute fuel root (Some name) OBJ_CASE_INSENSITIVE)
    (λ l r', looked_up root r2 ext (walk (abs r2) root es) (fst l) (snd l) r') r2) as Hloop.
  { intros fuel Hfuel. destruct es as [|e es'].
    - destruct Hf2 as (Hr2 & Hc & k2 & Hk2 & Hn2). subst name. assert (wp (lookup_loop absolute fuel root (Some None) OBJ_CASE_INSENSITIVE) (λ l r', l = (root, None) ∧ r' = r2) r2) as Hl.
      { assert (has_flag k2 KEY_SYMLINK = false) as Hs by by eapply (calm_links _ _ Hc2 Hlinks).
        destruct fuel; cbn [lookup_loop]; rewrite wp_bind; unfold key_lookup_name; rewrite wp_bind, (key_of_spec root r2 k2), (linked_key _ _ _ _ _ Hr2 Hk2 Hn2), Hs by done; by rewrite !wp_ret. }
      eapply wp_mono; [exact Hl|]. intros l r' [-> ->]. split; [split; [done|]; split; [reflexivity|]; eauto|done].
    - apply list.Forall_cons in Hes as [[He Heb] Hes]. subst name. cbn [path_text flat_map app] in *. fold (path_text es') in *.
      assert (elements (e ++ path_text es') = e :: es') as <-.
      { pose proof (elements_path_text (e :: es')) as E. cbn [path_text flat_map app] in E. rewrite <- elements_skip in E. cbn [skip_backslashes] in E.
        rewrite Z.eqb_refl, elements_skip in E. apply E. by constructor. }
      apply lookup_loop_spec; [done|simpl in Hfuel; lia|by destruct e| |done|by eapply calm_links|done].
      destruct e as [|c e]; [done|]. simpl. intros [= ->]. apply Heb. by left. }
  eapply wp_mono; [apply Hloop|].
  { unfold lookup_fuel. subst name. destruct (path_text es) as [|c t]; simpl; nia. }
  intros [obj more] r3 [Hf Hw]. pose proof Hc2 as (_ & Ha & _). rewrite Ha, Hwalk in Hw. simpl in Hf, Hw. destruct Hw as (-> & Hleft & E3). rewrite wp_bind, wp_gets, E3.
  cbn [truth Z.eqb negb]. rewrite wp_ret. exists more. split_and!; [done|done| |done].
  destruct Hf as (H1 & H2 & H3). split; [done|]. split; [by etrans|done].
Qed.

Lemma wchars_name_bytes n : wchars (name_bytes n) = n.
Proof.
  unfold name_bytes. induction n as [|c n IH]; [done|]. cbn [flat_map app wchars]. rewrite IH. f_equal.
  change 0xff with (Z.ones 8). rewrite Z.land_ones, Z.shiftr_div_pow2 by lia. change (2 ^ 8) with 256. pose proof (Z.div_mod c 256). lia.
Qed.
(** Steps that leave the keys alone. *)
Definition same_tree r r' : Prop := r_keys r' = r_keys r ∧ r_next r' = r_next r ∧ r_allocs r' `suffix_of` r_allocs r.
#[local] Instance same_tree_preorder : PreOrder same_tree.
Proof. split; [intros r; split_and!; [done|done|by exists []]|]. intros r1 r2 r3 (?&?&?) (?&?&?). split_and!; [congruence..|by etrans]. Qed.
Lemma used_same_tree r r' : used_memory r r' → same_tree r r'.
Proof. by intros (? & _ & _ & ? & _ & ?). Qed.
Lemma same_tree_ok r ext r' : same_tree r r' → tree_ok root r ext → tree_ok root r' ext ∧ abs r' = abs r.
Proof. intros (K & N & _) [H1 H2 H3 H4 H5]. unfold abs, rooted in *. rewrite K. split; [|done]. split; unfold rooted; rewrite ?K, ?N; done. Qed.

Lemma key_get_full_name_spec r ext kr rn p k max : tree_ok root r ext → proper_names r → memory_left r →
  r_keys r !! root = Some kr → k_name kr = Some rn → r_keys r !! p = Some k → is_Some (k_name k) →
  wp (key_get_full_name p max) (λ o r', same_tree r r' ∧ memory_left r' ∧ ∃ es,
    o = Some (path_text (rn :: es)) ∧ walk (abs r) root es = Reached p ∧ Forall (λ e, e ≠ [] ∧ backslash ∉ e) es) r.
Proof.
  intros Hr Hproper Hm Hkr Hrn Hk Hn. unfold key_get_full_name. rewrite wp_bind, (key_of_spec p r k), (linked_key _ _ _ _ _ Hr Hk Hn) by done.
  unfold default_get_full_name. rewrite wp_bind, wp_gets. unfold id. destruct (to_rooted _ _ _ Hr p k Hk Hn) as [l Hl].
  rewrite wp_bind. eapply wp_mono; [eapply (full_name_spec r ext kr rn Hr Hkr Hrn Hproper l); [done|by eapply chain_length]|].
  intros name r1 (-> & es & -> & Hwalk & Hes). rewrite bool_decide_false by done.
  rewrite wp_bind. eapply wp_mono; [by apply malloc_ok_spec|]. intros ok r1 (-> & Hu1). cbn [negb].
  pose proof (memory_left_used _ _ Hu1 Hm). apply used_same_tree in Hu1.
  rewrite wp_bind, wp_when. destruct (_ <? _); [unfold set_error; rewrite wp_modify|]; rewrite wp_ret; (split; [done|]); (split; [done|]); by exists es.
Qed.
Lemma full_name_reply reply k name room r : memory_left r → name ≠ [] → 0 ≤ room →
  wp (fill_key_reply reply k true name 0 (2 * Z.of_nat (length name)) (2 * Z.of_nat (length name)) room) (λ x r', same_tree r r' ∧
    ∃ n, x = reply n (take (Z.to_nat room) (name_bytes name))) r.
Proof.
  intros Hm Hne Hroom. unfold fill_key_reply. pose proof (name_bytes_length name) as Ln. rewrite wp_bind. unfold truth.
  destruct (Z.eqb_spec (Z.min (2 * Z.of_nat (length name)) room) 0) as [E|E]; cbn [negb].
  - rewrite !wp_ret. split; [reflexivity|]. exists 0. destruct name; [done|]. simpl in E. replace room with 0 by lia. done.
  - eapply wp_mono; [by apply mem_alloc_ok_true|]. intros b r' [-> Hr']. rewrite wp_ret. split; [by apply used_same_tree|]. cbn [negb].
    rewrite (proj2 (Z.ltb_ge _ _)) by lia. eexists. f_equal. destruct (Z.leb_spec room (2 * Z.of_nat (length name))); [f_equal; lia|]. rewrite !take_ge; [done|lia|lia].
Qed.

(** C27: the full name of a key that is reported for it leads back to it: an absolute lookup of that name finds the key, with one more reference, and
    changes nothing else. *)
Theorem full_name_leads_back r ext p k room : tree_ok root r ext → few ext → no_links r → proper_names r → memory_left r →
  r_keys r !! p = Some k → is_Some (k_name k) → has_flag k KEY_PREDEF = false → 0 ≤ room →
  wp (req_enum_key p (-1) KeyNameInformation room) (λ reply r', ∃ name,
    ek_total reply = 2 * Z.of_nat (length name) ∧ ek_data reply = take (Z.to_nat room) (name_bytes name) ∧ wchars (name_bytes name) = name ∧
    wp (lookup_absolute root lookup_other 33 name) (λ l r'', ∃ left, l = Some (p, left) ∧ default [] left = [] ∧
      tree_ok root r'' (bump p 1 ext) ∧ abs r'' = abs r ∧ r_error r'' = 0) r') r.
Proof.
  intros Hr Hfew Hlinks Hproper Hm Hk Hn Hpre Hroom. pose proof (linked_key _ _ _ _ _ Hr Hk Hn) as Hdel.
  unfold req_enum_key, get_hkey_obj. rewrite wp_bind, wp_bind, (key_of_spec p r k), Hdel, wp_ret by done.
  unfold enum_key. rewrite wp_bind, (key_of_spec p r k), Hpre by done. cbn [Z.eqb Pos.eqb negb andb].
  pose proof Hn as [n En]. rewrite wp_bind, wp_ret, wp_bind, (key_of_spec p r k), wp_bind, En, wp_access by done. cbv zeta. rewrite wp_bind.
  destruct (to_root _ _ _ Hr) as [kr Hkr]. assert (∃ rn, k_name kr = Some rn) as [rn Hrn].
  { pose proof (ko_named _ _ _ _ _ (to_keys _ _ _ Hr root kr Hkr)) as Hnamed. destruct (k_name kr); [eauto|tauto]. }
  eapply wp_mono; [by eapply (key_get_full_name_spec r ext kr rn)|]. intros fullname r1 (Hs1 & Hm1 & es & -> & Hwalk & Hes).
  eapply wp_mono; [by apply full_name_reply|]. intros reply r2 (Hs2 & len & ->). exists (path_text (rn :: es)). split_and!; [done|done|apply wchars_name_bytes|].
  assert (same_tree r r2) as Hs by by etrans. destruct (same_tree_ok _ _ _ Hs Hr) as [Hr2 Ha2]. destruct Hs as (K2 & _).
  eapply wp_mono; [eapply (lookup_absolute_spec r2 ext kr rn es p k Hr2 Hfew); try done; rewrite ?K2, ?Ha2; try done|].
  { intros q kq Hq. rewrite K2 in Hq. by eapply Hlinks. }
  intros lk r3 (left & -> & Hleft & (Hr3 & (_ & Ha3 & _) & _) & E3). exists left. split_and!; [done..|congruence|done].
Qed.
End names.

Section listing.
Context `{CaseMap} (root : Z).
(** C26: the request lists exactly the subkeys of a key, each once and in the order of their names: the reply for the number [i] has the name and the class of the
    subkey number [i], as much as there is room for, or nothing if there is no memory for it; after the last one there are no more entries. The counts and the greatest
    lengths it reports for the key are exact for subkeys, and names and data of values are at most as long. *)
Theorem enumeration_lists_subkeys r ext p k : tree_ok root r ext → r_keys r !! p = Some k → has_flag k KEY_DELETED = false → has_flag k KEY_PREDEF = false →
  ∃ l, lists_children (abs r) p l ∧
  (∀ i room, i ≠ -1 → 0 ≤ room → wp (req_enum_key p i KeyNodeInformation room) (λ reply r',
    match array_get l i with
    | Some (name, class) => ∃ b, memory_step r b r' ∧
        ek_total reply = 2 * Z.of_nat (length name) + 2 * Z.of_nat (length class) ∧
        ek_namelen reply = (if b then Z.min (2 * Z.of_nat (length name)) room else 0) ∧
        ek_data reply = if b then take (Z.to_nat room) (name_bytes name ++ name_bytes class) else []
    | None => r_keys r' = r_keys r ∧ r_error r' = STATUS_NO_MORE_ENTRIES ∧ reply = no_key_reply
    end) r) ∧
  ∀ info room, info = KeyFullInformation ∨ info = KeyCachedInformation →
    wp (req_enum_key p (-1) info room) (λ reply r', r_keys r' = r_keys r ∧
      ek_subkeys reply = Z.of_nat (length l) ∧
      greatest (ek_max_subkey reply) ((λ x, 2 * Z.of_nat (length x.1)) <$> l) ∧
      greatest (ek_max_class reply) ((λ x, 2 * Z.of_nat (length x.2)) <$> l) ∧
      ek_values reply = Z.of_nat (size (value_map k)) ∧
      (∀ n name type data, value_map k !! n = Some (name, type, data) →
         2 * Z.of_nat (length name) ≤ ek_max_value reply ∧ Z.of_nat (length data) ≤ ek_max_data reply)) r.
Proof.
  intros Hr Hk Hdel Hpre. destruct (children_listed root r ext p k Hr Hk) as (l & Hl & Hlists). exists l. split; [done|].
  assert (is_Some (k_name k)) as Hn.
  { pose proof (ko_named _ _ _ _ _ (to_keys _ _ _ Hr p k Hk)) as Hnamed. destruct (k_name k); [eauto|]. destruct Hnamed. congruence. }
  split; [intros i room Hi Hroom; by eapply enum_key_at|intros info room Hinfo; by eapply enum_key_sizes].
Qed.
End listing.

(** ** What a change notifies *)

(** Whether a change of a key fires a notification of this key, or of one above. *)
Definition fires (change : Z) (direct : bool) (n : notify) : bool := (direct || n_subtree n) && truth (Z.land change (n_filter n)).
Definition fired (change : Z) (direct : bool) (n : notify) : notify :=
  if fires change direct n then Notify [] (n_subtree n) (n_filter n) (n_hkey n) (n_process n) else n.
Definition due (change : Z) (direct : bool) (l : list notify) : list Z := flat_map (λ n, if fires change direct n then n_events n else []) l.
Definition watch (r : registry) (q : Z) : list notify := match r_keys r !! q with Some k => k_notify_list k | None => [] end.

Lemma flat_map_same {A B} (f g : A → list B) l : (∀ x, x ∈ l → f x = g x) → flat_map f l = flat_map g l.
Proof. induction l as [|x l IH]; intros Hfg; [done|]. simpl. rewrite Hfg, IH; [done| |by left]. intros y Hy. apply Hfg. by right. Qed.

Section notifications.
Context `{CaseMap}.
Implicit Types (p q : Z) (k : key) (r : registry) (change : Z) (direct : bool) (l : list Z).

Definition same_watch r r' : Prop := r_events r' = r_events r ∧ ∀ q, watch r' q = watch r q.
#[local] Instance same_watch_preorder : PreOrder same_watch.
Proof. split; [done|]. intros r1 r2 r3 [E1 W1] [E2 W2]. split; [congruence|]. intros q. by rewrite W2. Qed.
Lemma keeps_watch_update p f : (∀ k, k_notify_list (f k) = k_notify_list k) → keeps same_watch (update_key p f).
Proof.
  intros Hf r [] r'. unfold update_key, mbind, M_bind, key_of. destruct (r_keys r !! p) as [k|] eqn:Hk; [|done]. intros [= <-].
  split; [done|]. intros q. unfold watch. simpl. destruct (decide (p = q)) as [<-|Hne]; [by rewrite Hk, lookup_insert_eq|by rewrite lookup_insert_ne].
Qed.
Lemma keeps_watch_dirty fuel : ∀ o : option Z, keeps same_watch (make_dirty fuel o).
Proof.
  induction fuel as [|fuel IH]; intros [p|]; simpl; keeps_tac ltac:(first
    [apply keeps_key_of; apply _ | apply keeps_get_parent; apply _ | by apply keeps_watch_update | apply IH]).
Qed.

Lemma check_notifications_exact change direct ns : ∀ r Q,
  Q (fired change direct <$> ns) (Registry (r_keys r) (r_next r) (r_allocs r) (r_now r) (r_error r) (r_events r ++ due change direct ns)) →
  wp (check_notifications change direct ns) Q r.
Proof.
  induction ns as [|n ns IH]; intros r Q HQ; cbn [check_notifications].
  - rewrite wp_ret. simpl in HQ. rewrite app_nil_r in HQ. by destruct r.
  - rewrite wp_bind. cbn [fmap list_fmap due flat_map] in HQ. unfold fired at 1 in HQ. fold (fires change direct n). destruct (fires change direct n).
    + unfold do_notification_events. rewrite wp_bind, wp_modify, wp_ret, wp_bind. apply IH. rewrite wp_ret. simpl. by rewrite <- app_assoc.
    + rewrite wp_ret, wp_bind. apply IH. by rewrite wp_ret.
Qed.
(** [q]'s notifications are checked, those of the other keys stay. *)
Definition checked change direct q r r' : Prop :=
  touched r r' ∧ r_events r' = r_events r ++ due change direct (watch r q) ∧
  ∀ x, watch r' x = if decide (x = q) then fired change direct <$> watch r q else watch r x.
Lemma check_notify_exact change direct q k r : r_keys r !! q = Some k → wp (check_notify q change direct) (λ _ r', checked change direct q r r') r.
Proof.
  intros Hk. eapply wp_mono; [apply wp_keeps; [|apply (keeps_check_notify q change direct)]|].
  - unfold check_notify. rewrite wp_bind, (key_of_spec q r k), wp_bind by done. apply check_notifications_exact.
    rewrite (update_key_spec q _ _ k) by done. instantiate (1 := λ _ r', r_events r' = r_events r ++ due change direct (watch r q) ∧
      ∀ x, watch r' x = if decide (x = q) then fired change direct <$> watch r q else watch r x).
    unfold watch. rewrite Hk. split; [done|]. intros x. simpl. destruct (decide (x = q)) as [->|Hne]; [by rewrite lookup_insert_eq|by rewrite lookup_insert_ne].
  - by intros _ r' [[? ?] ?].
Qed.
Lemma notify_parents_exact change l : ∀ fuel (o : option Z) r, chain (r_keys r) o l → (length l ≤ fuel)%nat →
  wp (notify_parents fuel o change) (λ _ r', r_events r' = r_events r ++ flat_map (λ q, due change false (watch r q)) l ∧
    ∀ x, watch r' x = if decide (x ∈ l) then fired change false <$> watch r x else watch r x) r.
Proof.
  induction l as [|q l IH]; intros fuel o r Hl Hfuel.
  - simpl in Hl. subst o. assert (notify_parents fuel None change = mret tt) as -> by by destruct fuel. rewrite wp_ret. cbn [flat_map].
    rewrite app_nil_r. split; [done|]. intros x. by rewrite decide_False by apply not_elem_of_nil.
  - pose proof (chain_nodup _ _ _ Hl) as [Hnot _]%list.NoDup_cons. destruct Hl as [-> (k & Hk & Hn & Hl)]. destruct fuel as [|fuel]; [simpl in Hfuel; lia|]. cbn [notify_parents].
    rewrite wp_bind. eapply wp_mono; [by eapply check_notify_exact|]. intros _ r1 (Ht & E1 & W1). destruct (touched_lookup _ _ _ _ Ht Hk) as (k1 & Hk1 & f & m & n & -> & _).
    rewrite wp_bind, (key_of_spec q r1 _ Hk1), wp_bind, get_parent_spec by done.
    eapply wp_mono; [apply IH; [by eapply chain_touched|simpl in Hfuel; lia]|]. intros _ r2 [E2 W2]. split.
    + rewrite E2, E1. simpl. rewrite <- app_assoc. do 2 f_equal. apply flat_map_same. intros x Hx. rewrite W1, decide_False; [done|congruence].
    + intros x. rewrite W2, W1. destruct (decide (x = q)) as [->|Hx].
      * rewrite decide_False, decide_True by (done || by left). done.
      * destruct (decide (x ∈ l)); [rewrite decide_True by by right|rewrite decide_False by (by intros [?|?]%elem_of_cons)]; done.
Qed.

(** What a change of [p] notifies, if [l] are the keys from [p] up. *)
Definition all_due change p r l : list Z := flat_map (λ x, due change (bool_decide (x = p)) (watch r x)) l.
Definition watched_after change p r l x : list notify :=
  if decide (x ∈ l) then fired change (bool_decide (x = p)) <$> watch r x else watch r x.
Lemma touch_key_exact change p l r : chain (r_keys r) (Some p) l →
  wp (touch_key p change) (λ _ r', touched r r' ∧ r_events r' = r_events r ++ all_due change p r l ∧ ∀ x, watch r' x = watched_after change p r l x) r.
Proof.
  destruct l as [|p0 l]; [done|]. intros Hl. pose proof Hl as [[= <-] (k & Hk & Hn & Hl')]. pose proof (chain_length _ _ _ Hl) as Hlen.
  pose proof (chain_nodup _ _ _ Hl) as [Hnot _]%list.NoDup_cons.
  set (Q := λ (_ : ()) r', r_events r' = r_events r ++ all_due change p r (p :: l) ∧ ∀ x, watch r' x = watched_after change p r (p :: l) x).
  eapply wp_mono; [apply (wp_keeps touched _ Q); [|apply (keeps_touch_key p change)]|by intros _ r' [[? ?] ?]]. unfold Q.
  unfold touch_key. rewrite wp_bind, wp_gets, wp_bind. unfold id.
  apply (wp_mono _ (λ _ r1, touched r r1 ∧ same_watch r r1)).
  { apply (wp_keeps same_watch _ (λ _ r1, touched r r1)); [|by apply keeps_watch_update]. apply wp_keeps_touched; [by rewrite (update_key_spec p _ r k)|apply keeps_touch_update, touched_modif|done]. }
  intros _ r1 [H1 S1]. rewrite wp_bind. apply (wp_mono _ (λ _ r2, touched r r2 ∧ same_watch r r2)).
  { eapply wp_mono; [apply (wp_keeps same_watch _ (λ _ r2, touched r r2)); [|apply keeps_watch_dirty]|intros _ r2 [? ?]; split; [done|by etrans]].
    apply wp_keeps_touched; [by apply (make_dirty_ends (p :: l)); [by eapply chain_touched|]|apply keeps_make_dirty|]. intros _ r2 H2. by etrans. }
  intros _ r2 [H2 [E2 W2]]. destruct (touched_lookup _ _ _ _ H2 Hk) as (k2 & Hk2 & _). rewrite wp_bind.
  eapply wp_mono; [by eapply check_notify_exact|]. intros _ r3 (H3 & E3 & W3). assert (touched r r3) as H03 by by etrans.
  destruct (touched_lookup _ _ _ _ H03 Hk) as (k3 & Hk3 & f & m & n & -> & _). rewrite wp_bind, (key_of_spec p r3 _ Hk3), wp_bind, get_parent_spec by done.
  eapply wp_mono; [apply notify_parents_exact with (l := l); [by eapply chain_touched|simpl in Hlen; lia]|]. intros _ r4 [E4 W4]. split.
  - rewrite E4, E3, E2, W2. unfold all_due. cbn [flat_map]. rewrite <- app_assoc, bool_decide_true by done. do 2 f_equal. apply flat_map_same.
    intros x Hx. assert (x ≠ p) by congruence. by rewrite W3, decide_False, bool_decide_false, W2.
  - intros x. rewrite W4, W3, !W2. unfold watched_after. destruct (decide (x = p)) as [->|Hx].
    + rewrite decide_False, decide_True, bool_decide_true by (done || by left). done.
    + rewrite bool_decide_false by done. destruct (decide (x ∈ l)); [rewrite decide_True by by right|rewrite decide_False by (by intros [?|?]%elem_of_cons)]; done.
Qed.

(** ** The life of a notification *)

Lemma due_cons change direct n ns : due change direct (n :: ns) = due change direct [n] ++ due change direct ns.
Proof. unfold due. cbn [flat_map]. by rewrite app_nil_r. Qed.
Lemma find_notify_watch r q k process hkey : r_keys r !! q = Some k → find_notify k process hkey = list_find (λ n, n_process n = process ∧ n_hkey n = hkey) (watch r q).
Proof. intros Hk. unfold find_notify, watch. by rewrite Hk. Qed.
Lemma watch_update r q f x : watch (set_keys (<[q := f]> (r_keys r)) r) x = if decide (x = q) then k_notify_list f else watch r x.
Proof. unfold watch. simpl. case_decide as E; [by rewrite E, lookup_insert_eq|by rewrite lookup_insert_ne]. Qed.

(** The request adds the notification in front. *)
Lemma set_notification_spec r q k process hkey e subtree filter : r_keys r !! q = Some k → has_flag k KEY_DELETED = false →
  find_notify k process hkey = None → memory_left r →
  wp (req_set_registry_notification q process hkey (inl e) subtree filter) (λ ev r', ev = Some e ∧ r_error r' = STATUS_PENDING ∧ r_events r' = r_events r ∧
    (∀ x, watch r' x = if decide (x = q) then Notify [e] subtree filter hkey process :: watch r q else watch r x) ∧
    ∀ (o : option Z) l, chain (r_keys r) o l → chain (r_keys r') o l) r.
Proof.
  intros Hk Hdel Hnone Hm. unfold req_set_registry_notification, get_hkey_obj. rewrite wp_bind, wp_bind, (key_of_spec q r k), Hdel, wp_ret by done.
  rewrite wp_bind, (key_of_spec q r k), Hnone, wp_bind, wp_bind by done. eapply wp_mono; [by apply mem_alloc_ok_true|]. intros ok r1 (-> & Hu1). cbn [negb].
  pose proof Hu1 as (K1 & _ & _ & _ & V1 & _). assert (r_keys r1 !! q = Some k) as Hk1 by by rewrite K1.
  rewrite wp_bind, (update_key_spec q _ r1 k), wp_ret by done. set (n := Notify [] subtree filter hkey process). set (k' := with_notify _ k).
  set (r2 := set_keys _ r1). rewrite wp_bind. eapply wp_mono; [apply malloc_ok_spec; by eapply (memory_left_used r r1)|]. intros ok r3 (-> & Hu3). cbn [negb].
  pose proof Hu3 as (K3 & _ & _ & _ & V3 & _). assert (r_keys r3 !! q = Some k') as Hk3 by (rewrite K3; apply lookup_insert_eq).
  rewrite wp_bind, (update_key_spec q _ r3 k') by done. unfold set_error. rewrite wp_bind, wp_modify, wp_ret. simpl. split_and!; [done|done|by rewrite V3|..].
  - intros x. change (watch (set_keys (<[q := with_notify (Notify [e] subtree filter hkey process :: k_notify_list k) k']> (r_keys r3)) r3) x =
      if decide (x = q) then Notify [e] subtree filter hkey process :: watch r q else watch r x).
    rewrite watch_update. unfold watch. rewrite K3. simpl. rewrite K1. case_decide as E; [by rewrite Hk|by rewrite lookup_insert_ne].
  - intros o l Hl. rewrite K3. simpl. rewrite K1. clear - Hl Hk. revert o Hl. induction l as [|x l IH]; intros o; [done|].
    intros [-> (kx & Hx & Hn & Hl)]. split; [done|]. destruct (decide (x = q)) as [->|Hne].
    + assert (kx = k) as -> by congruence. eexists. rewrite lookup_insert_eq. split; [done|]. split; [done|]. by apply IH.
    + exists kx. rewrite !lookup_insert_ne by done. split_and!; [done|done|by apply IH].
Qed.
Lemma close_notification_spec r q k process hkey n ns : r_keys r !! q = Some k → k_notify_list k = n :: ns → n_process n = process → n_hkey n = hkey →
  wp (key_close_handle q process hkey) (λ b r', b = true ∧ r_events r' = r_events r ++ n_events n ∧ ∀ x, watch r' x = if decide (x = q) then ns else watch r x) r.
Proof.
  intros Hk Hns <- <-. unfold key_close_handle, find_notify. rewrite wp_bind, (key_of_spec q r k) by done. rewrite Hns. cbn [list_find].
  rewrite decide_True by done. unfold do_notification_events. rewrite wp_bind, wp_bind, wp_modify, wp_ret, wp_bind.
  rewrite (update_key_spec q _ _ k), wp_ret by done. rewrite Hns. split_and!; [done|done|]. intros x. unfold watch. simpl.
  case_decide as E; [by rewrite E, lookup_insert_eq|by rewrite lookup_insert_ne].
Qed.

(** C28: an event that is registered on a key for changes is set exactly once: by the first change that the filter asks for, of the key itself or, for a subtree, of a key below it,
    or else when the handle is closed. A change of the key [p] sets the events of all other notifications on the way to the root as they ask, once each, and of no others. *)
Theorem registered_event_set_once r p l q k process hkey e subtree filter change :
  chain (r_keys r) (Some p) l → q ∈ l → r_keys r !! q = Some k → has_flag k KEY_DELETED = false → find_notify k process hkey = None → memory_left r →
  let wanted := fires change (bool_decide (q = p)) (Notify [e] subtree filter hkey process) in
  wp (req_set_registry_notification q process hkey (inl e) subtree filter) (λ ev r1, ev = Some e ∧ r_error r1 = STATUS_PENDING ∧ r_events r1 = r_events r ∧
    wp (touch_key p change) (λ _ r2,
      r_events r2 = r_events r ++ flat_map (λ x, (if bool_decide (x = q) && wanted then [e] else []) ++ due change (bool_decide (x = p)) (watch r x)) l ∧
      wp (key_close_handle q process hkey) (λ b r3, b = true ∧ r_events r3 = r_events r2 ++ (if wanted then [] else [e]) ∧
        ∀ x, watch r3 x = watched_after change p r l x) r2) r1) r.
Proof.
  intros Hl Hq Hk Hdel Hnone Hm wanted. eapply wp_mono; [by apply (set_notification_spec r q k)|]. intros ev r1 (-> & E1 & V1 & W1 & C1).
  split_and!; [done..|]. eapply wp_mono; [apply (touch_key_exact change p l r1); by apply C1|]. intros _ r2 (Ht & V2 & W2). split.
  - rewrite V2, V1. f_equal. apply flat_map_same. intros x _. rewrite W1. case_decide as E; [subst x|by rewrite (bool_decide_false (x = q))].
    rewrite (bool_decide_true (q = q)), due_cons by done. f_equal. unfold due, wanted. simpl. destruct (fires _ _ _); [done|done].
  - pose proof (W2 q) as Wq. unfold watched_after in Wq. rewrite W1, !decide_True in Wq by done. unfold watch in Wq at 1.
    destruct (r_keys r2 !! q) as [k2|] eqn:Hk2; [|done]. cbn [fmap list_fmap] in Wq.
    eapply wp_mono; [apply (close_notification_spec r2 q k2 process hkey _ _ Hk2 Wq); unfold fired; by destruct (fires _ _ _)|].
    intros b r3 (-> & V3 & W3). split_and!; [done| |].
    + rewrite V3. f_equal. unfold fired, wanted. by destruct (fires _ _ _).
    + intros x. rewrite W3, W2. unfold watched_after. rewrite W1. destruct (decide (x = q)) as [->|Hx]; [by rewrite decide_True|done].
Qed.
End notifications.

(** ** A concrete tree *)

(** The keys of [saved_registry] in order, and how its root is described. *)
Lemma enumeration_lists_subkeys_witness :
  tree_ok 1 saved_registry (ext_of []) ∧ r_keys saved_registry !! 1 = Some saved_root ∧
  wp (req_enum_key 1 0 KeyNodeInformation 100) (λ reply _, ek_data reply = [65; 0; 99; 0]) saved_registry ∧
  wp (req_enum_key 1 1 KeyNodeInformation 100) (λ reply _, ek_data reply = [98; 0]) saved_registry ∧
  wp (req_enum_key 1 2 KeyNodeInformation 100) (λ reply _, ek_data reply = [100; 0]) saved_registry ∧
  ∃ l, lists_children (abs saved_registry) 1 l ∧
    wp (req_enum_key 1 3 KeyNodeInformation 100) (λ reply r', array_get l 3 = None → r_error r' = STATUS_NO_MORE_ENTRIES) saved_registry ∧
    wp (req_enum_key 1 (-1) KeyFullInformation 0) (λ reply _, ek_subkeys reply = Z.of_nat (length l)) saved_registry.
Proof.
  split; [exact saved_tree_ok|]. split; [done|]. split; [by vm_compute|]. split; [by vm_compute|]. split; [by vm_compute|].
  destruct (enumeration_lists_subkeys 1 saved_registry (ext_of []) 1 saved_root saved_tree_ok eq_refl eq_refl eq_refl) as (l & Hl & Hi & Hs).
  exists l. split; [exact Hl|]. split.
  - eapply wp_mono; [apply (Hi 3 100); done|]. intros reply r' Hreply E. rewrite E in Hreply. apply Hreply.
  - eapply wp_mono; [apply (Hs KeyFullInformation 0); by left|]. intros reply r' Hreply. apply Hreply.
Defined.

(** "\r\A\x". *)
Lemma full_name_leads_back_witness :
  tree_ok 1 saved_registry (ext_of []) ∧ proper_names saved_registry ∧
  wp (req_enum_key 4 (-1) KeyNameInformation 100) (λ reply _, wchars (ek_data reply) = [92; 114; 92; 65; 92; 120]) saved_registry ∧
  wp (req_enum_key 4 (-1) KeyNameInformation 100) (λ reply r', ∃ name, ek_data reply = take 100 (name_bytes name) ∧
    wp (lookup_absolute 1 not_found 33 name) (λ l r'', ∃ left, l = Some (4, left) ∧ default [] left = []) r') saved_registry.
Proof.
  assert (proper_names saved_registry) as Hp.
  { refine (saved_keys_forall (λ _ k, is_Some (k_parent k) → k_name k ≠ Some []) _ _ _ _ _ _); done. }
  assert (no_links saved_registry) as Hl by (by refine (saved_keys_forall (λ _ k, has_flag k KEY_SYMLINK = false) _ _ _ _ _ _)).
  split; [exact saved_tree_ok|]. split; [exact Hp|]. split; [by vm_compute|].
  eapply wp_mono; [apply (full_name_leads_back 1 not_found saved_registry (ext_of []) 4 saved_x 100 saved_tree_ok)|].
  - intros p. done.
  - exact Hl.
  - exact Hp.
  - apply not_elem_of_nil.
  - done.
  - by eexists.
  - done.
  - done.
  - intros reply r' (name & _ & E & _ & Hw). exists name. split; [exact E|]. eapply wp_mono; [exact Hw|]. intros lk r'' (left & ? & ? & _). by exists left.
Defined.

(** A subtree of "A" is watched when a value of "A\x" changes. *)
Lemma registered_event_set_once_witness :
  chain (r_keys saved_registry) (Some 4) [4; 2; 1] ∧
  wp (req_set_registry_notification 2 10 20 (inl 30) true REG_NOTIFY_CHANGE_LAST_SET) (λ ev r1, ev = Some 30 ∧
    wp (touch_key 4 REG_NOTIFY_CHANGE_LAST_SET) (λ _ r2, r_events r2 = [30] ∧
      wp (key_close_handle 2 10 20) (λ _ r3, r_events r3 = [30] ∧ watch r3 2 = []) r2) r1) saved_registry.
Proof.
  assert (chain (r_keys saved_registry) (Some 4) [4; 2; 1]) as Hl by (repeat (split; [done|]; eexists; split; [reflexivity|]; split; [by eexists|]); done).
  split; [exact Hl|].
  eapply wp_mono; [apply (registered_event_set_once saved_registry 4 [4; 2; 1] 2 saved_a 10 20 30 true REG_NOTIFY_CHANGE_LAST_SET REG_NOTIFY_CHANGE_LAST_SET Hl)|].
  - by right; left.
  - done.
  - done.
  - done.
  - apply not_elem_of_nil.
  - intros ev r1 (-> & _ & _ & Htouch). split; [done|]. eapply wp_mono; [exact Htouch|]. intros _ r2 (E2 & Hclose). split; [exact E2|].
    eapply wp_mono; [exact Hclose|]. intros b r3 (_ & E3 & W3). split; [by rewrite E3, E2|]. by rewrite W3.
Defined.
