(* ===== verification/SecuritySpec.v ===== *)
(** * What an access check grants

    A declarative reading of [token_access_check] (src/server/token.c): which entries of the
    access list decide, bit by bit, for a specific access and for MAXIMUM_ALLOWED. *)

From S2P Require Import Prelude.
From S2P Require Import ShmState.
From S2P Require Import Security.

Section access.
Context (t : token) (mapping : generic_map).

(** Entry [a] grants, or denies, the right of bit [n] to the token. *)
Definition grants (a : ace) (n : Z) : Prop :=
  has (ace_flags a) INHERIT_ONLY_ACE = false ∧ ace_type a = ACCESS_ALLOWED_ACE_TYPE ∧
  token_sid_present t (ace_sid a) false = true ∧ Z.testbit (map_access (ace_mask a) mapping) n = true.
Definition denies (a : ace) (n : Z) : Prop :=
  has (ace_flags a) INHERIT_ONLY_ACE = false ∧ ace_type a = ACCESS_DENIED_ACE_TYPE ∧
  token_sid_present t (ace_sid a) true = true ∧ Z.testbit (map_access (ace_mask a) mapping) n = true.

(** Entry [a] denies one of the desired rights. *)
Definition blocks (desired : Z) (a : ace) : Prop :=
  ∃ n, 0 ≤ n ∧ Z.testbit desired n = true ∧ denies a n.

(** An entry of the list grants bit [n], and no entry before it blocks. *)
Definition granted_in (desired : Z) (l : list ace) (n : Z) : Prop :=
  ∃ l1 a l2, l = l1 ++ a :: l2 ∧ grants a n ∧ Forall (λ b, ¬ blocks desired b) l1.

(** The rights that do not come from the access list. *)
Definition base_rights (owner : sid) (desired : Z) : Z :=
  Z.lor (if has desired ACCESS_SYSTEM_SECURITY then ACCESS_SYSTEM_SECURITY else 0)
        (if token_sid_present t owner false then Z.lor STANDARD_RIGHTS_REQUIRED SYNCHRONIZE else 0).

Lemma granted_in_nil desired n : ¬ granted_in desired [] n.
Proof. by intros ([|? ?] & b & l2 & E & _). Qed.
Lemma granted_in_cons desired a l n :
  granted_in desired (a :: l) n ↔ grants a n ∨ ¬ blocks desired a ∧ granted_in desired l n.
Proof.
  split.
  - intros ([|b l1] & c & l2 & E & Hg & Hb); injection E as -> ->; [by left|].
    apply list.Forall_cons in Hb as [Hb Hl1]. right. split; [done|]. by exists l1, c, l2.
  - intros [Hg|(Hb & l1 & c & l2 & -> & Hg & Hl1)]; [by exists [], a, l|].
    exists (a :: l1), c, l2. split_and!; [done..|]. by constructor.
Qed.
End access.

(** ** The scan for a specific access *)

Section specific.
Context (t : token) (mapping : generic_map) (desired : Z).
Hypothesis Hmax : has desired MAXIMUM_ALLOWED = false.

Lemma has_lor_false x y z : has x y = false → has x z = false → has x (Z.lor y z) = false.
Proof.
  intros Hy Hz. apply not_true_is_false. intros (n & Hn & Hx & Hb)%land_truth_spec.
  rewrite Z.lor_spec, (land_truth_false _ _ _ Hy Hn Hx), (land_truth_false _ _ _ Hz Hn Hx) in Hb. done.
Qed.
Lemma has_ldiff_false x y z : has x y = false → has x (Z.ldiff y z) = false.
Proof.
  intros Hy. apply not_true_is_false. intros (n & Hn & Hx & Hb)%land_truth_spec.
  by rewrite Z.ldiff_spec, (land_truth_false _ _ _ Hy Hn Hx) in Hb.
Qed.

(** What one entry does to the rights collected so far. *)
Lemma check_ace_specific a current denied :
  has (ace_flags a) INHERIT_ONLY_ACE = false →
  has desired denied = false →
  let '(current', denied', stop) := check_ace t mapping desired a current denied in
  if stop : bool then current' = current ∧ blocks t mapping desired a ∧ ∀ n, ¬ grants t mapping a n
  else has desired denied' = false ∧ ¬ blocks t mapping desired a ∧
    ∀ n, 0 ≤ n → Z.testbit desired n = true →
      Z.testbit current' n = true ↔ Z.testbit current n = true ∨ grants t mapping a n.
Proof.
  intros Hio Hd. unfold check_ace, blocks, grants, denies. rewrite Hmax.
  destruct (Z.eqb_spec (ace_type a) ACCESS_DENIED_ACE_TYPE) as [E|E].
  - rewrite E. destruct (token_sid_present t (ace_sid a) true) eqn:Hs.
    + destruct (has desired (map_access (ace_mask a) mapping)) eqn:Ha.
      * split_and!; [done| |naive_solver]. apply land_truth_spec in Ha. naive_solver.
      * split_and!; [by apply has_lor_false, has_ldiff_false| |naive_solver].
        intros (n & Hn & Hb & _ & _ & _ & Hm).
        by rewrite (land_truth_false _ _ _ Ha Hn Hb) in Hm.
    + split_and!; [done|naive_solver..].
  - destruct (Z.eqb_spec (ace_type a) ACCESS_ALLOWED_ACE_TYPE) as [E'|E']; [|naive_solver].
    destruct (token_sid_present t (ace_sid a) false) eqn:Hs; [|naive_solver].
    split_and!; [done|naive_solver|]. intros n Hn Hb.
    rewrite Z.lor_spec, Z.ldiff_spec, (land_truth_false _ _ _ Hd Hn Hb), andb_true_r, orb_true_iff.
    naive_solver.
Qed.

(** The scan collects, of the desired rights, those the list grants before it blocks. *)
Lemma check_dacl_specific l current denied current' denied' :
  desired ≠ 0 → has desired denied = false →
  check_dacl t mapping desired 0 l current denied = (current', denied') →
  ∀ n, 0 ≤ n → Z.testbit desired n = true →
    Z.testbit current' n = true ↔ Z.testbit current n = true ∨ granted_in t mapping desired l n.
Proof.
  intros Hne. revert current denied. induction l as [|a l IH]; intros current denied Hd; simpl.
  - intros [= -> ->] n _ _. pose proof (granted_in_nil t mapping desired n). tauto.
  - destruct (has (ace_flags a) INHERIT_ONLY_ACE) eqn:Hio.
    + intros E n Hn Hb. rewrite (IH _ _ Hd E n Hn Hb), granted_in_cons.
      unfold blocks, grants, denies. rewrite Hio. naive_solver.
    + pose proof (check_ace_specific a current denied Hio Hd) as H.
      destruct (check_ace t mapping desired a current denied) as [[c d] [|]].
      * destruct H as (-> & Hbl & Hng). intros [= -> ->] n Hn Hb.
        rewrite granted_in_cons. naive_solver.
      * destruct H as (Hd' & Hbl & Hc). rewrite (proj2 (Z.eqb_neq desired 0) Hne).
        intros E n Hn Hb. rewrite (IH _ _ Hd' E n Hn Hb), granted_in_cons, (Hc n Hn Hb). naive_solver.
Qed.
End specific.

(** ** The scan for MAXIMUM_ALLOWED *)

Lemma check_dacl_maximum t mapping desired l current denied current' denied' n :
  has desired MAXIMUM_ALLOWED = true → 0 ≤ n →
  check_dacl t mapping desired 0 l current denied = (current', denied') →
  (Z.testbit current' n = true ↔ Z.testbit current n = true ∨ Exists (λ a, grants t mapping a n) l) ∧
  (Z.testbit denied' n = true ↔ Z.testbit denied n = true ∨ Exists (λ a, denies t mapping a n) l).
Proof.
  intros Hmax Hn. assert (desired =? 0 = false) as Hne.
  { apply Z.eqb_neq. by intros ->. }
  revert current denied. induction l as [|a l IH]; intros current denied; simpl.
  { intros [= -> ->]. rewrite !List.Exists_nil. tauto. }
  rewrite !List.Exists_cons. unfold check_ace, grants at 1, denies at 1. rewrite Hmax, Hne.
  destruct (has (ace_flags a) INHERIT_ONLY_ACE).
  { intros E. destruct (IH _ _ E). naive_solver. }
  destruct (Z.eqb_spec (ace_type a) ACCESS_DENIED_ACE_TYPE) as [E|E].
  - assert (ace_type a ≠ ACCESS_ALLOWED_ACE_TYPE) by (rewrite E; done).
    destruct (token_sid_present t (ace_sid a) true) eqn:Hs; intros E'; destruct (IH _ _ E') as [-> ->];
      [rewrite Z.lor_spec, orb_true_iff|]; naive_solver.
  - destruct (Z.eqb_spec (ace_type a) ACCESS_ALLOWED_ACE_TYPE) as [Ea|Ea];
      [destruct (token_sid_present t (ace_sid a) false) eqn:Hs|]; intros E'; destruct (IH _ _ E') as [-> ->];
      [rewrite Z.lor_spec, orb_true_iff|..]; naive_solver.
Qed.

(** ** The whole check *)

(** A descriptor with an owner, a group and a present access list. *)
Definition protected_by (sd : security_descriptor) (owner : sid) (dacl : list ace) : Prop :=
  sd_owner sd = Some owner ∧ is_Some (sd_group sd) ∧ sd_dacl sd = Some dacl ∧
  has (sd_control sd) SE_DACL_PRESENT = true.

(** A valid descriptor whose access list is not present, or NULL. *)
Definition unprotected (sd : security_descriptor) : Prop :=
  is_Some (sd_owner sd) ∧ is_Some (sd_group sd) ∧
  (sd_dacl sd = None ∨ has (sd_control sd) SE_DACL_PRESENT = false).

(** The token's entry for SeSecurityPrivilege is enabled. *)
Definition holds_security (t : token) : Prop :=
  ∃ l1 p l2, tok_privileges t = l1 ++ p :: l2 ∧ p_luid p = SeSecurityPrivilege ∧ p_enabled p = true ∧
    Forall (λ q, p_luid q ≠ SeSecurityPrivilege) l1.

(** SeSecurityPrivilege is held, and there is room to report it, when the access needs it. *)
Definition security_allowed (t : token) (desired : Z) (priv_count : option Z) : Prop :=
  has desired ACCESS_SYSTEM_SECURITY = true → holds_security t ∧ ∀ n, priv_count = Some n → 1 ≤ n.

(** The number of privileges, and the privilege, that a check which reaches the access list
    reports to a caller that asks for them. *)
Definition reported_count (desired : Z) (priv_count : option Z) : option Z :=
  (λ _, if has desired ACCESS_SYSTEM_SECURITY then 1 else 0) <$> priv_count.
Definition reported_privs (desired : Z) (priv_count : option Z) : option luid_attr :=
  if has desired ACCESS_SYSTEM_SECURITY
  then (λ _, LuidAttr SeSecurityPrivilege SE_PRIVILEGE_USED_FOR_ACCESS) <$> priv_count else None.

(** The outcomes that do not look at the rights: generic rights are an error, and so is a
    descriptor without owner or group; the system security right of a protected object is
    refused, whatever else is asked for, to a token that lacks the privilege, and an error
    when there is no room to report the privilege. *)
Definition early_outcomes (t : token) (sd : security_descriptor) (desired : Z) (priv_count : option Z)
    (r : access_result) : Prop :=
  let none := (λ _, 0) <$> priv_count in
  (has desired GENERIC_RIGHTS = true → r = AccessResult STATUS_GENERIC_NOT_MAPPED 0 None none None) ∧
  (has desired GENERIC_RIGHTS = false →
     (sd_owner sd = None ∨ sd_group sd = None →
        r = AccessResult STATUS_INVALID_SECURITY_DESCR 0 None none None) ∧
     (∀ owner dacl, protected_by sd owner dacl → has desired ACCESS_SYSTEM_SECURITY = true →
        (¬ holds_security t →
           r = AccessResult STATUS_SUCCESS 0 (Some STATUS_PRIVILEGE_NOT_HELD) none None) ∧
        (∀ n, holds_security t → priv_count = Some n → n < 1 →
           r = AccessResult STATUS_BUFFER_TOO_SMALL 0 None (Some 1) None))).

Lemma find_privilege_enabled l luid :
  is_Some (find_privilege l luid true) ↔
  ∃ l1 p l2, l = l1 ++ p :: l2 ∧ p_luid p = luid ∧ p_enabled p = true ∧ Forall (λ q, p_luid q ≠ luid) l1.
Proof.
  unfold is_Some. induction l as [|p l IH]; simpl.
  { split; [by intros [??]|by intros ([|??] & ? & ? & ? & _)]. }
  unfold is_equal_luid. case_bool_decide as E.
  - split.
    + destruct (p_enabled p) eqn:He; [|by intros [??]]. intros _. by exists [], p, l.
    + intros ([|q l1] & p' & l2 & E' & Hp & He & Hl); simplify_eq/=; [rewrite He; simpl; eauto|].
      apply list.Forall_cons in Hl as [Hl _]. congruence.
  - rewrite IH. split.
    + intros (l1 & p' & l2 & -> & ? & ? & ?). exists (p :: l1), p', l2. split_and!; [done..|].
      constructor; [congruence|done].
    + intros ([|q l1] & p' & l2 & E' & ? & ? & Hl); simplify_eq/=.
      apply list.Forall_cons in Hl as [_ Hl]. by exists l1, p', l2.
Qed.

(** The check for the one privilege, and what it reports. *)
Lemma check_security t :
  (holds_security t ∧ token_check_privileges t true [LuidAttr SeSecurityPrivilege 0] =
     (true, [LuidAttr SeSecurityPrivilege SE_PRIVILEGE_USED_FOR_ACCESS])) ∨
  (¬ holds_security t ∧ token_check_privileges t true [LuidAttr SeSecurityPrivilege 0] =
     (false, [LuidAttr SeSecurityPrivilege 0])).
Proof.
  unfold holds_security, token_check_privileges. simpl. unfold token_find_privilege.
  rewrite <- find_privilege_enabled.
  destruct (find_privilege (tok_privileges t) SeSecurityPrivilege true) as [p|] eqn:E.
  - left. split; [done|]. assert (p_enabled p = true) as ->; [|done].
    revert E. induction (tok_privileges t) as [|q l IH]; simpl; [done|].
    destruct (is_equal_luid SeSecurityPrivilege (p_luid q)); [|done].
    destruct (p_enabled q) eqn:Eq; [|done]. simpl. by intros [= <-].
  - right. by split; [intros [??]|].
Qed.

Lemma access_check_early t sd desired pc mapping :
  early_outcomes t sd desired pc (token_access_check t sd desired pc mapping).
Proof.
  unfold early_outcomes, token_access_check, sd_get_dacl. split; [by intros ->|]. intros ->. split.
  { intros [->| ->]; [done|]. by destruct (sd_owner sd). }
  intros owner dacl (-> & [g ->] & -> & ->) ->. simpl fst.
  destruct (check_security t) as [[Hh ->]|[Hh ->]]; [|done].
  split; [done|]. intros n _ -> Hn. by rewrite (proj2 (Z.leb_gt 1 n) Hn).
Qed.

Lemma access_check_unprotected t sd desired pc mapping :
  has desired GENERIC_RIGHTS = false → unprotected sd →
  token_access_check t sd desired pc mapping =
  AccessResult STATUS_SUCCESS (if has desired MAXIMUM_ALLOWED then gm_all mapping else desired)
    (Some STATUS_SUCCESS) ((λ _, 0) <$> pc) None.
Proof.
  unfold unprotected, token_access_check, sd_get_dacl. intros -> ([o ->] & [g ->] & [->| ->]); [|done].
  by destruct (has _ SE_DACL_PRESENT).
Qed.

(** The result of scanning the list from the base rights. *)
Definition scan_result (t : token) (mapping : generic_map) (desired base : Z) (pc : option Z)
    (dacl : list ace) : access_result :=
  let '(current, denied) := check_dacl t mapping desired 0 dacl base 0 in
  let granted := final_access desired current denied in
  AccessResult STATUS_SUCCESS granted
    (Some (if truth granted then STATUS_SUCCESS else STATUS_ACCESS_DENIED))
    (reported_count desired pc) (reported_privs desired pc).

(** Either the base rights are enough, or the list is scanned from them. *)
Lemma access_check_cases t sd owner dacl desired pc mapping :
  protected_by sd owner dacl → has desired GENERIC_RIGHTS = false → security_allowed t desired pc →
  let base := base_rights t owner desired in
  let r := token_access_check t sd desired pc mapping in
  (r = AccessResult STATUS_SUCCESS desired (Some STATUS_SUCCESS)
         (reported_count desired pc) (reported_privs desired pc) ∧
   Z.land base desired =? desired = true ∧ desired ≠ 0) ∨
  r = scan_result t mapping desired base pc dacl.
Proof.
  intros (Ho & [g Hg] & Hd & Hp) Hgen Hsec.
  unfold token_access_check, sd_get_dacl, base_rights, scan_result, reported_count, reported_privs.
  rewrite Hgen, Ho, Hg, Hd, Hp. unfold security_allowed in Hsec.
  destruct (has desired ACCESS_SYSTEM_SECURITY).
  - destruct (Hsec eq_refl) as [Hh Hn]. destruct (check_security t) as [[_ ->]|[? _]]; [|done].
    simpl negb. cbv iota.
    destruct pc as [n|]; [rewrite (proj2 (Z.leb_le 1 n) (Hn n eq_refl))|];
      (destruct (Z.eqb_spec desired ACCESS_SYSTEM_SECURITY) as [->|Hne];
        [left; split_and!; [done|by destruct (token_sid_present t owner false)|done]|]);
      (destruct (token_sid_present t owner false); simpl andb; [|by right]);
      (destruct (Z.eqb_spec desired (Z.lor ACCESS_SYSTEM_SECURITY (Z.lor STANDARD_RIGHTS_REQUIRED SYNCHRONIZE)))
        as [->|]; [left; done|right; done]).
  - destruct (token_sid_present t owner false); simpl andb; rewrite ?Z.lor_0_l; [|by right].
    destruct (Z.eqb_spec desired (Z.lor STANDARD_RIGHTS_REQUIRED SYNCHRONIZE)) as [->|]; [by left|by right].
Qed.

(** C39: Access check for specific rights (MAXIMUM_ALLOWED not among them), every case.
    Generic rights, a descriptor without owner or group, the system security right asked by
    a token whose SeSecurityPrivilege is not enabled (PRIVILEGE_NOT_HELD, whatever else is
    asked for) and no room to report that privilege have the outcomes of [early_outcomes];
    without an access list (absent or NULL) the desired access is granted as asked, with no
    privilege reported. Otherwise the desired access is granted in full or refused in full
    (ACCESS_DENIED), and the use of the privilege is reported exactly when the system
    security right was asked for; it is granted exactly when it is not 0 and each desired
    right is the owner's, is the system security right, or is granted by an applicable allow
    entry that no applicable deny entry for one of the desired rights precedes. *)
Theorem specific_access_check t sd desired pc mapping :
  has desired MAXIMUM_ALLOWED = false →
  let r := token_access_check t sd desired pc mapping in
  early_outcomes t sd desired pc r ∧
  (has desired GENERIC_RIGHTS = false →
   (unprotected sd →
      r = AccessResult STATUS_SUCCESS desired (Some STATUS_SUCCESS) ((λ _, 0) <$> pc) None) ∧
   (∀ owner dacl, protected_by sd owner dacl → security_allowed t desired pc →
      ∃ ok : bool,
        r = AccessResult STATUS_SUCCESS (if ok then desired else 0)
              (Some (if ok then STATUS_SUCCESS else STATUS_ACCESS_DENIED))
              (reported_count desired pc) (reported_privs desired pc) ∧
        (ok = true ↔ desired ≠ 0 ∧ ∀ n, 0 ≤ n → Z.testbit desired n = true →
           Z.testbit (base_rights t owner desired) n = true ∨ granted_in t mapping desired dacl n))).
Proof.
  intros Hmax r. split; [apply access_check_early|]. intros Hgen. split.
  { intros Hun. subst r. by rewrite access_check_unprotected, Hmax. }
  intros owner dacl Hsd Hsec.
  destruct (access_check_cases t sd owner dacl desired pc mapping Hsd Hgen Hsec) as [(E & Hb & Hne)|E];
    subst r; rewrite E; clear E.
  { exists true. rewrite land_subset in Hb. naive_solver. }
  unfold scan_result.
  destruct (check_dacl t mapping desired 0 dacl (base_rights t owner desired) 0) as [c d] eqn:Es.
  unfold final_access. rewrite Hmax. destruct (decide (desired = 0)) as [->|Hne].
  { rewrite Z.land_0_r. exists false. split; [done|]. naive_solver. }
  assert (has desired 0 = false) as H0 by (unfold has; by rewrite Z.land_0_r).
  pose proof (check_dacl_specific t mapping desired Hmax _ _ _ _ _ Hne H0 Es) as Hc.
  exists (Z.land c desired =? desired). destruct (Z.land c desired =? desired) eqn:Ec.
  - assert (Z.land c desired = desired) as -> by (by apply Z.eqb_eq).
    assert (truth desired = true) as -> by (unfold truth; by rewrite (proj2 (Z.eqb_neq _ _) Hne)).
    rewrite land_subset in Ec. naive_solver.
  - split; [done|]. split; [done|]. intros [_ H].
    assert ((Z.land c desired =? desired) = true); [|congruence].
    apply land_subset. naive_solver.
Qed.

Lemma base_rights_no_maximum t owner desired :
  has desired MAXIMUM_ALLOWED = true → Z.land (base_rights t owner desired) desired =? desired = false.
Proof.
  intros Hmax. apply not_true_is_false. rewrite land_subset. intros H.
  unfold has, truth in Hmax. change MAXIMUM_ALLOWED with (2 ^ 25) in Hmax.
  rewrite land_pow2_testbit, negb_involutive in Hmax by lia.
  specialize (H 25 ltac:(lia) Hmax). unfold base_rights in H. revert H.
  by destruct (has desired ACCESS_SYSTEM_SECURITY), (token_sid_present t owner false).
Qed.

Lemma maximum_access_scan t sd owner dacl desired pc mapping :
  protected_by sd owner dacl → has desired GENERIC_RIGHTS = false → security_allowed t desired pc →
  has desired MAXIMUM_ALLOWED = true →
  let r := token_access_check t sd desired pc mapping in
  r = AccessResult STATUS_SUCCESS (ar_granted r)
        (Some (if truth (ar_granted r) then STATUS_SUCCESS else STATUS_ACCESS_DENIED))
        (reported_count desired pc) (reported_privs desired pc) ∧
  ∀ n, 0 ≤ n → Z.testbit (ar_granted r) n = true ↔
     (Z.testbit (base_rights t owner desired) n = true ∨ Exists (λ a, grants t mapping a n) dacl) ∧
     ¬ Exists (λ a, denies t mapping a n) dacl.
Proof.
  intros Hsd Hgen Hsec Hmax r.
  destruct (access_check_cases t sd owner dacl desired pc mapping Hsd Hgen Hsec) as [(_ & Hb & _)|E].
  { by rewrite base_rights_no_maximum in Hb. }
  subst r. rewrite E. unfold scan_result, final_access. rewrite Hmax.
  destruct (check_dacl t mapping desired 0 dacl (base_rights t owner desired) 0) as [c d] eqn:Es.
  split; [done|]. intros n Hn. simpl. rewrite Z.ldiff_spec, andb_true_iff, negb_true_iff, <- not_true_iff_false.
  destruct (check_dacl_maximum t mapping desired _ _ _ _ _ n Hmax Hn Es) as [-> ->].
  rewrite Z.bits_0. naive_solver.
Qed.

(** C40: Access check for MAXIMUM_ALLOWED, every case. The outcomes of [early_outcomes] come
    first (generic rights, no owner or group, the system security right without the
    privilege or without room to report it); without an access list (absent or NULL) the
    result is the mapping's full access. Otherwise the granted rights are exactly those
    that the owner, the privilege (when the system security right was asked for too) or some
    applicable allow entry gives, less those that any applicable deny entry takes, wherever
    the entries stand, so the order of the access list is irrelevant; the check succeeds
    exactly when that leaves a right. *)
Theorem maximum_access_check t sd desired pc mapping :
  has desired MAXIMUM_ALLOWED = true →
  let r := token_access_check t sd desired pc mapping in
  early_outcomes t sd desired pc r ∧
  (has desired GENERIC_RIGHTS = false →
   (unprotected sd →
      r = AccessResult STATUS_SUCCESS (gm_all mapping) (Some STATUS_SUCCESS) ((λ _, 0) <$> pc) None) ∧
   (∀ owner dacl, protected_by sd owner dacl → security_allowed t desired pc →
      r = AccessResult STATUS_SUCCESS (ar_granted r)
            (Some (if ar_granted r =? 0 then STATUS_ACCESS_DENIED else STATUS_SUCCESS))
            (reported_count desired pc) (reported_privs desired pc) ∧
      (∀ n, 0 ≤ n → Z.testbit (ar_granted r) n = true ↔
         (Z.testbit (base_rights t owner desired) n = true ∨ Exists (λ a, grants t mapping a n) dacl) ∧
         ¬ Exists (λ a, denies t mapping a n) dacl) ∧
      (∀ sd' dacl', protected_by sd' owner dacl' → dacl' ≡ₚ dacl →
         token_access_check t sd' desired pc mapping = r))).
Proof.
  intros Hmax r. split; [apply access_check_early|]. intros Hgen. split.
  { intros Hun. subst r. by rewrite access_check_unprotected, Hmax. }
  intros owner dacl Hsd Hsec.
  destruct (maximum_access_scan t sd owner dacl desired pc mapping Hsd Hgen Hsec Hmax) as (Hr & Hbits).
  fold r in Hr, Hbits. clearbody r. split_and!; [|done|].
  { rewrite Hr at 1. unfold truth. by destruct (ar_granted r =? 0). }
  intros sd' dacl' Hsd' Hperm.
  destruct (maximum_access_scan t sd' owner dacl' desired pc mapping Hsd' Hgen Hsec Hmax) as (Hr' & Hbits').
  rewrite Hr', Hr. assert (ar_granted (token_access_check t sd' desired pc mapping) = ar_granted r) as ->; [|done].
  apply Z.bits_inj'. intros n Hn. apply eq_true_iff_eq.
  by rewrite (Hbits' n Hn), (Hbits n Hn), Hperm.
Qed.

(** ** Witnesses *)

Definition alice : sid := Sid 1 [0;0;0;0;0;5] [21; 1000].
Definition users : sid := Sid 1 [0;0;0;0;0;5] [32; 545].
Definition admins : sid := Sid 1 [0;0;0;0;0;5] [32; 544].
Definition alice_token : token :=
  Token [Privilege SeSecurityPrivilege false false] [Group 7 users; Group 0x14 admins] alice.
(** Administrators may not write; users may read and write, and everyone else reads. *)
Definition demo_dacl : list ace :=
  [Ace ACCESS_DENIED_ACE_TYPE 0 2 admins; Ace ACCESS_ALLOWED_ACE_TYPE 0 3 users].
Definition demo_sd : security_descriptor :=
  SecurityDescriptor SE_DACL_PRESENT (Some admins) (Some users) None (Some demo_dacl).
Definition demo_mapping : generic_map := GenericMap 1 2 4 7.

Lemma specific_access_check_witness :
  ar_status (token_access_check alice_token demo_sd 1 (Some 1) demo_mapping) = Some STATUS_SUCCESS ∧
  ar_status (token_access_check alice_token demo_sd 2 (Some 1) demo_mapping) = Some STATUS_ACCESS_DENIED ∧
  (∃ ok : bool, token_access_check alice_token demo_sd 1 (Some 1) demo_mapping =
     AccessResult STATUS_SUCCESS (if ok then 1 else 0)
       (Some (if ok then STATUS_SUCCESS else STATUS_ACCESS_DENIED)) (Some 0) None ∧
     (ok = true ↔ 1 ≠ 0 ∧ ∀ n, 0 ≤ n → Z.testbit 1 n = true →
        Z.testbit (base_rights alice_token admins 1) n = true ∨
        granted_in alice_token demo_mapping 1 demo_dacl n)) ∧
  token_access_check alice_token demo_sd (Z.lor 1 ACCESS_SYSTEM_SECURITY) (Some 1) demo_mapping =
  AccessResult STATUS_SUCCESS 0 (Some STATUS_PRIVILEGE_NOT_HELD) (Some 0) None.
Proof.
  split; [reflexivity|]. split; [reflexivity|]. split.
  - apply (specific_access_check alice_token demo_sd 1 (Some 1) demo_mapping); try done.
  - apply (specific_access_check alice_token demo_sd (Z.lor 1 ACCESS_SYSTEM_SECURITY) (Some 1) demo_mapping)
      with (owner := admins) (dacl := demo_dacl); try done.
    intros ([|p [|]] & ? & ? & [= <-] & _ & ? & _); done.
Defined.

Lemma maximum_access_check_witness :
  ar_granted (token_access_check alice_token demo_sd MAXIMUM_ALLOWED (Some 1) demo_mapping) = 1 ∧
  token_access_check alice_token
    (SecurityDescriptor SE_DACL_PRESENT (Some admins) (Some users) None (Some (reverse demo_dacl)))
    MAXIMUM_ALLOWED (Some 1) demo_mapping =
  token_access_check alice_token demo_sd MAXIMUM_ALLOWED (Some 1) demo_mapping ∧
  token_access_check alice_token (SecurityDescriptor SE_DACL_PRESENT (Some admins) (Some users) None None)
    MAXIMUM_ALLOWED None demo_mapping = AccessResult STATUS_SUCCESS 7 (Some STATUS_SUCCESS) None None.
Proof.
  split; [reflexivity|]. split.
  - apply (maximum_access_check alice_token demo_sd MAXIMUM_ALLOWED (Some 1) demo_mapping)
      with (owner := admins) (dacl := demo_dacl) (dacl' := reverse demo_dacl);
      first [done|apply reverse_Permutation].
  - apply (maximum_access_check alice_token
      (SecurityDescriptor SE_DACL_PRESENT (Some admins) (Some users) None None) MAXIMUM_ALLOWED None demo_mapping);
      first [done|split_and!; [by eexists|by eexists|by left]].
Defined.
