(* ===== verification/HandleTable.v ===== *)
(** * The handle tables

    src/server/handle.c: the handle table of each process and the global one, the
    allocation, lookup, closing, inheritance and duplication of handles, with the reference
    and handle counts of src/server/object.c that they keep.

    Pointers to objects, processes and tables are keys of heaps; 0 is NULL. The entries of
    a table are the array it has allocated: a cell that was never written is [Garbage], and
    reading it, any access outside the array and the dereference of NULL or of a freed
    object are failed assertions of the model. An operations table ([struct object_ops]) is
    a value of the class [ObjectTypes]: its methods are calls through pointers. Names, wait
    queues and the count of objects per type are not part of an object here. *)

From S2P Require Import Prelude.
From S2P Require Import ShmState.
From S2P Require Import Security.

Definition MIN_HANDLE_ENTRIES : Z := 32.
Definition MAX_HANDLE_ENTRIES : Z := 0x00ffffff.
Definition RESERVED_SHIFT : Z := 26.
Definition HANDLE_OBFUSCATOR : Z := 0x544a4def.
Definition OBJ_PROTECT_CLOSE : Z := 1.
Definition OBJ_INHERIT : Z := 2.
Definition DUPLICATE_CLOSE_SOURCE : Z := 1.
Definition DUPLICATE_SAME_ACCESS : Z := 2.
Definition DUPLICATE_SAME_ATTRIBUTES : Z := 4.
Definition DUPLICATE_MAKE_GLOBAL : Z := 0x80000000.
Definition PROCESS_DUP_HANDLE : Z := 0x40.
Definition DELETE : Z := 0x10000.
Definition STATUS_PROCESS_IS_TERMINATING : Z := 0xc000010a.
Definition STATUS_NOT_SAME_OBJECT : Z := 0xc00001ac.

(** ** Handles *)

Definition index_to_handle (index : Z) : Z := u32 (Z.shiftl (index + 1) 2).
Definition handle_to_index (handle : Z) : Z := s32 (u32 (Z.shiftr handle 2 - 1)).
Definition handle_is_global (handle : Z) : bool :=
  Z.lxor handle HANDLE_OBFUSCATOR <=? Z.shiftl MAX_HANDLE_ENTRIES 2.
Definition handle_local_to_global (handle : Z) : Z :=
  if handle =? 0 then 0 else Z.lxor handle HANDLE_OBFUSCATOR.
Definition handle_global_to_local (handle : Z) : Z := Z.lxor handle HANDLE_OBFUSCATOR.

(** ** State *)

(** [struct object]; [ko_ops] points to its operations. *)
Record kobject := KObject {
  ko_refcount : Z; ko_handle_count : Z; ko_ops : Z; ko_permanent : bool;
  ko_sd : option security_descriptor }.

(** [struct handle_entry] *)
Inductive slot :=
| Garbage
| Slot (ptr : option Z) (access : Z).

Record handle_table := HTable {
  ht_process : Z; ht_count : Z; ht_last : Z; ht_free : Z; ht_entries : list slot }.

Record process := Process { ps_id : Z; ps_handles : option Z; ps_token : Z }.

(** The heaps, [global_table], [current], the counts of handles per object type, the error
    of the request and the answers of the allocator. *)
Record kernel := Kernel {
  k_objs : gmap Z kobject;
  k_tables : gmap Z handle_table; k_next : Z;
  k_global : option Z;
  k_procs : gmap Z process;
  k_current : Z; k_process : Z; k_token : Z;
  k_tokens : gmap Z token;
  k_types : gmap Z (Z * Z);
  k_error : Z;
  k_mem : list bool }.

Definition K := M kernel.

Definition set_objs m (k : kernel) : kernel := Kernel m (k_tables k) (k_next k) (k_global k) (k_procs k) (k_current k)
  (k_process k) (k_token k) (k_tokens k) (k_types k) (k_error k) (k_mem k).
Definition set_tables m n (k : kernel) : kernel := Kernel (k_objs k) m n (k_global k) (k_procs k) (k_current k)
  (k_process k) (k_token k) (k_tokens k) (k_types k) (k_error k) (k_mem k).
Definition set_global g (k : kernel) : kernel := Kernel (k_objs k) (k_tables k) (k_next k) g (k_procs k) (k_current k)
  (k_process k) (k_token k) (k_tokens k) (k_types k) (k_error k) (k_mem k).
Definition set_procs m (k : kernel) : kernel := Kernel (k_objs k) (k_tables k) (k_next k) (k_global k) m (k_current k)
  (k_process k) (k_token k) (k_tokens k) (k_types k) (k_error k) (k_mem k).
Definition set_types m (k : kernel) : kernel := Kernel (k_objs k) (k_tables k) (k_next k) (k_global k) (k_procs k) (k_current k)
  (k_process k) (k_token k) (k_tokens k) m (k_error k) (k_mem k).
Definition with_error e (k : kernel) : kernel := Kernel (k_objs k) (k_tables k) (k_next k) (k_global k) (k_procs k) (k_current k)
  (k_process k) (k_token k) (k_tokens k) (k_types k) e (k_mem k).
Definition with_mem l (k : kernel) : kernel := Kernel (k_objs k) (k_tables k) (k_next k) (k_global k) (k_procs k) (k_current k)
  (k_process k) (k_token k) (k_tokens k) (k_types k) (k_error k) l.

Definition set_error (e : Z) : K unit := modify (with_error e).
(** [malloc] or [realloc]: the next answer; they succeed when no answer is left. *)
Definition raw_alloc : K bool := λ k,
  match k_mem k with [] => Done true k | b :: l => Done b (with_mem l k) end.
Definition mem_alloc : K bool :=
  ok ← raw_alloc; if negb ok then _ ← set_error STATUS_NO_MEMORY; mret false else mret true.

(** *** Dereferences *)

Definition deref {A} (f : kernel → option A) : K A := λ k,
  match f k with Some a => Done a k | None => AssertFailed end.
Definition fault {A} : K A := λ _, AssertFailed.
Definition object_at (p : Z) : K kobject := deref (λ k, k_objs k !! p).
Definition put_object (p : Z) (o : kobject) : K unit := modify (λ k, set_objs (<[p := o]> (k_objs k)) k).
Definition process_at (p : Z) : K process := deref (λ k, k_procs k !! p).
Definition table_at (t : Z) : K handle_table := deref (λ k, k_tables k !! t).
Definition put_table (t : Z) (tb : handle_table) : K unit :=
  modify (λ k, set_tables (<[t := tb]> (k_tables k)) (k_next k) k).
Definition update_table (t : Z) (f : handle_table → handle_table) : K unit :=
  tb ← table_at t; put_table t (f tb).

Definition with_free (i : Z) (tb : handle_table) : handle_table :=
  HTable (ht_process tb) (ht_count tb) (ht_last tb) i (ht_entries tb).
Definition with_last (i : Z) (tb : handle_table) : handle_table :=
  HTable (ht_process tb) (ht_count tb) i (ht_free tb) (ht_entries tb).
(** [realloc]: what is new is not initialised. *)
Definition with_count (n : Z) (tb : handle_table) : handle_table :=
  HTable (ht_process tb) n (ht_last tb) (ht_free tb)
    (take (Z.to_nat n) (ht_entries tb) ++ replicate (Z.to_nat (n - ht_count tb)) Garbage).
Definition with_entries (l : list slot) (tb : handle_table) : handle_table :=
  HTable (ht_process tb) (ht_count tb) (ht_last tb) (ht_free tb) l.

(** [table->entries[i]], read and written. *)
Definition entry_of (tb : handle_table) (i : Z) : option slot :=
  if i <? 0 then None else ht_entries tb !! Z.to_nat i.
Definition read_entry (t i : Z) : K (option Z * Z) :=
  tb ← table_at t;
  match entry_of tb i with
  | Some (Slot ptr access) => mret (ptr, access)
  | _ => fault
  end.
Definition write_entry (t i : Z) (e : slot) : K unit :=
  tb ← table_at t;
  match entry_of tb i with
  | Some _ => put_table t (with_entries (<[Z.to_nat i := e]> (ht_entries tb)) tb)
  | None => fault
  end.
(** [entry->ptr = ptr] *)
Definition write_ptr (t i : Z) (ptr : option Z) : K unit :=
  tb ← table_at t;
  match entry_of tb i with
  | Some (Slot _ access) => write_entry t i (Slot ptr access)
  | _ => fault
  end.

(** ** Object types *)

(** [struct object_ops] and its [struct type_descr], as far as handles use them. *)
Record object_ops := ObjectOps {
  op_type : Z; op_mapping : generic_map;
  op_map_access : option (Z → Z → Z);
  op_close_handle : option (Z → Z → Z → K bool);
  op_destroy : option (Z → K unit) }.
Class ObjectTypes := { ops_of : Z → object_ops; process_ops : Z }.

Section handles.
Context `{ObjectTypes}.

(** *** References (object.c) *)

Definition with_refcount (n : Z) (o : kobject) : kobject :=
  KObject n (ko_handle_count o) (ko_ops o) (ko_permanent o) (ko_sd o).
Definition with_handle_count (n : Z) (o : kobject) : kobject :=
  KObject (ko_refcount o) n (ko_ops o) (ko_permanent o) (ko_sd o).
Definition with_permanent (b : bool) (o : kobject) : kobject :=
  KObject (ko_refcount o) (ko_handle_count o) (ko_ops o) b (ko_sd o).

Definition grab_object (p : Z) : K unit :=
  o ← object_at p;
  _ ← c_assert (ko_refcount o <? INT_MAX);
  put_object p (with_refcount (ko_refcount o + 1) o).

Definition release_object (p : Z) : K unit :=
  o ← object_at p;
  _ ← c_assert (truth (ko_refcount o));
  _ ← put_object p (with_refcount (ko_refcount o - 1) o);
  if truth (ko_refcount o - 1) then mret tt else
  _ ← c_assert (ko_handle_count o =? 0);
  _ ← (match op_destroy (ops_of (ko_ops o)) with Some destroy => destroy p | None => mret tt end);
  modify (λ k, set_objs (delete p (k_objs k)) k).

(** The counts of a type start at zero. *)
Definition type_counts (k : kernel) (ty : Z) : Z * Z := default (0, 0) (k_types k !! ty).
Definition count_handle (ty : Z) : K unit :=
  modify (λ k, let '(n, m) := type_counts k ty in
    set_types (<[ty := (u32 (n + 1), Z.max m (u32 (n + 1)))]> (k_types k)) k).
Definition uncount_handle (ty : Z) : K unit :=
  modify (λ k, let '(n, m) := type_counts k ty in set_types (<[ty := (u32 (n - 1), m)]> (k_types k)) k).

(** grab an object and increment its handle count *)
Definition grab_object_for_handle (p : Z) : K unit :=
  o ← object_at p;
  _ ← put_object p (with_handle_count (u32 (ko_handle_count o + 1)) o);
  _ ← count_handle (op_type (ops_of (ko_ops o)));
  grab_object p.
(** release an object and decrement its handle count *)
Definition release_object_from_handle (p : Z) : K unit :=
  o ← object_at p;
  _ ← c_assert (truth (ko_handle_count o));
  _ ← uncount_handle (op_type (ops_of (ko_ops o)));
  _ ← put_object p (with_handle_count (ko_handle_count o - 1) o);
  release_object p.

(** [map_obj_access] *)
Definition map_object_access (o : kobject) (p access : Z) : Z :=
  match op_map_access (ops_of (ko_ops o)) with
  | Some f => f p access
  | None => map_access access (op_mapping (ops_of (ko_ops o)))
  end.
Definition map_obj_access (p access : Z) : K Z := o ← object_at p; mret (map_object_access o p access).

(** The verdict and the new [*access]; the token 0 stands for that of [current]. *)
Definition check_object_access (tok p access : Z) : K (bool * Z) :=
  ctok ← gets k_token;
  cur ← gets k_process;
  tok ← (if truth tok then mret tok
         else if truth ctok then mret ctok
         else pr ← process_at cur; mret (ps_token pr));
  o ← object_at p;
  match ko_sd o with
  | None =>
      mret (true, if has access MAXIMUM_ALLOWED then map_object_access o p GENERIC_ALL else access)
  | Some sd =>
      t ← deref (λ k, k_tokens k !! tok);
      let '(res, access) := check_access t (map_object_access o p) (Some sd) access in
      _ ← when (negb res) (set_error STATUS_ACCESS_DENIED);
      mret (res, access)
  end.

(** ** Tables *)

(** Loops over entries [first..last] that stop at the first answer. *)
Definition find_entry {R} (t first last : Z) (f : Z → option Z * Z → option R) : K (option R) :=
  for_until (seqZ first (last - first + 1)) (λ i, e ← read_entry t i; mret (f i e)).

Definition handle_table_destroy (t : Z) : K unit :=
  tb ← table_at t;
  _ ← for_each (seqZ 0 (ht_last tb + 1)) (λ i,
    e ← read_entry t i;
    _ ← write_ptr t i None;
    match e.1 with
    | None => mret tt
    | Some obj =>
        o ← object_at obj;
        _ ← (if truth (ht_process tb) then
               match op_close_handle (ops_of (ko_ops o)) with
               | Some hook => _ ← hook obj (ht_process tb) (index_to_handle i); mret tt
               | None => mret tt
               end
             else mret tt);
        release_object_from_handle obj
    end);
  modify (λ k, set_tables (delete t (k_tables k)) (k_next k) k).

(** The process holds the only reference of its table. *)
Definition close_process_handles (process : Z) : K unit :=
  pr ← process_at process;
  _ ← modify (λ k, set_procs (<[process := Process (ps_id pr) None (ps_token pr)]> (k_procs k)) k);
  match ps_handles pr with
  | Some t => handle_table_destroy t
  | None => mret tt
  end.

(** Two allocations: the table and its entries; the table alone is released again. *)
Definition alloc_handle_table (process count : Z) : K (option Z) :=
  let count := if count <? MIN_HANDLE_ENTRIES then MIN_HANDLE_ENTRIES else count in
  ok ← mem_alloc;
  if negb ok then mret None else
  ok ← mem_alloc;
  if negb ok then mret None else
  t ← gets k_next;
  _ ← modify (λ k, set_tables
        (<[t := HTable process count (-1) 0 (replicate (Z.to_nat count) Garbage)]> (k_tables k)) (t + 1) k);
  mret (Some t).

Definition grow_handle_table (t : Z) : K bool :=
  tb ← table_at t;
  let count := Z.min (ht_count tb * 2) MAX_HANDLE_ENTRIES in
  ok ← (if count =? ht_count tb then mret false else raw_alloc);
  if negb ok then _ ← set_error STATUS_INSUFFICIENT_RESOURCES; mret false else
  _ ← put_table t (with_count count tb);
  mret true.

(** allocate the first free entry in the handle table *)
Definition alloc_entry (t obj access : Z) : K Z :=
  tb ← table_at t;
  found ← find_entry t (ht_free tb) (ht_last tb)
            (λ i e, if e.1 is None then Some i else None);
  slot ← (match found with
          | Some i => mret (Some i)
          | None =>
              let i := Z.max (ht_free tb) (ht_last tb + 1) in
              ok ← (if ht_count tb <=? i then grow_handle_table t else mret true);
              if negb ok then mret None else
              _ ← update_table t (with_last i);
              mret (Some i)
          end);
  match slot with
  | None => mret 0
  | Some i =>
      _ ← update_table t (with_free (i + 1));
      _ ← grab_object_for_handle obj;
      _ ← write_entry t i (Slot (Some obj) access);
      mret (index_to_handle i)
  end.

(** *** Allocation *)

Definition inherit_flag (attr access : Z) : Z :=
  if has attr OBJ_INHERIT then Z.lor access RESERVED_INHERIT else access.

Definition alloc_handle_entry (process obj access attr : Z) : K Z :=
  _ ← c_assert (negb (has access RESERVED_ALL));
  let access := inherit_flag attr access in
  pr ← process_at process;
  match ps_handles pr with
  | None => _ ← set_error STATUS_PROCESS_IS_TERMINATING; mret 0
  | Some t => alloc_entry t obj access
  end.

Definition alloc_handle_no_access_check (process obj access attr : Z) : K Z :=
  let access := if has access MAXIMUM_ALLOWED then GENERIC_ALL else access in
  access ← map_obj_access obj access;
  alloc_handle_entry process obj (Z.ldiff access RESERVED_ALL) attr.

Definition alloc_handle (process obj access attr : Z) : K Z :=
  access ← map_obj_access obj access;
  let access := Z.ldiff access RESERVED_ALL in
  if access =? 0 then _ ← set_error STATUS_ACCESS_DENIED; mret 0 else
  r ← check_object_access 0 obj access;
  if negb r.1 then mret 0 else alloc_handle_entry process obj r.2 attr.

Definition alloc_global_handle_no_access_check (obj access : Z) : K Z :=
  g ← gets k_global;
  g ← (match g with
       | Some t => mret (Some t)
       | None =>
           g ← alloc_handle_table 0 0;
           _ ← modify (set_global g);
           mret g
       end);
  match g with
  | None => mret 0
  | Some t => h ← alloc_entry t obj access; mret (handle_local_to_global h)
  end.

Definition alloc_global_handle (obj access : Z) : K Z :=
  r ← (if truth access then check_object_access 0 obj access else mret (true, access));
  if negb r.1 then mret 0 else alloc_global_handle_no_access_check obj r.2.

(** *** Lookup *)

(** The entry: its table and index. *)
Definition get_handle (process handle : Z) : K (option (Z * Z)) :=
  pr ← process_at process;
  global ← gets k_global;
  let '(handle, table) :=
    if handle_is_global handle then (handle_global_to_local handle, global) else (handle, ps_handles pr) in
  match table with
  | None => mret None
  | Some t =>
      let index := handle_to_index handle in
      if index <? 0 then mret None else
      tb ← table_at t;
      if ht_last tb <? index then mret None else
      e ← read_entry t index;
      mret (if e.1 is None then None else Some (t, index))
  end.

(** The pointer of an entry that is in use. *)
Definition entry_object (e : option Z * Z) : K Z :=
  match e.1 with Some obj => mret obj | None => fault end.

(** *** Shrinking and inheriting *)

Definition shrink_handle_table (t : Z) : K unit :=
  tb ← table_at t;
  last ← for_until (reverse (seqZ 0 (ht_last tb + 1))) (λ i,
           e ← read_entry t i; mret (if e.1 is None then None else Some i));
  let last := default (-1) last in
  _ ← update_table t (with_last last);
  let count := ht_count tb in
  if count / 4 <=? last then mret tt else
  if count <? MIN_HANDLE_ENTRIES * 2 then mret tt else
  ok ← raw_alloc;
  if negb ok then mret tt else update_table t (with_count (count / 2)).

Definition inherit_handle (parent handle t : Z) : K unit :=
  src ← get_handle parent handle;
  match src with
  | None => mret tt
  | Some (st, si) =>
      e ← read_entry st si;
      if negb (has e.2 RESERVED_INHERIT) then mret tt else
      let index := handle_to_index handle in
      d ← read_entry t index;
      if d.1 is None then
        obj ← entry_object e;
        _ ← grab_object_for_handle obj;
        _ ← write_entry t index (Slot e.1 e.2);
        update_table t (λ tb, with_last (Z.max (ht_last tb) index) tb)
      else mret tt
  end.

(** The first [n] entries of a table, as bytes. *)
Definition copied (n : Z) (src dst : list slot) : list slot :=
  take (Z.to_nat n) src ++ drop (Z.to_nat n) dst.

(** [handles] is the list of the creation request, or None to inherit all. *)
Definition copy_handle_table (process parent : Z) (handles : option (list Z)) (std_handles : list Z)
    : K (option Z) :=
  pr ← process_at parent;
  match ps_handles pr with
  | None => fault
  | Some pt =>
      ptb ← table_at pt;
      r ← alloc_handle_table process (ht_count ptb);
      match r with
      | None => mret None
      | Some t =>
          _ ← (match handles with
               | Some handles =>
                   _ ← update_table t (λ tb, with_entries
                         (copied (ht_count ptb) (replicate (Z.to_nat (ht_count ptb)) (Slot None 0))
                            (ht_entries tb)) tb);
                   _ ← for_each handles (λ h, inherit_handle parent h t);
                   for_each std_handles (λ h, inherit_handle parent h t)
               | None =>
                   _ ← update_table t (with_last (ht_last ptb));
                   when (0 <=? ht_last ptb)
                     (_ ← update_table t (λ tb, with_entries
                            (copied (ht_last ptb + 1) (ht_entries ptb) (ht_entries tb)) tb);
                      for_each (seqZ 0 (ht_last ptb + 1)) (λ i,
                        e ← read_entry t i;
                        match e.1 with
                        | None => mret tt
                        | Some obj =>
                            if has e.2 RESERVED_INHERIT then grab_object_for_handle obj
                            else write_ptr t i None
                        end))
               end);
          _ ← shrink_handle_table t;
          mret (Some t)
      end
  end.

(** ** Closing *)

Definition close_handle (process handle : Z) : K Z :=
  let index := handle_to_index handle in
  r ← get_handle process handle;
  match r with
  | None => mret STATUS_INVALID_HANDLE
  | Some (et, ei) =>
      e ← read_entry et ei;
      if has e.2 RESERVED_CLOSE_PROTECT then mret STATUS_HANDLE_NOT_CLOSABLE else
      obj ← entry_object e;
      o ← object_at obj;
      ok ← (match op_close_handle (ops_of (ko_ops o)) with
            | Some hook => hook obj process handle
            | None => mret true
            end);
      if negb ok then mret STATUS_HANDLE_NOT_CLOSABLE else
      pr ← process_at process;
      global ← gets k_global;
      match (if handle_is_global handle then global else ps_handles pr) with
      | None => fault
      | Some t =>
          _ ← write_ptr t index None;
          tb ← table_at t;
          _ ← when (index <? ht_free tb) (update_table t (with_free index));
          _ ← when (index =? ht_last tb) (shrink_handle_table t);
          _ ← release_object_from_handle obj;
          mret STATUS_SUCCESS
      end
  end.

(** ** Objects of handles *)

(** The pseudo-handles of [current]; 0 is NULL. *)
Definition get_magic_handle (handle : Z) : K Z :=
  cur ← gets k_current; proc ← gets k_process; tok ← gets k_token;
  if handle =? 0xfffffffa then
    if truth tok then mret tok else pr ← process_at proc; mret (ps_token pr)
  else if handle =? 0xfffffffb then mret tok
  else if handle =? 0xfffffffc then pr ← process_at proc; mret (ps_token pr)
  else if handle =? 0xfffffffe then mret cur
  else if (handle =? 0x7fffffff) || (handle =? 0xffffffff) then mret proc
  else mret 0.

(** [ops && (obj->ops != ops)] *)
Definition wrong_type (o : kobject) (ops : option Z) : bool :=
  match ops with Some ops => negb (ko_ops o =? ops) | None => false end.

(** The object, with a reference, or 0. *)
Definition get_handle_obj (process handle access : Z) (ops : option Z) : K Z :=
  magic ← get_magic_handle handle;
  if truth magic then
    o ← object_at magic;
    if wrong_type o ops then _ ← set_error STATUS_OBJECT_TYPE_MISMATCH; mret 0
    else _ ← grab_object magic; mret magic
  else
    r ← get_handle process handle;
    match r with
    | None => _ ← set_error STATUS_INVALID_HANDLE; mret 0
    | Some (t, i) =>
        e ← read_entry t i;
        obj ← entry_object e;
        o ← object_at obj;
        if wrong_type o ops then _ ← set_error STATUS_OBJECT_TYPE_MISMATCH; mret 0
        else if negb (Z.land e.2 access =? access) then _ ← set_error STATUS_ACCESS_DENIED; mret 0
        else _ ← grab_object obj; mret obj
    end.

Definition get_handle_access (process handle : Z) : K Z :=
  magic ← get_magic_handle handle;
  if truth magic then mret (u32 (Z.lnot RESERVED_ALL)) else
  r ← get_handle process handle;
  match r with
  | None => mret 0
  | Some (t, i) => e ← read_entry t i; mret (Z.ldiff e.2 RESERVED_ALL)
  end.

(** The entry that the loop stops at is in the table of the process. *)
Definition find_inherited_handle (process ops : Z) : K Z :=
  pr ← process_at process;
  match ps_handles pr with
  | None => mret 0
  | Some t =>
      tb ← table_at t;
      r ← for_until (seqZ 0 (ht_last tb + 1)) (λ i,
        e ← read_entry t i;
        match e.1 with
        | None => mret None
        | Some obj =>
            o ← object_at obj;
            mret (if (ko_ops o =? ops) && has e.2 RESERVED_INHERIT then Some (index_to_handle i) else None)
        end);
      mret (default 0 r)
  end.

(** The loop that counts the entries of [obj] from [i] on. *)
Fixpoint count_entries (t obj : Z) (l : list Z) (count : Z) : K Z :=
  match l with
  | [] => mret count
  | i :: l =>
      e ← read_entry t i;
      count_entries t obj l (if bool_decide (e.1 = Some obj) then u32 (count + 1) else count)
  end.
Definition get_obj_handle_count (process obj : Z) : K Z :=
  pr ← process_at process;
  match ps_handles pr with
  | None => mret 0
  | Some t => tb ← table_at t; count_entries t obj (seqZ 0 (ht_last tb + 1)) 0
  end.

Definition get_handle_table_count (process : Z) : K Z :=
  pr ← process_at process;
  match ps_handles pr with
  | None => mret 0
  | Some t => tb ← table_at t; mret (ht_count tb)
  end.

(** ** Flags and duplication *)

Definition set_handle_flags (process handle mask flags : Z) : K Z :=
  magic ← get_magic_handle handle;
  if truth magic then _ ← when (truth mask) (set_error STATUS_ACCESS_DENIED); mret 0 else
  r ← get_handle process handle;
  match r with
  | None => _ ← set_error STATUS_INVALID_HANDLE; mret (-1)
  | Some (t, i) =>
      e ← read_entry t i;
      let mask := Z.land (u32 (Z.shiftl mask RESERVED_SHIFT)) RESERVED_ALL in
      let flags := Z.land (u32 (Z.shiftl flags RESERVED_SHIFT)) mask in
      _ ← write_entry t i (Slot e.1 (Z.lor (Z.ldiff e.2 mask) flags));
      mret (Z.shiftr (Z.land e.2 RESERVED_ALL) RESERVED_SHIFT)
  end.

(** [dst] is 0 when the duplicate is to be global. *)
Definition duplicate_handle (src src_handle dst access attr options : Z) : K Z :=
  obj ← get_handle_obj src src_handle 0 None;
  if obj =? 0 then mret 0 else
  entry ← get_handle src src_handle;
  src_access ← (match entry with
                | Some (t, i) => e ← read_entry t i; mret e.2
                | None => map_obj_access obj GENERIC_ALL
                end);
  let src_flags := Z.shiftr (Z.land src_access RESERVED_ALL) RESERVED_SHIFT in
  let src_access := Z.ldiff src_access RESERVED_ALL in
  access ← (if has options DUPLICATE_SAME_ACCESS then mret src_access
            else access ← map_obj_access obj access; mret (Z.ldiff access RESERVED_ALL));
  res ← (if truth (Z.ldiff access src_access) then
           ctok ← gets k_token;
           r ← (if truth ctok then check_object_access ctok obj access else mret (true, access));
           r ← (if negb r.1 then mret r
                else pr ← process_at dst; check_object_access (ps_token pr) obj r.2);
           if negb r.1 then mret None else
           h ← (if has options DUPLICATE_MAKE_GLOBAL then alloc_global_handle obj r.2
                else alloc_handle_no_access_check dst obj r.2 attr);
           mret (Some h)
         else if has options DUPLICATE_MAKE_GLOBAL then
           h ← alloc_global_handle_no_access_check obj access; mret (Some h)
         else
           reuse ← (match entry with
                    | Some (t, i) =>
                        if has options DUPLICATE_CLOSE_SOURCE && (src =? dst) then
                          e ← read_entry t i;
                          mret (if has e.2 RESERVED_CLOSE_PROTECT then None else Some (t, i, e.1))
                        else mret None
                    | None => mret None
                    end);
           match reuse with
           | Some (t, i, ptr) =>
               _ ← write_entry t i (Slot ptr (inherit_flag attr access));
               mret (Some src_handle)
           | None => h ← alloc_handle_entry dst obj access attr; mret (Some h)
           end);
  match res with
  | None => _ ← release_object obj; mret 0
  | Some res =>
      _ ← when (truth res && has options DUPLICATE_SAME_ATTRIBUTES)
            (_ ← set_handle_flags dst res 0xffffffff src_flags; mret tt);
      _ ← release_object obj;
      mret res
  end.

(** ** Requests *)

Definition req_close_handle (handle : Z) : K unit :=
  proc ← gets k_process;
  err ← close_handle proc handle;
  set_error err.

(** The old flags. *)
Definition req_set_handle_info (handle mask flags : Z) : K Z :=
  proc ← gets k_process; set_handle_flags proc handle mask flags.

Definition get_process_from_handle (handle access : Z) : K Z :=
  proc ← gets k_process; get_handle_obj proc handle access (Some process_ops).

(** The reply's handle. *)
Definition req_dup_handle (src_process src_handle dst_process access attr options : Z) : K Z :=
  src ← get_process_from_handle src_process PROCESS_DUP_HANDLE;
  if src =? 0 then mret 0 else
  r ← (if has options DUPLICATE_MAKE_GLOBAL then
         h ← duplicate_handle src src_handle 0 access attr options; mret (0, h)
       else
         dst ← get_process_from_handle dst_process PROCESS_DUP_HANDLE;
         if dst =? 0 then mret (0, 0) else
         h ← duplicate_handle src src_handle dst access attr options;
         _ ← release_object dst;
         mret (dst, h));
  let '(dst, handle) := r in
  _ ← when (has options DUPLICATE_CLOSE_SOURCE && (negb (src =? dst) || negb (src_handle =? handle)))
        (_ ← close_handle src src_handle; mret tt);
  _ ← release_object src;
  mret handle.

(** The access, the reference count and the handle count. *)
Definition req_get_object_info (handle : Z) : K (option (Z * Z * Z)) :=
  proc ← gets k_process;
  obj ← get_handle_obj proc handle 0 None;
  if obj =? 0 then mret None else
  access ← get_handle_access proc handle;
  o ← object_at obj;
  _ ← release_object obj;
  mret (Some (access, ko_refcount o, ko_handle_count o)).

Definition req_set_object_permanence (handle : Z) (permanent : bool) : K unit :=
  proc ← gets k_process;
  obj ← get_handle_obj proc handle (if permanent then 0 else DELETE) None;
  if obj =? 0 then mret tt else
  o ← object_at obj;
  _ ← (if permanent && negb (ko_permanent o) then
         _ ← grab_object obj;
         o ← object_at obj; put_object obj (with_permanent true o)
       else if negb permanent && ko_permanent o then
         _ ← put_object obj (with_permanent false o);
         release_object obj
       else mret tt);
  release_object obj.

Definition req_compare_objects (first second : Z) : K unit :=
  proc ← gets k_process;
  obj1 ← get_handle_obj proc first 0 None;
  if obj1 =? 0 then mret tt else
  obj2 ← get_handle_obj proc second 0 None;
  if obj2 =? 0 then release_object obj1 else
  _ ← when (negb (obj1 =? obj2)) (set_error STATUS_NOT_SAME_OBJECT);
  _ ← release_object obj2;
  release_object obj1.
End handles.
