(* ===== verification/HandleTableInv.v ===== *)
(** * The invariant of the handle tables

    The well-formedness of a table of src/server/handle.c, the agreement of the handle
    counts of the objects with the entries of all tables, and the lemmas by which the
    operations of HandleTable.v preserve both. *)

From S2P Require Import Prelude.
From S2P Require Import ShmState.
From S2P Require Import Security.
From S2P Require Import HandleTable.

(** ** Entries *)

(** The object and the access of the used entry [i]. *)
Definition lookup_entry (tb : handle_table) (i : Z) : option (Z * Z) :=
  match entry_of tb i with Some (Slot (Some p) access) => Some (p, access) | _ => None end.

Record table_ok (tb : handle_table) : Prop := {
  tk_length : Z.of_nat (length (ht_entries tb)) = ht_count tb;
  tk_count : MIN_HANDLE_ENTRIES ≤ ht_count tb ≤ MAX_HANDLE_ENTRIES;
  tk_last : -1 ≤ ht_last tb < ht_count tb;
  tk_free : 0 ≤ ht_free tb;
  tk_below : ∀ i, 0 ≤ i < ht_free tb → is_Some (lookup_entry tb i);
  tk_init : ∀ i, 0 ≤ i ≤ ht_last tb → ∃ p a, entry_of tb i = Some (Slot p a);
  tk_above : ∀ i, is_Some (lookup_entry tb i) → i ≤ ht_last tb }.

Lemma entry_of_range tb i e : entry_of tb i = Some e → 0 ≤ i < Z.of_nat (length (ht_entries tb)).
Proof.
  unfold entry_of. destruct (Z.ltb_spec i 0); [done|]. intros Hi%lookup_lt_Some. lia.
Qed.
Lemma entry_of_some tb i : 0 ≤ i < Z.of_nat (length (ht_entries tb)) → is_Some (entry_of tb i).
Proof.
  intros Hi. unfold entry_of. destruct (Z.ltb_spec i 0); [lia|]. apply lookup_lt_is_Some. lia.
Qed.
Lemma lookup_entry_some tb i p a :
  lookup_entry tb i = Some (p, a) ↔ entry_of tb i = Some (Slot (Some p) a).
Proof. unfold lookup_entry. destruct (entry_of tb i) as [[|[q|] b]|]; naive_solver. Qed.

Lemma table_free_le tb : table_ok tb → ht_free tb ≤ ht_last tb + 1.
Proof.
  intros Hok. destruct (decide (ht_free tb = 0)) as [->|]; [pose proof (tk_last _ Hok); lia|].
  pose proof (tk_free _ Hok).
  pose proof (tk_above _ Hok _ (tk_below _ Hok (ht_free tb - 1) ltac:(lia))). lia.
Qed.

(** The used entries as a map from handles. *)
Definition handle_set (tb : handle_table) : gset Z :=
  list_to_set (index_to_handle <$> seqZ 0 (Z.of_nat (length (ht_entries tb)))).
Definition view (tb : handle_table) : gmap Z (Z * Z) :=
  map_imap (λ h _, lookup_entry tb (handle_to_index h)) (gset_to_gmap tt (handle_set tb)).

Lemma index_to_handle_small i : 0 ≤ i < MAX_HANDLE_ENTRIES → index_to_handle i = 4 * (i + 1).
Proof.
  unfold MAX_HANDLE_ENTRIES. intros Hi. unfold index_to_handle. rewrite Z.shiftl_mul_pow2 by lia.
  rewrite u32_small; lia.
Qed.
Lemma handle_to_index_range h : 0 ≤ h < 2 ^ 32 → handle_to_index h = h / 4 - 1.
Proof.
  intros Hh. unfold handle_to_index. rewrite Z.shiftr_div_pow2 by lia. change (2 ^ 2) with 4.
  destruct (decide (h < 4)).
  - rewrite (Z.div_small h 4) by lia. done.
  - rewrite u32_small, s32_small; Z.div_mod_to_equations; lia.
Qed.
Lemma handle_to_index_to_handle i : 0 ≤ i < MAX_HANDLE_ENTRIES → handle_to_index (index_to_handle i) = i.
Proof.
  intros Hi. rewrite index_to_handle_small by done. unfold MAX_HANDLE_ENTRIES in *.
  rewrite handle_to_index_range by lia. Z.div_mod_to_equations; lia.
Qed.

Lemma view_lookup tb i :
  table_ok tb → 0 ≤ i < MAX_HANDLE_ENTRIES → view tb !! index_to_handle i = lookup_entry tb i.
Proof.
  intros Hok Hi. unfold view. rewrite map_lookup_imap, lookup_gset_to_gmap.
  destruct (decide (i < ht_count tb)) as [Hlt|Hge].
  - rewrite option_guard_True; simpl; [by rewrite handle_to_index_to_handle|].
    unfold handle_set. rewrite elem_of_list_to_set, list_elem_of_fmap. exists i. split; [done|].
    rewrite elem_of_seqZ, (tk_length _ Hok). lia.
  - rewrite option_guard_False; simpl.
    + unfold lookup_entry. destruct (entry_of tb i) eqn:E; [|done].
      apply entry_of_range in E. rewrite (tk_length _ Hok) in E. lia.
    + unfold handle_set. rewrite elem_of_list_to_set, list_elem_of_fmap. intros (j & E & Hj).
      rewrite elem_of_seqZ, (tk_length _ Hok) in Hj. pose proof (tk_count _ Hok).
      rewrite !index_to_handle_small in E; lia.
Qed.
Lemma view_lookup_inv tb h x :
  table_ok tb → view tb !! h = Some x → ∃ i, 0 ≤ i < ht_count tb ∧ h = index_to_handle i ∧ lookup_entry tb i = Some x.
Proof.
  intros Hok. unfold view. rewrite map_lookup_imap, lookup_gset_to_gmap, bind_Some.
  intros (u & Hu & E). destruct (decide (h ∈ handle_set tb)) as [Hin|]; [clear Hu|by rewrite option_guard_False in Hu]. unfold handle_set in Hin.
  rewrite elem_of_list_to_set, list_elem_of_fmap in Hin. destruct Hin as (i & -> & Hi).
  rewrite elem_of_seqZ, (tk_length _ Hok) in Hi. exists i. pose proof (tk_count _ Hok).
  rewrite handle_to_index_to_handle in E by lia. split_and!; [lia..|done|done].
Qed.

(** Two tables whose entries agree except at [i]. *)
Lemma view_eq tb tb' (f : option (Z * Z)) i :
  table_ok tb → table_ok tb' → 0 ≤ i < MAX_HANDLE_ENTRIES →
  (∀ j, 0 ≤ j < MAX_HANDLE_ENTRIES → lookup_entry tb' j = if decide (j = i) then f else lookup_entry tb j) →
  view tb' = partial_alter (λ _, f) (index_to_handle i) (view tb).
Proof.
  intros Hok Hok' Hi Hf. apply map_eq. intros h. rewrite lookup_partial_alter.
  pose proof (tk_count _ Hok). pose proof (tk_count _ Hok').
  case_decide as Hh; [subst h; by rewrite (view_lookup tb' i Hok' Hi), Hf, decide_True|].
  apply option_eq. intros x. split.
  - intros (j & Hj & -> & Hx)%view_lookup_inv; [|done]. rewrite Hf in Hx by lia.
    rewrite decide_False in Hx by (by intros ->). rewrite view_lookup; [done..|lia].
  - intros (j & Hj & -> & Hx)%view_lookup_inv; [|done]. rewrite view_lookup; [|done|lia].
    rewrite Hf by lia. rewrite decide_False; [done|by intros ->].
Qed.
Lemma view_same tb tb' :
  table_ok tb → table_ok tb' →
  (∀ j, 0 ≤ j < MAX_HANDLE_ENTRIES → lookup_entry tb' j = lookup_entry tb j) → view tb' = view tb.
Proof.
  intros Hok Hok' Hf. rewrite (view_eq tb tb' (lookup_entry tb 0) 0 Hok Hok').
  - apply map_eq. intros h. rewrite lookup_partial_alter. case_decide; [|done]. subst.
    by rewrite view_lookup.
  - by unfold MAX_HANDLE_ENTRIES.
  - intros j Hj. rewrite Hf by done. by case_decide; subst.
Qed.

(** ** Counting the entries of an object *)

Definition slot_uses (p : Z) (e : slot) : Z :=
  match e with Slot (Some q) _ => if p =? q then 1 else 0 | _ => 0 end.
Definition uses_in (p : Z) (l : list slot) : Z := foldr (λ e n, slot_uses p e + n) 0 l.
Definition uses (tb : handle_table) (p : Z) : Z := uses_in p (ht_entries tb).

Lemma slot_uses_nonneg p e : 0 ≤ slot_uses p e.
Proof. destruct e as [|[q|] a]; simpl; [lia| |lia]. destruct (p =? q); lia. Qed.
Lemma uses_in_nonneg p l : 0 ≤ uses_in p l.
Proof. induction l as [|e l IH]; simpl; [lia|]. pose proof (slot_uses_nonneg p e). lia. Qed.
Lemma uses_in_app p l1 l2 : uses_in p (l1 ++ l2) = uses_in p l1 + uses_in p l2.
Proof. induction l1 as [|e l1 IH]; simpl; [done|]. rewrite IH. lia. Qed.
Lemma uses_in_insert p l i e e' :
  l !! i = Some e → uses_in p (<[i := e']> l) = uses_in p l - slot_uses p e + slot_uses p e'.
Proof.
  revert i. induction l as [|x l IH]; intros [|i] Hi; simplify_eq/=; [lia|]. rewrite (IH _ Hi). lia.
Qed.
Lemma uses_in_zero p l :
  (∀ i e, l !! i = Some e → slot_uses p e = 0) → uses_in p l = 0.
Proof.
  induction l as [|e l IH]; intros Hl; simpl; [done|]. rewrite (Hl O e eq_refl), IH; [done|].
  intros i. apply (Hl (S i)).
Qed.
Lemma uses_in_replicate p n : uses_in p (replicate n Garbage) = 0.
Proof. apply uses_in_zero. by intros i e [-> _]%lookup_replicate_1. Qed.
Lemma uses_in_pos p l i e : l !! i = Some e → slot_uses p e ≤ uses_in p l.
Proof.
  revert i. induction l as [|x l IH]; intros [|i] Hi; simplify_eq/=.
  - pose proof (uses_in_nonneg p l). lia.
  - pose proof (slot_uses_nonneg p x). specialize (IH _ Hi). lia.
Qed.
Lemma uses_in_le p l : uses_in p l ≤ Z.of_nat (length l).
Proof.
  induction l as [|e l IH]; simpl; [lia|]. assert (slot_uses p e ≤ 1); [|lia].
  destruct e as [|[q|] a]; simpl; [lia| |lia]. destruct (p =? q); lia.
Qed.

Lemma uses_nonneg tb p : 0 ≤ uses tb p.
Proof. apply uses_in_nonneg. Qed.
Lemma used_uses tb i p a : lookup_entry tb i = Some (p, a) → 1 ≤ uses tb p.
Proof.
  intros Hi%lookup_entry_some. unfold entry_of in Hi. destruct (i <? 0); [done|].
  apply (uses_in_pos p) in Hi. simpl in Hi. rewrite Z.eqb_refl in Hi. done.
Qed.

(** All tables together. *)
Definition total (m : gmap Z handle_table) (p : Z) : Z := map_fold (λ _ tb n, uses tb p + n) 0 m.

Lemma total_insert_new m t tb p : m !! t = None → total (<[t := tb]> m) p = uses tb p + total m p.
Proof.
  intros Hm. unfold total. rewrite map_fold_insert_L; [done| |done]. intros. lia.
Qed.
Lemma total_delete m t tb p : m !! t = Some tb → total m p = uses tb p + total (delete t m) p.
Proof.
  intros Hm. rewrite <- (total_insert_new _ t) by apply lookup_delete_eq. by rewrite insert_delete_id.
Qed.
Lemma total_insert m t tb tb' p :
  m !! t = Some tb → total (<[t := tb']> m) p = total m p - uses tb p + uses tb' p.
Proof.
  intros Hm. rewrite (total_delete m t tb p Hm), <- insert_delete_eq.
  rewrite (total_insert_new _ t) by apply lookup_delete_eq. lia.
Qed.
Lemma total_nonneg m p : 0 ≤ total m p.
Proof.
  unfold total. apply (map_fold_weak_ind (λ r _, 0 ≤ r)); [done|].
  intros i tb m' r _ Hr. pose proof (uses_nonneg tb p). lia.
Qed.
Lemma uses_le_total m t tb p : m !! t = Some tb → uses tb p ≤ total m p.
Proof. intros Hm. rewrite (total_delete m t tb p Hm). pose proof (total_nonneg (delete t m) p). lia. Qed.

(** ** The invariant *)

(** Table [t] belongs to a process or is the global one. *)
Definition attached (k : kernel) (t : Z) : Prop :=
  k_global k = Some t ∨ ∃ p pr, k_procs k !! p = Some pr ∧ ps_handles pr = Some t.

Record inv (k : kernel) : Prop := {
  iv_table : ∀ t tb, attached k t → k_tables k !! t = Some tb → table_ok tb;
  iv_next : ∀ t, is_Some (k_tables k !! t) → t < k_next k;
  iv_process : ∀ p pr t, k_procs k !! p = Some pr → ps_handles pr = Some t → is_Some (k_tables k !! t);
  iv_distinct : ∀ p p' pr pr' t, k_procs k !! p = Some pr → k_procs k !! p' = Some pr' →
    ps_handles pr = Some t → ps_handles pr' = Some t → p = p';
  iv_global : ∀ t, k_global k = Some t → is_Some (k_tables k !! t);
  iv_not_global : ∀ t p pr, k_global k = Some t → k_procs k !! p = Some pr → ps_handles pr ≠ Some t;
  iv_counts : ∀ p o, k_objs k !! p = Some o →
    ko_handle_count o = total (k_tables k) p ∧ ko_handle_count o ≤ ko_refcount o ≤ INT_MAX;
  iv_live : ∀ p, 0 < total (k_tables k) p → is_Some (k_objs k !! p) }.

(** The parts of the state the invariant is about. *)
Definition same_core (k k' : kernel) : Prop :=
  k_objs k' = k_objs k ∧ k_tables k' = k_tables k ∧ k_next k' = k_next k ∧
  k_procs k' = k_procs k ∧ k_global k' = k_global k.
Definition same_context (k k' : kernel) : Prop :=
  k_current k' = k_current k ∧ k_process k' = k_process k ∧ k_token k' = k_token k ∧ k_tokens k' = k_tokens k.

Lemma inv_core k k' : inv k → same_core k k' → inv k'.
Proof.
  intros [] (E1 & E2 & E3 & E4 & E5). split; unfold attached in *; rewrite ?E1, ?E2, ?E3, ?E4, ?E5; done.
Qed.

(** Replacing table [t] and changing the counts of the objects by as much. *)
Lemma inv_update k k' t tb tb' :
  inv k → k_tables k !! t = Some tb → (attached k t → table_ok tb') →
  k_tables k' = <[t := tb']> (k_tables k) → k_next k' = k_next k →
  k_procs k' = k_procs k → k_global k' = k_global k →
  (∀ p o', k_objs k' !! p = Some o' → ∃ o, k_objs k !! p = Some o ∧
     ko_handle_count o' = ko_handle_count o - uses tb p + uses tb' p ∧
     ko_handle_count o' ≤ ko_refcount o' ≤ INT_MAX) →
  (∀ p, is_Some (k_objs k !! p) → is_Some (k_objs k' !! p) ∨ total (k_tables k') p ≤ 0) →
  (∀ p, uses tb p = uses tb' p ∨ is_Some (k_objs k !! p)) →
  inv k'.
Proof.
  intros Hinv Ht Hok Et En Ep Eg Hobj Hlive Hnew.
  assert (∀ u, is_Some (k_tables k' !! u) ↔ is_Some (k_tables k !! u)) as Hsome.
  { intros u. rewrite Et, lookup_insert. case_decide; subst; rewrite ?Ht; naive_solver. }
  assert (∀ p, total (k_tables k') p = total (k_tables k) p - uses tb p + uses tb' p) as Htot.
  { intros p. rewrite Et. by apply total_insert. }
  split; rewrite ?Ep, ?Eg, ?En.
  - intros u ub Hu. assert (attached k u) as Ha by (unfold attached in *; by rewrite <- Ep, <- Eg).
    rewrite Et, lookup_insert. case_decide; [intros [= <-]; subst; auto|by apply (iv_table _ Hinv)].
  - intros u. rewrite Hsome. apply (iv_next _ Hinv).
  - intros p pr u Hp Hu. rewrite Hsome. by eapply (iv_process _ Hinv).
  - apply (iv_distinct _ Hinv).
  - intros u Hu. rewrite Hsome. by apply (iv_global _ Hinv).
  - apply (iv_not_global _ Hinv).
  - intros p o' Ho'. destruct (Hobj _ _ Ho') as (o & Ho & Hc & Hr).
    destruct (iv_counts _ Hinv _ _ Ho) as [Hco _]. rewrite Htot. lia.
  - intros p Hp. assert (is_Some (k_objs k !! p)) as Hs.
    { destruct (Hnew p) as [E|]; [|done]. apply (iv_live _ Hinv). rewrite Htot in Hp. lia. }
    destruct (Hlive p Hs); [done|lia].
Qed.
