(* ===== verification/HandleTableOps.v ===== *)
(** * The operations on one handle table

    Functional specifications of the loops, of growing and shrinking, and of taking and
    dropping an entry (src/server/handle.c), as total-correctness statements that the
    theorems of HandleTableSpec.v combine. *)

From S2P Require Import Prelude.
From S2P Require Import ShmState.
From S2P Require Import Security.
From S2P Require Import HandleTable.
From S2P Require Import HandleTableInv.

(** ** Primitive steps *)

(** Only the error of the request and the answers of the allocator may change. *)
Definition quiet (k k' : kernel) : Prop := same_core k k' ∧ same_context k k' ∧ k_types k' = k_types k.
#[export] Instance quiet_preorder : PreOrder quiet.
Proof.
  split; [by intros k; repeat split|]. intros k1 k2 k3. unfold quiet, same_core, same_context.
  naive_solver congruence.
Qed.

Lemma wp_dereference {A} (f : kernel → option A) Q k a : f k = Some a → Q a k → wp (deref f) Q k.
Proof. intros Hf HQ. unfold wp, deref. by rewrite Hf. Qed.
Lemma wp_raw_alloc Q k :
  (∀ (b : bool) k', quiet k k' → k_error k' = k_error k → Q b k') → wp raw_alloc Q k.
Proof.
  intros HQ. unfold wp, raw_alloc. destruct (k_mem k) as [|b l]; apply HQ; done.
Qed.
Lemma wp_mem_alloc (Q : bool → kernel → Prop) k :
  (∀ (b : bool) k', quiet k k' → k_error k' = (if b then k_error k else STATUS_NO_MEMORY) → Q b k') → wp mem_alloc Q k.
Proof.
  intros HQ. unfold mem_alloc. rewrite wp_bind. apply wp_raw_alloc. intros [|] k' Hq He; simpl.
  - apply (wp_ret _ _ _). by apply HQ.
  - rewrite wp_bind. apply HQ; [|done]. etrans; [exact Hq|]. done.
Qed.

(** The contents of entry [i]. *)
Definition entry_val (tb : handle_table) (i : Z) : option Z * Z :=
  match entry_of tb i with Some (Slot p a) => (p, a) | _ => (None, 0) end.
Definition readable (tb : handle_table) (i : Z) : Prop := ∃ p a, entry_of tb i = Some (Slot p a).

Lemma lookup_entry_val tb i : lookup_entry tb i = (λ p, (p, (entry_val tb i).2)) <$> (entry_val tb i).1.
Proof. unfold lookup_entry, entry_val. by destruct (entry_of tb i) as [[|[p|] a]|]. Qed.
Lemma used_readable tb i p a : lookup_entry tb i = Some (p, a) → readable tb i.
Proof. intros H%lookup_entry_some. by eexists _, _. Qed.

Lemma read_entry_exec k t tb i :
  k_tables k !! t = Some tb → readable tb i → read_entry t i k = Done (entry_val tb i) k.
Proof.
  intros Ht (p & a & He). unfold read_entry, table_at, entry_val. rewrite He.
  eapply run_bind; [unfold deref; by rewrite Ht|]. by rewrite He.
Qed.
Lemma wp_read_entry k t tb i Q :
  k_tables k !! t = Some tb → readable tb i → Q (entry_val tb i) k → wp (read_entry t i) Q k.
Proof. intros Ht Hr HQ. eapply wp_of_exec; [by eapply read_entry_exec|done]. Qed.

Lemma find_entry_exec {R} k t tb a b (f : Z → option Z * Z → option R) :
  k_tables k !! t = Some tb → (∀ i, a ≤ i ≤ b → readable tb i) →
  find_entry t a b f k = Done (find_some (λ i, f i (entry_val tb i)) (seqZ a (b - a + 1))) k.
Proof.
  intros Ht Hr. unfold find_entry. apply for_until_reads. intros i Hi%elem_of_seqZ.
  eapply run_bind; [apply (read_entry_exec k t tb i Ht), Hr; lia|done].
Qed.

(** ** Tables *)

Definition set_table (t : Z) (tb : handle_table) (k : kernel) : kernel :=
  set_tables (<[t := tb]> (k_tables k)) (k_next k) k.

Lemma wp_update_table k t tb f Q :
  k_tables k !! t = Some tb → Q tt (set_table t (f tb) k) → wp (update_table t f) Q k.
Proof. intros Ht HQ. unfold update_table. rewrite wp_bind. by eapply wp_dereference. Qed.

Definition with_slot (i : Z) (e : slot) (tb : handle_table) : handle_table :=
  with_entries (<[Z.to_nat i := e]> (ht_entries tb)) tb.

Lemma wp_write_entry k t tb i e Q :
  k_tables k !! t = Some tb → is_Some (entry_of tb i) → Q tt (set_table t (with_slot i e tb) k) →
  wp (write_entry t i e) Q k.
Proof.
  intros Ht [s Hs] HQ. unfold write_entry. rewrite wp_bind. eapply wp_dereference; [done|]. by rewrite Hs.
Qed.
Lemma wp_write_ptr k t tb i p Q :
  k_tables k !! t = Some tb → readable tb i →
  Q tt (set_table t (with_slot i (Slot p (entry_val tb i).2) tb) k) → wp (write_ptr t i p) Q k.
Proof.
  intros Ht (q & a & He) HQ. unfold write_ptr. rewrite wp_bind. eapply wp_dereference; [done|].
  rewrite He. eapply wp_write_entry; [done|by rewrite He|]. unfold entry_val in HQ. by rewrite He in HQ.
Qed.

Lemma entry_of_with_slot tb i e j :
  is_Some (entry_of tb i) →
  entry_of (with_slot i e tb) j = if decide (j = i) then Some e else entry_of tb j.
Proof.
  intros [s Hs]. pose proof (entry_of_range _ _ _ Hs) as Hi. unfold entry_of in *. simpl in *.
  destruct (Z.ltb_spec i 0); [lia|]. destruct (Z.ltb_spec j 0).
  { by rewrite decide_False by lia. }
  case_decide; [subst; apply list_lookup_insert_eq; lia|]. apply list_lookup_insert_ne. lia.
Qed.
Lemma uses_with_slot tb i e e' p :
  entry_of tb i = Some e → uses (with_slot i e' tb) p = uses tb p - slot_uses p e + slot_uses p e'.
Proof.
  unfold entry_of, uses. destruct (i <? 0); [done|]. intros Hi. simpl. by apply uses_in_insert.
Qed.
Lemma length_with_slot tb i e : length (ht_entries (with_slot i e tb)) = length (ht_entries tb).
Proof. apply length_insert. Qed.

(** ** Growing and shrinking *)

Lemma lookup_entry_none_above tb j : table_ok tb → ht_last tb < j → lookup_entry tb j = None.
Proof.
  intros Hok Hj. destruct (lookup_entry tb j) eqn:E; [|done].
  pose proof (tk_above _ Hok j ltac:(by rewrite E)). lia.
Qed.

Lemma entry_of_resize tb n j :
  table_ok tb → 0 ≤ j ≤ ht_last tb → j < n → entry_of (with_count n tb) j = entry_of tb j.
Proof.
  intros Hok Hj Hn. unfold entry_of. destruct (Z.ltb_spec j 0); [done|]. simpl.
  pose proof (tk_length _ Hok). pose proof (tk_last _ Hok).
  rewrite lookup_app_l by (rewrite length_take; lia). rewrite lookup_take_lt; [done|lia].
Qed.

Lemma lookup_resize tb n j :
  table_ok tb → ht_last tb < n → lookup_entry (with_count n tb) j = lookup_entry tb j.
Proof.
  intros Hok Hn. destruct (decide (0 ≤ j ≤ ht_last tb)) as [Hj|Hj].
  { unfold lookup_entry. rewrite entry_of_resize; [done..|lia]. }
  destruct (decide (j < 0)).
  { unfold lookup_entry, entry_of. destruct (Z.ltb_spec j 0); [done|lia]. }
  rewrite (lookup_entry_none_above tb j) by (done || lia).
  unfold lookup_entry. destruct (entry_of (with_count n tb) j) as [e|] eqn:E; [|done].
  unfold entry_of in E. destruct (Z.ltb_spec j 0); [done|]. simpl in E.
  apply lookup_app_Some in E as [E|[_ [-> _]%lookup_replicate_1]]; [|done].
  apply lookup_take_Some in E as [E _].
  assert (lookup_entry tb j = None) as Hnone by (apply lookup_entry_none_above; [done|lia]).
  unfold lookup_entry, entry_of in Hnone. destruct (Z.ltb_spec j 0); [done|]. by rewrite E in Hnone.
Qed.

Lemma uses_resize tb n p : table_ok tb → ht_last tb < n → 0 ≤ n → uses (with_count n tb) p = uses tb p.
Proof.
  intros Hok Hn Hpos. unfold uses. simpl. rewrite uses_in_app, uses_in_replicate.
  rewrite <- (take_drop (Z.to_nat n) (ht_entries tb)) at 2. rewrite uses_in_app.
  assert (uses_in p (drop (Z.to_nat n) (ht_entries tb)) = 0); [|lia].
  apply uses_in_zero. intros i e. rewrite lookup_drop. intros E.
  assert (lookup_entry tb (n + Z.of_nat i) = None) as Hnone by (apply lookup_entry_none_above; [done|lia]).
  unfold lookup_entry, entry_of in Hnone. destruct (Z.ltb_spec (n + Z.of_nat i) 0); [lia|].
  replace (Z.to_nat (n + Z.of_nat i)) with (Z.to_nat n + i)%nat in Hnone by lia.
  rewrite E in Hnone. by destruct e as [|[q|] a].
Qed.

Lemma table_ok_resize tb n :
  table_ok tb → ht_last tb < n → MIN_HANDLE_ENTRIES ≤ n ≤ MAX_HANDLE_ENTRIES → table_ok (with_count n tb).
Proof.
  intros Hok Hl Hn. pose proof Hok as [Hlen Hc Hlast Hfree Hbelow Hinit Habove].
  unfold MIN_HANDLE_ENTRIES in *. split; simpl; try done.
  - rewrite length_app, length_take, length_replicate. lia.
  - lia.
  - intros i Hi. rewrite lookup_resize by done. by apply Hbelow.
  - intros i Hi. rewrite entry_of_resize; [by apply Hinit|done..|lia].
  - intros i. rewrite lookup_resize by done. apply Habove.
Qed.

(** The state after a step that replaced table [t] only. *)
Definition retabled (t : Z) (tb : handle_table) (k k' : kernel) : Prop :=
  k_objs k' = k_objs k ∧ k_tables k' = <[t := tb]> (k_tables k) ∧ k_next k' = k_next k ∧
  k_procs k' = k_procs k ∧ k_global k' = k_global k ∧ same_context k k' ∧ k_types k' = k_types k.

Lemma retabled_set_table t tb k : retabled t tb k (set_table t tb k).
Proof. by repeat split. Qed.
Lemma retabled_trans t tb tb' k1 k2 k3 : retabled t tb k1 k2 → retabled t tb' k2 k3 → retabled t tb' k1 k3.
Proof.
  unfold retabled, same_context. intros (H1 & H2 & H3 & H4 & H5 & (C1 & C2 & C3 & C4) & H7)
    (G1 & G2 & G3 & G4 & G5 & (D1 & D2 & D3 & D4) & G7).
  split_and!; try congruence. by rewrite G2, H2, insert_insert_eq.
Qed.
Lemma retabled_quiet t tb k k' : k_tables k !! t = Some tb → quiet k k' → retabled t tb k k'.
Proof.
  intros Ht ((H1 & H2 & H3 & H4 & H5) & H6 & H7). split_and!; try done. by rewrite H2, insert_id.
Qed.
Lemma quiet_retabled t tb k1 k2 k3 : quiet k1 k2 → retabled t tb k2 k3 → retabled t tb k1 k3.
Proof.
  unfold quiet, retabled, same_core, same_context.
  intros ((H1 & H2 & H3 & H4 & H5) & (C1 & C2 & C3 & C4) & H7)
    (G1 & G2 & G3 & G4 & G5 & (D1 & D2 & D3 & D4) & G7).
  split_and!; congruence.
Qed.
Lemma quiet_tables k k' t tb : quiet k k' → k_tables k !! t = Some tb → k_tables k' !! t = Some tb.
Proof. intros ((_ & E & _) & _) Ht. by rewrite E. Qed.

Lemma inv_retabled k k' t tb tb' :
  inv k → k_tables k !! t = Some tb → (attached k t → table_ok tb') → (∀ p, uses tb' p = uses tb p) →
  retabled t tb' k k' → inv k'.
Proof.
  intros Hinv Ht Hok Hu (H1 & H2 & H3 & H4 & H5 & _ & _).
  apply (inv_update k k' t tb tb'); try done.
  - intros p o' Ho. rewrite H1 in Ho. exists o'. pose proof (iv_counts _ Hinv _ _ Ho).
    split_and!; [done|rewrite Hu; lia|lia..].
  - intros p Hp. left. by rewrite H1.
  - intros p. left. by rewrite Hu.
Qed.

(** [shrink_handle_table] always returns, and changes no used entry. *)
Lemma shrink_spec k t tb :
  k_tables k !! t = Some tb →
  Z.of_nat (length (ht_entries tb)) = ht_count tb → MIN_HANDLE_ENTRIES ≤ ht_count tb ≤ MAX_HANDLE_ENTRIES →
  -1 ≤ ht_last tb < ht_count tb → 0 ≤ ht_free tb →
  (∀ i, 0 ≤ i < ht_free tb → is_Some (lookup_entry tb i)) →
  (∀ i, 0 ≤ i ≤ ht_last tb → readable tb i) → (∀ i, is_Some (lookup_entry tb i) → i ≤ ht_last tb) →
  wp (shrink_handle_table t) (λ _ k', ∃ tb', retabled t tb' k k' ∧ table_ok tb' ∧
    ht_process tb' = ht_process tb ∧ ht_last tb' ≤ ht_last tb ∧ ht_free tb' = ht_free tb ∧
    (∀ j, lookup_entry tb' j = lookup_entry tb j) ∧ (∀ p, uses tb' p = uses tb p)) k.
Proof.
  intros Ht Hlen Hcount Hlast Hfree Hbelow Hinit Habove. unfold shrink_handle_table.
  rewrite wp_bind. eapply wp_dereference; [done|]. rewrite wp_bind.
  set (g := λ i, if (entry_val tb i).1 is None then None else Some i).
  eapply wp_of_exec.
  { apply (for_until_reads _ _ g). intros i Hi%elem_of_reverse%elem_of_seqZ.
    eapply run_bind; [apply (read_entry_exec k t tb i Ht), Hinit; lia|done]. }
  pose proof (find_some_reverse_seqZ g (ht_last tb + 1) ltac:(lia)) as Hg.
  set (last := default (-1) (find_some g (reverse (seqZ 0 (ht_last tb + 1))))).
  assert (-1 ≤ last ≤ ht_last tb ∧ ∀ j, is_Some (lookup_entry tb j) → j ≤ last) as [Hl Hup].
  { assert (∀ j, g j = None → lookup_entry tb j = None) as Hgn.
    { intros j. unfold g. rewrite lookup_entry_val. by destruct (entry_val tb j) as [[p|] a]. }
    subst last. destruct (find_some g _) as [r|]; simpl.
    - destruct Hg as (i & Hi & Hr & Hj). assert (r = i) as ->.
      { unfold g in Hr. destruct (entry_val tb i) as [[|] ?]; naive_solver. }
      split; [lia|]. intros j Hs. pose proof (Habove j Hs). destruct (decide (j ≤ i)); [done|].
      rewrite (Hgn j) in Hs; [by destruct Hs|]. apply Hj. lia.
    - split; [lia|]. intros j Hs. pose proof (Habove j Hs). destruct (decide (j < 0)); [lia|].
      rewrite (Hgn j) in Hs; [by destruct Hs|]. apply Hg. lia. }
  set (tb1 := with_last last tb).
  assert (table_ok tb1) as Hok1.
  { split; simpl; try done; [lia|]. intros i Hi. apply Hinit. lia. }
  rewrite wp_bind. eapply wp_update_table; [done|]. fold tb1.
  assert (k_tables (set_table t tb1 k) !! t = Some tb1) as Ht1 by apply lookup_insert_eq.
  assert (∀ (b : bool) k', quiet (set_table t tb1 k) k' → retabled t tb1 k k') as Hend.
  { intros b k' Hq. eapply retabled_trans; [apply retabled_set_table|]. by apply retabled_quiet. }
  destruct (Z.leb_spec (ht_count tb / 4) last).
  { apply (wp_ret _ _ _). exists tb1. split_and!; first [done|by apply (Hend true)|simpl; lia]. }
  destruct (Z.ltb_spec (ht_count tb) (MIN_HANDLE_ENTRIES * 2)) as [|Hbig].
  { apply (wp_ret _ _ _). exists tb1. split_and!; first [done|by apply (Hend true)|simpl; lia]. }
  rewrite wp_bind. apply wp_raw_alloc. intros [|] k' Hq _; simpl negb; cbv iota.
  2: { apply (wp_ret _ _ _). exists tb1. split_and!; first [done|by apply (Hend true)|simpl; lia]. }
  eapply wp_update_table; [by eapply quiet_tables|]. unfold MIN_HANDLE_ENTRIES in *.
  exists (with_count (ht_count tb / 2) tb1).
  assert (ht_last tb1 < ht_count tb / 2) by (simpl; Z.div_mod_to_equations; lia).
  assert (0 ≤ ht_count tb / 2) by (Z.div_mod_to_equations; lia).
  split_and!; [| |done|simpl; lia|done| |].
  - eapply retabled_trans; [by apply (Hend true)|apply retabled_set_table].
  - apply table_ok_resize; [done..|]. unfold MIN_HANDLE_ENTRIES. Z.div_mod_to_equations; lia.
  - intros j. by rewrite lookup_resize.
  - intros p. by rewrite uses_resize.
Qed.

(** ** Taking an entry *)

Section ops.
Context `{ObjectTypes}.

(** The object with one more reference and one more handle. *)
Definition handled (o : kobject) : kobject :=
  KObject (ko_refcount o + 1) (ko_handle_count o + 1) (ko_ops o) (ko_permanent o) (ko_sd o).

Definition same_but_objs (k k' : kernel) : Prop :=
  k_tables k' = k_tables k ∧ k_next k' = k_next k ∧ k_procs k' = k_procs k ∧ k_global k' = k_global k ∧
  same_context k k' ∧ k_error k' = k_error k.

Lemma grab_for_handle_spec k p o :
  k_objs k !! p = Some o → 0 ≤ ko_handle_count o ≤ ko_refcount o → ko_refcount o < INT_MAX →
  wp (grab_object_for_handle p)
    (λ _ k', k_objs k' = <[p := handled o]> (k_objs k) ∧ same_but_objs k k') k.
Proof.
  unfold INT_MAX. intros Hp Hc Hr. unfold grab_object_for_handle, grab_object, object_at, count_handle.
  rewrite wp_bind. eapply wp_dereference; [done|]. rewrite wp_bind. unfold put_object at 1. rewrite wp_modify.
  rewrite wp_bind, wp_modify. destruct (type_counts _ _) as [n m]. rewrite wp_bind.
  eapply wp_dereference; [apply lookup_insert_eq|]. rewrite wp_bind, wp_assert.
  split; [apply Z.ltb_lt; simpl; unfold INT_MAX; lia|]. unfold put_object. rewrite wp_modify.
  split; [|by repeat split]. simpl. rewrite insert_insert_eq. unfold handled, with_refcount, with_handle_count.
  simpl. by rewrite u32_small by lia.
Qed.

Lemma slot_uses_some p q a : slot_uses p (Slot (Some q) a) = if decide (p = q) then 1 else 0.
Proof. simpl. by destruct (Z.eqb_spec p q); case_decide. Qed.

(** Entry [i] of the table now refers to [obj]; [i] was the first unused one. *)
Definition placed (i obj access : Z) (tb : handle_table) : handle_table :=
  with_slot i (Slot (Some obj) access) (with_free (i + 1) (with_last (Z.max (ht_last tb) i) tb)).

Lemma lookup_with_slot tb i e j :
  is_Some (entry_of tb i) →
  lookup_entry (with_slot i e tb) j =
    if decide (j = i) then match e with Slot (Some p) a => Some (p, a) | _ => None end else lookup_entry tb j.
Proof. intros Hs. unfold lookup_entry. rewrite entry_of_with_slot by done. by case_decide. Qed.

Lemma placed_ok tb i obj access :
  table_ok tb → 0 ≤ i < ht_count tb → i ≤ ht_last tb + 1 → lookup_entry tb i = None →
  (∀ j, 0 ≤ j < i → is_Some (lookup_entry tb j)) →
  table_ok (placed i obj access tb) ∧
  (∀ j, lookup_entry (placed i obj access tb) j = if decide (j = i) then Some (obj, access) else lookup_entry tb j) ∧
  (∀ p, uses (placed i obj access tb) p = uses tb p + if decide (p = obj) then 1 else 0).
Proof.
  intros Hok Hi Hil Hnone Hused. pose proof Hok as [Hlen Hc Hlast Hfree Hbelow Hinit Habove].
  set (tb1 := with_free (i + 1) (with_last (Z.max (ht_last tb) i) tb)).
  assert (is_Some (entry_of tb1 i)) as Hs by (apply entry_of_some; simpl; lia).
  assert (∀ j, lookup_entry (placed i obj access tb) j =
            if decide (j = i) then Some (obj, access) else lookup_entry tb j) as Hl.
  { intros j. unfold placed. fold tb1. by rewrite lookup_with_slot. }
  split_and!; [|done|].
  - split.
    + unfold placed. by rewrite length_with_slot.
    + done.
    + simpl. lia.
    + simpl. lia.
    + simpl. intros j Hj. rewrite Hl. case_decide; [done|]. apply Hused. lia.
    + simpl. intros j Hj. unfold placed. fold tb1. rewrite entry_of_with_slot by done.
      case_decide; [by eexists _, _|]. apply Hinit. lia.
    + simpl. intros j. rewrite Hl. case_decide; [lia|]. intros Hj%Habove. lia.
  - intros p. destruct Hs as [e He]. unfold placed. fold tb1.
    rewrite (uses_with_slot tb1 i e) by done. rewrite slot_uses_some.
    assert (slot_uses p e = 0) as ->; [|change (uses tb1 p) with (uses tb p); case_decide; lia].
    unfold lookup_entry in Hnone. change (entry_of tb1 i) with (entry_of tb i) in He. rewrite He in Hnone.
    by destruct e as [|[q|] a].
Qed.

(** The state after [obj] got entry [i] of table [t], which was [tb]. *)
Definition allocated (t i obj access : Z) (tb tb' : handle_table) (k k' : kernel) : Prop :=
  k_tables k' = <[t := tb']> (k_tables k) ∧ table_ok tb' ∧ ht_process tb' = ht_process tb ∧
  (∀ j, lookup_entry tb' j = if decide (j = i) then Some (obj, access) else lookup_entry tb j) ∧
  (∀ p, uses tb' p = uses tb p + if decide (p = obj) then 1 else 0) ∧
  (∃ o, k_objs k !! obj = Some o ∧ k_objs k' = <[obj := handled o]> (k_objs k)) ∧
  k_next k' = k_next k ∧ k_procs k' = k_procs k ∧ k_global k' = k_global k ∧ same_context k k'.

Lemma inv_allocated k k' t i obj access tb tb' o :
  inv k → k_tables k !! t = Some tb → k_objs k !! obj = Some o → ko_refcount o < INT_MAX →
  allocated t i obj access tb tb' k k' → inv k'.
Proof.
  intros Hinv Ht Ho Hr (Et & Hok & _ & _ & Hu & (o' & Ho' & Eo) & En & Ep & Eg & _).
  simplify_eq. apply (inv_update k k' t tb tb'); try done.
  - intros p q. rewrite Eo, lookup_insert. case_decide as E; [intros [= <-]; subst p|].
    + exists o. pose proof (iv_counts _ Hinv _ _ Ho). rewrite Hu, decide_True by done. simpl.
      split_and!; [done|lia..].
    + intros Hq. exists q. pose proof (iv_counts _ Hinv _ _ Hq). rewrite Hu, decide_False by done.
      split_and!; [done|lia..].
  - intros p Hp. left. rewrite Eo, lookup_insert. by case_decide.
  - intros p. rewrite Hu. case_decide; [right; subst; by rewrite Ho|left; lia].
Qed.

(** Every entry the table could ever have is in use. *)
Definition table_full (tb : handle_table) : Prop :=
  ht_count tb = MAX_HANDLE_ENTRIES ∧ ∀ i, 0 ≤ i < MAX_HANDLE_ENTRIES → is_Some (lookup_entry tb i).

Lemma grow_spec k t tb :
  k_tables k !! t = Some tb → table_ok tb → ht_last tb + 1 = ht_count tb →
  (∀ j, 0 ≤ j ≤ ht_last tb → is_Some (lookup_entry tb j)) →
  wp (grow_handle_table t) (λ ok k',
    if ok : bool then ∃ n, retabled t (with_count n tb) k k' ∧ k_error k' = k_error k ∧ ht_count tb < n ≤ MAX_HANDLE_ENTRIES
    else quiet k k' ∧ k_error k' = STATUS_INSUFFICIENT_RESOURCES ∧ (table_full tb ∨ head (k_mem k) = Some false)) k.
Proof.
  intros Ht Hok Hlast Hall. unfold grow_handle_table. rewrite wp_bind. eapply wp_dereference; [done|].
  pose proof (tk_count _ Hok) as Hc. unfold MIN_HANDLE_ENTRIES in *.
  destruct (Z.eqb_spec (Z.min (ht_count tb * 2) MAX_HANDLE_ENTRIES) (ht_count tb)) as [E|E].
  - rewrite wp_bind. apply (wp_ret _ _ _). simpl negb. cbv iota. rewrite wp_bind. apply (wp_modify _ _ _).
    apply (wp_ret _ _ _). split_and!; [by repeat split|done|left].
    assert (ht_count tb = MAX_HANDLE_ENTRIES) by (unfold MAX_HANDLE_ENTRIES in *; lia).
    split; [done|]. intros i Hi. apply Hall. lia.
  - rewrite wp_bind. unfold wp, raw_alloc. destruct (k_mem k) as [|[|] l] eqn:Em; simpl negb; cbv iota.
    + exists (Z.min (ht_count tb * 2) MAX_HANDLE_ENTRIES); split_and!; [apply retabled_set_table|done|unfold MAX_HANDLE_ENTRIES in *; lia..].
    + exists (Z.min (ht_count tb * 2) MAX_HANDLE_ENTRIES); split_and!; [|done|unfold MAX_HANDLE_ENTRIES in *; lia..].
      apply (quiet_retabled _ _ _ (with_mem l k)); [by repeat split|apply retabled_set_table].
    + simpl. split_and!; [by repeat split|done|by right].
Qed.

(** The end of [alloc_entry]: entry [i] is chosen, and the last entry adjusted. *)
Lemma place_spec k t tb i obj o access :
  k_tables k !! t = Some (with_last (Z.max (ht_last tb) i) tb) →
  table_ok tb → 0 ≤ i < ht_count tb →
  k_objs k !! obj = Some o → 0 ≤ ko_handle_count o ≤ ko_refcount o → ko_refcount o < INT_MAX →
  wp (_ ← update_table t (with_free (i + 1)); _ ← grab_object_for_handle obj;
      _ ← write_entry t i (Slot (Some obj) access); mret (index_to_handle i))
    (λ h k', h = index_to_handle i ∧ k_tables k' = <[t := placed i obj access tb]> (k_tables k) ∧
       k_objs k' = <[obj := handled o]> (k_objs k) ∧ k_next k' = k_next k ∧ k_procs k' = k_procs k ∧
       k_global k' = k_global k ∧ same_context k k' ∧ k_error k' = k_error k) k.
Proof.
  intros Ht Hok Hi Ho Hc Hr. rewrite wp_bind. eapply wp_update_table; [done|].
  rewrite wp_bind. eapply wp_mono; [by eapply (grab_for_handle_spec _ obj o)|].
  intros [] k2 (Eo & Et & En & Ep & Eg & Ec & Ee). rewrite wp_bind. simpl in *.
  eapply wp_write_entry; [rewrite Et; apply lookup_insert_eq| |].
  { apply entry_of_some. simpl. pose proof (tk_length _ Hok). lia. }
  apply (wp_ret _ _ _). simpl. rewrite Et, insert_insert_eq. split_and!; try done.
Qed.

Lemma allocated_placed k k1 k' t tb tb1 i obj o access :
  retabled t (with_last (Z.max (ht_last tb1) i) tb1) k k1 → table_ok tb1 →
  ht_process tb1 = ht_process tb → (∀ j, lookup_entry tb1 j = lookup_entry tb j) →
  (∀ p, uses tb1 p = uses tb p) → 0 ≤ i < ht_count tb1 → i ≤ ht_last tb1 + 1 →
  lookup_entry tb i = None → (∀ j, 0 ≤ j < i → is_Some (lookup_entry tb j)) →
  k_objs k !! obj = Some o →
  k_tables k' = <[t := placed i obj access tb1]> (k_tables k1) → k_objs k' = <[obj := handled o]> (k_objs k1) →
  k_next k' = k_next k1 → k_procs k' = k_procs k1 → k_global k' = k_global k1 → same_context k1 k' →
  allocated t i obj access tb (placed i obj access tb1) k k'.
Proof.
  intros (R1 & R2 & R3 & R4 & R5 & (C1 & C2 & C3 & C4) & _) Hok Hp Hl Hu Hi Hil Hnone Hbelow Ho Et Eo En Ep Eg
    (D1 & D2 & D3 & D4).
  destruct (placed_ok tb1 i obj access Hok Hi Hil) as (Hok' & Hl' & Hu'); [by rewrite Hl|intros j; rewrite Hl; auto|].
  split_and!; try done; try congruence.
  - by rewrite Et, R2, insert_insert_eq.
  - intros j. by rewrite Hl', Hl.
  - intros p. by rewrite Hu', Hu.
  - exists o. split; [done|]. by rewrite Eo, R1.
  - split_and!; congruence.
Qed.

(** What [alloc_entry] does: it takes the lowest unused entry, or the table is as large as
    it can be and full, or the allocator refuses to let it grow. *)
Definition alloc_post (k : kernel) (t : Z) (tb : handle_table) (obj access h : Z) (k' : kernel) : Prop :=
  h = 0 ∧ quiet k k' ∧ k_error k' = STATUS_INSUFFICIENT_RESOURCES ∧
    (table_full tb ∨ head (k_mem k) = Some false) ∨
  ∃ i tb', h = index_to_handle i ∧ 0 ≤ i < MAX_HANDLE_ENTRIES ∧ lookup_entry tb i = None ∧
    (∀ j, 0 ≤ j < i → is_Some (lookup_entry tb j)) ∧
    allocated t i obj access tb tb' k k' ∧ k_error k' = k_error k.

(** Entry [last + 1] is taken, in a table that has room for it. *)
Lemma extend_spec k k1 t tb tb1 i obj o access :
  retabled t tb1 k k1 → k_error k1 = k_error k → table_ok tb1 → ht_process tb1 = ht_process tb →
  (∀ j, lookup_entry tb1 j = lookup_entry tb j) → (∀ p, uses tb1 p = uses tb p) →
  i = ht_last tb1 + 1 → i < ht_count tb1 →
  lookup_entry tb i = None → (∀ j, 0 ≤ j < i → is_Some (lookup_entry tb j)) →
  k_objs k !! obj = Some o → 0 ≤ ko_handle_count o ≤ ko_refcount o → ko_refcount o < INT_MAX →
  wp (update_table t (with_last i))
    (λ _ k', wp (_ ← update_table t (with_free (i + 1)); _ ← grab_object_for_handle obj;
        _ ← write_entry t i (Slot (Some obj) access); mret (index_to_handle i))
      (alloc_post k t tb obj access) k') k1.
Proof.
  intros R Ee Hok1 Hp Hl Hu Hil Hi Hnone Hbelow Ho Hc Hr.
  eapply wp_update_table; [destruct R as (_ & -> & _); apply lookup_insert_eq|].
  assert (with_last i tb1 = with_last (Z.max (ht_last tb1) i) tb1) as E by (rewrite Z.max_r; [done|lia]).
  pose proof (tk_last _ Hok1). pose proof (tk_count _ Hok1).
  eapply wp_mono; [eapply (place_spec _ t tb1 i obj o); try done; try lia|].
  { rewrite E. apply lookup_insert_eq. }
  { destruct R as (R1 & _). simpl. by rewrite R1. }
  intros h k' (-> & E1 & E2 & E3 & E4 & E5 & E6 & E7). right. exists i, (placed i obj access tb1).
  refine (conj eq_refl (conj _ (conj Hnone (conj Hbelow (conj _ _))))); [lia| |simpl in E7; by rewrite E7].
  eapply (allocated_placed k _ k' t tb tb1 i obj o); try done; try lia.
  rewrite <- E. eapply retabled_trans; [exact R|apply retabled_set_table].
Qed.

Lemma alloc_entry_spec k t tb obj o access :
  k_tables k !! t = Some tb → table_ok tb →
  k_objs k !! obj = Some o → 0 ≤ ko_handle_count o ≤ ko_refcount o → ko_refcount o < INT_MAX →
  wp (alloc_entry t obj access) (alloc_post k t tb obj access) k.
Proof.
  intros Ht Hok Ho Hc Hr. pose proof (tk_count _ Hok) as Hcount. pose proof (tk_last _ Hok) as Hlast.
  pose proof (tk_free _ Hok) as Hfree. pose proof (table_free_le _ Hok) as Hfl.
  unfold alloc_entry. rewrite wp_bind. eapply wp_dereference; [done|]. rewrite wp_bind.
  eapply wp_of_exec; [apply (find_entry_exec k t tb _ _ _ Ht); intros i Hi; apply (tk_init _ Hok); lia|].
  set (g := λ i, if (entry_val tb i).1 is None then Some i else None).
  pose proof (find_some_seqZ g (ht_free tb) (ht_last tb - ht_free tb + 1)) as Hg.
  assert (∀ j, g j = None → is_Some (lookup_entry tb j)) as Hgn.
  { intros j. unfold g. rewrite lookup_entry_val. by destruct (entry_val tb j) as [[p|] a]. }
  destruct (find_some g _) as [r|].
  - destruct Hg as (i & Hi & Hri & Hj). rewrite wp_bind. apply (wp_ret _ _ _).
    assert (r = i ∧ lookup_entry tb i = None) as [-> Hnone].
    { unfold g in Hri. rewrite lookup_entry_val. destruct (entry_val tb i) as [[|] ?]; naive_solver. }
    assert (with_last (Z.max (ht_last tb) i) tb = tb) as E.
    { rewrite Z.max_l by lia. by destruct tb. }
    assert (∀ j, 0 ≤ j < i → is_Some (lookup_entry tb j)) as Hbelow.
    { intros j ?. destruct (decide (j < ht_free tb)); [apply (tk_below _ Hok); lia|apply Hgn, Hj; lia]. }
    eapply wp_mono; [eapply (place_spec k t tb i obj o); [by rewrite E|done|lia|done..]|].
    intros h k' (-> & E1 & E2 & E3 & E4 & E5 & E6 & E7). right. exists i, (placed i obj access tb).
    refine (conj eq_refl (conj _ (conj Hnone (conj Hbelow (conj _ E7))))); [lia|].
    eapply (allocated_placed k k k' t tb tb); try done; try lia.
    rewrite E. by apply retabled_quiet.
  - rewrite Z.max_r by lia. set (i := ht_last tb + 1).
    assert (lookup_entry tb i = None) as Hnone by (apply lookup_entry_none_above; [done|lia]).
    assert (∀ j, 0 ≤ j < i → is_Some (lookup_entry tb j)) as Hbelow.
    { intros j ?. destruct (decide (j < ht_free tb)); [apply (tk_below _ Hok); lia|apply Hgn, Hg; lia]. }
    rewrite wp_bind, wp_bind. destruct (Z.leb_spec (ht_count tb) i) as [Hfull|Hroom].
    + eapply wp_mono; [apply (grow_spec k t tb); [done|done|lia|intros j Hj; apply Hbelow; lia]|].
      intros [|] k1; simpl negb; cbv iota.
      * intros (n & R & He & Hn). rewrite wp_bind.
        eapply wp_mono; [eapply (extend_spec k k1 t tb (with_count n tb) i obj o); try done; simpl; try lia|].
        -- apply table_ok_resize; [done|lia|unfold MIN_HANDLE_ENTRIES in *; lia].
        -- intros j. apply lookup_resize; [done|lia].
        -- intros p. apply uses_resize; [done|unfold MIN_HANDLE_ENTRIES in *; lia..].
        -- intros [] k2 Hw. by rewrite wp_ret.
      * intros (Hq & He & Hf). rewrite !wp_ret. left. by split_and!.
    + rewrite wp_ret. simpl negb. cbv iota. rewrite wp_bind.
      eapply wp_mono; [eapply (extend_spec k k t tb tb i obj o); try done|].
      * by apply retabled_quiet.
      * intros [] k2 Hw. by rewrite wp_ret.
Qed.

(** ** Dropping an entry *)

(** Everything but the objects, the types, the error and the allocator is unchanged. *)
Definition same_tables (k k' : kernel) : Prop :=
  k_tables k' = k_tables k ∧ k_next k' = k_next k ∧ k_procs k' = k_procs k ∧ k_global k' = k_global k ∧
  same_context k k'.

(** The references of every object cover its handles. *)
Definition counted (k : kernel) : Prop :=
  ∀ p o, k_objs k !! p = Some o → ko_handle_count o ≤ ko_refcount o ≤ INT_MAX.

(** What a close hook may do: objects come and go and gain and lose references, those of the
    closed object too, but no table changes, an object keeps the handles it has, and one
    with handles stays. *)
Definition hook_effect (k k' : kernel) : Prop :=
  same_tables k k' ∧ (counted k → counted k') ∧
  (∀ p o', k_objs k' !! p = Some o' → ko_handle_count o' = default 0 (ko_handle_count <$> k_objs k !! p)) ∧
  (∀ p o, k_objs k !! p = Some o → ko_handle_count o ≠ 0 → is_Some (k_objs k' !! p)).

(** The close hook of object [obj], run in state [k] on a handle, has no more than
    [hook_effect]. All hooks of the server behave so in every state, but that of a job with
    JOB_OBJECT_LIMIT_KILL_ON_JOB_CLOSE, which ends processes with the last handle. *)
Definition hook_keeps (k : kernel) (obj process handle : Z) : Prop :=
  ∀ o hook, k_objs k !! obj = Some o → op_close_handle (ops_of (ko_ops o)) = Some hook →
    wp (hook obj process handle) (λ _ k', hook_effect k k') k.

(** What is assumed of destroy methods: they preserve the invariant, the tables and the object. *)
Definition destroys_ok : Prop :=
  ∀ ops destroy, op_destroy (ops_of ops) = Some destroy →
    ∀ p k o, inv k → k_objs k !! p = Some o → ko_refcount o = 0 →
    wp (destroy p) (λ _ k', inv k' ∧ k_objs k' !! p = Some o ∧ k_tables k' = k_tables k ∧
      k_next k' = k_next k ∧ k_procs k' = k_procs k ∧ k_global k' = k_global k ∧ same_context k k') k.

(** Destroy methods and the hooks of all objects are as above. *)
Record hooks_ok : Prop := {
  close_hook_ok : ∀ k obj process handle, is_Some (k_objs k !! obj) → counted k → hook_keeps k obj process handle;
  destroy_ok : destroys_ok }.

Lemma counted_of_inv k : inv k → counted k.
Proof. intros Hinv p o Ho. apply (iv_counts _ Hinv _ _ Ho). Qed.
Lemma inv_hook k k' : inv k → hook_effect k k' → inv k'.
Proof.
  intros Hinv ((E1 & E2 & E3 & E4 & _) & Hcount & Hhandles & Hlive).
  split; unfold attached; rewrite ?E1, ?E2, ?E3, ?E4; try apply Hinv.
  - intros p o' Ho'. split; [|by apply (Hcount (counted_of_inv k Hinv) p o')].
    rewrite (Hhandles _ _ Ho'). destruct (k_objs k !! p) as [o|] eqn:Ho; simpl; [apply (iv_counts _ Hinv _ _ Ho)|].
    pose proof (total_nonneg (k_tables k) p). destruct (decide (0 < total (k_tables k) p)) as [Hp|]; [|lia].
    apply (iv_live _ Hinv) in Hp as [? ?]. congruence.
  - intros p Hp. destruct (iv_live _ Hinv p Hp) as [o Ho]. apply (Hlive p o Ho).
    destruct (iv_counts _ Hinv _ _ Ho). lia.
Qed.
Lemma hook_live k k' p o : hook_effect k k' → k_objs k !! p = Some o → 0 < ko_handle_count o →
  ∃ o', k_objs k' !! p = Some o' ∧ ko_handle_count o' = ko_handle_count o.
Proof.
  intros (_ & _ & Hh & Hl) Ho Hpos. destruct (Hl p o Ho ltac:(lia)) as [o' Ho']. exists o'. split; [done|].
  by rewrite (Hh _ _ Ho'), Ho.
Qed.

Lemma inv_objects k k' :
  inv k → same_tables k k' →
  (∀ p o', k_objs k' !! p = Some o' → ∃ o, k_objs k !! p = Some o ∧
     ko_handle_count o' = ko_handle_count o ∧ ko_handle_count o' ≤ ko_refcount o' ≤ INT_MAX) →
  (∀ p o, k_objs k !! p = Some o → is_Some (k_objs k' !! p) ∨ ko_handle_count o = 0) →
  inv k'.
Proof.
  intros Hinv Ht Hobj Hlive. apply (inv_hook k); [done|]. split_and!; [done|..].
  - intros _ p o' Ho'. by destruct (Hobj _ _ Ho') as (o & _ & _ & ?).
  - intros p o' Ho'. destruct (Hobj _ _ Ho') as (o & -> & -> & _). done.
  - intros p o Ho Hne. by destruct (Hlive p o Ho).
Qed.

(** [release_object] on an object with a reference that no handle accounts for. *)
Lemma release_object_spec k p o :
  destroys_ok → inv k → k_objs k !! p = Some o → ko_handle_count o < ko_refcount o →
  wp (release_object p) (λ _ k', inv k' ∧ same_tables k k' ∧
    (1 < ko_refcount o → k_objs k' = <[p := with_refcount (ko_refcount o - 1) o]> (k_objs k)) ∧
    (ko_refcount o = 1 → k_objs k' !! p = None)) k.
Proof.
  intros Hhooks Hinv Ho Hlt. destruct (iv_counts _ Hinv _ _ Ho) as [Hc Hr].
  pose proof (total_nonneg (k_tables k) p) as Hpos.
  unfold release_object. rewrite wp_bind. eapply wp_dereference; [done|]. rewrite wp_bind, wp_assert.
  split; [unfold truth; apply negb_true_iff, Z.eqb_neq; lia|].
  unfold put_object. rewrite wp_bind, wp_modify.
  set (k1 := set_objs _ k).
  assert (inv k1) as Hinv1.
  { apply (inv_objects k); [done|by repeat split| |].
    - intros q o'. simpl. rewrite lookup_insert. case_decide as E; [intros [= <-]; subst q|].
      + exists o. split_and!; [done..|simpl; lia|simpl; lia].
      + intros Hq. exists o'. pose proof (iv_counts _ Hinv _ _ Hq). split_and!; [done..|lia|lia].
    - intros q o' Hq. left. simpl. rewrite lookup_insert. by case_decide. }
  unfold truth. destruct (Z.eqb_spec (ko_refcount o - 1) 0) as [E|E]; simpl negb; cbv iota.
  2: { rewrite wp_ret. split_and!; [done|by repeat split|done|lia]. }
  rewrite wp_bind, wp_assert. split; [apply Z.eqb_eq; lia|].
  assert (k_objs k1 !! p = Some (with_refcount (ko_refcount o - 1) o)) as Hp1 by apply lookup_insert_eq.
  (* freeing the object in a state the destroy method may leave *)
  assert (∀ k2, inv k2 → k_objs k2 !! p = Some (with_refcount (ko_refcount o - 1) o) → same_tables k1 k2 →
            wp (modify (λ k, set_objs (delete p (k_objs k)) k)) (λ _ k', inv k' ∧ same_tables k k' ∧
    (1 < ko_refcount o → k_objs k' = <[p := with_refcount (ko_refcount o - 1) o]> (k_objs k)) ∧
    (ko_refcount o = 1 → k_objs k' !! p = None)) k2) as Hfree.
  { intros k2 Hinv2 Hp2 Hs. rewrite wp_modify. split_and!; [|exact Hs|lia|intros _; apply lookup_delete_eq].
    apply (inv_objects k2); [done|by repeat split| |].
    - intros q o'. simpl. rewrite lookup_delete_Some. intros [_ Hq]. exists o'.
      pose proof (iv_counts _ Hinv2 _ _ Hq). split_and!; [done..|lia|lia].
    - intros q o' Hq. simpl. destruct (decide (q = p)) as [->|].
      + right. rewrite Hp2 in Hq. injection Hq as <-. simpl. lia.
      + left. by rewrite lookup_delete_ne. }
  rewrite wp_bind. destruct (op_destroy (ops_of (ko_ops o))) as [destroy|] eqn:Ed.
  - eapply wp_mono; [eapply (Hhooks _ _ Ed p k1); [done|exact Hp1|simpl; lia]|].
    intros [] k2 (Hinv2 & Hp2 & Hs). by apply Hfree.
  - rewrite wp_ret. apply Hfree; [done..|by repeat split].
Qed.

(** The object with one handle and one reference less. *)
Definition unhandled (o : kobject) : kobject :=
  KObject (ko_refcount o - 1) (ko_handle_count o - 1) (ko_ops o) (ko_permanent o) (ko_sd o).

(** The state after table [t] lost its entry for [p]: the object lost a handle and a
    reference, and was destroyed with its last one. *)
Definition dropped (t p : Z) (tb' : handle_table) (o : kobject) (k k' : kernel) : Prop :=
  inv k' ∧ k_tables k' = <[t := tb']> (k_tables k) ∧ k_next k' = k_next k ∧ k_procs k' = k_procs k ∧
  k_global k' = k_global k ∧ same_context k k' ∧
  (1 < ko_refcount o → k_objs k' = <[p := unhandled o]> (k_objs k)) ∧
  (ko_refcount o = 1 → k_objs k' !! p = None).

Lemma release_from_handle_spec k k1 t tb tb' p o :
  destroys_ok → inv k → k_tables k !! t = Some tb → (attached k t → table_ok tb') →
  (∀ q, uses tb' q = uses tb q - if decide (q = p) then 1 else 0) →
  1 ≤ uses tb p → retabled t tb' k k1 → k_objs k !! p = Some o →
  wp (release_object_from_handle p) (λ _ k', dropped t p tb' o k k') k1.
Proof.
  intros Hhooks Hinv Ht Hok Hu Hpos (R1 & R2 & R3 & R4 & R5 & Rc & _) Ho.
  destruct (iv_counts _ Hinv _ _ Ho) as [Hc Hr]. pose proof (uses_le_total _ _ _ p Ht) as Hle.
  unfold release_object_from_handle, uncount_handle. rewrite wp_bind. eapply wp_dereference; [unfold object_at; by rewrite R1|].
  rewrite wp_bind, wp_assert. split; [unfold truth; apply negb_true_iff, Z.eqb_neq; lia|].
  rewrite wp_bind, wp_modify. destruct (type_counts _ _) as [n m].
  unfold put_object. rewrite wp_bind, wp_modify. set (o1 := with_handle_count (ko_handle_count o - 1) o).
  set (k2 := set_objs _ _).
  assert (k_objs k2 = <[p := o1]> (k_objs k)) as Eo by (simpl; by rewrite R1).
  assert (inv k2) as Hinv2.
  { apply (inv_update k k2 t tb tb'); try done.
    - intros q o'. rewrite Eo, lookup_insert. case_decide as E; [intros [= <-]; subst q|].
      + exists o. rewrite Hu, decide_True by done. split_and!; [done|simpl; lia..].
      + intros Hq. exists o'. pose proof (iv_counts _ Hinv _ _ Hq). rewrite Hu, decide_False by done.
        split_and!; [done|lia..].
    - intros q Hq. left. rewrite Eo, lookup_insert. by case_decide.
    - intros q. rewrite Hu. case_decide; [right; subst; by rewrite Ho|left; lia]. }
  eapply wp_mono; [eapply (release_object_spec k2 p o1); [done..| |]|].
  { rewrite Eo. apply lookup_insert_eq. }
  { simpl. lia. }
  intros [] k' (Hinv' & (E1 & E2 & E3 & E4 & Ec) & Hmany & Hone). split_and!; try done; try (simpl in *; congruence).
  - unfold same_context in *. simpl in *. naive_solver congruence.
  - intros H1. rewrite (Hmany H1), Eo, insert_insert_eq. done.
Qed.

(** Entry [i] of the table is unused now. *)
Definition cleared (i : Z) (tb : handle_table) : handle_table :=
  with_slot i (Slot None (entry_val tb i).2) tb.

Lemma uses_cleared tb i p a q :
  lookup_entry tb i = Some (p, a) → uses (cleared i tb) q = uses tb q - if decide (q = p) then 1 else 0.
Proof.
  intros Hi. pose proof Hi as He%lookup_entry_some. unfold cleared. rewrite (uses_with_slot _ _ _ _ _ He).
  rewrite slot_uses_some. simpl. lia.
Qed.
Lemma lookup_cleared tb i p a j :
  lookup_entry tb i = Some (p, a) →
  lookup_entry (cleared i tb) j = if decide (j = i) then None else lookup_entry tb j.
Proof.
  intros He%lookup_entry_some. unfold cleared. rewrite lookup_with_slot by (by rewrite He). by case_decide.
Qed.
Lemma readable_cleared tb i p a j : lookup_entry tb i = Some (p, a) → readable tb j → readable (cleared i tb) j.
Proof.
  intros He%lookup_entry_some Hj. unfold readable, cleared. rewrite entry_of_with_slot by (by rewrite He).
  case_decide; [by eexists _, _|done].
Qed.

Lemma cleared_ok tb i p a :
  table_ok tb → lookup_entry tb i = Some (p, a) →
  table_ok (with_free (if i <? ht_free tb then i else ht_free tb) (cleared i tb)).
Proof.
  intros Hok Hi. pose proof Hok as [Hlen Hc Hlast Hfree Hbelow Hinit Habove].
  pose proof Hi as He%lookup_entry_some. pose proof (entry_of_range _ _ _ He) as Hr.
  assert (0 ≤ (if i <? ht_free tb then i else ht_free tb) ≤ i
          ∧ (if i <? ht_free tb then i else ht_free tb) ≤ ht_free tb ∨
          i < 0) as Hf.
  { destruct (Z.ltb_spec i (ht_free tb)); lia. }
  split.
  - unfold cleared. simpl. by rewrite length_insert.
  - done.
  - done.
  - simpl. destruct (i <? ht_free tb); lia.
  - intros j. simpl. intros Hj.
    change (lookup_entry (with_free _ (cleared i tb)) j) with (lookup_entry (cleared i tb) j).
    rewrite (lookup_cleared _ _ _ _ _ Hi). rewrite decide_False by lia. apply Hbelow. lia.
  - intros j Hj. apply (readable_cleared _ _ _ _ _ Hi). by apply Hinit.
  - intros j. change (lookup_entry (with_free _ (cleared i tb)) j) with (lookup_entry (cleared i tb) j).
    rewrite (lookup_cleared _ _ _ _ _ Hi). case_decide; [by intros []|]. apply Habove.
Qed.
End ops.
