(* ===== verification/HandleTableSpec.v ===== *)
(** * What the handle operations do

    The operations of src/server/handle.c seen through an abstract state: for each process
    a finite map from handles to objects and access rights. Allocating inserts at the
    lowest free handle, closing deletes, inheriting filters; the reference and handle
    counts of the objects follow. *)

From S2P Require Import Prelude.
From S2P Require Import ShmState.
From S2P Require Import Security.
From S2P Require Import HandleTable.
From S2P Require Import HandleTableInv.
From S2P Require Import HandleTableOps.

(** ** The abstract state *)

(** The handles of a process. *)
Definition handles_of (k : kernel) (p : Z) : gmap Z (Z * Z) :=
  default ∅ (pr ← k_procs k !! p; t ← ps_handles pr; view <$> k_tables k !! t).

Lemma handles_of_table k p pr t tb :
  k_procs k !! p = Some pr → ps_handles pr = Some t → k_tables k !! t = Some tb → handles_of k p = view tb.
Proof. intros Hp Ht Htb. unfold handles_of. rewrite Hp. simpl. rewrite Ht. simpl. by rewrite Htb. Qed.
Lemma handles_of_ext k k' p :
  k_procs k' = k_procs k → k_tables k' = k_tables k → handles_of k' p = handles_of k p.
Proof. intros E1 E2. unfold handles_of. by rewrite E1, E2. Qed.

(** A change of one table is a change of the handles of its process only. *)
Lemma handles_of_insert k k' p pr t tb' :
  inv k → k_procs k !! p = Some pr → ps_handles pr = Some t →
  k_procs k' = k_procs k → k_tables k' = <[t := tb']> (k_tables k) →
  handles_of k' p = view tb' ∧ ∀ q, q ≠ p → handles_of k' q = handles_of k q.
Proof.
  intros Hinv Hp Ht Ep Et. split.
  - apply (handles_of_table k' p pr t); [by rewrite Ep|done|]. rewrite Et. apply lookup_insert_eq.
  - intros q Hq. unfold handles_of. rewrite Ep, Et. destruct (k_procs k !! q) as [qr|] eqn:Eq; [|done].
    simpl. destruct (ps_handles qr) as [u|] eqn:Eu; [|done]. simpl. rewrite lookup_insert_ne; [done|].
    intros ->. apply Hq. by eapply (iv_distinct _ Hinv).
Qed.

(** *** Resolving a handle *)

(** The table a handle belongs to and its index there. *)
Definition handle_slot (k : kernel) (pr : process) (h : Z) : option Z * Z :=
  if handle_is_global h then (k_global k, handle_to_index (handle_global_to_local h))
  else (ps_handles pr, handle_to_index h).

(** The table, the index, the object and the access. *)
Definition resolve (k : kernel) (pr : process) (h : Z) : option (Z * Z * (Z * Z)) :=
  t ← (handle_slot k pr h).1;
  tb ← k_tables k !! t;
  e ← lookup_entry tb (handle_slot k pr h).2;
  Some (t, (handle_slot k pr h).2, e).

Lemma resolve_some k pr h t i p a :
  resolve k pr h = Some (t, i, (p, a)) → ∃ tb, k_tables k !! t = Some tb ∧ lookup_entry tb i = Some (p, a) ∧
    handle_slot k pr h = (Some t, i).
Proof.
  unfold resolve. destruct (handle_slot k pr h) as [[u|] j]; [|done]. simpl.
  destruct (k_tables k !! u) as [tb|] eqn:Et; [|done]. simpl.
  destruct (lookup_entry tb j) as [[q b]|] eqn:Ee; [|done]. simpl. intros [= -> -> -> ->]. by exists tb.
Qed.

Lemma slot_attached k p pr h t :
  k_procs k !! p = Some pr → (handle_slot k pr h).1 = Some t → attached k t.
Proof.
  intros Hp. unfold handle_slot, attached. destruct (handle_is_global h); simpl; [by left|]. right. eauto.
Qed.

Section spec.
Context `{ObjectTypes}.

Lemma get_handle_exec k p pr h :
  inv k → k_procs k !! p = Some pr → get_handle p h k = Done (fst <$> resolve k pr h) k.
Proof.
  intros Hinv Hp. pose proof (slot_attached k p pr h) as Hatt. unfold get_handle, resolve.
  eapply run_bind; [unfold process_at, deref; by rewrite Hp|]. eapply run_bind; [done|].
  unfold handle_slot in *.
  destruct (handle_is_global h);
    [destruct (k_global k) as [t|] eqn:Et|destruct (ps_handles pr) as [t|] eqn:Et]; try done; simpl in *;
    (set (i := handle_to_index _)); specialize (Hatt t Hp eq_refl).
  all: assert (is_Some (k_tables k !! t)) as [tb Htb] by (first [exact (iv_global _ Hinv _ Et)|exact (iv_process _ Hinv _ _ _ Hp Et)]).
  all: rewrite Htb; simpl; pose proof (iv_table _ Hinv _ _ Hatt Htb) as Hok.
  all: destruct (Z.ltb_spec i 0) as [Hneg|Hpos].
  1, 3: unfold lookup_entry, entry_of; destruct (Z.ltb_spec i 0); [done|lia].
  all: eapply run_bind; [unfold table_at, deref; by rewrite Htb|]; simpl.
  all: destruct (Z.ltb_spec (ht_last tb) i);
    [destruct (lookup_entry tb i) eqn:E; [|done]; pose proof (tk_above _ Hok i ltac:(by rewrite E)); lia|].
  all: eapply run_bind; [by apply (read_entry_exec k t tb i Htb), (tk_init _ Hok)|].
  all: rewrite lookup_entry_val; by destruct (entry_val tb i) as [[q|] a].
Qed.

(** ** Closing *)

(** The steps of [close_handle] that take the entry out of its table. *)
Lemma clear_entry_spec k t tb i p a Q :
  k_tables k !! t = Some tb → table_ok tb → lookup_entry tb i = Some (p, a) →
  (∀ k' tb', retabled t tb' k k' → table_ok tb' →
     (∀ j, lookup_entry tb' j = if decide (j = i) then None else lookup_entry tb j) →
     (∀ q, uses tb' q = uses tb q - if decide (q = p) then 1 else 0) → Q k') →
  wp (write_ptr t i None) (λ _ k1,
    wp (tb ← table_at t; _ ← when (i <? ht_free tb) (update_table t (with_free i));
        when (i =? ht_last tb) (shrink_handle_table t)) (λ _ k', Q k') k1) k.
Proof.
  intros Ht Hok Hi HQ. eapply wp_write_ptr; [done|by eapply used_readable|]. fold (cleared i tb).
  rewrite wp_bind. eapply wp_dereference; [apply lookup_insert_eq|]. rewrite wp_bind.
  set (tb1 := with_free (if i <? ht_free tb then i else ht_free tb) (cleared i tb)).
  pose proof (cleared_ok tb i p a Hok Hi) as Hok1. fold tb1 in Hok1.
  assert (∀ j, lookup_entry tb1 j = if decide (j = i) then None else lookup_entry tb j) as Hl.
  { intros j. exact (lookup_cleared tb i p a j Hi). }
  assert (∀ q, uses tb1 q = uses tb q - if decide (q = p) then 1 else 0) as Hu.
  { intros q. exact (uses_cleared tb i p a q Hi). }
  enough (∀ k1, retabled t tb1 k k1 → wp (when (i =? ht_last (cleared i tb)) (shrink_handle_table t)) (λ _ k', Q k') k1)
    as Hend.
  { rewrite wp_when. change (ht_free (cleared i tb)) with (ht_free tb).
    destruct (i <? ht_free tb) eqn:Ef.
    - eapply wp_update_table; [apply lookup_insert_eq|]. apply Hend.
      eapply retabled_trans; [apply retabled_set_table|]. subst tb1; rewrite ?Ef. apply retabled_set_table.
    - apply Hend. subst tb1; rewrite ?Ef. assert (with_free (ht_free tb) (cleared i tb) = cleared i tb) as -> by done.
      apply retabled_set_table. }
  intros k1 R. rewrite wp_when. destruct (i =? ht_last (cleared i tb)); [|by eapply HQ].
  eapply wp_mono; [apply (shrink_spec k1 t tb1); try apply Hok1|].
  - destruct R as (_ & -> & _). apply lookup_insert_eq.
  - intros [] k2 (tb2 & R2 & Hok2 & _ & _ & _ & Hl2 & Hu2). apply (HQ k2 tb2); [|done|..].
    + by eapply retabled_trans.
    + intros j. by rewrite Hl2.
    + intros q. by rewrite Hu2.
Qed.

(** The close hook of the object, if it has one, answers [b] and leaves the state [k']. *)
Definition close_hook (k : kernel) (obj process handle : Z) (b : bool) (k' : kernel) : Prop :=
  ∃ o, k_objs k !! obj = Some o ∧
  match op_close_handle (ops_of (ko_ops o)) with
  | Some hook => hook obj process handle k = Done b k'
  | None => b = true ∧ k' = k
  end.

(** A close that neither the flags nor the hook of the object refuse, from the state the
    hook leaves. *)
Definition closed (k k' : kernel) (t i obj : Z) : Prop :=
  ∃ o tb tb', k_objs k !! obj = Some o ∧ k_tables k !! t = Some tb ∧ table_ok tb' ∧
    (∀ j, lookup_entry tb' j = if decide (j = i) then None else lookup_entry tb j) ∧
    dropped t obj tb' o k k'.

Lemma close_tail_spec k t tb i obj access o :
  destroys_ok → inv k → attached k t → k_tables k !! t = Some tb → lookup_entry tb i = Some (obj, access) →
  k_objs k !! obj = Some o →
  wp (_ ← write_ptr t i None; tb ← table_at t; _ ← when (i <? ht_free tb) (update_table t (with_free i));
      _ ← when (i =? ht_last tb) (shrink_handle_table t); _ ← release_object_from_handle obj; mret STATUS_SUCCESS)
    (λ status k', status = STATUS_SUCCESS ∧ closed k k' t i obj) k.
Proof.
  intros Hhooks Hinv Hatt Ht Hi Ho. pose proof (iv_table _ Hinv _ _ Hatt Ht) as Hok.
  rewrite wp_bind. eapply wp_mono.
  { apply (clear_entry_spec k t tb i obj access (λ k2, ∃ tb', retabled t tb' k k2 ∧ table_ok tb' ∧
      (∀ j, lookup_entry tb' j = if decide (j = i) then None else lookup_entry tb j) ∧
      ∀ q, uses tb' q = uses tb q - if decide (q = obj) then 1 else 0)); [done..|].
    intros k2 tb' ????. by exists tb'. }
  intros [] k2 Hw. cbv beta in Hw. apply wp_bind in Hw. rewrite wp_bind. eapply wp_mono; [exact Hw|].
  clear Hw. intros tb2 k3 Hw. cbv beta in Hw. apply wp_bind in Hw. rewrite wp_bind. eapply wp_mono; [exact Hw|].
  clear Hw. intros [] k4 Hw. rewrite wp_bind. eapply wp_mono; [exact Hw|].
  clear Hw. intros [] k5 (tb' & R & Hok' & Hl & Hu). rewrite wp_bind.
  eapply wp_mono; [eapply (release_from_handle_spec k k5 t tb tb' obj o); try done|].
  { by eapply used_uses. }
  intros [] k6 Hd. apply (wp_ret _ _ _). split; [done|]. by exists o, tb, tb'.
Qed.

(** An entry that a handle resolves to refers to an object with a handle. *)
Lemma entry_object_counted k t tb i obj access :
  inv k → k_tables k !! t = Some tb → lookup_entry tb i = Some (obj, access) →
  ∃ o, k_objs k !! obj = Some o ∧ 0 < ko_handle_count o.
Proof.
  intros Hinv Ht Hi. pose proof (used_uses _ _ _ _ Hi). pose proof (uses_le_total _ _ _ obj Ht).
  destruct (iv_live _ Hinv obj ltac:(lia)) as [o Ho]. exists o. split; [done|].
  destruct (iv_counts _ Hinv _ _ Ho). lia.
Qed.

Lemma close_handle_spec k p pr h :
  destroys_ok → inv k → k_procs k !! p = Some pr → handle_is_global h = false →
  (∀ t i obj access, resolve k pr h = Some (t, i, (obj, access)) → hook_keeps k obj p h) →
  wp (close_handle p h) (λ status k',
    match resolve k pr h with
    | None => status = STATUS_INVALID_HANDLE ∧ k' = k
    | Some (t, i, (obj, access)) =>
        has access RESERVED_CLOSE_PROTECT = true ∧ status = STATUS_HANDLE_NOT_CLOSABLE ∧ k' = k ∨
        has access RESERVED_CLOSE_PROTECT = false ∧
          (status = STATUS_HANDLE_NOT_CLOSABLE ∧ close_hook k obj p h false k' ∧ hook_effect k k' ∨
           status = STATUS_SUCCESS ∧ ∃ k1, close_hook k obj p h true k1 ∧ hook_effect k k1 ∧ closed k1 k' t i obj)
    end) k.
Proof.
  intros Hhooks Hinv Hp Hg Hkeep. unfold close_handle. rewrite wp_bind.
  eapply wp_of_exec; [by apply (get_handle_exec k p pr)|].
  destruct (resolve k pr h) as [[[t i] [obj access]]|] eqn:Er; [simpl|by apply (wp_ret _ _ _)].
  specialize (Hkeep _ _ _ _ eq_refl).
  pose proof (resolve_some _ _ _ _ _ _ _ Er) as (tb & Ht & Hi & Hslot).
  pose proof (slot_attached k p pr h t Hp ltac:(by rewrite Hslot)) as Hatt.
  unfold handle_slot in Hslot. rewrite Hg in Hslot. injection Hslot as Hpt Hix.
  rewrite wp_bind. eapply wp_read_entry; [done|by eapply used_readable|].
  pose proof Hi as He%lookup_entry_some. unfold entry_val. rewrite He. simpl.
  destruct (has access RESERVED_CLOSE_PROTECT) eqn:Hprot; [left; by split_and!|].
  rewrite wp_bind. apply (wp_ret _ _ _).
  destruct (entry_object_counted _ _ _ _ _ _ Hinv Ht Hi) as (o & Ho & Hpos).
  rewrite wp_bind. eapply wp_dereference; [done|]. rewrite wp_bind.
  (* what follows the hook, in the state it leaves *)
  assert (∀ k1, close_hook k obj p h true k1 → hook_effect k k1 → wp (pr ← process_at p; global ← gets k_global;
      match (if handle_is_global h then global else ps_handles pr) with
      | None => fault
      | Some t =>
          _ ← write_ptr t (handle_to_index h) None;
          tb ← table_at t;
          _ ← when (handle_to_index h <? ht_free tb) (update_table t (with_free (handle_to_index h)));
          _ ← when (handle_to_index h =? ht_last tb) (shrink_handle_table t);
          _ ← release_object_from_handle obj;
          mret STATUS_SUCCESS
      end) (λ status k', status = STATUS_SUCCESS ∧ ∃ k1, close_hook k obj p h true k1 ∧ hook_effect k k1 ∧
              closed k1 k' t i obj) k1) as Hend.
  { intros k1 Hk Hq. pose proof (inv_hook _ _ Hinv Hq) as Hinv1. destruct (hook_live _ _ _ _ Hq Ho Hpos) as (o1 & Ho1 & _).
    pose proof Hq as ((Et & _ & Ep & Eg & _) & _). rewrite wp_bind. eapply wp_dereference; [by rewrite Ep|].
    rewrite wp_bind, wp_gets, Hg, Hpt, Hix. eapply wp_mono; [eapply (close_tail_spec k1 t tb); try done|].
    - unfold attached in *. by rewrite Ep, Eg.
    - by rewrite Et.
    - intros status k' [-> Hc]. eauto 10. }
  assert (hook_effect k k) as Hrefl.
  { split_and!; [by repeat split|done|by intros q o' ->|eauto]. }
  destruct (op_close_handle (ops_of (ko_ops o))) as [hook|] eqn:Eh.
  - pose proof (Hkeep _ _ Ho Eh) as Hw.
    unfold wp in Hw |- *. destruct (hook obj p h k) as [b k1| | |] eqn:Er1; [|done..].
    assert (close_hook k obj p h b k1) as Hk by (exists o; by rewrite Eh). destruct b; simpl negb; cbv iota.
    + eapply wp_mono; [by apply Hend|]. intros status k' Hc. right. split; [done|by right].
    + right. split; [done|by left].
  - rewrite wp_ret. simpl negb. cbv iota. eapply wp_mono; [apply Hend; [exists o; by rewrite Eh|done]|].
    intros status k' Hc. right. split; [done|by right].
Qed.
End spec.

(** ** Handles and indices *)

Lemma testbit_le x n : 0 ≤ n → 0 ≤ x → Z.testbit x n = true → 2 ^ n ≤ x.
Proof.
  intros Hn Hx Hb. destruct (decide (2 ^ n ≤ x)) as [|Hlt]; [done|].
  rewrite Z.bits_above_log2 in Hb; [done|done|].
  destruct (decide (x = 0)) as [->|]; [by rewrite Z.bits_0 in Hb|]. apply Z.log2_lt_pow2; lia.
Qed.
Lemma small_testbit x n m : 0 ≤ x < 2 ^ n → 0 ≤ n ≤ m → Z.testbit x m = false.
Proof.
  intros Hx Hm. apply not_true_is_false. intros Hb%testbit_le; [|lia..].
  pose proof (Z.pow_le_mono_r 2 n m ltac:(lia) ltac:(lia)). lia.
Qed.

Lemma small_not_global h : 0 ≤ h < 2 ^ 26 → handle_is_global h = false.
Proof.
  intros Hh. unfold handle_is_global, MAX_HANDLE_ENTRIES. apply Z.leb_gt.
  assert (Z.testbit (Z.lxor h HANDLE_OBFUSCATOR) 30 = true) as Hb.
  { rewrite Z.lxor_spec, (small_testbit h 26 30) by lia. done. }
  apply testbit_le in Hb; [|lia|apply Z.lxor_nonneg; unfold HANDLE_OBFUSCATOR; lia].
  eapply Z.lt_le_trans; [|exact Hb]. done.
Qed.
Lemma index_handle_small i : 0 ≤ i < MAX_HANDLE_ENTRIES → 4 ≤ index_to_handle i < 2 ^ 26.
Proof. intros Hi. rewrite index_to_handle_small by done. unfold MAX_HANDLE_ENTRIES in *. lia. Qed.

(** The handle without its two low bits, which the server ignores. *)
Definition canon (h : Z) : Z := index_to_handle (handle_to_index h).

Lemma canon_index i : 0 ≤ i < MAX_HANDLE_ENTRIES → canon (index_to_handle i) = index_to_handle i.
Proof. intros Hi. unfold canon. by rewrite handle_to_index_to_handle. Qed.

(** The abstract reading of a lookup. *)
Lemma resolve_local k p pr h :
  inv k → k_procs k !! p = Some pr → handle_is_global h = false → 0 ≤ h < 2 ^ 32 →
  handles_of k p !! canon h = snd <$> resolve k pr h.
Proof.
  intros Hinv Hp Hg Hh. unfold handles_of, resolve, handle_slot. rewrite Hg, Hp. simpl.
  destruct (ps_handles pr) as [t|] eqn:Et; [|done]. simpl.
  destruct (k_tables k !! t) as [tb|] eqn:Etb; [|done]. simpl.
  assert (attached k t) as Hatt by (right; eauto).
  pose proof (iv_table _ Hinv _ _ Hatt Etb) as Hok. set (i := handle_to_index h).
  assert (-1 ≤ i < 2 ^ 30 - 1) as Hi.
  { subst i. rewrite handle_to_index_range by done. Z.div_mod_to_equations; lia. }
  destruct (decide (0 ≤ i < MAX_HANDLE_ENTRIES)) as [Hr|Hr].
  { unfold canon. fold i. rewrite view_lookup by done. by destruct (lookup_entry tb i). }
  assert (lookup_entry tb i = None) as ->.
  { destruct (lookup_entry tb i) eqn:E; [|done]. pose proof (tk_count _ Hok). pose proof (tk_last _ Hok).
    pose proof (tk_above _ Hok i ltac:(by rewrite E)).
    unfold lookup_entry, entry_of in E. destruct (Z.ltb_spec i 0); [done|lia]. }
  simpl. destruct (view tb !! canon h) as [x|] eqn:E; [|done].
  apply view_lookup_inv in E as (j & Hj & E & _); [|done]. unfold canon in E. fold i in E.
  pose proof (tk_count _ Hok). rewrite (index_to_handle_small j) in E by lia.
  unfold index_to_handle in E. rewrite Z.shiftl_mul_pow2, u32_small in E by lia.
  unfold MAX_HANDLE_ENTRIES in *. lia.
Qed.

(** Handles and indices: an index and its handle determine each other; the handle of an
    index is never taken for a global one; and the global form of a handle is recognised
    and decodes to the same local handle, so that global handles never collide with local
    ones. *)
Theorem handle_encoding_roundtrip i :
  0 ≤ i < MAX_HANDLE_ENTRIES →
  let h := index_to_handle i in
  handle_to_index h = i ∧ h ≠ 0 ∧ h mod 4 = 0 ∧ handle_is_global h = false ∧
  handle_is_global (handle_local_to_global h) = true ∧
  handle_global_to_local (handle_local_to_global h) = h ∧
  ∀ j, 0 ≤ j < MAX_HANDLE_ENTRIES → index_to_handle j ≠ handle_local_to_global h.
Proof.
  intros Hi h. pose proof (index_handle_small i Hi) as Hh. fold h in Hh.
  assert (h = 4 * (i + 1)) as Eh by by apply index_to_handle_small.
  assert (handle_local_to_global h = Z.lxor h HANDLE_OBFUSCATOR) as El.
  { unfold handle_local_to_global. destruct (Z.eqb_spec h 0); [lia|done]. }
  assert (Z.lxor (Z.lxor h HANDLE_OBFUSCATOR) HANDLE_OBFUSCATOR = h) as Ex.
  { by rewrite Z.lxor_assoc, Z.lxor_nilpotent, Z.lxor_0_r. }
  assert (handle_is_global (handle_local_to_global h) = true) as Hg.
  { unfold handle_is_global. rewrite El, Ex. apply Z.leb_le.
    unfold MAX_HANDLE_ENTRIES in *. change (Z.shiftl 16777215 2) with 67108860. lia. }
  split_and!; try done.
  - by apply handle_to_index_to_handle.
  - lia.
  - rewrite Eh, Z.mul_comm. by apply Z.mod_mul.
  - by apply small_not_global; lia.
  - unfold handle_global_to_local. by rewrite El.
  - intros j Hj E. pose proof (index_handle_small j Hj).
    rewrite <- E, small_not_global in Hg by lia. done.
Qed.

Section claims.
Context `{ObjectTypes}.

Lemma dropped_core t p tb' o k k' :
  dropped t p tb' o k k' → inv k' ∧ k_procs k' = k_procs k ∧ k_tables k' = <[t := tb']> (k_tables k).
Proof. by intros (? & ? & _ & ? & _). Qed.

Lemma handles_of_hook k k' p : hook_effect k k' → handles_of k' p = handles_of k p.
Proof. intros ((Et & _ & Ep & _) & _). by apply handles_of_ext. Qed.

Lemma close_handle_effect k p pr h :
  destroys_ok → inv k → k_procs k !! p = Some pr → handle_is_global h = false → 0 ≤ h < 2 ^ 32 →
  (∀ obj access, handles_of k p !! canon h = Some (obj, access) → hook_keeps k obj p h) →
  wp (close_handle p h) (λ status k',
    inv k' ∧ (∀ q, q ≠ p → handles_of k' q = handles_of k q) ∧
    match handles_of k p !! canon h with
    | None => status = STATUS_INVALID_HANDLE ∧ k' = k
    | Some (obj, access) =>
        has access RESERVED_CLOSE_PROTECT = true ∧ status = STATUS_HANDLE_NOT_CLOSABLE ∧ k' = k ∨
        has access RESERVED_CLOSE_PROTECT = false ∧
          (status = STATUS_HANDLE_NOT_CLOSABLE ∧ close_hook k obj p h false k' ∧ handles_of k' p = handles_of k p ∨
           status = STATUS_SUCCESS ∧ handles_of k' p = delete (canon h) (handles_of k p) ∧
             ∃ k1 o, close_hook k obj p h true k1 ∧ k_objs k1 !! obj = Some o ∧
               (1 < ko_refcount o → k_objs k' = <[obj := unhandled o]> (k_objs k1)) ∧
               (ko_refcount o = 1 → k_objs k' !! obj = None))
    end) k.
Proof.
  intros Hhooks Hinv Hp Hg Hh. rewrite (resolve_local k p pr h) by done. intros Hkeep.
  eapply wp_mono; [apply (close_handle_spec k p pr h); try done|].
  { intros t i obj access Er. apply (Hkeep obj access). by rewrite Er. }
  intros status k'. destruct (resolve k pr h) as [[[t i] [obj access]]|] eqn:Er; simpl.
  2: { intros [-> ->]. by split_and!. }
  intros [(Hprot & -> & ->)|(Hprot & [(-> & Hk & Hq)|(-> & k1 & Hk & Hq & o & tb & tb' & Ho & Ht & Hok' & Hl & Hd)])].
  - split_and!; [done..|by left].
  - split_and!; [by eapply inv_hook|intros; by apply handles_of_hook|]. right. split; [done|]. left.
    split_and!; [done..|by apply handles_of_hook].
  - pose proof (resolve_some _ _ _ _ _ _ _ Er) as (tb2 & Ht2 & Hi & Hslot).
    pose proof (inv_hook _ _ Hinv Hq) as Hinv1. pose proof Hq as ((Eqt & _ & Eqp & _) & _). rewrite Eqt in Ht. simplify_eq.
    unfold handle_slot in Hslot. rewrite Hg in Hslot. injection Hslot as Hpt Hix.
    pose proof (dropped_core _ _ _ _ _ _ Hd) as (Hinv' & Ep & Et).
    destruct (handles_of_insert k1 k' p pr t tb' Hinv1 ltac:(by rewrite Eqp) Hpt Ep Et) as [Hv Hothers].
    split_and!; [done|intros q Hne; rewrite (Hothers q Hne); by apply handles_of_hook|].
    right. split; [done|]. right. split; [done|]. split.
    + assert (attached k t) as Hatt by (right; eauto). pose proof (iv_table _ Hinv _ _ Hatt Ht) as Hok.
      assert (0 ≤ i < MAX_HANDLE_ENTRIES) as Hir.
      { pose proof (tk_above _ Hok i ltac:(by rewrite Hi)). pose proof (tk_last _ Hok).
        pose proof (tk_count _ Hok). apply lookup_entry_some, entry_of_range in Hi. lia. }
      rewrite Hv, (handles_of_table k p pr t tb Hp Hpt Ht). unfold canon. rewrite Hix.
      by apply (view_eq tb tb' None i).
    + exists k1, o. destruct Hd as (_ & _ & _ & _ & _ & _ & Hm & H1). by split_and!.
Qed.


(** C32: Allocating a handle for an object: it completes, and either yields the lowest handle
    that the process does not use, which now refers to the object with the given access,
    plus the inherit flag when asked for, all else unchanged but one more reference and
    handle of the object; or it yields 0 with nothing changed, because the process has no
    table any more, or has used every handle there can be, or an allocation failed. *)
Theorem alloc_handle_correct k p pr obj o access attr :
  inv k → k_procs k !! p = Some pr → k_objs k !! obj = Some o → ko_refcount o < INT_MAX →
  has access RESERVED_ALL = false →
  wp (alloc_handle_entry p obj access attr) (λ h k',
    inv k' ∧ (∀ q, q ≠ p → handles_of k' q = handles_of k q) ∧
    (h = 0 ∧ handles_of k' p = handles_of k p ∧ k_objs k' = k_objs k ∧
       (k_error k' = STATUS_PROCESS_IS_TERMINATING ∧ ps_handles pr = None ∨
        k_error k' = STATUS_INSUFFICIENT_RESOURCES ∧
          ((∀ i, 0 ≤ i < MAX_HANDLE_ENTRIES → is_Some (handles_of k p !! index_to_handle i)) ∨
           head (k_mem k) = Some false)) ∨
     ∃ i, 0 ≤ i < MAX_HANDLE_ENTRIES ∧ h = index_to_handle i ∧ handles_of k p !! h = None ∧
       (∀ j, 0 ≤ j < i → is_Some (handles_of k p !! index_to_handle j)) ∧
       handles_of k' p = <[h := (obj, inherit_flag attr access)]> (handles_of k p) ∧
       k_objs k' = <[obj := handled o]> (k_objs k))) k.
Proof.
  intros Hinv Hp Ho Hr Hres. unfold alloc_handle_entry. rewrite wp_bind, wp_assert, Hres.
  split; [done|]. rewrite wp_bind. eapply wp_dereference; [done|].
  destruct (ps_handles pr) as [t|] eqn:Hpt.
  2: { rewrite wp_bind. apply (wp_modify _ _ _). apply (wp_ret _ _ _).
       split_and!; [by eapply inv_core|done|]. left. split_and!; [done..|by left]. }
  destruct (iv_process _ Hinv _ _ _ Hp Hpt) as [tb Ht].
  assert (attached k t) as Hatt by (right; eauto). pose proof (iv_table _ Hinv _ _ Hatt Ht) as Hok.
  pose proof (iv_counts _ Hinv _ _ Ho) as [Hc Hrc]. pose proof (total_nonneg (k_tables k) obj).
  rewrite (handles_of_table k p pr t tb Hp Hpt Ht).
  eapply wp_mono; [eapply (alloc_entry_spec k t tb obj o); [done..|lia|done]|].
  intros h k' [(-> & Hq & He & Hwhy)|(i & tb' & -> & Hi & Hnone & Hbelow & Ha & He)].
  - pose proof Hq as (Hcore & _). pose proof Hcore as (Eo & Et & _ & Ep & _).
    split_and!; [by eapply inv_core|intros; by apply handles_of_ext|]. left. split_and!; [done| |done|].
    + rewrite <- (handles_of_table k p pr t tb Hp Hpt Ht). by apply handles_of_ext.
    + right. split; [done|]. destruct Hwhy as [[Hmax Hfull]|]; [left|by right].
      intros i Hi. rewrite view_lookup by done. by apply Hfull.
  - pose proof Ha as (Et & Hok' & _ & Hl & _ & (o' & Ho' & Eo) & _ & Ep & _). simplify_eq.
    destruct (handles_of_insert k k' p pr t tb' Hinv Hp Hpt Ep Et) as [Hv Hothers].
    split_and!; [by eapply inv_allocated|done|]. right. exists i.
    split_and!; [lia..|done|by rewrite view_lookup|intros j Hj; rewrite view_lookup by (done || lia); auto| |done].
    rewrite Hv. rewrite (view_eq tb tb' (Some (obj, inherit_flag attr access)) i) by done. done.
Qed.

(** ** Looking up *)

(** The pseudo-handles. *)
Definition is_magic (h : Z) : bool :=
  existsb (Z.eqb h) [0xfffffffa; 0xfffffffb; 0xfffffffc; 0xfffffffe; 0x7fffffff; 0xffffffff].

Lemma get_magic_handle_none k h : is_magic h = false → get_magic_handle h k = Done 0 k.
Proof.
  unfold is_magic. simpl. rewrite !orb_false_iff. intros (E1 & E2 & E3 & E4 & E5 & E6 & _).
  unfold get_magic_handle, mbind, M_bind, gets. by rewrite E1, E2, E3, E4, E5, E6.
Qed.

(** An entry that a handle resolves to refers to an object. *)
Lemma resolve_object k p pr h t i obj a :
  inv k → k_procs k !! p = Some pr → resolve k pr h = Some (t, i, (obj, a)) → is_Some (k_objs k !! obj).
Proof.
  intros Hinv Hp (tb & Ht & Hi & _)%resolve_some. apply (iv_live _ Hinv).
  pose proof (used_uses _ _ _ _ Hi). pose proof (uses_le_total _ _ _ obj Ht). lia.
Qed.

Lemma read_resolved k pr h t i obj a :
  resolve k pr h = Some (t, i, (obj, a)) → read_entry t i k = Done (Some obj, a) k.
Proof.
  intros (tb & Ht & Hi & _)%resolve_some. pose proof Hi as He%lookup_entry_some.
  rewrite (read_entry_exec k t tb i Ht) by (by eapply used_readable). unfold entry_val. by rewrite He.
Qed.

(** C35: Looking up the object of a handle that is no pseudo-handle, local or global: a handle
    without an entry is invalid; otherwise the type is checked first, then the rights of the
    handle, with an error of its own for each; only a lookup that succeeds changes an object,
    by one reference. *)
Theorem get_handle_obj_correct k p pr h access ops :
  inv k → k_procs k !! p = Some pr → is_magic h = false →
  (∀ obj o, k_objs k !! obj = Some o → ko_refcount o < INT_MAX) →
  match resolve k pr h with
  | None => get_handle_obj p h access ops k = Done 0 (with_error STATUS_INVALID_HANDLE k)
  | Some (_, _, (obj, granted)) =>
      ∃ o, k_objs k !! obj = Some o ∧
        get_handle_obj p h access ops k =
          if wrong_type o ops then Done 0 (with_error STATUS_OBJECT_TYPE_MISMATCH k)
          else if Z.land granted access =? access
          then Done obj (set_objs (<[obj := with_refcount (ko_refcount o + 1) o]> (k_objs k)) k)
          else Done 0 (with_error STATUS_ACCESS_DENIED k)
  end.
Proof.
  intros Hinv Hp Hm Hr. pose proof (get_handle_exec k p pr h Hinv Hp) as Hg.
  destruct (resolve k pr h) as [[[t i] [obj granted]]|] eqn:Er.
  - destruct (resolve_object k p pr h t i obj granted Hinv Hp Er) as [o Ho]. exists o. split; [done|].
    unfold get_handle_obj. eapply run_bind; [by apply get_magic_handle_none|]. simpl.
    eapply run_bind; [exact Hg|]. simpl. eapply run_bind; [by eapply read_resolved|].
    eapply run_bind; [done|]. simpl.
    eapply run_bind; [unfold object_at, deref; by rewrite Ho|].
    destruct (wrong_type o ops); [done|]. destruct (Z.land granted access =? access); simpl; [|done].
    unfold grab_object, mbind, M_bind, object_at, deref, c_assert. rewrite Ho.
    by rewrite (proj2 (Z.ltb_lt _ _) (Hr _ _ Ho)).
  - unfold get_handle_obj. eapply run_bind; [by apply get_magic_handle_none|]. simpl.
    eapply run_bind; [exact Hg|]. done.
Qed.
End claims.
