(* ===== verification/HandleTableExit.v ===== *)
(** * The end of a handle table

    [close_process_handles] and the destruction of a table (src/server/handle.c): every
    handle is closed, whatever the hooks say, and no object keeps a handle count for it. *)

From S2P Require Import Prelude.
From S2P Require Import ShmState.
From S2P Require Import Security.
From S2P Require Import HandleTable.
From S2P Require Import HandleTableInv.
From S2P Require Import HandleTableOps.
From S2P Require Import HandleTableSpec.

Lemma uses_none tb p : (∀ j, lookup_entry tb j = None) → uses tb p = 0.
Proof.
  intros Hnone. apply uses_in_zero. intros i e Hi. specialize (Hnone (Z.of_nat i)).
  unfold lookup_entry, entry_of in Hnone. destruct (Z.ltb_spec (Z.of_nat i) 0); [lia|].
  rewrite Nat2Z.id, Hi in Hnone. by destruct e as [|[q|] a].
Qed.

Lemma inv_delete k k' t tb :
  inv k → ¬ attached k t → k_tables k !! t = Some tb → (∀ p, uses tb p = 0) →
  k_tables k' = delete t (k_tables k) → k_objs k' = k_objs k → k_next k' = k_next k →
  k_procs k' = k_procs k → k_global k' = k_global k → inv k'.
Proof.
  intros Hinv Hdet Ht Hu Et Eo En Ep Eg.
  assert (∀ p, total (k_tables k') p = total (k_tables k) p) as Htot.
  { intros p. rewrite Et, (total_delete (k_tables k) t tb p Ht), Hu. done. }
  assert (∀ u, attached k u → is_Some (k_tables k !! u) → is_Some (k_tables k' !! u)) as Hkeep.
  { intros u Hu'. rewrite Et. by rewrite lookup_delete_ne by (intros ->; done). }
  split; rewrite ?Eo, ?En, ?Ep, ?Eg.
  - intros u ub Ha Hub. rewrite Et in Hub. apply lookup_delete_Some in Hub as [_ Hub].
    apply (iv_table _ Hinv u); [|done]. unfold attached in *. by rewrite <- Ep, <- Eg.
  - intros u [ub Hub]. rewrite Et in Hub. apply lookup_delete_Some in Hub as [_ Hub].
    apply (iv_next _ Hinv). by rewrite Hub.
  - intros p pr u Hp Hpu. apply Hkeep; [right; eauto|]. by apply (iv_process _ Hinv p pr).
  - apply (iv_distinct _ Hinv).
  - intros u Hg. apply Hkeep; [by left|]. by apply (iv_global _ Hinv).
  - apply (iv_not_global _ Hinv).
  - intros p o. rewrite Htot. apply (iv_counts _ Hinv).
  - intros p. rewrite Htot. apply (iv_live _ Hinv).
Qed.

Section exit.
Context `{ObjectTypes}.

(** A hook that runs while an entry of table [t] is cleared and its handle still counted: the
    state it leaves is that of the table with the entry, after the hook, with the entry cleared. *)
Lemma hook_while_cleared k k2 t tb' :
  inv k → hook_effect (set_table t tb' k) k2 →
  let base := set_types (k_types k2) (set_objs (k_objs k2) k) in
  inv base ∧ hook_effect k base ∧ retabled t tb' base k2.
Proof.
  intros Hinv ((E1 & E2 & E3 & E4 & Ec) & Hc & Hh & Hl) base.
  assert (hook_effect k base) as Hb by by split_and!.
  split_and!; [by eapply inv_hook|done|]. split_and!; [done..|by destruct Ec|done].
Qed.

(** The table after its first [n] entries were closed. *)
Definition closing (t : Z) (tb : handle_table) (k : kernel) (n : Z) (k' : kernel) : Prop :=
  inv k' ∧ k_procs k' = k_procs k ∧ k_global k' = k_global k ∧ k_next k' = k_next k ∧ same_context k k' ∧
  ∃ tb', k_tables k' = <[t := tb']> (k_tables k) ∧ ht_process tb' = ht_process tb ∧
    (∀ j, 0 ≤ j ≤ ht_last tb → readable tb' j) ∧
    ∀ j, lookup_entry tb' j = if decide (0 ≤ j < n) then None else lookup_entry tb j.

Lemma destroy_step t tb k i k1 :
  hooks_ok → ¬ attached k t → k_tables k !! t = Some tb → 0 ≤ i ≤ ht_last tb → closing t tb k i k1 →
  wp (e ← read_entry t i; _ ← write_ptr t i None;
      match e.1 with
      | None => mret tt
      | Some obj =>
          o ← object_at obj;
          _ ← (if truth (ht_process tb) then
                 match op_close_handle (ops_of (ko_ops o)) with
                 | Some hook => _ ← hook obj (ht_process tb) (index_to_handle i); mret tt
                 | None => mret tt
                 end
               else mret tt);
          release_object_from_handle obj
      end) (λ _ k', closing t tb k (i + 1) k') k1.
Proof.
  intros Hhooks Hdet Ht Hi (Hinv & Ep & Eg & En & Ec & tb1 & Et & Epr & Hread & Hl).
  assert (k_tables k1 !! t = Some tb1) as Ht1 by (rewrite Et; apply lookup_insert_eq).
  assert (¬ attached k1 t) as Hdet1 by (unfold attached in *; by rewrite Ep, Eg).
  rewrite wp_bind. eapply wp_read_entry; [done|by apply Hread|].
  rewrite wp_bind. eapply wp_write_ptr; [done|by apply Hread|]. fold (cleared i tb1).
  assert (∀ j, 0 ≤ j ≤ ht_last tb → readable (cleared i tb1) j) as Hread'.
  { intros j Hj. destruct (Hread i Hi) as (p & a & He). unfold readable, cleared.
    rewrite entry_of_with_slot by (by rewrite He). case_decide; [by eexists _, _|by apply Hread]. }
  assert (∀ j, lookup_entry (cleared i tb1) j = if decide (0 ≤ j < i + 1) then None else lookup_entry tb j) as Hl'.
  { intros j. destruct (Hread i Hi) as (p & a & He). unfold cleared. rewrite lookup_with_slot by (by rewrite He).
    rewrite Hl. repeat case_decide; try done; lia. }
  destruct (entry_val tb1 i) as [[obj|] a] eqn:Ev; simpl.
  2: { apply (wp_ret _ _ _).
       assert (lookup_entry tb1 i = None) as Hn by (rewrite lookup_entry_val, Ev; done).
       split; [|split_and!; try done; exists (cleared i tb1); split_and!; try done; simpl; by rewrite Et, insert_insert_eq].
       eapply (inv_retabled k1 _ t tb1 (cleared i tb1)); [done..| |apply retabled_set_table].
       intros p. destruct (Hread i Hi) as (q & b & He). unfold cleared.
       rewrite (uses_with_slot _ _ _ _ _ He). unfold lookup_entry in Hn. rewrite He in Hn. destruct q; [done|]. simpl. lia. }
  assert (lookup_entry tb1 i = Some (obj, a)) as Hlk by (rewrite lookup_entry_val, Ev; done).
  destruct (iv_live _ Hinv obj) as [o Ho].
  { pose proof (used_uses _ _ _ _ Hlk). pose proof (uses_le_total _ _ _ obj Ht1). lia. }
  rewrite wp_bind. eapply wp_dereference; [done|].
  assert (0 < ko_handle_count o) as Hpos.
  { destruct (entry_object_counted k1 t tb1 i obj a Hinv Ht1 Hlk) as (o' & Ho' & ?). by simplify_eq. }
  (* the release, whatever the hook did *)
  assert (∀ k2, hook_effect (set_table t (cleared i tb1) k1) k2 →
            wp (release_object_from_handle obj) (λ _ k', closing t tb k (i + 1) k') k2) as Hend.
  { intros k2 Hq. destruct (hook_while_cleared k1 k2 t (cleared i tb1) Hinv Hq) as (Hinvb & Hb & R).
    set (base := set_types _ _) in *. destruct (hook_live _ _ _ _ Hb Ho Hpos) as (o2 & Ho2 & _). eapply wp_mono.
    - eapply (release_from_handle_spec base k2 t tb1 (cleared i tb1) obj o2); try done; [apply Hhooks|..].
      + intros q. by eapply uses_cleared.
      + by eapply used_uses.
    - intros [] k3 (Hinv3 & E1 & E2 & E3 & E4 & E5 & _). split_and!; try done; try (simpl in *; congruence).
      + unfold same_context in *. simpl in *. naive_solver congruence.
      + exists (cleared i tb1). split_and!; try done. rewrite E1. simpl. by rewrite Et, insert_insert_eq. }
  assert (hook_effect (set_table t (cleared i tb1) k1) (set_table t (cleared i tb1) k1)) as Hrefl.
  { split_and!; [by repeat split|done|by intros q o' ->|eauto]. }
  rewrite wp_bind. destruct (truth (ht_process tb)); [|rewrite wp_ret; by apply Hend].
  destruct (op_close_handle (ops_of (ko_ops o))) as [hook|] eqn:Eh; [|rewrite wp_ret; by apply Hend].
  rewrite wp_bind. eapply wp_mono; [by apply (close_hook_ok Hhooks (set_table t (cleared i tb1) k1) obj _ _ ltac:(by exists o) (counted_of_inv _ Hinv) o)|].
  intros b k2 Hq. apply (wp_ret _ _ _). by apply Hend.
Qed.

Lemma table_destroy_spec k t tb :
  hooks_ok → inv k → ¬ attached k t → k_tables k !! t = Some tb → table_ok tb →
  wp (handle_table_destroy t) (λ _ k', inv k' ∧ k_tables k' = delete t (k_tables k) ∧
    k_procs k' = k_procs k ∧ k_global k' = k_global k) k.
Proof.
  intros Hhooks Hinv Hdet Ht Hok. unfold handle_table_destroy. rewrite wp_bind. eapply wp_dereference; [done|].
  pose proof (tk_last _ Hok). rewrite wp_bind.
  eapply wp_mono; [apply (wp_for_each_seqZ (ht_last tb + 1) _ (closing t tb k)); [lia| |]|].
  - split_and!; try done. exists tb. split_and!; [by rewrite insert_id|done|apply Hok|].
    intros j. rewrite decide_False; [done|lia].
  - intros i k1 Hi Hc. apply (destroy_step t tb k i k1); [done..|lia|done].
  - intros [] k1 (Hinv1 & Ep & Eg & En & Ec & tb' & Et & _ & _ & Hl). rewrite wp_modify. simpl.
    assert (∀ j, lookup_entry tb' j = None) as Hnone.
    { intros j. rewrite Hl. case_decide; [done|]. destruct (decide (j < 0)).
      - unfold lookup_entry, entry_of. destruct (Z.ltb_spec j 0); [done|lia].
      - apply lookup_entry_none_above; [done|lia]. }
    assert (k_tables k1 !! t = Some tb') as Ht1 by (rewrite Et; apply lookup_insert_eq).
    split_and!; [|by rewrite Et, delete_insert_eq|done..].
    apply (inv_delete k1 _ t tb'); try done; [unfold attached in *; by rewrite Ep, Eg|].
    intros p. by apply uses_none.
Qed.

End exit.
