(* ===== verification/HandleTableCopy.v ===== *)
(** * Inheriting handles

    [copy_handle_table] (src/server/handle.c), which gives a new process the inheritable
    handles of its parent: all of them, or those that the creation request lists. *)

From S2P Require Import Prelude.
From S2P Require Import ShmState.
From S2P Require Import Security.
From S2P Require Import HandleTable.
From S2P Require Import HandleTableInv.
From S2P Require Import HandleTableOps.
From S2P Require Import HandleTableSpec.
From S2P Require Import HandleTableExit.

(** The object with [n] more references and handles. *)
Definition gained (n : Z) (o : kobject) : kobject :=
  KObject (ko_refcount o + n) (ko_handle_count o + n) (ko_ops o) (ko_permanent o) (ko_sd o).
Lemma gained_0 o : gained 0 o = o.
Proof. unfold gained. rewrite !Z.add_0_r. by destruct o. Qed.
Lemma handled_gained n o : handled (gained n o) = gained (n + 1) o.
Proof. unfold handled, gained. simpl. f_equal; lia. Qed.

(** ** A new table *)

Definition new_table (process count : Z) : handle_table :=
  HTable process count (-1) 0 (replicate (Z.to_nat count) Garbage).

Lemma lookup_new_table process count j : lookup_entry (new_table process count) j = None.
Proof.
  unfold lookup_entry, entry_of, new_table. destruct (j <? 0); [done|]. simpl.
  destruct (replicate _ Garbage !! Z.to_nat j) as [e|] eqn:E; [|done].
  by apply lookup_replicate_1 in E as [-> _].
Qed.

(** Adding a table that nothing refers to. *)
Lemma inv_add_table k k' t tb :
  inv k → k_tables k !! t = None → (∀ p, uses tb p = 0) → t < k_next k' → k_next k ≤ k_next k' →
  k_tables k' = <[t := tb]> (k_tables k) → k_objs k' = k_objs k →
  k_procs k' = k_procs k → k_global k' = k_global k → inv k'.
Proof.
  intros Hinv Ht Hu Hlt Hn Et Eo Ep Eg.
  assert (∀ p, total (k_tables k') p = total (k_tables k) p) as Htot.
  { intros p. by rewrite Et, total_insert_new, Hu by done. }
  assert (∀ u, is_Some (k_tables k !! u) → is_Some (k_tables k' !! u)) as Hkeep.
  { intros u Hu'. rewrite Et, lookup_insert. by case_decide. }
  split; rewrite ?Eo, ?Ep, ?Eg.
  - intros u ub Ha Hub. assert (attached k u) as Ha' by (unfold attached in *; by rewrite <- Ep, <- Eg).
    rewrite Et in Hub. apply lookup_insert_Some in Hub as [[<- _]|[_ Hub]]; [|by apply (iv_table _ Hinv u)].
    destruct Ha' as [Hg|(p & pr & Hp & Hpu)].
    + destruct (iv_global _ Hinv _ Hg) as [? E]. by rewrite Ht in E.
    + destruct (iv_process _ Hinv _ _ _ Hp Hpu) as [? E]. by rewrite Ht in E.
  - intros u. rewrite Et, lookup_insert. case_decide; [lia|]. intros Hs. pose proof (iv_next _ Hinv u Hs). lia.
  - intros p pr u Hp Hpu. apply Hkeep. by apply (iv_process _ Hinv p pr).
  - apply (iv_distinct _ Hinv).
  - intros u Hg. apply Hkeep. by apply (iv_global _ Hinv).
  - apply (iv_not_global _ Hinv).
  - intros p o. rewrite Htot. apply (iv_counts _ Hinv).
  - intros p. rewrite Htot. apply (iv_live _ Hinv).
Qed.

Lemma next_fresh k : inv k → k_tables k !! k_next k = None.
Proof.
  intros Hinv. destruct (k_tables k !! k_next k) eqn:E; [|done].
  pose proof (iv_next _ Hinv (k_next k) ltac:(by rewrite E)). lia.
Qed.

Section copy.
Context `{ObjectTypes}.

Lemma alloc_table_spec k process count :
  inv k → MIN_HANDLE_ENTRIES ≤ count →
  wp (alloc_handle_table process count) (λ r k',
    inv k' ∧ k_objs k' = k_objs k ∧ k_procs k' = k_procs k ∧ k_global k' = k_global k ∧ same_context k k' ∧
    k_next k ≤ k_next k' ∧
    match r with
    | None => k_tables k' = k_tables k ∧ k_error k' = STATUS_NO_MEMORY
    | Some t => k_tables k !! t = None ∧ k_tables k' = <[t := new_table process count]> (k_tables k) ∧
        ¬ attached k' t
    end) k.
Proof.
  intros Hinv Hc. unfold alloc_handle_table. destruct (Z.ltb_spec count MIN_HANDLE_ENTRIES); [lia|].
  rewrite wp_bind. apply wp_mem_alloc. intros [|] k1 Hq1 He1; simpl negb; cbv iota.
  2: { rewrite wp_ret. pose proof Hq1 as ((? & ? & ? & ? & ?) & ? & _).
       split_and!; try done; [eapply inv_core; [done|apply Hq1]|lia]. }
  rewrite wp_bind. apply wp_mem_alloc. intros [|] k2 Hq2 He2; simpl negb; cbv iota.
  2: { rewrite wp_ret. assert (quiet k k2) as Hq by (by etrans). pose proof Hq as ((? & ? & ? & ? & ?) & ? & _).
       split_and!; try done; [eapply inv_core; [done|apply Hq]|lia]. }
  assert (quiet k k2) as Hq by (by etrans). pose proof Hq as ((Eo & Et & En & Ep & Eg) & Ec & _).
  assert (inv k2) as Hinv2 by (eapply inv_core; [done|apply Hq]).
  pose proof (next_fresh k2 Hinv2) as Hfresh.
  rewrite wp_bind, wp_gets, wp_bind, wp_modify, wp_ret. fold (new_table process count).
  split_and!; try done; [|simpl; lia|by rewrite <- Et|by rewrite <- Et|].
  - apply (inv_add_table k2 _ (k_next k2) (new_table process count)); simpl; try done; try lia.
    intros p. apply uses_none. apply lookup_new_table.
  - intros Ha. assert (attached k2 (k_next k2)) as [Hg|(p & pr & Hp & Hpu)] by exact Ha.
    + destruct (iv_global _ Hinv2 _ Hg) as [? E]. by rewrite Hfresh in E.
    + destruct (iv_process _ Hinv2 _ _ _ Hp Hpu) as [? E]. by rewrite Hfresh in E.
Qed.

(** ** Selecting entries *)

(** The entry that a child inherits from entry [j] of its parent. *)
Definition inherited (ptb : handle_table) (sel : Z → Prop) `{!∀ j, Decision (sel j)} (j : Z) : option (Z * Z) :=
  e ← lookup_entry ptb j;
  if decide (has e.2 RESERVED_INHERIT = true ∧ sel j) then Some e else None.

Lemma view_inherited ptb tb sel `{!∀ j, Decision (sel j)} (P : Z * (Z * Z) → Prop) `{!∀ x, Decision (P x)} :
  table_ok ptb → table_ok tb → (∀ j, lookup_entry tb j = inherited ptb sel j) →
  (∀ j e, 0 ≤ j < MAX_HANDLE_ENTRIES → P (index_to_handle j, e) ↔ has e.2 RESERVED_INHERIT = true ∧ sel j) →
  view tb = filter P (view ptb).
Proof.
  intros Hp Ht Hl HP. apply map_eq. intros h. apply option_eq. intros e. rewrite map_lookup_filter_Some. split.
  - intros (j & Hj & -> & He)%view_lookup_inv; [|done]. pose proof (tk_count _ Ht).
    rewrite Hl in He. unfold inherited in He. destruct (lookup_entry ptb j) as [e'|] eqn:E; [|done]. simpl in He.
    case_decide as Hs; [|done]. injection He as <-. rewrite view_lookup by (done || lia). split; [done|].
    apply HP; [lia|done].
  - intros [(j & Hj & -> & He)%view_lookup_inv Hs]; [|done]. pose proof (tk_count _ Hp).
    rewrite view_lookup by (done || lia). rewrite Hl. unfold inherited. rewrite He. simpl.
    apply HP in Hs; [|lia]. by rewrite decide_True.
Qed.

(** ** Inheriting every handle *)

Lemma uses_ext tb tb' p :
  length (ht_entries tb) = length (ht_entries tb') → (∀ j, lookup_entry tb j = lookup_entry tb' j) →
  uses tb p = uses tb' p.
Proof.
  unfold uses. intros Hlen Hl.
  assert (∀ i e e', ht_entries tb !! i = Some e → ht_entries tb' !! i = Some e' →
            slot_uses p e = slot_uses p e') as Hs.
  { intros i e e' He He'. specialize (Hl (Z.of_nat i)). unfold lookup_entry, entry_of in Hl.
    destruct (Z.ltb_spec (Z.of_nat i) 0); [lia|]. rewrite Nat2Z.id, He, He' in Hl.
    destruct e as [|[q|] a], e' as [|[q'|] a']; simplify_eq/=; done. }
  clear Hl. revert Hlen Hs. generalize (ht_entries tb) (ht_entries tb'). intros l.
  induction l as [|e l IH]; intros [|e' l'] Hlen Hs; simplify_eq/=; [done|].
  rewrite (Hs 0%nat e e' eq_refl eq_refl). f_equal. apply IH; [done|]. intros i. apply (Hs (S i)).
Qed.

(** A slot that held no object gets one. *)
Lemma uses_filled tb i obj a p :
  is_Some (entry_of tb i) → lookup_entry tb i = None →
  uses (with_slot i (Slot (Some obj) a) tb) p = uses tb p + if decide (p = obj) then 1 else 0.
Proof.
  intros [e He] Hn. rewrite (uses_with_slot _ _ _ _ _ He), slot_uses_some.
  unfold lookup_entry in Hn. rewrite He in Hn. destruct e as [|[q|] b]; [|done|]; simpl; lia.
Qed.

(** The objects after the entries of [tb] were counted. *)
Definition objects_gained (tb : handle_table) (k k' : kernel) : Prop :=
  ∀ p, k_objs k' !! p = gained (uses tb p) <$> k_objs k !! p.

Lemma objects_gained_step tb tb' obj o k k1 k2 :
  objects_gained tb k k1 → k_objs k1 !! obj = Some o → k_objs k2 = <[obj := handled o]> (k_objs k1) →
  (∀ p, uses tb' p = uses tb p + if decide (p = obj) then 1 else 0) → objects_gained tb' k k2.
Proof.
  intros Hg Ho E Hu p. rewrite E, lookup_insert, Hu. case_decide as Hp.
  - subst p. rewrite decide_True by done. rewrite Hg in Ho. destruct (k_objs k !! obj) as [o0|]; [|done].
    injection Ho as <-. simpl. by rewrite handled_gained.
  - rewrite decide_False by done. by rewrite Z.add_0_r, Hg.
Qed.

(** Counting one more entry of a table that nothing refers to. *)
Lemma inv_counted k k' t tb tb' obj o :
  inv k → ¬ attached k t → k_tables k !! t = Some tb → k_objs k !! obj = Some o → ko_refcount o < INT_MAX →
  (∀ p, uses tb' p = uses tb p + if decide (p = obj) then 1 else 0) →
  k_tables k' = <[t := tb']> (k_tables k) → k_objs k' = <[obj := handled o]> (k_objs k) →
  k_next k' = k_next k → k_procs k' = k_procs k → k_global k' = k_global k → inv k'.
Proof.
  intros Hinv Hdet Ht Ho Hr Hu Et Eo En Ep Eg. apply (inv_update k k' t tb tb'); try done.
  - intros p q. rewrite Eo, lookup_insert. case_decide as E; [intros [= <-]; subst p|].
    + exists o. pose proof (iv_counts _ Hinv _ _ Ho). rewrite Hu, decide_True by done. simpl.
      split_and!; [done|lia..].
    + intros Hq. exists q. pose proof (iv_counts _ Hinv _ _ Hq). rewrite Hu, decide_False by done.
      split_and!; [done|lia..].
  - intros p Hp. left. rewrite Eo, lookup_insert. by case_decide.
  - intros p. rewrite Hu. case_decide; [right; subst; by rewrite Ho|left; lia].
Qed.

Definition everything (_ : Z) : Prop := True.
#[local] Instance everything_dec j : Decision (everything j) := left I.

(** After [n] rounds: entries below [n] are final, the others are raw copies of the parent's.
    The counts agree with the ghost table [gtb], which has the final ones only. *)
Record copying (t pt : Z) (ptb : handle_table) (k : kernel) (n : Z) (k' : kernel)
    (tb gtb : handle_table) : Prop := {
  cp_tables : k_tables k' = <[t := tb]> (k_tables k);
  cp_inv : inv (set_table t gtb k');
  cp_length : length (ht_entries tb) = length (ht_entries ptb) ∧ length (ht_entries gtb) = length (ht_entries ptb);
  cp_header : ht_process tb = ht_process gtb ∧ ht_count tb = ht_count ptb ∧ ht_last tb = ht_last ptb ∧ ht_free tb = 0;
  cp_readable : ∀ j, 0 ≤ j ≤ ht_last ptb → readable tb j;
  cp_lookup : ∀ j, lookup_entry tb j = if decide (0 ≤ j < n) then inherited ptb everything j else lookup_entry ptb j;
  cp_ghost : ∀ j, lookup_entry gtb j = if decide (0 ≤ j < n) then inherited ptb everything j else None;
  cp_objects : objects_gained gtb k k';
  cp_rest : k_next k' = k_next k ∧ k_procs k' = k_procs k ∧ k_global k' = k_global k ∧ same_context k k' }.

Lemma copy_step t pt ptb k i k1 tb gtb :
  ¬ attached k t → t ≠ pt → k_tables k !! pt = Some ptb → table_ok ptb →
  (∀ p o, k_objs k !! p = Some o → ko_refcount o + ht_count ptb < INT_MAX) →
  0 ≤ i ≤ ht_last ptb → copying t pt ptb k i k1 tb gtb →
  wp (e ← read_entry t i;
      match e.1 with
      | None => mret tt
      | Some obj => if has e.2 RESERVED_INHERIT then grab_object_for_handle obj else write_ptr t i None
      end) (λ _ k', ∃ tb' gtb', ht_process gtb' = ht_process gtb ∧ copying t pt ptb k (i + 1) k' tb' gtb') k1.
Proof.
  intros Hdet Hne Hpt Hok Hrc Hi Hc. pose proof Hc as [Et Hinv Hlen Hhead Hread Hl Hg Hobj Hrest].
  pose proof (tk_last _ Hok). pose proof (tk_length _ Hok).
  assert (k_tables k1 !! t = Some tb) as Ht1 by (rewrite Et; apply lookup_insert_eq).
  rewrite wp_bind. eapply wp_read_entry; [done|by apply Hread|].
  pose proof (Hl i) as Hli. rewrite decide_False in Hli by lia.
  pose proof (lookup_entry_val tb i) as Hv. rewrite Hli in Hv.
  assert (∀ n x, inherited ptb everything i = x →
            (if decide (0 ≤ n < i + 1) then inherited ptb everything n else None) =
            (if decide (n = i) then x else lookup_entry gtb n)) as Hstep.
  { intros n x <-. rewrite Hg. repeat case_decide; subst; try done; lia. }
  destruct (entry_val tb i) as [[obj|] a] eqn:Ev; simpl in Hv |- *.
  2: { apply (wp_ret _ _ _). exists tb, gtb. split; [done|]. split; try done.
       - intros j. rewrite Hl. unfold inherited. repeat case_decide; try done; try lia.
         assert (j = i) as -> by lia. by rewrite Hv.
       - intros j. rewrite (Hstep j None) by (unfold inherited; by rewrite Hv).
         case_decide; [subst|done]. rewrite Hg. by rewrite decide_False by lia. }
  assert (lookup_entry tb i = Some (obj, a)) as Htbi by (by rewrite Hli).
  assert (lookup_entry gtb i = None) as Hgi by (rewrite Hg, decide_False; [done|lia]).
  assert (is_Some (entry_of gtb i)) as Hgs by (apply entry_of_some; lia).
  destruct (has a RESERVED_INHERIT) eqn:Hinh.
  - assert (k_tables (set_table t gtb k1) !! pt = Some ptb) as Hpt1.
    { simpl. rewrite lookup_insert_ne, Et, lookup_insert_ne by done. done. }
    destruct (iv_live _ Hinv obj) as [o Ho].
    { pose proof (used_uses _ _ _ _ Hv). pose proof (uses_le_total _ _ _ obj Hpt1). lia. }
    simpl in Ho. pose proof (iv_counts _ Hinv _ _ Ho) as [Hcnt Hrng].
    pose proof (total_nonneg (k_tables (set_table t gtb k1)) obj).
    assert (ko_refcount o < INT_MAX) as Hr.
    { pose proof Ho as Ho0. rewrite Hobj in Ho0. destruct (k_objs k !! obj) as [o0|] eqn:E0; [|done].
      injection Ho0 as <-. simpl. pose proof (Hrc _ _ E0). pose proof (uses_in_le obj (ht_entries gtb)).
      unfold uses. lia. }
    eapply wp_mono; [apply (grab_for_handle_spec k1 obj o); [done|lia|done]|].
    intros [] k2 (Eo & Et2 & En & Ep & Eg & Ec & _). set (gtb' := with_slot i (Slot (Some obj) a) gtb).
    assert (∀ p, uses gtb' p = uses gtb p + if decide (p = obj) then 1 else 0) as Hu.
    { intros p. by apply uses_filled. }
    exists tb, gtb'. split; [done|]. split; try done.
    + by rewrite Et2.
    + apply (inv_counted (set_table t gtb k1) _ t gtb gtb' obj o); try done.
      * unfold attached in *. simpl. destruct Hrest as (_ & -> & -> & _). done.
      * apply lookup_insert_eq.
      * simpl. by rewrite Et2, insert_insert_eq.
    + unfold gtb'. by rewrite length_with_slot.
    + intros j. rewrite Hl. destruct (decide (j = i)) as [->|]; [|repeat case_decide; try done; lia].
      rewrite decide_False, decide_True by lia. unfold inherited. rewrite Hv. simpl. by rewrite decide_True.
    + intros j. rewrite (Hstep j (Some (obj, a))); [|unfold inherited; rewrite Hv; simpl; by rewrite decide_True].
      unfold gtb'. by rewrite lookup_with_slot.
    + by eapply (objects_gained_step gtb gtb' obj o).
    + destruct Hrest as (R1 & R2 & R3 & C1 & C2 & C3 & C4), Ec as (D1 & D2 & D3 & D4).
      unfold same_context; split_and!; congruence.
  - eapply wp_write_ptr; [done|by apply Hread|]. fold (cleared i tb). exists (cleared i tb), gtb.
    split; [done|]. split; try done.
    + simpl. by rewrite Et, insert_insert_eq.
    + eapply inv_core; [exact Hinv|]. split_and!; try done. simpl. by rewrite insert_insert_eq.
    + unfold cleared. by rewrite length_with_slot.
    + intros j Hj. eapply readable_cleared; [done|by apply Hread].
    + intros j. rewrite (lookup_cleared _ _ _ _ _ Htbi), Hl.
      destruct (decide (j = i)) as [->|]; [|repeat case_decide; try done; lia].
      rewrite decide_True by lia. unfold inherited. rewrite Hv. simpl. rewrite Hinh.
      rewrite decide_False; [done|by intros []].
    + intros j. rewrite (Hstep j None); [by case_decide; subst|]. unfold inherited. rewrite Hv. simpl.
      rewrite Hinh. rewrite decide_False; [done|by intros []].
Qed.

(** The new table [t] of [process] before it is shrunk. *)
Record filled (t process : Z) (ptb : handle_table) (sel : Z → Prop) `{!∀ j, Decision (sel j)}
    (k k' : kernel) (tb : handle_table) : Prop := {
  fl_inv : inv k';
  fl_tables : k_tables k' = <[t := tb]> (k_tables k);
  fl_length : length (ht_entries tb) = length (ht_entries ptb);
  fl_header : ht_process tb = process ∧ ht_count tb = ht_count ptb ∧ -1 ≤ ht_last tb ≤ ht_last ptb ∧ ht_free tb = 0;
  fl_readable : ∀ j, 0 ≤ j ≤ ht_last tb → readable tb j;
  fl_lookup : ∀ j, lookup_entry tb j = inherited ptb sel j;
  fl_above : ∀ j, is_Some (lookup_entry tb j) → j ≤ ht_last tb;
  fl_objects : objects_gained tb k k';
  fl_rest : k_next k ≤ k_next k' ∧ k_procs k' = k_procs k ∧ k_global k' = k_global k ∧ same_context k k' }.

(** The parent's entries, raw. *)
Lemma entry_of_copied ptb tb n j :
  0 ≤ n ≤ Z.of_nat (length (ht_entries ptb)) → length (ht_entries tb) = length (ht_entries ptb) →
  entry_of (with_entries (copied n (ht_entries ptb) (ht_entries tb)) tb) j =
    if decide (j < n) then entry_of ptb j else entry_of tb j.
Proof.
  intros Hn Hlen. unfold entry_of. destruct (Z.ltb_spec j 0); [by case_decide|]. simpl. unfold copied.
  case_decide.
  - rewrite lookup_app_l by (rewrite length_take; lia). rewrite lookup_take_lt; [done|lia].
  - rewrite lookup_app_r by (rewrite length_take; lia). rewrite length_take, lookup_drop. f_equal. lia.
Qed.

Lemma lookup_entry_outside tb j : table_ok tb → j < 0 ∨ ht_last tb < j → lookup_entry tb j = None.
Proof.
  intros Hok [Hj|Hj]; [|by apply lookup_entry_none_above].
  unfold lookup_entry, entry_of. destruct (Z.ltb_spec j 0); [done|lia].
Qed.

Lemma inherited_everything_none ptb j : lookup_entry ptb j = None → inherited ptb everything j = None.
Proof. intros E. unfold inherited. by rewrite E. Qed.

(** The end of the loop, when the ghost table is the real one. *)
Lemma filled_of_ghost t process ptb k k' tb gtb :
  table_ok ptb → ¬ attached k' t → k_tables k' = <[t := tb]> (k_tables k) → inv (set_table t gtb k') →
  length (ht_entries tb) = length (ht_entries ptb) → length (ht_entries gtb) = length (ht_entries ptb) →
  ht_process tb = process → ht_count tb = ht_count ptb → ht_last tb = ht_last ptb → ht_free tb = 0 →
  (∀ j, 0 ≤ j ≤ ht_last ptb → readable tb j) →
  (∀ j, lookup_entry tb j = inherited ptb everything j) →
  (∀ j, lookup_entry gtb j = inherited ptb everything j) →
  objects_gained gtb k k' →
  k_next k ≤ k_next k' ∧ k_procs k' = k_procs k ∧ k_global k' = k_global k ∧ same_context k k' →
  filled t process ptb everything k k' tb.
Proof.
  intros Hok Hdet Et Hinv Hlen Hglen Hp Hcount Hlast Hfree Hread Hl Hg Hobj Hrest.
  assert (∀ p, uses tb p = uses gtb p) as Hu.
  { intros p. apply uses_ext; [by rewrite Hlen, Hglen|]. intros j. by rewrite Hl, Hg. }
  pose proof (tk_last _ Hok). split; try done.
  - eapply (inv_retabled (set_table t gtb k') k' t gtb tb); [done|apply lookup_insert_eq| |done|].
    + intros Ha. by destruct (Hdet Ha).
    + split_and!; try done. simpl. by rewrite insert_insert_eq, Et, insert_insert_eq.
  - rewrite Hlast. split_and!; [done..|lia|lia|done].
  - by rewrite Hlast.
  - intros j. rewrite Hl, Hlast. unfold inherited. destruct (lookup_entry ptb j) eqn:E; [|by intros []].
    intros _. apply (tk_above _ Hok). by rewrite E.
  - intros p. by rewrite Hu, Hobj.
Qed.

Lemma copy_all_spec t process pt ptb k k1 :
  k_tables k !! t = None → ¬ attached k t → k_tables k !! pt = Some ptb → table_ok ptb →
  (∀ p o, k_objs k !! p = Some o → ko_refcount o + ht_count ptb < INT_MAX) →
  inv k1 → k_tables k1 = <[t := new_table process (ht_count ptb)]> (k_tables k) → k_objs k1 = k_objs k →
  k_next k ≤ k_next k1 ∧ k_procs k1 = k_procs k ∧ k_global k1 = k_global k ∧ same_context k k1 →
  wp (_ ← update_table t (with_last (ht_last ptb));
      when (0 <=? ht_last ptb)
        (_ ← update_table t (λ tb, with_entries (copied (ht_last ptb + 1) (ht_entries ptb) (ht_entries tb)) tb);
         for_each (seqZ 0 (ht_last ptb + 1)) (λ i,
           e ← read_entry t i;
           match e.1 with
           | None => mret tt
           | Some obj => if has e.2 RESERVED_INHERIT then grab_object_for_handle obj else write_ptr t i None
           end))) (λ _ k', ∃ tb, filled t process ptb everything k k' tb) k1.
Proof.
  intros Hfresh Hdet Hpt Hok Hrc Hinv1 Et Eo Hrest.
  assert (t ≠ pt) as Hne by (by intros ->; rewrite Hfresh in Hpt).
  pose proof (tk_last _ Hok). pose proof (tk_length _ Hok). pose proof (tk_count _ Hok).
  rewrite wp_bind. eapply wp_update_table; [rewrite Et; apply lookup_insert_eq|].
  set (nt := new_table process (ht_count ptb)) in *. set (tb1 := with_last (ht_last ptb) nt).
  set (k2 := set_table t tb1 k1).
  assert (length (ht_entries nt) = length (ht_entries ptb)) as Hlen.
  { unfold nt, new_table. simpl. rewrite length_replicate. lia. }
  assert (∀ j, lookup_entry nt j = None) as Hnt by (intros j; apply lookup_new_table).
  assert (k_tables k2 = <[t := tb1]> (k_tables k)) as Et2 by (simpl; by rewrite Et, insert_insert_eq).
  assert (inv k2) as Hinv2.
  { eapply (inv_retabled k1 k2 t nt tb1); [done|rewrite Et; apply lookup_insert_eq| |done|apply retabled_set_table].
    intros Ha. exfalso. apply Hdet. unfold attached in *. destruct Hrest as (_ & E1 & E2 & _).
    by rewrite <- E1, <- E2. }
  assert (objects_gained nt k k2) as Hgained.
  { intros p. rewrite (uses_none nt) by done. simpl. rewrite Eo. destruct (k_objs k !! p); [|done].
    simpl. by rewrite gained_0. }
  rewrite wp_when. destruct (Z.leb_spec 0 (ht_last ptb)) as [Hpos|Hneg].
  2: { exists tb1. split; try done; try (simpl; lia).
       - intros j. rewrite inherited_everything_none; [apply Hnt|]. apply lookup_entry_outside; [done|lia].
       - intros j [x Hx]. change (lookup_entry tb1 j) with (lookup_entry nt j) in Hx. by rewrite Hnt in Hx. }
  rewrite wp_bind. eapply wp_update_table; [rewrite Et2; apply lookup_insert_eq|].
  set (tb2 := with_entries (copied (ht_last ptb + 1) (ht_entries ptb) (ht_entries tb1)) tb1).
  set (k3 := set_table t tb2 k2).
  assert (∀ j, entry_of tb2 j = if decide (j < ht_last ptb + 1) then entry_of ptb j else entry_of tb1 j) as Hraw.
  { intros j. apply entry_of_copied; [lia|done]. }
  assert (copying t pt ptb k3 0 k3 tb2 nt) as Hc0.
  { split; try done.
    - simpl. by rewrite !insert_insert_eq.
    - eapply inv_core; [exact Hinv1|]. split_and!; try done. simpl. by rewrite !insert_insert_eq, Et, insert_insert_eq.
    - split; [|done]. change (ht_entries tb2) with (copied (ht_last ptb + 1) (ht_entries ptb) (ht_entries nt)).
      unfold copied. rewrite length_app, length_take, length_drop, Hlen. lia.
    - intros j Hj. unfold readable. rewrite Hraw, decide_True by lia. by apply (tk_init _ Hok).
    - intros j. rewrite decide_False by lia. unfold lookup_entry at 1. rewrite Hraw. case_decide; [done|].
      rewrite (lookup_entry_outside ptb j Hok) by lia. exact (Hnt j).
    - intros j. rewrite decide_False by lia. apply Hnt.
    - intros p. rewrite (uses_none nt) by done. destruct (k_objs k3 !! p); [|done]. simpl. by rewrite gained_0. }
  assert (¬ attached k3 t) as Hdet3.
  { intros Ha. apply Hdet. unfold attached in *. destruct Hrest as (_ & E1 & E2 & _). by rewrite <- E1, <- E2. }
  assert (k_tables k3 !! pt = Some ptb) as Hpt3.
  { simpl. rewrite !lookup_insert_ne by done. by rewrite Et, lookup_insert_ne. }
  eapply wp_mono.
  { apply (wp_for_each_seqZ (ht_last ptb + 1) _ (λ n k', ∃ tb gtb, ht_process gtb = process ∧
             copying t pt ptb k3 n k' tb gtb)); [lia|by exists tb2, nt|].
    intros i k4 Hi (tb & gtb & Hp & Hc). eapply wp_mono.
    { apply (copy_step t pt ptb k3 i k4 tb gtb); try done; [|lia]. simpl. by rewrite Eo. }
    intros [] k5 (tb' & gtb' & Hp' & Hc'). exists tb', gtb'. split; [by rewrite Hp'|done]. }
  intros [] k4 (tb & gtb & Hp & [Et4 Hinv4 Hlen4 Hhead4 Hread4 Hl4 Hg4 Hobj4 Hrest4]).
  destruct Hrest as (N & E1 & E2 & E3), Hrest4 as (N4 & F1 & F2 & F3).
  destruct Hlen4 as [Hl1 Hl2], Hhead4 as (Hh1 & Hh2 & Hh3 & Hh4).
  exists tb. apply (filled_of_ghost t process ptb k k4 tb gtb); try done.
  - intros Ha. apply Hdet3. unfold attached in *. by rewrite <- F1, <- F2.
  - rewrite Et4. simpl. by rewrite !insert_insert_eq, Et, insert_insert_eq.
  - by rewrite Hh1.
  - intros j. rewrite Hl4. case_decide; [done|]. rewrite inherited_everything_none;
      apply lookup_entry_outside; done || lia.
  - intros j. rewrite Hg4. case_decide; [done|]. rewrite inherited_everything_none; [done|].
    apply lookup_entry_outside; done || lia.
  - intros p. rewrite Hobj4. simpl. by rewrite Eo.
  - simpl in *. unfold same_context in *. split_and!; [lia|naive_solver congruence..].
Qed.

(** ** Inheriting listed handles *)

Lemma inherited_ext ptb sel sel' `{!∀ j, Decision (sel j)} `{!∀ j, Decision (sel' j)} j :
  (∀ e, lookup_entry ptb j = Some e → has e.2 RESERVED_INHERIT = true → sel j ↔ sel' j) →
  inherited ptb sel j = inherited ptb sel' j.
Proof.
  intros Hs. unfold inherited. destruct (lookup_entry ptb j) as [e|]; [|done]. simpl.
  specialize (Hs e eq_refl). repeat case_decide; naive_solver.
Qed.

(** The indices [l] were inherited; the whole table was cleared before. *)
Definition listed (l : list Z) (j : Z) : Prop := j ∈ l.
#[local] Instance listed_dec l j : Decision (listed l j) := list_elem_of_dec j l.

Definition listing (t process : Z) (ptb : handle_table) (k : kernel) (l : list Z) (k' : kernel) : Prop :=
  ∃ tb, filled t process ptb (listed l) k k' tb ∧ ∀ j, 0 ≤ j < ht_count ptb → readable tb j.

Lemma listing_ext t process ptb k l l' k' :
  (∀ j e, lookup_entry ptb j = Some e → has e.2 RESERVED_INHERIT = true → j ∈ l ↔ j ∈ l') →
  listing t process ptb k l k' → listing t process ptb k l' k'.
Proof.
  intros Hs (tb & [] & Hr). exists tb. split; [|done]. split; try done.
  intros j. etrans; [apply fl_lookup0|]. apply inherited_ext. apply Hs.
Qed.

Lemma inherit_take t process ptb k l k1 tb i obj a :
  table_ok ptb → ¬ attached k t →
  (∀ p o, k_objs k !! p = Some o → ko_refcount o + ht_count ptb < INT_MAX) →
  lookup_entry ptb i = Some (obj, a) → has a RESERVED_INHERIT = true → i ∉ l →
  0 < total (k_tables k1) obj →
  filled t process ptb (listed l) k k1 tb → (∀ j, 0 ≤ j < ht_count ptb → readable tb j) →
  wp (_ ← grab_object_for_handle obj; _ ← write_entry t i (Slot (Some obj) a);
      update_table t (λ tb, with_last (Z.max (ht_last tb) i) tb))
    (λ _ k', listing t process ptb k (l ++ [i]) k') k1.
Proof.
  intros Hok Hdet Hrc Hi Hinh Hni Hlive [Hinv Et Hlen Hhead Hread Hl Habove Hobj Hrest] Hall.
  pose proof (tk_last _ Hok). pose proof (tk_length _ Hok).
  pose proof (tk_above _ Hok i ltac:(by rewrite Hi)) as Hil.
  assert (0 ≤ i) as Hi0.
  { destruct (decide (i < 0)) as [Hneg|]; [|lia]. by rewrite lookup_entry_outside in Hi by (done || lia). }
  assert (k_tables k1 !! t = Some tb) as Ht1 by (rewrite Et; apply lookup_insert_eq).
  destruct (iv_live _ Hinv obj Hlive) as [o Ho]. pose proof (iv_counts _ Hinv _ _ Ho) as [Hcnt Hrng].
  assert (ko_refcount o < INT_MAX) as Hr.
  { pose proof Ho as Ho0. rewrite Hobj in Ho0. destruct (k_objs k !! obj) as [o0|] eqn:E0; [|done].
    injection Ho0 as <-. simpl. pose proof (Hrc _ _ E0). pose proof (uses_in_le obj (ht_entries tb)).
    unfold uses. lia. }
  assert (lookup_entry tb i = None) as Hnone.
  { rewrite Hl. unfold inherited. rewrite Hi. simpl. rewrite decide_False; [done|by intros []]. }
  assert (is_Some (entry_of tb i)) as Hsome by (destruct (Hall i ltac:(lia)) as (? & ? & ->); done).
  rewrite wp_bind. eapply wp_mono; [apply (grab_for_handle_spec k1 obj o); [done|lia|done]|].
  intros [] k2 (Eo & Et2 & En & Ep & Eg & Ec & _). rewrite wp_bind.
  eapply wp_write_entry; [by rewrite Et2|done|]. set (tb1 := with_slot i (Slot (Some obj) a) tb).
  eapply wp_update_table; [apply lookup_insert_eq|]. set (tb2 := with_last (Z.max (ht_last tb1) i) tb1).
  set (k4 := set_table t tb2 (set_table t tb1 k2)).
  assert (∀ p, uses tb2 p = uses tb p + if decide (p = obj) then 1 else 0) as Hu.
  { intros p. exact (uses_filled tb i obj a p Hsome Hnone). }
  assert (∀ j, lookup_entry tb2 j = if decide (j = i) then Some (obj, a) else lookup_entry tb j) as Hl2.
  { intros j. exact (lookup_with_slot tb i (Slot (Some obj) a) j Hsome). }
  assert (k_tables k4 = <[t := tb2]> (k_tables k1)) as Et4 by (simpl; by rewrite insert_insert_eq, Et2).
  assert (∀ j, readable tb j → readable tb2 j) as Hrd.
  { intros j Hj. unfold readable. change (entry_of tb2 j) with (entry_of tb1 j). unfold tb1.
    rewrite entry_of_with_slot by done. case_decide; [by eexists _, _|done]. }
  destruct Hrest as (R1 & R2 & R3 & R4), Hhead as (Hh1 & Hh2 & Hh3 & Hh4).
  exists tb2. split; [split|intros j Hj; by apply Hrd, Hall].
  - apply (inv_counted k1 k4 t tb tb2 obj o); try done. unfold attached in *. by rewrite R2, R3.
  - by rewrite Et4, Et, insert_insert_eq.
  - simpl. by rewrite length_insert.
  - simpl. split_and!; [done..|lia|lia|done].
  - simpl. intros j Hj. apply Hrd, Hall. lia.
  - intros j. rewrite Hl2. case_decide as Hj; [subst j|].
    + unfold inherited. rewrite Hi. simpl. rewrite decide_True; [done|]. split; [done|].
      unfold listed. apply elem_of_app. right. by apply list_elem_of_singleton.
    + rewrite Hl. apply inherited_ext. intros _ _ _. unfold listed.
      rewrite elem_of_app, list_elem_of_singleton. naive_solver.
  - simpl. intros j. rewrite Hl2. case_decide; [lia|]. intros Hj%Habove. lia.
  - by eapply (objects_gained_step tb tb2 obj o).
  - simpl. unfold same_context in *. split_and!; [lia|naive_solver congruence..].
Qed.

Lemma inherit_step t process parent pr pt ptb k l k1 h :
  k_procs k !! parent = Some pr → ps_handles pr = Some pt → k_tables k !! pt = Some ptb → t ≠ pt →
  table_ok ptb → ¬ attached k t →
  (∀ p o, k_objs k !! p = Some o → ko_refcount o + ht_count ptb < INT_MAX) →
  handle_is_global h = false → listing t process ptb k l k1 →
  wp (inherit_handle parent h t) (λ _ k', listing t process ptb k (l ++ [handle_to_index h]) k') k1.
Proof.
  intros Hp Hpt Hptb Hne Hok Hdet Hrc Hg (tb & Hf & Hall). pose proof Hf as [Hinv Et _ _ _ Hl _ _ (_ & Ep & _)].
  set (i := handle_to_index h).
  assert (k_procs k1 !! parent = Some pr) as Hp1 by (by rewrite Ep).
  assert (k_tables k1 !! pt = Some ptb) as Hpt1 by (by rewrite Et, lookup_insert_ne).
  assert (k_tables k1 !! t = Some tb) as Ht1 by (rewrite Et; apply lookup_insert_eq).
  assert (listing t process ptb k l k1) as Hsame by by exists tb.
  (* an entry that is not there, or not to be inherited, or inherited already *)
  assert ((∀ e, lookup_entry ptb i = Some e → has e.2 RESERVED_INHERIT = true → i ∈ l) →
          listing t process ptb k (l ++ [i]) k1) as Hskip.
  { intros Hi. eapply listing_ext; [|exact Hsame]. intros j e He Hinh.
    rewrite elem_of_app, list_elem_of_singleton. naive_solver. }
  unfold inherit_handle. rewrite wp_bind. eapply wp_of_exec; [by apply (get_handle_exec k1 parent pr)|].
  unfold resolve, handle_slot. rewrite Hg, Hpt. simpl. rewrite Hpt1. simpl. fold i.
  destruct (lookup_entry ptb i) as [[obj a]|] eqn:Hi; simpl; [|rewrite wp_ret; by apply Hskip].
  rewrite wp_bind. eapply wp_read_entry; [done|by eapply used_readable|].
  pose proof Hi as He%lookup_entry_some. unfold entry_val at 1 2 3. rewrite He. simpl.
  destruct (has a RESERVED_INHERIT) eqn:Hinh; simpl.
  2: { rewrite wp_ret. apply Hskip. intros e [= <-]. simpl. by rewrite Hinh. }
  pose proof (tk_above _ Hok i ltac:(by rewrite Hi)) as Hil. pose proof (tk_last _ Hok).
  assert (0 ≤ i) as Hi0.
  { destruct (decide (i < 0)) as [Hneg|]; [|lia]. by rewrite lookup_entry_outside in Hi by (done || lia). }
  rewrite wp_bind. eapply wp_read_entry; [done|apply Hall; lia|].
  pose proof (lookup_entry_val tb i) as Hv. rewrite Hl in Hv. unfold inherited in Hv. rewrite Hi in Hv. simpl in Hv.
  destruct (entry_val tb i) as [[q|] b]; simpl in Hv |- *; case_decide as Hd; try done.
  - rewrite wp_ret. apply Hskip. intros e _ _. by destruct Hd.
  - unfold entry_object, entry_val. rewrite He. simpl. rewrite wp_bind, wp_ret.
    apply (inherit_take t process ptb k l k1 tb i obj a); try done.
    + intros Hin. apply Hd. by split.
    + pose proof (used_uses _ _ _ _ Hi). pose proof (uses_le_total _ _ _ obj Hpt1). lia.
Qed.

Lemma inherit_all t process parent pr pt ptb k hs l k1 :
  k_procs k !! parent = Some pr → ps_handles pr = Some pt → k_tables k !! pt = Some ptb → t ≠ pt →
  table_ok ptb → ¬ attached k t →
  (∀ p o, k_objs k !! p = Some o → ko_refcount o + ht_count ptb < INT_MAX) →
  Forall (λ h, handle_is_global h = false) hs → listing t process ptb k l k1 →
  wp (for_each hs (λ h, inherit_handle parent h t))
    (λ _ k', listing t process ptb k (l ++ (handle_to_index <$> hs)) k') k1.
Proof.
  intros Hp Hpt Hptb Hne Hok Hdet Hrc Hloc Hl.
  apply (wp_for_each hs _ (λ d k', listing t process ptb k (l ++ (handle_to_index <$> d)) k')).
  - by rewrite fmap_nil, app_nil_r.
  - intros d h rest k2 E Hd. rewrite fmap_app, app_assoc. simpl.
    eapply inherit_step; try done. rewrite E in Hloc. apply list.Forall_app in Hloc as [_ Hloc].
    by apply list.Forall_cons in Hloc as [? _].
Qed.

(** ** The whole copy *)

(** The cleared table, before anything is inherited. *)
Lemma cleared_listing t process ptb k k1 :
  k_tables k !! t = None → ¬ attached k t → table_ok ptb →
  inv k1 → k_tables k1 = <[t := new_table process (ht_count ptb)]> (k_tables k) → k_objs k1 = k_objs k →
  k_next k ≤ k_next k1 ∧ k_procs k1 = k_procs k ∧ k_global k1 = k_global k ∧ same_context k k1 →
  wp (update_table t (λ tb, with_entries
        (copied (ht_count ptb) (replicate (Z.to_nat (ht_count ptb)) (Slot None 0)) (ht_entries tb)) tb))
    (λ _ k', listing t process ptb k [] k') k1.
Proof.
  intros Hfresh Hdet Hok Hinv1 Et Eo Hrest. pose proof (tk_length _ Hok). pose proof (tk_count _ Hok) as Hc.
  unfold MIN_HANDLE_ENTRIES in Hc. pose proof (tk_last _ Hok).
  eapply wp_update_table; [rewrite Et; apply lookup_insert_eq|]. set (tb := with_entries _ _).
  assert (ht_entries tb = replicate (Z.to_nat (ht_count ptb)) (Slot None 0)) as Ee.
  { unfold tb, copied. simpl. rewrite drop_ge by (rewrite length_replicate; lia).
    rewrite app_nil_r, take_ge; [done|]. rewrite length_replicate. lia. }
  assert (∀ j, 0 ≤ j < ht_count ptb → readable tb j) as Hread.
  { intros j Hj. exists None, 0. unfold entry_of. destruct (Z.ltb_spec j 0); [lia|]. rewrite Ee.
    apply lookup_replicate_2. lia. }
  assert (∀ j, lookup_entry tb j = None) as Hnone.
  { intros j. unfold lookup_entry, entry_of. destruct (j <? 0); [done|]. rewrite Ee.
    destruct (replicate _ _ !! _) as [e|] eqn:E; [|done]. by apply lookup_replicate_1 in E as [-> _]. }
  exists tb. split; [split|done]; try done.
  - eapply (inv_retabled k1 _ t (new_table process (ht_count ptb)) tb); [done|rewrite Et; apply lookup_insert_eq| | |apply retabled_set_table].
    + intros Ha. exfalso. apply Hdet. unfold attached in *. destruct Hrest as (_ & E1 & E2 & _). by rewrite <- E1, <- E2.
    + intros p. rewrite !uses_none; [done|apply lookup_new_table|done].
  - simpl. by rewrite Et, insert_insert_eq.
  - rewrite Ee, length_replicate. lia.
  - simpl. split_and!; [done..|lia|lia|done].
  - simpl. lia.
  - intros j. rewrite Hnone. unfold inherited. destruct (lookup_entry ptb j); [|done]. simpl.
    rewrite decide_False; [done|]. intros [_ Hin]. by apply not_elem_of_nil in Hin.
  - intros j [x Hx]. by rewrite Hnone in Hx.
  - intros p. rewrite uses_none by done. simpl. rewrite Eo. destruct (k_objs k !! p); [|done]. simpl. by rewrite gained_0.
Qed.

(** Which handles of its parent a new process asks for. *)
Definition requested (handles : option (list Z)) (std_handles : list Z) (h : Z) : Prop :=
  match handles with None => True | Some l => h ∈ canon <$> (l ++ std_handles) end.
#[local] Instance requested_dec handles std_handles h : Decision (requested handles std_handles h).
Proof. destruct handles; simpl; apply _. Defined.

Definition local_handle (h : Z) : Prop := handle_is_global h = false ∧ 0 ≤ h < 2 ^ 32.

Lemma requested_index l std_handles j :
  Forall local_handle (l ++ std_handles) → 0 ≤ j < MAX_HANDLE_ENTRIES →
  requested (Some l) std_handles (index_to_handle j) ↔ listed (handle_to_index <$> (l ++ std_handles)) j.
Proof.
  intros Hl Hj. unfold requested, listed. rewrite !list_elem_of_fmap. split.
  - intros (h & E & Hin). exists h. split; [|done].
    rewrite Forall_forall in Hl. apply list_elem_of_In in Hin as Hin'. destruct (Hl h Hin') as [_ Hh].
    unfold canon in E. rewrite (index_to_handle_small j) in E by done.
    rewrite handle_to_index_range in * by done. unfold index_to_handle in E.
    unfold MAX_HANDLE_ENTRIES in Hj.
    rewrite Z.shiftl_mul_pow2, u32_small in E by (try lia; Z.div_mod_to_equations; lia). lia.
  - intros (h & -> & Hin). exists h. done.
Qed.

(** What the new table holds, once it is shrunk. *)
Lemma copy_finish t process ptb handles std_handles sel `{!∀ j, Decision (sel j)} k k1 tb :
  table_ok ptb → ¬ attached k t →
  (∀ j, 0 ≤ j < MAX_HANDLE_ENTRIES → requested handles std_handles (index_to_handle j) ↔ sel j) →
  filled t process ptb sel k k1 tb →
  wp (_ ← shrink_handle_table t; mret (Some t)) (λ r k', r = Some t ∧ inv k' ∧ k_procs k' = k_procs k ∧
    ∃ tb', k_tables k' = <[t := tb']> (k_tables k) ∧ ht_process tb' = process ∧ table_ok tb' ∧
      view tb' = filter (λ x, has x.2.2 RESERVED_INHERIT = true ∧ requested handles std_handles x.1) (view ptb) ∧
      objects_gained tb' k k') k1.
Proof.
  intros Hok Hdet Hreq [Hinv Et Hlen (Hh1 & Hh2 & Hh3 & Hh4) Hread Hl Habove Hobj (R1 & R2 & R3 & R4)].
  pose proof (tk_last _ Hok). pose proof (tk_count _ Hok). pose proof (tk_length _ Hok).
  assert (k_tables k1 !! t = Some tb) as Ht1 by (rewrite Et; apply lookup_insert_eq).
  rewrite wp_bind. eapply wp_mono.
  { apply (shrink_spec k1 t tb Ht1); try done; rewrite ?Hh2, ?Hlen; try lia. }
  intros [] k2 (tb' & R & Hok' & Hp' & _ & _ & Hl' & Hu'). rewrite wp_ret. split; [done|].
  assert (inv k2) as Hinv2.
  { eapply (inv_retabled k1 k2 t tb tb'); try done. }
  destruct R as (E1 & E2 & E3 & E4 & E5 & _). split; [done|]. split; [by rewrite E4, R2|].
  exists tb'. split_and!; [by rewrite E2, Et, insert_insert_eq|by rewrite Hp'|done| |].
  - apply (view_inherited ptb tb' sel); [done..| |].
    + intros j. by rewrite Hl'.
    + intros j e Hj. simpl. by rewrite Hreq.
  - intros p. by rewrite Hu', E1.
Qed.

(** A table that no process has does not show. *)
Lemma handles_of_detached k k' t tb q :
  ¬ attached k t → k_procs k' = k_procs k → k_tables k' = <[t := tb]> (k_tables k) →
  handles_of k' q = handles_of k q.
Proof.
  intros Hdet Ep Et. unfold handles_of. rewrite Ep, Et. destruct (k_procs k !! q) as [qr|] eqn:Eq; [|done]. simpl.
  destruct (ps_handles qr) as [u|] eqn:Eu; [|done]. simpl. rewrite lookup_insert_ne; [done|].
  intros ->. apply Hdet. right. eauto.
Qed.

(** C33: Inheriting handles: copying the table of the parent for a new process completes, when
    every listed and every standard handle is local (a listed global handle that is valid and
    inheritable would be copied to an index outside the new table) and the reference counts
    have room for one more reference per entry. When an allocation fails nothing changes.
    Otherwise the new table, which no process has yet, holds the handles of the parent that
    carry the inherit flag and, when the creation lists the handles, are listed there or are
    standard handles, with the same numbers, objects and rights; every object gained one
    reference and one handle for each; and the handles of all existing processes are
    unchanged. *)
Theorem copy_handle_table_correct k process parent pr pt ptb handles std_handles :
  inv k → k_procs k !! parent = Some pr → ps_handles pr = Some pt → k_tables k !! pt = Some ptb →
  (∀ p o, k_objs k !! p = Some o → ko_refcount o + ht_count ptb < INT_MAX) →
  (∀ l, handles = Some l → Forall local_handle (l ++ std_handles)) →
  wp (copy_handle_table process parent handles std_handles) (λ r k',
    inv k' ∧ (∀ q, handles_of k' q = handles_of k q) ∧
    match r with
    | None => k_tables k' = k_tables k ∧ k_objs k' = k_objs k ∧ k_error k' = STATUS_NO_MEMORY
    | Some t => k_tables k !! t = None ∧ ¬ attached k t ∧ ∃ tb, k_tables k' = <[t := tb]> (k_tables k) ∧
        ht_process tb = process ∧ table_ok tb ∧
        view tb = filter (λ x, has x.2.2 RESERVED_INHERIT = true ∧ requested handles std_handles x.1) (view ptb) ∧
        ∀ p, k_objs k' !! p = gained (uses tb p) <$> k_objs k !! p
    end) k.
Proof.
  intros Hinv Hp Hpt Hptb Hrc Hlocal.
  assert (attached k pt) as Hat by (right; eauto). pose proof (iv_table _ Hinv _ _ Hat Hptb) as Hok.
  unfold copy_handle_table. rewrite wp_bind. eapply wp_dereference; [done|]. rewrite Hpt.
  rewrite wp_bind. eapply wp_dereference; [done|]. rewrite wp_bind.
  eapply wp_mono; [apply (alloc_table_spec k process (ht_count ptb) Hinv), Hok|].
  intros [t|] k1 (Hinv1 & Eo & Ep & Eg & Ec & Hn & Hr).
  2: { rewrite wp_ret. destruct Hr as [Et He]. split_and!; try done. intros q. by apply handles_of_ext. }
  destruct Hr as (Hfresh & Et & Hdet1).
  assert (t ≠ pt) as Hne by (by intros ->; rewrite Hfresh in Hptb).
  assert (¬ attached k t) as Hdet by (unfold attached in *; by rewrite <- Ep, <- Eg).
  rewrite wp_bind. destruct handles as [hs|].
  - specialize (Hlocal hs eq_refl).
    assert (Forall (λ h, handle_is_global h = false) (hs ++ std_handles)) as Hng.
    { eapply Forall_impl; [|exact Hlocal]. by intros h []. }
    apply list.Forall_app in Hng as [Hng1 Hng2].
    rewrite wp_bind. eapply wp_mono; [by apply (cleared_listing t process ptb k k1)|].
    intros [] k2 Hl2. rewrite wp_bind.
    eapply wp_mono; [by apply (inherit_all t process parent pr pt ptb k hs [] k2)|].
    intros [] k3 Hl3. eapply wp_mono; [by apply (inherit_all t process parent pr pt ptb k std_handles
      ([] ++ (handle_to_index <$> hs)) k3)|].
    intros [] k4 (tb & Hf & _). simpl in Hf. rewrite <- fmap_app in Hf.
    eapply wp_mono; [eapply (copy_finish t process ptb (Some hs) std_handles _ k k4 tb); [done..| |exact Hf]|].
    { intros j Hj. by apply requested_index. }
    intros r k' (-> & Hinv' & Ep' & tb' & Et' & Hp' & Hok' & Hv & Hobj).
    split_and!; [done|intros q; by eapply handles_of_detached|done|done|by exists tb'].
  - eapply wp_mono; [by apply (copy_all_spec t process pt ptb k k1)|].
    intros [] k2 (tb & Hf).
    eapply wp_mono; [eapply (copy_finish t process ptb None std_handles _ k k2 tb); [done..| |exact Hf]|].
    { done. }
    intros r k' (-> & Hinv' & Ep' & tb' & Et' & Hp' & Hok' & Hv & Hobj).
    split_and!; [done|intros q; by eapply handles_of_detached|done|done|by exists tb'].
Qed.
End copy.
