(* ===== verification/HandleTableWitness.v ===== *)
(** * A concrete handle table

    A process with two handles for one object, one of them inheritable, on which the
    theorems about handle tables are applied. The object's type has a close hook that
    refuses the handle 8. *)

From S2P Require Import Prelude.
From S2P Require Import ShmState.
From S2P Require Import Security.
From S2P Require Import HandleTable.
From S2P Require Import HandleTableInv.
From S2P Require Import HandleTableOps.
From S2P Require Import HandleTableSpec.
From S2P Require Import HandleTableExit.
From S2P Require Import HandleTableCopy.

Definition demo_ops : object_ops :=
  ObjectOps 1 (GenericMap 1 2 4 7) None (Some (λ _ _ h, mret (negb (h =? 8)))) (Some (λ _, mret tt)).
#[export] Instance demo_types : ObjectTypes := {| ops_of := λ _, demo_ops; process_ops := 8 |}.

Definition demo_table : handle_table :=
  HTable 100 32 1 2 (Slot (Some 10) 3 :: Slot (Some 10) (3 + RESERVED_INHERIT) :: replicate 30 Garbage).
Definition demo_process : process := Process 8 (Some 1) 0.
Definition demo_object : kobject := KObject 3 2 7 false None.
Definition demo_kernel : kernel :=
  Kernel (<[10 := demo_object]> {[100 := KObject 1 0 8 false None]})
    {[1 := demo_table]} 2 None
    (<[100 := demo_process]> {[200 := Process 12 None 0]})
    0 100 0 ∅ ∅ 0 [].

Lemma demo_hooks : hooks_ok.
Proof.
  split.
  - intros k obj process handle _ _ o hook _ [= <-]. apply (wp_ret _ _ _).
    split_and!; [by repeat split|done|by intros q o' ->|eauto].
  - intros ops destroy [= <-] p k o Hinv Ho _. apply (wp_ret _ _ _). by split_and!.
Qed.

Lemma demo_lookup i e : lookup_entry demo_table i = Some e → 0 ≤ i ≤ 1.
Proof.
  unfold lookup_entry, entry_of. destruct (Z.ltb_spec i 0); [done|]. simpl ht_entries.
  destruct (Z.to_nat i) as [|[|n]] eqn:En; [lia..|]. simpl.
  destruct (replicate 30 Garbage !! n) as [s|] eqn:E; simpl in E; [|by rewrite E].
  rewrite E. change (replicate 30 Garbage !! n = Some s) in E. by apply lookup_replicate_1 in E as [-> _].
Qed.

Lemma demo_cases (P : Z → Prop) : P 0 → P 1 → ∀ i, 0 ≤ i ≤ 1 → P i.
Proof. intros H0 H1 i Hi. destruct (decide (i = 0)) as [->|]; [done|]. by replace i with 1 by lia. Qed.

Lemma demo_table_ok : table_ok demo_table.
Proof.
  split; try done.
  - intros i Hi. revert i Hi. simpl. intros i Hi. by apply (demo_cases (λ i, is_Some (lookup_entry demo_table i))); [eexists..|lia].
  - intros i Hi. simpl in Hi. apply (demo_cases (λ i, ∃ p a, entry_of demo_table i = Some (Slot p a)));
      [by eexists _, _..|lia].
  - intros i [e He]. apply demo_lookup in He. simpl. lia.
Qed.

Lemma demo_uses p : total (k_tables demo_kernel) p = if decide (p = 10) then 2 else 0.
Proof.
  simpl. unfold total. rewrite map_fold_singleton. unfold uses. simpl.
  destruct (Z.eqb_spec p 10); case_decide; done.
Qed.

Lemma demo_inv : inv demo_kernel.
Proof.
  split.
  - intros t tb _ Ht. simpl in Ht. apply lookup_singleton_Some in Ht as [<- <-]. apply demo_table_ok.
  - intros t [tb Ht]. simpl in Ht. apply lookup_singleton_Some in Ht as [<- _]. done.
  - intros p pr t Hp Ht. simpl in *. apply lookup_insert_Some in Hp as [[<- <-]|[_ Hp]].
    + injection Ht as <-. rewrite lookup_singleton_eq. done.
    + by apply lookup_singleton_Some in Hp as [<- <-].
  - intros p p' pr pr' t Hp Hp' Ht Ht'. simpl in *.
    apply lookup_insert_Some in Hp as [[<- <-]|[_ Hp]]; [|by apply lookup_singleton_Some in Hp as [<- <-]].
    apply lookup_insert_Some in Hp' as [[<- <-]|[_ Hp']]; [done|by apply lookup_singleton_Some in Hp' as [<- <-]].
  - done.
  - done.
  - intros p o Ho. rewrite demo_uses. simpl in Ho. apply lookup_insert_Some in Ho as [[<- <-]|[_ Ho]]; [done|].
    by apply lookup_singleton_Some in Ho as [<- <-].
  - intros p. rewrite demo_uses. case_decide; [|lia]. subst. done.
Qed.

(** ** The theorems on it *)

Definition status_of {A} (d : A) (r : outcome kernel A) : A := match r with Done a _ => a | _ => d end.

Lemma handle_encoding_roundtrip_witness :
  index_to_handle 5 = 24 ∧ handle_to_index 24 = 5 ∧ handle_is_global (handle_local_to_global 24) = true.
Proof.
  pose proof (handle_encoding_roundtrip 5 ltac:(unfold MAX_HANDLE_ENTRIES; lia)) as (E & _ & _ & _ & Hg & _).
  split; [reflexivity|]. split; [exact E|exact Hg].
Defined.


Lemma alloc_handle_correct_witness :
  status_of 0 (alloc_handle_entry 100 10 1 OBJ_INHERIT demo_kernel) = 12 ∧
  wp (alloc_handle_entry 100 10 1 OBJ_INHERIT) (λ _ k', inv k') demo_kernel.
Proof.
  split; [reflexivity|]. eapply wp_mono.
  - apply (alloc_handle_correct demo_kernel 100 demo_process 10 demo_object 1 OBJ_INHERIT demo_inv); reflexivity.
  - intros h k' [Hinv _]. exact Hinv.
Defined.


Lemma copy_handle_table_correct_witness :
  status_of None (copy_handle_table 200 100 None [] demo_kernel) = Some 2 ∧
  wp (copy_handle_table 200 100 (Some [4; 8]) [0; 0; 0]) (λ _ k', inv k') demo_kernel.
Proof.
  split; [reflexivity|]. eapply wp_mono.
  - apply (copy_handle_table_correct demo_kernel 200 100 demo_process 1 demo_table (Some [4; 8]) [0; 0; 0] demo_inv).
    + reflexivity.
    + reflexivity.
    + reflexivity.
    + intros p o Ho. simpl in Ho. apply lookup_insert_Some in Ho as [[_ <-]|[_ Ho]]; [reflexivity|].
      apply lookup_singleton_Some in Ho as [_ <-]. reflexivity.
    + intros l [= <-]. unfold local_handle. repeat constructor; lia || reflexivity.
  - intros r k' [Hinv _]. exact Hinv.
Defined.

Lemma get_handle_obj_correct_witness :
  resolve demo_kernel demo_process 4 = Some (1, 0, (10, 3)) ∧
  ∃ o, k_objs demo_kernel !! 10 = Some o ∧
    get_handle_obj 100 4 1 (Some 7) demo_kernel =
      if wrong_type o (Some 7) then Done 0 (with_error STATUS_OBJECT_TYPE_MISMATCH demo_kernel)
      else if Z.land 3 1 =? 1
      then Done 10 (set_objs (<[10 := with_refcount (ko_refcount o + 1) o]> (k_objs demo_kernel)) demo_kernel)
      else Done 0 (with_error STATUS_ACCESS_DENIED demo_kernel).
Proof.
  split; [reflexivity|].
  apply (get_handle_obj_correct demo_kernel 100 demo_process 4 1 (Some 7) demo_inv); try reflexivity.
  intros obj o Ho. simpl in Ho. apply lookup_insert_Some in Ho as [[_ <-]|[_ Ho]]; [reflexivity|].
  apply lookup_singleton_Some in Ho as [_ <-]. reflexivity.
Defined.
