(* ===== verification/HandleFindings.v ===== *)
(** * Closing and duplicating: what goes wrong

    Where the code of src/server/handle.c does not do what it means to: closing a global
    handle, duplicating into one, and closing the handle of a job that ends the process. *)

From S2P Require Import Prelude.
From S2P Require Import ShmState.
From S2P Require Import Security.
From S2P Require Import HandleTable.
From S2P Require Import HandleTableInv.
From S2P Require Import HandleTableOps.
From S2P Require Import HandleTableSpec.
From S2P Require Import HandleTableExit.
From S2P Require Import HandleTableWitness.

Definition JOB_OBJECT_LIMIT_KILL_ON_JOB_CLOSE : Z := 0x2000.

(** The index of a global handle, taken without decoding it, is beyond any table. *)
Lemma global_index_large h : 0 ≤ h < 2 ^ 32 → handle_is_global h = true → MAX_HANDLE_ENTRIES ≤ handle_to_index h.
Proof.
  intros Hh Hg. rewrite handle_to_index_range by done.
  destruct (decide (h < 2 ^ 26)) as [Hs|Hs]; [by rewrite small_not_global in Hg by lia|].
  unfold MAX_HANDLE_ENTRIES. Z.div_mod_to_equations. lia.
Qed.

Section findings.
Context `{ObjectTypes}.

(** C38: Closing a global handle writes outside the table: [close_handle] finds the entry of a
    global handle by decoding it, but clears the entry at the index of the handle as given;
    for every valid global handle that is not protected, of an object without a close hook,
    this is an access beyond the end of the global table, whatever its size. *)
Theorem close_global_out_of_bounds k p pr h t i obj access o :
  inv k → k_procs k !! p = Some pr → 0 ≤ h < 2 ^ 32 → handle_is_global h = true →
  resolve k pr h = Some (t, i, (obj, access)) → has access RESERVED_CLOSE_PROTECT = false →
  k_objs k !! obj = Some o → op_close_handle (ops_of (ko_ops o)) = None →
  close_handle p h k = AssertFailed ∧
  ∀ tb, k_tables k !! t = Some tb → Z.of_nat (length (ht_entries tb)) ≤ handle_to_index h.
Proof.
  intros Hinv Hp Hh Hg Hr Hprot Ho Hhook. pose proof (global_index_large h Hh Hg) as Hlarge.
  pose proof (resolve_some _ _ _ _ _ _ _ Hr) as (tb & Ht & Hi & Hslot).
  pose proof (slot_attached k p pr h t Hp ltac:(by rewrite Hslot)) as Hatt.
  pose proof (iv_table _ Hinv _ _ Hatt Ht) as Hok. pose proof (tk_length _ Hok). pose proof (tk_count _ Hok).
  split.
  2: { intros tb' Ht'. simplify_eq. lia. }
  unfold handle_slot in Hslot. rewrite Hg in Hslot. injection Hslot as Hglob _.
  unfold close_handle. eapply run_bind; [by apply (get_handle_exec k p pr)|]. rewrite Hr. simpl.
  eapply run_bind; [by eapply read_resolved|]. simpl. rewrite Hprot.
  eapply run_bind; [done|]. eapply run_bind; [unfold object_at, deref; by rewrite Ho|]. rewrite Hhook.
  eapply run_bind; [done|]. simpl. eapply run_bind; [unfold process_at, deref; by rewrite Hp|].
  eapply run_bind; [done|]. rewrite Hg, Hglob. unfold write_ptr, mbind, M_bind, table_at, deref. rewrite Ht.
  assert (entry_of tb (handle_to_index h) = None) as ->; [|done].
  destruct (entry_of tb (handle_to_index h)) eqn:E; [|done]. apply entry_of_range in E. lia.
Qed.

(** ** Jobs *)

(** The close hook of a job with these limits; [terminate_job] ends its processes. *)
Definition job_close_handle (limit_flags : Z) (terminate_job : Z → K unit)
    (obj process handle : Z) : K bool :=
  o ← object_at obj;
  _ ← when (ko_handle_count o =? 1)
        (when (has limit_flags JOB_OBJECT_LIMIT_KILL_ON_JOB_CLOSE) (terminate_job obj));
  mret true.

(** The state at the call of the hook. *)
Lemma close_handle_hook k p pr h obj access o hook :
  inv k → k_procs k !! p = Some pr → 0 ≤ h < 2 ^ 32 → handle_is_global h = false →
  handles_of k p !! canon h = Some (obj, access) → has access RESERVED_CLOSE_PROTECT = false →
  k_objs k !! obj = Some o → op_close_handle (ops_of (ko_ops o)) = Some hook →
  ∀ k1 pr1, hook obj p h k = Done true k1 → k_procs k1 !! p = Some pr1 → ps_handles pr1 = None →
  close_handle p h k = AssertFailed.
Proof.
  intros Hinv Hp Hh Hg Hent Hprot Ho Hhook k1 pr1 Hk1 Hp1 Hnone. rewrite (resolve_local k p pr h) in Hent by done.
  destruct (resolve k pr h) as [[[t i] [obj' access']]|] eqn:Hr; [|done]. injection Hent as -> ->.
  unfold close_handle. eapply run_bind; [by apply (get_handle_exec k p pr)|]. rewrite Hr. simpl.
  eapply run_bind; [by eapply read_resolved|]. simpl. rewrite Hprot.
  eapply run_bind; [done|]. eapply run_bind; [unfold object_at, deref; by rewrite Ho|]. rewrite Hhook.
  eapply run_bind; [exact Hk1|]. simpl. eapply run_bind; [unfold process_at, deref; by rewrite Hp1|].
  eapply run_bind; [done|]. by rewrite Hg, Hnone.
Qed.

End findings.

(** ** A state with a global table *)

Definition global_demo_table : handle_table := HTable 0 32 1 2 (ht_entries demo_table).
Definition global_demo : kernel :=
  Kernel (<[10 := KObject 5 4 7 false None]> {[100 := KObject 1 0 8 false None]})
    (<[3 := global_demo_table]> {[1 := demo_table]}) 4 (Some 3)
    (<[100 := demo_process]> {[200 := Process 12 None 0]})
    0 100 0 ∅ ∅ 0 [].

Lemma global_demo_uses p : total (k_tables global_demo) p = if decide (p = 10) then 4 else 0.
Proof.
  assert (total (k_tables demo_kernel) p = uses demo_table p) as E.
  { simpl. unfold total. rewrite map_fold_singleton. lia. }
  pose proof (demo_uses p) as Hd. rewrite E in Hd. simpl. rewrite total_insert_new by done.
  change (total {[1 := demo_table]} p) with (total (k_tables demo_kernel) p). rewrite E.
  change (uses global_demo_table p) with (uses demo_table p). rewrite Hd. by case_decide.
Qed.

Lemma global_demo_inv : inv global_demo.
Proof.
  pose proof demo_table_ok as Hok. assert (table_ok global_demo_table) as Hok'.
  { destruct Hok. by split. }
  split.
  - intros t tb _ Ht. simpl in Ht. apply lookup_insert_Some in Ht as [[<- <-]|[_ Ht]]; [done|].
    by apply lookup_singleton_Some in Ht as [<- <-].
  - intros t [tb Ht]. simpl in Ht. apply lookup_insert_Some in Ht as [[<- <-]|[_ Ht]]; [done|].
    by apply lookup_singleton_Some in Ht as [<- _].
  - intros p pr t Hp Ht. simpl in *. apply lookup_insert_Some in Hp as [[<- <-]|[_ Hp]].
    + injection Ht as <-. by eexists.
    + by apply lookup_singleton_Some in Hp as [<- <-].
  - intros p p' pr pr' t Hp Hp' Ht Ht'. simpl in *.
    apply lookup_insert_Some in Hp as [[<- <-]|[_ Hp]]; [|by apply lookup_singleton_Some in Hp as [<- <-]].
    apply lookup_insert_Some in Hp' as [[<- <-]|[_ Hp']]; [done|by apply lookup_singleton_Some in Hp' as [<- <-]].
  - intros t [= <-]. by eexists.
  - intros t p pr [= <-] Hp Ht. simpl in Hp. apply lookup_insert_Some in Hp as [[<- <-]|[_ Hp]]; [done|].
    by apply lookup_singleton_Some in Hp as [<- <-].
  - intros p o Ho. rewrite global_demo_uses. simpl in Ho. apply lookup_insert_Some in Ho as [[<- <-]|[_ Ho]]; [done|].
    by apply lookup_singleton_Some in Ho as [<- <-].
  - intros p. rewrite global_demo_uses. case_decide; [|lia]. subst. by eexists.
Qed.

(** The types without hooks. *)
#[local] Instance plain_types : ObjectTypes | 0 :=
  {| ops_of := λ _, ObjectOps 1 (GenericMap 1 2 4 7) None None None; process_ops := 8 |}.

Definition is_fault {A} (r : outcome kernel A) : bool := match r with AssertFailed => true | _ => false end.

Lemma close_global_out_of_bounds_witness :
  status_of None (get_handle 100 (handle_local_to_global 4) global_demo) = Some (3, 0) ∧
  close_handle 100 (handle_local_to_global 4) global_demo = AssertFailed.
Proof.
  split; [reflexivity|].
  apply (close_global_out_of_bounds global_demo 100 demo_process (handle_local_to_global 4) 3 0 10 3
           (KObject 5 4 7 false None) global_demo_inv); try reflexivity.
  split; [by vm_compute|reflexivity].
Defined.

(** Duplicating a handle into a global one dereferences NULL when the attributes are to be
    kept, or when more rights are asked for than the source has: [dup_handle] passes no target
    process for a global duplicate, and [duplicate_handle] reads its token, or its handle
    table through [set_handle_flags]. Without those options the same request yields a global
    handle. *)
Theorem duplicate_global_null_dereference :
  let dup access options :=
    req_dup_handle 0xffffffff 4 0 access 0 (Z.lor DUPLICATE_MAKE_GLOBAL options) demo_kernel in
  status_of 0 (dup 0 DUPLICATE_SAME_ACCESS) = handle_local_to_global 4 ∧
  dup 0 (Z.lor DUPLICATE_SAME_ACCESS DUPLICATE_SAME_ATTRIBUTES) = AssertFailed ∧
  dup 7 0 = AssertFailed.
Proof. split_and!; vm_compute; reflexivity. Qed.

(** ** A process in a kill-on-close job *)

(** The state after one of the two handles of the object is closed: the other is the last one. *)
Definition last_handle_demo : kernel :=
  Eval vm_compute in match @close_handle demo_types 100 4 demo_kernel with Done _ k => k | _ => demo_kernel end.
Lemma last_handle_inv : inv last_handle_demo.
Proof.
  assert (@close_handle demo_types 100 4 demo_kernel = Done 0 last_handle_demo) as E by (vm_compute; reflexivity).
  assert (wp (@close_handle demo_types 100 4) (λ _ k', inv k') demo_kernel) as H; [|unfold wp in H; by rewrite E in H].
  eapply wp_mono; [apply (@close_handle_effect demo_types demo_kernel 100 demo_process 4); try done|].
  - apply (destroy_ok demo_hooks).
  - apply demo_inv.
  - intros obj access Eo. assert (obj = 10) as -> by (vm_compute in Eo; congruence).
    apply (close_hook_ok demo_hooks); [by eexists|apply counted_of_inv, demo_inv].
  - by intros status k' [? _].
Qed.

(** Objects are jobs; ending a job ends the process, whose own handles need no more killing. *)
Definition job_types (limit_flags : Z) : ObjectTypes :=
  {| ops_of := λ _, ObjectOps 1 (GenericMap 1 2 4 7) None
       (Some (job_close_handle limit_flags (λ _, @close_process_handles plain_types 100))) None;
     process_ops := 8 |}.

(** The state the hook leaves: the process has no handle table. *)
Definition ended_demo : kernel :=
  Eval vm_compute in match @close_process_handles plain_types 100 last_handle_demo with Done _ k => k | _ => demo_kernel end.

